(* ===== verification/_CoqProject ===== *)
-Q . S2P
Prelude.v
Owners.v
Memmap.v
Pmm.v
VmObject.v
VmMap.v
Phys.v
Pmap.v
Vm.v
VmInv.v
VmStep.v
VmDemo.v
VmFault.v
VmRelease.v
VmRaces.v
VmFork.v
VmPayload.v
VmCapture.v
VmSystem.v
Kmem.v
MemmapInit.v
Rtc.v
Random.v
Witness.v
Mutex.v
Ports.v
PortMsg.v
PortBytes.v
PortInv.v
PortDeref.v
PortSpace.v
PortSets.v
PortCalls.v
PortNotify.v
PortXlate.v
PortSlot.v
PortSend.v
PortSendMsg.v
PortRecv.v
PortSystem.v
PortRound.v
PortDemo.v
PortFlaws.v
Bio.v
BioShared.v
Fat.v
FatRead.v
FatDir.v
FatMeta.v
FatDemo.v
