(* ===== verification/Prelude.v ===== *)
(** * A verification of the style9 kernel

    The program is a small kernel for x86-64: a physical frame allocator, page
    tables, address spaces with copy-on-write, a kernel heap, Mach ports, file
    systems and drivers.  This library models its memory system from the boot
    loader's report up to fork, the Mach ports and their messages, the block
    cache with the FAT file system on it, and four services that stand beside
    them: the sleeping lock, the lock-order checker, the random numbers and the
    clock chip.  Definitions keep the names of the C functions they translate.

    ** How the parts interact

    [memmap_init] reads the loader's memory report into a sorted table;
    [pmm_init] turns the table into a bitmap and owner counts of frames;
    kmalloc and the page tables take frames from there; an address space is a
    sorted list of ranges plus a page table, and a range's pages come from a
    zero fill, a pager or a parent.  A page fault works in two windows under
    the map lock with a copy or a pager read in between, so other threads of
    the task run in the middle of it.  Tasks talk through ports: a message
    carries bytes, rights to other ports, and pages that the address spaces
    capture from the sender and map into the receiver.  A file is read through
    its directory entry and its chain of clusters, each sector by way of the
    cached page that holds it.

    ** Files

    - [Prelude]: the outcome type [res] (a routine returns or panics) with its
      bind and KASSERT, machine words with their wrap, masks, counting over an
      initial segment, arrays.
    - [Memmap], [MemmapInit]: src/kern/memmap.c with the wire formats of
      src/arch/amd64/multiboot.h and pvh.h; the report is bytes of memory.
    - [Pmm]: src/vm/pmm.c.  Its state is the record [pmm] of bitmap words,
      owner counts, cursor and counters; the abstract state is a table of
      Free, Reserved and Owned frames.
    - [Phys]: byte-addressed physical memory and the multiset of frame owners.
    - [Pmap]: the user half of src/arch/amd64/pmap.c, four-level trees in
      physical memory, and the classes [PmapOps] and [PmapSpec] that state
      what page tables promise to the layer above.
    - [VmObject]: src/vm/vm_object.c over the class [FsOps], which stands for
      the file layer of src/fs/fs.c.
    - [VmMap], [Vm]: src/vm/vm.c, the list of ranges and everything else.
      [VmInv] holds the invariant of address spaces and [VmStep] what one
      allocator or page-table call does to it; [VmFault], [VmRelease],
      [VmFork] prove the operations, [VmPayload] and [VmCapture] the memory
      that travels in messages, [VmSystem] all tasks at once, and [VmRaces]
      evaluates two schedules on the small machine of [VmDemo].
    - [Kmem]: src/kern/kmem.c over physical memory and the frame allocator.
    - [Rtc]: src/dev/rtc.c.   [Random]: src/kern/random.c.
    - [Witness]: src/kern/witness.c.
    - [Mutex]: src/kern/mutex.c, with block_release, thread_wake and the
      reaper's test of src/kern/sched.c and the waiter notes and thread_exit
      of src/kern/thread.c.
    - [Ports] and [PortMsg]: src/mach/port_object.c, port_space.c and
      port_msg.c, as functions on the record [world] of live ports, port sets
      and name tables.  An object that C frees leaves its map, so that a later
      use is a panic.  A call that parks its thread returns what it holds, and
      a second function goes on from there.  What memory in a message does is
      the class [PayloadOps], and the dispatchers of kernel objects are a
      function argument.
    - [PortInv]: the invariant, in which a multiset of (port, right) pairs has
      one element for each reference that a table, a message, a watch or a
      sleeping call holds.  [PortDeref] to [PortRecv] prove the operations
      from it, bottom up: releasing a right, tables, sets, calls on names,
      notifications, the translation of a message's rights, queue slots,
      sending, receiving.
    - [PortSystem]: all calls of all tasks as one state machine.  [PortRound]:
      calls that undo each other.  [PortDemo]: concrete runs.  [PortFlaws]:
      the runs that go wrong.
    - [Bio]: src/fs/bio.c over the class [DiskOps] of the three calls of the
      driver, and the classes [BlockOps] and [BlockSpec] of what it promises to
      a file system.  [BioShared]: its callers as threads that interleave.
    - [Fat]: src/fs/fat/fat.c over [BlockOps].  [FatRead]: sectors, table
      entries, chains and reads; [FatDir]: directories and paths, up to the
      tree a volume holds; [FatMeta]: names, times, mount and damaged volumes;
      [FatDemo]: a disk in memory with a volume of three files.

    ** What the theorems show

    - Frames: every allocator operation refines the abstract table or panics
      on exactly the documented misuse; the counters are the counts; a page
      request fails only when no frame is free; the table after boot is exact.
    - Page tables: an enter maps exactly one page with exactly the permissions
      asked for; from creation to destruction no sequence panics, and
      destruction gives every table frame back.
    - Address spaces: the ranges stay sorted and disjoint and each operation
      changes exactly its pages; a fault decides by the map and leaves every
      other page alone, and its second window is safe whatever ran before it;
      fork shares every page copy-on-write; memory sent in a message arrives
      byte for byte or is given back whole; over any interleaving of any
      number of tasks the accounting holds, nothing panics, and a store is
      seen by the task that made it only.
    - Heap: any sequence of well-behaved clients keeps blocks disjoint and
      contents intact; double frees, overruns and stale writes are caught.
    - Boot report: a report written in any of the three formats is read back.
    - Clock: a read never tears; the epoch formulas count the calendar and
      invert each other.
    - Random numbers: the streaming hash is RFC 7693's, the generator refines
      one that hashes all it gathered, and every variable stays in its width.
    - Locks: the sleeping lock keeps its list and its owner sound under kills
      and spurious wakes, and loses no wake while no thread dies; the
      lock-order checker reports exactly the inversions.
    - Ports: over any sequence of calls by any tasks every right, reference
      and queue slot is accounted for, and a call can only fault over memory
      in a message; a receive hands out names for exactly the rights that the
      message held or leaves the table as it was; a message sent and received
      arrives; a port allocated and deallocated leaves no trace.
    - Block cache: with any threads reading, writing and invalidating at once,
      no sequence of calls and results tells the cache from a bare disk.
    - FAT: a volume that holds a tree of files is listed and read back as that
      tree, through the cache; a shown name packs to its entry; times are those
      of the calendar; a mount reads the geometry that was written.
    - Flaws, each with a concrete or general counterexample: a run of frames
      that straddles the cursor is not found; a copy-on-write fault can lose a
      store and an unmapping can strand a frame when other threads run in
      between; a huge kmalloc wraps; a Multiboot 2 tag of size zero hangs the
      boot; a message that names unmapped memory panics; a killed waiter
      swallows a mutex wake, and a killed thread that closes files re-enters
      its own exit; lock cycles of three are not seen; a ring of clusters
      keeps a look-up in the kernel; the cache keeps a page that was on its way
      when its drive was invalidated and cannot read the end of a drive that is
      no whole number of pages; and eight ways in which a task can make the
      port code lose a right or use a freed object.

    ** Bounds and fuel

    Loops over a list or a count recurse on it.  Where C loops on a condition
    the model has fuel, and the theorems give an amount that is enough for
    every input they speak of: the number of managed frames for the
    allocator's scans, the remaining bytes for a hash update or a request of
    random bytes, the length of the chip's update for a clock read, the number
    of threads for a walk of the waiter list, 2^30 + 1 steps for a Multiboot 1
    report, as many clusters as a table can name for a walk along a chain
    ([FAT_FUEL]).  Releasing a right can release others in turn, as deep as messages
    nest; the model stops at the depth the kernel stack allows ([w_depth]),
    and the theorems ask for more depth than there are rights in messages,
    and for counters that are far from their width ([ample]).  Where no amount is enough that is itself a theorem.  Integers are
    [Z] with the wrap of their width written out; lengths of byte buffers and
    indices of small tables are [nat].

    ** What is not modelled

    Spinlocks are the atomicity of the sections under them.  Code that only
    prints is left out.  The services behind kernel ports, the handles of the file layer, APFS,
    drivers, program loading, system calls, run queues and context switches, the
    kernel's own page tables and TLB shootdown, and all assembly are not
    modelled; what the modelled parts use of the file layer is an interface,
    and clocks, the cycle counter and device registers are inputs. *)

From stdpp Require Import base list gmap strings numbers option.
From Stdlib Require Import ZArith Lia ZifyBool.

#[global] Open Scope Z_scope.
#[global] Set Default Goal Selector "!".

Create HintDb kern.
Create Rewrite HintDb kern.

(** * Outcomes: a kernel routine returns, or panics

    [panic] and a failed [KASSERT] stop the machine; everything else returns
    a value.  The message is kept, since it says which assertion fired. *)

Inductive res (A : Type) : Type :=
| Done (a : A)
| Panic (why : string).
Arguments Done {A} a.
Arguments Panic {A} why%_string_scope.

#[global] Instance res_ret : MRet res := fun A => @Done A.
#[global] Instance res_bind : MBind res := fun A B f m =>
  match m with
  | Done a => f a
  | Panic w => Panic w
  end.

Definition KASSERT (c : bool) (why : string) : res unit :=
  if c then Done tt else Panic why.
Arguments KASSERT c why%_string_scope.

Lemma bind_Done {A B} (f : A -> res B) (a : A) : Done a ≫= f = f a.
Proof. reflexivity. Qed.

Lemma bind_Done_inv {A B} (f : A -> res B) (m : res A) (b : B) :
  m ≫= f = Done b -> exists a, m = Done a /\ f a = Done b.
Proof. destruct m as [a|w]; cbn; [eauto|discriminate]. Qed.

Lemma KASSERT_true {A} (c : bool) why (k : unit -> res A) :
  c = true -> KASSERT c why ≫= k = k tt.
Proof. by intros ->. Qed.

Lemma KASSERT_false {A} (c : bool) why (k : unit -> res A) :
  c = false -> KASSERT c why ≫= k = Panic why.
Proof. by intros ->. Qed.

Lemma KASSERT_inv {A} (c : bool) why (k : unit -> res A) a :
  KASSERT c why ≫= k = Done a -> c = true /\ k tt = Done a.
Proof. destruct c; cbn; [eauto|discriminate]. Qed.

#[export] Hint Rewrite @bind_Done : kern.

(** * Machine words

    A w-bit unsigned integer is the [Z] in [0, 2^w); arithmetic that may
    wrap is written with its wrap. *)

Definition w64 (x : Z) : Z := x mod 2 ^ 64.
Definition w32 (x : Z) : Z := x mod 2 ^ 32.
Definition w16 (x : Z) : Z := x mod 2 ^ 16.
Definition w8 (x : Z) : Z := x mod 2 ^ 8.

Definition u64 (x : Z) : Prop := 0 <= x < 2 ^ 64.

Lemma w64_small x : 0 <= x < 2 ^ 64 -> w64 x = x.
Proof. apply Z.mod_small. Qed.
Lemma w64_range x : 0 <= w64 x < 2 ^ 64.
Proof. apply Z.mod_pos_bound. lia. Qed.
Lemma w16_small x : 0 <= x < 2 ^ 16 -> w16 x = x.
Proof. apply Z.mod_small. Qed.
Lemma w32_small x : 0 <= x < 2 ^ 32 -> w32 x = x.
Proof. apply Z.mod_small. Qed.
Lemma w8_small x : 0 <= x < 2 ^ 8 -> w8 x = x.
Proof. apply Z.mod_small. Qed.
Lemma w8_range x : 0 <= w8 x < 2 ^ 8.
Proof. apply Z.mod_pos_bound. lia. Qed.

(** Discharge a word operation whose result is in range. *)
Ltac wsmall := rewrite ?w64_small, ?w32_small, ?w16_small, ?w8_small by lia.

(** ** Masks: alignment to a power of two *)

Lemma land_ones_mod x n : 0 <= n -> Z.land x (2 ^ n - 1) = x mod 2 ^ n.
Proof.
  intros. rewrite <- Z.land_ones by lia. f_equal.
  rewrite Z.ones_equiv. lia.
Qed.

Lemma ldiff_ones_sub x n : 0 <= n -> Z.ldiff x (2 ^ n - 1) = x - x mod 2 ^ n.
Proof.
  intros. replace (2 ^ n - 1) with (Z.ones n) by (rewrite Z.ones_equiv; lia).
  rewrite Z.ldiff_ones_r by lia.
  rewrite Z.shiftl_mul_pow2, Z.shiftr_div_pow2 by lia.
  pose proof (Z.div_mod x (2 ^ n)). nia.
Qed.

(** * Counting over an initial segment of the naturals *)

Fixpoint count_upto (f : Z -> bool) (n : nat) : Z :=
  match n with
  | O => 0
  | S k => count_upto f k + (if f (Z.of_nat k) then 1 else 0)
  end.

Lemma count_upto_ext f g n :
  (forall i, 0 <= i < Z.of_nat n -> f i = g i) -> count_upto f n = count_upto g n.
Proof.
  induction n as [|n IH]; cbn [count_upto]; intros H; [done|].
  rewrite IH, H by (intros; first [apply H|idtac]; lia). done.
Qed.

Lemma count_upto_range f n : 0 <= count_upto f n <= Z.of_nat n.
Proof. induction n as [|n IH]; cbn [count_upto]; [lia|]. destruct (f _); lia. Qed.

Lemma count_upto_const b n : count_upto (fun _ => b) n = if b then Z.of_nat n else 0.
Proof. induction n as [|n IH]; cbn [count_upto]; destruct b; lia. Qed.

(** Two predicates that agree but in one place. *)
Lemma count_upto_upd f g n k :
  0 <= k < Z.of_nat n ->
  (forall i, 0 <= i < Z.of_nat n -> i <> k -> g i = f i) ->
  count_upto g n = count_upto f n + Z.b2z (g k) - Z.b2z (f k).
Proof.
  induction n as [|n IH]; cbn [count_upto]; intros Hk He; [lia|].
  destruct (Z.eq_dec k (Z.of_nat n)) as [->|Hne].
  - rewrite (count_upto_ext g f) by (intros; apply He; lia).
    destruct (f _), (g _); cbn; lia.
  - rewrite IH by (try (intros; apply He); auto; lia).
    rewrite (He (Z.of_nat n)) by lia. lia.
Qed.

Lemma count_upto_set f g n k :
  0 <= k < Z.of_nat n -> f k = false -> g k = true ->
  (forall i, 0 <= i < Z.of_nat n -> i <> k -> g i = f i) ->
  count_upto g n = count_upto f n + 1.
Proof. intros Hk Hf Hg He. rewrite (count_upto_upd f g n k Hk He), Hf, Hg. cbn. lia. Qed.

Lemma count_upto_lt f n k :
  0 <= k < Z.of_nat n -> f k = false -> count_upto f n < Z.of_nat n.
Proof.
  intros Hk Hf.
  pose proof (count_upto_set f (fun i => (i =? k) || f i) n k Hk Hf ltac:(lia)) as E.
  pose proof (count_upto_range (fun i => (i =? k) || f i) n).
  rewrite E in H; [lia|].
  intros i _ Hi. cbn. destruct (i =? k) eqn:?; lia.
Qed.

Lemma count_upto_pos f n k :
  0 <= k < Z.of_nat n -> f k = true -> 0 < count_upto f n.
Proof.
  intros Hk Hf.
  pose proof (count_upto_set (fun i => negb (i =? k) && f i) f n k Hk ltac:(lia) Hf) as E.
  pose proof (count_upto_range (fun i => negb (i =? k) && f i) n).
  rewrite E; [lia|].
  intros i _ Hi. cbn. destruct (i =? k) eqn:?; lia.
Qed.

(** * Arrays indexed by machine integers *)

Definition arr_get (a : list Z) (i : Z) : Z := nth (Z.to_nat i) a 0.
Definition arr_set (a : list Z) (i : Z) (v : Z) : list Z := <[Z.to_nat i := v]> a.

Lemma arr_set_length a i v : length (arr_set a i v) = length a.
Proof. apply length_insert. Qed.

Lemma arr_get_lookup a i :
  0 <= i < Z.of_nat (length a) -> a !! Z.to_nat i = Some (arr_get a i).
Proof.
  intros H. unfold arr_get.
  destruct (nth_lookup_or_length a (Z.to_nat i) 0) as [->|]; [done|lia].
Qed.

Lemma arr_get_set_eq a i v :
  0 <= i < Z.of_nat (length a) -> arr_get (arr_set a i v) i = v.
Proof.
  intros H. unfold arr_get, arr_set. apply nth_lookup_Some.
  apply list_lookup_insert_eq. lia.
Qed.

Lemma arr_get_set_ne a i j v :
  0 <= i -> 0 <= j -> i <> j -> arr_get (arr_set a i v) j = arr_get a j.
Proof.
  intros. unfold arr_get, arr_set. rewrite !nth_lookup.
  rewrite list_lookup_insert_ne by lia. done.
Qed.

#[export] Hint Rewrite arr_set_length : kern.

(** * Words as bytes, least significant first *)

Fixpoint le_bytes (n : nat) (v : Z) : list Z :=
  match n with O => [] | S n => v mod 256 :: le_bytes n (v / 256) end.

Lemma le_bytes_length n v : length (le_bytes n v) = n.
Proof. revert v. induction n as [|n IH]; intros v; cbn; [done|]. by rewrite IH. Qed.
