(* ===== verification/Owners.v ===== *)
(** Counting owners with multisets: what a list or a map of holders owns
    together, and what changing one holder does to it. *)

From stdpp Require Import base list numbers gmap gmultiset.
From Stdlib Require Import ZArith Lia ZifyBool.
From S2P Require Import Prelude.

(** Settle an equation or a bound on multiplicities. *)
Ltac mult := rewrite ?multiplicity_disj_union, ?multiplicity_empty; try lia.
Ltac mult_at x := apply gmultiset_eq; intros x; mult.

Section gather.
Context {K : Type} `{Countable K}.
Implicit Types M : gmultiset K.

Definition gather {A} (f : A -> gmultiset K) (l : list A) : gmultiset K := foldr (fun a X => f a ⊎ X) ∅ l.

Lemma gather_cons {A} (f : A -> gmultiset K) a l : gather f (a :: l) = f a ⊎ gather f l.
Proof. reflexivity. Qed.

#[export] Instance gather_perm {A} (f : A -> gmultiset K) : Proper ((≡ₚ) ==> (=)) (gather f).
Proof.
  intros l l' Hp. induction Hp as [|x l l' _ IH|x y l|l1 l2 l3 _ IH1 _ IH2]; rewrite ?gather_cons.
  - reflexivity.
  - by rewrite IH.
  - mult_at k.
  - by rewrite IH1.
Qed.

Lemma gather_app {A} (f : A -> gmultiset K) l1 l2 : gather f (l1 ++ l2) = gather f l1 ⊎ gather f l2.
Proof.
  induction l1 as [|a l IH]; cbn [app]; [symmetry; apply gmultiset_disj_union_left_id|].
  by rewrite !gather_cons, IH, gmultiset_disj_union_assoc.
Qed.

Lemma gather_one {A} (f : A -> gmultiset K) a : gather f [a] = f a.
Proof. apply gmultiset_disj_union_right_id. Qed.

Lemma gather_elem {A} (f : A -> gmultiset K) a l : a ∈ l -> f a ⊆ gather f l.
Proof.
  intros (l1 & l2 & ->)%list_elem_of_split. rewrite <- Permutation_middle, gather_cons. apply gmultiset_disj_union_subseteq_l.
Qed.

Lemma gather_ext {A} (f g : A -> gmultiset K) l : (forall a, a ∈ l -> f a = g a) -> gather f l = gather g l.
Proof.
  induction l as [|a l IH]; intros E; [reflexivity|]. rewrite !gather_cons, E by (by left).
  rewrite IH; [reflexivity|]. intros b Hb. apply E. by right.
Qed.

Lemma gather_none {A} (f : A -> gmultiset K) l : (forall a, a ∈ l -> f a = ∅) -> gather f l = ∅.
Proof.
  intros E. rewrite (gather_ext f (fun _ => ∅) l E). induction l as [|a l IH]; [reflexivity|].
  rewrite gather_cons, IH by (intros b Hb; apply E; by right). by rewrite gmultiset_disj_union_left_id.
Qed.

(** One element of a list replaced. *)
Lemma gather_insert {A} (f : A -> gmultiset K) l i a b :
  l !! i = Some a -> gather f (<[i := b]> l) ⊎ f a = gather f l ⊎ f b.
Proof.
  intros E. pose proof (lookup_lt_Some _ _ _ E) as L. rewrite <- (take_drop_middle l i a E) at 2.
  rewrite insert_take_drop by exact L. rewrite !gather_app, !gather_cons. mult_at k.
Qed.

(** * Maps *)

Context {I : Type} `{Countable I}.

Definition gather_map {A} (f : I -> A -> gmultiset K) (m : gmap I A) : gmultiset K :=
  gather (fun x => f x.1 x.2) (map_to_list m).

Lemma gather_map_empty {A} (f : I -> A -> gmultiset K) : gather_map f ∅ = ∅.
Proof. unfold gather_map. by rewrite map_to_list_empty. Qed.

Lemma gather_map_delete {A} (f : I -> A -> gmultiset K) m i a :
  m !! i = Some a -> gather_map f m = f i a ⊎ gather_map f (delete i m).
Proof. intros E. unfold gather_map. rewrite <- (map_to_list_delete m i a E). reflexivity. Qed.

Lemma gather_map_insert {A} (f : I -> A -> gmultiset K) m i a :
  gather_map f (<[i := a]> m) = f i a ⊎ gather_map f (delete i m).
Proof.
  rewrite (gather_map_delete f _ i a) by apply lookup_insert_eq. by rewrite delete_insert_eq.
Qed.

Lemma gather_map_ext {A} (f g : I -> A -> gmultiset K) m :
  (forall i a, m !! i = Some a -> f i a = g i a) -> gather_map f m = gather_map g m.
Proof. intros E. apply gather_ext. intros [i a] Hx%elem_of_map_to_list. by apply E. Qed.

Lemma gather_map_elem {A} (f : I -> A -> gmultiset K) m i a : m !! i = Some a -> f i a ⊆ gather_map f m.
Proof. intros E. rewrite (gather_map_delete f m i a E). apply gmultiset_disj_union_subseteq_l. Qed.

End gather.

Arguments gather {K EqDecision0 H A} f l : simpl never.
Arguments gather_map {K EqDecision0 H I EqDecision1 H0 A} f m : simpl never.
