(* ===== verification/Memmap.v ===== *)
(** The boot memory map, [kern/memmap.c]: the table the firmware's report is
    normalised into, and the insertion sort that orders it by base. *)

From stdpp Require Import base list numbers strings sorting.
From Stdlib Require Import ZArith Lia ZifyBool.
From S2P Require Import Prelude.

Definition MEMMAP_FREE : Z := 1.
Definition MEMMAP_RESERVED : Z := 2.
Definition MEMMAP_ACPI : Z := 3.
Definition MEMMAP_NVS : Z := 4.
Definition MEMMAP_BADRAM : Z := 5.
Definition MEMMAP_MAX_ENTRIES : Z := 64.

Record memmap_entry := mkEntry { me_base : Z; me_length : Z; me_type : Z }.

(** The table and the totals kept beside it. *)
Record memmap := mkMemmap {
  memmap_entries : list memmap_entry;
  memmap_total_bytes : Z;
  memmap_free_bytes : Z;
  memmap_max_pa : Z;
}.

Definition memmap_empty : memmap := mkMemmap [] 0 0 0.

Definition memmap_nentries (m : memmap) : Z := Z.of_nat (length (memmap_entries m)).

Definition memmap_add (m : memmap) (base length_ type : Z) : memmap :=
  if length_ =? 0 then m
  else if MEMMAP_MAX_ENTRIES <=? memmap_nentries m then m
  else
    let end_ := w64 (base + length_) in
    mkMemmap (memmap_entries m ++ [mkEntry base length_ type])
      (memmap_total_bytes m) (memmap_free_bytes m)
      (if memmap_max_pa m <? end_ then end_ else memmap_max_pa m).

(** The inner [while]: slide [tmp] left past every larger base.  The sorted
    prefix is kept reversed, nearest element first. *)
Fixpoint sift (tmp : memmap_entry) (prefix : list memmap_entry) : list memmap_entry :=
  match prefix with
  | e :: l => if me_base tmp <? me_base e then e :: sift tmp l else tmp :: e :: l
  | [] => [tmp]
  end.

(** The outer [for]: entry [i] is sifted into the prefix before it. *)
Definition memmap_sort (es : list memmap_entry) : list memmap_entry :=
  rev (fold_left (fun prefix e => sift e prefix) es []).

Definition memmap_recount (m : memmap) : memmap :=
  mkMemmap (memmap_entries m)
    (fold_left (fun t e => w64 (t + me_length e)) (memmap_entries m) 0)
    (fold_left (fun t e => if me_type e =? MEMMAP_FREE then w64 (t + me_length e) else t)
       (memmap_entries m) 0)
    (memmap_max_pa m).

Definition e820_to_local (e820_type : Z) : Z :=
  if e820_type =? 1 then MEMMAP_FREE
  else if e820_type =? 2 then MEMMAP_RESERVED
  else if e820_type =? 3 then MEMMAP_ACPI
  else if e820_type =? 4 then MEMMAP_NVS
  else if e820_type =? 5 then MEMMAP_BADRAM
  else MEMMAP_RESERVED.
