(* ===== verification/Pmm.v ===== *)
(** The physical page allocator, [vm/pmm.c]. *)

From stdpp Require Import base list numbers strings.
From Stdlib Require Import ZArith Lia ZifyBool.
From S2P Require Import Prelude Memmap.

Definition PAGE_SHIFT : Z := 12.
Definition PAGE_SIZE : Z := 4096.
Definition PAGE_MASK : Z := PAGE_SIZE - 1.
Definition PA_INVALID : Z := 0.
Definition PMM_HARD_CAP_BYTES : Z := Z.shiftl 1 30.

Definition PA_ROUND_DOWN (x : Z) : Z := Z.ldiff x PAGE_MASK.
Definition PA_ROUND_UP (x : Z) : Z := Z.ldiff (w64 (x + PAGE_MASK)) PAGE_MASK.

Definition page_index (pa : Z) : Z := Z.shiftr pa PAGE_SHIFT.
Definition pa_from_index (idx : Z) : Z := w64 (Z.shiftl idx PAGE_SHIFT).

(** The file-scope variables of [pmm.c]. *)
Record pmm := mkPmm {
  pmm_bitmap : list Z;
  pmm_bitmap_words : Z;
  pmm_managed_pages : Z;
  pmm_managed_pa_end : Z;
  pmm_alloc_hint : Z;
  pmm_used_count : Z;
  pmm_refs : list Z;
  pmm_shared_count : Z;
  pmm_n_ref : Z;
  pmm_n_lastref : Z;
}.

Definition with_bitmap (s : pmm) (b : list Z) : pmm :=
  mkPmm b (pmm_bitmap_words s) (pmm_managed_pages s) (pmm_managed_pa_end s)
    (pmm_alloc_hint s) (pmm_used_count s) (pmm_refs s) (pmm_shared_count s)
    (pmm_n_ref s) (pmm_n_lastref s).
Definition with_hint (s : pmm) (h : Z) : pmm :=
  mkPmm (pmm_bitmap s) (pmm_bitmap_words s) (pmm_managed_pages s) (pmm_managed_pa_end s)
    h (pmm_used_count s) (pmm_refs s) (pmm_shared_count s)
    (pmm_n_ref s) (pmm_n_lastref s).
Definition with_used (s : pmm) (u : Z) : pmm :=
  mkPmm (pmm_bitmap s) (pmm_bitmap_words s) (pmm_managed_pages s) (pmm_managed_pa_end s)
    (pmm_alloc_hint s) u (pmm_refs s) (pmm_shared_count s)
    (pmm_n_ref s) (pmm_n_lastref s).
Definition with_refs (s : pmm) (r : list Z) (sc : Z) : pmm :=
  mkPmm (pmm_bitmap s) (pmm_bitmap_words s) (pmm_managed_pages s) (pmm_managed_pa_end s)
    (pmm_alloc_hint s) (pmm_used_count s) r sc
    (pmm_n_ref s) (pmm_n_lastref s).
Definition with_stats (s : pmm) (nref nlast : Z) : pmm :=
  mkPmm (pmm_bitmap s) (pmm_bitmap_words s) (pmm_managed_pages s) (pmm_managed_pa_end s)
    (pmm_alloc_hint s) (pmm_used_count s) (pmm_refs s) (pmm_shared_count s)
    nref nlast.

(** ** Internals *)

Definition ref_get (s : pmm) (idx : Z) : Z := arr_get (pmm_refs s) idx.

Definition ref_set (s : pmm) (idx v : Z) : pmm :=
  let sc :=
    if (1 <? ref_get s idx) && (v <=? 1) then w64 (pmm_shared_count s - 1)
    else if (ref_get s idx <=? 1) && (1 <? v) then w64 (pmm_shared_count s + 1)
    else pmm_shared_count s in
  with_refs s (arr_set (pmm_refs s) idx (w16 v)) sc.

Definition mark_used (s : pmm) (idx : Z) : pmm :=
  let w := idx / 64 in
  let b := idx mod 64 in
  with_bitmap s
    (arr_set (pmm_bitmap s) w (Z.lor (arr_get (pmm_bitmap s) w) (Z.shiftl 1 b))).

Definition mark_free (s : pmm) (idx : Z) : pmm :=
  let w := idx / 64 in
  let b := idx mod 64 in
  with_bitmap s
    (arr_set (pmm_bitmap s) w
       (Z.land (arr_get (pmm_bitmap s) w) (Z.lnot (Z.shiftl 1 b)))).

Definition is_used (s : pmm) (idx : Z) : bool :=
  let w := idx / 64 in
  let b := idx mod 64 in
  negb (Z.land (arr_get (pmm_bitmap s) w) (Z.shiftl 1 b) =? 0).

(** [for (pa = start; pa < end; pa += PAGE_SIZE)] of [mark_range_used]; the
    caller gives it one unit of fuel per page. *)
Fixpoint mark_range_loop (n : nat) (s : pmm) (pa end_ : Z) : pmm :=
  match n with
  | O => s
  | S n' =>
      if pa <? end_ then
        let idx := page_index pa in
        let s := if negb (is_used s idx)
                 then with_used (mark_used s idx) (w64 (pmm_used_count s + 1))
                 else s in
        mark_range_loop n' s (pa + PAGE_SIZE) end_
      else s
  end.

Definition mark_range_used (s : pmm) (base length : Z) : pmm :=
  if length =? 0 then s
  else
    let start := PA_ROUND_DOWN base in
    let end_ := PA_ROUND_UP (w64 (base + length)) in
    if pmm_managed_pa_end s <=? start then s
    else
      let end_ := if pmm_managed_pa_end s <? end_ then pmm_managed_pa_end s else end_ in
      mark_range_loop (Z.to_nat (pmm_managed_pages s)) s start end_.

(** ** Allocation *)

(** The next-fit scan: page [start + i] modulo the managed range, for
    [i] in [0, managed). *)
Fixpoint alloc_scan (n : nat) (s : pmm) (start i : Z) : option Z :=
  match n with
  | O => None
  | S n' =>
      let idx := start + i in
      let idx := if pmm_managed_pages s <=? idx then idx - pmm_managed_pages s else idx in
      if negb (is_used s idx) then Some idx else alloc_scan n' s start (i + 1)
  end.

Definition pmm_alloc_page (s : pmm) : Z * pmm :=
  match alloc_scan (Z.to_nat (pmm_managed_pages s)) s (pmm_alloc_hint s) 0 with
  | Some idx =>
      let s := ref_set (mark_used s idx) idx 1 in
      let s := with_used s (w64 (pmm_used_count s + 1)) in
      let h := idx + 1 in
      let s := with_hint s (if pmm_managed_pages s <=? h then 0 else h) in
      (pa_from_index idx, s)
  | None => (PA_INVALID, s)
  end.

(** [while (run < npages && !is_used(start + run)) run++] *)
Fixpoint free_run_len (n : nat) (s : pmm) (start run : Z) : Z :=
  match n with
  | O => run
  | S n' => if negb (is_used s (start + run))
            then free_run_len n' s start (run + 1) else run
  end.

(** One of the two search loops of [pmm_alloc_pages]: it looks below [limit]
    and steps past the occupied page that ended a run. *)
Fixpoint find_run (n : nat) (s : pmm) (npages limit start : Z) : option Z :=
  match n with
  | O => None
  | S n' =>
      if w64 (start + npages) <=? limit then
        let run := free_run_len (Z.to_nat npages) s start 0 in
        if run =? npages then Some start
        else find_run n' s npages limit (start + run + 1)
      else None
  end.

Fixpoint mark_run (n : nat) (s : pmm) (idx : Z) : pmm :=
  match n with
  | O => s
  | S n' => mark_run n' (ref_set (mark_used s idx) idx 1) (idx + 1)
  end.

Definition take_run (s : pmm) (npages start : Z) : Z * pmm :=
  let s := mark_run (Z.to_nat npages) s start in
  let s := with_used s (w64 (pmm_used_count s + npages)) in
  let s := with_hint s (start + npages) in
  (pa_from_index start, s).

Definition pmm_alloc_pages (s : pmm) (npages : Z) : Z * pmm :=
  if npages =? 0 then (PA_INVALID, s)
  else if npages =? 1 then pmm_alloc_page s
  else
    match find_run (S (Z.to_nat (pmm_managed_pages s))) s npages
            (pmm_managed_pages s) (pmm_alloc_hint s) with
    | Some start => take_run s npages start
    | None =>
        match find_run (S (Z.to_nat (pmm_managed_pages s))) s npages
                (pmm_alloc_hint s) 0 with
        | Some start => take_run s npages start
        | None => (PA_INVALID, s)
        end
    end.

(** ** Release and sharing *)

Definition pmm_free_page (s : pmm) (pa : Z) : res pmm :=
  KASSERT (Z.land pa PAGE_MASK =? 0) "pmm_free_page: unaligned PA" ;;
  KASSERT (pa <? pmm_managed_pa_end s) "pmm_free_page: PA out of range" ;;
  let idx := page_index pa in
  KASSERT (is_used s idx) "pmm_free_page: double-free" ;;
  KASSERT (negb (ref_get s idx =? 0)) "pmm_free_page: frame was reserved, not allocated" ;;
  let s := ref_set s idx (ref_get s idx - 1) in
  if negb (ref_get s idx =? 0) then Done s
  else
    let s := with_stats s (pmm_n_ref s) (w64 (pmm_n_lastref s + 1)) in
    let s := mark_free s idx in
    let s := with_used s (w64 (pmm_used_count s - 1)) in
    Done (if idx <? pmm_alloc_hint s then with_hint s idx else s).

Fixpoint free_run_loop (n : nat) (s : pmm) (idx : Z) : res pmm :=
  match n with
  | O => Done s
  | S n' =>
      KASSERT (idx <? pmm_managed_pages s) "pmm_free_pages: range overruns managed area" ;;
      KASSERT (is_used s idx) "pmm_free_pages: double-free" ;;
      KASSERT (ref_get s idx =? 1) "pmm_free_pages: frame inside a run has other owners" ;;
      free_run_loop n' (mark_free (ref_set s idx 0) idx) (idx + 1)
  end.

Definition pmm_free_pages (s : pmm) (pa npages : Z) : res pmm :=
  KASSERT (Z.land pa PAGE_MASK =? 0) "pmm_free_pages: unaligned PA" ;;
  s ← free_run_loop (Z.to_nat npages) s (page_index pa);
  let s := with_used s (w64 (pmm_used_count s - npages)) in
  let s := with_stats s (pmm_n_ref s) (w64 (pmm_n_lastref s + npages)) in
  Done (if page_index pa <? pmm_alloc_hint s then with_hint s (page_index pa) else s).

Definition pmm_page_ref (s : pmm) (pa : Z) : res pmm :=
  KASSERT (Z.land pa PAGE_MASK =? 0) "pmm_page_ref: unaligned PA" ;;
  KASSERT (pa <? pmm_managed_pa_end s) "pmm_page_ref: PA out of range" ;;
  let idx := page_index pa in
  KASSERT (is_used s idx && negb (ref_get s idx =? 0)) "pmm_page_ref: frame is not allocated" ;;
  KASSERT (negb (ref_get s idx =? 65535)) "pmm_page_ref: owner count would wrap" ;;
  let s := ref_set s idx (ref_get s idx + 1) in
  Done (with_stats s (w64 (pmm_n_ref s + 1)) (pmm_n_lastref s)).

Definition pmm_page_refs (s : pmm) (pa : Z) : Z :=
  if negb (Z.land pa PAGE_MASK =? 0) || (pmm_managed_pa_end s <=? pa) then 0
  else ref_get s (page_index pa).

Definition pmm_reserve (s : pmm) (base length : Z) : pmm := mark_range_used s base length.
Definition pmm_shared_pages (s : pmm) : Z := pmm_shared_count s.
Definition pmm_total_pages (s : pmm) : Z := pmm_managed_pages s.
Definition pmm_free_pages_count (s : pmm) : Z := w64 (pmm_managed_pages s - pmm_used_count s).
Definition pmm_used_pages (s : pmm) : Z := pmm_used_count s.

(** ** Initialisation *)

(** [for (pa = base; pa < end; pa += PAGE_SIZE)] over a free region. *)
Fixpoint free_range_loop (n : nat) (s : pmm) (pa end_ : Z) : pmm :=
  match n with
  | O => s
  | S n' =>
      if pa <? end_ then
        let idx := page_index pa in
        let s := if is_used s idx
                 then with_used (mark_free s idx) (w64 (pmm_used_count s - 1))
                 else s in
        free_range_loop n' s (pa + PAGE_SIZE) end_
      else s
  end.

Definition free_region (s : pmm) (e : memmap_entry) : pmm :=
  if negb (me_type e =? MEMMAP_FREE) then s
  else
    let base := PA_ROUND_UP (me_base e) in
    let end_ := PA_ROUND_DOWN (w64 (me_base e + me_length e)) in
    let end_ := if pmm_managed_pa_end s <? end_ then pmm_managed_pa_end s else end_ in
    if end_ <=? base then s
    else free_range_loop (Z.to_nat (pmm_managed_pages s)) s base end_.

(** The highest end of a free region. *)
Definition max_free_end (es : list memmap_entry) : Z :=
  fold_left (fun acc e =>
    if negb (me_type e =? MEMMAP_FREE) then acc
    else let end_ := w64 (me_base e + me_length e) in
         if acc <? end_ then end_ else acc) es 0.

Fixpoint carve_bitmap_storage (es : list memmap_entry) (kernel_start kernel_end pa_end
    bytes_needed : Z) : Z :=
  match es with
  | [] => PA_INVALID
  | e :: l =>
      if negb (me_type e =? MEMMAP_FREE)
      then carve_bitmap_storage l kernel_start kernel_end pa_end bytes_needed
      else
        let kstart := PA_ROUND_DOWN kernel_start in
        let kend := PA_ROUND_UP kernel_end in
        let base := PA_ROUND_UP (me_base e) in
        let end_ := PA_ROUND_DOWN (w64 (me_base e + me_length e)) in
        let base := if base <? 0x100000 then 0x100000 else base in
        let base := if (base <? kend) && (kstart <? end_) then kend else base in
        let end_ := if pa_end <? end_ then pa_end else end_ in
        if end_ <=? base
        then carve_bitmap_storage l kernel_start kernel_end pa_end bytes_needed
        else if end_ - base <? bytes_needed
        then carve_bitmap_storage l kernel_start kernel_end pa_end bytes_needed
        else base
  end.

(** Phase 2's starting point: every page used, no page owned. *)
Definition pmm_blank (pages pa_end : Z) : pmm :=
  let words := (pages + 63) / 64 in
  mkPmm (replicate (Z.to_nat words) (2 ^ 64 - 1)) words pages pa_end 0 pages
    (replicate (Z.to_nat pages) 0) 0 0 0.

Definition pmm_init (m : memmap) (kernel_start kernel_end : Z) : res pmm :=
  if memmap_max_pa m =? 0 then Panic "pmm_init: memmap_init was not called"
  else
    let mfe := max_free_end (memmap_entries m) in
    if mfe =? 0 then Panic "pmm_init: no FREE regions in memmap"
    else
      let pa_end := if PMM_HARD_CAP_BYTES <? mfe then PMM_HARD_CAP_BYTES else mfe in
      let pa_end := PA_ROUND_UP pa_end in
      let pages := Z.shiftr pa_end PAGE_SHIFT in
      let bm_bytes := (pages + 63) / 64 * 8 in
      let rc_bytes := pages * 2 in
      let carve_bytes := PA_ROUND_UP bm_bytes + rc_bytes in
      let bm_pa := carve_bitmap_storage (memmap_entries m) kernel_start kernel_end
                     pa_end carve_bytes in
      if bm_pa =? PA_INVALID
      then Panic "pmm_init: no usable region big enough for the frame bookkeeping"
      else
        let s := pmm_blank pages pa_end in
        let s := fold_left free_region (memmap_entries m) s in
        let s := mark_range_used s 0 0x100000 in
        let kstart := PA_ROUND_DOWN kernel_start in
        let kend := PA_ROUND_UP kernel_end in
        let s := mark_range_used s kstart (w64 (kend - kstart)) in
        let s := mark_range_used s bm_pa carve_bytes in
        Done (with_hint s 0).

(** * The invariant *)

(** Who holds a frame: nobody; the machine (never allocated, never freed);
    or [n] owners. *)
Inductive frame := Free | Reserved | Owned (n : Z).

#[global] Instance frame_eq_dec : EqDecision frame.
Proof. solve_decision. Defined.

Definition frame_of (s : pmm) (idx : Z) : frame :=
  if is_used s idx then if ref_get s idx =? 0 then Reserved else Owned (ref_get s idx)
  else Free.

Record pmm_wf (s : pmm) : Prop := {
  wf_words : pmm_bitmap_words s = (pmm_managed_pages s + 63) / 64;
  wf_bitmap : Z.of_nat (length (pmm_bitmap s)) = pmm_bitmap_words s;
  wf_word : Forall u64 (pmm_bitmap s);
  wf_refs : Z.of_nat (length (pmm_refs s)) = pmm_managed_pages s;
  wf_pages : 0 <= pmm_managed_pages s <= 2 ^ 18;
  wf_pa_end : pmm_managed_pa_end s = pmm_managed_pages s * PAGE_SIZE;
  wf_hint : 0 <= pmm_alloc_hint s <= pmm_managed_pages s;
  wf_used : pmm_used_count s = count_upto (is_used s) (Z.to_nat (pmm_managed_pages s));
  wf_shared : pmm_shared_count s =
              count_upto (fun i => 1 <? ref_get s i) (Z.to_nat (pmm_managed_pages s));
  wf_ref : forall i, 0 <= i < pmm_managed_pages s ->
           0 <= ref_get s i < 2 ^ 16 /\ (ref_get s i <> 0 -> is_used s i = true);
}.

(** Frame 0 is part of the reserved low megabyte, so no allocation ever
    returns [PA_INVALID] as a page. *)
Record pmm_ok (s : pmm) : Prop := {
  ok_wf : pmm_wf s;
  ok_pages : 0 < pmm_managed_pages s;
  ok_zero : frame_of s 0 = Reserved;
}.

(** * Bits of the bitmap *)

Lemma land_bit_testbit x b : 0 <= b -> negb (Z.land x (Z.shiftl 1 b) =? 0) = Z.testbit x b.
Proof.
  intros Hb. rewrite Z.shiftl_1_l.
  destruct (Z.testbit x b) eqn:E.
  - apply negb_true_iff, Z.eqb_neq. intros H.
    assert (Z.testbit (Z.land x (2 ^ b)) b = false) as C by (rewrite H; apply Z.testbit_0_l).
    rewrite Z.land_spec, E, Z.pow2_bits_true in C by lia. discriminate.
  - apply negb_false_iff, Z.eqb_eq. apply Z.bits_inj'. intros n Hn.
    rewrite Z.land_spec, Z.testbit_0_l, Z.pow2_bits_eqb by lia.
    destruct (Z.eqb_spec b n) as [->|]; [by rewrite E|apply andb_false_r].
Qed.

Lemma is_used_testbit s i : is_used s i = Z.testbit (arr_get (pmm_bitmap s) (i / 64)) (i mod 64).
Proof. unfold is_used. apply land_bit_testbit. apply Z.mod_pos_bound. lia. Qed.

Lemma u64_lor x b : u64 x -> 0 <= b < 64 -> u64 (Z.lor x (Z.shiftl 1 b)).
Proof.
  intros [H0 H1] Hb. rewrite Z.shiftl_1_l.
  assert (0 <= Z.lor x (2 ^ b)) by (apply Z.lor_nonneg; lia).
  split; [done|]. destruct (Z.eq_dec (Z.lor x (2 ^ b)) 0) as [->|]; [lia|].
  apply Z.log2_lt_pow2; [lia|]. rewrite Z.log2_lor by lia.
  rewrite Z.log2_pow2 by lia. apply Z.max_lub_lt; [|lia].
  destruct (Z.eq_dec x 0) as [->|]; [cbn; lia|]. apply Z.log2_lt_pow2; lia.
Qed.

Lemma u64_land_lnot x y : u64 x -> u64 (Z.land x (Z.lnot y)).
Proof.
  intros H. assert (Z.land x (Z.ones 64) = x) as E
    by (rewrite Z.land_ones by lia; by apply Z.mod_small).
  rewrite <- E, <- Z.land_assoc, (Z.land_comm (Z.ones 64)), Z.land_assoc.
  rewrite Z.land_ones by lia. apply Z.mod_pos_bound. lia.
Qed.

Definition in_bitmap (s : pmm) (i : Z) : Prop := 0 <= i / 64 < Z.of_nat (length (pmm_bitmap s)).

Lemma in_bitmap_wf s i : pmm_wf s -> 0 <= i < pmm_managed_pages s -> in_bitmap s i.
Proof.
  intros W Hi. unfold in_bitmap. rewrite (wf_bitmap s W), (wf_words s W).
  split; [apply Z.div_pos; lia|].
  apply Z.div_lt_upper_bound; [lia|]. pose proof (Z.div_mod (pmm_managed_pages s + 63) 64).
  pose proof (Z.mod_pos_bound (pmm_managed_pages s + 63) 64). lia.
Qed.

Lemma split64 i j : i / 64 = j / 64 -> i mod 64 = j mod 64 -> i = j.
Proof. intros. rewrite (Z.div_mod i 64), (Z.div_mod j 64) by lia. congruence. Qed.

Lemma is_used_mark_used s i j :
  in_bitmap s i -> 0 <= i -> 0 <= j -> is_used (mark_used s i) j = (i =? j) || is_used s j.
Proof.
  intros Hb Hi Hj. rewrite !is_used_testbit. cbn [pmm_bitmap mark_used with_bitmap].
  assert (0 <= i / 64) by (apply Z.div_pos; lia). assert (0 <= j / 64) by (apply Z.div_pos; lia).
  pose proof (Z.mod_pos_bound i 64). pose proof (Z.mod_pos_bound j 64).
  destruct (Z.eq_dec (i / 64) (j / 64)) as [E|E].
  - rewrite <- E, arr_get_set_eq by done. rewrite Z.lor_spec, Z.shiftl_1_l, Z.pow2_bits_eqb by lia.
    destruct (Z.eqb_spec (i mod 64) (j mod 64)) as [E'|E'].
    + rewrite orb_true_r. rewrite (split64 i j) by done. by rewrite Z.eqb_refl.
    + rewrite orb_false_r. destruct (Z.eqb_spec i j); [congruence|done].
  - rewrite arr_get_set_ne by lia. destruct (Z.eqb_spec i j); [congruence|done].
Qed.

Lemma is_used_mark_free s i j :
  in_bitmap s i -> 0 <= i -> 0 <= j -> is_used (mark_free s i) j = negb (i =? j) && is_used s j.
Proof.
  intros Hb Hi Hj. rewrite !is_used_testbit. cbn [pmm_bitmap mark_free with_bitmap].
  assert (0 <= i / 64) by (apply Z.div_pos; lia). assert (0 <= j / 64) by (apply Z.div_pos; lia).
  pose proof (Z.mod_pos_bound i 64). pose proof (Z.mod_pos_bound j 64).
  destruct (Z.eq_dec (i / 64) (j / 64)) as [E|E].
  - rewrite <- E, arr_get_set_eq by done.
    rewrite Z.land_spec, Z.lnot_spec, Z.shiftl_1_l, Z.pow2_bits_eqb by lia.
    destruct (Z.eqb_spec (i mod 64) (j mod 64)) as [E'|E'].
    + rewrite andb_false_r. rewrite (split64 i j) by done. by rewrite Z.eqb_refl.
    + rewrite andb_true_r. destruct (Z.eqb_spec i j); [congruence|done].
  - rewrite arr_get_set_ne by lia. destruct (Z.eqb_spec i j); [congruence|done].
Qed.

Lemma ref_get_ref_set s i j v :
  0 <= i < Z.of_nat (length (pmm_refs s)) -> 0 <= j ->
  ref_get (ref_set s i v) j = if i =? j then w16 v else ref_get s j.
Proof.
  intros Hi Hj. unfold ref_get, ref_set. cbn [pmm_refs with_refs].
  destruct (Z.eqb_spec i j) as [<-|]; [by rewrite arr_get_set_eq|by rewrite arr_get_set_ne by lia].
Qed.

(** The parts of the state an update leaves alone. *)
Lemma is_used_ref_set s i v j : is_used (ref_set s i v) j = is_used s j.
Proof. done. Qed.
Lemma ref_get_mark_used s i j : ref_get (mark_used s i) j = ref_get s j.
Proof. done. Qed.
Lemma ref_get_mark_free s i j : ref_get (mark_free s i) j = ref_get s j.
Proof. done. Qed.
Lemma frame_of_hint s h j : frame_of (with_hint s h) j = frame_of s j.
Proof. done. Qed.
Lemma frame_of_used s u j : frame_of (with_used s u) j = frame_of s j.
Proof. done. Qed.
Lemma frame_of_stats s a b j : frame_of (with_stats s a b) j = frame_of s j.
Proof. done. Qed.

(** Pages and physical addresses *)

Lemma page_index_div pa : page_index pa = pa / PAGE_SIZE.
Proof. unfold page_index, PAGE_SHIFT. by rewrite Z.shiftr_div_pow2 by lia. Qed.

Lemma pa_from_index_mul i : 0 <= i < 2 ^ 18 -> pa_from_index i = i * PAGE_SIZE.
Proof.
  intros. unfold pa_from_index, PAGE_SHIFT, PAGE_SIZE. rewrite Z.shiftl_mul_pow2 by lia.
  apply w64_small. lia.
Qed.

Lemma PAGE_MASK_ones : PAGE_MASK = 2 ^ 12 - 1.
Proof. done. Qed.

Lemma page_aligned pa : (Z.land pa PAGE_MASK =? 0) = (pa mod PAGE_SIZE =? 0).
Proof. by rewrite PAGE_MASK_ones, land_ones_mod by lia. Qed.

Lemma page_index_mul i : page_index (i * PAGE_SIZE) = i.
Proof. rewrite page_index_div. unfold PAGE_SIZE. by rewrite Z.div_mul by lia. Qed.

Lemma PA_ROUND_DOWN_eq x : PA_ROUND_DOWN x = x - x mod PAGE_SIZE.
Proof. unfold PA_ROUND_DOWN. by rewrite PAGE_MASK_ones, ldiff_ones_sub by lia. Qed.

Lemma PA_ROUND_UP_eq x : 0 <= x -> x + PAGE_MASK < 2 ^ 64 ->
  PA_ROUND_UP x = x + PAGE_MASK - (x + PAGE_MASK) mod PAGE_SIZE.
Proof.
  intros. unfold PA_ROUND_UP. rewrite w64_small by (unfold PAGE_MASK, PAGE_SIZE in *; lia).
  rewrite PAGE_MASK_ones at 2. by rewrite ldiff_ones_sub by lia.
Qed.

Lemma PA_ROUND_UP_aligned x : PA_ROUND_UP x mod PAGE_SIZE = 0 /\ 0 <= PA_ROUND_UP x < 2 ^ 64.
Proof.
  unfold PA_ROUND_UP. pose proof (w64_range (x + PAGE_MASK)). set (y := w64 _) in *.
  rewrite PAGE_MASK_ones, ldiff_ones_sub by lia.
  change (2 ^ 12) with 4096. unfold PAGE_SIZE. Z.div_mod_to_equations. lia.
Qed.

Lemma PA_ROUND_UP_bounds x : 0 <= x -> x + PAGE_MASK < 2 ^ 64 ->
  x <= PA_ROUND_UP x /\ PA_ROUND_UP x <= x + PAGE_MASK /\ PA_ROUND_UP x mod PAGE_SIZE = 0.
Proof.
  intros ? H. rewrite PA_ROUND_UP_eq by done. unfold PAGE_MASK, PAGE_SIZE in *.
  Z.div_mod_to_equations. lia.
Qed.

Lemma PA_ROUND_DOWN_bounds x : x - PAGE_MASK <= PA_ROUND_DOWN x <= x /\ PA_ROUND_DOWN x mod PAGE_SIZE = 0.
Proof. rewrite PA_ROUND_DOWN_eq. unfold PAGE_MASK, PAGE_SIZE. Z.div_mod_to_equations. lia. Qed.

(** * One frame at a time

    Every routine changes the bitmap and the owner counts one frame at a
    time; [wf_one] says what such a change must keep, and each atomic change
    is an instance. *)

Lemma wf_used_bound s : pmm_wf s -> 0 <= pmm_used_count s <= pmm_managed_pages s.
Proof.
  intros W. rewrite (wf_used s W). pose proof (wf_pages s W).
  pose proof (count_upto_range (is_used s) (Z.to_nat (pmm_managed_pages s))). lia.
Qed.

Lemma wf_shared_bound s : pmm_wf s -> 0 <= pmm_shared_count s <= pmm_managed_pages s.
Proof.
  intros W. rewrite (wf_shared s W). pose proof (wf_pages s W).
  pose proof (count_upto_range (fun i => 1 <? ref_get s i) (Z.to_nat (pmm_managed_pages s))). lia.
Qed.

Lemma wf_one s s' i :
  pmm_wf s -> 0 <= i < pmm_managed_pages s ->
  pmm_bitmap_words s' = pmm_bitmap_words s -> pmm_managed_pages s' = pmm_managed_pages s ->
  pmm_managed_pa_end s' = pmm_managed_pa_end s ->
  length (pmm_bitmap s') = length (pmm_bitmap s) -> Forall u64 (pmm_bitmap s') ->
  length (pmm_refs s') = length (pmm_refs s) ->
  0 <= pmm_alloc_hint s' <= pmm_managed_pages s ->
  (forall j, 0 <= j -> j <> i -> is_used s' j = is_used s j /\ ref_get s' j = ref_get s j) ->
  pmm_used_count s' = pmm_used_count s + Z.b2z (is_used s' i) - Z.b2z (is_used s i) ->
  pmm_shared_count s' =
    pmm_shared_count s + Z.b2z (1 <? ref_get s' i) - Z.b2z (1 <? ref_get s i) ->
  0 <= ref_get s' i < 2 ^ 16 -> (ref_get s' i <> 0 -> is_used s' i = true) ->
  pmm_wf s'.
Proof.
  intros W Hi E1 E2 E3 L1 Wd L2 Hh Hj Hu Hs Hr Hru.
  pose proof (wf_pages s W). constructor.
  - rewrite E1, E2. apply W.
  - rewrite E1, L1. apply W.
  - done.
  - rewrite E2, L2. apply W.
  - rewrite E2. apply W.
  - rewrite E3, E2. apply W.
  - rewrite E2. done.
  - rewrite Hu, E2, (wf_used s W). symmetry. apply count_upto_upd; [lia|].
    intros j ? ?. by apply Hj; lia.
  - rewrite Hs, E2, (wf_shared s W). symmetry.
    apply (count_upto_upd (fun i => 1 <? ref_get s i) (fun i => 1 <? ref_get s' i)); [lia|].
    intros j ? ?. destruct (Hj j) as [_ ->]; done || lia.
  - rewrite E2. intros j ?. destruct (Z.eq_dec j i) as [->|]; [done|].
    destruct (Hj j) as [-> ->]; [lia|done|]. by apply W.
Qed.

(** The shared counter after one [ref_set]: it never wraps. *)
Lemma ref_set_shared s i v :
  pmm_wf s -> 0 <= i < pmm_managed_pages s -> 0 <= v < 2 ^ 16 ->
  pmm_shared_count (ref_set s i v) =
    pmm_shared_count s + Z.b2z (1 <? v) - Z.b2z (1 <? ref_get s i).
Proof.
  intros W Hi Hv. pose proof (wf_shared_bound s W). pose proof (wf_pages s W).
  assert ((1 <? ref_get s i) = true -> 0 < pmm_shared_count s) as P.
  { intros. rewrite (wf_shared s W). apply (count_upto_pos _ _ i); [lia|done]. }
  unfold ref_set. cbn [pmm_shared_count with_refs].
  destruct (1 <? ref_get s i) eqn:E1, (v <=? 1) eqn:E2, (ref_get s i <=? 1) eqn:E3,
    (1 <? v) eqn:E4; cbn; try lia; rewrite w64_small by lia; lia.
Qed.

Lemma Forall_arr_set P a i v : Forall P a -> P v -> Forall P (arr_set a i v).
Proof. intros. by apply Forall_insert. Qed.

Lemma Forall_arr_get P a i : Forall P a -> 0 <= i < Z.of_nat (length a) -> P (arr_get a i).
Proof. intros H Hi. eapply Forall_lookup_1; [done|]. by apply arr_get_lookup. Qed.

Lemma mark_used_words s i :
  pmm_wf s -> 0 <= i < pmm_managed_pages s -> Forall u64 (pmm_bitmap (mark_used s i)).
Proof.
  intros W Hi. cbn. pose proof (Z.mod_pos_bound i 64).
  apply Forall_arr_set; [apply W|]. apply u64_lor; [|lia].
  apply Forall_arr_get; [apply W|by apply in_bitmap_wf].
Qed.

Lemma mark_free_words s i :
  pmm_wf s -> 0 <= i < pmm_managed_pages s -> Forall u64 (pmm_bitmap (mark_free s i)).
Proof.
  intros W Hi. cbn. apply Forall_arr_set; [apply W|]. apply u64_land_lnot.
  apply Forall_arr_get; [apply W|by apply in_bitmap_wf].
Qed.

#[export] Hint Resolve mark_used_words mark_free_words in_bitmap_wf : kern.

(** Solve the side conditions of [wf_one] that hold by computation. *)
Ltac wf_frame := cbn; rewrite ?arr_set_length; first [done | lia | auto].

(** [mark_used] and [mark_free] inside the managed range. *)
Lemma used_after_mark s i j :
  pmm_wf s -> 0 <= i < pmm_managed_pages s -> 0 <= j ->
  is_used (mark_used s i) j = (i =? j) || is_used s j.
Proof. intros. apply is_used_mark_used; [by apply in_bitmap_wf|lia|done]. Qed.

Lemma used_after_free s i j :
  pmm_wf s -> 0 <= i < pmm_managed_pages s -> 0 <= j ->
  is_used (mark_free s i) j = negb (i =? j) && is_used s j.
Proof. intros. apply is_used_mark_free; [by apply in_bitmap_wf|lia|done]. Qed.

Lemma ref_after_set s i j v :
  pmm_wf s -> 0 <= i < pmm_managed_pages s -> 0 <= j -> 0 <= v < 2 ^ 16 ->
  ref_get (ref_set s i v) j = if i =? j then v else ref_get s j.
Proof.
  intros W ???. rewrite ref_get_ref_set by (rewrite ?(wf_refs s W); lia).
  by rewrite w16_small by lia.
Qed.

Lemma wf_unused_ref s i :
  pmm_wf s -> 0 <= i < pmm_managed_pages s -> is_used s i = false -> ref_get s i = 0.
Proof.
  intros W Hi Hu. destruct (Z.eq_dec (ref_get s i) 0) as [|R]; [done|].
  apply (wf_ref s W i Hi) in R. congruence.
Qed.

(** A free frame becomes used, with no owner: [mark_used]. *)
Lemma wf_reserve s i :
  pmm_wf s -> 0 <= i < pmm_managed_pages s -> is_used s i = false ->
  pmm_wf (with_used (mark_used s i) (w64 (pmm_used_count s + 1))).
Proof.
  intros W Hi Hu. pose proof (wf_used_bound s W). pose proof (wf_pages s W).
  pose proof (wf_unused_ref s i W Hi Hu) as R0.
  pose proof (fun j => used_after_mark s i j W Hi) as U.
  set (s' := with_used _ _).
  assert (forall j, is_used s' j = is_used (mark_used s i) j) as U' by done.
  assert (forall j, ref_get s' j = ref_get s j) as R' by done.
  apply (wf_one s s' i W Hi); rewrite ?U', ?R', ?U, ?R0, ?Z.eqb_refl, ?Hu by lia;
    try (wf_frame; fail).
  - by apply mark_used_words.
  - apply W.
  - intros j ? ?. rewrite U', U by lia. destruct (Z.eqb_spec i j); [lia|done].
  - cbn. rewrite w64_small; lia.
Qed.

(** A reserved frame is given to the allocator: [mark_free]. *)
Lemma wf_unreserve s i :
  pmm_wf s -> 0 <= i < pmm_managed_pages s -> is_used s i = true -> ref_get s i = 0 ->
  pmm_wf (with_used (mark_free s i) (w64 (pmm_used_count s - 1))).
Proof.
  intros W Hi Hu R0. pose proof (wf_used_bound s W). pose proof (wf_pages s W).
  assert (0 < pmm_used_count s).
  { rewrite (wf_used s W). apply (count_upto_pos _ _ i); [lia|done]. }
  pose proof (fun j => used_after_free s i j W Hi) as U.
  set (s' := with_used _ _).
  assert (forall j, is_used s' j = is_used (mark_free s i) j) as U' by done.
  assert (forall j, ref_get s' j = ref_get s j) as R' by done.
  apply (wf_one s s' i W Hi); rewrite ?U', ?R', ?U, ?R0, ?Z.eqb_refl, ?Hu by lia;
    try (wf_frame; fail).
  - by apply mark_free_words.
  - apply W.
  - intros j ? ?. rewrite U', U by lia. destruct (Z.eqb_spec i j); [lia|done].
  - cbn. rewrite w64_small; lia.
Qed.

(** The owner count of a used frame changes: [ref_set]. *)
Lemma wf_ref_set s i v :
  pmm_wf s -> 0 <= i < pmm_managed_pages s -> is_used s i = true -> 0 <= v < 2 ^ 16 ->
  pmm_wf (ref_set s i v).
Proof.
  intros W Hi Hu Hv. pose proof (fun j => ref_after_set s i j v W Hi) as R.
  pose proof (ref_set_shared s i v W Hi Hv).
  apply (wf_one s _ i W Hi); rewrite ?is_used_ref_set, ?R, ?Z.eqb_refl by lia;
    try (wf_frame; fail).
  - apply W.
  - apply W.
  - intros j ? ?. rewrite R by lia. destruct (Z.eqb_spec i j); [lia|done].
Qed.

Lemma wf_with_hint s h :
  pmm_wf s -> 0 <= h <= pmm_managed_pages s -> pmm_wf (with_hint s h).
Proof. intros [] ?. by constructor. Qed.

Lemma wf_with_stats s a b : pmm_wf s -> pmm_wf (with_stats s a b).
Proof. intros []. by constructor. Qed.

(** A free frame gets its first owner. *)
Lemma wf_take s i :
  pmm_wf s -> 0 <= i < pmm_managed_pages s -> is_used s i = false ->
  pmm_wf (with_used (ref_set (mark_used s i) i 1) (w64 (pmm_used_count s + 1))).
Proof.
  intros W Hi Hu. pose proof (wf_reserve s i W Hi Hu) as W'.
  apply (wf_ref_set _ i 1 W'); [done| |lia].
  change (is_used (mark_used s i) i = true).
  rewrite used_after_mark, Z.eqb_refl by (done || lia). done.
Qed.

(** A frame's last owner leaves. *)
Lemma wf_release s i :
  pmm_wf s -> 0 <= i < pmm_managed_pages s -> is_used s i = true ->
  pmm_wf (with_used (mark_free (ref_set s i 0) i) (w64 (pmm_used_count s - 1))).
Proof.
  intros W Hi Hu. pose proof (wf_ref_set s i 0 W Hi Hu ltac:(lia)) as W'.
  apply (wf_unreserve _ i W'); [done|done|].
  rewrite ref_after_set, Z.eqb_refl by (done || lia). done.
Qed.

#[export] Hint Resolve wf_take wf_release wf_reserve wf_ref_set wf_with_hint wf_with_stats : kern.

(** * What each change does to the frames *)

Lemma frame_after_take s i j :
  pmm_wf s -> 0 <= i < pmm_managed_pages s -> 0 <= j ->
  frame_of (ref_set (mark_used s i) i 1) j = if i =? j then Owned 1 else frame_of s j.
Proof.
  intros W Hi Hj. unfold frame_of.
  rewrite is_used_ref_set, used_after_mark by done.
  rewrite ref_get_ref_set by (cbn; rewrite ?(wf_refs s W); lia).
  by destruct (Z.eqb_spec i j).
Qed.

Lemma frame_after_reserve s i j :
  pmm_wf s -> 0 <= i < pmm_managed_pages s -> 0 <= j -> is_used s i = false ->
  frame_of (mark_used s i) j = if i =? j then Reserved else frame_of s j.
Proof.
  intros W Hi Hj Hu. unfold frame_of.
  rewrite used_after_mark, ref_get_mark_used by done.
  destruct (Z.eqb_spec i j) as [->|]; [|done]. cbn. by rewrite wf_unused_ref.
Qed.

Lemma frame_after_release s i j :
  pmm_wf s -> 0 <= i < pmm_managed_pages s -> 0 <= j -> is_used s i = true ->
  frame_of (mark_free (ref_set s i 0) i) j = if i =? j then Free else frame_of s j.
Proof.
  intros W Hi Hj Hu. unfold frame_of.
  assert (pmm_wf (ref_set s i 0)) as W' by (apply wf_ref_set; done || lia).
  rewrite used_after_free, is_used_ref_set, ref_get_mark_free, ref_after_set by (done || lia).
  by destruct (Z.eqb_spec i j).
Qed.

Lemma frame_after_ref_set s i j v :
  pmm_wf s -> 0 <= i < pmm_managed_pages s -> 0 <= j -> is_used s i = true -> 0 < v < 2 ^ 16 ->
  frame_of (ref_set s i v) j = if i =? j then Owned v else frame_of s j.
Proof.
  intros W Hi Hj Hu Hv. unfold frame_of.
  rewrite is_used_ref_set, ref_after_set by (done || lia).
  destruct (Z.eqb_spec i j) as [->|]; [|done]. rewrite Hu.
  destruct (Z.eqb_spec v 0); [lia|done].
Qed.

Lemma frame_free_iff s i : frame_of s i = Free <-> is_used s i = false.
Proof. unfold frame_of. destruct (is_used s i), (ref_get s i =? 0); split; congruence. Qed.

Lemma frame_reserved_iff s i :
  frame_of s i = Reserved <-> is_used s i = true /\ ref_get s i = 0.
Proof.
  unfold frame_of. destruct (is_used s i), (Z.eqb_spec (ref_get s i) 0); intuition congruence.
Qed.

Lemma frame_owned_iff s i n :
  frame_of s i = Owned n <-> is_used s i = true /\ ref_get s i = n /\ n <> 0.
Proof.
  unfold frame_of. destruct (is_used s i), (Z.eqb_spec (ref_get s i) 0); intuition congruence.
Qed.

(** * The next-fit scan *)

Definition wrap_page (s : pmm) (x : Z) : Z :=
  if pmm_managed_pages s <=? x then x - pmm_managed_pages s else x.

Lemma alloc_scan_Some n s start i idx :
  0 <= start <= pmm_managed_pages s -> 0 <= i -> i + Z.of_nat n <= pmm_managed_pages s ->
  alloc_scan n s start i = Some idx ->
  0 <= idx < pmm_managed_pages s /\ is_used s idx = false.
Proof.
  revert i. induction n as [|n IH]; cbn [alloc_scan]; intros i Hs Hi Hn; [discriminate|].
  fold (wrap_page s (start + i)). destruct (is_used s (wrap_page s (start + i))) eqn:E; cbn.
  - apply IH; lia.
  - intros [= <-]. split; [|done]. unfold wrap_page.
    destruct (pmm_managed_pages s <=? start + i) eqn:?; lia.
Qed.

Lemma alloc_scan_None n s start i :
  alloc_scan n s start i = None ->
  forall k, i <= k < i + Z.of_nat n -> is_used s (wrap_page s (start + k)) = true.
Proof.
  revert i. induction n as [|n IH]; cbn [alloc_scan]; intros i; [intros; lia|].
  fold (wrap_page s (start + i)). destruct (is_used s (wrap_page s (start + i))) eqn:E; cbn;
    [|discriminate].
  intros H k Hk. destruct (Z.eq_dec k i) as [->|]; [done|]. apply (IH (i + 1) H). lia.
Qed.

Lemma alloc_scan_full s :
  pmm_wf s ->
  alloc_scan (Z.to_nat (pmm_managed_pages s)) s (pmm_alloc_hint s) 0 = None ->
  forall p, 0 <= p < pmm_managed_pages s -> is_used s p = true.
Proof.
  intros W H p Hp. pose proof (wf_hint s W).
  pose proof (alloc_scan_None _ _ _ _ H) as A.
  set (k := if pmm_alloc_hint s <=? p then p - pmm_alloc_hint s
            else p - pmm_alloc_hint s + pmm_managed_pages s).
  replace p with (wrap_page s (pmm_alloc_hint s + k)); [apply A|];
    unfold k, wrap_page; destruct (pmm_alloc_hint s <=? p) eqn:?; [lia|lia| |];
    destruct (_ <=? pmm_alloc_hint s + _) eqn:?; lia.
Qed.

(** * The abstract allocator

    What a client may rely on: a map from frames to who holds them, and for
    each call the step it makes.  Pointwise equality is equality of views. *)

Definition view := Z -> frame.

Definition view_eq (n : Z) (f g : view) : Prop := forall i, 0 <= i < n -> f i = g i.

#[global] Instance view_eq_equiv n : Equivalence (view_eq n).
Proof.
  split; unfold view_eq; [done|intros f g H i Hi; symmetry; by apply H|].
  intros f g h H1 H2 i Hi. rewrite H1 by done. by apply H2.
Qed.

Definition view_upd (f : view) (i : Z) (x : frame) : view := fun j => if i =? j then x else f j.

Definition view_upd_run (f : view) (i k : Z) (x : frame) : view :=
  fun j => if (i <=? j) && (j <? i + k) then x else f j.

#[global] Instance view_upd_proper n :
  Proper (view_eq n ==> eq ==> eq ==> view_eq n) view_upd.
Proof. intros f g H i _ <- x _ <- j Hj. unfold view_upd. by rewrite (H j Hj). Qed.

#[global] Instance view_upd_run_proper n :
  Proper (view_eq n ==> eq ==> eq ==> eq ==> view_eq n) view_upd_run.
Proof. intros f g H i _ <- k _ <- x _ <- j Hj. unfold view_upd_run. by rewrite (H j Hj). Qed.

Inductive pmm_op :=
| OpAlloc
| OpAllocRun (npages : Z)
| OpFree (pa : Z)
| OpFreeRun (pa npages : Z)
| OpRef (pa : Z)
| OpReserve (base length : Z).

(** [spec_step n f op r g]: with [n] managed frames held as [f], [op] may
    return [r] and leave them held as [g]. *)
Inductive spec_step (n : Z) (f : view) : pmm_op -> Z -> view -> Prop :=
| sp_alloc i :
    0 < i < n -> f i = Free ->
    spec_step n f OpAlloc (i * PAGE_SIZE) (view_upd f i (Owned 1))
| sp_alloc_none :
    (forall i, 0 <= i < n -> f i <> Free) -> spec_step n f OpAlloc PA_INVALID f
| sp_run i k :
    0 < k -> 0 < i -> i + k <= n -> (forall j, i <= j < i + k -> f j = Free) ->
    spec_step n f (OpAllocRun k) (i * PAGE_SIZE) (view_upd_run f i k (Owned 1))
| sp_run_none k :
    spec_step n f (OpAllocRun k) PA_INVALID f
| sp_free_last i :
    0 <= i < n -> f i = Owned 1 ->
    spec_step n f (OpFree (i * PAGE_SIZE)) 0 (view_upd f i Free)
| sp_free_shared i c :
    0 <= i < n -> f i = Owned c -> 1 < c ->
    spec_step n f (OpFree (i * PAGE_SIZE)) 0 (view_upd f i (Owned (c - 1)))
| sp_free_run i k :
    0 <= i -> 0 <= k -> (0 < k -> i + k <= n) -> (forall j, i <= j < i + k -> f j = Owned 1) ->
    spec_step n f (OpFreeRun (i * PAGE_SIZE) k) 0 (view_upd_run f i k Free)
| sp_ref i c :
    0 <= i < n -> f i = Owned c -> c < 65535 ->
    spec_step n f (OpRef (i * PAGE_SIZE)) 0 (view_upd f i (Owned (c + 1)))
| sp_reserve base len g :
    (forall i, 0 <= i < n ->
       g i = if decide (f i = Free /\ 0 < len /\
                      base / PAGE_SIZE <= i < (base + len + PAGE_MASK) / PAGE_SIZE)
             then Reserved else f i) ->
    spec_step n f (OpReserve base len) 0 g.

(** The concrete call behind each operation. *)
Definition pmm_run (s : pmm) (op : pmm_op) : res (Z * pmm) :=
  match op with
  | OpAlloc => Done (pmm_alloc_page s)
  | OpAllocRun k => Done (pmm_alloc_pages s k)
  | OpFree pa => s' ← pmm_free_page s pa; Done (0, s')
  | OpFreeRun pa k => s' ← pmm_free_pages s pa k; Done (0, s')
  | OpRef pa => s' ← pmm_page_ref s pa; Done (0, s')
  | OpReserve base len => Done (0, pmm_reserve s base len)
  end.

(** * Each call refines its step *)

Lemma ok_zero_used s : pmm_ok s -> is_used s 0 = true.
Proof. intros K. apply ok_zero, frame_reserved_iff in K. apply K. Qed.

Lemma ok_index_lt s i : pmm_ok s -> 0 <= i < pmm_managed_pages s -> 0 <= i < 2 ^ 18.
Proof. intros K. pose proof (wf_pages s (ok_wf s K)). lia. Qed.

(** A change that keeps the invariant and leaves frame 0 alone keeps [pmm_ok]. *)
Lemma ok_step s s' (g : view) :
  pmm_ok s -> pmm_wf s' -> pmm_managed_pages s' = pmm_managed_pages s ->
  view_eq (pmm_managed_pages s) (frame_of s') g -> g 0 = Reserved -> pmm_ok s'.
Proof.
  intros K W E V G. pose proof (ok_pages s K). constructor; [done|lia|].
  rewrite V by lia. done.
Qed.

Lemma alloc_page_spec s :
  pmm_ok s ->
  let '(pa, s') := pmm_alloc_page s in
  pmm_ok s' /\ pmm_managed_pages s' = pmm_managed_pages s /\
  exists g, spec_step (pmm_managed_pages s) (frame_of s) OpAlloc pa g /\
            view_eq (pmm_managed_pages s) (frame_of s') g.
Proof.
  intros K. pose proof (ok_wf s K) as W. pose proof (wf_hint s W). pose proof (wf_pages s W).
  unfold pmm_alloc_page. destruct (alloc_scan _ _ _ _) as [i|] eqn:E.
  - apply alloc_scan_Some in E as [Hi Hu]; [|lia..].
    assert (i <> 0) by (intros ->; rewrite ok_zero_used in Hu; done).
    set (s' := with_hint _ _).
    assert (view_eq (pmm_managed_pages s) (frame_of s') (view_upd (frame_of s) i (Owned 1))) as V.
    { intros j Hj. apply frame_after_take; done || lia. }
    assert (pmm_wf s') as W'.
    { apply wf_with_hint; [by apply (wf_take s i)|]. cbn.
      destruct (pmm_managed_pages s <=? i + 1) eqn:?; lia. }
    split; [|split; [done|]].
    + apply (ok_step s s' _ K W' eq_refl V). unfold view_upd.
      destruct (Z.eqb_spec i 0); [lia|]. apply K.
    + eexists. split; [|exact V]. rewrite pa_from_index_mul by lia.
      apply sp_alloc; [lia|by apply frame_free_iff].
  - split; [done|split; [done|]]. exists (frame_of s). split; [|done].
    apply sp_alloc_none. intros i Hi Hf%frame_free_iff.
    rewrite (alloc_scan_full s W E i Hi) in Hf. done.
Qed.

(** ** Runs *)

Lemma free_run_len_spec n s start run :
  let r := free_run_len n s start run in
  run <= r <= run + Z.of_nat n /\
  (forall j, start + run <= j < start + r -> is_used s j = false) /\
  (r < run + Z.of_nat n -> is_used s (start + r) = true).
Proof.
  revert run. induction n as [|n IH]; cbn [free_run_len]; intros run.
  - repeat split; intros; lia.
  - destruct (is_used s (start + run)) eqn:E; cbn.
    + repeat split; intros; first [lia|done].
    + specialize (IH (run + 1)) as (H1 & H2 & H3). repeat split; [lia|lia| |].
      * intros j Hj. destruct (Z.eq_dec j (start + run)) as [->|]; [done|]. apply H2. lia.
      * intros. apply H3. lia.
Qed.

Definition run_free (s : pmm) (i k : Z) : Prop := forall j, i <= j < i + k -> is_used s j = false.

Lemma find_run_Some n s k limit start i :
  0 < k < 2 ^ 63 -> 0 <= start <= limit -> limit < 2 ^ 62 ->
  find_run n s k limit start = Some i -> start <= i /\ i + k <= limit /\ run_free s i k.
Proof.
  intros Hk. revert start. induction n as [|n IH]; cbn [find_run]; intros start Hs Hl; [done|].
  rewrite w64_small by lia. destruct (start + k <=? limit) eqn:E1; [|done].
  pose proof (free_run_len_spec (Z.to_nat k) s start 0) as (H1 & H2 & _).
  set (r := free_run_len _ _ _ _) in *.
  destruct (Z.eqb_spec r k) as [->|Hne].
  - intros [= <-]. split; [done|]. split; [lia|]. intros j Hj. apply H2. lia.
  - intros H. apply IH in H; [|lia..]. intuition lia.
Qed.

(** The search fails only when no run of that length lies between [start]
    and [limit]: stepping past the page that ended a short run skips no
    candidate. *)
Lemma find_run_None n s k limit start :
  0 < k < 2 ^ 63 -> 0 <= start <= limit -> limit < 2 ^ 62 -> limit - start < Z.of_nat n ->
  find_run n s k limit start = None ->
  forall i, start <= i -> i + k <= limit -> ~ run_free s i k.
Proof.
  intros Hk. revert start. induction n as [|n IH]; cbn [find_run]; intros start Hs Hl Hn; [lia|].
  rewrite w64_small by lia. destruct (start + k <=? limit) eqn:E1; [|intros _ i ? ? _; lia].
  pose proof (free_run_len_spec (Z.to_nat k) s start 0) as (H1 & H2 & H3).
  set (r := free_run_len _ _ _ _) in *.
  destruct (Z.eqb_spec r k) as [->|Hne]; [done|].
  intros H i Hi Hik F. destruct (Z_le_gt_dec i (start + r)).
  - assert (is_used s (start + r) = true) as U by (apply H3; lia).
    rewrite F in U by lia. done.
  - by apply (IH (start + r + 1) ltac:(lia) Hl ltac:(lia) H i); [lia|..].
Qed.

Lemma mark_run_used n s i u : mark_run n (with_used s u) i = with_used (mark_run n s i) u.
Proof.
  revert s i. induction n as [|n IH]; cbn [mark_run]; intros s i; [done|].
  exact (IH (ref_set (mark_used s i) i 1) (i + 1)).
Qed.

Lemma mark_run_pages n s i : pmm_managed_pages (mark_run n s i) = pmm_managed_pages s.
Proof. revert s i. induction n as [|n IH]; cbn [mark_run]; intros; [done|]. by rewrite IH. Qed.

Lemma mark_run_count n s i : pmm_used_count (mark_run n s i) = pmm_used_count s.
Proof. revert s i. induction n as [|n IH]; cbn [mark_run]; intros; [done|]. by rewrite IH. Qed.

Lemma mark_run_spec n s i :
  pmm_wf s -> 0 <= i -> i + Z.of_nat n <= pmm_managed_pages s -> run_free s i (Z.of_nat n) ->
  pmm_wf (with_used (mark_run n s i) (pmm_used_count s + Z.of_nat n)) /\
  view_eq (pmm_managed_pages s) (frame_of (mark_run n s i))
    (view_upd_run (frame_of s) i (Z.of_nat n) (Owned 1)).
Proof.
  revert s i. induction n as [|n IH]; intros s i W Hi Hn F; cbn [mark_run].
  - split.
    + destruct W. by constructor; cbn; rewrite ?Z.add_0_r.
    + intros j Hj. unfold view_upd_run.
      destruct ((i <=? j) && (j <? i + Z.of_nat 0)) eqn:?; [lia|done].
  - assert (is_used s i = false) as Hu by (apply F; lia).
    pose proof (wf_take s i W ltac:(lia) Hu) as W1.
    pose proof (wf_used_bound s W). pose proof (wf_pages s W).
    rewrite w64_small in W1 by lia.
    set (s1 := ref_set (mark_used s i) i 1) in *.
    assert (forall j, 0 <= j -> frame_of s1 j = if i =? j then Owned 1 else frame_of s j) as F1
      by (intros; apply frame_after_take; done || lia).
    destruct (IH _ (i + 1) W1) as [W2 V2]; [lia|cbn; lia| |].
    { intros j Hj. change (is_used s1 j = false). apply frame_free_iff.
      rewrite F1 by lia. destruct (Z.eqb_spec i j); [lia|]. apply frame_free_iff, F. lia. }
    rewrite mark_run_used in W2, V2. split.
    + replace (pmm_used_count s + Z.of_nat (S n)) with (pmm_used_count s + 1 + Z.of_nat n) by lia.
      exact W2.
    + intros j Hj. rewrite <- (frame_of_used _ (pmm_used_count s + 1)), V2 by done.
      unfold view_upd_run. rewrite frame_of_used, F1 by lia.
      destruct (Z.eqb_spec i j); destruct ((i + 1 <=? j) && (j <? i + 1 + Z.of_nat n)) eqn:?;
        destruct ((i <=? j) && (j <? i + Z.of_nat (S n))) eqn:?; first [done|lia].
Qed.

Lemma take_run_spec s k i :
  pmm_ok s -> 0 < k -> 0 <= i -> i + k <= pmm_managed_pages s -> run_free s i k ->
  let '(pa, s') := take_run s k i in
  pmm_ok s' /\ pmm_managed_pages s' = pmm_managed_pages s /\ pa = i * PAGE_SIZE /\ 0 < i /\
  view_eq (pmm_managed_pages s) (frame_of s') (view_upd_run (frame_of s) i k (Owned 1)).
Proof.
  intros K Hk Hi Hik F. pose proof (ok_wf s K) as W.
  pose proof (wf_used_bound s W). pose proof (wf_pages s W).
  assert (i <> 0) by (intros ->; specialize (F 0 ltac:(lia)); rewrite ok_zero_used in F; done).
  destruct (mark_run_spec (Z.to_nat k) s i W) as [W1 V]; rewrite ?Z2Nat.id by lia; [lia|lia|done|].
  rewrite Z2Nat.id in W1, V by lia.
  unfold take_run. rewrite mark_run_count, w64_small by lia.
  assert (pmm_wf (with_hint (with_used (mark_run (Z.to_nat k) s i) (pmm_used_count s + k)) (i + k)))
    as W2 by (apply wf_with_hint; [done|cbn; rewrite mark_run_pages; lia]).
  split; [|split; [apply mark_run_pages|split; [apply pa_from_index_mul; lia|split; [lia|exact V]]]].
  apply (ok_step s _ (view_upd_run (frame_of s) i k (Owned 1)) K W2 (mark_run_pages _ _ _) V).
  unfold view_upd_run. destruct ((i <=? 0) && (0 <? i + k)) eqn:?; [lia|]. apply K.
Qed.

Lemma alloc_to_run n f pa g :
  spec_step n f OpAlloc pa g ->
  exists g', spec_step n f (OpAllocRun 1) pa g' /\ view_eq n g g'.
Proof.
  inversion 1; subst.
  - exists (view_upd_run f i 1 (Owned 1)). split.
    + apply sp_run; [lia..|]. intros j ?. by replace j with i by lia.
    + intros j ?. unfold view_upd, view_upd_run.
      destruct (Z.eqb_spec i j), ((i <=? j) && (j <? i + 1)) eqn:?; done || lia.
  - exists g. split; [apply sp_run_none|done].
Qed.

Lemma alloc_pages_spec s k :
  pmm_ok s -> 0 <= k < 2 ^ 63 ->
  let '(pa, s') := pmm_alloc_pages s k in
  pmm_ok s' /\ pmm_managed_pages s' = pmm_managed_pages s /\
  exists g, spec_step (pmm_managed_pages s) (frame_of s) (OpAllocRun k) pa g /\
            view_eq (pmm_managed_pages s) (frame_of s') g.
Proof.
  intros K Hk. pose proof (ok_wf s K) as W. pose proof (wf_hint s W). pose proof (wf_pages s W).
  assert (exists g, spec_step (pmm_managed_pages s) (frame_of s) (OpAllocRun k) PA_INVALID g /\
            view_eq (pmm_managed_pages s) (frame_of s) g) as N
    by (eexists; split; [apply sp_run_none|done]).
  assert (forall i, 0 < k -> 0 <= i -> i + k <= pmm_managed_pages s -> run_free s i k ->
    let '(pa, s') := take_run s k i in
    pmm_ok s' /\ pmm_managed_pages s' = pmm_managed_pages s /\
    exists g, spec_step (pmm_managed_pages s) (frame_of s) (OpAllocRun k) pa g /\
              view_eq (pmm_managed_pages s) (frame_of s') g) as T.
  { intros i Hk0 Hi Hik F. pose proof (take_run_spec s k i K Hk0 Hi Hik F) as T.
    destruct (take_run s k i) as [pa s']. destruct T as (K' & E & -> & Hi0 & V).
    split; [done|split; [done|]]. eexists. split; [|exact V].
    apply sp_run; [done..|]. intros j Hj. by apply frame_free_iff, F. }
  unfold pmm_alloc_pages. destruct (Z.eqb_spec k 0) as [->|]; [done|].
  destruct (Z.eqb_spec k 1) as [->|].
  { pose proof (alloc_page_spec s K) as A. destruct (pmm_alloc_page s) as [pa s'].
    destruct A as (K' & E & g & St & V). split; [done|split; [done|]].
    destruct (alloc_to_run _ _ _ _ St) as (g' & St' & V'). exists g'. split; [done|]. by rewrite V. }
  destruct (find_run _ _ _ (pmm_managed_pages s) _) as [i|] eqn:E1.
  { apply find_run_Some in E1 as (? & ? & ?); [|lia..]. by apply T; [lia..|]. }
  destruct (find_run _ _ _ (pmm_alloc_hint s) _) as [i|] eqn:E2; [|done].
  apply find_run_Some in E2 as (? & ? & ?); [|lia..]. by apply T; [lia..|].
Qed.

(** ** Release *)

Lemma index_aligned i : (Z.land (i * PAGE_SIZE) PAGE_MASK =? 0) = true.
Proof. rewrite page_aligned. unfold PAGE_SIZE. rewrite Z.mod_mul by lia. done. Qed.

Lemma index_in_range s i :
  pmm_wf s -> (i * PAGE_SIZE <? pmm_managed_pa_end s) = (i <? pmm_managed_pages s).
Proof. intros W. rewrite (wf_pa_end s W). unfold PAGE_SIZE. lia. Qed.

Lemma wf_owned_range s i c :
  pmm_wf s -> 0 <= i < pmm_managed_pages s -> frame_of s i = Owned c -> 0 < c < 2 ^ 16.
Proof. intros W Hi (_ & <- & ?)%frame_owned_iff. pose proof (wf_ref s W i Hi). lia. Qed.

Lemma free_page_owned s i c :
  pmm_ok s -> 0 <= i < pmm_managed_pages s -> frame_of s i = Owned c ->
  exists s', pmm_free_page s (i * PAGE_SIZE) = Done s' /\ pmm_ok s' /\
    pmm_managed_pages s' = pmm_managed_pages s /\
    view_eq (pmm_managed_pages s) (frame_of s')
      (view_upd (frame_of s) i (if c =? 1 then Free else Owned (c - 1))).
Proof.
  intros K Hi O. pose proof (ok_wf s K) as W. pose proof (wf_owned_range s i c W Hi O).
  pose proof (proj1 (frame_owned_iff s i c) O) as (Hu & R & _).
  assert (i <> 0) by (intros ->; rewrite (ok_zero s K) in O; done).
  unfold pmm_free_page. rewrite index_aligned, index_in_range, page_index_mul by done.
  destruct (Z.ltb_spec i (pmm_managed_pages s)) as [_|]; [|lia].
  rewrite Hu, R. destruct (Z.eqb_spec c 0) as [|_]; [lia|]. cbn [KASSERT negb].
  autorewrite with kern. rewrite ref_after_set, Z.eqb_refl by (done || lia).
  pose proof (wf_hint s W).
  destruct (Z.eqb_spec c 1) as [->|Hc]; cbn [negb Z.sub Z.add Z.opp Z.eqb].
  - set (s1 := with_used (mark_free (ref_set s i 0) i) (w64 (pmm_used_count s - 1))).
    assert (pmm_wf s1) as W1 by (by apply wf_release).
    assert (view_eq (pmm_managed_pages s) (frame_of s1) (view_upd (frame_of s) i Free)) as V.
    { intros j Hj. apply frame_after_release; done || lia. }
    eexists. split; [reflexivity|].
    set (s2 := if i <? _ then _ else _).
    assert (pmm_wf s2 /\ pmm_managed_pages s2 = pmm_managed_pages s /\
            forall j, frame_of s2 j = frame_of s1 j) as (W2 & E2 & V2).
    { unfold s2. destruct (i <? _); split; try done.
      - apply wf_with_hint; [by apply (wf_with_stats s1)|cbn; lia].
      - by apply (wf_with_stats s1). }
    assert (view_eq (pmm_managed_pages s) (frame_of s2) (view_upd (frame_of s) i Free)) as V'.
    { intros j Hj. by rewrite V2, V. }
    split; [|done]. apply (ok_step s s2 _ K W2 E2 V').
    unfold view_upd. destruct (Z.eqb_spec i 0); [lia|apply K].
  - destruct (Z.eqb_spec (c - 1) 0); [lia|]. eexists. split; [reflexivity|].
    assert (view_eq (pmm_managed_pages s) (frame_of (ref_set s i (c - 1)))
      (view_upd (frame_of s) i (Owned (c - 1)))) as V.
    { intros j Hj. apply frame_after_ref_set; done || lia. }
    split; [|done]. apply (ok_step s _ _ K (wf_ref_set s i (c - 1) W Hi Hu ltac:(lia)) eq_refl V).
    unfold view_upd. destruct (Z.eqb_spec i 0); [lia|apply K].
Qed.

(** Freeing anything but an owned frame stops the machine. *)
Lemma free_page_panics s pa :
  pmm_ok s -> 0 <= pa ->
  (forall i c, pa = i * PAGE_SIZE -> 0 <= i < pmm_managed_pages s -> frame_of s i <> Owned c) ->
  exists why, pmm_free_page s pa = Panic why.
Proof.
  intros K Hpa N. unfold pmm_free_page.
  destruct (Z.land pa PAGE_MASK =? 0) eqn:E1; cbn; [|eauto].
  destruct (pa <? pmm_managed_pa_end s) eqn:E2; cbn; [|eauto].
  rewrite page_aligned in E1. rewrite (wf_pa_end s (ok_wf s K)) in E2.
  set (i := page_index pa). assert (pa = i * PAGE_SIZE) as Epa.
  { unfold i. rewrite page_index_div. unfold PAGE_SIZE in *. Z.div_mod_to_equations. lia. }
  destruct (is_used s i) eqn:E3; cbn; [|eauto].
  destruct (Z.eqb_spec (ref_get s i) 0) as [|E4]; cbn; [eauto|].
  exfalso. unfold PAGE_SIZE in *. apply (N i (ref_get s i)); [lia|lia|].
  by apply frame_owned_iff.
Qed.

Lemma page_ref_owned s i c :
  pmm_ok s -> 0 <= i < pmm_managed_pages s -> frame_of s i = Owned c -> c < 65535 ->
  exists s', pmm_page_ref s (i * PAGE_SIZE) = Done s' /\ pmm_ok s' /\
    pmm_managed_pages s' = pmm_managed_pages s /\
    view_eq (pmm_managed_pages s) (frame_of s') (view_upd (frame_of s) i (Owned (c + 1))).
Proof.
  intros K Hi O Hc. pose proof (ok_wf s K) as W. pose proof (wf_owned_range s i c W Hi O).
  pose proof (proj1 (frame_owned_iff s i c) O) as (Hu & R & _).
  assert (i <> 0) by (intros ->; rewrite (ok_zero s K) in O; done).
  unfold pmm_page_ref. rewrite index_aligned, index_in_range, page_index_mul by done.
  destruct (Z.ltb_spec i (pmm_managed_pages s)) as [_|]; [|lia].
  rewrite Hu, R. destruct (Z.eqb_spec c 0) as [|_]; [lia|].
  destruct (Z.eqb_spec c 65535) as [|_]; [lia|]. cbn [KASSERT negb andb].
  autorewrite with kern. eexists. split; [reflexivity|].
  assert (view_eq (pmm_managed_pages s) (frame_of (ref_set s i (c + 1)))
    (view_upd (frame_of s) i (Owned (c + 1)))) as V.
  { intros j Hj. apply frame_after_ref_set; done || lia. }
  split; [|done].
  eapply (ok_step s _ _ K); [|done|exact V|].
  - apply (wf_with_stats (ref_set s i (c + 1))), wf_ref_set; done || lia.
  - unfold view_upd. destruct (Z.eqb_spec i 0); [lia|apply K].
Qed.

Lemma page_ref_panics s pa :
  pmm_ok s -> 0 <= pa ->
  (forall i c, pa = i * PAGE_SIZE -> 0 <= i < pmm_managed_pages s ->
     frame_of s i = Owned c -> c = 65535) ->
  exists why, pmm_page_ref s pa = Panic why.
Proof.
  intros K Hpa N. unfold pmm_page_ref.
  destruct (Z.land pa PAGE_MASK =? 0) eqn:E1; cbn; [|eauto].
  destruct (pa <? pmm_managed_pa_end s) eqn:E2; cbn; [|eauto].
  rewrite page_aligned in E1. rewrite (wf_pa_end s (ok_wf s K)) in E2.
  set (i := page_index pa). assert (pa = i * PAGE_SIZE) as Epa.
  { unfold i. rewrite page_index_div. unfold PAGE_SIZE in *. Z.div_mod_to_equations. lia. }
  destruct (is_used s i) eqn:E3; cbn; [|eauto].
  destruct (Z.eqb_spec (ref_get s i) 0) as [|E4]; cbn; [eauto|].
  rewrite (N i (ref_get s i)); cbn; [eauto|done| |by apply frame_owned_iff].
  unfold PAGE_SIZE in *. lia.
Qed.

(** ** Releasing a run *)

Lemma free_run_used n s i u :
  free_run_loop n (with_used s u) i = (s' ← free_run_loop n s i; Done (with_used s' u)).
Proof.
  revert s i. induction n as [|n IH]; cbn [free_run_loop]; intros s i; [done|].
  cbn [pmm_managed_pages with_used]. change (is_used (with_used s u) i) with (is_used s i).
  change (ref_get (with_used s u) i) with (ref_get s i).
  destruct (i <? _); cbn; [|done]. destruct (is_used s i); cbn; [|done].
  destruct (ref_get s i =? 1); cbn; [|done].
  exact (IH (mark_free (ref_set s i 0) i) (i + 1)).
Qed.

Lemma free_run_frame n s i s' :
  free_run_loop n s i = Done s' ->
  pmm_used_count s' = pmm_used_count s /\ pmm_alloc_hint s' = pmm_alloc_hint s /\
  pmm_managed_pages s' = pmm_managed_pages s.
Proof.
  revert s i. induction n as [|n IH]; cbn [free_run_loop]; intros s i; [by intros [= <-]|].
  intros (_ & (_ & (_ & E)%KASSERT_inv)%KASSERT_inv)%KASSERT_inv. apply (IH _ _ E).
Qed.

Lemma free_run_spec n s i :
  pmm_wf s -> 0 <= i -> (n <> O -> i + Z.of_nat n <= pmm_managed_pages s) ->
  (forall j, i <= j < i + Z.of_nat n -> frame_of s j = Owned 1) ->
  exists s', free_run_loop n s i = Done s' /\
    pmm_wf (with_used s' (pmm_used_count s - Z.of_nat n)) /\
    view_eq (pmm_managed_pages s) (frame_of s') (view_upd_run (frame_of s) i (Z.of_nat n) Free).
Proof.
  revert s i. induction n as [|n IH]; intros s i W Hi Hn F; cbn [free_run_loop].
  - exists s. split; [done|]. split.
    + destruct W. by constructor; cbn; rewrite ?Z.sub_0_r.
    + intros j Hj. unfold view_upd_run.
      destruct ((i <=? j) && (j <? i + Z.of_nat 0)) eqn:?; [lia|done].
  - specialize (Hn ltac:(done)).
    pose proof (proj1 (frame_owned_iff s i 1) (F i ltac:(lia))) as (Hu & R & _).
    destruct (Z.ltb_spec i (pmm_managed_pages s)); [|lia]. rewrite Hu, R. cbn [KASSERT Z.eqb].
    autorewrite with kern.
    pose proof (wf_release s i W ltac:(lia) Hu) as W1.
    pose proof (wf_used_bound s W). pose proof (wf_pages s W).
    assert (0 < pmm_used_count s).
    { rewrite (wf_used s W). apply (count_upto_pos _ _ i); [lia|done]. }
    rewrite w64_small in W1 by lia. set (s1 := mark_free (ref_set s i 0) i) in *.
    assert (forall j, 0 <= j -> frame_of s1 j = if i =? j then Free else frame_of s j) as F1
      by (intros; apply frame_after_release; done || lia).
    destruct (IH _ (i + 1) W1) as (s' & E & W2 & V2); [lia|cbn; lia| |].
    { intros j Hj. rewrite frame_of_used, F1 by lia.
      destruct (Z.eqb_spec i j); [lia|]. apply F. lia. }
    rewrite free_run_used in E. apply bind_Done_inv in E as (s2 & E2 & [= <-]).
    exists s2. split; [exact E2|]. split.
    + replace (pmm_used_count s - Z.of_nat (S n)) with (pmm_used_count s - 1 - Z.of_nat n) by lia.
      exact W2.
    + intros j Hj. rewrite <- (frame_of_used _ (pmm_used_count s - 1)), V2 by done.
      unfold view_upd_run. rewrite frame_of_used, F1 by lia.
      destruct (Z.eqb_spec i j); destruct ((i + 1 <=? j) && (j <? i + 1 + Z.of_nat n)) eqn:?;
        destruct ((i <=? j) && (j <? i + Z.of_nat (S n))) eqn:?; first [done|lia].
Qed.

Lemma free_pages_owned s i k :
  pmm_ok s -> 0 <= i -> 0 <= k -> (0 < k -> i + k <= pmm_managed_pages s) ->
  (forall j, i <= j < i + k -> frame_of s j = Owned 1) ->
  exists s', pmm_free_pages s (i * PAGE_SIZE) k = Done s' /\ pmm_ok s' /\
    pmm_managed_pages s' = pmm_managed_pages s /\
    view_eq (pmm_managed_pages s) (frame_of s') (view_upd_run (frame_of s) i k Free).
Proof.
  intros K Hi Hk Hik F. pose proof (ok_wf s K) as W.
  pose proof (wf_used_bound s W). pose proof (wf_pages s W). pose proof (wf_hint s W).
  destruct (free_run_spec (Z.to_nat k) s i W) as (s1 & E & W1 & V); rewrite ?Z2Nat.id by lia;
    [lia|lia|done|]. rewrite Z2Nat.id in W1, V by lia.
  destruct (free_run_frame _ _ _ _ E) as (U1 & Hh1 & P1).
  pose proof (wf_used_bound _ W1) as B. cbn in B.
  unfold pmm_free_pages. rewrite index_aligned, page_index_mul. cbn [KASSERT].
  autorewrite with kern. rewrite E. autorewrite with kern.
  eexists. split; [reflexivity|]. rewrite U1, w64_small by lia. cbn [pmm_alloc_hint with_used with_stats].
  set (s2 := if i <? _ then _ else _).
  assert (pmm_wf s2 /\ pmm_managed_pages s2 = pmm_managed_pages s /\
          forall j, frame_of s2 j = frame_of s1 j) as (W2 & E2 & V2).
  { unfold s2. pose proof (wf_with_stats _ (pmm_n_ref s1) (w64 (pmm_n_lastref s1 + k)) W1) as W3.
    destruct (i <? _) eqn:?; split; try done.
    apply wf_with_hint; [exact W3|]. cbn in *. lia. }
  assert (view_eq (pmm_managed_pages s) (frame_of s2) (view_upd_run (frame_of s) i k Free)) as V'.
  { intros j Hj. by rewrite V2, V. }
  split; [|done]. apply (ok_step s s2 _ K W2 E2 V'). unfold view_upd_run.
  destruct ((i <=? 0) && (0 <? i + k)) eqn:?; [|apply K].
  specialize (F 0 ltac:(lia)). rewrite (ok_zero s K) in F. done.
Qed.

(** The run loop returns only if the whole run was the caller's alone. *)
Lemma free_run_inv n s i s' :
  pmm_wf s -> 0 <= i -> free_run_loop n s i = Done s' ->
  (n <> O -> i + Z.of_nat n <= pmm_managed_pages s) /\
  (forall j, i <= j < i + Z.of_nat n -> frame_of s j = Owned 1).
Proof.
  revert s i s'. induction n as [|n IH]; cbn [free_run_loop]; intros s i s' W Hi;
    [split; intros; lia|].
  intros (H1 & (Hu & (R & E)%KASSERT_inv)%KASSERT_inv)%KASSERT_inv.
  pose proof (wf_release s i W ltac:(lia) Hu) as W1.
  pose proof (free_run_used n (mark_free (ref_set s i 0) i) (i + 1) (w64 (pmm_used_count s - 1))) as E'.
  rewrite E in E'. autorewrite with kern in E'.
  destruct (IH _ (i + 1) _ W1 ltac:(lia) E') as [A B]. cbn in A. split.
  - intros _. destruct n; [lia|]. specialize (A ltac:(lia)). lia.
  - intros j Hj. destruct (Z.eq_dec j i) as [->|].
    + apply frame_owned_iff. lia.
    + specialize (B j ltac:(lia)). rewrite frame_of_used, frame_after_release in B by (done || lia).
      destruct (Z.eqb_spec i j); [lia|done].
Qed.

(** ** Reservation *)

Lemma mark_range_loop_spec n s p q :
  pmm_wf s -> 0 <= p -> q <= pmm_managed_pages s -> q - p <= Z.of_nat n ->
  let s' := mark_range_loop n s (p * PAGE_SIZE) (q * PAGE_SIZE) in
  pmm_wf s' /\ pmm_managed_pages s' = pmm_managed_pages s /\
  pmm_managed_pa_end s' = pmm_managed_pa_end s /\ pmm_alloc_hint s' = pmm_alloc_hint s /\
  view_eq (pmm_managed_pages s) (frame_of s')
    (fun i => if decide (frame_of s i = Free /\ p <= i < q) then Reserved else frame_of s i).
Proof.
  revert s p. induction n as [|n IH]; cbn [mark_range_loop]; intros s p W Hp Hq Hn.
  - split_and!; try done. intros i Hi. case_decide; [lia|done].
  - rewrite page_index_mul.
    replace (p * PAGE_SIZE <? q * PAGE_SIZE) with (p <? q) by (unfold PAGE_SIZE; lia).
    destruct (Z.ltb_spec p q) as [Hpq|Hpq]; cycle 1.
    { split_and!; try done. intros i Hi. case_decide; [lia|done]. }
    replace (p * PAGE_SIZE + PAGE_SIZE) with ((p + 1) * PAGE_SIZE) by (unfold PAGE_SIZE; lia).
    destruct (is_used s p) eqn:Hu; cbn [negb].
    + destruct (IH s (p + 1) W) as (W' & E1 & E2 & E3 & V); [lia..|].
      split_and!; try done. intros i Hi. rewrite V by done.
      destruct (Z.eq_dec i p) as [->|]; [|repeat case_decide; first [done|exfalso; intuition lia]].
      assert (frame_of s p <> Free) by (rewrite frame_free_iff; congruence).
      by rewrite !decide_False by tauto.
    + pose proof (wf_reserve s p W ltac:(lia) Hu) as W1.
      destruct (IH _ (p + 1) W1) as (W' & E1 & E2 & E3 & V); [lia|cbn; lia|lia|].
      split_and!; try done. intros i Hi. rewrite V by done.
      rewrite frame_of_used, frame_after_reserve by (done || lia).
      apply frame_free_iff in Hu.
      destruct (Z.eqb_spec p i) as [<-|]; [|repeat case_decide; first [done|exfalso; intuition lia]].
      rewrite decide_False by (intros [? _]; done). by rewrite decide_True by (split; [done|lia]).
Qed.

Lemma mark_range_spec s base len :
  pmm_wf s -> 0 <= base -> 0 <= len -> base + len + PAGE_MASK < 2 ^ 64 ->
  let s' := mark_range_used s base len in
  pmm_wf s' /\ pmm_managed_pages s' = pmm_managed_pages s /\
  pmm_managed_pa_end s' = pmm_managed_pa_end s /\ pmm_alloc_hint s' = pmm_alloc_hint s /\
  view_eq (pmm_managed_pages s) (frame_of s')
    (fun i => if decide (frame_of s i = Free /\ 0 < len /\
                         base / PAGE_SIZE <= i < (base + len + PAGE_MASK) / PAGE_SIZE)
              then Reserved else frame_of s i).
Proof.
  intros W Hb Hl Hov. pose proof (wf_pages s W). unfold mark_range_used.
  destruct (Z.eqb_spec len 0) as [->|].
  { split_and!; try done. intros i Hi. by rewrite decide_False by lia. }
  rewrite w64_small by (unfold PAGE_MASK, PAGE_SIZE in *; lia).
  rewrite PA_ROUND_DOWN_eq, PA_ROUND_UP_eq, (wf_pa_end s W) by (unfold PAGE_MASK, PAGE_SIZE in *; lia).
  set (p := base / PAGE_SIZE). set (q := (base + len + PAGE_MASK) / PAGE_SIZE).
  assert (base - base mod PAGE_SIZE = p * PAGE_SIZE) as ->
    by (unfold p, PAGE_SIZE; Z.div_mod_to_equations; lia).
  assert (base + len + PAGE_MASK - (base + len + PAGE_MASK) mod PAGE_SIZE = q * PAGE_SIZE) as ->
    by (unfold q, PAGE_SIZE; Z.div_mod_to_equations; lia).
  assert (0 <= p) by (unfold p, PAGE_SIZE; apply Z.div_pos; lia).
  destruct (pmm_managed_pages s * PAGE_SIZE <=? p * PAGE_SIZE) eqn:E1.
  { split_and!; try first [done|apply W]. intros i Hi. unfold PAGE_SIZE in E1. by rewrite decide_False by lia. }
  set (q' := Z.min q (pmm_managed_pages s)).
  replace (if pmm_managed_pages s * PAGE_SIZE <? q * PAGE_SIZE then _ else _) with (q' * PAGE_SIZE)
    by (unfold q', PAGE_SIZE; destruct (_ <? _) eqn:?; lia).
  destruct (mark_range_loop_spec (Z.to_nat (pmm_managed_pages s)) s p q' W)
    as (W' & E2 & E3 & E4 & V); [lia..|].
  split_and!; try first [done|rewrite E3; apply W]. intros i Hi. rewrite V by done.
  repeat case_decide; first [done|exfalso; intuition lia].
Qed.

(** ** Initialisation *)

(** No frame has been handed out yet. *)
Definition no_owner (s : pmm) : Prop := forall i, 0 <= i < pmm_managed_pages s -> ref_get s i = 0.

Lemma free_range_loop_spec n s p q :
  pmm_wf s -> no_owner s -> 0 <= p -> q <= pmm_managed_pages s -> q - p <= Z.of_nat n ->
  let s' := free_range_loop n s (p * PAGE_SIZE) (q * PAGE_SIZE) in
  pmm_wf s' /\ no_owner s' /\ pmm_managed_pages s' = pmm_managed_pages s /\
  pmm_managed_pa_end s' = pmm_managed_pa_end s /\
  view_eq (pmm_managed_pages s) (frame_of s') (view_upd_run (frame_of s) p (q - p) Free).
Proof.
  revert s p. induction n as [|n IH]; cbn [free_range_loop]; intros s p W N Hp Hq Hn.
  - split_and!; try done. intros i Hi. unfold view_upd_run.
    destruct ((p <=? i) && (i <? p + (q - p))) eqn:?; [lia|done].
  - rewrite page_index_mul.
    replace (p * PAGE_SIZE <? q * PAGE_SIZE) with (p <? q) by (unfold PAGE_SIZE; lia).
    destruct (Z.ltb_spec p q) as [Hpq|Hpq]; cycle 1.
    { split_and!; try done. intros i Hi. unfold view_upd_run.
      destruct ((p <=? i) && (i <? p + (q - p))) eqn:?; [lia|done]. }
    replace (p * PAGE_SIZE + PAGE_SIZE) with ((p + 1) * PAGE_SIZE) by (unfold PAGE_SIZE; lia).
    set (s1 := if is_used s p then _ else _).
    assert (pmm_wf s1 /\ no_owner s1 /\ pmm_managed_pages s1 = pmm_managed_pages s /\
      pmm_managed_pa_end s1 = pmm_managed_pa_end s /\
      view_eq (pmm_managed_pages s) (frame_of s1) (view_upd (frame_of s) p Free))
      as (W1 & N1 & E1 & E2 & V1).
    { unfold s1. destruct (is_used s p) eqn:Hu.
      - assert (0 <= p < pmm_managed_pages s) as Hp' by lia.
        split_and!; try done; [by apply wf_unreserve; auto|].
        intros i Hi. unfold frame_of. change (is_used (with_used (mark_free s p) _) i)
          with (is_used (mark_free s p) i). rewrite used_after_free by (done || lia).
        unfold view_upd. by destruct (Z.eqb_spec p i).
      - split_and!; try done. intros i Hi. unfold view_upd. destruct (Z.eqb_spec p i) as [<-|]; [|done].
        by apply frame_free_iff. }
    destruct (IH s1 (p + 1) W1 N1) as (W2 & N2 & E3 & E4 & V2); [lia..|].
    split_and!; try done; [congruence|congruence|].
    intros i Hi. rewrite V2, E1 in * by (rewrite ?E1; done). unfold view_upd_run.
    rewrite V1 by done. unfold view_upd.
    destruct (Z.eqb_spec p i), ((p + 1 <=? i) && (i <? p + 1 + (q - (p + 1)))) eqn:?,
      ((p <=? i) && (i <? p + (q - p))) eqn:?; first [done|lia].
Qed.

Definition entry_sane (e : memmap_entry) : Prop :=
  0 <= me_base e /\ 0 <= me_length e /\ me_base e + me_length e + PAGE_MASK < 2 ^ 64.

(** Frame [i] lies wholly inside the free region [e]. *)
Definition inside_free (e : memmap_entry) (i : Z) : Prop :=
  me_type e = MEMMAP_FREE /\ me_base e <= i * PAGE_SIZE /\
  (i + 1) * PAGE_SIZE <= me_base e + me_length e.

#[global] Instance inside_free_dec e i : Decision (inside_free e i).
Proof. unfold inside_free. apply _. Defined.

Lemma free_region_spec s e :
  pmm_wf s -> no_owner s -> entry_sane e ->
  let s' := free_region s e in
  pmm_wf s' /\ no_owner s' /\ pmm_managed_pages s' = pmm_managed_pages s /\
  pmm_managed_pa_end s' = pmm_managed_pa_end s /\
  view_eq (pmm_managed_pages s) (frame_of s')
    (fun i => if decide (inside_free e i) then Free else frame_of s i).
Proof.
  intros W N (Hb & Hl & Hov). pose proof (wf_pages s W). unfold free_region, inside_free.
  destruct (Z.eqb_spec (me_type e) MEMMAP_FREE) as [Et|]; cbn [negb]; cycle 1.
  { split_and!; try done. intros i Hi. by rewrite decide_False by tauto. }
  rewrite PA_ROUND_UP_eq, PA_ROUND_DOWN_eq, (wf_pa_end s W), w64_small
    by (unfold PAGE_MASK, PAGE_SIZE in *; lia).
  set (p := (me_base e + PAGE_MASK) / PAGE_SIZE). set (q := (me_base e + me_length e) / PAGE_SIZE).
  assert (me_base e + PAGE_MASK - (me_base e + PAGE_MASK) mod PAGE_SIZE = p * PAGE_SIZE) as ->
    by (unfold p, PAGE_SIZE; Z.div_mod_to_equations; lia).
  assert (me_base e + me_length e - (me_base e + me_length e) mod PAGE_SIZE = q * PAGE_SIZE) as ->
    by (unfold q, PAGE_SIZE; Z.div_mod_to_equations; lia).
  assert (0 <= p) by (unfold p, PAGE_SIZE; apply Z.div_pos; unfold PAGE_MASK, PAGE_SIZE; lia).
  set (q' := Z.min q (pmm_managed_pages s)).
  replace (if pmm_managed_pages s * PAGE_SIZE <? q * PAGE_SIZE then _ else _) with (q' * PAGE_SIZE)
    by (unfold q', PAGE_SIZE; destruct (_ <? _) eqn:?; lia).
  assert (forall i, 0 <= i < pmm_managed_pages s ->
    (me_type e = MEMMAP_FREE /\ me_base e <= i * PAGE_SIZE /\
     (i + 1) * PAGE_SIZE <= me_base e + me_length e) <-> p <= i < q') as X.
  { intros i Hi. unfold q', p, q, PAGE_MASK, PAGE_SIZE. Z.div_mod_to_equations. intuition lia. }
  destruct (q' * PAGE_SIZE <=? p * PAGE_SIZE) eqn:E1.
  { split_and!; try first [done|apply W]. intros i Hi.
    rewrite decide_False; [done|]. rewrite X by done. unfold PAGE_SIZE in E1. lia. }
  destruct (free_range_loop_spec (Z.to_nat (pmm_managed_pages s)) s p q' W N)
    as (W' & N' & E2 & E3 & V); [lia..|].
  split_and!; try first [done|rewrite E3; apply W]. intros i Hi. rewrite V by done.
  unfold view_upd_run. destruct (decide _) as [D|D]; rewrite X in D by done;
    destruct ((p <=? i) && (i <? p + (q' - p))) eqn:?; first [done|lia].
Qed.

Lemma free_regions_spec es s :
  pmm_wf s -> no_owner s -> Forall entry_sane es ->
  let s' := fold_left free_region es s in
  pmm_wf s' /\ no_owner s' /\ pmm_managed_pages s' = pmm_managed_pages s /\
  pmm_managed_pa_end s' = pmm_managed_pa_end s /\
  view_eq (pmm_managed_pages s) (frame_of s')
    (fun i => if decide (Exists (fun e => inside_free e i) es) then Free else frame_of s i).
Proof.
  revert s. induction es as [|e es IH]; cbn [fold_left]; intros s W N S.
  - by split_and!.
  - inversion S as [|? ? S1 S2]; subst.
    destruct (free_region_spec s e W N S1) as (W1 & N1 & E1 & E2 & V1).
    destruct (IH _ W1 N1 S2) as (W2 & N2 & E3 & E4 & V2).
    split_and!; try done; [congruence|congruence|].
    intros i Hi. rewrite V2 by (rewrite E1; done). rewrite V1 by done.
    destruct (decide (Exists _ es)) as [D|D], (decide (Exists _ (e :: es))) as [D'|D'],
      (decide (inside_free e i)) as [D0|D0]; rewrite ?Exists_cons in *; tauto.
Qed.

Lemma arr_get_replicate n v i : 0 <= i < Z.of_nat n -> arr_get (replicate n v) i = v.
Proof.
  intros. unfold arr_get. apply nth_lookup_Some, lookup_replicate_2. lia.
Qed.

Lemma pmm_blank_spec pages :
  0 <= pages <= 2 ^ 18 ->
  let s := pmm_blank pages (pages * PAGE_SIZE) in
  pmm_wf s /\ no_owner s /\ view_eq pages (frame_of s) (fun _ => Reserved).
Proof.
  intros Hp s.
  assert (forall i, 0 <= i < pages -> ref_get s i = 0) as R
    by (intros; apply arr_get_replicate; lia).
  assert (forall i, 0 <= i < pages -> is_used s i = true) as U.
  { intros i Hi. rewrite is_used_testbit. cbn [s pmm_bitmap pmm_blank].
    rewrite arr_get_replicate; [apply (Z.ones_spec_low 64); pose proof (Z.mod_pos_bound i 64); lia|].
    Z.div_mod_to_equations. lia. }
  split_and!; [|done|].
  - constructor; cbn [s pmm_blank pmm_bitmap pmm_bitmap_words pmm_managed_pages pmm_managed_pa_end
      pmm_alloc_hint pmm_used_count pmm_refs pmm_shared_count]; rewrite ?length_replicate; try done.
    + Z.div_mod_to_equations. lia.
    + apply Forall_replicate. unfold u64. lia.
    + lia.
    + lia.
    + rewrite (count_upto_ext _ (fun _ => true)) by (intros; apply U; lia).
      rewrite count_upto_const. lia.
    + rewrite (count_upto_ext _ (fun _ => false)) by (intros; rewrite R by lia; done).
      by rewrite count_upto_const.
    + intros i Hi. rewrite R by done. lia.
  - intros i Hi. apply frame_reserved_iff. auto.
Qed.

(** Where the bookkeeping goes: inside one free region and the managed range,
    above the low megabyte, clear of the kernel image. *)
Lemma carve_spec es ks ke pa_end bytes r :
  Forall entry_sane es -> 0 <= ks <= ke -> ke + PAGE_MASK < 2 ^ 64 -> 0 < bytes ->
  carve_bitmap_storage es ks ke pa_end bytes = r -> r <> PA_INVALID ->
  exists e, e ∈ es /\ me_type e = MEMMAP_FREE /\ me_base e <= r /\
    r + bytes <= me_base e + me_length e /\ r + bytes <= pa_end /\ 0x100000 <= r /\
    r mod PAGE_SIZE = 0 /\ (PA_ROUND_UP ke <= r \/ r + bytes <= PA_ROUND_DOWN ks).
Proof.
  intros S Hk Hke Hbytes. revert r.
  induction es as [|e es IH]; cbn [carve_bitmap_storage]; intros r; [congruence|].
  inversion S as [|? ? (Hb & Hl & Hov) S2]; subst. specialize (IH S2).
  assert (forall x, carve_bitmap_storage es ks ke pa_end bytes = x -> x <> PA_INVALID ->
    exists e0, e0 ∈ e :: es /\ me_type e0 = MEMMAP_FREE /\ me_base e0 <= x /\
    x + bytes <= me_base e0 + me_length e0 /\ x + bytes <= pa_end /\ 0x100000 <= x /\
    x mod PAGE_SIZE = 0 /\ (PA_ROUND_UP ke <= x \/ x + bytes <= PA_ROUND_DOWN ks)) as IH'.
  { intros x Hx Hx0. destruct (IH x Hx Hx0) as (e0 & He0 & ?). exists e0.
    split; [by right|done]. }
  destruct (Z.eqb_spec (me_type e) MEMMAP_FREE) as [Et|]; cbn [negb]; [|apply IH'].
  pose proof (PA_ROUND_UP_bounds ke ltac:(lia) Hke) as (? & ? & Ka).
  pose proof (PA_ROUND_UP_bounds (me_base e) Hb ltac:(lia)) as (? & ? & Ba).
  pose proof (PA_ROUND_DOWN_bounds (w64 (me_base e + me_length e))) as (Da & Db).
  rewrite w64_small in Da, Db |- * by (unfold PAGE_MASK, PAGE_SIZE in *; lia).
  generalize dependent (PA_ROUND_UP ke). intros kend IH IH' _ _ Ka.
  generalize dependent (PA_ROUND_DOWN ks). intros kst IH IH'.
  generalize dependent (PA_ROUND_UP (me_base e)). intros b1 ? ? Ba.
  generalize dependent (PA_ROUND_DOWN (me_base e + me_length e)). intros e1 Da Db.
  unfold PAGE_SIZE in *.
  set (b2 := if b1 <? 1048576 then _ else _).
  assert (b1 <= b2 /\ 1048576 <= b2 /\ b2 mod 4096 = 0)
    by (unfold b2; destruct (b1 <? 1048576) eqn:?; [split_and!; [lia|lia|done]|lia]).
  set (b3 := if _ && _ then kend else b2). set (e3 := if pa_end <? e1 then _ else _).
  assert (e3 <= e1 /\ e3 <= pa_end) by (unfold e3; destruct (pa_end <? e1) eqn:?; lia).
  destruct (e3 <=? b3) eqn:?; [apply IH'|]. destruct (e3 - b3 <? bytes) eqn:?; [apply IH'|].
  intros <- _. exists e. split; [by left|].
  assert (b2 <= b3 /\ b3 mod 4096 = 0 /\ (kend <= b3 \/ e1 <= kst)).
  { unfold b3. destruct ((b2 <? kend) && (kst <? e1)) eqn:?; lia. }
  lia.
Qed.

Lemma max_free_end_range es acc :
  0 <= acc < 2 ^ 64 ->
  0 <= fold_left (fun acc e =>
    if negb (me_type e =? MEMMAP_FREE) then acc
    else let end_ := w64 (me_base e + me_length e) in
         if acc <? end_ then end_ else acc) es acc < 2 ^ 64.
Proof.
  revert acc. induction es as [|e es IH]; cbn [fold_left]; intros acc Ha; [done|].
  apply IH. pose proof (w64_range (me_base e + me_length e)).
  destruct (negb _); [done|]. destruct (acc <? _); done.
Qed.

(** The size of the managed range and of its bookkeeping. *)
Lemma init_sizes mfe :
  0 < mfe < 2 ^ 64 ->
  let pa_end := PA_ROUND_UP (if PMM_HARD_CAP_BYTES <? mfe then PMM_HARD_CAP_BYTES else mfe) in
  let pages := Z.shiftr pa_end PAGE_SHIFT in
  0 < pages <= 2 ^ 18 /\ pa_end = pages * PAGE_SIZE.
Proof.
  intros H. unfold PMM_HARD_CAP_BYTES. change (Z.shiftl 1 30) with (2 ^ 30).
  set (x := if 2 ^ 30 <? mfe then _ else _).
  assert (0 < x <= 2 ^ 30) by (unfold x; destruct (2 ^ 30 <? mfe) eqn:?; lia).
  pose proof (PA_ROUND_UP_bounds x ltac:(lia)) as B. unfold PAGE_MASK, PAGE_SIZE, PAGE_SHIFT in *.
  specialize (B ltac:(lia)). rewrite Z.shiftr_div_pow2 by lia. change (2 ^ 12) with 4096.
  cbv zeta. Z.div_mod_to_equations. lia.
Qed.

(** The frames [mark_range_used] takes out of the free set, by page number. *)
Lemma mark_range_free s base len :
  pmm_wf s -> 0 <= base -> 0 <= len -> base + len + PAGE_MASK < 2 ^ 64 ->
  (forall i, 0 <= i < pmm_managed_pages s -> frame_of s i = Free \/ frame_of s i = Reserved) ->
  let s' := mark_range_used s base len in
  pmm_wf s' /\ pmm_managed_pages s' = pmm_managed_pages s /\
  (forall i, 0 <= i < pmm_managed_pages s -> frame_of s' i = Free \/ frame_of s' i = Reserved) /\
  (forall i, 0 <= i < pmm_managed_pages s ->
     (frame_of s' i = Free <-> frame_of s i = Free /\
        ~ (0 < len /\ base / PAGE_SIZE <= i < (base + len + PAGE_MASK) / PAGE_SIZE))).
Proof.
  intros W Hb Hl Hov N. destruct (mark_range_spec s base len W Hb Hl Hov) as (W' & E & _ & _ & V).
  split_and!; try done; intros i Hi; rewrite (V i Hi); specialize (N i Hi);
    destruct (decide (frame_of s i = Free /\ _)) as [D|D].
  - by right.
  - done.
  - split; [done|]. intros [_ D']. tauto.
  - tauto.
Qed.

Definition bookkeeping_bytes (pages : Z) : Z :=
  PA_ROUND_UP ((pages + 63) / 64 * 8) + pages * 2.

Lemma bookkeeping_bytes_range pages :
  0 < pages <= 2 ^ 18 -> 0 < bookkeeping_bytes pages < 2 ^ 32.
Proof.
  intros H. unfold bookkeeping_bytes.
  assert (0 < (pages + 63) / 64 <= 2 ^ 18) by (Z.div_mod_to_equations; lia).
  pose proof (PA_ROUND_UP_bounds ((pages + 63) / 64 * 8) ltac:(lia)) as B.
  unfold PAGE_MASK, PAGE_SIZE in B. specialize (B ltac:(lia)). lia.
Qed.

(** Phase 2 of [pmm_init], as one function of where the bookkeeping went. *)
Definition init_phase2 (es : list memmap_entry) (pages ks ke bm bk : Z) : pmm :=
  let s1 := fold_left free_region es (pmm_blank pages (pages * PAGE_SIZE)) in
  let s2 := mark_range_used s1 0 0x100000 in
  let s3 := mark_range_used s2 (PA_ROUND_DOWN ks) (w64 (PA_ROUND_UP ke - PA_ROUND_DOWN ks)) in
  mark_range_used s3 bm bk.

(** Which frames are free after phase 2. *)
Definition init_free (es : list memmap_entry) (ks ke bm bk i : Z) : Prop :=
  Exists (fun e => inside_free e i) es /\ 0x100 <= i /\
  ~ (ks / PAGE_SIZE <= i < (ke + PAGE_MASK) / PAGE_SIZE) /\
  ~ (bm / PAGE_SIZE <= i < (bm + bk + PAGE_MASK) / PAGE_SIZE).

Lemma round_pages x y :
  0 <= x -> 0 <= y -> y + PAGE_MASK < 2 ^ 64 ->
  PA_ROUND_DOWN x = x / PAGE_SIZE * PAGE_SIZE /\
  PA_ROUND_UP y = (y + PAGE_MASK) / PAGE_SIZE * PAGE_SIZE.
Proof.
  intros. rewrite PA_ROUND_DOWN_eq, PA_ROUND_UP_eq by done. unfold PAGE_SIZE.
  split; Z.div_mod_to_equations; lia.
Qed.

Lemma init_phase2_spec es pages ks ke bm bk :
  Forall entry_sane es -> 0 < pages <= 2 ^ 18 -> 0 <= ks <= ke -> ke + PAGE_MASK < 2 ^ 64 ->
  0 <= bm -> 0 < bk -> bm + bk <= pages * PAGE_SIZE ->
  let s := init_phase2 es pages ks ke bm bk in
  pmm_wf s /\ pmm_managed_pages s = pages /\
  (forall i, 0 <= i < pages -> frame_of s i = Free \/ frame_of s i = Reserved) /\
  (forall i, 0 <= i < pages -> (frame_of s i = Free <-> init_free es ks ke bm bk i)).
Proof.
  intros S Hp Hk Hke Hbm Hbk Hend. unfold init_phase2.
  destruct (pmm_blank_spec pages ltac:(lia)) as (W0 & N0 & V0).
  destruct (free_regions_spec es _ W0 N0 S) as (W1 & _ & E1 & _ & V1).
  change (pmm_managed_pages (pmm_blank _ _)) with pages in E1, V1.
  set (s1 := fold_left free_region _ _) in *.
  assert (forall i, 0 <= i < pages -> frame_of s1 i = Free \/ frame_of s1 i = Reserved) as F1.
  { intros i Hi. rewrite V1, V0 by done. destruct (decide (Exists _ _)); tauto. }
  rewrite <- E1 in F1.
  destruct (mark_range_free s1 0 0x100000 W1) as (W2 & E3 & F2 & X2); [done..|].
  set (s2 := mark_range_used s1 _ _) in *. rewrite <- E3 in F2.
  destruct (round_pages ks ke ltac:(lia) ltac:(lia) Hke) as [Ed Eu].
  set (a := ks / PAGE_SIZE) in *. set (b := (ke + PAGE_MASK) / PAGE_SIZE) in *.
  assert (0 <= a <= b /\ b * PAGE_SIZE <= ke + PAGE_MASK)
    by (unfold a, b, PAGE_MASK, PAGE_SIZE; Z.div_mod_to_equations; lia).
  rewrite Ed, Eu, w64_small by (unfold PAGE_MASK, PAGE_SIZE in *; lia).
  assert (b * PAGE_SIZE + PAGE_MASK < 2 ^ 64).
  { pose proof (PA_ROUND_UP_aligned ke) as [R1 R2]. rewrite Eu in R1, R2.
    unfold PAGE_MASK, PAGE_SIZE in *. lia. }
  destruct (mark_range_free s2 (a * PAGE_SIZE) (b * PAGE_SIZE - a * PAGE_SIZE) W2)
    as (W3 & E4 & F3 & X3);
    [unfold PAGE_SIZE; lia|unfold PAGE_SIZE; lia|unfold PAGE_SIZE, PAGE_MASK in *; lia|done|].
  set (s3 := mark_range_used s2 _ _) in *. rewrite <- E4 in F3.
  destruct (mark_range_free s3 bm bk W3) as (W4 & E5 & F4 & X4);
    [done|lia|unfold PAGE_MASK, PAGE_SIZE in *; lia|done|].
  split_and!; [done|congruence|intros; apply F4; congruence|]. intros i Hi.
  rewrite X4, X3, X2 by congruence. unfold init_free. fold a b.
  assert (frame_of s1 i = Free <-> Exists (fun e => inside_free e i) es) as ->.
  { rewrite V1, V0 by done. by destruct (decide (Exists _ _)). }
  unfold PAGE_MASK, PAGE_SIZE in *.
  replace (a * 4096 / 4096) with a by (by rewrite Z.div_mul by lia).
  replace ((a * 4096 + (b * 4096 - a * 4096) + (4096 - 1)) / 4096) with b
    by (Z.div_mod_to_equations; lia).
  change (0 / 4096) with 0. change ((0 + 0x100000 + (4096 - 1)) / 4096) with 0x100.
  intuition lia.
Qed.

Lemma pmm_init_frames m ks ke s :
  Forall entry_sane (memmap_entries m) -> 0 <= ks <= ke -> ke + PAGE_MASK < 2 ^ 64 ->
  pmm_init m ks ke = Done s ->
  pmm_ok s /\ pmm_alloc_hint s = 0 /\
  exists bm, let bk := bookkeeping_bytes (pmm_managed_pages s) in
    0x100000 <= bm /\ bm + bk <= pmm_managed_pa_end s /\
    (PA_ROUND_UP ke <= bm \/ bm + bk <= PA_ROUND_DOWN ks) /\
    forall i, 0 <= i < pmm_managed_pages s ->
      (frame_of s i = Free \/ frame_of s i = Reserved) /\
      (frame_of s i = Free <-> init_free (memmap_entries m) ks ke bm bk i).
Proof.
  intros S Hk Hke. unfold pmm_init. destruct (memmap_max_pa m =? 0); [done|].
  pose proof (max_free_end_range (memmap_entries m) 0 ltac:(lia)) as M.
  change (0 <= max_free_end (memmap_entries m) < 2 ^ 64) in M.
  destruct (Z.eqb_spec (max_free_end (memmap_entries m)) 0); [done|].
  destruct (init_sizes (max_free_end (memmap_entries m)) ltac:(lia)) as [Hp Epa].
  generalize dependent (PA_ROUND_UP (if PMM_HARD_CAP_BYTES <? max_free_end (memmap_entries m)
    then PMM_HARD_CAP_BYTES else max_free_end (memmap_entries m))). intros pa_end Hp Epa.
  generalize dependent (Z.shiftr pa_end PAGE_SHIFT). intros pages Hp ->.
  fold (bookkeeping_bytes pages). pose proof (bookkeeping_bytes_range pages Hp) as Bk.
  set (bm := carve_bitmap_storage _ _ _ _ _).
  destruct (Z.eqb_spec bm PA_INVALID) as [|Hbm]; [done|].
  destruct (carve_spec _ _ _ _ _ bm S Hk Hke (proj1 Bk) eq_refl Hbm)
    as (e & _ & _ & _ & _ & Hend & Hlow & _ & Hkern).
  intros [= <-].
  destruct (init_phase2_spec (memmap_entries m) pages ks ke bm (bookkeeping_bytes pages) S Hp Hk Hke)
    as (W & E & F & X); [lia|lia|lia|].
  fold (init_phase2 (memmap_entries m) pages ks ke bm (bookkeeping_bytes pages)) in *.
  set (s4 := init_phase2 _ _ _ _ _ _) in *.
  assert (pmm_ok (with_hint s4 0)) as K.
  { constructor; [|cbn; lia|].
    - apply wf_with_hint; [done|lia].
    - rewrite frame_of_hint. destruct (F 0 ltac:(lia)) as [Hf|]; [|done].
      apply X in Hf as (_ & ? & _); lia. }
  split; [done|]. split; [done|]. exists bm.
  rewrite (wf_pa_end _ (ok_wf _ K)). cbn [pmm_managed_pages with_hint]. rewrite E.
  split_and!; [done|lia|done|]. intros i Hi. split; [by apply F|by apply X].
Qed.

(** * Properties *)

(** Arguments a caller can pass: addresses and counts as machine words that
    do not wrap around the top of memory. *)
Definition op_sane (op : pmm_op) : Prop :=
  match op with
  | OpAlloc => True
  | OpAllocRun k => 0 <= k < 2 ^ 63
  | OpFree pa | OpRef pa => 0 <= pa
  | OpFreeRun pa k => 0 <= pa /\ 0 <= k < 2 ^ 63
  | OpReserve base len => 0 <= base /\ 0 <= len /\ base + len + PAGE_MASK < 2 ^ 64
  end.

Definition refined (s : pmm) (op : pmm_op) (out : res (Z * pmm)) : Prop :=
  match out with
  | Done (r, s') =>
      pmm_ok s' /\ pmm_managed_pages s' = pmm_managed_pages s /\
      exists g, spec_step (pmm_managed_pages s) (frame_of s) op r g /\
                view_eq (pmm_managed_pages s) (frame_of s') g
  | Panic _ => forall r g, ~ spec_step (pmm_managed_pages s) (frame_of s) op r g
  end.

Lemma mul_page_inj i j : i * PAGE_SIZE = j * PAGE_SIZE -> i = j.
Proof. unfold PAGE_SIZE. lia. Qed.

(** An address either names a managed frame or none. *)
Lemma page_cases n pa :
  0 <= pa ->
  (exists i, pa = i * PAGE_SIZE /\ 0 <= i < n) \/ (forall i, pa = i * PAGE_SIZE -> ~ 0 <= i < n).
Proof.
  intros H. destruct (decide (pa mod PAGE_SIZE = 0 /\ pa / PAGE_SIZE < n)) as [[A B]|N].
  - left. exists (pa / PAGE_SIZE). unfold PAGE_SIZE in *. Z.div_mod_to_equations. lia.
  - right. intros i -> Hi. apply N. unfold PAGE_SIZE. rewrite Z.mod_mul, Z.div_mul by lia. lia.
Qed.

(** Invert an abstract step on a page address. *)
Ltac inv_step := 
  match goal with
  | St : spec_step _ _ _ _ _ |- _ => inversion St; clear St
  end;
  repeat match goal with
  | E : ?i * PAGE_SIZE = ?j * PAGE_SIZE |- _ => apply mul_page_inj in E; subst
  end.

Lemma refines_free s pa : pmm_ok s -> 0 <= pa -> refined s (OpFree pa) (pmm_run s (OpFree pa)).
Proof.
  intros K Hpa. cbn [pmm_run].
  destruct (page_cases (pmm_managed_pages s) pa Hpa) as [(i & -> & Hi)|N]; cycle 1.
  { destruct (free_page_panics s pa K Hpa) as [why ->]; cbn.
    - intros i c E Hi. by destruct (N i E).
    - intros r g St. inv_step; by eapply N. }
  destruct (frame_of s i) as [| |c] eqn:F.
  1,2: destruct (free_page_panics s (i * PAGE_SIZE) K Hpa) as [why ->];
    [intros j c E%mul_page_inj; subst j; congruence|]; cbn; intros r g St; inv_step; congruence.
  pose proof (wf_owned_range s i c (ok_wf s K) Hi F).
  destruct (free_page_owned s i c K Hi F) as (s' & -> & K' & E & V). cbn.
  split; [done|]. split; [done|]. eexists. split; [|exact V].
  destruct (Z.eqb_spec c 1) as [->|]; [by apply sp_free_last|apply sp_free_shared; [done..|lia]].
Qed.

Lemma refines_ref s pa : pmm_ok s -> 0 <= pa -> refined s (OpRef pa) (pmm_run s (OpRef pa)).
Proof.
  intros K Hpa. cbn [pmm_run].
  destruct (page_cases (pmm_managed_pages s) pa Hpa) as [(i & -> & Hi)|N]; cycle 1.
  { destruct (page_ref_panics s pa K Hpa) as [why ->]; cbn.
    - intros i c E Hi. by destruct (N i E).
    - intros r g St. inv_step; by eapply N. }
  destruct (frame_of s i) as [| |c] eqn:F.
  1,2: destruct (page_ref_panics s (i * PAGE_SIZE) K Hpa) as [why ->];
    [intros j c E%mul_page_inj; subst j; congruence|]; cbn; intros r g St; inv_step; congruence.
  pose proof (wf_owned_range s i c (ok_wf s K) Hi F).
  destruct (decide (c = 65535)) as [->|].
  { destruct (page_ref_panics s (i * PAGE_SIZE) K Hpa) as [why ->];
      [intros j c E%mul_page_inj; subst j; congruence|]. cbn. intros r g St. inv_step.
    assert (c = 65535) by congruence. lia. }
  destruct (page_ref_owned s i c K Hi F ltac:(lia)) as (s' & -> & K' & E & V). cbn.
  split; [done|]. split; [done|]. eexists. split; [|exact V]. apply sp_ref; [done..|lia].
Qed.

Lemma refines_free_run s pa k :
  pmm_ok s -> 0 <= pa -> 0 <= k ->
  refined s (OpFreeRun pa k) (pmm_run s (OpFreeRun pa k)).
Proof.
  intros K Hpa Hk. cbn [pmm_run].
  destruct (pmm_free_pages s pa k) as [s'|why] eqn:E; cbn.
  - assert (exists i, pa = i * PAGE_SIZE /\ 0 <= i /\ exists s1,
      free_run_loop (Z.to_nat k) s i = Done s1) as (i & -> & Hi & s1 & E1).
    { unfold pmm_free_pages in E. apply KASSERT_inv in E as [A (s1 & E1 & _)%bind_Done_inv].
      rewrite page_aligned in A. exists (page_index pa). rewrite page_index_div in *.
      unfold PAGE_SIZE in *. split; [Z.div_mod_to_equations; lia|].
      split; [apply Z.div_pos; lia|by exists s1]. }
    destruct (free_run_inv _ _ _ _ (ok_wf s K) Hi E1) as [B F]. rewrite Z2Nat.id in * by done.
    assert (0 < k -> i + k <= pmm_managed_pages s) as B' by (intros; apply B; lia).
    destruct (free_pages_owned s i k K Hi Hk B' F) as (s2 & E2 & K2 & P2 & V2).
    rewrite E in E2. injection E2 as <-. split; [done|]. split; [done|].
    eexists. split; [|exact V2]. by apply sp_free_run.
  - intros r g St. inv_step. subst.
    destruct (free_pages_owned s i k K) as (s2 & E2 & _); [done..|]. congruence.
Qed.

Lemma run_refined s op : pmm_ok s -> op_sane op -> refined s op (pmm_run s op).
Proof.
  intros K Sane. destruct op as [|k|pa|pa k|pa|base len]; cbn [op_sane] in Sane.
  - pose proof (alloc_page_spec s K) as A. cbn. by destruct (pmm_alloc_page s).
  - pose proof (alloc_pages_spec s k K Sane) as A. cbn. by destruct (pmm_alloc_pages s k).
  - by apply refines_free.
  - apply refines_free_run; [done|lia..].
  - by apply refines_ref.
  - destruct Sane as (Hb & Hl & Hov). cbn. unfold pmm_reserve.
    destruct (mark_range_spec s base len (ok_wf s K) Hb Hl Hov) as (W & E & _ & _ & V).
    split; [|split; [done|eexists; split; [|exact V]; apply sp_reserve; done]].
    apply (ok_step s _ _ K W E V). rewrite (ok_zero s K). by destruct (decide _).
Qed.

(** [C8] The allocator implements its abstract specification: every call on a
    well-formed allocator either returns, leaving a well-formed allocator
    whose frames are held as one step of the specification says, or panics,
    and it panics only where the specification has no step at all (freeing or
    sharing a frame that is not owned, a shared frame in a run, a count that
    would wrap). *)
Theorem pmm_refines s op :
  pmm_ok s -> op_sane op -> refined s op (pmm_run s op).
Proof. apply run_refined. Qed.

(** A four-frame machine: frame 0 reserved, frame 1 shared by two owners. *)
Definition demo_pmm : pmm := mkPmm [3] 1 4 16384 2 2 [0; 2; 0; 0] 1 1 0.

Lemma demo_pmm_ok : pmm_ok demo_pmm.
Proof.
  assert (forall (P : Z -> Prop), P 0 -> P 1 -> P 2 -> P 3 -> forall i, 0 <= i < 4 -> P i) as D.
  { intros P ???? i Hi. assert (i = 0 \/ i = 1 \/ i = 2 \/ i = 3) as [-> | [-> | [-> | ->]]] by lia; done. }
  constructor; [constructor|done|done]; try (cbn; lia); try done.
  - repeat constructor; lia.
  - cbn [pmm_managed_pages demo_pmm]. apply D; vm_compute; repeat split; congruence.
Qed.

Lemma pmm_refines_witness :
  refined demo_pmm (OpFree 4096) (pmm_run demo_pmm (OpFree 4096)) /\
  frame_of demo_pmm 1 = Owned 2.
Proof.
  split; [apply (pmm_refines demo_pmm (OpFree 4096) demo_pmm_ok); cbn; lia|reflexivity].
Defined.

(** [C19] Boot leaves the allocator well formed, and says exactly which frames
    it may hand out: those lying wholly inside a region the firmware calls
    free, above the low megabyte, outside the kernel image and outside the
    allocator's own bookkeeping, which itself lies inside the managed range,
    above the low megabyte and clear of the kernel. *)
Theorem pmm_init_exact m ks ke s :
  Forall entry_sane (memmap_entries m) -> 0 <= ks <= ke -> ke + PAGE_MASK < 2 ^ 64 ->
  pmm_init m ks ke = Done s ->
  pmm_ok s /\
  exists bm, let bk := bookkeeping_bytes (pmm_managed_pages s) in
    0x100000 <= bm /\ bm + bk <= pmm_managed_pa_end s /\
    (PA_ROUND_UP ke <= bm \/ bm + bk <= PA_ROUND_DOWN ks) /\
    forall i, 0 <= i < pmm_managed_pages s ->
      (frame_of s i = Free \/ frame_of s i = Reserved) /\
      (frame_of s i = Free <-> init_free (memmap_entries m) ks ke bm bk i).
Proof.
  intros S Hk Hke E. by destruct (pmm_init_frames m ks ke s S Hk Hke E) as (K & _ & X).
Qed.

(** Four megabytes of RAM with a kernel image from 1 MiB to 1.5 MiB. *)
Definition demo_map : memmap :=
  mkMemmap [mkEntry 0 0x9FC00 MEMMAP_FREE; mkEntry 0x100000 0x300000 MEMMAP_FREE] 0 0 0x400000.

Lemma demo_map_sane : Forall entry_sane (memmap_entries demo_map).
Proof. repeat constructor; cbn; lia. Qed.

Definition demo_boot : pmm :=
  match pmm_init demo_map 0x100000 0x180000 with Done s => s | Panic _ => demo_pmm end.

Lemma demo_boot_eq : pmm_init demo_map 0x100000 0x180000 = Done demo_boot.
Proof. vm_compute. reflexivity. Qed.

Lemma pmm_init_exact_witness : pmm_ok demo_boot /\ frame_of demo_boot 0x182 = Free.
Proof.
  split; [|vm_compute; reflexivity].
  apply (pmm_init_exact demo_map 0x100000 0x180000 demo_boot demo_map_sane); [lia| |].
  - vm_compute. reflexivity.
  - exact demo_boot_eq.
Defined.

(** A sequence of calls; the first panic stops it. *)
Fixpoint pmm_trace (s : pmm) (ops : list pmm_op) : res pmm :=
  match ops with
  | [] => Done s
  | op :: ops => '(_, s') ← pmm_run s op; pmm_trace s' ops
  end.

Lemma pmm_trace_ok ops s s' :
  pmm_ok s -> Forall op_sane ops -> pmm_trace s ops = Done s' ->
  pmm_ok s' /\ pmm_managed_pages s' = pmm_managed_pages s.
Proof.
  revert s. induction ops as [|op ops IH]; cbn [pmm_trace]; intros s K S E.
  - by injection E as <-.
  - inversion S as [|? ? S1 S2]; subst.
    apply bind_Done_inv in E as ([r s1] & E1 & E2).
    pose proof (run_refined s op K S1) as R.
    rewrite E1 in R. destruct R as (K1 & P1 & _).
    destruct (IH s1 K1 S2 E2) as [? ->]. done.
Qed.

Definition is_free (f : frame) : bool := match f with Free => true | _ => false end.
Definition is_shared (f : frame) : bool := match f with Owned n => 1 <? n | _ => false end.

Definition count_frames (p : frame -> bool) (s : pmm) : Z :=
  count_upto (fun i => p (frame_of s i)) (Z.to_nat (pmm_managed_pages s)).

Lemma count_upto_negb f n : count_upto (fun i => negb (f i)) n = Z.of_nat n - count_upto f n.
Proof. induction n as [|n IH]; cbn [count_upto]; [done|]. rewrite IH. destruct (f _); cbn; lia. Qed.

Lemma counters_exact s :
  pmm_wf s ->
  pmm_free_pages_count s = count_frames is_free s /\
  pmm_shared_pages s = count_frames is_shared s.
Proof.
  intros W. pose proof (wf_used_bound s W). pose proof (wf_pages s W). split.
  - unfold pmm_free_pages_count, count_frames. rewrite w64_small by lia.
    rewrite (count_upto_ext (fun i => is_free (frame_of s i)) (fun i => negb (is_used s i))).
    + rewrite count_upto_negb, (wf_used s W). lia.
    + intros i _. unfold frame_of. by destruct (is_used s i), (ref_get s i =? 0).
  - unfold pmm_shared_pages, count_frames. rewrite (wf_shared s W).
    apply count_upto_ext. intros i Hi. unfold frame_of.
    destruct (wf_ref s W i ltac:(lia)) as [_ U].
    destruct (is_used s i) eqn:Eu, (Z.eqb_spec (ref_get s i) 0) as [E|E]; cbn; try lia.
Qed.

(** Conservation: after boot and any sequence of calls that did not
    panic, the allocator is well formed, the size of the managed range is
    unchanged, the free count the kernel reports is the number of free
    frames, used plus free is the total, and the shared count is the number
    of frames with more than one owner. *)
Theorem pmm_conservation m ks ke s0 ops s :
  Forall entry_sane (memmap_entries m) -> 0 <= ks <= ke -> ke + PAGE_MASK < 2 ^ 64 ->
  pmm_init m ks ke = Done s0 -> Forall op_sane ops -> pmm_trace s0 ops = Done s ->
  pmm_ok s /\ pmm_total_pages s = pmm_total_pages s0 /\
  pmm_free_pages_count s = count_frames is_free s /\
  pmm_used_pages s + pmm_free_pages_count s = pmm_total_pages s /\
  pmm_shared_pages s = count_frames is_shared s.
Proof.
  intros S Hk Hke E0 So E.
  destruct (pmm_init_frames m ks ke s0 S Hk Hke E0) as (K0 & _).
  destruct (pmm_trace_ok ops s0 s K0 So E) as (K & P).
  destruct (counters_exact s (ok_wf s K)) as [C1 C2].
  split_and!; try done. unfold pmm_used_pages, pmm_free_pages_count, pmm_total_pages.
  pose proof (wf_used_bound s (ok_wf s K)). pose proof (wf_pages s (ok_wf s K)).
  rewrite w64_small by lia. lia.
Qed.

(** Allocate a frame, share it, allocate a run of three, let one sharer go. *)
Definition demo_ops : list pmm_op :=
  [OpAlloc; OpRef 0x182000; OpAllocRun 3; OpFree 0x182000].

Definition demo_after : pmm :=
  match pmm_trace demo_boot demo_ops with Done s => s | Panic _ => demo_pmm end.

Lemma pmm_conservation_witness :
  pmm_trace demo_boot demo_ops = Done demo_after /\ pmm_ok demo_after /\
  pmm_used_pages demo_after = pmm_used_pages demo_boot + 4.
Proof.
  assert (pmm_trace demo_boot demo_ops = Done demo_after) as E by (vm_compute; reflexivity).
  split; [exact E|]. split; [|vm_compute; reflexivity].
  apply (pmm_conservation demo_map 0x100000 0x180000 demo_boot demo_ops demo_after demo_map_sane);
    [lia|vm_compute; reflexivity|exact demo_boot_eq| |exact E].
  repeat constructor; cbn; lia.
Defined.

(** A single-page allocation fails only when the machine is out of
    memory: it returns [PA_INVALID] exactly when no managed frame is free,
    and then changes nothing. *)
Theorem pmm_alloc_page_complete s :
  pmm_ok s ->
  (fst (pmm_alloc_page s) = PA_INVALID <->
     forall i, 0 <= i < pmm_managed_pages s -> frame_of s i <> Free) /\
  (fst (pmm_alloc_page s) = PA_INVALID -> snd (pmm_alloc_page s) = s).
Proof.
  intros K. pose proof (ok_wf s K) as W. pose proof (wf_hint s W). pose proof (wf_pages s W).
  unfold pmm_alloc_page. destruct (alloc_scan _ _ _ _) as [i|] eqn:E; cbn.
  - apply alloc_scan_Some in E as [Hi Hu]; [|lia..].
    assert (i <> 0) by (intros ->; rewrite ok_zero_used in Hu; done).
    rewrite pa_from_index_mul by lia. unfold PA_INVALID, PAGE_SIZE. split; [|lia].
    split; [lia|]. intros N. destruct (N i Hi). by apply frame_free_iff.
  - split; [|done]. split; [|done]. intros _ i Hi F%frame_free_iff.
    by rewrite (alloc_scan_full s W E i Hi) in F.
Qed.

Lemma pmm_alloc_page_complete_witness : fst (pmm_alloc_page demo_pmm) = 2 * PAGE_SIZE /\
  ~ (forall i, 0 <= i < pmm_managed_pages demo_pmm -> frame_of demo_pmm i <> Free).
Proof.
  split; [reflexivity|]. intros N.
  apply (pmm_alloc_page_complete demo_pmm demo_pmm_ok) in N. discriminate N.
Defined.

(** A run allocation of two or more pages fails only when there is no
    free run of that length wholly above the search hint and none wholly
    below it. *)
Theorem pmm_alloc_pages_search s k :
  pmm_ok s -> 2 <= k < 2 ^ 63 ->
  fst (pmm_alloc_pages s k) = PA_INVALID ->
  forall i, 0 <= i -> i + k <= pmm_managed_pages s ->
    (pmm_alloc_hint s <= i \/ i + k <= pmm_alloc_hint s) ->
    exists j, i <= j < i + k /\ frame_of s j <> Free.
Proof.
  intros K Hk. pose proof (ok_wf s K) as W. pose proof (wf_hint s W). pose proof (wf_pages s W).
  assert (forall i, 0 <= i -> 0 < k -> ~ run_free s i k ->
    exists j, i <= j < i + k /\ frame_of s j <> Free) as X.
  { intros i Hi Hk0 N.
    destruct (decide (Exists (fun j => is_used s j = true) (seqZ i k))) as [Y|Y].
    - apply Exists_exists in Y as (j & Hj%elem_of_seqZ & Hu). exists j. split; [lia|].
      rewrite frame_free_iff. congruence.
    - destruct N. intros j Hj. destruct (is_used s j) eqn:U; [|done].
      destruct Y. apply Exists_exists. exists j. split; [apply elem_of_seqZ; lia|done]. }
  unfold pmm_alloc_pages.
  destruct (Z.eqb_spec k 0); [lia|]. destruct (Z.eqb_spec k 1); [lia|].
  assert (forall i, 0 <= i -> i + k <= pmm_managed_pages s -> run_free s i k ->
    fst (take_run s k i) <> PA_INVALID) as T.
  { intros i Hi Hik F. pose proof (take_run_spec s k i K ltac:(lia) Hi Hik F) as T.
    destruct (take_run s k i) as [pa s']. destruct T as (_ & _ & -> & ? & _). cbn.
    unfold PA_INVALID, PAGE_SIZE. lia. }
  destruct (find_run _ s k (pmm_managed_pages s) _) as [i0|] eqn:E1.
  { apply find_run_Some in E1 as (? & ? & F); [|lia..]. intros Z0. by apply T in Z0; [|lia..|]. }
  destruct (find_run _ s k (pmm_alloc_hint s) 0) as [i0|] eqn:E2.
  { apply find_run_Some in E2 as (? & ? & F); [|lia..]. intros Z0. by apply T in Z0; [|lia..|]. }
  intros _ i Hi Hik Hor. apply X; [done|lia|]. destruct Hor.
  - eapply find_run_None; [..|exact E1|done|done]; lia.
  - eapply find_run_None; [..|exact E2|done|done]; lia.
Qed.

(** Frames 0 and 3 are taken; the only free pair, frames 1 and 2, has the
    hint between its two frames. *)
Definition demo_straddle : pmm := mkPmm [9] 1 4 16384 2 2 [0; 0; 0; 1] 0 0 0.

Lemma demo_straddle_ok : pmm_ok demo_straddle.
Proof.
  assert (forall (P : Z -> Prop), P 0 -> P 1 -> P 2 -> P 3 -> forall i, 0 <= i < 4 -> P i) as D.
  { intros P ???? i Hi. assert (i = 0 \/ i = 1 \/ i = 2 \/ i = 3) as [-> | [-> | [-> | ->]]] by lia; done. }
  constructor; [constructor|done|done]; try (cbn; lia); try done.
  - repeat constructor; lia.
  - cbn [pmm_managed_pages demo_straddle]. apply D; vm_compute; repeat split; congruence.
Qed.

Lemma pmm_alloc_pages_search_witness :
  exists j, 2 <= j < 2 + 2 /\ frame_of demo_straddle j <> Free.
Proof.
  apply (pmm_alloc_pages_search demo_straddle 2 demo_straddle_ok); [lia|reflexivity|lia|cbn; lia|].
  left. cbn. lia.
Defined.

(** The search is not complete: a free run that straddles the hint is
    found by neither loop, so a well-formed allocator with two adjacent free
    frames can refuse a two-page request. *)
Theorem pmm_alloc_pages_straddle :
  exists s, pmm_ok s /\
    (forall j, 1 <= j < 1 + 2 -> frame_of s j = Free) /\ 1 + 2 <= pmm_managed_pages s /\
    fst (pmm_alloc_pages s 2) = PA_INVALID.
Proof.
  exists demo_straddle. split; [exact demo_straddle_ok|]. split_and!; [|cbn; lia|reflexivity].
  intros j Hj. assert (j = 1 \/ j = 2) as [-> | ->] by lia; reflexivity.
Qed.

Lemma run_step_inv n f k pa g :
  spec_step n f (OpAllocRun k) pa g -> pa <> PA_INVALID ->
  exists i, pa = i * PAGE_SIZE /\ 0 < i /\ i + k <= n /\
    (forall j, i <= j < i + k -> f j = Free) /\ g = view_upd_run f i k (Owned 1).
Proof. inversion 1; subst; [eauto 10|done]. Qed.

(** Round trip: a run that was allocated can be freed, and freeing it
    leaves every frame held exactly as before the allocation and the used
    count where it was. *)
Theorem pmm_run_roundtrip s k pa s1 :
  pmm_ok s -> 0 < k < 2 ^ 63 -> pmm_alloc_pages s k = (pa, s1) -> pa <> PA_INVALID ->
  exists s2, pmm_free_pages s1 pa k = Done s2 /\ pmm_ok s2 /\
    view_eq (pmm_managed_pages s) (frame_of s2) (frame_of s) /\
    pmm_used_count s2 = pmm_used_count s.
Proof.
  intros K Hk E Hpa. pose proof (alloc_pages_spec s k K ltac:(lia)) as A. rewrite E in A.
  destruct A as (K1 & P1 & g & St & V).
  apply run_step_inv in St as (i & -> & Hi & Hik & Hf & ->); [|done].
  destruct (free_pages_owned s1 i k K1) as (s2 & E2 & K2 & P2 & V2).
  - lia.
  - lia.
  - lia.
  - intros j Hj. rewrite V by lia. unfold view_upd_run.
    destruct ((i <=? j) && (j <? i + k)) eqn:?; [done|lia].
  - rewrite P1 in *. exists s2.
    assert (view_eq (pmm_managed_pages s) (frame_of s2) (frame_of s)) as V3.
    { intros j Hj. rewrite V2 by done. unfold view_upd_run at 1. rewrite V by done. unfold view_upd_run.
      destruct ((i <=? j) && (j <? i + k)) eqn:?; [|done]. symmetry. apply Hf. lia. }
    split_and!; try done.
    rewrite (wf_used s2 (ok_wf s2 K2)), (wf_used s (ok_wf s K)), P2.
    apply count_upto_ext. intros j Hj. pose proof (wf_pages s (ok_wf s K)).
    pose proof (V3 j ltac:(lia)) as F. pose proof (frame_free_iff s2 j). pose proof (frame_free_iff s j).
    destruct (is_used s2 j) eqn:U2, (is_used s j) eqn:U; try done; rewrite F in *; intuition congruence.
Qed.

Lemma pmm_run_roundtrip_witness :
  exists s2, pmm_free_pages (snd (pmm_alloc_pages demo_boot 3)) 0x182000 3 = Done s2 /\
    pmm_used_count s2 = pmm_used_count demo_boot.
Proof.
  assert (pmm_ok demo_boot) as K
    by (apply (pmm_init_frames demo_map 0x100000 0x180000 _ demo_map_sane); [lia| |exact demo_boot_eq];
        vm_compute; reflexivity).
  destruct (pmm_run_roundtrip demo_boot 3 0x182000 (snd (pmm_alloc_pages demo_boot 3)) K)
    as (s2 & E & _ & _ & U); [lia|vm_compute; reflexivity|discriminate|].
  exists s2. split; [exact E|exact U].
Defined.
