(* ===== verification/VmObject.v ===== *)
(** Pagers, [vm/vm_object.c]: what a lazy range's pages are made of.  The file
    layer below ([fs/fs.c]) is an interface. *)

From stdpp Require Import base list numbers strings gmap gmultiset.
From Stdlib Require Import ZArith Lia ZifyBool.
From S2P Require Import Prelude.

Definition FS_E_OK : Z := 0.
Definition FS_HANDLE_NONE : Z := 0.

(** A file, resolved ([struct fs_handle]). *)
Record fs_handle := mkHandle {
  fh_id : Z;
  fh_size : Z;
  fh_ino : Z;
  fh_gen : Z;
  fh_xid : Z;
  fh_kind : Z;
}.

(** What [vm_object.c] calls of the file layer: [fs_hold], [fs_close] (which
    empties the handle) and [fs_pread] (which may refresh it), over the file
    layer's state.  A read returns its status and the bytes it delivered. *)
Class FsOps (F : Type) := {
  fs_hold : F -> fs_handle -> Z * F;
  fs_close : F -> fs_handle -> Z * fs_handle * F;
  fs_pread : F -> fs_handle -> Z -> Z -> Z * list Z * fs_handle * F;
}.

Definition VM_OBJ_PAGE_BYTES : Z := 4096.
Definition VM_OBJ_PATH_MAX : Z := 256.

Record vm_object := mkObject {
  vo_handle : fs_handle;
  vo_size : Z;
  vo_n_page : Z;
  vo_refs : Z;
  vo_path : list Z;
}.

Definition with_vo_refs (o : vm_object) (r : Z) : vm_object :=
  mkObject (vo_handle o) (vo_size o) (vo_n_page o) r (vo_path o).
Definition with_vo_served (o : vm_object) (h : fs_handle) (n : Z) : vm_object :=
  mkObject h (vo_size o) n (vo_refs o) (vo_path o).

(** Live objects by kernel address, and the file layer they read through. *)
Record objs (F : Type) := mkObjs { ob_store : gmap Z vm_object; ob_fs : F }.
Arguments mkObjs {F} ob_store ob_fs.
Arguments ob_store {F} o.
Arguments ob_fs {F} o.

(** [for (i = 0; i + 1 < cap && src[i] != 0; i++)]: a C string is the bytes
    before its terminator, so the copy is a bounded prefix. *)
Fixpoint path_copy (src : list Z) (cap : nat) : list Z :=
  match cap, src with
  | S (S _ as cap'), c :: src' => if c =? 0 then [] else c :: path_copy src' cap'
  | _, _ => []
  end.

Section VmObject.
Context {F : Type} `{FsOps F}.

(** [vm_object_file]: [addr] is what [kmalloc] answered, [None] for NULL. *)
Definition vm_object_file (w : objs F) (h : option fs_handle) (path : option (list Z))
    (addr : option Z) : option Z * objs F :=
  match h with
  | None => (None, w)
  | Some h =>
      if fh_kind h =? FS_HANDLE_NONE then (None, w)
      else match addr with
      | None => (None, w)
      | Some a =>
          let '(rv, fs) := fs_hold (ob_fs w) h in
          if negb (rv =? FS_E_OK) then (None, mkObjs (ob_store w) fs)
          else
            let o := mkObject h (fh_size h) 0 1
                       (path_copy (default [63] path) (Z.to_nat VM_OBJ_PATH_MAX)) in
            (Some a, mkObjs (<[a := o]> (ob_store w)) fs)
      end
  end.

(** A pointer that names no live object is a use after free: the model stops
    there, as undefined behaviour. *)
Definition vm_object_ref (w : objs F) (o : option Z) : res (objs F) :=
  match o with
  | None => Done w
  | Some a =>
      match ob_store w !! a with
      | None => Panic "vm_object_ref: use after free"
      | Some v => Done (mkObjs (<[a := with_vo_refs v (w32 (vo_refs v + 1))]> (ob_store w)) (ob_fs w))
      end
  end.

Definition vm_object_deref (w : objs F) (o : option Z) : res (objs F) :=
  match o with
  | None => Done w
  | Some a =>
      match ob_store w !! a with
      | None => Panic "vm_object_deref: use after free"
      | Some v =>
          let r := w32 (vo_refs v - 1) in
          if negb (r =? 0)
          then Done (mkObjs (<[a := with_vo_refs v r]> (ob_store w)) (ob_fs w))
          else
            let '(_, _, fs) := fs_close (ob_fs w) (vo_handle v) in
            Done (mkObjs (delete a (ob_store w)) fs)
      end
  end.

(** [vm_object_page]: the bytes written at the head of the zeroed page, or
    [None] for the -1 answer.  [vo_size] bounds the read; the handle may come
    back refreshed. *)
Definition vm_object_page (w : objs F) (o : option Z) (off : Z) : res (option (list Z) * objs F) :=
  match o with
  | None => Done (None, w)
  | Some a =>
      match ob_store w !! a with
      | None => Panic "vm_object_page: use after free"
      | Some v =>
          if vo_size v <=? off then Done (Some [], w)
          else
            let want := if vo_size v - off <? VM_OBJ_PAGE_BYTES
                        then vo_size v - off else VM_OBJ_PAGE_BYTES in
            let '(rv, bs, h, fs) := fs_pread (ob_fs w) (vo_handle v) off want in
            if negb (rv =? FS_E_OK) || negb (Z.of_nat (length bs) =? want)
            then Done (None, mkObjs (<[a := with_vo_served v h (vo_n_page v)]> (ob_store w)) fs)
            else Done (Some bs,
                   mkObjs (<[a := with_vo_served v h (w64 (vo_n_page v + 1))]> (ob_store w)) fs)
      end
  end.


(** * Reference counting

    [X] is the multiset of references held: one per map entry that names the
    object, and the ones in flight.  A count is exact, and an object is live
    exactly while somebody names it. *)

Definition objs_ok (w : objs F) (X : gmultiset Z) : Prop :=
  forall a, vo_refs <$> ob_store w !! a =
      (if decide (a ∈ X) then Some (Z.of_nat (multiplicity a X)) else None) /\
    Z.of_nat (multiplicity a X) < 2 ^ 32.

(** What a pointer adds to the references. *)
Definition named (o : option Z) : gmultiset Z :=
  match o with Some a => {[+ a +]} | None => ∅ end.

Lemma mult_add_eq a (X : gmultiset Z) : multiplicity a ({[+ a +]} ⊎ X) = S (multiplicity a X).
Proof. rewrite multiplicity_disj_union, multiplicity_singleton. by rewrite decide_True. Qed.
Lemma mult_add_ne a b (X : gmultiset Z) : b <> a -> multiplicity b ({[+ a +]} ⊎ X) = multiplicity b X.
Proof. intros. rewrite multiplicity_disj_union, multiplicity_singleton. by rewrite decide_False. Qed.
Lemma in_add_ne a b (X : gmultiset Z) : b <> a -> b ∈ {[+ a +]} ⊎ X <-> b ∈ X.
Proof. intros. by rewrite !elem_of_multiplicity, mult_add_ne. Qed.

Lemma objs_ok_live w X a :
  objs_ok w X -> a ∈ X ->
  exists v, ob_store w !! a = Some v /\ vo_refs v = Z.of_nat (multiplicity a X) /\ 0 < vo_refs v < 2 ^ 32.
Proof.
  intros W Ha. destruct (W a) as [E B]. rewrite decide_True in E by done.
  destruct (ob_store w !! a) as [v|]; [|done]. injection E as E. exists v.
  rewrite elem_of_multiplicity in Ha. split_and!; [done|done|lia|lia].
Qed.

Lemma vm_object_ref_ok w X o :
  objs_ok w X -> named o ⊆ X ->
  (forall a, o = Some a -> Z.of_nat (multiplicity a X) + 1 < 2 ^ 32) ->
  exists w', vm_object_ref w o = Done w' /\ objs_ok w' (named o ⊎ X) /\ ob_fs w' = ob_fs w.
Proof.
  intros W Hin Hb. destruct o as [a|]; cbn [vm_object_ref named] in *.
  - destruct (objs_ok_live w X a W) as (v & E & R & _); [multiset_solver|].
    rewrite E. eexists. split; [done|]. split; [|done]. intros b. specialize (Hb a eq_refl).
    cbn [ob_store]. destruct (decide (b = a)) as [->|Hne].
    + rewrite lookup_insert_eq, decide_True by multiset_solver. cbn [fmap option_fmap option_map vo_refs with_vo_refs].
    rewrite mult_add_eq, R, w32_small by lia. split; [f_equal|]; lia.
    + rewrite lookup_insert_ne by done. destruct (W b) as [Eb Bb].
      rewrite mult_add_ne by done. split; [|done].
      rewrite Eb. apply decide_ext. rewrite in_add_ne; done.
  - exists w. split_and!; try done. by rewrite gmultiset_disj_union_left_id.
Qed.

(** Dropping a reference never meets a dead object, and frees it exactly when
    it was the last. *)
Lemma vm_object_deref_ok w X o :
  objs_ok w (named o ⊎ X) ->
  exists w', vm_object_deref w o = Done w' /\ objs_ok w' X.
Proof.
  intros W. destruct o as [a|]; cbn [vm_object_deref named] in *; cycle 1.
  { exists w. split; [done|]. by rewrite gmultiset_disj_union_left_id in W. }
  destruct (objs_ok_live w _ a W) as (v & E & R & B); [multiset_solver|].
  rewrite mult_add_eq in R.
  rewrite E, R, w32_small by lia. replace (Z.of_nat (S (multiplicity a X)) - 1)
    with (Z.of_nat (multiplicity a X)) by lia.
  assert (forall b, b <> a ->
    vo_refs <$> ob_store w !! b = (if decide (b ∈ X) then Some (Z.of_nat (multiplicity b X)) else None)
    /\ Z.of_nat (multiplicity b X) < 2 ^ 32) as Oth.
  { intros b Hne. destruct (W b) as [Eb Bb]. 
    rewrite mult_add_ne in Eb, Bb by done. split; [|done].
    rewrite Eb. apply decide_ext. rewrite in_add_ne; done. }
  destruct (Z.of_nat (multiplicity a X) =? 0) eqn:Em; cbn [negb].
  - destruct (fs_close (ob_fs w) (vo_handle v)) as [[rv h'] fs]. eexists. split; [done|]. intros b.
    cbn [ob_store]. destruct (decide (b = a)) as [->|Hne].
    + rewrite lookup_delete_eq, decide_False; [split; [done|lia]|].
      rewrite elem_of_multiplicity. lia.
    + rewrite lookup_delete_ne by done. by apply Oth.
  - eexists. split; [done|]. intros b. cbn [ob_store]. destruct (decide (b = a)) as [->|Hne].
    + rewrite lookup_insert_eq, decide_True; [split; [done|lia]|].
      rewrite elem_of_multiplicity. lia.
    + rewrite lookup_insert_ne by done. by apply Oth.
Qed.

(** A new object starts with the one reference its creator holds. *)
Lemma vm_object_file_ok w X h path addr a w' :
  objs_ok w X -> (forall a, addr = Some a -> ob_store w !! a = None) ->
  vm_object_file w h path addr = (Some a, w') -> objs_ok w' ({[+ a +]} ⊎ X).
Proof.
  intros W Fresh. unfold vm_object_file. destruct h as [h|]; [|done].
  destruct (fh_kind h =? FS_HANDLE_NONE); [done|]. destruct addr as [a0|]; [|done].
  destruct (fs_hold (ob_fs w) h) as [rv fs]. destruct (negb (rv =? FS_E_OK)); [done|].
  intros [= -> <-] b. specialize (Fresh a eq_refl). destruct (W a) as [Ea _].
  rewrite Fresh in Ea. cbn in Ea. case_decide as Hin; [done|]. cbn [ob_store].
  assert (multiplicity a X = 0%nat) as Ma by (rewrite elem_of_multiplicity in Hin; lia).
  destruct (decide (b = a)) as [->|Hne].
  - rewrite lookup_insert_eq, decide_True by multiset_solver.
    rewrite mult_add_eq, Ma. split; [done|lia].
  - rewrite lookup_insert_ne by done. destruct (W b) as [Eb Bb].
    rewrite mult_add_ne by done. split; [|done].
    rewrite Eb. apply decide_ext. rewrite in_add_ne; done.
Qed.

Lemma vm_object_file_none w h path addr w' :
  vm_object_file w h path addr = (None, w') -> ob_store w' = ob_store w.
Proof.
  unfold vm_object_file. destruct h as [h|]; [|by intros [= <-]].
  destruct (fh_kind h =? FS_HANDLE_NONE); [by intros [= <-]|].
  destruct addr as [a0|]; [|by intros [= <-]].
  destruct (fs_hold (ob_fs w) h) as [rv fs]. destruct (negb (rv =? FS_E_OK)); by intros [= <-].
Qed.

(** Serving a page keeps every count, and what it writes fits the page: the
    file's bytes up to its end. *)
Lemma vm_object_page_ok w X o off :
  objs_ok w X -> named o ⊆ X ->
  exists r w', vm_object_page w o off = Done (r, w') /\ objs_ok w' X /\
    (forall bs, r = Some bs -> exists a v, o = Some a /\ ob_store w !! a = Some v /\
       Z.of_nat (length bs) = Z.max 0 (Z.min VM_OBJ_PAGE_BYTES (vo_size v - off))).
Proof.
  intros W Hin. destruct o as [a|]; cbn [vm_object_page named] in *; [|by exists None, w].
  destruct (objs_ok_live w X a W) as (v & E & R & _); [multiset_solver|]. rewrite E.
  assert (forall v' fs, vo_refs v' = vo_refs v -> objs_ok (mkObjs (<[a := v']> (ob_store w)) fs) X) as Keep.
  { intros v' fs Hv b. cbn [ob_store]. destruct (W b) as [Eb Bb]. split; [|done].
    rewrite <- Eb. destruct (decide (b = a)) as [->|Hne]; [|by rewrite lookup_insert_ne].
    rewrite lookup_insert_eq, E. cbn. by rewrite Hv. }
  destruct (vo_size v <=? off) eqn:E1.
  { exists (Some []), w. split_and!; [done|done|]. intros bs [= <-]. exists a, v. cbn. split_and!; done || lia. }
  set (want := if vo_size v - off <? _ then _ else _).
  destruct (fs_pread (ob_fs w) (vo_handle v) off want) as [[[rv bs] h'] fs].
  destruct (negb (rv =? FS_E_OK) || negb (Z.of_nat (length bs) =? want)) eqn:E2.
  - eexists None, _. split_and!; [done|by apply Keep|done].
  - eexists (Some bs), _. split_and!; [done|by apply Keep|]. intros bs' [= <-].
    exists a, v. split_and!; [done|done|]. assert (Z.of_nat (length bs) = want) as -> by lia.
    subst want. unfold VM_OBJ_PAGE_BYTES in *. destruct (_ <? _) eqn:?; lia.
Qed.

End VmObject.

Lemma objs_ok_empty {F} (fs : F) : objs_ok (mkObjs ∅ fs) ∅.
Proof. intros a. split; [|done]. cbn [ob_store]. by rewrite lookup_empty. Qed.

(** A file layer with one file, for concrete runs: its bytes, and how many
    hold it. *)
Definition one_file : Type := list Z * Z.

#[global] Instance one_file_ops : FsOps one_file := {
  fs_hold f h := (FS_E_OK, (fst f, snd f + 1));
  fs_close f h := (FS_E_OK, mkHandle (fh_id h) (fh_size h) (fh_ino h) (fh_gen h) (fh_xid h) FS_HANDLE_NONE,
                   (fst f, snd f - 1));
  fs_pread f h off len := (FS_E_OK, take (Z.to_nat len) (drop (Z.to_nat off) (fst f)), h, f);
}.

Definition one_handle (n : Z) : fs_handle := mkHandle 1 n 2 1 1 1.
