(* ===== verification/VmMap.v ===== *)
(** The per-task address-space record, the map half of [vm/vm.c]: a sorted
    list of ranges, with lookup, insertion, cutting, removal and placement. *)

From stdpp Require Import base list numbers strings gmap gmultiset sorting.
From Stdlib Require Import ZArith Lia ZifyBool.
From S2P Require Import Prelude VmObject.

Definition VM_PROT_READ : Z := 1.
Definition VM_PROT_WRITE : Z := 2.
Definition VM_PROT_EXEC : Z := 4.
Definition VM_PROT_USER : Z := 8.

Definition VME_F_ANON : Z := 1.
Definition VME_F_COW : Z := 2.
Definition VME_F_LAZY : Z := 4.

(** [(x & bit) != 0] *)
Definition has (x bit : Z) : bool := negb (Z.land x bit =? 0).

Definition VM_PAGE_SIZE : Z := 4096.
Definition VM_PAGE_MASK : Z := VM_PAGE_SIZE - 1.
Definition VM_ALIGN_DOWN (x : Z) : Z := Z.ldiff x VM_PAGE_MASK.
Definition VM_ALIGN_UP (x : Z) : Z := Z.ldiff (w64 (x + VM_PAGE_MASK)) VM_PAGE_MASK.
Definition unaligned (x : Z) : bool := negb (Z.land x VM_PAGE_MASK =? 0).

Record vm_map_entry := mkVme {
  vme_start : Z;
  vme_end : Z;
  vme_offset : Z;
  vme_object : option Z;
  vme_prot : Z;
  vme_flags : Z;
}.

Record vm_map := mkMap {
  vm_lo : Z;
  vm_hi : Z;
  vm_hint : Z;
  vm_head : list vm_map_entry;
  vm_count : Z;
}.

Definition with_entries (m : vm_map) (l : list vm_map_entry) (n : Z) : vm_map :=
  mkMap (vm_lo m) (vm_hi m) (vm_hint m) l n.
Definition with_vm_hint (m : vm_map) (h : Z) : vm_map :=
  mkMap (vm_lo m) (vm_hi m) h (vm_head m) (vm_count m).

(** What [kmalloc] will answer: one boolean per call, [false] for NULL; NULL
    again once the list is used up. *)
Definition kheap := list bool.
Definition kmalloc_ok (h : kheap) : bool * kheap :=
  match h with
  | [] => (false, [])
  | b :: h => (b, h)
  end.

Definition vm_map_create (lo hi : Z) (h : kheap) : option vm_map * kheap :=
  if (hi <=? lo) || unaligned lo || unaligned hi then (None, h)
  else
    let '(ok, h) := kmalloc_ok h in
    if ok then (Some (mkMap lo hi lo [] 0), h) else (None, h).

(** [vm_map_lookup]; the position stands for the pointer returned. *)
Fixpoint lookup_from (l : list vm_map_entry) (va : Z) (i : nat) : option (nat * vm_map_entry) :=
  match l with
  | [] => None
  | e :: l =>
      if va <? vme_start e then None
      else if va <? vme_end e then Some (i, e)
      else lookup_from l va (S i)
  end.

Definition vm_map_lookup (m : vm_map) (va : Z) : option (nat * vm_map_entry) :=
  lookup_from (vm_head m) va 0.

Fixpoint range_free (l : list vm_map_entry) (va end_ : Z) : bool :=
  match l with
  | [] => true
  | e :: l =>
      if end_ <=? vme_start e then true
      else if vme_end e <=? va then range_free l va end_
      else false
  end.

Definition vm_range_free_locked (m : vm_map) (va size : Z) : bool :=
  range_free (vm_head m) va (w64 (va + size)).

(** The sorted insertion of [vm_map_enter_backed]. *)
Fixpoint insert_entry (l : list vm_map_entry) (ne : vm_map_entry) : list vm_map_entry :=
  match l with
  | [] => [ne]
  | e :: l' => if vme_start e <? vme_start ne then e :: insert_entry l' ne else ne :: l
  end.

Definition vm_map_enter_backed (m : vm_map) (va size prot flags : Z) (obj : option Z)
    (offset : Z) (h : kheap) : bool * vm_map * kheap :=
  if size =? 0 then (false, m, h)
  else if unaligned va || unaligned size then (false, m, h)
  else
    let end_ := w64 (va + size) in
    if end_ <=? va then (false, m, h)
    else if (va <? vm_lo m) || (vm_hi m <? end_) then (false, m, h)
    else
      let '(ok, h) := kmalloc_ok h in
      if negb ok then (false, m, h)
      else if negb (vm_range_free_locked m va size) then (false, m, h)
      else
        let ne := mkVme va end_ offset obj prot flags in
        (true, with_entries m (insert_entry (vm_head m) ne) (w64 (vm_count m + 1)), h).

Definition vm_map_enter (m : vm_map) (va size prot flags : Z) (h : kheap) : bool * vm_map * kheap :=
  vm_map_enter_backed m va size prot flags None 0 h.

(** [vm_hole_locked]: slide past each obstacle. *)
Fixpoint hole_from (l : list vm_map_entry) (size cur : Z) : Z :=
  match l with
  | [] => cur
  | e :: l =>
      if vme_end e <=? cur then hole_from l size cur
      else if w64 (cur + size) <=? vme_start e then cur
      else hole_from l size (vme_end e)
  end.

Definition vm_hole_locked (m : vm_map) (size from : Z) : Z :=
  let cur := if from <? vm_lo m then vm_lo m else from in
  let cur := hole_from (vm_head m) size cur in
  if vm_hi m <? w64 (cur + size) then 0 else cur.

Definition vm_map_find_space (m : vm_map) (size : Z) : option Z * vm_map :=
  if size =? 0 then (None, m)
  else
    let size := VM_ALIGN_UP size in
    let va := vm_hole_locked m size (vm_hint m) in
    let va := if (va =? 0) && (vm_lo m <? vm_hint m) then vm_hole_locked m size (vm_lo m) else va in
    if va =? 0 then (None, m)
    else (Some va, with_vm_hint m (w64 (va + size))).

(** The entries [vm_map_remove] unlinks and the ones it keeps: it stops at the
    first entry past the range. *)
Fixpoint unlink (l : list vm_map_entry) (va end_ : Z) : list vm_map_entry * list vm_map_entry :=
  match l with
  | [] => ([], [])
  | e :: l' =>
      if end_ <=? vme_start e then ([], l)
      else
        let '(gone, kept) := unlink l' va end_ in
        if (va <=? vme_start e) && (vme_end e <=? end_) then (e :: gone, kept) else (gone, e :: kept)
  end.

(** What [vm_map_snapshot] copies out of one entry. *)
Record mach_vm_region_entry := mkRegion {
  mvr_start : Z; mvr_end : Z; mvr_offset : Z; mvr_prot : Z; mvr_flags : Z;
}.

Definition vm_map_snapshot (m : vm_map) (max_entries : Z) : list mach_vm_region_entry :=
  (fun e => mkRegion (vme_start e) (vme_end e) (vme_offset e) (vme_prot e) (vme_flags e))
    <$> take (Z.to_nat max_entries) (vm_head m).

Definition vm_map_region_count (m : vm_map) : Z := vm_count m.

Section Entries.
Context {F : Type} `{FsOps F}.

Definition entry_free (w : objs F) (e : vm_map_entry) : res (objs F) :=
  vm_object_deref w (vme_object e).

Fixpoint free_entries (w : objs F) (l : list vm_map_entry) : res (objs F) :=
  match l with
  | [] => Done w
  | e :: l => w ← entry_free w e; free_entries w l
  end.

Definition vm_map_destroy (w : objs F) (m : vm_map) : res (objs F) := free_entries w (vm_head m).

Definition vm_map_reset (w : objs F) (m : vm_map) : res (vm_map * objs F) :=
  w ← free_entries w (vm_head m);
  Done (mkMap (vm_lo m) (vm_hi m) (vm_lo m) [] 0, w).

(** Unlinked entries are chained newest first and freed in that order. *)
Definition vm_map_remove (w : objs F) (m : vm_map) (va size : Z) : res (Z * vm_map * objs F) :=
  if size =? 0 then Done (0, m, w)
  else
    let end_ := w64 (va + size) in
    let '(gone, kept) := unlink (vm_head m) va end_ in
    let n := Z.of_nat (length gone) in
    w ← free_entries w (rev gone);
    Done (n, with_entries m kept (w64 (vm_count m - n)), w).

Definition vm_entry_split_locked (w : objs F) (m : vm_map) (i : nat) (e : vm_map_entry) (at_ : Z)
    (h : kheap) : res (bool * vm_map * objs F * kheap) :=
  KASSERT ((vme_start e <? at_) && (at_ <? vme_end e))
    "vm_entry_split_locked: the cut is not inside the entry" ;;
  KASSERT (negb (unaligned at_)) "vm_entry_split_locked: the cut is not page-aligned" ;;
  let '(ok, h) := kmalloc_ok h in
  if negb ok then Done (false, m, w, h)
  else
    let ne := mkVme at_ (vme_end e) (w64 (vme_offset e + (at_ - vme_start e)))
                (vme_object e) (vme_prot e) (vme_flags e) in
    w ← vm_object_ref w (vme_object ne);
    let e' := mkVme (vme_start e) at_ (vme_offset e) (vme_object e) (vme_prot e) (vme_flags e) in
    Done (true,
          with_entries m (take i (vm_head m) ++ e' :: ne :: drop (S i) (vm_head m))
            (w64 (vm_count m + 1)), w, h).

Definition vm_map_clip_locked (w : objs F) (m : vm_map) (at_ : Z) (h : kheap)
    : res (bool * vm_map * objs F * kheap) :=
  match vm_map_lookup m at_ with
  | None => Done (true, m, w, h)
  | Some (i, e) =>
      if vme_start e =? at_ then Done (true, m, w, h)
      else vm_entry_split_locked w m i e at_ h
  end.

End Entries.

(** * The invariant *)

Definition aligned (x : Z) : Prop := x mod VM_PAGE_SIZE = 0.

Lemma unaligned_spec x : unaligned x = false <-> aligned x.
Proof.
  unfold unaligned, aligned, VM_PAGE_MASK, VM_PAGE_SIZE.
  change (4096 - 1) with (2 ^ 12 - 1). rewrite land_ones_mod by lia.
  change (2 ^ 12) with 4096. lia.
Qed.

#[global] Instance aligned_dec x : Decision (aligned x).
Proof. unfold aligned. apply _. Defined.

(** Entries in order, each non-empty and page aligned, none overlapping, all
    between [lo] and [hi]. *)
Fixpoint chain (lo : Z) (l : list vm_map_entry) (hi : Z) : Prop :=
  match l with
  | [] => lo <= hi
  | e :: l => lo <= vme_start e /\ vme_start e < vme_end e /\
              aligned (vme_start e) /\ aligned (vme_end e) /\ chain (vme_end e) l hi
  end.

Record map_ok (m : vm_map) : Prop := {
  mo_lo : 0 < vm_lo m;
  mo_hi : vm_hi m <= 2 ^ 63;
  mo_lo_aligned : aligned (vm_lo m);
  mo_hi_aligned : aligned (vm_hi m);
  mo_chain : chain (vm_lo m) (vm_head m) (vm_hi m);
  mo_count : vm_count m = Z.of_nat (length (vm_head m));
  mo_hint : vm_lo m <= vm_hint m <= vm_hi m;
  mo_hint_aligned : aligned (vm_hint m);
}.

(** What a page is: its pager and offset in it, protection and flags. *)
Definition page_of (e : vm_map_entry) (va : Z) : option Z * Z * Z * Z :=
  (vme_object e, w64 (vme_offset e + (va - vme_start e)), vme_prot e, vme_flags e).

Definition backing (m : vm_map) (va : Z) : option (option Z * Z * Z * Z) :=
  match vm_map_lookup m va with
  | Some (_, e) => Some (page_of e va)
  | None => None
  end.

(** The same, on a list of entries. *)
Fixpoint find_entry (l : list vm_map_entry) (va : Z) : option vm_map_entry :=
  match l with
  | [] => None
  | e :: l => if (vme_start e <=? va) && (va <? vme_end e) then Some e else find_entry l va
  end.

(** * Lists of entries *)

Lemma chain_le lo l hi : chain lo l hi -> lo <= hi.
Proof. revert lo. induction l as [|e l IH]; cbn; intros lo; [done|]. intros (? & ? & _ & _ & C%IH). lia. Qed.

Lemma chain_weaken lo lo' l hi : lo' <= lo -> chain lo l hi -> chain lo' l hi.
Proof. destruct l as [|e l]; cbn; [lia|]. intros ? (? & ?). split; [lia|done]. Qed.

Lemma find_entry_below lo l hi va : chain lo l hi -> va < lo -> find_entry l va = None.
Proof.
  revert lo. induction l as [|e l IH]; cbn; intros lo C Hva; [done|].
  destruct C as (? & ? & _ & _ & C).
  destruct ((vme_start e <=? va) && (va <? vme_end e)) eqn:?; [lia|].
  apply (IH (vme_end e)); [done|lia].
Qed.

Lemma find_entry_above lo l hi va : chain lo l hi -> hi <= va -> find_entry l va = None.
Proof.
  revert lo. induction l as [|e l IH]; cbn; intros lo C Hva; [done|].
  destruct C as (? & ? & _ & _ & C). pose proof (chain_le _ _ _ C).
  destruct ((vme_start e <=? va) && (va <? vme_end e)) eqn:?; [lia|]. by apply (IH (vme_end e)).
Qed.

Lemma find_entry_Some l va e : find_entry l va = Some e -> e ∈ l /\ vme_start e <= va < vme_end e.
Proof.
  induction l as [|x l IH]; cbn; [done|].
  destruct ((vme_start x <=? va) && (va <? vme_end x)) eqn:?.
  - intros [= ->]. split; [by left|lia].
  - intros H%IH. destruct H. split; [by right|done].
Qed.

Lemma find_entry_in lo l hi e va :
  chain lo l hi -> e ∈ l -> vme_start e <= va < vme_end e -> find_entry l va = Some e.
Proof.
  revert lo. induction l as [|x l IH]; cbn [chain find_entry]; intros lo C Hin Hr; [by apply not_elem_of_nil in Hin|].
  destruct C as (? & ? & _ & _ & C). apply elem_of_cons in Hin as [->|Hin].
  { by destruct ((vme_start x <=? va) && (va <? vme_end x)) eqn:?; [|lia]. }
  specialize (IH _ C Hin Hr).
  destruct ((vme_start x <=? va) && (va <? vme_end x)) eqn:?; [|done].
  rewrite (find_entry_below _ _ _ va C) in IH by lia. done.
Qed.

Lemma lookup_from_find lo l hi va i :
  chain lo l hi -> snd <$> lookup_from l va i = find_entry l va.
Proof.
  revert lo i. induction l as [|e l IH]; cbn; intros lo i C; [done|].
  destruct C as (? & ? & _ & _ & C).
  destruct (va <? vme_start e) eqn:?.
  - destruct ((vme_start e <=? va) && (va <? vme_end e)) eqn:?; [lia|].
    cbn. symmetry. apply (find_entry_below (vme_end e) l hi); [done|lia].
  - destruct (va <? vme_end e) eqn:?.
    + destruct ((vme_start e <=? va) && _) eqn:?; [done|lia].
    + destruct ((vme_start e <=? va) && _) eqn:?; [lia|]. by apply (IH (vme_end e)).
Qed.

Lemma lookup_from_pos l va i j e :
  lookup_from l va i = Some (j, e) -> (i <= j)%nat /\ l !! (j - i)%nat = Some e /\
    vme_start e <= va < vme_end e.
Proof.
  revert i. induction l as [|x l IH]; cbn; intros i; [done|].
  destruct (va <? vme_start x) eqn:?; [done|]. destruct (va <? vme_end x) eqn:?.
  - intros [= <- <-]. replace (i - i)%nat with 0%nat by lia. split_and!; [lia|done|lia|lia].
  - intros (? & E & ?)%IH. split; [lia|]. split; [|done].
    destruct (j - i)%nat as [|k] eqn:Ek; [lia|]. cbn. by replace k with (j - S i)%nat by lia.
Qed.

(** [vm_map_lookup] returns the entry that covers the address, and NULL in a
    hole: the early exit past the address loses nothing. *)
Lemma lookup_find m va : map_ok m -> snd <$> vm_map_lookup m va = find_entry (vm_head m) va.
Proof. intros M. eapply lookup_from_find, M. Qed.

Lemma backing_find m va :
  map_ok m -> backing m va = (fun e => page_of e va) <$> find_entry (vm_head m) va.
Proof.
  intros M. unfold backing. rewrite <- (lookup_find m va M).
  by destruct (vm_map_lookup m va) as [[i e]|].
Qed.

(** ** Range test *)

Lemma range_free_spec lo l hi va end_ :
  chain lo l hi -> va < end_ ->
  range_free l va end_ = true <-> (forall v, va <= v < end_ -> find_entry l v = None).
Proof.
  revert lo. induction l as [|e l IH]; cbn [range_free find_entry chain]; intros lo C Hv.
  - split; done.
  - destruct C as (? & ? & _ & _ & C). destruct (end_ <=? vme_start e) eqn:E1.
    + split; [|done]. intros _ v Hr.
      destruct ((vme_start e <=? v) && (v <? vme_end e)) eqn:?; [lia|].
      apply (find_entry_below (vme_end e) l hi); [done|lia].
    + destruct (vme_end e <=? va) eqn:E2.
      * rewrite (IH (vme_end e) C Hv). split; intros X v Hr; specialize (X v Hr).
        -- destruct ((vme_start e <=? v) && (v <? vme_end e)) eqn:?; [lia|done].
        -- destruct ((vme_start e <=? v) && (v <? vme_end e)) eqn:?; [lia|done].
      * split; [done|]. intros X. specialize (X (Z.max va (vme_start e)) ltac:(lia)).
        destruct ((vme_start e <=? Z.max va (vme_start e)) && _) eqn:?; [done|lia].
Qed.

(** ** Insertion *)

Lemma chain_insert lo l hi ne :
  chain lo l hi -> lo <= vme_start ne -> vme_start ne < vme_end ne -> vme_end ne <= hi ->
  aligned (vme_start ne) -> aligned (vme_end ne) ->
  range_free l (vme_start ne) (vme_end ne) = true ->
  chain lo (insert_entry l ne) hi.
Proof.
  revert lo. induction l as [|e l IH]; cbn [range_free insert_entry chain]; intros lo C Hl Hs He A1 A2 R.
  - cbn. repeat split; done || lia.
  - destruct C as (? & ? & ? & ? & C). destruct (vme_start e <? vme_start ne) eqn:E1.
    + destruct (vme_end ne <=? vme_start e) eqn:?; [lia|].
      destruct (vme_end e <=? vme_start ne) eqn:?; [|done].
      cbn. split_and!; try done. apply IH; done || lia.
    + destruct (vme_end ne <=? vme_start e) eqn:?;
        [|destruct (vme_end e <=? vme_start ne) eqn:?; [lia|done]].
      cbn. split_and!; try done; lia.
Qed.

Lemma find_insert lo l hi ne va :
  chain lo l hi -> vme_start ne < vme_end ne ->
  range_free l (vme_start ne) (vme_end ne) = true ->
  find_entry (insert_entry l ne) va =
    if (vme_start ne <=? va) && (va <? vme_end ne) then Some ne else find_entry l va.
Proof.
  revert lo. induction l as [|e l IH]; cbn [range_free insert_entry chain find_entry]; intros lo C Hs R;
    [done|].
  destruct C as (? & ? & _ & _ & C). destruct (vme_start e <? vme_start ne) eqn:E1; cbn [find_entry].
  - destruct (vme_end ne <=? vme_start e) eqn:?; [lia|].
    destruct (vme_end e <=? vme_start ne) eqn:?; [|done].
    rewrite (IH (vme_end e)) by done.
    destruct ((vme_start e <=? va) && (va <? vme_end e)) eqn:?,
      ((vme_start ne <=? va) && (va <? vme_end ne)) eqn:?; done || lia.
  - done.
Qed.

Lemma length_insert_entry l ne : length (insert_entry l ne) = S (length l).
Proof. induction l as [|e l IH]; cbn; [done|]. destruct (_ <? _); cbn; lia. Qed.

(** ** Placement *)

Definition span_free (l : list vm_map_entry) (va size : Z) : Prop :=
  forall v, va <= v < va + size -> find_entry l v = None.

Lemma hole_from_spec lo l hi size cur :
  chain lo l hi -> 0 <= cur <= 2 ^ 63 -> 0 < size < 2 ^ 63 -> hi <= 2 ^ 63 -> aligned cur ->
  let r := hole_from l size cur in
  cur <= r /\ r <= Z.max cur hi /\ aligned r /\ span_free l r size /\
  (forall c, cur <= c -> span_free l c size -> r <= c).
Proof.
  revert lo cur. induction l as [|e l IH]; cbn [hole_from chain]; intros lo cur C Hc Hs Hh A.
  - split_and!; [lia|lia|done|intros v _; done|lia].
  - destruct C as (? & ? & ? & ? & C). pose proof (chain_le _ _ _ C).
    assert (forall r, vme_end e <= r -> span_free l r size -> span_free (e :: l) r size) as Fr.
    { intros r Hr F v Hv. cbn. destruct ((vme_start e <=? v) && (v <? vme_end e)) eqn:?; [lia|].
      by apply F. }
    assert (forall c, span_free (e :: l) c size -> span_free l c size) as Fc.
    { intros c F v Hv. specialize (F v Hv). cbn in F. by destruct ((vme_start e <=? v) && _). }
    destruct (vme_end e <=? cur) eqn:E1.
    + destruct (IH (vme_end e) cur C Hc Hs Hh A) as (? & ? & ? & F & Min).
      split_and!; [done|lia|done|apply Fr; [lia|done]|]. intros c ? ?. apply Min; auto.
    + rewrite w64_small by lia. destruct (cur + size <=? vme_start e) eqn:E2.
      * split_and!; [lia|lia|done| |intros; lia]. intros v Hv. cbn.
        destruct ((vme_start e <=? v) && (v <? vme_end e)) eqn:?; [lia|].
        apply (find_entry_below (vme_end e) l hi); [done|lia].
      * destruct (IH (vme_end e) (vme_end e) C) as (? & ? & ? & F & Min); try done; [lia|].
        split_and!; [lia|lia|done|apply Fr; [lia|done]|].
        intros c Hcc F'. apply Min; [|auto].
        destruct (Z_lt_ge_dec c (vme_end e)); [|lia].
        specialize (F' (Z.max c (vme_start e)) ltac:(lia)). cbn in F'.
        destruct ((vme_start e <=? Z.max c (vme_start e)) && _) eqn:?; [done|lia].
Qed.

Lemma hole_locked_spec m size from :
  map_ok m -> 0 < size < 2 ^ 63 -> vm_lo m <= from <= vm_hi m -> aligned from ->
  let r := vm_hole_locked m size from in
  (r <> 0 -> from <= r /\ r + size <= vm_hi m /\ aligned r /\ span_free (vm_head m) r size) /\
  (r = 0 -> forall c, from <= c -> c + size <= vm_hi m -> ~ span_free (vm_head m) c size).
Proof.
  intros M Hs Hf A. pose proof (mo_lo m M). pose proof (mo_hi m M).
  unfold vm_hole_locked. destruct (Z.ltb_spec from (vm_lo m)); [lia|].
  destruct (hole_from_spec _ _ _ size from (mo_chain m M)) as (? & ? & ? & F & Min); [lia|lia|lia|done|].
  set (r := hole_from _ _ _) in *. rewrite w64_small by lia.
  destruct (vm_hi m <? r + size) eqn:E.
  - split; [lia|]. intros _ c Hc Hch Fc. specialize (Min c Hc Fc). lia.
  - split; [|lia]. intros _. split_and!; [done|lia|done|done].
Qed.

(** ** Removal *)

Definition wholly_inside (e : vm_map_entry) (va end_ : Z) : bool :=
  (va <=? vme_start e) && (vme_end e <=? end_).

Lemma unlink_spec lo l hi va end_ :
  chain lo l hi -> va < end_ ->
  let '(gone, kept) := unlink l va end_ in
  gone = filter (fun e => Is_true (wholly_inside e va end_)) l /\
  kept = filter (fun e => Is_true (negb (wholly_inside e va end_))) l.
Proof.
  revert lo. induction l as [|e l IH]; cbn [unlink chain]; intros lo C Hv; [done|].
  destruct C as (? & ? & _ & _ & C). destruct (end_ <=? vme_start e) eqn:E1.
  - assert (forall l lo, end_ <= lo -> chain lo l hi ->
      filter (fun e => Is_true (wholly_inside e va end_)) l = [] /\
      filter (fun e => Is_true (negb (wholly_inside e va end_))) l = l) as X.
    { clear. induction l as [|x l IH]; intros lo Hlo; cbn [chain]; [done|].
      intros (? & ? & _ & _ & C). destruct (IH (vme_end x) ltac:(lia) C) as [X1 X2].
      assert (wholly_inside x va end_ = false) as W by (unfold wholly_inside; lia).
      rewrite !filter_cons, W, X1, X2. done. }
    destruct (X l (vme_end e) ltac:(lia) C) as [X1 X2].
    assert (wholly_inside e va end_ = false) as W by (unfold wholly_inside; lia).
    rewrite !filter_cons, W, X1, X2. done.
  - specialize (IH (vme_end e) C Hv). destruct (unlink l va end_) as [gone kept].
    destruct IH as [-> ->]. rewrite !filter_cons. fold (wholly_inside e va end_).
    by destruct (wholly_inside e va end_).
Qed.

Lemma chain_filter P `{forall e, Decision (P e)} lo l hi :
  chain lo l hi -> chain lo (filter P l) hi.
Proof.
  revert lo. induction l as [|e l IH]; cbn [chain]; intros lo C; [done|].
  destruct C as (? & ? & ? & ? & C). rewrite filter_cons. case_decide.
  - cbn. split_and!; try done. by apply IH.
  - apply (chain_weaken (vme_end e)); [lia|]. by apply IH.
Qed.

Lemma find_filter P `{forall e, Decision (P e)} lo l hi va :
  chain lo l hi ->
  find_entry (filter P l) va =
    match find_entry l va with Some e => if decide (P e) then Some e else None | None => None end.
Proof.
  revert lo. induction l as [|e l IH]; cbn [chain find_entry]; intros lo C; [done|].
  destruct C as (? & ? & ? & ? & C). rewrite filter_cons.
  destruct ((vme_start e <=? va) && (va <? vme_end e)) eqn:E.
  - case_decide; cbn [find_entry]; [by rewrite E|].
    rewrite (IH (vme_end e) C), (find_entry_below (vme_end e) l hi); done || lia.
  - case_decide; cbn [find_entry]; rewrite ?E; by apply (IH (vme_end e)).
Qed.

(** ** Cutting *)

Definition cut_low (e : vm_map_entry) (at_ : Z) : vm_map_entry :=
  mkVme (vme_start e) at_ (vme_offset e) (vme_object e) (vme_prot e) (vme_flags e).
Definition cut_high (e : vm_map_entry) (at_ : Z) : vm_map_entry :=
  mkVme at_ (vme_end e) (w64 (vme_offset e + (at_ - vme_start e)))
    (vme_object e) (vme_prot e) (vme_flags e).

Definition cut_at (l : list vm_map_entry) (i : nat) (e : vm_map_entry) (at_ : Z) : list vm_map_entry :=
  take i l ++ cut_low e at_ :: cut_high e at_ :: drop (S i) l.

Lemma chain_cut lo l hi i e at_ :
  chain lo l hi -> l !! i = Some e -> vme_start e < at_ < vme_end e -> aligned at_ ->
  chain lo (cut_at l i e at_) hi.
Proof.
  revert lo l. induction i as [|i IH]; intros lo [|x l] C L Ha A; try done; cbn in C.
  - injection L as ->. destruct C as (? & ? & ? & ? & C). cbn. split_and!; done || lia.
  - destruct C as (? & ? & ? & ? & C). cbn. split_and!; try done. by apply IH.
Qed.

Lemma find_cut lo l hi i e at_ va :
  chain lo l hi -> l !! i = Some e -> vme_start e < at_ < vme_end e ->
  find_entry (cut_at l i e at_) va =
    match find_entry l va with
    | Some x => if (vme_start e <=? va) && (va <? vme_end e)
                then Some (if va <? at_ then cut_low e at_ else cut_high e at_) else Some x
    | None => None
    end.
Proof.
  revert lo l. induction i as [|i IH]; intros lo [|x l] C L Ha; try done; cbn in C.
  - injection L as ->. destruct C as (? & ? & ? & ? & C).
    cbn [cut_at take drop app find_entry cut_low cut_high vme_start vme_end].
    destruct ((vme_start e <=? va) && (va <? at_)) eqn:E1.
    { destruct ((vme_start e <=? va) && (va <? vme_end e)) eqn:E2; [|lia].
      by destruct (va <? at_) eqn:?; [|lia]. }
    destruct ((at_ <=? va) && (va <? vme_end e)) eqn:E3.
    { destruct ((vme_start e <=? va) && (va <? vme_end e)) eqn:E2; [|lia].
      by destruct (va <? at_) eqn:?; [lia|]. }
    destruct ((vme_start e <=? va) && (va <? vme_end e)) eqn:E2; [lia|]. rewrite ?drop_0. by destruct (find_entry l va).
  - destruct C as (? & ? & ? & ? & C).
    cbn [cut_at take drop app find_entry]. fold (cut_at l i e at_).
    destruct ((vme_start x <=? va) && (va <? vme_end x)) eqn:E1; [|by apply (IH (vme_end x))].
    assert (vme_end x <= vme_start e).
    { clear -C L. cbn in L. revert l i C L. generalize (vme_end x). intros lo l. revert lo.
      induction l as [|y l IHl]; intros lo [|i] C L; try done; cbn in C.
      - injection L as ->. lia.
      - destruct C as (? & ? & _ & _ & C). specialize (IHl _ _ C L). lia. }
    destruct ((vme_start e <=? va) && (va <? vme_end e)) eqn:E2; [lia|done].
Qed.

Lemma length_cut l i e at_ : l !! i = Some e -> length (cut_at l i e at_) = S (length l).
Proof.
  intros L%lookup_lt_Some. unfold cut_at. rewrite length_app, length_take. cbn. rewrite length_drop. lia.
Qed.

(** The two halves of a cut describe the page the whole did. *)
Lemma page_of_cut e at_ va :
  page_of (if va <? at_ then cut_low e at_ else cut_high e at_) va = page_of e va.
Proof.
  unfold page_of. destruct (va <? at_); cbn; [done|]. f_equal. f_equal. f_equal.
  unfold w64. rewrite Zplus_mod_idemp_l. f_equal. lia.
Qed.

(** ** Sizes *)

Lemma chain_length lo l hi : chain lo l hi -> Z.of_nat (length l) <= hi - lo.
Proof.
  revert lo. induction l as [|e l IH]; cbn [chain length]; intros lo; [lia|].
  intros (? & ? & _ & _ & C%IH). lia.
Qed.

Lemma map_ok_bounds m : map_ok m -> 0 < vm_lo m <= vm_hi m /\ vm_hi m <= 2 ^ 63 /\
  0 <= vm_count m < 2 ^ 63.
Proof.
  intros M. pose proof (mo_lo m M). pose proof (mo_hi m M). pose proof (mo_count m M).
  pose proof (chain_le _ _ _ (mo_chain m M)). pose proof (chain_length _ _ _ (mo_chain m M)). lia.
Qed.

Lemma map_ok_with_entries m l n :
  map_ok m -> chain (vm_lo m) l (vm_hi m) -> n = Z.of_nat (length l) -> map_ok (with_entries m l n).
Proof. intros [] C ->. by split. Qed.

Lemma backing_out m va : map_ok m -> backing m va <> None -> vm_lo m <= va < vm_hi m.
Proof.
  intros M. rewrite backing_find by done. destruct (Z_lt_ge_dec va (vm_lo m)).
  { by rewrite (find_entry_below _ _ _ _ (mo_chain m M)). }
  destruct (Z_lt_ge_dec va (vm_hi m)); [lia|].
  by rewrite (find_entry_above _ _ _ _ (mo_chain m M)) by lia.
Qed.

Lemma backing_None m va : map_ok m -> backing m va = None <-> find_entry (vm_head m) va = None.
Proof. intros M. rewrite backing_find by done. by destruct (find_entry (vm_head m) va). Qed.

Lemma aligned_add x y : aligned x -> aligned y -> aligned (x + y).
Proof. unfold aligned, VM_PAGE_SIZE. intros. Z.div_mod_to_equations. lia. Qed.

(** * The operations, exactly *)

(** When [vm_map_enter_backed] accepts a range. *)
Definition can_enter (m : vm_map) (va size : Z) : Prop :=
  0 < size /\ aligned va /\ aligned size /\ vm_lo m <= va /\ va + size <= vm_hi m /\
  (forall v, va <= v < va + size -> backing m v = None).

Definition in_span (v va size : Z) : bool := (va <=? v) && (v <? va + size).

Lemma enter_backed_true m va size prot flags obj off h :
  map_ok m -> u64 va -> u64 size -> can_enter m va size ->
  exists m', vm_map_enter_backed m va size prot flags obj off (true :: h) = (true, m', h) /\
    map_ok m' /\ vm_lo m' = vm_lo m /\ vm_hi m' = vm_hi m /\
    m' = with_entries m (insert_entry (vm_head m) (mkVme va (va + size) off obj prot flags))
           (vm_count m + 1) /\
    forall v, backing m' v =
      if in_span v va size then Some (obj, w64 (off + (v - va)), prot, flags) else backing m v.
Proof.
  intros M [Hv _] [_ Hs] (Hp & A1 & A2 & Hlo & Hhi & Free).
  destruct (map_ok_bounds m M) as (? & ? & ?).
  unfold vm_map_enter_backed, vm_range_free_locked. rewrite w64_small by lia.
  destruct (size =? 0) eqn:?; [lia|].
  rewrite (proj2 (unaligned_spec va) A1), (proj2 (unaligned_spec size) A2). cbn [orb].
  destruct (va + size <=? va) eqn:?; [lia|].
  destruct ((va <? vm_lo m) || (vm_hi m <? va + size)) eqn:?; [lia|]. cbn [kmalloc_ok negb].
  assert (range_free (vm_head m) va (va + size) = true) as R.
  { apply (range_free_spec _ _ _ _ _ (mo_chain m M)); [lia|]. intros v ?. by apply backing_None, Free. }
  rewrite R. cbn [negb]. rewrite w64_small by lia. eexists. split; [done|].
  match goal with |- map_ok ?x /\ _ => assert (map_ok x) as M' end.
  { apply map_ok_with_entries; [done| |rewrite length_insert_entry, (mo_count m M); lia].
    apply chain_insert; try done; cbn; try lia; [apply M|by apply aligned_add]. }
  split_and!; try done. intros v. rewrite !backing_find by done. cbn [with_entries vm_head].
  rewrite (find_insert _ _ _ _ _ (mo_chain m M)) by (done || cbn; lia). cbn [vme_start vme_end].
  unfold in_span. by destruct ((va <=? v) && _).
Qed.

Lemma enter_backed_cases m va size prot flags obj off h :
  map_ok m -> u64 va -> u64 size ->
  (exists h', vm_map_enter_backed m va size prot flags obj off h = (false, m, h')) \/
  (can_enter m va size /\ fst (kmalloc_ok h) = true).
Proof.
  intros M [Hv Hv'] [? Hs]. destruct (map_ok_bounds m M) as (? & ? & ?).
  unfold vm_map_enter_backed, vm_range_free_locked.
  destruct (size =? 0) eqn:E0; [eauto|].
  destruct (unaligned va) eqn:E1; cbn [orb]; [eauto|]. apply unaligned_spec in E1.
  destruct (unaligned size) eqn:E2; [eauto|]. apply unaligned_spec in E2.
  destruct (w64 (va + size) <=? va) eqn:E3; [eauto|].
  destruct ((va <? vm_lo m) || (vm_hi m <? w64 (va + size))) eqn:E4; [eauto|].
  destruct (kmalloc_ok h) as [ok h'] eqn:Eh. destruct ok; cbn [negb]; [|eauto].
  destruct (range_free (vm_head m) va (w64 (va + size))) eqn:R; cbn [negb]; [|eauto]. right.
  split; [|done]. assert (w64 (va + size) = va + size) as Ew.
  { unfold w64 in *. Z.div_mod_to_equations. lia. }
  rewrite Ew in *. unfold can_enter. split_and!; try done; try lia. intros v Hr.
  apply backing_None; [done|].
  by apply (proj1 (range_free_spec _ _ _ va (va + size) (mo_chain m M) ltac:(lia)) R).
Qed.

(** [VM_ALIGN_UP] and where it wraps. *)
Lemma align_up_spec x :
  0 <= x < 2 ^ 64 - VM_PAGE_MASK ->
  aligned (VM_ALIGN_UP x) /\ x <= VM_ALIGN_UP x < x + VM_PAGE_SIZE.
Proof.
  unfold VM_ALIGN_UP, aligned, VM_PAGE_MASK, VM_PAGE_SIZE. intros Hx. rewrite w64_small by lia.
  change (4096 - 1) with (2 ^ 12 - 1) at 2 4 6. rewrite ldiff_ones_sub by lia.
  change (2 ^ 12) with 4096. Z.div_mod_to_equations. lia.
Qed.

Lemma find_space_spec m size :
  map_ok m -> 0 < size < 2 ^ 62 ->
  let n := VM_ALIGN_UP size in
  match vm_map_find_space m size with
  | (Some va, m') => can_enter m va n /\ m' = with_vm_hint m (va + n) /\ map_ok m'
  | (None, m') => m' = m /\ forall va, ~ can_enter m va n
  end.
Proof.
  intros M Hs n. destruct (map_ok_bounds m M) as (? & ? & _). pose proof (mo_hint m M).
  destruct (align_up_spec size) as [An Bn]; [unfold VM_PAGE_MASK, VM_PAGE_SIZE; lia|]. fold n in An, Bn.
  unfold VM_PAGE_SIZE in Bn.
  assert (forall va, va <> 0 -> vm_lo m <= va -> va + n <= vm_hi m -> aligned va ->
     span_free (vm_head m) va n ->
     can_enter m va n /\ with_vm_hint m (w64 (va + n)) = with_vm_hint m (va + n) /\
     map_ok (with_vm_hint m (va + n))) as Good.
  { intros va ? ? ? A Fr. rewrite w64_small by lia. split_and!; [|done|].
    - unfold can_enter. split_and!; try done; try lia. intros v Hv. by apply backing_None, Fr.
    - destruct M. split; try done; cbn; [lia|by apply aligned_add]. }
  assert (forall va, can_enter m va n -> span_free (vm_head m) va n) as Fr.
  { intros va (_ & _ & _ & _ & _ & Fr) v Hv. by apply backing_None, Fr. }
  destruct (hole_locked_spec m n (vm_hint m) M) as [S1 N1]; [lia|lia|apply M|].
  destruct (hole_locked_spec m n (vm_lo m) M) as [S2 N2]; [lia|lia|apply M|].
  unfold vm_map_find_space. fold n. destruct (size =? 0) eqn:?; [lia|].
  set (r1 := vm_hole_locked m n (vm_hint m)) in *. set (r2 := vm_hole_locked m n (vm_lo m)) in *.
  destruct (r1 =? 0) eqn:E1; cbn [andb].
  - destruct (vm_lo m <? vm_hint m) eqn:E2.
    + destruct (r2 =? 0) eqn:E3.
      * split; [done|]. intros va CE. apply (N2 ltac:(lia) va); [apply CE|apply CE|auto].
      * destruct S2 as (? & ? & ? & ?); [lia|]. destruct (Good r2) as (? & -> & ?); try done; lia.
    + rewrite E1. split; [done|]. intros va CE.
      apply (N1 ltac:(lia) va); [|apply CE|auto]. destruct CE as (_ & _ & _ & ? & _). lia.
  - rewrite E1. destruct S1 as (? & ? & ? & ?); [lia|]. destruct (Good r1) as (? & -> & ?); try done; lia.
Qed.

(** ** The pagers a map holds *)

Fixpoint entry_names (l : list vm_map_entry) : gmultiset Z :=
  match l with
  | [] => ∅
  | e :: l => named (vme_object e) ⊎ entry_names l
  end.

Lemma entry_names_app l1 l2 : entry_names (l1 ++ l2) = entry_names l1 ⊎ entry_names l2.
Proof. induction l1 as [|e l IH]; cbn [entry_names app]; [|rewrite IH]; multiset_solver. Qed.

Lemma entry_names_rev l : entry_names (rev l) = entry_names l.
Proof.
  induction l as [|e l IH]; cbn [entry_names rev]; [done|].
  rewrite entry_names_app, IH. cbn [entry_names]. multiset_solver.
Qed.

Lemma entry_names_filter (f : vm_map_entry -> bool) l :
  entry_names l = entry_names (filter (fun e => Is_true (f e)) l) ⊎
                  entry_names (filter (fun e => Is_true (negb (f e))) l).
Proof.
  induction l as [|e l IH]; cbn [entry_names]; [multiset_solver|].
  rewrite !filter_cons, IH at 1. destruct (f e); cbn [Is_true negb entry_names]; 
    repeat case_decide; try done; cbn [entry_names]; multiset_solver.
Qed.

Lemma entry_names_insert l ne : entry_names (insert_entry l ne) = named (vme_object ne) ⊎ entry_names l.
Proof.
  induction l as [|e l IH]; cbn [insert_entry entry_names]; [done|].
  destruct (_ <? _); cbn [entry_names]; [rewrite IH|done]. multiset_solver.
Qed.

Lemma entry_names_cut l i e at_ :
  l !! i = Some e -> entry_names (cut_at l i e at_) = named (vme_object e) ⊎ entry_names l.
Proof.
  intros L. rewrite <- (take_drop_middle l i e L) at 2. unfold cut_at.
  rewrite !entry_names_app. cbn [entry_names cut_low cut_high vme_object]. multiset_solver.
Qed.

Lemma entry_names_elem l e : e ∈ l -> named (vme_object e) ⊆ entry_names l.
Proof.
  induction 1 as [e l|e x l _ IH]; cbn [entry_names]; multiset_solver.
Qed.

Section Objects.
Context {F : Type} `{FsOps F}.

Lemma free_entries_ok (w : objs F) l X :
  objs_ok w (entry_names l ⊎ X) -> exists w', free_entries w l = Done w' /\ objs_ok w' X.
Proof.
  revert w. induction l as [|e l IH]; intros w; cbn [entry_names free_entries].
  - rewrite gmultiset_disj_union_left_id. by exists w.
  - rewrite <- gmultiset_disj_union_assoc. intros (w1 & E & W)%vm_object_deref_ok.
    unfold entry_free. rewrite E, bind_Done. by apply IH.
Qed.

(** [vm_map_remove] takes out exactly the ranges wholly inside, gives back
    their pagers, and returns how many. *)
Lemma vm_map_remove_ok (w : objs F) m va size X :
  map_ok m -> u64 va -> 0 < size -> va + size < 2 ^ 64 ->
  objs_ok w (entry_names (vm_head m) ⊎ X) ->
  let kept := filter (fun e => Is_true (negb (wholly_inside e va (va + size)))) (vm_head m) in
  let n := Z.of_nat (length (filter (fun e => Is_true (wholly_inside e va (va + size))) (vm_head m))) in
  exists w', vm_map_remove w m va size = Done (n, with_entries m kept (vm_count m - n), w') /\
    map_ok (with_entries m kept (vm_count m - n)) /\ objs_ok w' (entry_names kept ⊎ X).
Proof.
  intros M [Hv _] Hs Hb W kept n. unfold vm_map_remove.
  destruct (size =? 0) eqn:?; [lia|]. rewrite (w64_small (va + size)) by lia.
  pose proof (unlink_spec _ _ _ va (va + size) (mo_chain m M) ltac:(lia)) as U.
  destruct (unlink (vm_head m) va (va + size)) as [gone kept']. destruct U as [-> ->].
  fold kept n. rewrite (entry_names_filter (fun e => wholly_inside e va (va + size))) in W.
  fold kept in W. rewrite <- gmultiset_disj_union_assoc, <- entry_names_rev in W.
  destruct (free_entries_ok _ _ _ W) as (w' & E & W').
  rewrite E, bind_Done. destruct (map_ok_bounds m M) as (_ & _ & ?).
  assert (Z.of_nat (length (vm_head m)) = n + Z.of_nat (length kept)) as L.
  { subst n kept. clear. induction (vm_head m) as [|e l IH]; [done|]. rewrite !filter_cons.
    destruct (wholly_inside e va (va + size)); cbn [Is_true negb]; repeat case_decide; try done;
      cbn [length]; lia. }
  pose proof (mo_count m M). rewrite w64_small by lia. exists w'. split_and!; [done| |done].
  apply map_ok_with_entries; [done| |lia]. by apply chain_filter, M.
Qed.

Lemma backing_remove m va size n v :
  map_ok m ->
  map_ok (with_entries m (filter (fun e => Is_true (negb (wholly_inside e va (va + size)))) (vm_head m)) n) ->
  backing (with_entries m (filter (fun e => Is_true (negb (wholly_inside e va (va + size)))) (vm_head m)) n) v =
  match find_entry (vm_head m) v with
  | Some e => if wholly_inside e va (va + size) then None else Some (page_of e v)
  | None => None
  end.
Proof.
  intros M M'. rewrite backing_find by done. cbn [with_entries vm_head].
  rewrite (find_filter _ _ _ _ _ (mo_chain m M)). destruct (find_entry (vm_head m) v) as [e|]; [|done].
  destruct (wholly_inside e va (va + size)); cbn; by case_decide.
Qed.

(** No range crosses [at_]. *)
Definition boundary (l : list vm_map_entry) (at_ : Z) : Prop :=
  forall e, e ∈ l -> vme_end e <= at_ \/ at_ <= vme_start e.

Lemma boundary_unfound lo l hi at_ : chain lo l hi -> find_entry l at_ = None -> boundary l at_.
Proof.
  intros C N e Hin. destruct (Z_le_gt_dec (vme_end e) at_); [lia|].
  destruct (Z_le_gt_dec at_ (vme_start e)); [lia|].
  rewrite (find_entry_in _ _ _ e at_ C Hin) in N by lia. done.
Qed.

Lemma boundary_found lo l hi at_ e :
  chain lo l hi -> find_entry l at_ = Some e -> vme_start e = at_ -> boundary l at_.
Proof.
  intros C Fe <- x Hin. destruct (Z_le_gt_dec (vme_end x) (vme_start e)); [lia|].
  destruct (Z_le_gt_dec (vme_start e) (vme_start x)); [lia|].
  rewrite (find_entry_in _ _ _ x _ C Hin) in Fe by lia. injection Fe as ->. lia.
Qed.

(** The cut of [vm_entry_split_locked]. *)
Lemma split_ok (w : objs F) m i e at_ h X :
  map_ok m -> aligned at_ -> vm_head m !! i = Some e -> vme_start e < at_ < vme_end e ->
  objs_ok w (entry_names (vm_head m) ⊎ X) ->
  (forall a, Z.of_nat (multiplicity a (entry_names (vm_head m) ⊎ X)) + 1 < 2 ^ 32) ->
  let m' := with_entries m (cut_at (vm_head m) i e at_) (vm_count m + 1) in
  exists w', vm_entry_split_locked w m i e at_ (true :: h) = Done (true, m', w', h) /\
    map_ok m' /\ objs_ok w' (entry_names (vm_head m') ⊎ X) /\ ob_fs w' = ob_fs w /\
    (forall v, backing m' v = backing m v) /\ boundary (vm_head m') at_.
Proof.
  intros M A L Ha W B m'. destruct (map_ok_bounds m M) as (_ & _ & ?).
  assert (map_ok m') as M'.
  { apply map_ok_with_entries; [done|by apply chain_cut, A; try apply M|].
    rewrite (length_cut _ _ e) by done. rewrite (mo_count m M). lia. }
  assert (forall v, backing m' v = backing m v) as Bk.
  { intros v. rewrite !backing_find by done. cbn [m' with_entries vm_head].
    rewrite (find_cut _ _ _ _ _ _ _ (mo_chain m M) L Ha).
    destruct (find_entry (vm_head m) v) as [x|] eqn:Fx; [|done].
    destruct ((vme_start e <=? v) && (v <? vme_end e)) eqn:E; [|done]. cbn.
    rewrite (find_entry_in _ _ _ e v (mo_chain m M)) in Fx
      by (lia || by apply list_elem_of_lookup_2 in L). injection Fx as ->. by rewrite page_of_cut. }
  unfold vm_entry_split_locked.
  rewrite !KASSERT_true by (try apply negb_true_iff, unaligned_spec; done || lia).
  cbn [kmalloc_ok negb vme_object].
  destruct (vm_object_ref_ok w _ (vme_object e) W) as (w' & E & W' & Ef).
  { pose proof (entry_names_elem _ e (list_elem_of_lookup_2 _ _ _ L)) as Sub. clear -Sub. multiset_solver. }
  { intros a _. apply B. }
  rewrite E, bind_Done, (w64_small (vm_count m + 1)) by lia. exists w'. split_and!; try done.
  - cbn [m' with_entries vm_head]. rewrite (entry_names_cut _ _ e) by done.
    by rewrite <- gmultiset_disj_union_assoc.
  - apply (boundary_found _ _ _ _ (cut_high e at_) (mo_chain m' M')); [|done].
    cbn [m' with_entries vm_head]. rewrite (find_cut _ _ _ _ _ _ _ (mo_chain m M) L Ha).
    rewrite (find_entry_in _ _ _ e at_ (mo_chain m M)) by (lia || by apply list_elem_of_lookup_2 in L).
    destruct ((vme_start e <=? at_) && (at_ <? vme_end e)) eqn:?; [|lia].
    by destruct (at_ <? at_) eqn:?; [lia|].
Qed.

(** [vm_map_clip_locked]: what every page is does not change; on success no
    range crosses the cut, and failure changes nothing. *)
Lemma vm_map_clip_ok (w : objs F) m at_ h X :
  map_ok m -> aligned at_ -> objs_ok w (entry_names (vm_head m) ⊎ X) ->
  (forall a, Z.of_nat (multiplicity a (entry_names (vm_head m) ⊎ X)) + 1 < 2 ^ 32) ->
  exists ok m' w' h', vm_map_clip_locked w m at_ h = Done (ok, m', w', h') /\
    map_ok m' /\ vm_lo m' = vm_lo m /\ vm_hi m' = vm_hi m /\
    objs_ok w' (entry_names (vm_head m') ⊎ X) /\ ob_fs w' = ob_fs w /\
    (forall v, backing m' v = backing m v) /\
    (if ok then boundary (vm_head m') at_ else m' = m /\ w' = w /\ fst (kmalloc_ok h) = false).
Proof.
  intros M A W B. unfold vm_map_clip_locked.
  assert (snd <$> vm_map_lookup m at_ = find_entry (vm_head m) at_) as Lf by by apply lookup_find.
  destruct (vm_map_lookup m at_) as [[i e]|] eqn:L; cbn in Lf; symmetry in Lf; cycle 1.
  { exists true, m, w, h. split_and!; try done. by eapply boundary_unfound; [apply M|]. }
  destruct (lookup_from_pos _ _ _ _ _ L) as (_ & Li & Hr). rewrite Nat.sub_0_r in Li.
  destruct (vme_start e =? at_) eqn:E.
  { exists true, m, w, h. split_and!; try done. eapply boundary_found; [apply M|done|lia]. }
  destruct h as [|[] h].
  - exists false, m, w, []. split_and!; try done. unfold vm_entry_split_locked.
    by rewrite !KASSERT_true by (try apply negb_true_iff, unaligned_spec; done || lia).
  - destruct (split_ok w m i e at_ h X M A Li ltac:(lia) W B) as (w' & -> & ? & ? & ? & ? & ?).
    eexists true, _, w', h. split_and!; done.
  - exists false, m, w, h. split_and!; try done. unfold vm_entry_split_locked.
    by rewrite !KASSERT_true by (try apply negb_true_iff, unaligned_spec; done || lia).
Qed.

End Objects.

(** * Properties *)

(** A pager-backed map for concrete runs: one file mapped at three pages, a
    gap, and an anonymous range above it. *)
Definition demo_objs : objs one_file :=
  snd (vm_object_file (mkObjs ∅ ([65; 66; 67], 0)) (Some (one_handle 3)) None (Some 7)).
Definition demo_map : vm_map :=
  mkMap 65536 1048576 65536
    [mkVme 65536 77824 0 (Some 7) 9 4; mkVme 81920 86016 0 None 11 1] 2.

Lemma demo_map_ok : map_ok demo_map.
Proof. split; cbn; unfold aligned, VM_PAGE_SIZE; repeat split; try done; lia. Qed.

Lemma demo_objs_ok : objs_ok demo_objs (entry_names (vm_head demo_map) ⊎ ∅).
Proof.
  cbn [demo_map vm_head entry_names vme_object named].
  replace ({[+ 7 +]} ⊎ (∅ ⊎ ∅) ⊎ ∅) with (({[+ 7 +]} ⊎ ∅) : gmultiset Z) by multiset_solver.
  by apply (vm_object_file_ok _ _ (Some (one_handle 3)) None (Some 7) 7 demo_objs
    (objs_ok_empty (([65; 66; 67], 0) : one_file))).
Qed.

Lemma demo_names_small a : Z.of_nat (multiplicity a (entry_names (vm_head demo_map) ⊎ ∅)) + 1 < 2 ^ 32.
Proof. destruct (demo_objs_ok a) as [_ B]. revert B. cbn [demo_map vm_head entry_names vme_object named].
  rewrite !multiplicity_disj_union, !multiplicity_empty, multiplicity_singleton. case_decide; lia. Qed.

(** [C20] [vm_map_enter_backed] on every input: it succeeds exactly when the
    range is non-empty, page aligned, inside the map, free of every other
    range, and a record could be had; then every page of the range is backed
    by the given pager at the matching offset with the given protection, and
    every other page is what it was.  When it refuses, the map is untouched.
    The list stays sorted, disjoint and counted. *)
Theorem vm_map_enter_exact m va size prot flags obj off h :
  map_ok m -> u64 va -> u64 size ->
  exists ok m' h', vm_map_enter_backed m va size prot flags obj off h = (ok, m', h') /\
    map_ok m' /\
    (ok = true <-> can_enter m va size /\ fst (kmalloc_ok h) = true) /\
    forall v, backing m' v =
      if ok && in_span v va size then Some (obj, w64 (off + (v - va)), prot, flags) else backing m v.
Proof.
  intros M Hv Hs. destruct (enter_backed_cases m va size prot flags obj off h M Hv Hs) as [[h' E]|[CE Eh]].
  - exists false, m, h'. split_and!; try done. split; [done|]. intros [CE Eh].
    destruct h as [|[] h]; try done.
    destruct (enter_backed_true m va size prot flags obj off h M Hv Hs CE) as (m' & E' & _). congruence.
  - destruct h as [|[] h]; try done.
    destruct (enter_backed_true m va size prot flags obj off h M Hv Hs CE) as (m' & E & M' & _ & _ & _ & Bk).
    exists true, m', h. by split_and!.
Qed.

Lemma vm_map_enter_exact_witness :
  exists ok m' h', vm_map_enter_backed demo_map 77824 4096 11 1 None 0 [true] = (ok, m', h') /\
    map_ok m' /\ (ok = true <-> can_enter demo_map 77824 4096 /\ fst (kmalloc_ok [true]) = true) /\
    forall v, backing m' v =
      if ok && in_span v 77824 4096 then Some (None, w64 (0 + (v - 77824)), 11, 1) else backing demo_map v.
Proof. apply (vm_map_enter_exact demo_map 77824 4096 11 1 None 0 [true] demo_map_ok); done. Defined.

(** [vm_map_find_space] is sound and complete: the address it returns can
    be entered with the rounded size (aligned, inside the map, nothing in the
    way), and when it returns 0 there is no such address anywhere in the map,
    wherever its hint was. *)
Theorem vm_map_find_space_exact m size :
  map_ok m -> 0 < size < 2 ^ 62 ->
  match vm_map_find_space m size with
  | (Some va, m') => can_enter m va (VM_ALIGN_UP size) /\ map_ok m' /\ vm_head m' = vm_head m /\
      vm_hint m' = va + VM_ALIGN_UP size
  | (None, m') => m' = m /\ forall va, ~ can_enter m va (VM_ALIGN_UP size)
  end.
Proof.
  intros M Hs. pose proof (find_space_spec m size M Hs) as S.
  destruct (vm_map_find_space m size) as [[va|] m']; [|done]. destruct S as (? & -> & ?). by split_and!.
Qed.

Lemma vm_map_find_space_exact_witness :
  match vm_map_find_space demo_map 5000 with
  | (Some va, m') => can_enter demo_map va (VM_ALIGN_UP 5000) /\ map_ok m' /\
      vm_head m' = vm_head demo_map /\ vm_hint m' = va + VM_ALIGN_UP 5000
  | (None, m') => m' = demo_map /\ forall va, ~ can_enter demo_map va (VM_ALIGN_UP 5000)
  end.
Proof. apply (vm_map_find_space_exact demo_map 5000 demo_map_ok). lia. Defined.

(** Cutting a range is invisible: [vm_map_clip_locked] never panics, every
    page keeps its pager, offset, protection and flags, every pager's count
    stays exactly the number of ranges naming it, and on success no range
    crosses the cut.  If no record could be had, nothing changed. *)
Theorem vm_map_clip_transparent {F} `{FsOps F} (w : objs F) m at_ h X :
  map_ok m -> aligned at_ -> objs_ok w (entry_names (vm_head m) ⊎ X) ->
  (forall a, Z.of_nat (multiplicity a (entry_names (vm_head m) ⊎ X)) + 1 < 2 ^ 32) ->
  exists ok m' w' h', vm_map_clip_locked w m at_ h = Done (ok, m', w', h') /\
    map_ok m' /\ objs_ok w' (entry_names (vm_head m') ⊎ X) /\
    (forall v, backing m' v = backing m v) /\
    (if ok then boundary (vm_head m') at_ else m' = m /\ w' = w /\ fst (kmalloc_ok h) = false).
Proof.
  intros M A W B. destruct (vm_map_clip_ok w m at_ h X M A W B)
    as (ok & m' & w' & h' & E & ? & _ & _ & ? & _ & ? & ?).
  exists ok, m', w', h'. by split_and!.
Qed.

Lemma vm_map_clip_transparent_witness :
  exists ok m' w' h', vm_map_clip_locked demo_objs demo_map 69632 [true] = Done (ok, m', w', h') /\
    map_ok m' /\ objs_ok w' (entry_names (vm_head m') ⊎ ∅) /\
    (forall v, backing m' v = backing demo_map v) /\
    (if ok then boundary (vm_head m') 69632
     else m' = demo_map /\ w' = demo_objs /\ fst (kmalloc_ok [true]) = false).
Proof.
  apply (vm_map_clip_transparent demo_objs demo_map 69632 [true] ∅ demo_map_ok); [done|apply demo_objs_ok|].
  apply demo_names_small.
Defined.

(** [vm_map_remove] over a range whose ends are boundaries takes out
    exactly the pages of that range: each is unbacked afterwards and every
    other page is what it was.  The pagers of the removed ranges are given
    back, each count stays exact, and the answer is the drop in the number of
    ranges. *)
Theorem vm_map_remove_exact {F} `{FsOps F} (w : objs F) m va size X :
  map_ok m -> u64 va -> 0 < size -> va + size < 2 ^ 64 ->
  boundary (vm_head m) va -> boundary (vm_head m) (va + size) ->
  objs_ok w (entry_names (vm_head m) ⊎ X) ->
  exists n m' w', vm_map_remove w m va size = Done (n, m', w') /\
    map_ok m' /\ objs_ok w' (entry_names (vm_head m') ⊎ X) /\ vm_count m' = vm_count m - n /\
    forall v, backing m' v = if in_span v va size then None else backing m v.
Proof.
  intros M Hv Hs Hb B1 B2 W. destruct (vm_map_remove_ok w m va size X M Hv Hs Hb W) as (w' & E & M' & W').
  eexists _, _, w'. split; [apply E|]. split_and!; try done. intros v. rewrite backing_remove by done.
  rewrite (backing_find m) by done. destruct (find_entry (vm_head m) v) as [e|] eqn:Fe;
    [|by destruct (in_span v va size)].
  destruct (find_entry_Some _ _ _ Fe) as [Hin Hr]. pose proof (B1 e Hin). pose proof (B2 e Hin).
  unfold wholly_inside, in_span. cbn.
  destruct ((va <=? vme_start e) && (vme_end e <=? va + size)) eqn:?, ((va <=? v) && (v <? va + size)) eqn:?;
    done || lia.
Qed.

Lemma vm_map_remove_exact_witness :
  exists n m' w', vm_map_remove demo_objs demo_map 65536 16384 = Done (n, m', w') /\
    map_ok m' /\ objs_ok w' (entry_names (vm_head m') ⊎ ∅) /\ vm_count m' = vm_count demo_map - n /\
    forall v, backing m' v = if in_span v 65536 16384 then None else backing demo_map v.
Proof.
  apply (vm_map_remove_exact demo_objs demo_map 65536 16384 ∅ demo_map_ok);
    [done|lia|lia| | |apply demo_objs_ok];
    intros e; cbn; rewrite !elem_of_cons; intros [->|[->|Hin]]; cbn; try lia; by apply not_elem_of_nil in Hin.
Defined.
