(* ===== verification/Phys.v ===== *)
(** Physical memory and who owns it: the byte-addressed memory the kernel
    reaches through its identity map ([pmm_kva_from_pa]), and the exact
    accounting of frame owners that the layers above [vm/pmm.c] keep. *)

From stdpp Require Import base list numbers strings gmap gmultiset.
From Stdlib Require Import ZArith Lia ZifyBool.
From S2P Require Import Prelude Pmm.

(** * Memory *)

(** A byte per physical address; a load reads the low eight bits. *)
Definition mem := Z -> Z.

Definition ld8 (m : mem) (a : Z) : Z := w8 (m a).
Definition st8 (m : mem) (a v : Z) : mem := fun x => if x =? a then w8 v else m x.

(** Little-endian words of [n] bytes. *)
Fixpoint ld_le (n : nat) (m : mem) (a : Z) : Z :=
  match n with
  | O => 0
  | S n => ld8 m a + 2 ^ 8 * ld_le n m (a + 1)
  end.

Fixpoint st_le (n : nat) (m : mem) (a v : Z) : mem :=
  match n with
  | O => m
  | S n => st_le n (st8 m a v) (a + 1) (v / 2 ^ 8)
  end.

Definition ld64 (m : mem) (a : Z) : Z := ld_le 8 m a.
Definition st64 (m : mem) (a v : Z) : mem := st_le 8 m a v.

(** [for (i = 0; i < n; i++) tbl[i] = 0] over 64-bit words. *)
Fixpoint zero_words (n : nat) (m : mem) (a : Z) : mem :=
  match n with
  | O => m
  | S n => zero_words n (st64 m a 0) (a + 8)
  end.

(** The same over bytes. *)
Fixpoint zero_bytes (n : nat) (m : mem) (a : Z) : mem :=
  match n with
  | O => m
  | S n => zero_bytes n (st8 m a 0) (a + 1)
  end.

(** [for (i = 0; i < n; i++) dk[i] = sk[i]] over 64-bit words. *)
Fixpoint copy_words (n : nat) (m : mem) (dst src : Z) : mem :=
  match n with
  | O => m
  | S n => copy_words n (st64 m dst (ld64 m src)) (dst + 8) (src + 8)
  end.

(** Bytes from a list, [for (i = 0; i < have; i++) kva[i] = src[i]]. *)
Fixpoint put_bytes (m : mem) (a : Z) (bs : list Z) : mem :=
  match bs with
  | [] => m
  | b :: bs => put_bytes (st8 m a b) (a + 1) bs
  end.

(** The page at [a] reads the same. *)
Definition same_page (m m' : mem) (a : Z) : Prop :=
  forall x, a <= x < a + PAGE_SIZE -> ld8 m' x = ld8 m x.

Lemma ld8_range m a : 0 <= ld8 m a < 2 ^ 8.
Proof. apply w8_range. Qed.

Lemma ld8_st8 m a v x : ld8 (st8 m a v) x = if x =? a then w8 v else ld8 m x.
Proof.
  unfold ld8, st8. destruct (x =? a); [|done]. unfold w8. by rewrite Z.mod_mod.
Qed.

Lemma ld_le_range n m a : 0 <= ld_le n m a < 2 ^ (8 * Z.of_nat n).
Proof.
  revert a. induction n as [|n IH]; intros a; cbn [ld_le]; [lia|].
  pose proof (ld8_range m a). specialize (IH (a + 1)).
  replace (8 * Z.of_nat (S n)) with (8 + 8 * Z.of_nat n) by lia. rewrite Z.pow_add_r by lia. nia.
Qed.

Lemma ld_le_ext n m m' a :
  (forall x, a <= x < a + Z.of_nat n -> ld8 m' x = ld8 m x) -> ld_le n m' a = ld_le n m a.
Proof.
  revert a. induction n as [|n IH]; intros a E; cbn [ld_le]; [done|].
  rewrite E by lia. rewrite (IH (a + 1)); [done|]. intros x Hx. apply E. lia.
Qed.

Lemma ld8_st_le n m a v x :
  x < a \/ a + Z.of_nat n <= x -> ld8 (st_le n m a v) x = ld8 m x.
Proof.
  revert m a v. induction n as [|n IH]; intros m a v Hx; cbn [st_le]; [done|].
  rewrite IH by lia. rewrite ld8_st8. by destruct (x =? a) eqn:?; [lia|].
Qed.

Lemma ld_le_st_le n m a v : ld_le n (st_le n m a v) a = v mod 2 ^ (8 * Z.of_nat n).
Proof.
  revert m a v. induction n as [|n IH]; intros m a v; cbn [ld_le st_le].
  { by rewrite Z.mod_1_r. }
  rewrite IH, ld8_st_le by lia. rewrite ld8_st8, Z.eqb_refl.
  replace (8 * Z.of_nat (S n)) with (8 + 8 * Z.of_nat n) by lia. rewrite Z.pow_add_r by lia.
  rewrite Z.rem_mul_r by lia. done.
Qed.

Lemma ld64_range m a : u64 (ld64 m a).
Proof. apply (ld_le_range 8). Qed.

Lemma ld64_st64_eq m a v : u64 v -> ld64 (st64 m a v) a = v.
Proof. intros Hv. unfold ld64, st64. rewrite ld_le_st_le. by apply Z.mod_small. Qed.

Lemma ld8_st64_out m a v x : x < a \/ a + 8 <= x -> ld8 (st64 m a v) x = ld8 m x.
Proof. apply (ld8_st_le 8). Qed.

Lemma ld64_ext m m' a : (forall x, a <= x < a + 8 -> ld8 m' x = ld8 m x) -> ld64 m' a = ld64 m a.
Proof. apply (ld_le_ext 8). Qed.

Lemma ld64_st64_ne m a v b : b + 8 <= a \/ a + 8 <= b -> ld64 (st64 m a v) b = ld64 m b.
Proof. intros Hb. apply ld64_ext. intros x Hx. apply ld8_st64_out. lia. Qed.

Lemma ld_le_0 n m a : (forall x, a <= x < a + Z.of_nat n -> ld8 m x = 0) -> ld_le n m a = 0.
Proof.
  revert a. induction n as [|n IH]; intros a E; cbn [ld_le]; [done|].
  rewrite E by lia. rewrite (IH (a + 1)); [done|]. intros x Hx. apply E. lia.
Qed.

Lemma ld64_0 m a : (forall x, a <= x < a + 8 -> ld8 m x = 0) -> ld64 m a = 0.
Proof. apply (ld_le_0 8). Qed.

Lemma ld8_st_le_0 n m a x :
  ld8 (st_le n m a 0) x = if (a <=? x) && (x <? a + Z.of_nat n) then 0 else ld8 m x.
Proof.
  revert m a. induction n as [|n IH]; intros m a; cbn [st_le].
  { by destruct ((a <=? x) && _) eqn:?; [lia|]. }
  change (0 / 2 ^ 8) with 0. rewrite IH, ld8_st8. change (w8 0) with 0.
  destruct ((a + 1 <=? x) && (x <? a + 1 + Z.of_nat n)) eqn:?,
    (x =? a) eqn:?, ((a <=? x) && (x <? a + Z.of_nat (S n))) eqn:?; done || lia.
Qed.

Lemma ld8_st64_0 m a x : ld8 (st64 m a 0) x = if (a <=? x) && (x <? a + 8) then 0 else ld8 m x.
Proof. apply (ld8_st_le_0 8). Qed.

#[global] Opaque ld64 st64.

Lemma ld8_zero_words n m a x :
  ld8 (zero_words n m a) x = if (a <=? x) && (x <? a + 8 * Z.of_nat n) then 0 else ld8 m x.
Proof.
  revert m a. induction n as [|n IH]; intros m a; cbn [zero_words].
  { by destruct ((a <=? x) && _) eqn:?; [lia|]. }
  rewrite IH, ld8_st64_0.
  destruct ((a + 8 <=? x) && (x <? a + 8 + 8 * Z.of_nat n)) eqn:?,
    ((a <=? x) && (x <? a + 8)) eqn:?, ((a <=? x) && (x <? a + 8 * Z.of_nat (S n))) eqn:?; done || lia.
Qed.

Lemma ld8_zero_bytes n m a x :
  ld8 (zero_bytes n m a) x = if (a <=? x) && (x <? a + Z.of_nat n) then 0 else ld8 m x.
Proof.
  revert m a. induction n as [|n IH]; intros m a; cbn [zero_bytes].
  { by destruct ((a <=? x) && _) eqn:?; [lia|]. }
  rewrite IH, ld8_st8. change (w8 0) with 0.
  destruct ((a + 1 <=? x) && (x <? a + 1 + Z.of_nat n)) eqn:?,
    (x =? a) eqn:?, ((a <=? x) && (x <? a + Z.of_nat (S n))) eqn:?; done || lia.
Qed.

(** Storing a loaded word moves its eight bytes. *)
Lemma ld8_st_ld_le n m m' a b i :
  0 <= i < Z.of_nat n -> ld8 (st_le n m' a (ld_le n m b)) (a + i) = ld8 m (b + i).
Proof.
  revert m' a b i. induction n as [|n IH]; intros m' a b i Hi; [lia|]. cbn [st_le ld_le].
  pose proof (ld8_range m b).
  assert ((ld8 m b + 2 ^ 8 * ld_le n m (b + 1)) / 2 ^ 8 = ld_le n m (b + 1)) as ->.
  { rewrite (Z.mul_comm (2 ^ 8)), Z.div_add, Z.div_small; lia. }
  destruct (Z.eq_dec i 0) as [->|Hi0].
  - rewrite ld8_st_le by lia. rewrite !Z.add_0_r, ld8_st8, Z.eqb_refl. unfold w8.
    rewrite (Z.mul_comm (2 ^ 8)), Z.mod_add, Z.mod_small by lia. done.
  - specialize (IH (st8 m' a (ld8 m b + 2 ^ 8 * ld_le n m (b + 1))) (a + 1) (b + 1) (i - 1)).
    replace (a + 1 + (i - 1)) with (a + i) in IH by lia.
    replace (b + 1 + (i - 1)) with (b + i) in IH by lia. apply IH. lia.
Qed.

(** Copying between ranges that do not overlap. *)
Lemma ld8_copy_words n m dst src x :
  dst + 8 * Z.of_nat n <= src \/ src + 8 * Z.of_nat n <= dst ->
  ld8 (copy_words n m dst src) x =
    if (dst <=? x) && (x <? dst + 8 * Z.of_nat n) then ld8 m (src + (x - dst)) else ld8 m x.
Proof.
  revert m dst src. induction n as [|n IH]; intros m dst src Hd; cbn [copy_words].
  { by destruct ((dst <=? x) && _) eqn:?; [lia|]. }
  rewrite IH by lia.
  destruct ((dst + 8 <=? x) && (x <? dst + 8 + 8 * Z.of_nat n)) eqn:?.
  - destruct ((dst <=? x) && (x <? dst + 8 * Z.of_nat (S n))) eqn:?; [|lia].
    rewrite ld8_st64_out by lia. f_equal. lia.
  - destruct ((dst <=? x) && (x <? dst + 8 * Z.of_nat (S n))) eqn:?.
    + pose proof (ld8_st_ld_le 8 m m dst src (x - dst) ltac:(lia)) as E.
      replace (dst + (x - dst)) with x in E by lia. apply E.
    + apply ld8_st64_out. lia.
Qed.

Lemma ld8_put_bytes m a bs x :
  ld8 (put_bytes m a bs) x =
    if (a <=? x) && (x <? a + Z.of_nat (length bs)) then w8 (arr_get bs (x - a)) else ld8 m x.
Proof.
  revert m a. induction bs as [|b bs IH]; intros m a; cbn [put_bytes length].
  { by destruct ((a <=? x) && _) eqn:?; [lia|]. }
  rewrite IH, ld8_st8.
  destruct ((a + 1 <=? x) && (x <? a + 1 + Z.of_nat (length bs))) eqn:?,
    (x =? a) eqn:?, ((a <=? x) && (x <? a + Z.of_nat (S (length bs)))) eqn:?; try done; try lia.
  - f_equal. unfold arr_get. replace (Z.to_nat (x - a)) with (S (Z.to_nat (x - (a + 1)))) by lia. done.
  - replace (x - a) with 0 by lia. done.
Qed.

(** * Owners

    [X] is the multiset of frames (by physical address) somebody answers
    for: page-table pages, the leaves of anonymous ranges, payloads in
    flight.  [owned_by] says the allocator's counts are exactly these. *)

Definition owners (f : frame) : nat :=
  match f with Owned n => Z.to_nat n | _ => 0 end.

(** A page-aligned frame below the 1 GiB cap, not frame 0. *)
Definition good_frame (pa : Z) : Prop := exists i, pa = i * PAGE_SIZE /\ 0 < i < 2 ^ 18.

Record owned_by (s : pmm) (X : gmultiset Z) : Prop := {
  ow_ok : pmm_ok s;
  ow_in : forall pa, pa ∈ X -> exists i, pa = i * PAGE_SIZE /\ 0 <= i < pmm_managed_pages s;
  ow_count : forall i, 0 <= i < pmm_managed_pages s ->
             multiplicity (i * PAGE_SIZE) X = owners (frame_of s i);
}.

(** Not the allocator's to hand out: beyond what it manages, or reserved. *)
Definition reserved (s : pmm) (pa : Z) : Prop :=
  pmm_managed_pages s <= page_index pa \/ frame_of s (page_index pa) = Reserved.

(** What no call of the running system changes. *)
Record pmm_step (s s' : pmm) : Prop := {
  st_pages : pmm_managed_pages s' = pmm_managed_pages s;
  st_reserved : forall i, 0 <= i < pmm_managed_pages s ->
                frame_of s' i = Reserved <-> frame_of s i = Reserved;
}.

#[global] Instance pmm_step_preorder : PreOrder pmm_step.
Proof.
  split; [by split|]. intros s1 s2 s3 [P1 R1] [P2 R2]. split; [congruence|]. intros i Hi.
  rewrite R2 by (rewrite P1; done). by apply R1.
Qed.

Lemma page_index_good pa : good_frame pa -> pa = page_index pa * PAGE_SIZE /\ 0 < page_index pa < 2 ^ 18.
Proof. intros (i & -> & Hi). by rewrite page_index_mul. Qed.

Lemma owned_in s X pa :
  owned_by s X -> pa ∈ X ->
  exists i n, pa = i * PAGE_SIZE /\ 0 < i < pmm_managed_pages s /\ frame_of s i = Owned n /\
    0 < n /\ multiplicity pa X = Z.to_nat n.
Proof.
  intros W Hin. destruct (ow_in s X W pa Hin) as (i & -> & Hi). pose proof (ow_count s X W i Hi) as C.
  rewrite elem_of_multiplicity in Hin. rewrite C in Hin |- *.
  destruct (frame_of s i) as [| |n] eqn:E; cbn [owners] in *; [lia|lia|].
  assert (i <> 0) by (intros ->; rewrite (ok_zero s (ow_ok s X W)) in E; done).
  exists i, n. split_and!; done || lia.
Qed.

Lemma owned_good s X pa : owned_by s X -> pa ∈ X -> good_frame pa.
Proof.
  intros W Hin. destruct (owned_in s X pa W Hin) as (i & n & -> & Hi & _).
  pose proof (wf_pages s (ok_wf s (ow_ok s X W))). exists i. split; [done|lia].
Qed.

Lemma owned_not_reserved s X pa : owned_by s X -> pa ∈ X -> ~ reserved s pa.
Proof.
  intros W Hin. destruct (owned_in s X pa W Hin) as (i & n & -> & Hi & E & _).
  unfold reserved. rewrite page_index_mul, E. intros [?|?]; [lia|done].
Qed.

Lemma reserved_step s s' pa : pmm_step s s' -> 0 <= pa -> reserved s pa -> reserved s' pa.
Proof.
  intros S Hpa. unfold reserved. rewrite (st_pages s s' S). intros [?|E]; [by left|].
  destruct (Z_lt_ge_dec (page_index pa) (pmm_managed_pages s)); [|left; lia].
  right. apply (st_reserved s s' S); [|done]. rewrite page_index_div in *. unfold PAGE_SIZE in *.
  split; [apply Z.div_pos; lia|done].
Qed.

(** An update of one frame, seen from the owners. *)
Lemma owned_upd s s' X X' i f :
  owned_by s X -> 0 < i < pmm_managed_pages s -> pmm_ok s' ->
  pmm_managed_pages s' = pmm_managed_pages s ->
  view_eq (pmm_managed_pages s) (frame_of s') (view_upd (frame_of s) i f) ->
  multiplicity (i * PAGE_SIZE) X' = owners f ->
  (forall pa, pa <> i * PAGE_SIZE -> multiplicity pa X' = multiplicity pa X) ->
  frame_of s i <> Reserved -> f <> Reserved ->
  owned_by s' X' /\ pmm_step s s'.
Proof.
  intros W Hi K' P V Mi Mo Nr Nr'. split; split; try done.
  - intros pa Hin. rewrite P. destruct (Z.eq_dec pa (i * PAGE_SIZE)) as [->|Hne].
    + exists i. split; [done|lia].
    + apply (ow_in s X W). rewrite elem_of_multiplicity in *. by rewrite <- Mo.
  - intros j Hj. rewrite P in Hj. rewrite (V j Hj). unfold view_upd. destruct (Z.eqb_spec i j) as [<-|Hne].
    + done.
    + rewrite Mo by (unfold PAGE_SIZE; lia). by apply (ow_count s X W).
  - intros j Hj. rewrite (V j Hj). unfold view_upd. by destruct (Z.eqb_spec i j) as [<-|Hne].
Qed.

Lemma own_alloc s X :
  owned_by s X ->
  let '(pa, s') := pmm_alloc_page s in
  pmm_step s s' /\
  ((pa = PA_INVALID /\ s' = s) \/
   (good_frame pa /\ pa <> PA_INVALID /\ ~ reserved s pa /\ (pa ∉ X) /\ owned_by s' ({[+ pa +]} ⊎ X))).
Proof.
  intros W. pose proof (alloc_page_spec s (ow_ok s X W)) as A.
  pose proof (wf_pages s (ok_wf s (ow_ok s X W))) as Hp.
  destruct (pmm_alloc_page s) as [pa s'] eqn:E. destruct A as (K' & P & g & St & V).
  inversion St as [i Hi Fr Epa Eg|Full Epa Eg| | | | | | |]; subst.
  - assert (multiplicity (i * PAGE_SIZE) X = 0%nat) as M0.
    { rewrite (ow_count s X W i) by lia. by rewrite Fr. }
    destruct (owned_upd s s' X ({[+ (i * PAGE_SIZE) +]} ⊎ X) i (Owned 1) W Hi K' P V) as [W' S'].
    + by rewrite multiplicity_disj_union, multiplicity_singleton, decide_True, M0.
    + intros pa Hne. rewrite multiplicity_disj_union, multiplicity_singleton, decide_False by done. done.
    + by rewrite Fr.
    + done.
    + split; [done|]. right. split_and!; [by exists i; split; [|lia]| | | |done].
      * unfold PAGE_SIZE, PA_INVALID. lia.
      * unfold reserved. rewrite page_index_mul, Fr. intros [?|?]; [lia|done].
      * rewrite elem_of_multiplicity. lia.
  - assert (s' = s) as ->.
    { revert E. unfold pmm_alloc_page. destruct (alloc_scan _ _ _ _) as [i|] eqn:Ea; [|by intros [= <-]].
      pose proof (wf_hint s (ok_wf s (ow_ok s X W))).
      apply alloc_scan_Some in Ea as [Hi Hu]; [|lia..]. exfalso.
      apply (Full i Hi). unfold frame_of. by rewrite Hu. }
    split; [done|by left].
Qed.

Lemma own_alloc_at s X pa :
  owned_by s X -> fst (pmm_alloc_page s) = pa -> pa <> PA_INVALID ->
  owned_by (snd (pmm_alloc_page s)) ({[+ pa +]} ⊎ X).
Proof.
  intros W E N. pose proof (own_alloc s X W) as A. destruct (pmm_alloc_page s) as [pa' s']. cbn in *. subst pa'.
  by destruct A as (_ & [[? _]|(_ & _ & _ & _ & ?)]).
Qed.

Lemma own_free s X pa :
  owned_by s ({[+ pa +]} ⊎ X) ->
  exists s', pmm_free_page s pa = Done s' /\ owned_by s' X /\ pmm_step s s'.
Proof.
  intros W. destruct (owned_in s _ pa W) as (i & n & -> & Hi & E & Hn & M); [multiset_solver|].
  rewrite multiplicity_disj_union, multiplicity_singleton, decide_True in M by done.
  destruct (free_page_owned s i n (ow_ok s _ W)) as (s' & F & K' & P & V); [lia|done|].
  exists s'. split; [done|]. eapply owned_upd; try done.
  - destruct (n =? 1) eqn:?; cbn [owners]; lia.
  - intros pa Hne. by rewrite multiplicity_disj_union, multiplicity_singleton, decide_False.
  - by rewrite E.
  - by destruct (n =? 1).
Qed.

Lemma own_ref s X pa :
  owned_by s X -> pa ∈ X -> Z.of_nat (multiplicity pa X) < 65535 ->
  exists s', pmm_page_ref s pa = Done s' /\ owned_by s' ({[+ pa +]} ⊎ X) /\ pmm_step s s'.
Proof.
  intros W Hin Hm. destruct (owned_in s _ pa W Hin) as (i & n & -> & Hi & E & Hn & M).
  destruct (page_ref_owned s i n (ow_ok s _ W)) as (s' & F & K' & P & V); [lia|done|lia|].
  exists s'. split; [done|]. eapply owned_upd; try done.
  - rewrite multiplicity_disj_union, multiplicity_singleton, decide_True by done. cbn [owners]. lia.
  - intros pa Hne. by rewrite multiplicity_disj_union, multiplicity_singleton, decide_False.
  - by rewrite E.
Qed.

Lemma own_refs s X pa : owned_by s X -> pa ∈ X -> pmm_page_refs s pa = Z.of_nat (multiplicity pa X).
Proof.
  intros W Hin. destruct (owned_in s _ pa W Hin) as (i & n & -> & Hi & E & Hn & M).
  unfold pmm_page_refs. rewrite index_aligned. cbn [negb orb].
  pose proof (index_in_range s i (ok_wf s (ow_ok s _ W))).
  destruct (pmm_managed_pa_end s <=? i * PAGE_SIZE) eqn:?; [lia|].
  rewrite page_index_mul. apply frame_owned_iff in E as (_ & E & _). lia.
Qed.

(** ** A machine for concrete runs: 32 frames, the first four the kernel's *)

Lemma forallb_range (P : Z -> bool) n :
  forallb P (seqZ 0 n) = true -> forall i, 0 <= i < n -> P i = true.
Proof. intros E i Hi. apply (proj1 (forallb_forall P _) E). apply list_elem_of_In, elem_of_seqZ. lia. Qed.

Definition demo_ram : pmm := mkPmm [15] 1 32 131072 4 4 (replicate 32 0) 0 0 0.

Lemma demo_ram_ok : pmm_ok demo_ram.
Proof.
  constructor; [constructor|done|done]; try (cbn; lia); try done.
  - repeat constructor; lia.
  - intros i Hi. cbn [pmm_managed_pages demo_ram] in Hi.
    pose proof (forallb_range (fun i => ref_get demo_ram i =? 0) 32 ltac:(reflexivity) i Hi) as E. cbn beta in E.
    split; lia.
Qed.

Lemma demo_ram_owned : owned_by demo_ram ∅.
Proof.
  split; [apply demo_ram_ok|by intros pa ?%gmultiset_not_elem_of_empty|].
  intros i Hi. rewrite multiplicity_empty. cbn [pmm_managed_pages demo_ram] in Hi.
  pose proof (forallb_range (fun i => (owners (frame_of demo_ram i) =? 0)%nat) 32 ltac:(reflexivity) i Hi) as E.
  cbn beta in E. lia.
Qed.

#[global] Opaque zero_words zero_bytes copy_words.
