(* ===== verification/Pmap.v ===== *)
(** Page tables, [arch/amd64/pmap.c]: four-level x86-64 trees in physical
    memory, and the interface ([PmapOps], [PmapSpec]) through which the
    machine-independent layer above uses them. *)

From stdpp Require Import base list numbers strings gmap gmultiset.
From Stdlib Require Import ZArith Lia ZifyBool.
From S2P Require Import Prelude Pmm Phys VmObject VmMap.

(** * Entries *)

Definition PTE_P : Z := Z.shiftl 1 0.
Definition PTE_RW : Z := Z.shiftl 1 1.
Definition PTE_US : Z := Z.shiftl 1 2.
Definition PTE_PWT : Z := Z.shiftl 1 3.
Definition PTE_PCD : Z := Z.shiftl 1 4.
Definition PTE_PS : Z := Z.shiftl 1 7.
Definition PTE_G : Z := Z.shiftl 1 8.
Definition PTE_NX : Z := Z.shiftl 1 63.
Definition PTE_PA_MASK : Z := 4503599627366400.

Definition PMAP_NOCACHE : Z := 256.
Definition PMAP_GLOBAL : Z := 512.

Definition pml4_idx (va : Z) : Z := Z.land (Z.shiftr va 39) 511.
Definition pdpt_idx (va : Z) : Z := Z.land (Z.shiftr va 30) 511.
Definition pd_idx (va : Z) : Z := Z.land (Z.shiftr va 21) 511.
Definition pt_idx (va : Z) : Z := Z.land (Z.shiftr va 12) 511.

(** [struct pmap]; [pm_pml4] is the identity-mapped [pm_pml4_pa]. *)
Record pmap := mkPmap {
  pm_pml4_pa : Z;
  pm_leafs : Z;
  pm_intermediates : Z;
  pm_is_kernel : bool;
}.

Definition with_leafs (pm : pmap) (n : Z) : pmap :=
  mkPmap (pm_pml4_pa pm) n (pm_intermediates pm) (pm_is_kernel pm).
Definition with_intermediates (pm : pmap) (n : Z) : pmap :=
  mkPmap (pm_pml4_pa pm) (pm_leafs pm) n (pm_is_kernel pm).

(** What a page-table operation works on: the frame allocator, memory, and
    the pages whose translation was dropped everywhere ([pmap_invlpg]),
    newest first. *)
Record phys := mkPhys { ph_pmm : pmm; ph_mem : mem; ph_inval : list Z }.

Definition with_mem (ph : phys) (m : mem) : phys := mkPhys (ph_pmm ph) m (ph_inval ph).
Definition with_pmm (ph : phys) (s : pmm) : phys := mkPhys s (ph_mem ph) (ph_inval ph).
Definition pmap_invlpg (ph : phys) (va : Z) : phys :=
  mkPhys (ph_pmm ph) (ph_mem ph) (va :: ph_inval ph).

(** [tbl[idx]] *)
Definition tbl_get (ph : phys) (tbl idx : Z) : Z := ld64 (ph_mem ph) (tbl + 8 * idx).
Definition tbl_set (ph : phys) (tbl idx e : Z) : phys := with_mem ph (st64 (ph_mem ph) (tbl + 8 * idx) e).

Definition table_va (pte : Z) : Z := Z.land pte PTE_PA_MASK.

Definition ensure_table (ph : phys) (pm : pmap) (parent idx : Z) (user : bool)
    : option Z * pmap * phys :=
  let e := tbl_get ph parent idx in
  if has e PTE_P then
    if has e PTE_PS then (None, pm, ph)
    else
      let ph := if user && negb (has e PTE_US)
                then pmap_invlpg (tbl_set ph parent idx (Z.lor e PTE_US)) parent
                else ph in
      (Some (table_va e), pm, ph)
  else
    let '(pa, s) := pmm_alloc_page (ph_pmm ph) in
    let ph := with_pmm ph s in
    if pa =? PA_INVALID then (None, pm, ph)
    else
      let ph := with_mem ph (zero_words 512 (ph_mem ph) pa) in
      let ph := tbl_set ph parent idx
                  (Z.lor (Z.lor (Z.lor pa PTE_P) PTE_RW) (if user then PTE_US else 0)) in
      (Some pa, with_intermediates pm (w64 (pm_intermediates pm + 1)), ph).

Definition leaf_flags (prot : Z) : Z :=
  let f := PTE_P in
  let f := if has prot VM_PROT_WRITE then Z.lor f PTE_RW else f in
  let f := if negb (has prot VM_PROT_EXEC) then Z.lor f PTE_NX else f in
  let f := if has prot VM_PROT_USER then Z.lor f PTE_US else f in
  let f := if has prot PMAP_NOCACHE then Z.lor f (Z.lor PTE_PCD PTE_PWT) else f in
  if has prot PMAP_GLOBAL then Z.lor f PTE_G else f.

Definition pmap_enter_locked (ph : phys) (pm : pmap) (va pa prot : Z) : res (bool * pmap * phys) :=
  KASSERT (Z.land va PAGE_MASK =? 0) "pmap_enter: unaligned VA" ;;
  KASSERT (Z.land pa PAGE_MASK =? 0) "pmap_enter: unaligned PA" ;;
  let user := has prot VM_PROT_USER in
  match ensure_table ph pm (pm_pml4_pa pm) (pml4_idx va) user with
  | (None, pm, ph) => Done (false, pm, ph)
  | (Some pdpt, pm, ph) =>
  match ensure_table ph pm pdpt (pdpt_idx va) user with
  | (None, pm, ph) => Done (false, pm, ph)
  | (Some pd, pm, ph) =>
  match ensure_table ph pm pd (pd_idx va) user with
  | (None, pm, ph) => Done (false, pm, ph)
  | (Some pt, pm, ph) =>
      let old := tbl_get ph pt (pt_idx va) in
      let ph := tbl_set ph pt (pt_idx va) (Z.lor (Z.land pa PTE_PA_MASK) (leaf_flags prot)) in
      if has old PTE_P
      then Done (true, pm, pmap_invlpg ph va)
      else Done (true, with_leafs pm (w64 (pm_leafs pm + 1)), ph)
  end end end.

(** An entry [pmap_remove_locked] can descend through. *)
Definition descends (e : Z) : bool := negb (negb (has e PTE_P) || has e PTE_PS).

Definition pmap_remove_locked (ph : phys) (pm : pmap) (va : Z) : bool * pmap * phys :=
  let e := tbl_get ph (pm_pml4_pa pm) (pml4_idx va) in
  if negb (descends e) then (false, pm, ph) else
  let e := tbl_get ph (table_va e) (pdpt_idx va) in
  if negb (descends e) then (false, pm, ph) else
  let e := tbl_get ph (table_va e) (pd_idx va) in
  if negb (descends e) then (false, pm, ph) else
  let pt := table_va e in
  if negb (has (tbl_get ph pt (pt_idx va)) PTE_P) then (false, pm, ph)
  else
    let ph := tbl_set ph pt (pt_idx va) 0 in
    (true, with_leafs pm (w64 (pm_leafs pm - 1)), pmap_invlpg ph va).

Definition pmap_extract_locked (ph : phys) (pm : pmap) (va : Z) : Z :=
  let e := tbl_get ph (pm_pml4_pa pm) (pml4_idx va) in
  if negb (has e PTE_P) then PA_INVALID else
  let e := tbl_get ph (table_va e) (pdpt_idx va) in
  if negb (has e PTE_P) then PA_INVALID else
  if has e PTE_PS then Z.lor (Z.land e PTE_PA_MASK) (Z.land va 1073741823) else
  let e := tbl_get ph (table_va e) (pd_idx va) in
  if negb (has e PTE_P) then PA_INVALID else
  if has e PTE_PS then Z.lor (Z.land e PTE_PA_MASK) (Z.land va 2097151) else
  let e := tbl_get ph (table_va e) (pt_idx va) in
  if negb (has e PTE_P) then PA_INVALID else
  Z.lor (Z.land e PTE_PA_MASK) (Z.land va PAGE_MASK).

(** * Creation and teardown *)

(** [for (i = from; i < from + n; i++) dst[i] = src[i]] *)
Fixpoint copy_entries (n : nat) (ph : phys) (dst src i : Z) : phys :=
  match n with
  | O => ph
  | S n => copy_entries n (tbl_set ph dst i (tbl_get ph src i)) dst src (i + 1)
  end.

(** The loop that clears both new tables together. *)
Fixpoint zero_both (n : nat) (ph : phys) (t1 t2 i : Z) : phys :=
  match n with
  | O => ph
  | S n => zero_both n (tbl_set (tbl_set ph t1 i 0) t2 i 0) t1 t2 (i + 1)
  end.

Definition pmap_create (ph : phys) (kernel_pmap : pmap) (h : kheap) : res (option pmap * phys * kheap) :=
  let '(ok, h) := kmalloc_ok h in
  if negb ok then Done (None, ph, h)
  else
    let '(pml4_pa, s) := pmm_alloc_page (ph_pmm ph) in
    let ph := with_pmm ph s in
    if pml4_pa =? PA_INVALID then Done (None, ph, h)
    else
      let '(pdpt_pa, s) := pmm_alloc_page (ph_pmm ph) in
      let ph := with_pmm ph s in
      if pdpt_pa =? PA_INVALID then
        s ← pmm_free_page (ph_pmm ph) pml4_pa;
        Done (None, with_pmm ph s, h)
      else
        let ph := zero_both 512 ph pml4_pa pdpt_pa 0 in
        let ph := copy_entries 511 ph pml4_pa (pm_pml4_pa kernel_pmap) 1 in
        let e := tbl_get ph (pm_pml4_pa kernel_pmap) 0 in
        if negb (has e PTE_P) || has e PTE_PS then
          s ← pmm_free_page (ph_pmm ph) pdpt_pa;
          s ← pmm_free_page s pml4_pa;
          Done (None, with_pmm ph s, h)
        else
          let ph := copy_entries 512 ph pdpt_pa (Z.land e PTE_PA_MASK) 0 in
          let ph := tbl_set ph pml4_pa 0 (Z.lor (Z.lor (Z.lor pdpt_pa PTE_P) PTE_RW) PTE_US) in
          Done (Some (mkPmap pml4_pa 0 1 false), ph, h).

(** The inner loop of [pmap_destroy]: the page tables under one directory. *)
Fixpoint free_pts (n : nat) (ph : phys) (pd j : Z) : res phys :=
  match n with
  | O => Done ph
  | S n =>
      let pd_e := tbl_get ph pd j in
      if negb (descends pd_e) then free_pts n ph pd (j + 1)
      else
        s ← pmm_free_page (ph_pmm ph) (Z.land pd_e PTE_PA_MASK);
        free_pts n (with_pmm ph s) pd (j + 1)
  end.

(** The outer loop: every directory the kernel's own table does not name. *)
Fixpoint free_pds (n : nat) (ph : phys) (kern_pdpt0 : option Z) (pdpt i : Z) : res phys :=
  match n with
  | O => Done ph
  | S n =>
      let pdpt_e := tbl_get ph pdpt i in
      if negb (descends pdpt_e) then free_pds n ph kern_pdpt0 pdpt (i + 1)
      else if match kern_pdpt0 with Some k => tbl_get ph k i =? pdpt_e | None => false end
      then free_pds n ph kern_pdpt0 pdpt (i + 1)
      else
        ph ← free_pts 512 ph (Z.land pdpt_e PTE_PA_MASK) 0;
        s ← pmm_free_page (ph_pmm ph) (Z.land pdpt_e PTE_PA_MASK);
        free_pds n (with_pmm ph s) kern_pdpt0 pdpt (i + 1)
  end.

Definition pmap_destroy (ph : phys) (kernel_pmap : pmap) (pm : pmap) : res phys :=
  KASSERT (negb (pm_is_kernel pm)) "pmap_destroy: attempt to destroy kernel_pmap" ;;
  let kern_pml4_e := tbl_get ph (pm_pml4_pa kernel_pmap) 0 in
  let kern_pdpt0 := if descends kern_pml4_e then Some (Z.land kern_pml4_e PTE_PA_MASK) else None in
  let pml4_e := tbl_get ph (pm_pml4_pa pm) 0 in
  ph ← (if descends pml4_e then
          let pdpt_pa := Z.land pml4_e PTE_PA_MASK in
          ph ← free_pds 512 ph kern_pdpt0 pdpt_pa 0;
          s ← pmm_free_page (ph_pmm ph) pdpt_pa;
          Done (with_pmm ph s)
        else Done ph);
  s ← pmm_free_page (ph_pmm ph) (pm_pml4_pa pm);
  Done (with_pmm ph s).

(** The locked entry points; the spinlock is the atomicity of each. *)
Definition pmap_enter (ph : phys) (pm : option pmap) (va pa flags : Z) : res (bool * option pmap * phys) :=
  match pm with
  | None => Done (false, None, ph)
  | Some pm => r ← pmap_enter_locked ph pm va pa flags; let '(ok, pm, ph) := r in Done (ok, Some pm, ph)
  end.

Definition pmap_remove (ph : phys) (pm : option pmap) (va : Z) : bool * option pmap * phys :=
  match pm with
  | None => (false, None, ph)
  | Some pm => let '(ok, pm, ph) := pmap_remove_locked ph pm va in (ok, Some pm, ph)
  end.

Definition pmap_extract (ph : phys) (pm : option pmap) (va : Z) : Z :=
  match pm with
  | None => PA_INVALID
  | Some pm => pmap_extract_locked ph pm va
  end.

(** * The interface

    What the machine-independent layer calls, and what it relies on: a
    partial map from user pages to leaves, held in table pages the pmap
    owns. *)

Definition VM_USER_VA_LO : Z := 1073741824.
Definition VM_USER_VA_HI : Z := 2147483648.

(** A page-aligned address in the user window. *)
Definition upage (va : Z) : Prop := VM_USER_VA_LO <= va < VM_USER_VA_HI /\ aligned va.

Record leaf := mkLeaf { lf_pa : Z; lf_write : bool; lf_exec : bool; lf_user : bool }.

#[global] Instance leaf_eq_dec : EqDecision leaf.
Proof. solve_decision. Defined.

(** The leaf [pmap_enter] installs for a protection. *)
Definition leaf_for (pa prot : Z) : leaf :=
  mkLeaf pa (has prot VM_PROT_WRITE) (has prot VM_PROT_EXEC) (has prot VM_PROT_USER).

(** A page-aligned physical address an entry can hold, not [PA_INVALID]. *)
Definition frame_pa (pa : Z) : Prop := 0 < pa < 2 ^ 52 /\ pa mod PAGE_SIZE = 0.

Definition frames (l : list Z) : gmultiset Z := list_to_set_disj l.

Definition in_page (t a : Z) : Prop := t <= a < t + PAGE_SIZE.

Class PmapOps (P : Type) := {
  pm_enter : phys -> P -> Z -> Z -> Z -> res (bool * P * phys);
  pm_remove : phys -> P -> Z -> bool * P * phys;
  pm_extract : phys -> P -> Z -> Z;
}.

(** The state after an enter ([ok]) or a refusal. *)
Record entered {P} (inv : mem -> P -> Prop) (tables : mem -> P -> list Z)
    (lookup : mem -> P -> Z -> option leaf) (ph : phys) (pm : P) (va : Z) (lf : leaf)
    (X : gmultiset Z) (ok : bool) (pm' : P) (ph' : phys) : Prop := {
  en_inv : inv (ph_mem ph') pm';
  en_owned : owned_by (ph_pmm ph') (frames (tables (ph_mem ph') pm') ⊎ X);
  en_step : pmm_step (ph_pmm ph) (ph_pmm ph');
  en_tables : exists fresh, tables (ph_mem ph') pm' ≡ₚ fresh ++ tables (ph_mem ph) pm /\
      forall t, t ∈ fresh -> t ∉ frames (tables (ph_mem ph) pm) ⊎ X;
  en_mem : forall a, (forall t, t ∈ tables (ph_mem ph') pm' -> ~ in_page t a) ->
      ld8 (ph_mem ph') a = ld8 (ph_mem ph) a;
  en_leaf : forall v, upage v ->
      lookup (ph_mem ph') pm' v = if ok && (v =? va) then Some lf else lookup (ph_mem ph) pm v;
  en_present : lookup (ph_mem ph) pm va <> None ->
      ok = true /\ tables (ph_mem ph') pm' = tables (ph_mem ph) pm /\ ph_pmm ph' = ph_pmm ph /\
      va ∈ ph_inval ph';
}.

(** The state after a remove. *)
Record removed {P} (inv : mem -> P -> Prop) (tables : mem -> P -> list Z)
    (lookup : mem -> P -> Z -> option leaf) (ph : phys) (pm : P) (va : Z) (pm' : P) (ph' : phys) : Prop := {
  rm_inv : inv (ph_mem ph') pm';
  rm_tables : tables (ph_mem ph') pm' = tables (ph_mem ph) pm;
  rm_pmm : ph_pmm ph' = ph_pmm ph;
  rm_mem : forall a, (forall t, t ∈ tables (ph_mem ph) pm -> ~ in_page t a) ->
      ld8 (ph_mem ph') a = ld8 (ph_mem ph) a;
  rm_leaf : forall v, upage v ->
      lookup (ph_mem ph') pm' v = if v =? va then None else lookup (ph_mem ph) pm v;
  rm_inval : lookup (ph_mem ph) pm va <> None -> va ∈ ph_inval ph';
}.

Class PmapSpec (P : Type) `{PmapOps P} := {
  pm_inv : mem -> P -> Prop;
  pm_tables : mem -> P -> list Z;
  pm_leaf : mem -> P -> Z -> option leaf;

  pm_nodup : forall m pm, pm_inv m pm -> NoDup (pm_tables m pm);
  pm_leaf_pa : forall m pm v lf, pm_inv m pm -> upage v -> pm_leaf m pm v = Some lf -> frame_pa (lf_pa lf);
  pm_local : forall m m' pm, pm_inv m pm -> (forall t, t ∈ pm_tables m pm -> same_page m m' t) ->
    pm_inv m' pm /\ pm_tables m' pm = pm_tables m pm /\
    forall v, upage v -> pm_leaf m' pm v = pm_leaf m pm v;
  pm_extract_ok : forall ph pm v, pm_inv (ph_mem ph) pm -> upage v ->
    pm_extract ph pm v = match pm_leaf (ph_mem ph) pm v with Some lf => lf_pa lf | None => PA_INVALID end;
  pm_enter_ok : forall ph pm va pa prot X, pm_inv (ph_mem ph) pm ->
    owned_by (ph_pmm ph) (frames (pm_tables (ph_mem ph) pm) ⊎ X) -> upage va -> frame_pa pa ->
    exists ok pm' ph', pm_enter ph pm va pa prot = Done (ok, pm', ph') /\
      entered pm_inv pm_tables pm_leaf ph pm va (leaf_for pa prot) X ok pm' ph';
  pm_remove_ok : forall ph pm va, pm_inv (ph_mem ph) pm -> upage va ->
    exists pm' ph', pm_remove ph pm va = (bool_decide (pm_leaf (ph_mem ph) pm va <> None), pm', ph') /\
      removed pm_inv pm_tables pm_leaf ph pm va pm' ph';
}.

(** * Bits of an entry *)

Lemma pte_pa_mask_eq x : Z.land x PTE_PA_MASK = x mod 2 ^ 52 - x mod 2 ^ 12.
Proof.
  change PTE_PA_MASK with (Z.ldiff (2 ^ 52 - 1) (2 ^ 12 - 1)).
  replace (Z.land x (Z.ldiff (2 ^ 52 - 1) (2 ^ 12 - 1)))
    with (Z.ldiff (Z.land x (2 ^ 52 - 1)) (2 ^ 12 - 1)).
  - rewrite land_ones_mod, ldiff_ones_sub by lia. f_equal. change (2 ^ 52) with (2 ^ 12 * 2 ^ 40).
    rewrite Z.rem_mul_r by lia. rewrite (Z.mul_comm (2 ^ 12) (_ mod _)), Z.mod_add, Z.mod_mod; lia.
  - apply Z.bits_inj'. intros n Hn. rewrite !Z.ldiff_spec, !Z.land_spec, Z.ldiff_spec.
    by rewrite andb_assoc.
Qed.

Lemma table_va_range e : 0 <= table_va e < 2 ^ 52 /\ table_va e mod PAGE_SIZE = 0.
Proof.
  unfold table_va. rewrite pte_pa_mask_eq. unfold PAGE_SIZE. change (2 ^ 12) with 4096.
  pose proof (Z.mod_pos_bound e (2 ^ 52) ltac:(lia)). change (2 ^ 52) with (4096 * 2 ^ 40) in *.
  rewrite Z.rem_mul_r in * by lia. pose proof (Z.mod_pos_bound e 4096 ltac:(lia)).
  pose proof (Z.mod_pos_bound (e / 4096) (2 ^ 40) ltac:(lia)).
  replace (e mod 4096 + 4096 * ((e / 4096) mod 2 ^ 40) - e mod 4096)
    with (((e / 4096) mod 2 ^ 40) * 4096) by lia.
  rewrite Z.mod_mul by lia. lia.
Qed.

Lemma land_pa_mask pa : 0 <= pa < 2 ^ 52 -> pa mod PAGE_SIZE = 0 -> Z.land pa PTE_PA_MASK = pa.
Proof.
  intros H A. rewrite pte_pa_mask_eq, Z.mod_small by done. unfold PAGE_SIZE in A.
  change (2 ^ 12) with 4096. lia.
Qed.

(** An entry made of a frame and flag bits. *)
Lemma pte_table_va pa f :
  0 <= pa < 2 ^ 52 -> pa mod PAGE_SIZE = 0 -> Z.land f PTE_PA_MASK = 0 -> table_va (Z.lor pa f) = pa.
Proof.
  intros H A F. unfold table_va. rewrite Z.land_lor_distr_l, land_pa_mask, F by done. apply Z.lor_0_r.
Qed.

Lemma pte_has pa f b :
  0 <= pa < 2 ^ 52 -> pa mod PAGE_SIZE = 0 -> Z.land b PTE_PA_MASK = 0 -> has (Z.lor pa f) b = has f b.
Proof.
  intros H A B. unfold has. rewrite Z.land_lor_distr_l.
  rewrite <- (land_pa_mask pa H A) at 1. rewrite <- Z.land_assoc, (Z.land_comm _ b), B, Z.land_0_r.
  done.
Qed.

Lemma has_lor x y b : has (Z.lor x y) b = has x b || has y b.
Proof.
  unfold has. rewrite Z.land_lor_distr_l. pose proof (Z.lor_eq_0_iff (Z.land x b) (Z.land y b)).
  destruct (Z.land x b =? 0) eqn:?, (Z.land y b =? 0) eqn:?, (Z.lor _ _ =? 0) eqn:?; cbn; lia.
Qed.

(** Setting US changes neither what an entry points at nor how. *)
Lemma promote_table_va e : table_va (Z.lor e PTE_US) = table_va e.
Proof. unfold table_va. rewrite Z.land_lor_distr_l. by rewrite Z.lor_0_r. Qed.
Lemma promote_descends e : descends (Z.lor e PTE_US) = descends e.
Proof. unfold descends. rewrite !has_lor. by rewrite !orb_false_r. Qed.

Lemma u64_lor_both x y : u64 x -> u64 y -> u64 (Z.lor x y).
Proof.
  intros [? ?] [? ?]. assert (0 <= Z.lor x y) by (apply Z.lor_nonneg; lia). split; [done|].
  destruct (Z.eq_dec (Z.lor x y) 0) as [->|]; [lia|]. apply Z.log2_lt_pow2; [lia|].
  rewrite Z.log2_lor by lia. apply Z.max_lub_lt.
  - destruct (Z.eq_dec x 0) as [->|]; [cbn; lia|]. apply Z.log2_lt_pow2; lia.
  - destruct (Z.eq_dec y 0) as [->|]; [cbn; lia|]. apply Z.log2_lt_pow2; lia.
Qed.

Lemma leaf_flags_ok prot :
  Z.land (leaf_flags prot) PTE_PA_MASK = 0 /\ u64 (leaf_flags prot) /\
  has (leaf_flags prot) PTE_P = true /\ has (leaf_flags prot) PTE_RW = has prot VM_PROT_WRITE /\
  has (leaf_flags prot) PTE_NX = negb (has prot VM_PROT_EXEC) /\
  has (leaf_flags prot) PTE_US = has prot VM_PROT_USER.
Proof.
  unfold leaf_flags.
  destruct (has prot VM_PROT_WRITE), (has prot VM_PROT_EXEC), (has prot VM_PROT_USER),
    (has prot PMAP_NOCACHE), (has prot PMAP_GLOBAL); cbn [negb]; by split_and!.
Qed.

(** ** Indices *)

Lemma land_511 x : Z.land x 511 = x mod 512.
Proof. change 511 with (2 ^ 9 - 1). by rewrite land_ones_mod. Qed.

Lemma idx_range va : 0 <= pd_idx va < 512 /\ 0 <= pt_idx va < 512.
Proof. unfold pd_idx, pt_idx. rewrite !land_511. split; apply Z.mod_pos_bound; lia. Qed.

Lemma upage_idx va : upage va -> pml4_idx va = 0 /\ pdpt_idx va = 1 /\
  va = 2 ^ 30 + 2 ^ 21 * pd_idx va + 2 ^ 12 * pt_idx va.
Proof.
  unfold upage, aligned, VM_PAGE_SIZE, VM_USER_VA_LO, VM_USER_VA_HI, pml4_idx, pdpt_idx, pd_idx, pt_idx.
  rewrite !land_511, !Z.shiftr_div_pow2 by lia. intros [H A]. Z.div_mod_to_equations. lia.
Qed.

(** * The tree of a user pmap

    User addresses live under slot 1 of the private PDPT; the rest of the
    tree is the kernel's. *)

Definition next (m : mem) (t i : Z) : option Z :=
  let e := ld64 m (t + 8 * i) in
  if descends e then Some (table_va e) else None.

Definition pdpt_of (m : mem) (pm : pmap) : option Z := next m (pm_pml4_pa pm) 0.
Definition pd_of (m : mem) (pm : pmap) : option Z := pdpt ← pdpt_of m pm; next m pdpt 1.
Definition pt_of (m : mem) (pm : pmap) (j : Z) : option Z := pd ← pd_of m pm; next m pd j.

Definition pte_of (m : mem) (pm : pmap) (va : Z) : option Z :=
  pt ← pt_of m pm (pd_idx va);
  let e := ld64 m (pt + 8 * pt_idx va) in
  if has e PTE_P then Some e else None.

Definition leaf_of_pte (e : Z) : leaf :=
  mkLeaf (table_va e) (has e PTE_RW) (negb (has e PTE_NX)) (has e PTE_US).

Definition leaf_of (m : mem) (pm : pmap) (va : Z) : option leaf := leaf_of_pte <$> pte_of m pm va.

Definition slots : list Z := seqZ 0 512.

Definition tables_of (m : mem) (pm : pmap) : list Z :=
  pm_pml4_pa pm :: option_list (pdpt_of m pm) ++ option_list (pd_of m pm) ++ omap (pt_of m pm) slots.

(** Page [i] of the user window, for counting. *)
Definition upage_no (i : Z) : Z := VM_USER_VA_LO + i * PAGE_SIZE.
Definition upage_total : nat := Z.to_nat (2 ^ 18).
Definition leaf_count (m : mem) (pm : pmap) : Z :=
  count_upto (fun i => bool_decide (is_Some (pte_of m pm (upage_no i)))) upage_total.

Lemma elem_slots j : j ∈ slots <-> 0 <= j < 512.
Proof. unfold slots. rewrite elem_of_seqZ. lia. Qed.
Lemma upage_total_eq : Z.of_nat upage_total = 2 ^ 18.
Proof. unfold upage_total. by rewrite Z2Nat.id. Qed.

Lemma leaf_count_ext m m' pm pm' :
  (forall v, upage v -> pte_of m' pm' v = pte_of m pm v) -> leaf_count m' pm' = leaf_count m pm.
Proof.
  intros E. unfold leaf_count. apply count_upto_ext. rewrite upage_total_eq. intros i Hi.
  rewrite E; [done|]. unfold upage, upage_no, aligned, VM_PAGE_SIZE, PAGE_SIZE, VM_USER_VA_LO, VM_USER_VA_HI.
  Z.div_mod_to_equations. lia.
Qed.

Lemma leaf_count_range m pm : 0 <= leaf_count m pm <= 2 ^ 18.
Proof. unfold leaf_count. rewrite <- upage_total_eq. apply count_upto_range. Qed.

(** One page's leaf changes. *)
Lemma leaf_count_upd m m' pm pm' va :
  upage va -> (forall v, upage v -> v <> va -> pte_of m' pm' v = pte_of m pm v) ->
  leaf_count m' pm' = leaf_count m pm + Z.b2z (bool_decide (is_Some (pte_of m' pm' va)))
                      - Z.b2z (bool_decide (is_Some (pte_of m pm va))).
Proof.
  intros Hva E. unfold leaf_count.
  assert (exists k, 0 <= k < Z.of_nat upage_total /\ va = upage_no k) as (k & Hk & Ek).
  { rewrite upage_total_eq. exists ((va - VM_USER_VA_LO) / PAGE_SIZE). unfold upage_no.
    unfold upage, aligned, VM_PAGE_SIZE, PAGE_SIZE, VM_USER_VA_LO, VM_USER_VA_HI in *.
    Z.div_mod_to_equations. lia. }
  rewrite Ek in *. apply (count_upto_upd (fun i => bool_decide (is_Some (pte_of m pm (upage_no i))))
    (fun i => bool_decide (is_Some (pte_of m' pm' (upage_no i)))) upage_total k Hk).
  rewrite upage_total_eq. intros i Hi Hne. rewrite E; [done| |unfold upage_no, PAGE_SIZE; lia].
  unfold upage, upage_no, aligned, VM_PAGE_SIZE, PAGE_SIZE, VM_USER_VA_LO, VM_USER_VA_HI.
  Z.div_mod_to_equations. lia.
Qed.

#[global] Opaque slots upage_total leaf_count.

(** A slot below which nothing, or a table. *)
Definition slot_ok (e : Z) : Prop := has e PTE_P = true -> has e PTE_PS = false.

Record tree_ok (m : mem) (pm : pmap) : Prop := {
  tr_pdpt : is_Some (pdpt_of m pm);
  tr_pdslot : forall t, pdpt_of m pm = Some t -> slot_ok (ld64 m (t + 8 * 1));
  tr_ptslot : forall t j, pd_of m pm = Some t -> 0 <= j < 512 -> slot_ok (ld64 m (t + 8 * j));
  tr_nodup : NoDup (tables_of m pm);
  tr_good : Forall frame_pa (tables_of m pm);
  tr_leaf : forall v e, upage v -> pte_of m pm v = Some e -> table_va e <> 0;
  tr_leafs : pm_leafs pm = leaf_count m pm;
}.

(** ** Slots of distinct tables are apart *)

Lemma slot_apart t1 t2 i j :
  t1 mod PAGE_SIZE = 0 -> t2 mod PAGE_SIZE = 0 -> 0 <= i < 512 -> 0 <= j < 512 ->
  t1 <> t2 \/ i <> j -> t1 + 8 * i + 8 <= t2 + 8 * j \/ t2 + 8 * j + 8 <= t1 + 8 * i.
Proof. unfold PAGE_SIZE. intros. Z.div_mod_to_equations. lia. Qed.

Lemma slot_in_page t i a : 0 <= i < 512 -> t + 8 * i <= a < t + 8 * i + 8 -> in_page t a.
Proof. unfold in_page, PAGE_SIZE. lia. Qed.

Lemma ld64_slot_ne m t1 t2 i j v :
  frame_pa t1 -> frame_pa t2 -> 0 <= i < 512 -> 0 <= j < 512 -> t1 <> t2 \/ i <> j ->
  ld64 (st64 m (t1 + 8 * i) v) (t2 + 8 * j) = ld64 m (t2 + 8 * j).
Proof.
  intros [_ A1] [_ A2] Hi Hj N. apply ld64_st64_ne.
  destruct (slot_apart t1 t2 i j A1 A2 Hi Hj N); lia.
Qed.

(** A zeroed page: its own slots read 0, other tables' are untouched. *)
Lemma ld64_zeroed m pa i :
  0 <= i < 512 -> ld64 (zero_words 512 m pa) (pa + 8 * i) = 0.
Proof.
  intros Hi. apply ld64_0. intros x Hx. rewrite ld8_zero_words.
  by destruct ((pa <=? x) && (x <? pa + 8 * Z.of_nat 512)) eqn:?; [|lia].
Qed.

Lemma ld64_zeroed_ne m pa t i :
  frame_pa pa -> frame_pa t -> 0 <= i < 512 -> t <> pa ->
  ld64 (zero_words 512 m pa) (t + 8 * i) = ld64 m (t + 8 * i).
Proof.
  intros [_ A1] [_ A2] Hi N. apply ld64_ext. intros x Hx. rewrite ld8_zero_words.
  destruct ((pa <=? x) && (x <? pa + 8 * Z.of_nat 512)) eqn:?; [|done]. exfalso.
  unfold PAGE_SIZE in *. Z.div_mod_to_equations. lia.
Qed.

Lemma next_range m t i u : next m t i = Some u -> 0 <= u < 2 ^ 52 /\ u mod PAGE_SIZE = 0.
Proof.
  unfold next. destruct (descends _); [|done]. intros [= <-]. apply table_va_range.
Qed.

Lemma next_ext m m' t i : ld64 m' (t + 8 * i) = ld64 m (t + 8 * i) -> next m' t i = next m t i.
Proof. unfold next. by intros ->. Qed.

(** ** Membership in the tables *)

Lemma elem_tables m pm t :
  t ∈ tables_of m pm <->
  t = pm_pml4_pa pm \/ pdpt_of m pm = Some t \/ pd_of m pm = Some t \/
  exists j, 0 <= j < 512 /\ pt_of m pm j = Some t.
Proof.
  unfold tables_of. rewrite elem_of_cons, !elem_of_app, list_elem_of_omap.
  assert (forall o : option Z, t ∈ option_list o <-> o = Some t) as E.
  { intros [x|]; cbn; [rewrite list_elem_of_singleton; naive_solver|]. split; [by intros ?%not_elem_of_nil|done]. }
  rewrite !E. do 3 f_equiv. f_equiv. intros j. by rewrite elem_slots.
Qed.

Lemma omap_inj {A} (f : A -> option Z) l i j x :
  NoDup (omap f l) -> i ∈ l -> j ∈ l -> f i = Some x -> f j = Some x -> i = j.
Proof.
  induction l as [|a l IH]; [by intros _ ?%not_elem_of_nil|].
  intros N Hi Hj Fi Fj. apply elem_of_cons in Hi as [->|Hi]; apply elem_of_cons in Hj as [->|Hj]; [done| | |].
  - cbn in N. rewrite Fi in N. apply list.NoDup_cons in N as [N _]. exfalso. apply N, list_elem_of_omap. eauto.
  - cbn in N. rewrite Fj in N. apply list.NoDup_cons in N as [N _]. exfalso. apply N, list_elem_of_omap. eauto.
  - apply IH; try done. cbn in N. destruct (f a); [by apply list.NoDup_cons in N as [_ N]|done].
Qed.

Section Tree.
Context (m : mem) (pm : pmap) (T : tree_ok m pm).

Lemma table_good t : t ∈ tables_of m pm -> frame_pa t.
Proof. intros H. exact (proj1 (list.Forall_forall _ _) (tr_good m pm T) t H). Qed.

Lemma root_in : pm_pml4_pa pm ∈ tables_of m pm.
Proof. apply elem_tables. auto. Qed.
Lemma pdpt_in t : pdpt_of m pm = Some t -> t ∈ tables_of m pm.
Proof. intros. apply elem_tables. auto. Qed.
Lemma pd_in t : pd_of m pm = Some t -> t ∈ tables_of m pm.
Proof. intros. apply elem_tables. auto. Qed.
Lemma pt_in t j : 0 <= j < 512 -> pt_of m pm j = Some t -> t ∈ tables_of m pm.
Proof. intros. apply elem_tables. eauto 6. Qed.

Lemma root_ne_pdpt t : pdpt_of m pm = Some t -> t <> pm_pml4_pa pm.
Proof.
  intros E ->. pose proof (tr_nodup m pm T) as N. unfold tables_of in N. rewrite E in N.
  apply list.NoDup_cons in N as [N _]. apply N. cbn. by left.
Qed.

Lemma pd_ne t : pd_of m pm = Some t -> t <> pm_pml4_pa pm /\ pdpt_of m pm <> Some t.
Proof.
  intros E. pose proof (tr_nodup m pm T) as N. unfold tables_of in N. rewrite E in N.
  apply list.NoDup_cons in N as [N1 N]. split.
  - intros ->. apply N1. rewrite !elem_of_app. right. left. cbn. by left.
  - intros E'. rewrite E' in N. cbn in N. apply list.NoDup_cons in N as [N _]. apply N. by left.
Qed.

Lemma pt_ne t j : 0 <= j < 512 -> pt_of m pm j = Some t ->
  t <> pm_pml4_pa pm /\ pdpt_of m pm <> Some t /\ pd_of m pm <> Some t.
Proof.
  intros Hj E. pose proof (tr_nodup m pm T) as N. unfold tables_of in N.
  assert (t ∈ omap (pt_of m pm) slots) as Hin.
  { apply list_elem_of_omap. exists j. split; [|done]. by apply elem_slots. }
  apply list.NoDup_cons in N as [N1 N]. split_and!.
  - intros ->. apply N1. rewrite !elem_of_app. auto.
  - intros E'. rewrite E' in N. cbn in N. apply list.NoDup_cons in N as [N _]. apply N, elem_of_app. auto.
  - intros E'. rewrite E' in N. apply list.NoDup_app in N as (_ & _ & N). cbn in N.
    apply list.NoDup_cons in N as [N _]. done.
Qed.

Lemma pt_inj t i j :
  0 <= i < 512 -> 0 <= j < 512 -> pt_of m pm i = Some t -> pt_of m pm j = Some t -> i = j.
Proof.
  intros Hi Hj Ei Ej. pose proof (tr_nodup m pm T) as N. unfold tables_of in N.
  apply list.NoDup_cons in N as [_ N]. apply list.NoDup_app in N as (_ & _ & N). apply list.NoDup_app in N as (_ & _ & N).
  apply (omap_inj (pt_of m pm) slots i j t); try done; by apply elem_slots.
Qed.

End Tree.

(** ** Changes that leave the tree as it is *)

(** Entries that lead to the same place. *)
Definition entry_sim (e e' : Z) : Prop :=
  has e' PTE_P = has e PTE_P /\ has e' PTE_PS = has e PTE_PS /\ table_va e' = table_va e.

Lemma entry_sim_refl e : entry_sim e e.
Proof. done. Qed.

Lemma next_sim m m' t i :
  entry_sim (ld64 m (t + 8 * i)) (ld64 m' (t + 8 * i)) -> next m' t i = next m t i.
Proof. unfold next, descends. by intros (-> & -> & ->). Qed.

Lemma omap_ext_in {A} (f g : A -> option Z) (l : list A) : (forall x, x ∈ l -> f x = g x) -> omap f l = omap g l.
Proof.
  induction l as [|a l IH]; intros E; [done|]. cbn. rewrite (E a) by by left.
  rewrite IH; [done|]. intros x Hx. apply E. by right.
Qed.

Lemma omap_none_in {A} (f : A -> option Z) (l : list A) : (forall x, x ∈ l -> f x = None) -> omap f l = [].
Proof.
  induction l as [|a l IH]; intros E; [done|]. cbn. rewrite (E a) by by left.
  apply IH. intros x Hx. apply E. by right.
Qed.

(** One more index maps to something. *)
Lemma omap_upd_perm {A} (f g : A -> option Z) (l : list A) j x :
  NoDup l -> j ∈ l -> f j = None -> g j = Some x -> (forall k, k ∈ l -> k <> j -> g k = f k) ->
  omap g l ≡ₚ x :: omap f l.
Proof.
  induction l as [|a l IH]; intros N Hj Fj Gj E; [by apply not_elem_of_nil in Hj|].
  apply list.NoDup_cons in N as [Na N]. apply elem_of_cons in Hj as [->|Hj].
  - cbn. rewrite Fj, Gj. f_equiv. erewrite omap_ext_in; [done|]. intros k Hk. apply E; [by right|].
    by intros ->.
  - assert (g a = f a) as Ea by (apply E; [by left|by intros ->]). cbn. rewrite Ea.
    assert (omap g l ≡ₚ x :: omap f l) as P by (apply IH; try done; intros k Hk; apply E; by right).
    destruct (f a); [|done]. change (z :: omap g l ≡ₚ x :: z :: omap f l). rewrite P. apply perm_swap.
Qed.

Lemma nodup_slots : NoDup slots.
Proof. Transparent slots. apply NoDup_seqZ. Opaque slots. Qed.

(** The tables above the page tables. *)
Definition upper (m : mem) (pm : pmap) (t : Z) : Prop :=
  t = pm_pml4_pa pm \/ pdpt_of m pm = Some t \/ pd_of m pm = Some t.

Lemma upper_in m pm t : upper m pm t -> t ∈ tables_of m pm.
Proof. intros [?|[?|?]]; apply elem_tables; auto. Qed.

Section Sim.
Context (m m' : mem) (pm : pmap).
Context (T : tree_ok m pm).
Context (Hup : forall t i, upper m pm t -> 0 <= i < 512 ->
           entry_sim (ld64 m (t + 8 * i)) (ld64 m' (t + 8 * i))).
Lemma sim_pdpt : pdpt_of m' pm = pdpt_of m pm.
Proof. apply next_sim, Hup; [by left|lia]. Qed.

Lemma sim_pd : pd_of m' pm = pd_of m pm.
Proof.
  unfold pd_of. rewrite sim_pdpt. destruct (pdpt_of m pm) as [t|] eqn:E; cbn; [|done].
  apply next_sim, Hup; [by right; left|lia].
Qed.

Lemma sim_pt j : 0 <= j < 512 -> pt_of m' pm j = pt_of m pm j.
Proof.
  intros Hj. unfold pt_of. rewrite sim_pd. destruct (pd_of m pm) as [t|] eqn:E; cbn; [|done].
  apply next_sim, Hup; [by right; right|done].
Qed.

Lemma sim_tables : tables_of m' pm = tables_of m pm.
Proof.
  unfold tables_of. rewrite sim_pdpt, sim_pd. do 3 f_equal. apply omap_ext_in.
  intros j Hj%elem_slots. by apply sim_pt.
Qed.

Lemma sim_tree_leafs n :
  (forall v e, upage v -> pte_of m' pm v = Some e -> table_va e <> 0) ->
  n = leaf_count m' (with_leafs pm n) -> tree_ok m' (with_leafs pm n).
Proof.
  intros Hl Hn. split.
  - change (is_Some (pdpt_of m' pm)). rewrite sim_pdpt. apply T.
  - change (forall t, pdpt_of m' pm = Some t -> slot_ok (ld64 m' (t + 8 * 1))).
    intros t. rewrite sim_pdpt. intros E.
    destruct (Hup t 1 (or_intror (or_introl E)) ltac:(lia)) as (E1 & E2 & _).
    unfold slot_ok. rewrite E1, E2. by apply (tr_pdslot m pm T).
  - change (forall t j, pd_of m' pm = Some t -> 0 <= j < 512 -> slot_ok (ld64 m' (t + 8 * j))).
    intros t j. rewrite sim_pd. intros E Hj.
    destruct (Hup t j (or_intror (or_intror E)) Hj) as (E1 & E2 & _).
    unfold slot_ok. rewrite E1, E2. by apply (tr_ptslot m pm T).
  - change (NoDup (tables_of m' pm)). rewrite sim_tables. apply T.
  - change (Forall frame_pa (tables_of m' pm)). rewrite sim_tables. apply T.
  - exact Hl.
  - exact Hn.
Qed.

Context (Hpt : forall j t i, 0 <= j < 512 -> pt_of m pm j = Some t -> 0 <= i < 512 ->
           ld64 m' (t + 8 * i) = ld64 m (t + 8 * i)).

Lemma sim_pte v : pte_of m' pm v = pte_of m pm v.
Proof.
  unfold pte_of. destruct (idx_range v) as [H1 H2]. rewrite (sim_pt _ H1).
  destruct (pt_of m pm (pd_idx v)) as [t|] eqn:E; cbn; [|done]. by rewrite (Hpt _ _ _ H1 E H2).
Qed.

Lemma sim_tree : tree_ok m' pm.
Proof.
  assert (tree_ok m' (with_leafs pm (pm_leafs pm))) as T'.
  { apply sim_tree_leafs.
    - intros v e Hv. rewrite sim_pte. by apply (tr_leaf m pm T).
    - rewrite (tr_leafs m pm T) at 1. symmetry. apply leaf_count_ext. intros v _. apply sim_pte. }
  by destruct pm.
Qed.

End Sim.

(** Setting US in an upper entry. *)
Lemma promote_ok m pm t i :
  tree_ok m pm -> t ∈ tables_of m pm -> 0 <= i < 512 ->
  (forall j u, 0 <= j < 512 -> pt_of m pm j = Some u -> u <> t) ->
  let m' := st64 m (t + 8 * i) (Z.lor (ld64 m (t + 8 * i)) PTE_US) in
  tree_ok m' pm /\ tables_of m' pm = tables_of m pm /\ (forall v, pte_of m' pm v = pte_of m pm v) /\
  pdpt_of m' pm = pdpt_of m pm /\ pd_of m' pm = pd_of m pm /\
  (forall j, 0 <= j < 512 -> pt_of m' pm j = pt_of m pm j).
Proof.
  intros T Ht Hi Npt m'.
  assert (forall u k, upper m pm u -> 0 <= k < 512 ->
            entry_sim (ld64 m (u + 8 * k)) (ld64 m' (u + 8 * k))) as Hup.
  { intros u k Hu%upper_in Hk. unfold m'. destruct (decide (u = t /\ k = i)) as [[-> ->]|Hne].
    - rewrite ld64_st64_eq by (apply u64_lor_both; [apply ld64_range|done]).
      split_and!; [by rewrite has_lor, orb_false_r..|apply promote_table_va].
    - rewrite ld64_slot_ne; [apply entry_sim_refl|..]; try done; [by apply (table_good m pm T)..|].
      destruct (decide (t = u)); [right|by left]. intros <-. by apply Hne. }
  assert (forall j u k, 0 <= j < 512 -> pt_of m pm j = Some u -> 0 <= k < 512 ->
            ld64 m' (u + 8 * k) = ld64 m (u + 8 * k)) as Hpt.
  { intros j u k Hj E Hk. unfold m'. apply ld64_slot_ne; try done;
      [by apply (table_good m pm T)|by apply (table_good m pm T), (pt_in _ _ _ j)|].
    left. intros <-. by apply (Npt j t Hj E). }
  split_and!; [by apply sim_tree with m|by apply sim_tables|by apply sim_pte|by apply sim_pdpt|
    by apply sim_pd|intros; by apply sim_pt].
Qed.

(** The tree depends on its own pages only. *)
Lemma tree_local m m' pm :
  tree_ok m pm -> (forall t, t ∈ tables_of m pm -> same_page m m' t) ->
  tree_ok m' pm /\ tables_of m' pm = tables_of m pm /\ (forall v, pte_of m' pm v = pte_of m pm v).
Proof.
  intros T S.
  assert (forall u k, u ∈ tables_of m pm -> 0 <= k < 512 -> ld64 m' (u + 8 * k) = ld64 m (u + 8 * k)) as E.
  { intros u k Hu Hk. apply ld64_ext. intros x Hx. apply (S u Hu). unfold PAGE_SIZE. lia. }
  assert (forall u k, upper m pm u -> 0 <= k < 512 ->
            entry_sim (ld64 m (u + 8 * k)) (ld64 m' (u + 8 * k))) as Hup
    by (intros u k Hu%upper_in Hk; rewrite E by done; apply entry_sim_refl).
  assert (forall j u k, 0 <= j < 512 -> pt_of m pm j = Some u -> 0 <= k < 512 ->
            ld64 m' (u + 8 * k) = ld64 m (u + 8 * k)) as Hpt by (intros j u k ? ? ?; apply E; [by apply (pt_in _ _ _ j)|done]).
  split_and!; [by apply sim_tree with m|by apply sim_tables|by apply sim_pte].
Qed.

(** ** Changes to the tree *)

Lemma tree_ok_intermediates m pm n : tree_ok m pm -> tree_ok m (with_intermediates pm n).
Proof.
  intros []. split; [assumption..|]. cbn. rewrite tr_leafs0. symmetry. by apply leaf_count_ext.
Qed.

(** A table made by [ensure_table]: a zeroed page linked from a slot. *)
Section NewTable.
Context (m : mem) (pm : pmap) (T : tree_ok m pm).
Context (u i pa f : Z).
Context (Hu : u ∈ tables_of m pm) (Hi : 0 <= i < 512).
Context (Hpa : frame_pa pa) (Fresh : pa ∉ tables_of m pm).
Context (Hf : Z.land f PTE_PA_MASK = 0) (Hf64 : u64 f).
Context (HfP : has f PTE_P = true) (HfPS : has f PTE_PS = false).

Let m' : mem := st64 (zero_words 512 m pa) (u + 8 * i) (Z.lor pa f).

Lemma new_ne t : t ∈ tables_of m pm -> t <> pa.
Proof. by intros ? ->. Qed.

Lemma new_u64 : u64 (Z.lor pa f).
Proof. apply u64_lor_both; [|done]. destruct Hpa. unfold u64. lia. Qed.

Lemma new_old_slot t k :
  t ∈ tables_of m pm -> 0 <= k < 512 -> u <> t \/ i <> k -> ld64 m' (t + 8 * k) = ld64 m (t + 8 * k).
Proof.
  intros Ht Hk N. unfold m'.
  rewrite ld64_slot_ne by (done || by apply (table_good m pm T)).
  apply ld64_zeroed_ne; [done|by apply (table_good m pm T)|done|by apply new_ne].
Qed.

Lemma new_fresh_slot k : 0 <= k < 512 -> ld64 m' (pa + 8 * k) = 0.
Proof.
  intros Hk. unfold m'.
  rewrite ld64_slot_ne by (done || by apply (table_good m pm T) || by left; apply new_ne).
  by apply ld64_zeroed.
Qed.

Lemma new_next : next m' u i = Some pa.
Proof.
  unfold next, m'. rewrite ld64_st64_eq by apply new_u64. destruct Hpa as [? ?]. unfold descends.
  rewrite !pte_has by (done || lia). rewrite HfP, HfPS. cbn. by rewrite pte_table_va by (done || lia).
Qed.

Lemma new_slot_ok : slot_ok (ld64 m' (u + 8 * i)).
Proof.
  unfold slot_ok, m'. rewrite ld64_st64_eq by apply new_u64. destruct Hpa as [? ?].
  rewrite !pte_has by (done || lia). by rewrite HfPS.
Qed.

Lemma new_next_fresh k : 0 <= k < 512 -> next m' pa k = None.
Proof. intros Hk. unfold next. by rewrite new_fresh_slot. Qed.

Lemma new_next_old t k : t ∈ tables_of m pm -> 0 <= k < 512 -> u <> t \/ i <> k -> next m' t k = next m t k.
Proof. intros. by apply next_ext, new_old_slot. Qed.

Lemma new_slot_fresh_ok k : 0 <= k < 512 -> slot_ok (ld64 m' (pa + 8 * k)).
Proof. intros Hk. rewrite new_fresh_slot by done. done. Qed.

(** Nothing outside the two pages changes. *)
Lemma new_mem a : ~ in_page pa a -> ~ in_page u a -> ld8 m' a = ld8 m a.
Proof.
  intros N1 N2. unfold m'. rewrite ld8_st64_out.
  - rewrite ld8_zero_words. destruct ((pa <=? a) && (a <? pa + 8 * Z.of_nat 512)) eqn:?; [|done].
    exfalso. apply N1. unfold in_page, PAGE_SIZE. lia.
  - unfold in_page, PAGE_SIZE in N2. lia.
Qed.

Lemma new_tree_ok m1 :
  is_Some (pdpt_of m1 pm) ->
  (forall t, pdpt_of m1 pm = Some t -> slot_ok (ld64 m1 (t + 8 * 1))) ->
  (forall t j, pd_of m1 pm = Some t -> 0 <= j < 512 -> slot_ok (ld64 m1 (t + 8 * j))) ->
  tables_of m1 pm ≡ₚ pa :: tables_of m pm -> (forall v, pte_of m1 pm v = pte_of m pm v) -> tree_ok m1 pm.
Proof.
  intros E1 E2 E3 L Epte. split; [exact E1|exact E2|exact E3|..].
  - rewrite L. apply list.NoDup_cons. split; [done|apply T].
  - rewrite L. constructor; [done|apply T].
  - intros v e Hv. rewrite Epte. by apply (tr_leaf m pm T).
  - rewrite (tr_leafs m pm T). symmetry. apply leaf_count_ext. intros v _. apply Epte.
Qed.

(** ... as the page directory. *)
Lemma new_pd_ok :
  pdpt_of m pm = Some u -> i = 1 -> pd_of m pm = None ->
  tree_ok m' pm /\ tables_of m' pm ≡ₚ pa :: tables_of m pm /\ (forall v, pte_of m' pm v = pte_of m pm v) /\
  pdpt_of m' pm = Some u /\ pd_of m' pm = Some pa.
Proof.
  intros Ep Ei Ed. pose proof (root_ne_pdpt m pm T u Ep) as Hru.
  assert (pdpt_of m' pm = Some u) as Ep'.
  { rewrite <- Ep. unfold pdpt_of. apply new_next_old; [apply root_in|lia|by left]. }
  assert (pd_of m' pm = Some pa) as Ed' by (unfold pd_of; rewrite Ep'; cbn; rewrite <- Ei; apply new_next).
  assert (forall j, 0 <= j < 512 -> pt_of m' pm j = None) as Et'.
  { intros j Hj. unfold pt_of. rewrite Ed'. cbn. by apply new_next_fresh. }
  assert (forall j, pt_of m pm j = None) as Et by (intros j; unfold pt_of; by rewrite Ed).
  assert (forall v, pte_of m' pm v = pte_of m pm v) as Epte.
  { intros v. destruct (idx_range v) as [H1 _]. unfold pte_of. by rewrite (Et' _ H1), Et. }
  assert (tables_of m' pm ≡ₚ pa :: tables_of m pm) as L.
  { unfold tables_of. rewrite Ep', Ed', Ep, Ed. cbn.
    rewrite !omap_none_in by (intros j Hj%elem_slots; (by apply Et') || apply Et). apply Permutation_app_comm with
      (l := [pm_pml4_pa pm; u]) (l' := [pa]). }
  split_and!; [|exact L|exact Epte|exact Ep'|exact Ed'].
  apply (new_tree_ok m'); [by rewrite Ep'| | |exact L|exact Epte].
  - intros t [= <-]%(eq_trans (eq_sym Ep')). rewrite <- Ei. apply new_slot_ok.
  - intros t j [= <-]%(eq_trans (eq_sym Ed')). apply new_slot_fresh_ok.
Qed.

(** ... as a page table. *)
Lemma new_pt_ok :
  pd_of m pm = Some u -> pt_of m pm i = None ->
  tree_ok m' pm /\ tables_of m' pm ≡ₚ pa :: tables_of m pm /\ (forall v, pte_of m' pm v = pte_of m pm v) /\
  pdpt_of m' pm = pdpt_of m pm /\ pt_of m' pm i = Some pa.
Proof.
  intros Ed Et. destruct (pd_ne m pm T u Ed) as [Nr Np].
  destruct (tr_pdpt m pm T) as [p Ep].
  assert (pdpt_of m' pm = Some p) as Ep'.
  { rewrite <- Ep. unfold pdpt_of. apply new_next_old; [apply root_in|lia|by left]. }
  assert (pd_of m' pm = Some u) as Ed'.
  { rewrite <- Ed. unfold pd_of. rewrite Ep', Ep. cbn. apply new_next_old; [by apply pdpt_in|lia|].
    left. intros ->. done. }
  assert (pt_of m' pm i = Some pa) as Et' by (unfold pt_of; rewrite Ed'; apply new_next).
  assert (forall j, 0 <= j < 512 -> j <> i -> pt_of m' pm j = pt_of m pm j) as Eo.
  { intros j Hj Hne. unfold pt_of. rewrite Ed', Ed. cbn. apply new_next_old; [by apply pd_in|done|by right]. }
  assert (forall v, pte_of m' pm v = pte_of m pm v) as Epte.
  { intros v. destruct (idx_range v) as [H1 H2]. unfold pte_of.
    destruct (decide (pd_idx v = i)) as [->|Hne].
    - rewrite Et', Et. cbn. by rewrite new_fresh_slot.
    - rewrite Eo by done. destruct (pt_of m pm (pd_idx v)) as [t|] eqn:E; [|done]. cbn.
      rewrite new_old_slot; [done|by apply (pt_in _ _ _ (pd_idx v))|done|].
      left. intros ->. by destruct (pt_ne m pm T t _ H1 E) as (_ & _ & ?). }
  assert (tables_of m' pm ≡ₚ pa :: tables_of m pm) as L.
  { unfold tables_of. rewrite Ep', Ed', Ep, Ed. cbn.
    rewrite (omap_upd_perm (pt_of m pm) (pt_of m' pm) slots i pa nodup_slots); try done.
    - exact (Permutation_app_tail _ (Permutation_app_comm [pm_pml4_pa pm; p; u] [pa])).
    - by apply elem_slots.
    - intros k Hk%elem_slots ?. by apply Eo. }
  split_and!; [|exact L|exact Epte|by rewrite Ep'|exact Et'].
  apply (new_tree_ok m'); [by rewrite Ep'| | |exact L|exact Epte].
  - intros t [= <-]%(eq_trans (eq_sym Ep')). rewrite new_old_slot; [by apply (tr_pdslot m pm T)|
      by apply pdpt_in|lia|]. left. intros ->. done.
  - intros t j [= <-]%(eq_trans (eq_sym Ed')) Hj. destruct (decide (j = i)) as [->|Hne]; [apply new_slot_ok|].
    rewrite new_old_slot; [by apply (tr_ptslot m pm T)|by apply pd_in|done|by right].
Qed.

End NewTable.

(** A leaf entry, written or cleared. *)
Lemma set_leaf m pm va t e :
  tree_ok m pm -> upage va -> pt_of m pm (pd_idx va) = Some t -> u64 e ->
  (has e PTE_P = true -> table_va e <> 0) ->
  let m' := st64 m (t + 8 * pt_idx va) e in
  let pm' := with_leafs pm (pm_leafs pm + Z.b2z (has e PTE_P)
               - Z.b2z (bool_decide (is_Some (pte_of m pm va)))) in
  tree_ok m' pm' /\ tables_of m' pm' = tables_of m pm /\
  (forall v, upage v -> pte_of m' pm' v =
     if v =? va then if has e PTE_P then Some e else None else pte_of m pm v).
Proof.
  intros T Hva Et He Hnz m' pm'. destruct (idx_range va) as [I1 I2].
  destruct (pt_ne m pm T t _ I1 Et) as (N1 & N2 & N3).
  assert (t ∈ tables_of m pm) as Ht by by apply (pt_in _ _ _ (pd_idx va)).
  assert (forall u k, upper m pm u -> 0 <= k < 512 ->
            entry_sim (ld64 m (u + 8 * k)) (ld64 m' (u + 8 * k))) as Hup.
  { intros u k Hu Hk. unfold m'. rewrite ld64_slot_ne; [apply entry_sim_refl|by apply (table_good m pm T)|
      by apply (table_good m pm T), upper_in|done|done|].
    left. intros <-. by destruct Hu as [?|[?|?]]. }
  assert (forall v, upage v -> pte_of m' pm v =
     if v =? va then if has e PTE_P then Some e else None else pte_of m pm v) as Epte.
  { intros v Hv. destruct (idx_range v) as [J1 J2]. unfold pte_of.
    rewrite (sim_pt m m' pm Hup _ J1). destruct (Z.eqb_spec v va) as [->|Hne].
    - rewrite Et. cbn. unfold m'. by rewrite ld64_st64_eq.
    - destruct (pt_of m pm (pd_idx v)) as [t'|] eqn:Et'; [|done]. cbn. unfold m'.
      rewrite ld64_slot_ne; [done|by apply (table_good m pm T)| |done|done|].
      + apply (table_good m pm T). by apply (pt_in _ _ _ (pd_idx v)).
      + destruct (decide (t = t')) as [<-|]; [|by left]. right. intros Ei.
        pose proof (pt_inj m pm T t _ _ I1 J1 Et Et'). apply Hne.
        destruct (upage_idx va Hva) as (_ & _ & ->). destruct (upage_idx v Hv) as (_ & _ & ->). congruence. }
  split_and!; [|apply (sim_tables m m' pm Hup)|apply Epte].
  apply (sim_tree_leafs m m' pm T Hup).
  - intros v x Hv. rewrite Epte by done.
    destruct (v =? va); [|by apply (tr_leaf m pm T)]. destruct (has e PTE_P); [|done].
    intros [= <-]. by apply Hnz.
  - fold pm'. etransitivity; [|symmetry; apply (leaf_count_upd m m' pm pm' va Hva)].
    + rewrite <- (tr_leafs m pm T). change (pte_of m' pm' va) with (pte_of m' pm va). rewrite Epte, Z.eqb_refl by done.
      by destruct (has e PTE_P).
    + intros v Hv Hne. change (pte_of m' pm' v) with (pte_of m' pm v). rewrite Epte by done.
      by destruct (v =? va) eqn:?; [lia|].
Qed.

(** * [ensure_table] *)

(** The private PDPT and its slots outside the user window stay. *)
Definition shared_kept (ph : phys) (pm : pmap) (ph' : phys) (pm' : pmap) : Prop :=
  pdpt_of (ph_mem ph') pm' = pdpt_of (ph_mem ph) pm /\
  forall t i, pdpt_of (ph_mem ph) pm = Some t -> 0 <= i < 512 -> i <> 1 -> tbl_get ph' t i = tbl_get ph t i.

Lemma shared_kept_refl ph pm : shared_kept ph pm ph pm.
Proof. split; reflexivity. Qed.

Lemma shared_kept_trans ph1 pm1 ph2 pm2 ph3 pm3 :
  shared_kept ph1 pm1 ph2 pm2 -> shared_kept ph2 pm2 ph3 pm3 -> shared_kept ph1 pm1 ph3 pm3.
Proof.
  intros [E1 S1] [E2 S2]. split; [congruence|]. intros t i Et Hi Hne.
  rewrite S2 by congruence. by apply S1.
Qed.

(** The tree may have gained tables; it maps what it did. *)
Record grown (X : gmultiset Z) (ph : phys) (pm : pmap) (ph' : phys) (pm' : pmap) : Prop := {
  gr_tree : tree_ok (ph_mem ph') pm';
  gr_owned : owned_by (ph_pmm ph') (frames (tables_of (ph_mem ph') pm') ⊎ X);
  gr_step : pmm_step (ph_pmm ph) (ph_pmm ph');
  gr_tables : exists fresh, tables_of (ph_mem ph') pm' ≡ₚ fresh ++ tables_of (ph_mem ph) pm /\
      forall t, t ∈ fresh -> t ∉ frames (tables_of (ph_mem ph) pm) ⊎ X;
  gr_mem : forall a, (forall t, t ∈ tables_of (ph_mem ph') pm' -> ~ in_page t a) ->
      ld8 (ph_mem ph') a = ld8 (ph_mem ph) a;
  gr_pte : forall v, pte_of (ph_mem ph') pm' v = pte_of (ph_mem ph) pm v;
  gr_shared : shared_kept ph pm ph' pm';
}.

(** ... and in fact gained none. *)
Definition quiet (ph : phys) (pm : pmap) (ph' : phys) (pm' : pmap) : Prop :=
  tables_of (ph_mem ph') pm' = tables_of (ph_mem ph) pm /\ ph_pmm ph' = ph_pmm ph.

Lemma elem_frames l t : t ∈ frames l <-> t ∈ l.
Proof. apply elem_of_list_to_set_disj. Qed.

Lemma grown_refl X ph pm :
  tree_ok (ph_mem ph) pm -> owned_by (ph_pmm ph) (frames (tables_of (ph_mem ph) pm) ⊎ X) ->
  grown X ph pm ph pm.
Proof.
  intros T W. split; [exact T|exact W|reflexivity| |reflexivity|reflexivity|apply shared_kept_refl].
  exists []. split; [reflexivity|]. by intros t ?%not_elem_of_nil.
Qed.

Lemma grown_trans X ph1 pm1 ph2 pm2 ph3 pm3 :
  grown X ph1 pm1 ph2 pm2 -> grown X ph2 pm2 ph3 pm3 -> grown X ph1 pm1 ph3 pm3.
Proof.
  intros [T1 W1 S1 (f1 & L1 & F1) M1 P1 K1] [T2 W2 S2 (f2 & L2 & F2) M2 P2 K2]. split.
  - exact T2.
  - exact W2.
  - by etrans.
  - exists (f2 ++ f1). split; [by rewrite L2, L1, app_assoc|].
    intros t [Ht|Ht]%elem_of_app; [|by apply F1]. specialize (F2 t Ht).
    rewrite gmultiset_elem_of_disj_union, elem_frames in *. rewrite L1, elem_of_app in F2. tauto.
  - intros a Ha. rewrite M2 by done. apply M1. intros t Ht. apply Ha. rewrite L2. by apply elem_of_app; right.
  - intros v. by rewrite P2.
  - by eapply shared_kept_trans.
Qed.

Lemma quiet_trans ph1 pm1 ph2 pm2 ph3 pm3 :
  quiet ph1 pm1 ph2 pm2 -> quiet ph2 pm2 ph3 pm3 -> quiet ph1 pm1 ph3 pm3.
Proof. unfold quiet. intros [-> ->] [-> ->]. done. Qed.

Lemma frames_cons t l : frames (t :: l) = {[+ t +]} ⊎ frames l.
Proof. done. Qed.

Lemma frames_perm l1 l2 : l1 ≡ₚ l2 -> frames l1 = frames l2.
Proof. intros E. unfold frames. by rewrite E. Qed.

(** The slot leads to a table already: at most its US bit changes. *)
Lemma ensure_present X ph pm u i user :
  let m := ph_mem ph in
  tree_ok m pm -> owned_by (ph_pmm ph) (frames (tables_of m pm) ⊎ X) ->
  upper m pm u -> 0 <= i < 512 -> (pdpt_of m pm = Some u -> i = 1) ->
  descends (ld64 m (u + 8 * i)) = true ->
  exists ph', ensure_table ph pm u i user = (Some (table_va (ld64 m (u + 8 * i))), pm, ph') /\
    grown X ph pm ph' pm /\ quiet ph pm ph' pm /\
    pdpt_of (ph_mem ph') pm = pdpt_of m pm /\ pd_of (ph_mem ph') pm = pd_of m pm /\
    (forall j, 0 <= j < 512 -> pt_of (ph_mem ph') pm j = pt_of m pm j).
Proof.
  intros m T W Hu Hi Hi1 D. unfold ensure_table, tbl_get. fold m. unfold descends in D.
  destruct (has (ld64 m (u + 8 * i)) PTE_P) eqn:EP; [|done]. destruct (has _ PTE_PS) eqn:EPS; [done|].
  destruct (user && negb (has (ld64 m (u + 8 * i)) PTE_US)).
  - eexists. split; [done|]. unfold pmap_invlpg, tbl_set, with_mem. cbn [ph_mem ph_pmm ph_inval]. fold m.
    destruct (promote_ok m pm u i T (upper_in _ _ _ Hu) Hi) as (T' & L & P & E1 & E2 & E3).
    { intros j t Hj E ->. destruct (pt_ne m pm T u j Hj E) as (? & ? & ?). by destruct Hu as [?|[?|?]]. }
    split; [|split; [|by split_and!]].
    + split; cbn [ph_mem ph_pmm]; fold m; [exact T'|by rewrite L|reflexivity| | |exact P|].
      * exists []. rewrite L. split; [done|]. by intros t ?%not_elem_of_nil.
      * intros a Ha. apply ld8_st64_out. specialize (Ha u). rewrite L in Ha.
        specialize (Ha (upper_in _ _ _ Hu)). unfold in_page, PAGE_SIZE in Ha. lia.
      * split; [exact E1|]. intros t k Et Hk Hk1. unfold tbl_get. cbn [ph_mem]. fold m.
        apply ld64_slot_ne; [by apply (table_good m pm T), upper_in|by apply (table_good m pm T), pdpt_in|done|done|].
        destruct (decide (u = t)) as [->|]; [right|by left]. rewrite Hi1; done.
    + by split; cbn [ph_mem].
  - exists ph. split; [done|]. split; [by apply grown_refl|]. by split_and!.
Qed.

(** The slot is empty: a fresh zeroed page, or nothing. *)
Lemma ensure_absent X ph pm u i user :
  let m := ph_mem ph in
  tree_ok m pm -> owned_by (ph_pmm ph) (frames (tables_of m pm) ⊎ X) ->
  upper m pm u -> 0 <= i < 512 -> has (ld64 m (u + 8 * i)) PTE_P = false ->
  ensure_table ph pm u i user = (None, pm, ph) \/
  exists pa s f, ensure_table ph pm u i user =
      (Some pa, with_intermediates pm (w64 (pm_intermediates pm + 1)),
       mkPhys s (st64 (zero_words 512 m pa) (u + 8 * i) (Z.lor pa f)) (ph_inval ph)) /\
    frame_pa pa /\ (pa ∉ frames (tables_of m pm) ⊎ X) /\
    owned_by s ({[+ pa +]} ⊎ (frames (tables_of m pm) ⊎ X)) /\ pmm_step (ph_pmm ph) s /\
    Z.land f PTE_PA_MASK = 0 /\ u64 f /\ has f PTE_P = true /\ has f PTE_PS = false.
Proof.
  intros m T W Hu Hi D. unfold ensure_table, tbl_get. fold m. rewrite D.
  pose proof (own_alloc _ _ W) as A. destruct (pmm_alloc_page (ph_pmm ph)) as [pa s].
  destruct A as (S & [[-> ->]|(G & Hne & _ & N & W')]).
  - left. rewrite Z.eqb_refl. by destruct ph.
  - right. destruct (pa =? PA_INVALID) eqn:?; [unfold PA_INVALID in *; lia|].
    exists pa, s, (Z.lor (Z.lor PTE_P PTE_RW) (if user then PTE_US else 0)).
    rewrite !Z.lor_assoc. split; [done|].
    assert (frame_pa pa) as Fp.
    { destruct G as (k & -> & Hk). unfold frame_pa, PAGE_SIZE. rewrite Z.mod_mul by lia. lia. }
    by destruct user; split_and!.
Qed.

Lemma next_descends m t i u :
  next m t i = Some u -> descends (ld64 m (t + 8 * i)) = true /\ table_va (ld64 m (t + 8 * i)) = u.
Proof. unfold next. destruct (descends _); [|done]. by intros [= ->]. Qed.

Lemma next_absent m t i : slot_ok (ld64 m (t + 8 * i)) -> next m t i = None -> has (ld64 m (t + 8 * i)) PTE_P = false.
Proof.
  unfold slot_ok, next, descends. destruct (has _ PTE_P); [|done]. intros ->; done.
Qed.

(** A fresh table on top of [ensure_absent], once it is linked in. *)
Lemma grown_new X ph pm n pa s m' :
  tree_ok (ph_mem ph) pm -> frame_pa pa ->
  pa ∉ frames (tables_of (ph_mem ph) pm) ⊎ X ->
  owned_by s ({[+ pa +]} ⊎ (frames (tables_of (ph_mem ph) pm) ⊎ X)) -> pmm_step (ph_pmm ph) s ->
  tree_ok m' pm -> tables_of m' pm ≡ₚ pa :: tables_of (ph_mem ph) pm ->
  (forall v, pte_of m' pm v = pte_of (ph_mem ph) pm v) ->
  (forall a, (forall t, t ∈ tables_of m' pm -> ~ in_page t a) -> ld8 m' a = ld8 (ph_mem ph) a) ->
  shared_kept ph pm (mkPhys s m' (ph_inval ph)) pm ->
  grown X ph pm (mkPhys s m' (ph_inval ph)) (with_intermediates pm n).
Proof.
  intros T Fp N W S T' L P M Sh. split; cbn [ph_mem ph_pmm].
  - by apply tree_ok_intermediates.
  - change (tables_of m' (with_intermediates pm n)) with (tables_of m' pm).
    rewrite (frames_perm _ _ L), frames_cons. by rewrite <- gmultiset_disj_union_assoc.
  - done.
  - exists [pa]. split; [exact L|]. by intros t ->%list_elem_of_singleton.
  - exact M.
  - exact P.
  - exact Sh.
Qed.

Lemma ensure_pd X ph pm t user :
  tree_ok (ph_mem ph) pm -> owned_by (ph_pmm ph) (frames (tables_of (ph_mem ph) pm) ⊎ X) ->
  pdpt_of (ph_mem ph) pm = Some t ->
  exists r pm' ph', ensure_table ph pm t 1 user = (r, pm', ph') /\ grown X ph pm ph' pm' /\
    (forall d, r = Some d -> pd_of (ph_mem ph') pm' = Some d) /\
    (pd_of (ph_mem ph) pm <> None -> r = pd_of (ph_mem ph) pm /\ pm' = pm /\ quiet ph pm ph' pm' /\
       forall j, 0 <= j < 512 -> pt_of (ph_mem ph') pm j = pt_of (ph_mem ph) pm j).
Proof.
  intros T W Et. assert (upper (ph_mem ph) pm t) as Hu by by right; left.
  assert (pd_of (ph_mem ph) pm = next (ph_mem ph) t 1) as Ed by (unfold pd_of; by rewrite Et).
  destruct (next (ph_mem ph) t 1) as [d|] eqn:En.
  - destruct (next_descends _ _ _ _ En) as [D <-].
    destruct (ensure_present X ph pm t 1 user T W Hu ltac:(lia) ltac:(done) D) as (ph' & E & G & Q & _ & E2 & E3).
    eexists _, pm, ph'. split; [apply E|]. split; [done|]. split; [intros d [= <-]; by rewrite E2|].
    intros _. by rewrite Ed.
  - pose proof (next_absent _ _ _ (tr_pdslot _ _ T t Et) En) as Ab.
    destruct (ensure_absent X ph pm t 1 user T W Hu ltac:(lia) Ab)
      as [E|(pa & s & f & E & Fp & N & W' & S & F1 & F2 & F3 & F4)].
    { exists None, pm, ph. split; [done|]. split; [by apply grown_refl|]. split; [done|by rewrite Ed]. }
    assert (pa ∉ tables_of (ph_mem ph) pm) as Nt.
    { intros ?%elem_frames. apply N, gmultiset_elem_of_disj_union. by left. }
    destruct (new_pd_ok (ph_mem ph) pm T t 1 pa f (upper_in _ _ _ Hu) ltac:(lia) Fp Nt F1 F2 F3 F4 Et eq_refl Ed)
      as (T' & L & P & E1 & E2).
    eexists (Some pa), _, _. split; [apply E|]. split; [|split; [by intros d [= <-]|by rewrite Ed]].
    apply (grown_new X ph pm _ pa s); try assumption.
    + intros a Ha. apply new_mem; try (done || lia); apply Ha; rewrite L; [by left|right; by apply upper_in].
    + split; [by rewrite Et|]. intros t' k Et' Hk Hk1. unfold tbl_get. cbn [ph_mem].
      apply (new_old_slot (ph_mem ph) pm T); try done; [by apply upper_in|by apply pdpt_in|right; lia].
Qed.

Lemma ensure_pt X ph pm d j user :
  tree_ok (ph_mem ph) pm -> owned_by (ph_pmm ph) (frames (tables_of (ph_mem ph) pm) ⊎ X) ->
  pd_of (ph_mem ph) pm = Some d -> 0 <= j < 512 ->
  exists r pm' ph', ensure_table ph pm d j user = (r, pm', ph') /\ grown X ph pm ph' pm' /\
    (forall t, r = Some t -> pt_of (ph_mem ph') pm' j = Some t) /\
    (pt_of (ph_mem ph) pm j <> None -> r = pt_of (ph_mem ph) pm j /\ quiet ph pm ph' pm').
Proof.
  intros T W Ed Hj. assert (upper (ph_mem ph) pm d) as Hu by by right; right.
  assert (pt_of (ph_mem ph) pm j = next (ph_mem ph) d j) as Et by (unfold pt_of; by rewrite Ed).
  destruct (next (ph_mem ph) d j) as [t|] eqn:En.
  - destruct (next_descends _ _ _ _ En) as [D <-].
    destruct (ensure_present X ph pm d j user T W Hu Hj ltac:(intros E; by destruct (pd_ne _ _ T d Ed)) D) as (ph' & E & G & Q & _ & _ & E3).
    eexists _, pm, ph'. split; [apply E|]. split; [done|]. split; [intros u [= <-]; by rewrite E3|].
    intros _. by rewrite Et.
  - pose proof (next_absent _ _ _ (tr_ptslot _ _ T d j Ed Hj) En) as Ab.
    destruct (ensure_absent X ph pm d j user T W Hu Hj Ab)
      as [E|(pa & s & f & E & Fp & N & W' & S & F1 & F2 & F3 & F4)].
    { exists None, pm, ph. split; [done|]. split; [by apply grown_refl|]. split; [done|by rewrite Et]. }
    assert (pa ∉ tables_of (ph_mem ph) pm) as Nt.
    { intros ?%elem_frames. apply N, gmultiset_elem_of_disj_union. by left. }
    destruct (new_pt_ok (ph_mem ph) pm T d j pa f (upper_in _ _ _ Hu) Hj Fp Nt F1 F2 F3 F4 Ed Et)
      as (T' & L & P & E1 & E2).
    eexists (Some pa), _, _. split; [apply E|]. split; [|split; [by intros t [= <-]|by rewrite Et]].
    apply (grown_new X ph pm _ pa s); try assumption.
    + intros a Ha. apply new_mem; try (done || lia); apply Ha; rewrite L; [by left|right; by apply upper_in].
    + split; [exact E1|]. intros t' k Et' Hk Hk1. unfold tbl_get. cbn [ph_mem].
      apply (new_old_slot (ph_mem ph) pm T); try done; [by apply upper_in|by apply pdpt_in|left].
      intros ->. by destruct (pd_ne _ _ T t' Ed).
Qed.

(** * [pmap_enter], [pmap_remove] and [pmap_extract] *)

Lemma leaf_pte m pm v : leaf_of m pm v = None <-> pte_of m pm v = None.
Proof. unfold leaf_of. by destruct (pte_of m pm v). Qed.

Lemma pte_present_tables m pm v : pte_of m pm v <> None -> pd_of m pm <> None /\ pt_of m pm (pd_idx v) <> None.
Proof. unfold pte_of, pt_of. destruct (pd_of m pm) as [d|]; cbn; [|done]. by destruct (next m d _). Qed.

Lemma refused X ph pm va lf ph' pm' :
  grown X ph pm ph' pm' -> pte_of (ph_mem ph) pm va = None ->
  entered tree_ok tables_of leaf_of ph pm va lf X false pm' ph' /\ shared_kept ph pm ph' pm'.
Proof.
  intros [T W S Tb M P Sh] N. split; [|exact Sh]. split; [exact T|exact W|exact S|exact Tb|exact M|..].
  - intros v _. cbn. unfold leaf_of. by rewrite P.
  - intros H. by apply leaf_pte in N.
Qed.

(** The final store of [pmap_enter_locked]. *)
Lemma installed X ph pm va pa prot ph' pm' t :
  grown X ph pm ph' pm' -> upage va -> frame_pa pa ->
  pt_of (ph_mem ph') pm' (pd_idx va) = Some t ->
  (pte_of (ph_mem ph) pm va <> None -> quiet ph pm ph' pm') ->
  let ph2 := tbl_set ph' t (pt_idx va) (Z.lor (Z.land pa PTE_PA_MASK) (leaf_flags prot)) in
  exists pm2 ph3,
    (if has (tbl_get ph' t (pt_idx va)) PTE_P then Done (true, pm', pmap_invlpg ph2 va)
     else Done (true, with_leafs pm' (w64 (pm_leafs pm' + 1)), ph2)) = Done (true, pm2, ph3) /\
    entered tree_ok tables_of leaf_of ph pm va (leaf_for pa prot) X true pm2 ph3 /\
    shared_kept ph pm ph3 pm2.
Proof.
  intros G Hva [Hpa Apa] Et Q. pose proof (gr_tree _ _ _ _ _ G) as T. cbv zeta.
  destruct (leaf_flags_ok prot) as (F0 & F1 & FP & FRW & FNX & FUS).
  rewrite land_pa_mask by (done || lia).
  set (e := Z.lor pa (leaf_flags prot)). set (ph2 := tbl_set ph' t (pt_idx va) e).
  assert (u64 e) as He by (apply u64_lor_both; [unfold u64; lia|done]).
  assert (forall b, Z.land b PTE_PA_MASK = 0 -> has e b = has (leaf_flags prot) b) as Hb.
  { intros b B. apply pte_has; done || lia. }
  assert (table_va e = pa) as Ev by (apply pte_table_va; done || lia).
  destruct (set_leaf (ph_mem ph') pm' va t e T Hva Et He) as (T2 & L2 & P2); [rewrite Ev; lia|].
  rewrite Hb, FP in T2, P2, L2 by done. cbn [Z.b2z] in T2, P2, L2.
  assert (bool_decide (is_Some (pte_of (ph_mem ph') pm' va)) = has (tbl_get ph' t (pt_idx va)) PTE_P) as Eo.
  { unfold pte_of, tbl_get. rewrite Et. cbn [mbind option_bind].
    destruct (has (ld64 (ph_mem ph') (t + 8 * pt_idx va)) PTE_P);
      [by apply bool_decide_eq_true_2|apply bool_decide_eq_false_2; by intros []]. }
  assert (0 <= pm_leafs pm' <= 2 ^ 18) as Hlf by (rewrite (tr_leafs _ _ T); apply leaf_count_range).
  set (n := pm_leafs pm' + 1 - Z.b2z (has (tbl_get ph' t (pt_idx va)) PTE_P)).
  assert (exists inv, (if has (tbl_get ph' t (pt_idx va)) PTE_P then Done (true, pm', pmap_invlpg ph2 va)
     else Done (true, with_leafs pm' (w64 (pm_leafs pm' + 1)), ph2)) =
     Done (true, with_leafs pm' n, mkPhys (ph_pmm ph') (ph_mem ph2) inv) /\
     (has (tbl_get ph' t (pt_idx va)) PTE_P = true -> va ∈ inv)) as (inv & -> & Hinv).
  { subst n. destruct (has (tbl_get ph' t (pt_idx va)) PTE_P); cbn [Z.b2z]; eexists; (split; [|]).
    - replace (pm_leafs pm' + 1 - 1) with (pm_leafs pm') by lia. destruct pm'. reflexivity.
    - intros _. by left.
    - rewrite w64_small, Z.sub_0_r by lia. reflexivity.
    - discriminate. }
  rewrite Eo in T2, P2, L2. fold n in T2, P2, L2.
  eexists _, _. split; [reflexivity|]. destruct G as [_ W S (fr & L & Fr) M P Sh].
  assert (t ∈ tables_of (ph_mem ph') pm') as Ht by by apply (pt_in _ _ _ (pd_idx va)); [apply idx_range|].
  split; [split|]; cbn [ph_mem ph_pmm ph_inval ph2 tbl_set with_mem].
  - exact T2.
  - rewrite L2. exact W.
  - exact S.
  - exists fr. rewrite L2. split; [exact L|exact Fr].
  - intros a Ha. rewrite L2 in Ha. rewrite ld8_st64_out; [by apply M|].
    specialize (Ha t Ht). destruct (idx_range va) as [_ ?]. unfold in_page, PAGE_SIZE in Ha. lia.
  - intros v Hv. cbn [andb]. unfold leaf_of. rewrite P2, P by done. destruct (v =? va); [|done]. cbn.
    unfold leaf_of_pte, leaf_for. by rewrite Ev, !Hb, FRW, FNX, FUS, negb_involutive.
  - rewrite leaf_pte. intros Hp. rewrite L2. destruct (Q Hp) as [-> ->]. split_and!; [reflexivity..|].
    apply Hinv. rewrite <- Eo, P. apply bool_decide_eq_true_2. by destruct (pte_of (ph_mem ph) pm va).
  - destruct (idx_range va) as [I1 I2]. destruct (pt_ne _ _ T t _ I1 Et) as (N1 & N2 & N3).
    assert (forall t' k, t' ∈ tables_of (ph_mem ph') pm' -> t <> t' -> 0 <= k < 512 ->
      ld64 (st64 (ph_mem ph') (t + 8 * pt_idx va) e) (t' + 8 * k) = ld64 (ph_mem ph') (t' + 8 * k)) as Slot.
    { intros t' k Ht' Hn Hk. apply ld64_slot_ne; [by apply (table_good _ _ T)..|exact I2|exact Hk|by left]. }
    apply (shared_kept_trans _ _ _ _ _ _ Sh). split.
    + apply next_ext, Slot; [apply root_in|exact N1|lia].
    + intros t' k Et' Hk _. unfold tbl_get. apply Slot; [by apply pdpt_in| |exact Hk]. intros ->. done.
Qed.

Lemma upage_land va : upage va -> (Z.land va PAGE_MASK =? 0) = true.
Proof. intros [_ A]. rewrite page_aligned. unfold aligned, VM_PAGE_SIZE, PAGE_SIZE in *. lia. Qed.

Lemma pmap_enter_full ph pm va pa prot X :
  tree_ok (ph_mem ph) pm -> owned_by (ph_pmm ph) (frames (tables_of (ph_mem ph) pm) ⊎ X) ->
  upage va -> frame_pa pa ->
  exists ok pm' ph', pmap_enter_locked ph pm va pa prot = Done (ok, pm', ph') /\
    entered tree_ok tables_of leaf_of ph pm va (leaf_for pa prot) X ok pm' ph' /\ shared_kept ph pm ph' pm'.
Proof.
  intros T W Hva Hpa. unfold pmap_enter_locked.
  rewrite !KASSERT_true by (try (by apply upage_land); rewrite page_aligned; destruct Hpa; lia).
  destruct (upage_idx va Hva) as (-> & -> & _). destruct (idx_range va) as [I1 I2].
  destruct (tr_pdpt _ _ T) as [t Et]. destruct (next_descends _ _ _ _ Et) as [D Ev].
  destruct (ensure_present X ph pm (pm_pml4_pa pm) 0 (has prot VM_PROT_USER) T W ltac:(by left) ltac:(lia)
    ltac:(intros E; by destruct (root_ne_pdpt _ _ T _ E)) D) as (ph1 & -> & G1 & Q1 & Ep & Ed & Ept). rewrite Ev.
  destruct (ensure_pd X ph1 pm t (has prot VM_PROT_USER)) as (r2 & pm2 & ph2 & -> & G2 & R2 & Q2);
    [apply G1|apply G1|by rewrite Ep|].
  assert (pte_of (ph_mem ph) pm va <> None -> pd_of (ph_mem ph1) pm <> None /\ pt_of (ph_mem ph1) pm (pd_idx va) <> None) as Pr.
  { intros ?%pte_present_tables. by rewrite Ed, Ept. }
  destruct r2 as [d|]; cycle 1.
  { eexists false, _, _. split; [done|]. apply refused; [by eapply grown_trans|].
    destruct (pte_of (ph_mem ph) pm va) eqn:Eo; [|done]. destruct Pr as [Pd _]; [done|].
    destruct (Q2 Pd) as [E _]. by rewrite <- E in Pd. }
  destruct (ensure_pt X ph2 pm2 d (pd_idx va) (has prot VM_PROT_USER)) as (r3 & pm3 & ph3 & -> & G3 & R3 & Q3);
    [apply G2|apply G2|by apply R2|done|].
  assert (pte_of (ph_mem ph) pm va <> None -> pt_of (ph_mem ph2) pm2 (pd_idx va) <> None /\ quiet ph pm ph2 pm2) as Pr2.
  { intros [Pd Pt]%Pr. destruct (Q2 Pd) as (_ & -> & Q & E). rewrite E by done. split; [done|].
    by eapply quiet_trans. }
  destruct r3 as [pt|]; cycle 1.
  { eexists false, _, _. split; [done|]. apply refused; [by eapply grown_trans; [|eapply grown_trans]|].
    destruct (pte_of (ph_mem ph) pm va) eqn:Eo; [|done]. destruct Pr2 as [Pt _]; [done|].
    destruct (Q3 Pt) as [E _]. by rewrite <- E in Pt. }
  destruct (installed X ph pm va pa prot ph3 pm3 pt) as (pm4 & ph4 & E & En);
    [by eapply grown_trans; [|eapply grown_trans]|exact Hva|exact Hpa|by apply R3| |].
  - intros [Pt Qt]%Pr2. destruct (Q3 Pt) as [_ Q]. by eapply quiet_trans.
  - exists true, pm4, ph4. by split.
Qed.

Lemma pmap_enter_ok ph pm va pa prot X :
  tree_ok (ph_mem ph) pm -> owned_by (ph_pmm ph) (frames (tables_of (ph_mem ph) pm) ⊎ X) ->
  upage va -> frame_pa pa ->
  exists ok pm' ph', pmap_enter_locked ph pm va pa prot = Done (ok, pm', ph') /\
    entered tree_ok tables_of leaf_of ph pm va (leaf_for pa prot) X ok pm' ph'.
Proof.
  intros T W Hva Hpa. destruct (pmap_enter_full ph pm va pa prot X T W Hva Hpa) as (ok & pm' & ph' & E & En & _).
  eauto.
Qed.

(** The walk of [pmap_remove_locked] and [pmap_extract_locked]. *)
Lemma pt_of_walk m pm va :
  upage va ->
  pt_of m pm (pd_idx va) =
    (let e := ld64 m (pm_pml4_pa pm + 8 * pml4_idx va) in
     if descends e then
       let e := ld64 m (table_va e + 8 * pdpt_idx va) in
       if descends e then
         let e := ld64 m (table_va e + 8 * pd_idx va) in
         if descends e then Some (table_va e) else None
       else None
     else None).
Proof.
  intros Hva. destruct (upage_idx va Hva) as (-> & -> & _).
  unfold pt_of, pd_of, pdpt_of, next. cbv zeta.
  destruct (descends (ld64 m (pm_pml4_pa pm + 8 * 0))); [|reflexivity].
  cbn [mbind option_bind].
  by destruct (descends (ld64 m (table_va (ld64 m (pm_pml4_pa pm + 8 * 0)) + 8 * 1))).
Qed.

Lemma pmap_remove_eq ph pm va :
  upage va ->
  pmap_remove_locked ph pm va =
    match pt_of (ph_mem ph) pm (pd_idx va) with
    | Some t =>
        if has (tbl_get ph t (pt_idx va)) PTE_P
        then (true, with_leafs pm (w64 (pm_leafs pm - 1)), pmap_invlpg (tbl_set ph t (pt_idx va) 0) va)
        else (false, pm, ph)
    | None => (false, pm, ph)
    end.
Proof.
  intros Hva. rewrite pt_of_walk by done. unfold pmap_remove_locked, tbl_get. cbv zeta.
  repeat (destruct (descends _); cbn [negb]; [|reflexivity]). by destruct (has _ PTE_P).
Qed.

Lemma removed_absent ph pm va :
  tree_ok (ph_mem ph) pm -> leaf_of (ph_mem ph) pm va = None ->
  exists pm' ph', (false, pm, ph) = (bool_decide (leaf_of (ph_mem ph) pm va <> None), pm', ph') /\
    removed tree_ok tables_of leaf_of ph pm va pm' ph' /\ shared_kept ph pm ph' pm'.
Proof.
  intros T N. exists pm, ph. rewrite N. split; [done|].
  split; [|apply shared_kept_refl]. split; [exact T|reflexivity|reflexivity|reflexivity| |by rewrite N].
  intros v Hv. by destruct (Z.eqb_spec v va) as [->|].
Qed.

Lemma pmap_remove_full ph pm va :
  tree_ok (ph_mem ph) pm -> upage va ->
  exists pm' ph', pmap_remove_locked ph pm va = (bool_decide (leaf_of (ph_mem ph) pm va <> None), pm', ph') /\
    removed tree_ok tables_of leaf_of ph pm va pm' ph' /\ shared_kept ph pm ph' pm'.
Proof.
  intros T Hva. rewrite pmap_remove_eq by done.
  destruct (pt_of (ph_mem ph) pm (pd_idx va)) as [t|] eqn:Et;
    [|apply removed_absent; [exact T|]; apply leaf_pte; unfold pte_of; by rewrite Et].
  destruct (has (tbl_get ph t (pt_idx va)) PTE_P) eqn:EP;
    [|apply removed_absent; [exact T|]; apply leaf_pte; unfold pte_of; rewrite Et; cbn; unfold tbl_get in EP; by rewrite EP].
  assert (is_Some (pte_of (ph_mem ph) pm va)) as Pr.
  { unfold pte_of. rewrite Et. cbn. unfold tbl_get in EP. by rewrite EP. }
  destruct (set_leaf (ph_mem ph) pm va t 0 T Hva Et ltac:(done) ltac:(done)) as (T2 & L2 & P2).
  rewrite bool_decide_true in T2, L2, P2 by done. change (has 0 PTE_P) with false in *.
  cbn [Z.b2z] in T2, L2, P2.
  assert (0 < pm_leafs pm <= 2 ^ 18) as Hlf.
  { rewrite (tr_leafs _ _ T). pose proof (leaf_count_range (ph_mem ph) pm). split; [|lia].
    pose proof (tr_leafs _ _ T2) as E2. cbn [pm_leafs with_leafs] in E2.
    rewrite (tr_leafs _ _ T) in E2 at 1.
    pose proof (leaf_count_range (st64 (ph_mem ph) (t + 8 * pt_idx va) 0) (with_leafs pm (pm_leafs pm + 0 - 1))).
    lia. }
  replace (pm_leafs pm + 0 - 1) with (w64 (pm_leafs pm - 1)) in T2, L2, P2 by (rewrite w64_small; lia).
  assert (t ∈ tables_of (ph_mem ph) pm) as Ht by by apply (pt_in _ _ _ (pd_idx va)); [apply idx_range|].
  eexists (with_leafs pm (w64 (pm_leafs pm - 1))), (pmap_invlpg (tbl_set ph t (pt_idx va) 0) va).
  split; [|split; [split; [exact T2|exact L2|reflexivity|..]|]].
  - f_equal. f_equal. symmetry. apply bool_decide_eq_true_2. rewrite leaf_pte. by apply not_eq_None_Some.
  - intros a Ha. cbn [pmap_invlpg tbl_set with_mem ph_mem]. apply ld8_st64_out.
    specialize (Ha t Ht). destruct (idx_range va) as [_ ?]. unfold in_page, PAGE_SIZE in Ha. lia.
  - intros v Hv. unfold leaf_of. cbn [pmap_invlpg tbl_set with_mem ph_mem]. rewrite P2 by done.
    by destruct (v =? va).
  - intros _. by left.
  - destruct (idx_range va) as [I1 I2]. destruct (pt_ne _ _ T t _ I1 Et) as (N1 & N2 & N3).
    assert (forall t' k, t' ∈ tables_of (ph_mem ph) pm -> t <> t' -> 0 <= k < 512 ->
      ld64 (st64 (ph_mem ph) (t + 8 * pt_idx va) 0) (t' + 8 * k) = ld64 (ph_mem ph) (t' + 8 * k)) as Slot.
    { intros t' k Ht' Hn Hk. apply ld64_slot_ne; [by apply (table_good _ _ T)..|exact I2|exact Hk|by left]. }
    split.
    + apply next_ext, Slot; [apply root_in|exact N1|lia].
    + intros t' k Et' Hk _. unfold tbl_get. apply Slot; [by apply pdpt_in| |exact Hk]. intros ->. done.
Qed.

Lemma pmap_remove_ok ph pm va :
  tree_ok (ph_mem ph) pm -> upage va ->
  exists pm' ph', pmap_remove_locked ph pm va = (bool_decide (leaf_of (ph_mem ph) pm va <> None), pm', ph') /\
    removed tree_ok tables_of leaf_of ph pm va pm' ph'.
Proof.
  intros T Hva. destruct (pmap_remove_full ph pm va T Hva) as (pm' & ph' & E & R & _). eauto.
Qed.

Lemma pmap_extract_ok ph pm v :
  tree_ok (ph_mem ph) pm -> upage v ->
  pmap_extract_locked ph pm v =
    match leaf_of (ph_mem ph) pm v with Some lf => lf_pa lf | None => PA_INVALID end.
Proof.
  intros T Hv. destruct (tr_pdpt _ _ T) as [t Et]. destruct (next_descends _ _ _ _ Et) as [D1 E1].
  destruct (upage_idx v Hv) as (H1 & H2 & _). destruct (idx_range v) as [I1 I2].
  assert (forall e, descends e = true -> has e PTE_P = true /\ has e PTE_PS = false) as Dn.
  { intros e. unfold descends. by destruct (has e PTE_P), (has e PTE_PS). }
  unfold pmap_extract_locked, leaf_of, pte_of, pt_of, pd_of. rewrite Et. rewrite H1, H2. unfold tbl_get.
  destruct (Dn _ D1) as [-> _]. rewrite E1. cbn [negb mbind option_bind].
  destruct (next (ph_mem ph) t 1) as [d|] eqn:E2.
  - destruct (next_descends _ _ _ _ E2) as [D2 F2]. destruct (Dn _ D2) as [-> ->]. rewrite F2. cbn [negb mbind option_bind].
    assert (pd_of (ph_mem ph) pm = Some d) as Ed by (unfold pd_of; rewrite Et; exact E2).
    destruct (next (ph_mem ph) d (pd_idx v)) as [p|] eqn:E3.
    + destruct (next_descends _ _ _ _ E3) as [D3 F3]. destruct (Dn _ D3) as [-> ->]. rewrite F3. cbn [negb mbind option_bind].
      destruct (has (ld64 (ph_mem ph) (p + 8 * pt_idx v)) PTE_P); cbn [negb fmap option_fmap option_map];
        [|reflexivity].
      pose proof (upage_land v Hv) as Al. apply Z.eqb_eq in Al. rewrite Al. apply Z.lor_0_r.
    + by rewrite (next_absent _ _ _ (tr_ptslot _ _ T d _ Ed I1) E3).
  - by rewrite (next_absent _ _ _ (tr_pdslot _ _ T t Et) E2).
Qed.

(** * The instance *)

#[global] Instance amd64_pmap : PmapOps pmap := {
  pm_enter := pmap_enter_locked;
  pm_remove := pmap_remove_locked;
  pm_extract := pmap_extract_locked;
}.

#[global, program] Instance amd64_pmap_spec : PmapSpec pmap := {
  pm_inv := tree_ok;
  pm_tables := tables_of;
  pm_leaf := leaf_of;
  pm_nodup := tr_nodup;
  pm_extract_ok := pmap_extract_ok;
  pm_enter_ok := pmap_enter_ok;
  pm_remove_ok := pmap_remove_ok;
}.
Next Obligation.
  intros m pm v lf T Hv. unfold leaf_of. destruct (pte_of m pm v) as [e|] eqn:E; [|done].
  intros [= <-]. cbn. pose proof (tr_leaf m pm T v e Hv E). pose proof (table_va_range e).
  unfold frame_pa. split; [lia|apply table_va_range].
Qed.
Next Obligation.
  intros m m' pm T S. destruct (tree_local m m' pm T S) as (T' & L & P).
  split; [done|split; [done|]]. intros v _. unfold leaf_of. by rewrite P.
Qed.

(** * Creation and teardown *)

Lemma page_apart t1 t2 a : frame_pa t1 -> frame_pa t2 -> t1 <> t2 -> in_page t1 a -> ~ in_page t2 a.
Proof. unfold frame_pa, in_page, PAGE_SIZE. intros [_ A1] [_ A2] N H1 H2. Z.div_mod_to_equations. lia. Qed.

Lemma tbl_set_mem ph t i e a : 0 <= i < 512 -> ~ in_page t a -> ld8 (ph_mem (tbl_set ph t i e)) a = ld8 (ph_mem ph) a.
Proof. intros Hi N. cbn. apply ld8_st64_out. unfold in_page, PAGE_SIZE in N. lia. Qed.

Lemma tbl_get_set ph t i u k e :
  frame_pa t -> frame_pa u -> 0 <= i < 512 -> 0 <= k < 512 -> u64 e ->
  tbl_get (tbl_set ph t i e) u k = if (u =? t) && (k =? i) then e else tbl_get ph u k.
Proof.
  intros Ft Fu Hi Hk He. unfold tbl_get. cbn [tbl_set with_mem ph_mem].
  destruct ((u =? t) && (k =? i)) eqn:E.
  - replace u with t by lia. replace k with i by lia. by rewrite ld64_st64_eq.
  - apply ld64_slot_ne; try done. lia.
Qed.

Lemma copy_entries_ok n ph dst src i :
  frame_pa dst -> frame_pa src -> dst <> src -> 0 <= i -> i + Z.of_nat n <= 512 ->
  let ph' := copy_entries n ph dst src i in
  ph_pmm ph' = ph_pmm ph /\ (forall a, ~ in_page dst a -> ld8 (ph_mem ph') a = ld8 (ph_mem ph) a) /\
  (forall k, 0 <= k < 512 -> tbl_get ph' dst k =
     if (i <=? k) && (k <? i + Z.of_nat n) then tbl_get ph src k else tbl_get ph dst k).
Proof.
  intros Fd Fs N. revert ph i. induction n as [|n IH]; intros ph i Hi Hn; cbn [copy_entries].
  { split_and!; [done|done|]. intros k Hk. by destruct ((i <=? k) && _) eqn:?; [lia|]. }
  set (ph1 := tbl_set ph dst i (tbl_get ph src i)).
  destruct (IH ph1 (i + 1) ltac:(lia) ltac:(lia)) as (P & M & E). split_and!.
  - by rewrite P.
  - intros a Ha. rewrite M by done. apply tbl_set_mem; [lia|done].
  - intros k Hk. rewrite E by done. unfold ph1.
    rewrite !tbl_get_set by (done || lia || apply ld64_range).
    destruct (src =? dst) eqn:?; [lia|]. rewrite Z.eqb_refl. cbn [andb].
    destruct ((i + 1 <=? k) && (k <? i + 1 + Z.of_nat n)) eqn:?, (k =? i) eqn:?,
      ((i <=? k) && (k <? i + Z.of_nat (S n))) eqn:?; try done; try lia. by replace k with i by lia.
Qed.

Lemma zero_both_ok n ph t1 t2 i :
  0 <= i -> i + Z.of_nat n <= 512 ->
  let ph' := zero_both n ph t1 t2 i in
  ph_pmm ph' = ph_pmm ph /\ (forall a, ~ in_page t1 a -> ~ in_page t2 a -> ld8 (ph_mem ph') a = ld8 (ph_mem ph) a).
Proof.
  revert ph i. induction n as [|n IH]; intros ph i Hi Hn; cbn [zero_both]; [done|].
  destruct (IH (tbl_set (tbl_set ph t1 i 0) t2 i 0) (i + 1) ltac:(lia) ltac:(lia)) as (P & M).
  split; [by rewrite P|]. intros a H1 H2. rewrite M by done. rewrite !tbl_set_mem by (done || lia). done.
Qed.

#[global] Opaque zero_both copy_entries.

Lemma tbl_get_ext ph ph' t k :
  0 <= k < 512 -> (forall a, in_page t a -> ld8 (ph_mem ph') a = ld8 (ph_mem ph) a) -> tbl_get ph' t k = tbl_get ph t k.
Proof. intros Hk E. apply ld64_ext. intros x Hx. apply E. by apply (slot_in_page t k). Qed.

(** The kernel's own tree: its root, its PDPT 0, and an empty user slot. *)
Record kernel_ok (ph : phys) (kpm : pmap) (kpdpt : Z) (X : gmultiset Z) : Prop := {
  ke_root : frame_pa (pm_pml4_pa kpm);
  ke_descends : descends (tbl_get ph (pm_pml4_pa kpm) 0) = true;
  ke_pdpt : table_va (tbl_get ph (pm_pml4_pa kpm) 0) = kpdpt;
  ke_pdpt_pa : frame_pa kpdpt;
  ke_ne : kpdpt <> pm_pml4_pa kpm;
  ke_user : has (tbl_get ph kpdpt 1) PTE_P = false;
  ke_held : forall t, t = pm_pml4_pa kpm \/ t = kpdpt -> t ∈ X \/ reserved (ph_pmm ph) t;
}.

(** Outside the user slot the private PDPT is a copy of the kernel's. *)
Definition kernel_shared (ph : phys) (kpdpt : Z) (pm : pmap) : Prop :=
  forall t i, pdpt_of (ph_mem ph) pm = Some t -> 0 <= i < 512 -> i <> 1 -> tbl_get ph t i = tbl_get ph kpdpt i.

Lemma leaf_count_none m pm : (forall v, upage v -> pte_of m pm v = None) -> leaf_count m pm = 0.
Proof.
  intros N. Transparent leaf_count. unfold leaf_count. Opaque leaf_count.
  rewrite (count_upto_ext _ (fun _ => false)), count_upto_const; [done|].
  rewrite upage_total_eq. intros i Hi. apply bool_decide_eq_false_2. rewrite N; [by intros []|].
  unfold upage, upage_no, aligned, VM_PAGE_SIZE, PAGE_SIZE, VM_USER_VA_LO, VM_USER_VA_HI.
  Z.div_mod_to_equations. lia.
Qed.

(** A tree with a PDPT and nothing in its user slot. *)
Lemma fresh_tree m root pdpt inter k :
  frame_pa root -> frame_pa pdpt -> root <> pdpt -> next m root 0 = Some pdpt ->
  has (ld64 m (pdpt + 8 * 1)) PTE_P = false ->
  let pm := mkPmap root 0 inter k in
  tree_ok m pm /\ tables_of m pm = [root; pdpt] /\ forall v, leaf_of m pm v = None.
Proof.
  intros Fr Fp N En Ab pm. assert (pdpt_of m pm = Some pdpt) as Ep by exact En.
  assert (pd_of m pm = None) as Ed.
  { unfold pd_of. rewrite Ep. cbn. unfold next, descends. by rewrite Ab. }
  assert (forall j, pt_of m pm j = None) as Et by (intros j; unfold pt_of; by rewrite Ed).
  assert (forall v, pte_of m pm v = None) as Epte by (intros v; unfold pte_of; by rewrite Et).
  assert (tables_of m pm = [root; pdpt]) as L.
  { unfold tables_of. rewrite Ep, Ed. cbn. by rewrite omap_none_in by (intros; apply Et). }
  split_and!; [|exact L|intros v; by apply leaf_pte]. split.
  - by rewrite Ep.
  - intros t. rewrite Ep. intros [= <-]. unfold slot_ok. by rewrite Ab.
  - intros t j. by rewrite Ed.
  - rewrite L. apply list.NoDup_cons. split; [by intros ?%list_elem_of_singleton|apply NoDup_singleton].
  - rewrite L. repeat constructor; apply Fr || apply Fp.
  - intros v e _. by rewrite Epte.
  - symmetry. apply leaf_count_none. intros v _. apply Epte.
Qed.

Lemma good_frame_pa pa : good_frame pa -> frame_pa pa.
Proof. intros (k & -> & Hk). unfold frame_pa, PAGE_SIZE. rewrite Z.mod_mul by lia. lia. Qed.

(** The stores of [pmap_create], once both pages are there. *)
Lemma create_fill n0 n1 n2 ph kpm kpdpt pml4 pdpt X :
  Z.of_nat n0 <= 512 -> Z.of_nat n1 = 511 -> Z.of_nat n2 = 512 ->
  kernel_ok ph kpm kpdpt X -> frame_pa pml4 -> frame_pa pdpt -> pml4 <> pdpt ->
  (forall t, t = pm_pml4_pa kpm \/ t = kpdpt -> t <> pml4 /\ t <> pdpt) ->
  let ph1 := zero_both n0 ph pml4 pdpt 0 in
  let ph2 := copy_entries n1 ph1 pml4 (pm_pml4_pa kpm) 1 in
  let e := tbl_get ph2 (pm_pml4_pa kpm) 0 in
  let ph3 := copy_entries n2 ph2 pdpt (Z.land e PTE_PA_MASK) 0 in
  let ph4 := tbl_set ph3 pml4 0 (Z.lor (Z.lor (Z.lor pdpt PTE_P) PTE_RW) PTE_US) in
  negb (has e PTE_P) || has e PTE_PS = false /\ ph_pmm ph2 = ph_pmm ph /\ ph_pmm ph4 = ph_pmm ph /\
  (forall a, ~ in_page pml4 a -> ~ in_page pdpt a -> ld8 (ph_mem ph4) a = ld8 (ph_mem ph) a) /\
  next (ph_mem ph4) pml4 0 = Some pdpt /\
  (forall i, 0 <= i < 512 -> tbl_get ph4 pdpt i = tbl_get ph kpdpt i).
Proof.
  intros Hn0 Hn1 Hn2 K Fm Fp N Apart ph1 ph2 e ph3 ph4. pose proof (ke_root _ _ _ _ K) as Fk. pose proof (ke_pdpt_pa _ _ _ _ K) as Fkp.
  destruct (Apart (pm_pml4_pa kpm) ltac:(by left)) as [Nk1 Nk2]. destruct (Apart kpdpt ltac:(by right)) as [Np1 Np2].
  destruct (zero_both_ok n0 ph pml4 pdpt 0 ltac:(lia) ltac:(lia)) as (P1 & M1). fold ph1 in P1, M1.
  destruct (copy_entries_ok n1 ph1 pml4 (pm_pml4_pa kpm) 1 Fm Fk ltac:(congruence) ltac:(lia) ltac:(lia)) as (P2 & M2 & _).
  fold ph2 in P2, M2.
  assert (forall t k, t = pm_pml4_pa kpm \/ t = kpdpt -> 0 <= k < 512 -> tbl_get ph2 t k = tbl_get ph t k) as Kern.
  { intros t k Ht Hk. destruct (Apart t Ht) as [H1 H2]. assert (frame_pa t) by by destruct Ht as [->| ->].
    apply tbl_get_ext; [done|]. intros a Ha. rewrite M2, M1 by (apply (page_apart t); assumption). reflexivity. }
  assert (e = tbl_get ph (pm_pml4_pa kpm) 0) as Ee by (apply Kern; [by left|lia]).
  pose proof (ke_descends _ _ _ _ K) as D. rewrite <- Ee in D.
  assert (Z.land e PTE_PA_MASK = kpdpt) as Ek by (rewrite Ee; apply (ke_pdpt _ _ _ _ K)).
  destruct (copy_entries_ok n2 ph2 pdpt (Z.land e PTE_PA_MASK) 0 Fp ltac:(by rewrite Ek) ltac:(rewrite Ek; congruence)
    ltac:(lia) ltac:(lia)) as (P3 & M3 & E3). fold ph3 in P3, M3, E3.
  assert (u64 (Z.lor (Z.lor (Z.lor pdpt PTE_P) PTE_RW) PTE_US)) as Hu.
  { clear -Fp. apply u64_lor_both; [apply u64_lor_both; [apply u64_lor_both|]|]; [|done..].
    destruct Fp. unfold u64. lia. }
  split_and!.
  - unfold descends in D. destruct (negb (has e PTE_P) || has e PTE_PS); [discriminate D|reflexivity].
  - rewrite P2. exact P1.
  - cbn [ph4 tbl_set with_mem ph_pmm]. rewrite P3, P2. exact P1.
  - intros a H1 H2. unfold ph4. rewrite tbl_set_mem by (assumption || lia). rewrite M3, M2, M1 by assumption. reflexivity.
  - unfold next. change (ld64 (ph_mem ph4) (pml4 + 8 * 0)) with (tbl_get ph4 pml4 0). unfold ph4.
    rewrite tbl_get_set by (assumption || lia). rewrite Z.eqb_refl. cbn [andb Z.eqb].
    destruct Fp as [? ?]. rewrite <- !Z.lor_assoc. unfold descends.
    rewrite (pte_has pdpt _ PTE_P), (pte_has pdpt _ PTE_PS), (pte_table_va pdpt) by (reflexivity || lia).
    reflexivity.
  - intros i Hi. unfold ph4. rewrite tbl_get_set by (assumption || lia).
    destruct ((pdpt =? pml4) && (i =? 0)) eqn:?; [lia|]. rewrite E3 by assumption.
    destruct ((0 <=? i) && (i <? 0 + Z.of_nat n2)) eqn:?; [|lia]. rewrite Ek. apply Kern; [by right|assumption].
Qed.

Lemma frames_two a b X : frames [a; b] ⊎ X = {[+ b +]} ⊎ ({[+ a +]} ⊎ X).
Proof. rewrite !frames_cons. change (frames []) with (∅ : gmultiset Z). multiset_solver. Qed.

Lemma pmap_create_ok ph kpm kpdpt h X :
  kernel_ok ph kpm kpdpt X -> owned_by (ph_pmm ph) X ->
  exists r ph' h', pmap_create ph kpm h = Done (r, ph', h') /\ pmm_step (ph_pmm ph) (ph_pmm ph') /\
    match r with
    | None => owned_by (ph_pmm ph') X /\ ph_mem ph' = ph_mem ph
    | Some pm =>
        tree_ok (ph_mem ph') pm /\ owned_by (ph_pmm ph') (frames (tables_of (ph_mem ph') pm) ⊎ X) /\
        pm_is_kernel pm = false /\
        (forall v, leaf_of (ph_mem ph') pm v = None) /\ kernel_shared ph' kpdpt pm /\
        (forall t, t ∈ tables_of (ph_mem ph') pm -> t ∉ X) /\
        (forall a, (forall t, t ∈ tables_of (ph_mem ph') pm -> ~ in_page t a) ->
           ld8 (ph_mem ph') a = ld8 (ph_mem ph) a)
    end.
Proof.
  intros K W. unfold pmap_create. destruct (kmalloc_ok h) as [ok h']. destruct ok; cbn [negb]; cycle 1.
  { exists None, ph, h'. done. }
  pose proof (own_alloc _ _ W) as A. destruct (pmm_alloc_page (ph_pmm ph)) as [pml4 s1].
  destruct A as (S1 & [[-> ->]|(G1 & Hne1 & R1 & N1 & W1)]).
  { rewrite Z.eqb_refl. exists None, ph, h'. by destruct ph. }
  destruct (pml4 =? PA_INVALID) eqn:?; [lia|]. cbn [with_pmm ph_pmm].
  pose proof (own_alloc _ _ W1) as A. destruct (pmm_alloc_page s1) as [pdpt s2].
  destruct A as (S2 & [[-> ->]|(G2 & Hne2 & R2 & N2 & W2)]).
  { rewrite Z.eqb_refl. destruct (own_free _ _ _ W1) as (s3 & -> & W3 & S3). rewrite bind_Done.
    eexists None, _, h'. split; [done|]. split; [by etrans|done]. }
  destruct (pdpt =? PA_INVALID) eqn:?; [lia|]. cbn [with_pmm ph_pmm ph_mem ph_inval].
  apply good_frame_pa in G1, G2. rewrite gmultiset_elem_of_disj_union, gmultiset_elem_of_singleton in N2.
  assert (pml4 <> pdpt) as Nmp by (intros ->; apply N2; by left).
  assert (pdpt ∉ X) as Npx by (intros ?; apply N2; by right).
  cbv zeta. change (with_pmm (with_pmm ph s1) s2) with (mkPhys s2 (ph_mem ph) (ph_inval ph)).
  set (ph2 := mkPhys s2 (ph_mem ph) (ph_inval ph)).
  assert (pmm_step (ph_pmm ph) s2) as S12 by by etrans.
  assert (forall t, t = pm_pml4_pa kpm \/ t = kpdpt -> t <> pml4 /\ t <> pdpt) as Apart.
  { intros t Ht. destruct (ke_held _ _ _ _ K t Ht) as [Hin|Hr]; [split; by intros ->|].
    split; [by intros ->|]. intros ->. apply R2. apply (reserved_step (ph_pmm ph) s1); try done.
    destruct G2; lia. }
  assert (kernel_ok ph2 kpm kpdpt X) as K2.
  { destruct K. split; try done. intros t Ht. destruct (ke_held0 t Ht) as [?|?]; [by left|right].
    apply (reserved_step (ph_pmm ph)); try done. destruct Ht as [->| ->]; [destruct ke_root0|destruct ke_pdpt_pa0]; lia. }
  destruct (create_fill 512 511 512 ph2 kpm kpdpt pml4 pdpt X ltac:(lia) ltac:(lia) ltac:(lia) K2 G1 G2 Nmp Apart)
    as (-> & _ & P4 & M4 & En & E4).
  set (ph4 := tbl_set _ pml4 0 _) in *.
  destruct (fresh_tree (ph_mem ph4) pml4 pdpt 1 false G1 G2 Nmp En) as (T & L & Lf).
  { specialize (E4 1 ltac:(lia)). unfold tbl_get in E4 at 1. rewrite E4. apply (ke_user _ _ _ _ K). }
  eexists (Some _), ph4, h'. split; [reflexivity|]. rewrite P4. split; [exact S12|]. rewrite L.
  split; [exact T|]. split; [|split; [reflexivity|split; [exact Lf|split; [|split]]]].
  - rewrite frames_two. exact W2.
  - intros t i Et Hi Hne. change (next (ph_mem ph4) pml4 0 = Some t) in Et. rewrite En in Et.
    injection Et as <-. rewrite E4 by assumption. symmetry. apply tbl_get_ext; [assumption|]. intros a Ha.
    destruct (Apart kpdpt ltac:(by right)) as [? ?]. pose proof (ke_pdpt_pa _ _ _ _ K).
    apply M4; apply (page_apart kpdpt); assumption.
  - intros t. rewrite elem_of_cons, list_elem_of_singleton. by intros [->| ->].
  - intros a Ha. apply M4; apply Ha; [by left|by right; left].
Qed.

Lemma slots_eq : slots = seqZ 0 (Z.of_nat 512).
Proof. Transparent slots. reflexivity. Opaque slots. Qed.

Lemma free_pts_ok n m s inv pd j Y :
  0 <= j ->
  owned_by s (frames (omap (next m pd) (seqZ j (Z.of_nat n))) ⊎ Y) ->
  exists s', free_pts n (mkPhys s m inv) pd j = Done (mkPhys s' m inv) /\ owned_by s' Y /\ pmm_step s s'.
Proof.
  revert s j. induction n as [|n IH]; intros s j Hj W; cbn [free_pts].
  { exists s. split; [reflexivity|]. split; [|reflexivity].
    cbn in W. by rewrite gmultiset_disj_union_left_id in W. }
  rewrite (seqZ_cons j) in W by lia.
  replace (Z.succ j) with (j + 1) in W by lia. replace (Z.pred (Z.of_nat (S n))) with (Z.of_nat n) in W by lia.
  cbn [omap list_omap] in W. unfold next in W at 1. unfold tbl_get. cbn [ph_mem].
  destruct (descends (ld64 m (pd + 8 * j))); cbn [negb].
  - rewrite frames_cons, <- gmultiset_disj_union_assoc in W.
    destruct (own_free _ _ _ W) as (s1 & E & W1 & S1). cbn [ph_pmm]. unfold table_va in E.
    rewrite E, bind_Done. destruct (IH s1 (j + 1) ltac:(lia) W1) as (s2 & E2 & W2 & S2).
    exists s2. split; [exact E2|]. split; [exact W2|]. by etrans.
  - apply IH; [lia|exact W].
Qed.

Lemma free_pds_skip n ph k pdpt i :
  (forall j, i <= j < i + Z.of_nat n -> descends (tbl_get ph pdpt j) = true ->
     tbl_get ph k j = tbl_get ph pdpt j) ->
  free_pds n ph (Some k) pdpt i = Done ph.
Proof.
  revert i. induction n as [|n IH]; intros i E; cbn [free_pds]; [reflexivity|].
  assert (free_pds n ph (Some k) pdpt (i + 1) = Done ph) as R by (apply IH; intros j Hj; apply E; lia).
  destruct (descends (tbl_get ph pdpt i)) eqn:D; cbn [negb]; [|exact R].
  rewrite (E i ltac:(lia) D), Z.eqb_refl. exact R.
Qed.

Lemma free_pds_split a b ph k pdpt i :
  free_pds (a + b) ph k pdpt i = (ph ← free_pds a ph k pdpt i; free_pds b ph k pdpt (i + Z.of_nat a)).
Proof.
  revert ph i. induction a as [|a IH]; intros ph i; cbn [free_pds Nat.add].
  { rewrite bind_Done. f_equal. lia. }
  replace (i + Z.of_nat (S a)) with (i + 1 + Z.of_nat a) by lia.
  destruct (negb (descends (tbl_get ph pdpt i))); [apply IH|].
  destruct (match k with Some k => tbl_get ph k i =? tbl_get ph pdpt i | None => false end); [apply IH|].
  destruct (free_pts 512 ph _ 0) as [ph1|]; cbn [mbind res_bind]; [|reflexivity].
  destruct (pmm_free_page _ _) as [s|]; cbn [mbind res_bind]; [apply IH|reflexivity].
Qed.

#[global] Opaque free_pts.

Lemma frames_app l1 l2 : frames (l1 ++ l2) = frames l1 ⊎ frames l2.
Proof. apply list_to_set_disj_app. Qed.

Lemma frames_rotate r t d l X :
  frames (r :: t :: d :: l) ⊎ X = frames l ⊎ ({[+ d +]} ⊎ (frames [t; r] ⊎ X)).
Proof. rewrite !frames_cons. change (frames []) with (∅ : gmultiset Z). multiset_solver. Qed.
Lemma frames_pair a b X : frames [a; b] ⊎ X = {[+ a +]} ⊎ ({[+ b +]} ⊎ X).
Proof. rewrite !frames_cons. change (frames []) with (∅ : gmultiset Z). multiset_solver. Qed.

(** The step of the outer loop at the user slot. *)
Lemma free_user_pd ph pm kpdpt t X :
  tree_ok (ph_mem ph) pm -> pdpt_of (ph_mem ph) pm = Some t -> has (tbl_get ph kpdpt 1) PTE_P = false ->
  owned_by (ph_pmm ph) (frames (tables_of (ph_mem ph) pm) ⊎ X) ->
  exists s1, free_pds 1 ph (Some kpdpt) t 1 = Done (with_pmm ph s1) /\ pmm_step (ph_pmm ph) s1 /\
    owned_by s1 (frames [t; pm_pml4_pa pm] ⊎ X).
Proof.
  intros T Et Ku W. cbn [free_pds].
  assert (pd_of (ph_mem ph) pm = next (ph_mem ph) t 1) as Ed by (unfold pd_of; by rewrite Et).
  unfold next in Ed. change (ld64 (ph_mem ph) (t + 8 * 1)) with (tbl_get ph t 1) in Ed.
  unfold tables_of in W. rewrite Et in W. change (option_list (Some t)) with [t] in W.
  destruct (descends (tbl_get ph t 1)) eqn:D; cbn [negb]; rewrite Ed in W.
  - set (d := table_va (tbl_get ph t 1)) in *.
    assert ((tbl_get ph kpdpt 1 =? tbl_get ph t 1) = false) as ->.
    { apply Z.eqb_neq. intros E. rewrite E in Ku. unfold descends in D. by rewrite Ku in D. }
    fold (table_va (tbl_get ph t 1)). fold d.
    rewrite (omap_ext_in _ (next (ph_mem ph) d)) in W by (intros j _; unfold pt_of; by rewrite Ed).
    change (option_list (Some d)) with [d] in W. cbn [app] in W. rewrite slots_eq in W.
    rewrite frames_rotate in W.
    destruct (free_pts_ok 512 (ph_mem ph) (ph_pmm ph) (ph_inval ph) d 0 _ ltac:(lia) W) as (s1 & E1 & W1 & S1).
    destruct ph as [s m inv]. cbn [ph_mem ph_pmm ph_inval] in *. rewrite E1, bind_Done. cbn [ph_pmm].
    destruct (own_free _ _ _ W1) as (s2 & -> & W2 & S2). rewrite bind_Done. exists s2. split; [reflexivity|].
    split; [by etrans|exact W2].
  - rewrite omap_none_in in W by (intros j _; unfold pt_of; by rewrite Ed).
    change (option_list (@None Z)) with (@nil Z) in W. cbn [app] in W. exists (ph_pmm ph). split; [by destruct ph|]. split; [reflexivity|].
    erewrite frames_perm; [exact W|]. apply perm_swap.
Qed.

Lemma pmap_destroy_ok ph kpm kpdpt pm X :
  kernel_ok ph kpm kpdpt X -> kernel_shared ph kpdpt pm -> tree_ok (ph_mem ph) pm ->
  pm_is_kernel pm = false -> owned_by (ph_pmm ph) (frames (tables_of (ph_mem ph) pm) ⊎ X) ->
  exists s', pmap_destroy ph kpm pm = Done (with_pmm ph s') /\ owned_by s' X /\ pmm_step (ph_pmm ph) s'.
Proof.
  intros K Sh T Hk W. unfold pmap_destroy. rewrite KASSERT_true by by rewrite Hk.
  rewrite (ke_descends _ _ _ _ K). pose proof (ke_pdpt _ _ _ _ K) as Ek. unfold table_va in Ek. rewrite Ek.
  destruct (tr_pdpt _ _ T) as [t Et]. destruct (next_descends _ _ _ _ Et) as [D Ev].
  change (ld64 (ph_mem ph) (pm_pml4_pa pm + 8 * 0)) with (tbl_get ph (pm_pml4_pa pm) 0) in D, Ev.
  rewrite D. unfold table_va in Ev. rewrite Ev.
  destruct (free_user_pd ph pm kpdpt t X T Et (ke_user _ _ _ _ K) W) as (s1 & E1 & S1 & W1).
  assert (free_pds 512 ph (Some kpdpt) t 0 = Done (with_pmm ph s1)) as ->.
  { change 512%nat with (1 + (1 + 510))%nat. rewrite free_pds_split, free_pds_skip, bind_Done.
    2: { intros j Hj _. symmetry. apply (Sh t j Et); lia. }
    rewrite free_pds_split. change (0 + Z.of_nat 1) with 1. rewrite E1, bind_Done.
    apply free_pds_skip. intros j Hj _. symmetry. apply (Sh t j Et); lia. }
  rewrite !bind_Done. cbn [ph_pmm with_pmm].
  rewrite frames_pair in W1. destruct (own_free _ _ _ W1) as (s2 & -> & W2 & S2). rewrite !bind_Done. cbn [ph_pmm with_pmm].
  destruct (own_free _ _ _ W2) as (s3 & -> & W3 & S3). rewrite bind_Done.
  exists s3. split; [reflexivity|]. split; [exact W3|]. etrans; [exact S1|]. by etrans.
Qed.

(** * Life of a user pmap *)

Inductive pmap_op :=
| PEnter (va pa prot : Z)
| PRemove (va : Z).

Definition pmap_op_ok (op : pmap_op) : Prop :=
  match op with
  | PEnter va pa _ => upage va /\ frame_pa pa
  | PRemove va => upage va
  end.

Definition pmap_step_op (ph : phys) (pm : pmap) (op : pmap_op) : res (pmap * phys) :=
  match op with
  | PEnter va pa prot => r ← pmap_enter_locked ph pm va pa prot; let '(_, pm, ph) := r in Done (pm, ph)
  | PRemove va => let '(_, pm, ph) := pmap_remove_locked ph pm va in Done (pm, ph)
  end.

Fixpoint pmap_ops (ph : phys) (pm : pmap) (ops : list pmap_op) : res (pmap * phys) :=
  match ops with
  | [] => Done (pm, ph)
  | op :: ops => r ← pmap_step_op ph pm op; let '(pm, ph) := r in pmap_ops ph pm ops
  end.

(** A user pmap beside the kernel's, holding its tables alone. *)
Record uspace_ok (ph : phys) (kpm : pmap) (kpdpt : Z) (pm : pmap) (X : gmultiset Z) : Prop := {
  us_kernel : kernel_ok ph kpm kpdpt X;
  us_shared : kernel_shared ph kpdpt pm;
  us_tree : tree_ok (ph_mem ph) pm;
  us_owned : owned_by (ph_pmm ph) (frames (tables_of (ph_mem ph) pm) ⊎ X);
  us_apart : forall t, t ∈ tables_of (ph_mem ph) pm -> t ∉ X;
  us_user : pm_is_kernel pm = false;
}.

(** The kernel's tables are not the user tree's, so they stay. *)
Lemma kernel_keep ph kpm kpdpt X ph' pm' :
  kernel_ok ph kpm kpdpt X -> tree_ok (ph_mem ph') pm' ->
  owned_by (ph_pmm ph') (frames (tables_of (ph_mem ph') pm') ⊎ X) -> pmm_step (ph_pmm ph) (ph_pmm ph') ->
  (forall t, t ∈ tables_of (ph_mem ph') pm' -> t ∉ X) ->
  (forall a, (forall t, t ∈ tables_of (ph_mem ph') pm' -> ~ in_page t a) ->
     ld8 (ph_mem ph') a = ld8 (ph_mem ph) a) ->
  kernel_ok ph' kpm kpdpt X /\ forall k, 0 <= k < 512 -> tbl_get ph' kpdpt k = tbl_get ph kpdpt k.
Proof.
  intros K T' W' S Ap' M.
  assert (forall t, t = pm_pml4_pa kpm \/ t = kpdpt -> frame_pa t /\ 0 <= t) as Fr.
  { intros t [->| ->]; [pose proof (ke_root _ _ _ _ K) as F|pose proof (ke_pdpt_pa _ _ _ _ K) as F];
      (split; [exact F|destruct F; lia]). }
  assert (forall t k, t = pm_pml4_pa kpm \/ t = kpdpt -> 0 <= k < 512 -> tbl_get ph' t k = tbl_get ph t k) as Kern.
  { intros t k Ht Hk. apply tbl_get_ext; [exact Hk|]. intros a Ha. apply M. intros u Hu.
    destruct (Fr t Ht) as [Ft ?].
    apply (page_apart t); [exact Ft|by apply (table_good _ _ T')| |exact Ha]. intros ->.
    destruct (ke_held _ _ _ _ K u Ht) as [Hin|Hr]; [by apply (Ap' u Hu)|].
    apply (owned_not_reserved _ _ u W'); [apply gmultiset_elem_of_disj_union; left; by apply elem_frames|].
    by apply (reserved_step (ph_pmm ph)). }
  split; [|intros k Hk; apply Kern; [by right|exact Hk]].
  split; [apply K| | |apply K|apply K| |].
  - rewrite Kern by (lia || by left). apply K.
  - rewrite Kern by (lia || by left). apply K.
  - rewrite Kern by (lia || by right). apply K.
  - intros t Ht. destruct (ke_held _ _ _ _ K t Ht) as [?|?]; [by left|right].
    apply (reserved_step (ph_pmm ph)); [exact S|by apply Fr|assumption].
Qed.

(** What a page-table operation does beside the tree keeps [uspace_ok]. *)
Lemma uspace_keep ph kpm kpdpt pm X ph' pm' :
  uspace_ok ph kpm kpdpt pm X -> tree_ok (ph_mem ph') pm' ->
  owned_by (ph_pmm ph') (frames (tables_of (ph_mem ph') pm') ⊎ X) -> pmm_step (ph_pmm ph) (ph_pmm ph') ->
  (forall t, t ∈ tables_of (ph_mem ph') pm' -> t ∉ X) ->
  (forall a, (forall t, t ∈ tables_of (ph_mem ph') pm' -> ~ in_page t a) ->
     ld8 (ph_mem ph') a = ld8 (ph_mem ph) a) ->
  shared_kept ph pm ph' pm' -> pm_is_kernel pm' = false -> uspace_ok ph' kpm kpdpt pm' X.
Proof.
  intros [K Sh T W Ap Us] T' W' S Ap' M [Ep Sk] Us'.
  destruct (kernel_keep ph kpm kpdpt X ph' pm' K T' W' S Ap' M) as [K' Kern].
  split; try assumption. intros t i Et Hi Hne. rewrite Ep in Et.
  rewrite (Sk t i Et Hi Hne), (Kern i Hi). by apply Sh.
Qed.

Lemma is_kernel_kept ph pm op pm' ph' :
  pmap_step_op ph pm op = Done (pm', ph') -> pm_is_kernel pm' = pm_is_kernel pm.
Proof.
  assert (forall ph pm u i user, pm_is_kernel (snd (fst (ensure_table ph pm u i user))) = pm_is_kernel pm) as En.
  { intros. unfold ensure_table. destruct (has _ PTE_P); [by destruct (has _ PTE_PS)|].
    destruct (pmm_alloc_page _) as [pa s]. by destruct (pa =? PA_INVALID). }
  destruct op as [va pa prot|va]; cbn [pmap_step_op].
  - unfold pmap_enter_locked. destruct (Z.land va PAGE_MASK =? 0); [|done].
    destruct (Z.land pa PAGE_MASK =? 0); [|done]. cbn [KASSERT mbind res_bind].
    pose proof (En ph pm (pm_pml4_pa pm) (pml4_idx va) (has prot VM_PROT_USER)) as E1.
    destruct (ensure_table ph pm _ _ _) as [[[t|] pm1] ph1]; cbn in E1; [|by intros [= <- <-]].
    pose proof (En ph1 pm1 t (pdpt_idx va) (has prot VM_PROT_USER)) as E2.
    destruct (ensure_table ph1 pm1 _ _ _) as [[[d|] pm2] ph2]; cbn in E2; [|intros [= <- <-]; congruence].
    pose proof (En ph2 pm2 d (pd_idx va) (has prot VM_PROT_USER)) as E3.
    destruct (ensure_table ph2 pm2 _ _ _) as [[[p|] pm3] ph3]; cbn in E3; [|intros [= <- <-]; congruence].
    destruct (has _ PTE_P); intros [= <- <-]; cbn; congruence.
  - unfold pmap_remove_locked. repeat (destruct (negb _); [by intros [= <- <-]|]). by intros [= <- <-].
Qed.

Lemma uspace_step ph kpm kpdpt pm X op :
  uspace_ok ph kpm kpdpt pm X -> pmap_op_ok op ->
  exists pm' ph', pmap_step_op ph pm op = Done (pm', ph') /\ uspace_ok ph' kpm kpdpt pm' X.
Proof.
  intros U Hop. pose proof U as [K Sh T W Ap Us].
  assert (exists pm' ph', pmap_step_op ph pm op = Done (pm', ph') /\
    (pm_is_kernel pm' = false -> uspace_ok ph' kpm kpdpt pm' X)) as (pm' & ph' & E & U').
  { destruct op as [va pa prot|va]; cbn [pmap_step_op pmap_op_ok] in *.
    - destruct Hop as [Hva Hpa].
      destruct (pmap_enter_full ph pm va pa prot X T W Hva Hpa) as (ok & pm' & ph' & -> & En & Sk).
      exists pm', ph'. split; [reflexivity|]. intros Us'. destruct En as [T' W' S (fr & L & Fr) M _ _].
      apply (uspace_keep ph kpm kpdpt pm X ph' pm' U T' W' S); try assumption.
      intros t. rewrite L, elem_of_app. intros [Ht|Ht]; [|by apply Ap].
      intros Hx. apply (Fr t Ht). apply gmultiset_elem_of_disj_union. by right.
    - destruct (pmap_remove_full ph pm va T Hop) as (pm' & ph' & -> & [T' L P M _ _] & Sk).
      exists pm', ph'. split; [reflexivity|]. intros Us'.
      apply (uspace_keep ph kpm kpdpt pm X ph' pm' U T'); rewrite ?L, ?P; try assumption. reflexivity. }
  exists pm', ph'. split; [exact E|]. apply U'. by rewrite (is_kernel_kept _ _ _ _ _ E).
Qed.

Lemma uspace_ops ph kpm kpdpt pm X ops :
  uspace_ok ph kpm kpdpt pm X -> Forall pmap_op_ok ops ->
  exists pm' ph', pmap_ops ph pm ops = Done (pm', ph') /\ uspace_ok ph' kpm kpdpt pm' X.
Proof.
  intros U F. revert ph pm U. induction F as [|op ops Ho F IH]; intros ph pm U; cbn [pmap_ops]; [eauto|].
  destruct (uspace_step _ _ _ _ _ _ U Ho) as (pm1 & ph1 & E & U1). rewrite E, bind_Done. by apply IH.
Qed.

(** * Properties *)

(** [C17] The life of a user pmap: [pmap_create] either fails, giving back
    whatever it took, or makes an empty tree; then no sequence of enters and
    removes in the user window panics or touches a page outside the tree's own
    tables; and [pmap_destroy] gives back exactly the frames the pmap took,
    the kernel's shared tables excepted. *)
Theorem pmap_lifecycle ph kpm kpdpt h X :
  kernel_ok ph kpm kpdpt X -> owned_by (ph_pmm ph) X ->
  exists r ph1 h', pmap_create ph kpm h = Done (r, ph1, h') /\
    match r with
    | None => owned_by (ph_pmm ph1) X
    | Some pm =>
        (forall v, leaf_of (ph_mem ph1) pm v = None) /\
        forall ops, Forall pmap_op_ok ops ->
          exists pm2 ph2 s3, pmap_ops ph1 pm ops = Done (pm2, ph2) /\ tree_ok (ph_mem ph2) pm2 /\
            pmap_destroy ph2 kpm pm2 = Done (with_pmm ph2 s3) /\ owned_by s3 X
    end.
Proof.
  intros K W. destruct (pmap_create_ok ph kpm kpdpt h X K W) as (r & ph1 & h' & E & S & R).
  exists r, ph1, h'. split; [exact E|]. destruct r as [pm|]; [|apply R].
  destruct R as (T & W1 & Us & Lf & Sh & Ap & M). split; [exact Lf|]. intros ops F.
  assert (uspace_ok ph1 kpm kpdpt pm X) as U.
  { split; try assumption. by apply (kernel_keep ph kpm kpdpt X ph1 pm). }
  destruct (uspace_ops _ _ _ _ _ _ U F) as (pm2 & ph2 & E2 & U2). pose proof U2 as [K2 Sh2 T2 W2 Ap2 Us2].
  destruct (pmap_destroy_ok ph2 kpm kpdpt pm2 X K2 Sh2 T2 Us2 W2) as (s3 & E3 & W3 & _).
  exists pm2, ph2, s3. auto.
Qed.

(** A kernel root at frame 1 whose slot 0 names a PDPT at frame 2. *)
Definition demo_mem : mem := st64 (fun _ => 0) 4096 8195.
Definition demo_kernel : pmap := mkPmap 4096 0 0 true.
Definition demo_phys : phys := mkPhys demo_ram demo_mem [].

Lemma demo_kernel_ok : kernel_ok demo_phys demo_kernel 8192 ∅.
Proof.
  split; [split; [cbn; lia|done]|vm_compute; reflexivity|vm_compute; reflexivity|split; [lia|done]|done|
    vm_compute; reflexivity|].
  intros t [->| ->]; right; right; vm_compute; reflexivity.
Qed.

Lemma pmap_lifecycle_witness :
  exists r ph1 h', pmap_create demo_phys demo_kernel [true] = Done (r, ph1, h') /\
    match r with
    | None => owned_by (ph_pmm ph1) ∅
    | Some pm =>
        (forall v, leaf_of (ph_mem ph1) pm v = None) /\
        forall ops, Forall pmap_op_ok ops ->
          exists pm2 ph2 s3, pmap_ops ph1 pm ops = Done (pm2, ph2) /\ tree_ok (ph_mem ph2) pm2 /\
            pmap_destroy ph2 demo_kernel pm2 = Done (with_pmm ph2 s3) /\ owned_by s3 ∅
    end.
Proof. apply (pmap_lifecycle demo_phys demo_kernel 8192 [true] ∅ demo_kernel_ok demo_ram_owned). Defined.

(** [C18] [pmap_enter] in the user window: it never panics; when it succeeds
    the page maps the frame with exactly the permissions asked for and every
    other user page maps what it did, and when it fails (out of frames) every
    page does.  Table pages it adds are fresh frames nobody else holds, memory
    outside the tables is untouched, and replacing a live mapping always
    succeeds, allocates nothing and invalidates the old translation. *)
Theorem pmap_enter_exact ph pm va pa prot X :
  tree_ok (ph_mem ph) pm -> owned_by (ph_pmm ph) (frames (tables_of (ph_mem ph) pm) ⊎ X) ->
  upage va -> frame_pa pa ->
  exists ok pm' ph', pmap_enter_locked ph pm va pa prot = Done (ok, pm', ph') /\
    tree_ok (ph_mem ph') pm' /\ owned_by (ph_pmm ph') (frames (tables_of (ph_mem ph') pm') ⊎ X) /\
    (forall v, upage v -> leaf_of (ph_mem ph') pm' v =
       if ok && (v =? va)
       then Some (mkLeaf pa (has prot VM_PROT_WRITE) (has prot VM_PROT_EXEC) (has prot VM_PROT_USER))
       else leaf_of (ph_mem ph) pm v) /\
    (exists fresh, tables_of (ph_mem ph') pm' ≡ₚ fresh ++ tables_of (ph_mem ph) pm /\
       forall t, t ∈ fresh -> t ∉ frames (tables_of (ph_mem ph) pm) ⊎ X) /\
    (forall a, (forall t, t ∈ tables_of (ph_mem ph') pm' -> ~ in_page t a) ->
       ld8 (ph_mem ph') a = ld8 (ph_mem ph) a) /\
    (leaf_of (ph_mem ph) pm va <> None -> ok = true /\ ph_pmm ph' = ph_pmm ph /\ va ∈ ph_inval ph').
Proof.
  intros T W Hva Hpa. destruct (pmap_enter_ok ph pm va pa prot X T W Hva Hpa) as (ok & pm' & ph' & E & En).
  exists ok, pm', ph'. destruct En as [T' W' _ Tb M L P]. split_and!; try assumption.
  intros H. destruct (P H) as (? & _ & ? & ?). auto.
Qed.

(** The demo machine with a user tree: root at frame 4, PDPT at frame 5. *)
Definition demo_user_ram : pmm := snd (pmm_alloc_page (snd (pmm_alloc_page demo_ram))).
Definition demo_user : phys := mkPhys demo_user_ram (st64 demo_mem 16384 20487) [].
Definition demo_pmap : pmap := mkPmap 16384 0 1 false.

Lemma demo_tree : tree_ok (ph_mem demo_user) demo_pmap /\ tables_of (ph_mem demo_user) demo_pmap = [16384; 20480] /\
  forall v, leaf_of (ph_mem demo_user) demo_pmap v = None.
Proof.
  apply fresh_tree; [split; [lia|done]|split; [lia|done]|done|vm_compute; reflexivity|vm_compute; reflexivity].
Qed.

Lemma demo_user_owned :
  owned_by (ph_pmm demo_user) (frames (tables_of (ph_mem demo_user) demo_pmap) ⊎ ∅).
Proof.
  destruct demo_tree as (_ & -> & _). rewrite frames_two. cbn [ph_pmm demo_user]. unfold demo_user_ram.
  apply own_alloc_at; [apply own_alloc_at; [apply demo_ram_owned|..]|..]; vm_compute; done.
Qed.

Lemma pmap_enter_exact_witness :
  exists ok pm' ph', pmap_enter_locked demo_user demo_pmap VM_USER_VA_LO 28672 11 = Done (ok, pm', ph') /\
    tree_ok (ph_mem ph') pm' /\ owned_by (ph_pmm ph') (frames (tables_of (ph_mem ph') pm') ⊎ ∅) /\
    (forall v, upage v -> leaf_of (ph_mem ph') pm' v =
       if ok && (v =? VM_USER_VA_LO)
       then Some (mkLeaf 28672 (has 11 VM_PROT_WRITE) (has 11 VM_PROT_EXEC) (has 11 VM_PROT_USER))
       else leaf_of (ph_mem demo_user) demo_pmap v) /\
    (exists fresh, tables_of (ph_mem ph') pm' ≡ₚ fresh ++ tables_of (ph_mem demo_user) demo_pmap /\
       forall t, t ∈ fresh -> t ∉ frames (tables_of (ph_mem demo_user) demo_pmap) ⊎ ∅) /\
    (forall a, (forall t, t ∈ tables_of (ph_mem ph') pm' -> ~ in_page t a) ->
       ld8 (ph_mem ph') a = ld8 (ph_mem demo_user) a) /\
    (leaf_of (ph_mem demo_user) demo_pmap VM_USER_VA_LO <> None ->
       ok = true /\ ph_pmm ph' = ph_pmm demo_user /\ VM_USER_VA_LO ∈ ph_inval ph').
Proof.
  apply (pmap_enter_exact demo_user demo_pmap VM_USER_VA_LO 28672 11 ∅ (proj1 demo_tree) demo_user_owned);
    (split; [unfold VM_USER_VA_LO, VM_USER_VA_HI; lia|reflexivity]).
Defined.
