(* ===== verification/Vm.v ===== *)
(** Address spaces, the rest of [vm/vm.c]: faults, copy-on-write, fork,
    release, payloads of pages and program images, over a map ([VmMap]), a
    pmap used through its interface ([Pmap.PmapSpec]), the frame allocator
    and the pagers. *)

From stdpp Require Import base list numbers strings gmap gmultiset.
From Stdlib Require Import ZArith Lia ZifyBool.
From S2P Require Import Prelude Pmm Phys VmObject VmMap Pmap.

(** * State *)

(** The diagnostic counters. *)
Inductive vstat :=
| vm_n_fault_zero | vm_n_fault_file | vm_n_fault_race | vm_n_fault_fail
| vm_us_pager | vm_us_pager_max | vm_n_fork_shared
| vm_n_cow_copy | vm_n_cow_steal | vm_n_cow_race
| vm_n_image_borrowed | vm_n_image_copied | vm_n_payload_shared | vm_n_payload_copied
| vm_n_split | vm_n_rel_whole | vm_n_rel_cut | vm_n_rel_refuse.

#[global] Instance vstat_eq_dec : EqDecision vstat.
Proof. solve_decision. Defined.

Definition VM_FAULT_OK : Z := 0.
Definition VM_FAULT_NOMAP : Z := 1.
Definition VM_FAULT_PROT : Z := 2.
Definition VM_FAULT_IO : Z := 3.
Definition VM_FAULT_NOMEM : Z := 4.

Definition VM_IMAGE_OK : Z := 0.
Definition VM_IMAGE_NOMEM : Z := 1.
Definition VM_IMAGE_MAP : Z := 2.

Section Vm.
Context {P : Type} `{PmapOps P} {F : Type} `{FsOps F}.

(** Everything the routines share beside the space they work on. *)
Record vmw := mkVmw {
  vw_ph : phys;
  vw_heap : kheap;
  vw_objs : objs F;
  vw_stat : vstat -> Z;
}.

Definition vw_mem (w : vmw) : mem := ph_mem (vw_ph w).
Definition vw_pmm (w : vmw) : pmm := ph_pmm (vw_ph w).

Definition set_ph (w : vmw) (ph : phys) : vmw := mkVmw ph (vw_heap w) (vw_objs w) (vw_stat w).
Definition set_heap (w : vmw) (h : kheap) : vmw := mkVmw (vw_ph w) h (vw_objs w) (vw_stat w).
Definition set_objs (w : vmw) (o : objs F) : vmw := mkVmw (vw_ph w) (vw_heap w) o (vw_stat w).
Definition set_stat (w : vmw) (k : vstat) (v : Z) : vmw :=
  mkVmw (vw_ph w) (vw_heap w) (vw_objs w) (fun j => if decide (j = k) then w64 v else vw_stat w j).
Definition bump (w : vmw) (k : vstat) : vmw := set_stat w k (vw_stat w k + 1).

(** A task's map and its page tables. *)
Record space := mkSpace { sp_map : vm_map; sp_pm : P }.

Definition alloc_frame (w : vmw) : Z * vmw :=
  let '(pa, s) := pmm_alloc_page (vw_pmm w) in (pa, set_ph w (with_pmm (vw_ph w) s)).
Definition free_frame (w : vmw) (pa : Z) : res vmw :=
  s ← pmm_free_page (vw_pmm w) pa; Done (set_ph w (with_pmm (vw_ph w) s)).
Definition ref_frame (w : vmw) (pa : Z) : res vmw :=
  s ← pmm_page_ref (vw_pmm w) pa; Done (set_ph w (with_pmm (vw_ph w) s)).

Definition enter (w : vmw) (pm : P) (va pa prot : Z) : res (bool * P * vmw) :=
  r ← pm_enter (vw_ph w) pm va pa prot; let '(ok, pm, ph) := r in Done (ok, pm, set_ph w ph).
Definition remove (w : vmw) (pm : P) (va : Z) : P * vmw :=
  let '(_, pm, ph) := pm_remove (vw_ph w) pm va in (pm, set_ph w ph).
Definition extract (w : vmw) (pm : P) (va : Z) : Z := pm_extract (vw_ph w) pm va.

(** * Release *)

(** Pages of [for (v = va; v < end; v += VM_PAGE_SIZE)]. *)
Definition pages_between (va end_ : Z) : nat := Z.to_nat ((end_ - va) / VM_PAGE_SIZE).

Definition release_page (w : vmw) (pm : P) (va : Z) : res (P * vmw) :=
  let pa := extract w pm va in
  if pa =? PA_INVALID then Done (pm, w)
  else
    let '(pm, w) := remove w pm va in
    w ← free_frame w pa; Done (pm, w).

Fixpoint release_pages (n : nat) (w : vmw) (pm : P) (va : Z) : res (P * vmw) :=
  match n with
  | O => Done (pm, w)
  | S n => r ← release_page w pm va; let '(pm, w) := r in release_pages n w pm (va + VM_PAGE_SIZE)
  end.

Fixpoint release_anon_entries (w : vmw) (pm : P) (l : list vm_map_entry) : res (P * vmw) :=
  match l with
  | [] => Done (pm, w)
  | e :: l =>
      if negb (has (vme_flags e) VME_F_ANON) then release_anon_entries w pm l
      else
        r ← release_pages (pages_between (vme_start e) (vme_end e)) w pm (vme_start e);
        let '(pm, w) := r in release_anon_entries w pm l
  end.

Definition vm_map_release_anon (w : vmw) (sp : space) : res (space * vmw) :=
  r ← release_anon_entries w (sp_pm sp) (vm_head (sp_map sp));
  let '(pm, w) := r in Done (mkSpace (sp_map sp) pm, w).

(** How far the range is covered by anonymous entries without a hole, and
    whether one of them sticks out. *)
Fixpoint release_scan (l : list vm_map_entry) (va end_ covered : Z) (cut : bool) : Z * bool :=
  match l with
  | [] => (covered, cut)
  | e :: l =>
      if negb (covered <? end_) then (covered, cut)
      else if vme_end e <=? covered then release_scan l va end_ covered cut
      else if covered <? vme_start e then (covered, cut)
      else if negb (has (vme_flags e) VME_F_ANON) then (covered, cut)
      else release_scan l va end_ (vme_end e)
             (if (vme_start e <? va) || (end_ <? vme_end e) then true else cut)
  end.

Definition clip (w : vmw) (m : vm_map) (at_ : Z) : res (bool * vm_map * vmw) :=
  r ← vm_map_clip_locked (vw_objs w) m at_ (vw_heap w);
  let '(ok, m', o, h) := r in
  let w := set_heap (set_objs w o) h in
  Done (ok, m', if vm_count m' =? vm_count m then w else bump w vm_n_split).

(** The part of [vm_map_release] under the map lock. *)
Definition release_locked (w : vmw) (m : vm_map) (va size : Z) : res (bool * vm_map * vmw) :=
  if size =? 0 then Done (false, m, w)
  else if unaligned va || unaligned size then Done (false, m, w)
  else
    let end_ := w64 (va + size) in
    if end_ <? va then Done (false, m, w)
    else if (va <? vm_lo m) || (vm_hi m <? end_) then Done (false, m, w)
    else
      let '(covered, cut) := release_scan (vm_head m) va end_ va false in
      if covered <? end_ then Done (false, m, bump w vm_n_rel_refuse)
      else
        r ← clip w m va;
        let '(ok, m, w) := r in
        if negb ok then Done (false, m, bump w vm_n_rel_refuse)
        else
          r ← clip w m end_;
          let '(ok, m, w) := r in
          if negb ok then Done (false, m, bump w vm_n_rel_refuse)
          else Done (true, m, bump w (if cut then vm_n_rel_cut else vm_n_rel_whole)).

(** The part after it: the pages, then the entries. *)
Definition release_unlocked (w : vmw) (sp : space) (va size : Z) : res (space * vmw) :=
  r ← release_pages (pages_between va (va + size)) w (sp_pm sp) va;
  let '(pm, w) := r in
  r ← vm_map_remove (vw_objs w) (sp_map sp) va size;
  let '(_, m, o) := r in
  Done (mkSpace m pm, set_objs w o).

Definition vm_map_release (w : vmw) (sp : space) (va size : Z) : res (bool * space * vmw) :=
  r ← release_locked w (sp_map sp) va size;
  let '(ok, m, w) := r in
  if negb ok then Done (false, mkSpace m (sp_pm sp), w)
  else
    r ← release_unlocked w (mkSpace m (sp_pm sp)) va size;
    let '(sp, w) := r in Done (true, sp, w).

(** * Fork *)

Definition fork_page (w : vmw) (src_pm dst_pm : P) (va shared_prot : Z) (owned writable : bool)
    : res (bool * P * P * vmw) :=
  let pa := extract w src_pm va in
  if pa =? PA_INVALID then Done (true, src_pm, dst_pm, w)
  else
    w ← (if owned then ref_frame w pa else Done w);
    r ← enter w dst_pm va pa shared_prot;
    let '(ok, dst_pm, w) := r in
    if negb ok then
      w ← (if owned then free_frame w pa else Done w);
      Done (false, src_pm, dst_pm, w)
    else if writable then
      r ← enter w src_pm va pa shared_prot;
      let '(ok, src_pm, w) := r in
      if negb ok then Done (false, src_pm, dst_pm, w)
      else Done (true, src_pm, dst_pm, bump w vm_n_fork_shared)
    else Done (true, src_pm, dst_pm, bump w vm_n_fork_shared).

Fixpoint fork_pages (n : nat) (w : vmw) (src_pm dst_pm : P) (va shared_prot : Z) (owned writable : bool)
    : res (bool * P * P * vmw) :=
  match n with
  | O => Done (true, src_pm, dst_pm, w)
  | S n =>
      r ← fork_page w src_pm dst_pm va shared_prot owned writable;
      let '(ok, src_pm, dst_pm, w) := r in
      if negb ok then Done (false, src_pm, dst_pm, w)
      else fork_pages n w src_pm dst_pm (va + VM_PAGE_SIZE) shared_prot owned writable
  end.

(** The entry as fork leaves it in the parent. *)
Definition fork_flags (e : vm_map_entry) : Z :=
  if has (vme_prot e) VM_PROT_WRITE then Z.lor (vme_flags e) VME_F_COW else vme_flags e.
Definition fork_prot (e : vm_map_entry) : Z :=
  if has (vme_prot e) VM_PROT_WRITE then Z.ldiff (vme_prot e) VM_PROT_WRITE else vme_prot e.
Definition with_flags (e : vm_map_entry) (flags : Z) : vm_map_entry :=
  mkVme (vme_start e) (vme_end e) (vme_offset e) (vme_object e) (vme_prot e) flags.

Definition fork_entry (w : vmw) (e : vm_map_entry) (src_pm : P) (dst : space)
    : res (bool * vm_map_entry * P * space * vmw) :=
  let flags := fork_flags e in
  o ← vm_object_ref (vw_objs w) (vme_object e);
  let w := set_objs w o in
  let '(ok, m, h) := vm_map_enter_backed (sp_map dst) (vme_start e) (vme_end e - vme_start e)
                       (vme_prot e) flags (vme_object e) (vme_offset e) (vw_heap w) in
  let w := set_heap w h in
  if negb ok then
    o ← vm_object_deref (vw_objs w) (vme_object e);
    Done (false, e, src_pm, dst, set_objs w o)
  else
    let e := with_flags e flags in
    let owned := has (vme_flags e) VME_F_ANON in
    r ← fork_pages (pages_between (vme_start e) (vme_end e)) w src_pm (sp_pm dst) (vme_start e)
          (fork_prot e) owned (has (vme_prot e) VM_PROT_WRITE);
    let '(ok, src_pm, dst_pm, w) := r in
    Done (ok, e, src_pm, mkSpace m dst_pm, w).

Fixpoint fork_entries (w : vmw) (l : list vm_map_entry) (src_pm : P) (dst : space)
    : res (bool * list vm_map_entry * P * space * vmw) :=
  match l with
  | [] => Done (true, [], src_pm, dst, w)
  | e :: l =>
      r ← fork_entry w e src_pm dst;
      let '(ok, e, src_pm, dst, w) := r in
      if negb ok then Done (false, e :: l, src_pm, dst, w)
      else
        r ← fork_entries w l src_pm dst;
        let '(ok, l, src_pm, dst, w) := r in
        Done (ok, e :: l, src_pm, dst, w)
  end.

Definition vm_map_fork_share (w : vmw) (src dst : space) : res (bool * space * space * vmw) :=
  r ← fork_entries w (vm_head (sp_map src)) (sp_pm src) dst;
  let '(ok, l, src_pm, dst, w) := r in
  Done (ok, mkSpace (with_entries (sp_map src) l (vm_count (sp_map src))) src_pm, dst, w).

(** * Faults

    [vm_fault] drops the map lock between deciding what the page needs and
    installing it, so it is two steps: [fault_begin], the first window and
    the work without the lock, and [fault_finish], the second window, which
    may find the space changed by others meanwhile. *)

Inductive fault_cont :=
| FaultDone (rv : Z)                          (* over in the first window *)
| FaultCow (page old pa : Z)                  (* a copy of [old] is in [pa] *)
| FaultFill (page : Z) (obj : option Z) (pa : Z).   (* the content is in [pa] *)

Definition fault_fail (w : vmw) (pm : P) (rv : Z) : res (fault_cont * P * vmw) :=
  Done (FaultDone rv, pm, bump w vm_n_fault_fail).

(** The copy-on-write half of the first window. *)
Definition fault_cow (w : vmw) (pm : P) (e : vm_map_entry) (page old : Z) (write : bool)
    : res (fault_cont * P * vmw) :=
  if negb write || negb (has (vme_flags e) VME_F_COW) then fault_fail w pm VM_FAULT_PROT
  else
    KASSERT (has (vme_flags e) VME_F_ANON) "copy-on-write on a range whose frames are borrowed" ;;
    if pmm_page_refs (vw_pmm w) old =? 1 then
      r ← enter w pm page old (vme_prot e);
      let '(ok, pm, w) := r in
      if negb ok then fault_fail w pm VM_FAULT_NOMEM
      else Done (FaultDone VM_FAULT_OK, pm, bump w vm_n_cow_steal)
    else
      let '(pa, w) := alloc_frame w in
      if pa =? PA_INVALID then fault_fail w pm VM_FAULT_NOMEM
      else Done (FaultCow page old pa, pm,
                 set_ph w (with_mem (vw_ph w) (copy_words (Z.to_nat 512) (vw_mem w) pa old))).

(** The demand-fill half; [dt] is the time the pager took. *)
Definition fault_fill (w : vmw) (pm : P) (e : vm_map_entry) (page dt : Z) : res (fault_cont * P * vmw) :=
  if negb (has (vme_flags e) VME_F_LAZY) then fault_fail w pm VM_FAULT_NOMAP
  else
    let obj := vme_object e in
    let off := w64 (vme_offset e + (page - vme_start e)) in
    o ← vm_object_ref (vw_objs w) obj;
    let w := set_objs w o in
    let '(pa, w) := alloc_frame w in
    if pa =? PA_INVALID then
      o ← vm_object_deref (vw_objs w) obj; fault_fail (set_objs w o) pm VM_FAULT_NOMEM
    else
      let w := set_ph w (with_mem (vw_ph w) (zero_bytes (Z.to_nat VM_PAGE_SIZE) (vw_mem w) pa)) in
      match obj with
      | None => Done (FaultFill page obj pa, pm, w)
      | Some _ =>
          r ← vm_object_page (vw_objs w) obj off;
          let '(got, o) := r in
          let w := set_objs w o in
          match got with
          | None =>
              o ← vm_object_deref (vw_objs w) obj;
              w ← free_frame (set_objs w o) pa;
              fault_fail w pm VM_FAULT_IO
          | Some bs =>
              let w := set_ph w (with_mem (vw_ph w) (put_bytes (vw_mem w) pa bs)) in
              let w := set_stat w vm_us_pager (vw_stat w vm_us_pager + dt) in
              let w := if vw_stat w vm_us_pager_max <? dt then set_stat w vm_us_pager_max dt else w in
              Done (FaultFill page obj pa, pm, w)
          end
      end.

Definition prot_none (prot : Z) : bool :=
  Z.land prot (Z.lor (Z.lor VM_PROT_READ VM_PROT_WRITE) VM_PROT_EXEC) =? 0.

Definition fault_begin (w : vmw) (sp : space) (va : Z) (write : bool) (dt : Z)
    : res (fault_cont * P * vmw) :=
  let page := VM_ALIGN_DOWN va in
  match vm_map_lookup (sp_map sp) page with
  | None => fault_fail w (sp_pm sp) VM_FAULT_NOMAP
  | Some (_, e) =>
      if prot_none (vme_prot e) || (write && negb (has (vme_prot e) VM_PROT_WRITE))
      then fault_fail w (sp_pm sp) VM_FAULT_PROT
      else
        let old := extract w (sp_pm sp) page in
        if negb (old =? PA_INVALID) then fault_cow w (sp_pm sp) e page old write
        else fault_fill w (sp_pm sp) e page dt
  end.

(** Give the prepared frame and the pager back, and say why. *)
Definition fault_drop (w : vmw) (pm : P) (obj : option Z) (pa rv : Z) (k : vstat) : res (Z * P * vmw) :=
  o ← vm_object_deref (vw_objs w) obj;
  w ← free_frame (set_objs w o) pa;
  Done (rv, pm, bump w k).

Definition fault_finish (w : vmw) (sp : space) (c : fault_cont) : res (Z * P * vmw) :=
  match c with
  | FaultDone rv => Done (rv, sp_pm sp, w)
  | FaultCow page old pa =>
      let pm := sp_pm sp in
      match vm_map_lookup (sp_map sp) page with
      | None => w ← free_frame w pa; Done (VM_FAULT_OK, pm, bump w vm_n_cow_race)
      | Some (_, e) =>
          if negb (extract w pm page =? old)
          then w ← free_frame w pa; Done (VM_FAULT_OK, pm, bump w vm_n_cow_race)
          else
            r ← enter w pm page pa (vme_prot e);
            let '(ok, pm, w) := r in
            if negb ok
            then w ← free_frame w pa; Done (VM_FAULT_NOMEM, pm, bump w vm_n_fault_fail)
            else w ← free_frame w old; Done (VM_FAULT_OK, pm, bump w vm_n_cow_copy)
      end
  | FaultFill page obj pa =>
      let pm := sp_pm sp in
      match vm_map_lookup (sp_map sp) page with
      | None => fault_drop w pm obj pa VM_FAULT_NOMAP vm_n_fault_fail
      | Some (_, e) =>
          if negb (has (vme_flags e) VME_F_LAZY)
          then fault_drop w pm obj pa VM_FAULT_NOMAP vm_n_fault_fail
          else if negb (extract w pm page =? PA_INVALID)
          then fault_drop w pm obj pa VM_FAULT_OK vm_n_fault_race
          else
            r ← enter w pm page pa (vme_prot e);
            let '(ok, pm, w) := r in
            if negb ok then fault_drop w pm obj pa VM_FAULT_NOMEM vm_n_fault_fail
            else
              let w := bump w (match obj with Some _ => vm_n_fault_file | None => vm_n_fault_zero end) in
              o ← vm_object_deref (vw_objs w) obj;
              Done (VM_FAULT_OK, pm, set_objs w o)
      end
  end.

(** Nobody in between. *)
Definition vm_fault (w : vmw) (sp : space) (va : Z) (write : bool) (dt : Z) : res (Z * P * vmw) :=
  r ← fault_begin w sp va write dt;
  let '(c, pm, w) := r in
  fault_finish w (mkSpace (sp_map sp) pm) c.

(** * Payloads of pages *)

(** A byte the kernel reads through the current task's mapping.  A page not
    there yet faults, from kernel mode; a fault that cannot be served stops
    the machine ([arch/amd64/intr.c]). *)
Definition user_byte (w : vmw) (sp : space) (va : Z) : res (Z * P * vmw) :=
  let page := VM_ALIGN_DOWN va in
  let pa := extract w (sp_pm sp) page in
  if negb (pa =? PA_INVALID) then Done (ld8 (vw_mem w) (pa + (va - page)), sp_pm sp, w)
  else
    r ← vm_fault w sp va false 0;
    let '(rv, pm, w) := r in
    KASSERT (rv =? VM_FAULT_OK) "page fault in kernel mode" ;;
    let pa := extract w pm page in
    KASSERT (negb (pa =? PA_INVALID)) "page fault in kernel mode, again" ;;
    Done (ld8 (vw_mem w) (pa + (va - page)), pm, w).

(** [for (i = 0; i < have; i++) kva[i] = src[off + i]] *)
Fixpoint copy_user (n : nat) (w : vmw) (m : vm_map) (pm : P) (dst src : Z) : res (P * vmw) :=
  match n with
  | O => Done (pm, w)
  | S n =>
      r ← user_byte w (mkSpace m pm) src;
      let '(b, pm, w) := r in
      copy_user n (set_ph w (with_mem (vw_ph w) (st8 (vw_mem w) dst b))) m pm (dst + 1) (src + 1)
  end.

Fixpoint copy_kernel (n : nat) (m : mem) (dst src : Z) : mem :=
  match n with
  | O => m
  | S n => copy_kernel n (st8 m dst (ld8 m src)) (dst + 1) (src + 1)
  end.

(** How much of the page at [off] the payload fills. *)
Definition page_have (off size : Z) : Z :=
  if VM_PAGE_SIZE <? size - off then VM_PAGE_SIZE else size - off.

Definition page_from_bytes (w : vmw) (sp : space) (src off size : Z) (user : bool) : res (Z * P * vmw) :=
  let '(pa, w) := alloc_frame w in
  if pa =? PA_INVALID then Done (PA_INVALID, sp_pm sp, w)
  else
    let have := page_have off size in
    r ← (if user then copy_user (Z.to_nat have) w (sp_map sp) (sp_pm sp) pa (src + off)
         else Done (sp_pm sp, set_ph w (with_mem (vw_ph w)
                                (copy_kernel (Z.to_nat have) (vw_mem w) pa (src + off)))));
    let '(pm, w) := r in
    let w := set_ph w (with_mem (vw_ph w)
               (zero_bytes (Z.to_nat (VM_PAGE_SIZE - have)) (vw_mem w) (pa + have))) in
    Done (pa, pm, w).

(** [vm_pages_release]: [PA_INVALID] slots hold nothing. *)
Fixpoint vm_pages_release (w : vmw) (pas : list Z) : res vmw :=
  match pas with
  | [] => Done w
  | pa :: pas => w ← (if pa =? PA_INVALID then Done w else free_frame w pa); vm_pages_release w pas
  end.

(** Pages [i], [i + 1], ... of a kernel payload; [acc] holds the ones before,
    newest first. *)
Fixpoint capture_kernel_pages (n : nat) (w : vmw) (sp : space) (src size i : Z) (acc : list Z)
    : res (list Z * vmw) :=
  match n with
  | O => Done (rev acc, w)
  | S n =>
      r ← page_from_bytes w sp src (i * VM_PAGE_SIZE) size false;
      let '(pa, _, w) := r in
      if pa =? PA_INVALID then w ← vm_pages_release w (rev acc); Done ([], w)
      else capture_kernel_pages n (bump w vm_n_payload_copied) sp src size (i + 1) (pa :: acc)
  end.

Definition payload_pages (size : Z) : Z := Z.shiftr (VM_ALIGN_UP size) 12.

(** The frames, or none on failure; a kernel address is in no task's map, so
    the space is not looked at. *)
Definition vm_pages_capture_kernel (w : vmw) (sp : space) (src size max_pages : Z) : res (list Z * vmw) :=
  if (src =? 0) || (size =? 0) then Done ([], w)
  else if max_pages <? payload_pages size then Done ([], w)
  else capture_kernel_pages (Z.to_nat (payload_pages size)) w sp src size 0 [].

(** The first pass of [vm_pages_capture_user]: share every present whole page.
    Returns the slots from page [i] on and how many were taken. *)
Fixpoint share_pages (n : nat) (w : vmw) (pm : P) (prot addr size i : Z) : res (list Z * Z * P * vmw) :=
  match n with
  | O => Done ([], 0, pm, w)
  | S n =>
      if size <? (i + 1) * VM_PAGE_SIZE then Done (replicate (S n) PA_INVALID, 0, pm, w)
      else
        let va := addr + i * VM_PAGE_SIZE in
        let pa := extract w pm va in
        if pa =? PA_INVALID then
          r ← share_pages n w pm prot addr size (i + 1);
          let '(pas, taken, pm, w) := r in Done (PA_INVALID :: pas, taken, pm, w)
        else
          w ← ref_frame w pa;
          r ← (if has prot VM_PROT_WRITE then enter w pm va pa (Z.ldiff prot VM_PROT_WRITE)
               else Done (true, pm, w));
          let '(ok, pm, w) := r in
          if negb ok then
            w ← free_frame w pa;
            r ← share_pages n w pm prot addr size (i + 1);
            let '(pas, taken, pm, w) := r in Done (PA_INVALID :: pas, taken, pm, w)
          else
            r ← share_pages n w pm prot addr size (i + 1);
            let '(pas, taken, pm, w) := r in Done (pa :: pas, taken + 1, pm, w)
  end.

(** The map after the first pass marked the range copy-on-write. *)
Definition mark_cow (m : vm_map) (i : nat) (e : vm_map_entry) : vm_map :=
  with_entries m (<[i := with_flags e (Z.lor (vme_flags e) VME_F_COW)]> (vm_head m)) (vm_count m).

Definition capture_share (w : vmw) (sp : space) (addr size : Z) (n : nat) : res (list Z * space * vmw) :=
  let none := Done (replicate n PA_INVALID, sp, w) in
  if unaligned addr then none
  else
    match vm_map_lookup (sp_map sp) addr with
    | None => none
    | Some (i, e) =>
        if has (vme_flags e) VME_F_ANON && (w64 (addr + Z.of_nat n * VM_PAGE_SIZE) <=? vme_end e) then
          r ← share_pages n w (sp_pm sp) (vme_prot e) addr size 0;
          let '(pas, taken, pm, w) := r in
          let m := if negb (taken =? 0) && has (vme_prot e) VM_PROT_WRITE
                   then mark_cow (sp_map sp) i e else sp_map sp in
          Done (pas, mkSpace m pm,
                set_stat w vm_n_payload_shared (vw_stat w vm_n_payload_shared + taken))
        else none
    end.

(** The second pass: copy into every slot sharing could not fill.  [acc] holds
    the slots before [i], newest first. *)
Fixpoint capture_copy (w : vmw) (m : vm_map) (pm : P) (addr size i : Z) (acc pas : list Z)
    : res (list Z * P * vmw) :=
  match pas with
  | [] => Done (rev acc, pm, w)
  | pa :: pas' =>
      if negb (pa =? PA_INVALID) then capture_copy w m pm addr size (i + 1) (pa :: acc) pas'
      else
        r ← page_from_bytes w (mkSpace m pm) addr (i * VM_PAGE_SIZE) size true;
        let '(pa, pm, w) := r in
        if pa =? PA_INVALID then w ← vm_pages_release w (rev acc ++ pas); Done ([], pm, w)
        else capture_copy (bump w vm_n_payload_copied) m pm addr size (i + 1) (pa :: acc) pas'
  end.

Definition vm_pages_capture_user (w : vmw) (sp : space) (addr size max_pages : Z)
    : res (list Z * space * vmw) :=
  if size =? 0 then Done ([], sp, w)
  else if max_pages <? payload_pages size then Done ([], sp, w)
  else
    r ← capture_share w sp addr size (Z.to_nat (payload_pages size));
    let '(pas, sp, w) := r in
    r ← capture_copy w (sp_map sp) (sp_pm sp) addr size 0 [] pas;
    let '(pas, pm, w) := r in Done (pas, mkSpace (sp_map sp) pm, w).

(** Map the frames from [va] on, counting the ones done; a refusal stops. *)
Fixpoint install_pages (w : vmw) (pm : P) (va : Z) (pas : list Z) : res (bool * nat * P * vmw) :=
  match pas with
  | [] => Done (true, 0%nat, pm, w)
  | pa :: pas =>
      r ← enter w pm va pa (Z.lor VM_PROT_READ VM_PROT_USER);
      let '(ok, pm, w) := r in
      if negb ok then Done (false, 0%nat, pm, w)
      else
        r ← install_pages w pm (va + VM_PAGE_SIZE) pas;
        let '(ok, k, pm, w) := r in Done (ok, S k, pm, w)
  end.

(** [while (i-- > 0) pmap_remove(...)] *)
Fixpoint uninstall_pages (k : nat) (w : vmw) (pm : P) (va : Z) : P * vmw :=
  match k with
  | O => (pm, w)
  | S k => let '(pm, w) := remove w pm (va + Z.of_nat k * VM_PAGE_SIZE) in uninstall_pages k w pm va
  end.

Definition vm_pages_install (w : vmw) (sp : space) (pas : list Z) : res (option Z * space * vmw) :=
  let npages := Z.of_nat (length pas) in
  if npages =? 0 then Done (None, sp, w)
  else
    let span := w64 (npages * VM_PAGE_SIZE) in
    match vm_map_find_space (sp_map sp) span with
    | (None, m) => Done (None, mkSpace m (sp_pm sp), w)
    | (Some landing, m) =>
        let '(ok, m, h) := vm_map_enter m landing span
                             (Z.lor (Z.lor VM_PROT_READ VM_PROT_WRITE) VM_PROT_USER)
                             (Z.lor VME_F_ANON VME_F_COW) (vw_heap w) in
        let w := set_heap w h in
        if negb ok then Done (None, mkSpace m (sp_pm sp), w)
        else
          r ← install_pages w (sp_pm sp) landing pas;
          let '(ok, k, pm, w) := r in
          if negb ok then
            let '(pm, w) := uninstall_pages k w pm landing in
            r ← vm_map_remove (vw_objs w) m landing span;
            let '(_, m, o) := r in Done (None, mkSpace m pm, set_objs w o)
          else Done (Some landing, mkSpace m pm, w)
    end.

(** * Program images *)

(** The pages of a segment that can be borrowed, [borrow_start, borrow_end);
    empty when both are the start. *)
Definition image_borrow (seg_va filesize src prot : Z) : Z * Z :=
  let va_start := Z.ldiff seg_va VM_PAGE_MASK in
  if negb (has prot VM_PROT_WRITE) && (Z.land (Z.lxor src seg_va) VM_PAGE_MASK =? 0) then
    let bs := VM_ALIGN_UP seg_va in
    let be := VM_ALIGN_DOWN (w64 (seg_va + filesize)) in
    if be <=? bs then (va_start, va_start) else (bs, be)
  else (va_start, va_start).

(** Up to three ranges: anonymous, borrowed, anonymous. *)
Definition image_entries (m : vm_map) (h : kheap) (va_start va_end bs be prot : Z) : bool * vm_map * kheap :=
  if bs <? be then
    let '(ok, m, h) := if va_start <? bs then vm_map_enter m va_start (bs - va_start) prot VME_F_ANON h
                       else (true, m, h) in
    if negb ok then (false, m, h)
    else
      let '(ok, m, h) := vm_map_enter m bs (be - bs) prot 0 h in
      if negb ok then (false, m, h)
      else if be <? va_end then vm_map_enter m be (va_end - be) prot VME_F_ANON h
      else (true, m, h)
  else vm_map_enter m va_start (w64 (va_end - va_start)) prot VME_F_ANON h.

(** The page at [va], copied: zeroes, then the part the file covers. *)
Definition image_fill (m : mem) (pa va seg_va filesize src : Z) : mem :=
  let m := zero_bytes (Z.to_nat VM_PAGE_SIZE) m pa in
  let lo := if seg_va <? va then va else seg_va in
  let hi := va + VM_PAGE_SIZE in
  let hi := if w64 (seg_va + filesize) <? hi then w64 (seg_va + filesize) else hi in
  copy_kernel (Z.to_nat (hi - lo)) m (pa + (lo - va)) (src + (lo - seg_va)).

Fixpoint image_pages (n : nat) (w : vmw) (pm : P) (va seg_va filesize src prot bs be : Z) : res (Z * P * vmw) :=
  match n with
  | O => Done (VM_IMAGE_OK, pm, w)
  | S n =>
      if (bs <=? va) && (va <? be) then
        r ← enter w pm va (src + (va - seg_va)) prot;
        let '(ok, pm, w) := r in
        if negb ok then Done (VM_IMAGE_MAP, pm, w)
        else image_pages n (bump w vm_n_image_borrowed) pm (va + VM_PAGE_SIZE) seg_va filesize src prot bs be
      else
        let '(pa, w) := alloc_frame w in
        if pa =? PA_INVALID then Done (VM_IMAGE_NOMEM, pm, w)
        else
          let w := set_ph w (with_mem (vw_ph w) (image_fill (vw_mem w) pa va seg_va filesize src)) in
          r ← enter w pm va pa prot;
          let '(ok, pm, w) := r in
          if negb ok then w ← free_frame w pa; Done (VM_IMAGE_MAP, pm, w)
          else image_pages n (bump w vm_n_image_copied) pm (va + VM_PAGE_SIZE) seg_va filesize src prot bs be
  end.

Definition vm_map_image (w : vmw) (sp : space) (seg_va vmsize filesize src prot : Z) : res (Z * space * vmw) :=
  if (src =? 0) || (vmsize <? filesize) then Done (VM_IMAGE_MAP, sp, w)
  else if vmsize =? 0 then Done (VM_IMAGE_OK, sp, w)
  else
    let va_start := Z.ldiff seg_va VM_PAGE_MASK in
    let va_end := VM_ALIGN_UP (w64 (seg_va + vmsize)) in
    let '(bs, be) := image_borrow seg_va filesize src prot in
    let '(ok, m, h) := image_entries (sp_map sp) (vw_heap w) va_start va_end bs be prot in
    let w := set_heap w h in
    if negb ok then Done (VM_IMAGE_MAP, mkSpace m (sp_pm sp), w)
    else
      r ← image_pages (pages_between va_start va_end) w (sp_pm sp) va_start seg_va filesize src prot bs be;
      let '(rv, pm, w) := r in Done (rv, mkSpace m pm, w).

End Vm.
Arguments vmw F : clear implicits.
Arguments space P : clear implicits.
