(* ===== verification/VmInv.v ===== *)
(** The invariant of address spaces: every leaf lies in a range that accounts
    for it, every owned frame is counted once per leaf, and a writable leaf is
    its frame's only owner. *)

From stdpp Require Import base list numbers strings gmap gmultiset.
From Stdlib Require Import ZArith Lia ZifyBool.
From S2P Require Import Prelude Pmm Phys VmObject VmMap Pmap Vm.

(** * Frames named by the pages of the user window *)

Definition upages : list Z := (fun i => VM_USER_VA_LO + i * VM_PAGE_SIZE) <$> seqZ 0 (2 ^ 18).

Lemma elem_upages v : v ∈ upages <-> upage v.
Proof.
  unfold upages. rewrite list_elem_of_fmap. setoid_rewrite elem_of_seqZ.
  unfold upage, aligned, VM_USER_VA_LO, VM_USER_VA_HI, VM_PAGE_SIZE. split.
  - intros (i & -> & Hi). Z.div_mod_to_equations. lia.
  - intros [Hr A]. exists ((v - 1073741824) / 4096). Z.div_mod_to_equations. lia.
Qed.

Lemma nodup_upages : NoDup upages.
Proof.
  unfold upages. apply NoDup_fmap_2_strong; [|apply NoDup_seqZ]. intros i j _ _. unfold VM_PAGE_SIZE. lia.
Qed.

#[global] Opaque upages.

(** One frame per page [f] names. *)
Definition leaf_frames (f : Z -> option Z) : gmultiset Z := frames (omap f upages).

Lemma leaf_frames_ext f g : (forall v, upage v -> g v = f v) -> leaf_frames g = leaf_frames f.
Proof. intros E. unfold leaf_frames. f_equal. apply omap_ext_in. intros v Hv%elem_upages. exact (E v Hv). Qed.

Lemma leaf_frames_in f pa : pa ∈ leaf_frames f <-> exists v, upage v /\ f v = Some pa.
Proof.
  unfold leaf_frames. rewrite elem_frames, list_elem_of_omap. setoid_rewrite elem_upages. done.
Qed.

Lemma omap_upd_any {A} (f g : A -> option Z) (l : list A) j :
  NoDup l -> j ∈ l -> (forall k, k ∈ l -> k <> j -> g k = f k) ->
  frames (omap g l) ⊎ named (f j) = frames (omap f l) ⊎ named (g j).
Proof.
  induction l as [|a l IH]; intros N Hj E; [by apply not_elem_of_nil in Hj|].
  apply list.NoDup_cons in N as [Na N].
  assert (forall (h : A -> option Z), frames (omap h (a :: l)) = named (h a) ⊎ frames (omap h l)) as U.
  { intros h. change (omap h (a :: l)) with (match h a with Some b => b :: omap h l | None => omap h l end).
    destruct (h a); cbn [named]; [done|]. by rewrite gmultiset_disj_union_left_id. }
  rewrite !U. apply elem_of_cons in Hj as [->|Hj].
  - assert (omap g l = omap f l) as ->; [|clear; multiset_solver].
    apply omap_ext_in. intros k Hk. apply E; [by right|by intros ->].
  - rewrite (E a) by (by left || by intros ->).
    assert (frames (omap g l) ⊎ named (f j) = frames (omap f l) ⊎ named (g j)) as R.
    { apply IH; try done. intros k Hk. apply E. by right. }
    rewrite <- !gmultiset_disj_union_assoc, R. done.
Qed.

(** One page's frame changes. *)
Lemma leaf_frames_upd f g va :
  upage va -> (forall v, upage v -> v <> va -> g v = f v) ->
  leaf_frames g ⊎ named (f va) = leaf_frames f ⊎ named (g va).
Proof.
  intros Hva E. unfold leaf_frames. apply (omap_upd_any f g upages va nodup_upages).
  - apply elem_upages. exact Hva.
  - intros v Hv%elem_upages. exact (E v Hv).
Qed.

(** A page that names a frame accounts for one of its owners. *)
Lemma leaf_frames_take f va pa :
  upage va -> f va = Some pa ->
  leaf_frames f = {[+ pa +]} ⊎ leaf_frames (fun v => if v =? va then None else f v).
Proof.
  intros Hva E. pose proof (leaf_frames_upd f (fun v => if v =? va then None else f v) va Hva) as U.
  rewrite E, Z.eqb_refl in U. cbn [named] in U.
  rewrite (gmultiset_disj_union_comm {[+ pa +]}). rewrite U; [clear; multiset_solver|].
  intros v _ Hne. by destruct (v =? va) eqn:?; [lia|].
Qed.

Lemma frame_pa_nonneg pa : frame_pa pa -> 0 <= pa.
Proof. intros [? _]. lia. Qed.

(** * The invariant *)

Section Inv.
Context {P : Type} `{PmapSpec P}.

(** The range over a page, if anonymous: its leaf is a counted owner. *)
Definition anon_at (m : vm_map) (v : Z) : bool :=
  match find_entry (vm_head m) v with
  | Some e => has (vme_flags e) VME_F_ANON
  | None => false
  end.

Definition own_of (m : mem) (sp : space P) (v : Z) : option Z :=
  if anon_at (sp_map sp) v then lf_pa <$> pm_leaf m (sp_pm sp) v else None.

(** Every frame a space answers for: its tables and its anonymous leaves. *)
Definition space_frames (m : mem) (sp : space P) : gmultiset Z :=
  frames (pm_tables m (sp_pm sp)) ⊎ leaf_frames (own_of m sp).

(** What a range may say about its pages. *)
Record entry_wf (e : vm_map_entry) : Prop := {
  ew_write : has (vme_prot e) VM_PROT_WRITE = true -> has (vme_flags e) VME_F_ANON = true;
  ew_cow : has (vme_flags e) VME_F_COW = true -> has (vme_prot e) VM_PROT_WRITE = true;
  ew_lazy : has (vme_flags e) VME_F_LAZY = true -> has (vme_flags e) VME_F_ANON = true;
}.

(** What holds of a leaf under range [e], when [X] counts every owner; [ex]
    exempts a leaf that is about to be write-protected. *)
Record leaf_wf (ex : bool) (s : pmm) (X : gmultiset Z) (e : vm_map_entry) (lf : leaf) : Prop := {
  lw_prot : lf_write lf = true -> has (vme_prot e) VM_PROT_WRITE = true;
  lw_single : ex = false -> lf_write lf = true -> multiplicity (lf_pa lf) X = 1%nat;
  lw_borrowed : has (vme_flags e) VME_F_ANON = false -> reserved s (lf_pa lf);
  lw_fixable : has (vme_prot e) VM_PROT_WRITE = true -> lf_write lf = false ->
               has (vme_flags e) VME_F_COW = true;
}.

Record space_ok (ex : Z -> bool) (s : pmm) (m : mem) (X : gmultiset Z) (sp : space P) : Prop := {
  so_map : map_ok (sp_map sp);
  so_window : VM_USER_VA_LO <= vm_lo (sp_map sp) /\ vm_hi (sp_map sp) <= VM_USER_VA_HI;
  so_entries : forall e, e ∈ vm_head (sp_map sp) -> entry_wf e;
  so_pm : pm_inv m (sp_pm sp);
  so_tables : forall t, t ∈ pm_tables m (sp_pm sp) -> multiplicity t X = 1%nat;
  so_leaf : forall v lf, upage v -> pm_leaf m (sp_pm sp) v = Some lf ->
            exists e, find_entry (vm_head (sp_map sp)) v = Some e /\ leaf_wf (ex v) s X e lf;
}.

Definition no_ex (v : Z) : bool := false.
Definition only (va : Z) (v : Z) : bool := v =? va.

Lemma own_of_leaf m sp v pa :
  own_of m sp v = Some pa ->
  exists e lf, find_entry (vm_head (sp_map sp)) v = Some e /\ has (vme_flags e) VME_F_ANON = true /\
    pm_leaf m (sp_pm sp) v = Some lf /\ lf_pa lf = pa.
Proof.
  unfold own_of, anon_at. destruct (find_entry (vm_head (sp_map sp)) v) as [e|]; [|done].
  destruct (has (vme_flags e) VME_F_ANON) eqn:A; [|done].
  destruct (pm_leaf m (sp_pm sp) v) as [lf|]; [|done]. intros [= <-]. eauto 6.
Qed.

Lemma own_of_Some m sp v e lf :
  find_entry (vm_head (sp_map sp)) v = Some e -> has (vme_flags e) VME_F_ANON = true ->
  pm_leaf m (sp_pm sp) v = Some lf -> own_of m sp v = Some (lf_pa lf).
Proof. unfold own_of, anon_at. by intros -> -> ->. Qed.

Lemma own_in m sp v pa : upage v -> own_of m sp v = Some pa -> pa ∈ space_frames m sp.
Proof.
  intros Hv E. unfold space_frames. apply gmultiset_elem_of_disj_union. right.
  apply leaf_frames_in. eauto.
Qed.

Lemma table_in m sp t : t ∈ pm_tables m (sp_pm sp) -> t ∈ space_frames m sp.
Proof.
  intros Ht. unfold space_frames. apply gmultiset_elem_of_disj_union. left. by apply elem_frames.
Qed.

(** ** What a step leaves alone

    [R] is everything owned by others.  A step may not touch the bytes of
    [R]'s frames or of reserved ones, nor add an owner to one of [R]'s frames
    that has a single owner. *)
Record polite (R : gmultiset Z) (s : pmm) (m : mem) (X : gmultiset Z)
    (s' : pmm) (m' : mem) (X' : gmultiset Z) : Prop := {
  po_step : pmm_step s s';
  po_mem : forall f, f ∈ R -> same_page m m' f;
  po_reserved : forall f, frame_pa f -> reserved s f -> same_page m m' f;
  po_single : forall f, f ∈ R -> multiplicity f X = 1%nat -> multiplicity f X' = 1%nat;
}.

Lemma polite_refl R s m X : polite R s m X s m X.
Proof. split; done. Qed.

Lemma same_page_trans m1 m2 m3 f : same_page m1 m2 f -> same_page m2 m3 f -> same_page m1 m3 f.
Proof. intros E1 E2 x Hx. by rewrite E2, E1. Qed.

Lemma polite_trans R s1 m1 X1 s2 m2 X2 s3 m3 X3 :
  polite R s1 m1 X1 s2 m2 X2 -> polite R s2 m2 X2 s3 m3 X3 -> polite R s1 m1 X1 s3 m3 X3.
Proof.
  intros [S1 M1 V1 N1] [S2 M2 V2 N2]. split.
  - by etrans.
  - intros f Hf. eapply same_page_trans; [by apply M1|by apply M2].
  - intros f Hf Hr. eapply same_page_trans; [by apply V1|]. apply V2; [done|].
    apply (reserved_step s1); [done|destruct Hf; lia|done].
  - intros f Hf H'. auto.
Qed.

Lemma polite_weaken R R' s m X s' m' X' : R' ⊆ R -> polite R s m X s' m' X' -> polite R' s m X s' m' X'.
Proof.
  intros Sub [S M V N]. assert (forall f, f ∈ R' -> f ∈ R) by (intros f Hf; exact (gmultiset_elem_of_subseteq _ _ _ Hf Sub)).
  split; auto.
Qed.

(** What a user of the space reads at a page, byte by byte. *)
Definition page_view (m : mem) (sp : space P) (v i : Z) : option Z :=
  (fun pa => ld8 m (pa + i)) <$> (lf_pa <$> pm_leaf m (sp_pm sp) v).

Lemma writable_anon ex s m X sp v e lf :
  space_ok ex s m X sp -> find_entry (vm_head (sp_map sp)) v = Some e -> leaf_wf (ex v) s X e lf ->
  lf_write lf = true -> has (vme_flags e) VME_F_ANON = true.
Proof.
  intros S Fe L Hw. destruct (find_entry_Some _ _ _ Fe) as [Hin _].
  apply (so_entries _ _ _ _ _ S e Hin), (lw_prot _ _ _ _ _ L), Hw.
Qed.

(** Any other space keeps its invariant, its frames and its contents. *)
Lemma polite_other ex R s m X s' m' X' sp :
  polite R s m X s' m' X' -> space_ok ex s m X sp -> space_frames m sp ⊆ R ->
  space_ok ex s' m' X' sp /\ space_frames m' sp = space_frames m sp /\
  forall v i, upage v -> 0 <= i < PAGE_SIZE -> page_view m' sp v i = page_view m sp v i.
Proof.
  intros [St M V N] S Sub.
  assert (forall f, f ∈ space_frames m sp -> f ∈ R) as Sub' by (intros f Hf; exact (gmultiset_elem_of_subseteq _ _ _ Hf Sub)).
  assert (forall t, t ∈ pm_tables m (sp_pm sp) -> t ∈ R) as Tb by (intros t Ht; by apply Sub', table_in).
  destruct (pm_local m m' (sp_pm sp) (so_pm _ _ _ _ _ S)) as (I' & T' & L'); [intros t Ht; by apply M, Tb|].
  assert (forall v lf e, upage v -> pm_leaf m (sp_pm sp) v = Some lf ->
    find_entry (vm_head (sp_map sp)) v = Some e -> has (vme_flags e) VME_F_ANON = true -> lf_pa lf ∈ R) as An.
  { intros v lf e Hv El Fe A. apply Sub', (own_in m sp v); [done|]. by apply (own_of_Some m sp v e). }
  split_and!.
  - split; [apply S|apply S|apply S|done| |].
    + rewrite T'. intros t Ht. apply N; [by apply Tb|]. by apply (so_tables _ _ _ _ _ S).
    + intros v lf Hv. rewrite L' by exact Hv. intros El. destruct (so_leaf _ _ _ _ _ S v lf Hv El) as (e & Fe & L).
      exists e. split; [done|]. split; [apply L| | |apply L].
      * intros Hx Hw. apply N; [|exact (lw_single _ _ _ _ _ L Hx Hw)]. apply (An v lf e); try assumption.
        by eapply writable_anon.
      * intros A. apply (reserved_step s); [exact St| |exact (lw_borrowed _ _ _ _ _ L A)].
        exact (frame_pa_nonneg _ (pm_leaf_pa _ _ _ _ (so_pm _ _ _ _ _ S) Hv El)).
  - unfold space_frames. rewrite T', (leaf_frames_ext (own_of m sp)); [reflexivity|].
    intros v Hv. unfold own_of. rewrite L' by exact Hv. reflexivity.
  - intros v i Hv Hi. unfold page_view. rewrite L' by exact Hv.
    destruct (pm_leaf m (sp_pm sp) v) as [lf|] eqn:El; [|done]. cbn. f_equal.
    pose proof (pm_leaf_pa _ _ _ _ (so_pm _ _ _ _ _ S) Hv El) as Fp.
    destruct (so_leaf _ _ _ _ _ S v lf Hv El) as (e & Fe & L).
    assert (same_page m m' (lf_pa lf)) as Sp; [|apply Sp; lia].
    destruct (has (vme_flags e) VME_F_ANON) eqn:A; [by apply M, (An v lf e)|].
    apply V; [exact Fp|exact (lw_borrowed _ _ _ _ _ L A)].
Qed.

Lemma polite_leaf ex R s m X s' m' X' sp v :
  polite R s m X s' m' X' -> space_ok ex s m X sp -> space_frames m sp ⊆ R -> upage v ->
  pm_leaf m' (sp_pm sp) v = pm_leaf m (sp_pm sp) v.
Proof.
  intros [St M V N] S Sub Hv. apply (pm_local m m' (sp_pm sp) (so_pm _ _ _ _ _ S)); [|exact Hv].
  intros t Ht. apply M. exact (gmultiset_elem_of_subseteq _ _ _ (table_in _ _ _ Ht) Sub).
Qed.

(** ** One space and the world around it

    [Y] is everything owned outside the space: frames in flight and the
    others'; [O] the pager references held outside its map. *)
Context {F : Type} `{FsOps F}.

Definition total (w : vmw F) (sp : space P) (Y : gmultiset Z) : gmultiset Z := space_frames (vw_mem w) sp ⊎ Y.

Record vm_inv (ex : Z -> bool) (w : vmw F) (sp : space P) (Y O : gmultiset Z) : Prop := {
  vi_owned : owned_by (vw_pmm w) (total w sp Y);
  vi_space : space_ok ex (vw_pmm w) (vw_mem w) (total w sp Y) sp;
  vi_objs : objs_ok (vw_objs w) (entry_names (vm_head (sp_map sp)) ⊎ O);
}.

Definition civil (R : gmultiset Z) (w : vmw F) (X : gmultiset Z) (w' : vmw F) (X' : gmultiset Z) : Prop :=
  polite R (vw_pmm w) (vw_mem w) X (vw_pmm w') (vw_mem w') X'.

End Inv.
