(* ===== verification/VmStep.v ===== *)
(** What one call on the allocator, the page tables or a frame does to the
    invariant of [VmInv]: every larger routine of [vm/vm.c] is a sequence of
    these. *)

From stdpp Require Import base list numbers strings gmap gmultiset.
From Stdlib Require Import ZArith Lia ZifyBool.
From S2P Require Import Prelude Pmm Phys VmObject VmMap Pmap Vm VmInv.

Lemma mult_union (x : Z) X Y : multiplicity x (X ⊎ Y) = (multiplicity x X + multiplicity x Y)%nat.
Proof. apply multiplicity_disj_union. Qed.

Lemma mult_in (x : Z) X : x ∈ X <-> (0 < multiplicity x X)%nat.
Proof. rewrite elem_of_multiplicity. lia. Qed.

Lemma mult_out (x : Z) X : x ∉ X -> multiplicity x X = 0%nat.
Proof. rewrite mult_in. lia. Qed.

Lemma mult_one (x : Z) : multiplicity x {[+ x +]} = 1%nat.
Proof. by rewrite multiplicity_singleton, decide_True. Qed.

Lemma mult_other (x y : Z) : x <> y -> multiplicity x {[+ y +]} = 0%nat.
Proof. intros N. by rewrite multiplicity_singleton, decide_False. Qed.

Lemma mult_nodup (l : list Z) x : NoDup l -> x ∈ l -> multiplicity x (frames l) = 1%nat.
Proof.
  induction l as [|y l IH]; intros N Hx; [by apply not_elem_of_nil in Hx|].
  apply list.NoDup_cons in N as [Ny N]. rewrite frames_cons, mult_union.
  destruct (decide (x = y)) as [->|Ne].
  - rewrite mult_one, mult_out; [done|]. by rewrite elem_frames.
  - rewrite mult_other, IH; [done|done| |done]. by apply elem_of_cons in Hx as [?|?].
Qed.

Lemma union_swap (A B C : gmultiset Z) : A ⊎ (B ⊎ C) = B ⊎ (A ⊎ C).
Proof. multiset_solver. Qed.

Lemma sub_mid (A B C : gmultiset Z) f : f ∈ A ⊎ C -> f ∈ A ⊎ (B ⊎ C).
Proof. rewrite !gmultiset_elem_of_disj_union. tauto. Qed.

Lemma sub_l (A B : gmultiset Z) : A ⊆ A ⊎ B.
Proof. multiset_solver. Qed.

Lemma sub_r (A B : gmultiset Z) : B ⊆ A ⊎ B.
Proof. multiset_solver. Qed.

Lemma sub_rr (A B C : gmultiset Z) : C ⊆ A ⊎ (B ⊎ C).
Proof. multiset_solver. Qed.

Lemma sub_rl (A B C : gmultiset Z) : B ⊆ A ⊎ (B ⊎ C).
Proof. multiset_solver. Qed.

Lemma mult_add_out (pa : Z) X f : pa ∉ X -> multiplicity f X = 1%nat -> multiplicity f ({[+ pa +]} ⊎ X) = 1%nat.
Proof.
  intros N M. rewrite mult_union, M, mult_other; [done|]. intros ->. apply N, mult_in. lia.
Qed.

Lemma mult_sub (pa : Z) X f : f ∈ X -> multiplicity f ({[+ pa +]} ⊎ X) = 1%nat -> multiplicity f X = 1%nat.
Proof. rewrite mult_union, mult_in. lia. Qed.

Lemma mult_fresh (fresh : list Z) X f : (forall t, t ∈ fresh -> t ∉ X) -> f ∈ X ->
  multiplicity f (frames fresh ⊎ X) = multiplicity f X.
Proof.
  intros Fr Hf. rewrite mult_union, (mult_out f (frames fresh)); [done|].
  rewrite elem_frames. intros Hx. by apply (Fr f).
Qed.

Lemma mult_fresh_single (fresh : list Z) X f : (forall t, t ∈ fresh -> t ∉ X) ->
  multiplicity f X = 1%nat -> multiplicity f (frames fresh ⊎ X) = 1%nat.
Proof. intros Fr M. rewrite mult_fresh; [exact M|exact Fr|]. rewrite mult_in, M. lia. Qed.

Lemma mult_tables (fresh l : list Z) X t :
  NoDup (fresh ++ l) -> (forall t, t ∈ fresh -> t ∉ X) ->
  (forall t, t ∈ l -> multiplicity t X = 1%nat) -> t ∈ fresh ++ l -> multiplicity t (frames fresh ⊎ X) = 1%nat.
Proof.
  intros N Fr M [Ht|Ht]%elem_of_app.
  - rewrite mult_union, (mult_out t X) by (by apply Fr). rewrite mult_nodup; [done| |exact Ht].
    by apply list.NoDup_app in N as (? & _ & _).
  - apply mult_fresh_single; [exact Fr|exact (M t Ht)].
Qed.

Section Step.
Context {P : Type} `{PmapSpec P} {F : Type} `{FsOps F}.

Abbreviation own w sp := (leaf_frames (own_of (vw_mem w) sp)).

Lemma total_unfold (w : vmw F) (sp : space P) Y :
  total w sp Y = frames (pm_tables (vw_mem w) (sp_pm sp)) ⊎ (own w sp ⊎ Y).
Proof. unfold total, space_frames. by rewrite gmultiset_disj_union_assoc. Qed.

Lemma table_alone ex (w : vmw F) sp Y O t f :
  vm_inv ex w sp Y O -> t ∈ pm_tables (vw_mem w) (sp_pm sp) -> f ∈ own w sp ⊎ Y -> t <> f.
Proof.
  intros I Ht Hf ->. pose proof (so_tables _ _ _ _ _ (vi_space _ _ _ _ _ I) f Ht) as M.
  rewrite total_unfold, mult_union in M. rewrite mult_in in Hf.
  rewrite <- elem_frames, mult_in in Ht. lia.
Qed.

Lemma total_frame ex (w : vmw F) (sp : space P) Y O f :
  vm_inv ex w sp Y O -> f ∈ total w sp Y -> frame_pa f.
Proof. intros I Hf. exact (good_frame_pa f (owned_good _ _ _ (vi_owned _ _ _ _ _ I) Hf)). Qed.

Lemma leaf_wf_mono (b b' : bool) s X e lf : (b = true -> b' = true) -> leaf_wf b s X e lf -> leaf_wf b' s X e lf.
Proof.
  intros Hb [L1 L2 L3 L4]. split; try assumption. intros Hx. apply L2. destruct b; [|done].
  rewrite Hb in Hx; done.
Qed.

Lemma vm_inv_mono (ex ex' : Z -> bool) (w : vmw F) sp Y O :
  (forall v, ex v = true -> ex' v = true) -> vm_inv ex w sp Y O -> vm_inv ex' w sp Y O.
Proof.
  intros Hx [W S Ob]. split; [exact W| |exact Ob]. destruct S as [S1 S2 S3 S4 S5 S6]. split; try assumption.
  intros v lf Hv El. destruct (S6 v lf Hv El) as (e & Fe & L). exists e. split; [exact Fe|].
  exact (leaf_wf_mono _ _ _ _ _ _ (Hx v) L).
Qed.

(** Memory outside the tables stays as it was. *)
Lemma page_kept (m m' : mem) (l : list Z) f :
  (forall a, (forall t, t ∈ l -> ~ in_page t a) -> ld8 m' a = ld8 m a) ->
  frame_pa f -> (forall t, t ∈ l -> frame_pa t /\ t <> f) -> same_page m m' f.
Proof.
  intros M Ff Apart i Hi. apply M. intros t Ht. destruct (Apart t Ht) as [Ft Ne].
  apply (page_apart f t); [assumption..|by apply not_eq_sym|]. unfold in_page. lia.
Qed.

Lemma leaf_wf_keep b s X s' X' e lf :
  pmm_step s s' -> frame_pa (lf_pa lf) ->
  (multiplicity (lf_pa lf) X = 1%nat -> multiplicity (lf_pa lf) X' = 1%nat) ->
  leaf_wf b s X e lf -> leaf_wf b s' X' e lf.
Proof.
  intros St Ff M [L1 L2 L3 L4]. split; [exact L1| | |exact L4].
  - intros Hb Hw. apply M, L2; assumption.
  - intros A. apply (reserved_step s); [exact St|exact (frame_pa_nonneg _ Ff)|exact (L3 A)].
Qed.

(** ** Installing a page

    A frame under an anonymous range comes with one owner, the installer's
    until then; a borrowed one with none. *)
Definition share (e : vm_map_entry) (pa : Z) : option Z :=
  if has (vme_flags e) VME_F_ANON then Some pa else None.

(** What the caller owns afterwards beside [Y]: the frame that was there, or
    on refusal the one it brought. *)
Definition left_over (w : vmw F) (sp : space P) (e : vm_map_entry) (va pa : Z) (ok : bool) : option Z :=
  if ok then own_of (vw_mem w) sp va else share e pa.

Record may_install (w : vmw F) (sp : space P) (X : gmultiset Z) (va pa : Z) (e : vm_map_entry) (lf : leaf) : Prop := {
  mi_page : upage va;
  mi_frame : frame_pa pa;
  mi_range : find_entry (vm_head (sp_map sp)) va = Some e;
  mi_leaf : leaf_wf false (vw_pmm w) X e lf;
}.

Lemma anon_at_find (m : vm_map) v e : find_entry (vm_head m) v = Some e -> anon_at m v = has (vme_flags e) VME_F_ANON.
Proof. unfold anon_at. by intros ->. Qed.

Lemma own_entered (m m' : mem) (sp : space P) pm' e va pa lf (ok : bool) :
  upage va -> find_entry (vm_head (sp_map sp)) va = Some e -> lf_pa lf = pa ->
  (forall v, upage v -> pm_leaf m' pm' v = if ok && (v =? va) then Some lf else pm_leaf m (sp_pm sp) v) ->
  leaf_frames (own_of m' (mkSpace (sp_map sp) pm')) ⊎ named (if ok then own_of m sp va else share e pa) =
  leaf_frames (own_of m sp) ⊎ named (share e pa).
Proof.
  intros Hva Fe Epa L. destruct ok; cbn [andb] in L.
  - assert (own_of m' (mkSpace (sp_map sp) pm') va = share e pa) as <-.
    { unfold own_of, share. cbn [sp_map sp_pm]. rewrite (anon_at_find _ _ _ Fe), L, Z.eqb_refl by exact Hva.
      destruct (has (vme_flags e) VME_F_ANON); [cbn; by rewrite Epa|reflexivity]. }
    apply leaf_frames_upd; [exact Hva|]. intros v Hv Ne. unfold own_of. cbn [sp_map sp_pm].
    rewrite L by exact Hv. by rewrite (proj2 (Z.eqb_neq v va) Ne).
  - rewrite (leaf_frames_ext (own_of m sp)); [reflexivity|]. intros v Hv. unfold own_of. cbn [sp_map sp_pm].
    by rewrite L.
Qed.

(** The bytes of [f], not one of the tables, survive an enter. *)
Lemma entered_page (w : vmw F) (sp : space P) Y ph' pm' va lf ok f :
  entered pm_inv pm_tables pm_leaf (vw_ph w) (sp_pm sp) va lf Y ok pm' ph' ->
  frame_pa f -> (f ∉ pm_tables (ph_mem ph') pm') -> same_page (vw_mem w) (ph_mem ph') f.
Proof.
  intros En Ff Nt. apply (page_kept _ _ (pm_tables (ph_mem ph') pm') f (en_mem _ _ _ _ _ _ _ _ _ _ _ En) Ff).
  intros t Ht. split; [|by intros ->].
  apply good_frame_pa, (owned_good _ _ _ (en_owned _ _ _ _ _ _ _ _ _ _ _ En)), gmultiset_elem_of_disj_union.
  left. by apply elem_frames.
Qed.

Section Enter.
Context (ex : Z -> bool) (w : vmw F) (sp : space P) (va pa prot : Z) (Yin Yout O : gmultiset Z) (e : vm_map_entry).
Let X := total w sp Yin.
Hypothesis I : vm_inv ex w sp Yin O.
Hypothesis M : may_install w sp X va pa e (leaf_for pa prot).

Context (ok : bool) (pm' : P) (ph' : phys) (fresh : list Z).
Hypothesis En : entered pm_inv pm_tables pm_leaf (vw_ph w) (sp_pm sp) va (leaf_for pa prot) (own w sp ⊎ Yin) ok pm' ph'.
Hypothesis Tb : pm_tables (ph_mem ph') pm' ≡ₚ fresh ++ pm_tables (vw_mem w) (sp_pm sp).
Hypothesis Fr : forall t, t ∈ fresh -> t ∉ X.

Let w' := set_ph w ph'.
Let sp' := mkSpace (sp_map sp) pm'.
Hypothesis Eo : own w' sp' ⊎ Yout = own w sp ⊎ Yin.

(** The new total is the old one and the tables made on the way. *)
Lemma entered_total : total w' sp' Yout = frames fresh ⊎ X.
Proof.
  unfold X. rewrite !total_unfold, Eo. change (pm_tables (vw_mem w') (sp_pm sp')) with (pm_tables (ph_mem ph') pm').
  rewrite (frames_perm _ _ Tb), frames_app. exact (eq_sym (gmultiset_disj_union_assoc _ _ _)).
Qed.

Lemma entered_inv : vm_inv (fun v => ex v && negb (ok && (v =? va))) w' sp' Yout O.
Proof.
  pose proof entered_total as Et. pose proof (vi_space _ _ _ _ _ I) as S. split; [| |exact (vi_objs _ _ _ _ _ I)].
  - rewrite total_unfold, Eo. exact (en_owned _ _ _ _ _ _ _ _ _ _ _ En).
  - rewrite Et. split; [exact (so_map _ _ _ _ _ S)|exact (so_window _ _ _ _ _ S)|exact (so_entries _ _ _ _ _ S)
      |exact (en_inv _ _ _ _ _ _ _ _ _ _ _ En)| |].
    + intros t. change (t ∈ pm_tables (ph_mem ph') pm' -> multiplicity t (frames fresh ⊎ X) = 1%nat). rewrite Tb.
      apply mult_tables; [|exact Fr|exact (so_tables _ _ _ _ _ S)]. rewrite <- Tb.
      exact (pm_nodup _ _ (en_inv _ _ _ _ _ _ _ _ _ _ _ En)).
    + intros v lf Hv. change (pm_leaf (vw_mem w') (sp_pm sp') v) with (pm_leaf (ph_mem ph') pm' v).
      rewrite (en_leaf _ _ _ _ _ _ _ _ _ _ _ En v Hv). destruct (ok && (v =? va)) eqn:C.
      * intros [= <-]. exists e. apply andb_true_iff in C as [-> ->%Z.eqb_eq].
        split; [exact (mi_range _ _ _ _ _ _ _ M)|]. rewrite andb_false_r.
        apply (leaf_wf_keep _ (vw_pmm w) X); [exact (en_step _ _ _ _ _ _ _ _ _ _ _ En)
          |exact (mi_frame _ _ _ _ _ _ _ M)| |exact (mi_leaf _ _ _ _ _ _ _ M)]. by apply mult_fresh_single.
      * intros El. destruct (so_leaf _ _ _ _ _ S v lf Hv El) as (e' & Fe' & L). exists e'. split; [exact Fe'|].
        rewrite andb_true_r.
        apply (leaf_wf_keep _ (vw_pmm w) X); [exact (en_step _ _ _ _ _ _ _ _ _ _ _ En)
          |exact (pm_leaf_pa _ _ _ _ (so_pm _ _ _ _ _ S) Hv El)| |exact L]. by apply mult_fresh_single.
Qed.

Lemma entered_civil : civil (own w sp ⊎ Yin) w X w' (total w' sp' Yout).
Proof.
  pose proof entered_total as Et.
  assert (forall t, t ∈ pm_tables (ph_mem ph') pm' -> t ∈ frames (pm_tables (ph_mem ph') pm') ⊎ (own w sp ⊎ Yin)) as Tin.
  { intros t Ht. apply gmultiset_elem_of_disj_union. left. by apply elem_frames. }
  split; [exact (en_step _ _ _ _ _ _ _ _ _ _ _ En)| | |].
  - intros f Hf. assert (f ∈ X) as Hx by (unfold X; rewrite total_unfold; apply gmultiset_elem_of_disj_union; by right).
    apply (entered_page w sp _ ph' pm' va _ ok f En); [exact (total_frame _ _ _ _ _ f I Hx)|].
    rewrite Tb, elem_of_app. intros [Ht|Ht]; [by apply (Fr f)|]. by apply (table_alone _ _ _ _ _ f f I Ht Hf).
  - intros f Ff Rf. apply (entered_page w sp _ ph' pm' va _ ok f En Ff). intros Ht.
    apply (owned_not_reserved _ _ f (en_owned _ _ _ _ _ _ _ _ _ _ _ En) (Tin f Ht)).
    exact (reserved_step _ _ f (en_step _ _ _ _ _ _ _ _ _ _ _ En) (frame_pa_nonneg f Ff) Rf).
  - intros f _ Mf. rewrite Et. by apply mult_fresh_single.
Qed.

End Enter.

Lemma enter_gen ex (w : vmw F) (sp : space P) va pa prot Yin (Yout : bool -> gmultiset Z) O e :
  vm_inv ex w sp Yin O -> may_install w sp (total w sp Yin) va pa e (leaf_for pa prot) ->
  (forall ok pm' ph', (forall v, upage v -> pm_leaf (ph_mem ph') pm' v =
       if ok && (v =? va) then Some (leaf_for pa prot) else pm_leaf (vw_mem w) (sp_pm sp) v) ->
     own (set_ph w ph') (mkSpace (sp_map sp) pm') ⊎ Yout ok = own w sp ⊎ Yin) ->
  exists ok pm' ph', enter w (sp_pm sp) va pa prot = Done (ok, pm', set_ph w ph') /\
    let w' := set_ph w ph' in
    let sp' := mkSpace (sp_map sp) pm' in
    vm_inv (fun v => ex v && negb (ok && (v =? va))) w' sp' (Yout ok) O /\
    civil (own w sp ⊎ Yin) w (total w sp Yin) w' (total w' sp' (Yout ok)) /\
    (forall v, upage v -> pm_leaf (vw_mem w') pm' v =
       if ok && (v =? va) then Some (leaf_for pa prot) else pm_leaf (vw_mem w) (sp_pm sp) v) /\
    (pm_leaf (vw_mem w) (sp_pm sp) va <> None -> ok = true) /\
    (forall f, f ∈ total w sp Yin -> multiplicity f (total w' sp' (Yout ok)) = multiplicity f (total w sp Yin)).
Proof.
  intros I M Eo. pose proof (vi_owned _ _ _ _ _ I) as W. rewrite total_unfold in W.
  destruct (pm_enter_ok (vw_ph w) (sp_pm sp) va pa prot _ (so_pm _ _ _ _ _ (vi_space _ _ _ _ _ I)) W
              (mi_page _ _ _ _ _ _ _ M) (mi_frame _ _ _ _ _ _ _ M)) as (ok & pm' & ph' & E & En).
  destruct (en_tables _ _ _ _ _ _ _ _ _ _ _ En) as (fresh & Tb & Fr).
  specialize (Eo ok pm' ph' (en_leaf _ _ _ _ _ _ _ _ _ _ _ En)).
  assert (forall t, t ∈ fresh -> t ∉ total w sp Yin) as Fr' by (by setoid_rewrite total_unfold).
  exists ok, pm', ph'. split; [unfold enter; by rewrite E|]. cbv zeta. split_and!.
  - by apply (entered_inv ex w sp va pa prot Yin (Yout ok) O e I M ok pm' ph' fresh).
  - by apply (entered_civil ex w sp va pa prot Yin (Yout ok) O I ok pm' ph' fresh).
  - exact (en_leaf _ _ _ _ _ _ _ _ _ _ _ En).
  - intros N. exact (proj1 (en_present _ _ _ _ _ _ _ _ _ _ _ En N)).
  - intros f Hf. rewrite (entered_total w sp Yin (Yout ok) pm' ph' fresh Tb Eo). by apply mult_fresh.
Qed.

(** A frame the caller brings. *)
Lemma enter_step ex (w : vmw F) (sp : space P) va pa prot Y O e :
  vm_inv ex w sp (named (share e pa) ⊎ Y) O ->
  may_install w sp (total w sp (named (share e pa) ⊎ Y)) va pa e (leaf_for pa prot) ->
  exists ok pm' ph', enter w (sp_pm sp) va pa prot = Done (ok, pm', set_ph w ph') /\
    let w' := set_ph w ph' in
    let sp' := mkSpace (sp_map sp) pm' in
    let Y' := named (left_over w sp e va pa ok) ⊎ Y in
    vm_inv (fun v => ex v && negb (ok && (v =? va))) w' sp' Y' O /\
    civil (own w sp ⊎ (named (share e pa) ⊎ Y)) w (total w sp (named (share e pa) ⊎ Y)) w' (total w' sp' Y') /\
    (forall v, upage v -> pm_leaf (vw_mem w') pm' v =
       if ok && (v =? va) then Some (leaf_for pa prot) else pm_leaf (vw_mem w) (sp_pm sp) v) /\
    (pm_leaf (vw_mem w) (sp_pm sp) va <> None -> ok = true) /\
    (forall f, f ∈ total w sp (named (share e pa) ⊎ Y) ->
       multiplicity f (total w' sp' Y') = multiplicity f (total w sp (named (share e pa) ⊎ Y))).
Proof.
  intros I M. apply (enter_gen ex w sp va pa prot _ (fun ok => named (left_over w sp e va pa ok) ⊎ Y) O e I M).
  intros ok pm' ph' L. rewrite !gmultiset_disj_union_assoc. f_equal.
  exact (own_entered (vw_mem w) (ph_mem ph') sp pm' e va pa (leaf_for pa prot) ok
           (mi_page _ _ _ _ _ _ _ M) (mi_range _ _ _ _ _ _ _ M) eq_refl L).
Qed.

(** The frame that is there already, with other rights. *)
Lemma reenter_step ex (w : vmw F) (sp : space P) va prot Y O e lf :
  vm_inv ex w sp Y O -> pm_leaf (vw_mem w) (sp_pm sp) va = Some lf ->
  may_install w sp (total w sp Y) va (lf_pa lf) e (leaf_for (lf_pa lf) prot) ->
  exists pm' ph', enter w (sp_pm sp) va (lf_pa lf) prot = Done (true, pm', set_ph w ph') /\
    let w' := set_ph w ph' in
    let sp' := mkSpace (sp_map sp) pm' in
    vm_inv (fun v => ex v && negb (v =? va)) w' sp' Y O /\
    civil (own w sp ⊎ Y) w (total w sp Y) w' (total w' sp' Y) /\
    (forall v, upage v -> pm_leaf (vw_mem w') pm' v =
       if v =? va then Some (leaf_for (lf_pa lf) prot) else pm_leaf (vw_mem w) (sp_pm sp) v) /\
    (forall f, f ∈ total w sp Y -> multiplicity f (total w' sp' Y) = multiplicity f (total w sp Y)).
Proof.
  intros I El M.
  destruct (enter_gen ex w sp va (lf_pa lf) prot Y (fun _ => Y) O e I M) as (ok & pm' & ph' & E & I' & C & L & Ok & Mt).
  - intros ok pm' ph' L. rewrite (leaf_frames_ext (own_of (vw_mem w) sp)); [reflexivity|]. intros v Hv. unfold own_of. cbn [sp_map sp_pm].
    change (vw_mem (set_ph w ph')) with (ph_mem ph'). rewrite L by exact Hv.
    destruct (ok && (v =? va)) eqn:Ev; [|reflexivity]. apply andb_true_iff in Ev as [_ ->%Z.eqb_eq].
    rewrite El. reflexivity.
  - rewrite Ok in * by (by rewrite El). exists pm', ph'. split; [exact E|]. cbv zeta. split_and!; assumption.
Qed.

(** ** Removing a page: its frame, if counted, becomes the caller's *)

Lemma total_removed (w : vmw F) (sp : space P) Y ph' pm' va :
  upage va -> pm_tables (ph_mem ph') pm' = pm_tables (vw_mem w) (sp_pm sp) ->
  (forall v, upage v -> pm_leaf (ph_mem ph') pm' v = if v =? va then None else pm_leaf (vw_mem w) (sp_pm sp) v) ->
  total (set_ph w ph') (mkSpace (sp_map sp) pm') (named (own_of (vw_mem w) sp va) ⊎ Y) = total w sp Y.
Proof.
  intros Hva T L. rewrite !total_unfold. change (vw_mem (set_ph w ph')) with (ph_mem ph'). cbn [sp_pm].
  rewrite T. f_equal. rewrite gmultiset_disj_union_assoc. f_equal.
  assert (own_of (ph_mem ph') (mkSpace (sp_map sp) pm') va = None) as E0.
  { unfold own_of. cbn [sp_map sp_pm]. rewrite L, Z.eqb_refl by exact Hva. by destruct (anon_at _ _). }
  pose proof (leaf_frames_upd (own_of (vw_mem w) sp) (own_of (ph_mem ph') (mkSpace (sp_map sp) pm')) va Hva) as U.
  rewrite E0 in U. cbn [named] in U. rewrite gmultiset_disj_union_right_id in U. apply U.
  intros v Hv Ne. unfold own_of. cbn [sp_map sp_pm]. rewrite L by exact Hv.
  by rewrite (proj2 (Z.eqb_neq v va) Ne).
Qed.

Lemma remove_step ex (w : vmw F) (sp : space P) va Y O :
  vm_inv ex w sp Y O -> upage va ->
  exists pm' ph', remove w (sp_pm sp) va = (pm', set_ph w ph') /\
    let w' := set_ph w ph' in
    let sp' := mkSpace (sp_map sp) pm' in
    let Y' := named (own_of (vw_mem w) sp va) ⊎ Y in
    vm_inv ex w' sp' Y' O /\
    civil (own w sp ⊎ Y) w (total w sp Y) w' (total w' sp' Y') /\
    (forall v, upage v -> pm_leaf (vw_mem w') pm' v = if v =? va then None else pm_leaf (vw_mem w) (sp_pm sp) v).
Proof.
  intros I Hva. pose proof (vi_space _ _ _ _ _ I) as S.
  destruct (pm_remove_ok (vw_ph w) (sp_pm sp) va (so_pm _ _ _ _ _ S) Hva) as (pm' & ph' & E & Rm).
  pose proof (rm_leaf _ _ _ _ _ _ _ _ Rm) as L. pose proof (rm_tables _ _ _ _ _ _ _ _ Rm) as T.
  pose proof (rm_pmm _ _ _ _ _ _ _ _ Rm) as Ep.
  pose proof (total_removed w sp Y ph' pm' va Hva T L) as Et.
  assert (forall f, frame_pa f -> (f ∉ pm_tables (vw_mem w) (sp_pm sp)) -> same_page (vw_mem w) (ph_mem ph') f) as Kp.
  { intros f Ff Nt. apply (page_kept _ _ _ f (rm_mem _ _ _ _ _ _ _ _ Rm) Ff). intros t Ht. split; [|by intros ->].
    apply (total_frame _ _ _ _ _ t I). rewrite total_unfold. apply gmultiset_elem_of_disj_union. left. by apply elem_frames. }
  exists pm', ph'. split; [unfold remove; by rewrite E|]. cbv zeta. split; [|split; [|exact L]].
  - split; [| |exact (vi_objs _ _ _ _ _ I)]; rewrite Et; change (vw_pmm (set_ph w ph')) with (ph_pmm ph'); rewrite Ep;
      [exact (vi_owned _ _ _ _ _ I)|].
    split; [exact (so_map _ _ _ _ _ S)|exact (so_window _ _ _ _ _ S)|exact (so_entries _ _ _ _ _ S)
      |exact (rm_inv _ _ _ _ _ _ _ _ Rm)| |].
    + intros t Ht. apply (so_tables _ _ _ _ _ S). change (t ∈ pm_tables (ph_mem ph') pm') in Ht.
      rewrite T in Ht. exact Ht.
    + intros v lf Hv. change (pm_leaf (ph_mem ph') pm' v = Some lf -> exists e, find_entry (vm_head (sp_map sp)) v = Some e /\ leaf_wf (ex v) (vw_pmm w) (total w sp Y) e lf).
      rewrite L by exact Hv. destruct (v =? va); [discriminate|]. exact (so_leaf _ _ _ _ _ S v lf Hv).
  - rewrite Et. split; [by change (vw_pmm (set_ph w ph')) with (ph_pmm ph'); rewrite Ep| | |done].
    + intros f Hf. apply Kp; [|by intros Ht; apply (table_alone _ _ _ _ _ f f I Ht Hf)].
      apply (total_frame _ _ _ _ _ f I). rewrite total_unfold. apply gmultiset_elem_of_disj_union. by right.
    + intros f Ff Rf. apply (Kp f Ff). intros Ht.
      apply (owned_not_reserved _ _ f (vi_owned _ _ _ _ _ I)); [|exact Rf].
      rewrite total_unfold. apply gmultiset_elem_of_disj_union. left. by apply elem_frames.
Qed.

(** ** The allocator *)

(** A change of the allocator and of owners outside the space. *)
Lemma vm_inv_owners (ex ex' : Z -> bool) (w : vmw F) (sp : space P) s' Y Y' O :
  vm_inv ex w sp Y O -> owned_by s' (space_frames (vw_mem w) sp ⊎ Y') -> pmm_step (vw_pmm w) s' ->
  (forall v, ex v = true -> ex' v = true) ->
  (forall t, t ∈ pm_tables (vw_mem w) (sp_pm sp) -> multiplicity t (total w sp Y) = 1%nat ->
     multiplicity t (space_frames (vw_mem w) sp ⊎ Y') = 1%nat) ->
  (forall v f, upage v -> ex' v = false -> own_of (vw_mem w) sp v = Some f -> multiplicity f (total w sp Y) = 1%nat ->
     multiplicity f (space_frames (vw_mem w) sp ⊎ Y') = 1%nat) ->
  vm_inv ex' (set_ph w (with_pmm (vw_ph w) s')) sp Y' O.
Proof.
  intros I W' St Hex Mt Mo. apply (vm_inv_mono _ _ _ _ _ _ Hex) in I. destruct I as [W S Ob].
  split; [exact W'| |exact Ob]. pose proof S as [S1 S2 S3 S4 S5 S6].
  split; try assumption.
  - intros t Ht. apply Mt; [exact Ht|by apply S5].
  - intros v lf Hv El. destruct (S6 v lf Hv El) as (e & Fe & L). exists e. split; [exact Fe|].
    split; [exact (lw_prot _ _ _ _ _ L)| | |exact (lw_fixable _ _ _ _ _ L)].
    + intros Hx Hw. apply (Mo v); [exact Hv|exact Hx| |exact (lw_single _ _ _ _ _ L Hx Hw)].
      apply (own_of_Some _ _ _ e lf); [exact Fe| |exact El]. exact (writable_anon _ _ _ _ _ _ _ _ S Fe L Hw).
    + intros A. apply (reserved_step _ _ _ St); [|exact (lw_borrowed _ _ _ _ _ L A)].
      exact (frame_pa_nonneg _ (pm_leaf_pa _ _ _ _ S4 Hv El)).
Qed.

Lemma own_sub_total (w : vmw F) (sp : space P) Y : own w sp ⊆ total w sp Y.
Proof. rewrite total_unfold. apply sub_rl. Qed.

Lemma alloc_step ex (w : vmw F) (sp : space P) Y O :
  vm_inv ex w sp Y O ->
  exists pa w', alloc_frame w = (pa, w') /\
    ((pa = PA_INVALID /\ w' = w) \/
     (exists s', w' = set_ph w (with_pmm (vw_ph w) s') /\ frame_pa pa /\ pa <> PA_INVALID /\
        (pa ∉ total w sp Y) /\ ~ reserved (vw_pmm w) pa /\
        vm_inv ex w' sp ({[+ pa +]} ⊎ Y) O /\
        civil (total w sp Y) w (total w sp Y) w' (total w' sp ({[+ pa +]} ⊎ Y)) /\
        multiplicity pa (total w' sp ({[+ pa +]} ⊎ Y)) = 1%nat)).
Proof.
  intros I. pose proof (own_alloc _ _ (vi_owned _ _ _ _ _ I)) as A. unfold alloc_frame.
  destruct (pmm_alloc_page (vw_pmm w)) as [pa s']. exists pa, (set_ph w (with_pmm (vw_ph w) s')). split; [reflexivity|].
  destruct A as [St [[-> ->]|(G & Np & Nr & Nx & W')]]; [left; split; [reflexivity|]|right].
  { destruct w as [[] ? ? ?]. reflexivity. }
  assert (total (set_ph w (with_pmm (vw_ph w) s')) sp ({[+ pa +]} ⊎ Y) = {[+ pa +]} ⊎ total w sp Y) as Et
    by apply union_swap.
  exists s'. split; [reflexivity|]. split; [by apply good_frame_pa|]. split; [exact Np|]. split; [exact Nx|].
  split; [exact Nr|]. split_and!.
  - apply (vm_inv_owners ex ex w sp s' Y); [exact I| |exact St|done|..].
    + change (owned_by s' (total (set_ph w (with_pmm (vw_ph w) s')) sp ({[+ pa +]} ⊎ Y))). by rewrite Et.
    + intros t _ Mt. rewrite union_swap. by apply mult_add_out.
    + intros v f _ _ _ Mf. rewrite union_swap. by apply mult_add_out.
  - rewrite Et. split; [exact St|done|done|]. intros f _ Mf. by apply mult_add_out.
  - rewrite Et, mult_union, mult_one, mult_out; [done|exact Nx].
Qed.

Lemma free_step ex (w : vmw F) (sp : space P) pa Y O :
  vm_inv ex w sp ({[+ pa +]} ⊎ Y) O ->
  exists s', free_frame w pa = Done (set_ph w (with_pmm (vw_ph w) s')) /\
    let w' := set_ph w (with_pmm (vw_ph w) s') in
    vm_inv ex w' sp Y O /\ civil (total w sp Y) w (total w sp ({[+ pa +]} ⊎ Y)) w' (total w' sp Y).
Proof.
  intros I. pose proof (vi_owned _ _ _ _ _ I) as W.
  assert (total w sp ({[+ pa +]} ⊎ Y) = {[+ pa +]} ⊎ total w sp Y) as Et by apply union_swap.
  rewrite Et in W. destruct (own_free _ _ _ W) as (s' & E & W' & St). exists s'.
  split; [unfold free_frame; by rewrite E|]. cbv zeta. split.
  - apply (vm_inv_owners ex ex w sp s' ({[+ pa +]} ⊎ Y)); [exact I|exact W'|exact St|done|..].
    + intros t Ht. rewrite Et. apply mult_sub. apply gmultiset_elem_of_disj_union. left. by apply table_in.
    + intros v f Hv _ Ho. rewrite Et. apply mult_sub. apply gmultiset_elem_of_disj_union. left. by apply (own_in _ _ v).
  - rewrite Et. split; [exact St|done|done|]. intros f Hf. by apply mult_sub.
Qed.

Lemma leaf_frames_two (f : Z -> option Z) u v pa :
  upage u -> upage v -> u <> v -> f u = Some pa -> f v = Some pa -> (2 <= multiplicity pa (leaf_frames f))%nat.
Proof.
  intros Hu Hv N Fu Fv. rewrite (leaf_frames_take f u pa Hu Fu).
  rewrite (leaf_frames_take _ v pa Hv).
  - rewrite !mult_union, mult_one. lia.
  - cbn. by rewrite (proj2 (Z.eqb_neq v u) (not_eq_sym N)).
Qed.

(** A second owner for the frame at [va]: its leaf there is not the only
    owner any more. *)
Lemma ref_step ex (w : vmw F) (sp : space P) va pa Y O :
  vm_inv ex w sp Y O -> upage va -> own_of (vw_mem w) sp va = Some pa ->
  Z.of_nat (multiplicity pa (total w sp Y)) < 65535 ->
  exists s', ref_frame w pa = Done (set_ph w (with_pmm (vw_ph w) s')) /\
    let w' := set_ph w (with_pmm (vw_ph w) s') in
    vm_inv (fun v => ex v || (v =? va)) w' sp ({[+ pa +]} ⊎ Y) O /\
    civil Y w (total w sp Y) w' (total w' sp ({[+ pa +]} ⊎ Y)).
Proof.
  intros I Hva Ho Hm. pose proof (vi_owned _ _ _ _ _ I) as W.
  assert (pa ∈ space_frames (vw_mem w) sp) as Hs by (by apply (own_in _ _ va)).
  assert (pa ∈ total w sp Y) as Hin by (apply gmultiset_elem_of_disj_union; by left).
  destruct (own_ref _ _ _ W Hin Hm) as (s' & E & W' & St). exists s'.
  assert (space_frames (vw_mem w) sp ⊎ ({[+ pa +]} ⊎ Y) = {[+ pa +]} ⊎ total w sp Y) as Et by apply union_swap.
  assert (forall f, f <> pa -> multiplicity f (total w sp Y) = 1%nat ->
            multiplicity f ({[+ pa +]} ⊎ total w sp Y) = 1%nat) as Keep.
  { intros f Ne Mf. rewrite mult_union, mult_other; done. }
  split; [unfold ref_frame; by rewrite E|]. cbv zeta. split.
  - apply (vm_inv_owners ex _ w sp s' Y); [exact I|by rewrite Et|exact St|by intros v ->|..]; rewrite Et.
    + intros t Ht. apply Keep. apply (table_alone _ _ _ _ _ t pa I Ht). apply gmultiset_elem_of_disj_union. left.
      apply leaf_frames_in. by exists va.
    + intros v f Hv [_ Nv%Z.eqb_neq]%orb_false_iff Hf Mf. apply Keep; [|exact Mf]. intros ->.
      pose proof (leaf_frames_two _ v va pa Hv Hva Nv Hf Ho) as Two.
      rewrite total_unfold, !mult_union in Mf. lia.
  - change (civil Y w (total w sp Y) (set_ph w (with_pmm (vw_ph w) s')) (space_frames (vw_mem w) sp ⊎ ({[+ pa +]} ⊎ Y))).
    rewrite Et. split; [exact St|done|done|]. intros f Hf Mf. apply Keep; [|exact Mf]. intros ->.
    unfold total in Mf. rewrite mult_union in Mf. rewrite mult_in in Hf, Hs. lia.
Qed.

(** ** Bytes of a frame nobody else has *)

Lemma vm_inv_mem ex (w : vmw F) (sp : space P) Y O m' :
  vm_inv ex w sp Y O ->
  (forall t, t ∈ pm_tables (vw_mem w) (sp_pm sp) -> same_page (vw_mem w) m' t) ->
  let w' := set_ph w (with_mem (vw_ph w) m') in
  vm_inv ex w' sp Y O /\ space_frames m' sp = space_frames (vw_mem w) sp /\
  forall v, upage v -> pm_leaf m' (sp_pm sp) v = pm_leaf (vw_mem w) (sp_pm sp) v.
Proof.
  intros [W S Ob] Sm. destruct (pm_local (vw_mem w) m' (sp_pm sp) (so_pm _ _ _ _ _ S) Sm) as (I' & T' & L').
  assert (space_frames m' sp = space_frames (vw_mem w) sp) as Es.
  { unfold space_frames. rewrite T', (leaf_frames_ext (own_of (vw_mem w) sp)); [reflexivity|].
    intros v Hv. unfold own_of. rewrite L' by exact Hv. reflexivity. }
  split; [|split; [exact Es|exact L']]. unfold total in W, S. rewrite <- Es in W, S. split; [exact W| |exact Ob].
  destruct S as [S1 S2 S3 S4 S5 S6].
  split; [exact S1|exact S2|exact S3|exact I'| |].
  - intros t Ht. apply S5. change (t ∈ pm_tables m' (sp_pm sp)) in Ht. rewrite T' in Ht. exact Ht.
  - intros v lf Hv El. change (pm_leaf m' (sp_pm sp) v = Some lf) in El. rewrite (L' v Hv) in El.
    exact (S6 v lf Hv El).
Qed.

Lemma write_step ex (w : vmw F) (sp : space P) pa Y O m' :
  vm_inv ex w sp ({[+ pa +]} ⊎ Y) O -> multiplicity pa (total w sp ({[+ pa +]} ⊎ Y)) = 1%nat ->
  (forall a, ~ in_page pa a -> ld8 m' a = ld8 (vw_mem w) a) ->
  let w' := set_ph w (with_mem (vw_ph w) m') in
  vm_inv ex w' sp ({[+ pa +]} ⊎ Y) O /\
  total w' sp ({[+ pa +]} ⊎ Y) = total w sp ({[+ pa +]} ⊎ Y) /\
  space_frames m' sp = space_frames (vw_mem w) sp /\
  civil (space_frames (vw_mem w) sp ⊎ Y) w (total w sp ({[+ pa +]} ⊎ Y)) w' (total w' sp ({[+ pa +]} ⊎ Y)) /\
  forall v, upage v -> pm_leaf m' (sp_pm sp) v = pm_leaf (vw_mem w) (sp_pm sp) v.
Proof.
  intros I Mp Out. cbv zeta.
  assert (pa ∈ total w sp ({[+ pa +]} ⊎ Y)) as Hin by (rewrite mult_in; lia).
  assert (forall f, frame_pa f -> f <> pa -> same_page (vw_mem w) m' f) as Kp.
  { intros f Ff Ne. apply (page_kept _ _ [pa] f); [|exact Ff|].
    - intros a Ha. apply Out, Ha. by left.
    - intros t ->%list_elem_of_singleton. split; [exact (total_frame _ _ _ _ _ pa I Hin)|by apply not_eq_sym]. }
  assert (forall f, f ∈ space_frames (vw_mem w) sp ⊎ Y -> frame_pa f /\ f <> pa) as Oth.
  { intros f Hf. split.
    - apply (total_frame _ _ _ _ _ f I). unfold total. by apply sub_mid.
    - intros ->. unfold total in Mp. rewrite union_swap, mult_union, mult_one in Mp. rewrite mult_in in Hf. lia. }
  destruct (vm_inv_mem _ _ _ _ _ m' I) as (I' & Es & L').
  { intros t Ht. apply Kp; apply Oth, gmultiset_elem_of_disj_union; left; by apply table_in. }
  split; [exact I'|]. assert (total (set_ph w (with_mem (vw_ph w) m')) sp ({[+ pa +]} ⊎ Y) = total w sp ({[+ pa +]} ⊎ Y)) as Et.
  { unfold total. change (vw_mem (set_ph w (with_mem (vw_ph w) m'))) with m'. by rewrite Es. }
  split; [exact Et|]. split; [exact Es|]. split; [|exact L']. rewrite Et. split; [done| | |done].
  - intros f Hf. by apply Kp; apply Oth.
  - intros f Ff Rf. apply (Kp f Ff). intros ->. exact (owned_not_reserved _ _ _ (vi_owned _ _ _ _ _ I) Hin Rf).
Qed.

Lemma civil_refl R (w w' : vmw F) X : vw_ph w' = vw_ph w -> civil R w X w' X.
Proof. intros E. unfold civil, vw_pmm, vw_mem. rewrite E. apply polite_refl. Qed.

Lemma civil_trans R (w1 w2 w3 : vmw F) X1 X2 X3 : civil R w1 X1 w2 X2 -> civil R w2 X2 w3 X3 -> civil R w1 X1 w3 X3.
Proof. apply polite_trans. Qed.

Lemma civil_weaken R R' (w w' : vmw F) X X' : R' ⊆ R -> civil R w X w' X' -> civil R' w X w' X'.
Proof. apply polite_weaken. Qed.

(** ** Contents *)

(** A page whose leaf stays reads the same, as long as the frames under the
    space's leaves are left alone. *)
Lemma view_same ex (w w' : vmw F) (sp sp' : space P) Y O R X X' v i :
  vm_inv ex w sp Y O -> civil R w X w' X' -> own w sp ⊆ R ->
  upage v -> lf_pa <$> pm_leaf (vw_mem w') (sp_pm sp') v = lf_pa <$> pm_leaf (vw_mem w) (sp_pm sp) v ->
  0 <= i < PAGE_SIZE -> page_view (vw_mem w') sp' v i = page_view (vw_mem w) sp v i.
Proof.
  intros I [St M V N] Sub Hv El Hi. unfold page_view. rewrite El.
  destruct (pm_leaf (vw_mem w) (sp_pm sp) v) as [lf|] eqn:E; [|reflexivity].
  change (Some (ld8 (vw_mem w') (lf_pa lf + i)) = Some (ld8 (vw_mem w) (lf_pa lf + i))). f_equal.
  pose proof (vi_space _ _ _ _ _ I) as S. pose proof (pm_leaf_pa _ _ _ _ (so_pm _ _ _ _ _ S) Hv E) as Fp.
  destruct (so_leaf _ _ _ _ _ S v lf Hv E) as (e & Fe & L).
  assert (same_page (vw_mem w) (vw_mem w') (lf_pa lf)) as Sp; [|apply Sp; lia].
  destruct (has (vme_flags e) VME_F_ANON) eqn:A; [|apply V; [exact Fp|exact (lw_borrowed _ _ _ _ _ L A)]].
  apply M. apply (gmultiset_elem_of_subseteq (own w sp)); [|exact Sub]. apply leaf_frames_in. exists v.
  split; [exact Hv|]. exact (own_of_Some _ _ _ _ _ Fe A E).
Qed.

(** A new frame, filled by [g] before anyone sees it. *)
Record filled ex (w : vmw F) (sp : space P) (Y O : gmultiset Z) (pa : Z) (m' : mem) (w1 w2 : vmw F) : Prop := {
  fl_world : exists s', w1 = set_ph w (with_pmm (vw_ph w) s');
  fl_write : w2 = set_ph w1 (with_mem (vw_ph w1) m');
  fl_frame : frame_pa pa;
  fl_valid : (pa =? PA_INVALID) = false;
  fl_new : pa ∉ total w sp Y;
  fl_inv : vm_inv ex w2 sp ({[+ pa +]} ⊎ Y) O;
  fl_civil : civil (total w sp Y) w (total w sp Y) w2 (total w2 sp ({[+ pa +]} ⊎ Y));
  fl_single : multiplicity pa (total w2 sp ({[+ pa +]} ⊎ Y)) = 1%nat;
  fl_frames : space_frames (vw_mem w2) sp = space_frames (vw_mem w) sp;
  fl_leaf : forall v, upage v -> pm_leaf (vw_mem w2) (sp_pm sp) v = pm_leaf (vw_mem w) (sp_pm sp) v;
}.

Lemma alloc_fill ex (w : vmw F) (sp : space P) Y O (g : Z -> mem) :
  vm_inv ex w sp Y O ->
  (forall pa a, frame_pa pa -> (pa ∉ total w sp Y) -> ~ in_page pa a -> ld8 (g pa) a = ld8 (vw_mem w) a) ->
  exists pa w1, alloc_frame w = (pa, w1) /\
    ((pa = PA_INVALID /\ w1 = w) \/
     filled ex w sp Y O pa (g pa) w1 (set_ph w1 (with_mem (vw_ph w1) (g pa)))).
Proof.
  intros I Hg. destruct (alloc_step _ w sp Y O I) as (pa & w1 & Ea & D). exists pa, w1. split; [exact Ea|].
  destruct D as [D|(s1 & -> & Fp & Np & Nx & _ & I1 & C1 & M1)]; [by left|right].
  set (w1 := set_ph w (with_pmm (vw_ph w) s1)) in *.
  destruct (write_step _ w1 sp pa Y O (g pa) I1 M1) as (I2 & T2 & Es & C2 & L2); [intros a; exact (Hg pa a Fp Nx)|].
  split; [by exists s1|reflexivity|exact Fp|by apply Z.eqb_neq|exact Nx|exact I2| |by rewrite T2|exact Es|exact L2].
  eapply civil_trans; [exact C1|exact C2].
Qed.

Lemma filled_view ex (w : vmw F) (sp : space P) Y O pa m' w1 w2 v i :
  filled ex w sp Y O pa m' w1 w2 -> vm_inv ex w sp Y O -> upage v -> 0 <= i < PAGE_SIZE ->
  page_view (vw_mem w2) sp v i = page_view (vw_mem w) sp v i.
Proof.
  intros Fl I Hv Hi. apply (view_same ex w w2 sp sp Y O _ _ _ v i I (fl_civil _ _ _ _ _ _ _ _ _ Fl));
    [apply own_sub_total|exact Hv| |exact Hi].
  exact (f_equal (fmap lf_pa) (fl_leaf _ _ _ _ _ _ _ _ _ Fl v Hv)).
Qed.

(** ** Changes beside the frames *)

Lemma vm_inv_same ex (w w' : vmw F) (sp : space P) Y O :
  vw_ph w' = vw_ph w -> vw_objs w' = vw_objs w -> vm_inv ex w sp Y O -> vm_inv ex w' sp Y O.
Proof.
  intros Ep Eo [W S Ob].
  assert (vw_mem w' = vw_mem w) as Em by (unfold vw_mem; by rewrite Ep).
  assert (vw_pmm w' = vw_pmm w) as Es by (unfold vw_pmm; by rewrite Ep).
  unfold total in *. split; unfold total; rewrite ?Em, ?Es, ?Eo; assumption.
Qed.

Lemma vm_inv_objs ex (w : vmw F) (sp : space P) Y O o' O' :
  vm_inv ex w sp Y O -> objs_ok o' (entry_names (vm_head (sp_map sp)) ⊎ O') ->
  vm_inv ex (set_objs w o') sp Y O'.
Proof. intros [W S Ob] Ok. split; [exact W|exact S|exact Ok]. Qed.

(** No pager's reference count is about to wrap. *)
Definition few_refs (X : gmultiset Z) : Prop := forall a, Z.of_nat (multiplicity a X) + 1 < 2 ^ 32.

Lemma take_object ex (w : vmw F) (sp : space P) Y O e :
  vm_inv ex w sp Y O -> e ∈ vm_head (sp_map sp) -> few_refs (entry_names (vm_head (sp_map sp)) ⊎ O) ->
  exists o, vm_object_ref (vw_objs w) (vme_object e) = Done o /\
    vm_inv ex (set_objs w o) sp Y (named (vme_object e) ⊎ O).
Proof.
  intros I He B. destruct (vm_object_ref_ok (vw_objs w) _ (vme_object e) (vi_objs _ _ _ _ _ I)) as (o & E & Ok & _).
  - etrans; [exact (entry_names_elem _ _ He)|apply sub_l].
  - intros a _. apply B.
  - exists o. split; [exact E|]. apply (vm_inv_objs _ _ _ _ O); [exact I|]. by rewrite union_swap.
Qed.

Lemma drop_object ex (w : vmw F) (sp : space P) Y O obj :
  vm_inv ex w sp Y (named obj ⊎ O) ->
  exists o, vm_object_deref (vw_objs w) obj = Done o /\ vm_inv ex (set_objs w o) sp Y O.
Proof.
  intros I. pose proof (vi_objs _ _ _ _ _ I) as Ok. rewrite union_swap in Ok.
  destruct (vm_object_deref_ok _ _ _ Ok) as (o & E & Ok'). exists o. split; [exact E|].
  exact (vm_inv_objs _ _ _ _ _ _ _ I Ok').
Qed.

Lemma read_object ex (w : vmw F) (sp : space P) Y O obj off :
  0 <= off -> vm_inv ex w sp Y (named obj ⊎ O) ->
  exists r o, vm_object_page (vw_objs w) obj off = Done (r, o) /\
    vm_inv ex (set_objs w o) sp Y (named obj ⊎ O) /\
    (forall bs, r = Some bs -> Z.of_nat (length bs) <= PAGE_SIZE).
Proof.
  intros Ho I. destruct (vm_object_page_ok _ _ obj off (vi_objs _ _ _ _ _ I)) as (r & o & E & Ok & L); [apply sub_rl|].
  exists r, o. split; [exact E|]. split; [exact (vm_inv_objs _ _ _ _ _ _ _ I Ok)|].
  intros bs Hr. destruct (L bs Hr) as (a & v & _ & _ & ->). unfold VM_OBJ_PAGE_BYTES, PAGE_SIZE. lia.
Qed.

(** What a rewrite of a range may change while pages are mapped under it. *)
Record same_range (e e' : vm_map_entry) : Prop := {
  sr_prot : vme_prot e' = vme_prot e;
  sr_anon : has (vme_flags e') VME_F_ANON = has (vme_flags e) VME_F_ANON;
  sr_cow : has (vme_flags e) VME_F_COW = true -> has (vme_flags e') VME_F_COW = true;
}.

Lemma same_range_leaf b s X e e' lf : same_range e e' -> leaf_wf b s X e lf -> leaf_wf b s X e' lf.
Proof.
  intros [Sp Sa Sc] [L1 L2 L3 L4]. split; [by rewrite Sp|exact L2|by rewrite Sa|].
  rewrite Sp. intros Hw Hl. apply Sc, L4; assumption.
Qed.

Lemma vm_inv_map ex (w : vmw F) (sp : space P) m' o' Y O O' :
  vm_inv ex w sp Y O -> map_ok m' -> vm_lo m' = vm_lo (sp_map sp) -> vm_hi m' = vm_hi (sp_map sp) ->
  (forall e, e ∈ vm_head m' -> entry_wf e) ->
  (forall v e, upage v -> pm_leaf (vw_mem w) (sp_pm sp) v <> None -> find_entry (vm_head (sp_map sp)) v = Some e ->
     exists e', find_entry (vm_head m') v = Some e' /\ same_range e e') ->
  objs_ok o' (entry_names (vm_head m') ⊎ O') ->
  let sp' := mkSpace m' (sp_pm sp) in
  vm_inv ex (set_objs w o') sp' Y O' /\ space_frames (vw_mem w) sp' = space_frames (vw_mem w) sp /\
  (forall v, upage v -> own_of (vw_mem w) sp' v = own_of (vw_mem w) sp v).
Proof.
  intros [W S Ob] Mo Elo Ehi We Fi Ok. cbv zeta. set (sp' := mkSpace m' (sp_pm sp)).
  assert (forall v, upage v -> own_of (vw_mem w) sp' v = own_of (vw_mem w) sp v) as Eo.
  { intros v Hv. unfold own_of. cbn [sp' sp_map sp_pm].
    destruct (pm_leaf (vw_mem w) (sp_pm sp) v) as [lf|] eqn:El; [|by repeat destruct (anon_at _ _)].
    destruct (so_leaf _ _ _ _ _ S v lf Hv El) as (e & Fe & _).
    destruct (Fi v e Hv) as (e' & Fe' & Sr); [by rewrite El|exact Fe|].
    rewrite (anon_at_find _ _ _ Fe), (anon_at_find _ _ _ Fe'), (sr_anon _ _ Sr). reflexivity. }
  assert (space_frames (vw_mem w) sp' = space_frames (vw_mem w) sp) as Es.
  { unfold space_frames. rewrite (leaf_frames_ext _ _ Eo). reflexivity. }
  split; [|split; [exact Es|exact Eo]]. unfold total in W, S. rewrite <- Es in W, S.
  split; [exact W| |exact Ok].
  split; [exact Mo| |exact We|exact (so_pm _ _ _ _ _ S)|exact (so_tables _ _ _ _ _ S)|].
  - cbn [sp' sp_map]. rewrite Elo, Ehi. exact (so_window _ _ _ _ _ S).
  - intros v lf Hv El. destruct (so_leaf _ _ _ _ _ S v lf Hv El) as (e & Fe & L).
    destruct (Fi v e Hv) as (e' & Fe' & Sr); [intros Nl; change (pm_leaf (vw_mem w) (sp_pm sp) v = Some lf) in El; by rewrite Nl in El|exact Fe|].
    exists e'. split; [exact Fe'|]. exact (same_range_leaf _ _ _ _ _ _ Sr L).
Qed.

(** ** A new range over unmapped pages *)

Lemma enter_backed_find (m : vm_map) va size prot flags obj off h :
  map_ok m -> u64 va -> u64 size ->
  let '(ok, m', h') := vm_map_enter_backed m va size prot flags obj off h in
  if ok then
    can_enter m va size /\ map_ok m' /\ vm_lo m' = vm_lo m /\ vm_hi m' = vm_hi m /\
    vm_head m' = insert_entry (vm_head m) (mkVme va (va + size) off obj prot flags) /\
    (forall v, find_entry (vm_head m') v =
       if in_span v va size then Some (mkVme va (va + size) off obj prot flags) else find_entry (vm_head m) v)
  else m' = m.
Proof.
  intros M Hv Hs. destruct (enter_backed_cases m va size prot flags obj off h M Hv Hs) as [[h' ->]|[Can Hh]]; [reflexivity|].
  destruct h as [|[] h]; [done| |done].
  destruct (enter_backed_true m va size prot flags obj off h M Hv Hs Can) as (m' & -> & M' & Elo & Ehi & Em & _).
  split_and!; try done; [by rewrite Em|]. intros v. rewrite Em. cbn [with_entries vm_head].
  rewrite (find_insert _ _ _ _ _ (mo_chain m M)); [reflexivity|cbn; destruct Can; lia|].
  cbn [vme_start vme_end]. apply (range_free_spec _ _ _ _ _ (mo_chain m M)); [destruct Can; lia|].
  intros v' Hv'. apply backing_None; [exact M|]. by apply Can.
Qed.

Lemma insert_entry_in l ne e : e ∈ insert_entry l ne -> e = ne \/ e ∈ l.
Proof.
  induction l as [|x l IH]; cbn [insert_entry]; [intros ->%list_elem_of_singleton; by left|].
  destruct (_ <? _); rewrite !elem_of_cons; [intros [->|Hx]|intros [->|[->|Hx]]]; try tauto.
Qed.

(** What [vm_map_enter_backed] does to a space; the caller's pager reference
    becomes the range's. *)
Lemma space_enter ex (w : vmw F) (sp : space P) va size prot flags obj off h Y O :
  let ne := mkVme va (va + size) off obj prot flags in
  vm_inv ex w sp Y (named obj ⊎ O) -> entry_wf ne -> u64 va -> u64 size ->
  let '(ok, m', h') := vm_map_enter_backed (sp_map sp) va size prot flags obj off h in
  if ok then
    can_enter (sp_map sp) va size /\ vm_inv ex w (mkSpace m' (sp_pm sp)) Y O /\
    space_frames (vw_mem w) (mkSpace m' (sp_pm sp)) = space_frames (vw_mem w) sp /\
    vm_lo m' = vm_lo (sp_map sp) /\ vm_hi m' = vm_hi (sp_map sp) /\
    vm_head m' = insert_entry (vm_head (sp_map sp)) ne /\
    (forall v, find_entry (vm_head m') v = if in_span v va size then Some ne else find_entry (vm_head (sp_map sp)) v)
  else m' = sp_map sp.
Proof.
  intros ne I Wf Hv Hs. pose proof (so_map _ _ _ _ _ (vi_space _ _ _ _ _ I)) as M.
  pose proof (enter_backed_find (sp_map sp) va size prot flags obj off h M Hv Hs) as En.
  destruct (vm_map_enter_backed _ _ _ _ _ _ _ _) as [[ok m'] h']. destruct ok; [|exact En].
  destruct En as (Can & M' & Elo & Ehi & Eh & Fi). fold ne in Eh, Fi.
  destruct (vm_inv_map ex w sp m' (vw_objs w) Y (named obj ⊎ O) O I M' Elo Ehi) as (I' & Es & _).
  - intros e. rewrite Eh. intros [->|He]%insert_entry_in; [exact Wf|]. exact (so_entries _ _ _ _ _ (vi_space _ _ _ _ _ I) e He).
  - intros v e Hv' _ Fe. exists e. split; [|by split]. rewrite Fi. destruct (in_span v va size) eqn:Sp; [|exact Fe].
    exfalso. assert (backing (sp_map sp) v = None) as Bn by (apply Can; unfold in_span in Sp; lia).
    apply backing_None in Bn; [|exact M]. by rewrite Bn in Fe.
  - rewrite Eh, entry_names_insert. cbn [ne vme_object]. pose proof (vi_objs _ _ _ _ _ I) as Ob.
    by rewrite union_swap, gmultiset_disj_union_assoc in Ob.
  - split; [exact Can|]. split; [by apply (vm_inv_same _ (set_objs w (vw_objs w)))|]. split; [exact Es|].
    split; [exact Elo|]. split; [exact Ehi|]. split; [exact Eh|exact Fi].
Qed.

Lemma found_upage ex (w : vmw F) (sp : space P) Y O v e :
  vm_inv ex w sp Y O -> aligned v -> find_entry (vm_head (sp_map sp)) v = Some e -> upage v.
Proof.
  intros I A Fe. pose proof (vi_space _ _ _ _ _ I) as S. pose proof (so_map _ _ _ _ _ S) as M.
  assert (vm_lo (sp_map sp) <= v < vm_hi (sp_map sp)) as B.
  { apply backing_out; [exact M|]. intros N. apply backing_None in N; [|exact M]. by rewrite N in Fe. }
  destruct (so_window _ _ _ _ _ S). split; [lia|exact A].
Qed.

Lemma extract_leaf ex (w : vmw F) (sp : space P) Y O v :
  vm_inv ex w sp Y O -> upage v ->
  extract w (sp_pm sp) v =
    match pm_leaf (vw_mem w) (sp_pm sp) v with Some lf => lf_pa lf | None => PA_INVALID end.
Proof. intros I Hv. apply pm_extract_ok; [apply (vi_space _ _ _ _ _ I)|exact Hv]. Qed.

Lemma leaf_valid ex (w : vmw F) (sp : space P) Y O v lf :
  vm_inv ex w sp Y O -> upage v -> pm_leaf (vw_mem w) (sp_pm sp) v = Some lf -> (lf_pa lf =? PA_INVALID) = false.
Proof.
  intros I Hv El. destruct (pm_leaf_pa _ _ _ _ (so_pm _ _ _ _ _ (vi_space _ _ _ _ _ I)) Hv El) as [B _].
  unfold PA_INVALID. lia.
Qed.

Lemma lookup_entry ex (w : vmw F) (sp : space P) Y O v i e :
  vm_inv ex w sp Y O -> vm_map_lookup (sp_map sp) v = Some (i, e) -> find_entry (vm_head (sp_map sp)) v = Some e.
Proof.
  intros I L. rewrite <- (lookup_find (sp_map sp) v (so_map _ _ _ _ _ (vi_space _ _ _ _ _ I))), L. reflexivity.
Qed.

Lemma lookup_no_entry ex (w : vmw F) (sp : space P) Y O v :
  vm_inv ex w sp Y O -> vm_map_lookup (sp_map sp) v = None -> find_entry (vm_head (sp_map sp)) v = None.
Proof.
  intros I L. rewrite <- (lookup_find (sp_map sp) v (so_map _ _ _ _ _ (vi_space _ _ _ _ _ I))), L. reflexivity.
Qed.

Lemma found_entry_wf ex (w : vmw F) (sp : space P) Y O v e :
  vm_inv ex w sp Y O -> find_entry (vm_head (sp_map sp)) v = Some e -> entry_wf e.
Proof.
  intros I Fe. apply (so_entries _ _ _ _ _ (vi_space _ _ _ _ _ I)). by apply (find_entry_Some _ v).
Qed.

End Step.
