(* ===== verification/VmDemo.v ===== *)
(** A small machine for concrete runs of [vm/vm.c]: 32 frames of memory, the
    amd64 page tables of an empty user space, and a map with a file-backed
    range and a zero-fill range. *)

From stdpp Require Import base list numbers strings gmap gmultiset.
From Stdlib Require Import ZArith Lia ZifyBool.
From S2P Require Import Prelude Pmm Phys VmObject VmMap Pmap Vm VmInv VmStep.

Definition demo_user_map : vm_map :=
  mkMap VM_USER_VA_LO VM_USER_VA_HI VM_USER_VA_LO
    [mkVme VM_USER_VA_LO (VM_USER_VA_LO + 12288) 0 (Some 7) 11 5;
     mkVme (VM_USER_VA_LO + 65536) (VM_USER_VA_LO + 81920) 0 None 11 5] 2.

Definition demo_vw : vmw one_file := mkVmw demo_user [true; true] demo_objs (fun _ => 0).
Definition demo_space : space pmap := mkSpace demo_user_map demo_pmap.

Lemma leaf_frames_none (f : Z -> option Z) : (forall v, upage v -> f v = None) -> leaf_frames f = ∅.
Proof.
  intros E. unfold leaf_frames. replace (omap f upages) with (@nil Z); [reflexivity|].
  symmetry. apply omap_none_in. intros v Hv%elem_upages. exact (E v Hv).
Qed.

Lemma demo_user_map_ok : map_ok demo_user_map.
Proof. split; cbn; unfold aligned, VM_PAGE_SIZE, VM_USER_VA_LO, VM_USER_VA_HI; repeat split; try done; lia. Qed.

Lemma demo_user_names : entry_names (vm_head demo_user_map) ⊎ ∅ = entry_names (vm_head demo_map) ⊎ ∅.
Proof. reflexivity. Qed.

Lemma demo_frames : space_frames (vw_mem demo_vw) demo_space = frames [16384; 20480].
Proof.
  unfold space_frames. rewrite leaf_frames_none, gmultiset_disj_union_right_id.
  - change (frames (tables_of (ph_mem demo_user) demo_pmap) = frames [16384; 20480]).
    by rewrite (proj1 (proj2 demo_tree)).
  - intros v _. unfold own_of. change (pm_leaf (vw_mem demo_vw) (sp_pm demo_space) v)
      with (leaf_of (ph_mem demo_user) demo_pmap v).
    rewrite (proj2 (proj2 demo_tree) v). by destruct (anon_at _ _).
Qed.

Lemma demo_vm_inv : vm_inv no_ex demo_vw demo_space ∅ ∅.
Proof.
  pose proof demo_user_owned as W. rewrite (proj1 (proj2 demo_tree)) in W. split.
  - unfold total. rewrite demo_frames. exact W.
  - unfold total. rewrite demo_frames. split.
    + exact demo_user_map_ok.
    + cbn. lia.
    + intros e. cbn. rewrite !elem_of_cons. intros [->|[->|[]%not_elem_of_nil]]; by split.
    + exact (proj1 demo_tree).
    + intros t Ht. change (t ∈ tables_of (ph_mem demo_user) demo_pmap) in Ht.
      rewrite (proj1 (proj2 demo_tree)) in Ht. rewrite gmultiset_disj_union_right_id. apply mult_nodup; [|exact Ht].
      by repeat constructor; rewrite ?elem_of_cons, ?elem_of_nil; intros [].
    + intros v lf _ El. change (leaf_of (ph_mem demo_user) demo_pmap v = Some lf) in El.
      by rewrite (proj2 (proj2 demo_tree) v) in El.
  - exact demo_objs_ok.
Qed.

Lemma demo_few_refs : few_refs (entry_names (vm_head (sp_map demo_space)) ⊎ ∅).
Proof. intros a. apply demo_names_small. Qed.
