(* ===== verification/VmFault.v ===== *)
(** Page faults, [vm_fault] of [vm/vm.c]: demand zero, demand paging and
    copy-on-write.  Each window keeps the invariant of [VmInv] whatever other
    threads did before it, and an undisturbed fault does what it promises. *)

From stdpp Require Import base list numbers strings gmap gmultiset.
From Stdlib Require Import ZArith Lia ZifyBool.
From S2P Require Import Prelude Pmm Phys VmObject VmMap Pmap Vm VmInv VmStep VmDemo.

Section Fault.
Context {P : Type} `{PmapSpec P} {F : Type} `{FsOps F}.

Abbreviation own w sp := (leaf_frames (own_of (vw_mem w) sp)).

(** What a suspended fault holds: the prepared frame, and the pager. *)
Definition in_flight (c : fault_cont) : gmultiset Z :=
  match c with FaultDone _ => ∅ | FaultCow _ _ pa | FaultFill _ _ pa => {[+ pa +]} end.
Definition held (c : fault_cont) : gmultiset Z :=
  match c with FaultFill _ obj _ => named obj | _ => ∅ end.

(** What it relies on when it resumes. *)
Definition prepared (w : vmw F) (X : gmultiset Z) (c : fault_cont) : Prop :=
  match c with
  | FaultDone _ => True
  | FaultCow page old pa => aligned page /\ multiplicity pa X = 1%nat /\ 0 <= old /\ ~ reserved (vw_pmm w) old
  | FaultFill page _ pa => aligned page /\ multiplicity pa X = 1%nat
  end.

(** The page of a file as the pager delivers it, the rest zero. *)
Definition padded (bs : list Z) (i : Z) : Z :=
  if i <? Z.of_nat (length bs) then w8 (arr_get bs i) else 0.

Definition page_offset (e : vm_map_entry) (page : Z) : Z := w64 (vme_offset e + (page - vme_start e)).

(** The bytes the range's pager has for the page. *)
Definition pager_serves (w : vmw F) (e : vm_map_entry) (page : Z) (bs : list Z) : Prop :=
  match vme_object e with
  | None => bs = []
  | Some _ => exists o o', vm_object_ref (vw_objs w) (vme_object e) = Done o /\
                vm_object_page o (vme_object e) (page_offset e page) = Done (Some bs, o')
  end.

(** The leaves when the first window is over. *)
Definition begun_leaf (c : fault_cont) (page : Z) (e : vm_map_entry) (v : Z) (o : option leaf) : option leaf :=
  match c with
  | FaultDone rv => if (rv =? VM_FAULT_OK) && (v =? page)
                    then (fun lf => leaf_for (lf_pa lf) (vme_prot e)) <$> o else o
  | _ => o
  end.

(** The content prepared meanwhile. *)
Definition begun_bytes (w w' : vmw F) (sp : space P) (page : Z) (e : vm_map_entry) (c : fault_cont) : Prop :=
  match c with
  | FaultDone _ => True
  | FaultCow pg old pa => pg = page /\ (exists lf, pm_leaf (vw_mem w) (sp_pm sp) page = Some lf /\ lf_pa lf = old) /\
      forall i, 0 <= i < PAGE_SIZE -> ld8 (vw_mem w') (pa + i) = ld8 (vw_mem w) (old + i)
  | FaultFill pg obj pa => pg = page /\ pm_leaf (vw_mem w) (sp_pm sp) page = None /\ obj = vme_object e /\
      exists bs, pager_serves w e page bs /\
        forall i, 0 <= i < PAGE_SIZE -> ld8 (vw_mem w') (pa + i) = padded bs i
  end.

Record begun (w : vmw F) (sp : space P) (page : Z) (e : vm_map_entry) (Y O : gmultiset Z)
    (c : fault_cont) (pm' : P) (w' : vmw F) : Prop := {
  bg_inv : vm_inv no_ex w' (mkSpace (sp_map sp) pm') (in_flight c ⊎ Y) (held c ⊎ O);
  bg_civil : civil Y w (total w sp Y) w' (total w' (mkSpace (sp_map sp) pm') (in_flight c ⊎ Y));
  bg_leaf : forall v, upage v ->
    pm_leaf (vw_mem w') pm' v = begun_leaf c page e v (pm_leaf (vw_mem w) (sp_pm sp) v);
  bg_view : forall v i, upage v -> 0 <= i < PAGE_SIZE ->
    page_view (vw_mem w') (mkSpace (sp_map sp) pm') v i = page_view (vw_mem w) sp v i;
  bg_ready : prepared w' (total w' (mkSpace (sp_map sp) pm') (in_flight c ⊎ Y)) c;
  bg_bytes : begun_bytes w w' sp page e c;
}.

Lemma space_eta (sp : space P) : mkSpace (sp_map sp) (sp_pm sp) = sp.
Proof. by destruct sp. Qed.

(** A fault that fails leaves only a count. *)
Lemma begun_fail (w w' : vmw F) (sp : space P) page e Y O rv :
  vm_inv no_ex w' sp Y O -> civil Y w (total w sp Y) w' (total w' sp Y) -> rv <> VM_FAULT_OK ->
  (forall v, upage v -> pm_leaf (vw_mem w') (sp_pm sp) v = pm_leaf (vw_mem w) (sp_pm sp) v) ->
  (forall v i, upage v -> 0 <= i < PAGE_SIZE -> page_view (vw_mem w') sp v i = page_view (vw_mem w) sp v i) ->
  exists c pm' w'', fault_fail w' (sp_pm sp) rv = Done (c, pm', w'') /\ c = FaultDone rv /\
    begun w sp page e Y O c pm' w''.
Proof.
  intros I C Hrv L V. exists (FaultDone rv), (sp_pm sp), (bump w' vm_n_fault_fail).
  split; [reflexivity|]. split; [reflexivity|].
  split; cbn [in_flight held]; rewrite ?space_eta, ?gmultiset_disj_union_left_id; try done.
  - by apply (vm_inv_same _ w').
  - intros v Hv. cbn [begun_leaf]. destruct (rv =? VM_FAULT_OK) eqn:E; [lia|]. exact (L v Hv).
Qed.

Lemma begun_fail_here (w : vmw F) (sp : space P) page e Y O rv :
  vm_inv no_ex w sp Y O -> rv <> VM_FAULT_OK ->
  exists c pm' w'', fault_fail w (sp_pm sp) rv = Done (c, pm', w'') /\ c = FaultDone rv /\
    begun w sp page e Y O c pm' w''.
Proof. intros I Hrv. by apply begun_fail; [|apply civil_refl|..]. Qed.

Lemma frames_apart a b : frame_pa a -> frame_pa b -> a <> b -> a + PAGE_SIZE <= b \/ b + PAGE_SIZE <= a.
Proof. unfold frame_pa, PAGE_SIZE. intros [_ A] [_ B] N. Z.div_mod_to_equations. lia. Qed.

Lemma copied_page m pa old : frame_pa pa -> frame_pa old -> pa <> old ->
  (forall a, ~ in_page pa a -> ld8 (copy_words (Z.to_nat 512) m pa old) a = ld8 m a) /\
  (forall i, 0 <= i < PAGE_SIZE -> ld8 (copy_words (Z.to_nat 512) m pa old) (pa + i) = ld8 m (old + i)).
Proof.
  intros Fp Fo N. pose proof (frames_apart pa old Fp Fo N) as D. unfold PAGE_SIZE in D.
  split; [intros a Ha|intros i Hi]; rewrite ld8_copy_words by lia.
  - destruct ((pa <=? a) && (a <? pa + 8 * Z.of_nat (Z.to_nat 512))) eqn:E; [|reflexivity]. exfalso. apply Ha.
    unfold in_page, PAGE_SIZE. lia.
  - unfold PAGE_SIZE in Hi. destruct ((pa <=? pa + i) && (pa + i <? pa + 8 * Z.of_nat (Z.to_nat 512))) eqn:E; [|lia].
    f_equal. lia.
Qed.

Lemma civil_total (w : vmw F) (sp : space P) Y R w' X' :
  R = total w sp Y -> civil R w (total w sp Y) w' X' -> civil Y w (total w sp Y) w' X'.
Proof. intros ->. apply civil_weaken, sub_r. Qed.

(** The first window of a copy: the frame is the space's alone, or it is
    copied aside. *)
Lemma fault_cow_copy (w : vmw F) (sp : space P) page e lf Y O :
  vm_inv no_ex w sp Y O -> upage page -> find_entry (vm_head (sp_map sp)) page = Some e ->
  pm_leaf (vw_mem w) (sp_pm sp) page = Some lf -> has (vme_flags e) VME_F_ANON = true ->
  exists c pm' w', 
    (let '(pa, w) := alloc_frame w in
     if pa =? PA_INVALID then fault_fail w (sp_pm sp) VM_FAULT_NOMEM
     else Done (FaultCow page (lf_pa lf) pa, sp_pm sp,
                set_ph w (with_mem (vw_ph w) (copy_words (Z.to_nat 512) (vw_mem w) pa (lf_pa lf))))) = Done (c, pm', w') /\
    begun w sp page e Y O c pm' w' /\
    (c = FaultDone VM_FAULT_NOMEM \/ exists pa, c = FaultCow page (lf_pa lf) pa).
Proof.
  intros I Hv Fe El An. pose proof (own_of_Some _ _ _ _ _ Fe An El) as Ho.
  assert (lf_pa lf ∈ total w sp Y) as Hin by (apply gmultiset_elem_of_disj_union; left; exact (own_in _ _ page _ Hv Ho)).
  pose proof (pm_leaf_pa _ _ _ _ (so_pm _ _ _ _ _ (vi_space _ _ _ _ _ I)) Hv El) as Fo.
  destruct (alloc_fill no_ex w sp Y O (fun pa => copy_words (Z.to_nat 512) (vw_mem w) pa (lf_pa lf)) I) as (pa & w1 & Ea & D).
  { intros pa a Fp Nx. apply (copied_page (vw_mem w) pa (lf_pa lf) Fp Fo). by intros ->. }
  rewrite Ea. destruct D as [[-> ->]|Fl].
  { destruct (begun_fail_here w sp page e Y O VM_FAULT_NOMEM I) as (c & pm' & w' & E & -> & B); [done|].
    exists (FaultDone VM_FAULT_NOMEM), pm', w'. auto. }
  rewrite (fl_valid _ _ _ _ _ _ _ _ _ Fl). pose proof Fl as [[s1 ->] _ Fp _ Nx I2 C M1 _ L].
  exists (FaultCow page (lf_pa lf) pa). do 2 eexists. split; [reflexivity|]. split; [|by right; exists pa].
  split; cbn [in_flight held]; rewrite ?space_eta, ?gmultiset_disj_union_left_id.
  - exact I2.
  - apply (civil_total w sp Y _ _ _ eq_refl C).
  - exact L.
  - intros v i Hv' Hi. exact (filled_view _ _ _ _ _ _ _ _ _ v i Fl I Hv' Hi).
  - split; [apply Hv|]. split; [exact M1|]. split; [exact (frame_pa_nonneg _ Fo)|].
    intros R. apply (owned_not_reserved _ _ (lf_pa lf) (vi_owned _ _ _ _ _ I2)); [|exact R].
    apply gmultiset_elem_of_disj_union. left. apply (own_in _ _ page _ Hv).
    apply (own_of_Some _ _ _ e lf Fe An). rewrite (L page Hv). exact El.
  - split; [reflexivity|]. split; [exact (ex_intro _ lf (conj El eq_refl))|].
    apply (copied_page (vw_mem w) pa (lf_pa lf) Fp Fo). by intros ->.
Qed.

(** The range's own rights on a frame it may have. *)
Lemma full_rights (s : pmm) X e pa :
  (has (vme_prot e) VM_PROT_WRITE = true -> multiplicity pa X = 1%nat) ->
  (has (vme_flags e) VME_F_ANON = false -> reserved s pa) -> leaf_wf false s X e (leaf_for pa (vme_prot e)).
Proof.
  intros M R. split; cbn [leaf_for lf_write lf_pa]; [done|intros _; exact M|exact R|congruence].
Qed.

Lemma no_ex_sub va v : (no_ex v && negb (v =? va)) = true -> no_ex v = true.
Proof. done. Qed.

Lemma fault_cow_steal (w : vmw F) (sp : space P) page e lf Y O :
  vm_inv no_ex w sp Y O -> upage page -> find_entry (vm_head (sp_map sp)) page = Some e ->
  pm_leaf (vw_mem w) (sp_pm sp) page = Some lf -> has (vme_flags e) VME_F_ANON = true ->
  multiplicity (lf_pa lf) (total w sp Y) = 1%nat ->
  exists pm' w',
    (r ← enter w (sp_pm sp) page (lf_pa lf) (vme_prot e);
     let '(ok, pm, w) := r in
     if negb ok then fault_fail w pm VM_FAULT_NOMEM
     else Done (FaultDone VM_FAULT_OK, pm, bump w vm_n_cow_steal)) = Done (FaultDone VM_FAULT_OK, pm', w') /\
    begun w sp page e Y O (FaultDone VM_FAULT_OK) pm' w'.
Proof.
  intros I Hv Fe El An M1.
  destruct (reenter_step no_ex w sp page (vme_prot e) Y O e lf I El) as (pm' & ph' & E & I' & C & L & _).
  { split; [exact Hv|exact (pm_leaf_pa _ _ _ _ (so_pm _ _ _ _ _ (vi_space _ _ _ _ _ I)) Hv El)|exact Fe|].
    apply full_rights; [intros _; exact M1|]. rewrite An. discriminate. }
  rewrite E. exists pm', (bump (set_ph w ph') vm_n_cow_steal). split; [reflexivity|].
  split; cbn [in_flight held]; rewrite ?gmultiset_disj_union_left_id.
  - apply (vm_inv_same _ (set_ph w ph')); [reflexivity..|]. exact (vm_inv_mono _ _ _ _ _ _ (no_ex_sub page) I').
  - exact (civil_weaken _ _ _ _ _ _ (sub_r _ _) C).
  - intros v Hv'. refine (eq_trans (L v Hv') _). cbn [begun_leaf]. rewrite Z.eqb_refl. cbn [andb].
    destruct (v =? page) eqn:Ev; [|reflexivity]. apply Z.eqb_eq in Ev as ->. rewrite El. reflexivity.
  - intros v i Hv' Hi.
    apply (view_same no_ex w (set_ph w ph') sp (mkSpace (sp_map sp) pm') Y O _ _ _ v i I C); [apply sub_l|exact Hv'| |exact Hi].
    cbn [sp_pm]. rewrite (L v Hv'). destruct (v =? page) eqn:Ev; [|reflexivity].
    apply Z.eqb_eq in Ev as ->. rewrite El. reflexivity.
  - exact Logic.I.
  - exact Logic.I.
Qed.

Lemma fault_cow_ok (w : vmw F) (sp : space P) page e lf write Y O :
  vm_inv no_ex w sp Y O -> upage page -> find_entry (vm_head (sp_map sp)) page = Some e ->
  pm_leaf (vw_mem w) (sp_pm sp) page = Some lf ->
  exists c pm' w', fault_cow w (sp_pm sp) e page (lf_pa lf) write = Done (c, pm', w') /\
    begun w sp page e Y O c pm' w' /\
    if write && has (vme_flags e) VME_F_COW
    then c = FaultDone VM_FAULT_OK /\ multiplicity (lf_pa lf) (total w sp Y) = 1%nat \/
         c = FaultDone VM_FAULT_NOMEM \/ exists pa, c = FaultCow page (lf_pa lf) pa
    else c = FaultDone VM_FAULT_PROT.
Proof.
  intros I Hv Fe El. unfold fault_cow.
  destruct (write && has (vme_flags e) VME_F_COW) eqn:Wc.
  - apply andb_true_iff in Wc as [-> Cow]. rewrite Cow. cbn [negb orb].
    pose proof (found_entry_wf _ _ _ _ _ _ _ I Fe) as Ew.
    assert (has (vme_flags e) VME_F_ANON = true) as An by apply Ew, Ew, Cow. rewrite An. cbn.
    pose proof (own_of_Some _ _ _ _ _ Fe An El) as Ho.
    rewrite (own_refs _ _ (lf_pa lf) (vi_owned _ _ _ _ _ I))
      by (apply gmultiset_elem_of_disj_union; left; exact (own_in _ _ page _ Hv Ho)).
    destruct (Z.of_nat (multiplicity (lf_pa lf) (total w sp Y)) =? 1) eqn:M.
    + assert (multiplicity (lf_pa lf) (total w sp Y) = 1%nat) as M1 by (clear -M; lia).
      destruct (fault_cow_steal w sp page e lf Y O I Hv Fe El An M1) as (pm' & w' & E & B).
      exists (FaultDone VM_FAULT_OK), pm', w'. split; [exact E|]. split; [exact B|]. left. split; [reflexivity|exact M1].
    + destruct (fault_cow_copy w sp page e lf Y O I Hv Fe El An) as (c & pm' & w' & E & B & D).
      exists c, pm', w'. split; [exact E|]. split; [exact B|]. right. exact D.
  - replace (negb write || negb (has (vme_flags e) VME_F_COW)) with true by (rewrite <- negb_andb, Wc; reflexivity).
    destruct (begun_fail_here w sp page e Y O VM_FAULT_PROT I) as (c & pm' & w' & E & Ec & B); [discriminate|].
    exists c, pm', w'. split; [exact E|]. split; [exact B|exact Ec].
Qed.

Lemma zeroed_page m pa :
  (forall a, ~ in_page pa a -> ld8 (zero_bytes (Z.to_nat VM_PAGE_SIZE) m pa) a = ld8 m a) /\
  (forall i, 0 <= i < PAGE_SIZE -> ld8 (zero_bytes (Z.to_nat VM_PAGE_SIZE) m pa) (pa + i) = 0).
Proof.
  split; [intros a Ha|intros i Hi]; rewrite ld8_zero_bytes; change (Z.of_nat (Z.to_nat VM_PAGE_SIZE)) with PAGE_SIZE.
  - destruct ((pa <=? a) && (a <? pa + PAGE_SIZE)) eqn:E; [|reflexivity]. exfalso. apply Ha. unfold in_page. lia.
  - destruct ((pa <=? pa + i) && (pa + i <? pa + PAGE_SIZE)) eqn:E; [reflexivity|]. lia.
Qed.

Lemma filled_page m pa bs : Z.of_nat (length bs) <= PAGE_SIZE ->
  (forall a, ~ in_page pa a -> ld8 (put_bytes m pa bs) a = ld8 m a) /\
  ((forall i, 0 <= i < PAGE_SIZE -> ld8 m (pa + i) = 0) ->
   forall i, 0 <= i < PAGE_SIZE -> ld8 (put_bytes m pa bs) (pa + i) = padded bs i).
Proof.
  intros Hl. split.
  - intros a Ha. rewrite ld8_put_bytes. destruct ((pa <=? a) && (a <? pa + Z.of_nat (length bs))) eqn:E; [|reflexivity].
    exfalso. apply Ha. unfold in_page. lia.
  - intros Z0 i Hi. rewrite ld8_put_bytes. unfold padded. replace (pa + i - pa) with i by lia.
    replace ((pa <=? pa + i) && (pa + i <? pa + Z.of_nat (length bs))) with (i <? Z.of_nat (length bs)) by lia.
    destruct (i <? Z.of_nat (length bs)); [reflexivity|]. exact (Z0 i Hi).
Qed.

(** The prepared page of a demand fill, from the zeroed frame on. *)
Lemma begun_fill (w w3 : vmw F) (sp : space P) page e Y O pa bs :
  upage page -> pm_leaf (vw_mem w) (sp_pm sp) page = None ->
  vm_inv no_ex w3 sp ({[+ pa +]} ⊎ Y) (named (vme_object e) ⊎ O) ->
  civil (total w sp Y) w (total w sp Y) w3 (total w3 sp ({[+ pa +]} ⊎ Y)) -> vm_inv no_ex w sp Y O ->
  (forall v, upage v -> pm_leaf (vw_mem w3) (sp_pm sp) v = pm_leaf (vw_mem w) (sp_pm sp) v) ->
  multiplicity pa (total w3 sp ({[+ pa +]} ⊎ Y)) = 1%nat ->
  pager_serves w e page bs ->
  (forall i, 0 <= i < PAGE_SIZE -> ld8 (vw_mem w3) (pa + i) = padded bs i) ->
  begun w sp page e Y O (FaultFill page (vme_object e) pa) (sp_pm sp) w3.
Proof.
  intros Hv El I3 C I L M1 Ps By. split; cbn [in_flight held]; rewrite ?space_eta.
  - exact I3.
  - exact (civil_total w sp Y _ _ _ eq_refl C).
  - exact L.
  - intros v i Hv' Hi. apply (view_same no_ex w w3 sp sp Y O _ _ _ v i I C); [apply own_sub_total|exact Hv'| |exact Hi].
    exact (f_equal (fmap lf_pa) (L v Hv')).
  - split; [apply Hv|exact M1].
  - split; [reflexivity|]. split; [exact El|]. split; [reflexivity|]. exists bs. split; [exact Ps|exact By].
Qed.

(** The pager failed: the frame and the pager go back. *)
Lemma begun_io (w w2 : vmw F) (sp : space P) page e Y O pa :
  vm_inv no_ex w sp Y O -> vm_inv no_ex w2 sp ({[+ pa +]} ⊎ Y) (named (vme_object e) ⊎ O) ->
  civil (total w sp Y) w (total w sp Y) w2 (total w2 sp ({[+ pa +]} ⊎ Y)) ->
  (forall v, upage v -> pm_leaf (vw_mem w2) (sp_pm sp) v = pm_leaf (vw_mem w) (sp_pm sp) v) ->
  exists c pm' w',
    (o ← vm_object_deref (vw_objs w2) (vme_object e);
     w ← free_frame (set_objs w2 o) pa;
     fault_fail w (sp_pm sp) VM_FAULT_IO) = Done (c, pm', w') /\
    begun w sp page e Y O c pm' w' /\ c = FaultDone VM_FAULT_IO.
Proof.
  intros I I2 C2 L2. destruct (drop_object _ _ _ _ _ _ I2) as (o & -> & I3).
  destruct (free_step _ _ _ _ _ _ I3) as (s' & E & I4 & C4). rewrite bind_Done, E, bind_Done.
  set (w4 := set_ph (set_objs w2 o) (with_pmm (vw_ph (set_objs w2 o)) s')) in *.
  assert (civil Y w (total w sp Y) w4 (total w4 sp Y)) as C.
  { eapply civil_trans; [exact (civil_total w sp Y _ _ _ eq_refl C2)|].
    exact (civil_weaken _ _ _ _ _ _ (sub_r _ _) C4). }
  destruct (begun_fail w w4 sp page e Y O VM_FAULT_IO I4 C) as (c & pm' & w' & E' & Ec & B); [discriminate|exact L2| |].
  - intros v i Hv Hi. refine (eq_trans _ (view_same no_ex w w2 sp sp Y O _ _ _ v i I C2 (own_sub_total _ _ _) Hv _ Hi)).
    + reflexivity.
    + exact (f_equal (fmap lf_pa) (L2 v Hv)).
  - exists c, pm', w'. split; [exact E'|]. split; [exact B|exact Ec].
Qed.

Lemma begun_same (w w' w'' : vmw F) (sp : space P) page e Y O c pm' :
  vw_ph w'' = vw_ph w' -> vw_objs w'' = vw_objs w' -> begun w sp page e Y O c pm' w' -> begun w sp page e Y O c pm' w''.
Proof.
  intros Ep Eo [I C L V R B].
  assert (vw_mem w'' = vw_mem w') as Em by (unfold vw_mem; by rewrite Ep).
  assert (vw_pmm w'' = vw_pmm w') as Es by (unfold vw_pmm; by rewrite Ep).
  unfold total, civil, prepared, begun_bytes in *.
  split; unfold total, civil, prepared, begun_bytes; rewrite ?Em, ?Es; try assumption.
  by apply (vm_inv_same _ w').
Qed.

Lemma served_by (w : vmw F) e page bs o o' :
  vme_object e <> None -> vm_object_ref (vw_objs w) (vme_object e) = Done o ->
  vm_object_page o (vme_object e) (page_offset e page) = Done (Some bs, o') -> pager_serves w e page bs.
Proof. intros N Eo Er. unfold pager_serves. destruct (vme_object e); [|done]. eauto. Qed.

(** The zeroed frame, and the pager asked for its bytes. *)
Lemma fault_read_ok (w w2 : vmw F) (sp : space P) page e dt Y O pa o :
  vm_inv no_ex w sp Y O -> upage page -> pm_leaf (vw_mem w) (sp_pm sp) page = None ->
  vm_object_ref (vw_objs w) (vme_object e) = Done o -> vw_objs w2 = o ->
  vm_inv no_ex w2 sp ({[+ pa +]} ⊎ Y) (named (vme_object e) ⊎ O) ->
  civil (total w sp Y) w (total w sp Y) w2 (total w2 sp ({[+ pa +]} ⊎ Y)) ->
  multiplicity pa (total w2 sp ({[+ pa +]} ⊎ Y)) = 1%nat ->
  space_frames (vw_mem w2) sp = space_frames (vw_mem w) sp ->
  (forall v, upage v -> pm_leaf (vw_mem w2) (sp_pm sp) v = pm_leaf (vw_mem w) (sp_pm sp) v) ->
  (forall i, 0 <= i < PAGE_SIZE -> ld8 (vw_mem w2) (pa + i) = 0) -> vme_object e <> None ->
  exists c pm' w',
    (r ← vm_object_page (vw_objs w2) (vme_object e) (page_offset e page);
     let '(got, o) := r in
     let w := set_objs w2 o in
     match got with
     | None =>
         o ← vm_object_deref (vw_objs w) (vme_object e);
         w ← free_frame (set_objs w o) pa;
         fault_fail w (sp_pm sp) VM_FAULT_IO
     | Some bs =>
         let w := set_ph w (with_mem (vw_ph w) (put_bytes (vw_mem w) pa bs)) in
         let w := set_stat w vm_us_pager (vw_stat w vm_us_pager + dt) in
         let w := if vw_stat w vm_us_pager_max <? dt then set_stat w vm_us_pager_max dt else w in
         Done (FaultFill page (vme_object e) pa, sp_pm sp, w)
     end) = Done (c, pm', w') /\
    begun w sp page e Y O c pm' w' /\
    (c = FaultDone VM_FAULT_IO \/ c = FaultFill page (vme_object e) pa).
Proof.
  intros I Hv El Eo E2 I2 C2 M2 S2 L2 Z0 Hobj.
  destruct (read_object _ w2 sp _ O _ (page_offset e page) (proj1 (w64_range _)) I2) as (got & o2 & Er & I3 & Lb).
  rewrite Er, bind_Done. cbv zeta. destruct got as [bs|]; cycle 1.
  { destruct (begun_io w (set_objs w2 o2) sp page e Y O pa I I3 C2 L2) as (c & pm' & w' & E & Bg & Ec).
    exists c, pm', w'. split; [exact E|]. split; [exact Bg|]. left. exact Ec. }
  destruct (filled_page (vw_mem w2) pa bs (Lb bs eq_refl)) as [Out In].
  destruct (write_step _ (set_objs w2 o2) sp pa Y _ (put_bytes (vw_mem w2) pa bs) I3 M2 Out) as (I4 & T4 & _ & C4 & L4).
  change (vw_mem (set_objs w2 o2)) with (vw_mem w2) in *. rewrite S2 in C4.
  set (w4 := set_ph (set_objs w2 o2) (with_mem (vw_ph (set_objs w2 o2)) (put_bytes (vw_mem w2) pa bs))) in *.
  assert (begun w sp page e Y O (FaultFill page (vme_object e) pa) (sp_pm sp) w4) as B.
  { apply (begun_fill w w4 sp page e Y O pa bs Hv El I4); [|exact I| |rewrite T4; exact M2| |exact (In Z0)].
    - eapply civil_trans; [exact C2|exact C4].
    - intros v Hv'. exact (eq_trans (L4 v Hv') (L2 v Hv')).
    - apply (served_by w e page bs o o2 Hobj Eo). rewrite <- E2. exact Er. }
  destruct (_ <? dt); eexists _, _, _; (split; [reflexivity|]; split; [|right; reflexivity]);
    (eapply begun_same; [| |exact B]); reflexivity.
Qed.

Lemma fault_fill_ok (w : vmw F) (sp : space P) page e dt Y O :
  vm_inv no_ex w sp Y O -> upage page -> find_entry (vm_head (sp_map sp)) page = Some e ->
  pm_leaf (vw_mem w) (sp_pm sp) page = None -> few_refs (entry_names (vm_head (sp_map sp)) ⊎ O) ->
  exists c pm' w', fault_fill w (sp_pm sp) e page dt = Done (c, pm', w') /\
    begun w sp page e Y O c pm' w' /\
    if has (vme_flags e) VME_F_LAZY
    then c = FaultDone VM_FAULT_NOMEM \/ (c = FaultDone VM_FAULT_IO /\ vme_object e <> None) \/
         exists pa, c = FaultFill page (vme_object e) pa
    else c = FaultDone VM_FAULT_NOMAP.
Proof.
  intros I Hv Fe El B. unfold fault_fill. destruct (has (vme_flags e) VME_F_LAZY); cycle 1.
  { destruct (begun_fail_here w sp page e Y O VM_FAULT_NOMAP I) as (c & pm' & w' & E & Ec & Bg); [discriminate|].
    exists c, pm', w'. split; [exact E|]. split; [exact Bg|exact Ec]. }
  destruct (take_object _ _ _ _ _ e I (proj1 (find_entry_Some _ _ _ Fe)) B) as (o & Eo & I0). rewrite Eo.
  change (negb true) with false. cbv iota. rewrite bind_Done. set (w0 := set_objs w o) in *.
  destruct (alloc_fill no_ex w0 sp Y _ (fun pa => zero_bytes (Z.to_nat VM_PAGE_SIZE) (vw_mem w0) pa) I0) as (pa & w1 & Ea & D).
  { intros pa a _ _. apply zeroed_page. }
  rewrite Ea. destruct D as [[-> ->]|Fl].
  { change (PA_INVALID =? PA_INVALID) with true. cbv iota.
    destruct (drop_object _ _ _ _ _ _ I0) as (o' & -> & I1). rewrite bind_Done.
    destruct (begun_fail w (set_objs w0 o') sp page e Y O VM_FAULT_NOMEM I1) as (c & pm' & w' & E & Ec & Bg);
      [by apply civil_refl|discriminate|reflexivity|reflexivity|].
    exists c, pm', w'. split; [exact E|]. split; [exact Bg|by left]. }
  rewrite (fl_valid _ _ _ _ _ _ _ _ _ Fl). pose proof Fl as [[s1 ->] _ _ _ _ I2 C2 M2 S2 L2].
  change (vw_mem (set_ph w0 (with_pmm (vw_ph w0) s1))) with (vw_mem w0).
  set (w2 := set_ph (set_ph w0 (with_pmm (vw_ph w0) s1)) (with_mem _ (zero_bytes (Z.to_nat VM_PAGE_SIZE) (vw_mem w0) pa))) in *.
  pose proof (proj2 (zeroed_page (vw_mem w0) pa)) as Z0.
  destruct (vme_object e) as [a|] eqn:Eobj; rewrite <- Eobj in *; cycle 1.
  { exists (FaultFill page (vme_object e) pa), (sp_pm sp), w2. split; [reflexivity|].
    split; [|right; right; exists pa; reflexivity].
    apply (begun_fill w w2 sp page e Y O pa [] Hv El I2 C2 I L2 M2).
    - unfold pager_serves. by rewrite Eobj.
    - intros i Hi. refine (eq_trans (Z0 i Hi) _). unfold padded. cbn [length]. by destruct (i <? Z.of_nat 0) eqn:?; [lia|]. }
  destruct (fault_read_ok w w2 sp page e dt Y O pa o I Hv El Eo eq_refl I2 C2 M2 S2 L2 Z0) as (c & pm' & w' & E & Bg & D);
    [by rewrite Eobj|].
  exists c, pm', w'. split; [exact E|]. split; [exact Bg|]. destruct D as [D|D]; right; [left|right].
  - split; [exact D|]. by rewrite Eobj.
  - exists pa. exact D.
Qed.

(** ** The first window *)

Inductive verdict :=
| JNomap
| JProt
| JCopy (e : vm_map_entry) (lf : leaf)
| JFill (e : vm_map_entry).

(** What a fault asks for: nothing the map has, nothing it allows, its own
    copy of a page, or a page. *)
Definition judge (m : mem) (sp : space P) (page : Z) (write : bool) : verdict :=
  match find_entry (vm_head (sp_map sp)) page with
  | None => JNomap
  | Some e =>
      if prot_none (vme_prot e) || (write && negb (has (vme_prot e) VM_PROT_WRITE)) then JProt
      else match pm_leaf m (sp_pm sp) page with
           | Some lf => if write && has (vme_flags e) VME_F_COW then JCopy e lf else JProt
           | None => if has (vme_flags e) VME_F_LAZY then JFill e else JNomap
           end
  end.

Lemma align_down_aligned x : aligned (VM_ALIGN_DOWN x).
Proof.
  unfold VM_ALIGN_DOWN, aligned. change VM_PAGE_MASK with (2 ^ 12 - 1). rewrite ldiff_ones_sub by lia.
  unfold VM_PAGE_SIZE. change (2 ^ 12) with 4096. Z.div_mod_to_equations. lia.
Qed.

Lemma fault_begin_ok (w : vmw F) (sp : space P) va write dt Y O :
  vm_inv no_ex w sp Y O -> few_refs (entry_names (vm_head (sp_map sp)) ⊎ O) ->
  exists c pm' w' e, fault_begin w sp va write dt = Done (c, pm', w') /\
    begun w sp (VM_ALIGN_DOWN va) e Y O c pm' w' /\
    match judge (vw_mem w) sp (VM_ALIGN_DOWN va) write with
    | JNomap => c = FaultDone VM_FAULT_NOMAP
    | JProt => c = FaultDone VM_FAULT_PROT
    | JCopy e0 lf => e0 = e /\
        (c = FaultDone VM_FAULT_OK /\ multiplicity (lf_pa lf) (total w sp Y) = 1%nat \/
         c = FaultDone VM_FAULT_NOMEM \/ exists pa, c = FaultCow (VM_ALIGN_DOWN va) (lf_pa lf) pa)
    | JFill e0 => e0 = e /\
        (c = FaultDone VM_FAULT_NOMEM \/ (c = FaultDone VM_FAULT_IO /\ vme_object e <> None) \/
         exists pa, c = FaultFill (VM_ALIGN_DOWN va) (vme_object e) pa)
    end.
Proof.
  intros I B. unfold fault_begin, judge. set (page := VM_ALIGN_DOWN va).
  assert (forall rv (e : vm_map_entry), rv <> VM_FAULT_OK -> exists c pm' w' e, fault_fail w (sp_pm sp) rv = Done (c, pm', w') /\
            begun w sp page e Y O c pm' w' /\ c = FaultDone rv) as Fail.
  { intros rv e Hrv. destruct (begun_fail_here w sp page e Y O rv I Hrv) as (c & pm' & w' & E & Ec & Bg).
    exists c, pm', w', e. split; [exact E|]. split; [exact Bg|exact Ec]. }
  destruct (vm_map_lookup (sp_map sp) page) as [[i e]|] eqn:Lk; cycle 1.
  { rewrite (lookup_no_entry _ _ _ _ _ _ I Lk). apply (Fail _ (mkVme 0 0 0 None 0 0)). discriminate. }
  pose proof (lookup_entry _ _ _ _ _ _ _ _ I Lk) as Fe. rewrite Fe.
  destruct (prot_none _ || _); [apply (Fail _ e); discriminate|].
  pose proof (found_upage _ _ _ _ _ _ _ I (align_down_aligned va) Fe) as Hv. fold page in Hv.
  rewrite (extract_leaf _ _ _ _ _ _ I Hv). destruct (pm_leaf (vw_mem w) (sp_pm sp) page) as [lf|] eqn:El.
  - rewrite (leaf_valid _ _ _ _ _ _ _ I Hv El). cbn [negb].
    destruct (fault_cow_ok w sp page e lf write Y O I Hv Fe El) as (c & pm' & w' & E & Bg & D).
    exists c, pm', w', e. split; [exact E|]. split; [exact Bg|]. destruct (write && _); [|exact D].
    split; [reflexivity|exact D].
  - cbn [negb]. change (PA_INVALID =? PA_INVALID) with true. cbn [negb].
    destruct (fault_fill_ok w sp page e dt Y O I Hv Fe El B) as (c & pm' & w' & E & Bg & D).
    exists c, pm', w', e. split; [exact E|]. split; [exact Bg|]. destruct (has _ VME_F_LAZY); [|exact D].
    split; [reflexivity|exact D].
Qed.

(** ** The second window *)

Record finished (w : vmw F) (sp : space P) (page : Z) (R X Y O : gmultiset Z) (got : option leaf)
    (pm' : P) (w' : vmw F) : Prop := {
  fi_inv : vm_inv no_ex w' (mkSpace (sp_map sp) pm') Y O;
  fi_civil : civil R w X w' (total w' (mkSpace (sp_map sp) pm') Y);
  fi_leaf : forall v, upage v -> pm_leaf (vw_mem w') pm' v =
    match got with
    | Some lf => if v =? page then Some lf else pm_leaf (vw_mem w) (sp_pm sp) v
    | None => pm_leaf (vw_mem w) (sp_pm sp) v
    end;
  fi_view : forall v i, upage v -> got = None \/ v <> page -> 0 <= i < PAGE_SIZE ->
    page_view (vw_mem w') (mkSpace (sp_map sp) pm') v i = page_view (vw_mem w) sp v i;
  fi_new : forall lf, got = Some lf -> multiplicity (lf_pa lf) (total w' (mkSpace (sp_map sp) pm') Y) = 1%nat /\
    same_page (vw_mem w) (vw_mem w') (lf_pa lf);
}.

Lemma finished_same (w w' w'' : vmw F) (sp : space P) page R X Y O got pm' :
  vw_ph w'' = vw_ph w' -> vw_objs w'' = vw_objs w' -> finished w sp page R X Y O got pm' w' ->
  finished w sp page R X Y O got pm' w''.
Proof.
  intros Ep Eo [I C L V N].
  assert (vw_mem w'' = vw_mem w') as Em by (unfold vw_mem; by rewrite Ep).
  assert (vw_pmm w'' = vw_pmm w') as Es by (unfold vw_pmm; by rewrite Ep).
  unfold total, civil in *. split; unfold total, civil; rewrite ?Em, ?Es; try assumption.
  by apply (vm_inv_same _ w').
Qed.

(** Given back unused. *)
Lemma finish_free (w : vmw F) (sp : space P) page pa Y O :
  vm_inv no_ex w sp ({[+ pa +]} ⊎ Y) O ->
  exists w', free_frame w pa = Done w' /\ finished w sp page Y (total w sp ({[+ pa +]} ⊎ Y)) Y O None (sp_pm sp) w'.
Proof.
  intros I. destruct (free_step _ _ _ _ _ _ I) as (s' & E & I' & C). cbv zeta in I', C. eexists. split; [exact E|].
  split; rewrite ?space_eta; [exact I'|exact (civil_weaken _ _ _ _ _ _ (sub_r _ _) C)|reflexivity|reflexivity|discriminate].
Qed.

Lemma fault_drop_ok (w : vmw F) (sp : space P) page obj pa rv k Y O :
  vm_inv no_ex w sp ({[+ pa +]} ⊎ Y) (named obj ⊎ O) ->
  exists w', fault_drop w (sp_pm sp) obj pa rv k = Done (rv, sp_pm sp, w') /\
    finished w sp page Y (total w sp ({[+ pa +]} ⊎ Y)) Y O None (sp_pm sp) w'.
Proof.
  intros I. unfold fault_drop. destruct (drop_object _ _ _ _ _ _ I) as (o & -> & I1). rewrite bind_Done.
  destruct (finish_free _ _ page _ _ _ I1) as (w' & -> & Fi). rewrite bind_Done.
  eexists. split; [reflexivity|]. apply (finished_same _ w'); [reflexivity..|]. destruct Fi as [Fi1 Fi2 Fi3 Fi4 Fi5].
  split; [exact Fi1|exact Fi2|exact Fi3|exact Fi4|exact Fi5].
Qed.

(** The prepared frame goes in. *)
Lemma finish_enter (w : vmw F) (sp : space P) page pa e Y O :
  vm_inv no_ex w sp ({[+ pa +]} ⊎ Y) O -> multiplicity pa (total w sp ({[+ pa +]} ⊎ Y)) = 1%nat ->
  upage page -> find_entry (vm_head (sp_map sp)) page = Some e -> has (vme_flags e) VME_F_ANON = true ->
  exists ok pm' w', enter w (sp_pm sp) page pa (vme_prot e) = Done (ok, pm', w') /\
    vw_objs w' = vw_objs w /\
    (pm_leaf (vw_mem w) (sp_pm sp) page <> None -> ok = true) /\
    finished w sp page Y (total w sp ({[+ pa +]} ⊎ Y))
      ((if ok then named (own_of (vw_mem w) sp page) else {[+ pa +]}) ⊎ Y) O
      (if ok then Some (leaf_for pa (vme_prot e)) else None) pm' w'.
Proof.
  intros I M1 Hv Fe An. assert (share e pa = Some pa) as Es by (unfold share; by rewrite An).
  assert (pa ∈ total w sp ({[+ pa +]} ⊎ Y)) as Hin by (rewrite mult_in; lia).
  destruct (enter_step no_ex w sp page pa (vme_prot e) Y O e) as (ok & pm' & ph' & E & I' & C & L & Ok & _).
  { rewrite Es. exact I. }
  { rewrite Es. split; [exact Hv|exact (total_frame _ _ _ _ _ _ I Hin)|exact Fe|].
    apply full_rights; [intros _; exact M1|]. rewrite An. discriminate. }
  cbv zeta in I', C. unfold left_over in I', C. rewrite Es in I', C. cbn [named] in C.
  assert (named (if ok then own_of (vw_mem w) sp page else Some pa) =
          (if ok then named (own_of (vw_mem w) sp page) else {[+ pa +]})) as En by (by destruct ok).
  rewrite En in I', C. exists ok, pm', (set_ph w ph'). split; [exact E|]. split; [reflexivity|]. split; [exact Ok|]. split.
  - refine (vm_inv_mono _ _ _ _ _ _ _ I'). done.
  - exact (civil_weaken _ _ _ _ _ _ (sub_rr _ _ _) C).
  - intros v Hv'. refine (eq_trans (L v Hv') _). destruct ok; reflexivity.
  - intros v i Hv' Hn Hi.
    apply (view_same no_ex w (set_ph w ph') sp (mkSpace (sp_map sp) pm') _ O _ _ _ v i I C); [apply sub_l|exact Hv'| |exact Hi].
    cbn [sp_pm]. rewrite (L v Hv'). destruct ok; [|reflexivity]. destruct (v =? page) eqn:Ev; [|reflexivity].
    apply Z.eqb_eq in Ev. destruct Hn as [Hn|Hn]; [discriminate|contradiction].
  - intros lf Hl. destruct ok; [|discriminate]. injection Hl as <-. split.
    + apply (po_single _ _ _ _ _ _ _ C); [|exact M1]. apply gmultiset_elem_of_disj_union. right.
      apply gmultiset_elem_of_disj_union. left. by apply gmultiset_elem_of_singleton.
    + apply (po_mem _ _ _ _ _ _ _ C). apply gmultiset_elem_of_disj_union. right.
      apply gmultiset_elem_of_disj_union. left. by apply gmultiset_elem_of_singleton.
Qed.

(** A second free after the page went in. *)
Lemma finished_free (w w1 : vmw F) (sp : space P) page R X Y O lf pm1 old :
  finished w sp page R X ({[+ old +]} ⊎ Y) O (Some lf) pm1 w1 -> R ⊆ Y ->
  upage page -> anon_at (sp_map sp) page = true ->
  exists w2, free_frame w1 old = Done w2 /\ finished w sp page R X Y O (Some lf) pm1 w2.
Proof.
  intros [I C L V N] Sub Hv An. destruct (free_step _ _ _ _ _ _ I) as (s' & E & I' & C').
  cbv zeta in I', C'. eexists. split; [exact E|]. split; [exact I'| |exact L|exact V|].
  - eapply civil_trans; [exact C|]. refine (civil_weaken _ _ _ _ _ _ _ C'). etrans; [exact Sub|apply sub_r].
  - intros lf' [= <-]. destruct (N lf eq_refl) as [M1 Sp]. split; [|exact Sp].
    apply (po_single _ _ _ _ _ _ _ C'); [|exact M1]. apply gmultiset_elem_of_disj_union. left.
    apply (own_in _ _ page); [exact Hv|]. unfold own_of. cbn [sp_map sp_pm]. rewrite An, (L page Hv), Z.eqb_refl. reflexivity.
Qed.

Lemma finish_cow_ok (w : vmw F) (sp : space P) page old pa Y O :
  vm_inv no_ex w sp ({[+ pa +]} ⊎ Y) O ->
  prepared w (total w sp ({[+ pa +]} ⊎ Y)) (FaultCow page old pa) ->
  exists rv pm' w' got, fault_finish w sp (FaultCow page old pa) = Done (rv, pm', w') /\
    finished w sp page Y (total w sp ({[+ pa +]} ⊎ Y)) Y O got pm' w' /\ rv = VM_FAULT_OK /\
    got = match find_entry (vm_head (sp_map sp)) page, pm_leaf (vw_mem w) (sp_pm sp) page with
          | Some e, Some lf => if lf_pa lf =? old then Some (leaf_for pa (vme_prot e)) else None
          | _, _ => None
          end.
Proof.
  intros I (A & M1 & Ho & Nr). cbn [fault_finish].
  assert (exists rv pm' w' got, (w ← free_frame w pa; Done (VM_FAULT_OK, sp_pm sp, bump w vm_n_cow_race)) = Done (rv, pm', w') /\
    finished w sp page Y (total w sp ({[+ pa +]} ⊎ Y)) Y O got pm' w' /\ rv = VM_FAULT_OK /\ got = None) as Free.
  { destruct (finish_free w sp page pa Y O I) as (w' & -> & Fi). rewrite bind_Done. eexists _, _, _, None.
    split; [reflexivity|]. split; [|done]. by apply (finished_same _ w'). }
  destruct (vm_map_lookup (sp_map sp) page) as [[i e]|] eqn:Lk; cycle 1.
  { rewrite (lookup_no_entry _ _ _ _ _ _ I Lk). exact Free. }
  pose proof (lookup_entry _ _ _ _ _ _ _ _ I Lk) as Fe. rewrite Fe.
  pose proof (found_upage _ _ _ _ _ _ _ I A Fe) as Hv. rewrite (extract_leaf _ _ _ _ _ _ I Hv).
  destruct (pm_leaf (vw_mem w) (sp_pm sp) page) as [lf|] eqn:El; cycle 1.
  { destruct (PA_INVALID =? old) eqn:Eo; [|exact Free]. exfalso. apply Nr. apply Z.eqb_eq in Eo as <-.
    right. change (page_index PA_INVALID) with 0. apply (ok_zero _ (ow_ok _ _ (vi_owned _ _ _ _ _ I))). }
  destruct (lf_pa lf =? old) eqn:Eo; [|exact Free]. apply Z.eqb_eq in Eo as <-. cbn [negb].
  destruct (so_leaf _ _ _ _ _ (vi_space _ _ _ _ _ I) page lf Hv El) as (e' & Fe' & L). rewrite Fe in Fe'. injection Fe' as <-.
  assert (has (vme_flags e) VME_F_ANON = true) as An.
  { destruct (has (vme_flags e) VME_F_ANON) eqn:An; [reflexivity|]. exfalso. exact (Nr (lw_borrowed _ _ _ _ _ L An)). }
  destruct (finish_enter w sp page pa e Y O I M1 Hv Fe An) as (ok & pm1 & w1 & E & _ & Ok & Fi).
  rewrite E, bind_Done. rewrite Ok in * by (rewrite El; discriminate). cbn [negb].
  rewrite (own_of_Some _ _ _ _ _ Fe An El) in Fi. cbn [named] in Fi.
  destruct (finished_free _ _ _ _ _ _ _ _ _ _ _ Fi) as (w2 & -> & Fi2); [done|exact Hv|by rewrite (anon_at_find _ _ _ Fe)|].
  rewrite bind_Done. eexists _, _, _, _. split; [reflexivity|]. split; [|done]. by apply (finished_same _ w2).
Qed.

(** The last reference dropped after the page went in. *)
Lemma finished_drop (w w1 : vmw F) (sp : space P) page R X Y O obj got pm1 :
  finished w sp page R X Y (named obj ⊎ O) got pm1 w1 ->
  exists o, vm_object_deref (vw_objs w1) obj = Done o /\ finished w sp page R X Y O got pm1 (set_objs w1 o).
Proof.
  intros [I C L V N]. destruct (drop_object _ _ _ _ _ _ I) as (o & E & I'). exists o. split; [exact E|].
  split; [exact I'|exact C|exact L|exact V|exact N].
Qed.

Lemma finished_unused (w w1 : vmw F) (sp : space P) page R X pa Y O obj pm1 rv k :
  finished w sp page R X ({[+ pa +]} ⊎ Y) (named obj ⊎ O) None pm1 w1 -> R ⊆ Y ->
  exists w2, fault_drop w1 pm1 obj pa rv k = Done (rv, pm1, w2) /\ finished w sp page R X Y O None pm1 w2.
Proof.
  intros [I C L V N] Sub. destruct (fault_drop_ok w1 (mkSpace (sp_map sp) pm1) page obj pa rv k Y O I) as (w2 & E & Fi).
  exists w2. split; [exact E|]. destruct Fi as [I' C' L' V' _]. cbn [sp_map sp_pm] in *.
  split; [exact I'| | | |discriminate].
  - eapply civil_trans; [exact C|]. exact (civil_weaken _ _ _ _ _ _ Sub C').
  - intros v Hv. exact (eq_trans (L' v Hv) (L v Hv)).
  - intros v i Hv _ Hi. exact (eq_trans (V' v i Hv (or_introl eq_refl) Hi) (V v i Hv (or_introl eq_refl) Hi)).
Qed.

Lemma finish_fill_ok (w : vmw F) (sp : space P) page obj pa Y O :
  vm_inv no_ex w sp ({[+ pa +]} ⊎ Y) (named obj ⊎ O) ->
  prepared w (total w sp ({[+ pa +]} ⊎ Y)) (FaultFill page obj pa) ->
  exists rv pm' w' got, fault_finish w sp (FaultFill page obj pa) = Done (rv, pm', w') /\
    finished w sp page Y (total w sp ({[+ pa +]} ⊎ Y)) Y O got pm' w' /\
    match find_entry (vm_head (sp_map sp)) page, pm_leaf (vw_mem w) (sp_pm sp) page with
    | None, _ => got = None /\ rv = VM_FAULT_NOMAP
    | Some e, o =>
        if negb (has (vme_flags e) VME_F_LAZY) then got = None /\ rv = VM_FAULT_NOMAP
        else match o with
             | Some _ => got = None /\ rv = VM_FAULT_OK
             | None => got = None /\ rv = VM_FAULT_NOMEM \/
                       got = Some (leaf_for pa (vme_prot e)) /\ rv = VM_FAULT_OK
             end
    end.
Proof.
  intros I (A & M1). cbn [fault_finish].
  assert (forall rv k, exists rv' pm' w' got, fault_drop w (sp_pm sp) obj pa rv k = Done (rv', pm', w') /\
    finished w sp page Y (total w sp ({[+ pa +]} ⊎ Y)) Y O got pm' w' /\ got = None /\ rv' = rv) as Drop.
  { intros rv k. destruct (fault_drop_ok w sp page obj pa rv k Y O I) as (w' & E & Fi).
    eexists _, _, _, None. split; [exact E|]. split; [exact Fi|done]. }
  destruct (vm_map_lookup (sp_map sp) page) as [[i e]|] eqn:Lk; cycle 1.
  { rewrite (lookup_no_entry _ _ _ _ _ _ I Lk). apply Drop. }
  pose proof (lookup_entry _ _ _ _ _ _ _ _ I Lk) as Fe. rewrite Fe.
  destruct (has (vme_flags e) VME_F_LAZY) eqn:Lz; cbn [negb]; [|apply Drop].
  pose proof (found_upage _ _ _ _ _ _ _ I A Fe) as Hv. rewrite (extract_leaf _ _ _ _ _ _ I Hv).
  destruct (pm_leaf (vw_mem w) (sp_pm sp) page) as [lf|] eqn:El.
  { rewrite (leaf_valid _ _ _ _ _ _ _ I Hv El). apply Drop. }
  change (PA_INVALID =? PA_INVALID) with true. cbn [negb].
  pose proof (ew_lazy _ (found_entry_wf _ _ _ _ _ _ _ I Fe) Lz) as An.
  destruct (finish_enter w sp page pa e Y _ I M1 Hv Fe An) as (ok & pm1 & w1 & E & Eo & _ & Fi).
  rewrite E, bind_Done. destruct ok; cbn [negb].
  - assert (own_of (vw_mem w) sp page = None) as On by (unfold own_of; rewrite El; by destruct (anon_at _ _)).
    rewrite On in Fi. cbn [named] in Fi. rewrite gmultiset_disj_union_left_id in Fi.
    set (k := match obj with Some _ => vm_n_fault_file | None => vm_n_fault_zero end).
    pose proof (finished_same _ w1 (bump w1 k) _ _ _ _ _ _ _ _ eq_refl eq_refl Fi) as Fi1.
    destruct (finished_drop _ _ _ _ _ _ _ _ _ _ _ Fi1) as (o & Ed & Fi2).
    rewrite Ed, bind_Done. eexists _, _, _, _. split; [reflexivity|]. split; [exact Fi2|]. right. split; reflexivity.
  - destruct (finished_unused _ _ _ _ _ _ _ _ _ obj _ VM_FAULT_NOMEM vm_n_fault_fail Fi) as (w2 & Ed & Fi2); [done|].
    eexists _, _, _, _. split; [exact Ed|]. split; [exact Fi2|]. left. split; reflexivity.
Qed.

(** What a suspended fault relies on survives everything others do. *)
Lemma reserved_back s s' pa : pmm_step s s' -> 0 <= pa -> reserved s' pa -> reserved s pa.
Proof.
  intros St Hpa. unfold reserved. rewrite (st_pages s s' St). intros [?|E]; [by left|].
  destruct (Z_lt_ge_dec (page_index pa) (pmm_managed_pages s)); [|left; lia].
  right. apply (st_reserved s s' St); [|done]. rewrite page_index_div in *. unfold PAGE_SIZE in *.
  split; [apply Z.div_pos; lia|done].
Qed.

Lemma prepared_stable (w w' : vmw F) X X' c :
  prepared w X c -> civil (in_flight c) w X w' X' -> prepared w' X' c.
Proof.
  intros Pr [St _ _ N]. destruct c as [rv|page old pa|page obj pa]; cbn [prepared in_flight] in *; [done|..].
  - destruct Pr as (A & M & Ho & Nr). split; [exact A|]. split; [|split; [exact Ho|]].
    + apply N; [by apply gmultiset_elem_of_singleton|exact M].
    + intros R. apply Nr. exact (reserved_back _ _ _ St Ho R).
  - destruct Pr as (A & M). split; [exact A|]. apply N; [by apply gmultiset_elem_of_singleton|exact M].
Qed.

Lemma fault_finish_ok (w : vmw F) (sp : space P) c Y O :
  vm_inv no_ex w sp (in_flight c ⊎ Y) (held c ⊎ O) -> prepared w (total w sp (in_flight c ⊎ Y)) c ->
  exists rv pm' w', fault_finish w sp c = Done (rv, pm', w') /\
    vm_inv no_ex w' (mkSpace (sp_map sp) pm') Y O /\
    civil Y w (total w sp (in_flight c ⊎ Y)) w' (total w' (mkSpace (sp_map sp) pm') Y).
Proof.
  intros I Pr. destruct c as [rv|page old pa|page obj pa]; cbn [in_flight held] in *;
    rewrite ?gmultiset_disj_union_left_id in *.
  - exists rv, (sp_pm sp), w. rewrite space_eta. split; [reflexivity|]. split; [exact I|by apply civil_refl].
  - destruct (finish_cow_ok w sp page old pa Y O I Pr) as (rv & pm' & w' & got & E & Fi & _).
    exists rv, pm', w'. split; [exact E|]. split; [exact (fi_inv _ _ _ _ _ _ _ _ _ _ Fi)|exact (fi_civil _ _ _ _ _ _ _ _ _ _ Fi)].
  - destruct (finish_fill_ok w sp page obj pa Y O I Pr) as (rv & pm' & w' & got & E & Fi & _).
    exists rv, pm', w'. split; [exact E|]. split; [exact (fi_inv _ _ _ _ _ _ _ _ _ _ Fi)|exact (fi_civil _ _ _ _ _ _ _ _ _ _ Fi)].
Qed.

(** ** A fault nobody disturbs *)

(** Where the page reads and writes from afterwards. *)
Definition fault_result (w w' : vmw F) (sp sp' : space P) (page rv : Z) (Y : gmultiset Z) (j : verdict) : Prop :=
  let same := (forall v, upage v -> pm_leaf (vw_mem w') (sp_pm sp') v = pm_leaf (vw_mem w) (sp_pm sp) v) /\
              (forall v i, upage v -> 0 <= i < PAGE_SIZE -> page_view (vw_mem w') sp' v i = page_view (vw_mem w) sp v i) in
  match j with
  | JNomap => rv = VM_FAULT_NOMAP /\ same
  | JProt => rv = VM_FAULT_PROT /\ same
  | JCopy e lf =>
      rv = VM_FAULT_NOMEM /\ same \/
      rv = VM_FAULT_OK /\ exists pa, pm_leaf (vw_mem w') (sp_pm sp') page = Some (leaf_for pa (vme_prot e)) /\
        multiplicity pa (total w' sp' Y) = 1%nat /\
        forall i, 0 <= i < PAGE_SIZE -> page_view (vw_mem w') sp' page i = page_view (vw_mem w) sp page i
  | JFill e =>
      (rv = VM_FAULT_NOMEM \/ rv = VM_FAULT_IO /\ vme_object e <> None) /\ same \/
      rv = VM_FAULT_OK /\ exists pa bs, pm_leaf (vw_mem w') (sp_pm sp') page = Some (leaf_for pa (vme_prot e)) /\
        multiplicity pa (total w' sp' Y) = 1%nat /\ pager_serves w e page bs /\
        forall i, 0 <= i < PAGE_SIZE -> page_view (vw_mem w') sp' page i = Some (padded bs i)
  end.

Lemma begun_done_same (w w' : vmw F) (sp : space P) page e Y O rv pm' :
  begun w sp page e Y O (FaultDone rv) pm' w' -> rv <> VM_FAULT_OK ->
  (forall v, upage v -> pm_leaf (vw_mem w') pm' v = pm_leaf (vw_mem w) (sp_pm sp) v) /\
  (forall v i, upage v -> 0 <= i < PAGE_SIZE ->
     page_view (vw_mem w') (mkSpace (sp_map sp) pm') v i = page_view (vw_mem w) sp v i).
Proof.
  intros B Hrv. split; [|exact (bg_view _ _ _ _ _ _ _ _ _ B)]. intros v Hv.
  refine (eq_trans (bg_leaf _ _ _ _ _ _ _ _ _ B v Hv) _). cbn [begun_leaf].
  by rewrite (proj2 (Z.eqb_neq rv VM_FAULT_OK) Hrv).
Qed.

Lemma writable_single (w : vmw F) (sp : space P) Y O v lf :
  vm_inv no_ex w sp Y O -> upage v -> pm_leaf (vw_mem w) (sp_pm sp) v = Some lf -> lf_write lf = true ->
  multiplicity (lf_pa lf) (total w sp Y) = 1%nat.
Proof.
  intros I Hv El Hw. destruct (so_leaf _ _ _ _ _ (vi_space _ _ _ _ _ I) v lf Hv El) as (e & _ & L).
  exact (lw_single _ _ _ _ _ L eq_refl Hw).
Qed.

Lemma view_of (w : vmw F) (sp : space P) v lf i :
  pm_leaf (vw_mem w) (sp_pm sp) v = Some lf -> page_view (vw_mem w) sp v i = Some (ld8 (vw_mem w) (lf_pa lf + i)).
Proof. intros El. unfold page_view. rewrite El. reflexivity. Qed.

(** The copy, prepared and installed with nobody in between. *)
Lemma fault_copied (w w1 w2 : vmw F) (sp : space P) page e lf pa Y O pm1 pm2 :
  begun w sp page e Y O (FaultCow page (lf_pa lf) pa) pm1 w1 -> upage page ->
  pm_leaf (vw_mem w) (sp_pm sp) page = Some lf ->
  finished w1 (mkSpace (sp_map sp) pm1) page Y (total w1 (mkSpace (sp_map sp) pm1) ({[+ pa +]} ⊎ Y)) Y O
    (Some (leaf_for pa (vme_prot e))) pm2 w2 ->
  pm_leaf (vw_mem w2) pm2 page = Some (leaf_for pa (vme_prot e)) /\
  multiplicity pa (total w2 (mkSpace (sp_map sp) pm2) Y) = 1%nat /\
  forall i, 0 <= i < PAGE_SIZE -> page_view (vw_mem w2) (mkSpace (sp_map sp) pm2) page i = page_view (vw_mem w) sp page i.
Proof.
  intros B Hv El Fi. destruct (fi_new _ _ _ _ _ _ _ _ _ _ Fi _ eq_refl) as [M Sp].
  assert (pm_leaf (vw_mem w2) pm2 page = Some (leaf_for pa (vme_prot e))) as El2.
  { rewrite (fi_leaf _ _ _ _ _ _ _ _ _ _ Fi page Hv), Z.eqb_refl. reflexivity. }
  split; [exact El2|]. split; [exact M|]. intros i Hi.
  rewrite (view_of w2 (mkSpace (sp_map sp) pm2) page _ i El2), (view_of w sp page lf i El). f_equal.
  refine (eq_trans (Sp (pa + i) _) _); [cbn [leaf_for lf_pa]; lia|].
  destruct (bg_bytes _ _ _ _ _ _ _ _ _ B) as (_ & _ & By). exact (By i Hi).
Qed.

Lemma fault_filled (w w1 w2 : vmw F) (sp : space P) page e pa Y O pm1 pm2 :
  begun w sp page e Y O (FaultFill page (vme_object e) pa) pm1 w1 -> upage page ->
  finished w1 (mkSpace (sp_map sp) pm1) page Y (total w1 (mkSpace (sp_map sp) pm1) ({[+ pa +]} ⊎ Y)) Y O
    (Some (leaf_for pa (vme_prot e))) pm2 w2 ->
  exists pa bs, pm_leaf (vw_mem w2) pm2 page = Some (leaf_for pa (vme_prot e)) /\
    multiplicity pa (total w2 (mkSpace (sp_map sp) pm2) Y) = 1%nat /\ pager_serves w e page bs /\
    forall i, 0 <= i < PAGE_SIZE -> page_view (vw_mem w2) (mkSpace (sp_map sp) pm2) page i = Some (padded bs i).
Proof.
  intros B Hv Fi. destruct (fi_new _ _ _ _ _ _ _ _ _ _ Fi _ eq_refl) as [M Sp].
  assert (pm_leaf (vw_mem w2) pm2 page = Some (leaf_for pa (vme_prot e))) as El2.
  { rewrite (fi_leaf _ _ _ _ _ _ _ _ _ _ Fi page Hv), Z.eqb_refl. reflexivity. }
  destruct (bg_bytes _ _ _ _ _ _ _ _ _ B) as (_ & _ & _ & bs & Ps & By).
  exists pa, bs. split; [exact El2|]. split; [exact M|]. split; [exact Ps|]. intros i Hi.
  rewrite (view_of w2 (mkSpace (sp_map sp) pm2) page _ i El2). f_equal.
  refine (eq_trans (Sp (pa + i) _) (By i Hi)). cbn [leaf_for lf_pa]. lia.
Qed.

Lemma judge_copy (m : mem) (sp : space P) page write e lf :
  judge m sp page write = JCopy e lf ->
  find_entry (vm_head (sp_map sp)) page = Some e /\ pm_leaf m (sp_pm sp) page = Some lf /\
  has (vme_flags e) VME_F_COW = true.
Proof.
  unfold judge. destruct (find_entry _ _) as [e0|]; [|done]. destruct (prot_none _ || _); [done|].
  destruct (pm_leaf _ _ _) as [lf0|]; [|by destruct (has _ _)].
  destruct (write && has (vme_flags e0) VME_F_COW) eqn:Wc; [|done]. intros [= -> ->].
  by apply andb_true_iff in Wc as [_ ->].
Qed.

Lemma judge_fill (m : mem) (sp : space P) page write e :
  judge m sp page write = JFill e ->
  find_entry (vm_head (sp_map sp)) page = Some e /\ pm_leaf m (sp_pm sp) page = None /\
  has (vme_flags e) VME_F_LAZY = true.
Proof.
  unfold judge. destruct (find_entry _ _) as [e0|]; [|done]. destruct (prot_none _ || _); [done|].
  destruct (pm_leaf _ _ _) as [lf0|]; [by destruct (write && _)|].
  destruct (has (vme_flags e0) VME_F_LAZY) eqn:Lz; [|done]. by intros [= ->].
Qed.

(** Everything a fault is to guarantee, whatever it found. *)
Record fault_ok (w : vmw F) (sp : space P) (page : Z) (write : bool) (Y O : gmultiset Z)
    (rv : Z) (pm' : P) (w' : vmw F) : Prop := {
  fo_inv : vm_inv no_ex w' (mkSpace (sp_map sp) pm') Y O;
  fo_civil : civil Y w (total w sp Y) w' (total w' (mkSpace (sp_map sp) pm') Y);
  fo_leaf : forall v, upage v -> v <> page -> pm_leaf (vw_mem w') pm' v = pm_leaf (vw_mem w) (sp_pm sp) v;
  fo_view : forall v i, upage v -> v <> page -> 0 <= i < PAGE_SIZE ->
    page_view (vw_mem w') (mkSpace (sp_map sp) pm') v i = page_view (vw_mem w) sp v i;
  fo_result : fault_result w w' sp (mkSpace (sp_map sp) pm') page rv Y (judge (vw_mem w) sp page write);
}.

Lemma fault_ok_done (w w' : vmw F) (sp : space P) page write e Y O rv pm' :
  begun w sp page e Y O (FaultDone rv) pm' w' ->
  fault_result w w' sp (mkSpace (sp_map sp) pm') page rv Y (judge (vw_mem w) sp page write) ->
  fault_ok w sp page write Y O rv pm' w'.
Proof.
  intros [I C L V _ _] R. cbn [in_flight held] in *. rewrite ?gmultiset_disj_union_left_id in *.
  split; [exact I|exact C| |intros v i Hv _; exact (V v i Hv)|exact R].
  intros v Hv Ne. refine (eq_trans (L v Hv) _). cbn [begun_leaf].
  by rewrite (proj2 (Z.eqb_neq v page) Ne), andb_false_r.
Qed.

Lemma fault_ok_finished (w w1 w2 : vmw F) (sp : space P) page write e Y O c rv got pm1 pm2 :
  begun w sp page e Y O c pm1 w1 -> (forall rv, c <> FaultDone rv) ->
  finished w1 (mkSpace (sp_map sp) pm1) page Y (total w1 (mkSpace (sp_map sp) pm1) (in_flight c ⊎ Y)) Y O got pm2 w2 ->
  fault_result w w2 sp (mkSpace (sp_map sp) pm2) page rv Y (judge (vw_mem w) sp page write) ->
  fault_ok w sp page write Y O rv pm2 w2.
Proof.
  intros [I C L V _ _] Nd [I2 C2 L2 V2 _] R. cbn [sp_map sp_pm] in *.
  split; [exact I2|eapply civil_trans; [exact C|exact C2]| | |exact R].
  - intros v Hv Ne. refine (eq_trans (L2 v Hv) (eq_trans _ (eq_trans (L v Hv) _))).
    + destruct got; [by rewrite (proj2 (Z.eqb_neq v page) Ne)|reflexivity].
    + destruct c; [by destruct (Nd rv0)|reflexivity..].
  - intros v i Hv Ne Hi. exact (eq_trans (V2 v i Hv (or_intror Ne) Hi) (V v i Hv Hi)).
Qed.

(** Nothing went in: as before. *)
Lemma fault_kept_same (w w1 w2 : vmw F) (sp : space P) page e Y O c X pm1 pm2 :
  begun w sp page e Y O c pm1 w1 -> (forall rv, c <> FaultDone rv) ->
  finished w1 (mkSpace (sp_map sp) pm1) page Y X Y O None pm2 w2 ->
  (forall v, upage v -> pm_leaf (vw_mem w2) pm2 v = pm_leaf (vw_mem w) (sp_pm sp) v) /\
  (forall v i, upage v -> 0 <= i < PAGE_SIZE ->
     page_view (vw_mem w2) (mkSpace (sp_map sp) pm2) v i = page_view (vw_mem w) sp v i).
Proof.
  intros [I C L V _ _] Nd [I2 C2 L2 V2 _]. cbn [sp_map sp_pm] in *. split.
  - intros v Hv. refine (eq_trans (L2 v Hv) (eq_trans (L v Hv) _)). destruct c; [by destruct (Nd rv)|reflexivity..].
  - intros v i Hv Hi. exact (eq_trans (V2 v i Hv (or_introl eq_refl) Hi) (V v i Hv Hi)).
Qed.

Lemma fault_copy_ok (w w1 : vmw F) (sp : space P) va write e lf Y O c pm1 :
  let page := VM_ALIGN_DOWN va in
  vm_inv no_ex w sp Y O -> judge (vw_mem w) sp page write = JCopy e lf ->
  begun w sp page e Y O c pm1 w1 ->
  (c = FaultDone VM_FAULT_OK /\ multiplicity (lf_pa lf) (total w sp Y) = 1%nat \/
   c = FaultDone VM_FAULT_NOMEM \/ exists pa, c = FaultCow page (lf_pa lf) pa) ->
  exists rv pm2 w2, fault_finish w1 (mkSpace (sp_map sp) pm1) c = Done (rv, pm2, w2) /\
    fault_ok w sp page write Y O rv pm2 w2.
Proof.
  intros page I J B D. destruct (judge_copy _ _ _ _ _ _ J) as (Fe & El & Cow).
  pose proof (found_upage _ _ _ _ _ _ _ I (align_down_aligned va) Fe) as Hv. fold page in Hv.
  destruct D as [[-> _]|[->|[pa ->]]].
  - exists VM_FAULT_OK, pm1, w1. split; [reflexivity|]. apply (fault_ok_done _ _ _ _ _ e); [exact B|]. rewrite J. right.
    split; [reflexivity|]. exists (lf_pa lf).
    assert (pm_leaf (vw_mem w1) pm1 page = Some (leaf_for (lf_pa lf) (vme_prot e))) as El1.
    { rewrite (bg_leaf _ _ _ _ _ _ _ _ _ B page Hv), El. cbn [begun_leaf]. rewrite !Z.eqb_refl. reflexivity. }
    split; [exact El1|]. pose proof (bg_inv _ _ _ _ _ _ _ _ _ B) as I1. cbn [in_flight held] in I1.
    rewrite !gmultiset_disj_union_left_id in I1. split.
    + refine (writable_single w1 (mkSpace (sp_map sp) pm1) Y O page _ I1 Hv El1 _).
      exact (ew_cow _ (found_entry_wf _ _ _ _ _ _ _ I Fe) Cow).
    + intros i Hi. exact (bg_view _ _ _ _ _ _ _ _ _ B page i Hv Hi).
  - exists VM_FAULT_NOMEM, pm1, w1. split; [reflexivity|]. apply (fault_ok_done _ _ _ _ _ e); [exact B|]. rewrite J. left.
    split; [reflexivity|]. apply (begun_done_same _ _ _ _ _ _ _ _ _ B). discriminate.
  - pose proof (bg_inv _ _ _ _ _ _ _ _ _ B) as I1. cbn [in_flight held] in I1. rewrite gmultiset_disj_union_left_id in I1.
    destruct (finish_cow_ok w1 (mkSpace (sp_map sp) pm1) page (lf_pa lf) pa Y O I1 (bg_ready _ _ _ _ _ _ _ _ _ B))
      as (rv & pm2 & w2 & got & E & Fi & -> & Eg).
    cbn [sp_map sp_pm] in Eg. rewrite Fe, (bg_leaf _ _ _ _ _ _ _ _ _ B page Hv), El in Eg.
    cbn [begun_leaf] in Eg. rewrite Z.eqb_refl in Eg. subst got.
    exists VM_FAULT_OK, pm2, w2. split; [exact E|].
    apply (fault_ok_finished w w1 w2 sp page write e Y O _ _ _ pm1 pm2 B ltac:(discriminate) Fi). rewrite J. right.
    split; [reflexivity|]. exists pa. exact (fault_copied _ _ _ _ _ _ _ _ _ _ _ _ B Hv El Fi).
Qed.

Lemma fault_fill_done_ok (w w1 : vmw F) (sp : space P) va write e Y O c pm1 :
  let page := VM_ALIGN_DOWN va in
  vm_inv no_ex w sp Y O -> judge (vw_mem w) sp page write = JFill e ->
  begun w sp page e Y O c pm1 w1 ->
  (c = FaultDone VM_FAULT_NOMEM \/ (c = FaultDone VM_FAULT_IO /\ vme_object e <> None) \/
   exists pa, c = FaultFill page (vme_object e) pa) ->
  exists rv pm2 w2, fault_finish w1 (mkSpace (sp_map sp) pm1) c = Done (rv, pm2, w2) /\
    fault_ok w sp page write Y O rv pm2 w2.
Proof.
  intros page I J B D. destruct (judge_fill _ _ _ _ _ J) as (Fe & El & Lz).
  pose proof (found_upage _ _ _ _ _ _ _ I (align_down_aligned va) Fe) as Hv. fold page in Hv.
  destruct D as [->|[[-> Ob]|[pa ->]]].
  - exists VM_FAULT_NOMEM, pm1, w1. split; [reflexivity|]. apply (fault_ok_done _ _ _ _ _ e); [exact B|]. rewrite J. left.
    split; [by left|]. apply (begun_done_same _ _ _ _ _ _ _ _ _ B). discriminate.
  - exists VM_FAULT_IO, pm1, w1. split; [reflexivity|]. apply (fault_ok_done _ _ _ _ _ e); [exact B|]. rewrite J. left.
    split; [right; split; [reflexivity|exact Ob]|]. apply (begun_done_same _ _ _ _ _ _ _ _ _ B). discriminate.
  - destruct (finish_fill_ok w1 (mkSpace (sp_map sp) pm1) page (vme_object e) pa Y O
                (bg_inv _ _ _ _ _ _ _ _ _ B) (bg_ready _ _ _ _ _ _ _ _ _ B))
      as (rv & pm2 & w2 & got & E & Fi & D).
    cbn [sp_map sp_pm] in D. rewrite Fe, (bg_leaf _ _ _ _ _ _ _ _ _ B page Hv), El, Lz in D.
    cbn [begun_leaf negb] in D. exists rv, pm2, w2. split; [exact E|].
    apply (fault_ok_finished w w1 w2 sp page write e Y O _ _ _ pm1 pm2 B ltac:(discriminate) Fi). rewrite J.
    destruct D as [[-> ->]|[-> ->]]; [left|right].
    + split; [by left|]. exact (fault_kept_same _ _ _ _ _ _ _ _ _ _ _ _ B ltac:(discriminate) Fi).
    + split; [reflexivity|]. exact (fault_filled _ _ _ _ _ _ _ _ _ _ _ B Hv Fi).
Qed.

Lemma vm_fault_ok (w : vmw F) (sp : space P) va write dt Y O :
  vm_inv no_ex w sp Y O -> few_refs (entry_names (vm_head (sp_map sp)) ⊎ O) ->
  exists rv pm' w', vm_fault w sp va write dt = Done (rv, pm', w') /\
    fault_ok w sp (VM_ALIGN_DOWN va) write Y O rv pm' w'.
Proof.
  intros I B. destruct (fault_begin_ok w sp va write dt Y O I B) as (c & pm1 & w1 & e & E & Bg & D).
  unfold vm_fault. rewrite E, bind_Done. set (page := VM_ALIGN_DOWN va) in *.
  destruct (judge (vw_mem w) sp page write) as [| |e0 lf|e0] eqn:J.
  - subst c. exists VM_FAULT_NOMAP, pm1, w1. split; [reflexivity|]. apply (fault_ok_done _ _ _ _ _ e); [exact Bg|].
    rewrite J. split; [reflexivity|]. apply (begun_done_same _ _ _ _ _ _ _ _ _ Bg). discriminate.
  - subst c. exists VM_FAULT_PROT, pm1, w1. split; [reflexivity|]. apply (fault_ok_done _ _ _ _ _ e); [exact Bg|].
    rewrite J. split; [reflexivity|]. apply (begun_done_same _ _ _ _ _ _ _ _ _ Bg). discriminate.
  - destruct D as [-> D]. exact (fault_copy_ok w w1 sp va write e lf Y O c pm1 I J Bg D).
  - destruct D as [-> D]. exact (fault_fill_done_ok w w1 sp va write e Y O c pm1 I J Bg D).
Qed.

(** A space is unaffected: its invariant, its frames and every byte it reads. *)
Definition untouched (w : vmw F) (X : gmultiset Z) (w' : vmw F) (X' : gmultiset Z) (sp2 : space P) : Prop :=
  space_ok no_ex (vw_pmm w') (vw_mem w') X' sp2 /\ space_frames (vw_mem w') sp2 = space_frames (vw_mem w) sp2 /\
  forall v i, upage v -> 0 <= i < PAGE_SIZE -> page_view (vw_mem w') sp2 v i = page_view (vw_mem w) sp2 v i.

Lemma civil_untouched R (w : vmw F) X w' X' sp2 :
  civil R w X w' X' -> space_ok no_ex (vw_pmm w) (vw_mem w) X sp2 -> space_frames (vw_mem w) sp2 ⊆ R ->
  untouched w X w' X' sp2.
Proof. intros C S Sub. exact (polite_other no_ex R _ _ _ _ _ _ sp2 C S Sub). Qed.

(** [C9] An undisturbed page fault: [vm_fault] never panics and decides by the
    map alone.  A page no range covers (or one neither present nor lazy) is
    VM_FAULT_NOMAP, an access the range forbids VM_FAULT_PROT, and both change
    no leaf and no byte.  A write to a copy-on-write page ends, unless memory
    is out, with a leaf of the range's full rights over a frame the space owns
    alone, holding the bytes read there before; a first touch of a lazy page
    with a frame owned alone holding what its pager serves, zero beyond.  No
    other page of the space and no other space changes in any byte. *)
Theorem vm_fault_correct (w : vmw F) (sp : space P) va write dt Y O :
  vm_inv no_ex w sp Y O -> few_refs (entry_names (vm_head (sp_map sp)) ⊎ O) ->
  exists rv pm' w', vm_fault w sp va write dt = Done (rv, pm', w') /\
    let sp' := mkSpace (sp_map sp) pm' in
    let page := VM_ALIGN_DOWN va in
    vm_inv no_ex w' sp' Y O /\
    fault_result w w' sp sp' page rv Y (judge (vw_mem w) sp page write) /\
    (forall v, upage v -> v <> page -> pm_leaf (vw_mem w') pm' v = pm_leaf (vw_mem w) (sp_pm sp) v) /\
    (forall v i, upage v -> v <> page -> 0 <= i < PAGE_SIZE ->
       page_view (vw_mem w') sp' v i = page_view (vw_mem w) sp v i) /\
    (forall sp2, space_ok no_ex (vw_pmm w) (vw_mem w) (total w sp Y) sp2 -> space_frames (vw_mem w) sp2 ⊆ Y ->
       untouched w (total w sp Y) w' (total w' sp' Y) sp2).
Proof.
  intros I B. destruct (vm_fault_ok w sp va write dt Y O I B) as (rv & pm' & w' & E & [I' C L V R]).
  exists rv, pm', w'. split; [exact E|]. cbv zeta. split; [exact I'|]. split; [exact R|]. split; [exact L|].
  split; [exact V|]. intros sp2. exact (civil_untouched Y _ _ _ _ sp2 C).
Qed.

(** [C16] The second window of [vm_fault], entered in whatever state other
    threads left the space: as long as the invariant holds and the prepared
    frame is still held by the fault alone, [fault_finish] does not panic,
    uses or returns the frame and the pager reference exactly once, keeps the
    invariant and touches no other space.  Those two conditions hold when the
    first window ends and survive every step that leaves the in-flight frame
    alone. *)
Theorem fault_windows_safe (w0 : vmw F) (sp0 : space P) va write dt Y0 O0 :
  vm_inv no_ex w0 sp0 Y0 O0 -> few_refs (entry_names (vm_head (sp_map sp0)) ⊎ O0) ->
  exists c pm1 w1, fault_begin w0 sp0 va write dt = Done (c, pm1, w1) /\
    let sp1 := mkSpace (sp_map sp0) pm1 in
    vm_inv no_ex w1 sp1 (in_flight c ⊎ Y0) (held c ⊎ O0) /\
    forall w sp Y O, civil (in_flight c) w1 (total w1 sp1 (in_flight c ⊎ Y0)) w (total w sp (in_flight c ⊎ Y)) ->
      vm_inv no_ex w sp (in_flight c ⊎ Y) (held c ⊎ O) ->
      exists rv pm' w', fault_finish w sp c = Done (rv, pm', w') /\
        vm_inv no_ex w' (mkSpace (sp_map sp) pm') Y O /\
        forall sp2, space_ok no_ex (vw_pmm w) (vw_mem w) (total w sp (in_flight c ⊎ Y)) sp2 ->
          space_frames (vw_mem w) sp2 ⊆ Y ->
          untouched w (total w sp (in_flight c ⊎ Y)) w' (total w' (mkSpace (sp_map sp) pm') Y) sp2.
Proof.
  intros I B. destruct (fault_begin_ok w0 sp0 va write dt Y0 O0 I B) as (c & pm1 & w1 & e & E & Bg & _).
  exists c, pm1, w1. split; [exact E|]. cbv zeta. split; [exact (bg_inv _ _ _ _ _ _ _ _ _ Bg)|].
  intros w sp Y O C I1. pose proof (prepared_stable _ _ _ _ _ (bg_ready _ _ _ _ _ _ _ _ _ Bg) C) as Pr.
  destruct (fault_finish_ok w sp c Y O I1 Pr) as (rv & pm' & w' & E' & I' & C').
  exists rv, pm', w'. split; [exact E'|]. split; [exact I'|]. intros sp2. exact (civil_untouched Y _ _ _ _ sp2 C').
Qed.

End Fault.

(** A write to the second page of the file-backed range. *)
Lemma vm_fault_correct_witness :
  exists rv pm' w', vm_fault demo_vw demo_space (VM_USER_VA_LO + 4100) true 0 = Done (rv, pm', w') /\
    vm_inv no_ex w' (mkSpace demo_user_map pm') ∅ ∅.
Proof.
  destruct (vm_fault_correct demo_vw demo_space (VM_USER_VA_LO + 4100) true 0 ∅ ∅ demo_vm_inv demo_few_refs)
    as (rv & pm' & w' & E & I & _).
  exists rv, pm', w'. exact (conj E I).
Defined.

Lemma fault_windows_safe_witness :
  exists c pm1 w1, fault_begin demo_vw demo_space VM_USER_VA_LO false 0 = Done (c, pm1, w1) /\
    vm_inv no_ex w1 (mkSpace demo_user_map pm1) (in_flight c ⊎ ∅) (held c ⊎ ∅).
Proof.
  destruct (fault_windows_safe demo_vw demo_space VM_USER_VA_LO false 0 ∅ ∅ demo_vm_inv demo_few_refs)
    as (c & pm1 & w1 & E & I & _).
  exists c, pm1, w1. exact (conj E I).
Defined.
