(* ===== verification/VmRelease.v ===== *)
(** Giving memory back, [vm_map_release_anon] and [vm_map_release] of
    [vm/vm.c]: every frame of the range loses exactly the owner its leaf was,
    and nothing outside the range changes. *)

From stdpp Require Import base list numbers strings gmap gmultiset.
From Stdlib Require Import ZArith Lia ZifyBool.
From S2P Require Import Prelude Pmm Phys VmObject VmMap Pmap Vm VmInv VmStep VmDemo VmFault.

(** Pager references held outside the map: not about to overflow a count. *)
Definition few_outside (O : gmultiset Z) : Prop := forall a, Z.of_nat (multiplicity a O) < 2 ^ 31.

Lemma names_length a l : (multiplicity a (entry_names l) <= length l)%nat.
Proof.
  induction l as [|e l IH]; cbn [entry_names length]; [by rewrite multiplicity_empty|].
  rewrite mult_union. destruct (vme_object e) as [b|]; cbn [named].
  - destruct (decide (a = b)) as [->|N]; [rewrite mult_one|rewrite mult_other by done]; lia.
  - rewrite multiplicity_empty. lia.
Qed.

Section Release.
Context {P : Type} `{PmapSpec P} {F : Type} `{FsOps F}.

Abbreviation own w sp := (leaf_frames (own_of (vw_mem w) sp)).

Lemma few_names ex (w : vmw F) (sp : space P) Y O :
  vm_inv ex w sp Y O -> few_outside O -> few_refs (entry_names (vm_head (sp_map sp)) ⊎ O).
Proof.
  intros I B a. rewrite mult_union. specialize (B a).
  pose proof (names_length a (vm_head (sp_map sp))) as L.
  pose proof (chain_length _ _ _ (mo_chain _ (so_map _ _ _ _ _ (vi_space _ _ _ _ _ I)))) as C.
  pose proof (so_window _ _ _ _ _ (vi_space _ _ _ _ _ I)) as Wn. unfold VM_USER_VA_LO, VM_USER_VA_HI in Wn.
  clear -B L C Wn. lia.
Qed.

(** ** A map that says the same of every mapped page *)

Lemma chain_start lo l hi e : chain lo l hi -> e ∈ l -> find_entry l (vme_start e) = Some e.
Proof.
  intros C Hin. apply (find_entry_in lo l hi e); [done|done|]. revert lo C.
  induction Hin as [e l|e x l _ IH]; intros lo C; cbn [chain] in C; destruct C as (? & ? & ? & ? & C); [lia|].
  by apply IH in C.
Qed.

Lemma page_of_same e e' v : page_of e' v = page_of e v -> same_range e e' /\ vme_object e' = vme_object e /\
  vme_flags e' = vme_flags e.
Proof.
  unfold page_of. intros [= Eo _ Ep Ef]. split; [|done]. split; [exact Ep|by rewrite Ef|by rewrite Ef].
Qed.

Lemma backing_entry m v e : map_ok m -> find_entry (vm_head m) v = Some e -> backing m v = Some (page_of e v).
Proof. intros M Fe. by rewrite backing_find, Fe. Qed.

Lemma backing_entry_inv m v p : map_ok m -> backing m v = Some p ->
  exists e, find_entry (vm_head m) v = Some e /\ p = page_of e v.
Proof.
  intros M. rewrite backing_find by exact M. destruct (find_entry (vm_head m) v) as [e|]; [|done].
  intros [= <-]. by exists e.
Qed.

Lemma entry_wf_same e e' : same_range e e' -> vme_flags e' = vme_flags e -> entry_wf e -> entry_wf e'.
Proof. intros [Sp _ _] Ef [W1 W2 W3]. split; rewrite ?Sp, ?Ef; assumption. Qed.

Lemma vm_inv_backing ex (w : vmw F) (sp : space P) m' o' Y O O' :
  vm_inv ex w sp Y O -> map_ok m' -> vm_lo m' = vm_lo (sp_map sp) -> vm_hi m' = vm_hi (sp_map sp) ->
  (forall v, backing m' v = None \/ backing m' v = backing (sp_map sp) v) ->
  (forall v, upage v -> pm_leaf (vw_mem w) (sp_pm sp) v <> None -> backing m' v = backing (sp_map sp) v) ->
  objs_ok o' (entry_names (vm_head m') ⊎ O') ->
  let sp' := mkSpace m' (sp_pm sp) in
  vm_inv ex (set_objs w o') sp' Y O' /\ space_frames (vw_mem w) sp' = space_frames (vw_mem w) sp /\
  (forall v, upage v -> own_of (vw_mem w) sp' v = own_of (vw_mem w) sp v).
Proof.
  intros I M' Elo Ehi Bn Bl Ok. pose proof (so_map _ _ _ _ _ (vi_space _ _ _ _ _ I)) as M.
  apply (vm_inv_map ex w sp m' o' Y O O' I M' Elo Ehi); [| |exact Ok].
  - intros e He. pose proof (backing_entry m' _ e M' (chain_start _ _ _ e (mo_chain m' M') He)) as Be.
    destruct (Bn (vme_start e)) as [N|E]; [by rewrite N in Be|]. rewrite Be in E. symmetry in E.
    destruct (backing_entry_inv _ _ _ M E) as (e0 & Fe0 & Ep). destruct (page_of_same _ _ _ Ep) as (Sr & _ & Ef).
    apply (entry_wf_same e0 e Sr Ef). exact (found_entry_wf _ _ _ _ _ _ _ I Fe0).
  - intros v e Hv Hl Fe. pose proof (backing_entry _ _ _ M Fe) as Be. rewrite <- (Bl v Hv Hl) in Be.
    destruct (backing_entry_inv _ _ _ M' Be) as (e' & Fe' & Ep). exists e'. split; [exact Fe'|].
    by apply (page_of_same e e' v).
Qed.

(** ** Unmapping pages *)

(** The pages of [K] are gone with their frames, everything else stays. *)
Record shed ex (w : vmw F) (sp : space P) (K : Z -> bool) (Y O : gmultiset Z) (pm' : P) (w' : vmw F) : Prop := {
  sh_inv : vm_inv ex w' (mkSpace (sp_map sp) pm') Y O;
  sh_civil : civil Y w (total w sp Y) w' (total w' (mkSpace (sp_map sp) pm') Y);
  sh_objs : vw_objs w' = vw_objs w /\ vw_heap w' = vw_heap w;
  sh_leaf : forall v, upage v -> pm_leaf (vw_mem w') pm' v = if K v then None else pm_leaf (vw_mem w) (sp_pm sp) v;
  sh_view : forall v i, upage v -> K v = false -> 0 <= i < PAGE_SIZE ->
    page_view (vw_mem w') (mkSpace (sp_map sp) pm') v i = page_view (vw_mem w) sp v i;
}.

Lemma shed_nothing ex (w : vmw F) (sp : space P) (K : Z -> bool) Y O :
  vm_inv ex w sp Y O -> (forall v, upage v -> K v = true -> pm_leaf (vw_mem w) (sp_pm sp) v = None) ->
  shed ex w sp K Y O (sp_pm sp) w.
Proof.
  intros I Hk. assert (mkSpace (sp_map sp) (sp_pm sp) = sp) as E by (by destruct sp).
  split; rewrite ?E; [exact I|by apply civil_refl|done| |done].
  intros v Hv. destruct (K v) eqn:Kv; [|reflexivity]. exact (Hk v Hv Kv).
Qed.

Lemma shed_trans ex (w w1 w2 : vmw F) (sp : space P) (K K' : Z -> bool) Y O pm1 pm2 :
  shed ex w sp K Y O pm1 w1 -> shed ex w1 (mkSpace (sp_map sp) pm1) K' Y O pm2 w2 ->
  shed ex w sp (fun v => K v || K' v) Y O pm2 w2.
Proof.
  intros [I1 C1 [O1 H1'] L1 V1] [I2 C2 [O2 H2] L2 V2]. cbn [sp_map sp_pm] in *.
  split; [exact I2|eapply civil_trans; [exact C1|exact C2]|split; congruence| |].
  - intros v Hv. rewrite (L2 v Hv), (L1 v Hv). destruct (K v), (K' v); reflexivity.
  - intros v i Hv [Kv Kv']%orb_false_iff Hi. rewrite (V2 v i Hv Kv' Hi). exact (V1 v i Hv Kv Hi).
Qed.

Lemma shed_ext ex (w : vmw F) (sp : space P) (K K' : Z -> bool) Y O pm' w' :
  (forall v, upage v -> K v = K' v) -> shed ex w sp K Y O pm' w' -> shed ex w sp K' Y O pm' w'.
Proof.
  intros E [I C Ob L V]. split; [exact I|exact C|exact Ob| |].
  - intros v Hv. rewrite <- (E v Hv). exact (L v Hv).
  - intros v i Hv Kv. apply V; [exact Hv|]. by rewrite (E v Hv).
Qed.

Lemma release_page_ok ex (w : vmw F) (sp : space P) va Y O :
  vm_inv ex w sp Y O -> upage va -> (pm_leaf (vw_mem w) (sp_pm sp) va <> None -> anon_at (sp_map sp) va = true) ->
  exists pm' w', release_page w (sp_pm sp) va = Done (pm', w') /\ shed ex w sp (fun v => v =? va) Y O pm' w'.
Proof.
  intros I Hv An. unfold release_page. rewrite (extract_leaf _ _ _ _ _ _ I Hv).
  destruct (pm_leaf (vw_mem w) (sp_pm sp) va) as [lf|] eqn:El; cycle 1.
  { change (PA_INVALID =? PA_INVALID) with true. exists (sp_pm sp), w. split; [reflexivity|].
    apply shed_nothing; [exact I|]. by intros v _ ->%Z.eqb_eq. }
  rewrite (leaf_valid _ _ _ _ _ _ _ I Hv El). destruct (remove_step ex w sp va Y O I Hv) as (pm1 & ph1 & E1 & I1 & C1 & L1).
  assert (own_of (vw_mem w) sp va = Some (lf_pa lf)) as Eo.
  { unfold own_of. rewrite An by discriminate. by rewrite El. }
  rewrite E1. cbv zeta in I1, C1, L1. rewrite Eo in I1, C1. cbn [named] in I1, C1.
  destruct (free_step _ _ _ _ _ _ I1) as (s2 & E2 & I2 & C2). cbv zeta in I2, C2. rewrite E2, bind_Done.
  do 2 eexists. split; [reflexivity|]. split; [exact I2| |done|exact L1|].
  - eapply civil_trans; [exact (civil_weaken _ _ _ _ _ _ (sub_r _ _) C1)|exact (civil_weaken _ _ _ _ _ _ (sub_r _ _) C2)].
  - intros v i Hv' Ne Hi.
    refine (view_same ex w (set_ph w ph1) sp (mkSpace (sp_map sp) pm1) Y O _ _ _ v i I C1 (sub_l _ _) Hv' _ Hi).
    cbn [sp_pm]. by rewrite (L1 v Hv'), Ne.
Qed.

Lemma span_step v va n : aligned v -> aligned va ->
  (v =? va) || in_span v (va + VM_PAGE_SIZE) (Z.of_nat n * VM_PAGE_SIZE) = in_span v va (Z.of_nat (S n) * VM_PAGE_SIZE).
Proof. unfold aligned, in_span, VM_PAGE_SIZE. intros A B. Z.div_mod_to_equations. lia. Qed.

(** Every leaf of the span is under an anonymous range. *)
Definition span_anon (m : mem) (sp : space P) (va size : Z) : Prop :=
  forall v, upage v -> in_span v va size = true -> pm_leaf m (sp_pm sp) v <> None -> anon_at (sp_map sp) v = true.

Lemma release_pages_ok ex n (w : vmw F) (sp : space P) va Y O :
  vm_inv ex w sp Y O -> aligned va -> VM_USER_VA_LO <= va -> va + Z.of_nat n * VM_PAGE_SIZE <= VM_USER_VA_HI ->
  span_anon (vw_mem w) sp va (Z.of_nat n * VM_PAGE_SIZE) ->
  exists pm' w', release_pages n w (sp_pm sp) va = Done (pm', w') /\
    shed ex w sp (fun v => in_span v va (Z.of_nat n * VM_PAGE_SIZE)) Y O pm' w'.
Proof.
  revert w sp va. induction n as [|n IH]; intros w sp va I A Lo Hi An; cbn [release_pages].
  { exists (sp_pm sp), w. split; [reflexivity|]. apply shed_nothing; [exact I|]. unfold in_span. lia. }
  assert (upage va) as Hv by (split; [unfold VM_PAGE_SIZE in Hi; lia|exact A]).
  destruct (release_page_ok ex w sp va Y O I Hv) as (pm1 & w1 & E1 & S1).
  { apply (An va Hv). unfold in_span, VM_PAGE_SIZE. lia. }
  rewrite E1, bind_Done. destruct (IH w1 (mkSpace (sp_map sp) pm1) (va + VM_PAGE_SIZE)) as (pm2 & w2 & E2 & S2).
  - exact (sh_inv _ _ _ _ _ _ _ _ S1).
  - by apply aligned_add.
  - unfold VM_PAGE_SIZE. lia.
  - revert Hi. unfold VM_PAGE_SIZE. lia.
  - intros v Hv' Sp Lf. apply (An v Hv').
    + rewrite <- span_step; [|apply Hv'|exact A]. by rewrite Sp, orb_true_r.
    + intros El. apply Lf. cbn [sp_pm]. rewrite (sh_leaf _ _ _ _ _ _ _ _ S1 v Hv'), El. by destruct (v =? va).
  - exists pm2, w2. split; [exact E2|]. refine (shed_ext _ _ _ _ _ _ _ _ _ _ (shed_trans _ _ _ _ _ _ _ _ _ _ _ S1 S2)).
    intros v Hv'. apply span_step; [apply Hv'|exact A].
Qed.

(** ** [vm_map_release_anon] *)

Definition in_anon (l : list vm_map_entry) (v : Z) : bool :=
  match find_entry l v with Some e => has (vme_flags e) VME_F_ANON | None => false end.

Lemma pages_span e : aligned (vme_start e) -> aligned (vme_end e) -> vme_start e < vme_end e ->
  Z.of_nat (pages_between (vme_start e) (vme_end e)) * VM_PAGE_SIZE = vme_end e - vme_start e.
Proof. unfold aligned, pages_between, VM_PAGE_SIZE. intros A B L. Z.div_mod_to_equations. lia. Qed.

Lemma in_anon_cons lo e l hi v : chain lo (e :: l) hi ->
  in_anon (e :: l) v = (has (vme_flags e) VME_F_ANON && in_span v (vme_start e) (vme_end e - vme_start e)) || in_anon l v.
Proof.
  cbn [chain]. intros (? & ? & _ & _ & C). unfold in_anon, in_span. cbn [find_entry].
  replace (vme_start e + (vme_end e - vme_start e)) with (vme_end e) by lia.
  destruct ((vme_start e <=? v) && (v <? vme_end e)) eqn:E.
  - rewrite (find_entry_below _ _ _ v C) by lia. by rewrite andb_true_r, orb_false_r.
  - by rewrite andb_false_r.
Qed.

Lemma release_anon_entries_ok ex l (w : vmw F) (sp : space P) lo Y O :
  vm_inv ex w sp Y O -> chain lo l (vm_hi (sp_map sp)) -> VM_USER_VA_LO <= lo ->
  (forall v, upage v -> in_anon l v = true -> anon_at (sp_map sp) v = true) ->
  exists pm' w', release_anon_entries w (sp_pm sp) l = Done (pm', w') /\ shed ex w sp (in_anon l) Y O pm' w'.
Proof.
  revert w sp lo. induction l as [|e l IH]; intros w sp lo I C Lo An; cbn [release_anon_entries].
  { exists (sp_pm sp), w. split; [reflexivity|]. by apply shed_nothing. }
  pose proof (fun v => in_anon_cons lo e l _ v C) as Ic. pose proof C as (Hs & Hl & As & Ae & C').
  pose proof (so_window _ _ _ _ _ (vi_space _ _ _ _ _ I)) as Wn. pose proof (chain_le _ _ _ C') as Hi.
  destruct (has (vme_flags e) VME_F_ANON) eqn:Ea; cbn [negb].
  - pose proof (pages_span e As Ae Hl) as Ps.
    destruct (release_pages_ok ex (pages_between (vme_start e) (vme_end e)) w sp (vme_start e) Y O I As) as (pm1 & w1 & E1 & S1).
    + lia.
    + rewrite Ps. lia.
    + intros v Hv Sp _. apply (An v Hv). rewrite (Ic v), <- Ps, Sp. reflexivity.
    + rewrite E1, bind_Done. destruct (IH w1 (mkSpace (sp_map sp) pm1) (vme_end e)) as (pm2 & w2 & E2 & S2).
      * exact (sh_inv _ _ _ _ _ _ _ _ S1).
      * exact C'.
      * lia.
      * intros v Hv In. apply (An v Hv). by rewrite (Ic v), In, orb_true_r.
      * exists pm2, w2. split; [exact E2|].
        refine (shed_ext _ _ _ _ _ _ _ _ _ _ (shed_trans _ _ _ _ _ _ _ _ _ _ _ S1 S2)).
        intros v Hv. by rewrite (Ic v), Ps.
  - destruct (IH w sp (vme_end e) I C' ltac:(lia)) as (pm2 & w2 & E2 & S2).
    + intros v Hv In. apply (An v Hv). by rewrite (Ic v), In.
    + exists pm2, w2. split; [exact E2|]. refine (shed_ext _ _ _ _ _ _ _ _ _ _ S2). intros v Hv. by rewrite (Ic v).
Qed.

Lemma vm_map_release_anon_ok ex (w : vmw F) (sp : space P) Y O :
  vm_inv ex w sp Y O ->
  exists pm' w', vm_map_release_anon w sp = Done (mkSpace (sp_map sp) pm', w') /\
    shed ex w sp (anon_at (sp_map sp)) Y O pm' w'.
Proof.
  intros I. pose proof (vi_space _ _ _ _ _ I) as S. pose proof (so_map _ _ _ _ _ S) as M.
  destruct (release_anon_entries_ok ex (vm_head (sp_map sp)) w sp (vm_lo (sp_map sp)) Y O I (mo_chain _ M)) as (pm' & w' & E & Sh).
  - apply (so_window _ _ _ _ _ S).
  - done.
  - exists pm', w'. unfold vm_map_release_anon. rewrite E. split; [reflexivity|exact Sh].
Qed.

(** ** [vm_map_release] *)

Lemma release_scan_spec l lo hi va end_ covered cut :
  chain lo l hi ->
  let '(c, cut') := release_scan l va end_ covered cut in
  covered <= c /\ (forall v, covered <= v < c -> in_anon l v = true) /\ (c < end_ -> in_anon l c = false).
Proof.
  revert lo covered cut. induction l as [|e l IH]; intros lo covered cut C; cbn [release_scan]; [done || (split_and!; [lia|lia|done])|].
  pose proof (fun v => in_anon_cons lo e l hi v C) as Ic. pose proof C as (Hs & Hl & As & Ae & C').
  destruct (covered <? end_) eqn:E1; cbn [negb]; [|split_and!; lia].
  destruct (vme_end e <=? covered) eqn:E2.
  { specialize (IH _ covered cut C'). destruct (release_scan l va end_ covered cut) as [c cut'].
    destruct IH as (I1 & I2 & I3). split_and!; [exact I1| |].
    - intros v Hv. by rewrite Ic, (I2 v Hv), orb_true_r.
    - intros Hc. rewrite Ic, (I3 Hc). unfold in_span. destruct (has _ _); lia. }
  destruct (covered <? vme_start e) eqn:E3.
  { split_and!; [lia|lia|]. intros _. rewrite Ic. unfold in_anon.
    rewrite (find_entry_below _ _ _ _ C') by lia. unfold in_span. destruct (has _ _); lia. }
  destruct (has (vme_flags e) VME_F_ANON) eqn:Ea; cbn [negb].
  - set (cut1 := if _ || _ then true else cut). specialize (IH _ (vme_end e) cut1 C').
    destruct (release_scan l va end_ (vme_end e) cut1) as [c cut']. destruct IH as (I1 & I2 & I3). split_and!; [lia| |].
    + intros v Hv. rewrite Ic. destruct (Z_lt_ge_dec v (vme_end e)); [unfold in_span; lia|].
      rewrite I2 by lia. by rewrite orb_true_r.
    + intros Hc. rewrite Ic, (I3 Hc). unfold in_span. lia.
  - split_and!; [lia|lia|]. intros _. unfold in_anon. cbn [find_entry].
    by destruct ((vme_start e <=? covered) && (covered <? vme_end e)) eqn:?; [|lia].
Qed.

(** When a range can be given back. *)
Definition can_release (m : vm_map) (va size : Z) : Prop :=
  0 < size /\ aligned va /\ aligned size /\ vm_lo m <= va /\ va + size <= vm_hi m /\
  forall v, va <= v < va + size -> in_anon (vm_head m) v = true.

Record clipped (w : vmw F) (sp : space P) (Y O : gmultiset Z) (m' : vm_map) (w' : vmw F) : Prop := {
  cl_inv : vm_inv no_ex w' (mkSpace m' (sp_pm sp)) Y O;
  cl_ph : vw_ph w' = vw_ph w;
  cl_frames : space_frames (vw_mem w) (mkSpace m' (sp_pm sp)) = space_frames (vw_mem w) sp;
  cl_lo : vm_lo m' = vm_lo (sp_map sp) /\ vm_hi m' = vm_hi (sp_map sp);
  cl_backing : forall v, backing m' v = backing (sp_map sp) v;
}.

Lemma clip_heap (w : objs F) m at_ h ok m' w' h' :
  vm_map_clip_locked w m at_ h = Done (ok, m', w', h') -> h' = h \/ h' = snd (kmalloc_ok h).
Proof.
  unfold vm_map_clip_locked. destruct (vm_map_lookup m at_) as [[i e]|]; [|intros [= _ _ _ <-]; by left].
  destruct (vme_start e =? at_); [intros [= _ _ _ <-]; by left|].
  intros [_ [_ E]%KASSERT_inv]%KASSERT_inv. destruct (kmalloc_ok h) as [b h1]. right. cbn.
  destruct b; cbn [negb] in E; [|by injection E as _ _ _ <-].
  destruct (vm_object_ref w _); [|done]. by injection E as _ _ _ <-.
Qed.

Lemma clip_boundary (w : vmw F) m at_ ok m' w' b :
  clip w m at_ = Done (ok, m', w') -> boundary (vm_head m) b -> boundary (vm_head m') b.
Proof.
  intros E Bd. revert E. unfold clip, vm_map_clip_locked.
  destruct (vm_map_lookup m at_) as [[i e]|] eqn:Lk; [|by intros [= _ <- _]].
  destruct (vme_start e =? at_); [by intros [= _ <- _]|]. unfold vm_entry_split_locked.
  destruct ((vme_start e <? at_) && (at_ <? vme_end e)) eqn:In; [|done]. cbn [KASSERT].
  destruct (negb (unaligned at_)); [|done]. cbn. destruct (kmalloc_ok (vw_heap w)) as [[] h]; [|by intros [= _ <- _]].
  cbn [negb]. destruct (vm_object_ref (vw_objs w) (vme_object e)) as [o|]; [|done]. intros [= _ <- _].
  destruct (lookup_from_pos _ _ _ _ _ Lk) as (_ & Li & _). apply list_elem_of_lookup_2 in Li. pose proof (Bd e Li) as Be.
  intros x. cbn [with_entries vm_head]. rewrite elem_of_app, !elem_of_cons. intros [Hx|[->|[->|Hx]]].
  - by apply Bd, (subseteq_take _ _ _ Hx).
  - cbn. lia.
  - cbn. lia.
  - by apply Bd, (subseteq_drop _ _ _ Hx).
Qed.

Lemma clip_ok (w : vmw F) (sp : space P) at_ Y O :
  vm_inv no_ex w sp Y O -> few_outside O -> aligned at_ ->
  exists ok m' w', clip w (sp_map sp) at_ = Done (ok, m', w') /\ clipped w sp Y O m' w' /\
    (vw_heap w' = vw_heap w \/ vw_heap w' = snd (kmalloc_ok (vw_heap w))) /\
    if ok then boundary (vm_head m') at_ else fst (kmalloc_ok (vw_heap w)) = false.
Proof.
  intros I B A. pose proof (so_map _ _ _ _ _ (vi_space _ _ _ _ _ I)) as M. unfold clip.
  destruct (vm_map_clip_ok (vw_objs w) (sp_map sp) at_ (vw_heap w) O M A (vi_objs _ _ _ _ _ I) (few_names _ _ _ _ _ I B))
    as (ok & m' & o' & h' & E & M' & Elo & Ehi & Ob & _ & Bk & D).
  rewrite E, bind_Done. pose proof (clip_heap _ _ _ _ _ _ _ _ E) as Eh.
  destruct (vm_inv_backing no_ex w sp m' o' Y O O I M' Elo Ehi) as (I' & Ef & _);
    [by right|by intros v _ _|exact Ob|].
  exists ok, m'. set (w1 := set_heap (set_objs w o') h').
  exists (if vm_count m' =? vm_count (sp_map sp) then w1 else bump w1 vm_n_split). split; [reflexivity|].
  split; [|split].
  - split; [|by destruct (vm_count m' =? _)|exact Ef|done|exact Bk].
    apply (vm_inv_same _ (set_objs w o')); [by destruct (vm_count m' =? _)..|exact I'].
  - by destruct (vm_count m' =? _).
  - destruct ok; [exact D|apply D].
Qed.

Lemma in_anon_backing m m' v : map_ok m -> map_ok m' -> backing m' v = backing m v ->
  in_anon (vm_head m') v = in_anon (vm_head m) v.
Proof.
  intros M M'. rewrite !backing_find by done. unfold in_anon.
  destruct (find_entry (vm_head m') v), (find_entry (vm_head m) v); cbn; try done. by intros [= _ _ _ ->].
Qed.

Lemma clipped_trans (w w1 w2 : vmw F) (sp : space P) Y O m1 m2 :
  clipped w sp Y O m1 w1 -> clipped w1 (mkSpace m1 (sp_pm sp)) Y O m2 w2 -> clipped w sp Y O m2 w2.
Proof.
  intros [I1 P1 F1 [L1 H1'] B1] [I2 P2 F2 [L2 H2] B2]. cbn [sp_map sp_pm] in *.
  assert (vw_mem w1 = vw_mem w) as Em by (unfold vw_mem; by rewrite P1). rewrite Em in F2.
  split; [exact I2|congruence|congruence|split; congruence|]. intros v. by rewrite B2, B1.
Qed.

Lemma clipped_bump (w w1 : vmw F) (sp : space P) Y O m1 k :
  clipped w sp Y O m1 w1 -> clipped w sp Y O m1 (bump w1 k).
Proof. intros [I1 P1 F1 L1 B1]. split; try assumption. by apply (vm_inv_same _ w1). Qed.

Lemma clipped_refl (w : vmw F) (sp : space P) Y O : vm_inv no_ex w sp Y O -> clipped w sp Y O (sp_map sp) w.
Proof. intros I. assert (mkSpace (sp_map sp) (sp_pm sp) = sp) as E by (by destruct sp). split; rewrite ?E; done. Qed.

(** The part under the map lock: on success the range is anonymous throughout
    and no entry crosses its ends. *)
Lemma release_locked_ok (w : vmw F) (sp : space P) va size Y O :
  vm_inv no_ex w sp Y O -> few_outside O -> u64 va -> u64 size ->
  exists ok m' w', release_locked w (sp_map sp) va size = Done (ok, m', w') /\ clipped w sp Y O m' w' /\
    (if ok then can_release (sp_map sp) va size /\ boundary (vm_head m') va /\ boundary (vm_head m') (va + size)
     else can_release (sp_map sp) va size -> forall h, vw_heap w <> true :: true :: h).
Proof.
  unfold u64. intros I B Hv Hz. pose proof (so_map _ _ _ _ _ (vi_space _ _ _ _ _ I)) as M.
  destruct (map_ok_bounds _ M) as (Hb1 & Hb2 & _). unfold release_locked.
  assert (forall w', clipped w sp Y O (sp_map sp) w' -> (can_release (sp_map sp) va size -> forall h, vw_heap w <> true :: true :: h) ->
    exists ok m' w'', Done (false, sp_map sp, w') = Done (ok, m', w'') /\ clipped w sp Y O m' w'' /\
     (if ok then can_release (sp_map sp) va size /\ boundary (vm_head m') va /\ boundary (vm_head m') (va + size)
      else can_release (sp_map sp) va size -> forall h, vw_heap w <> true :: true :: h)) as No.
  { intros w' C N. by exists false, (sp_map sp), w'. }
  destruct (size =? 0) eqn:E0; [apply No; [by apply clipped_refl|intros (? & _); lia]|].
  destruct (unaligned va || unaligned size) eqn:Ea.
  { apply No; [by apply clipped_refl|]. intros (_ & A1%unaligned_spec & A2%unaligned_spec & _). by rewrite A1, A2 in Ea. }
  apply orb_false_iff in Ea as [A1%unaligned_spec A2%unaligned_spec].
  destruct (w64 (va + size) <? va) eqn:Ew.
  { apply No; [by apply clipped_refl|]. intros (_ & _ & _ & _ & Hh & _). rewrite w64_small in Ew; lia. }
  destruct ((va <? vm_lo (sp_map sp)) || (vm_hi (sp_map sp) <? w64 (va + size))) eqn:Er.
  { apply No; [by apply clipped_refl|]. intros (_ & _ & _ & Hl & Hh & _). rewrite w64_small in Er; lia. }
  assert (w64 (va + size) = va + size) as Ee.
  { apply w64_small. split; [lia|]. destruct (Z_lt_ge_dec (va + size) (2 ^ 64)); [done|]. exfalso.
    revert Ew. unfold w64. replace (va + size) with ((va + size - 2 ^ 64) + 1 * 2 ^ 64) by lia.
    rewrite Z.mod_add, Z.mod_small by lia. lia. }
  rewrite Ee in *.
  pose proof (release_scan_spec (vm_head (sp_map sp)) _ _ va (va + size) va false (mo_chain _ M)) as Sc.
  destruct (release_scan _ va (va + size) va false) as [c cut]. destruct Sc as (S1 & S2 & S3).
  destruct (c <? va + size) eqn:Ec.
  { apply No; [by apply clipped_bump, clipped_refl|]. intros (_ & _ & _ & _ & _ & An). rewrite (An c) in S3 by lia. specialize (S3 ltac:(lia)). discriminate S3. }
  assert (can_release (sp_map sp) va size) as Can.
  { split_and!; [lia|done|done|lia|lia|]. intros v Hv'. apply S2. lia. }
  destruct (clip_ok w sp va Y O I B A1) as (ok1 & m1 & w1 & E1 & C1 & Hp1 & D1). rewrite E1, bind_Done.
  destruct ok1; cbn [negb]; cycle 1.
  { eexists false, m1, _. split; [reflexivity|]. split; [by apply clipped_bump|]. intros _ h Eh. by rewrite Eh in D1. }
  destruct (clip_ok w1 (mkSpace m1 (sp_pm sp)) (va + size) Y O (cl_inv _ _ _ _ _ _ C1) B (aligned_add _ _ A1 A2))
    as (ok2 & m2 & w2 & E2 & C2 & Hp2 & D2).
  cbn [sp_map] in E2. rewrite E2, bind_Done. destruct ok2; cbn [negb]; cycle 1.
  { eexists false, m2, _. split; [reflexivity|]. split; [apply clipped_bump; by eapply clipped_trans|].
    intros _ h Eh. destruct Hp1 as [Hp1|Hp1]; rewrite Hp1, Eh in D2; discriminate D2. }
  eexists true, m2, _. split; [reflexivity|]. split; [apply clipped_bump; by eapply clipped_trans|].
  split; [exact Can|]. split; [exact (clip_boundary w1 m1 _ _ _ _ va E2 D1)|exact D2].
Qed.

(** Giving back a whole space's memory, or one range of it, kept apart from
    its map changes. *)
Lemma remove_outside (m : vm_map) va size n v :
  map_ok m -> boundary (vm_head m) va -> boundary (vm_head m) (va + size) -> 0 < size ->
  let m' := with_entries m (filter (fun e => Is_true (negb (wholly_inside e va (va + size)))) (vm_head m)) n in
  map_ok m' -> backing m' v = if in_span v va size then None else backing m v.
Proof.
  intros M B1 B2 Hs m' M'. unfold m'. rewrite backing_remove by done. rewrite (backing_find m) by done.
  destruct (find_entry (vm_head m) v) as [e|] eqn:Fe; [|by destruct (in_span v va size)].
  destruct (find_entry_Some _ _ _ Fe) as [Hin Hr]. pose proof (B1 e Hin). pose proof (B2 e Hin).
  unfold wholly_inside, in_span. cbn.
  destruct ((va <=? vme_start e) && (vme_end e <=? va + size)) eqn:?, ((va <=? v) && (v <? va + size)) eqn:?;
    done || lia.
Qed.

Record released (w : vmw F) (sp : space P) (va size : Z) (Y O : gmultiset Z) (sp' : space P) (w' : vmw F) : Prop := {
  re_inv : vm_inv no_ex w' sp' Y O;
  re_civil : civil Y w (total w sp Y) w' (total w' sp' Y);
  re_backing : forall v, backing (sp_map sp') v = if in_span v va size then None else backing (sp_map sp) v;
  re_leaf : forall v, upage v -> pm_leaf (vw_mem w') (sp_pm sp') v =
    if in_span v va size then None else pm_leaf (vw_mem w) (sp_pm sp) v;
  re_view : forall v i, upage v -> in_span v va size = false -> 0 <= i < PAGE_SIZE ->
    page_view (vw_mem w') sp' v i = page_view (vw_mem w) sp v i;
}.

Lemma release_unlocked_ok (w : vmw F) (sp : space P) va size Y O :
  vm_inv no_ex w sp Y O -> can_release (sp_map sp) va size ->
  boundary (vm_head (sp_map sp)) va -> boundary (vm_head (sp_map sp)) (va + size) ->
  exists sp' w', release_unlocked w sp va size = Done (sp', w') /\ released w sp va size Y O sp' w'.
Proof.
  intros I (Hs & A1 & A2 & Hl & Hh & An) B1 B2. unfold release_unlocked.
  pose proof (vi_space _ _ _ _ _ I) as S. pose proof (so_map _ _ _ _ _ S) as M. pose proof (so_window _ _ _ _ _ S) as Wn.
  assert (Z.of_nat (pages_between va (va + size)) * VM_PAGE_SIZE = size) as Ps.
  { unfold pages_between. revert A2. unfold aligned, VM_PAGE_SIZE. replace (va + size - va) with size by lia.
    intros A2. Z.div_mod_to_equations. lia. }
  destruct (release_pages_ok no_ex (pages_between va (va + size)) w sp va Y O I A1) as (pm1 & w1 & E1 & S1).
  - lia.
  - rewrite Ps. lia.
  - intros v Hv Sp _. apply An. rewrite Ps in Sp. unfold in_span in Sp. lia.
  - rewrite Ps in S1. rewrite E1, bind_Done. destruct S1 as [I1 C1 [Ob1 _] L1 V1].
    pose proof (map_ok_bounds _ M) as Mb.
    destruct (vm_map_remove_ok (vw_objs w1) (sp_map sp) va size O M) as (o2 & E2 & M2 & Ok2);
      [unfold u64; lia|exact Hs|lia|exact (vi_objs _ _ _ _ _ I1)|]. rewrite E2, bind_Done.
    pose proof (fun v => remove_outside (sp_map sp) va size _ v M B1 B2 Hs M2) as Rm.
    destruct (vm_inv_backing no_ex w1 (mkSpace (sp_map sp) pm1) _ o2 Y O O I1 M2) as (I2 & Ef & _); [done|done|..].
    + intros v. rewrite (Rm v). destruct (in_span v va size); [by left|by right].
    + intros v Hv Lf. rewrite (Rm v). destruct (in_span v va size) eqn:Sp; [|reflexivity].
      cbn [sp_pm] in Lf. rewrite (L1 v Hv), Sp in Lf. done.
    + exact Ok2.
    + do 2 eexists. split; [reflexivity|]. split.
      * exact I2.
      * eapply civil_trans; [exact C1|]. unfold total. cbn [sp_pm] in Ef.
        change (vw_mem (set_objs w1 o2)) with (vw_mem w1). rewrite Ef. by apply civil_refl.
      * intros v. exact (Rm v).
      * exact L1.
      * exact V1.
Qed.

Lemma vm_map_release_ok (w : vmw F) (sp : space P) va size Y O :
  vm_inv no_ex w sp Y O -> few_outside O -> u64 va -> u64 size ->
  exists ok sp' w', vm_map_release w sp va size = Done (ok, sp', w') /\
    (if ok then can_release (sp_map sp) va size
     else can_release (sp_map sp) va size -> forall h, vw_heap w <> true :: true :: h) /\
    released w sp va (if ok then size else 0) Y O sp' w'.
Proof.
  intros I B Hv Hz. destruct (release_locked_ok w sp va size Y O I B Hv Hz) as (ok & m1 & w1 & E1 & C1 & D1).
  unfold vm_map_release. rewrite E1, bind_Done. destruct C1 as [I1 P1 F1 [L1 H1'] B1].
  assert (vw_mem w1 = vw_mem w) as Em by (unfold vw_mem; by rewrite P1).
  assert (total w1 (mkSpace m1 (sp_pm sp)) Y = total w sp Y) as Et by (unfold total; by rewrite Em, F1).
  destruct ok; cbn [negb].
  - destruct D1 as (Can & Bd1 & Bd2).
    destruct (release_unlocked_ok w1 (mkSpace m1 (sp_pm sp)) va size Y O I1) as (sp' & w' & E2 & R); [|exact Bd1|exact Bd2|].
    { destruct Can as (? & ? & ? & ? & ? & An). cbn [sp_map]. split_and!; rewrite ?L1, ?H1'; try done. intros v Hv'.
      rewrite (in_anon_backing (sp_map sp) m1 v); [by apply An| | |exact (B1 v)].
      - apply (vi_space _ _ _ _ _ I).
      - exact (so_map _ _ _ _ _ (vi_space _ _ _ _ _ I1)). }
    rewrite E2, bind_Done. exists true, sp', w'. split; [reflexivity|]. split; [exact Can|].
    destruct R as [R1 R2 R3 R4 R5]. cbn [sp_map sp_pm] in *. split; [exact R1| | | |].
    + eapply civil_trans; [|exact R2]. rewrite Et. by apply civil_refl.
    + intros v. rewrite R3. by rewrite B1.
    + intros v Hv'. rewrite (R4 v Hv'). by rewrite Em.
    + intros v i Hv' Sp Hi. rewrite (R5 v i Hv' Sp Hi). unfold page_view. cbn [sp_pm]. by rewrite Em.
  - exists false, (mkSpace m1 (sp_pm sp)), w1. split; [reflexivity|]. split; [exact D1|].
    assert (forall v, in_span v va 0 = false) as Sp by (intros v; unfold in_span; lia).
    split; [exact I1| | | |].
    + rewrite Et. by apply civil_refl.
    + intros v. rewrite Sp. exact (B1 v).
    + intros v Hv'. rewrite Sp. cbn [sp_pm]. by rewrite Em.
    + intros v i _ _ _. unfold page_view. cbn [sp_pm]. by rewrite Em.
Qed.

(** * Properties *)

(** [C25] [vm_map_release] (munmap) with nobody in between: it answers true
    only for a page-aligned, non-empty range inside the space that anonymous
    ranges cover without a hole, and refuses such a range only when memory is
    out.  On success exactly the pages of the range lose their backing and
    their leaves, each frame one owner; on refusal no page changes.  It never
    panics, no page outside the range changes in any byte, and neither does
    any other space. *)
Theorem vm_map_release_exact (w : vmw F) (sp : space P) va size Y O :
  vm_inv no_ex w sp Y O -> few_outside O -> u64 va -> u64 size ->
  exists ok sp' w', vm_map_release w sp va size = Done (ok, sp', w') /\
    vm_inv no_ex w' sp' Y O /\
    (ok = true -> can_release (sp_map sp) va size) /\
    (can_release (sp_map sp) va size -> (exists h, vw_heap w = true :: true :: h) -> ok = true) /\
    (forall v, backing (sp_map sp') v = if ok && in_span v va size then None else backing (sp_map sp) v) /\
    (forall v, upage v -> pm_leaf (vw_mem w') (sp_pm sp') v =
       if ok && in_span v va size then None else pm_leaf (vw_mem w) (sp_pm sp) v) /\
    (forall v i, upage v -> ok && in_span v va size = false -> 0 <= i < PAGE_SIZE ->
       page_view (vw_mem w') sp' v i = page_view (vw_mem w) sp v i) /\
    (forall sp2, space_ok no_ex (vw_pmm w) (vw_mem w) (total w sp Y) sp2 -> space_frames (vw_mem w) sp2 ⊆ Y ->
       untouched w (total w sp Y) w' (total w' sp' Y) sp2).
Proof.
  intros I B Hv Hz. destruct (vm_map_release_ok w sp va size Y O I B Hv Hz) as (ok & sp' & w' & E & D & [R1 R2 R3 R4 R5]).
  assert (forall v, in_span v va (if ok then size else 0) = ok && in_span v va size) as Sp.
  { intros v. destruct ok; [reflexivity|]. unfold in_span. lia. }
  exists ok, sp', w'. split; [exact E|]. split; [exact R1|]. split_and!.
  - intros ->. exact D.
  - intros Can [h Eh]. destruct ok; [reflexivity|]. by destruct (D Can h).
  - intros v. by rewrite R3, Sp.
  - intros v Hv'. by rewrite (R4 v Hv'), Sp.
  - intros v i Hv' Ns Hi. apply R5; [exact Hv'|by rewrite Sp|exact Hi].
  - intros sp2. exact (civil_untouched Y _ _ _ _ sp2 R2).
Qed.

(** [vm_map_release_anon], the teardown of a task: afterwards no page of
    an anonymous range is mapped, so the space answers for its page tables
    and nothing else; pages of borrowed ranges stay mapped, their frames
    uncounted and untouched. *)
Theorem vm_map_release_anon_complete (w : vmw F) (sp : space P) Y O :
  vm_inv no_ex w sp Y O ->
  exists sp' w', vm_map_release_anon w sp = Done (sp', w') /\ vm_inv no_ex w' sp' Y O /\
    total w' sp' Y = frames (pm_tables (vw_mem w') (sp_pm sp')) ⊎ Y /\
    (forall v, upage v -> pm_leaf (vw_mem w') (sp_pm sp') v =
       if anon_at (sp_map sp) v then None else pm_leaf (vw_mem w) (sp_pm sp) v) /\
    (forall v i, upage v -> anon_at (sp_map sp) v = false -> 0 <= i < PAGE_SIZE ->
       page_view (vw_mem w') sp' v i = page_view (vw_mem w) sp v i) /\
    (forall sp2, space_ok no_ex (vw_pmm w) (vw_mem w) (total w sp Y) sp2 -> space_frames (vw_mem w) sp2 ⊆ Y ->
       untouched w (total w sp Y) w' (total w' sp' Y) sp2).
Proof.
  intros I. destruct (vm_map_release_anon_ok no_ex w sp Y O I) as (pm' & w' & E & [S1 S2 _ S4 S5]).
  eexists _, w'. split; [exact E|]. split; [exact S1|]. cbn [sp_pm]. split_and!; [|exact S4|exact S5|].
  - rewrite total_unfold, leaf_frames_none; [by rewrite gmultiset_disj_union_left_id|].
    intros v Hv. unfold own_of. cbn [sp_map sp_pm]. destruct (anon_at (sp_map sp) v) eqn:A; [|reflexivity].
    rewrite (S4 v Hv), A. reflexivity.
  - intros sp2. exact (civil_untouched Y _ _ _ _ sp2 S2).
Qed.

End Release.

Lemma demo_few_outside : few_outside ∅.
Proof. intros a. rewrite multiplicity_empty. lia. Qed.

(** The middle two pages of the zero-fill range. *)
Lemma vm_map_release_exact_witness :
  exists sp' w', vm_map_release demo_vw demo_space (VM_USER_VA_LO + 69632) 8192 = Done (true, sp', w') /\
    vm_inv no_ex w' sp' ∅ ∅ /\ backing (sp_map sp') (VM_USER_VA_LO + 73728) = None.
Proof.
  destruct (vm_map_release_exact demo_vw demo_space (VM_USER_VA_LO + 69632) 8192 ∅ ∅ demo_vm_inv demo_few_outside)
    as (ok & sp' & w' & E & I & _ & C & B & _); [unfold u64, VM_USER_VA_LO; lia..|].
  assert (ok = true) as ->.
  { apply C; [|by exists []]. split_and!; [lia|reflexivity|reflexivity|vm_compute; discriminate|vm_compute; discriminate|].
    intros v Hv. unfold in_anon. cbn [demo_space sp_map demo_user_map vm_head find_entry vme_start vme_end].
    unfold VM_USER_VA_LO in *. destruct ((1073741824 <=? v) && (v <? 1073741824 + 12288)) eqn:?; [lia|].
    by destruct ((1073741824 + 65536 <=? v) && (v <? 1073741824 + 81920)) eqn:?; [|lia]. }
  exists sp', w'. split; [exact E|]. split; [exact I|]. rewrite B. reflexivity.
Defined.

Lemma vm_map_release_anon_complete_witness :
  exists sp' w', vm_map_release_anon demo_vw demo_space = Done (sp', w') /\ vm_inv no_ex w' sp' ∅ ∅ /\
    total w' sp' ∅ = frames (pm_tables (vw_mem w') (sp_pm sp')) ⊎ ∅.
Proof.
  destruct (vm_map_release_anon_complete demo_vw demo_space ∅ ∅ demo_vm_inv) as (sp' & w' & E & I & T & _).
  exists sp', w'. exact (conj E (conj I T)).
Defined.
