(* ===== verification/VmRaces.v ===== *)
(** Two interleavings of [vm/vm.c] that lose: concrete schedules of the steps
    the other files prove correct one by one, evaluated on the machine of
    [VmDemo]. *)

From stdpp Require Import base list numbers strings gmap gmultiset.
From Stdlib Require Import ZArith Lia ZifyBool.
From S2P Require Import Prelude Pmm Phys VmObject VmMap Pmap Vm VmInv VmStep VmDemo.

(** The page both threads of the task work on, in its zero-fill range. *)
Definition race_page : Z := VM_USER_VA_LO + 65536.

(** A store by a running thread, through the leaf that is there. *)
Definition user_store (w : vmw one_file) (pm : pmap) (page b : Z) : vmw one_file :=
  set_ph w (with_mem (vw_ph w) (st8 (vw_mem w) (extract w pm page) b)).

(** An empty child: a root and a PDPT, as [pmap_create] leaves them, and an
    empty map. *)
Definition empty_child (w : vmw one_file) : space pmap * vmw one_file :=
  let '(root, w) := alloc_frame w in
  let '(pdpt, w) := alloc_frame w in
  let w := set_ph w (with_mem (vw_ph w) (st64 (vw_mem w) root (Z.lor pdpt (Z.lor PTE_P (Z.lor PTE_RW PTE_US))))) in
  (mkSpace (mkMap VM_USER_VA_LO VM_USER_VA_HI VM_USER_VA_LO [] 0) (mkPmap root 0 1 false), w).

(** Thread 1 faults on a page shared with a forked child and copies it; the
    child exits; thread 2 of the same task writes the page, finds no other
    owner and gets the old frame back, and stores 42; thread 1 resumes.  The
    answers are the two faults' and the byte the task reads afterwards. *)
Definition cow_schedule : res (fault_cont * Z * Z * Z) :=
  let '(child, w) := empty_child demo_vw in
  let '(frame, w) := alloc_frame w in
  r ← enter w demo_pmap race_page frame 11;
  let '(_, pm, w) := r in
  r ← vm_map_fork_share w (mkSpace demo_user_map pm) child;
  let '(_, task, child, w) := r in
  r ← fault_begin w task race_page true 0;                       (* thread 1 *)
  let '(c, pm, w) := r in
  r ← vm_map_release_anon w child;                               (* the child exits *)
  let '(_, w) := r in
  r ← vm_fault w (mkSpace (sp_map task) pm) race_page true 0;    (* thread 2 *)
  let '(rv2, pm, w) := r in
  let w := user_store w pm race_page 42 in
  r ← fault_finish w (mkSpace (sp_map task) pm) c;               (* thread 1 again *)
  let '(rv1, pm, w) := r in
  Done (c, rv2, rv1, ld8 (vw_mem w) (extract w pm race_page)).

(** [munmap] of one page against a fault on it: the pages go first, without
    the map lock, the entries after. *)
Definition release_schedule : res (bool * Z * Z * option (nat * vm_map_entry)) :=
  r ← release_locked demo_vw demo_user_map race_page 4096;       (* thread 1 *)
  let '(ok, m, w) := r in
  r ← release_pages 1 w demo_pmap race_page;
  let '(pm, w) := r in
  r ← vm_fault w (mkSpace m pm) race_page false 0;               (* thread 2 *)
  let '(rv, pm, w) := r in
  r ← vm_map_remove (vw_objs w) m race_page 4096;                (* thread 1 again *)
  let '(_, m, o) := r in
  Done (ok, rv, extract (set_objs w o) pm race_page, vm_map_lookup m race_page).

(** * Properties *)


