(* ===== verification/VmFork.v ===== *)
(** Fork, [vm_map_fork_share] of [vm/vm.c]: the child gets every range and
    every present page of the parent, and from then on neither sees the
    other's stores. *)

From stdpp Require Import base list numbers strings gmap gmultiset.
From Stdlib Require Import ZArith Lia ZifyBool.
From S2P Require Import Prelude Pmm Phys VmObject VmMap Pmap Vm VmInv VmStep VmDemo VmFault VmRelease.

Lemma swap3 (A B C D : gmultiset Z) : A ⊎ (B ⊎ (C ⊎ D)) = C ⊎ (B ⊎ (A ⊎ D)).
Proof. multiset_solver. Qed.

Lemma omap_mono (f g : Z -> option Z) (l : list Z) a :
  (forall v, v ∈ l -> f v = None \/ f v = g v) ->
  (multiplicity a (frames (omap f l)) <= multiplicity a (frames (omap g l)))%nat.
Proof.
  induction l as [|x l IH]; intros E; [done|].
  assert (multiplicity a (frames (omap f l)) <= multiplicity a (frames (omap g l)))%nat as Le.
  { apply IH. intros v Hv. apply E. by right. }
  assert (forall h : Z -> option Z, multiplicity a (frames (omap h (x :: l))) =
            (multiplicity a (named (h x)) + multiplicity a (frames (omap h l)))%nat) as U.
  { intros h. change (omap h (x :: l)) with (match h x with Some b => b :: omap h l | None => omap h l end).
    destruct (h x); cbn [named]; [by rewrite frames_cons, mult_union|reflexivity]. }
  rewrite !U. destruct (E x) as [->| ->]; [by left|cbn [named]; rewrite multiplicity_empty; lia|lia].
Qed.

Lemma leaf_frames_mono (f g : Z -> option Z) a :
  (forall v, upage v -> f v = None \/ f v = g v) -> (multiplicity a (leaf_frames f) <= multiplicity a (leaf_frames g))%nat.
Proof. intros E. apply omap_mono. intros v Hv%elem_upages. exact (E v Hv). Qed.

Section Fork.
Context {P : Type} `{PmapSpec P} {F : Type} `{FsOps F}.

Abbreviation own w sp := (leaf_frames (own_of (vw_mem w) sp)).
Abbreviation fr w sp := (space_frames (vw_mem w) sp).
Abbreviation nm sp := (entry_names (vm_head (sp_map sp))).

(** ** Two spaces at once *)

Definition total2 (w : vmw F) (src dst : space P) (Y : gmultiset Z) : gmultiset Z := total w src (fr w dst ⊎ Y).

Record pair_inv (ex : Z -> bool) (w : vmw F) (src dst : space P) (Y O : gmultiset Z) : Prop := {
  pi_src : vm_inv ex w src (fr w dst ⊎ Y) (nm dst ⊎ O);
  pi_dst : space_ok no_ex (vw_pmm w) (vw_mem w) (total2 w src dst Y) dst;
}.

Lemma total2_swap (w : vmw F) (src dst : space P) Y : total2 w src dst Y = total w dst (fr w src ⊎ Y).
Proof. unfold total2, total. apply union_swap. Qed.

Lemma pair_dst ex (w : vmw F) (src dst : space P) Y O :
  pair_inv ex w src dst Y O -> vm_inv no_ex w dst (fr w src ⊎ Y) (nm src ⊎ O) /\
    space_ok ex (vw_pmm w) (vw_mem w) (total w dst (fr w src ⊎ Y)) src.
Proof.
  intros [[W S Ob] D]. fold (total2 w src dst Y) in W, S. rewrite total2_swap in *.
  split; [|exact S]. split; [exact W|exact D|]. by rewrite union_swap.
Qed.

Lemma pair_of_dst ex (w : vmw F) (src dst : space P) Y O :
  vm_inv no_ex w dst (fr w src ⊎ Y) (nm src ⊎ O) ->
  space_ok ex (vw_pmm w) (vw_mem w) (total w dst (fr w src ⊎ Y)) src -> pair_inv ex w src dst Y O.
Proof.
  intros [W S Ob] D. rewrite <- total2_swap in *. split; [|exact S]. split; [exact W|exact D|]. by rewrite union_swap.
Qed.

Lemma pair_mono (ex ex' : Z -> bool) (w : vmw F) src dst Y O :
  (forall v, ex v = true -> ex' v = true) -> pair_inv ex w src dst Y O -> pair_inv ex' w src dst Y O.
Proof. intros Hx [I D]. split; [by apply (vm_inv_mono ex)|exact D]. Qed.

(** A leaf that is not writable, or whose frame has one owner after all, needs
    no exemption. *)
Lemma space_ok_clear va s m X (sp : space P) :
  space_ok (fun v => no_ex v || (v =? va)) s m X sp ->
  (forall lf, pm_leaf m (sp_pm sp) va = Some lf -> lf_write lf = true -> multiplicity (lf_pa lf) X = 1%nat) ->
  space_ok no_ex s m X sp.
Proof.
  intros [S1 S2 S3 S4 S5 S6] M. split; try assumption. intros v lf Hv El. destruct (S6 v lf Hv El) as (e & Fe & [L1 L2 L3 L4]).
  exists e. split; [exact Fe|]. split; [exact L1| |exact L3|exact L4]. intros _ Hw. cbn [no_ex orb] in L2.
  destruct (v =? va) eqn:Ev; [|by apply L2]. apply Z.eqb_eq in Ev as ->. by apply M.
Qed.

Definition share_leaf (prot : Z) (o : option leaf) : option leaf := (fun lf => leaf_for (lf_pa lf) prot) <$> o.

(** The pages of [K] shared: the child's leaves are the parent's frames with
    [prot], and so are the parent's when [wr] says the range was writable. *)
Record forked (w : vmw F) (src dst : space P) (K : Z -> bool) (prot : Z) (wr : bool) (Y O : gmultiset Z)
    (spm' dpm' : P) (w' : vmw F) : Prop := {
  fk_inv : pair_inv no_ex w' (mkSpace (sp_map src) spm') (mkSpace (sp_map dst) dpm') Y O;
  fk_civil : civil Y w (total2 w src dst Y) w' (total2 w' (mkSpace (sp_map src) spm') (mkSpace (sp_map dst) dpm') Y);
  fk_same : vw_objs w' = vw_objs w /\ vw_heap w' = vw_heap w;
  fk_src : forall v, upage v -> pm_leaf (vw_mem w') spm' v =
    if K v && wr then share_leaf prot (pm_leaf (vw_mem w) (sp_pm src) v) else pm_leaf (vw_mem w) (sp_pm src) v;
  fk_dst : forall v, upage v -> pm_leaf (vw_mem w') dpm' v =
    if K v then share_leaf prot (pm_leaf (vw_mem w) (sp_pm src) v) else pm_leaf (vw_mem w) (sp_pm dst) v;
  fk_bytes : forall v lf, upage v -> pm_leaf (vw_mem w) (sp_pm src) v = Some lf -> same_page (vw_mem w) (vw_mem w') (lf_pa lf);
}.

(** The bytes under the space's leaves survive. *)
Lemma leaf_bytes ex (w w' : vmw F) (sp : space P) R X0 X X' v lf :
  space_ok ex (vw_pmm w) (vw_mem w) X0 sp -> civil R w X w' X' -> own w sp ⊆ R -> upage v ->
  pm_leaf (vw_mem w) (sp_pm sp) v = Some lf -> same_page (vw_mem w) (vw_mem w') (lf_pa lf).
Proof.
  intros S [St M V N] Sub Hv El. destruct (so_leaf _ _ _ _ _ S v lf Hv El) as (e & Fe & L).
  destruct (has (vme_flags e) VME_F_ANON) eqn:A.
  - apply M. apply (gmultiset_elem_of_subseteq (own w sp)); [|exact Sub]. apply leaf_frames_in. exists v.
    split; [exact Hv|]. exact (own_of_Some _ _ _ _ _ Fe A El).
  - apply V; [exact (pm_leaf_pa _ _ _ _ (so_pm _ _ _ _ _ S) Hv El)|exact (lw_borrowed _ _ _ _ _ L A)].
Qed.

Lemma own_sub_frames (w : vmw F) (sp : space P) Y : own w sp ⊆ fr w sp ⊎ Y.
Proof. exact (own_sub_total w sp Y). Qed.

(** ** One page *)

(** The reference taken on the parent's frame, seen from the child. *)
Lemma fork_ref (w : vmw F) (src dst : space P) va pa Y O :
  pair_inv no_ex w src dst Y O -> upage va -> own_of (vw_mem w) src va = Some pa ->
  Z.of_nat (multiplicity pa (total2 w src dst Y)) < 65535 ->
  exists s1, ref_frame w pa = Done (set_ph w (with_pmm (vw_ph w) s1)) /\
    let w1 := set_ph w (with_pmm (vw_ph w) s1) in
    let X1 := total w1 dst ({[+ pa +]} ⊎ (fr w src ⊎ Y)) in
    vm_inv no_ex w1 dst ({[+ pa +]} ⊎ (fr w src ⊎ Y)) (nm src ⊎ O) /\
    space_ok (fun v => no_ex v || (v =? va)) (vw_pmm w1) (vw_mem w1) X1 src /\
    civil Y w (total2 w src dst Y) w1 X1 /\ X1 = {[+ pa +]} ⊎ total2 w src dst Y.
Proof.
  intros [I D] Hv Ho B. destruct (ref_step no_ex w src va pa _ _ I Hv Ho B) as (s1 & E & I1 & C1).
  exists s1. split; [exact E|]. cbv zeta in *. set (w1 := set_ph w (with_pmm (vw_ph w) s1)) in *.
  assert (total w1 dst ({[+ pa +]} ⊎ (fr w src ⊎ Y)) = total w1 src ({[+ pa +]} ⊎ (fr w dst ⊎ Y))) as Ex
    by exact (swap3 (fr w dst) {[+ pa +]} (fr w src) Y).
  destruct (polite_other no_ex _ _ _ _ _ _ _ dst C1 D (sub_l _ _)) as (D1 & _ & _).
  destruct I1 as [W1 S1 Ob1]. rewrite Ex. split; [|split; [|split]].
  - split; rewrite ?Ex; [exact W1|exact D1|]. by rewrite union_swap.
  - exact S1.
  - exact (civil_weaken _ _ _ _ _ _ (sub_r _ _) C1).
  - apply union_swap.
Qed.

(** The child's leaf. *)
Lemma fork_enter ex (w : vmw F) (src dst : space P) va pa prot e' Y O :
  let Yin := named (share e' pa) ⊎ (fr w src ⊎ Y) in
  vm_inv no_ex w dst Yin (nm src ⊎ O) -> space_ok ex (vw_pmm w) (vw_mem w) (total w dst Yin) src ->
  may_install w dst (total w dst Yin) va pa e' (leaf_for pa prot) ->
  exists ok dpm' ph', enter w (sp_pm dst) va pa prot = Done (ok, dpm', set_ph w ph') /\
    let w' := set_ph w ph' in
    let dst' := mkSpace (sp_map dst) dpm' in
    let Yout := named (left_over w dst e' va pa ok) ⊎ (fr w' src ⊎ Y) in
    vm_inv no_ex w' dst' Yout (nm src ⊎ O) /\
    space_ok ex (vw_pmm w') (vw_mem w') (total w' dst' Yout) src /\
    civil (fr w src ⊎ Y) w (total w dst Yin) w' (total w' dst' Yout) /\
    fr w' src = fr w src /\
    (forall v, upage v -> pm_leaf (vw_mem w') (sp_pm src) v = pm_leaf (vw_mem w) (sp_pm src) v) /\
    (forall v, upage v -> pm_leaf (vw_mem w') dpm' v =
       if ok && (v =? va) then Some (leaf_for pa prot) else pm_leaf (vw_mem w) (sp_pm dst) v) /\
    (forall f, f ∈ total w dst Yin -> multiplicity f (total w' dst' Yout) = multiplicity f (total w dst Yin)).
Proof.
  intros Yin I D M. destruct (enter_step no_ex w dst va pa prot _ _ e' I M) as (ok & dpm' & ph' & E & I1 & C1 & L1 & _ & Mt).
  exists ok, dpm', ph'. split; [exact E|]. cbv zeta in *.
  assert (fr w src ⊆ own w dst ⊎ (named (share e' pa) ⊎ (fr w src ⊎ Y))) as Sub by (clear; multiset_solver).
  destruct (polite_other ex _ _ _ _ _ _ _ src C1 D Sub) as (D1 & Ef & _).
  assert (fr (set_ph w ph') src = fr w src) as Ef' by exact Ef. rewrite Ef'.
  split; [exact (vm_inv_mono _ _ _ _ _ _ (fun v Hx => proj1 (andb_prop _ _ Hx)) I1)|].
  split; [exact D1|]. split; [refine (civil_weaken _ _ _ _ _ _ _ C1); clear; multiset_solver|].
  split; [reflexivity|]. split; [|split; [exact L1|exact Mt]].
  intros v Hv. exact (polite_leaf ex _ _ _ _ _ _ _ src v C1 D Sub Hv).
Qed.

(** The parent's leaf, made read-only. *)
Lemma fork_protect va (w : vmw F) (src dst : space P) prot e lf Y O :
  pair_inv (fun v => no_ex v || (v =? va)) w src dst Y O -> upage va ->
  find_entry (vm_head (sp_map src)) va = Some e -> pm_leaf (vw_mem w) (sp_pm src) va = Some lf ->
  has prot VM_PROT_WRITE = false -> has (vme_flags e) VME_F_ANON = true -> has (vme_flags e) VME_F_COW = true ->
  exists spm' ph', enter w (sp_pm src) va (lf_pa lf) prot = Done (true, spm', set_ph w ph') /\
    let w' := set_ph w ph' in
    let src' := mkSpace (sp_map src) spm' in
    pair_inv no_ex w' src' dst Y O /\
    civil Y w (total2 w src dst Y) w' (total2 w' src' dst Y) /\
    civil (own w src) w (total2 w src dst Y) w' (total2 w' src' dst Y) /\
    (forall v, upage v -> pm_leaf (vw_mem w') spm' v =
       if v =? va then Some (leaf_for (lf_pa lf) prot) else pm_leaf (vw_mem w) (sp_pm src) v) /\
    (forall v, upage v -> pm_leaf (vw_mem w') (sp_pm dst) v = pm_leaf (vw_mem w) (sp_pm dst) v).
Proof.
  intros [I D] Hv Fe El Np An Cow.
  destruct (reenter_step _ w src va prot _ _ e lf I El) as (spm' & ph' & E & I1 & C1 & L1 & _).
  { split; [exact Hv|exact (pm_leaf_pa _ _ _ _ (so_pm _ _ _ _ _ (vi_space _ _ _ _ _ I)) Hv El)|exact Fe|].
    split; cbn [leaf_for lf_write lf_pa]; rewrite ?Np; [discriminate|discriminate|rewrite An; discriminate|by intros _ _]. }
  exists spm', ph'. split; [exact E|]. cbv zeta in *. set (w' := set_ph w ph') in *.
  assert (fr w dst ⊆ own w src ⊎ (fr w dst ⊎ Y)) as Sub by (clear; multiset_solver).
  destruct (polite_other no_ex _ _ _ _ _ _ _ dst C1 D Sub) as (D1 & Ef & _).
  assert (fr w' dst = fr w dst) as Ef' by exact Ef. unfold total2. rewrite Ef'.
  split; [|split; [exact (civil_weaken _ _ _ _ _ _ (sub_rr _ _ _) C1)|split; [exact (civil_weaken _ _ _ _ _ _ (sub_l _ _) C1)|split; [exact L1|]]]].
  - split; unfold total2; rewrite Ef'; [|exact D1]. refine (vm_inv_mono _ _ _ _ _ _ _ I1).
    intros v. cbn [no_ex orb]. by destruct (v =? va).
  - intros v Hv'. exact (polite_leaf no_ex _ _ _ _ _ _ _ dst v C1 D Sub Hv').
Qed.

(** What the page loop relies on at [va]. *)
Record fork_ready (w : vmw F) (src dst : space P) (va prot : Z) (e e' : vm_map_entry) : Prop := {
  fr_page : upage va;
  fr_src : find_entry (vm_head (sp_map src)) va = Some e;
  fr_dst : find_entry (vm_head (sp_map dst)) va = Some e';
  fr_range : same_range e e';
  fr_cow : has (vme_prot e) VM_PROT_WRITE = true -> has (vme_flags e) VME_F_COW = true;
  fr_prot : has prot VM_PROT_WRITE = false;
  fr_new : pm_leaf (vw_mem w) (sp_pm dst) va = None;
}.

Lemma ready_leaf_wf (w : vmw F) (src dst : space P) va prot e e' s X pa :
  fork_ready w src dst va prot e e' -> (has (vme_flags e) VME_F_ANON = false -> reserved s pa) ->
  leaf_wf false s X e' (leaf_for pa prot).
Proof.
  intros R B. destruct (fr_range _ _ _ _ _ _ _ R) as [Sp Sa Sc].
  split; cbn [leaf_for lf_write lf_pa]; rewrite ?(fr_prot _ _ _ _ _ _ _ R); [discriminate|discriminate|by rewrite Sa|].
  rewrite Sp. intros Hw _. exact (Sc (fr_cow _ _ _ _ _ _ _ R Hw)).
Qed.

(** Refused: the reference goes back, and the parent's leaf is as single an
    owner as it was. *)
Lemma fork_undo (w2 : vmw F) (src dst : space P) va pa lf X0 Y O :
  vm_inv no_ex w2 dst ({[+ pa +]} ⊎ (fr w2 src ⊎ Y)) (nm src ⊎ O) ->
  space_ok (fun v => no_ex v || (v =? va)) (vw_pmm w2) (vw_mem w2) (total w2 dst ({[+ pa +]} ⊎ (fr w2 src ⊎ Y))) src ->
  pm_leaf (vw_mem w2) (sp_pm src) va = Some lf -> lf_pa lf = pa ->
  (lf_write lf = true -> multiplicity pa X0 = 1%nat) ->
  multiplicity pa (total w2 dst ({[+ pa +]} ⊎ (fr w2 src ⊎ Y))) = S (multiplicity pa X0) ->
  exists s3, free_frame w2 pa = Done (set_ph w2 (with_pmm (vw_ph w2) s3)) /\
    let w3 := set_ph w2 (with_pmm (vw_ph w2) s3) in
    pair_inv no_ex w3 src dst Y O /\
    civil Y w2 (total w2 dst ({[+ pa +]} ⊎ (fr w2 src ⊎ Y))) w3 (total2 w3 src dst Y).
Proof.
  intros I D El Ep Hs Hm. destruct (free_step _ _ _ _ _ _ I) as (s3 & E & I3 & C3). cbv zeta in I3, C3.
  exists s3. split; [exact E|]. cbv zeta. set (w3 := set_ph w2 (with_pmm (vw_ph w2) s3)) in *.
  assert (fr w2 src ⊆ total w2 dst (fr w2 src ⊎ Y)) as Sub by apply sub_rl.
  destruct (polite_other _ _ _ _ _ _ _ _ src C3 D Sub) as (D3 & _ & _).
  split; [|rewrite total2_swap; exact (civil_weaken _ _ _ _ _ _ (sub_rr _ _ _) C3)].
  apply pair_of_dst; [exact I3|]. apply (space_ok_clear va); [exact D3|].
  intros lf' El' Hw. change (pm_leaf (vw_mem w2) (sp_pm src) va = Some lf') in El'. rewrite El in El'. injection El' as <-.
  rewrite Ep. specialize (Hs Hw). unfold total in Hm. rewrite union_swap, mult_union, mult_one, Hs in Hm.
  change (multiplicity pa (total w2 dst (fr w2 src ⊎ Y)) = 1%nat). unfold total. lia.
Qed.

Lemma forked_none (w : vmw F) (src dst : space P) (K : Z -> bool) prot wr Y O :
  pair_inv no_ex w src dst Y O ->
  (forall v, upage v -> K v = true -> pm_leaf (vw_mem w) (sp_pm src) v = None /\ pm_leaf (vw_mem w) (sp_pm dst) v = None) ->
  forked w src dst K prot wr Y O (sp_pm src) (sp_pm dst) w.
Proof.
  intros I Hk. split; rewrite ?space_eta; [exact I|by apply civil_refl|done| | |done].
  - intros v Hv. destruct (K v && wr) eqn:E; [|reflexivity]. apply andb_true_iff in E as [Kv _].
    by rewrite (proj1 (Hk v Hv Kv)).
  - intros v Hv. destruct (K v) eqn:E; [|reflexivity]. destruct (Hk v Hv E) as [-> ->]. reflexivity.
Qed.

Lemma pair_same ex (w w' : vmw F) (src dst : space P) Y O :
  vw_ph w' = vw_ph w -> vw_objs w' = vw_objs w -> pair_inv ex w src dst Y O -> pair_inv ex w' src dst Y O.
Proof.
  intros Ep Eo [I D].
  assert (vw_mem w' = vw_mem w) as Em by (unfold vw_mem; by rewrite Ep).
  assert (vw_pmm w' = vw_pmm w) as Es by (unfold vw_pmm; by rewrite Ep).
  split; unfold total2, total in *; rewrite ?Em, ?Es; [|exact D]. exact (vm_inv_same _ _ _ _ _ _ Ep Eo I).
Qed.

Lemma forked_same (w w' w'' : vmw F) (src dst : space P) K prot wr Y O spm' dpm' :
  vw_ph w'' = vw_ph w' -> vw_objs w'' = vw_objs w' -> vw_heap w'' = vw_heap w' ->
  forked w src dst K prot wr Y O spm' dpm' w' -> forked w src dst K prot wr Y O spm' dpm' w''.
Proof.
  intros Ep Eo Eh [I C [So Sh] Ls Ld By].
  assert (vw_mem w'' = vw_mem w') as Em by (unfold vw_mem; by rewrite Ep).
  assert (vw_pmm w'' = vw_pmm w') as Es by (unfold vw_pmm; by rewrite Ep).
  split; [exact (pair_same _ _ _ _ _ _ _ Ep Eo I)| |split; congruence|rewrite Em; exact Ls|rewrite Em; exact Ld|rewrite Em; exact By].
  unfold civil, total2, total in *. rewrite Em, Es. exact C.
Qed.

(** The child's leaf is in, the parent's as it was. *)
Record half ex (w : vmw F) (src dst : space P) (va pa prot : Z) (Y O : gmultiset Z) (dpm' : P) (w' : vmw F) : Prop := {
  hf_inv : pair_inv ex w' src (mkSpace (sp_map dst) dpm') Y O;
  hf_civil : civil Y w (total2 w src dst Y) w' (total2 w' src (mkSpace (sp_map dst) dpm') Y);
  hf_same : vw_objs w' = vw_objs w /\ vw_heap w' = vw_heap w;
  hf_src : forall v, upage v -> pm_leaf (vw_mem w') (sp_pm src) v = pm_leaf (vw_mem w) (sp_pm src) v;
  hf_dst : forall v, upage v -> pm_leaf (vw_mem w') dpm' v =
    if v =? va then Some (leaf_for pa prot) else pm_leaf (vw_mem w) (sp_pm dst) v;
  hf_bytes : forall v lf, upage v -> pm_leaf (vw_mem w) (sp_pm src) v = Some lf -> same_page (vw_mem w) (vw_mem w') (lf_pa lf);
}.

Lemma half_forked (w w' : vmw F) (src dst : space P) va prot lf Y O dpm' :
  half no_ex w src dst va (lf_pa lf) prot Y O dpm' w' -> pm_leaf (vw_mem w) (sp_pm src) va = Some lf ->
  forked w src dst (fun v => v =? va) prot false Y O (sp_pm src) dpm' w'.
Proof.
  intros [I C Sa Ls Ld By] El. split; rewrite ?space_eta; [exact I|exact C|exact Sa| | |exact By].
  - intros v Hv. rewrite andb_false_r. exact (Ls v Hv).
  - intros v Hv. rewrite (Ld v Hv). destruct (v =? va) eqn:Ev; [|reflexivity]. apply Z.eqb_eq in Ev as ->. by rewrite El.
Qed.

Lemma half_clear va (w w' : vmw F) (src dst : space P) pa prot e Y O dpm' :
  half (fun v => no_ex v || (v =? va)) w src dst va pa prot Y O dpm' w' -> upage va ->
  find_entry (vm_head (sp_map src)) va = Some e -> has (vme_prot e) VM_PROT_WRITE = false ->
  half no_ex w src dst va pa prot Y O dpm' w'.
Proof.
  intros [[[W S Ob] D] C Sa Ls Ld By] Hv Fs Wr. split; try assumption. split; [|exact D]. split; [exact W| |exact Ob].
  apply (space_ok_clear va); [exact S|]. intros lf' El' Hw.
  destruct (so_leaf _ _ _ _ _ S va lf' Hv El') as (e0 & Fe0 & L0). rewrite Fs in Fe0. injection Fe0 as <-.
  rewrite (lw_prot _ _ _ _ _ L0 Hw) in Wr. discriminate.
Qed.

Lemma half_protect va (w w' : vmw F) (src dst : space P) prot e lf Y O dpm' :
  half (fun v => no_ex v || (v =? va)) w src dst va (lf_pa lf) prot Y O dpm' w' -> upage va ->
  find_entry (vm_head (sp_map src)) va = Some e -> pm_leaf (vw_mem w) (sp_pm src) va = Some lf ->
  has prot VM_PROT_WRITE = false -> has (vme_flags e) VME_F_ANON = true -> has (vme_flags e) VME_F_COW = true ->
  exists spm' w'', enter w' (sp_pm src) va (lf_pa lf) prot = Done (true, spm', w'') /\
    forked w src dst (fun v => v =? va) prot true Y O spm' dpm' w''.
Proof.
  intros [Pi C [So Sh] Ls Ld By] Hv Fs El Np An Cow.
  destruct (fork_protect va w' src (mkSpace (sp_map dst) dpm') prot e lf Y O Pi Hv Fs) as (spm3 & ph3 & E3 & Pi3 & C3 & Co3 & Ls3 & Ld3);
    [exact (eq_trans (Ls va Hv) El)|exact Np|exact An|exact Cow|].
  cbv zeta in *. exists spm3, (set_ph w' ph3). split; [exact E3|].
  split; [exact Pi3|exact (civil_trans _ _ _ _ _ _ _ C C3)|exact (conj So Sh)| | |].
  - intros v Hv'. rewrite andb_true_r. refine (eq_trans (Ls3 v Hv') _). destruct (v =? va) eqn:Ev; [|exact (Ls v Hv')].
    apply Z.eqb_eq in Ev as ->. rewrite El. reflexivity.
  - intros v Hv'. refine (eq_trans (Ld3 v Hv') (eq_trans (Ld v Hv') _)). destruct (v =? va) eqn:Ev; [|reflexivity].
    apply Z.eqb_eq in Ev as ->. rewrite El. reflexivity.
  - intros v lf' Hv' El'. eapply same_page_trans; [exact (By v lf' Hv' El')|].
    refine (leaf_bytes _ w' (set_ph w' ph3) src _ _ _ _ v lf' (vi_space _ _ _ _ _ (pi_src _ _ _ _ _ _ Pi)) Co3 _ Hv' _); [reflexivity|].
    exact (eq_trans (Ls v Hv') El').
Qed.

(** Reference and child's leaf, or both undone. *)
Lemma fork_child (w : vmw F) (src dst : space P) va prot e e' lf Y O :
  pair_inv no_ex w src dst Y O -> fork_ready w src dst va prot e e' ->
  pm_leaf (vw_mem w) (sp_pm src) va = Some lf -> has (vme_flags e) VME_F_ANON = true ->
  Z.of_nat (multiplicity (lf_pa lf) (total2 w src dst Y)) < 65535 ->
  exists w1 ok dpm' w2, ref_frame w (lf_pa lf) = Done w1 /\
    enter w1 (sp_pm dst) va (lf_pa lf) prot = Done (ok, dpm', w2) /\
    if ok then half (fun v => no_ex v || (v =? va)) w src dst va (lf_pa lf) prot Y O dpm' w2
    else exists w3, free_frame w2 (lf_pa lf) = Done w3 /\
           forall wr, forked w src dst (fun _ => false) prot wr Y O (sp_pm src) dpm' w3.
Proof.
  intros Pi R El An B. pose proof R as [Hv Fs Fd Sr Hc Np Nw]. pose proof Pi as [I D].
  pose proof (pm_leaf_pa _ _ _ _ (so_pm _ _ _ _ _ (vi_space _ _ _ _ _ I)) Hv El) as Fp.
  pose proof (own_of_Some _ _ _ _ _ Fs An El) as Ho.
  destruct (fork_ref w src dst va (lf_pa lf) Y O Pi Hv Ho B) as (s1 & E1 & I1 & D1 & C1 & X1). cbv zeta in *.
  set (w1 := set_ph w (with_pmm (vw_ph w) s1)) in *.
  assert (share e' (lf_pa lf) = Some (lf_pa lf)) as Es by (unfold share; by rewrite (sr_anon _ _ Sr), An).
  destruct (fork_enter (fun v => no_ex v || (v =? va)) w1 src dst va (lf_pa lf) prot e' Y O)
    as (ok & dpm' & ph2 & E2 & I2 & D2 & C2 & Ef2 & Ls2 & Ld2 & Mt2); rewrite ?Es.
  { exact I1. }
  { exact D1. }
  { split; [exact Hv|exact Fp|exact Fd|]. apply (ready_leaf_wf _ _ _ _ _ _ _ _ _ _ R). rewrite An. discriminate. }
  cbv zeta in *. rewrite Es in C2, Mt2. cbn [named] in C2, Mt2. set (w2 := set_ph w1 ph2) in *.
  assert (forall v lf', upage v -> pm_leaf (vw_mem w) (sp_pm src) v = Some lf' -> same_page (vw_mem w) (vw_mem w2) (lf_pa lf')) as By2.
  { intros v lf' Hv' El'. exact (leaf_bytes _ w1 w2 src _ _ _ _ v lf' D1 C2 (own_sub_frames w1 src Y) Hv' El'). }
  pose proof (civil_trans _ _ _ _ _ _ _ C1 (civil_weaken _ _ _ _ _ _ (sub_r _ _) C2)) as C12.
  exists w1, ok, dpm', w2. split; [exact E1|]. split; [exact E2|]. destruct ok.
  - assert (left_over w1 dst e' va (lf_pa lf) true = None) as Lo.
    { unfold left_over, own_of. change (vw_mem w1) with (vw_mem w). rewrite Nw. by destruct (anon_at _ _). }
    rewrite Lo in I2, D2, C12. cbn [named] in I2, D2, C12. rewrite gmultiset_disj_union_left_id in I2, D2, C12.
    rewrite <- total2_swap in C12.
    split; [exact (pair_of_dst _ _ _ _ _ _ I2 D2)|exact C12|split; reflexivity|exact Ls2|exact Ld2|exact By2].
  - cbn [left_over] in *. rewrite Es in I2, D2, C12, Mt2. cbn [named] in I2, D2, C12, Mt2.
    destruct (fork_undo w2 src (mkSpace (sp_map dst) dpm') va (lf_pa lf) lf (total2 w src dst Y) Y O I2 D2) as (s3 & E3 & Pi3 & C3).
    { exact (eq_trans (Ls2 va Hv) El). }
    { reflexivity. }
    { intros Hw. exact (writable_single w src _ _ va lf I Hv El Hw). }
    { assert (total w1 dst ({[+ lf_pa lf +]} ⊎ (fr w1 src ⊎ Y)) = {[+ lf_pa lf +]} ⊎ total2 w src dst Y) as X1' by exact X1.
      rewrite Mt2, X1', mult_union, mult_one; [reflexivity|]. rewrite X1'. apply gmultiset_elem_of_disj_union. left.
      by apply gmultiset_elem_of_singleton. }
    cbv zeta in *. eexists. split; [exact E3|]. intros wr.
    split; rewrite ?space_eta; [exact Pi3|exact (civil_trans _ _ _ _ _ _ _ C12 C3)|split; reflexivity|exact Ls2|exact Ld2|exact By2].
Qed.

Lemma fork_page_owned (w : vmw F) (src dst : space P) va prot e e' lf Y O :
  pair_inv no_ex w src dst Y O -> fork_ready w src dst va prot e e' ->
  pm_leaf (vw_mem w) (sp_pm src) va = Some lf -> has (vme_flags e) VME_F_ANON = true ->
  Z.of_nat (multiplicity (lf_pa lf) (total2 w src dst Y)) < 65535 ->
  exists ok spm' dpm' w',
    fork_page w (sp_pm src) (sp_pm dst) va prot true (has (vme_prot e) VM_PROT_WRITE) = Done (ok, spm', dpm', w') /\
    forked w src dst (fun v => ok && (v =? va)) prot (has (vme_prot e) VM_PROT_WRITE) Y O spm' dpm' w'.
Proof.
  intros Pi R El An B. destruct (fork_child w src dst va prot e e' lf Y O Pi R El An B) as (w1 & ok & dpm' & w2 & E1 & E2 & D).
  pose proof R as [Hv Fs Fd Sr Hc Np Nw]. pose proof (pi_src _ _ _ _ _ _ Pi) as I.
  unfold fork_page. rewrite (extract_leaf _ _ _ _ _ _ I Hv), El, (leaf_valid _ _ _ _ _ _ _ I Hv El), E1, bind_Done, E2, bind_Done.
  destruct ok; cbn [negb].
  - destruct (has (vme_prot e) VM_PROT_WRITE) eqn:Wr.
    + destruct (half_protect va w w2 src dst prot e lf Y O dpm' D Hv Fs El Np An (Hc eq_refl)) as (spm' & w3 & E3 & Fk).
      rewrite E3, bind_Done. cbn [negb]. eexists true, spm', dpm', _. split; [reflexivity|].
      apply (forked_same _ w3); [reflexivity..|exact Fk].
    + eexists true, (sp_pm src), dpm', _. split; [reflexivity|]. apply (forked_same _ w2); [reflexivity..|].
      apply (half_forked w w2 src dst va prot lf Y O dpm'); [|exact El]. exact (half_clear va _ _ _ _ _ _ e _ _ _ D Hv Fs Wr).
  - destruct D as (w3 & E3 & Fk). rewrite E3, bind_Done. eexists false, (sp_pm src), dpm', w3. split; [reflexivity|exact (Fk _)].
Qed.

(** A page of a borrowed range: the same frame, uncounted. *)
Lemma fork_page_borrowed (w : vmw F) (src dst : space P) va prot e e' lf Y O :
  pair_inv no_ex w src dst Y O -> fork_ready w src dst va prot e e' ->
  pm_leaf (vw_mem w) (sp_pm src) va = Some lf -> has (vme_flags e) VME_F_ANON = false ->
  exists ok spm' dpm' w',
    fork_page w (sp_pm src) (sp_pm dst) va prot false (has (vme_prot e) VM_PROT_WRITE) = Done (ok, spm', dpm', w') /\
    forked w src dst (fun v => ok && (v =? va)) prot (has (vme_prot e) VM_PROT_WRITE) Y O spm' dpm' w'.
Proof.
  intros Pi R El An. pose proof R as [Hv Fs Fd Sr Hc Np Nw]. pose proof Pi as [I _].
  destruct (pair_dst _ _ _ _ _ _ Pi) as [Id Ds].
  destruct (so_leaf _ _ _ _ _ (vi_space _ _ _ _ _ I) va lf Hv El) as (e0 & Fe0 & L0). rewrite Fs in Fe0. injection Fe0 as <-.
  assert (share e' (lf_pa lf) = None) as Es by (unfold share; by rewrite (sr_anon _ _ Sr), An).
  assert (has (vme_prot e) VM_PROT_WRITE = false) as Wr.
  { destruct (has (vme_prot e) VM_PROT_WRITE) eqn:Wr; [|reflexivity].
    by rewrite (ew_write _ (found_entry_wf _ _ _ _ _ _ _ I Fs) Wr) in An. }
  destruct (fork_enter no_ex w src dst va (lf_pa lf) prot e' Y O)
    as (ok & dpm' & ph2 & E2 & I2 & D2 & C2 & Ef2 & Ls2 & Ld2 & _); rewrite ?Es; cbn [named]; rewrite ?gmultiset_disj_union_left_id.
  { exact Id. }
  { exact Ds. }
  { split; [exact Hv|exact (pm_leaf_pa _ _ _ _ (so_pm _ _ _ _ _ (vi_space _ _ _ _ _ I)) Hv El)|exact Fd|].
    apply (ready_leaf_wf _ _ _ _ _ _ _ _ _ _ R). exact (lw_borrowed _ _ _ _ _ L0). }
  cbv zeta in *. rewrite Es in C2. cbn [named] in C2. rewrite gmultiset_disj_union_left_id in C2.
  set (w2 := set_ph w ph2) in *.
  assert (left_over w dst e' va (lf_pa lf) ok = None) as Lo.
  { unfold left_over, own_of. rewrite Nw, Es. destruct ok; [by destruct (anon_at _ _)|reflexivity]. }
  rewrite Lo in I2, D2, C2. cbn [named] in I2, D2, C2. rewrite gmultiset_disj_union_left_id in I2, D2, C2.
  pose proof (civil_weaken _ _ _ _ _ _ (sub_r _ _) C2) as C2'. rewrite <- !total2_swap in C2'.
  pose proof (pair_of_dst _ _ _ _ _ _ I2 D2) as Pi2.
  unfold fork_page. rewrite (extract_leaf _ _ _ _ _ _ I Hv), El, (leaf_valid _ _ _ _ _ _ _ I Hv El), bind_Done, E2, bind_Done, Wr.
  assert (forall v lf', upage v -> pm_leaf (vw_mem w) (sp_pm src) v = Some lf' -> same_page (vw_mem w) (vw_mem w2) (lf_pa lf')) as By2.
  { intros v lf' Hv' El'. exact (leaf_bytes _ w w2 src _ _ _ _ v lf' Ds C2 (own_sub_frames w src Y) Hv' El'). }
  destruct ok; cbn [negb andb] in *.
  - eexists true, (sp_pm src), dpm', _. split; [reflexivity|]. apply (forked_same _ w2); [reflexivity..|].
    apply (half_forked w w2 src dst va prot lf Y O dpm'); [|exact El].
    split; [exact Pi2|exact C2'|split; reflexivity|exact Ls2|exact Ld2|exact By2].
  - rewrite bind_Done. eexists false, (sp_pm src), dpm', w2. split; [reflexivity|].
    split; rewrite ?space_eta; [exact Pi2|exact C2'|split; reflexivity|exact Ls2|exact Ld2|exact By2].
Qed.

(** ** The pages of one range *)

Lemma share_share prot o : share_leaf prot (share_leaf prot o) = share_leaf prot o.
Proof. by destruct o. Qed.

Lemma share_pa prot o : lf_pa <$> share_leaf prot o = lf_pa <$> o.
Proof. by destruct o. Qed.

Lemma forked_src_pa (w w' : vmw F) (src dst : space P) K prot wr Y O spm' dpm' v :
  forked w src dst K prot wr Y O spm' dpm' w' -> upage v ->
  lf_pa <$> pm_leaf (vw_mem w') spm' v = lf_pa <$> pm_leaf (vw_mem w) (sp_pm src) v.
Proof. intros Fk Hv. rewrite (fk_src _ _ _ _ _ _ _ _ _ _ _ Fk v Hv). destruct (K v && wr); [apply share_pa|reflexivity]. Qed.

Lemma forked_trans (w w1 w2 : vmw F) (src dst : space P) K K' prot wr Y O spm1 dpm1 spm2 dpm2 :
  forked w src dst K prot wr Y O spm1 dpm1 w1 ->
  forked w1 (mkSpace (sp_map src) spm1) (mkSpace (sp_map dst) dpm1) K' prot wr Y O spm2 dpm2 w2 ->
  forked w src dst (fun v => K v || K' v) prot wr Y O spm2 dpm2 w2.
Proof.
  intros F1 F2. pose proof F1 as [I1 C1 [O1 H1'] S1 D1 B1]. destruct F2 as [I2 C2 [O2 H2] S2 D2 B2]. cbn [sp_map sp_pm] in *.
  split; [exact I2|eapply civil_trans; [exact C1|exact C2]|split; congruence| | |].
  - intros v Hv. rewrite (S2 v Hv), (S1 v Hv). destruct (K v), (K' v), wr; cbn [orb andb]; rewrite ?share_share; reflexivity.
  - intros v Hv. rewrite (D2 v Hv), (S1 v Hv), (D1 v Hv). destruct (K v), (K' v), wr; cbn [orb andb]; rewrite ?share_share; reflexivity.
  - intros v lf Hv El. eapply same_page_trans; [exact (B1 v lf Hv El)|].
    pose proof (forked_src_pa _ _ _ _ _ _ _ _ _ _ _ v F1 Hv) as Ep. rewrite El in Ep.
    destruct (pm_leaf (vw_mem w1) spm1 v) as [lf1|] eqn:El1; [|discriminate Ep]. injection Ep as <-.
    exact (B2 v lf1 Hv El1).
Qed.

Lemma forked_ext (w w' : vmw F) (src dst : space P) (K K' : Z -> bool) prot wr Y O spm' dpm' :
  (forall v, upage v -> K v = K' v) -> forked w src dst K prot wr Y O spm' dpm' w' ->
  forked w src dst K' prot wr Y O spm' dpm' w'.
Proof.
  intros E [I C Sa S D B]. split; [exact I|exact C|exact Sa| | |exact B]; intros v Hv; rewrite <- (E v Hv); auto.
Qed.

(** Every counted page of the child is one the parent has. *)
Definition shares (w : vmw F) (src dst : space P) : Prop :=
  forall v, upage v -> own_of (vw_mem w) dst v = None \/ own_of (vw_mem w) dst v = own_of (vw_mem w) src v.

Definition few_owners (w : vmw F) (src : space P) (Y : gmultiset Z) : Prop :=
  forall f, Z.of_nat (2 * multiplicity f (own w src) + multiplicity f Y) < 65535.

Lemma shares_bound (w : vmw F) (src dst : space P) Y O f :
  pair_inv no_ex w src dst Y O -> shares w src dst -> few_owners w src Y -> f ∈ own w src ->
  Z.of_nat (multiplicity f (total2 w src dst Y)) < 65535.
Proof.
  intros Pi Sh Few Hf. pose proof Pi as [I D]. destruct (pair_dst _ _ _ _ _ _ Pi) as [Id _].
  pose proof (leaf_frames_mono _ _ f Sh) as Le. specialize (Few f).
  assert (forall (sp : space P) Z0 O0, vm_inv no_ex w sp Z0 O0 -> f ∈ own w sp ⊎ Z0 ->
            multiplicity f (frames (pm_tables (vw_mem w) (sp_pm sp))) = 0%nat) as Nt.
  { intros sp Z0 O0 Ii Hi. apply mult_out. rewrite elem_frames. intros Ht. by apply (table_alone _ _ _ _ _ f f Ii Ht Hi). }
  pose proof (Nt src _ _ I) as N1. pose proof (Nt dst _ _ Id) as N2.
  unfold total2, total, space_frames. rewrite !mult_union. rewrite N1, N2; [clear -Le Few; lia| |].
  - apply gmultiset_elem_of_disj_union. right. apply gmultiset_elem_of_disj_union. left. unfold space_frames.
    apply gmultiset_elem_of_disj_union. by right.
  - apply gmultiset_elem_of_disj_union. by left.
Qed.

Lemma forked_own (w w' : vmw F) (src dst : space P) K prot wr Y O spm' dpm' v :
  forked w src dst K prot wr Y O spm' dpm' w' -> upage v ->
  own_of (vw_mem w') (mkSpace (sp_map src) spm') v = own_of (vw_mem w) src v.
Proof.
  intros Fk Hv. unfold own_of. cbn [sp_map sp_pm]. by rewrite (forked_src_pa _ _ _ _ _ _ _ _ _ _ _ v Fk Hv).
Qed.

Lemma forked_shares (w w' : vmw F) (src dst : space P) K prot wr Y O spm' dpm' :
  forked w src dst K prot wr Y O spm' dpm' w' -> shares w src dst ->
  (forall v, upage v -> K v = true -> anon_at (sp_map dst) v = anon_at (sp_map src) v) ->
  shares w' (mkSpace (sp_map src) spm') (mkSpace (sp_map dst) dpm').
Proof.
  intros Fk Sh Ka v Hv. rewrite (forked_own _ _ _ _ _ _ _ _ _ _ _ v Fk Hv). specialize (Sh v Hv).
  unfold own_of in *. cbn [sp_map sp_pm]. rewrite (fk_dst _ _ _ _ _ _ _ _ _ _ _ Fk v Hv).
  destruct (K v) eqn:Kv; [|exact Sh]. rewrite (Ka v Hv Kv), share_pa. right. reflexivity.
Qed.

Lemma forked_few (w w' : vmw F) (src dst : space P) K prot wr Y O spm' dpm' :
  forked w src dst K prot wr Y O spm' dpm' w' -> few_owners w src Y -> few_owners w' (mkSpace (sp_map src) spm') Y.
Proof.
  intros Fk Few f. rewrite (leaf_frames_ext (own_of (vw_mem w) src)); [exact (Few f)|].
  intros v Hv. exact (forked_own _ _ _ _ _ _ _ _ _ _ _ v Fk Hv).
Qed.

(** One page, whatever the range. *)
Lemma fork_page_ok (w : vmw F) (src dst : space P) va prot e e' Y O :
  pair_inv no_ex w src dst Y O -> fork_ready w src dst va prot e e' -> shares w src dst -> few_owners w src Y ->
  exists ok spm' dpm' w',
    fork_page w (sp_pm src) (sp_pm dst) va prot (has (vme_flags e) VME_F_ANON) (has (vme_prot e) VM_PROT_WRITE)
      = Done (ok, spm', dpm', w') /\
    forked w src dst (fun v => ok && (v =? va)) prot (has (vme_prot e) VM_PROT_WRITE) Y O spm' dpm' w'.
Proof.
  intros Pi R Sh Few. pose proof R as [Hv Fs Fd Sr Hc Np Nw]. pose proof (pi_src _ _ _ _ _ _ Pi) as I.
  destruct (pm_leaf (vw_mem w) (sp_pm src) va) as [lf|] eqn:El.
  - destruct (has (vme_flags e) VME_F_ANON) eqn:An.
    + apply (fork_page_owned w src dst va prot e e' lf Y O Pi R El An). apply (shares_bound _ _ _ _ _ _ Pi Sh Few).
      apply leaf_frames_in. exists va. split; [exact Hv|]. exact (own_of_Some _ _ _ _ _ Fs An El).
    + exact (fork_page_borrowed w src dst va prot e e' lf Y O Pi R El An).
  - exists true, (sp_pm src), (sp_pm dst), w. split.
    + unfold fork_page. rewrite (extract_leaf _ _ _ _ _ _ I Hv), El. reflexivity.
    + apply forked_none; [exact Pi|]. cbn [andb]. intros v _ ->%Z.eqb_eq. split; [exact El|exact Nw].
Qed.

(** The loop over a range; it may stop early, having shared a prefix. *)
Lemma fork_pages_ok n (w : vmw F) (src dst : space P) va prot e e' Y O :
  let len := Z.of_nat n * VM_PAGE_SIZE in
  pair_inv no_ex w src dst Y O ->
  (forall v, in_span v va len = true -> aligned v -> fork_ready w src dst v prot e e') ->
  aligned va -> shares w src dst -> few_owners w src Y ->
  exists ok spm' dpm' w' K,
    fork_pages n w (sp_pm src) (sp_pm dst) va prot (has (vme_flags e) VME_F_ANON) (has (vme_prot e) VM_PROT_WRITE)
      = Done (ok, spm', dpm', w') /\
    forked w src dst K prot (has (vme_prot e) VM_PROT_WRITE) Y O spm' dpm' w' /\
    (forall v, upage v -> K v = true -> in_span v va len = true) /\
    (ok = true -> forall v, upage v -> K v = in_span v va len).
Proof.
  revert w src dst va. induction n as [|n IH]; intros w src dst va len Pi R A Sh Few.
  { exists true, (sp_pm src), (sp_pm dst), w, (fun _ => false). split; [reflexivity|]. split; [|split].
    - by apply forked_none.
    - done.
    - intros _ v _. subst len. unfold in_span. symmetry. apply andb_false_iff. rewrite Z.leb_gt, Z.ltb_ge. lia. }
  assert (in_span va va len = true) as Hin by (subst len; unfold in_span, VM_PAGE_SIZE; lia).
  destruct (fork_page_ok w src dst va prot e e' Y O Pi (R va Hin A) Sh Few) as (ok & spm1 & dpm1 & w1 & E1 & F1).
  cbn [fork_pages]. rewrite E1, bind_Done. destruct ok; cbn [negb andb] in *.
  2: { exists false, spm1, dpm1, w1, (fun _ => false). split; [reflexivity|]. split; [exact F1|]. split; discriminate. }
  assert (forall v, upage v -> (v =? va) = true -> anon_at (sp_map dst) v = anon_at (sp_map src) v) as Ka.
  { intros v _ ->%Z.eqb_eq. destruct (R va Hin A) as [_ Fs Fd Sr _ _ _].
    by rewrite (anon_at_find _ _ _ Fs), (anon_at_find _ _ _ Fd), (sr_anon _ _ Sr). }
  destruct (IH w1 (mkSpace (sp_map src) spm1) (mkSpace (sp_map dst) dpm1) (va + VM_PAGE_SIZE))
    as (ok & spm2 & dpm2 & w2 & K & E2 & F2 & K1 & K2).
  - exact (fk_inv _ _ _ _ _ _ _ _ _ _ _ F1).
  - intros v Hs Hv. assert (in_span v va len = true) as Hs' by (subst len; unfold in_span, VM_PAGE_SIZE in *; lia).
    destruct (R v Hs' Hv) as [R1 R2 R3 R4 R5 R6 R7]. split; try assumption. cbn [sp_pm].
    rewrite (fk_dst _ _ _ _ _ _ _ _ _ _ _ F1 v R1). destruct (v =? va) eqn:Ev; [|exact R7].
    unfold in_span, VM_PAGE_SIZE in *. lia.
  - unfold aligned, VM_PAGE_SIZE in *. rewrite <- A. by rewrite <- (Z.mod_add va 1 4096) by lia.
  - exact (forked_shares _ _ _ _ _ _ _ _ _ _ _ F1 Sh Ka).
  - exact (forked_few _ _ _ _ _ _ _ _ _ _ _ F1 Few).
  - cbn [sp_pm] in E2. exists ok, spm2, dpm2, w2, (fun v => (v =? va) || K v). split; [exact E2|].
    split; [exact (forked_trans _ _ _ _ _ _ _ _ _ _ _ _ _ _ _ F1 F2)|].
    assert (forall v, upage v -> in_span v va len = (v =? va) || in_span v (va + VM_PAGE_SIZE) (Z.of_nat n * VM_PAGE_SIZE)) as Sp.
    { intros v [_ Av]. subst len. revert A Av. unfold in_span, aligned, VM_PAGE_SIZE. intros. Z.div_mod_to_equations. lia. }
    split; [|intros Ok v Hv; rewrite (Sp v Hv), (K2 Ok v Hv); reflexivity].
    intros v Hv [Hk|Hk]%orb_true_iff; rewrite (Sp v Hv); [by rewrite Hk|]. rewrite (K1 v Hv Hk). apply orb_true_r.
Qed.

(** ** One range *)

Definition fork_entry_of (e : vm_map_entry) : vm_map_entry := with_flags e (fork_flags e).

Lemma fork_flags_has e b : has VME_F_COW b = false -> has (fork_flags e) b = has (vme_flags e) b.
Proof. intros Hb. unfold fork_flags. destruct (has (vme_prot e) _); [|done]. by rewrite has_lor, Hb, orb_false_r. Qed.

Lemma fork_same_range e : same_range e (fork_entry_of e).
Proof.
  split; cbn [fork_entry_of with_flags vme_prot vme_flags]; [done|by apply fork_flags_has|].
  intros Hc. unfold fork_flags. destruct (has (vme_prot e) _); [|exact Hc]. rewrite has_lor, Hc. reflexivity.
Qed.

Lemma fork_entry_wf e : entry_wf e -> entry_wf (fork_entry_of e).
Proof.
  intros [W C L]. split; cbn [fork_entry_of with_flags vme_prot vme_flags].
  - intros Hw. rewrite fork_flags_has by done. by apply W.
  - unfold fork_flags. destruct (has (vme_prot e) VM_PROT_WRITE) eqn:E; [done|exact C].
  - rewrite !fork_flags_has by done. exact L.
Qed.

Lemma fork_prot_clear e : has (fork_prot e) VM_PROT_WRITE = false.
Proof.
  unfold fork_prot. destruct (has (vme_prot e) VM_PROT_WRITE) eqn:E; [|exact E].
  unfold has, VM_PROT_WRITE. rewrite Z.ldiff_land, <- Z.land_assoc, (Z.land_comm _ 2), Z.land_lnot_diag, Z.land_0_r. reflexivity.
Qed.

(** Rewriting one range of a list for another of the same extent. *)
Lemma find_entry_swap d e e' l v :
  vme_start e' = vme_start e -> vme_end e' = vme_end e ->
  find_entry (d ++ e' :: l) v = find_entry (d ++ e :: l) v \/
  (find_entry (d ++ e :: l) v = Some e /\ find_entry (d ++ e' :: l) v = Some e').
Proof.
  intros Es Ee. induction d as [|x d IH]; cbn [app find_entry].
  - rewrite Es, Ee. destruct (_ && _); auto.
  - destruct (_ && _); auto.
Qed.

Lemma find_entry_app d l v :
  find_entry (d ++ l) v = match find_entry d v with Some e => Some e | None => find_entry l v end.
Proof. induction d as [|x d IH]; cbn [app find_entry]; [done|]. by destruct (_ && _). Qed.

Lemma chain_swap lo d e e' l hi :
  vme_start e' = vme_start e -> vme_end e' = vme_end e -> chain lo (d ++ e :: l) hi -> chain lo (d ++ e' :: l) hi.
Proof.
  intros Es Ee. revert lo. induction d as [|x d IH]; cbn [app chain]; intros lo.
  - rewrite Es, Ee. done.
  - intros (? & ? & ? & ? & C). auto 6.
Qed.

Lemma chain_last lo d e l hi : chain lo (d ++ e :: l) hi -> insert_entry d e = d ++ [e].
Proof.
  revert lo. induction d as [|x d IH]; cbn [app chain insert_entry]; intros lo; [done|].
  intros (? & ? & _ & _ & C). rewrite (IH _ C). assert (vme_end x <= vme_start e) as Le.
  { clear -C. revert C. generalize (vme_end x). induction d as [|y d IH]; cbn [app chain]; intros lo; [lia|].
    intros (? & ? & _ & _ & C%IH). lia. }
  destruct (Z.ltb_spec (vme_start x) (vme_start e)); [done|lia].
Qed.

Lemma chain_bounds lo d e l hi : chain lo (d ++ e :: l) hi ->
  lo <= vme_start e /\ vme_start e < vme_end e /\ aligned (vme_start e) /\ aligned (vme_end e) /\ vme_end e <= hi.
Proof.
  revert lo. induction d as [|y d IH]; cbn [app chain]; intros lo.
  - intros (? & ? & ? & ? & ?%chain_le). auto.
  - intros (? & ? & _ & _ & C%IH). destruct C as (? & ?). split; [lia|done].
Qed.

Lemma entry_names_swap d e e' l : vme_object e' = vme_object e -> entry_names (d ++ e' :: l) = entry_names (d ++ e :: l).
Proof. intros E. rewrite !entry_names_app. cbn [entry_names]. by rewrite E. Qed.

Lemma pair_objs ex (w : vmw F) (src dst : space P) Y O O' o' :
  pair_inv ex w src dst Y O -> objs_ok o' (nm src ⊎ (nm dst ⊎ O')) -> pair_inv ex (set_objs w o') src dst Y O'.
Proof. intros [I D] Ok. split; [exact (vm_inv_objs _ _ _ _ _ _ _ I Ok)|exact D]. Qed.

(** A range rewritten as fork leaves it, in one space. *)
Lemma vm_inv_flags (w : vmw F) (sp : space P) d e l Y O :
  vm_inv no_ex w sp Y O -> vm_head (sp_map sp) = d ++ e :: l ->
  let sp' := mkSpace (with_entries (sp_map sp) (d ++ fork_entry_of e :: l) (vm_count (sp_map sp))) (sp_pm sp) in
  vm_inv no_ex w sp' Y O /\ fr w sp' = fr w sp /\
  (forall v, upage v -> own_of (vw_mem w) sp' v = own_of (vw_mem w) sp v).
Proof.
  intros I Eh. cbv zeta. set (m' := with_entries _ _ _).
  pose proof (vi_space _ _ _ _ _ I) as S. pose proof (so_map _ _ _ _ _ S) as M.
  assert (map_ok m') as M'.
  { apply map_ok_with_entries; [exact M| |].
    - apply (chain_swap _ d e); [reflexivity..|]. rewrite <- Eh. apply M.
    - rewrite (mo_count _ M), Eh, !length_app. reflexivity. }
  destruct (vm_inv_map no_ex w sp m' (vw_objs w) Y O O I M' eq_refl eq_refl) as (I' & Es & Eo).
  - intros x Hx. cbn [m' with_entries vm_head] in Hx. pose proof (so_entries _ _ _ _ _ S) as We. rewrite Eh in We.
    apply elem_of_app in Hx as [Hx|Hx]; [apply We, elem_of_app; by left|]. apply elem_of_cons in Hx as [->|Hx].
    + apply fork_entry_wf, We, elem_of_app. right. by left.
    + apply We, elem_of_app. right. by right.
  - intros v x _ _ Fx. rewrite Eh in Fx. cbn [m' with_entries vm_head].
    destruct (find_entry_swap d e (fork_entry_of e) l v eq_refl eq_refl) as [->|[Fe Fe']].
    + exists x. split; [exact Fx|by split].
    + rewrite Fe in Fx. injection Fx as <-. exists (fork_entry_of e). split; [exact Fe'|apply fork_same_range].
  - pose proof (vi_objs _ _ _ _ _ I) as Ob. rewrite Eh in Ob. cbn [m' with_entries vm_head].
    by rewrite (entry_names_swap d e (fork_entry_of e) l).
  - split; [|split; [exact Es|exact Eo]].
    apply (vm_inv_same _ (set_objs w (vw_objs w))); [reflexivity..|exact I'].
Qed.

(** The parent's range rewritten. *)
Lemma pair_flags (w : vmw F) (src dst : space P) d e l Y O :
  pair_inv no_ex w src dst Y O -> vm_head (sp_map src) = d ++ e :: l ->
  let src' := mkSpace (with_entries (sp_map src) (d ++ fork_entry_of e :: l) (vm_count (sp_map src))) (sp_pm src) in
  pair_inv no_ex w src' dst Y O /\ fr w src' = fr w src /\
  (forall v, upage v -> own_of (vw_mem w) src' v = own_of (vw_mem w) src v).
Proof.
  intros [I D] Eh. destruct (vm_inv_flags w src d e l _ _ I Eh) as (I' & Es & Eo).
  split; [|split; [exact Es|exact Eo]]. split; [exact I'|]. unfold total2, total. rewrite Es. exact D.
Qed.

(** The range entered in the child; the reference taken becomes its own. *)
Lemma pair_enter (w : vmw F) (src dst : space P) va size prot flags obj off h Y O :
  let ne := mkVme va (va + size) off obj prot flags in
  pair_inv no_ex w src dst Y (named obj ⊎ O) -> entry_wf ne -> u64 va -> u64 size ->
  let '(ok, m', h') := vm_map_enter_backed (sp_map dst) va size prot flags obj off h in
  let dst' := mkSpace m' (sp_pm dst) in
  if ok then
    pair_inv no_ex w src dst' Y O /\ fr w dst' = fr w dst /\ vm_lo m' = vm_lo (sp_map dst) /\ vm_hi m' = vm_hi (sp_map dst) /\
    vm_head m' = insert_entry (vm_head (sp_map dst)) ne /\
    (forall v, find_entry (vm_head m') v = if in_span v va size then Some ne else find_entry (vm_head (sp_map dst)) v) /\
    (forall v, upage v -> in_span v va size = true -> pm_leaf (vw_mem w) (sp_pm dst) v = None) /\
    (forall v, upage v -> own_of (vw_mem w) dst' v = own_of (vw_mem w) dst v)
  else m' = sp_map dst.
Proof.
  intros ne Pi Wf Hv Hs. destruct (pair_dst _ _ _ _ _ _ Pi) as [Id Ds]. rewrite union_swap in Id.
  pose proof (space_enter no_ex w dst va size prot flags obj off h _ _ Id Wf Hv Hs) as En.
  destruct (vm_map_enter_backed _ _ _ _ _ _ _ _) as [[ok m'] h']. cbv zeta. destruct ok; [|exact En].
  destruct En as ((_ & _ & _ & _ & _ & Free) & I' & Ef & Elo & Ehi & Eh & Fi).
  assert (forall v lf, upage v -> pm_leaf (vw_mem w) (sp_pm dst) v = Some lf -> in_span v va size = false) as Nl.
  { intros v lf Hu El. destruct (so_leaf _ _ _ _ _ (vi_space _ _ _ _ _ Id) v lf Hu El) as (x & Fx & _).
    destruct (in_span v va size) eqn:Sp; [|reflexivity]. assert (backing (sp_map dst) v = None) as Bn.
    { apply Free. unfold in_span in Sp. lia. }
    apply backing_None in Bn; [|apply (vi_space _ _ _ _ _ Id)]. by rewrite Bn in Fx. }
  split; [|split; [exact Ef|split; [exact Elo|split; [exact Ehi|split; [exact Eh|split; [exact Fi|split]]]]]].
  - apply pair_of_dst; [exact I'|]. unfold total in *. rewrite Ef. exact Ds.
  - intros v Hu Sp. destruct (pm_leaf (vw_mem w) (sp_pm dst) v) as [lf|] eqn:El; [|reflexivity].
    by rewrite (Nl v lf Hu El) in Sp.
  - intros v Hu. unfold own_of. cbn [sp_map sp_pm].
    destruct (pm_leaf (vw_mem w) (sp_pm dst) v) as [lf|] eqn:El; [|by repeat destruct (anon_at _ _)].
    unfold anon_at. rewrite Fi, (Nl v lf Hu El). reflexivity.
Qed.

(** ** The whole parent *)

(** What every state of the copy keeps of the parent [src0], finished or not. *)
Record kept (w0 : vmw F) (src0 : space P) (X0 : gmultiset Z) (w : vmw F) (src dst : space P) (Y O : gmultiset Z) : Prop := {
  kp_inv : pair_inv no_ex w src dst Y O;
  kp_civil : civil Y w0 X0 w (total2 w src dst Y);
  kp_pa : forall v, upage v -> lf_pa <$> pm_leaf (vw_mem w) (sp_pm src) v = lf_pa <$> pm_leaf (vw_mem w0) (sp_pm src0) v;
  kp_bytes : forall v lf, upage v -> pm_leaf (vw_mem w0) (sp_pm src0) v = Some lf -> same_page (vw_mem w0) (vw_mem w) (lf_pa lf);
}.

Lemma kept_forked w0 src0 X0 (w w' : vmw F) (src dst : space P) K prot wr Y O spm' dpm' :
  kept w0 src0 X0 w src dst Y O -> forked w src dst K prot wr Y O spm' dpm' w' ->
  kept w0 src0 X0 w' (mkSpace (sp_map src) spm') (mkSpace (sp_map dst) dpm') Y O.
Proof.
  intros [I C Pa By] Fk. split.
  - exact (fk_inv _ _ _ _ _ _ _ _ _ _ _ Fk).
  - eapply civil_trans; [exact C|exact (fk_civil _ _ _ _ _ _ _ _ _ _ _ Fk)].
  - intros v Hv. cbn [sp_pm]. rewrite (forked_src_pa _ _ _ _ _ _ _ _ _ _ _ v Fk Hv). exact (Pa v Hv).
  - intros v lf Hv El. eapply same_page_trans; [exact (By v lf Hv El)|].
    pose proof (Pa v Hv) as Ep. rewrite El in Ep.
    destruct (pm_leaf (vw_mem w) (sp_pm src) v) as [lf1|] eqn:El1; [|discriminate Ep]. injection Ep as <-.
    exact (fk_bytes _ _ _ _ _ _ _ _ _ _ _ Fk v lf1 Hv El1).
Qed.

(** The two maps rewritten, the tables as they were. *)
Lemma kept_maps w0 src0 X0 (w w' : vmw F) (src dst src' dst' : space P) Y O O' :
  kept w0 src0 X0 w src dst Y O -> vw_ph w' = vw_ph w -> sp_pm src' = sp_pm src ->
  fr w src' = fr w src -> fr w dst' = fr w dst -> pair_inv no_ex w' src' dst' Y O' ->
  kept w0 src0 X0 w' src' dst' Y O'.
Proof.
  intros [I C Pa By] Ep Em Es Ed I'.
  assert (vw_mem w' = vw_mem w) as Emm by (unfold vw_mem; by rewrite Ep).
  assert (vw_pmm w' = vw_pmm w) as Eps by (unfold vw_pmm; by rewrite Ep).
  split; [exact I'| | |]; unfold civil, total2, total in *; rewrite ?Emm, ?Eps, ?Em, ?Es, ?Ed; assumption.
Qed.

(** Between two ranges: those of [dn] are in the child, those of [l] are not. *)
Record forking (w0 : vmw F) (src0 : space P) (X0 : gmultiset Z) (w : vmw F) (src dst : space P)
    (dn l : list vm_map_entry) (Y O : gmultiset Z) : Prop := {
  fg_kept : kept w0 src0 X0 w src dst Y O;
  fg_map : sp_map src = with_entries (sp_map src0) (dn ++ l) (vm_count (sp_map src0));
  fg_dst : vm_head (sp_map dst) = dn;
  fg_shared : forall v, upage v -> find_entry dn v <> None ->
    lf_pa <$> pm_leaf (vw_mem w) (sp_pm dst) v = lf_pa <$> pm_leaf (vw_mem w) (sp_pm src) v;
  fg_ro : forall v lf, upage v -> find_entry dn v <> None ->
    pm_leaf (vw_mem w) (sp_pm src) v = Some lf \/ pm_leaf (vw_mem w) (sp_pm dst) v = Some lf -> lf_write lf = false;
  fg_shares : shares w src dst;
  fg_few : few_owners w src Y;
  fg_refs : few_refs (entry_names (dn ++ l) ⊎ (entry_names (dn ++ l) ⊎ O));
}.

Definition set_entries (sp : space P) (l : list vm_map_entry) : space P :=
  mkSpace (with_entries (sp_map sp) l (vm_count (sp_map sp))) (sp_pm sp).

(** The reference taken for the child's range. *)
Lemma fork_take w0 src0 X0 (w : vmw F) (src dst : space P) dn e l Y O :
  forking w0 src0 X0 w src dst dn (e :: l) Y O ->
  exists o, vm_object_ref (vw_objs w) (vme_object e) = Done o /\ pair_inv no_ex (set_objs w o) src dst Y (named (vme_object e) ⊎ O).
Proof.
  intros G. pose proof (kp_inv _ _ _ _ _ _ _ _ (fg_kept _ _ _ _ _ _ _ _ _ _ G)) as Pi.
  assert (vm_head (sp_map src) = dn ++ e :: l) as Eh by (rewrite (fg_map _ _ _ _ _ _ _ _ _ _ G); reflexivity).
  destruct (take_object no_ex w src _ _ e (pi_src _ _ _ _ _ _ Pi)) as (o & E & I').
  - rewrite Eh. apply elem_of_app. right. by left.
  - rewrite Eh, (fg_dst _ _ _ _ _ _ _ _ _ _ G). intros a. pose proof (fg_refs _ _ _ _ _ _ _ _ _ _ G a) as B. revert B.
    rewrite entry_names_app, !mult_union. lia.
  - exists o. split; [exact E|]. apply (pair_objs _ _ _ _ _ O); [exact Pi|].
    pose proof (vi_objs _ _ _ _ _ I') as Ob. by rewrite (union_swap (nm dst)).
Qed.

(** Refused: the reference goes back. *)
Lemma fork_untake (w : vmw F) (src dst : space P) obj Y O :
  pair_inv no_ex w src dst Y (named obj ⊎ O) ->
  exists o, vm_object_deref (vw_objs w) obj = Done o /\ pair_inv no_ex (set_objs w o) src dst Y O.
Proof.
  intros Pi. pose proof (pi_src _ _ _ _ _ _ Pi) as I. rewrite union_swap in I.
  destruct (drop_object no_ex w src _ _ obj I) as (o & E & I'). exists o. split; [exact E|].
  apply (pair_objs _ _ _ _ _ (named obj ⊎ O)); [exact Pi|]. exact (vi_objs _ _ _ _ _ I').
Qed.

(** Both maps hold the range: its pages are ready to be shared. *)
Lemma fork_entered w0 src0 X0 (w w1 : vmw F) (src dst : space P) dn e l Y O m' :
  let e1 := fork_entry_of e in
  let src1 := set_entries src (dn ++ e1 :: l) in
  let dst1 := mkSpace m' (sp_pm dst) in
  forking w0 src0 X0 w src dst dn (e :: l) Y O -> vw_ph w1 = vw_ph w ->
  pair_inv no_ex w1 src dst1 Y O -> fr w dst1 = fr w dst ->
  (forall v, find_entry (vm_head m') v = if in_span v (vme_start e) (vme_end e - vme_start e) then Some e1 else find_entry dn v) ->
  (forall v, upage v -> in_span v (vme_start e) (vme_end e - vme_start e) = true -> pm_leaf (vw_mem w) (sp_pm dst) v = None) ->
  (forall v, upage v -> own_of (vw_mem w) dst1 v = own_of (vw_mem w) dst v) ->
  kept w0 src0 X0 w1 src1 dst1 Y O /\ shares w1 src1 dst1 /\ few_owners w1 src1 Y /\
  (forall v, in_span v (vme_start e) (vme_end e - vme_start e) = true -> aligned v ->
     fork_ready w1 src1 dst1 v (fork_prot e1) e1 e1).
Proof.
  intros e1 src1 dst1 G Ep Pi1 Fd Fi Nl Od. pose proof G as [Kp Em _ _ _ Sh Few _].
  assert (vw_mem w1 = vw_mem w) as Emm by (unfold vw_mem; by rewrite Ep).
  assert (vm_head (sp_map src) = dn ++ e :: l) as Eh by (rewrite Em; reflexivity).
  destruct (pair_flags w1 src dst1 dn e l Y O Pi1 Eh) as (Pi2 & Fs & Os). fold e1 in Pi2, Fs, Os. fold (set_entries src (dn ++ e1 :: l)) src1 in Pi2, Fs, Os.
  rewrite Emm in Fs, Os.
  split; [|split; [|split]].
  - apply (kept_maps w0 src0 X0 w w1 src dst src1 dst1 Y O O); [exact Kp|exact Ep|reflexivity|exact Fs|exact Fd|exact Pi2].
  - intros v Hv. rewrite Emm, (Os v Hv), (Od v Hv). exact (Sh v Hv).
  - intros f. rewrite Emm, (leaf_frames_ext (own_of (vw_mem w) src)); [exact (Few f)|exact Os].
  - intros v Sp Av. pose proof (pi_src _ _ _ _ _ _ Pi2) as I2.
    assert (find_entry (vm_head (sp_map src1)) v = Some e1) as Fe.
    { apply (find_entry_in (vm_lo (sp_map src1)) _ (vm_hi (sp_map src1))).
      - apply (so_map _ _ _ _ _ (vi_space _ _ _ _ _ I2)).
      - apply elem_of_app. right. by left.
      - unfold in_span in Sp. cbn [e1 fork_entry_of with_flags vme_start vme_end]. lia. }
    assert (upage v) as Hv by exact (found_upage _ _ _ _ _ _ _ I2 Av Fe).
    split; [exact Hv|exact Fe| |by split| |apply fork_prot_clear|].
    + cbn [dst1 sp_map]. rewrite Fi, Sp. reflexivity.
    + cbn [e1 fork_entry_of with_flags vme_prot vme_flags]. unfold fork_flags. intros ->. rewrite has_lor. apply orb_true_r.
    + rewrite Emm. exact (Nl v Hv Sp).
Qed.

(** The pages of the range shared: on to the next one. *)
Lemma fork_next w0 src0 X0 (w1 w2 : vmw F) (src dst1 : space P) dn e l Y O K spm' dpm' :
  let e1 := fork_entry_of e in
  let src1 := set_entries src (dn ++ e1 :: l) in
  kept w0 src0 X0 w1 src1 dst1 Y O -> shares w1 src1 dst1 -> few_owners w1 src1 Y ->
  sp_map src = with_entries (sp_map src0) (dn ++ e :: l) (vm_count (sp_map src0)) ->
  few_refs (entry_names (dn ++ e :: l) ⊎ (entry_names (dn ++ e :: l) ⊎ O)) ->
  vm_head (sp_map dst1) = dn ++ [e1] ->
  (forall v, in_span v (vme_start e) (vme_end e - vme_start e) = true -> aligned v ->
     fork_ready w1 src1 dst1 v (fork_prot e1) e1 e1) ->
  (forall v, upage v -> find_entry dn v <> None ->
    lf_pa <$> pm_leaf (vw_mem w1) (sp_pm dst1) v = lf_pa <$> pm_leaf (vw_mem w1) (sp_pm src) v) ->
  (forall v lf, upage v -> find_entry dn v <> None ->
    pm_leaf (vw_mem w1) (sp_pm src) v = Some lf \/ pm_leaf (vw_mem w1) (sp_pm dst1) v = Some lf -> lf_write lf = false) ->
  forked w1 src1 dst1 K (fork_prot e1) (has (vme_prot e1) VM_PROT_WRITE) Y O spm' dpm' w2 ->
  (forall v, upage v -> K v = in_span v (vme_start e) (vme_end e - vme_start e)) ->
  forking w0 src0 X0 w2 (mkSpace (sp_map src1) spm') (mkSpace (sp_map dst1) dpm') (dn ++ [e1]) l Y O.
Proof.
  intros e1 src1 Kp Sh Few Em Fr Eh R Sd Ro Fk Hk.
  assert (forall v, find_entry (dn ++ [e1]) v <> None -> find_entry dn v <> None \/
            in_span v (vme_start e) (vme_end e - vme_start e) = true) as Split.
  { intros v. rewrite find_entry_app. destruct (find_entry dn v); [by left|]. cbn [find_entry e1 fork_entry_of with_flags vme_start vme_end].
    unfold in_span. replace (vme_start e + (vme_end e - vme_start e)) with (vme_end e) by lia. destruct (_ && _); [by right|done]. }
  split; cbn [sp_map sp_pm].
  - exact (kept_forked _ _ _ _ _ _ _ _ _ _ _ _ _ _ Kp Fk).
  - cbn [src1 set_entries sp_map]. rewrite Em, <- app_assoc. reflexivity.
  - exact Eh.
  - intros v Hv Hf. rewrite (fk_dst _ _ _ _ _ _ _ _ _ _ _ Fk v Hv), (forked_src_pa _ _ _ _ _ _ _ _ _ _ _ v Fk Hv).
    destruct (K v) eqn:Kv; [apply share_pa|]. destruct (Split v Hf) as [Hd|Sp]; [exact (Sd v Hv Hd)|]. by rewrite (Hk v Hv), Sp in Kv.
  - intros v lf Hv Hf. rewrite (fk_dst _ _ _ _ _ _ _ _ _ _ _ Fk v Hv), (fk_src _ _ _ _ _ _ _ _ _ _ _ Fk v Hv).
    assert (forall o, share_leaf (fork_prot e1) o = Some lf -> lf_write lf = false) as Nw.
    { intros [lf0|] [= <-]. apply fork_prot_clear. }
    destruct (K v) eqn:Kv; cbn [andb].
    + destruct (has (vme_prot e1) VM_PROT_WRITE) eqn:Wr; [intros [?|?]; by eapply Nw|]. intros [El|?]; [|by eapply Nw].
      destruct (lf_write lf) eqn:Hw; [|reflexivity]. rewrite (Hk v Hv) in Kv.
      destruct (so_leaf _ _ _ _ _ (vi_space _ _ _ _ _ (pi_src _ _ _ _ _ _ (kp_inv _ _ _ _ _ _ _ _ Kp))) v lf Hv El) as (x & Fx & L).
      rewrite (fr_src _ _ _ _ _ _ _ (R v Kv (proj2 Hv))) in Fx. injection Fx as <-.
      by rewrite (lw_prot _ _ _ _ _ L Hw) in Wr.
    + destruct (Split v Hf) as [Hd|Sp]; [exact (Ro v lf Hv Hd)|]. by rewrite (Hk v Hv), Sp in Kv.
  - refine (forked_shares _ _ _ _ _ _ _ _ _ _ _ Fk Sh _). intros v Hv. rewrite (Hk v Hv). intros Sp.
    destruct (R v Sp (proj2 Hv)) as [_ Fs Fd _ _ _ _]. by rewrite (anon_at_find _ _ _ Fs), (anon_at_find _ _ _ Fd).
  - exact (forked_few _ _ _ _ _ _ _ _ _ _ _ Fk Few).
  - rewrite <- app_assoc. cbn [app]. rewrite (entry_names_swap dn e e1 l); [exact Fr|reflexivity].
Qed.

Lemma fork_entry_ok w0 src0 X0 (w : vmw F) (src dst : space P) dn e l Y O :
  forking w0 src0 X0 w src dst dn (e :: l) Y O ->
  exists ok e1 spm' dst' w',
    fork_entry w e (sp_pm src) dst = Done (ok, e1, spm', dst', w') /\
    let src' := mkSpace (sp_map (set_entries src (dn ++ e1 :: l))) spm' in
    (e1 = e \/ e1 = fork_entry_of e) /\ kept w0 src0 X0 w' src' dst' Y O /\
    (ok = true -> e1 = fork_entry_of e /\ forking w0 src0 X0 w' src' dst' (dn ++ [e1]) l Y O).
Proof.
  intros G. pose proof G as [Kp Em Ed Sd Ro Sh Few Fr].
  assert (vm_head (sp_map src) = dn ++ e :: l) as Eh by (rewrite Em; reflexivity).
  pose proof (kp_inv _ _ _ _ _ _ _ _ Kp) as Pi. pose proof (vi_space _ _ _ _ _ (pi_src _ _ _ _ _ _ Pi)) as S.
  pose proof (so_map _ _ _ _ _ S) as M. pose proof (mo_chain _ M) as Ch. rewrite Eh in Ch.
  destruct (chain_bounds _ _ _ _ _ Ch) as (B1 & B2 & A1 & A2 & B3).
  pose proof (mo_lo _ M) as Lo. pose proof (mo_hi _ M) as Hi.
  assert (entry_wf e) as We by (apply (so_entries _ _ _ _ _ S); rewrite Eh; apply elem_of_app; right; by left).
  destruct (fork_take _ _ _ _ _ _ _ _ _ _ _ G) as (o & E1 & Pi1).
  unfold fork_entry. cbv zeta. rewrite E1, bind_Done. cbn [vw_heap set_objs].
  pose proof (pair_enter (set_objs w o) src dst (vme_start e) (vme_end e - vme_start e) (vme_prot e) (fork_flags e)
                (vme_object e) (vme_offset e) (vw_heap w) Y O) as En. cbv zeta in En.
  assert (mkVme (vme_start e) (vme_start e + (vme_end e - vme_start e)) (vme_offset e) (vme_object e) (vme_prot e) (fork_flags e)
            = fork_entry_of e) as Ee by (unfold fork_entry_of, with_flags; f_equal; lia).
  rewrite Ee in En. specialize (En Pi1 (fork_entry_wf e We)). unfold u64 in En. specialize (En ltac:(lia) ltac:(lia)).
  destruct (vm_map_enter_backed _ _ _ _ _ _ _ _) as [[ok m'] h']. destruct ok; cbn [negb].
  2: { destruct (fork_untake (set_heap (set_objs w o) h') src dst (vme_object e) Y O) as (o' & E2 & Pi2).
       { apply (pair_same _ (set_objs w o)); [reflexivity..|exact Pi1]. }
       rewrite E2, bind_Done. exists false, e, (sp_pm src), dst. eexists. split; [reflexivity|]. cbv zeta.
       split; [by left|]. split; [|discriminate].
       assert (mkSpace (sp_map (set_entries src (dn ++ e :: l))) (sp_pm src) = src) as ->.
       { unfold set_entries. rewrite <- Eh. destruct src as [[? ? ? ? ?] ?]. reflexivity. }
       apply (kept_maps w0 src0 X0 w _ src dst src dst Y O O); [exact Kp|reflexivity..|exact Pi2]. }
  destruct En as (Pi2 & Fd & _ & _ & Eh' & Fi & Nl & Od). rewrite Ed in Fi, Eh'. rewrite (chain_last _ _ (fork_entry_of e) l (vm_hi (sp_map src))) in Eh'
    by (apply (chain_swap _ dn e); [reflexivity..|exact Ch]).
  set (w1 := set_heap (set_objs w o) h') in *.
  destruct (fork_entered w0 src0 X0 w w1 src dst dn e l Y O m') as (Kp1 & Sh1 & Few1 & R1); try assumption; [reflexivity| |].
  { apply (pair_same _ (set_objs w o)); [reflexivity..|exact Pi2]. }
  change (vme_start (with_flags e (fork_flags e))) with (vme_start e).
  destruct (fork_pages_ok (pages_between (vme_start e) (vme_end e)) w1 (set_entries src (dn ++ fork_entry_of e :: l))
              (mkSpace m' (sp_pm dst)) (vme_start e) (fork_prot (fork_entry_of e)) (fork_entry_of e) (fork_entry_of e) Y O)
    as (ok & spm' & dpm' & w2 & K & E3 & Fk & _ & Kok); try assumption.
  { exact (kp_inv _ _ _ _ _ _ _ _ Kp1). }
  { rewrite (pages_span e A1 A2 B2). exact R1. }
  rewrite (pages_span e A1 A2 B2) in Kok. cbn [set_entries sp_pm] in E3.
  change (with_flags e (fork_flags e)) with (fork_entry_of e). change (vme_end (fork_entry_of e)) with (vme_end e).
  rewrite E3, bind_Done. exists ok, (fork_entry_of e), spm', (mkSpace m' dpm'), w2. split; [reflexivity|]. cbv zeta.
  split; [by right|]. split; [exact (kept_forked _ _ _ _ _ _ _ _ _ _ _ _ _ _ Kp1 Fk)|]. intros ->. split; [reflexivity|].
  exact (fork_next w0 src0 X0 w1 w2 src _ dn e l Y O K spm' dpm' Kp1 Sh1 Few1 Em Fr Eh' R1 Sd Ro Fk (Kok eq_refl)).
Qed.

Definition forked_or_not (e e' : vm_map_entry) : Prop := e' = e \/ e' = fork_entry_of e.

Lemma fork_entries_ok l w0 src0 X0 (w : vmw F) (src dst : space P) dn Y O :
  forking w0 src0 X0 w src dst dn l Y O ->
  exists ok l' spm' dst' w',
    fork_entries w l (sp_pm src) dst = Done (ok, l', spm', dst', w') /\
    let src' := mkSpace (with_entries (sp_map src0) (dn ++ l') (vm_count (sp_map src0))) spm' in
    Forall2 forked_or_not l l' /\ kept w0 src0 X0 w' src' dst' Y O /\
    (ok = true -> l' = fork_entry_of <$> l /\ forking w0 src0 X0 w' src' dst' (dn ++ l') [] Y O).
Proof.
  revert w src dst dn. induction l as [|e l IH]; intros w src dst dn G.
  { exists true, [], (sp_pm src), dst, w. split; [reflexivity|]. cbv zeta. rewrite <- (fg_map _ _ _ _ _ _ _ _ _ _ G), space_eta.
    split; [constructor|]. split; [apply G|]. intros _. split; [reflexivity|]. by rewrite app_nil_r. }
  assert (forall L (sp' : P), mkSpace (sp_map (set_entries src L)) sp' =
            mkSpace (with_entries (sp_map src0) L (vm_count (sp_map src0))) sp') as Es.
  { intros L sp'. unfold set_entries. rewrite (fg_map _ _ _ _ _ _ _ _ _ _ G). reflexivity. }
  destruct (fork_entry_ok _ _ _ _ _ _ _ _ _ _ _ G) as (ok & e1 & spm1 & dst1 & w1 & E1 & He & Kp1 & N1).
  rewrite Es in Kp1, N1. cbn [fork_entries]. rewrite E1, bind_Done. destruct ok; cbn [negb].
  - destruct (N1 eq_refl) as [-> G1].
    destruct (IH _ _ _ _ G1) as (ok & l' & spm2 & dst2 & w2 & E2 & Hl & Kp2 & N2). cbn [sp_pm] in E2. rewrite E2, bind_Done.
    rewrite <- app_assoc in Kp2, N2. cbn [app] in Kp2, N2.
    exists ok, (fork_entry_of e :: l'), spm2, dst2, w2. split; [reflexivity|]. split; [by constructor|]. split; [exact Kp2|].
    intros Ok. destruct (N2 Ok) as [-> G2]. split; [reflexivity|exact G2].
  - exists false, (e1 :: l), spm1, dst1, w1. split; [reflexivity|]. split; [|split; [exact Kp1|discriminate]].
    constructor; [exact He|]. clear. induction l; constructor; [by left|done].
Qed.

Lemma kept_view w0 src0 X0 (w : vmw F) (src dst : space P) Y O v i :
  space_ok no_ex (vw_pmm w0) (vw_mem w0) X0 src0 -> kept w0 src0 X0 w src dst Y O -> upage v -> 0 <= i < PAGE_SIZE ->
  page_view (vw_mem w) src v i = page_view (vw_mem w0) src0 v i.
Proof.
  intros S [_ _ Pa By] Hv Hi. unfold page_view. rewrite (Pa v Hv).
  destruct (pm_leaf (vw_mem w0) (sp_pm src0) v) as [lf|] eqn:El; [|reflexivity]. cbn. f_equal.
  pose proof (pm_leaf_pa _ _ _ _ (so_pm _ _ _ _ _ S) Hv El) as Fp. apply (By v lf Hv El). unfold PAGE_SIZE in *. lia.
Qed.

(** Two spaces with the same ranges and the same frames under them. *)
Lemma same_frames_view (w : vmw F) (src dst : space P) Y O v i :
  pair_inv no_ex w src dst Y O -> vm_head (sp_map dst) = vm_head (sp_map src) ->
  (forall v, upage v -> find_entry (vm_head (sp_map src)) v <> None ->
     lf_pa <$> pm_leaf (vw_mem w) (sp_pm dst) v = lf_pa <$> pm_leaf (vw_mem w) (sp_pm src) v) ->
  upage v -> page_view (vw_mem w) dst v i = page_view (vw_mem w) src v i.
Proof.
  intros [I D] Eh Hs Hv. unfold page_view. destruct (find_entry (vm_head (sp_map src)) v) as [e|] eqn:Fe.
  { rewrite (Hs v Hv); [reflexivity|by rewrite Fe]. }
  assert (forall (sp : space P) X, space_ok no_ex (vw_pmm w) (vw_mem w) X sp -> find_entry (vm_head (sp_map sp)) v = None ->
            pm_leaf (vw_mem w) (sp_pm sp) v = None) as N.
  { intros sp X S Fn. destruct (pm_leaf (vw_mem w) (sp_pm sp) v) as [lf|] eqn:El; [|reflexivity].
    destruct (so_leaf _ _ _ _ _ S v lf Hv El) as (e & Fe' & _). by rewrite Fn in Fe'. }
  rewrite (N dst _ D) by (by rewrite Eh). rewrite (N src _ (vi_space _ _ _ _ _ I) Fe). reflexivity.
Qed.

Lemma fork_start (w : vmw F) (src dst : space P) Y O :
  pair_inv no_ex w src dst Y O -> vm_head (sp_map dst) = [] -> few_owners w src Y ->
  few_refs (nm src ⊎ (nm src ⊎ O)) ->
  forking w src (total2 w src dst Y) w src dst [] (vm_head (sp_map src)) Y O.
Proof.
  intros Pi Eh Few Fr. split; [| |exact Eh| | | |exact Few|exact Fr].
  - split; [exact Pi|by apply civil_refl|reflexivity|]. intros v lf _ _ x _. reflexivity.
  - by destruct (sp_map src).
  - intros v _ N. by destruct N.
  - intros v lf _ N. by destruct N.
  - intros v Hv. left. unfold own_of, anon_at. rewrite Eh. reflexivity.
Qed.

(** [C10] Fork.  Whatever the heap and the frame allocator answer, the copy
    ends with both spaces well formed and every frame and pager counted once
    per owner; the parent still reads what it read, its ranges changed at
    most by becoming copy-on-write, and nothing anyone else owns is touched.
    When it reports success the child has the parent's ranges and reads the
    parent's bytes, and neither may write a shared page without a fault. *)
Theorem vm_map_fork_share_correct (w : vmw F) (src dst : space P) Y O :
  pair_inv no_ex w src dst Y O -> vm_head (sp_map dst) = [] -> few_owners w src Y ->
  few_refs (entry_names (vm_head (sp_map src)) ⊎ (entry_names (vm_head (sp_map src)) ⊎ O)) ->
  exists ok src' dst' w', vm_map_fork_share w src dst = Done (ok, src', dst', w') /\
    pair_inv no_ex w' src' dst' Y O /\
    civil Y w (total2 w src dst Y) w' (total2 w' src' dst' Y) /\
    Forall2 forked_or_not (vm_head (sp_map src)) (vm_head (sp_map src')) /\
    (forall v i, upage v -> 0 <= i < PAGE_SIZE -> page_view (vw_mem w') src' v i = page_view (vw_mem w) src v i) /\
    (ok = true ->
       vm_head (sp_map src') = fork_entry_of <$> vm_head (sp_map src) /\ vm_head (sp_map dst') = vm_head (sp_map src') /\
       (forall v i, upage v -> 0 <= i < PAGE_SIZE -> page_view (vw_mem w') dst' v i = page_view (vw_mem w) src v i) /\
       (forall v lf, upage v -> pm_leaf (vw_mem w') (sp_pm src') v = Some lf \/ pm_leaf (vw_mem w') (sp_pm dst') v = Some lf ->
          lf_write lf = false)).
Proof.
  intros Pi Eh Few Fr. pose proof (vi_space _ _ _ _ _ (pi_src _ _ _ _ _ _ Pi)) as S0.
  destruct (fork_entries_ok _ _ _ _ _ _ _ _ _ _ (fork_start w src dst Y O Pi Eh Few Fr))
    as (ok & l' & spm' & dst' & w' & E & Hl & Kp & N). cbn [app] in *.
  unfold vm_map_fork_share. rewrite E, bind_Done. eexists ok, _, dst', w'. split; [reflexivity|].
  split; [exact (kp_inv _ _ _ _ _ _ _ _ Kp)|]. split; [exact (kp_civil _ _ _ _ _ _ _ _ Kp)|]. split; [exact Hl|].
  pose proof (fun v i => kept_view _ _ _ _ _ _ _ _ v i S0 Kp) as Vw.
  split; [exact Vw|]. intros Ok. destruct (N Ok) as [El G]. cbn [sp_map with_entries vm_head]. split; [exact El|].
  pose proof (fg_dst _ _ _ _ _ _ _ _ _ _ G) as Ed. split; [exact Ed|]. split.
  - intros v i Hv Hi. rewrite <- (Vw v i Hv Hi).
    exact (same_frames_view _ _ _ _ _ v i (kp_inv _ _ _ _ _ _ _ _ Kp) Ed (fg_shared _ _ _ _ _ _ _ _ _ _ G) Hv).
  - intros v lf Hv Hd. apply (fg_ro _ _ _ _ _ _ _ _ _ _ G v lf Hv); [|exact Hd]. pose proof (kp_inv _ _ _ _ _ _ _ _ Kp) as [I D].
    destruct Hd as [Es|Es].
    + destruct (so_leaf _ _ _ _ _ (vi_space _ _ _ _ _ I) v lf Hv Es) as (e & Fe & _). cbn [sp_map with_entries vm_head] in Fe. by rewrite Fe.
    + destruct (so_leaf _ _ _ _ _ D v lf Hv Es) as (e & Fe & _). rewrite Ed in Fe. by rewrite Fe.
Qed.

End Fork.

(** ** A run *)

(** The machine of [VmDemo] with an empty child beside it: its root is frame
    6, its PDPT frame 7. *)
Definition family : phys :=
  mkPhys (snd (pmm_alloc_page (snd (pmm_alloc_page demo_user_ram)))) (st64 (ph_mem demo_user) 24576 28679) [].
Definition family_vw : vmw one_file := mkVmw family [true; true] demo_objs (fun _ => 0).
Definition family_child : space pmap :=
  mkSpace (mkMap VM_USER_VA_LO VM_USER_VA_HI VM_USER_VA_LO [] 0) (mkPmap 24576 0 1 false).

Lemma family_tree root pdpt : root = 16384 /\ pdpt = 20480 \/ root = 24576 /\ pdpt = 28672 ->
  let pm := mkPmap root 0 1 false in
  tree_ok (ph_mem family) pm /\ tables_of (ph_mem family) pm = [root; pdpt] /\ forall v, leaf_of (ph_mem family) pm v = None.
Proof.
  intros [[-> ->]|[-> ->]]; apply fresh_tree;
    first [split; [lia|done]|done|vm_compute; reflexivity].
Qed.

Lemma family_frames m root pdpt : root = 16384 /\ pdpt = 20480 \/ root = 24576 /\ pdpt = 28672 ->
  let sp := mkSpace m (mkPmap root 0 1 false) in
  space_frames (vw_mem family_vw) sp = frames [root; pdpt] /\ leaf_frames (own_of (vw_mem family_vw) sp) = ∅.
Proof.
  intros R. destruct (family_tree root pdpt R) as (_ & Et & Nl). cbv zeta.
  set (sp := mkSpace m (mkPmap root 0 1 false)).
  assert (leaf_frames (own_of (vw_mem family_vw) sp) = ∅) as Lf.
  { apply leaf_frames_none. intros v _. unfold own_of.
    change (pm_leaf (vw_mem family_vw) (sp_pm sp) v) with (leaf_of (ph_mem family) (mkPmap root 0 1 false) v).
    rewrite Nl. by destruct (anon_at _ _). }
  split; [|exact Lf]. unfold space_frames. rewrite Lf, gmultiset_disj_union_right_id.
  change (pm_tables (vw_mem family_vw) (sp_pm sp)) with (tables_of (ph_mem family) (mkPmap root 0 1 false)). by rewrite Et.
Qed.

Lemma family_space_ok m root pdpt : root = 16384 /\ pdpt = 20480 \/ root = 24576 /\ pdpt = 28672 ->
  map_ok m -> VM_USER_VA_LO <= vm_lo m /\ vm_hi m <= VM_USER_VA_HI -> (forall e, e ∈ vm_head m -> entry_wf e) ->
  space_ok no_ex (vw_pmm family_vw) (vw_mem family_vw) (frames [16384; 20480; 24576; 28672]) (mkSpace m (mkPmap root 0 1 false)).
Proof.
  intros R M Wi We. destruct (family_tree root pdpt R) as (T & Et & Nl). split; [exact M|exact Wi|exact We|exact T| |].
  - intros t Ht. change (t ∈ tables_of (ph_mem family) (mkPmap root 0 1 false)) in Ht. rewrite Et in Ht.
    apply mult_nodup; [apply (bool_decide_unpack _); vm_compute; exact I|].
    revert Ht. rewrite !elem_of_cons, elem_of_nil. lia.
  - intros v lf _ El. change (leaf_of (ph_mem family) (mkPmap root 0 1 false) v = Some lf) in El. by rewrite Nl in El.
Qed.

Lemma family_parent_frames : space_frames (vw_mem family_vw) demo_space = frames [16384; 20480].
Proof. exact (proj1 (family_frames demo_user_map 16384 20480 (or_introl (conj eq_refl eq_refl)))). Qed.

Lemma family_parent_own : leaf_frames (own_of (vw_mem family_vw) demo_space) = ∅.
Proof. exact (proj2 (family_frames demo_user_map 16384 20480 (or_introl (conj eq_refl eq_refl)))). Qed.

Lemma family_child_frames : space_frames (vw_mem family_vw) family_child = frames [24576; 28672].
Proof. exact (proj1 (family_frames (sp_map family_child) 24576 28672 (or_intror (conj eq_refl eq_refl)))). Qed.

Lemma family_frames_eq :
  frames [16384; 20480; 24576; 28672] = {[+ 28672 +]} ⊎ ({[+ 24576 +]} ⊎ frames [16384; 20480]).
Proof. rewrite <- frames_two. unfold frames. rewrite <- list_to_set_disj_app. apply list_to_set_disj_perm. by rewrite (Permutation_app_comm [24576; 28672]). Qed.

Lemma family_pair : pair_inv no_ex family_vw demo_space family_child ∅ ∅.
Proof.
  assert (total2 family_vw demo_space family_child ∅ = frames [16384; 20480; 24576; 28672]) as Et.
  { unfold total2, total. rewrite family_parent_frames, family_child_frames, gmultiset_disj_union_right_id.
    unfold frames. by rewrite <- list_to_set_disj_app. }
  pose proof demo_vm_inv as [W S Ob]. split.
  - split; fold (total2 family_vw demo_space family_child ∅); rewrite ?Et.
    + unfold total in W. rewrite demo_frames, gmultiset_disj_union_right_id in W.
      rewrite family_frames_eq. apply own_alloc_at; [apply own_alloc_at; [exact W|..]|..]; vm_compute; done.
    + exact (family_space_ok demo_user_map 16384 20480 (or_introl (conj eq_refl eq_refl))
               (so_map _ _ _ _ _ S) (so_window _ _ _ _ _ S) (so_entries _ _ _ _ _ S)).
    + exact Ob.
  - rewrite Et. apply (family_space_ok (sp_map family_child) 24576 28672 (or_intror (conj eq_refl eq_refl))).
    + split; cbn; unfold aligned, VM_PAGE_SIZE, VM_USER_VA_LO, VM_USER_VA_HI; repeat split; try done; lia.
    + cbn. lia.
    + intros e []%not_elem_of_nil.
Qed.

Lemma family_few_refs : few_refs (entry_names (vm_head demo_user_map) ⊎ (entry_names (vm_head demo_user_map) ⊎ ∅)).
Proof.
  intros a. cbn [demo_user_map vm_head entry_names vme_object named].
  rewrite !mult_union, !multiplicity_empty, multiplicity_singleton. case_decide; lia.
Qed.

Lemma vm_map_fork_share_correct_witness :
  exists ok src' dst' w', vm_map_fork_share family_vw demo_space family_child = Done (ok, src', dst', w') /\
    pair_inv no_ex w' src' dst' ∅ ∅.
Proof.
  destruct (vm_map_fork_share_correct family_vw demo_space family_child ∅ ∅ family_pair) as (ok & src' & dst' & w' & E & I & _).
  - reflexivity.
  - intros f. rewrite family_parent_own, !multiplicity_empty. lia.
  - exact family_few_refs.
  - exists ok, src', dst', w'. exact (conj E I).
Defined.
