(* ===== verification/VmPayload.v ===== *)
(** Payloads of pages, [vm_pages_capture_kernel], [vm_pages_capture_user],
    [vm_pages_install] and [vm_pages_release] of [vm/vm.c]: frames that travel
    in a message between address spaces.  While they travel they are owned by
    the message, one owner per slot; every exit accounts for each of them. *)

From stdpp Require Import base list numbers strings gmap gmultiset.
From Stdlib Require Import ZArith Lia ZifyBool.
From S2P Require Import Prelude Pmm Phys VmObject VmMap Pmap Vm VmInv VmStep VmDemo VmFault VmRelease VmFork.

(** The frames a message holds: its slots that are not [PA_INVALID]. *)
Definition carried (pas : list Z) : gmultiset Z := frames (filter (fun pa => pa <> PA_INVALID) pas).

Lemma carried_cons pa l : carried (pa :: l) = (if pa =? PA_INVALID then ∅ else {[+ pa +]}) ⊎ carried l.
Proof.
  unfold carried. destruct (pa =? PA_INVALID) eqn:E.
  - rewrite filter_cons_False by lia. by rewrite gmultiset_disj_union_left_id.
  - rewrite filter_cons_True by lia. reflexivity.
Qed.

Lemma carried_all l : (forall pa, pa ∈ l -> pa <> PA_INVALID) -> carried l = frames l.
Proof.
  induction l as [|pa l IH]; intros N; [reflexivity|]. rewrite carried_cons, IH by (intros q Hq; apply N; by right).
  destruct (pa =? PA_INVALID) eqn:E; [|reflexivity]. exfalso. apply (N pa); [by left|lia].
Qed.

(** The frame a payload laid from [va] on puts under page [v]. *)
Definition laid_at (va : Z) (l : list Z) (v : Z) : option Z :=
  if va <=? v then l !! Z.to_nat ((v - va) / VM_PAGE_SIZE) else None.

Lemma laid_nil va v : laid_at va [] v = None.
Proof. unfold laid_at. by destruct (va <=? v). Qed.

Lemma laid_cons va pa l v : aligned va -> aligned v ->
  laid_at va (pa :: l) v = if v =? va then Some pa else laid_at (va + VM_PAGE_SIZE) l v.
Proof.
  unfold aligned, laid_at, VM_PAGE_SIZE. intros A B. destruct (v =? va) eqn:E.
  - assert (v = va) as -> by lia. rewrite Z.leb_refl, Z.sub_diag. reflexivity.
  - destruct (va <=? v) eqn:L; destruct (va + 4096 <=? v) eqn:L'; try reflexivity.
    + replace (Z.to_nat ((v - va) / 4096)) with (S (Z.to_nat ((v - (va + 4096)) / 4096)));
        [reflexivity|Z.div_mod_to_equations; lia].
    + exfalso. Z.div_mod_to_equations. lia.
    + lia.
Qed.

Lemma laid_page va l j : laid_at va l (va + Z.of_nat j * VM_PAGE_SIZE) = l !! j.
Proof.
  unfold laid_at. destruct (va <=? _) eqn:E; [|unfold VM_PAGE_SIZE in E; lia].
  f_equal. replace (va + Z.of_nat j * VM_PAGE_SIZE - va) with (Z.of_nat j * VM_PAGE_SIZE) by lia.
  rewrite Z.div_mul by done. lia.
Qed.

Lemma laid_span va l v : laid_at va l v = None <-> in_span v va (Z.of_nat (length l) * VM_PAGE_SIZE) = false.
Proof.
  unfold laid_at, in_span, VM_PAGE_SIZE. destruct (va <=? v) eqn:E; [|done].
  rewrite lookup_ge_None. split; Z.div_mod_to_equations; lia.
Qed.

Lemma span_page va n v : aligned va -> aligned v -> in_span v va (Z.of_nat n * VM_PAGE_SIZE) = true ->
  exists j, (j < n)%nat /\ v = va + Z.of_nat j * VM_PAGE_SIZE.
Proof.
  unfold aligned, in_span, VM_PAGE_SIZE. intros A B S. exists (Z.to_nat ((v - va) / 4096)). Z.div_mod_to_equations. lia.
Qed.

Lemma span_last v va n : aligned v -> aligned va ->
  in_span v va (Z.of_nat n * VM_PAGE_SIZE) || (v =? va + Z.of_nat n * VM_PAGE_SIZE) =
  in_span v va (Z.of_nat (S n) * VM_PAGE_SIZE).
Proof. unfold aligned, in_span, VM_PAGE_SIZE. intros A B. Z.div_mod_to_equations. lia. Qed.

Lemma chain_positive lo l hi e : chain lo l hi -> e ∈ l -> vme_start e < vme_end e.
Proof. intros C He. destruct (find_entry_Some _ _ _ (chain_start _ _ _ _ C He)). lia. Qed.

(** No range crosses an end of another. *)
Lemma boundary_edges lo l hi e : chain lo l hi -> e ∈ l -> boundary l (vme_start e) /\ boundary l (vme_end e).
Proof.
  intros C He. pose proof (chain_positive _ _ _ _ C He) as Pe.
  split; intros x Hx.
  - destruct (decide (vme_start x < vme_start e < vme_end x)) as [D|D]; [|lia].
    pose proof (find_entry_in _ _ _ x (vme_start e) C Hx ltac:(lia)) as Fx.
    rewrite (chain_start _ _ _ _ C He) in Fx. injection Fx as ->. lia.
  - destruct (decide (vme_start x < vme_end e < vme_end x)) as [D|D]; [|lia].
    pose proof (find_entry_in _ _ _ x (vme_end e - 1) C Hx ltac:(lia)) as Fx.
    rewrite (find_entry_in _ _ _ e (vme_end e - 1) C He ltac:(lia)) in Fx. injection Fx as ->. lia.
Qed.

Section Payload.
Context {P : Type} `{PmapSpec P} {F : Type} `{FsOps F}.

Abbreviation own w sp := (leaf_frames (own_of (vw_mem w) sp)).

(** ** Giving a payload back *)

Lemma pages_release_ok ex pas (w : vmw F) (sp : space P) Y O :
  vm_inv ex w sp (carried pas ⊎ Y) O ->
  exists s', vm_pages_release w pas = Done (set_ph w (with_pmm (vw_ph w) s')) /\
    let w' := set_ph w (with_pmm (vw_ph w) s') in
    vm_inv ex w' sp Y O /\ civil (total w sp Y) w (total w sp (carried pas ⊎ Y)) w' (total w' sp Y).
Proof.
  revert w. induction pas as [|pa pas IH]; intros w I; cbn [vm_pages_release].
  { exists (vw_pmm w). assert (set_ph w (with_pmm (vw_ph w) (vw_pmm w)) = w) as -> by (by destruct w as [[] ? ? ?]).
    change (carried []) with (∅ : gmultiset Z) in *. rewrite gmultiset_disj_union_left_id in *.
    split; [reflexivity|]. split; [exact I|by apply civil_refl]. }
  rewrite carried_cons in *. destruct (pa =? PA_INVALID).
  { rewrite gmultiset_disj_union_left_id in *. rewrite bind_Done. exact (IH w I). }
  rewrite <- gmultiset_disj_union_assoc in *. destruct (free_step _ _ _ _ _ _ I) as (s1 & E1 & I1 & C1).
  cbv zeta in I1, C1. rewrite E1, bind_Done. destruct (IH _ I1) as (s2 & E2 & I2 & C2). exists s2. split; [exact E2|].
  split; [exact I2|]. eapply civil_trans; [|exact C2].
  apply (civil_weaken _ _ _ _ _ _ ltac:(apply gmultiset_disj_union_mono; [reflexivity|apply sub_r]) C1).
Qed.

(** ** Mapping a payload *)

(** The frames [ps] are mapped read-only from [va] on, [rest] still travel. *)
Record installed (w : vmw F) (sp : space P) (va : Z) (ps rest : list Z) (Y O : gmultiset Z)
    (pm' : P) (w' : vmw F) : Prop := {
  is_inv : vm_inv no_ex w' (mkSpace (sp_map sp) pm') (frames rest ⊎ Y) O;
  is_own : own w' (mkSpace (sp_map sp) pm') ⊎ (frames rest ⊎ Y) = own w sp ⊎ (frames (ps ++ rest) ⊎ Y);
  is_civil : civil (own w sp ⊎ (frames (ps ++ rest) ⊎ Y)) w (total w sp (frames (ps ++ rest) ⊎ Y))
               w' (total w' (mkSpace (sp_map sp) pm') (frames rest ⊎ Y));
  is_leaf : forall v, upage v -> pm_leaf (vw_mem w') pm' v =
    match laid_at va ps v with
    | Some pa => Some (leaf_for pa (Z.lor VM_PROT_READ VM_PROT_USER))
    | None => pm_leaf (vw_mem w) (sp_pm sp) v
    end;
  is_rest : vw_objs w' = vw_objs w /\ vw_heap w' = vw_heap w;
}.

Lemma installed_none (w : vmw F) (sp : space P) va rest Y O :
  vm_inv no_ex w sp (frames rest ⊎ Y) O -> installed w sp va [] rest Y O (sp_pm sp) w.
Proof.
  intros I. split; rewrite ?space_eta; [exact I|reflexivity|by apply civil_refl| |done].
  intros v _. by rewrite laid_nil.
Qed.

(** A range a payload can be laid in: it promises writes and copies on them. *)
Record lands (w : vmw F) (sp : space P) (va : Z) (n : nat) (e : vm_map_entry) : Prop := {
  ln_page : forall j, (j < n)%nat -> upage (va + Z.of_nat j * VM_PAGE_SIZE);
  ln_find : forall j, (j < n)%nat -> find_entry (vm_head (sp_map sp)) (va + Z.of_nat j * VM_PAGE_SIZE) = Some e;
  ln_empty : forall j, (j < n)%nat -> pm_leaf (vw_mem w) (sp_pm sp) (va + Z.of_nat j * VM_PAGE_SIZE) = None;
  ln_anon : has (vme_flags e) VME_F_ANON = true;
  ln_cow : has (vme_flags e) VME_F_COW = true;
}.

Lemma lands_head (w : vmw F) (sp : space P) va n e : lands w sp va (S n) e ->
  upage va /\ find_entry (vm_head (sp_map sp)) va = Some e /\ pm_leaf (vw_mem w) (sp_pm sp) va = None.
Proof.
  intros [L1 L2 L3 _ _]. specialize (L1 0%nat ltac:(lia)). specialize (L2 0%nat ltac:(lia)). specialize (L3 0%nat ltac:(lia)).
  change (Z.of_nat 0 * VM_PAGE_SIZE) with 0 in *. rewrite Z.add_0_r in *. done.
Qed.

Lemma lands_next (w w' : vmw F) (sp : space P) pm' va n e : lands w sp va (S n) e ->
  (forall v, upage v -> v <> va -> pm_leaf (vw_mem w') pm' v = pm_leaf (vw_mem w) (sp_pm sp) v) ->
  lands w' (mkSpace (sp_map sp) pm') (va + VM_PAGE_SIZE) n e.
Proof.
  intros [L1 L2 L3 A C] K.
  assert (forall j, va + VM_PAGE_SIZE + Z.of_nat j * VM_PAGE_SIZE = va + Z.of_nat (S j) * VM_PAGE_SIZE) as Ej by lia.
  split; [..|exact A|exact C]; intros j Hj; rewrite Ej; [apply L1; lia|apply L2; lia|].
  cbn [sp_pm]. rewrite K; [apply L3; lia|apply L1; lia|unfold VM_PAGE_SIZE; lia].
Qed.

Lemma may_land (w : vmw F) (sp : space P) va pa n e X Y O :
  vm_inv no_ex w sp X O -> X = {[+ pa +]} ⊎ Y -> lands w sp va (S n) e ->
  may_install w sp (total w sp X) va pa e (leaf_for pa (Z.lor VM_PROT_READ VM_PROT_USER)).
Proof.
  intros I -> L. destruct (lands_head _ _ _ _ _ L) as (Hv & Fe & _).
  split; [exact Hv| |exact Fe|].
  - apply (total_frame _ _ _ _ _ pa I). unfold total. apply gmultiset_elem_of_disj_union. right.
    apply gmultiset_elem_of_disj_union. left. by apply gmultiset_elem_of_singleton.
  - split; [done|done| |].
    + intros A. by rewrite (ln_anon _ _ _ _ _ L) in A.
    + intros _ _. exact (ln_cow _ _ _ _ _ L).
Qed.

Lemma installed_step (w w1 : vmw F) (sp : space P) va pa n e ph' pm1 rest ps pm' w' Y O :
  w1 = set_ph w ph' -> lands w sp va (S n) e -> aligned va ->
  (forall v, upage v -> pm_leaf (vw_mem w1) pm1 v =
     if v =? va then Some (leaf_for pa (Z.lor VM_PROT_READ VM_PROT_USER)) else pm_leaf (vw_mem w) (sp_pm sp) v) ->
  civil (own w sp ⊎ ({[+ pa +]} ⊎ (frames (ps ++ rest) ⊎ Y))) w (total w sp ({[+ pa +]} ⊎ (frames (ps ++ rest) ⊎ Y)))
    w1 (total w1 (mkSpace (sp_map sp) pm1) (frames (ps ++ rest) ⊎ Y)) ->
  installed w1 (mkSpace (sp_map sp) pm1) (va + VM_PAGE_SIZE) ps rest Y O pm' w' ->
  installed w sp va (pa :: ps) rest Y O pm' w'.
Proof.
  intros E L A L1 C1 [I2 Ow2 C2 L2 R2]. destruct (lands_head _ _ _ _ _ L) as (Hv & Fe & El).
  cbn [sp_map sp_pm] in *.
  assert (own w1 (mkSpace (sp_map sp) pm1) = own w sp ⊎ {[+ pa +]}) as Eo.
  { pose proof (own_entered (vw_mem w) (vw_mem w1) sp pm1 e va pa _ true Hv Fe (eq_refl pa : lf_pa (leaf_for pa (Z.lor VM_PROT_READ VM_PROT_USER)) = pa) L1) as Oe. cbn in Oe.
    unfold share in Oe. rewrite (ln_anon _ _ _ _ _ L) in Oe. cbn [named] in Oe. rewrite <- Oe.
    assert (own_of (vw_mem w) sp va = None) as ->; [|cbn [named]; by rewrite gmultiset_disj_union_right_id].
    unfold own_of. rewrite El. by destruct (anon_at _ _). }
  split.
  - exact I2.
  - rewrite Ow2, Eo, <- app_comm_cons, frames_cons. by rewrite <- !gmultiset_disj_union_assoc.
  - rewrite <- app_comm_cons, frames_cons, <- (gmultiset_disj_union_assoc {[+ pa +]}).
    eapply civil_trans; [exact C1|]. rewrite Eo in C2. by rewrite <- gmultiset_disj_union_assoc in C2.
  - intros v Hv'. rewrite (L2 v Hv'), laid_cons; [|exact A|exact (proj2 Hv')]. rewrite (L1 v Hv').
    destruct (v =? va) eqn:Ev; [|reflexivity]. apply Z.eqb_eq in Ev as ->.
    assert (laid_at (va + VM_PAGE_SIZE) ps va = None) as ->; [|reflexivity].
    apply laid_span. unfold in_span, VM_PAGE_SIZE. lia.
  - subst w1. exact R2.
Qed.

Lemma install_pages_ok pas (w : vmw F) (sp : space P) va e Y O :
  vm_inv no_ex w sp (frames pas ⊎ Y) O -> lands w sp va (length pas) e -> aligned va ->
  exists ok k pm' w', install_pages w (sp_pm sp) va pas = Done (ok, k, pm', w') /\
    (k <= length pas)%nat /\ (ok = true -> k = length pas) /\
    installed w sp va (take k pas) (drop k pas) Y O pm' w'.
Proof.
  revert w sp va. induction pas as [|pa pas IH]; intros w sp va I L A; cbn [install_pages].
  { exists true, 0%nat, (sp_pm sp), w. split_and!; [reflexivity|done|done|]. by apply installed_none. }
  cbn [length] in L. rewrite frames_cons, <- gmultiset_disj_union_assoc in I.
  assert (named (share e pa) = {[+ pa +]}) as Es by (unfold share; by rewrite (ln_anon _ _ _ _ _ L)).
  pose proof (may_land w sp va pa _ e _ _ O I eq_refl L) as M.
  pose proof (enter_step no_ex w sp va pa (Z.lor VM_PROT_READ VM_PROT_USER) (frames pas ⊎ Y) O e) as En.
  rewrite Es in En. destruct (En I M) as (ok & pm1 & ph1 & E1 & I1 & C1 & L1 & _ & _). clear En.
  rewrite E1, bind_Done. cbv zeta in I1, C1, L1. destruct ok; cbn [negb]; cycle 1.
  { exists false, 0%nat, pm1, (set_ph w ph1). split_and!; [reflexivity|lia|done|]. cbn [take drop andb] in *.
    unfold left_over in *. rewrite Es in I1, C1. split.
    - rewrite frames_cons, <- gmultiset_disj_union_assoc. by apply (vm_inv_mono _ no_ex) in I1.
    - cbn [app]. rewrite (leaf_frames_ext (own_of (vw_mem w) sp)); [reflexivity|]. intros v Hv. unfold own_of. cbn [sp_map sp_pm].
      by rewrite L1.
    - cbn [app]. rewrite frames_cons, <- gmultiset_disj_union_assoc. exact C1.
    - intros v Hv. rewrite laid_nil. exact (L1 v Hv).
    - done. }
  destruct (lands_head _ _ _ _ _ L) as (Hv & Fe & El).
  assert (left_over w sp e va pa true = None) as El'.
  { unfold left_over, own_of. rewrite El. by destruct (anon_at _ _). }
  rewrite El' in I1, C1. cbn [named andb] in I1, C1, L1. rewrite gmultiset_disj_union_left_id in I1, C1.
  apply (vm_inv_mono _ no_ex) in I1; [|intros v; apply no_ex_sub].
  destruct (IH (set_ph w ph1) (mkSpace (sp_map sp) pm1) (va + VM_PAGE_SIZE) I1) as (ok & k & pm' & w' & E2 & Hk & Ho & In).
  { apply (lands_next w _ sp pm1 va _ e L). intros v Hv' Ne. rewrite (L1 v Hv'). by rewrite (proj2 (Z.eqb_neq v va) Ne). }
  { by apply aligned_add. }
  cbn [sp_pm] in E2. rewrite E2, bind_Done. exists ok, (S k), pm', w'. cbn [length take drop].
  split_and!; [reflexivity|lia|intros D; by rewrite (Ho D)|].
  eapply (installed_step w (set_ph w ph1) sp va pa _ e ph1 pm1); [reflexivity|exact L|exact A|exact L1| |exact In].
  rewrite take_drop. exact C1.
Qed.

(** ** Taking the mappings out again *)

Lemma own_removed (w : vmw F) (sp : space P) m' pm' va pa :
  upage va -> own_of (vw_mem w) sp va = Some pa ->
  (forall v, upage v -> pm_leaf m' pm' v = if v =? va then None else pm_leaf (vw_mem w) (sp_pm sp) v) ->
  leaf_frames (own_of m' (mkSpace (sp_map sp) pm')) ⊎ {[+ pa +]} = own w sp.
Proof.
  intros Hv Eo L. rewrite (leaf_frames_take (own_of (vw_mem w) sp) va pa Hv Eo).
  rewrite gmultiset_disj_union_comm. f_equal. apply leaf_frames_ext. intros v Hv'. unfold own_of at 1.
  cbn [sp_map sp_pm]. rewrite L by exact Hv'. destruct (v =? va); [by destruct (anon_at _ _)|reflexivity].
Qed.

Record uninstalled (w : vmw F) (sp : space P) (va : Z) (l : list Z) (Y O : gmultiset Z) (pm' : P) (w' : vmw F) : Prop := {
  un_inv : vm_inv no_ex w' (mkSpace (sp_map sp) pm') (frames l ⊎ Y) O;
  un_civil : civil (own w sp ⊎ Y) w (total w sp Y) w' (total w' (mkSpace (sp_map sp) pm') (frames l ⊎ Y));
  un_leaf : forall v, upage v -> pm_leaf (vw_mem w') pm' v =
    if in_span v va (Z.of_nat (length l) * VM_PAGE_SIZE) then None else pm_leaf (vw_mem w) (sp_pm sp) v;
  un_rest : vw_objs w' = vw_objs w /\ vw_heap w' = vw_heap w;
}.

Lemma uninstall_pages_ok l (w : vmw F) (sp : space P) va Y O :
  vm_inv no_ex w sp Y O -> aligned va ->
  (forall j pa, l !! j = Some pa -> upage (va + Z.of_nat j * VM_PAGE_SIZE) /\
     own_of (vw_mem w) sp (va + Z.of_nat j * VM_PAGE_SIZE) = Some pa) ->
  exists pm' w', uninstall_pages (length l) w (sp_pm sp) va = (pm', w') /\ uninstalled w sp va l Y O pm' w'.
Proof.
  revert w sp Y. induction l as [|pa l IH] using rev_ind; intros w sp Y I A Ow.
  { exists (sp_pm sp), w. split; [reflexivity|]. change (frames []) with (∅ : gmultiset Z). split; rewrite ?space_eta.
    - by rewrite gmultiset_disj_union_left_id.
    - rewrite gmultiset_disj_union_left_id. by apply civil_refl.
    - intros v _. cbn [length]. destruct (in_span _ _ _) eqn:S; [unfold in_span in S; lia|reflexivity].
    - done. }
  rewrite length_app, Nat.add_1_r. cbn [uninstall_pages]. set (u := va + Z.of_nat (length l) * VM_PAGE_SIZE).
  destruct (Ow (length l) pa) as [Hu Eu]; [by rewrite list_lookup_middle|]. fold u in Hu, Eu.
  destruct (remove_step no_ex w sp u Y O I Hu) as (pm1 & ph1 & E1 & I1 & C1 & L1). cbv zeta in I1, C1, L1.
  rewrite Eu in I1, C1. cbn [named] in I1, C1. rewrite E1.
  destruct (IH (set_ph w ph1) (mkSpace (sp_map sp) pm1) _ I1 A) as (pm' & w' & E2 & [I2 C2 L2 R2]).
  { intros j q Hj. pose proof (lookup_lt_Some _ _ _ Hj) as Lj. destruct (Ow j q) as [Hj' Ej]; [by apply lookup_app_l_Some|].
    split; [exact Hj'|]. unfold own_of in *. cbn [sp_map sp_pm] in *. rewrite (L1 _ Hj').
    destruct (_ =? u) eqn:Eq; [unfold u, VM_PAGE_SIZE in Eq; lia|exact Ej]. }
  cbn [sp_pm sp_map] in *. exists pm', w'. split; [exact E2|].
  assert (frames l ⊎ ({[+ pa +]} ⊎ Y) = frames (l ++ [pa]) ⊎ Y) as Ef.
  { rewrite frames_app, frames_cons. change (frames []) with (∅ : gmultiset Z).
    by rewrite gmultiset_disj_union_right_id, gmultiset_disj_union_assoc. }
  rewrite Ef in I2, C2. split; [exact I2| | |exact R2].
  - eapply civil_trans; [exact C1|].
    rewrite gmultiset_disj_union_assoc, (own_removed w sp (vw_mem (set_ph w ph1)) pm1 u pa Hu Eu L1) in C2. exact C2.
  - intros v Hv. rewrite (L2 v Hv), (L1 v Hv), length_app. cbn [length]. rewrite Nat.add_1_r.
    rewrite <- (span_last v va (length l) (proj2 Hv) A). fold u. by destruct (in_span _ _ _), (v =? u).
Qed.

(** ** The range a payload lands in *)

Lemma hint_inv ex (w : vmw F) (sp : space P) h Y O :
  vm_inv ex w sp Y O -> map_ok (with_vm_hint (sp_map sp) h) ->
  vm_inv ex w (mkSpace (with_vm_hint (sp_map sp) h) (sp_pm sp)) Y O.
Proof.
  intros I M. destruct (vm_inv_map ex w sp (with_vm_hint (sp_map sp) h) (vw_objs w) Y O O I M eq_refl eq_refl) as (I' & _ & _).
  - exact (so_entries _ _ _ _ _ (vi_space _ _ _ _ _ I)).
  - intros v e _ _ Fe. exists e. split; [exact Fe|by split].
  - exact (vi_objs _ _ _ _ _ I).
  - by apply (vm_inv_same _ (set_objs w (vw_objs w))).
Qed.

Lemma align_up_pages n : 0 <= n < 2 ^ 50 -> VM_ALIGN_UP (n * VM_PAGE_SIZE) = n * VM_PAGE_SIZE.
Proof.
  intros Hn. destruct (align_up_spec (n * VM_PAGE_SIZE)) as [A B]; [unfold VM_PAGE_MASK, VM_PAGE_SIZE; lia|].
  revert A B. unfold aligned, VM_PAGE_SIZE. intros A B. Z.div_mod_to_equations. lia.
Qed.

(** No page is mapped where no range is. *)
Lemma unmapped ex (w : vmw F) (sp : space P) Y O v :
  vm_inv ex w sp Y O -> upage v -> backing (sp_map sp) v = None -> pm_leaf (vw_mem w) (sp_pm sp) v = None.
Proof.
  intros I Hv B. destruct (pm_leaf (vw_mem w) (sp_pm sp) v) as [lf|] eqn:El; [|reflexivity].
  destruct (so_leaf _ _ _ _ _ (vi_space _ _ _ _ _ I) v lf Hv El) as (e & Fe & _).
  apply backing_None in B; [by rewrite B in Fe|exact (so_map _ _ _ _ _ (vi_space _ _ _ _ _ I))].
Qed.

Lemma span_upage ex (w : vmw F) (sp : space P) Y O va n j :
  vm_inv ex w sp Y O -> can_enter (sp_map sp) va (Z.of_nat n * VM_PAGE_SIZE) -> (j < n)%nat ->
  upage (va + Z.of_nat j * VM_PAGE_SIZE).
Proof.
  intros I (_ & A & _ & Lo & Hi & _) Hj. pose proof (so_window _ _ _ _ _ (vi_space _ _ _ _ _ I)) as Wn.
  split; [unfold VM_PAGE_SIZE in *; lia|]. apply aligned_add; [exact A|]. unfold aligned. apply Z.mod_mul. done.
Qed.

Definition payload_entry (va size : Z) : vm_map_entry :=
  mkVme va (va + size) 0 None (Z.lor (Z.lor VM_PROT_READ VM_PROT_WRITE) VM_PROT_USER) (Z.lor VME_F_ANON VME_F_COW).

(** The space after [vm_map_enter] of the payload's range. *)
Record opened (w : vmw F) (sp : space P) (va : Z) (n : nat) (Y O : gmultiset Z) (m' : vm_map) : Prop := {
  op_can : can_enter (sp_map sp) va (Z.of_nat n * VM_PAGE_SIZE);
  op_inv : vm_inv no_ex w (mkSpace m' (sp_pm sp)) Y O;
  op_frames : space_frames (vw_mem w) (mkSpace m' (sp_pm sp)) = space_frames (vw_mem w) sp;
  op_own : own w (mkSpace m' (sp_pm sp)) = own w sp;
  op_lands : lands w (mkSpace m' (sp_pm sp)) va n (payload_entry va (Z.of_nat n * VM_PAGE_SIZE));
  op_edges : boundary (vm_head m') va /\ boundary (vm_head m') (va + Z.of_nat n * VM_PAGE_SIZE);
  op_backing : forall v, backing m' v = if in_span v va (Z.of_nat n * VM_PAGE_SIZE)
    then Some (page_of (payload_entry va (Z.of_nat n * VM_PAGE_SIZE)) v) else backing (sp_map sp) v;
  op_window : vm_lo m' = vm_lo (sp_map sp) /\ vm_hi m' = vm_hi (sp_map sp);
}.

Lemma payload_open (w : vmw F) (sp : space P) va n h Y O :
  vm_inv no_ex w sp Y O -> u64 va -> Z.of_nat n < 2 ^ 50 ->
  let '(ok, m', h') := vm_map_enter (sp_map sp) va (Z.of_nat n * VM_PAGE_SIZE)
     (Z.lor (Z.lor VM_PROT_READ VM_PROT_WRITE) VM_PROT_USER) (Z.lor VME_F_ANON VME_F_COW) h in
  if ok then opened w sp va n Y O m' else m' = sp_map sp.
Proof.
  intros I Hv Hn. set (sz := Z.of_nat n * VM_PAGE_SIZE). set (e := payload_entry va sz).
  assert (u64 sz) as Hs by (unfold u64, sz, VM_PAGE_SIZE; lia).
  pose proof (space_enter no_ex w sp va sz (vme_prot e) (vme_flags e) None 0 h Y O) as En. cbn [named] in En.
  rewrite gmultiset_disj_union_left_id in En. specialize (En I ltac:(by split) Hv Hs). fold e in En.
  unfold vm_map_enter. change (Z.lor (Z.lor VM_PROT_READ VM_PROT_WRITE) VM_PROT_USER) with (vme_prot e).
  change (Z.lor VME_F_ANON VME_F_COW) with (vme_flags e).
  destruct (vm_map_enter_backed _ _ _ _ _ _ _ _) as [[ok m'] h']. destruct ok; [|exact En].
  change (mkVme va (va + sz) 0 None (vme_prot e) (vme_flags e)) with e in En.
  destruct En as (Can & I' & Ef & Elo & Ehi & Eh & Fi).
  pose proof (so_map _ _ _ _ _ (vi_space _ _ _ _ _ I)) as M. pose proof (so_map _ _ _ _ _ (vi_space _ _ _ _ _ I')) as M'.
  cbn [sp_map] in M'.
  assert (forall j, (j < n)%nat -> in_span (va + Z.of_nat j * VM_PAGE_SIZE) va sz = true) as Sp
    by (intros j Hj; unfold in_span, sz, VM_PAGE_SIZE; lia).
  assert (boundary (vm_head m') va /\ boundary (vm_head m') (va + sz)) as Bd.
  { assert (e ∈ vm_head m') as He.
    { apply (find_entry_Some _ va). rewrite Fi. destruct Can as (? & _). by destruct (in_span va va sz) eqn:E; [|unfold in_span in E; lia]. }
    split; [apply (boundary_edges _ _ _ e (mo_chain _ M') He)|].
    exact (proj2 (boundary_edges _ _ _ e (mo_chain _ M') He)). }
  split; [exact Can|exact I'|exact Ef| | |exact Bd| |by split].
  - apply leaf_frames_ext. intros v Hv'. unfold own_of, anon_at. cbn [sp_map sp_pm]. rewrite Fi.
    destruct (in_span v va sz) eqn:E; [|reflexivity].
    rewrite (unmapped _ _ _ _ _ v I Hv'); [by destruct (find_entry (vm_head (sp_map sp)) v); repeat destruct (has _ _)|].
    apply Can. unfold in_span in E. lia.
  - split; [|..|reflexivity|reflexivity]; intros j Hj; cbn [sp_map sp_pm].
    + exact (span_upage _ _ _ _ _ va n j I Can Hj).
    + rewrite Fi, (Sp j Hj). reflexivity.
    + apply (unmapped _ _ _ _ _ _ I (span_upage _ _ _ _ _ va n j I Can Hj)). apply Can.
      specialize (Sp j Hj). unfold in_span in Sp. lia.
  - intros v. fold sz. rewrite !backing_find by done. rewrite Fi. by destruct (in_span v va sz).
Qed.

(** Closing a range under which nothing is mapped any more. *)
Lemma payload_close (w : vmw F) (sp : space P) va n Y O :
  vm_inv no_ex w sp Y O -> (0 < n)%nat -> vm_lo (sp_map sp) <= va -> va + Z.of_nat n * VM_PAGE_SIZE <= vm_hi (sp_map sp) ->
  boundary (vm_head (sp_map sp)) va -> boundary (vm_head (sp_map sp)) (va + Z.of_nat n * VM_PAGE_SIZE) ->
  (forall v, upage v -> in_span v va (Z.of_nat n * VM_PAGE_SIZE) = true -> pm_leaf (vw_mem w) (sp_pm sp) v = None) ->
  exists k m' o, vm_map_remove (vw_objs w) (sp_map sp) va (Z.of_nat n * VM_PAGE_SIZE) = Done (k, m', o) /\
    vm_inv no_ex (set_objs w o) (mkSpace m' (sp_pm sp)) Y O /\
    space_frames (vw_mem w) (mkSpace m' (sp_pm sp)) = space_frames (vw_mem w) sp /\
    forall v, backing m' v = if in_span v va (Z.of_nat n * VM_PAGE_SIZE) then None else backing (sp_map sp) v.
Proof.
  intros I Hn Lo Hi B1 B2 Un. set (sz := Z.of_nat n * VM_PAGE_SIZE) in *.
  assert (0 < sz) as Hz by (unfold sz, VM_PAGE_SIZE; lia).
  pose proof (so_map _ _ _ _ _ (vi_space _ _ _ _ _ I)) as M. pose proof (map_ok_bounds _ M) as Mb.
  destruct (vm_map_remove_ok (vw_objs w) (sp_map sp) va sz O M) as (o & E & M' & Ok);
    [unfold u64; lia|exact Hz|lia|exact (vi_objs _ _ _ _ _ I)|].
  pose proof (fun v => remove_outside (sp_map sp) va sz _ v M B1 B2 Hz M') as Rm.
  destruct (vm_inv_backing no_ex w sp _ o Y O O I M') as (I' & Ef & _); [done|done|..].
  - intros v. rewrite (Rm v). destruct (in_span v va sz); [by left|by right].
  - intros v Hv Lf. rewrite (Rm v). destruct (in_span v va sz) eqn:Sp; [|reflexivity]. by rewrite (Un v Hv Sp) in Lf.
  - exact Ok.
  - do 3 eexists. split; [exact E|]. split; [exact I'|]. split; [exact Ef|exact Rm].
Qed.

(** What [vm_pages_install] leaves behind. *)
Definition still_carried (r : option Z) (pas : list Z) (Y : gmultiset Z) : gmultiset Z :=
  match r with Some _ => Y | None => frames pas ⊎ Y end.

Definition landing_leaf (r : option Z) (pas : list Z) (v : Z) (old : option leaf) : option leaf :=
  match r with
  | Some va => match laid_at va pas v with
               | Some pa => Some (leaf_for pa (Z.lor VM_PROT_READ VM_PROT_USER))
               | None => old
               end
  | None => old
  end.

Definition landing_backing (r : option Z) (size : Z) (v : Z) (old : option (option Z * Z * Z * Z)) :=
  match r with
  | Some va => if in_span v va size then Some (page_of (payload_entry va size) v) else old
  | None => old
  end.

Record delivered (w : vmw F) (sp : space P) (pas : list Z) (Y O : gmultiset Z) (r : option Z)
    (sp' : space P) (w' : vmw F) : Prop := {
  dv_inv : vm_inv no_ex w' sp' (still_carried r pas Y) O;
  dv_civil : civil (own w sp ⊎ (frames pas ⊎ Y)) w (total w sp (frames pas ⊎ Y)) w' (total w' sp' (still_carried r pas Y));
  dv_can : forall va, r = Some va -> can_enter (sp_map sp) va (Z.of_nat (length pas) * VM_PAGE_SIZE);
  dv_backing : forall v, backing (sp_map sp') v =
    landing_backing r (Z.of_nat (length pas) * VM_PAGE_SIZE) v (backing (sp_map sp) v);
  dv_leaf : forall v, upage v -> pm_leaf (vw_mem w') (sp_pm sp') v =
    landing_leaf r pas v (pm_leaf (vw_mem w) (sp_pm sp) v);
}.

Lemma delivered_none (w w' : vmw F) (sp sp' : space P) pas Y O :
  vm_inv no_ex w' sp' (frames pas ⊎ Y) O -> vw_ph w' = vw_ph w -> sp_pm sp' = sp_pm sp ->
  (forall v, backing (sp_map sp') v = backing (sp_map sp) v) ->
  space_frames (vw_mem w) sp' = space_frames (vw_mem w) sp -> delivered w sp pas Y O None sp' w'.
Proof.
  intros I Ep Es Eb Ef. assert (vw_mem w' = vw_mem w) as Em by (unfold vw_mem; by rewrite Ep).
  split; cbn [still_carried landing_backing landing_leaf]; [exact I| |done|exact Eb|by intros v _; rewrite Em, Es].
  unfold total at 2. rewrite Em, Ef. by apply civil_refl.
Qed.

Lemma delivered_some (w w' : vmw F) (sp : space P) va m' pm' pas Y O :
  opened w sp va (length pas) (frames pas ⊎ Y) O m' ->
  installed w (mkSpace m' (sp_pm sp)) va pas [] Y O pm' w' ->
  delivered w sp pas Y O (Some va) (mkSpace m' pm') w'.
Proof.
  intros [Can _ Ef Ow _ _ Bk _] [I2 _ C2 L2 _]. cbn [sp_map sp_pm] in *. change (frames []) with (∅ : gmultiset Z) in *.
  rewrite gmultiset_disj_union_left_id, app_nil_r in *.
  split; [exact I2| |by intros u [= <-]|exact Bk|exact L2].
  rewrite Ow in C2. unfold total in C2 at 1. rewrite Ef in C2. exact C2.
Qed.

Lemma install_undo (w w1 : vmw F) (sp : space P) va m' pm1 ps rest Y O :
  opened w sp va (length (ps ++ rest)) (frames (ps ++ rest) ⊎ Y) O m' ->
  installed w (mkSpace m' (sp_pm sp)) va ps rest Y O pm1 w1 ->
  exists pm2 w2 k m2 o, uninstall_pages (length ps) w1 pm1 va = (pm2, w2) /\
    vm_map_remove (vw_objs w2) m' va (Z.of_nat (length (ps ++ rest)) * VM_PAGE_SIZE) = Done (k, m2, o) /\
    delivered w sp (ps ++ rest) Y O None (mkSpace m2 pm2) (set_objs w2 o).
Proof.
  intros [Can _ Ef Ow Ln [B1 B2] Bk [Wl Wh]] [I1 Ow1 C1 L1 _]. cbn [sp_map sp_pm] in *.
  pose proof Can as (Pz & A & _ & Lo & Hi & Fr). set (n := length (ps ++ rest)) in *.
  assert (n = (length ps + length rest)%nat) as En by (apply length_app).
  destruct (uninstall_pages_ok ps w1 (mkSpace m' pm1) va (frames rest ⊎ Y) O I1 A) as (pm2 & w2 & E2 & [I2 C2 L2 _]).
  { intros j pa Hj. pose proof (lookup_lt_Some _ _ _ Hj) as Lj. pose proof (ln_page _ _ _ _ _ Ln j ltac:(lia)) as Hv.
    split; [exact Hv|]. unfold own_of. cbn [sp_map sp_pm].
    pose proof (anon_at_find _ _ _ (ln_find _ _ _ _ _ Ln j ltac:(lia))) as An. cbn [sp_map] in An.
    rewrite An, (ln_anon _ _ _ _ _ Ln), (L1 _ Hv), laid_page, Hj.
    reflexivity. }
  cbn [sp_map sp_pm] in *. assert (frames ps ⊎ (frames rest ⊎ Y) = frames (ps ++ rest) ⊎ Y) as Eq
    by (by rewrite frames_app, gmultiset_disj_union_assoc).
  rewrite Eq in I2, C2.
  assert (forall v, upage v -> pm_leaf (vw_mem w2) pm2 v = pm_leaf (vw_mem w) (sp_pm sp) v) as Lv.
  { intros v Hv. rewrite (L2 v Hv). destruct (in_span v va _) eqn:Sp.
    - destruct (span_page va _ v A (proj2 Hv) Sp) as (j & Hj & ->). symmetry. apply (ln_empty _ _ _ _ _ Ln j). lia.
    - rewrite (L1 v Hv). apply laid_span in Sp. by rewrite Sp. }
  destruct (payload_close w2 (mkSpace m' pm2) va n _ O I2) as (k & m2 & o & E3 & I3 & Ef3 & Bk3).
  { unfold VM_PAGE_SIZE in Pz. lia. } { cbn [sp_map]. lia. } { cbn [sp_map]. lia. } { exact B1. } { exact B2. }
  { intros v Hv Sp. destruct (span_page va _ v A (proj2 Hv) Sp) as (j & Hj & ->). cbn [sp_pm]. rewrite (Lv _ Hv).
    exact (ln_empty _ _ _ _ _ Ln j Hj). }
  exists pm2, w2, k, m2, o. split; [exact E2|]. split; [exact E3|]. cbn [sp_map sp_pm] in *.
  split; cbn [still_carried landing_backing landing_leaf sp_map sp_pm]; [exact I3| |done| |exact Lv].
  - rewrite Ow1 in C2. rewrite Ow in C1, C2. unfold total in C1 at 1. rewrite Ef in C1.
    eapply civil_trans; [exact C1|]. eapply civil_trans; [exact C2|]. unfold total.
    change (vw_mem (set_objs w2 o)) with (vw_mem w2). rewrite Ef3. by apply civil_refl.
  - intros v. rewrite Bk3, Bk. destruct (in_span v va _) eqn:Sp; [|reflexivity]. symmetry. apply Fr.
    unfold in_span in Sp. lia.
Qed.

Lemma opened_hint (w : vmw F) (sp : space P) h va n Y O m' :
  opened w (mkSpace (with_vm_hint (sp_map sp) h) (sp_pm sp)) va n Y O m' -> opened w sp va n Y O m'.
Proof. intros [Can I Ef Ow Ln Bd Bk Wn]. split; assumption. Qed.

Lemma opened_heap (w : vmw F) (sp : space P) h va n Y O m' :
  opened w sp va n Y O m' -> opened (set_heap w h) sp va n Y O m'.
Proof.
  intros [Can I Ef Ow Ln Bd Bk Wn]. split; try assumption; [by apply (vm_inv_same _ w)|].
  destruct Ln as [L1 L2 L3 L4 L5]. split; assumption.
Qed.

Lemma delivered_heap (w w' : vmw F) (sp sp' : space P) h pas Y O r :
  delivered (set_heap w h) sp pas Y O r sp' w' -> delivered w sp pas Y O r sp' w'.
Proof. intros [I C Ca Bk L]. split; assumption. Qed.

Lemma vm_pages_install_ok (w : vmw F) (sp : space P) pas Y O :
  vm_inv no_ex w sp (frames pas ⊎ Y) O -> Z.of_nat (length pas) < 2 ^ 50 ->
  exists r sp' w', vm_pages_install w sp pas = Done (r, sp', w') /\ delivered w sp pas Y O r sp' w'.
Proof.
  intros I Hn. pose proof (so_map _ _ _ _ _ (vi_space _ _ _ _ _ I)) as M. unfold vm_pages_install.
  set (n := length pas) in *. destruct (Z.of_nat n =? 0) eqn:En.
  { exists None, sp, w. split; [reflexivity|]. by apply delivered_none. }
  rewrite w64_small by (unfold VM_PAGE_SIZE; lia).
  pose proof (find_space_spec (sp_map sp) (Z.of_nat n * VM_PAGE_SIZE) M ltac:(unfold VM_PAGE_SIZE; lia)) as Fs.
  cbv zeta in Fs. rewrite align_up_pages in Fs by lia.
  destruct (vm_map_find_space _ _) as [[va|] m1]; cycle 1.
  { destruct Fs as [-> _]. rewrite space_eta. exists None, sp, w. split; [reflexivity|]. by apply delivered_none. }
  destruct Fs as (Can & -> & M1). pose proof (hint_inv _ _ _ _ _ _ I M1) as I1. set (h := va + _) in *.
  assert (u64 va) as Hv.
  { pose proof (map_ok_bounds _ M) as Mb. destruct Can as (? & _ & _ & ? & ? & _). unfold u64. lia. }
  pose proof (payload_open w (mkSpace (with_vm_hint (sp_map sp) h) (sp_pm sp)) va n (vw_heap w) _ O I1 Hv Hn) as Op.
  cbn [sp_map] in Op. destruct (vm_map_enter _ _ _ _ _ _) as [[ok m2] h2]. destruct ok; cbn [negb]; cycle 1.
  { subst m2. do 3 eexists. split; [reflexivity|]. apply delivered_none; [|reflexivity..].
    by apply (vm_inv_same _ w). }
  apply opened_hint, (opened_heap _ _ h2) in Op. set (w1 := set_heap w h2) in *.
  destruct (install_pages_ok pas w1 (mkSpace m2 (sp_pm sp)) va _ Y O (op_inv _ _ _ _ _ _ _ Op) (op_lands _ _ _ _ _ _ _ Op))
    as (ok & k & pm' & w' & E & Hk & Hok & In); [apply Can|].
  cbn [sp_pm] in E. rewrite E, bind_Done. destruct ok; cbn [negb].
  - rewrite (Hok eq_refl), take_ge, drop_ge in In by (unfold n; lia).
    do 3 eexists. split; [reflexivity|]. apply (delivered_heap _ _ _ _ h2), (delivered_some w1 w' sp va m2 pm' pas Y O Op In).
  - assert (length (take k pas) = k) as Lk by (apply length_take_le; lia).
    assert (opened w1 sp va (length (take k pas ++ drop k pas)) (frames (take k pas ++ drop k pas) ⊎ Y) O m2) as Op'
      by (by rewrite take_drop).
    destruct (install_undo w1 w' sp va m2 pm' _ _ Y O Op' In) as (pm2 & w2 & j & m3 & o & E2 & E3 & D).
    rewrite Lk in E2. rewrite E2. rewrite (take_drop k pas) in E3, D. fold n in E3. rewrite E3, bind_Done.
    do 3 eexists. split; [reflexivity|]. exact (delivered_heap _ _ _ _ _ _ _ _ _ D).
Qed.

(** ** Copying bytes into fresh frames *)

Lemma ld8_copy_kernel n m dst src x :
  dst + Z.of_nat n <= src \/ src + Z.of_nat n <= dst ->
  ld8 (copy_kernel n m dst src) x =
    if (dst <=? x) && (x <? dst + Z.of_nat n) then ld8 m (src + (x - dst)) else ld8 m x.
Proof.
  revert m dst src. induction n as [|n IH]; intros m dst src D; cbn [copy_kernel].
  { by destruct ((dst <=? x) && _) eqn:?; [lia|]. }
  rewrite IH by lia. rewrite !ld8_st8.
  destruct ((dst + 1 <=? x) && (x <? dst + 1 + Z.of_nat n)) eqn:E1, ((dst <=? x) && (x <? dst + Z.of_nat (S n))) eqn:E2;
    [|lia| |].
  - destruct (src + 1 + (x - (dst + 1)) =? dst) eqn:E3; [lia|]. f_equal. lia.
  - destruct (x =? dst) eqn:E3; [|lia]. replace (src + (x - dst)) with src by lia.
    unfold ld8, w8. by rewrite Z.mod_mod.
  - destruct (x =? dst) eqn:E3; [lia|reflexivity].
Qed.

(** The page at [off] of a payload, written to the frame [pa]. *)
Definition kernel_page (m : mem) (pa src off size : Z) : mem :=
  let have := page_have off size in
  zero_bytes (Z.to_nat (VM_PAGE_SIZE - have)) (copy_kernel (Z.to_nat have) m pa (src + off)) (pa + have).

(** Byte [a] of a payload at [src]: zero beyond its size. *)
Definition payload_byte (m : mem) (src size a : Z) : Z := if a <? size then ld8 m (src + a) else 0.

Lemma page_have_range off size : 0 <= off < size -> 0 < page_have off size <= VM_PAGE_SIZE /\ page_have off size <= size - off.
Proof. unfold page_have, VM_PAGE_SIZE. destruct (4096 <? size - off) eqn:?; lia. Qed.

Lemma kernel_page_out m pa src off size a : 0 <= off < size -> ~ in_page pa a ->
  pa + VM_PAGE_SIZE <= src + off \/ src + off + page_have off size <= pa ->
  ld8 (kernel_page m pa src off size) a = ld8 m a.
Proof.
  intros Ho Ha D. pose proof (page_have_range off size Ho) as R. unfold kernel_page, in_page, PAGE_SIZE, VM_PAGE_SIZE in *.
  rewrite ld8_zero_bytes, ld8_copy_kernel by lia.
  destruct ((_ <=? a) && _) eqn:E1; [lia|]. destruct ((pa <=? a) && _) eqn:E2; [lia|reflexivity].
Qed.

Lemma kernel_page_in m pa src off size i : 0 <= off < size -> 0 <= i < PAGE_SIZE ->
  pa + VM_PAGE_SIZE <= src + off \/ src + off + page_have off size <= pa ->
  ld8 (kernel_page m pa src off size) (pa + i) = payload_byte m src size (off + i).
Proof.
  intros Ho Hi D. pose proof (page_have_range off size Ho) as R. unfold kernel_page, payload_byte, PAGE_SIZE, VM_PAGE_SIZE in *.
  rewrite ld8_zero_bytes, ld8_copy_kernel by lia. unfold page_have, VM_PAGE_SIZE in *.
  destruct (4096 <? size - off) eqn:Eh; destruct (off + i <? size) eqn:Es;
    (destruct ((_ <=? pa + i) && _) eqn:E1; [lia || reflexivity|]); destruct ((pa <=? pa + i) && _) eqn:E2; try lia;
    f_equal; lia.
Qed.

(** An address whose frame is in use: owned by someone in [X], or reserved. *)
Definition live (w : vmw F) (X : gmultiset Z) (a : Z) : Prop :=
  exists f, frame_pa f /\ in_page f a /\ (f ∈ X \/ reserved (vw_pmm w) f).

Lemma live_kept R (w : vmw F) X0 (w' : vmw F) X1 X a :
  civil R w X0 w' X1 -> X ⊆ R -> live w X a -> ld8 (vw_mem w') a = ld8 (vw_mem w) a /\ live w' X a.
Proof.
  intros [St M V N] Sub (f & Ff & Hf & D). split.
  - destruct D as [D|D]; [apply (M f); [exact (gmultiset_elem_of_subseteq _ _ _ D Sub)|exact Hf]|by apply (V f)].
  - exists f. split; [exact Ff|]. split; [exact Hf|]. destruct D as [D|D]; [by left|right].
    apply (reserved_step _ _ _ St); [exact (frame_pa_nonneg _ Ff)|exact D].
Qed.

(** A fresh frame holds no live address. *)
Lemma live_fresh (w w' : vmw F) X X0 pa a :
  live w X a -> frame_pa pa -> (pa ∉ X) -> owned_by (vw_pmm w') X0 -> pa ∈ X0 -> pmm_step (vw_pmm w) (vw_pmm w') ->
  ~ in_page pa a.
Proof.
  intros (f & Ff & Hf & D) Fp Nx Ow Hin St Hp.
  assert (f = pa) as ->.
  { destruct (decide (f = pa)) as [E|N]; [exact E|]. exfalso. exact (page_apart f pa a Ff Fp N Hf Hp). }
  destruct D as [D|D]; [by apply Nx|]. apply (owned_not_reserved _ _ _ Ow Hin).
  apply (reserved_step _ _ _ St); [exact (frame_pa_nonneg _ Fp)|exact D].
Qed.

(** A payload in memory that stays in use while it is read. *)
Definition live_payload (w : vmw F) (X : gmultiset Z) (src size : Z) : Prop :=
  forall a, src <= a < src + size -> live w X a.

Lemma live_payload_kept R (w : vmw F) X0 (w' : vmw F) X1 X src size :
  civil R w X0 w' X1 -> X ⊆ R -> live_payload w X src size ->
  live_payload w' X src size /\
  forall a, 0 <= a -> payload_byte (vw_mem w') src size a = payload_byte (vw_mem w) src size a.
Proof.
  intros C Sub L. split.
  - intros a Ha. exact (proj2 (live_kept _ _ _ _ _ _ a C Sub (L a Ha))).
  - intros a Ha. unfold payload_byte. destruct (a <? size) eqn:E; [|reflexivity].
    apply (live_kept _ _ _ _ _ X _ C Sub). apply L. lia.
Qed.

Lemma page_from_kernel_ok (w : vmw F) (sp : space P) src off size Y O :
  vm_inv no_ex w sp Y O -> 0 <= off < size -> live_payload w (total w sp Y) src size ->
  exists pa w', page_from_bytes w sp src off size false = Done (pa, sp_pm sp, w') /\
    ((pa = PA_INVALID /\ w' = w) \/
     (exists w1 m', filled no_ex w sp Y O pa m' w1 w' /\
        forall i, 0 <= i < PAGE_SIZE -> ld8 (vw_mem w') (pa + i) = payload_byte (vw_mem w) src size (off + i))).
Proof.
  intros I Ho L. destruct (alloc_step _ w sp Y O I) as (pa & w1 & Ea & D). unfold page_from_bytes. rewrite Ea.
  destruct D as [[-> ->]|(s1 & -> & Fp & Np & Nx & Nr & I1 & C1 & M1)].
  { exists PA_INVALID, w. split; [reflexivity|by left]. }
  set (w1 := set_ph w (with_pmm (vw_ph w) s1)) in *. rewrite (proj2 (Z.eqb_neq _ _) Np), bind_Done.
  set (m' := kernel_page (vw_mem w) pa src off size).
  assert (forall a, src <= a < src + size -> ~ in_page pa a) as Apart.
  { intros a Ha. apply (live_fresh w w1 _ _ pa a (L a Ha) Fp Nx (vi_owned _ _ _ _ _ I1)); [|exact (po_step _ _ _ _ _ _ _ C1)].
    rewrite mult_in. lia. }
  assert (pa + VM_PAGE_SIZE <= src + off \/ src + off + page_have off size <= pa) as Dj.
  { pose proof (page_have_range off size Ho) as R. pose proof (Apart (Z.max (src + off) pa)) as A1.
    unfold in_page, PAGE_SIZE, VM_PAGE_SIZE in *. lia. }
  destruct (write_step _ w1 sp pa Y O m' I1 M1) as (I2 & T2 & Es & C2 & L2).
  { intros a Ha. exact (kernel_page_out (vw_mem w) pa src off size a Ho Ha Dj). }
  exists pa, (set_ph w1 (with_mem (vw_ph w1) m')). split; [reflexivity|]. right. exists w1, m'. split.
  - split; [by exists s1|reflexivity|exact Fp|by apply Z.eqb_neq|exact Nx|exact I2| |by rewrite T2|exact Es|exact L2].
    eapply civil_trans; [exact C1|exact C2].
  - intros i Hi. exact (kernel_page_in (vw_mem w) pa src off size i Ho Hi Dj).
Qed.

(** What a capture from the kernel leaves behind, [n] pages from page [i] on. *)
Record captured (w : vmw F) (sp : space P) (src size i : Z) (n : nat) (new : list Z) (Y O : gmultiset Z) (w' : vmw F) : Prop := {
  cp_length : length new = n;
  cp_inv : vm_inv no_ex w' sp (frames new ⊎ Y) O;
  cp_civil : civil (total w sp Y) w (total w sp Y) w' (total w' sp (frames new ⊎ Y));
  cp_leaf : forall v, upage v -> pm_leaf (vw_mem w') (sp_pm sp) v = pm_leaf (vw_mem w) (sp_pm sp) v;
  cp_frames : space_frames (vw_mem w') sp = space_frames (vw_mem w) sp;
  cp_fresh : forall pa, pa ∈ new -> (pa ∉ total w sp Y) /\ pa <> PA_INVALID;
  cp_bytes : forall j pa b, new !! j = Some pa -> 0 <= b < PAGE_SIZE ->
    ld8 (vw_mem w') (pa + b) = payload_byte (vw_mem w) src size ((i + Z.of_nat j) * VM_PAGE_SIZE + b);
}.

Lemma captured_none (w : vmw F) (sp : space P) src size i Y O :
  vm_inv no_ex w sp Y O -> captured w sp src size i 0 [] Y O w.
Proof.
  intros I. split; change (frames []) with (∅ : gmultiset Z); rewrite ?gmultiset_disj_union_left_id;
    [reflexivity|exact I|by apply civil_refl|reflexivity|reflexivity|by intros pa Hp%not_elem_of_nil|done].
Qed.

Lemma captured_cons (w w1 w2 w' : vmw F) (sp : space P) src size i n pa m' new Y O :
  filled no_ex w sp Y O pa m' w1 w2 -> 0 <= i -> live_payload w (total w sp Y) src size ->
  (forall b, 0 <= b < PAGE_SIZE -> ld8 (vw_mem w2) (pa + b) = payload_byte (vw_mem w) src size (i * VM_PAGE_SIZE + b)) ->
  captured w2 sp src size (i + 1) n new ({[+ pa +]} ⊎ Y) O w' ->
  captured w sp src size i (S n) (pa :: new) Y O w'.
Proof.
  intros Fl Hi Lp Pb [Ln I C L Fs Fr Bt].
  assert (frames (pa :: new) ⊎ Y = frames new ⊎ ({[+ pa +]} ⊎ Y)) as Ef.
  { rewrite frames_cons, <- gmultiset_disj_union_assoc. apply union_swap. }
  assert (total w2 sp ({[+ pa +]} ⊎ Y) = {[+ pa +]} ⊎ total w sp Y) as Et.
  { unfold total. rewrite (fl_frames _ _ _ _ _ _ _ _ _ Fl). apply union_swap. }
  split; rewrite ?Ef.
  - cbn [length]. by rewrite Ln.
  - exact I.
  - eapply civil_trans; [exact (fl_civil _ _ _ _ _ _ _ _ _ Fl)|]. refine (civil_weaken _ _ _ _ _ _ _ C). rewrite Et. apply sub_r.
  - intros v Hv. rewrite (L v Hv). exact (fl_leaf _ _ _ _ _ _ _ _ _ Fl v Hv).
  - rewrite Fs. exact (fl_frames _ _ _ _ _ _ _ _ _ Fl).
  - intros q [->|Hq]%elem_of_cons.
    + split; [exact (fl_new _ _ _ _ _ _ _ _ _ Fl)|]. apply Z.eqb_neq. exact (fl_valid _ _ _ _ _ _ _ _ _ Fl).
    + destruct (Fr q Hq) as [N1 N2]. split; [|exact N2]. intros Hin. apply N1. rewrite Et.
      apply gmultiset_elem_of_disj_union. by right.
  - intros [|j] q b Ej Hb; cbn in Ej.
    + injection Ej as <-. rewrite Z.add_0_r, <- (Pb b Hb). symmetry.
      assert (same_page (vw_mem w2) (vw_mem w') pa) as Sp; [|symmetry; apply Sp; unfold PAGE_SIZE in *; lia].
      apply (po_mem _ _ _ _ _ _ _ C). rewrite Et. apply gmultiset_elem_of_disj_union. left.
      by apply gmultiset_elem_of_singleton.
    + rewrite (Bt j q b Ej Hb). replace (i + 1 + Z.of_nat j) with (i + Z.of_nat (S j)) by lia.
      apply (live_payload_kept _ _ _ _ _ _ _ _ (fl_civil _ _ _ _ _ _ _ _ _ Fl) ltac:(reflexivity) Lp).
      unfold VM_PAGE_SIZE. lia.
Qed.

Lemma carried_held ex (w : vmw F) (sp : space P) pas Y O :
  vm_inv ex w sp (frames pas ⊎ Y) O -> carried pas = frames pas.
Proof.
  intros I. apply carried_all. intros pa Hp. assert (frame_pa pa) as [? _]; [|unfold PA_INVALID; lia].
  apply (total_frame _ _ _ _ _ pa I). unfold total. apply gmultiset_elem_of_disj_union. right.
  apply gmultiset_elem_of_disj_union. left. by apply elem_frames.
Qed.

(** A capture that gave up: nothing is held and nothing was lost. *)
Record abandoned (w : vmw F) (sp : space P) (Y' Y O : gmultiset Z) (w' : vmw F) : Prop := {
  ab_inv : vm_inv no_ex w' sp Y O;
  ab_civil : civil (total w sp Y) w (total w sp Y') w' (total w' sp Y);
  ab_leaf : forall v, upage v -> pm_leaf (vw_mem w') (sp_pm sp) v = pm_leaf (vw_mem w) (sp_pm sp) v;
  ab_frames : space_frames (vw_mem w') sp = space_frames (vw_mem w) sp;
}.

Lemma release_abandons (w : vmw F) (sp : space P) acc Y O :
  vm_inv no_ex w sp (frames acc ⊎ Y) O ->
  exists w', vm_pages_release w (rev acc) = Done w' /\ abandoned w sp (frames acc ⊎ Y) Y O w'.
Proof.
  intros I. assert (frames (rev acc) = frames acc) as Er by (apply frames_perm; by rewrite <- Permutation_rev).
  rewrite <- Er in I. pose proof (carried_held _ _ _ _ _ _ I) as Ec. rewrite <- Ec in I.
  destruct (pages_release_ok _ _ _ _ _ _ I) as (s' & E & I' & C). eexists. split; [exact E|].
  rewrite Ec, Er in C. by split.
Qed.

(** The state of a capture seen from before an earlier frame. *)
Lemma abandoned_before (w w1 w2 w' : vmw F) (sp : space P) pa m' acc Y O :
  filled no_ex w sp (frames acc ⊎ Y) O pa m' w1 w2 ->
  abandoned w2 sp (frames (pa :: acc) ⊎ Y) Y O w' -> abandoned w sp (frames acc ⊎ Y) Y O w'.
Proof.
  intros Fl [I C L Fs]. split; [exact I| | |].
  - eapply civil_trans.
    + refine (civil_weaken _ _ _ _ _ _ _ (fl_civil _ _ _ _ _ _ _ _ _ Fl)).
      apply gmultiset_disj_union_mono; [reflexivity|apply sub_r].
    + rewrite frames_cons, <- gmultiset_disj_union_assoc in C. unfold total at 1 in C. rewrite (fl_frames _ _ _ _ _ _ _ _ _ Fl) in C. exact C.
  - intros v Hv. rewrite (L v Hv). exact (fl_leaf _ _ _ _ _ _ _ _ _ Fl v Hv).
  - rewrite Fs. exact (fl_frames _ _ _ _ _ _ _ _ _ Fl).
Qed.

Lemma filled_bump ex (w : vmw F) (sp : space P) Y O pa m' w1 w2 k :
  filled ex w sp Y O pa m' w1 w2 -> vm_inv ex (bump w2 k) sp ({[+ pa +]} ⊎ Y) O.
Proof. intros Fl. apply (vm_inv_same _ w2); [reflexivity..|exact (fl_inv _ _ _ _ _ _ _ _ _ Fl)]. Qed.

Lemma captured_bump (w w' : vmw F) (sp : space P) src size i n new Y O k :
  captured (bump w k) sp src size i n new Y O w' -> captured w sp src size i n new Y O w'.
Proof. intros [C1 C2 C3 C4 C5 C6 C7]. split; assumption. Qed.

Lemma abandoned_bump (w w' : vmw F) (sp : space P) Y' Y O k :
  abandoned (bump w k) sp Y' Y O w' -> abandoned w sp Y' Y O w'.
Proof. intros [A1 A2 A3 A4]. split; assumption. Qed.

Lemma capture_kernel_pages_ok n (w : vmw F) (sp : space P) src size i acc Y O :
  vm_inv no_ex w sp (frames acc ⊎ Y) O -> 0 <= i -> (i + Z.of_nat n - 1) * VM_PAGE_SIZE < size \/ n = 0%nat ->
  live_payload w (total w sp Y) src size ->
  exists pas w', capture_kernel_pages n w sp src size i acc = Done (pas, w') /\
    ((exists new, pas = rev acc ++ new /\ captured w sp src size i n new (frames acc ⊎ Y) O w') \/
     (pas = [] /\ abandoned w sp (frames acc ⊎ Y) Y O w')).
Proof.
  revert w i acc. induction n as [|n IH]; intros w i acc I Hi Hn Lp; cbn [capture_kernel_pages].
  { exists (rev acc), w. split; [reflexivity|]. left. exists []. split; [by rewrite app_nil_r|by apply captured_none]. }
  assert (live_payload w (total w sp (frames acc ⊎ Y)) src size) as Lp'.
  { intros a Ha. destruct (Lp a Ha) as (f & Ff & Hf & D). exists f. split; [exact Ff|]. split; [exact Hf|].
    destruct D as [D|D]; [left|by right]. exact (sub_mid _ _ _ _ D). }
  destruct (page_from_kernel_ok w sp src (i * VM_PAGE_SIZE) size _ O I ltac:(unfold VM_PAGE_SIZE in *; lia) Lp')
    as (pa & w2 & E & D). rewrite E, bind_Done.
  destruct D as [[-> ->]|(w1 & m' & Fl & Pb)].
  { change (PA_INVALID =? PA_INVALID) with true. destruct (release_abandons w sp acc Y O I) as (w' & E' & Ab).
    rewrite E', bind_Done. exists [], w'. split; [reflexivity|]. by right. }
  rewrite (fl_valid _ _ _ _ _ _ _ _ _ Fl).
  pose proof (filled_bump _ _ _ _ _ _ _ _ _ vm_n_payload_copied Fl) as I2.
  assert ({[+ pa +]} ⊎ (frames acc ⊎ Y) = frames (pa :: acc) ⊎ Y) as Ef
    by (by rewrite frames_cons, gmultiset_disj_union_assoc).
  destruct (IH (bump w2 vm_n_payload_copied) (i + 1) (pa :: acc)) as (pas & w' & E' & D).
  - by rewrite <- Ef.
  - lia.
  - lia.
  - destruct (live_payload_kept _ _ _ _ _ (total w sp Y) src size (fl_civil _ _ _ _ _ _ _ _ _ Fl)) as [Lp2 _];
      [apply gmultiset_disj_union_mono; [reflexivity|apply sub_r]|exact Lp|].
    assert (total (bump w2 vm_n_payload_copied) sp Y = total w sp Y) as ->
      by (unfold total; change (vw_mem (bump w2 vm_n_payload_copied)) with (vw_mem w2); by rewrite (fl_frames _ _ _ _ _ _ _ _ _ Fl)).
    exact Lp2.
  - exists pas, w'. split; [exact E'|]. destruct D as [(new & -> & Cp)|[-> Ab]]; [left|right].
    + exists (pa :: new). split; [cbn [rev]; by rewrite <- app_assoc|]. apply captured_bump in Cp. rewrite <- Ef in Cp.
      exact (captured_cons w w1 w2 w' sp src size i n pa m' new _ O Fl Hi Lp' Pb Cp).
    + split; [reflexivity|]. apply abandoned_bump in Ab. exact (abandoned_before w w1 w2 w' sp pa m' acc Y O Fl Ab).
Qed.

Lemma payload_pages_spec size : 0 < size < 2 ^ 62 ->
  0 < payload_pages size < 2 ^ 50 + 1 /\ (payload_pages size - 1) * VM_PAGE_SIZE < size <= payload_pages size * VM_PAGE_SIZE.
Proof.
  intros Hs. destruct (align_up_spec size) as [A B]; [unfold VM_PAGE_MASK, VM_PAGE_SIZE; lia|].
  unfold payload_pages. rewrite Z.shiftr_div_pow2 by lia. change (2 ^ 12) with 4096.
  unfold aligned, VM_PAGE_SIZE in *. Z.div_mod_to_equations. lia.
Qed.

Lemma vm_pages_capture_kernel_ok (w : vmw F) (sp : space P) src size max_pages Y O :
  vm_inv no_ex w sp Y O -> 0 <= size < 2 ^ 62 -> live_payload w (total w sp Y) src size ->
  exists pas w', vm_pages_capture_kernel w sp src size max_pages = Done (pas, w') /\
    (captured w sp src size 0 (Z.to_nat (payload_pages size)) pas Y O w' /\ 0 < size \/
     pas = [] /\ abandoned w sp Y Y O w').
Proof.
  intros I Hs Lp. unfold vm_pages_capture_kernel.
  assert (abandoned w sp Y Y O w) as Ab by (split; [exact I|by apply civil_refl|done|done]).
  destruct ((src =? 0) || (size =? 0)) eqn:E0; [exists [], w; split; [reflexivity|by right]|].
  destruct (max_pages <? payload_pages size); [exists [], w; split; [reflexivity|by right]|].
  pose proof (payload_pages_spec size ltac:(lia)) as Pp.
  destruct (capture_kernel_pages_ok (Z.to_nat (payload_pages size)) w sp src size 0 [] Y O) as (pas & w' & E & D);
    change (frames []) with (∅ : gmultiset Z) in *; rewrite ?gmultiset_disj_union_left_id in *; [exact I|lia| |exact Lp|].
  { left. rewrite Z2Nat.id by lia. exact (proj1 (proj2 Pp)). }
  exists pas, w'. split; [exact E|]. destruct D as [(new & -> & Cp)|D]; [left|by right].
  split; [exact Cp|lia].
Qed.

(** What [sp] reads at [a], a page fault aside. *)
Definition reads_at (m : mem) (sp : space P) (a : Z) : option Z :=
  page_view m sp (VM_ALIGN_DOWN a) (a - VM_ALIGN_DOWN a).

Lemma align_down_page va k b : aligned va -> 0 <= b < VM_PAGE_SIZE ->
  VM_ALIGN_DOWN (va + k * VM_PAGE_SIZE + b) = va + k * VM_PAGE_SIZE.
Proof.
  unfold VM_ALIGN_DOWN, aligned, VM_PAGE_SIZE. change VM_PAGE_MASK with (2 ^ 12 - 1). intros A B.
  rewrite ldiff_ones_sub by lia. change (2 ^ 12) with 4096. Z.div_mod_to_equations. lia.
Qed.

(** A delivered payload reads as its frames did. *)
Lemma delivered_reads (w w' : vmw F) (sp sp' : space P) pas Y O va j pa b :
  delivered w sp pas Y O (Some va) sp' w' -> vm_inv no_ex w sp (frames pas ⊎ Y) O ->
  pas !! j = Some pa -> 0 <= b < PAGE_SIZE ->
  reads_at (vw_mem w') sp' (va + Z.of_nat j * VM_PAGE_SIZE + b) = Some (ld8 (vw_mem w) (pa + b)) /\
  exists lf, pm_leaf (vw_mem w') (sp_pm sp') (va + Z.of_nat j * VM_PAGE_SIZE) = Some lf /\ lf_write lf = false.
Proof.
  intros [I' C Can Bk L] I Ej Hb. specialize (Can va eq_refl). pose proof (lookup_lt_Some _ _ _ Ej) as Lj.
  pose proof (span_upage _ _ _ _ _ va _ j I Can Lj) as Hv. destruct Can as (_ & A & _).
  unfold reads_at. rewrite align_down_page; [|exact A|exact Hb].
  replace (va + Z.of_nat j * VM_PAGE_SIZE + b - (va + Z.of_nat j * VM_PAGE_SIZE)) with b by lia.
  specialize (L _ Hv). cbn [landing_leaf] in L. rewrite laid_page, Ej in L. split; [|eexists; split; [exact L|reflexivity]].
  rewrite (view_of w' sp' _ _ b L). cbn [leaf_for lf_pa]. f_equal.
  assert (same_page (vw_mem w) (vw_mem w') pa) as Sp; [|apply Sp; lia].
  apply (po_mem _ _ _ _ _ _ _ C). apply gmultiset_elem_of_disj_union. right. apply gmultiset_elem_of_disj_union. left.
  apply elem_frames. by apply (list_elem_of_lookup_2 _ j).
Qed.

(** Pages the payload did not land on read as before. *)
Lemma delivered_view (w w' : vmw F) (sp sp' : space P) pas Y O r v i :
  delivered w sp pas Y O r sp' w' -> vm_inv no_ex w sp (frames pas ⊎ Y) O -> upage v -> 0 <= i < PAGE_SIZE ->
  page_view (vw_mem w) sp v i <> None -> page_view (vw_mem w') sp' v i = page_view (vw_mem w) sp v i.
Proof.
  intros [I' C Can Bk L] I Hv Hi Pv. apply (view_same no_ex w w' sp sp' _ O _ _ _ v i I C (sub_l _ _) Hv); [|exact Hi].
  rewrite (L v Hv). unfold landing_leaf. destruct r as [va|]; [|reflexivity].
  destruct (laid_at va pas v) as [pa|] eqn:La; [|reflexivity]. exfalso. apply Pv. unfold page_view.
  rewrite (unmapped _ _ _ _ _ v I Hv); [reflexivity|]. apply (Can va eq_refl).
  destruct (in_span v va (Z.of_nat (length pas) * VM_PAGE_SIZE)) eqn:Sp; [unfold in_span in Sp; lia|].
  apply laid_span in Sp. by rewrite Sp in La.
Qed.

(** Frames of an abandoned or captured payload, from the same starting point. *)
Lemma captured_start (w w' : vmw F) (sp : space P) src size n pas Y O :
  captured w sp src size 0 n pas Y O w' \/ pas = [] /\ abandoned w sp Y Y O w' ->
  vm_inv no_ex w' sp (frames pas ⊎ Y) O /\
  civil (total w sp Y) w (total w sp Y) w' (total w' sp (frames pas ⊎ Y)) /\
  (forall v, upage v -> pm_leaf (vw_mem w') (sp_pm sp) v = pm_leaf (vw_mem w) (sp_pm sp) v).
Proof.
  intros [[_ I C L _ _ _]|[-> [I C L _]]]; [done|]. change (frames []) with (∅ : gmultiset Z).
  by rewrite gmultiset_disj_union_left_id.
Qed.

Lemma captured_reads (w w1 w2 : vmw F) (sp sp2 : space P) src size n pas Y O va a :
  captured w sp src size 0 n pas Y O w1 -> delivered w1 sp pas Y O (Some va) sp2 w2 -> 0 <= a < Z.of_nat n * VM_PAGE_SIZE ->
  reads_at (vw_mem w2) sp2 (va + a) = Some (payload_byte (vw_mem w) src size a).
Proof.
  intros Cp Dv Ha. assert (exists j b, a = Z.of_nat j * VM_PAGE_SIZE + b /\ (j < n)%nat /\ 0 <= b < PAGE_SIZE) as (j & b & -> & Hj & Hb).
  { exists (Z.to_nat (a / VM_PAGE_SIZE)), (a mod VM_PAGE_SIZE). unfold VM_PAGE_SIZE, PAGE_SIZE in *. Z.div_mod_to_equations. lia. }
  rewrite <- (cp_length _ _ _ _ _ _ _ _ _ _ Cp) in Hj. destruct (lookup_lt_is_Some_2 pas j Hj) as [pa Ej].
  destruct (delivered_reads w1 w2 sp sp2 pas Y O va j pa b Dv (cp_inv _ _ _ _ _ _ _ _ _ _ Cp) Ej Hb) as [R _].
  rewrite Z.add_assoc, R. f_equal. exact (cp_bytes _ _ _ _ _ _ _ _ _ _ Cp j pa b Ej Hb).
Qed.

Lemma release_undelivered (w w2 : vmw F) (sp sp2 : space P) pas Y O :
  delivered w sp pas Y O None sp2 w2 ->
  exists w3, vm_pages_release w2 pas = Done w3 /\ vm_inv no_ex w3 sp2 Y O.
Proof.
  intros Dv. pose proof (dv_inv _ _ _ _ _ _ _ _ Dv) as I2. cbn [still_carried] in I2.
  rewrite <- (carried_held _ _ _ _ _ _ I2) in I2. destruct (pages_release_ok _ _ _ _ _ _ I2) as (s' & E & I3 & _).
  eexists. exact (conj E I3).
Qed.

(** * Properties *)

(** [C26] A payload sent by the kernel arrives.  [vm_pages_capture_kernel] and
    [vm_pages_install] never panic.  When the installation succeeds, the
    receiver reads at the landing address exactly the bytes at the source and
    zeroes up to the end of the last page, in a range that was free, and no
    frame is left in transit; when either fails, [vm_pages_release] gives back
    every frame and the receiver's space is as it was.  No byte the receiver
    could read before changes, and no other space changes. *)
Theorem payload_from_kernel (w : vmw F) (sp : space P) src size max_pages Y O :
  vm_inv no_ex w sp Y O -> 0 <= size < 2 ^ 61 -> live_payload w (total w sp Y) src size ->
  exists pas w1 r sp2 w2,
    vm_pages_capture_kernel w sp src size max_pages = Done (pas, w1) /\
    vm_pages_install w1 sp pas = Done (r, sp2, w2) /\
    match r with
    | Some va =>
        vm_inv no_ex w2 sp2 Y O /\ can_enter (sp_map sp) va (payload_pages size * VM_PAGE_SIZE) /\
        forall a, 0 <= a < payload_pages size * VM_PAGE_SIZE ->
          reads_at (vw_mem w2) sp2 (va + a) = Some (payload_byte (vw_mem w) src size a)
    | None =>
        (forall v, backing (sp_map sp2) v = backing (sp_map sp) v) /\
        exists w3, vm_pages_release w2 pas = Done w3 /\ vm_inv no_ex w3 sp2 Y O
    end /\
    (forall v i, upage v -> 0 <= i < PAGE_SIZE -> page_view (vw_mem w) sp v i <> None ->
       page_view (vw_mem w2) sp2 v i = page_view (vw_mem w) sp v i) /\
    (forall sp3, space_ok no_ex (vw_pmm w) (vw_mem w) (total w sp Y) sp3 -> space_frames (vw_mem w) sp3 ⊆ Y ->
       untouched w (total w sp Y) w2 (total w2 sp2 (still_carried r pas Y)) sp3).
Proof.
  intros I Hs Lp. destruct (vm_pages_capture_kernel_ok w sp src size max_pages Y O I ltac:(lia) Lp) as (pas & w1 & E1 & D).
  destruct (captured_start w w1 sp src size (Z.to_nat (payload_pages size)) pas Y O ltac:(tauto)) as (I1 & C1 & L1).
  assert (Z.of_nat (length pas) < 2 ^ 50) as Hn.
  { destruct D as [[Cp Hp]|[-> _]]; [|done]. pose proof (payload_pages_spec size ltac:(lia)) as Pp.
    rewrite (cp_length _ _ _ _ _ _ _ _ _ _ Cp). unfold VM_PAGE_SIZE in Pp. lia. }
  destruct (vm_pages_install_ok w1 sp pas Y O I1 Hn) as (r & sp2 & w2 & E2 & Dv).
  exists pas, w1, r, sp2, w2. split; [exact E1|]. split; [exact E2|].
  assert (civil Y w (total w sp Y) w2 (total w2 sp2 (still_carried r pas Y))) as C2.
  { eapply civil_trans; [exact (civil_weaken _ _ _ _ _ _ (sub_r _ _) C1)|].
    refine (civil_weaken _ _ _ _ _ _ _ (dv_civil _ _ _ _ _ _ _ _ Dv)). apply sub_rr. }
  split; [|split].
  - destruct r as [va|].
    + split; [exact (dv_inv _ _ _ _ _ _ _ _ Dv)|]. destruct D as [[Cp Hp]|[-> _]]; [|done].
      pose proof (payload_pages_spec size ltac:(lia)) as Pp.
      pose proof (dv_can _ _ _ _ _ _ _ _ Dv va eq_refl) as Can. rewrite (cp_length _ _ _ _ _ _ _ _ _ _ Cp), Z2Nat.id in Can by lia.
      split; [exact Can|]. intros a Ha.
      apply (captured_reads w w1 w2 sp sp2 src size _ pas Y O va a Cp Dv). rewrite Z2Nat.id by lia. exact Ha.
    + split; [exact (dv_backing _ _ _ _ _ _ _ _ Dv)|]. exact (release_undelivered _ _ _ _ _ _ _ Dv).
  - intros v i Hv Hi Pv. assert (page_view (vw_mem w1) sp v i = page_view (vw_mem w) sp v i) as E.
    { apply (view_same no_ex w w1 sp sp Y O _ _ _ v i I C1 (own_sub_total _ _ _) Hv); [by rewrite (L1 v Hv)|exact Hi]. }
    rewrite <- E in Pv |- *. exact (delivered_view w1 w2 sp sp2 pas Y O r v i Dv I1 Hv Hi Pv).
  - intros sp3. exact (civil_untouched Y _ _ _ _ sp3 C2).
Qed.

End Payload.

(** Five thousand bytes, here of the space's own tables, into the small machine. *)
Lemma demo_live : live_payload demo_vw (total demo_vw demo_space ∅) 16384 5000.
Proof.
  intros a Ha. exists (if a <? 20480 then 16384 else 20480). unfold total. rewrite demo_frames.
  split; [by destruct (a <? 20480)|]. split; [unfold in_page, PAGE_SIZE; destruct (a <? 20480) eqn:E; lia|].
  left. apply gmultiset_elem_of_disj_union. left. apply elem_frames.
  destruct (a <? 20480); [left|right; left].
Qed.

Lemma payload_from_kernel_witness :
  exists pas w1 r sp2 w2, vm_pages_capture_kernel demo_vw demo_space 16384 5000 2 = Done (pas, w1) /\
    vm_pages_install w1 demo_space pas = Done (r, sp2, w2) /\
    match r with Some va => vm_inv no_ex w2 sp2 ∅ ∅ | None => exists w3, vm_pages_release w2 pas = Done w3 end.
Proof.
  destruct (payload_from_kernel demo_vw demo_space 16384 5000 2 ∅ ∅ demo_vm_inv ltac:(lia) demo_live)
    as (pas & w1 & r & sp2 & w2 & E1 & E2 & D & _).
  exists pas, w1, r, sp2, w2. split; [exact E1|]. split; [exact E2|].
  destruct r as [va|]; [exact (proj1 D)|]. destruct D as (_ & w3 & E3 & _). by exists w3.
Defined.
