(* ===== verification/VmCapture.v ===== *)
(** Payloads a task sends, [vm_pages_capture_user] of [vm/vm.c]: whole pages
    are shared and write-protected in the sender, the rest is copied through
    the sender's mapping with page faults taken from kernel mode. *)

From stdpp Require Import base list numbers strings gmap gmultiset.
From Stdlib Require Import ZArith Lia ZifyBool.
From S2P Require Import Prelude Pmm Phys VmObject VmMap Pmap Vm VmInv VmStep VmDemo VmFault VmRelease VmFork VmPayload.

Section Capture.
Context {P : Type} `{PmapSpec P} {F : Type} `{FsOps F}.

Abbreviation own w sp := (leaf_frames (own_of (vw_mem w) sp)).
Abbreviation names sp := (entry_names (vm_head (sp_map sp))).

(** ** A byte through the sender's mapping *)

(** What reading the sender's memory may change: pages that were not there
    appear. *)
Record looked (w : vmw F) (sp : space P) (Y O : gmultiset Z) (pm' : P) (w' : vmw F) : Prop := {
  lk_inv : vm_inv no_ex w' (mkSpace (sp_map sp) pm') Y O;
  lk_civil : civil Y w (total w sp Y) w' (total w' (mkSpace (sp_map sp) pm') Y);
  lk_view : forall v i, upage v -> 0 <= i < PAGE_SIZE -> page_view (vw_mem w) sp v i <> None ->
    page_view (vw_mem w') (mkSpace (sp_map sp) pm') v i = page_view (vw_mem w) sp v i;
}.

Lemma looked_here (w : vmw F) (sp : space P) Y O : vm_inv no_ex w sp Y O -> looked w sp Y O (sp_pm sp) w.
Proof. intros I. split; rewrite space_eta; [exact I|by apply civil_refl|done]. Qed.

Lemma looked_trans (w w1 w2 : vmw F) (sp : space P) Y O pm1 pm2 :
  looked w sp Y O pm1 w1 -> looked w1 (mkSpace (sp_map sp) pm1) Y O pm2 w2 -> looked w sp Y O pm2 w2.
Proof.
  intros [I1 C1 V1] [I2 C2 V2]. cbn [sp_map] in *. split; [exact I2|eapply civil_trans; [exact C1|exact C2]|].
  intros v i Hv Hi Pv. rewrite <- (V1 v i Hv Hi Pv) in Pv |- *. exact (V2 v i Hv Hi Pv).
Qed.

Lemma view_in (w : vmw F) (sp : space P) v i : page_view (vw_mem w) sp v i <> None ->
  exists lf, pm_leaf (vw_mem w) (sp_pm sp) v = Some lf.
Proof. unfold page_view. destruct (pm_leaf _ _ _) as [lf|]; [by exists lf|done]. Qed.

(** A read fault served brings the page in. *)
Lemma fault_served (w w' : vmw F) (sp : space P) page Y O pm' :
  fault_ok w sp page false Y O VM_FAULT_OK pm' w' -> pm_leaf (vw_mem w) (sp_pm sp) page = None ->
  looked w sp Y O pm' w' /\ exists lf, pm_leaf (vw_mem w') pm' page = Some lf.
Proof.
  intros [I C L V R] El. split.
  - split; [exact I|exact C|]. intros v i Hv Hi Pv. apply V; [exact Hv| |exact Hi]. intros ->.
    destruct (view_in _ _ _ _ Pv) as [lf El']. by rewrite El in El'.
  - unfold fault_result, judge in R. rewrite El in R. destruct (find_entry _ _) as [e|]; [|by destruct R].
    destruct (prot_none _ || _); [by destruct R|]. destruct (has _ VME_F_LAZY); [|by destruct R].
    destruct R as [[[D|[D _]] _]|(_ & pa & bs & El' & _)]; [done|done|]. by exists (leaf_for pa (vme_prot e)).
Qed.

Lemma user_byte_ok (w : vmw F) (sp : space P) va Y O :
  vm_inv no_ex w sp Y O -> few_refs (names sp ⊎ O) -> upage (VM_ALIGN_DOWN va) ->
  (exists why, user_byte w sp va = Panic why /\ pm_leaf (vw_mem w) (sp_pm sp) (VM_ALIGN_DOWN va) = None) \/
  exists b pm' w', user_byte w sp va = Done (b, pm', w') /\ looked w sp Y O pm' w' /\
    reads_at (vw_mem w') (mkSpace (sp_map sp) pm') va = Some b.
Proof.
  intros I Few Hv. unfold user_byte, reads_at. set (page := VM_ALIGN_DOWN va) in *.
  rewrite (extract_leaf _ _ _ _ _ _ I Hv). destruct (pm_leaf (vw_mem w) (sp_pm sp) page) as [lf|] eqn:El.
  { rewrite (leaf_valid _ _ _ _ _ _ _ I Hv El). right. do 3 eexists. split; [reflexivity|].
    split; [by apply looked_here|]. rewrite space_eta. exact (view_of w sp page lf _ El). }
  change (PA_INVALID =? PA_INVALID) with true. cbn [negb].
  destruct (vm_fault_ok w sp va false 0 Y O I Few) as (rv & pm' & w' & E & Fo). fold page in Fo. rewrite E, bind_Done.
  destruct (rv =? VM_FAULT_OK) eqn:Er; [|left; eexists; split; [reflexivity|reflexivity]].
  apply Z.eqb_eq in Er as ->. destruct (fault_served w w' sp page Y O pm' Fo El) as [Lk [lf' El']].
  rewrite (KASSERT_true _ _ _ eq_refl). pose proof (lk_inv _ _ _ _ _ _ Lk) as I'.
  pose proof (extract_leaf _ _ _ _ _ _ I' Hv) as Ex. cbn [sp_pm] in Ex. rewrite Ex, El'.
  rewrite KASSERT_true; [|by rewrite (leaf_valid _ _ (mkSpace (sp_map sp) pm') _ _ _ _ I' Hv El')].
  right. do 3 eexists. split; [reflexivity|]. split; [exact Lk|]. exact (view_of w' (mkSpace (sp_map sp) pm') page lf' _ El').
Qed.

(** ** Copying a page's bytes *)

(** [n] bytes from [src] on copied to [dst] on, inside the frame [pa] only the
    caller has. *)
Record copied (w : vmw F) (sp : space P) (pa dst src : Z) (n : nat) (Y O : gmultiset Z) (pm' : P) (w' : vmw F) : Prop := {
  cu_inv : vm_inv no_ex w' (mkSpace (sp_map sp) pm') ({[+ pa +]} ⊎ Y) O;
  cu_single : multiplicity pa (total w' (mkSpace (sp_map sp) pm') ({[+ pa +]} ⊎ Y)) = 1%nat;
  cu_civil : civil Y w (total w sp ({[+ pa +]} ⊎ Y)) w' (total w' (mkSpace (sp_map sp) pm') ({[+ pa +]} ⊎ Y));
  cu_view : forall v i, upage v -> 0 <= i < PAGE_SIZE -> page_view (vw_mem w) sp v i <> None ->
    page_view (vw_mem w') (mkSpace (sp_map sp) pm') v i = page_view (vw_mem w) sp v i;
  cu_bytes : forall k, 0 <= k < Z.of_nat n ->
    reads_at (vw_mem w') (mkSpace (sp_map sp) pm') (src + k) = Some (ld8 (vw_mem w') (dst + k));
  cu_page : forall a, in_page pa a -> a < dst \/ dst + Z.of_nat n <= a -> ld8 (vw_mem w') a = ld8 (vw_mem w) a;
}.

Lemma align_down_bounds a : VM_ALIGN_DOWN a <= a < VM_ALIGN_DOWN a + VM_PAGE_SIZE.
Proof.
  unfold VM_ALIGN_DOWN, VM_PAGE_SIZE. change VM_PAGE_MASK with (2 ^ 12 - 1). rewrite ldiff_ones_sub by lia.
  change (2 ^ 12) with 4096. Z.div_mod_to_equations. lia.
Qed.

(** Every page of [n] bytes at [src] is in the user window. *)
Definition in_window (src : Z) (n : nat) : Prop := forall k, 0 <= k < Z.of_nat n -> upage (VM_ALIGN_DOWN (src + k)).

Lemma reads_kept (w w' : vmw F) (sp : space P) pm' a :
  (forall v i, upage v -> 0 <= i < PAGE_SIZE -> page_view (vw_mem w) sp v i <> None ->
    page_view (vw_mem w') (mkSpace (sp_map sp) pm') v i = page_view (vw_mem w) sp v i) ->
  upage (VM_ALIGN_DOWN a) -> reads_at (vw_mem w) sp a <> None ->
  reads_at (vw_mem w') (mkSpace (sp_map sp) pm') a = reads_at (vw_mem w) sp a.
Proof.
  intros V Hv Pv. apply V; [exact Hv| |exact Pv]. pose proof (align_down_bounds a). unfold PAGE_SIZE, VM_PAGE_SIZE in *. lia.
Qed.

Lemma reads_byte m (sp : space P) a b : reads_at m sp a = Some b -> w8 b = b.
Proof.
  unfold reads_at, page_view. destruct (pm_leaf _ _ _) as [lf|]; [|done]. intros [= <-].
  unfold ld8, w8. by rewrite Z.mod_mod.
Qed.

Lemma copy_one (w w1 : vmw F) (sp : space P) pa dst src b Y O pm1 :
  looked w sp ({[+ pa +]} ⊎ Y) O pm1 w1 -> multiplicity pa (total w sp ({[+ pa +]} ⊎ Y)) = 1%nat ->
  in_page pa dst -> upage (VM_ALIGN_DOWN src) -> reads_at (vw_mem w1) (mkSpace (sp_map sp) pm1) src = Some b ->
  copied w sp pa dst src 1 Y O pm1 (set_ph w1 (with_mem (vw_ph w1) (st8 (vw_mem w1) dst b))).
Proof.
  intros [I1 C1 V1] Sg Hd Hs Rd. set (sp1 := mkSpace (sp_map sp) pm1) in *. set (m' := st8 (vw_mem w1) dst b).
  assert (pa ∈ {[+ pa +]} ⊎ Y) as Hp by (apply gmultiset_elem_of_disj_union; left; by apply gmultiset_elem_of_singleton).
  pose proof (po_single _ _ _ _ _ _ _ C1 pa Hp Sg) as Sg1.
  assert (forall a, a <> dst -> ld8 m' a = ld8 (vw_mem w1) a) as Out.
  { intros a Ne. unfold m'. rewrite ld8_st8. by rewrite (proj2 (Z.eqb_neq a dst) Ne). }
  destruct (write_step no_ex w1 sp1 pa Y O m' I1 Sg1) as (I2 & T2 & Es & C2 & L2).
  { intros a Ha. apply Out. by intros ->. }
  set (w2 := set_ph w1 (with_mem (vw_ph w1) m')) in *.
  assert (forall v i, upage v -> 0 <= i < PAGE_SIZE -> page_view (vw_mem w2) sp1 v i = page_view (vw_mem w1) sp1 v i) as V2.
  { intros v i Hv Hi. apply (view_same no_ex w1 w2 sp1 sp1 _ O _ _ _ v i I1 C2); [|exact Hv|exact (f_equal (fmap lf_pa) (L2 v Hv))|exact Hi].
    unfold space_frames. rewrite <- gmultiset_disj_union_assoc. apply sub_rl. }
  split; [exact I2|exact (eq_trans (f_equal (multiplicity pa) T2) Sg1)| | | |].
  - eapply civil_trans; [exact (civil_weaken _ _ _ _ _ _ (sub_r _ _) C1)|exact (civil_weaken _ _ _ _ _ _ (sub_r _ _) C2)].
  - intros v i Hv Hi Pv. exact (eq_trans (V2 v i Hv Hi) (V1 v i Hv Hi Pv)).
  - intros k Hk. assert (k = 0) as -> by lia. rewrite !Z.add_0_r.
    transitivity (reads_at (vw_mem w1) sp1 src).
    + apply V2; [exact Hs|]. pose proof (align_down_bounds src). unfold PAGE_SIZE, VM_PAGE_SIZE in *. lia.
    + rewrite Rd. change (Some b = Some (ld8 (st8 (vw_mem w1) dst b) dst)). by rewrite ld8_st8, Z.eqb_refl, (reads_byte _ _ _ _ Rd).
  - intros a Ha D. change (ld8 m' a = ld8 (vw_mem w) a). rewrite Out by lia. apply (po_mem _ _ _ _ _ _ _ C1 pa Hp a). exact Ha.
Qed.

Lemma copied_none (w : vmw F) (sp : space P) pa dst src Y O :
  vm_inv no_ex w sp ({[+ pa +]} ⊎ Y) O -> multiplicity pa (total w sp ({[+ pa +]} ⊎ Y)) = 1%nat ->
  copied w sp pa dst src 0 Y O (sp_pm sp) w.
Proof. intros I Sg. split; rewrite ?space_eta; [exact I|exact Sg|by apply civil_refl|done|lia|done]. Qed.

Lemma copied_cons (w w1 w2 : vmw F) (sp : space P) pa dst src n Y O pm1 pm2 :
  copied w sp pa dst src 1 Y O pm1 w1 -> copied w1 (mkSpace (sp_map sp) pm1) pa (dst + 1) (src + 1) n Y O pm2 w2 ->
  in_page pa dst -> in_window src (S n) -> copied w sp pa dst src (S n) Y O pm2 w2.
Proof.
  intros [I1 S1 C1 V1 B1 P1] [I2 S2 C2 V2 B2 P2] Hd Wn. cbn [sp_map] in *.
  split; [exact I2|exact S2|eapply civil_trans; [exact C1|exact C2]| | |].
  - intros v i Hv Hi Pv. rewrite <- (V1 v i Hv Hi Pv) in Pv |- *. exact (V2 v i Hv Hi Pv).
  - intros k Hk. destruct (decide (k = 0)) as [->|N].
    + specialize (B1 0 ltac:(lia)). pose proof (Wn 0 ltac:(lia)) as Hv. rewrite !Z.add_0_r in *.
      rewrite (P2 dst Hd) by lia. rewrite <- B1. apply (reads_kept w1 w2 (mkSpace (sp_map sp) pm1)); [exact V2|exact Hv|by rewrite B1].
    + specialize (B2 (k - 1) ltac:(lia)). replace (src + 1 + (k - 1)) with (src + k) in B2 by lia.
      by replace (dst + 1 + (k - 1)) with (dst + k) in B2 by lia.
  - intros a Ha D. rewrite (P2 a Ha) by lia. apply P1; [exact Ha|lia].
Qed.

Lemma copy_user_ok n (w : vmw F) (sp : space P) pa dst src Y O :
  vm_inv no_ex w sp ({[+ pa +]} ⊎ Y) O -> multiplicity pa (total w sp ({[+ pa +]} ⊎ Y)) = 1%nat ->
  few_refs (names sp ⊎ O) -> pa <= dst -> dst + Z.of_nat n <= pa + PAGE_SIZE -> in_window src n ->
  (exists why k, copy_user n w (sp_map sp) (sp_pm sp) dst src = Panic why /\ 0 <= k < Z.of_nat n /\
     reads_at (vw_mem w) sp (src + k) = None) \/
  exists pm' w', copy_user n w (sp_map sp) (sp_pm sp) dst src = Done (pm', w') /\ copied w sp pa dst src n Y O pm' w'.
Proof.
  revert w sp dst src. induction n as [|n IH]; intros w sp dst src I Sg Few Lo Hi Wn; cbn [copy_user].
  { right. do 2 eexists. split; [reflexivity|by apply copied_none]. }
  assert (upage (VM_ALIGN_DOWN src)) as Hv by (rewrite <- (Z.add_0_r src); apply Wn; lia).
  rewrite space_eta. destruct (user_byte_ok w sp src _ O I Few Hv) as [(why & E & El)|(b & pm1 & w1 & E & Lk & Rd)].
  { left. exists why, 0. rewrite E. split; [reflexivity|]. split; [lia|]. rewrite Z.add_0_r. unfold reads_at, page_view.
    by rewrite El. }
  rewrite E, bind_Done. assert (in_page pa dst) as Hd by (unfold in_page; lia).
  pose proof (copy_one w w1 sp pa dst src b Y O pm1 Lk Sg Hd Hv Rd) as C1.
  destruct (IH _ (mkSpace (sp_map sp) pm1) (dst + 1) (src + 1) (cu_inv _ _ _ _ _ _ _ _ _ _ C1) (cu_single _ _ _ _ _ _ _ _ _ _ C1) Few)
    as [(why & k & E2 & Hk & Nr)|(pm2 & w2 & E2 & C2)]; [lia|lia| |left|right].
  - intros k Hk. replace (src + 1 + k) with (src + (k + 1)) by lia. apply Wn. lia.
  - exists why, (k + 1). split; [exact E2|]. split; [lia|]. replace (src + (k + 1)) with (src + 1 + k) by lia.
    destruct (reads_at (vw_mem w) sp (src + 1 + k)) as [c|] eqn:R; [|reflexivity]. exfalso.
    rewrite (reads_kept w _ sp pm1 _ (cu_view _ _ _ _ _ _ _ _ _ _ C1)) in Nr; [by rewrite R in Nr| |by rewrite R].
    replace (src + 1 + k) with (src + (k + 1)) by lia. apply Wn. lia.
  - exists pm2, w2. split; [exact E2|]. exact (copied_cons _ _ _ _ _ _ _ _ _ _ _ _ C1 C2 Hd Wn).
Qed.

(** ** A slot of the payload *)

(** The frame [pa] holds page [i] of the payload as the sender reads it now,
    and zeroes beyond its size. *)
Definition slot_ok (w : vmw F) (sp : space P) (addr size i pa : Z) : Prop :=
  forall b, 0 <= b < PAGE_SIZE ->
    if i * VM_PAGE_SIZE + b <? size
    then reads_at (vw_mem w) sp (addr + (i * VM_PAGE_SIZE + b)) = Some (ld8 (vw_mem w) (pa + b))
    else ld8 (vw_mem w) (pa + b) = 0.

Record taken (w : vmw F) (sp : space P) (pa : Z) (Y O : gmultiset Z) (pm' : P) (w' : vmw F) : Prop := {
  tk_valid : (pa =? PA_INVALID) = false;
  tk_inv : vm_inv no_ex w' (mkSpace (sp_map sp) pm') ({[+ pa +]} ⊎ Y) O;
  tk_civil : civil Y w (total w sp Y) w' (total w' (mkSpace (sp_map sp) pm') ({[+ pa +]} ⊎ Y));
  tk_view : forall v i, upage v -> 0 <= i < PAGE_SIZE -> page_view (vw_mem w) sp v i <> None ->
    page_view (vw_mem w') (mkSpace (sp_map sp) pm') v i = page_view (vw_mem w) sp v i;
}.

(** The rest of the page, zeroed. *)
Lemma copied_rest (w w1 : vmw F) (sp : space P) pa src n Y O pm1 :
  copied w sp pa pa src n Y O pm1 w1 -> in_window src n -> Z.of_nat n <= PAGE_SIZE ->
  let w2 := set_ph w1 (with_mem (vw_ph w1) (zero_bytes (Z.to_nat (VM_PAGE_SIZE - Z.of_nat n)) (vw_mem w1) (pa + Z.of_nat n))) in
  vm_inv no_ex w2 (mkSpace (sp_map sp) pm1) ({[+ pa +]} ⊎ Y) O /\
  civil Y w (total w sp ({[+ pa +]} ⊎ Y)) w2 (total w2 (mkSpace (sp_map sp) pm1) ({[+ pa +]} ⊎ Y)) /\
  (forall v i, upage v -> 0 <= i < PAGE_SIZE -> page_view (vw_mem w) sp v i <> None ->
    page_view (vw_mem w2) (mkSpace (sp_map sp) pm1) v i = page_view (vw_mem w) sp v i) /\
  (forall b, 0 <= b < PAGE_SIZE ->
     if b <? Z.of_nat n then reads_at (vw_mem w2) (mkSpace (sp_map sp) pm1) (src + b) = Some (ld8 (vw_mem w2) (pa + b))
     else ld8 (vw_mem w2) (pa + b) = 0).
Proof.
  intros [I1 S1 C1 V1 B1 P1] Wn Hn. cbv zeta. set (m' := zero_bytes _ _ _). set (sp1 := mkSpace (sp_map sp) pm1) in *.
  assert (forall a, ld8 m' a = if (pa + Z.of_nat n <=? a) && (a <? pa + PAGE_SIZE) then 0 else ld8 (vw_mem w1) a) as Em.
  { intros a. unfold m'. rewrite ld8_zero_bytes. unfold PAGE_SIZE, VM_PAGE_SIZE in *. rewrite Z2Nat.id by lia.
    by replace (pa + Z.of_nat n + (4096 - Z.of_nat n)) with (pa + 4096) by lia. }
  destruct (write_step no_ex w1 sp1 pa Y O m' I1 S1) as (I2 & _ & _ & C2 & L2).
  { intros a Ha. rewrite Em. destruct (_ && _) eqn:E; [|reflexivity]. exfalso. apply Ha. unfold in_page. lia. }
  set (w2 := set_ph w1 (with_mem (vw_ph w1) m')) in *.
  assert (forall v i, upage v -> 0 <= i < PAGE_SIZE -> page_view (vw_mem w2) sp1 v i = page_view (vw_mem w1) sp1 v i) as V2.
  { intros v i Hv Hi. apply (view_same no_ex w1 w2 sp1 sp1 _ O _ _ _ v i I1 C2);
      [|exact Hv|exact (f_equal (fmap lf_pa) (L2 v Hv))|exact Hi].
    unfold space_frames. rewrite <- gmultiset_disj_union_assoc. apply sub_rl. }
  split; [exact I2|]. split; [eapply civil_trans; [exact C1|exact (civil_weaken _ _ _ _ _ _ (sub_r _ _) C2)]|]. split.
  - intros v i Hv Hi Pv. exact (eq_trans (V2 v i Hv Hi) (V1 v i Hv Hi Pv)).
  - intros b Hb. change (ld8 (vw_mem w2) (pa + b)) with (ld8 m' (pa + b)). rewrite Em.
    destruct (b <? Z.of_nat n) eqn:E, ((pa + Z.of_nat n <=? pa + b) && (pa + b <? pa + PAGE_SIZE)) eqn:E'; try lia.
    rewrite <- (B1 b) by lia. apply V2; [apply Wn; lia|]. pose proof (align_down_bounds (src + b)).
    unfold PAGE_SIZE, VM_PAGE_SIZE in *. lia.
Qed.

Lemma page_from_user_ok (w : vmw F) (sp : space P) addr i size Y O :
  vm_inv no_ex w sp Y O -> few_refs (names sp ⊎ O) -> 0 <= i * VM_PAGE_SIZE < size -> in_window addr (Z.to_nat size) ->
  (exists why a, page_from_bytes w sp addr (i * VM_PAGE_SIZE) size true = Panic why /\ 0 <= a < size /\
     reads_at (vw_mem w) sp (addr + a) = None) \/
  page_from_bytes w sp addr (i * VM_PAGE_SIZE) size true = Done (PA_INVALID, sp_pm sp, w) \/
  exists pa pm' w', page_from_bytes w sp addr (i * VM_PAGE_SIZE) size true = Done (pa, pm', w') /\
    taken w sp pa Y O pm' w' /\ slot_ok w' (mkSpace (sp_map sp) pm') addr size i pa.
Proof.
  intros I Few Ho Wn. set (off := i * VM_PAGE_SIZE) in *. pose proof (page_have_range off size Ho) as Hr.
  destruct (alloc_step _ w sp Y O I) as (pa & w1 & Ea & D). unfold page_from_bytes. rewrite Ea.
  destruct D as [[-> ->]|(s1 & -> & Fp & Np & Nx & Nr & I1 & C1 & M1)]; [right; left; reflexivity|].
  set (w1 := set_ph w (with_pmm (vw_ph w) s1)) in *. rewrite (proj2 (Z.eqb_neq _ _) Np).
  set (n := Z.to_nat (page_have off size)) in *. assert (Z.of_nat n = page_have off size) as En by (unfold n; lia).
  assert (in_window (addr + off) n) as Wn'.
  { intros k Hk. replace (addr + off + k) with (addr + (off + k)) by lia. apply Wn. lia. }
  destruct (copy_user_ok n w1 sp pa pa (addr + off) Y O I1 M1 Few) as [(why & k & E & Hk & Rd)|(pm1 & w2 & E & Cu)];
    [lia|unfold PAGE_SIZE, VM_PAGE_SIZE in *; lia|exact Wn'|left|right; right].
  - exists why, (off + k). rewrite E. split; [reflexivity|]. split; [lia|]. by rewrite Z.add_assoc.
  - rewrite E, bind_Done. rewrite <- En.
    destruct (copied_rest w1 w2 sp pa (addr + off) n Y O pm1 Cu Wn') as (I3 & C3 & V3 & B3); [unfold PAGE_SIZE, VM_PAGE_SIZE in *; lia|].
    do 3 eexists. split; [reflexivity|]. split.
    + split; [by apply Z.eqb_neq|exact I3| |exact V3].
      eapply civil_trans; [exact (civil_weaken _ _ _ _ _ _ (sub_r _ _) C1)|exact C3].
    + intros b Hb. specialize (B3 b Hb). fold off. rewrite Z.add_assoc.
      assert ((b <? Z.of_nat n) = (off + b <? size)) as Eb; [|by rewrite Eb in B3].
      rewrite En. unfold page_have, PAGE_SIZE, VM_PAGE_SIZE in *. destruct (4096 <? size - off) eqn:Eh; lia.
Qed.

(** ** The second pass *)

(** From owners [Yin] in transit to [Yout], leaving [R] alone. *)
Record passed (R Yin Yout O : gmultiset Z) (w : vmw F) (sp sp' : space P) (w' : vmw F) : Prop := {
  ps_inv : vm_inv no_ex w' sp' Yout O;
  ps_civil : civil R w (total w sp Yin) w' (total w' sp' Yout);
  ps_view : forall v i, upage v -> 0 <= i < PAGE_SIZE -> page_view (vw_mem w) sp v i <> None ->
    page_view (vw_mem w') sp' v i = page_view (vw_mem w) sp v i;
}.

Lemma passed_refl R Y O (w : vmw F) (sp : space P) : vm_inv no_ex w sp Y O -> passed R Y Y O w sp sp w.
Proof. intros I. split; [exact I|by apply civil_refl|done]. Qed.

Lemma passed_trans R Y1 Y2 Y3 O (w1 w2 w3 : vmw F) (sp1 sp2 sp3 : space P) :
  passed R Y1 Y2 O w1 sp1 sp2 w2 -> passed R Y2 Y3 O w2 sp2 sp3 w3 -> passed R Y1 Y3 O w1 sp1 sp3 w3.
Proof.
  intros [I1 C1 V1] [I2 C2 V2]. split; [exact I2|eapply civil_trans; [exact C1|exact C2]|].
  intros v i Hv Hi Pv. rewrite <- (V1 v i Hv Hi Pv) in Pv |- *. exact (V2 v i Hv Hi Pv).
Qed.

Lemma passed_weaken R R' Y1 Y2 O (w w' : vmw F) (sp sp' : space P) :
  R' ⊆ R -> passed R Y1 Y2 O w sp sp' w' -> passed R' Y1 Y2 O w sp sp' w'.
Proof. intros Sub [I C V]. split; [exact I|exact (civil_weaken _ _ _ _ _ _ Sub C)|exact V]. Qed.

Lemma taken_passed (w w' : vmw F) (sp : space P) pa Y O pm' k :
  taken w sp pa Y O pm' w' -> passed Y Y ({[+ pa +]} ⊎ Y) O w sp (mkSpace (sp_map sp) pm') (bump w' k).
Proof. intros [_ I C V]. split; [by apply (vm_inv_same _ w')|exact C|exact V]. Qed.

Lemma passed_reads R Y1 Y2 O (w w' : vmw F) (sp sp' : space P) a :
  passed R Y1 Y2 O w sp sp' w' -> upage (VM_ALIGN_DOWN a) -> reads_at (vw_mem w) sp a <> None ->
  reads_at (vw_mem w') sp' a = reads_at (vw_mem w) sp a.
Proof.
  intros Ps Hv Pv. apply (ps_view _ _ _ _ _ _ _ _ Ps); [exact Hv| |exact Pv].
  pose proof (align_down_bounds a). unfold PAGE_SIZE, VM_PAGE_SIZE in *. lia.
Qed.

Lemma slot_kept R Y1 Y2 O (w w' : vmw F) (sp sp' : space P) addr size i pa :
  passed R Y1 Y2 O w sp sp' w' -> pa ∈ R -> in_window addr (Z.to_nat size) -> 0 <= i ->
  slot_ok w sp addr size i pa -> slot_ok w' sp' addr size i pa.
Proof.
  intros Ps Hp Wn Hi Sl b Hb. specialize (Sl b Hb).
  assert (ld8 (vw_mem w') (pa + b) = ld8 (vw_mem w) (pa + b)) as ->.
  { apply (po_mem _ _ _ _ _ _ _ (ps_civil _ _ _ _ _ _ _ _ Ps) pa Hp). lia. }
  destruct (_ <? size) eqn:E; [|exact Sl]. rewrite <- Sl. apply (passed_reads _ _ _ _ _ _ _ _ _ Ps); [|by rewrite Sl].
  apply Wn. unfold VM_PAGE_SIZE in *. lia.
Qed.

(** Every filled slot of the payload is right. *)
Definition slots_ok (w : vmw F) (sp : space P) (addr size : Z) (l : list Z) : Prop :=
  forall j pa, l !! j = Some pa -> pa <> PA_INVALID -> slot_ok w sp addr size (Z.of_nat j) pa.

Lemma carried_elem pa l : pa ∈ l -> pa <> PA_INVALID -> pa ∈ carried l.
Proof. intros Hp N. apply elem_frames. by apply list_elem_of_filter. Qed.

Lemma carried_app l1 l2 : carried (l1 ++ l2) = carried l1 ⊎ carried l2.
Proof. unfold carried. by rewrite list.filter_app, frames_app. Qed.

Lemma slots_kept R Y1 Y2 O (w w' : vmw F) (sp sp' : space P) addr size l :
  passed R Y1 Y2 O w sp sp' w' -> carried l ⊆ R -> in_window addr (Z.to_nat size) ->
  slots_ok w sp addr size l -> slots_ok w' sp' addr size l.
Proof.
  intros Ps Sub Wn Sl j pa Ej N. apply (slot_kept _ _ _ _ _ _ _ _ _ _ _ _ Ps); [|exact Wn|lia|by apply Sl].
  apply (gmultiset_elem_of_subseteq (carried l)); [|exact Sub]. apply carried_elem; [|exact N]. by apply (list_elem_of_lookup_2 _ j).
Qed.

Lemma slots_fill (w : vmw F) (sp : space P) addr size l1 pa l2 :
  slots_ok w sp addr size (l1 ++ PA_INVALID :: l2) -> slot_ok w sp addr size (Z.of_nat (length l1)) pa ->
  slots_ok w sp addr size (l1 ++ pa :: l2).
Proof.
  intros Sl Sp j q Ej N. destruct (decide (j = length l1)) as [->|Nj].
  - rewrite list_lookup_middle in Ej by reflexivity. injection Ej as <-. exact Sp.
  - apply Sl; [|exact N]. apply lookup_app_Some in Ej as [Ej|[Hj Ej]]; [by apply lookup_app_l_Some|].
    rewrite lookup_app_r by exact Hj. destruct (j - length l1)%nat as [|k] eqn:Ek; [lia|exact Ej].
Qed.

Definition capture_result (w : vmw F) (sp sp' : space P) (w' : vmw F) (addr size : Z) (n : nat) (Yin Y O : gmultiset Z)
    (pas : list Z) : Prop :=
  passed Y Yin (frames pas ⊎ Y) O w sp sp' w' /\
  (pas = [] \/ length pas = n /\ forall j pa, pas !! j = Some pa -> slot_ok w' sp' addr size (Z.of_nat j) pa).

Lemma capture_result_before (w w1 w2 : vmw F) (sp sp1 sp2 : space P) addr size n Y1 Y2 Y O pas R :
  passed R Y1 Y2 O w sp sp1 w1 -> Y ⊆ R -> capture_result w1 sp1 sp2 w2 addr size n Y2 Y O pas ->
  capture_result w sp sp2 w2 addr size n Y1 Y O pas.
Proof. intros Ps Sub [Ps' D]. split; [|exact D]. exact (passed_trans _ _ _ _ _ _ _ _ _ _ _ (passed_weaken _ _ _ _ _ _ _ _ _ Sub Ps) Ps'). Qed.

Lemma capture_give_up (w : vmw F) (sp : space P) l addr size n Y O :
  vm_inv no_ex w sp (carried l ⊎ Y) O ->
  exists w', vm_pages_release w l = Done w' /\ capture_result w sp sp w' addr size n (carried l ⊎ Y) Y O [].
Proof.
  intros I. destruct (pages_release_ok _ _ _ _ _ _ I) as (s' & E & I' & C). eexists. split; [exact E|].
  change (frames []) with (∅ : gmultiset Z). split; [|by left]. change (frames []) with (∅ : gmultiset Z).
  rewrite gmultiset_disj_union_left_id. split; [exact I'|exact (civil_weaken _ _ _ _ _ _ (sub_r _ _) C)|done].
Qed.

(** A slot the second pass filled. *)
Lemma copy_filled (w w1 : vmw F) (sp : space P) addr size acc pa pas pm1 Y O :
  let all := rev acc ++ PA_INVALID :: pas in
  let w2 := bump w1 vm_n_payload_copied in
  taken w sp pa (carried all ⊎ Y) O pm1 w1 -> slot_ok w1 (mkSpace (sp_map sp) pm1) addr size (Z.of_nat (length acc)) pa ->
  in_window addr (Z.to_nat size) -> slots_ok w sp addr size all ->
  carried (rev (pa :: acc) ++ pas) ⊎ Y = {[+ pa +]} ⊎ (carried all ⊎ Y) /\
  passed (carried all ⊎ Y) (carried all ⊎ Y) ({[+ pa +]} ⊎ (carried all ⊎ Y)) O w sp (mkSpace (sp_map sp) pm1) w2 /\
  slots_ok w2 (mkSpace (sp_map sp) pm1) addr size (rev (pa :: acc) ++ pas).
Proof.
  intros all w2 Tk So Wn Sl. pose proof (taken_passed _ _ _ _ _ _ _ vm_n_payload_copied Tk) as Ps.
  assert (rev (pa :: acc) ++ pas = rev acc ++ pa :: pas) as Ea by (cbn [rev]; by rewrite <- app_assoc).
  split; [|split; [exact Ps|]]; rewrite Ea.
  - unfold all. rewrite !carried_app, !carried_cons, (tk_valid _ _ _ _ _ _ _ Tk).
    change (PA_INVALID =? PA_INVALID) with true. rewrite gmultiset_disj_union_left_id, union_swap.
    by rewrite <- !gmultiset_disj_union_assoc.
  - apply slots_fill; [|rewrite length_rev; exact So]. exact (slots_kept _ _ _ _ _ _ _ _ _ _ _ Ps (sub_l _ _) Wn Sl).
Qed.

Lemma capture_copy_ok pas (w : vmw F) (sp : space P) addr size acc Y O :
  let all := rev acc ++ pas in
  vm_inv no_ex w sp (carried all ⊎ Y) O -> few_refs (names sp ⊎ O) -> in_window addr (Z.to_nat size) ->
  (Z.of_nat (length all) - 1) * VM_PAGE_SIZE < size -> (forall pa, pa ∈ acc -> pa <> PA_INVALID) ->
  slots_ok w sp addr size all ->
  (exists why a, capture_copy w (sp_map sp) (sp_pm sp) addr size (Z.of_nat (length acc)) acc pas = Panic why /\
     0 <= a < size /\ reads_at (vw_mem w) sp (addr + a) = None) \/
  exists res pm' w', capture_copy w (sp_map sp) (sp_pm sp) addr size (Z.of_nat (length acc)) acc pas = Done (res, pm', w') /\
    capture_result w sp (mkSpace (sp_map sp) pm') w' addr size (length all) (carried all ⊎ Y) Y O res.
Proof.
  revert w sp acc. induction pas as [|pa pas IH]; intros w sp acc all I Few Wn Hn Va Sl; cbn [capture_copy].
  { right. exists (rev acc), (sp_pm sp), w. split; [reflexivity|]. rewrite space_eta. unfold all in *. rewrite app_nil_r in *.
    assert (forall pa, pa ∈ rev acc -> pa <> PA_INVALID) as Va'.
    { intros pa Hp. apply Va. by rewrite <- Permutation_rev in Hp. }
    split; [rewrite carried_all in * by exact Va'; by apply passed_refl|]. right. split; [reflexivity|].
    intros j pa Ej. apply Sl; [exact Ej|]. apply Va'. by apply (list_elem_of_lookup_2 _ j). }
  assert (forall q, Z.of_nat (length acc) + 1 = Z.of_nat (length (q :: acc))) as El by (cbn [length]; lia).
  assert (forall q, rev acc ++ q :: pas = rev (q :: acc) ++ pas) as Ea by (intros q; cbn [rev]; by rewrite <- app_assoc).
  destruct (pa =? PA_INVALID) eqn:Ei; cbn [negb]; cycle 1.
  { rewrite (El pa). unfold all in *. rewrite Ea in *. apply IH; try assumption.
    intros q [->|Hq]%elem_of_cons; [lia|by apply Va]. }
  apply Z.eqb_eq in Ei as ->.
  assert (0 <= Z.of_nat (length acc) * VM_PAGE_SIZE < size) as Ho.
  { unfold all in Hn. rewrite length_app, length_rev in Hn. cbn [length] in Hn. unfold VM_PAGE_SIZE in *. lia. }
  rewrite space_eta. destruct (page_from_user_ok w sp addr (Z.of_nat (length acc)) size _ O I Few Ho Wn)
    as [(why & a & E & Ha & Rd)|[E|(pa & pm1 & w1 & E & Tk & So)]]; rewrite E, ?bind_Done.
  { left. exists why, a. done. }
  { right. change (PA_INVALID =? PA_INVALID) with true.
    destruct (capture_give_up w sp all addr size (length all) Y O I) as (w' & E' & R). unfold all in E'. rewrite E', bind_Done.
    exists [], (sp_pm sp), w'. split; [reflexivity|]. by rewrite space_eta. }
  rewrite (tk_valid _ _ _ _ _ _ _ Tk).
  destruct (copy_filled w w1 sp addr size acc pa pas pm1 Y O Tk So Wn Sl) as (Ec & Ps & Sl1).
  destruct (IH (bump w1 vm_n_payload_copied) (mkSpace (sp_map sp) pm1) (pa :: acc)) as [(why & a & E2 & Ha & Rd)|(res & pm2 & w2 & E2 & R2)].
  - rewrite Ec. exact (ps_inv _ _ _ _ _ _ _ _ Ps).
  - exact Few.
  - exact Wn.
  - rewrite <- Ea. revert Hn. unfold all. rewrite !length_app. done.
  - intros q [->|Hq]%elem_of_cons; [|by apply Va]. apply Z.eqb_neq. exact (tk_valid _ _ _ _ _ _ _ Tk).
  - exact Sl1.
  - left. exists why, a. cbn [sp_map sp_pm] in E2. rewrite (El pa). split; [exact E2|]. split; [exact Ha|].
    destruct (reads_at (vw_mem w) sp (addr + a)) as [c|] eqn:R; [|reflexivity]. exfalso.
    rewrite (passed_reads _ _ _ _ _ _ _ _ _ Ps) in Rd; [by rewrite R in Rd|apply Wn; lia|by rewrite R].
  - right. exists res, pm2, w2. cbn [sp_map sp_pm] in E2. rewrite (El pa). split; [exact E2|]. rewrite Ec in R2.
    replace (length (rev (pa :: acc) ++ pas)) with (length all) in R2 by (rewrite <- Ea; unfold all; by rewrite !length_app).
    exact (capture_result_before _ _ _ _ _ _ _ _ _ _ _ _ _ _ _ Ps (sub_r _ _) R2).
Qed.

(** ** The first pass *)

(** Pages that may be shared: one anonymous range covers them, marked
    copy-on-write if it is writable. *)
Record sharable (sp : space P) (addr i : Z) (n : nat) (e : vm_map_entry) : Prop := {
  sb_page : forall k, 0 <= k < Z.of_nat n -> upage (addr + (i + k) * VM_PAGE_SIZE);
  sb_find : forall k, 0 <= k < Z.of_nat n -> find_entry (vm_head (sp_map sp)) (addr + (i + k) * VM_PAGE_SIZE) = Some e;
  sb_anon : has (vme_flags e) VME_F_ANON = true;
  sb_cow : has (vme_prot e) VM_PROT_WRITE = true -> has (vme_flags e) VME_F_COW = true;
}.

Lemma sharable_next (sp : space P) pm' addr i n e :
  sharable sp addr i (S n) e -> sharable (mkSpace (sp_map sp) pm') addr (i + 1) n e.
Proof.
  intros [S1 S2 S3 S4]. split; [..|exact S3|exact S4]; intros k Hk; replace (i + 1 + k) with (i + (k + 1)) by lia;
    [apply S1|apply S2]; lia.
Qed.

Lemma sharable_head (sp : space P) addr i n e : sharable sp addr i (S n) e ->
  upage (addr + i * VM_PAGE_SIZE) /\ find_entry (vm_head (sp_map sp)) (addr + i * VM_PAGE_SIZE) = Some e.
Proof.
  intros [S1 S2 _ _]. specialize (S1 0 ltac:(lia)). specialize (S2 0 ltac:(lia)). by rewrite Z.add_0_r in S1, S2.
Qed.

(** No frame under the space is within [n] owners of its count's width. *)
Definition few_sharers (w : vmw F) (sp : space P) (Y : gmultiset Z) (n : nat) : Prop :=
  forall f, f ∈ own w sp -> Z.of_nat (multiplicity f (total w sp Y)) + Z.of_nat n < 65536.

(** One page shared: its frame has one owner more and is read-only here. *)
Record claimed (w : vmw F) (sp : space P) (pa : Z) (Y O : gmultiset Z) (pm' : P) (w' : vmw F) : Prop := {
  cl_passed : passed Y Y ({[+ pa +]} ⊎ Y) O w sp (mkSpace (sp_map sp) pm') w';
  cl_pa : forall v, upage v -> lf_pa <$> pm_leaf (vw_mem w') pm' v = lf_pa <$> pm_leaf (vw_mem w) (sp_pm sp) v;
  cl_owners : forall f, f ∈ total w sp Y ->
    multiplicity f (total w' (mkSpace (sp_map sp) pm') ({[+ pa +]} ⊎ Y)) = multiplicity f ({[+ pa +]} ⊎ total w sp Y);
}.

Lemma claim_readonly (w : vmw F) (sp : space P) va e lf Y O s' :
  let w1 := set_ph w (with_pmm (vw_ph w) s') in
  vm_inv (fun v => no_ex v || (v =? va)) w1 sp ({[+ lf_pa lf +]} ⊎ Y) O ->
  civil Y w (total w sp Y) w1 (total w1 sp ({[+ lf_pa lf +]} ⊎ Y)) ->
  upage va -> find_entry (vm_head (sp_map sp)) va = Some e -> pm_leaf (vw_mem w) (sp_pm sp) va = Some lf ->
  has (vme_prot e) VM_PROT_WRITE = false -> claimed w sp (lf_pa lf) Y O (sp_pm sp) w1.
Proof.
  intros w1 I1 C1 Hv Fe El Np. assert (vm_inv no_ex w1 sp ({[+ lf_pa lf +]} ⊎ Y) O) as I2.
  { destruct I1 as [W S Ob]. split; [exact W| |exact Ob]. apply (space_ok_clear va _ _ _ _ S). intros lf' El' Hw.
    destruct (so_leaf _ _ _ _ _ S va lf' Hv El') as (e' & Fe' & L). rewrite Fe in Fe'. injection Fe' as <-.
    by rewrite (lw_prot _ _ _ _ _ L Hw) in Np. }
  split; [split; rewrite ?space_eta; [exact I2|exact C1|done]|done|]. intros f _. rewrite space_eta.
  f_equal. apply union_swap.
Qed.

Lemma claim_writable (w : vmw F) (sp : space P) va e lf prot Y O s' :
  let w1 := set_ph w (with_pmm (vw_ph w) s') in
  vm_inv (fun v => no_ex v || (v =? va)) w1 sp ({[+ lf_pa lf +]} ⊎ Y) O ->
  civil Y w (total w sp Y) w1 (total w1 sp ({[+ lf_pa lf +]} ⊎ Y)) ->
  upage va -> find_entry (vm_head (sp_map sp)) va = Some e -> pm_leaf (vw_mem w) (sp_pm sp) va = Some lf ->
  has prot VM_PROT_WRITE = false -> has (vme_flags e) VME_F_ANON = true -> has (vme_flags e) VME_F_COW = true ->
  exists pm' ph', enter w1 (sp_pm sp) va (lf_pa lf) prot = Done (true, pm', set_ph w1 ph') /\
    claimed w sp (lf_pa lf) Y O pm' (set_ph w1 ph').
Proof.
  intros w1 I1 C1 Hv Fe El Np An Cow.
  destruct (reenter_step _ w1 sp va prot _ _ e lf I1 El) as (pm' & ph' & E & I2 & C2 & L2 & M2).
  { split; [exact Hv|exact (pm_leaf_pa _ _ _ _ (so_pm _ _ _ _ _ (vi_space _ _ _ _ _ I1)) Hv El)|exact Fe|].
    split; cbn [leaf_for lf_write lf_pa]; rewrite ?Np; [discriminate|discriminate|rewrite An; discriminate|by intros _ _]. }
  exists pm', ph'. split; [exact E|]. cbv zeta in *. set (w2 := set_ph w1 ph') in *.
  apply (vm_inv_mono _ no_ex) in I2; [|intros v; cbn [no_ex orb]; by destruct (v =? va)].
  assert (forall v, upage v -> lf_pa <$> pm_leaf (vw_mem w2) pm' v = lf_pa <$> pm_leaf (vw_mem w) (sp_pm sp) v) as Pa.
  { intros v Hv'. rewrite (L2 v Hv'). destruct (v =? va) eqn:Ev; [|reflexivity]. apply Z.eqb_eq in Ev as ->. by rewrite El. }
  split; [split; [exact I2| |]|exact Pa|].
  - eapply civil_trans; [exact C1|]. refine (civil_weaken _ _ _ _ _ _ _ C2). apply sub_rr.
  - intros v i Hv' Hi _. apply (view_same _ w1 w2 sp (mkSpace (sp_map sp) pm') _ O _ _ _ v i I1 C2 (sub_l _ _) Hv' (Pa v Hv') Hi).
  - intros f Hf. rewrite (M2 f); [f_equal; apply union_swap|]. exact (sub_mid _ _ _ _ Hf).
Qed.

(** The slots of pages [i], [i + 1], ... after the first pass. *)
Record shared (w : vmw F) (sp : space P) (addr size i : Z) (n : nat) (pas : list Z) (cnt : Z) (Y O : gmultiset Z)
    (pm' : P) (w' : vmw F) : Prop := {
  sh_length : length pas = n;
  sh_passed : passed Y Y (carried pas ⊎ Y) O w sp (mkSpace (sp_map sp) pm') w';
  sh_pa : forall v, upage v -> lf_pa <$> pm_leaf (vw_mem w') pm' v = lf_pa <$> pm_leaf (vw_mem w) (sp_pm sp) v;
  sh_slot : forall j pa, pas !! j = Some pa -> pa <> PA_INVALID -> (i + Z.of_nat j + 1) * VM_PAGE_SIZE <= size /\
    lf_pa <$> pm_leaf (vw_mem w) (sp_pm sp) (addr + (i + Z.of_nat j) * VM_PAGE_SIZE) = Some pa;
  sh_count : 0 <= cnt /\ (cnt = 0 -> carried pas = ∅ /\ w' = w /\ pm' = sp_pm sp);
}.

Lemma carried_replicate n : carried (replicate n PA_INVALID) = ∅.
Proof.
  induction n as [|n IH]; [reflexivity|]. cbn [replicate]. rewrite carried_cons, IH.
  change (PA_INVALID =? PA_INVALID) with true. apply gmultiset_disj_union_left_id.
Qed.

Lemma shared_none (w : vmw F) (sp : space P) addr size i n Y O :
  vm_inv no_ex w sp Y O -> shared w sp addr size i n (replicate n PA_INVALID) 0 Y O (sp_pm sp) w.
Proof.
  intros I. split; rewrite ?carried_replicate, ?gmultiset_disj_union_left_id, ?space_eta.
  - apply length_replicate.
  - by apply passed_refl.
  - done.
  - intros j pa [-> _]%lookup_replicate N. done.
  - done.
Qed.

(** A page that was skipped. *)
Lemma shared_skip (w w' : vmw F) (sp : space P) addr size i n pas cnt Y O pm' :
  shared w sp addr size (i + 1) n pas cnt Y O pm' w' -> shared w sp addr size i (S n) (PA_INVALID :: pas) cnt Y O pm' w'.
Proof.
  intros [Ln Ps Pa Sl Ct]. assert (carried (PA_INVALID :: pas) = carried pas) as Ec.
  { rewrite carried_cons. change (PA_INVALID =? PA_INVALID) with true. apply gmultiset_disj_union_left_id. }
  split; rewrite ?Ec; [cbn [length]; by rewrite Ln|exact Ps|exact Pa| |exact Ct].
  intros [|j] pa Ej N; cbn in Ej; [injection Ej as <-; done|].
  replace (i + Z.of_nat (S j)) with (i + 1 + Z.of_nat j) by lia. by apply Sl.
Qed.

(** A page that was shared. *)
Lemma shared_cons (w w1 w' : vmw F) (sp : space P) addr size i n pa pas cnt Y O pm1 pm' :
  claimed w sp pa Y O pm1 w1 -> (pa =? PA_INVALID) = false -> (i + 1) * VM_PAGE_SIZE <= size -> upage (addr + i * VM_PAGE_SIZE) ->
  lf_pa <$> pm_leaf (vw_mem w) (sp_pm sp) (addr + i * VM_PAGE_SIZE) = Some pa ->
  (forall k, 0 <= k < Z.of_nat n -> upage (addr + (i + 1 + k) * VM_PAGE_SIZE)) ->
  shared w1 (mkSpace (sp_map sp) pm1) addr size (i + 1) n pas cnt ({[+ pa +]} ⊎ Y) O pm' w' ->
  shared w sp addr size i (S n) (pa :: pas) (cnt + 1) Y O pm' w'.
Proof.
  intros Cl Va Hs Hu El Up [Ln Ps Pa Sl Ct]. cbn [sp_map sp_pm] in *.
  assert (carried (pa :: pas) ⊎ Y = carried pas ⊎ ({[+ pa +]} ⊎ Y)) as Ec.
  { rewrite carried_cons, Va, <- gmultiset_disj_union_assoc. apply union_swap. }
  split.
  - cbn [length]. by rewrite Ln.
  - rewrite Ec. exact (passed_trans _ _ _ _ _ _ _ _ _ _ _ (cl_passed _ _ _ _ _ _ _ Cl) (passed_weaken _ _ _ _ _ _ _ _ _ (sub_r _ _) Ps)).
  - intros v Hv. rewrite (Pa v Hv). exact (cl_pa _ _ _ _ _ _ _ Cl v Hv).
  - intros [|j] q Ej N; cbn in Ej.
    + injection Ej as <-. by rewrite Z.add_0_r.
    + destruct (Sl j q Ej N) as [S1 S2]. replace (i + Z.of_nat (S j)) with (i + 1 + Z.of_nat j) by lia. split; [exact S1|].
      rewrite <- S2. symmetry. apply (cl_pa _ _ _ _ _ _ _ Cl). apply Up. apply lookup_lt_Some in Ej. lia.
  - lia.
Qed.

Lemma claimed_few (w w' : vmw F) (sp : space P) pa Y O pm' n :
  claimed w sp pa Y O pm' w' -> few_sharers w sp Y (S n) -> few_sharers w' (mkSpace (sp_map sp) pm') ({[+ pa +]} ⊎ Y) n.
Proof.
  intros Cl Few f Hf. assert (own w' (mkSpace (sp_map sp) pm') = own w sp) as Eo.
  { apply leaf_frames_ext. intros v Hv. unfold own_of. cbn [sp_map sp_pm]. by rewrite (cl_pa _ _ _ _ _ _ _ Cl v Hv). }
  rewrite Eo in Hf. specialize (Few f Hf). rewrite (cl_owners _ _ _ _ _ _ _ Cl f), mult_union.
  - assert (multiplicity f ({[+ pa +]} : gmultiset Z) <= 1)%nat; [|lia].
    destruct (decide (f = pa)) as [->|N]; [by rewrite mult_one|rewrite mult_other by exact N; lia].
  - exact (gmultiset_elem_of_subseteq _ _ _ Hf (own_sub_total _ _ _)).
Qed.

(** The frame referenced, and the page write-protected if it could be written. *)
Lemma claim_page (w : vmw F) (sp : space P) addr i n e lf Y O :
  vm_inv no_ex w sp Y O -> sharable sp addr i (S n) e -> few_sharers w sp Y (S n) ->
  pm_leaf (vw_mem w) (sp_pm sp) (addr + i * VM_PAGE_SIZE) = Some lf ->
  exists s1 pm1 w1, ref_frame w (lf_pa lf) = Done (set_ph w (with_pmm (vw_ph w) s1)) /\
    (if has (vme_prot e) VM_PROT_WRITE
     then enter (set_ph w (with_pmm (vw_ph w) s1)) (sp_pm sp) (addr + i * VM_PAGE_SIZE) (lf_pa lf) (Z.ldiff (vme_prot e) VM_PROT_WRITE)
     else Done (true, sp_pm sp, set_ph w (with_pmm (vw_ph w) s1))) = Done (true, pm1, w1) /\
    claimed w sp (lf_pa lf) Y O pm1 w1.
Proof.
  intros I Sb Few El. destruct (sharable_head _ _ _ _ _ Sb) as [Hv Fe]. set (va := addr + i * VM_PAGE_SIZE) in *.
  pose proof (own_of_Some _ _ _ _ _ Fe (sb_anon _ _ _ _ _ Sb) El) as Eo.
  assert (lf_pa lf ∈ own w sp) as Hin by (apply leaf_frames_in; by exists va).
  destruct (ref_step no_ex w sp va (lf_pa lf) Y O I Hv Eo) as (s1 & E1 & I1 & C1); [specialize (Few _ Hin); lia|].
  cbv zeta in I1, C1. exists s1. destruct (has (vme_prot e) VM_PROT_WRITE) eqn:Pw.
  - destruct (claim_writable w sp va e lf (Z.ldiff (vme_prot e) VM_PROT_WRITE) Y O s1 I1 C1 Hv Fe El) as (pm1 & ph1 & E2 & Cl);
      [pose proof (fork_prot_clear e) as Fp; unfold fork_prot in Fp; by rewrite Pw in Fp
      |exact (sb_anon _ _ _ _ _ Sb)|exact (sb_cow _ _ _ _ _ Sb Pw)|].
    exists pm1, (set_ph (set_ph w (with_pmm (vw_ph w) s1)) ph1). done.
  - do 2 eexists. split; [exact E1|]. split; [reflexivity|]. exact (claim_readonly w sp va e lf Y O s1 I1 C1 Hv Fe El Pw).
Qed.

Lemma share_pages_ok n (w : vmw F) (sp : space P) addr size i e Y O :
  vm_inv no_ex w sp Y O -> sharable sp addr i n e -> few_sharers w sp Y n ->
  exists pas cnt pm' w', share_pages n w (sp_pm sp) (vme_prot e) addr size i = Done (pas, cnt, pm', w') /\
    shared w sp addr size i n pas cnt Y O pm' w'.
Proof.
  revert w sp i Y. induction n as [|n IH]; intros w sp i Y I Sb Few; cbn [share_pages].
  { do 4 eexists. split; [reflexivity|]. by apply (shared_none w sp addr size i 0). }
  destruct (size <? (i + 1) * VM_PAGE_SIZE) eqn:Es.
  { do 4 eexists. split; [reflexivity|]. by apply shared_none. }
  destruct (sharable_head _ _ _ _ _ Sb) as [Hv Fe]. set (va := addr + i * VM_PAGE_SIZE) in *.
  rewrite (extract_leaf _ _ _ _ _ _ I Hv). destruct (pm_leaf (vw_mem w) (sp_pm sp) va) as [lf|] eqn:El; cycle 1.
  { change (PA_INVALID =? PA_INVALID) with true. destruct (IH w sp (i + 1) Y I) as (pas & cnt & pm' & w' & E & Sh).
    - pose proof (sharable_next _ (sp_pm sp) _ _ _ _ Sb) as Sb'. by rewrite space_eta in Sb'.
    - intros f Hf. specialize (Few f Hf). lia.
    - rewrite E, bind_Done. do 4 eexists. split; [reflexivity|]. by apply shared_skip. }
  rewrite (leaf_valid _ _ _ _ _ _ _ I Hv El).
  destruct (claim_page w sp addr i n e lf Y O I Sb Few El) as (s1 & pm1 & w1 & E1 & E2 & Cl). fold va in E2.
  rewrite E1, bind_Done.
  rewrite E2, bind_Done. cbn [negb].
  destruct (IH w1 (mkSpace (sp_map sp) pm1) (i + 1) _ (ps_inv _ _ _ _ _ _ _ _ (cl_passed _ _ _ _ _ _ _ Cl)) (sharable_next _ pm1 _ _ _ _ Sb)
              (claimed_few _ _ _ _ _ _ _ _ Cl Few)) as (pas & cnt & pm' & w' & E & Sh).
  cbn [sp_pm] in E. rewrite E, bind_Done. do 4 eexists. split; [reflexivity|].
  refine (shared_cons w w1 w' sp addr size i n (lf_pa lf) pas cnt Y O pm1 pm' Cl (leaf_valid _ _ _ _ _ _ _ I Hv El) _ Hv _ _ Sh).
  - lia.
  - fold va. by rewrite El.
  - exact (sb_page _ _ _ _ _ (sharable_next _ pm1 _ _ _ _ Sb)).
Qed.

(** The range marked copy-on-write. *)
Lemma mark_cow_ok (w : vmw F) (sp : space P) idx e Y O :
  vm_inv no_ex w sp Y O -> vm_head (sp_map sp) !! idx = Some e -> has (vme_prot e) VM_PROT_WRITE = true ->
  let sp' := mkSpace (mark_cow (sp_map sp) idx e) (sp_pm sp) in
  vm_inv no_ex w sp' Y O /\ space_frames (vw_mem w) sp' = space_frames (vw_mem w) sp /\ own w sp' = own w sp /\
  names sp' = names sp /\
  forall v, find_entry (vm_head (sp_map sp)) v = Some e ->
    find_entry (vm_head (sp_map sp')) v = Some (fork_entry_of e).
Proof.
  intros I Ei Pw. cbv zeta. unfold mark_cow.
  assert (with_flags e (Z.lor (vme_flags e) VME_F_COW) = fork_entry_of e) as -> by (unfold fork_entry_of, fork_flags; by rewrite Pw).
  rewrite (insert_take_drop (vm_head (sp_map sp)) idx (fork_entry_of e)) by (by apply lookup_lt_Some in Ei).
  pose proof (take_drop_middle _ _ _ Ei) as Eh. set (d := take idx _) in *. set (l := drop (S idx) _) in *. symmetry in Eh.
  destruct (vm_inv_flags w sp d e l Y O I Eh) as (I' & Es & Eo). cbn [sp_map with_entries vm_head] in *.
  split; [exact I'|]. split; [exact Es|]. split; [exact (leaf_frames_ext _ _ Eo)|]. split.
  - rewrite Eh. by apply entry_names_swap.
  - intros v Fe. apply (find_entry_in _ _ _ _ v (mo_chain _ (so_map _ _ _ _ _ (vi_space _ _ _ _ _ I')))).
    + apply elem_of_app. right. by left.
    + exact (proj2 (find_entry_Some _ _ _ Fe)).
Qed.

(** The slots, the sender's map and the counts after the first pass. *)
Record first_pass (w : vmw F) (sp : space P) (addr size : Z) (n : nat) (Y O : gmultiset Z)
    (pas : list Z) (sp' : space P) (w' : vmw F) : Prop := {
  fp_length : length pas = n;
  fp_passed : passed Y Y (carried pas ⊎ Y) O w sp sp' w';
  fp_slots : slots_ok w' sp' addr size pas;
  fp_names : names sp' = names sp;
}.

Lemma first_pass_none (w : vmw F) (sp : space P) addr size n Y O :
  vm_inv no_ex w sp Y O -> first_pass w sp addr size n Y O (replicate n PA_INVALID) sp w.
Proof.
  intros I. split; rewrite ?carried_replicate, ?gmultiset_disj_union_left_id;
    [apply length_replicate|by apply passed_refl| |reflexivity].
  intros j pa [-> _]%lookup_replicate N. done.
Qed.

(** A shared slot holds what the sender reads. *)
Lemma shared_slots (w w' : vmw F) (sp : space P) addr size n pas cnt e Y O pm' :
  shared w sp addr size 0 n pas cnt Y O pm' w' -> sharable sp addr 0 n e -> aligned addr ->
  slots_ok w' (mkSpace (sp_map sp) pm') addr size pas.
Proof.
  intros Sh Sb A j pa Ej N b Hb. destruct (sh_slot _ _ _ _ _ _ _ _ _ _ _ _ Sh j pa Ej N) as [Hs El].
  assert (0 <= Z.of_nat j < Z.of_nat n) as Hj
    by (apply lookup_lt_Some in Ej; rewrite (sh_length _ _ _ _ _ _ _ _ _ _ _ _ Sh) in Ej; lia).
  pose proof (sb_page _ _ _ _ _ Sb _ Hj) as Hv. rewrite Z.add_0_l in *.
  destruct (_ <? size) eqn:E; [|unfold PAGE_SIZE, VM_PAGE_SIZE in *; lia].
  rewrite <- (sh_pa _ _ _ _ _ _ _ _ _ _ _ _ Sh _ Hv) in El. unfold reads_at. rewrite Z.add_assoc, align_down_page; [|exact A|exact Hb].
  replace (addr + Z.of_nat j * VM_PAGE_SIZE + b - (addr + Z.of_nat j * VM_PAGE_SIZE)) with b by lia.
  unfold page_view. cbn [sp_pm]. rewrite El. reflexivity.
Qed.

Lemma passed_stat R Yin Yout O (w w' : vmw F) (sp sp' : space P) k v :
  passed R Yin Yout O w sp sp' w' -> passed R Yin Yout O w sp sp' (set_stat w' k v).
Proof. intros [I C V]. split; [by apply (vm_inv_same _ w')|exact C|exact V]. Qed.

Lemma slots_stat (w : vmw F) (sp : space P) addr size l k v :
  slots_ok w sp addr size l -> slots_ok (set_stat w k v) sp addr size l.
Proof. done. Qed.

(** The pages of a range, found from its first. *)
Lemma sharable_range (w : vmw F) (sp : space P) addr n e Y O :
  vm_inv no_ex w sp Y O -> aligned addr -> find_entry (vm_head (sp_map sp)) addr = Some e ->
  addr + Z.of_nat n * VM_PAGE_SIZE <= vme_end e -> has (vme_flags e) VME_F_ANON = true ->
  (has (vme_prot e) VM_PROT_WRITE = true -> has (vme_flags e) VME_F_COW = true) -> sharable sp addr 0 n e.
Proof.
  intros I A Fe He An Cw. destruct (find_entry_Some _ _ _ Fe) as [Hin Hr].
  assert (forall k, 0 <= k < Z.of_nat n -> find_entry (vm_head (sp_map sp)) (addr + (0 + k) * VM_PAGE_SIZE) = Some e) as Fk.
  { intros k Hk. apply (find_entry_in _ _ _ e _ (mo_chain _ (so_map _ _ _ _ _ (vi_space _ _ _ _ _ I))) Hin).
    unfold VM_PAGE_SIZE in *. lia. }
  split; [|exact Fk|exact An|exact Cw]. intros k Hk. apply (found_upage _ _ _ _ _ _ e I); [|by apply Fk].
  apply aligned_add; [exact A|]. apply Z.mod_mul. done.
Qed.

Lemma few_sharers_same (w : vmw F) (sp sp' : space P) Y n :
  own w sp' = own w sp -> space_frames (vw_mem w) sp' = space_frames (vw_mem w) sp ->
  few_sharers w sp Y n -> few_sharers w sp' Y n.
Proof. intros Eo Es Few f Hf. rewrite Eo in Hf. unfold total. rewrite Es. exact (Few f Hf). Qed.

(** A read-only range, shared as it is. *)
Lemma share_readonly (w : vmw F) (sp : space P) addr size n e Y O :
  vm_inv no_ex w sp Y O -> sharable sp addr 0 n e -> few_sharers w sp Y n -> aligned addr ->
  exists pas cnt pm' w', share_pages n w (sp_pm sp) (vme_prot e) addr size 0 = Done (pas, cnt, pm', w') /\
    first_pass w sp addr size n Y O pas (mkSpace (sp_map sp) pm') w'.
Proof.
  intros I Sb Few A. destruct (share_pages_ok n w sp addr size 0 e Y O I Sb Few) as (pas & cnt & pm' & w' & E & Sh).
  exists pas, cnt, pm', w'. split; [exact E|].
  split; [exact (sh_length _ _ _ _ _ _ _ _ _ _ _ _ Sh)|exact (sh_passed _ _ _ _ _ _ _ _ _ _ _ _ Sh)| |reflexivity].
  exact (shared_slots _ _ _ _ _ _ _ _ _ _ _ _ Sh Sb A).
Qed.

(** A writable range: marked copy-on-write exactly when a page was shared. *)
Lemma share_writable (w : vmw F) (sp : space P) addr size n idx e Y O :
  vm_inv no_ex w sp Y O -> vm_head (sp_map sp) !! idx = Some e -> find_entry (vm_head (sp_map sp)) addr = Some e ->
  has (vme_prot e) VM_PROT_WRITE = true -> has (vme_flags e) VME_F_ANON = true -> addr + Z.of_nat n * VM_PAGE_SIZE <= vme_end e ->
  few_sharers w sp Y n -> aligned addr ->
  exists pas cnt pm' w', share_pages n w (sp_pm sp) (vme_prot e) addr size 0 = Done (pas, cnt, pm', w') /\
    first_pass w sp addr size n Y O pas
      (mkSpace (if negb (cnt =? 0) then mark_cow (sp_map sp) idx e else sp_map sp) pm') w'.
Proof.
  intros I Ei Fe Pw An He Few A. destruct (mark_cow_ok w sp idx e Y O I Ei Pw) as (I1 & Es & Eo & En & Fi).
  set (sp1 := mkSpace (mark_cow (sp_map sp) idx e) (sp_pm sp)) in *.
  assert (sharable sp1 addr 0 n (fork_entry_of e)) as Sb.
  { apply (sharable_range w sp1 addr n (fork_entry_of e) Y O I1 A (Fi addr Fe) He).
    - cbn [fork_entry_of with_flags vme_flags]. by rewrite fork_flags_has.
    - intros _. cbn [fork_entry_of with_flags vme_flags]. unfold fork_flags. rewrite Pw, has_lor. by rewrite orb_true_r. }
  destruct (share_pages_ok n w sp1 addr size 0 _ Y O I1 Sb (few_sharers_same _ _ _ _ _ Eo Es Few)) as (pas & cnt & pm' & w' & E & Sh).
  exists pas, cnt, pm', w'. split; [exact E|].
  destruct (sh_count _ _ _ _ _ _ _ _ _ _ _ _ Sh) as [_ Zero]. destruct (cnt =? 0) eqn:Ec; cbn [negb].
  - destruct (Zero ltac:(lia)) as (Nc & -> & ->). cbn [sp1 sp_pm]. rewrite space_eta. pose proof (shared_slots _ _ _ _ _ _ _ _ _ _ _ _ Sh Sb A) as Sl.
    split; [exact (sh_length _ _ _ _ _ _ _ _ _ _ _ _ Sh)| |exact Sl|reflexivity].
    rewrite Nc, gmultiset_disj_union_left_id. by apply passed_refl.
  - split; [exact (sh_length _ _ _ _ _ _ _ _ _ _ _ _ Sh)| |exact (shared_slots _ _ _ _ _ _ _ _ _ _ _ _ Sh Sb A)|exact En].
    destruct (sh_passed _ _ _ _ _ _ _ _ _ _ _ _ Sh) as [I2 C2 V2]. split; [exact I2| |exact V2].
    unfold total in C2 at 1. rewrite Es in C2. exact C2.
Qed.

Lemma capture_share_ok (w : vmw F) (sp : space P) addr size n Y O :
  vm_inv no_ex w sp Y O -> few_sharers w sp Y n -> 0 <= addr -> addr + Z.of_nat n * VM_PAGE_SIZE < 2 ^ 64 ->
  exists pas sp' w', capture_share w sp addr size n = Done (pas, sp', w') /\ first_pass w sp addr size n Y O pas sp' w'.
Proof.
  intros I Few Ha Hn. pose proof (first_pass_none w sp addr size n Y O I) as None_. unfold capture_share.
  destruct (unaligned addr) eqn:A; [by eauto|]. apply unaligned_spec in A.
  destruct (vm_map_lookup (sp_map sp) addr) as [[idx e]|] eqn:Lk; [|by eauto].
  pose proof (lookup_entry _ _ _ _ _ _ _ _ I Lk) as Fe. destruct (lookup_from_pos _ _ _ _ _ Lk) as (_ & Ei & _).
  rewrite Nat.sub_0_r in Ei. rewrite w64_small by (unfold VM_PAGE_SIZE in *; lia).
  destruct (has (vme_flags e) VME_F_ANON && _) eqn:G; [|by eauto]. apply andb_true_iff in G as [An He].
  assert (exists pas cnt pm' w', share_pages n w (sp_pm sp) (vme_prot e) addr size 0 = Done (pas, cnt, pm', w') /\
    first_pass w sp addr size n Y O pas (mkSpace (if negb (cnt =? 0) && has (vme_prot e) VM_PROT_WRITE
      then mark_cow (sp_map sp) idx e else sp_map sp) pm') w') as (pas & cnt & pm' & w' & E & Fp).
  { destruct (has (vme_prot e) VM_PROT_WRITE) eqn:Pw.
    - destruct (share_writable w sp addr size n idx e Y O I Ei Fe Pw An ltac:(lia) Few A) as (pas & cnt & pm' & w' & E & Fp).
      exists pas, cnt, pm', w'. by rewrite andb_true_r.
    - destruct (share_readonly w sp addr size n e Y O I) as (pas & cnt & pm' & w' & E & Fp); [|exact Few|exact A|].
      + apply (sharable_range w sp addr n e Y O I A Fe); [lia|exact An|by rewrite Pw].
      + exists pas, cnt, pm', w'. by rewrite andb_false_r. }
  rewrite E, bind_Done. do 3 eexists. split; [reflexivity|]. destruct Fp as [F1 F2 F3 F4].
  split; [exact F1|by apply passed_stat|exact F3|exact F4].
Qed.

Lemma window_in ex (w : vmw F) (sp : space P) addr size Y O :
  vm_inv ex w sp Y O -> vm_lo (sp_map sp) <= addr -> addr + size <= vm_hi (sp_map sp) -> in_window addr (Z.to_nat size).
Proof.
  intros I Lo Hi k Hk. pose proof (so_window _ _ _ _ _ (vi_space _ _ _ _ _ I)) as Wn.
  split; [|apply align_down_aligned]. pose proof (align_down_bounds (addr + k)). pose proof (align_down_aligned (addr + k)) as A.
  revert A. unfold aligned, VM_PAGE_SIZE, VM_USER_VA_LO, VM_USER_VA_HI in *. intros A. Z.div_mod_to_equations. lia.
Qed.

(** What a capture from a task leaves, whatever its outcome. *)
Lemma vm_pages_capture_user_ok (w : vmw F) (sp : space P) addr size max_pages Y O :
  vm_inv no_ex w sp Y O -> few_refs (names sp ⊎ O) -> few_sharers w sp Y (Z.to_nat (payload_pages size)) ->
  0 <= size -> vm_lo (sp_map sp) <= addr -> addr + size <= vm_hi (sp_map sp) ->
  (exists why a, vm_pages_capture_user w sp addr size max_pages = Panic why /\ 0 <= a < size /\
     reads_at (vw_mem w) sp (addr + a) = None) \/
  exists pas sp' w', vm_pages_capture_user w sp addr size max_pages = Done (pas, sp', w') /\
    capture_result w sp sp' w' addr size (Z.to_nat (payload_pages size)) Y Y O pas.
Proof.
  intros I Few Fs Hs Lo Hi. pose proof (window_in _ _ _ _ _ _ _ I Lo Hi) as Wn.
  pose proof (so_map _ _ _ _ _ (vi_space _ _ _ _ _ I)) as M. pose proof (map_ok_bounds _ M) as Mb.
  pose proof (so_window _ _ _ _ _ (vi_space _ _ _ _ _ I)) as Vw. unfold VM_USER_VA_LO, VM_USER_VA_HI in Vw.
  assert (forall n, capture_result w sp sp w addr size n Y Y O []) as Nothing.
  { intros n. split; [|by left]. change (frames []) with (∅ : gmultiset Z). rewrite gmultiset_disj_union_left_id. by apply passed_refl. }
  unfold vm_pages_capture_user. destruct (size =? 0) eqn:Ez; [right; by eauto|].
  destruct (max_pages <? payload_pages size); [right; by eauto|].
  pose proof (payload_pages_spec size ltac:(lia)) as Pp. set (n := Z.to_nat (payload_pages size)) in *.
  assert (Z.of_nat n = payload_pages size) as En by (unfold n; lia).
  destruct (capture_share_ok w sp addr size n Y O I Fs) as (pas & sp1 & w1 & E & Fp); [lia|unfold VM_PAGE_SIZE in *; lia|].
  rewrite E, bind_Done. destruct Fp as [Ln Ps Sl Nm].
  destruct (capture_copy_ok pas w1 sp1 addr size [] Y O) as [(why & a & E2 & Ha & Rd)|(res & pm' & w' & E2 & R)]; cbn [rev app].
  - exact (ps_inv _ _ _ _ _ _ _ _ Ps).
  - by rewrite Nm.
  - exact Wn.
  - rewrite Ln, En. exact (proj1 (proj2 Pp)).
  - by intros pa Hp%not_elem_of_nil.
  - exact Sl.
  - left. exists why, a. change (Z.of_nat (length [])) with 0 in E2. rewrite E2. split; [reflexivity|]. split; [exact Ha|].
    destruct (reads_at (vw_mem w) sp (addr + a)) as [c|] eqn:Rc; [|reflexivity]. exfalso.
    rewrite (passed_reads _ _ _ _ _ _ _ _ _ Ps) in Rd; [by rewrite Rc in Rd|apply Wn; lia|by rewrite Rc].
  - right. change (Z.of_nat (length [])) with 0 in E2. rewrite E2, bind_Done. do 3 eexists. split; [reflexivity|].
    cbn [rev app] in R. rewrite Ln in R. exact (capture_result_before _ _ _ _ _ _ _ _ _ _ _ _ _ _ _ Ps ltac:(reflexivity) R).
Qed.

(** ** From one space to another *)

Abbreviation fr w sp := (space_frames (vw_mem w) sp).

Lemma pair_passed (w w1 : vmw F) (src src1 dst : space P) Yp Y O :
  pair_inv no_ex w src dst Y O ->
  passed (fr w dst ⊎ Y) (fr w dst ⊎ Y) (Yp ⊎ (fr w dst ⊎ Y)) (names dst ⊎ O) w src src1 w1 ->
  pair_inv no_ex w1 src1 dst (Yp ⊎ Y) O /\
  forall v i, upage v -> 0 <= i < PAGE_SIZE -> page_view (vw_mem w1) dst v i = page_view (vw_mem w) dst v i.
Proof.
  intros [I D] [I1 C1 _]. destruct (polite_other no_ex _ _ _ _ _ _ _ dst C1 D (sub_l _ _)) as (D1 & Ef & V).
  split; [|exact V]. rewrite union_swap in I1, D1. change (space_frames (vw_mem w) dst) with (fr w dst) in Ef. rewrite <- Ef in I1, D1.
  split; [exact I1|exact D1].
Qed.

Lemma pair_delivered (w w2 : vmw F) (src dst dst2 : space P) pas r Y O :
  pair_inv no_ex w src dst (frames pas ⊎ Y) O -> delivered w dst pas (fr w src ⊎ Y) (names src ⊎ O) r dst2 w2 ->
  pair_inv no_ex w2 src dst2 (still_carried r pas Y) O /\
  (forall v i, upage v -> 0 <= i < PAGE_SIZE -> page_view (vw_mem w2) src v i = page_view (vw_mem w) src v i).
Proof.
  intros Pi Dv. destruct (pair_dst _ _ _ _ _ _ Pi) as [_ S]. pose proof (dv_civil _ _ _ _ _ _ _ _ Dv) as C.
  rewrite union_swap in S.
  destruct (polite_other no_ex _ _ _ _ _ _ _ src C S) as (S2 & Ef & V).
  { etrans; [|apply sub_r]. etrans; [|apply sub_r]. apply sub_l. }
  split; [|exact V]. pose proof (dv_inv _ _ _ _ _ _ _ _ Dv) as I2.
  assert (still_carried r pas (fr w src ⊎ Y) = fr w2 src ⊎ still_carried r pas Y) as Es.
  { change (fr w2 src = fr w src) in Ef. rewrite Ef. destruct r; [reflexivity|apply union_swap]. }
  rewrite Es in I2, S2. exact (pair_of_dst _ _ _ _ _ _ I2 S2).
Qed.

Lemma delivered_slots (w w2 : vmw F) (src dst dst2 : space P) addr size n pas va Y O a :
  delivered w dst pas Y O (Some va) dst2 w2 -> vm_inv no_ex w dst (frames pas ⊎ Y) O ->
  length pas = n -> (forall j pa, pas !! j = Some pa -> slot_ok w src addr size (Z.of_nat j) pa) ->
  0 <= a < Z.of_nat n * VM_PAGE_SIZE ->
  if a <? size then reads_at (vw_mem w2) dst2 (va + a) = reads_at (vw_mem w) src (addr + a) /\ reads_at (vw_mem w) src (addr + a) <> None
  else reads_at (vw_mem w2) dst2 (va + a) = Some 0.
Proof.
  intros Dv I Ln Sl Ha.
  assert (exists j b, a = Z.of_nat j * VM_PAGE_SIZE + b /\ (j < n)%nat /\ 0 <= b < PAGE_SIZE) as (j & b & -> & Hj & Hb).
  { exists (Z.to_nat (a / VM_PAGE_SIZE)), (a mod VM_PAGE_SIZE). unfold VM_PAGE_SIZE, PAGE_SIZE in *. Z.div_mod_to_equations. lia. }
  rewrite <- Ln in Hj. destruct (lookup_lt_is_Some_2 pas j Hj) as [pa Ej].
  destruct (delivered_reads w w2 dst dst2 pas Y O va j pa b Dv I Ej Hb) as [R _]. rewrite <- Z.add_assoc in R.
  specialize (Sl j pa Ej b Hb). rewrite R. destruct (_ <? size); [|by rewrite Sl]. by rewrite Sl.
Qed.

(** A frame of the payload is the receiver's, so the sender cannot store to it. *)
Lemma delivered_not_writable (w w2 : vmw F) (src dst dst2 : space P) pas va Y O v lf :
  pair_inv no_ex w2 src dst2 Y O -> delivered w dst pas (fr w src ⊎ Y) (names src ⊎ O) (Some va) dst2 w2 ->
  vm_inv no_ex w dst (frames pas ⊎ (fr w src ⊎ Y)) (names src ⊎ O) ->
  upage v -> pm_leaf (vw_mem w2) (sp_pm src) v = Some lf -> lf_write lf = true -> lf_pa lf ∉ pas.
Proof.
  intros Pi Dv I Hv El Hw (j & Ej)%list_elem_of_lookup. pose proof (lookup_lt_Some _ _ _ Ej) as Lj.
  pose proof (dv_can _ _ _ _ _ _ _ _ Dv va eq_refl) as Can. pose proof (span_upage _ _ _ _ _ va _ j I Can Lj) as Hu.
  set (u := va + Z.of_nat j * VM_PAGE_SIZE) in *.
  assert (own_of (vw_mem w2) dst2 u = Some (lf_pa lf)) as Eo.
  { unfold own_of. assert (anon_at (sp_map dst2) u = true) as ->.
    { pose proof (dv_backing _ _ _ _ _ _ _ _ Dv u) as Bk. cbn [landing_backing] in Bk.
      replace (in_span u va _) with true in Bk by (unfold in_span, u, VM_PAGE_SIZE; lia).
      pose proof (so_map _ _ _ _ _ (pi_dst _ _ _ _ _ _ Pi)) as M2. destruct (backing_entry_inv _ _ _ M2 Bk) as (e & Fe & Ep).
      rewrite (anon_at_find _ _ _ Fe). unfold page_of in Ep. by injection Ep as _ _ _ <-. }
    rewrite (dv_leaf _ _ _ _ _ _ _ _ Dv u Hu). cbn [landing_leaf]. unfold u. by rewrite laid_page, Ej. }
  pose proof (writable_single w2 src _ _ v lf (pi_src _ _ _ _ _ _ Pi) Hv El Hw) as Sg.
  assert (lf_pa lf ∈ fr w2 dst2) as H1' by exact (own_in _ _ u _ Hu Eo).
  assert (lf_pa lf ∈ fr w2 src) as H2'.
  { destruct (so_leaf _ _ _ _ _ (vi_space _ _ _ _ _ (pi_src _ _ _ _ _ _ Pi)) v lf Hv El) as (e & Fe & L).
    apply (own_in _ _ v _ Hv). apply (own_of_Some _ _ _ e lf Fe); [|exact El].
    exact (writable_anon _ _ _ _ _ _ _ _ (vi_space _ _ _ _ _ (pi_src _ _ _ _ _ _ Pi)) Fe L Hw). }
  unfold total in Sg. rewrite !mult_union in Sg. rewrite mult_in in H1', H2'. lia.
Qed.

Lemma pair_release (w : vmw F) (src dst : space P) pas Y O :
  pair_inv no_ex w src dst (frames pas ⊎ Y) O ->
  exists w', vm_pages_release w pas = Done w' /\ pair_inv no_ex w' src dst Y O.
Proof.
  intros [I D]. pose proof I as I'. rewrite union_swap in I'. pose proof (carried_held _ _ _ _ _ _ I') as Ec.
  rewrite <- Ec in I'. destruct (pages_release_ok _ _ _ _ _ _ I') as (s' & E & I2 & C). eexists. split; [exact E|].
  unfold total2 in D. rewrite union_swap, <- Ec in D.
  destruct (polite_other no_ex _ _ _ _ _ _ _ dst C D) as (D2 & _ & _); [apply sub_rl|]. split; [exact I2|exact D2].
Qed.

(** The receiver's side of a delivered payload. *)
Lemma ool_landed (w w2 : vmw F) (src dst dst2 : space P) addr size pas va Y O :
  pair_inv no_ex w src dst (frames pas ⊎ Y) O -> delivered w dst pas (fr w src ⊎ Y) (names src ⊎ O) (Some va) dst2 w2 ->
  0 < size < 2 ^ 62 -> in_window addr (Z.to_nat size) -> length pas = Z.to_nat (payload_pages size) ->
  (forall j pa, pas !! j = Some pa -> slot_ok w src addr size (Z.of_nat j) pa) ->
  can_enter (sp_map dst) va (payload_pages size * VM_PAGE_SIZE) /\
  (forall a, 0 <= a < payload_pages size * VM_PAGE_SIZE ->
     if a <? size then reads_at (vw_mem w2) dst2 (va + a) = reads_at (vw_mem w2) src (addr + a) /\
                       reads_at (vw_mem w2) src (addr + a) <> None
     else reads_at (vw_mem w2) dst2 (va + a) = Some 0) /\
  (forall v lf, upage v -> pm_leaf (vw_mem w2) (sp_pm src) v = Some lf -> lf_write lf = true -> lf_pa lf ∉ pas).
Proof.
  intros Pi Dv Hs Wn Ln Sl. destruct (pair_dst _ _ _ _ _ _ Pi) as [I _]. rewrite union_swap in I.
  destruct (pair_delivered w w2 src dst dst2 pas _ Y O Pi Dv) as [Pi2 Vs]. pose proof (payload_pages_spec size Hs) as Pp.
  split; [|split].
  - pose proof (dv_can _ _ _ _ _ _ _ _ Dv va eq_refl) as Can. by rewrite Ln, Z2Nat.id in Can by lia.
  - intros a Ha. pose proof (delivered_slots w w2 src dst dst2 addr size _ pas va _ _ a Dv I Ln Sl) as R.
    rewrite Z2Nat.id in R by lia. specialize (R Ha). destruct (a <? size) eqn:Ea; [|exact R].
    assert (reads_at (vw_mem w2) src (addr + a) = reads_at (vw_mem w) src (addr + a)) as ->; [|exact R].
    apply Vs; [apply Wn; lia|]. pose proof (align_down_bounds (addr + a)). unfold PAGE_SIZE, VM_PAGE_SIZE in *. lia.
  - intros v lf. exact (delivered_not_writable w w2 src dst dst2 pas va Y O v lf Pi2 Dv I).
Qed.

(** A payload with frames has bytes, and not too many. *)
Lemma capture_bounds (w w1 : vmw F) (src src1 : space P) addr size pas Y0 Y O :
  capture_result w src src1 w1 addr size (Z.to_nat (payload_pages size)) Y0 Y O pas -> 0 <= size < 2 ^ 61 ->
  Z.of_nat (length pas) < 2 ^ 50 /\
  (pas <> [] -> 0 < size /\ length pas = Z.to_nat (payload_pages size) /\
     forall j pa, pas !! j = Some pa -> slot_ok w1 src1 addr size (Z.of_nat j) pa).
Proof.
  intros [_ [->|[Ln Sl]]] Hs; [done|]. destruct (decide (size = 0)) as [->|N].
  { change (payload_pages 0) with 0 in Ln. by destruct pas. }
  pose proof (payload_pages_spec size ltac:(lia)) as Pp. split; [rewrite Ln; unfold VM_PAGE_SIZE in Pp; lia|].
  intros _. split; [lia|]. by split.
Qed.

(** * Properties *)

(** [C11] Out-of-line memory between two tasks, capture to delivery.  When the
    sender's range is inside its window, no frame is close to the width of its
    owner count and the copy does not run into a page that cannot be brought
    in, [vm_pages_capture_user] followed by [vm_pages_install] either delivers
    or fails whole.  Delivered, the receiver reads at the landing address, in
    a range that was free, what the sender reads at the source and zeroes up
    to the end of the last page; no store of the sender can reach the frames
    any more.  Failed, [vm_pages_release] gives every frame back.  Either way
    both spaces stay well formed, every frame is counted, and no byte either
    task could read before has changed.  The only panic is a fault on a page
    of the payload that was not there. *)
Theorem ool_transfer (w : vmw F) (src dst : space P) addr size max_pages Y O :
  pair_inv no_ex w src dst Y O -> few_refs (names src ⊎ (names dst ⊎ O)) ->
  few_sharers w src (fr w dst ⊎ Y) (Z.to_nat (payload_pages size)) ->
  0 <= size -> vm_lo (sp_map src) <= addr -> addr + size <= vm_hi (sp_map src) ->
  (exists why a, vm_pages_capture_user w src addr size max_pages = Panic why /\ 0 <= a < size /\
     reads_at (vw_mem w) src (addr + a) = None) \/
  exists pas src1 w1 r dst2 w2,
    vm_pages_capture_user w src addr size max_pages = Done (pas, src1, w1) /\
    vm_pages_install w1 dst pas = Done (r, dst2, w2) /\
    match r with
    | Some va =>
        pair_inv no_ex w2 src1 dst2 Y O /\ can_enter (sp_map dst) va (payload_pages size * VM_PAGE_SIZE) /\
        (forall a, 0 <= a < payload_pages size * VM_PAGE_SIZE ->
           if a <? size then reads_at (vw_mem w2) dst2 (va + a) = reads_at (vw_mem w2) src1 (addr + a) /\
                             reads_at (vw_mem w2) src1 (addr + a) <> None
           else reads_at (vw_mem w2) dst2 (va + a) = Some 0) /\
        (forall v lf, upage v -> pm_leaf (vw_mem w2) (sp_pm src1) v = Some lf -> lf_write lf = true -> lf_pa lf ∉ pas)
    | None => exists w3, vm_pages_release w2 pas = Done w3 /\ pair_inv no_ex w3 src1 dst2 Y O
    end /\
    (forall v i, upage v -> 0 <= i < PAGE_SIZE -> page_view (vw_mem w) src v i <> None ->
       page_view (vw_mem w2) src1 v i = page_view (vw_mem w) src v i) /\
    (forall v i, upage v -> 0 <= i < PAGE_SIZE -> page_view (vw_mem w) dst v i <> None ->
       page_view (vw_mem w2) dst2 v i = page_view (vw_mem w) dst v i).
Proof.
  intros Pi Few Fs Hs Lo Hi.
  destruct (vm_pages_capture_user_ok w src addr size max_pages _ _ (pi_src _ _ _ _ _ _ Pi) Few Fs Hs Lo Hi)
    as [Bad|(pas & src1 & w1 & E1 & Ps & D)]; [by left|right].
  destruct (pair_passed w w1 src src1 dst (frames pas) Y O Pi Ps) as [Pi1 Vd].
  destruct (pair_dst _ _ _ _ _ _ Pi1) as [I1 _]. rewrite union_swap in I1.
  pose proof (so_window _ _ _ _ _ (vi_space _ _ _ _ _ (pi_src _ _ _ _ _ _ Pi))) as Vw. unfold VM_USER_VA_LO, VM_USER_VA_HI in Vw.
  destruct (capture_bounds _ _ _ _ _ _ _ _ _ _ (conj Ps D)) as [Hn Np]; [lia|].
  destruct (vm_pages_install_ok w1 dst pas _ _ I1 Hn) as (r & dst2 & w2 & E2 & Dv).
  destruct (pair_delivered w1 w2 src1 dst dst2 pas r Y O Pi1 Dv) as [Pi2 Vs].
  exists pas, src1, w1, r, dst2, w2. split; [exact E1|]. split; [exact E2|]. split; [|split].
  - destruct r as [va|]; [|exact (pair_release _ _ _ _ _ _ Pi2)]. split; [exact Pi2|].
    destruct Np as (Hz & Ln & Sl); [intros ->; by destruct (dv_can _ _ _ _ _ _ _ _ Dv va eq_refl)|].
    apply (ool_landed w1 w2 src1 dst dst2 addr size pas va Y O Pi1 Dv); [lia| |exact Ln|exact Sl].
    exact (window_in _ _ _ _ _ _ _ (pi_src _ _ _ _ _ _ Pi) Lo Hi).
  - intros v i Hv Hi' Pv. rewrite (Vs v i Hv Hi'). exact (ps_view _ _ _ _ _ _ _ _ Ps v i Hv Hi' Pv).
  - intros v i Hv Hi' Pv. rewrite <- (Vd v i Hv Hi') in Pv |- *. exact (delivered_view w1 w2 dst dst2 pas _ _ r v i Dv I1 Hv Hi' Pv).
Qed.

Lemma user_byte_wild (w : vmw F) (sp : space P) va Y O :
  vm_inv no_ex w sp Y O -> few_refs (names sp ⊎ O) -> upage va -> backing (sp_map sp) va = None ->
  user_byte w sp va = Panic "page fault in kernel mode".
Proof.
  intros I Few Hv Bn. pose proof (align_down_page va 0 0 (proj2 Hv) ltac:(done)) as Ad. rewrite !Z.add_0_r in Ad.
  unfold user_byte. rewrite Ad, (extract_leaf _ _ _ _ _ _ I Hv), (unmapped _ _ _ _ _ _ I Hv Bn).
  change (PA_INVALID =? PA_INVALID) with true. cbn [negb].
  destruct (vm_fault_ok w sp va false 0 Y O I Few) as (rv & pm' & w' & E & Fo). rewrite E, bind_Done.
  pose proof (fo_result _ _ _ _ _ _ _ _ _ Fo) as R. unfold fault_result, judge in R. rewrite Ad in R.
  apply backing_None in Bn; [|apply (vi_space _ _ _ _ _ I)]. rewrite Bn in R. destruct R as [-> _]. reflexivity.
Qed.

(** [C35] A task can stop the machine with one message: a payload whose first
    page lies in the sender's window but in no range panics in
    [vm_pages_capture_user] as soon as a frame can be had.  [send_capture_ool]
    ([mach/port_msg.c]) checks the window only, the copy faults in kernel
    mode, and [intr_dispatch] has no recovery for a fault [vm_fault] refuses. *)
Theorem ool_wild_address_panics (w : vmw F) (sp : space P) addr size max_pages Y O :
  vm_inv no_ex w sp Y O -> few_refs (names sp ⊎ O) -> upage addr -> backing (sp_map sp) addr = None ->
  0 < size < 2 ^ 61 -> payload_pages size <= max_pages -> fst (alloc_frame w) <> PA_INVALID ->
  vm_pages_capture_user w sp addr size max_pages = Panic "page fault in kernel mode".
Proof.
  intros I Few Hv Bn Hs Hm Al. pose proof (payload_pages_spec size ltac:(lia)) as Pp.
  unfold vm_pages_capture_user. destruct (size =? 0) eqn:Ez; [lia|]. destruct (max_pages <? payload_pages size) eqn:Em; [lia|].
  destruct (Z.to_nat (payload_pages size)) as [|n] eqn:En; [lia|].
  assert (vm_map_lookup (sp_map sp) addr = None) as Lk.
  { unfold backing in Bn. by destruct (vm_map_lookup (sp_map sp) addr) as [[? ?]|]. }
  assert (capture_share w sp addr size (S n) = Done (replicate (S n) PA_INVALID, sp, w)) as ->.
  { unfold capture_share. rewrite Lk. by destruct (unaligned addr). }
  rewrite bind_Done. cbn [replicate capture_copy]. change (PA_INVALID =? PA_INVALID) with true. cbn [negb]. rewrite space_eta.
  unfold page_from_bytes. destruct (alloc_step _ w sp Y O I) as (pa & w1 & Ea & D). rewrite Ea in Al |- *. cbn [fst] in Al.
  destruct D as [[-> _]|(s1 & -> & _ & _ & _ & _ & I1 & _)]; [done|]. rewrite (proj2 (Z.eqb_neq _ _) Al).
  pose proof (page_have_range (0 * VM_PAGE_SIZE) size ltac:(lia)) as Hr.
  destruct (Z.to_nat (page_have (0 * VM_PAGE_SIZE) size)) as [|k] eqn:Ek; [lia|]. cbn [copy_user].
  rewrite Z.add_0_r, space_eta, (user_byte_wild _ sp addr _ O I1 Few Hv Bn). reflexivity.
Qed.

End Capture.

(** ** Concrete runs *)

(** The small machine's parent sends a page of its zero-fill range, not touched
    yet, to its empty child. *)
Lemma family_few_sharers n : Z.of_nat n < 65536 -> few_sharers family_vw demo_space (space_frames (vw_mem family_vw) family_child ⊎ ∅) n.
Proof.
  intros _ f Hf. exfalso. revert Hf. generalize family_parent_own.
  generalize (leaf_frames (own_of (vw_mem family_vw) demo_space)). intros X -> Hf. by apply gmultiset_not_elem_of_empty in Hf.
Qed.

Lemma family_few_sent : few_refs (entry_names (vm_head (sp_map demo_space)) ⊎ (entry_names (vm_head (sp_map family_child)) ⊎ ∅)).
Proof.
  intros a. cbn [demo_space family_child sp_map demo_user_map vm_head entry_names vme_object named].
  rewrite !mult_union, !multiplicity_empty, multiplicity_singleton. case_decide; lia.
Qed.

Lemma ool_transfer_witness :
  (exists why a, vm_pages_capture_user family_vw demo_space (VM_USER_VA_LO + 65536) 5000 2 = Panic why /\ 0 <= a < 5000 /\
     reads_at (vw_mem family_vw) demo_space (VM_USER_VA_LO + 65536 + a) = None) \/
  exists pas src1 w1 r dst2 w2,
    vm_pages_capture_user family_vw demo_space (VM_USER_VA_LO + 65536) 5000 2 = Done (pas, src1, w1) /\
    vm_pages_install w1 family_child pas = Done (r, dst2, w2).
Proof.
  destruct (ool_transfer family_vw demo_space family_child (VM_USER_VA_LO + 65536) 5000 2 ∅ ∅ family_pair)
    as [B|(pas & src1 & w1 & r & dst2 & w2 & E1 & E2 & _)].
  - exact family_few_sent.
  - apply family_few_sharers. reflexivity.
  - lia.
  - vm_compute. discriminate.
  - vm_compute. discriminate.
  - left. exact B.
  - right. exists pas, src1, w1, r, dst2, w2. exact (conj E1 E2).
Defined.

(** One hundred bytes a megabyte above everything the task has mapped. *)
Lemma ool_wild_address_panics_witness :
  vm_pages_capture_user demo_vw demo_space (VM_USER_VA_LO + 1048576) 100 1 = Panic "page fault in kernel mode".
Proof.
  apply (ool_wild_address_panics demo_vw demo_space (VM_USER_VA_LO + 1048576) 100 1 ∅ ∅ demo_vm_inv demo_few_refs).
  - split; [vm_compute; split; [discriminate|reflexivity]|reflexivity].
  - reflexivity.
  - lia.
  - vm_compute. discriminate.
  - vm_compute. discriminate.
Defined.
