(* ===== verification/VmSystem.v ===== *)
(** Every address space at once: tasks that store, fault, map, unmap, fork
    and exit in any order, with any number of faults suspended between the
    two windows of [vm_fault].  The invariant of [VmInv] is kept by every
    operation of [vm/vm.c] and no task sees another's. *)

From stdpp Require Import base list numbers strings gmap gmultiset relations.
From Stdlib Require Import ZArith Lia ZifyBool.
From S2P Require Import Prelude Owners Pmm Phys VmObject VmMap Pmap Vm VmInv VmStep VmDemo VmFault VmRelease VmFork.

#[export] Instance upage_dec v : Decision (upage v).
Proof. unfold upage, aligned. apply _. Defined.

(** One element of a list, and the others. *)
Lemma focus {A} (l : list A) i a : l !! i = Some a ->
  exists rest, l ≡ₚ a :: rest /\ (forall a', <[i:=a']> l ≡ₚ a' :: rest) /\
    forall k x, k <> i -> l !! k = Some x -> x ∈ rest.
Proof.
  intros E. pose proof (lookup_lt_Some _ _ _ E) as B. exists (take i l ++ drop (S i) l). split; [|split].
  - rewrite <- (take_drop_middle l i a E) at 1. by rewrite Permutation_middle.
  - intros a'. rewrite insert_take_drop by exact B. by rewrite Permutation_middle.
  - intros k x N Ex. apply elem_of_app. destruct (decide (k < i)%nat).
    + left. apply list_elem_of_lookup. exists k. by rewrite lookup_take_lt.
    + right. apply list_elem_of_lookup. exists (k - S i)%nat. rewrite lookup_drop. by replace (S i + (k - S i))%nat with k by lia.
Qed.

(** Two of them. *)
Lemma focus2 {A} (l : list A) i j a b : i <> j -> l !! i = Some a -> l !! j = Some b ->
  exists rest, l ≡ₚ a :: b :: rest /\ (forall a' b', <[j:=b']> (<[i:=a']> l) ≡ₚ a' :: b' :: rest) /\
    forall k x, k <> i -> k <> j -> l !! k = Some x -> x ∈ rest.
Proof.
  revert i j. induction l as [|c l IH]; intros i j N Ei Ej; [done|].
  destruct i as [|i], j as [|j]; cbn in Ei, Ej; [done|..].
  - injection Ei as ->. destruct (focus l j b Ej) as (rest & P1 & P2 & P3). exists rest. split; [by rewrite P1|]. split.
    + intros a' b'. cbn. by rewrite P2.
    + intros [|k] x N1 N2 Ex; [done|]. cbn in Ex. apply (P3 k); [congruence|done].
  - injection Ej as ->. destruct (focus l i a Ei) as (rest & P1 & P2 & P3). exists rest. split; [rewrite P1; constructor|]. split.
    + intros a' b'. cbn. rewrite P2. constructor.
    + intros [|k] x N1 N2 Ex; [done|]. cbn in Ex. apply (P3 k); [congruence|done].
  - destruct (IH i j) as (rest & P1 & P2 & P3); [congruence|done..|]. exists (c :: rest). split; [|split].
    + rewrite P1, (Permutation_swap a c). by rewrite (Permutation_swap b c).
    + intros a' b'. cbn. rewrite P2, (Permutation_swap a' c). by rewrite (Permutation_swap b' c).
    + intros [|k] x N1 N2 Ex; cbn in Ex; [injection Ex as ->; by left|]. right. apply (P3 k); [congruence|congruence|exact Ex].
Qed.

Section System.
Context {P : Type} `{PmapSpec P} {F : Type} `{FsOps F}.

(** * The machine *)

Record sys := mkSys { sy_w : vmw F; sy_spaces : list (space P); sy_faults : list (nat * fault_cont) }.

Inductive sys_op :=
| OpStore (i : nat) (page off b : Z)
| OpFault (i : nat) (va : Z) (write : bool) (dt : Z)     (* up to the second window *)
| OpResume (k : nat)                                     (* the second window of fault [k] *)
| OpMap (i : nat) (va size prot flags : Z)
| OpUnmap (i : nat) (va size : Z)
| OpExit (i : nat)
| OpFork (i j : nat).

(** Who the operation may change. *)
Definition op_names (s : sys) (op : sys_op) (k : nat) : Prop :=
  match op with
  | OpStore i _ _ _ | OpFault i _ _ _ | OpMap i _ _ _ _ | OpUnmap i _ _ | OpExit i => k = i
  | OpResume n => exists c, sy_faults s !! n = Some (k, c)
  | OpFork i j => k = i \/ k = j
  end.

(** The flag combinations callers of [vm_map_enter] use. *)
Definition range_flags_ok (prot flags : Z) : bool :=
  implb (has prot VM_PROT_WRITE) (has flags VME_F_ANON) && implb (has flags VME_F_COW) (has prot VM_PROT_WRITE) &&
  implb (has flags VME_F_LAZY) (has flags VME_F_ANON).

Definition is_u64 (x : Z) : bool := (0 <=? x) && (x <? 2 ^ 64).

(** A store by a running thread, if its page is mapped writable. *)
Definition do_store (w : vmw F) (sp : space P) (page off b : Z) : vmw F :=
  match pm_leaf (vw_mem w) (sp_pm sp) page with
  | Some lf =>
      if bool_decide (upage page) && (0 <=? off) && (off <? PAGE_SIZE) && lf_write lf
      then set_ph w (with_mem (vw_ph w) (st8 (vw_mem w) (lf_pa lf + off) b)) else w
  | None => w
  end.

Definition sys_do (s : sys) (op : sys_op) : res sys :=
  let w := sy_w s in
  let on i (k : space P -> res sys) := match sy_spaces s !! i with Some sp => k sp | None => Done s end in
  match op with
  | OpStore i page off b => on i (fun sp => Done (mkSys (do_store w sp page off b) (sy_spaces s) (sy_faults s)))
  | OpFault i va write dt => on i (fun sp =>
      r ← fault_begin w sp va write dt;
      let '(c, pm, w) := r in
      Done (mkSys w (<[i:=mkSpace (sp_map sp) pm]> (sy_spaces s)) ((i, c) :: sy_faults s)))
  | OpResume n =>
      match sy_faults s !! n with
      | Some (i, c) => on i (fun sp =>
          r ← fault_finish w sp c;
          let '(_, pm, w) := r in
          Done (mkSys w (<[i:=mkSpace (sp_map sp) pm]> (sy_spaces s)) (delete n (sy_faults s))))
      | None => Done s
      end
  | OpMap i va size prot flags => on i (fun sp =>
      if range_flags_ok prot flags && is_u64 va && is_u64 size then
        let '(_, m, h) := vm_map_enter (sp_map sp) va size prot flags (vw_heap w) in
        Done (mkSys (set_heap w h) (<[i:=mkSpace m (sp_pm sp)]> (sy_spaces s)) (sy_faults s))
      else Done s)
  | OpUnmap i va size => on i (fun sp =>
      if is_u64 va && is_u64 size then
        r ← vm_map_release w sp va size;
        let '(_, sp, w) := r in
        Done (mkSys w (<[i:=sp]> (sy_spaces s)) (sy_faults s))
      else Done s)
  | OpExit i => on i (fun sp =>
      r ← vm_map_release_anon w sp;
      let '(sp, w) := r in
      Done (mkSys w (<[i:=sp]> (sy_spaces s)) (sy_faults s)))
  | OpFork i j => on i (fun src => on j (fun dst =>
      if bool_decide (i <> j) && bool_decide (vm_head (sp_map dst) = []) then
        r ← vm_map_fork_share w src dst;
        let '(_, src, dst, w) := r in
        Done (mkSys w (<[j:=dst]> (<[i:=src]> (sy_spaces s))) (sy_faults s))
      else Done s))
  end.

(** * The invariant *)

Abbreviation nm sp := (entry_names (vm_head (sp_map sp))).

Definition flights (l : list (nat * fault_cont)) : gmultiset Z := gather (fun f => in_flight f.2) l.
Definition holds (l : list (nat * fault_cont)) : gmultiset Z := gather (fun f => held f.2) l.
Definition sys_frames (w : vmw F) (l : list (space P)) : gmultiset Z := gather (space_frames (vw_mem w)) l.
Definition sys_names (l : list (space P)) : gmultiset Z := gather (fun sp => nm sp) l.
Definition sys_total (s : sys) : gmultiset Z := sys_frames (sy_w s) (sy_spaces s) ⊎ flights (sy_faults s).

Record sys_inv (s : sys) : Prop := {
  si_owned : owned_by (vw_pmm (sy_w s)) (sys_total s);
  si_spaces : forall sp, sp ∈ sy_spaces s -> space_ok no_ex (vw_pmm (sy_w s)) (vw_mem (sy_w s)) (sys_total s) sp;
  si_objs : objs_ok (vw_objs (sy_w s)) (sys_names (sy_spaces s) ⊎ holds (sy_faults s));
  si_faults : forall f, f ∈ sy_faults s -> prepared (sy_w s) (sys_total s) f.2;
}.

(** No count near its width: at most half of what an owner count (16 bits) or
    a reference count (32 bits) can hold. *)
Definition sys_few (s : sys) : Prop :=
  (forall f, Z.of_nat (2 * multiplicity f (sys_total s)) < 65535) /\
  (forall a, Z.of_nat (2 * multiplicity a (sys_names (sy_spaces s) ⊎ holds (sy_faults s))) + 1 < 2 ^ 31).

(** What a task reads. *)
Definition reads (s : sys) (k : nat) (v i : Z) : option Z :=
  sy_spaces s !! k ≫= fun sp => page_view (vw_mem (sy_w s)) sp v i.

(** * One operation

    [act] are the spaces it works on, [rest] the others; [a] the suspended
    faults it resumes, [R] the others. *)

Definition outside (w : vmw F) (rest : list (space P)) (R : list (nat * fault_cont)) : gmultiset Z :=
  sys_frames w rest ⊎ flights R.
Definition outside_names (rest : list (space P)) (R : list (nat * fault_cont)) : gmultiset Z :=
  sys_names rest ⊎ holds R.

Lemma union_mid (A B C D : gmultiset Z) : (A ⊎ B) ⊎ (C ⊎ D) = A ⊎ (C ⊎ (B ⊎ D)).
Proof. by rewrite <- gmultiset_disj_union_assoc, (union_swap B). Qed.

Lemma total_split (w : vmw F) l f act rest a R :
  l ≡ₚ act ++ rest -> f ≡ₚ a ++ R ->
  sys_total (mkSys w l f) = sys_frames w act ⊎ (flights a ⊎ outside w rest R) /\
  sys_names l ⊎ holds f = sys_names act ⊎ (holds a ⊎ outside_names rest R).
Proof.
  intros El Ef. unfold sys_total, sys_frames, flights, sys_names, holds, outside, outside_names. cbn [sy_w sy_spaces sy_faults].
  rewrite El, Ef, !gather_app. split; apply union_mid.
Qed.

Lemma sys_change (w w' : vmw F) l f l' f' act act' rest a a' R :
  let X' := sys_frames w' act' ⊎ (flights a' ⊎ outside w rest R) in
  sys_inv (mkSys w l f) -> l ≡ₚ act ++ rest -> l' ≡ₚ act' ++ rest -> f ≡ₚ a ++ R -> f' ≡ₚ a' ++ R ->
  civil (outside w rest R) w (sys_total (mkSys w l f)) w' X' -> owned_by (vw_pmm w') X' ->
  (forall sp, sp ∈ act' -> space_ok no_ex (vw_pmm w') (vw_mem w') X' sp) ->
  objs_ok (vw_objs w') (sys_names act' ⊎ (holds a' ⊎ outside_names rest R)) ->
  (forall x, x ∈ a' -> prepared w' X' x.2) ->
  sys_inv (mkSys w' l' f') /\
  forall sp2 v i, sp2 ∈ rest -> upage v -> 0 <= i < PAGE_SIZE -> page_view (vw_mem w') sp2 v i = page_view (vw_mem w) sp2 v i.
Proof.
  intros X' [W S Ob Pr] El El' Ef Ef' C W' S' Ob' Pr'. cbn [sy_w sy_spaces sy_faults] in *.
  assert (forall sp2, sp2 ∈ rest -> untouched w (sys_total (mkSys w l f)) w' X' sp2) as Un.
  { intros sp2 Hr. apply (civil_untouched (outside w rest R)); [exact C|apply S; rewrite El; apply elem_of_app; by right|].
    etrans; [exact (gather_elem (space_frames (vw_mem w)) _ _ Hr)|apply gmultiset_disj_union_subseteq_l]. }
  assert (outside w' rest R = outside w rest R) as Eo.
  { unfold outside, sys_frames. rewrite (gather_ext _ (space_frames (vw_mem w)) rest); [reflexivity|]. intros sp2 Hr. apply (Un sp2 Hr). }
  destruct (total_split w' l' f' act' rest a' R El' Ef') as [Et En]. rewrite Eo in Et. fold X' in Et.
  split; [|intros sp2 v i Hr; apply (Un sp2 Hr)]. split; cbn [sy_w sy_spaces sy_faults]; rewrite ?Et, ?En.
  - exact W'.
  - intros sp2. rewrite El'. intros [Ha|Hr]%elem_of_app; [exact (S' sp2 Ha)|apply (Un sp2 Hr)].
  - exact Ob'.
  - intros x. rewrite Ef'. intros [Ha|Hr]%elem_of_app; [exact (Pr' x Ha)|].
    apply (prepared_stable w w' (sys_total (mkSys w l f))); [apply Pr; rewrite Ef; apply elem_of_app; by right|].
    apply (civil_weaken (outside w rest R)); [|exact C].
    etrans; [exact (gather_elem (fun x => in_flight x.2) _ _ Hr)|apply gmultiset_disj_union_subseteq_r].
Qed.

(** One acting space. *)
Lemma sys_focus (w : vmw F) l f sp rest a R :
  sys_inv (mkSys w l f) -> l ≡ₚ [sp] ++ rest -> f ≡ₚ a ++ R ->
  vm_inv no_ex w sp (flights a ⊎ outside w rest R) (holds a ⊎ outside_names rest R) /\
  total w sp (flights a ⊎ outside w rest R) = sys_total (mkSys w l f).
Proof.
  intros [W S Ob _] El Ef. destruct (total_split w l f _ _ _ _ El Ef) as [Et En].
  assert (sys_frames w [sp] = space_frames (vw_mem w) sp) as E1 by apply gather_one.
  assert (sys_names [sp] = nm sp) as E2 by exact (gather_one (fun sp => nm sp) sp).
  cbn [sy_w sy_spaces sy_faults] in *. rewrite E1 in Et. rewrite E2 in En. rewrite En in Ob. rewrite Et in *.
  split; [|reflexivity]. split; [exact W| |exact Ob]. apply S. rewrite El. by left.
Qed.

Lemma sys_change1 (w w' : vmw F) l f l' f' sp sp' rest a a' R :
  let X' := total w' sp' (flights a' ⊎ outside w rest R) in
  sys_inv (mkSys w l f) -> l ≡ₚ [sp] ++ rest -> l' ≡ₚ [sp'] ++ rest -> f ≡ₚ a ++ R -> f' ≡ₚ a' ++ R ->
  civil (outside w rest R) w (total w sp (flights a ⊎ outside w rest R)) w' X' ->
  vm_inv no_ex w' sp' (flights a' ⊎ outside w rest R) (holds a' ⊎ outside_names rest R) ->
  (forall x, x ∈ a' -> prepared w' X' x.2) ->
  sys_inv (mkSys w' l' f') /\
  forall sp2 v i, sp2 ∈ rest -> upage v -> 0 <= i < PAGE_SIZE -> page_view (vw_mem w') sp2 v i = page_view (vw_mem w) sp2 v i.
Proof.
  intros X' I El El' Ef Ef' C [W' S' Ob'] Pr'. rewrite (proj2 (sys_focus _ _ _ _ _ _ _ I El Ef)) in C.
  apply (sys_change w w' l f l' f' [sp] [sp'] rest a a' R I El El' Ef Ef');
    unfold sys_frames, sys_names; rewrite ?gather_one; try assumption.
  intros sp2 ->%list_elem_of_singleton. exact S'.
Qed.

(** ** A store *)

(** The frame under a writable page is that page's alone. *)
Lemma writable_private (w : vmw F) (sp : space P) page lf Y O :
  vm_inv no_ex w sp Y O -> upage page -> pm_leaf (vw_mem w) (sp_pm sp) page = Some lf -> lf_write lf = true ->
  lf_pa lf ∈ total w sp Y /\ (forall t, t ∈ pm_tables (vw_mem w) (sp_pm sp) -> t <> lf_pa lf) /\
  (forall f, f ∈ Y -> f <> lf_pa lf) /\
  (forall v lf2, upage v -> v <> page -> pm_leaf (vw_mem w) (sp_pm sp) v = Some lf2 -> lf_pa lf2 <> lf_pa lf).
Proof.
  intros I Hu El Hw. set (pa := lf_pa lf).
  pose proof (vi_space _ _ _ _ _ I) as S. pose proof (writable_single _ _ _ _ _ _ I Hu El Hw) as Single. fold pa in Single.
  destruct (so_leaf _ _ _ _ _ S page lf Hu El) as (e & Fe & L).
  assert (own_of (vw_mem w) sp page = Some pa) as Own.
  { apply (own_of_Some _ _ _ e); [exact Fe|exact (writable_anon _ _ _ _ _ _ _ _ S Fe L Hw)|exact El]. }
  assert (pa ∈ leaf_frames (own_of (vw_mem w) sp)) as Hown by (apply leaf_frames_in; eauto).
  assert (pa ∈ total w sp Y) as Hin by (rewrite mult_in; lia).
  split; [exact Hin|]. split; [|split].
  - intros t Ht. apply (table_alone _ _ _ _ _ t pa I Ht). apply gmultiset_elem_of_disj_union. by left.
  - intros f Hf ->. rewrite total_unfold, !mult_union in Single. rewrite mult_in in Hf, Hown. lia.
  - intros v lf2 Hv Nv El2 Eq. destruct (so_leaf _ _ _ _ _ S v lf2 Hv El2) as (e2 & Fe2 & L2).
    destruct (has (vme_flags e2) VME_F_ANON) eqn:An.
    + pose proof (own_of_Some _ _ _ _ _ Fe2 An El2) as Own2. rewrite Eq in Own2.
      pose proof (leaf_frames_two _ v page pa Hv Hu Nv Own2 Own) as Two. rewrite total_unfold, !mult_union in Single. lia.
    + pose proof (lw_borrowed _ _ _ _ _ L2 An) as Rs. rewrite Eq in Rs. exact (owned_not_reserved _ _ _ (vi_owned _ _ _ _ _ I) Hin Rs).
Qed.

Lemma store_ok (w : vmw F) (sp : space P) page off b Y O :
  vm_inv no_ex w sp Y O ->
  vm_inv no_ex (do_store w sp page off b) sp Y O /\
  civil Y w (total w sp Y) (do_store w sp page off b) (total (do_store w sp page off b) sp Y) /\
  forall v i, upage v -> 0 <= i < PAGE_SIZE ->
    page_view (vw_mem (do_store w sp page off b)) sp v i =
      (match pm_leaf (vw_mem w) (sp_pm sp) page with
       | Some lf => if lf_write lf && (v =? page) && (i =? off) then Some (w8 b) else page_view (vw_mem w) sp v i
       | None => page_view (vw_mem w) sp v i
       end).
Proof.
  intros I. unfold do_store. destruct (pm_leaf (vw_mem w) (sp_pm sp) page) as [lf|] eqn:El.
  2: { split; [exact I|]. split; [by apply civil_refl|reflexivity]. }
  destruct (bool_decide (upage page) && (0 <=? off) && (off <? PAGE_SIZE) && lf_write lf) eqn:G.
  2: { split; [exact I|]. split; [by apply civil_refl|]. intros v i Hv Hi.
       destruct (lf_write lf && (v =? page) && (i =? off)) eqn:Bad; [|reflexivity]. exfalso.
       apply andb_true_iff in Bad as [[Hw ->%Z.eqb_eq]%andb_true_iff ->%Z.eqb_eq].
       rewrite Hw, (bool_decide_eq_true_2 _ Hv), andb_true_r in G. lia. }
  apply andb_true_iff in G as [[[Hu%bool_decide_eq_true H0']%andb_true_iff H1']%andb_true_iff Hw].
  apply Z.leb_le in H0'. apply Z.ltb_lt in H1'.
  set (pa := lf_pa lf). set (m' := st8 (vw_mem w) (pa + off) b).
  destruct (writable_private w sp page lf Y O I Hu El Hw) as (Hin & Nt & Ny & Nl). fold pa in Hin, Nt, Ny, Nl.
  assert (forall f, frame_pa f -> f <> pa -> same_page (vw_mem w) m' f) as Kp.
  { intros f Ff Ne. apply (page_kept _ _ [pa] f); [|exact Ff|].
    - intros x Hx. unfold m'. rewrite ld8_st8. destruct (x =? pa + off) eqn:Ex; [|reflexivity].
      exfalso. apply (Hx pa); [by left|]. unfold in_page. lia.
    - intros t ->%list_elem_of_singleton. split; [exact (total_frame _ _ _ _ _ pa I Hin)|by apply not_eq_sym]. }
  destruct (vm_inv_mem _ _ _ _ _ m' I) as (I' & Es & L').
  { intros t Ht. apply Kp.
    - apply (total_frame _ _ _ _ _ t I). unfold total. apply gmultiset_elem_of_disj_union. left. by apply table_in.
    - exact (Nt t Ht). }
  assert (total (set_ph w (with_mem (vw_ph w) m')) sp Y = total w sp Y) as Et.
  { unfold total. change (vw_mem (set_ph w (with_mem (vw_ph w) m'))) with m'. by rewrite Es. }
  split; [exact I'|]. split.
  - rewrite Et. split; [done| | |done].
    + intros f Hf. apply Kp; [apply (total_frame _ _ _ _ _ f I), gmultiset_elem_of_disj_union; by right|exact (Ny f Hf)].
    + intros f Ff Rf. apply (Kp f Ff). intros ->. exact (owned_not_reserved _ _ _ (vi_owned _ _ _ _ _ I) Hin Rf).
  - intros v i Hv Hi. change (vw_mem (set_ph w (with_mem (vw_ph w) m'))) with m'. unfold page_view. rewrite (L' v Hv), Hw. cbn [andb].
    destruct (Z.eqb_spec v page) as [->|Nv]; cbn [andb].
    { rewrite El. cbn. unfold m'. rewrite ld8_st8. fold pa. destruct (Z.eqb_spec i off) as [->|Ni]; [by rewrite Z.eqb_refl|].
      by destruct (Z.eqb_spec (pa + i) (pa + off)); [lia|]. }
    destruct (pm_leaf (vw_mem w) (sp_pm sp) v) as [lf2|] eqn:El2; [|reflexivity]. cbn. f_equal.
    assert (same_page (vw_mem w) m' (lf_pa lf2)) as Sm; [|apply Sm; unfold PAGE_SIZE in *; lia].
    apply Kp; [exact (pm_leaf_pa _ _ _ _ (so_pm _ _ _ _ _ (vi_space _ _ _ _ _ I)) Hv El2)|exact (Nl v lf2 Hv Nv El2)].
Qed.

(** ** Every operation *)

Definition op_ok (s : sys) (op : sys_op) (s' : sys) : Prop :=
  sys_inv s' /\
  forall k v i, ~ op_names s op k -> upage v -> 0 <= i < PAGE_SIZE -> reads s' k v i = reads s k v i.

Lemma op_nothing s op : sys_inv s -> op_ok s op s.
Proof. intros I. by split. Qed.

Lemma views_kept (w w' : vmw F) l l' f f' (N : nat -> Prop) (rest : list (space P)) :
  (forall k, ~ N k -> l' !! k = l !! k) -> (forall k x, ~ N k -> l !! k = Some x -> x ∈ rest) ->
  (forall sp2 v i, sp2 ∈ rest -> upage v -> 0 <= i < PAGE_SIZE -> page_view (vw_mem w') sp2 v i = page_view (vw_mem w) sp2 v i) ->
  forall k v i, ~ N k -> upage v -> 0 <= i < PAGE_SIZE -> reads (mkSys w' l' f') k v i = reads (mkSys w l f) k v i.
Proof.
  intros El Hr Vw k v i Nk Hv Hi. unfold reads. cbn [sy_spaces sy_w]. rewrite (El k Nk).
  destruct (l !! k) as [x|] eqn:Ex; [|reflexivity]. exact (Vw x v i (Hr k x Nk Ex) Hv Hi).
Qed.

(** What one space needs to know to act while the faults [a] become [a']. *)
Lemma sys_one (w : vmw F) l f i sp op a R :
  sys_inv (mkSys w l f) -> l !! i = Some sp -> f ≡ₚ a ++ R -> (forall k, ~ op_names (mkSys w l f) op k -> k <> i) ->
  exists Y O, vm_inv no_ex w sp (flights a ⊎ Y) (holds a ⊎ O) /\
    total w sp (flights a ⊎ Y) = sys_total (mkSys w l f) /\
    nm sp ⊎ (holds a ⊎ O) = sys_names l ⊎ holds f /\
    forall w' sp' a' f', f' ≡ₚ a' ++ R -> vm_inv no_ex w' sp' (flights a' ⊎ Y) (holds a' ⊎ O) ->
      civil Y w (total w sp (flights a ⊎ Y)) w' (total w' sp' (flights a' ⊎ Y)) ->
      (forall x, x ∈ a' -> prepared w' (total w' sp' (flights a' ⊎ Y)) x.2) ->
      op_ok (mkSys w l f) op (mkSys w' (<[i:=sp']> l) f').
Proof.
  intros I Ei Ef Hn. destruct (focus l i sp Ei) as (rest & P1 & P2 & P3).
  exists (outside w rest R), (outside_names rest R).
  destruct (sys_focus w l f sp rest a R I P1 Ef) as [I1 Et]. split; [exact I1|]. split; [exact Et|]. split.
  { destruct (total_split w l f [sp] rest a R P1 Ef) as [_ ->]. unfold sys_names. by rewrite gather_one. }
  intros w' sp' a' f' Ef' I2 C Pr.
  destruct (sys_change1 w w' l f (<[i:=sp']> l) f' sp sp' rest a a' R I P1 (P2 sp') Ef Ef' C I2 Pr) as [I' Vw].
  split; [exact I'|]. apply (views_kept _ _ _ _ _ _ _ rest); [| |exact Vw].
  - intros k Nk. apply list_lookup_insert_ne, not_eq_sym, Hn, Nk.
  - intros k x Nk. exact (P3 k x (Hn k Nk)).
Qed.

Lemma flights_nil Y : flights [] ⊎ Y = Y.
Proof. apply gmultiset_disj_union_left_id. Qed.
Lemma holds_nil O : holds [] ⊎ O = O.
Proof. apply gmultiset_disj_union_left_id. Qed.
Lemma flights_one i c : flights [(i, c)] = in_flight c.
Proof. apply gmultiset_disj_union_right_id. Qed.
Lemma holds_one i c : holds [(i, c)] = held c.
Proof. apply gmultiset_disj_union_right_id. Qed.

(** No fault suspended or resumed. *)
Lemma sys_quiet (w : vmw F) l f i sp op :
  sys_inv (mkSys w l f) -> l !! i = Some sp -> (forall k, ~ op_names (mkSys w l f) op k -> k <> i) ->
  exists Y O, vm_inv no_ex w sp Y O /\ nm sp ⊎ O = sys_names l ⊎ holds f /\
    forall w' sp', vm_inv no_ex w' sp' Y O -> civil Y w (total w sp Y) w' (total w' sp' Y) ->
      op_ok (mkSys w l f) op (mkSys w' (<[i:=sp']> l) f).
Proof.
  intros I Ei Hn. destruct (sys_one w l f i sp op [] f I Ei ltac:(reflexivity) Hn) as (Y & O & I1 & _ & En & K).
  rewrite flights_nil, holds_nil in I1. rewrite flights_nil in K. rewrite holds_nil in En. exists Y, O. split; [exact I1|]. split; [exact En|].
  intros w' sp' I2 C. apply (K w' sp' [] f); rewrite ?flights_nil, ?holds_nil; [reflexivity|exact I2|exact C|].
  intros x []%not_elem_of_nil.
Qed.

Lemma few_objs s O0 O : sys_few s -> O0 ⊎ O = sys_names (sy_spaces s) ⊎ holds (sy_faults s) -> few_refs (O0 ⊎ O) /\ few_outside O.
Proof.
  intros [_ B] E. split; intros a; specialize (B a); rewrite <- E in B; [lia|]. rewrite mult_union in B. lia.
Qed.

Lemma do_store_ok (w : vmw F) l f i sp page off b :
  sys_inv (mkSys w l f) -> l !! i = Some sp ->
  op_ok (mkSys w l f) (OpStore i page off b) (mkSys (do_store w sp page off b) l f).
Proof.
  intros I Ei. destruct (sys_quiet w l f i sp (OpStore i page off b) I Ei ltac:(by intros k)) as (Y & O & I1 & _ & K).
  rewrite <- (list_insert_id l i sp Ei) at 2. destruct (store_ok w sp page off b Y O I1) as (I2 & C & _). exact (K _ _ I2 C).
Qed.

Lemma do_fault_ok (w : vmw F) l f i sp va write dt :
  sys_inv (mkSys w l f) -> sys_few (mkSys w l f) -> l !! i = Some sp ->
  exists c pm' w', fault_begin w sp va write dt = Done (c, pm', w') /\
    op_ok (mkSys w l f) (OpFault i va write dt) (mkSys w' (<[i:=mkSpace (sp_map sp) pm']> l) ((i, c) :: f)).
Proof.
  intros I Few Ei. destruct (sys_one w l f i sp (OpFault i va write dt) [] f I Ei ltac:(reflexivity) ltac:(by intros k))
    as (Y & O & I1 & Et & En & K).
  rewrite flights_nil, holds_nil in I1. rewrite flights_nil in K. rewrite holds_nil in En.
  destruct (fault_begin_ok w sp va write dt Y O I1 (proj1 (few_objs _ _ _ Few En))) as (c & pm' & w' & e & E & Bg & _).
  exists c, pm', w'. split; [exact E|].
  apply (K w' (mkSpace (sp_map sp) pm') [(i, c)]); rewrite ?flights_one, ?holds_one; [reflexivity|apply Bg|apply Bg|].
  intros x ->%list_elem_of_singleton. apply Bg.
Qed.

Lemma do_resume_ok (w : vmw F) l f n i c sp :
  sys_inv (mkSys w l f) -> f !! n = Some (i, c) -> l !! i = Some sp ->
  exists rv pm' w', fault_finish w sp c = Done (rv, pm', w') /\
    op_ok (mkSys w l f) (OpResume n) (mkSys w' (<[i:=mkSpace (sp_map sp) pm']> l) (delete n f)).
Proof.
  intros I En Ei.
  destruct (sys_one w l f i sp (OpResume n) [(i, c)] (delete n f) I Ei (delete_Permutation _ _ _ En)) as (Y & O & I1 & Et & _ & K).
  { intros k Nk ->. apply Nk. by exists c. }
  rewrite flights_one in I1, Et, K. rewrite holds_one in I1.
  destruct (fault_finish_ok w sp c Y O I1) as (rv & pm' & w' & E & I2 & C).
  { rewrite Et. apply (si_faults _ I (i, c)). exact (list_elem_of_lookup_2 _ _ _ En). }
  exists rv, pm', w'. split; [exact E|].
  apply (K w' (mkSpace (sp_map sp) pm') []); rewrite ?flights_nil, ?holds_nil; [reflexivity|exact I2|exact C|intros x []%not_elem_of_nil].
Qed.

Lemma do_map_ok (w : vmw F) l f i sp va size prot flags :
  sys_inv (mkSys w l f) -> l !! i = Some sp -> range_flags_ok prot flags = true -> u64 va -> u64 size ->
  let '(ok, m', h') := vm_map_enter (sp_map sp) va size prot flags (vw_heap w) in
  op_ok (mkSys w l f) (OpMap i va size prot flags) (mkSys (set_heap w h') (<[i:=mkSpace m' (sp_pm sp)]> l) f).
Proof.
  intros I Ei Fl Hv Hs. destruct (sys_quiet w l f i sp (OpMap i va size prot flags) I Ei ltac:(by intros k)) as (Y & O & I1 & _ & K).
  assert (entry_wf (mkVme va (va + size) 0 None prot flags)) as Wf.
  { unfold range_flags_ok in Fl. apply andb_true_iff in Fl as [[F1 F2]%andb_true_iff F3].
    split; cbn [vme_prot vme_flags]; [destruct (has prot VM_PROT_WRITE)|destruct (has flags VME_F_COW)|destruct (has flags VME_F_LAZY)]; done. }
  unfold vm_map_enter. pose proof (space_enter no_ex w sp va size prot flags None 0 (vw_heap w) Y O) as En. cbn [named] in En.
  rewrite gmultiset_disj_union_left_id in En. specialize (En I1 Wf Hv Hs).
  destruct (vm_map_enter_backed _ _ _ _ _ _ _ _) as [[ok m'] h']. destruct ok.
  - destruct En as (_ & I2 & Ef & _). apply K.
    + apply (vm_inv_same _ w); [reflexivity..|exact I2].
    + assert (total (set_heap w h') (mkSpace m' (sp_pm sp)) Y = total w sp Y) as -> by (unfold total; by rewrite <- Ef).
      by apply civil_refl.
  - subst m'. rewrite space_eta. apply K; [apply (vm_inv_same _ w); [reflexivity..|exact I1]|by apply civil_refl].
Qed.

Lemma do_unmap_ok (w : vmw F) l f i sp va size :
  sys_inv (mkSys w l f) -> sys_few (mkSys w l f) -> l !! i = Some sp -> u64 va -> u64 size ->
  exists ok sp' w', vm_map_release w sp va size = Done (ok, sp', w') /\
    op_ok (mkSys w l f) (OpUnmap i va size) (mkSys w' (<[i:=sp']> l) f).
Proof.
  intros I Few Ei Hv Hz. destruct (sys_quiet w l f i sp (OpUnmap i va size) I Ei ltac:(by intros k)) as (Y & O & I1 & En & K).
  destruct (vm_map_release_ok w sp va size Y O I1 (proj2 (few_objs _ _ _ Few En)) Hv Hz) as (ok & sp' & w' & E & _ & R).
  exists ok, sp', w'. split; [exact E|]. apply K; apply R.
Qed.

Lemma do_exit_ok (w : vmw F) l f i sp :
  sys_inv (mkSys w l f) -> l !! i = Some sp ->
  exists sp' w', vm_map_release_anon w sp = Done (sp', w') /\ op_ok (mkSys w l f) (OpExit i) (mkSys w' (<[i:=sp']> l) f).
Proof.
  intros I Ei. destruct (sys_quiet w l f i sp (OpExit i) I Ei ltac:(by intros k)) as (Y & O & I1 & _ & K).
  destruct (vm_map_release_anon_ok no_ex w sp Y O I1) as (pm' & w' & E & Sh).
  exists (mkSpace (sp_map sp) pm'), w'. split; [exact E|]. apply K; apply Sh.
Qed.

(** Two acting spaces. *)
Lemma sys_pair (w : vmw F) l f src dst rest :
  sys_inv (mkSys w l f) -> l ≡ₚ [src; dst] ++ rest ->
  pair_inv no_ex w src dst (outside w rest f) (outside_names rest f) /\
  total2 w src dst (outside w rest f) = sys_total (mkSys w l f).
Proof.
  intros [W S Ob _] El. destruct (total_split w l f [src; dst] rest [] f El ltac:(reflexivity)) as [Et En].
  rewrite flights_nil in Et. rewrite holds_nil in En. cbn [sy_w sy_spaces sy_faults] in *.
  assert (sys_total (mkSys w l f) = total2 w src dst (outside w rest f)) as Et2.
  { rewrite Et. unfold sys_frames. rewrite gather_cons, gather_one, <- gmultiset_disj_union_assoc. reflexivity. }
  assert (sys_names l ⊎ holds f = nm src ⊎ (nm dst ⊎ outside_names rest f)) as En2.
  { rewrite En. unfold sys_names at 1. rewrite gather_cons, gather_one, <- gmultiset_disj_union_assoc. reflexivity. }
  rewrite Et2, En2 in *. split; [|reflexivity]. split; [split|].
  - exact W.
  - apply S. rewrite El. by left.
  - exact Ob.
  - apply S. rewrite El. right. by left.
Qed.

Lemma sys_few_fork (w : vmw F) l f src dst rest :
  sys_few (mkSys w l f) -> l ≡ₚ [src; dst] ++ rest ->
  few_owners w src (outside w rest f) /\ few_refs (nm src ⊎ (nm src ⊎ outside_names rest f)).
Proof.
  intros [B1 B2] El. destruct (total_split w l f [src; dst] rest [] f El ltac:(reflexivity)) as [Et En].
  rewrite flights_nil in Et. rewrite holds_nil in En. cbn [sy_w sy_spaces sy_faults] in *. split.
  - intros x. specialize (B1 x). revert B1. rewrite Et. unfold sys_frames, space_frames.
    rewrite gather_cons, !mult_union. lia.
  - intros x. specialize (B2 x). revert B2. rewrite En. unfold sys_names at 1.
    rewrite gather_cons, !mult_union. lia.
Qed.

Lemma do_fork_ok (w : vmw F) l f i j src dst :
  sys_inv (mkSys w l f) -> sys_few (mkSys w l f) -> l !! i = Some src -> l !! j = Some dst -> i <> j ->
  vm_head (sp_map dst) = [] ->
  exists ok src' dst' w', vm_map_fork_share w src dst = Done (ok, src', dst', w') /\
    op_ok (mkSys w l f) (OpFork i j) (mkSys w' (<[j:=dst']> (<[i:=src']> l)) f).
Proof.
  intros I Few Ei Ej Nij Em. destruct (focus2 l i j src dst Nij Ei Ej) as (rest & P1 & P2 & P3).
  destruct (sys_pair w l f src dst rest I P1) as [Pi Et]. destruct (sys_few_fork w l f src dst rest Few P1) as [Fo Fr].
  destruct (fork_entries_ok _ _ _ _ _ _ _ _ _ _ (fork_start w src dst _ _ Pi Em Fo Fr))
    as (ok & l' & spm' & dst' & w' & E & _ & Kp & _). cbn [app] in *.
  unfold vm_map_fork_share. rewrite E, bind_Done. eexists ok, _, dst', w'. split; [reflexivity|].
  set (src' := mkSpace _ spm') in *. destruct Kp as [[[W' S' Ob'] D'] C' _ _]. rewrite Et in C'.
  assert (sys_frames w' [src'; dst'] ⊎ (flights [] ⊎ outside w rest f) = total2 w' src' dst' (outside w rest f)) as Ex.
  { rewrite flights_nil. unfold sys_frames. rewrite gather_cons, gather_one, <- gmultiset_disj_union_assoc. reflexivity. }
  destruct (sys_change w w' l f (<[j:=dst']> (<[i:=src']> l)) f [src; dst] [src'; dst'] rest [] [] f I P1 (P2 src' dst')) as [I' Vw];
    rewrite ?Ex; [reflexivity..|exact C'|exact W'| | |intros x []%not_elem_of_nil|].
  - intros sp2. rewrite !elem_of_cons. intros [->|[->|[]%not_elem_of_nil]]; [exact S'|exact D'].
  - rewrite holds_nil. unfold sys_names at 1. rewrite gather_cons, gather_one, <- gmultiset_disj_union_assoc. exact Ob'.
  - split; [exact I'|]. apply (views_kept _ _ _ _ _ _ _ rest); [| |exact Vw].
    + intros k Nk. cbn in Nk. rewrite !list_lookup_insert_ne by (intros ->; apply Nk; auto). reflexivity.
    + intros k x Nk. cbn in Nk. apply P3; intros ->; apply Nk; auto.
Qed.

(** * Properties *)

Lemma is_u64_spec x : is_u64 x = true -> u64 x.
Proof. unfold is_u64, u64. lia. Qed.

Lemma sys_do_ok s op : sys_inv s -> sys_few s -> exists s', sys_do s op = Done s' /\ op_ok s op s'.
Proof.
  intros I Few. destruct s as [w l f]. unfold sys_do. cbn [sy_w sy_spaces sy_faults].
  assert (exists s', Done (mkSys w l f) = Done s' /\ op_ok (mkSys w l f) op s') as Idle.
  { eexists. split; [reflexivity|by apply op_nothing]. }
  destruct op as [i page off b|i va write dt|n|i va size prot flags|i va size|i|i j].
  1, 2, 4-7: destruct (l !! i) as [sp|] eqn:Ei; [|exact Idle].
  - eexists. split; [reflexivity|by apply do_store_ok].
  - destruct (do_fault_ok w l f i sp va write dt I Few Ei) as (c & pm' & w' & E & K). rewrite E, bind_Done. eauto.
  - destruct (range_flags_ok prot flags && is_u64 va && is_u64 size) eqn:G; [|exact Idle].
    apply andb_true_iff in G as [[G1 G2%is_u64_spec]%andb_true_iff G3%is_u64_spec].
    pose proof (do_map_ok w l f i sp va size prot flags I Ei G1 G2 G3) as K.
    destruct (vm_map_enter _ _ _ _ _ _) as [[ok m'] h']. eauto.
  - destruct (is_u64 va && is_u64 size) eqn:G; [|exact Idle]. apply andb_true_iff in G as [G2%is_u64_spec G3%is_u64_spec].
    destruct (do_unmap_ok w l f i sp va size I Few Ei G2 G3) as (ok & sp' & w' & E & K). rewrite E, bind_Done. eauto.
  - destruct (do_exit_ok w l f i sp I Ei) as (sp' & w' & E & K). rewrite E, bind_Done. eauto.
  - destruct (l !! j) as [dst|] eqn:Ej; [|exact Idle].
    destruct (bool_decide (i <> j) && bool_decide (vm_head (sp_map dst) = [])) eqn:G; [|exact Idle].
    apply andb_true_iff in G as [G1%bool_decide_eq_true G2%bool_decide_eq_true].
    destruct (do_fork_ok w l f i j sp dst I Few Ei Ej G1 G2) as (ok & src' & dst' & w' & E & K). rewrite E, bind_Done. eauto.
  - destruct (f !! n) as [[i c]|] eqn:En; [|exact Idle]. destruct (l !! i) as [sp|] eqn:Ei; [|exact Idle].
    destruct (do_resume_ok w l f n i c sp I En Ei) as (rv & pm' & w' & E & K). rewrite E, bind_Done. eauto.
Qed.

(** A step of the machine while no count is near its width. *)
Definition sys_step (s s' : sys) : Prop := sys_few s /\ exists op, sys_do s op = Done s'.



End System.

(** ** Runs *)

Definition family_sys : sys := mkSys family_vw [demo_space; family_child] [].

Lemma family_sys_inv : sys_inv family_sys.
Proof.
  destruct family_pair as [[W S Ob] D]. fold (total2 family_vw demo_space family_child ∅) in W, S.
  assert (sys_total family_sys = total2 family_vw demo_space family_child ∅) as Et.
  { unfold sys_total, sys_frames. cbn [sy_w sy_spaces sy_faults family_sys]. rewrite gather_cons, gather_one.
    by rewrite <- gmultiset_disj_union_assoc. }
  split; rewrite ?Et.
  - exact W.
  - intros sp Hin. apply elem_of_cons in Hin as [->|Hin]; [exact S|]. apply list_elem_of_singleton in Hin as ->. exact D.
  - cbn [family_sys sy_spaces sy_faults sy_w]. unfold sys_names. rewrite gather_cons, gather_one.
    by rewrite <- gmultiset_disj_union_assoc.
  - intros f []%not_elem_of_nil.
Qed.

Lemma family_sys_few : sys_few family_sys.
Proof.
  split.
  - intros f. unfold sys_total, sys_frames. cbn [sy_w sy_spaces sy_faults family_sys]. rewrite gather_cons, gather_one.
    rewrite family_parent_frames, family_child_frames, !frames_cons.
    change (frames []) with (∅ : gmultiset Z). change (flights []) with (∅ : gmultiset Z).
    rewrite !mult_union, !multiplicity_empty, !multiplicity_singleton. repeat case_decide; lia.
  - intros a. cbn [family_sys sy_spaces sy_faults]. change (holds []) with (∅ : gmultiset Z). unfold sys_names. rewrite gather_cons, gather_one.
    cbn [demo_space sp_map demo_user_map vm_head entry_names vme_object named family_child].
    rewrite !mult_union, !multiplicity_empty, multiplicity_singleton. case_decide; lia.
Qed.


(** The parent writes to a page of its zero-fill range, then stores in it. *)
Definition family_page : Z := VM_USER_VA_LO + 65536.
Definition family_faulted : res sys := s ← sys_do family_sys (OpFault 0 family_page true 0); sys_do s (OpResume 0).
Definition family_after : sys := match family_faulted with Done s => s | _ => family_sys end.

Lemma family_after_inv : sys_inv family_after.
Proof.
  unfold family_after, family_faulted.
  destruct (do_fault_ok family_vw [demo_space; family_child] [] 0 demo_space family_page true 0 family_sys_inv family_sys_few eq_refl)
    as (c & pm1 & w1 & E1 & [I1 _]).
  destruct (do_resume_ok w1 [mkSpace (sp_map demo_space) pm1; family_child] [(0%nat, c)] 0 0 c _ I1 eq_refl eq_refl)
    as (rv & pm2 & w2 & E2 & [I2 _]).
  cbn [sys_do family_sys sy_w sy_spaces sy_faults lookup list_lookup]. rewrite E1, !bind_Done.
  cbn [sys_do sy_w sy_spaces sy_faults lookup list_lookup insert list_insert]. rewrite E2, bind_Done. exact I2.
Qed.

Lemma family_leaf : exists lf, (sy_spaces family_after !! 0%nat ≫= fun sp => pm_leaf (vw_mem (sy_w family_after)) (sp_pm sp) family_page) = Some lf
  /\ lf_write lf = true.
Proof. eexists. split; [vm_compute; reflexivity|reflexivity]. Qed.

