(* ===== verification/Kmem.v ===== *)
(** The kernel heap, [kern/kmem.c]: power-of-two buckets of chunks cut from
    frames of [vm/pmm.c], and runs of whole frames for large requests, with
    red zones behind live chunks and poison in free ones. *)

From stdpp Require Import base list numbers strings gmap gmultiset fin_maps.
From Stdlib Require Import ZArith Lia ZifyBool.
From S2P Require Import Prelude Pmm Phys VmObject VmMap Pmap.

(** * Bytes *)

Definition ld16 (m : mem) (a : Z) : Z := ld_le 2 m a.
Definition st16 (m : mem) (a v : Z) : mem := st_le 2 m a v.
Definition ld32 (m : mem) (a : Z) : Z := ld_le 4 m a.
Definition st32 (m : mem) (a v : Z) : mem := st_le 4 m a v.

(** [while (p < end) *p++ = b] over [n] bytes. *)
Fixpoint fill_bytes (n : nat) (m : mem) (a b : Z) : mem :=
  match n with
  | O => m
  | S n => fill_bytes n (st8 m a b) (a + 1) b
  end.

(** The verifying loop over the same bytes. *)
Fixpoint bytes_are (n : nat) (m : mem) (a b : Z) : bool :=
  match n with
  | O => true
  | S n => (ld8 m a =? b) && bytes_are n m (a + 1) b
  end.

(** * Data *)

Definition KMEM_MIN_LOG2 : Z := 4.
Definition KMEM_MAX_LOG2 : Z := 11.
Definition KMEM_NBUCKETS : Z := KMEM_MAX_LOG2 - KMEM_MIN_LOG2 + 1.
Definition KMEM_HDR_MAGIC : Z := 0x4B4D4348.
Definition KMEM_BUCKET_LARGE : Z := 0xFFFF.
Definition KMEM_RZ_PATTERN : Z := 0xFE.
Definition KMEM_POISON_PATTERN : Z := 0xDE.

(** [struct kmem_hdr]: kh_bucket at 0, kh_npages at 2, kh_magic at 4, kh_size
    at 8; a free chunk's [kc_next] is overlaid on the first eight bytes. *)
Definition KMEM_HDR_SIZE : Z := 16.
Definition KMEM_CHUNK_SIZE : Z := 8.

Definition kh_bucket (m : mem) (hdr : Z) : Z := ld16 m hdr.
Definition kh_npages (m : mem) (hdr : Z) : Z := ld16 m (hdr + 2).
Definition kh_magic (m : mem) (hdr : Z) : Z := ld32 m (hdr + 4).
Definition kh_size (m : mem) (hdr : Z) : Z := ld64 m (hdr + 8).

Record kmem_bucket := mkBk {
  kb_size : Z;
  kb_free : Z;         (* head of the free list, 0 when empty *)
  kb_alloc : Z;
  kb_freecnt : Z;
  kb_inuse : Z;
}.

Record kmem := mkKmem {
  kmem_buckets : list kmem_bucket;
  kmem_large_chunks : Z;
  kmem_large_pages : Z;
}.

Definition with_buckets (k : kmem) (l : list kmem_bucket) : kmem :=
  mkKmem l (kmem_large_chunks k) (kmem_large_pages k).

(** * Operations *)

Definition kmem_init : kmem :=
  mkKmem ((fun i => mkBk (Z.shiftl 1 (KMEM_MIN_LOG2 + i)) 0 0 0 0) <$> seqZ 0 KMEM_NBUCKETS) 0 0.

Fixpoint bucket_from (l : list kmem_bucket) (i : nat) (size : Z) : option nat :=
  match l with
  | [] => None
  | b :: l => if size <=? kb_size b then Some i else bucket_from l (S i) size
  end.
Definition bucket_for (k : kmem) (size : Z) : option nat := bucket_from (kmem_buckets k) 0 size.

(** The slicing loop of [refill_bucket]: chunk [i] on. *)
Fixpoint slice_page (n : nat) (m : mem) (c size head : Z) : mem * Z :=
  match n with
  | O => (m, head)
  | S n =>
      let m := fill_bytes (Z.to_nat (size - KMEM_CHUNK_SIZE)) m (c + KMEM_CHUNK_SIZE) KMEM_POISON_PATTERN in
      let m := st64 m c head in
      slice_page n m (c + size) size c
  end.

Definition refill_bucket (bk : kmem_bucket) (ph : phys) : kmem_bucket * phys :=
  let '(pa, s) := pmm_alloc_page (ph_pmm ph) in
  if pa =? PA_INVALID then (bk, with_pmm ph s)
  else
    let chunks := PAGE_SIZE / kb_size bk in
    let '(m, head) := slice_page (Z.to_nat chunks) (ph_mem ph) pa (kb_size bk) (kb_free bk) in
    (mkBk (kb_size bk) head (w64 (kb_alloc bk + chunks)) (w64 (kb_freecnt bk + chunks)) (kb_inuse bk),
     with_mem (with_pmm ph s) m).

Definition slack_of (m : mem) (hdr : Z) : Z := w64 (hdr + KMEM_HDR_SIZE + kh_size m hdr).

Definition paint_redzone (m : mem) (hdr bucket_size : Z) : mem :=
  let slack := slack_of m hdr in
  fill_bytes (Z.to_nat (hdr + bucket_size - slack)) m slack KMEM_RZ_PATTERN.

Definition verify_redzone (m : mem) (hdr bucket_size : Z) : res unit :=
  let slack := slack_of m hdr in
  KASSERT (bytes_are (Z.to_nat (hdr + bucket_size - slack)) m slack KMEM_RZ_PATTERN) "kfree: red-zone violation".

Definition paint_poison (m : mem) (hdr bucket_size : Z) : mem :=
  fill_bytes (Z.to_nat (bucket_size - KMEM_CHUNK_SIZE)) m (hdr + KMEM_CHUNK_SIZE) KMEM_POISON_PATTERN.

Definition verify_poison (m : mem) (c bucket_size : Z) : res unit :=
  KASSERT (bytes_are (Z.to_nat (bucket_size - KMEM_CHUNK_SIZE)) m (c + KMEM_CHUNK_SIZE) KMEM_POISON_PATTERN)
    "kmalloc: freed-poison violation".

Definition kmalloc_large (k : kmem) (ph : phys) (size : Z) : Z * kmem * phys :=
  let need := w64 (size + KMEM_HDR_SIZE) in
  let npages := w64 (need + PAGE_SIZE - 1) / PAGE_SIZE in
  if 0xFFFF <? npages then (0, k, ph)
  else
    let '(pa, s) := pmm_alloc_pages (ph_pmm ph) npages in
    if pa =? PA_INVALID then (0, k, with_pmm ph s)
    else
      let m := st16 (ph_mem ph) pa KMEM_BUCKET_LARGE in
      let m := st16 m (pa + 2) npages in
      let m := st32 m (pa + 4) KMEM_HDR_MAGIC in
      (pa + KMEM_HDR_SIZE,
       mkKmem (kmem_buckets k) (w64 (kmem_large_chunks k + 1)) (w64 (kmem_large_pages k + npages)),
       with_mem (with_pmm ph s) m).

Definition kmalloc (k : kmem) (ph : phys) (size : Z) : res (Z * kmem * phys) :=
  if size =? 0 then Done (0, k, ph)
  else
    match bucket_for k (w64 (size + KMEM_HDR_SIZE)) with
    | None => Done (kmalloc_large k ph size)
    | Some i =>
        let bk := default (mkBk 0 0 0 0 0) (kmem_buckets k !! i) in
        let '(bk, ph) := if kb_free bk =? 0 then refill_bucket bk ph else (bk, ph) in
        let c := kb_free bk in
        if c =? 0 then Done (0, with_buckets k (<[i:=bk]> (kmem_buckets k)), ph)
        else
          let bucket_size := kb_size bk in
          let bk := mkBk bucket_size (ld64 (ph_mem ph) c) (kb_alloc bk) (w64 (kb_freecnt bk - 1)) (w64 (kb_inuse bk + 1)) in
          let k := with_buckets k (<[i:=bk]> (kmem_buckets k)) in
          verify_poison (ph_mem ph) c bucket_size ;;
          let m := st16 (ph_mem ph) c (Z.of_nat i) in
          let m := st16 m (c + 2) 0 in
          let m := st32 m (c + 4) KMEM_HDR_MAGIC in
          let m := st64 m (c + 8) size in
          let m := paint_redzone m c bucket_size in
          Done (c + KMEM_HDR_SIZE, k, with_mem ph m)
    end.

Definition kcalloc (k : kmem) (ph : phys) (n size : Z) : res (Z * kmem * phys) :=
  if negb (n =? 0) && ((2 ^ 64 - 1) / n <? size) then Done (0, k, ph)
  else
    let total := w64 (n * size) in
    r ← kmalloc k ph total;
    let '(p, k, ph) := r in
    if p =? 0 then Done (0, k, ph)
    else Done (p, k, with_mem ph (fill_bytes (Z.to_nat total) (ph_mem ph) p 0)).

Definition kfree_large (k : kmem) (ph : phys) (hdr : Z) : res (kmem * phys) :=
  let npages := kh_npages (ph_mem ph) hdr in
  KASSERT (Z.land hdr PAGE_MASK =? 0) "kfree_large: header not on page boundary" ;;
  let m := st32 (ph_mem ph) (hdr + 4) 0 in
  s ← pmm_free_pages (ph_pmm ph) hdr npages;
  Done (mkKmem (kmem_buckets k) (w64 (kmem_large_chunks k - 1)) (w64 (kmem_large_pages k - npages)),
        with_mem (with_pmm ph s) m).

Definition kfree (k : kmem) (ph : phys) (p : Z) : res (kmem * phys) :=
  if p =? 0 then Done (k, ph)
  else
    let hdr := p - KMEM_HDR_SIZE in
    let m := ph_mem ph in
    KASSERT (kh_magic m hdr =? KMEM_HDR_MAGIC) "kfree: bad magic" ;;
    if kh_bucket m hdr =? KMEM_BUCKET_LARGE then kfree_large k ph hdr
    else
      KASSERT (kh_bucket m hdr <? KMEM_NBUCKETS) "kfree: bogus bucket index" ;;
      let i := Z.to_nat (kh_bucket m hdr) in
      let bk := default (mkBk 0 0 0 0 0) (kmem_buckets k !! i) in
      let bucket_size := kb_size bk in
      verify_redzone m hdr bucket_size ;;
      let m := paint_poison m hdr bucket_size in
      let m := st32 m (hdr + 4) 0 in
      let m := st64 m hdr (kb_free bk) in
      let bk := mkBk bucket_size hdr (kb_alloc bk) (w64 (kb_freecnt bk + 1)) (w64 (kb_inuse bk - 1)) in
      Done (with_buckets k (<[i:=bk]> (kmem_buckets k)), with_mem ph m).

Fixpoint cached_from (l : list kmem_bucket) (total : Z) : Z :=
  match l with
  | [] => total
  | b :: l =>
      let per := PAGE_SIZE / kb_size b in
      if per =? 0 then cached_from l total
      else cached_from l (w64 (total + w64 (kb_alloc b + per - 1) / per))
  end.
Definition kmem_cached_pages (k : kmem) : Z := cached_from (kmem_buckets k) 0.

(** * Lemmas on bytes *)

Lemma ld8_fill_bytes n m a b x :
  ld8 (fill_bytes n m a b) x = if (a <=? x) && (x <? a + Z.of_nat n) then w8 b else ld8 m x.
Proof.
  revert m a. induction n as [|n IH]; intros m a; cbn [fill_bytes].
  { by destruct ((a <=? x) && _) eqn:?; [lia|]. }
  rewrite IH, ld8_st8.
  destruct ((a + 1 <=? x) && (x <? a + 1 + Z.of_nat n)) eqn:?,
    (x =? a) eqn:?, ((a <=? x) && (x <? a + Z.of_nat (S n))) eqn:?; done || lia.
Qed.

Lemma ld8_fill_to m a e b x :
  ld8 (fill_bytes (Z.to_nat (e - a)) m a b) x = if (a <=? x) && (x <? e) then w8 b else ld8 m x.
Proof. rewrite ld8_fill_bytes. destruct ((a <=? x) && (x <? e)) eqn:?, ((a <=? x) && (x <? a + _)) eqn:?; done || lia. Qed.

Lemma bytes_are_spec n m a b :
  bytes_are n m a b = true <-> forall x, a <= x < a + Z.of_nat n -> ld8 m x = b.
Proof.
  revert a. induction n as [|n IH]; intros a; cbn [bytes_are]; [split; [intros _ x; lia|done]|].
  rewrite andb_true_iff, IH, Z.eqb_eq. split.
  - intros [E R] x Hx. destruct (Z.eq_dec x a) as [->|]; [done|]. apply R. lia.
  - intros R. split; [apply R; lia|]. intros x Hx. apply R. lia.
Qed.

Lemma ld_le_st_ne n k m a v b :
  b + Z.of_nat n <= a \/ a + Z.of_nat k <= b -> ld_le n (st_le k m a v) b = ld_le n m b.
Proof. intros Hb. apply ld_le_ext. intros x Hx. apply ld8_st_le. lia. Qed.

Lemma ld_le_st64_ne n m a v b : b + Z.of_nat n <= a \/ a + 8 <= b -> ld_le n (st64 m a v) b = ld_le n m b.
Proof. intros Hb. apply ld_le_ext. intros x Hx. apply ld8_st64_out. lia. Qed.

(** Four stores that make a header. *)
Definition put_header (m : mem) (c bucket npages magic size : Z) : mem :=
  st64 (st32 (st16 (st16 m c bucket) (c + 2) npages) (c + 4) magic) (c + 8) size.

Lemma put_header_out m c b n g s x : x < c \/ c + 16 <= x -> ld8 (put_header m c b n g s) x = ld8 m x.
Proof.
  intros Hx. unfold put_header, st32, st16. rewrite ld8_st64_out, !ld8_st_le by lia. reflexivity.
Qed.

Lemma put_header_fields m c b n g s :
  0 <= b < 2 ^ 16 -> 0 <= n < 2 ^ 16 -> 0 <= g < 2 ^ 32 -> u64 s ->
  let m' := put_header m c b n g s in
  kh_bucket m' c = b /\ kh_npages m' c = n /\ kh_magic m' c = g /\ kh_size m' c = s.
Proof.
  intros Hb Hn Hg Hs. cbv zeta. unfold kh_bucket, kh_npages, kh_magic, kh_size, put_header, ld16, ld32, st16, st32.
  split; [|split; [|split]].
  - rewrite ld_le_st64_ne, !ld_le_st_ne by lia. rewrite ld_le_st_le. by apply Z.mod_small.
  - rewrite ld_le_st64_ne, (ld_le_st_ne 2 4) by lia. rewrite ld_le_st_le. by apply Z.mod_small.
  - rewrite ld_le_st64_ne by lia. rewrite ld_le_st_le. by apply Z.mod_small.
  - by apply ld64_st64_eq.
Qed.

(** * The heap as its callers see it *)

(** What sits at a header address: a chunk on bucket [i]'s free list, a live
    allocation of [size] bytes in a chunk of bucket [i], or a run of [n]
    frames. *)
Inductive place :=
| PFree (i : nat)
| PSmall (i : nat) (size : Z)
| PLarge (n size : Z).

#[export] Instance place_eq_dec : EqDecision place.
Proof. solve_decision. Defined.

Definition bucket_bytes (i : nat) : Z := 2 ^ (KMEM_MIN_LOG2 + Z.of_nat i).

Definition extent (x : place) : Z :=
  match x with PFree i | PSmall i _ => bucket_bytes i | PLarge n _ => n * PAGE_SIZE end.

(** The bytes the caller may use. *)
Definition payload (x : place) : Z := match x with PFree _ => 0 | PSmall _ sz | PLarge _ sz => sz end.

Definition place_ok (m : mem) (c : Z) (x : place) : Prop :=
  match x with
  | PFree i => (i < 8)%nat /\ forall a, c + 8 <= a < c + bucket_bytes i -> ld8 m a = KMEM_POISON_PATTERN
  | PSmall i sz =>
      (i < 8)%nat /\ 0 < sz /\ 16 + sz <= bucket_bytes i /\
      kh_bucket m c = Z.of_nat i /\ kh_magic m c = KMEM_HDR_MAGIC /\ kh_size m c = sz /\
      forall a, c + 16 + sz <= a < c + bucket_bytes i -> ld8 m a = KMEM_RZ_PATTERN
  | PLarge n sz =>
      0 < n <= 0xFFFF /\ 0 < sz /\ 16 + sz <= n * PAGE_SIZE /\ c mod PAGE_SIZE = 0 /\
      kh_bucket m c = KMEM_BUCKET_LARGE /\ kh_npages m c = n /\ kh_magic m c = KMEM_HDR_MAGIC
  end.

(** The free list threaded through the chunks. *)
Fixpoint linked (m : mem) (head : Z) (l : list Z) : Prop :=
  match l with
  | [] => head = 0
  | c :: l => head = c /\ 0 < c < 2 ^ 32 /\ linked m (ld64 m c) l
  end.

Definition page_of (a : Z) : Z := a / PAGE_SIZE * PAGE_SIZE.

Definition is_small (i : nat) (x : place) : bool := match x with PSmall j _ => Nat.eqb i j | _ => false end.
Definition is_large (x : place) : bool := match x with PLarge _ _ => true | _ => false end.
Definition run_pages (x : place) : Z := match x with PLarge n _ => n | _ => 0 end.

(** Sums over the places. *)
Definition tally (f : place -> Z) (H : gmap Z place) : Z := map_fold (fun _ x n => f x + n) 0 H.
Definition ind (f : place -> bool) (x : place) : Z := if f x then 1 else 0.

Lemma tally_insert f H c x : H !! c = None -> tally f (<[c:=x]> H) = f x + tally f H.
Proof. intros N. unfold tally. rewrite map_fold_insert_L; [done| |done]. intros. lia. Qed.

Lemma tally_delete f H c x : H !! c = Some x -> tally f H = f x + tally f (delete c H).
Proof. intros E. unfold tally. rewrite (map_fold_delete_L _ _ c x); [done| |done]. intros. lia. Qed.

Lemma tally_upd f H c x y : H !! c = Some x -> tally f (<[c:=y]> H) = tally f H - f x + f y.
Proof.
  intros E. rewrite <- insert_delete_eq, tally_insert by apply lookup_delete_eq. rewrite (tally_delete f H c x E). lia.
Qed.

Lemma small_free i j : ind (is_small i) (PFree j) = 0.
Proof. reflexivity. Qed.
Lemma small_small i j sz : ind (is_small i) (PSmall j sz) = if Nat.eqb i j then 1 else 0.
Proof. reflexivity. Qed.
Lemma small_large i n sz : ind (is_small i) (PLarge n sz) = 0.
Proof. reflexivity. Qed.
Lemma large_free j : ind is_large (PFree j) = 0.
Proof. reflexivity. Qed.
Lemma large_small j sz : ind is_large (PSmall j sz) = 0.
Proof. reflexivity. Qed.
Lemma large_large n sz : ind is_large (PLarge n sz) = 1.
Proof. reflexivity. Qed.

Create Rewrite HintDb places.
#[export] Hint Rewrite small_free small_small small_large large_free large_small large_large : places.

Record heap_ok (k : kmem) (m : mem) (fl : nat -> list Z) (H : gmap Z place) (K : list Z) : Prop := {
  hp_len : length (kmem_buckets k) = 8%nat;
  hp_size : forall i b, kmem_buckets k !! i = Some b -> kb_size b = bucket_bytes i;
  hp_linked : forall i b, kmem_buckets k !! i = Some b -> linked m (kb_free b) (fl i);
  hp_free : forall i c, (i < 8)%nat -> c ∈ fl i <-> H !! c = Some (PFree i);
  hp_nodup : forall i, (i < 8)%nat -> NoDup (fl i);
  hp_bytes : forall c x, H !! c = Some x -> place_ok m c x;
  hp_apart : forall c c' x x', H !! c = Some x -> H !! c' = Some x' -> c <> c' ->
             c + extent x <= c' \/ c' + extent x' <= c;
  hp_align : forall c x, H !! c = Some x -> 0 < c /\ c mod 16 = 0;
  hp_frames : forall c x a, H !! c = Some x -> c <= a < c + extent x -> page_of a ∈ K;
  hp_counts : forall i b, kmem_buckets k !! i = Some b ->
    kb_freecnt b = w64 (Z.of_nat (length (fl i))) /\ kb_inuse b = w64 (tally (ind (is_small i)) H) /\
    kb_alloc b = w64 (kb_freecnt b + kb_inuse b);
  hp_large : kmem_large_chunks k = w64 (tally (ind is_large) H) /\ kmem_large_pages k = w64 (tally run_pages H);
}.

(** [K] are the frames the heap holds, [Y] everyone else's. *)
Record kmem_ok (k : kmem) (ph : phys) (fl : nat -> list Z) (H : gmap Z place) (K : list Z) (Y : gmultiset Z) : Prop := {
  km_heap : heap_ok k (ph_mem ph) fl H K;
  km_nodup : NoDup K;
  km_apart : forall f, f ∈ K -> f ∉ Y;
  km_owned : owned_by (ph_pmm ph) (frames K ⊎ Y);
}.

(** * Lemmas on the heap *)

Lemma bucket_bytes_ge i : 16 <= bucket_bytes i.
Proof.
  unfold bucket_bytes, KMEM_MIN_LOG2. change 16 with (2 ^ 4). apply Z.pow_le_mono_r; lia.
Qed.

Lemma bucket_bytes_table i : (i < 8)%nat -> bucket_bytes i ∈ [16; 32; 64; 128; 256; 512; 1024; 2048].
Proof.
  intros Hi. do 8 (destruct i as [|i]; [apply (bool_decide_unpack _); vm_compute; exact I|]). lia.
Qed.

Lemma bucket_bytes_divides i : (i < 8)%nat ->
  bucket_bytes i mod 16 = 0 /\ 4096 mod bucket_bytes i = 0 /\ bucket_bytes i <= 2048.
Proof.
  intros Hi. pose proof (bucket_bytes_table i Hi) as T. repeat (apply elem_of_cons in T as [->|T]; [done|]).
  by apply not_elem_of_nil in T.
Qed.

Lemma extent_header m c x : place_ok m c x -> 16 <= extent x.
Proof. destruct x as [i|i sz|n sz]; cbn; intros Px; [apply bucket_bytes_ge|apply bucket_bytes_ge|unfold PAGE_SIZE; lia]. Qed.

Lemma place_ok_ext m m' c x :
  (forall a, c <= a < c + extent x -> ld8 m' a = ld8 m a) -> place_ok m c x -> place_ok m' c x.
Proof.
  intros E Px. pose proof (extent_header m c x Px) as B.
  assert (kh_bucket m' c = kh_bucket m c /\ kh_npages m' c = kh_npages m c /\ kh_magic m' c = kh_magic m c /\
          kh_size m' c = kh_size m c) as (E1 & E2 & E3 & E4).
  { unfold kh_bucket, kh_npages, kh_magic, kh_size, ld16, ld32. split_and!;
      first [apply ld_le_ext|apply ld64_ext]; intros a Ha; apply E; lia. }
  destruct x as [i|i sz|n sz]; cbn [place_ok extent] in *; rewrite ?E1, ?E2, ?E3, ?E4.
  - destruct Px as [Hi Px]. split; [exact Hi|]. intros a Ha. rewrite E by lia. by apply Px.
  - destruct Px as (P1 & P2 & P3 & P4 & P5 & P6 & P7). split_and!; try done. intros a Ha. rewrite E by lia. by apply P7.
  - exact Px.
Qed.

Lemma linked_ext m m' head l :
  (forall c a, c ∈ l -> c <= a < c + 8 -> ld8 m' a = ld8 m a) -> linked m head l -> linked m' head l.
Proof.
  revert head. induction l as [|c l IH]; cbn [linked]; intros head E; [done|]. intros (-> & B & L).
  split; [done|]. split; [exact B|]. rewrite (ld64_ext m m' c).
  - apply IH; [|exact L]. intros c' a Hc. apply E. by right.
  - intros a. apply E. by left.
Qed.

Lemma linked_head m head l : linked m head l -> head = 0 /\ l = [] \/ (exists l', l = head :: l' /\ 0 < head < 2 ^ 32).
Proof. destruct l as [|c l]; cbn; [by left|]. intros (-> & B & _). right. eauto. Qed.

Definition upd {A} (f : nat -> A) (i : nat) (v : A) (j : nat) : A := if Nat.eqb j i then v else f j.

Lemma upd_eq {A} (f : nat -> A) i v : upd f i v i = v.
Proof. unfold upd. by rewrite Nat.eqb_refl. Qed.
Lemma upd_ne {A} (f : nat -> A) i v j : j <> i -> upd f i v j = f j.
Proof. unfold upd. by intros ->%Nat.eqb_neq. Qed.

(** One place [c] changes its state, its extent kept: nothing else notices. *)
Lemma heap_set k m fl H K k' m' fl' c x y :
  heap_ok k m fl H K -> H !! c = Some x -> extent y = extent x ->
  (forall a, a < c \/ c + extent x <= a -> ld8 m' a = ld8 m a) -> place_ok m' c y ->
  length (kmem_buckets k') = 8%nat -> (forall i b, kmem_buckets k' !! i = Some b -> kb_size b = bucket_bytes i) ->
  (forall i b, kmem_buckets k' !! i = Some b -> linked m' (kb_free b) (fl' i)) ->
  (forall i c', (i < 8)%nat -> c' ∈ fl' i <-> <[c:=y]> H !! c' = Some (PFree i)) ->
  (forall i, (i < 8)%nat -> NoDup (fl' i)) ->
  (forall i b, kmem_buckets k' !! i = Some b ->
    kb_freecnt b = w64 (Z.of_nat (length (fl' i))) /\ kb_inuse b = w64 (tally (ind (is_small i)) (<[c:=y]> H)) /\
    kb_alloc b = w64 (kb_freecnt b + kb_inuse b)) ->
  kmem_large_chunks k' = w64 (tally (ind is_large) (<[c:=y]> H)) /\ kmem_large_pages k' = w64 (tally run_pages (<[c:=y]> H)) ->
  heap_ok k' m' fl' (<[c:=y]> H) K.
Proof.
  intros [L1 L2 L3 L4 L5 By Ap Al Fr Ct Lg] Hc Ee Out Py N1 N2 N3 N4 N5 N6 N7.
  assert (forall c' z, <[c:=y]> H !! c' = Some z -> exists z0, H !! c' = Some z0 /\ extent z0 = extent z) as Old.
  { intros c' z. destruct (decide (c' = c)) as [->|Ne].
    - rewrite lookup_insert_eq. intros [= <-]. exists x. split; [exact Hc|by symmetry].
    - rewrite lookup_insert_ne by congruence. eauto. }
  split; try assumption.
  - intros c' z. destruct (decide (c' = c)) as [->|Ne]; [rewrite lookup_insert_eq; by intros [= <-]|].
    rewrite lookup_insert_ne by congruence. intros Hz. apply (place_ok_ext m); [|exact (By c' z Hz)].
    intros a Ha. apply Out. destruct (Ap c c' x z Hc Hz (not_eq_sym Ne)); lia.
  - intros a b x1 x2 H1 H2 Ne. destruct (Old _ _ H1) as (z1 & G1 & <-), (Old _ _ H2) as (z2 & G2 & <-). exact (Ap a b z1 z2 G1 G2 Ne).
  - intros c' z Hz. destruct (Old _ _ Hz) as (z0 & G & _). exact (Al c' z0 G).
  - intros c' z a Hz. destruct (Old _ _ Hz) as (z0 & G & <-). exact (Fr c' z0 a G).
Qed.

(** Other free lists survive writes inside a place that is not on them. *)
Lemma linked_other k m fl H K m' c x i b :
  heap_ok k m fl H K -> H !! c = Some x -> (forall a, a < c \/ c + extent x <= a -> ld8 m' a = ld8 m a) ->
  kmem_buckets k !! i = Some b -> forall head l, (forall z, z ∈ l -> z ∈ fl i /\ z <> c) -> linked m head l -> linked m' head l.
Proof.
  intros Hp Hc Out Hb head l Sub. apply linked_ext. intros c' a Hin Ha. destruct (Sub c' Hin) as [Hf Ne].
  assert (i < 8)%nat as Hi by (rewrite <- (hp_len _ _ _ _ _ Hp); exact (lookup_lt_Some _ _ _ Hb)).
  apply (hp_free _ _ _ _ _ Hp i c' Hi) in Hf. pose proof (bucket_bytes_ge i).
  apply Out. destruct (hp_apart _ _ _ _ _ Hp c c' _ _ Hc Hf (not_eq_sym Ne)); cbn [extent] in *; lia.
Qed.

(** Sums of wrapped counters: one wrap at the end. *)
Ltac w64_sum := unfold w64; Z.div_mod_to_equations; lia.

(** ** A chunk leaves its free list *)

Definition take_bucket (m : mem) (b : kmem_bucket) : kmem_bucket :=
  mkBk (kb_size b) (ld64 m (kb_free b)) (kb_alloc b) (w64 (kb_freecnt b - 1)) (w64 (kb_inuse b + 1)).

Definition arm_chunk (m : mem) (c : Z) (i : nat) (size bucket_size : Z) : mem :=
  paint_redzone (put_header m c (Z.of_nat i) 0 KMEM_HDR_MAGIC size) c bucket_size.

Lemma arm_chunk_ok m c i size :
  (i < 8)%nat -> 0 < c < 2 ^ 32 -> 0 < size -> 16 + size <= bucket_bytes i ->
  place_ok (arm_chunk m c i size (bucket_bytes i)) c (PSmall i size) /\
  forall a, a < c \/ c + bucket_bytes i <= a -> ld8 (arm_chunk m c i size (bucket_bytes i)) a = ld8 m a.
Proof.
  intros Hi Hc Hs Hb. pose proof (bucket_bytes_divides i Hi) as (_ & _ & B3).
  destruct (put_header_fields m c (Z.of_nat i) 0 KMEM_HDR_MAGIC size) as (F1 & F2 & F3 & F4); [lia|lia|done|unfold u64; lia|].
  unfold arm_chunk, paint_redzone, slack_of. set (m1 := put_header _ _ _ _ _ _) in *. rewrite F4.
  unfold KMEM_HDR_SIZE. rewrite w64_small by lia. set (e := c + bucket_bytes i).
  assert (forall a, a < c + 16 + size -> ld8 (fill_bytes (Z.to_nat (e - (c + 16 + size))) m1 (c + 16 + size) KMEM_RZ_PATTERN) a = ld8 m1 a) as Low.
  { intros a Ha. rewrite ld8_fill_to. by destruct ((_ <=? a) && (a <? e)) eqn:?; [lia|]. }
  split.
  - cbn [place_ok]. split; [exact Hi|]. split; [exact Hs|]. split; [exact Hb|].
    unfold kh_bucket, kh_magic, kh_size, ld16, ld32 in *.
    split; [rewrite <- F1; apply ld_le_ext; intros a Ha; apply Low; lia|].
    split; [rewrite <- F3; apply ld_le_ext; intros a Ha; apply Low; lia|].
    split; [transitivity (ld64 m1 (c + 8)); [apply ld64_ext; intros a Ha; apply Low; lia|exact F4]|].
    intros a Ha. rewrite ld8_fill_to. destruct ((_ <=? a) && (a <? e)) eqn:?; [reflexivity|lia].
  - intros a Ha. rewrite ld8_fill_to. destruct ((_ <=? a) && (a <? e)) eqn:?; [lia|]. apply put_header_out. lia.
Qed.

(** A chunk of bucket [i]: free or live. *)
Definition chunk_of (i : nat) (x : place) : Prop := x = PFree i \/ exists sz, x = PSmall i sz.

Lemma chunk_of_facts i x : chunk_of i x ->
  extent x = bucket_bytes i /\ (forall j, x = PFree j -> j = i) /\ run_pages x = 0 /\ ind is_large x = 0 /\
  forall j, j <> i -> ind (is_small j) x = 0.
Proof.
  intros [->|[sz ->]]; autorewrite with places; split_and!; try done; [by intros j [= ->]|].
  intros j Hj. autorewrite with places. by apply Nat.eqb_neq in Hj as ->.
Qed.

(** A chunk of bucket [i] goes from one to the other. *)
Lemma heap_move k m fl H K i b b' c x y l' m' :
  heap_ok k m fl H K -> kmem_buckets k !! i = Some b -> H !! c = Some x -> chunk_of i x -> chunk_of i y ->
  (forall a, a < c \/ c + bucket_bytes i <= a -> ld8 m' a = ld8 m a) -> place_ok m' c y ->
  kb_size b' = kb_size b -> linked m' (kb_free b') l' -> NoDup l' ->
  (forall c', c' ∈ l' <-> if decide (c' = c) then y = PFree i else c' ∈ fl i) ->
  kb_freecnt b' = w64 (Z.of_nat (length l')) ->
  kb_inuse b' = w64 (tally (ind (is_small i)) H - ind (is_small i) x + ind (is_small i) y) ->
  kb_alloc b' = w64 (kb_freecnt b' + kb_inuse b') ->
  heap_ok (with_buckets k (<[i:=b']> (kmem_buckets k))) m' (upd fl i l') (<[c:=y]> H) K.
Proof.
  intros Hp Hb Hc Cx Cy Out Pk Es Ln Nd Hl Q1 Q2 Q3.
  assert (i < 8)%nat as Hi by (rewrite <- (hp_len _ _ _ _ _ Hp); exact (lookup_lt_Some _ _ _ Hb)).
  destruct (chunk_of_facts i x Cx) as (Ex & Fx & Rx & Lx & Sx), (chunk_of_facts i y Cy) as (Ey & Fy & Ry & Ly & Sy).
  assert (forall j bj, <[i:=b']> (kmem_buckets k) !! j = Some bj ->
            j = i /\ bj = b' \/ j <> i /\ kmem_buckets k !! j = Some bj) as Cases.
  { intros j bj E. destruct (decide (j = i)) as [->|Ne].
    - rewrite list_lookup_insert_eq in E by (rewrite (hp_len _ _ _ _ _ Hp); exact Hi). injection E as <-. by left.
    - rewrite list_lookup_insert_ne in E by congruence. by right. }
  apply (heap_set k m fl H K _ _ _ c x y Hp Hc); cbn [with_buckets kmem_buckets kmem_large_chunks kmem_large_pages]; rewrite ?Ex.
  - exact Ey.
  - exact Out.
  - exact Pk.
  - rewrite length_insert. apply Hp.
  - intros j bj [[-> ->]|[Ne E]]%Cases; [rewrite Es; exact (hp_size _ _ _ _ _ Hp i b Hb)|exact (hp_size _ _ _ _ _ Hp j bj E)].
  - intros j bj [[-> ->]|[Ne E]]%Cases; [by rewrite upd_eq|]. rewrite upd_ne by exact Ne. rewrite <- Ex in Out.
    apply (linked_other k m fl H K _ c x j bj Hp Hc Out E); [|exact (hp_linked _ _ _ _ _ Hp j bj E)].
    intros z Hz'. split; [exact Hz'|]. intros ->. apply (hp_free _ _ _ _ _ Hp j c) in Hz'.
    + rewrite Hc in Hz'. injection Hz' as ->. by apply Ne, (Fx j).
    + rewrite <- (hp_len _ _ _ _ _ Hp). exact (lookup_lt_Some _ _ _ E).
  - intros j c' Hj. destruct (decide (j = i)) as [->|Nj].
    + rewrite upd_eq, Hl. destruct (decide (c' = c)) as [->|Ne]; [rewrite lookup_insert_eq; split; [by intros ->|by intros [= ->]]|].
      rewrite lookup_insert_ne by congruence. exact (hp_free _ _ _ _ _ Hp i c' Hi).
    + rewrite upd_ne by exact Nj. rewrite (hp_free _ _ _ _ _ Hp j c' Hj). destruct (decide (c' = c)) as [->|Ne].
      * rewrite lookup_insert_eq, Hc. split; intros [= E]; exfalso; apply Nj; [by apply Fx|by apply Fy].
      * by rewrite lookup_insert_ne by congruence.
  - intros j Hj. destruct (decide (j = i)) as [->|Nj]; [by rewrite upd_eq|]. rewrite upd_ne by exact Nj. by apply (hp_nodup _ _ _ _ _ Hp).
  - intros j bj E%Cases. rewrite (tally_upd _ _ _ x) by exact Hc. destruct E as [[-> ->]|[Ne E]]; [by rewrite upd_eq|].
    destruct (hp_counts _ _ _ _ _ Hp j bj E) as (C1 & C2 & C3). rewrite upd_ne, Sx, Sy by exact Ne.
    split_and!; try done. rewrite C2. f_equal. lia.
  - rewrite !(tally_upd _ _ _ x) by exact Hc. rewrite Rx, Ry, Lx, Ly. destruct (hp_large _ _ _ _ _ Hp) as [-> ->]. split; f_equal; lia.
Qed.

Lemma heap_take k m fl H K i b c rest size :
  heap_ok k m fl H K -> kmem_buckets k !! i = Some b -> fl i = c :: rest -> 0 < size -> 16 + size <= bucket_bytes i ->
  heap_ok (with_buckets k (<[i:=take_bucket m b]> (kmem_buckets k))) (arm_chunk m c i size (bucket_bytes i))
    (upd fl i rest) (<[c:=PSmall i size]> H) K.
Proof.
  intros Hp Hb Fl Hs Hz.
  assert (i < 8)%nat as Hi by (rewrite <- (hp_len _ _ _ _ _ Hp); exact (lookup_lt_Some _ _ _ Hb)).
  pose proof (hp_linked _ _ _ _ _ Hp i b Hb) as Ln. rewrite Fl in Ln. cbn [linked] in Ln. destruct Ln as (Ec & Bc & Ln).
  pose proof (hp_nodup _ _ _ _ _ Hp i Hi) as Nd. rewrite Fl in Nd. apply NoDup_cons in Nd as [Nc Nd].
  assert (H !! c = Some (PFree i)) as Hc by (apply (hp_free _ _ _ _ _ Hp i c Hi); rewrite Fl; by left).
  destruct (arm_chunk_ok m c i size Hi Bc Hs Hz) as [Pk Out]. destruct (hp_counts _ _ _ _ _ Hp i b Hb) as (C1 & C2 & C3).
  rewrite Fl in C1. cbn [length] in C1.
  apply (heap_move k m fl H K i b _ c (PFree i) (PSmall i size)); try assumption; try reflexivity; cbn [take_bucket kb_free kb_freecnt kb_inuse kb_alloc].
  - by left.
  - right. eauto.
  - rewrite Ec. eapply (linked_other k m fl H K _ c (PFree i) i b Hp Hc Out Hb); [|exact Ln].
    intros z Hz'. rewrite Fl. split; [by right|]. intros ->. by apply Nc.
  - intros c'. rewrite Fl. destruct (decide (c' = c)) as [->|Ne]; [split; [done|discriminate]|]. rewrite elem_of_cons. tauto.
  - rewrite C1. w64_sum.
  - rewrite C2. autorewrite with places. rewrite Nat.eqb_refl. w64_sum.
  - rewrite C3, C1, C2. w64_sum.
Qed.

(** ** A chunk goes back *)

Definition give_bucket (b : kmem_bucket) (c : Z) : kmem_bucket :=
  mkBk (kb_size b) c (kb_alloc b) (w64 (kb_freecnt b + 1)) (w64 (kb_inuse b - 1)).

Definition disarm_chunk (m : mem) (c head bucket_size : Z) : mem :=
  st64 (st32 (paint_poison m c bucket_size) (c + 4) 0) c head.

Lemma disarm_chunk_ok m c i head :
  (i < 8)%nat -> u64 head ->
  let m' := disarm_chunk m c head (bucket_bytes i) in
  place_ok m' c (PFree i) /\ ld64 m' c = head /\ forall a, a < c \/ c + bucket_bytes i <= a -> ld8 m' a = ld8 m a.
Proof.
  intros Hi Hh. cbv zeta. unfold disarm_chunk, paint_poison, KMEM_CHUNK_SIZE, st32. pose proof (bucket_bytes_ge i).
  replace (bucket_bytes i - 8) with (c + bucket_bytes i - (c + 8)) by lia. cbn [place_ok]. split_and!.
  - exact Hi.
  - intros a Ha. rewrite ld8_st64_out, ld8_st_le, ld8_fill_to by lia. by destruct ((_ <=? a) && (a <? _)) eqn:?; [|lia].
  - by apply ld64_st64_eq.
  - intros a Ha. rewrite ld8_st64_out, ld8_st_le, ld8_fill_to by lia. by destruct ((_ <=? a) && (a <? _)) eqn:?; [lia|].
Qed.

Lemma heap_give k m fl H K i b c size :
  heap_ok k m fl H K -> kmem_buckets k !! i = Some b -> H !! c = Some (PSmall i size) -> 0 < c < 2 ^ 32 ->
  heap_ok (with_buckets k (<[i:=give_bucket b c]> (kmem_buckets k))) (disarm_chunk m c (kb_free b) (bucket_bytes i))
    (upd fl i (c :: fl i)) (<[c:=PFree i]> H) K.
Proof.
  intros Hp Hb Hc Bc.
  assert (i < 8)%nat as Hi by (rewrite <- (hp_len _ _ _ _ _ Hp); exact (lookup_lt_Some _ _ _ Hb)).
  pose proof (hp_linked _ _ _ _ _ Hp i b Hb) as Ln.
  assert (u64 (kb_free b)) as Hh by (destruct (linked_head _ _ _ Ln) as [[-> _]|(l' & _ & B)]; unfold u64; lia).
  destruct (disarm_chunk_ok m c i (kb_free b) Hi Hh) as (Pk & Eh & Out). destruct (hp_counts _ _ _ _ _ Hp i b Hb) as (C1 & C2 & C3).
  assert (c ∉ fl i) as Nc by (rewrite (hp_free _ _ _ _ _ Hp i c Hi), Hc; discriminate).
  apply (heap_move k m fl H K i b _ c (PSmall i size) (PFree i)); try assumption; try reflexivity; cbn [give_bucket kb_free kb_freecnt kb_inuse kb_alloc].
  - right. eauto.
  - by left.
  - cbn [linked]. split; [done|]. split; [exact Bc|]. rewrite Eh.
    apply (linked_other k m fl H K _ c (PSmall i size) i b Hp Hc Out Hb); [|exact Ln]. intros z Hz. split; [exact Hz|by intros ->].
  - apply NoDup_cons. split; [exact Nc|exact (hp_nodup _ _ _ _ _ Hp i Hi)].
  - intros c'. rewrite elem_of_cons. destruct (decide (c' = c)) as [->|Ne]; [split; auto|]. tauto.
  - cbn [length]. rewrite C1. w64_sum.
  - rewrite C2. autorewrite with places. rewrite Nat.eqb_refl. w64_sum.
  - rewrite C3, C1, C2. w64_sum.
Qed.

(** ** Fresh frames *)

(** The chunks of a page, in the order the loop meets them. *)
Definition slices (n : nat) (c size : Z) : list Z := (fun j => c + Z.of_nat j * size) <$> seq 0 n.

Lemma slices_S n c size : slices (S n) c size = c :: slices n (c + size) size.
Proof.
  unfold slices. cbn [seq fmap list_fmap]. f_equal; [lia|]. rewrite <- seq_shift, <- list_fmap_compose.
  apply list_fmap_ext. intros j x _. cbn. lia.
Qed.

Lemma elem_slices n c size x : x ∈ slices n c size <-> exists j, 0 <= j < Z.of_nat n /\ x = c + j * size.
Proof.
  unfold slices. rewrite list_elem_of_fmap. split.
  - intros (j & -> & Hj%elem_of_seq). exists (Z.of_nat j). split; [lia|done].
  - intros (j & Hj & ->). exists (Z.to_nat j). split; [by rewrite Z2Nat.id by lia|]. apply elem_of_seq. lia.
Qed.

Lemma slice_page_ok n m c size head l :
  16 <= size -> 0 < c -> c + Z.of_nat n * size <= 2 ^ 32 -> linked m head l ->
  (forall x a, x ∈ l -> x <= a < x + 8 -> a < c \/ c + Z.of_nat n * size <= a) ->
  let '(m', head') := slice_page n m c size head in
  linked m' head' (rev (slices n c size) ++ l) /\
  (forall a, a < c \/ c + Z.of_nat n * size <= a -> ld8 m' a = ld8 m a) /\
  (forall x a, x ∈ slices n c size -> x + 8 <= a < x + size -> ld8 m' a = KMEM_POISON_PATTERN).
Proof.
  intros Hz. revert m c head l. induction n as [|n IH]; intros m c head l Hc Hb Ln Ap.
  { cbn. split; [exact Ln|]. split; [done|]. intros x a []%not_elem_of_nil. }
  cbn [slice_page]. unfold KMEM_CHUNK_SIZE. set (m1 := st64 (fill_bytes _ _ _ _) c head).
  assert (forall a, a < c \/ c + size <= a -> ld8 m1 a = ld8 m a) as Out1.
  { intros a Ha. unfold m1. rewrite ld8_st64_out by lia. replace (size - 8) with (c + size - (c + 8)) by lia. rewrite ld8_fill_to.
    by destruct ((_ <=? a) && (a <? _)) eqn:?; [lia|]. }
  assert (u64 head) as Hh by (destruct (linked_head _ _ _ Ln) as [[-> _]|(l' & _ & B)]; unfold u64; lia).
  specialize (IH m1 (c + size) c (c :: l)). destruct (slice_page n m1 (c + size) size c) as [m' head'].
  destruct IH as (Ln' & Out' & Po'); [lia|lia| | |].
  - cbn [linked]. split; [done|]. split; [lia|]. assert (ld64 m1 c = head) as -> by (by apply ld64_st64_eq).
    apply (linked_ext m); [|exact Ln]. intros x a Hx Ha. apply Out1. specialize (Ap x a Hx Ha). nia.
  - intros x a [->|Hx]%elem_of_cons Ha; [left; lia|]. specialize (Ap x a Hx Ha). nia.
  - rewrite slices_S. cbn [rev]. rewrite <- app_assoc. cbn [app]. split; [exact Ln'|]. split.
    + intros a Ha. rewrite Out' by nia. apply Out1. nia.
    + intros x a [->|Hx]%elem_of_cons Ha; [|by apply (Po' x)]. rewrite Out' by lia. unfold m1.
      rewrite ld8_st64_out by lia. replace (size - 8) with (c + size - (c + 8)) by lia. rewrite ld8_fill_to.
      by destruct ((_ <=? a) && (a <? _)) eqn:?; [|lia].
Qed.

Definition add_chunks (H : gmap Z place) (i : nat) (l : list Z) : gmap Z place :=
  foldr (fun c => <[c:=PFree i]>) H l.

Lemma lookup_add_chunks H i l c :
  add_chunks H i l !! c = if decide (c ∈ l) then Some (PFree i) else H !! c.
Proof.
  induction l as [|x l IH]; cbn [add_chunks foldr]; [by rewrite decide_False by apply not_elem_of_nil|].
  fold (add_chunks H i l). destruct (decide (c = x)) as [->|Ne].
  - rewrite lookup_insert_eq, decide_True; [done|by left].
  - rewrite lookup_insert_ne, IH by congruence. apply decide_ext. rewrite elem_of_cons. tauto.
Qed.

Lemma tally_add_chunks f H i l :
  NoDup l -> (forall c, c ∈ l -> H !! c = None) -> f (PFree i) = 0 -> tally f (add_chunks H i l) = tally f H.
Proof.
  intros Nd N F0. induction Nd as [|x l Nx Nd IH]; [done|]. cbn [add_chunks foldr]. fold (add_chunks H i l).
  rewrite tally_insert, IH, F0; [lia|intros c Hc; apply N; by right|].
  rewrite lookup_add_chunks, decide_False by exact Nx. apply N. by left.
Qed.

Lemma frame_page c a : c mod PAGE_SIZE = 0 -> c <= a < c + PAGE_SIZE -> page_of a = c.
Proof. unfold page_of, PAGE_SIZE. intros. Z.div_mod_to_equations. lia. Qed.

(** The chunks of a page: aligned, apart, inside it. *)
Lemma slices_page i c : (i < 8)%nat -> c mod PAGE_SIZE = 0 ->
  let l := slices (Z.to_nat (PAGE_SIZE / bucket_bytes i)) c (bucket_bytes i) in
  Z.of_nat (Z.to_nat (PAGE_SIZE / bucket_bytes i)) * bucket_bytes i = PAGE_SIZE /\ NoDup l /\
  (forall x, x ∈ l -> c <= x /\ x + bucket_bytes i <= c + PAGE_SIZE /\ x mod 16 = 0) /\
  (forall x y, x ∈ l -> y ∈ l -> x <> y -> x + bucket_bytes i <= y \/ y + bucket_bytes i <= x).
Proof.
  intros Hi Hc l. pose proof (bucket_bytes_divides i Hi) as (D1 & D2 & _). pose proof (bucket_bytes_ge i) as G.
  set (s := bucket_bytes i) in *. unfold PAGE_SIZE in *.
  assert (4096 = s * (4096 / s)) as Ep by (rewrite (Z.div_mod 4096 s) at 1 by lia; lia).
  assert (0 <= 4096 / s) as Hq by (apply Z.div_pos; lia). rewrite Z2Nat.id by exact Hq.
  split; [lia|]. split.
  - apply NoDup_fmap_2; [|apply NoDup_seq]. intros a b E. nia.
  - split.
    + intros x (j & Hj & ->)%elem_slices. rewrite Z2Nat.id in Hj by exact Hq. split; [nia|]. split; [nia|].
      rewrite (Z.div_mod s 16) by lia. rewrite D1. rewrite (Z.div_mod c 4096) by lia. rewrite Hc.
      replace (4096 * (c / 4096) + 0 + j * (16 * (s / 16) + 0)) with ((256 * (c / 4096) + j * (s / 16)) * 16) by lia.
      apply Z.mod_mul. lia.
    + intros x y (j & _ & ->)%elem_slices (j' & _ & ->)%elem_slices Ne. assert (j <> j') by (intros ->; by apply Ne). nia.
Qed.

(** Places may join in frames the heap did not hold. *)
Lemma heap_grow k m fl H K k' m' fl' H' Fr :
  heap_ok k m fl H K -> (forall f, f ∈ Fr -> f ∉ K) -> (forall a, page_of a ∉ Fr -> ld8 m' a = ld8 m a) ->
  (forall c x, H' !! c = Some x -> H !! c = Some x \/
     place_ok m' c x /\ 0 < c /\ c mod 16 = 0 /\ forall a, c <= a < c + extent x -> page_of a ∈ Fr) ->
  (forall c c' x x', H !! c = None -> H !! c' = None -> H' !! c = Some x -> H' !! c' = Some x' -> c <> c' ->
     c + extent x <= c' \/ c' + extent x' <= c) ->
  length (kmem_buckets k') = 8%nat -> (forall i b, kmem_buckets k' !! i = Some b -> kb_size b = bucket_bytes i) ->
  (forall i b, kmem_buckets k' !! i = Some b -> linked m' (kb_free b) (fl' i)) ->
  (forall i c, (i < 8)%nat -> c ∈ fl' i <-> H' !! c = Some (PFree i)) ->
  (forall i, (i < 8)%nat -> NoDup (fl' i)) ->
  (forall i b, kmem_buckets k' !! i = Some b ->
    kb_freecnt b = w64 (Z.of_nat (length (fl' i))) /\ kb_inuse b = w64 (tally (ind (is_small i)) H') /\
    kb_alloc b = w64 (kb_freecnt b + kb_inuse b)) ->
  kmem_large_chunks k' = w64 (tally (ind is_large) H') /\ kmem_large_pages k' = w64 (tally run_pages H') ->
  heap_ok k' m' fl' H' (Fr ++ K).
Proof.
  intros Hp Fk Out Look Apt N1 N2 N3 N4 N5 N6 N7.
  assert (forall c x a, H !! c = Some x -> c <= a < c + extent x -> page_of a ∉ Fr) as Old.
  { intros c x a Hx Ha Hf. exact (Fk _ Hf (hp_frames _ _ _ _ _ Hp c x a Hx Ha)). }
  assert (forall c x, H' !! c = Some x -> 16 <= extent x) as Ge.
  { intros c x Hx. destruct (Look c x Hx) as [Ho|[Po _]]; [exact (extent_header _ _ _ (hp_bytes _ _ _ _ _ Hp c x Ho))|exact (extent_header _ _ _ Po)]. }
  assert (forall c c' x x', H' !! c' = Some x' -> H !! c = Some x -> (forall a, c' <= a < c' + extent x' -> page_of a ∈ Fr) ->
            c + extent x <= c' \/ c' + extent x' <= c) as Mix.
  { intros c c' x x' Hx' Hx New. pose proof (Ge _ _ Hx'). pose proof (extent_header _ _ _ (hp_bytes _ _ _ _ _ Hp c x Hx)).
    destruct (Z_lt_ge_dec c' (c + extent x)); [|by left; lia]. destruct (Z_lt_ge_dec c (c' + extent x')); [|right; lia].
    exfalso. apply (Old c x (Z.max c c') Hx); [lia|]. apply New. lia. }
  split; try assumption.
  - intros c x Hx. destruct (Look c x Hx) as [Ho|[Po _]]; [|exact Po]. apply (place_ok_ext m); [|exact (hp_bytes _ _ _ _ _ Hp c x Ho)].
    intros a Ha. apply Out. exact (Old c x a Ho Ha).
  - intros c c' x x' Hx Hx' Ne. destruct (Look c x Hx) as [Ho|(_ & _ & _ & Fo)], (Look c' x' Hx') as [Ho'|(_ & _ & _ & Fo')].
    + exact (hp_apart _ _ _ _ _ Hp c c' x x' Ho Ho' Ne).
    + exact (Mix c c' x x' Hx' Ho Fo').
    + destruct (Mix c' c x' x Hx Ho' Fo); [by right|by left].
    + apply Apt; try assumption.
      * destruct (H !! c) as [y|] eqn:Ey; [|reflexivity]. exfalso. pose proof (extent_header _ _ _ (hp_bytes _ _ _ _ _ Hp c y Ey)).
        pose proof (Ge _ _ Hx). apply (Old c y c Ey); [lia|]. apply Fo. lia.
      * destruct (H !! c') as [y|] eqn:Ey; [|reflexivity]. exfalso. pose proof (extent_header _ _ _ (hp_bytes _ _ _ _ _ Hp c' y Ey)).
        pose proof (Ge _ _ Hx'). apply (Old c' y c' Ey); [lia|]. apply Fo'. lia.
  - intros c x Hx. destruct (Look c x Hx) as [Ho|(_ & A & B & _)]; [exact (hp_align _ _ _ _ _ Hp c x Ho)|by split].
  - intros c x a Hx Ha. apply elem_of_app. destruct (Look c x Hx) as [Ho|(_ & _ & _ & Fo)]; [right; exact (hp_frames _ _ _ _ _ Hp c x a Ho Ha)|left; by apply Fo].
Qed.

(** A free list survives writes to frames the heap does not hold. *)
Lemma linked_grow k m fl H K m' (Fr : list Z) i b :
  heap_ok k m fl H K -> (forall f, f ∈ Fr -> f ∉ K) -> (forall a, page_of a ∉ Fr -> ld8 m' a = ld8 m a) ->
  kmem_buckets k !! i = Some b -> linked m' (kb_free b) (fl i).
Proof.
  intros Hp Fk Out Hb. apply (linked_ext m); [|exact (hp_linked _ _ _ _ _ Hp i b Hb)]. intros c a Hc Ha. apply Out. intros Hf.
  apply (hp_free _ _ _ _ _ Hp i c) in Hc; [|rewrite <- (hp_len _ _ _ _ _ Hp); exact (lookup_lt_Some _ _ _ Hb)].
  apply (Fk _ Hf), (hp_frames _ _ _ _ _ Hp c (PFree i) a Hc). pose proof (bucket_bytes_ge i). cbn [extent]. lia.
Qed.

Lemma bucket_cases k i b' j bj :
  (i < length (kmem_buckets k))%nat -> <[i:=b']> (kmem_buckets k) !! j = Some bj ->
  j = i /\ bj = b' \/ j <> i /\ kmem_buckets k !! j = Some bj.
Proof.
  intros Hi E. destruct (decide (j = i)) as [->|Ne].
  - rewrite list_lookup_insert_eq in E by exact Hi. injection E as <-. by left.
  - rewrite list_lookup_insert_ne in E by congruence. by right.
Qed.

Definition refilled (b : kmem_bucket) (head : Z) : kmem_bucket :=
  mkBk (kb_size b) head (w64 (kb_alloc b + PAGE_SIZE / kb_size b)) (w64 (kb_freecnt b + PAGE_SIZE / kb_size b)) (kb_inuse b).

Lemma page_one pa a : pa mod PAGE_SIZE = 0 -> page_of a ∈ [pa] <-> pa <= a < pa + PAGE_SIZE.
Proof.
  intros Hp. rewrite list_elem_of_singleton. unfold page_of, PAGE_SIZE in *. Z.div_mod_to_equations. lia.
Qed.

Lemma heap_refill k m fl H K i b pa :
  heap_ok k m fl H K -> kmem_buckets k !! i = Some b -> pa ∉ K -> pa mod PAGE_SIZE = 0 -> 0 < pa -> pa + PAGE_SIZE <= 2 ^ 32 ->
  let l := slices (Z.to_nat (PAGE_SIZE / bucket_bytes i)) pa (bucket_bytes i) in
  let '(m', head) := slice_page (Z.to_nat (PAGE_SIZE / kb_size b)) m pa (kb_size b) (kb_free b) in
  heap_ok (with_buckets k (<[i:=refilled b head]> (kmem_buckets k))) m' (upd fl i (rev l ++ fl i)) (add_chunks H i l) ([pa] ++ K) /\
  forall a, page_of a ∉ [pa] -> ld8 m' a = ld8 m a.
Proof.
  intros Hp Hb Np Hpa Hpos Hmax l. rewrite (hp_size _ _ _ _ _ Hp i b Hb).
  assert (i < 8)%nat as Hi by (rewrite <- (hp_len _ _ _ _ _ Hp); exact (lookup_lt_Some _ _ _ Hb)).
  assert (i < length (kmem_buckets k))%nat as Hi' by (rewrite (hp_len _ _ _ _ _ Hp); exact Hi).
  assert (forall f, f ∈ [pa] -> f ∉ K) as Fk by (by intros f ->%list_elem_of_singleton).
  destruct (slices_page i pa Hi Hpa) as (Ec & Nd & In & Apt). fold l in Nd, In, Apt. pose proof (bucket_bytes_ge i) as G.
  assert (forall c x a, H !! c = Some x -> c <= a < c + extent x -> a < pa \/ pa + PAGE_SIZE <= a) as Far.
  { intros c x a Hx Ha. pose proof (hp_frames _ _ _ _ _ Hp c x a Hx Ha) as Hk. destruct (decide (page_of a ∈ [pa])) as [Hf|Hf].
    - by destruct (Fk _ Hf).
    - rewrite (page_one pa a Hpa) in Hf. lia. }
  assert (forall c, c ∈ l -> H !! c = None) as New.
  { intros c Hc. destruct (H !! c) as [x|] eqn:Ex; [|reflexivity]. destruct (In c Hc) as (? & ? & _).
    pose proof (extent_header _ _ _ (hp_bytes _ _ _ _ _ Hp c x Ex)). specialize (Far c x c Ex). lia. }
  pose proof (slice_page_ok (Z.to_nat (PAGE_SIZE / bucket_bytes i)) m pa (bucket_bytes i) (kb_free b) (fl i) G Hpos) as Sl.
  rewrite Ec in Sl. specialize (Sl Hmax (hp_linked _ _ _ _ _ Hp i b Hb)).
  destruct (slice_page _ m pa _ _) as [m' head]. destruct Sl as (Ln & Out0 & Po).
  { intros x a Hx Ha. apply (hp_free _ _ _ _ _ Hp i x Hi) in Hx. apply (Far x (PFree i) a Hx). cbn [extent]. lia. }
  assert (forall a, page_of a ∉ [pa] -> ld8 m' a = ld8 m a) as Out by (intros a Ha; apply Out0; rewrite (page_one pa a Hpa) in Ha; lia).
  split; [|exact Out]. apply (heap_grow k m fl H K _ _ _ _ [pa] Hp Fk Out); cbn [with_buckets kmem_buckets kmem_large_chunks kmem_large_pages].
  - intros c x. rewrite lookup_add_chunks. destruct (decide (c ∈ l)) as [Hc|]; [|by left]. intros [= <-]. right.
    destruct (In c Hc) as (? & ? & ?). split; [split; [exact Hi|]; intros a Ha; by apply (Po c)|]. split; [lia|]. split; [done|].
    intros a Ha. cbn [extent] in Ha. apply (page_one pa a Hpa). lia.
  - intros c c' x x' Hn Hn'. rewrite !lookup_add_chunks, Hn, Hn'. destruct (decide (c ∈ l)), (decide (c' ∈ l)); try discriminate.
    intros [= <-] [= <-]. cbn [extent]. by apply Apt.
  - by rewrite length_insert, (hp_len _ _ _ _ _ Hp).
  - intros j bj [[-> ->]|[Ne E]]%(bucket_cases k i _ _ _ Hi'); [exact (hp_size _ _ _ _ _ Hp i b Hb)|exact (hp_size _ _ _ _ _ Hp j bj E)].
  - intros j bj [[-> ->]|[Ne E]]%(bucket_cases k i _ _ _ Hi'); [rewrite upd_eq; exact Ln|]. rewrite upd_ne by exact Ne.
    exact (linked_grow k m fl H K m' [pa] j bj Hp Fk Out E).
  - intros j c Hj. rewrite lookup_add_chunks. destruct (decide (j = i)) as [->|Ne].
    + rewrite upd_eq, <- (Permutation_rev l), elem_of_app, (hp_free _ _ _ _ _ Hp i c Hi). destruct (decide (c ∈ l)); [|tauto]. split; auto.
    + rewrite upd_ne by exact Ne. rewrite (hp_free _ _ _ _ _ Hp j c Hj). destruct (decide (c ∈ l)) as [Hc|]; [|done].
      rewrite (New c Hc). split; [discriminate|]. intros [= ->]. done.
  - intros j Hj. destruct (decide (j = i)) as [->|Ne]; [|rewrite upd_ne by exact Ne; by apply (hp_nodup _ _ _ _ _ Hp)].
    rewrite upd_eq, <- (Permutation_rev l). apply NoDup_app. split; [exact Nd|]. split; [|by apply (hp_nodup _ _ _ _ _ Hp)].
    intros c Hc Hf%(hp_free _ _ _ _ _ Hp i c Hi). by rewrite (New c Hc) in Hf.
  - intros j bj E%(bucket_cases k i _ _ _ Hi'). rewrite tally_add_chunks by (try done; autorewrite with places; done).
    destruct E as [[-> ->]|[Ne E]]; [|rewrite upd_ne by exact Ne; exact (hp_counts _ _ _ _ _ Hp j bj E)].
    destruct (hp_counts _ _ _ _ _ Hp i b Hb) as (C1 & C2 & C3). rewrite upd_eq, length_app, length_rev.
    assert (Z.of_nat (length l) = PAGE_SIZE / bucket_bytes i) as El.
    { unfold l, slices. rewrite length_fmap, length_seq, Z2Nat.id; [reflexivity|]. apply Z.div_pos; unfold PAGE_SIZE; lia. }
    cbn [refilled kb_freecnt kb_inuse kb_alloc]. rewrite (hp_size _ _ _ _ _ Hp i b Hb), <- El, C3, C1, C2. split_and!; w64_sum.
  - rewrite !tally_add_chunks by (try done; autorewrite with places; done). exact (hp_large _ _ _ _ _ Hp).
Qed.

(** ** Runs of frames *)

Definition run_frames (pa : Z) (n : nat) : list Z := slices n pa PAGE_SIZE.

Lemma mult_frames (l : list Z) x : NoDup l -> multiplicity x (frames l) = if decide (x ∈ l) then 1%nat else 0%nat.
Proof.
  induction 1 as [|y l Ny Nd IH]; [done|]. rewrite frames_cons, multiplicity_disj_union, multiplicity_singleton, IH.
  repeat case_decide; subst; rewrite elem_of_cons in *; try done; tauto.
Qed.

Lemma elem_run i n j : j * PAGE_SIZE ∈ run_frames (i * PAGE_SIZE) n <-> i <= j < i + Z.of_nat n.
Proof.
  unfold run_frames. rewrite elem_slices. unfold PAGE_SIZE. split.
  - intros (q & Hq & E). lia.
  - intros Hj. exists (j - i). lia.
Qed.

Lemma nodup_run pa n : NoDup (run_frames pa n).
Proof. apply NoDup_fmap_2; [|apply NoDup_seq]. intros a b E. unfold PAGE_SIZE in E. lia. Qed.

Lemma run_at pa n f : f ∈ run_frames pa n -> exists j, 0 <= j < Z.of_nat n /\ f = pa + j * PAGE_SIZE.
Proof. apply elem_slices. Qed.

(** A run changes hands. *)
Lemma owned_run s s' X X' i n x :
  owned_by s X -> 0 < i -> i + Z.of_nat n <= pmm_managed_pages s -> pmm_ok s' ->
  pmm_managed_pages s' = pmm_managed_pages s ->
  view_eq (pmm_managed_pages s) (frame_of s') (view_upd_run (frame_of s) i (Z.of_nat n) x) ->
  (forall j, i <= j < i + Z.of_nat n -> multiplicity (j * PAGE_SIZE) X' = owners x) ->
  (forall f, f ∉ run_frames (i * PAGE_SIZE) n -> multiplicity f X' = multiplicity f X) ->
  owned_by s' X'.
Proof.
  intros W Hi Hn K' P V Mr Mo. split; [exact K'| |].
  - intros f Hf. rewrite P. destruct (decide (f ∈ run_frames (i * PAGE_SIZE) n)) as [Hr|Hr].
    + destruct (run_at _ _ _ Hr) as (j & Hj & ->). exists (i + j). unfold PAGE_SIZE. lia.
    + apply (ow_in s X W). rewrite elem_of_multiplicity in *. by rewrite <- Mo.
  - intros j Hj. rewrite P in Hj. rewrite (V j Hj). unfold view_upd_run.
    destruct ((i <=? j) && (j <? i + Z.of_nat n)) eqn:E; [apply Mr; lia|].
    rewrite Mo; [by apply (ow_count s X W)|]. rewrite elem_run. lia.
Qed.

Lemma own_alloc_run s X n :
  owned_by s X -> (0 < n)%nat -> Z.of_nat n < 2 ^ 63 ->
  let '(pa, s') := pmm_alloc_pages s (Z.of_nat n) in
  (pa = PA_INVALID /\ owned_by s' X) \/
  (pa mod PAGE_SIZE = 0 /\ 0 < pa /\ pa + Z.of_nat n * PAGE_SIZE <= 2 ^ 30 /\
   (forall f, f ∈ run_frames pa n -> f ∉ X) /\ owned_by s' (frames (run_frames pa n) ⊎ X)).
Proof.
  intros W Hn Hb. pose proof (alloc_pages_spec s (Z.of_nat n) (ow_ok s X W)) as A. specialize (A ltac:(lia)).
  pose proof (wf_pages s (ok_wf s (ow_ok s X W))) as Hp. destruct (pmm_alloc_pages s (Z.of_nat n)) as [pa s'].
  destruct A as (K' & P & g & St & V). inversion St as [| |i k Hk Hi Hik Fr Ek Epa Eg|k Ek Epa Eg| | | | |]; subst.
  - right. assert (forall f, f ∈ run_frames (i * PAGE_SIZE) n -> f ∉ X) as Fresh.
    { intros f Hf. destruct (run_at _ _ _ Hf) as (j & Hj & ->). rewrite elem_of_multiplicity.
      replace (i * PAGE_SIZE + j * PAGE_SIZE) with ((i + j) * PAGE_SIZE) by lia.
      rewrite (ow_count s X W) by lia. rewrite Fr by lia. cbn. lia. }
    split; [apply Z.mod_mul; done|]. split; [unfold PAGE_SIZE; lia|]. split; [unfold PAGE_SIZE; lia|]. split; [exact Fresh|].
    apply (owned_run s s' X _ i n (Owned 1) W Hi Hik K' P V).
    + intros j Hj. rewrite multiplicity_disj_union, mult_frames, decide_True by (apply nodup_run || by apply elem_run).
      assert (multiplicity (j * PAGE_SIZE) X = 0%nat) as ->; [|done].
      rewrite (ow_count s X W) by lia. by rewrite Fr by lia.
    + intros f Hf. rewrite multiplicity_disj_union, mult_frames, decide_False by (apply nodup_run || done). done.
  - left. split; [done|]. pose proof (ok_pages s (ow_ok s X W)). apply (owned_run s s' X X 1 0 Free W); [lia|lia|done|done| |lia|done].
    intros j Hj. unfold view_upd_run. rewrite (V j Hj). destruct ((1 <=? j) && (j <? 1 + Z.of_nat 0)) eqn:E; [lia|done].
Qed.

Lemma own_free_run s X pa n :
  owned_by s (frames (run_frames pa n) ⊎ X) -> pa mod PAGE_SIZE = 0 -> (0 < n)%nat ->
  (forall f, f ∈ run_frames pa n -> f ∉ X) ->
  exists s', pmm_free_pages s pa (Z.of_nat n) = Done s' /\ owned_by s' X.
Proof.
  intros W Hpa Hn Ap. set (i := pa / PAGE_SIZE). assert (pa = i * PAGE_SIZE) as Ei by (unfold i, PAGE_SIZE in *; Z.div_mod_to_equations; lia).
  rewrite Ei in *. clearbody i.
  assert (forall j, i <= j < i + Z.of_nat n -> 0 < j < pmm_managed_pages s /\ frame_of s j = Owned 1) as Own.
  { intros j Hj. apply elem_run in Hj as Hr. destruct (owned_in s _ (j * PAGE_SIZE) W) as (j' & c & Ej & Hj' & Ef & Hc & M).
    - rewrite elem_of_multiplicity, multiplicity_disj_union, mult_frames, decide_True by (apply nodup_run || done). lia.
    - assert (j' = j) as -> by (unfold PAGE_SIZE in Ej; lia). split; [exact Hj'|]. rewrite Ef. f_equal.
      rewrite multiplicity_disj_union, mult_frames, decide_True in M by (apply nodup_run || done).
      pose proof (Ap _ Hr) as No. rewrite elem_of_multiplicity in No. lia. }
  destruct (Own i) as [Hi _]; [lia|]. destruct (Own (i + Z.of_nat n - 1)) as [Hl _]; [lia|].
  destruct (free_pages_owned s i (Z.of_nat n) (ow_ok s _ W)) as (s' & E & K' & P & V); [lia|lia|lia|intros j Hj; by apply Own|].
  exists s'. split; [exact E|]. apply (owned_run s s' _ X i n Free W); [lia|lia|exact K'|exact P|exact V| |].
  - intros j Hj. apply elem_run in Hj. pose proof (Ap _ Hj) as No. rewrite elem_of_multiplicity in No. cbn. lia.
  - intros f Hf. rewrite multiplicity_disj_union, mult_frames, decide_False by (apply nodup_run || done). done.
Qed.

(** * What callers get *)

Definition live_size (x : place) : option Z := match x with PFree _ => None | PSmall _ sz | PLarge _ sz => Some sz end.

(** The live allocation at payload pointer [p], if any. *)
Definition live (H : gmap Z place) (p : Z) : option Z := H !! (p - KMEM_HDR_SIZE) ≫= live_size.

Lemma live_place H p s : live H p = Some s -> exists x, H !! (p - 16) = Some x /\ live_size x = Some s.
Proof. unfold live, KMEM_HDR_SIZE. destruct (H !! (p - 16)) as [x|]; [|done]. eauto. Qed.

Lemma live_inside m c x s : place_ok m c x -> live_size x = Some s -> 0 < s /\ 16 + s <= extent x.
Proof. destruct x as [i|i sz|n sz]; cbn; [done|..]; intros Px [= <-]; destruct Px as (? & ? & ? & _); lia. Qed.

Lemma live_apart k m fl H K p q s t :
  heap_ok k m fl H K -> live H p = Some s -> live H q = Some t -> p <> q -> p + s <= q \/ q + t <= p.
Proof.
  intros Hp (x & Hx & Sx)%live_place (y & Hy & Sy)%live_place Ne.
  destruct (live_inside _ _ _ _ (hp_bytes _ _ _ _ _ Hp _ _ Hx) Sx), (live_inside _ _ _ _ (hp_bytes _ _ _ _ _ Hp _ _ Hy) Sy).
  destruct (hp_apart _ _ _ _ _ Hp _ _ x y Hx Hy); lia.
Qed.

Lemma live_insert H c x q : live (<[c:=x]> H) q = if q =? c + 16 then live_size x else live H q.
Proof.
  unfold live, KMEM_HDR_SIZE. destruct (Z.eqb_spec q (c + 16)) as [->|Ne].
  - replace (c + 16 - 16) with c by lia. by rewrite lookup_insert_eq.
  - by rewrite lookup_insert_ne by lia.
Qed.

Lemma live_add_chunks H i l q : (forall c, c ∈ l -> H !! c = None) -> live (add_chunks H i l) q = live H q.
Proof.
  intros N. unfold live. rewrite lookup_add_chunks. destruct (decide (q - KMEM_HDR_SIZE ∈ l)) as [Hq|]; [|done].
  by rewrite (N _ Hq).
Qed.

Lemma bucket_from_spec l i0 size :
  match bucket_from l i0 size with
  | Some i => (i0 <= i)%nat /\ exists b, l !! (i - i0)%nat = Some b /\ size <= kb_size b
  | None => forall j b, l !! j = Some b -> kb_size b < size
  end.
Proof.
  revert i0. induction l as [|b l IH]; intros i0; cbn [bucket_from]; [intros j b; done|].
  destruct (size <=? kb_size b) eqn:E.
  - split; [done|]. exists b. rewrite Nat.sub_diag. split; [done|lia].
  - specialize (IH (S i0)). destruct (bucket_from l (S i0) size) as [i|].
    + destruct IH as (Hi & b' & Hb & Le). split; [lia|]. exists b'. split; [|done]. by replace (i - i0)%nat with (S (i - S i0)) by lia.
    + intros [|j] b' Hb; cbn in Hb; [injection Hb as <-; lia|]. exact (IH j b' Hb).
Qed.

Lemma bucket_for_ok k m fl H K size :
  heap_ok k m fl H K ->
  match bucket_for k size with
  | Some i => exists b, kmem_buckets k !! i = Some b /\ size <= bucket_bytes i
  | None => 2048 < size
  end.
Proof.
  intros Hp. unfold bucket_for. pose proof (bucket_from_spec (kmem_buckets k) 0 size) as B.
  destruct (bucket_from (kmem_buckets k) 0 size) as [i|].
  - destruct B as (_ & b & Hb & Le). rewrite Nat.sub_0_r in Hb. exists b. split; [exact Hb|]. by rewrite <- (hp_size _ _ _ _ _ Hp i b Hb).
  - destruct (lookup_lt_is_Some_2 (kmem_buckets k) 7) as [b Hb]; [rewrite (hp_len _ _ _ _ _ Hp); lia|].
    specialize (B 7%nat b Hb). by rewrite (hp_size _ _ _ _ _ Hp 7%nat b Hb) in B.
Qed.

(** A block of [size] bytes at [p], everything else as it was. *)
Record got (H H' : gmap Z place) (m m' : mem) (p size : Z) : Prop := {
  gt_ptr : 0 < p /\ p mod 16 = 0;
  gt_new : live H p = None;
  gt_live : forall q, live H' q = if q =? p then Some size else live H q;
  gt_kept : forall q s a, live H q = Some s -> q <= a < q + s -> ld8 m' a = ld8 m a;
}.

Lemma place_frame k ph fl H K Y c x : kmem_ok k ph fl H K Y -> H !! c = Some x -> 0 < c < 2 ^ 30.
Proof.
  intros [Hp _ _ W] Hc. destruct (hp_align _ _ _ _ _ Hp c x Hc) as [Pos _]. split; [exact Pos|].
  pose proof (extent_header _ _ _ (hp_bytes _ _ _ _ _ Hp c x Hc)).
  destruct (owned_good _ _ (page_of c) W) as (j & Ej & Hj).
  - apply gmultiset_elem_of_disj_union. left. apply elem_frames, (hp_frames _ _ _ _ _ Hp c x c Hc). lia.
  - unfold page_of, PAGE_SIZE in Ej. Z.div_mod_to_equations. lia.
Qed.

(** The small path once the free list has a chunk. *)
Lemma take_got k ph fl H K Y i b c rest size :
  kmem_ok k ph fl H K Y -> kmem_buckets k !! i = Some b -> fl i = c :: rest -> 0 < size -> 16 + size <= bucket_bytes i ->
  let k' := with_buckets k (<[i:=take_bucket (ph_mem ph) b]> (kmem_buckets k)) in
  let ph' := with_mem ph (arm_chunk (ph_mem ph) c i size (bucket_bytes i)) in
  kmem_ok k' ph' (upd fl i rest) (<[c:=PSmall i size]> H) K Y /\
  got H (<[c:=PSmall i size]> H) (ph_mem ph) (ph_mem ph') (c + 16) size /\ verify_poison (ph_mem ph) c (bucket_bytes i) = Done tt.
Proof.
  intros Ok Hb Fl Hs Hz. pose proof Ok as [Hp Nd Ap W]. cbv zeta.
  assert (i < 8)%nat as Hi by (rewrite <- (hp_len _ _ _ _ _ Hp); exact (lookup_lt_Some _ _ _ Hb)).
  assert (H !! c = Some (PFree i)) as Hc by (apply (hp_free _ _ _ _ _ Hp i c Hi); rewrite Fl; by left).
  pose proof (place_frame _ _ _ _ _ _ c _ Ok Hc) as Bc.
  split; [split; [exact (heap_take _ _ _ _ _ _ _ _ _ _ Hp Hb Fl Hs Hz)|exact Nd|exact Ap|exact W]|]. split.
  - destruct (arm_chunk_ok (ph_mem ph) c i size Hi ltac:(lia) Hs Hz) as [_ Out]. split.
    + destruct (hp_align _ _ _ _ _ Hp c _ Hc) as [? Al]. split; [lia|]. rewrite Z.add_mod, Al by lia. done.
    + unfold live, KMEM_HDR_SIZE. replace (c + 16 - 16) with c by lia. by rewrite Hc.
    + intros q. apply live_insert.
    + intros q s a (x & Hx & Sx)%live_place Ha. cbn [ph_mem with_mem]. apply Out.
      destruct (live_inside _ _ _ _ (hp_bytes _ _ _ _ _ Hp _ _ Hx) Sx). assert (c <> q - 16) as Ne by (intros ->; rewrite Hc in Hx; injection Hx as <-; discriminate Sx).
      destruct (hp_apart _ _ _ _ _ Hp c (q - 16) _ x Hc Hx Ne); cbn [extent] in *; lia.
  - unfold verify_poison, KMEM_CHUNK_SIZE. destruct (hp_bytes _ _ _ _ _ Hp c _ Hc) as [_ Po]. pose proof (bucket_bytes_ge i).
    assert (bytes_are (Z.to_nat (bucket_bytes i - 8)) (ph_mem ph) (c + 8) KMEM_POISON_PATTERN = true) as ->; [|reflexivity].
    apply bytes_are_spec. intros x Hx. apply Po. lia.
Qed.

Lemma good_frame_bounds f : good_frame f -> f mod PAGE_SIZE = 0 /\ 0 < f /\ f + PAGE_SIZE <= 2 ^ 30.
Proof. intros (i & -> & Hi). unfold PAGE_SIZE. split; [apply Z.mod_mul; lia|lia]. Qed.

(** Refilling an empty list: it fails and changes nothing, or the list has a
    chunk and no live block is touched. *)
Lemma refill_ok k ph fl H K Y i b :
  kmem_ok k ph fl H K Y -> kmem_buckets k !! i = Some b -> kb_free b = 0 ->
  let '(b', ph') := refill_bucket b ph in
  let k' := with_buckets k (<[i:=b']> (kmem_buckets k)) in
  b' = b /\ ph' = ph \/
  exists fl' H' K' c rest, kmem_ok k' ph' fl' H' K' Y /\ fl' i = c :: rest /\ kb_free b' = c /\ c <> 0 /\
    (forall q, live H' q = live H q) /\
    (forall q s a, live H q = Some s -> q <= a < q + s -> ld8 (ph_mem ph') a = ld8 (ph_mem ph) a).
Proof.
  intros Ok Hb Ef. pose proof Ok as [Hp Nd Ap W]. unfold refill_bucket.
  pose proof (own_alloc (ph_pmm ph) _ W) as A. destruct (pmm_alloc_page (ph_pmm ph)) as [pa s].
  destruct A as [_ [[-> ->]|(Gf & Np & _ & Nin & W')]].
  { rewrite Z.eqb_refl. left. split; [reflexivity|]. by destruct ph. }
  destruct (Z.eqb_spec pa PA_INVALID); [done|]. destruct (good_frame_bounds pa Gf) as (A1 & A2 & A3).
  rewrite gmultiset_elem_of_disj_union, elem_frames in Nin.
  pose proof (heap_refill k (ph_mem ph) fl H K i b pa Hp Hb ltac:(tauto) A1 A2 ltac:(lia)) as R. cbv zeta in R.
  destruct (slice_page _ _ _ _ _) as [m' head]. destruct R as [Hp' Out]. right.
  set (l := slices (Z.to_nat (PAGE_SIZE / bucket_bytes i)) pa (bucket_bytes i)) in *.
  assert (i < 8)%nat as Hi by (rewrite <- (hp_len _ _ _ _ _ Hp); exact (lookup_lt_Some _ _ _ Hb)).
  assert (forall q, live (add_chunks H i l) q = live H q) as Lv.
  { intros q. apply live_add_chunks. intros c Hc. destruct (H !! c) as [x|] eqn:Ex; [|reflexivity]. exfalso.
    destruct (slices_page i pa Hi A1) as (_ & _ & In & _). destruct (In c Hc) as (B1 & B2 & _). pose proof (bucket_bytes_ge i).
    pose proof (extent_header _ _ _ (hp_bytes _ _ _ _ _ Hp c x Ex)). pose proof (hp_frames _ _ _ _ _ Hp c x c Ex) as Fr.
    rewrite (frame_page pa c A1) in Fr by lia. apply Nin. left. apply Fr. lia. }
  assert (linked m' head (rev l ++ fl i)) as Ln.
  { pose proof (hp_linked _ _ _ _ _ Hp' i (refilled b head)) as L. rewrite upd_eq in L. apply L. cbn [with_buckets kmem_buckets].
    apply list_lookup_insert_eq. exact (lookup_lt_Some _ _ _ Hb). }
  destruct (linked_head _ _ _ Ln) as [[_ E]|(rest & E & B)].
  { exfalso. apply app_nil in E as [E _]. apply (f_equal (@length Z)) in E. unfold l, slices in E. rewrite length_rev, length_fmap, length_seq in E.
    pose proof (bucket_bytes_table i Hi) as T. revert E. repeat (apply elem_of_cons in T as [->|T]; [vm_compute; discriminate|]). by apply not_elem_of_nil in T. }
  exists (upd fl i (rev l ++ fl i)), (add_chunks H i l), ([pa] ++ K), head, rest.
  split; [|split; [by rewrite upd_eq|split; [reflexivity|split; [lia|split; [exact Lv|]]]]].
  - split; [exact Hp'| | |].
    + apply NoDup_cons. split; [tauto|exact Nd].
    + intros f [->|Hf]%elem_of_cons; [tauto|by apply Ap].
    + cbn [with_mem with_pmm ph_pmm]. change ([pa] ++ K) with (pa :: K). rewrite frames_cons, <- gmultiset_disj_union_assoc. exact W'.
  - intros q s0 a (x & Hx & Sx)%live_place Ha. cbn [with_mem ph_mem]. apply Out. intros Hf%list_elem_of_singleton.
    destruct (live_inside _ _ _ _ (hp_bytes _ _ _ _ _ Hp _ _ Hx) Sx). apply Nin. left. rewrite <- Hf.
    apply (hp_frames _ _ _ _ _ Hp _ x a Hx). lia.
Qed.

(** [kmalloc]'s two answers. *)
Definition alloc_outcome (fl : nat -> list Z) (H : gmap Z place) (K : list Z) (Y : gmultiset Z) (m : mem) (size : Z)
    (p : Z) (k' : kmem) (ph' : phys) : Prop :=
  p = 0 /\ kmem_ok k' ph' fl H K Y /\ ph_mem ph' = m \/
  exists fl' H' K', kmem_ok k' ph' fl' H' K' Y /\ got H H' m (ph_mem ph') p size.

Lemma with_buckets_id k i b : kmem_buckets k !! i = Some b -> with_buckets k (<[i:=b]> (kmem_buckets k)) = k.
Proof. intros E. unfold with_buckets. rewrite list_insert_id by exact E. by destruct k. Qed.

Lemma kmalloc_small_ok k ph fl H K Y size i b :
  kmem_ok k ph fl H K Y -> 0 < size -> bucket_for k (w64 (size + KMEM_HDR_SIZE)) = Some i ->
  kmem_buckets k !! i = Some b -> 16 + size <= bucket_bytes i ->
  exists p k' ph', kmalloc k ph size = Done (p, k', ph') /\ alloc_outcome fl H K Y (ph_mem ph) size p k' ph'.
Proof.
  intros Ok Hs Ebf Hb Hz. pose proof (km_heap _ _ _ _ _ _ Ok) as Hp. unfold kmalloc. rewrite (proj2 (Z.eqb_neq size 0)) by lia. rewrite Ebf, Hb. cbn [default id].
  assert (forall k1 ph1 fl1 H1 K1 b1 c rest, kmem_ok k1 ph1 fl1 H1 K1 Y -> kmem_buckets k1 !! i = Some b1 -> fl1 i = c :: rest ->
    kb_free b1 = c -> c <> 0 -> (forall q, live H1 q = live H q) ->
    (forall q s a, live H q = Some s -> q <= a < q + s -> ld8 (ph_mem ph1) a = ld8 (ph_mem ph) a) ->
    kb_size b1 = bucket_bytes i /\ verify_poison (ph_mem ph1) c (bucket_bytes i) = Done tt /\
    alloc_outcome fl H K Y (ph_mem ph) size (c + 16) (with_buckets k1 (<[i:=take_bucket (ph_mem ph1) b1]> (kmem_buckets k1)))
      (with_mem ph1 (arm_chunk (ph_mem ph1) c i size (bucket_bytes i)))) as Take.
  { intros k1 ph1 fl1 H1 K1 b1 c rest Ok1 Hb1 Fl1 Ec Nz Lv Kp.
    destruct (take_got k1 ph1 fl1 H1 K1 Y i b1 c rest size Ok1 Hb1 Fl1 Hs Hz) as (Ok2 & [G1 G2 G3 G4] & Vp).
    split; [exact (hp_size _ _ _ _ _ (km_heap _ _ _ _ _ _ Ok1) i b1 Hb1)|]. split; [exact Vp|]. right.
    eexists _, _, _. split; [exact Ok2|]. split; [exact G1|by rewrite <- Lv| |].
    - intros q. rewrite G3. by rewrite Lv.
    - intros q s a Hq Ha. rewrite (G4 q s a) by (by rewrite ?Lv). exact (Kp q s a Hq Ha). }
  destruct (Z.eqb_spec (kb_free b) 0) as [Ef|Nf].
  - pose proof (refill_ok k ph fl H K Y i b Ok Hb Ef) as R. destruct (refill_bucket b ph) as [b' ph']. cbv zeta in R.
    destruct R as [[-> ->]|(fl' & H' & K' & c & rest & Ok' & Fl' & Ec & Nz & Lv & Kp)].
    + rewrite Ef. cbn [Z.eqb]. eexists _, _, _. split; [reflexivity|]. left. rewrite with_buckets_id by exact Hb. done.
    + rewrite Ec, (proj2 (Z.eqb_neq c 0)) by exact Nz.
      assert (kmem_buckets (with_buckets k (<[i:=b']> (kmem_buckets k))) !! i = Some b') as Hb'
        by (apply list_lookup_insert_eq; exact (lookup_lt_Some _ _ _ Hb)).
      destruct (Take _ _ _ _ _ _ c rest Ok' Hb' Fl' Ec Nz Lv Kp) as (Es & Vp & Out).
      rewrite Es, Vp, bind_Done. eexists _, _, _. split; [reflexivity|].
      cbn [with_buckets kmem_buckets] in Out. rewrite list_insert_insert_eq in Out. unfold take_bucket in Out. rewrite Ec, Es in Out. exact Out.
  - rewrite (proj2 (Z.eqb_neq (kb_free b) 0)) by exact Nf.
    destruct (linked_head _ _ _ (hp_linked _ _ _ _ _ Hp i b Hb)) as [[E _]|(rest & Fl & _)]; [done|].
    destruct (Take k ph fl H K b _ rest Ok Hb Fl eq_refl Nf) as (Es & Vp & Out); [done|done|].
    rewrite Es, Vp, bind_Done. eexists _, _, _. split; [reflexivity|]. unfold take_bucket in Out. rewrite Es in Out. exact Out.
Qed.

(** ** Large blocks *)

Definition large_header (m : mem) (pa n : Z) : mem :=
  st32 (st16 (st16 m pa KMEM_BUCKET_LARGE) (pa + 2) n) (pa + 4) KMEM_HDR_MAGIC.

Lemma large_header_out m pa n x : x < pa \/ pa + 8 <= x -> ld8 (large_header m pa n) x = ld8 m x.
Proof. intros Hx. unfold large_header, st32, st16. by rewrite !ld8_st_le by lia. Qed.

Lemma large_header_fields m pa n : 0 <= n < 2 ^ 16 ->
  let m' := large_header m pa n in
  kh_bucket m' pa = KMEM_BUCKET_LARGE /\ kh_npages m' pa = n /\ kh_magic m' pa = KMEM_HDR_MAGIC.
Proof.
  intros Hn. cbv zeta. unfold kh_bucket, kh_npages, kh_magic, large_header, ld16, ld32, st16, st32. split; [|split].
  - rewrite !ld_le_st_ne by lia. by rewrite ld_le_st_le.
  - rewrite (ld_le_st_ne 2 4) by lia. rewrite ld_le_st_le. by apply Z.mod_small.
  - by rewrite ld_le_st_le.
Qed.

Lemma run_page pa n a : pa mod PAGE_SIZE = 0 -> page_of a ∈ run_frames pa n <-> pa <= a < pa + Z.of_nat n * PAGE_SIZE.
Proof.
  intros Hp. unfold run_frames. rewrite elem_slices. unfold page_of, PAGE_SIZE in *. split.
  - intros (j & Hj & E). Z.div_mod_to_equations. lia.
  - intros Ha. exists (a / 4096 - pa / 4096). Z.div_mod_to_equations. lia.
Qed.

Lemma heap_large k m fl H K pa n size :
  heap_ok k m fl H K -> (forall f, f ∈ run_frames pa n -> f ∉ K) -> pa mod PAGE_SIZE = 0 -> 0 < pa ->
  (0 < n)%nat -> Z.of_nat n <= 0xFFFF -> 0 < size -> 16 + size <= Z.of_nat n * PAGE_SIZE ->
  let m' := large_header m pa (Z.of_nat n) in
  heap_ok (mkKmem (kmem_buckets k) (w64 (kmem_large_chunks k + 1)) (w64 (kmem_large_pages k + Z.of_nat n))) m' fl
    (<[pa:=PLarge (Z.of_nat n) size]> H) (run_frames pa n ++ K) /\
  H !! pa = None /\ forall a, page_of a ∉ run_frames pa n -> ld8 m' a = ld8 m a.
Proof.
  intros Hp Fk Hpa Pos Hn Hmax Hs Hz. cbv zeta. set (m' := large_header m pa (Z.of_nat n)). set (x := PLarge (Z.of_nat n) size).
  assert (forall a, page_of a ∉ run_frames pa n -> ld8 m' a = ld8 m a) as Out.
  { intros a Ha. rewrite (run_page pa n a Hpa) in Ha. apply large_header_out. unfold PAGE_SIZE in *. lia. }
  assert (H !! pa = None) as New.
  { destruct (H !! pa) as [y|] eqn:Ey; [|reflexivity]. exfalso. pose proof (extent_header _ _ _ (hp_bytes _ _ _ _ _ Hp pa y Ey)).
    apply (Fk (page_of pa)); [apply (run_page pa n pa Hpa); unfold PAGE_SIZE; lia|]. apply (hp_frames _ _ _ _ _ Hp pa y pa Ey). lia. }
  split; [|split; [exact New|exact Out]].
  apply (heap_grow k m fl H K _ _ _ _ (run_frames pa n) Hp Fk Out); cbn [kmem_buckets kmem_large_chunks kmem_large_pages].
  - intros c y. destruct (decide (c = pa)) as [->|Ne]; [|rewrite lookup_insert_ne by congruence; by left].
    rewrite lookup_insert_eq. intros [= <-]. right. destruct (large_header_fields m pa (Z.of_nat n)) as (F1 & F2 & F3); [lia|].
    split; [cbn [place_ok x]; split_and!; try done; lia|]. split; [exact Pos|]. split; [unfold PAGE_SIZE in *; Z.div_mod_to_equations; lia|].
    intros a Ha. apply (run_page pa n a Hpa). exact Ha.
  - intros c c' y y' Hc Hc'. destruct (decide (c = pa)) as [->|Ne], (decide (c' = pa)) as [->|Ne']; [done|..];
      rewrite ?(lookup_insert_ne _ pa c), ?(lookup_insert_ne _ pa c') by congruence; rewrite ?Hc, ?Hc'; discriminate.
  - apply Hp.
  - apply Hp.
  - intros i b Hb. exact (linked_grow k m fl H K m' _ i b Hp Fk Out Hb).
  - intros i c Hi. rewrite (hp_free _ _ _ _ _ Hp i c Hi). destruct (decide (c = pa)) as [->|Ne].
    + rewrite lookup_insert_eq, New. split; discriminate.
    + by rewrite lookup_insert_ne by congruence.
  - apply Hp.
  - intros i b Hb. rewrite tally_insert by exact New. exact (hp_counts _ _ _ _ _ Hp i b Hb).
  - rewrite !tally_insert by exact New. unfold x. autorewrite with places. cbn [run_pages]. destruct (hp_large _ _ _ _ _ Hp) as [-> ->]. split; w64_sum.
Qed.

Lemma kmalloc_large_ok k ph fl H K Y size :
  kmem_ok k ph fl H K Y -> 0 < size -> size + 16 < 2 ^ 64 - 4096 ->
  let '(p, k', ph') := kmalloc_large k ph size in alloc_outcome fl H K Y (ph_mem ph) size p k' ph'.
Proof.
  intros Ok Hs Hmax. pose proof Ok as [Hp Nd Ap W]. unfold kmalloc_large, KMEM_HDR_SIZE. rewrite (w64_small (size + 16)) by lia.
  rewrite w64_small by (unfold PAGE_SIZE; lia). set (np := (size + 16 + PAGE_SIZE - 1) / PAGE_SIZE).
  destruct (0xFFFF <? np) eqn:Big; [left; done|].
  assert (0 < np /\ 16 + size <= np * PAGE_SIZE) as [Np Fit] by (unfold np, PAGE_SIZE; Z.div_mod_to_equations; lia).
  set (n := Z.to_nat np). assert (Z.of_nat n = np) as En by (unfold n; lia).
  rewrite <- En. pose proof (own_alloc_run (ph_pmm ph) _ n W ltac:(lia) ltac:(lia)) as A.
  destruct (pmm_alloc_pages (ph_pmm ph) (Z.of_nat n)) as [pa s]. destruct A as [[-> W']|(A1 & A2 & A3 & Fresh & W')].
  { rewrite Z.eqb_refl. left. split; [done|]. split; [by split|done]. }
  destruct (Z.eqb_spec pa PA_INVALID); [unfold PA_INVALID in *; lia|]. right.
  assert (forall f, f ∈ run_frames pa n -> f ∉ K) as Fk.
  { intros f Hf Hk. apply (Fresh f Hf), gmultiset_elem_of_disj_union. left. by apply elem_frames. }
  destruct (heap_large k (ph_mem ph) fl H K pa n size Hp Fk A1 A2 ltac:(lia) ltac:(lia) Hs ltac:(lia)) as (Hp' & New & Out).
  eexists fl, _, _. split; [split; [exact Hp'| | |]|split].
  - apply NoDup_app. split; [apply nodup_run|]. split; [exact Fk|exact Nd].
  - intros f [Hf|Hf]%elem_of_app; [|by apply Ap]. intros Hy. apply (Fresh f Hf), gmultiset_elem_of_disj_union. by right.
  - cbn [with_mem with_pmm ph_pmm]. rewrite frames_app, <- gmultiset_disj_union_assoc. exact W'.
  - split; [lia|]. unfold PAGE_SIZE in A1. Z.div_mod_to_equations. lia.
  - unfold live, KMEM_HDR_SIZE. replace (pa + 16 - 16) with pa by lia. by rewrite New.
  - intros q. apply live_insert.
  - intros q sz a (x & Hx & Sx)%live_place Ha. cbn [with_mem ph_mem]. apply Out. intros Hf.
    destruct (live_inside _ _ _ _ (hp_bytes _ _ _ _ _ Hp _ _ Hx) Sx). apply (Fk _ Hf), (hp_frames _ _ _ _ _ Hp _ x a Hx). lia.
Qed.

Lemma kmalloc_ok k ph fl H K Y size :
  kmem_ok k ph fl H K Y -> 0 <= size < 2 ^ 64 - 2 ^ 13 ->
  exists p k' ph', kmalloc k ph size = Done (p, k', ph') /\ alloc_outcome fl H K Y (ph_mem ph) size p k' ph'.
Proof.
  intros Ok Hz. destruct (Z.eq_dec size 0) as [->|Ns]; [by exists 0, k, ph; split; [|left]|].
  pose proof (bucket_for_ok k _ _ _ _ (w64 (size + KMEM_HDR_SIZE)) (km_heap _ _ _ _ _ _ Ok)) as B.
  assert (w64 (size + KMEM_HDR_SIZE) = size + 16) as Ew by (unfold KMEM_HDR_SIZE; apply w64_small; lia).
  destruct (bucket_for k (w64 (size + KMEM_HDR_SIZE))) as [i|] eqn:Ebf.
  - destruct B as (b & Hb & Le). apply (kmalloc_small_ok k ph fl H K Y size i b Ok); [lia|exact Ebf|exact Hb|lia].
  - unfold kmalloc. rewrite (proj2 (Z.eqb_neq size 0)) by exact Ns. rewrite Ebf.
    pose proof (kmalloc_large_ok k ph fl H K Y size Ok ltac:(lia) ltac:(lia)) as L.
    destruct (kmalloc_large k ph size) as [[p k'] ph']. eauto.
Qed.

(** ** Freeing *)

Record gave (H H' : gmap Z place) (m m' : mem) (p : Z) : Prop := {
  gv_live : forall q, live H' q = if q =? p then None else live H q;
  gv_kept : forall q s a, q <> p -> live H q = Some s -> q <= a < q + s -> ld8 m' a = ld8 m a;
}.

(** Writes inside one place reach no other live block. *)
Lemma inside_kept k m fl H K m' c x :
  heap_ok k m fl H K -> H !! c = Some x -> (forall a, a < c \/ c + extent x <= a -> ld8 m' a = ld8 m a) ->
  forall q s a, q <> c + 16 -> live H q = Some s -> q <= a < q + s -> ld8 m' a = ld8 m a.
Proof.
  intros Hp Hc Out q s a Nq (y & Hy & Sy)%live_place Ha. apply Out.
  destruct (live_inside _ _ _ _ (hp_bytes _ _ _ _ _ Hp _ _ Hy) Sy). assert (c <> q - 16) as Ne by lia.
  destruct (hp_apart _ _ _ _ _ Hp c (q - 16) _ y Hc Hy Ne); lia.
Qed.

Lemma redzone_ok m c i size :
  place_ok m c (PSmall i size) -> 0 < c < 2 ^ 32 -> verify_redzone m c (bucket_bytes i) = Done tt.
Proof.
  intros (Hi & Hs & Hz & _ & _ & Es & Rz) Bc. unfold verify_redzone, slack_of. rewrite Es. unfold KMEM_HDR_SIZE.
  pose proof (bucket_bytes_divides i Hi) as (_ & _ & B3). rewrite w64_small by lia.
  assert (bytes_are (Z.to_nat (c + bucket_bytes i - (c + 16 + size))) m (c + 16 + size) KMEM_RZ_PATTERN = true) as ->; [|reflexivity].
  apply bytes_are_spec. intros x Hx. apply Rz. lia.
Qed.

Lemma kfree_small_eq k ph c i b :
  0 < c -> kh_magic (ph_mem ph) c = KMEM_HDR_MAGIC -> kh_bucket (ph_mem ph) c = Z.of_nat i -> (i < 8)%nat ->
  kmem_buckets k !! i = Some b ->
  kfree k ph (c + 16) = (verify_redzone (ph_mem ph) c (kb_size b) ;;
    Done (with_buckets k (<[i:=give_bucket b c]> (kmem_buckets k)),
          with_mem ph (disarm_chunk (ph_mem ph) c (kb_free b) (kb_size b)))).
Proof.
  intros Pos Em Eb Hi Hb. unfold kfree. rewrite (proj2 (Z.eqb_neq (c + 16) 0)) by lia. unfold KMEM_HDR_SIZE. replace (c + 16 - 16) with c by lia.
  cbv zeta. rewrite Em, Z.eqb_refl, Eb. cbn [KASSERT]. rewrite bind_Done.
  rewrite (proj2 (Z.eqb_neq (Z.of_nat i) KMEM_BUCKET_LARGE)) by (unfold KMEM_BUCKET_LARGE; lia).
  rewrite (proj2 (Z.ltb_lt (Z.of_nat i) KMEM_NBUCKETS)) by (unfold KMEM_NBUCKETS, KMEM_MAX_LOG2, KMEM_MIN_LOG2; lia).
  cbn [KASSERT]. rewrite bind_Done, Nat2Z.id, Hb. reflexivity.
Qed.

Lemma kfree_small_ok k ph fl H K Y c i size :
  kmem_ok k ph fl H K Y -> H !! c = Some (PSmall i size) ->
  exists k' ph', kfree k ph (c + 16) = Done (k', ph') /\
    kmem_ok k' ph' (upd fl i (c :: fl i)) (<[c:=PFree i]> H) K Y /\
    gave H (<[c:=PFree i]> H) (ph_mem ph) (ph_mem ph') (c + 16).
Proof.
  intros Ok Hc. pose proof Ok as [Hp Nd Ap W]. pose proof (place_frame _ _ _ _ _ _ c _ Ok Hc) as Bc.
  pose proof (hp_bytes _ _ _ _ _ Hp c _ Hc) as Px. pose proof Px as (Hi & Hs & Hz & Eb & Em & Es & Rz).
  destruct (lookup_lt_is_Some_2 (kmem_buckets k) i) as [b Hb]; [by rewrite (hp_len _ _ _ _ _ Hp)|].
  rewrite (kfree_small_eq k ph c i b) by (done || lia). rewrite (hp_size _ _ _ _ _ Hp i b Hb), (redzone_ok _ _ _ _ Px), bind_Done by lia.
  eexists _, _. split; [reflexivity|].
  pose proof (heap_give _ _ _ _ _ _ b _ _ Hp Hb Hc ltac:(lia)) as Hp'.
  split; [split; [exact Hp'|exact Nd|exact Ap|exact W]|]. split; [intros q; by rewrite live_insert|].
  apply (inside_kept k (ph_mem ph) fl H K _ c _ Hp Hc). cbn [extent]. apply disarm_chunk_ok; [exact Hi|].
  destruct (linked_head _ _ _ (hp_linked _ _ _ _ _ Hp i b Hb)) as [[-> _]|(l' & _ & B)]; unfold u64; lia.
Qed.

Lemma split_frames (K R : list Z) : NoDup K -> NoDup R -> (forall f, f ∈ R -> f ∈ K) ->
  K ≡ₚ R ++ filter (fun f => f ∉ R) K.
Proof.
  intros NK NR Sub. apply NoDup_Permutation; [exact NK| |].
  - apply NoDup_app. split; [exact NR|]. split; [|by apply NoDup_filter]. intros f Hf Hg%list_elem_of_filter. by destruct Hg.
  - intros f. rewrite elem_of_app, list_elem_of_filter. destruct (decide (f ∈ R)); [split; auto|]. tauto.
Qed.

Lemma heap_drop k m fl H K m' pa n size :
  heap_ok k m fl H K -> H !! pa = Some (PLarge (Z.of_nat n) size) ->
  (forall a, a < pa \/ pa + Z.of_nat n * PAGE_SIZE <= a -> ld8 m' a = ld8 m a) ->
  heap_ok (mkKmem (kmem_buckets k) (w64 (kmem_large_chunks k - 1)) (w64 (kmem_large_pages k - Z.of_nat n))) m' fl
    (delete pa H) (filter (fun f => f ∉ run_frames pa n) K).
Proof.
  intros Hp Hx Out. pose proof (hp_bytes _ _ _ _ _ Hp pa _ Hx) as Px. pose proof Px as (_ & _ & _ & Hpa & _).
  assert (forall c x, delete pa H !! c = Some x -> c <> pa /\ H !! c = Some x) as Look by (by intros c x [? ?]%lookup_delete_Some).
  assert (forall c x a, delete pa H !! c = Some x -> c <= a < c + extent x -> a < pa \/ pa + Z.of_nat n * PAGE_SIZE <= a) as Far.
  { intros c x a [Ne Hc]%Look Ha. destruct (hp_apart _ _ _ _ _ Hp c pa x _ Hc Hx Ne); cbn [extent] in *; lia. }
  split; cbn [kmem_buckets kmem_large_chunks kmem_large_pages].
  - apply Hp.
  - apply Hp.
  - intros i b Hb. apply (linked_ext m); [|exact (hp_linked _ _ _ _ _ Hp i b Hb)]. intros c a Hc Ha. apply Out.
    apply (hp_free _ _ _ _ _ Hp i c) in Hc; [|rewrite <- (hp_len _ _ _ _ _ Hp); exact (lookup_lt_Some _ _ _ Hb)].
    apply (Far c (PFree i) a); [|pose proof (bucket_bytes_ge i); cbn [extent]; lia]. apply lookup_delete_Some. split; [congruence|exact Hc].
  - intros i c Hi. rewrite (hp_free _ _ _ _ _ Hp i c Hi), lookup_delete_Some. split; [|tauto]. intros E. split; [congruence|exact E].
  - apply Hp.
  - intros c x Hc. destruct (Look c x Hc) as [Ne Hc']. apply (place_ok_ext m); [|exact (hp_bytes _ _ _ _ _ Hp c x Hc')].
    intros a Ha. apply Out. exact (Far c x a Hc Ha).
  - intros c c' x x' [_ Hc]%Look [_ Hc']%Look. exact (hp_apart _ _ _ _ _ Hp c c' x x' Hc Hc').
  - intros c x [_ Hc]%Look. exact (hp_align _ _ _ _ _ Hp c x Hc).
  - intros c x a Hc Ha. apply list_elem_of_filter. split; [|destruct (Look c x Hc) as [_ Hc']; exact (hp_frames _ _ _ _ _ Hp c x a Hc' Ha)].
    rewrite (run_page pa n a Hpa). specialize (Far c x a Hc Ha). lia.
  - intros i b Hb. destruct (hp_counts _ _ _ _ _ Hp i b Hb) as (C1 & C2 & C3). split_and!; try done. rewrite C2, (tally_delete _ H pa _ Hx). reflexivity.
  - destruct (hp_large _ _ _ _ _ Hp) as [-> ->]. rewrite !(tally_delete _ H pa _ Hx). autorewrite with places. cbn [run_pages]. split; w64_sum.
Qed.

Lemma kfree_large_ok k ph fl H K Y c n size :
  kmem_ok k ph fl H K Y -> H !! c = Some (PLarge n size) ->
  exists k' ph' K', kfree k ph (c + 16) = Done (k', ph') /\ kmem_ok k' ph' fl (delete c H) K' Y /\
    gave H (delete c H) (ph_mem ph) (ph_mem ph') (c + 16).
Proof.
  intros Ok Hc. pose proof Ok as [Hp Nd Ap W]. pose proof (place_frame _ _ _ _ _ _ c _ Ok Hc) as Bc.
  pose proof (hp_bytes _ _ _ _ _ Hp c _ Hc) as (Hn & Hs & Hz & Hpa & Eb & En & Em).
  set (N := Z.to_nat n). assert (Z.of_nat N = n) as EN by (unfold N; lia).
  assert (forall f, f ∈ run_frames c N -> f ∈ K) as Sub.
  { intros f Hf. destruct (run_at _ _ _ Hf) as (j & Hj & ->). replace (c + j * PAGE_SIZE) with (page_of (c + j * PAGE_SIZE)).
    - apply (hp_frames _ _ _ _ _ Hp c _ _ Hc). cbn [extent]. unfold PAGE_SIZE in *. lia.
    - unfold page_of, PAGE_SIZE in *. Z.div_mod_to_equations. lia. }
  set (K' := filter (fun f => f ∉ run_frames c N) K). pose proof (split_frames K _ Nd (nodup_run c N) Sub) as Pk. fold K' in Pk.
  destruct (own_free_run (ph_pmm ph) (frames K' ⊎ Y) c N) as (s' & Ef & W').
  { rewrite gmultiset_disj_union_assoc, <- frames_app. by rewrite (frames_perm _ _ Pk) in W. }
  { exact Hpa. }
  { lia. }
  { intros f Hf [Hk|Hy]%gmultiset_elem_of_disj_union; [|exact (Ap f (Sub f Hf) Hy)].
    apply elem_frames, list_elem_of_filter in Hk. by destruct Hk. }
  unfold kfree. rewrite (proj2 (Z.eqb_neq (c + 16) 0)) by lia. unfold KMEM_HDR_SIZE. replace (c + 16 - 16) with c by lia.
  cbv zeta. rewrite Em, Eb, !Z.eqb_refl. cbn [KASSERT]. rewrite bind_Done. unfold kfree_large. cbv zeta.
  rewrite page_aligned, Hpa. cbn [Z.eqb KASSERT]. rewrite bind_Done, En, <- EN, Ef, bind_Done. eexists _, _, K'. split; [reflexivity|].
  assert (forall a, a < c \/ c + Z.of_nat N * PAGE_SIZE <= a -> ld8 (st32 (ph_mem ph) (c + 4) 0) a = ld8 (ph_mem ph) a) as Out.
  { intros a Ha. apply (ld8_st_le 4). unfold PAGE_SIZE in *. lia. }
  rewrite <- EN in Hc. split; [split|split].
  - exact (heap_drop k (ph_mem ph) fl H K _ c N size Hp Hc Out).
  - by apply NoDup_filter.
  - intros f [_ Hf]%list_elem_of_filter. by apply Ap.
  - exact W'.
  - intros q. unfold live, KMEM_HDR_SIZE. destruct (Z.eqb_spec q (c + 16)) as [->|Ne].
    + replace (c + 16 - 16) with c by lia. by rewrite lookup_delete_eq.
    + by rewrite lookup_delete_ne by lia.
  - exact (inside_kept k (ph_mem ph) fl H K _ c _ Hp Hc Out).
Qed.

(** ** Clients *)

(** A client writes its own block. *)
Lemma payload_write k ph fl H K Y p s m' :
  kmem_ok k ph fl H K Y -> live H p = Some s -> (forall a, a < p \/ p + s <= a -> ld8 m' a = ld8 (ph_mem ph) a) ->
  kmem_ok k (with_mem ph m') fl H K Y.
Proof.
  intros [Hp Nd Ap W] (x & Hx & Sx)%live_place Out. set (c := p - 16) in *.
  assert (c + 16 = p) as Ec by (unfold c; lia). rewrite <- Ec in Out.
  pose proof (hp_bytes _ _ _ _ _ Hp c x Hx) as Px. destruct (live_inside _ _ _ _ Px Sx) as [Hs Hz].
  assert (forall a, a < c \/ c + extent x <= a -> ld8 m' a = ld8 (ph_mem ph) a) as Out' by (intros a Ha; apply Out; lia).
  assert (kh_bucket m' c = kh_bucket (ph_mem ph) c /\ kh_npages m' c = kh_npages (ph_mem ph) c /\
          kh_magic m' c = kh_magic (ph_mem ph) c /\ kh_size m' c = kh_size (ph_mem ph) c) as (E1 & E2 & E3 & E4).
  { unfold kh_bucket, kh_npages, kh_magic, kh_size, ld16, ld32. split_and!;
      first [apply ld_le_ext|apply ld64_ext]; intros a Ha; apply Out; lia. }
  split; [|exact Nd|exact Ap|exact W]. cbn [with_mem ph_mem]. rewrite <- (insert_id H c x Hx).
  apply (heap_set k (ph_mem ph) fl H K k m' fl c x x Hp Hx eq_refl Out'); rewrite ?(insert_id H c x Hx); try apply Hp.
  - destruct x as [i|i sz|n sz]; [done|..]; injection Sx as ->; cbn [place_ok extent] in *; rewrite ?E1, ?E2, ?E3, ?E4; [|exact Px].
    destruct Px as (P1 & P2 & P3 & P4 & P5 & P6 & P7). split_and!; try done. intros a Ha. rewrite Out by lia. by apply P7.
  - intros i b Hb. apply (linked_other k (ph_mem ph) fl H K m' c x i b Hp Hx Out' Hb); [|exact (hp_linked _ _ _ _ _ Hp i b Hb)].
    intros z Hz'. split; [exact Hz'|]. intros ->. apply (hp_free _ _ _ _ _ Hp i c) in Hz'; [|rewrite <- (hp_len _ _ _ _ _ Hp); exact (lookup_lt_Some _ _ _ Hb)].
    rewrite Hx in Hz'. injection Hz' as ->. discriminate Sx.
Qed.

Lemma kcalloc_ok k ph fl H K Y n size :
  kmem_ok k ph fl H K Y -> u64 n -> u64 size -> n * size < 2 ^ 64 - 2 ^ 13 \/ 2 ^ 64 <= n * size ->
  exists p k' ph', kcalloc k ph n size = Done (p, k', ph') /\ alloc_outcome fl H K Y (ph_mem ph) (n * size) p k' ph' /\
    (2 ^ 64 <= n * size -> p = 0) /\ (p <> 0 -> forall a, p <= a < p + n * size -> ld8 (ph_mem ph') a = 0).
Proof.
  intros Ok Hn Hz Hr. unfold u64 in *. unfold kcalloc. destruct (negb (n =? 0) && ((2 ^ 64 - 1) / n <? size)) eqn:Ov.
  { exists 0, k, ph. split; [reflexivity|]. split; [left; done|]. split; [done|]. done. }
  assert (n * size < 2 ^ 64) as Fit.
  { destruct (Z.eq_dec n 0) as [->|Nn]; [lia|]. rewrite (proj2 (Z.eqb_neq n 0) Nn) in Ov. cbn [negb andb] in Ov. apply Z.ltb_ge in Ov.
    assert (n * size <= n * ((2 ^ 64 - 1) / n)) by (apply Z.mul_le_mono_nonneg_l; lia).
    pose proof (Z.mul_div_le (2 ^ 64 - 1) n ltac:(lia)). lia. }
  rewrite w64_small by nia. destruct (kmalloc_ok k ph fl H K Y (n * size) Ok ltac:(nia)) as (p & k' & ph' & E & Out).
  rewrite E, bind_Done. destruct (Z.eqb_spec p 0) as [->|Np].
  { exists 0, k', ph'. split; [reflexivity|]. split; [exact Out|]. split; [done|done]. }
  eexists p, k', _. split; [reflexivity|]. destruct Out as [[? _]|(fl' & H' & K' & Ok' & G)]; [done|].
  assert (live H' p = Some (n * size)) as Lp by (by rewrite (gt_live _ _ _ _ _ _ G), Z.eqb_refl).
  assert (0 <= n * size) as Pos by nia. split; [right|split; [lia|]].
  - exists fl', H', K'. split.
    + apply (payload_write k' ph' fl' H' K' Y p (n * size) _ Ok' Lp). intros a Ha. rewrite ld8_fill_bytes.
      by destruct ((p <=? a) && _) eqn:?; [lia|].
    + destruct G as [G1 G2 G3 G4]. split; [exact G1|exact G2|exact G3|]. intros q s a Hq Ha. cbn [with_mem ph_mem]. rewrite ld8_fill_bytes.
      destruct ((p <=? a) && (a <? p + Z.of_nat (Z.to_nat (n * size)))) eqn:In; [|exact (G4 q s a Hq Ha)]. exfalso.
      assert (q <> p) as Nq by (intros ->; congruence). assert (live H' q = Some s) as Lq by (rewrite G3; by destruct (Z.eqb_spec q p)).
      destruct (live_apart _ _ _ _ _ p q _ _ (km_heap _ _ _ _ _ _ Ok') Lp Lq (not_eq_sym Nq)); lia.
  - intros _ a Ha. cbn [with_mem ph_mem]. rewrite ld8_fill_bytes. by destruct ((p <=? a) && _) eqn:?; [|lia].
Qed.

Lemma kfree_ok k ph fl H K Y p s :
  kmem_ok k ph fl H K Y -> live H p = Some s ->
  exists k' ph' fl' H' K', kfree k ph p = Done (k', ph') /\ kmem_ok k' ph' fl' H' K' Y /\ gave H H' (ph_mem ph) (ph_mem ph') p.
Proof.
  intros Ok (x & Hx & Sx)%live_place. assert (p = p - 16 + 16) as Ep by lia. set (c := p - 16) in *. rewrite Ep.
  destruct x as [i|i sz|n sz]; [done|..].
  - destruct (kfree_small_ok k ph fl H K Y c i sz Ok Hx) as (k' & ph' & E & Ok' & G). eauto 10.
  - destruct (kfree_large_ok k ph fl H K Y c n sz Ok Hx) as (k' & ph' & K' & E & Ok' & G). eauto 10.
Qed.

Lemma linked_next_small m head l : linked m head l -> head < 2 ^ 32.
Proof. intros [[-> _]|(l' & _ & B)]%linked_head; lia. Qed.

Lemma linked_tail m head l c : linked m head l -> c ∈ l -> 0 <= ld64 m c < 2 ^ 32.
Proof.
  revert head. induction l as [|x l IH]; intros head; [by intros _ ?%not_elem_of_nil|].
  cbn [linked]. intros (_ & _ & L) [->|Hc]%elem_of_cons; [|exact (IH _ L Hc)].
  pose proof (linked_next_small _ _ _ L). pose proof (ld64_range m x). unfold u64 in *. lia.
Qed.

(** Where the magic was, a free chunk has the upper half of its link. *)
Lemma free_magic k ph fl H K Y c i : kmem_ok k ph fl H K Y -> H !! c = Some (PFree i) -> kh_magic (ph_mem ph) c = 0.
Proof.
  intros Ok Hc. pose proof (km_heap _ _ _ _ _ _ Ok) as Hp. pose proof (hp_bytes _ _ _ _ _ Hp c _ Hc) as [Hi _].
  destruct (lookup_lt_is_Some_2 (kmem_buckets k) i) as [b Hb]; [by rewrite (hp_len _ _ _ _ _ Hp)|].
  pose proof (linked_tail _ _ _ c (hp_linked _ _ _ _ _ Hp i b Hb) (proj2 (hp_free _ _ _ _ _ Hp i c Hi) Hc)) as B.
  unfold kh_magic, ld32. revert B. Transparent ld64. unfold ld64. Opaque ld64. set (m := ph_mem ph).
  change (ld_le 8 m c) with (ld8 m c + 2 ^ 8 * (ld8 m (c + 1) + 2 ^ 8 * (ld8 m (c + 1 + 1) + 2 ^ 8 * (ld8 m (c + 1 + 1 + 1) + 2 ^ 8 * ld_le 4 m (c + 1 + 1 + 1 + 1))))).
  replace (c + 1 + 1 + 1 + 1) with (c + 4) by lia. pose proof (ld_le_range 4 m (c + 4)).
  pose proof (ld8_range m c). pose proof (ld8_range m (c + 1)). pose proof (ld8_range m (c + 1 + 1)). pose proof (ld8_range m (c + 1 + 1 + 1)). lia.
Qed.

(** The clients of the heap: what they hold, and their writes inside it. *)
Inductive heap_op :=
| HAlloc (size : Z)
| HZero (n size : Z)
| HFree (p : Z)
| HWrite (p off b : Z).

Record clients := mkCl { cl_k : kmem; cl_ph : phys; cl_blocks : gmap Z Z }.

Definition hold (bl : gmap Z Z) (p size : Z) : gmap Z Z := if p =? 0 then bl else <[p:=size]> bl.

Definition heap_do (s : clients) (op : heap_op) : res clients :=
  match op with
  | HAlloc size =>
      r ← kmalloc (cl_k s) (cl_ph s) size;
      let '(p, k, ph) := r in Done (mkCl k ph (hold (cl_blocks s) p size))
  | HZero n size =>
      r ← kcalloc (cl_k s) (cl_ph s) n size;
      let '(p, k, ph) := r in Done (mkCl k ph (hold (cl_blocks s) p (n * size)))
  | HFree p =>
      match cl_blocks s !! p with
      | Some _ => r ← kfree (cl_k s) (cl_ph s) p; let '(k, ph) := r in Done (mkCl k ph (delete p (cl_blocks s)))
      | None => Done s
      end
  | HWrite p off b =>
      match cl_blocks s !! p with
      | Some size => if (0 <=? off) && (off <? size)
                     then Done (mkCl (cl_k s) (with_mem (cl_ph s) (st8 (ph_mem (cl_ph s)) (p + off) b)) (cl_blocks s)) else Done s
      | None => Done s
      end
  end.

Fixpoint heap_run (s : clients) (ops : list heap_op) : res clients :=
  match ops with [] => Done s | op :: ops => s ← heap_do s op; heap_run s ops end.

(** Requests the size arithmetic does not wrap on. *)
Definition op_sane (op : heap_op) : Prop :=
  match op with
  | HAlloc size => 0 <= size < 2 ^ 64 - 2 ^ 13
  | HZero n size => u64 n /\ u64 size /\ (n * size < 2 ^ 64 - 2 ^ 13 \/ 2 ^ 64 <= n * size)
  | _ => True
  end.

(** The block an operation may write. *)
Definition op_block (op : heap_op) (p : Z) : Prop :=
  match op with HFree q | HWrite q _ _ => p = q | _ => False end.

Definition clients_ok (Y : gmultiset Z) (s : clients) : Prop :=
  exists fl H K, kmem_ok (cl_k s) (cl_ph s) fl H K Y /\ forall q, live H q = cl_blocks s !! q.

Definition op_done (Y : gmultiset Z) (s : clients) (op : heap_op) (s' : clients) : Prop :=
  clients_ok Y s' /\
  forall p size a, cl_blocks s !! p = Some size -> ~ op_block op p -> p <= a < p + size ->
    cl_blocks s' !! p = Some size /\ ld8 (ph_mem (cl_ph s')) a = ld8 (ph_mem (cl_ph s)) a.

Lemma alloc_done Y s op fl H K p size k' ph' :
  (forall q, live H q = cl_blocks s !! q) ->
  alloc_outcome fl H K Y (ph_mem (cl_ph s)) size p k' ph' -> op_done Y s op (mkCl k' ph' (hold (cl_blocks s) p size)).
Proof.
  intros Lv [(-> & Ok' & Em)|(fl' & H' & K' & Ok' & [G1 G2 G3 G4])].
  - split; [by exists fl, H, K|]. intros q t a Hq _ Ha. cbn. by rewrite Em.
  - unfold hold. rewrite (proj2 (Z.eqb_neq p 0)) by lia. split.
    + exists fl', H', K'. split; [exact Ok'|]. intros q. cbn. rewrite G3. destruct (Z.eqb_spec q p) as [->|Ne]; [by rewrite lookup_insert_eq|].
      by rewrite lookup_insert_ne by congruence.
    + intros q t a Hq _ Ha. cbn. rewrite lookup_insert_ne; [split; [exact Hq|]; apply (G4 q t); [by rewrite Lv|exact Ha]|].
      intros ->. rewrite Lv in G2. congruence.
Qed.

Lemma heap_do_ok Y s op : clients_ok Y s -> op_sane op -> exists s', heap_do s op = Done s' /\ op_done Y s op s'.
Proof.
  intros (fl & H & K & Ok & Lv) Sane.
  assert (op_done Y s op s) as Idle by (split; [by exists fl, H, K|done]).
  destruct op as [size|n size|p|p off b]; cbn [heap_do op_sane] in *.
  - destruct (kmalloc_ok _ _ _ _ _ _ size Ok Sane) as (p & k' & ph' & E & Out). rewrite E, bind_Done.
    eexists. split; [reflexivity|exact (alloc_done Y s _ _ _ _ _ _ _ _ Lv Out)].
  - destruct Sane as (Hn & Hz & Hr). destruct (kcalloc_ok _ _ _ _ _ _ n size Ok Hn Hz Hr) as (p & k' & ph' & E & Out & _). rewrite E, bind_Done.
    eexists. split; [reflexivity|exact (alloc_done Y s _ _ _ _ _ _ _ _ Lv Out)].
  - destruct (cl_blocks s !! p) as [size|] eqn:Eb; [|eauto]. rewrite <- Lv in Eb.
    destruct (kfree_ok _ _ _ _ _ _ p size Ok Eb) as (k' & ph' & fl' & H' & K' & E & Ok' & [G1 G2]). rewrite E, bind_Done.
    eexists. split; [reflexivity|]. split.
    + exists fl', H', K'. split; [exact Ok'|]. intros q. cbn. rewrite G1. destruct (Z.eqb_spec q p) as [->|Ne]; [by rewrite lookup_delete_eq|].
      by rewrite lookup_delete_ne by congruence.
    + intros q t a Hq Nq Ha. cbn in *. rewrite lookup_delete_ne by congruence. split; [exact Hq|]. apply (G2 q t); [exact Nq|by rewrite Lv|exact Ha].
  - destruct (cl_blocks s !! p) as [size|] eqn:Eb; [|eauto]. destruct ((0 <=? off) && (off <? size)) eqn:In; [|eauto].
    assert (live H p = Some size) as Lp by (by rewrite Lv). eexists. split; [reflexivity|]. split.
    + exists fl, H, K. split; [|exact Lv]. apply (payload_write _ _ _ _ _ _ p size _ Ok Lp). intros a Ha. rewrite ld8_st8.
      by destruct (a =? p + off) eqn:?; [lia|].
    + intros q t a Hq Nq Ha. cbn in *. split; [exact Hq|]. rewrite ld8_st8. destruct (Z.eqb_spec a (p + off)) as [->|]; [|reflexivity]. exfalso.
      assert (live H q = Some t) as Lq by (by rewrite Lv). destruct (live_apart _ _ _ _ _ p q _ _ (km_heap _ _ _ _ _ _ Ok) Lp Lq); [congruence|lia|lia].
Qed.

Lemma kmem_init_ok ph Y : owned_by (ph_pmm ph) Y -> clients_ok Y (mkCl kmem_init ph ∅).
Proof.
  intros W. exists (fun _ => []), ∅, []. cbn. split; [|intros q; unfold live; by rewrite !lookup_empty].
  split; [|constructor|by intros f ?%not_elem_of_nil|].
  - split; cbn; try (intros *; rewrite lookup_empty; discriminate); try done.
    + intros i b Hb. do 8 (destruct i as [|i]; [injection Hb as <-; reflexivity|]). done.
    + intros i b Hb. do 8 (destruct i as [|i]; [injection Hb as <-; reflexivity|]). done.
    + intros i c _. rewrite lookup_empty. split; [by intros ?%not_elem_of_nil|done].
    + constructor.
    + intros i b Hb. do 8 (destruct i as [|i]; [injection Hb as <-; split_and!; reflexivity|]). done.
  - change (frames []) with (∅ : gmultiset Z). by rewrite gmultiset_disj_union_left_id.
Qed.

(** * Properties *)

(** [C13] The heap, whatever its clients ask of it.  From [kmem_init] on, any
    sequence of allocations, zeroed allocations and frees of held blocks, with
    any writes of clients inside their own blocks in between, never panics; at
    the end the blocks held are pairwise disjoint, 16-byte aligned and not at
    zero, every frame the heap took is accounted for, and the next operation
    leaves the bytes of every block it does not name as they were. *)
Theorem heap_clients_safe s ph Y ops :
  owned_by s Y -> ph_pmm ph = s -> Forall op_sane ops ->
  exists c, heap_run (mkCl kmem_init ph ∅) ops = Done c /\ clients_ok Y c /\
    (forall p q sp sq, cl_blocks c !! p = Some sp -> cl_blocks c !! q = Some sq -> p <> q -> p + sp <= q \/ q + sq <= p) /\
    (forall p sp, cl_blocks c !! p = Some sp -> 0 < p /\ p mod 16 = 0) /\
    (forall op, op_sane op -> exists c', heap_do c op = Done c' /\
       forall p sp a, cl_blocks c !! p = Some sp -> ~ op_block op p -> p <= a < p + sp ->
         cl_blocks c' !! p = Some sp /\ ld8 (ph_mem (cl_ph c')) a = ld8 (ph_mem (cl_ph c)) a).
Proof.
  intros W Es Sane. pose proof (kmem_init_ok ph Y) as I0. rewrite Es in I0. specialize (I0 W).
  assert (exists c, heap_run (mkCl kmem_init ph ∅) ops = Done c /\ clients_ok Y c) as (c & E & I).
  { revert I0. generalize (mkCl kmem_init ph ∅). induction Sane as [|op ops So _ IH]; intros c0 I0; [by exists c0|].
    destruct (heap_do_ok Y c0 op I0 So) as (c1 & E1 & [I1 _]). cbn [heap_run]. rewrite E1, bind_Done. exact (IH c1 I1). }
  exists c. split; [exact E|]. split; [exact I|]. destruct I as (fl & H & K & Ok & Lv). split; [|split].
  - intros p q sp sq Hp Hq. rewrite <- Lv in Hp, Hq. exact (live_apart _ _ _ _ _ p q sp sq (km_heap _ _ _ _ _ _ Ok) Hp Hq).
  - intros p sp Hp. rewrite <- Lv in Hp. destruct (live_place _ _ _ Hp) as (x & Hx & _).
    destruct (hp_align _ _ _ _ _ (km_heap _ _ _ _ _ _ Ok) _ x Hx) as [Pos Al]. split; [lia|]. Z.div_mod_to_equations. lia.
  - intros op So. destruct (heap_do_ok Y c op) as (c' & E' & [_ K']); [by exists fl, H, K|exact So|]. exists c'. split; [exact E'|exact K'].
Qed.

Lemma heap_clients_safe_witness :
  exists c, heap_run (mkCl kmem_init demo_phys ∅) [HAlloc 100; HZero 3 8; HAlloc 5000; HWrite 0 0 1] = Done c /\ clients_ok ∅ c.
Proof.
  destruct (heap_clients_safe demo_ram demo_phys ∅ [HAlloc 100; HZero 3 8; HAlloc 5000; HWrite 0 0 1] demo_ram_owned eq_refl)
    as (c & E & I & _).
  - repeat constructor; cbn; unfold u64; lia.
  - exists c. exact (conj E I).
Defined.

Lemma bytes_are_spoilt n m a b x v : a <= x < a + Z.of_nat n -> w8 v <> b -> bytes_are n (st8 m x v) a b = false.
Proof.
  intros Hx Nv. destruct (bytes_are n (st8 m x v) a b) eqn:E; [|reflexivity]. exfalso.
  apply Nv. rewrite <- (proj1 (bytes_are_spec _ _ _ _) E x Hx), ld8_st8, Z.eqb_refl. reflexivity.
Qed.

(** [C31] Misuse is caught: freeing a chunk already on a free list panics on
    its magic; a byte changed between a block's end and its chunk's panics the
    free of that block; a byte changed in a free chunk panics the allocation
    that takes it. *)
Theorem heap_misuse_caught k ph fl H K Y :
  kmem_ok k ph fl H K Y ->
  (forall c i, H !! c = Some (PFree i) -> kfree k ph (c + KMEM_HDR_SIZE) = Panic "kfree: bad magic") /\
  (forall c i size a v, H !! c = Some (PSmall i size) -> c + KMEM_HDR_SIZE + size <= a < c + bucket_bytes i -> w8 v <> KMEM_RZ_PATTERN ->
     kfree k (with_mem ph (st8 (ph_mem ph) a v)) (c + KMEM_HDR_SIZE) = Panic "kfree: red-zone violation") /\
  (forall i c rest size a v, fl i = c :: rest -> size <> 0 -> bucket_for k (w64 (size + KMEM_HDR_SIZE)) = Some i ->
     c + KMEM_CHUNK_SIZE <= a < c + bucket_bytes i -> w8 v <> KMEM_POISON_PATTERN ->
     kmalloc k (with_mem ph (st8 (ph_mem ph) a v)) size = Panic "kmalloc: freed-poison violation").
Proof.
  intros Ok. pose proof (km_heap _ _ _ _ _ _ Ok) as Hp. unfold KMEM_HDR_SIZE, KMEM_CHUNK_SIZE. split; [|split].
  - intros c i Hc. pose proof (place_frame _ _ _ _ _ _ c _ Ok Hc). unfold kfree. rewrite (proj2 (Z.eqb_neq (c + 16) 0)) by lia.
    unfold KMEM_HDR_SIZE. replace (c + 16 - 16) with c by lia. cbv zeta. by rewrite (free_magic _ _ _ _ _ _ c i Ok Hc).
  - intros c i size a v Hc Ha Nv. pose proof (place_frame _ _ _ _ _ _ c _ Ok Hc) as Bc.
    pose proof (hp_bytes _ _ _ _ _ Hp c _ Hc) as (Hi & Hs & Hz & Eb & Em & Es & Rz). cbn [extent] in *.
    destruct (lookup_lt_is_Some_2 (kmem_buckets k) i) as [b Hb]; [by rewrite (hp_len _ _ _ _ _ Hp)|].
    set (m' := st8 (ph_mem ph) a v).
    assert (forall x, x < c + 16 + size -> ld8 m' x = ld8 (ph_mem ph) x) as Low
      by (intros x Hx; unfold m'; rewrite ld8_st8; by destruct (x =? a) eqn:?; [lia|]).
    assert (kh_magic m' c = KMEM_HDR_MAGIC) as Em' by (rewrite <- Em; apply ld_le_ext; intros x Hx; apply Low; lia).
    assert (kh_bucket m' c = Z.of_nat i) as Eb' by (rewrite <- Eb; apply ld_le_ext; intros x Hx; apply Low; lia).
    assert (kh_size m' c = size) as Es' by (etrans; [apply ld64_ext; intros x Hx; apply Low; lia|exact Es]).
    rewrite (kfree_small_eq k _ c i b) by (done || lia). cbn [with_mem ph_mem]. rewrite (hp_size _ _ _ _ _ Hp i b Hb).
    unfold verify_redzone, slack_of. rewrite Es'. pose proof (bucket_bytes_divides i Hi) as (_ & _ & B3). unfold KMEM_HDR_SIZE. rewrite w64_small by lia.
    unfold m'. by rewrite bytes_are_spoilt by (lia || done).
  - intros i c rest size a v Fl Ns Ebf Ha Nv. pose proof (bucket_for_ok k _ _ _ _ (w64 (size + KMEM_HDR_SIZE)) Hp) as B. unfold KMEM_HDR_SIZE in B. rewrite Ebf in B.
    destruct B as (b & Hb & _). pose proof (hp_linked _ _ _ _ _ Hp i b Hb) as Ln. rewrite Fl in Ln. destruct Ln as (Ec & Bc & _).
    unfold kmalloc. rewrite (proj2 (Z.eqb_neq size 0)) by exact Ns. unfold KMEM_HDR_SIZE. rewrite Ebf, Hb. cbn [default id].
    rewrite Ec, !(proj2 (Z.eqb_neq c 0)) by lia. rewrite Ec, !(proj2 (Z.eqb_neq c 0)) by lia. cbv zeta. rewrite (hp_size _ _ _ _ _ Hp i b Hb). unfold verify_poison, KMEM_CHUNK_SIZE.
    cbn [with_mem ph_mem]. pose proof (bucket_bytes_ge i). by rewrite bytes_are_spoilt by (lia || done).
Qed.

(** The pointer an allocation answers, and the bucket its header names. *)
Definition answer (r : res (Z * kmem * phys)) : option (Z * Z) :=
  match r with Done (p, _, ph) => Some (p, kh_bucket (ph_mem ph) (p - KMEM_HDR_SIZE)) | Panic _ => None end.

(** A 100-byte block overrun by one byte. *)
Lemma heap_misuse_caught_witness :
  exists p k ph, kmalloc kmem_init demo_phys 100 = Done (p, k, ph) /\
    kfree k (with_mem ph (st8 (ph_mem ph) (p + 100) 0)) p = Panic "kfree: red-zone violation".
Proof.
  destruct (kmem_init_ok demo_phys ∅ demo_ram_owned) as (fl & H & K & Ok & _).
  destruct (kmalloc_ok _ _ _ _ _ _ 100 Ok ltac:(lia)) as (p & k & ph & E & Out). exists p, k, ph. split; [exact E|].
  assert (answer (kmalloc kmem_init demo_phys 100) = Some (20368, 3)) as An by (vm_compute; reflexivity).
  cbn [cl_k cl_ph] in E. rewrite E in An. cbn [answer] in An. injection An as Ep Eb.
  destruct Out as [[-> _]|(fl' & H' & K' & Ok' & G)]; [discriminate Ep|].
  destruct (live_place H' p 100) as (x & Hx & Sx); [by rewrite (gt_live _ _ _ _ _ _ G), Z.eqb_refl|].
  pose proof (hp_bytes _ _ _ _ _ (km_heap _ _ _ _ _ _ Ok') _ _ Hx) as Px. destruct x as [i|i sz|n sz]; [done|..]; injection Sx as ->.
  - destruct (heap_misuse_caught k ph fl' H' K' ∅ Ok') as (_ & Red & _). destruct Px as (Hi & _ & Fit & _).
    replace p with (p - 16 + KMEM_HDR_SIZE) at 2 by (unfold KMEM_HDR_SIZE; lia). apply (Red (p - 16) i 100); [exact Hx| |done].
    unfold KMEM_HDR_SIZE. pose proof (bucket_bytes_table i Hi) as T. repeat (apply elem_of_cons in T as [T|T]; [lia|]). destruct (not_elem_of_nil _ T).
  - destruct Px as (_ & _ & _ & _ & Bad & _). unfold KMEM_HDR_SIZE in Eb. rewrite Eb in Bad. discriminate Bad.
Defined.

