(* ===== verification/MemmapInit.v ===== *)
(** Reading the firmware's report, [memmap_init] of [kern/memmap.c]: the
    three wire formats of [arch/amd64/multiboot.h] and [arch/amd64/pvh.h],
    parsed out of the memory the boot loader left. *)

From stdpp Require Import base list numbers strings sorting.
From Stdlib Require Import ZArith Lia ZifyBool.
From S2P Require Import Prelude Memmap Pmm Phys.

Definition get32 (m : mem) (a : Z) : Z := ld_le 4 m a.
Definition get64 (m : mem) (a : Z) : Z := ld_le 8 m a.

(** * Wire formats: the fields the parsers read, by offset *)

Definition MB1_BOOTLOADER_MAGIC : Z := 0x2BADB002.
Definition MB2_BOOTLOADER_MAGIC : Z := 0x36D76289.
Definition MB1_INFO_MEMORY : Z := Z.shiftl 1 0.
Definition MB1_INFO_MEMMAP : Z := Z.shiftl 1 6.
Definition MB2_TAG_END : Z := 0.
Definition MB2_TAG_MMAP : Z := 6.
Definition PVH_START_MAGIC : Z := 0x336EC578.

(** [struct mb1_info] *)
Definition mb_flags (m : mem) (info : Z) : Z := get32 m info.
Definition mb_mem_upper (m : mem) (info : Z) : Z := get32 m (info + 8).
Definition mb_mmap_length (m : mem) (info : Z) : Z := get32 m (info + 44).
Definition mb_mmap_addr (m : mem) (info : Z) : Z := get32 m (info + 48).

(** [struct mb1_mmap_entry] *)
Definition mme1_size (m : mem) (e : Z) : Z := get32 m e.
Definition mme1_base (m : mem) (e : Z) : Z := get64 m (e + 4).
Definition mme1_length (m : mem) (e : Z) : Z := get64 m (e + 12).
Definition mme1_type (m : mem) (e : Z) : Z := get32 m (e + 20).

(** [struct mb2_info], [struct mb2_tag], [struct mb2_tag_mmap] *)
Definition mb_total_size (m : mem) (info : Z) : Z := get32 m info.
Definition mt_type (m : mem) (tag : Z) : Z := get32 m tag.
Definition mt_size (m : mem) (tag : Z) : Z := get32 m (tag + 4).
Definition mt_entry_size (m : mem) (tag : Z) : Z := get32 m (tag + 8).

(** [struct mb2_mmap_entry]; [struct pvh_memmap_entry] has the same layout. *)
Definition mme_base (m : mem) (e : Z) : Z := get64 m e.
Definition mme_length (m : mem) (e : Z) : Z := get64 m (e + 8).
Definition mme_type (m : mem) (e : Z) : Z := get32 m (e + 16).

(** [struct pvh_start_info] *)
Definition psi_magic (m : mem) (si : Z) : Z := get32 m si.
Definition psi_memmap_paddr (m : mem) (si : Z) : Z := get64 m (si + 40).
Definition psi_memmap_entries (m : mem) (si : Z) : Z := get32 m (si + 48).

(** * The parsers

    A loop whose length the report decides takes fuel; [None] is a loop that
    has not ended. *)

Fixpoint mb1_loop (fuel : nat) (m : mem) (cur end_ : Z) (mm : memmap) : option memmap :=
  if cur <? end_ then
    match fuel with
    | O => None
    | S fuel =>
        let mm := memmap_add mm (mme1_base m cur) (mme1_length m cur) (e820_to_local (mme1_type m cur)) in
        mb1_loop fuel m (w64 (cur + w64 (mme1_size m cur + 4))) end_ mm
    end
  else Some mm.

Definition parse_mb1 (fuel : nat) (m : mem) (info : Z) (mm : memmap) : option memmap :=
  if negb (Z.land (mb_flags m info) MB1_INFO_MEMMAP =? 0) then
    let cur := mb_mmap_addr m info in
    mb1_loop fuel m cur (w64 (cur + mb_mmap_length m info)) mm
  else if negb (Z.land (mb_flags m info) MB1_INFO_MEMORY =? 0) then
    let mm := memmap_add mm 0 0x100000 MEMMAP_RESERVED in
    Some (memmap_add mm 0x100000 (w64 (mb_mem_upper m info * 1024)) MEMMAP_FREE)
  else Some mm.

(** The [for] over the entries of a map tag. *)
Fixpoint mb2_entries (n : nat) (m : mem) (e esize : Z) (mm : memmap) : memmap :=
  match n with
  | O => mm
  | S n => mb2_entries n m (w64 (e + esize)) esize
             (memmap_add mm (mme_base m e) (mme_length m e) (e820_to_local (mme_type m e)))
  end.

Fixpoint mb2_loop (fuel : nat) (m : mem) (p end_ : Z) (mm : memmap) : option memmap :=
  if w64 (p + 8) <=? end_ then
    match fuel with
    | O => None
    | S fuel =>
        if mt_type m p =? MB2_TAG_END then Some mm
        else
          let next := w64 (p + Z.land (w32 (mt_size m p + 7)) (Z.lnot 7 mod 2 ^ 32)) in
          if mt_type m p =? MB2_TAG_MMAP then
            if mt_entry_size m p =? 0 then Some mm
            else
              let n := w64 (mt_size m p - 16) / mt_entry_size m p in
              mb2_loop fuel m next end_ (mb2_entries (Z.to_nat n) m (p + 16) (mt_entry_size m p) mm)
          else mb2_loop fuel m next end_ mm
    end
  else Some mm.

Definition parse_mb2 (fuel : nat) (m : mem) (info : Z) (mm : memmap) : option memmap :=
  mb2_loop fuel m (info + 8) (w64 (info + mb_total_size m info)) mm.

Fixpoint pvh_entries (n : nat) (m : mem) (e : Z) (mm : memmap) : memmap :=
  match n with
  | O => mm
  | S n => pvh_entries n m (w64 (e + 24))
             (memmap_add mm (mme_base m e) (mme_length m e) (e820_to_local (mme_type m e)))
  end.

Definition parse_pvh (m : mem) (info : Z) (mm : memmap) : memmap :=
  if negb (psi_magic m info =? PVH_START_MAGIC) then mm
  else pvh_entries (Z.to_nat (psi_memmap_entries m info)) m (psi_memmap_paddr m info) mm.

Definition memmap_init (fuel : nat) (m : mem) (mb_magic mb_info : Z) : res (option memmap) :=
  r ← (if mb_magic =? MB1_BOOTLOADER_MAGIC then Done (parse_mb1 fuel m mb_info memmap_empty)
       else if mb_magic =? MB2_BOOTLOADER_MAGIC then Done (parse_mb2 fuel m mb_info memmap_empty)
       else if mb_magic =? 0 then Done (Some (parse_pvh m mb_info memmap_empty))
       else Panic "memmap_init: unknown boot magic");
  Done (match r with
        | None => None
        | Some mm =>
            let mm := if memmap_nentries mm =? 0
                      then memmap_add (memmap_add mm 0 0x100000 MEMMAP_RESERVED) 0x100000 0x1F00000 MEMMAP_FREE else mm in
            let mm := mkMemmap (memmap_sort (memmap_entries mm)) (memmap_total_bytes mm) (memmap_free_bytes mm) (memmap_max_pa mm) in
            Some (memmap_recount mm)
        end).

(** * What a report says *)

Record report := mkReport { rp_base : Z; rp_length : Z; rp_type : Z }.

Definition report_ok (r : report) : Prop :=
  0 <= rp_base r < 2 ^ 64 /\ 0 <= rp_length r < 2 ^ 64 /\ 0 <= rp_type r < 2 ^ 32.

Definition add_report (mm : memmap) (r : report) : memmap :=
  memmap_add mm (rp_base r) (rp_length r) (e820_to_local (rp_type r)).

Definition entry_of (r : report) : memmap_entry := mkEntry (rp_base r) (rp_length r) (e820_to_local (rp_type r)).

(** The entries that make it into the table: those with a length, the first
    64 of them. *)
Definition kept_entries (rs : list report) : list memmap_entry :=
  take 64 (entry_of <$> filter (fun r => rp_length r <> 0) rs).

(** ** Bytes in memory *)

Fixpoint holds_bytes (m : mem) (a : Z) (bs : list Z) : Prop :=
  match bs with [] => True | b :: bs => ld8 m a = b /\ holds_bytes m (a + 1) bs end.

Lemma holds_app m a bs1 bs2 : holds_bytes m a (bs1 ++ bs2) <-> holds_bytes m a bs1 /\ holds_bytes m (a + Z.of_nat (length bs1)) bs2.
Proof.
  revert a. induction bs1 as [|b bs1 IH]; intros a; cbn [app holds_bytes length]; [rewrite Z.add_0_r; tauto|].
  rewrite IH. replace (a + 1 + Z.of_nat (length bs1)) with (a + Z.of_nat (S (length bs1))) by lia. tauto.
Qed.

Lemma holds_word m n a v : holds_bytes m a (le_bytes n v) -> 0 <= v < 2 ^ (8 * Z.of_nat n) -> ld_le n m a = v.
Proof.
  revert a v. induction n as [|n IH]; intros a v; cbn [le_bytes holds_bytes ld_le]; [intros _ Hv; lia|].
  intros [-> Hb] Hv. replace (8 * Z.of_nat (S n)) with (8 + 8 * Z.of_nat n) in Hv by lia. rewrite Z.pow_add_r in Hv by lia.
  rewrite (IH _ _ Hb); Z.div_mod_to_equations; nia.
Qed.

(** The three encodings of an entry. *)
Definition mb1_entry (r : report) : list Z :=
  le_bytes 4 20 ++ le_bytes 8 (rp_base r) ++ le_bytes 8 (rp_length r) ++ le_bytes 4 (rp_type r).
Definition mb2_entry (r : report) : list Z :=
  le_bytes 8 (rp_base r) ++ le_bytes 8 (rp_length r) ++ le_bytes 4 (rp_type r) ++ le_bytes 4 0.
Definition encode (f : report -> list Z) (rs : list report) : list Z := concat (f <$> rs).

(** * The parsers read what the formats write *)

Lemma holds_entry f m a r rs :
  holds_bytes m a (encode f (r :: rs)) -> holds_bytes m a (f r) /\ holds_bytes m (a + Z.of_nat (length (f r))) (encode f rs).
Proof. unfold encode. cbn. apply holds_app. Qed.

Lemma mb1_entry_read m a r : holds_bytes m a (mb1_entry r) -> report_ok r ->
  mme1_size m a = 20 /\ mme1_base m a = rp_base r /\ mme1_length m a = rp_length r /\ mme1_type m a = rp_type r.
Proof.
  unfold mb1_entry. rewrite !holds_app, !le_bytes_length. intros (H1 & H2 & H3 & H4) (B1 & B2 & B3).
  unfold mme1_size, mme1_base, mme1_length, mme1_type, get32, get64.
  replace (a + Z.of_nat 4 + Z.of_nat 8 + Z.of_nat 8) with (a + 20) in H4 by lia.
  replace (a + Z.of_nat 4 + Z.of_nat 8) with (a + 12) in H3 by lia. replace (a + Z.of_nat 4) with (a + 4) in H2 by lia.
  split_and!; apply holds_word; done || lia.
Qed.

Lemma mb2_entry_read m a r : holds_bytes m a (mb2_entry r) -> report_ok r ->
  mme_base m a = rp_base r /\ mme_length m a = rp_length r /\ mme_type m a = rp_type r.
Proof.
  unfold mb2_entry. rewrite !holds_app, !le_bytes_length. intros (H1 & H2 & H3 & _) (B1 & B2 & B3).
  unfold mme_base, mme_length, mme_type, get32, get64.
  replace (a + Z.of_nat 8 + Z.of_nat 8) with (a + 16) in H3 by lia. replace (a + Z.of_nat 8) with (a + 8) in H2 by lia.
  split_and!; apply holds_word; done || lia.
Qed.

Lemma mb1_entry_length r : length (mb1_entry r) = 24%nat.
Proof. unfold mb1_entry. by rewrite !length_app, !le_bytes_length. Qed.
Lemma mb2_entry_length r : length (mb2_entry r) = 24%nat.
Proof. unfold mb2_entry. by rewrite !length_app, !le_bytes_length. Qed.

Lemma mb1_loop_reads fuel m cur rs mm :
  holds_bytes m cur (encode mb1_entry rs) -> Forall report_ok rs -> (length rs <= fuel)%nat ->
  0 <= cur -> cur + 24 * Z.of_nat (length rs) < 2 ^ 64 ->
  mb1_loop fuel m cur (cur + 24 * Z.of_nat (length rs)) mm = Some (fold_left add_report rs mm).
Proof.
  revert fuel cur mm. induction rs as [|r rs IH]; intros fuel cur mm Hm Ok Hf Hc Hb; cbn [length] in *.
  { destruct fuel; cbn [mb1_loop]; rewrite (proj2 (Z.ltb_ge _ _)) by lia; reflexivity. }
  destruct fuel as [|fuel]; [lia|]. apply Forall_cons in Ok as [Or Ors]. apply holds_entry in Hm as [Hr Hrs].
  rewrite mb1_entry_length in Hrs. destruct (mb1_entry_read m cur r Hr Or) as (E1 & E2 & E3 & E4).
  cbn [mb1_loop fold_left]. rewrite (proj2 (Z.ltb_lt _ _)) by lia. rewrite E1, E2, E3, E4. change (w64 (20 + 4)) with 24.
  rewrite w64_small by lia. replace (cur + 24 * Z.of_nat (S (length rs))) with (cur + 24 + 24 * Z.of_nat (length rs)) by lia.
  apply IH; [exact Hrs|exact Ors|lia|lia|lia].
Qed.

Lemma mb2_entries_read m e rs mm :
  holds_bytes m e (encode mb2_entry rs) -> Forall report_ok rs -> 0 <= e -> e + 24 * Z.of_nat (length rs) < 2 ^ 64 ->
  mb2_entries (length rs) m e 24 mm = fold_left add_report rs mm.
Proof.
  revert e mm. induction rs as [|r rs IH]; intros e mm Hm Ok He Hb; cbn [length mb2_entries fold_left] in *; [reflexivity|].
  apply Forall_cons in Ok as [Or Ors]. apply holds_entry in Hm as [Hr Hrs]. rewrite mb2_entry_length in Hrs.
  destruct (mb2_entry_read m e r Hr Or) as (-> & -> & ->). rewrite w64_small by lia. apply IH; [exact Hrs|exact Ors|lia|lia].
Qed.

Lemma pvh_entries_read m e rs mm :
  holds_bytes m e (encode mb2_entry rs) -> Forall report_ok rs -> 0 <= e -> e + 24 * Z.of_nat (length rs) < 2 ^ 64 ->
  pvh_entries (length rs) m e mm = fold_left add_report rs mm.
Proof.
  intros Hm Ok He Hb. rewrite <- (mb2_entries_read m e rs mm Hm Ok He Hb). clear. revert e mm.
  induction (length rs) as [|n IH]; intros e mm; cbn [pvh_entries mb2_entries]; [reflexivity|apply IH].
Qed.

(** ** Multiboot 2 tags *)

Inductive tag := TMap (rs : list report) | TOther (ty : Z) (body : list Z).

Definition tag_bytes (t : tag) : list Z :=
  match t with
  | TMap rs => le_bytes 4 6 ++ le_bytes 4 (16 + 24 * Z.of_nat (length rs)) ++ le_bytes 4 24 ++ le_bytes 4 0 ++ encode mb2_entry rs
  | TOther ty body => le_bytes 4 ty ++ le_bytes 4 (8 + Z.of_nat (length body)) ++ body
  end.
(** Padded to eight bytes. *)
Definition padded_tag (t : tag) : list Z := tag_bytes t ++ replicate (Z.to_nat (- Z.of_nat (length (tag_bytes t)) mod 8)) 0.
Definition end_tag : list Z := le_bytes 4 0 ++ le_bytes 4 8.

Definition tag_ok (t : tag) : Prop :=
  Z.of_nat (length (tag_bytes t)) < 2 ^ 31 /\
  match t with TMap rs => Forall report_ok rs | TOther ty _ => 0 < ty < 2 ^ 32 /\ ty <> 6 end.

Definition tag_reports (t : tag) : list report := match t with TMap rs => rs | TOther _ _ => [] end.

Lemma encode_length f rs : (forall r, length (f r) = 24%nat) -> length (encode f rs) = (24 * length rs)%nat.
Proof. intros L. induction rs as [|r rs IH]; [reflexivity|]. unfold encode in *. cbn. rewrite length_app, L, IH. lia. Qed.

Lemma tag_step x : 0 <= x < 2 ^ 31 -> Z.land (w32 (x + 7)) (Z.lnot 7 mod 2 ^ 32) = x + - x mod 8.
Proof.
  intros Hx. rewrite w32_small by lia. change (Z.lnot 7 mod 2 ^ 32) with (Z.ldiff (Z.ones 32) (Z.ones 3)).
  rewrite Z.ldiff_land, Z.land_assoc, Z.land_ones by lia. rewrite Z.mod_small by lia. rewrite <- Z.ldiff_land. change (Z.ones 3) with (2 ^ 3 - 1). rewrite ldiff_ones_sub by lia.
  change (2 ^ 3) with 8. Z.div_mod_to_equations. lia.
Qed.

(** Each tag's first two words, and where the next one starts. *)
Lemma tag_header m p t rest :
  holds_bytes m p (padded_tag t ++ rest) -> tag_ok t ->
  mt_type m p = (match t with TMap _ => 6 | TOther ty _ => ty end) /\ mt_size m p = Z.of_nat (length (tag_bytes t)) /\
  holds_bytes m p (tag_bytes t) /\
  holds_bytes m (p + Z.land (w32 (mt_size m p + 7)) (Z.lnot 7 mod 2 ^ 32)) rest.
Proof.
  unfold padded_tag. rewrite <- app_assoc, !holds_app. intros (Ht & _ & Hr) [Hl Ok].
  rewrite length_replicate in Hr.
  assert (mt_type m p = (match t with TMap _ => 6 | TOther ty _ => ty end) /\ mt_size m p = Z.of_nat (length (tag_bytes t))) as [E1 E2].
  { unfold mt_type, mt_size, get32. destruct t as [rs|ty body]; cbn [tag_bytes] in *;
      rewrite !holds_app, !le_bytes_length in Ht; destruct Ht as (T1 & T2 & _); replace (p + Z.of_nat 4) with (p + 4) in T2 by lia.
    - rewrite !length_app, !le_bytes_length, (encode_length _ _ mb2_entry_length) in *.
      split; [by apply holds_word|]. rewrite (holds_word _ _ _ _ T2) by lia. lia.
    - rewrite !length_app, !le_bytes_length in *. split; [apply holds_word; [done|lia]|]. rewrite (holds_word _ _ _ _ T2) by lia. lia. }
  split; [exact E1|]. split; [exact E2|]. split; [exact Ht|]. rewrite E2, tag_step by lia. rewrite Z2Nat.id in Hr by (Z.div_mod_to_equations; lia).
  by rewrite Z.add_assoc.
Qed.

Lemma mb2_loop_reads fuel m p end_ tags mm :
  holds_bytes m p (concat (padded_tag <$> tags) ++ end_tag) -> Forall tag_ok tags -> (length tags < fuel)%nat ->
  0 <= p -> p + Z.of_nat (length (concat (padded_tag <$> tags) ++ end_tag)) <= end_ -> end_ < 2 ^ 64 ->
  mb2_loop fuel m p end_ mm = Some (fold_left add_report (concat (tag_reports <$> tags)) mm).
Proof.
  revert fuel p mm. induction tags as [|t tags IH]; intros fuel p mm Hm Ok Hf Hp Hb He; destruct fuel as [|fuel]; [lia| |cbn in Hf; lia|].
  { cbn [fmap list_fmap concat app] in *. unfold end_tag in *. rewrite length_app, !le_bytes_length in Hb. apply holds_app in Hm as [Hm _].
    cbn [mb2_loop]. rewrite w64_small by lia. rewrite (proj2 (Z.leb_le _ _)) by lia.
    unfold mt_type, get32. by rewrite (holds_word m 4 p 0 Hm). }
  apply Forall_cons in Ok as [Ot Ots]. cbn [fmap list_fmap concat] in *. rewrite <- app_assoc in Hm, Hb.
  destruct (tag_header m p t _ Hm Ot) as (E1 & E2 & Hb1 & Hr). rewrite length_app in Hb. pose proof Ot as [Ol Ok].
  rewrite E2 in Hr. rewrite tag_step in Hr by lia. assert (0 <= - Z.of_nat (length (tag_bytes t)) mod 8 < 8) as Hm8 by (Z.div_mod_to_equations; lia).
  assert (8 <= Z.of_nat (length (tag_bytes t))) as Big by (destruct t; cbn [tag_bytes]; rewrite !length_app, !le_bytes_length; lia).
  assert (Z.of_nat (length (padded_tag t)) = Z.of_nat (length (tag_bytes t)) + - Z.of_nat (length (tag_bytes t)) mod 8) as El
    by (unfold padded_tag; rewrite length_app, length_replicate; lia).
  cbn [mb2_loop]. rewrite (w64_small (p + 8)) by lia. rewrite (proj2 (Z.leb_le _ _)) by lia.
  rewrite E1, E2, tag_step by lia. rewrite (w64_small (p + _)) by lia.
  assert (forall mm', mb2_loop fuel m (p + (Z.of_nat (length (tag_bytes t)) + - Z.of_nat (length (tag_bytes t)) mod 8)) end_ mm' =
            Some (fold_left add_report (concat (tag_reports <$> tags)) mm')) as Next.
  { intros mm'. apply IH; [exact Hr|exact Ots|cbn in Hf; lia|lia|lia|exact He]. }
  destruct t as [rs|ty body]; cbn [tag_reports app].
  - cbn [Z.eqb]. rewrite fold_left_app. change (6 =? MB2_TAG_END) with false. change (6 =? MB2_TAG_MMAP) with true. cbv iota.
    cbn [tag_bytes] in Hb1. rewrite !holds_app, !le_bytes_length in Hb1. destruct Hb1 as (_ & _ & T3 & _ & T5).
    replace (p + Z.of_nat 4 + Z.of_nat 4 + Z.of_nat 4 + Z.of_nat 4) with (p + 16) in T5 by lia.
    replace (p + Z.of_nat 4 + Z.of_nat 4) with (p + 8) in T3 by lia.
    assert (mt_entry_size m p = 24) as Ee by (by apply holds_word). rewrite Ee.
    assert (Z.of_nat (length (tag_bytes (TMap rs))) = 16 + 24 * Z.of_nat (length rs)) as Lt
      by (cbn [tag_bytes]; rewrite !length_app, !le_bytes_length, (encode_length _ _ mb2_entry_length); lia).
    assert (w64 (Z.of_nat (length (tag_bytes (TMap rs))) - 16) / 24 = Z.of_nat (length rs)) as En.
    { rewrite Lt, w64_small by lia. replace (16 + 24 * Z.of_nat (length rs) - 16) with (Z.of_nat (length rs) * 24) by lia. by apply Z.div_mul. }
    change (24 =? 0) with false. cbv iota. rewrite En, Nat2Z.id, Next, (mb2_entries_read m (p + 16) rs mm T5 Ok) by lia. reflexivity.
  - destruct Ok as [Hty N6]. rewrite (proj2 (Z.eqb_neq ty MB2_TAG_END)) by (unfold MB2_TAG_END; lia).
    rewrite (proj2 (Z.eqb_neq ty MB2_TAG_MMAP)) by exact N6. exact (Next mm).
Qed.

(** ** The table *)

Lemma fold_entries rs mm : Z.of_nat (length (memmap_entries mm)) <= 64 ->
  memmap_entries (fold_left add_report rs mm) =
    memmap_entries mm ++ take (64 - length (memmap_entries mm)) (entry_of <$> filter (fun r => rp_length r <> 0) rs).
Proof.
  revert mm. induction rs as [|r rs IH]; intros mm Hl; cbn [fold_left].
  { rewrite filter_nil. cbn [fmap list_fmap]. rewrite take_nil. symmetry. apply app_nil_r. }
  unfold add_report at 2, memmap_add, memmap_nentries, MEMMAP_MAX_ENTRIES. destruct (Z.eqb_spec (rp_length r) 0) as [Ez|Nz].
  - rewrite IH by exact Hl. by rewrite filter_cons_False by (intros N; by apply N).
  - rewrite filter_cons_True by exact Nz. cbn [fmap list_fmap]. destruct (64 <=? Z.of_nat (length (memmap_entries mm))) eqn:Full.
    + rewrite IH by exact Hl. replace (64 - length (memmap_entries mm))%nat with O by lia. by rewrite !take_0.
    + rewrite IH by (cbn [memmap_entries]; rewrite length_app; cbn; lia). cbn [memmap_entries]. rewrite length_app. cbn [length].
      replace (64 - length (memmap_entries mm))%nat with (S (64 - (length (memmap_entries mm) + 1))) by lia.
      cbn [take]. by rewrite <- app_assoc.
Qed.

(** The insertion sort. *)
Definition base_le (a b : memmap_entry) : Prop := me_base a <= me_base b.

Lemma sift_perm e l : sift e l ≡ₚ e :: l.
Proof.
  induction l as [|x l IH]; cbn [sift]; [done|]. destruct (_ <? _); [|done]. rewrite IH. apply Permutation_swap.
Qed.

Lemma sift_sorted e l : StronglySorted (flip base_le) l -> StronglySorted (flip base_le) (sift e l).
Proof.
  induction 1 as [|x l Sl IH Fx]; cbn [sift]; [by repeat constructor|]. destruct (Z.ltb_spec (me_base e) (me_base x)) as [Lt|Ge].
  - constructor; [exact IH|]. rewrite sift_perm. constructor; [unfold flip, base_le; lia|exact Fx].
  - constructor; [by constructor|]. constructor; [exact Ge|]. eapply Forall_impl; [exact Fx|]. unfold flip, base_le. lia.
Qed.

Lemma sift_stable e l b :
  filter (fun x => me_base x = b) (sift e l) = filter (fun x => me_base x = b) (e :: l).
Proof.
  induction l as [|x l IH]; cbn [sift]; [reflexivity|]. destruct (Z.ltb_spec (me_base e) (me_base x)) as [Lt|Ge]; [|reflexivity].
  rewrite filter_cons, IH, !filter_cons. repeat case_decide; reflexivity || lia.
Qed.

Lemma sort_fold es acc : StronglySorted (flip base_le) acc ->
  let l := fold_left (fun prefix e => sift e prefix) es acc in
  StronglySorted (flip base_le) l /\ l ≡ₚ rev es ++ acc /\
  forall b, filter (fun x => me_base x = b) l = rev (filter (fun x => me_base x = b) es) ++ filter (fun x => me_base x = b) acc.
Proof.
  revert acc. induction es as [|e es IH]; intros acc Sa; cbn [fold_left]; [done|].
  destruct (IH (sift e acc) (sift_sorted e acc Sa)) as (S1 & P1 & F1). cbv zeta. split; [exact S1|]. split.
  - rewrite P1, sift_perm. cbn [rev]. by rewrite <- app_assoc.
  - intros b. rewrite F1, sift_stable, !filter_cons. case_decide; [|reflexivity]. cbn [rev]. by rewrite <- app_assoc.
Qed.

Lemma sorted_rev (l : list memmap_entry) : StronglySorted (flip base_le) l -> StronglySorted base_le (rev l).
Proof.
  induction 1 as [|x l Sl IH Fx]; cbn [rev]; [constructor|]. apply StronglySorted_app. split_and!; [|exact IH|by repeat constructor].
  intros a b Ha Hb%list_elem_of_singleton. subst b. rewrite <- (Permutation_rev l) in Ha. rewrite Forall_forall in Fx. exact (Fx a Ha).
Qed.

Lemma filter_rev' (l : list memmap_entry) b :
  filter (fun x => me_base x = b) (rev l) = rev (filter (fun x => me_base x = b) l).
Proof.
  induction l as [|x l IH]; [reflexivity|]. cbn [rev]. rewrite filter_app, IH, !filter_cons. case_decide; [reflexivity|apply app_nil_r].
Qed.

Lemma memmap_sort_ok es :
  StronglySorted base_le (memmap_sort es) /\ memmap_sort es ≡ₚ es /\
  forall b, filter (fun x => me_base x = b) (memmap_sort es) = filter (fun x => me_base x = b) es.
Proof.
  unfold memmap_sort. destruct (sort_fold es []) as (S1 & P1 & F1); [constructor|]. cbv zeta in *. split; [by apply sorted_rev|]. split.
  - rewrite <- Permutation_rev, P1, app_nil_r. symmetry. apply Permutation_rev.
  - intros b. rewrite filter_rev', F1. cbn. by rewrite app_nil_r, rev_involutive.
Qed.

(** * Properties *)

(** What a conforming boot loader leaves in memory. *)
Inductive boot_report (m : mem) : Z -> Z -> list report -> Prop :=
| br_mb1 info addr rs :
    Z.land (mb_flags m info) MB1_INFO_MEMMAP <> 0 -> mb_mmap_addr m info = addr ->
    mb_mmap_length m info = 24 * Z.of_nat (length rs) ->
    holds_bytes m addr (encode mb1_entry rs) -> Forall report_ok rs ->
    boot_report m MB1_BOOTLOADER_MAGIC info rs
| br_mb2 info tags :
    0 <= info < 2 ^ 32 -> holds_bytes m (info + 8) (concat (padded_tag <$> tags) ++ end_tag) -> Forall tag_ok tags ->
    mb_total_size m info = 8 + Z.of_nat (length (concat (padded_tag <$> tags) ++ end_tag)) ->
    boot_report m MB2_BOOTLOADER_MAGIC info (concat (tag_reports <$> tags))
| br_pvh info rs :
    psi_magic m info = PVH_START_MAGIC -> psi_memmap_entries m info = Z.of_nat (length rs) ->
    psi_memmap_paddr m info + 24 * Z.of_nat (length rs) < 2 ^ 64 ->
    holds_bytes m (psi_memmap_paddr m info) (encode mb2_entry rs) -> Forall report_ok rs ->
    boot_report m 0 info rs.

(** The table when the firmware reports nothing usable. *)
Definition fallback : list memmap_entry :=
  [mkEntry 0 0x100000 MEMMAP_RESERVED; mkEntry 0x100000 0x1F00000 MEMMAP_FREE].

Definition entries_of (rs : list report) : list memmap_entry :=
  match kept_entries rs with [] => fallback | es => es end.

Definition sum_lengths (l : list memmap_entry) : Z := foldr (fun e n => me_length e + n) 0 l.

Lemma fold_lengths (p : memmap_entry -> bool) l t :
  fold_left (fun t e => if p e then w64 (t + me_length e) else t) l (w64 t) = w64 (t + sum_lengths (filter p l)).
Proof.
  revert t. induction l as [|e l IH]; intros t; cbn [fold_left]; [cbn; by rewrite Z.add_0_r|]. rewrite filter_cons.
  destruct (p e); cbn [Is_true decide_rel decide].
  - rewrite decide_True by done. assert (w64 (w64 t + me_length e) = w64 (t + me_length e)) as -> by apply Zplus_mod_idemp_l.
    rewrite IH. cbn [sum_lengths foldr]. fold (sum_lengths (filter p l)). f_equal. lia.
  - rewrite decide_False by (intros []). apply IH.
Qed.

Lemma filter_all (l : list memmap_entry) : filter (fun _ => true) l = l.
Proof. induction l as [|e l IH]; [reflexivity|]. by rewrite filter_cons_True, IH by done. Qed.

Lemma get_range n m a : 0 <= ld_le n m a < 2 ^ (8 * Z.of_nat n).
Proof. apply ld_le_range. Qed.

(** The reports reach the table in order. *)
Lemma parse_reads fuel m magic info rs :
  boot_report m magic info rs -> (Z.to_nat (2 ^ 32) <= fuel)%nat ->
  exists mm, (if magic =? MB1_BOOTLOADER_MAGIC then Done (parse_mb1 fuel m info memmap_empty)
       else if magic =? MB2_BOOTLOADER_MAGIC then Done (parse_mb2 fuel m info memmap_empty)
       else if magic =? 0 then Done (Some (parse_pvh m info memmap_empty))
       else Panic "memmap_init: unknown boot magic") = Done (Some mm) /\ memmap_entries mm = kept_entries rs.
Proof.
  intros Br Hf. exists (fold_left add_report rs memmap_empty). split; [|by apply fold_entries].
  destruct Br as [info addr rs Fl Ea El Hm Ok|info tags Hi Hm Ok El|info rs Em En Hb Hm Ok].
  - rewrite Z.eqb_refl. do 2 f_equal. unfold parse_mb1. rewrite (proj2 (Z.eqb_neq _ 0) Fl). cbn [negb]. rewrite Ea, El.
    pose proof (get_range 4 m (info + 48)) as B1. pose proof (get_range 4 m (info + 44)) as B2.
    unfold mb_mmap_addr, mb_mmap_length, get32 in Ea, El. rewrite Ea in B1. rewrite El in B2.
    rewrite w64_small by lia. apply mb1_loop_reads; [exact Hm|exact Ok|lia|lia|lia].
  - change (MB2_BOOTLOADER_MAGIC =? MB1_BOOTLOADER_MAGIC) with false. rewrite Z.eqb_refl. cbv iota. do 2 f_equal. unfold parse_mb2.
    pose proof (get_range 4 m info) as B. unfold mb_total_size, get32 in El. rewrite El in B. unfold mb_total_size, get32. rewrite El.
    assert (length tags <= length (concat (padded_tag <$> tags)))%nat as Lt.
    { clear. induction tags as [|t tags IH]; cbn; [lia|]. rewrite length_app. unfold padded_tag at 1. rewrite length_app.
      destruct t; cbn [tag_bytes]; rewrite !length_app, !le_bytes_length; lia. }
    rewrite length_app in B. rewrite w64_small by (rewrite length_app; lia).
    apply mb2_loop_reads; [exact Hm|exact Ok|lia|lia|lia|rewrite length_app; lia].
  - change (0 =? MB1_BOOTLOADER_MAGIC) with false. change (0 =? MB2_BOOTLOADER_MAGIC) with false. cbn [Z.eqb]. do 2 f_equal.
    unfold parse_pvh. rewrite Em, Z.eqb_refl, En, Nat2Z.id. cbn [negb]. apply pvh_entries_read; [exact Hm|exact Ok| |exact Hb].
    apply (get_range 8 m (info + 40)).
Qed.

(** [C21] The firmware's report survives the trip: whichever of the three
    formats carries it, [memmap_init] ends with the reported ranges of
    non-zero length (the first 64; a conservative default if there is none),
    their types translated, stably sorted by base, and with totals that are
    the sums of the lengths. *)
Theorem memmap_init_reads fuel m magic info rs :
  boot_report m magic info rs -> (Z.to_nat (2 ^ 32) <= fuel)%nat ->
  exists mm, memmap_init fuel m magic info = Done (Some mm) /\
    StronglySorted base_le (memmap_entries mm) /\ memmap_entries mm ≡ₚ entries_of rs /\
    (forall b, filter (fun e => me_base e = b) (memmap_entries mm) = filter (fun e => me_base e = b) (entries_of rs)) /\
    memmap_nentries mm <= MEMMAP_MAX_ENTRIES /\
    memmap_total_bytes mm = w64 (sum_lengths (memmap_entries mm)) /\
    memmap_free_bytes mm = w64 (sum_lengths (filter (fun e => me_type e =? MEMMAP_FREE) (memmap_entries mm))).
Proof.
  intros Br Hf. destruct (parse_reads fuel m magic info rs Br Hf) as (mm & E & Ek). unfold memmap_init. rewrite E, bind_Done.
  set (mm1 := if memmap_nentries mm =? 0 then _ else mm).
  assert (memmap_entries mm1 = entries_of rs) as E1.
  { unfold mm1, entries_of, memmap_nentries. rewrite Ek. destruct (kept_entries rs) as [|e es] eqn:Es; [|exact Ek].
    cbn. unfold memmap_add, memmap_nentries. cbn. rewrite Ek. reflexivity. }
  eexists. split; [reflexivity|]. cbn [memmap_recount memmap_entries memmap_total_bytes memmap_free_bytes]. rewrite E1.
  destruct (memmap_sort_ok (entries_of rs)) as (S1 & P1 & F1). split; [exact S1|]. split; [exact P1|]. split; [exact F1|].
  split; [|split].
  - unfold memmap_nentries, MEMMAP_MAX_ENTRIES. cbn [memmap_recount memmap_entries]. rewrite P1. unfold entries_of, kept_entries.
    pose proof (length_take_le (entry_of <$> filter (fun r => rp_length r <> 0) rs) 64) as L. rewrite length_take in *.
    destruct (take 64 _) as [|e es] eqn:Et; [cbn; lia|]. rewrite <- Et, length_take. lia.
  - pose proof (fold_lengths (fun _ => true) (memmap_sort (entries_of rs)) 0) as Fl. cbn [w64] in Fl. etrans; [exact Fl|]. by rewrite filter_all.
  - exact (fold_lengths (fun e => me_type e =? MEMMAP_FREE) (memmap_sort (entries_of rs)) 0).
Qed.

(** A PVH guest with two ranges: [start_info] at 4096, the map at 8192. *)
Definition pvh_mem : mem :=
  put_bytes (put_bytes (fun _ => 0) 4096
    (le_bytes 4 PVH_START_MAGIC ++ replicate 36 0 ++ le_bytes 8 8192 ++ le_bytes 4 2 ++ le_bytes 4 0))
    8192 (encode mb2_entry [mkReport 0x100000 0x700000 1; mkReport 0 0x9F000 1]).

Lemma memmap_init_reads_witness :
  exists mm, memmap_init (Z.to_nat (2 ^ 32)) pvh_mem 0 4096 = Done (Some mm) /\
    memmap_entries mm ≡ₚ [mkEntry 0x100000 0x700000 MEMMAP_FREE; mkEntry 0 0x9F000 MEMMAP_FREE].
Proof.
  destruct (memmap_init_reads (Z.to_nat (2 ^ 32)) pvh_mem 0 4096 [mkReport 0x100000 0x700000 1; mkReport 0 0x9F000 1])
    as (mm & E & _ & P & _).
  - apply br_pvh; [vm_compute; reflexivity|vm_compute; reflexivity|vm_compute; reflexivity| |].
    + vm_compute. repeat split.
    + repeat constructor; cbn; lia.
  - apply Nat.le_refl.
  - exists mm. split; [exact E|exact P].
Defined.

(** The Multiboot 1 loop ends on any memory: every step moves at least
    four bytes, so 2^30 + 1 steps are enough whatever the entries claim their
    sizes are. *)
Theorem parse_mb1_terminates m info mm : exists r, parse_mb1 (S (Z.to_nat (2 ^ 30))) m info mm = Some r.
Proof.
  unfold parse_mb1. destruct (negb _); [|destruct (negb _); eauto].
  pose proof (get_range 4 m (info + 48)) as B1. pose proof (get_range 4 m (info + 44)) as B2.
  unfold mb_mmap_addr, mb_mmap_length, get32. set (cur := ld_le 4 m (info + 48)) in *. set (len := ld_le 4 m (info + 44)) in *.
  rewrite w64_small by lia. assert (forall fuel cur mm end_, 0 <= cur -> end_ < 2 ^ 33 -> end_ - cur < 4 * Z.of_nat fuel ->
    exists r, mb1_loop fuel m cur end_ mm = Some r) as Loop.
  { clear. induction fuel as [|fuel IH]; intros cur mm end_ Hc He Hf; cbn [mb1_loop].
    - rewrite (proj2 (Z.ltb_ge _ _)) by lia. eauto.
    - destruct (Z.ltb_spec cur end_) as [Lt|]; [|eauto]. pose proof (get_range 4 m cur) as B. unfold mme1_size, get32.
      rewrite (w64_small (_ + 4)), w64_small by lia. apply IH; lia. }
  apply Loop; lia.
Qed.

(** [C38] The Multiboot 2 loop does not end on a tag of size zero: the step to
    the next tag is the size rounded up, and it is never checked. *)
Theorem parse_mb2_hangs :
  exists m info, forall fuel, memmap_init fuel m MB2_BOOTLOADER_MAGIC info = Done None.
Proof.
  exists (put_bytes (fun _ => 0) 4096 (le_bytes 4 64 ++ le_bytes 4 0 ++ le_bytes 4 1 ++ le_bytes 4 0)), 4096. intros fuel.
  set (m := put_bytes _ _ _). unfold memmap_init. change (MB2_BOOTLOADER_MAGIC =? MB1_BOOTLOADER_MAGIC) with false. rewrite Z.eqb_refl. cbv iota.
  rewrite bind_Done. unfold parse_mb2. assert (mb_total_size m 4096 = 64) as -> by (vm_compute; reflexivity).
  change (w64 (4096 + 64)) with 4160. change (4096 + 8) with 4104.
  assert (forall mm, mb2_loop fuel m 4104 4160 mm = None) as ->; [|reflexivity]. induction fuel as [|fuel IH]; intros mm; cbn [mb2_loop].
  - reflexivity.
  - change (w64 (4104 + 8) <=? 4160) with true. cbv iota. assert (mt_type m 4104 = 1) as -> by (vm_compute; reflexivity).
    assert (mt_size m 4104 = 0) as -> by (vm_compute; reflexivity). apply IH.
Qed.
