(* ===== verification/Rtc.v ===== *)
(** The CMOS clock of dev/rtc.c: how the kernel reads a chip that updates
    itself under the reader, decodes its registers, and converts between
    broken-down UTC and seconds since 1970.

    The chip is a function from the index of the port access to the register
    file, so that an update may start between any two reads.  The conversion
    is compared with a calendar that counts years and months one by one. *)

From stdpp Require Import base list numbers option.
From Stdlib Require Import ZArith Lia ZifyBool.
From S2P Require Import Prelude.

(** * The chip *)

Definition CMOS_SEC : Z := 0x00.
Definition CMOS_MIN : Z := 0x02.
Definition CMOS_HOUR : Z := 0x04.
Definition CMOS_DAY : Z := 0x07.
Definition CMOS_MONTH : Z := 0x08.
Definition CMOS_YEAR : Z := 0x09.
Definition CMOS_STATUS_A : Z := 0x0A.
Definition CMOS_STATUS_B : Z := 0x0B.
Definition CMOS_CENTURY : Z := 0x32.

Definition STATUS_A_UIP : Z := 0x80.
Definition STATUS_B_24H : Z := 0x02.
Definition STATUS_B_BINARY : Z := 0x04.
Definition HOUR_PM : Z := 0x80.

Record rtc_time := RtcTime {
  rt_year : Z;
  rt_month : Z;
  rt_day : Z;
  rt_hour : Z;
  rt_min : Z;
  rt_sec : Z
}.

#[global] Instance rtc_time_eq_dec : EqDecision rtc_time.
Proof. solve_decision. Defined.

(** [d n reg]: what the [n]-th access to the data port returns when [reg] is
    selected. *)
Definition chip := nat -> Z -> Z.

(** [cmos_read]: the byte, and the index of the next access. *)
Definition cmos_read (d : chip) (n : nat) (reg : Z) : Z * nat :=
  (w8 (d n reg), S n).

Definition from_bcd (v : Z) : Z :=
  w8 (Z.land v 0x0F + Z.shiftr v 4 * 10).

(** The wait of [read_raw] for the update bit to clear; [None] when it has
    not cleared within [fuel] reads. *)
Fixpoint wait_uip (fuel : nat) (d : chip) (n : nat) : option nat :=
  match fuel with
  | O => None
  | S fuel =>
      let '(a, n) := cmos_read d n CMOS_STATUS_A in
      if Z.land a STATUS_A_UIP =? 0 then Some n else wait_uip fuel d n
  end.

(** One snapshot of the time registers: the time, the century, and the index
    of the next access. *)
Definition read_raw (fuel : nat) (d : chip) (n : nat) : option (rtc_time * Z * nat) :=
  n ← wait_uip fuel d n;
  let '(sec, n) := cmos_read d n CMOS_SEC in
  let '(min, n) := cmos_read d n CMOS_MIN in
  let '(hour, n) := cmos_read d n CMOS_HOUR in
  let '(day, n) := cmos_read d n CMOS_DAY in
  let '(month, n) := cmos_read d n CMOS_MONTH in
  let '(year, n) := cmos_read d n CMOS_YEAR in
  let '(century, n) := cmos_read d n CMOS_CENTURY in
  Some (RtcTime year month day hour min sec, century, n).

Definition same_raw (a b : rtc_time) (ca cb : Z) : bool :=
  (rt_sec a =? rt_sec b) && (rt_min a =? rt_min b) &&
  (rt_hour a =? rt_hour b) && (rt_day a =? rt_day b) &&
  (rt_month a =? rt_month b) && (rt_year a =? rt_year b) && (ca =? cb).

(** The loop of [rtc_read] over snapshots: [Some None] when the sixteen
    tries are used up. *)
Fixpoint settle (fuel tries : nat) (d : chip) (a : rtc_time) (ca : Z) (n : nat) :
    option (option (rtc_time * Z) * nat) :=
  match tries with
  | O => Some (None, n)
  | S tries =>
      '(b, cb, n) ← read_raw fuel d n;
      if same_raw a b ca cb then Some (Some (b, cb), n)
      else settle fuel tries d b cb n
  end.

(** The decoding half of [rtc_read]: the PM bit, BCD, noon and midnight, the
    century, and the range check. *)
Definition rtc_decode (status_b : Z) (b : rtc_time) (cb : Z) : option rtc_time :=
  let h24 := negb (Z.land status_b STATUS_B_24H =? 0) in
  let pm := negb h24 && negb (Z.land (rt_hour b) HOUR_PM =? 0) in
  let hour := if pm then Z.land (rt_hour b) (Z.lxor HOUR_PM 0xFF) else rt_hour b in
  let dec := if Z.land status_b STATUS_B_BINARY =? 0 then from_bcd else fun v => v in
  let hour := dec hour in
  let cb := dec cb in
  let hour := if pm && (hour <? 12) then w8 (hour + 12)
              else if negb h24 && negb pm && (hour =? 12) then 0 else hour in
  let year := dec (rt_year b) in
  let year := if (19 <=? cb) && (cb <=? 25) then w16 (cb * 100 + year)
              else w16 ((if year <? 70 then 2000 else 1900) + year) in
  let t := RtcTime year (dec (rt_month b)) (dec (rt_day b)) hour
             (dec (rt_min b)) (dec (rt_sec b)) in
  if (rt_month t <? 1) || (12 <? rt_month t) || (rt_day t <? 1) ||
     (31 <? rt_day t) || (23 <? rt_hour t) || (59 <? rt_min t) ||
     (60 <? rt_sec t) || (rt_year t <? 1970) || (2200 <? rt_year t)
  then None
  else Some t.

(** [rtc_read]: [None] when the chip never clears its update bit within
    [fuel] reads, [Some None] when the routine returns false. *)
Definition rtc_read (fuel : nat) (d : chip) (n : nat) : option (option rtc_time) :=
  '(a, ca, n) ← read_raw fuel d n;
  '(r, n) ← settle fuel 16 d a ca n;
  match r with
  | None => Some None
  | Some (b, cb) =>
      let '(status_b, _) := cmos_read d n CMOS_STATUS_B in
      Some (rtc_decode status_b b cb)
  end.

(** * Epoch seconds

    C's division truncates: [Z.quot] and [Z.rem]. *)

Definition b2z (b : bool) : Z := if b then 1 else 0.

Definition rtc_to_epoch (t : rtc_time) : Z :=
  let y := rt_year t in
  let m := rt_month t in
  let y := y - b2z (m <=? 2) in
  let era := Z.quot (if 0 <=? y then y else y - 399) 400 in
  let yoe := y - era * 400 in
  let doy := Z.quot (153 * (m + (if 2 <? m then -3 else 9)) + 2) 5 + rt_day t - 1 in
  let doe := yoe * 365 + Z.quot yoe 4 - Z.quot yoe 100 + doy in
  let days := era * 146097 + doe - 719468 in
  days * 86400 + rt_hour t * 3600 + rt_min t * 60 + rt_sec t.

Definition rtc_from_epoch (secs : Z) : rtc_time :=
  let days := Z.quot secs 86400 in
  let rem := Z.rem secs 86400 in
  let '(rem, days) := if rem <? 0 then (rem + 86400, days - 1) else (rem, days) in
  let days := days + 719468 in
  let era := Z.quot (if 0 <=? days then days else days - 146096) 146097 in
  let doe := days - era * 146097 in
  let yoe := Z.quot (doe - Z.quot doe 1460 + Z.quot doe 36524 - Z.quot doe 146096) 365 in
  let y := yoe + era * 400 in
  let doy := doe - (365 * yoe + Z.quot yoe 4 - Z.quot yoe 100) in
  let mp := Z.quot (5 * doy + 2) 153 in
  let d := doy - Z.quot (153 * mp + 2) 5 + 1 in
  let m := mp + (if mp <? 10 then 3 else -9) in
  let y := y + b2z (m <=? 2) in
  RtcTime (w16 y) (w8 m) (w8 d)
    (w8 (Z.quot rem 3600)) (w8 (Z.rem (Z.quot rem 60) 60)) (w8 (Z.rem rem 60)).

(** * What the chip holds

    The registers of a chip in the mode [status_b] at the time [t]; a chip
    without a century register answers 0 or 0xFF there. *)

Definition to_bcd (v : Z) : Z := v / 10 * 16 + v mod 10.

Definition enc (status_b v : Z) : Z :=
  if Z.land status_b STATUS_B_BINARY =? 0 then to_bcd v else v.

Definition enc_hour (status_b h : Z) : Z :=
  if Z.land status_b STATUS_B_24H =? 0
  then enc status_b ((h + 11) mod 12 + 1) + (if 12 <=? h then HOUR_PM else 0)
  else enc status_b h.

Inductive century_reg := HasCentury | NoCentury (v : Z).

Definition enc_century (status_b : Z) (c : century_reg) (year : Z) : Z :=
  match c with
  | HasCentury => enc status_b (year / 100)
  | NoCentury v => v
  end.

(** The times the chip can hold and the routine accepts. *)
Definition chip_time (c : century_reg) (t : rtc_time) : Prop :=
  1 <= rt_month t <= 12 /\ 1 <= rt_day t <= 31 /\ 0 <= rt_hour t <= 23 /\
  0 <= rt_min t <= 59 /\ 0 <= rt_sec t <= 60 /\
  match c with
  | HasCentury => 1970 <= rt_year t <= 2200
  | NoCentury v => 1970 <= rt_year t <= 2069 /\ (v = 0 \/ v = 0xFF)
  end.

Definition encode (status_b : Z) (c : century_reg) (t : rtc_time) : rtc_time * Z :=
  (RtcTime (enc status_b (rt_year t mod 100)) (enc status_b (rt_month t))
     (enc status_b (rt_day t)) (enc_hour status_b (rt_hour t))
     (enc status_b (rt_min t)) (enc status_b (rt_sec t)),
   enc_century status_b c (rt_year t)).

(** A register file that shows a raw time. *)
Definition shows (regs : Z -> Z) (raw : rtc_time * Z) : Prop :=
  let '(t, c) := raw in
  regs CMOS_SEC = rt_sec t /\ regs CMOS_MIN = rt_min t /\
  regs CMOS_HOUR = rt_hour t /\ regs CMOS_DAY = rt_day t /\
  regs CMOS_MONTH = rt_month t /\ regs CMOS_YEAR = rt_year t /\
  regs CMOS_CENTURY = c.

(** A chip that shows [ta] before access [k1] and [tb] from access [k2] on;
    between them it is updating: the update bit is set and the time
    registers hold anything at all.  The mode never changes. *)
Definition ticking (d : chip) (status_b : Z) (c : century_reg)
    (ta tb : rtc_time) (k1 k2 : nat) : Prop :=
  (k1 <= k2)%nat /\ (forall n, d n CMOS_STATUS_B = status_b) /\
  (forall n, (n < k1)%nat -> Z.land (w8 (d n CMOS_STATUS_A)) STATUS_A_UIP = 0 /\
                    shows (d n) (encode status_b c ta)) /\
  (forall n, (k1 <= n < k2)%nat -> Z.land (w8 (d n CMOS_STATUS_A)) STATUS_A_UIP <> 0) /\
  (forall n, (k2 <= n)%nat -> Z.land (w8 (d n CMOS_STATUS_A)) STATUS_A_UIP = 0 /\
                     shows (d n) (encode status_b c tb)).

(** * Decoding undoes encoding *)

(** A decidable statement about a run of integers, by evaluation. *)
Fixpoint all_from (f : Z -> bool) (n : nat) (x : Z) : bool :=
  match n with
  | O => true
  | S n => f x && all_from f n (x + 1)
  end.

Lemma all_from_spec f n : forall x,
  all_from f n x = true -> forall y, x <= y < x + Z.of_nat n -> f y = true.
Proof.
  induction n as [|n IH]; cbn [all_from]; intros x H y Hy; [lia|].
  apply andb_true_iff in H as [Hx Hn].
  destruct (decide (y = x)) as [->|]; [assumption|].
  apply (IH (x + 1)); [assumption|lia].
Qed.

Lemma all_upto f n :
  all_from f (Z.to_nat n) 0 = true -> forall y, 0 <= y < n -> f y = true.
Proof. intros H y Hy. apply (all_from_spec _ _ _ H). lia. Qed.

Lemma bcd_roundtrip v : 0 <= v < 100 -> from_bcd (to_bcd v) = v.
Proof.
  intros Hv. apply Z.eqb_eq.
  apply (all_upto (fun v => from_bcd (to_bcd v) =? v) 100); [|assumption].
  vm_compute. reflexivity.
Qed.

Lemma dec_enc sb v : 0 <= v < 100 ->
  (if Z.land sb STATUS_B_BINARY =? 0 then from_bcd else fun v => v) (enc sb v) = v.
Proof.
  unfold enc. intros. destruct (_ =? 0); [|reflexivity]. by apply bcd_roundtrip.
Qed.

(** The hour, in the four modes. *)
Lemma hour_roundtrip sb h : 0 <= h <= 23 ->
  let h24 := negb (Z.land sb STATUS_B_24H =? 0) in
  let raw := enc_hour sb h in
  let pm := negb h24 && negb (Z.land raw HOUR_PM =? 0) in
  let hour := (if Z.land sb STATUS_B_BINARY =? 0 then from_bcd else fun v => v)
     (if pm then Z.land raw (Z.lxor HOUR_PM 0xFF) else raw) in
  (if pm && (hour <? 12) then w8 (hour + 12)
   else if negb h24 && negb pm && (hour =? 12) then 0 else hour) = h.
Proof.
  intros Hh. apply Z.eqb_eq. unfold enc_hour, enc.
  generalize (Z.land sb STATUS_B_24H =? 0), (Z.land sb STATUS_B_BINARY =? 0).
  intros h12 bcd.
  assert (Hv : 0 <= h < 24) by lia. clear Hh. revert h Hv.
  destruct h12, bcd; apply all_upto; vm_compute; reflexivity.
Qed.

Lemma year_roundtrip sb c y :
  match c with
  | HasCentury => 1970 <= y <= 2200
  | NoCentury v => 1970 <= y <= 2069 /\ (v = 0 \/ v = 0xFF)
  end ->
  let cb := (if Z.land sb STATUS_B_BINARY =? 0 then from_bcd else fun v => v)
              (enc_century sb c y) in
  (if (19 <=? cb) && (cb <=? 25) then w16 (cb * 100 + y mod 100)
   else w16 ((if y mod 100 <? 70 then 2000 else 1900) + y mod 100)) = y.
Proof.
  pose proof (Z.div_mod y 100). pose proof (Z.mod_pos_bound y 100).
  destruct c as [|v].
  - intros Hy cb. assert (cb = y / 100) as ->.
    { apply dec_enc. split; [apply Z.div_pos; lia|].
      apply Z.div_lt_upper_bound; lia. }
    assert (19 <= y / 100 <= 22) by (Z.div_mod_to_equations; lia).
    rewrite !(proj2 (Z.leb_le _ _)) by lia. cbn [andb].
    rewrite w16_small; lia.
  - intros [Hy Hv] cb.
    assert (cb = 0 \/ 25 < cb) as Hcb.
    { unfold cb. destruct (_ =? 0), Hv as [-> | ->]; vm_compute; tauto. }
    replace ((19 <=? cb) && (cb <=? 25)) with false by lia.
    destruct (Z.ltb_spec (y mod 100) 70); rewrite w16_small by lia;
      Z.div_mod_to_equations; lia.
Qed.

Lemma decode_encode sb c t : chip_time c t ->
  rtc_decode sb (encode sb c t).1 (encode sb c t).2 = Some t.
Proof.
  destruct t as [y m dd h mi s].
  intros (Hm & Hd & Hh & Hmi & Hs & Hy); cbn in Hm, Hd, Hh, Hmi, Hs, Hy.
  unfold rtc_decode, encode; cbn [fst snd rt_year rt_month rt_day rt_hour rt_min rt_sec].
  rewrite !dec_enc by (try lia; apply Z.mod_pos_bound; lia).
  rewrite (hour_roundtrip sb h Hh), (year_roundtrip sb c y Hy).
  assert (1970 <= y <= 2200) by (destruct c; lia).
  replace (_ || _) with false by lia. reflexivity.
Qed.

(** Every register of an encoded time is a byte. *)
Definition raw_byte (raw : rtc_time * Z) : Prop :=
  let '(t, c) := raw in
  Forall (fun v => 0 <= v < 2 ^ 8)
    [rt_sec t; rt_min t; rt_hour t; rt_day t; rt_month t; rt_year t; c].

Lemma enc_byte sb v : 0 <= v < 100 -> 0 <= enc sb v < 2 ^ 8.
Proof.
  unfold enc, to_bcd. intros. destruct (_ =? 0); [|lia].
  Z.div_mod_to_equations; lia.
Qed.

Lemma enc_hour_byte sb h : 0 <= h <= 23 -> 0 <= enc_hour sb h < 2 ^ 8.
Proof.
  intros Hh. unfold enc_hour, enc, to_bcd, HOUR_PM.
  destruct (_ =? 0), (_ =? 0), (Z.leb_spec 12 h); Z.div_mod_to_equations; lia.
Qed.

Lemma encode_byte sb c t : chip_time c t -> raw_byte (encode sb c t).
Proof.
  destruct t as [y m dd h mi s].
  intros (Hm & Hd & Hh & Hmi & Hs & Hy); cbn in Hm, Hd, Hh, Hmi, Hs, Hy.
  unfold encode, raw_byte; cbn [rt_year rt_month rt_day rt_hour rt_min rt_sec].
  pose proof (Z.mod_pos_bound y 100).
  repeat constructor; try (apply enc_byte; lia); try (apply enc_hour_byte; lia).
  all: destruct c as [|v]; cbn [enc_century];
    [apply enc_byte; split; [apply Z.div_pos|apply Z.div_lt_upper_bound]; lia|lia].
Qed.

(** * Reading while the chip ticks *)

Lemma same_raw_true a b ca cb : same_raw a b ca cb = true <-> (a, ca) = (b, cb).
Proof.
  unfold same_raw. destruct a, b; cbn.
  rewrite !andb_true_iff, !Z.eqb_eq. split; [|intros [=]]; intuition congruence.
Qed.

Section Ticking.
Context (d : chip) (sb : Z) (c : century_reg) (ta tb : rtc_time) (k1 k2 fuel : nat).
Hypothesis (Htick : ticking d sb c ta tb k1 k2).
Hypothesis (Hta : chip_time c ta).
Hypothesis (Htb : chip_time c tb).
Hypothesis (Hfuel : (k2 < fuel)%nat).

(** The wait ends at a read outside the update. *)
Lemma wait_uip_spec : forall f n, (k2 - n < f)%nat ->
  exists n0, wait_uip f d n = Some (S n0) /\ (n <= n0)%nat /\
    ((n0 < k1)%nat \/ (k2 <= n0)%nat).
Proof.
  destruct Htick as (Hk & _ & HA & HW & HB).
  induction f as [|f IH]; intros n Hn; [lia|]. cbn [wait_uip cmos_read].
  destruct (decide (n < k1)%nat) as [Ha|Ha]; [|destruct (decide (k2 <= n)%nat) as [Hb|Hb]].
  - rewrite (proj1 (HA n Ha)). exists n. cbn. auto with lia.
  - rewrite (proj1 (HB n Hb)). exists n. cbn. auto with lia.
  - pose proof (HW n ltac:(lia)) as Hw. apply Z.eqb_neq in Hw. rewrite Hw.
    destruct (IH (S n) ltac:(lia)) as (n0 & Hn0 & Hle & Hout).
    exists n0. rewrite Hn0. auto with lia.
Qed.

(** The seven reads that follow the wait, when the chip shows one time
    throughout. *)
Lemma reads_shown n0 raw :
  raw_byte raw ->
  (forall n, (n0 < n <= n0 + 7)%nat -> shows (d n) raw) ->
  (RtcTime (w8 (d (n0 + 6)%nat CMOS_YEAR)) (w8 (d (n0 + 5)%nat CMOS_MONTH))
     (w8 (d (n0 + 4)%nat CMOS_DAY)) (w8 (d (n0 + 3)%nat CMOS_HOUR))
     (w8 (d (n0 + 2)%nat CMOS_MIN)) (w8 (d (n0 + 1)%nat CMOS_SEC)),
   w8 (d (n0 + 7)%nat CMOS_CENTURY)) = raw.
Proof.
  destruct raw as [[y m dd h mi s] ce]. unfold raw_byte, shows; cbn.
  intros Hb H. rewrite !Forall_cons_iff in Hb.
  destruct Hb as (Hs & Hmi & Hh & Hd & Hm & Hy & Hc & _).
  rewrite (proj1 (H (n0 + 1)%nat ltac:(lia))).
  rewrite (proj1 (proj2 (H (n0 + 2)%nat ltac:(lia)))).
  rewrite (proj1 (proj2 (proj2 (H (n0 + 3)%nat ltac:(lia))))).
  rewrite (proj1 (proj2 (proj2 (proj2 (H (n0 + 4)%nat ltac:(lia)))))).
  rewrite (proj1 (proj2 (proj2 (proj2 (proj2 (H (n0 + 5)%nat ltac:(lia))))))).
  rewrite (proj1 (proj2 (proj2 (proj2 (proj2 (proj2 (H (n0 + 6)%nat ltac:(lia)))))))).
  rewrite (proj2 (proj2 (proj2 (proj2 (proj2 (proj2 (H (n0 + 7)%nat ltac:(lia)))))))).
  by rewrite !w8_small.
Qed.

(** A snapshot lies before the update, after it, or straddles its start. *)
Lemma read_raw_spec n :
  exists t ce n', read_raw fuel d n = Some (t, ce, n') /\ (n < n')%nat /\
    ((n' <= k1)%nat /\ (t, ce) = encode sb c ta \/
     (k1 < n')%nat /\ (t, ce) = encode sb c tb \/
     (n < k1 < n')%nat).
Proof.
  destruct (wait_uip_spec fuel n ltac:(lia)) as (n0 & Hw & Hle & Hout).
  unfold read_raw. rewrite Hw. cbn [mbind option_bind cmos_read].
  eexists _, _, _; split; [reflexivity|]. split; [lia|].
  destruct Htick as (Hk & _ & HA & _ & HB).
  replace (S n0) with (n0 + 1)%nat by lia.
  replace (S (n0 + 1)) with (n0 + 2)%nat by lia.
  replace (S (n0 + 2)) with (n0 + 3)%nat by lia.
  replace (S (n0 + 3)) with (n0 + 4)%nat by lia.
  replace (S (n0 + 4)) with (n0 + 5)%nat by lia.
  replace (S (n0 + 5)) with (n0 + 6)%nat by lia.
  replace (S (n0 + 6)) with (n0 + 7)%nat by lia.
  destruct (decide (n0 + 7 < k1)%nat) as [Ha|Ha]; [left|].
  { split; [lia|]. apply reads_shown; [by apply encode_byte|].
    intros. apply HA. lia. }
  destruct Hout as [Hin|Hafter]; [right; right; lia|right; left].
  split; [lia|]. apply reads_shown; [by apply encode_byte|].
  intros. apply HB. lia.
Qed.

(** Once past the start of the update, the second snapshot settles it. *)
Lemma settle_after tries a ca n : (2 <= tries)%nat -> (k1 <= n)%nat ->
  exists n', settle fuel tries d a ca n = Some (Some (encode sb c tb), n').
Proof.
  intros Ht Hn. destruct tries as [|[|tries]]; [lia|lia|]. cbn [settle].
  destruct (read_raw_spec n) as (t & ce & n1 & -> & Hlt & [?|[[_ Heq]|?]]); [lia| |lia].
  cbn [mbind option_bind].
  destruct (same_raw a t ca ce); [exists n1; by rewrite Heq|].
  destruct (read_raw_spec n1) as (t' & ce' & n2 & -> & Hlt' & [?|[[_ Heq']|?]]);
    [lia| |lia]. cbn [mbind option_bind].
  rewrite (proj2 (same_raw_true t t' ce ce')) by congruence.
  exists n2. by rewrite Heq'.
Qed.

Lemma settle_before tries n a ca : (3 <= tries)%nat -> (a, ca) = encode sb c ta ->
  exists n' t, settle fuel tries d a ca n = Some (Some (encode sb c t), n') /\
    (t = ta \/ t = tb).
Proof.
  intros Ht Ha. destruct tries as [|tries]; [lia|]. cbn [settle].
  destruct (read_raw_spec n) as (t & ce & n1 & -> & Hlt & Hcase).
  cbn [mbind option_bind].
  destruct (same_raw a t ca ce) eqn:Hs.
  - apply same_raw_true in Hs. exists n1, ta. rewrite <- Hs, Ha. auto.
  - destruct Hcase as [[_ Heq]|[[Hn Heq]|Hn]].
    + rewrite (proj2 (same_raw_true a t ca ce)) in Hs by congruence. discriminate.
    + destruct (settle_after tries t ce n1 ltac:(lia) ltac:(lia)) as [n2 ->]. eauto.
    + destruct (settle_after tries t ce n1 ltac:(lia) ltac:(lia)) as [n2 ->]. eauto.
Qed.

Lemma rtc_read_settles n :
  0 <= sb < 2 ^ 8 ->
  exists t, rtc_read fuel d n = Some (Some t) /\ (t = ta \/ t = tb).
Proof.
  intros Hsb.
  assert (exists n' t, ('(a, ca, n1) ← read_raw fuel d n; settle fuel 16 d a ca n1)
     = Some (Some (encode sb c t), n') /\ (t = ta \/ t = tb)) as (n' & t & Hset & Hor).
  { destruct (read_raw_spec n) as (a & ca & n1 & -> & Hlt & Hcase).
    cbn [mbind option_bind].
    destruct Hcase as [[Hn Heq]|Hcase]; [by apply settle_before; [lia|]|].
    destruct (settle_after 16 a ca n1 ltac:(lia) ltac:(lia)) as [n2 ->]. eauto. }
  exists t. split; [|assumption]. revert Hset. unfold rtc_read.
  destruct (read_raw fuel d n) as [[[a ca] n1]|]; cbn [mbind option_bind]; [|discriminate].
  intros ->. cbn [mbind option_bind cmos_read].
  destruct (encode sb c t) as [b cb] eqn:He.
  destruct Htick as (_ & -> & _). rewrite w8_small by assumption.
  pose proof (decode_encode sb c t) as Hd. rewrite He in Hd. cbn [fst snd] in Hd.
  rewrite Hd; [reflexivity|]. destruct Hor as [-> | ->]; assumption.
Qed.
End Ticking.

(** * The calendar, counted *)

Definition leap (y : Z) : bool :=
  (y mod 4 =? 0) && (negb (y mod 100 =? 0) || (y mod 400 =? 0)).

Definition year_days (y : Z) : Z := 365 + b2z (leap y).

Definition month_days (y m : Z) : Z :=
  if m =? 2 then 28 + b2z (leap y)
  else if (m =? 4) || (m =? 6) || (m =? 9) || (m =? 11) then 30 else 31.

Fixpoint sum_from (f : Z -> Z) (x : Z) (n : nat) : Z :=
  match n with
  | O => 0
  | S n => sum_from f x n + f (x + Z.of_nat n)
  end.

(** Days from the first of January 1970, year by year and month by month. *)
Definition calendar_days (y m d : Z) : Z :=
  sum_from year_days 1970 (Z.to_nat (y - 1970)) +
  sum_from (month_days y) 1 (Z.to_nat (m - 1)) + (d - 1).

(** A UTC time that exists, leap seconds apart. *)
Definition civil (t : rtc_time) : Prop :=
  1 <= rt_month t <= 12 /\ 1 <= rt_day t <= month_days (rt_year t) (rt_month t) /\
  0 <= rt_hour t <= 23 /\ 0 <= rt_min t <= 59 /\ 0 <= rt_sec t <= 59.

Lemma floor_quot a b c : 0 < b -> c = b - 1 ->
  Z.quot (if 0 <=? a then a else a - c) b = a / b.
Proof.
  intros Hb ->. destruct (Z.leb_spec 0 a); [apply Z.quot_div_nonneg; lia|].
  replace (a - (b - 1)) with (- (b - 1 - a)) by lia.
  rewrite Z.quot_opp_l, Z.quot_div_nonneg by lia.
  Z.div_mod_to_equations; nia.
Qed.

(** Days before the first of March that starts the shifted year [y]. *)
Definition march_days (y : Z) : Z := 365 * y + y / 4 - y / 100 + y / 400.

Lemma era_march y :
  let era := y / 400 in let yoe := y - era * 400 in
  era * 146097 + (yoe * 365 + Z.quot yoe 4 - Z.quot yoe 100) = march_days y.
Proof.
  intros era yoe. unfold era, yoe, march_days in *.
  pose proof (Z.div_mod y 400). pose proof (Z.mod_pos_bound y 400).
  rewrite !Z.quot_div_nonneg by lia. Z.div_mod_to_equations; lia.
Qed.

(** [rtc_to_epoch] without the eras. *)
Lemma rtc_to_epoch_march t :
  let m := rt_month t in let y := rt_year t - b2z (m <=? 2) in
  rtc_to_epoch t =
    (march_days y + Z.quot (153 * (m + (if 2 <? m then -3 else 9)) + 2) 5 +
       rt_day t - 1 - 719468) * 86400 +
    rt_hour t * 3600 + rt_min t * 60 + rt_sec t.
Proof.
  intros m y. rewrite <- (era_march y). unfold rtc_to_epoch.
  fold m. fold y. rewrite (floor_quot y 400) by lia. lia.
Qed.

Lemma leap_count y :
  b2z (leap y) = (y / 4 - (y - 1) / 4) - (y / 100 - (y - 1) / 100) +
                 (y / 400 - (y - 1) / 400).
Proof.
  unfold leap, b2z.
  destruct (Z.eqb_spec (y mod 4) 0), (Z.eqb_spec (y mod 100) 0),
    (Z.eqb_spec (y mod 400) 0); cbn [andb orb negb];
    Z.div_mod_to_equations; lia.
Qed.

Lemma years_march n :
  sum_from year_days 1970 n = march_days (1969 + Z.of_nat n) - 719468 + 306.
Proof.
  induction n as [|n IH]; [vm_compute; reflexivity|].
  cbn [sum_from]. rewrite IH. unfold year_days. rewrite leap_count. unfold march_days.
  replace (1970 + Z.of_nat n - 1) with (1969 + Z.of_nat n) by lia.
  replace (1969 + Z.of_nat (S n)) with (1970 + Z.of_nat n) by lia. lia.
Qed.

Lemma months_march y m : 1 <= m <= 12 ->
  sum_from (month_days y) 1 (Z.to_nat (m - 1)) =
  Z.quot (153 * (m + (if 2 <? m then -3 else 9)) + 2) 5 +
  (if m <=? 2 then -306 else 59 + b2z (leap y)).
Proof.
  intros Hm. unfold month_days. destruct (leap y).
  all: assert (m = 1 \/ m = 2 \/ m = 3 \/ m = 4 \/ m = 5 \/ m = 6 \/ m = 7 \/ m = 8 \/
          m = 9 \/ m = 10 \/ m = 11 \/ m = 12) as Hc by lia;
  repeat destruct Hc as [-> |Hc]; [..|subst m]; vm_compute; reflexivity.
Qed.

Lemma rtc_to_epoch_counts t :
  1970 <= rt_year t -> 1 <= rt_month t <= 12 ->
  rtc_to_epoch t =
    calendar_days (rt_year t) (rt_month t) (rt_day t) * 86400 +
    rt_hour t * 3600 + rt_min t * 60 + rt_sec t.
Proof.
  intros Hy Hm. rewrite rtc_to_epoch_march. unfold calendar_days.
  rewrite years_march, months_march by assumption.
  replace (1969 + Z.of_nat (Z.to_nat (rt_year t - 1970))) with (rt_year t - 1) by lia.
  destruct (Z.leb_spec (rt_month t) 2); unfold b2z at 1; [lia|].
  rewrite leap_count. unfold march_days. rewrite Z.sub_0_r. lia.
Qed.

(** * The inverse conversion

    Within an era the shifted year, month and day are a function of the day
    of the era; that the formulas invert each other over its 146097 days is
    checked by evaluation. *)

Definition civil_of_doe (doe : Z) : Z * Z * Z :=
  let yoe := Z.quot (doe - Z.quot doe 1460 + Z.quot doe 36524 - Z.quot doe 146096) 365 in
  let doy := doe - (365 * yoe + Z.quot yoe 4 - Z.quot yoe 100) in
  let mp := Z.quot (5 * doy + 2) 153 in
  (yoe, mp, doy - Z.quot (153 * mp + 2) 5 + 1).

Definition doe_of_civil (yoe mp d : Z) : Z :=
  yoe * 365 + Z.quot yoe 4 - Z.quot yoe 100 + (Z.quot (153 * mp + 2) 5 + d - 1).

Definition month_of (mp : Z) : Z := mp + (if mp <? 10 then 3 else -9).

Definition mp_days (yoe mp : Z) : Z :=
  month_days (yoe + b2z (month_of mp <=? 2)) (month_of mp).

(** The day of the era a shifted year starts on. *)
Definition yoe_start (yoe : Z) : Z := yoe * 365 + Z.quot yoe 4 - Z.quot yoe 100.

Definition yoe_scaled (doe : Z) : Z :=
  doe - Z.quot doe 1460 + Z.quot doe 36524 - Z.quot doe 146096.

Lemma yoe_scaled_step x : 0 <= x -> yoe_scaled x <= yoe_scaled (x + 1).
Proof.
  intros Hx. unfold yoe_scaled. rewrite !Z.quot_div_nonneg by lia.
  replace (x / 146096) with (x / 36524 / 4) by (rewrite Z.div_div by lia; reflexivity).
  replace ((x + 1) / 146096) with ((x + 1) / 36524 / 4)
    by (rewrite Z.div_div by lia; reflexivity).
  Z.div_mod_to_equations; lia.
Qed.

Lemma yoe_scaled_mono x y : 0 <= x <= y -> yoe_scaled x <= yoe_scaled y.
Proof.
  intros Hxy. replace y with (x + Z.of_nat (Z.to_nat (y - x))) by lia.
  generalize (Z.to_nat (y - x)). intros n. assert (0 <= x) as Hx by lia. clear y Hxy.
  induction n as [|n IH]; [rewrite Z.add_0_r; reflexivity|].
  pose proof (yoe_scaled_step (x + Z.of_nat n) ltac:(lia)).
  replace (x + Z.of_nat (S n)) with (x + Z.of_nat n + 1) by lia. lia.
Qed.

(** The length of a shifted year: its leap day is that of the next February. *)
Definition yoe_len (yoe : Z) : Z := 365 + b2z (leap (yoe + 1)).

(** At the two ends of each year the scaled day is that year's, and the next
    year starts where it ends. *)
Lemma yoe_check yoe : 0 <= yoe < 400 ->
  yoe_scaled (yoe_start yoe) / 365 = yoe /\
  yoe_scaled (yoe_start yoe + yoe_len yoe - 1) / 365 = yoe /\
  yoe_start yoe + yoe_len yoe = (if yoe =? 399 then 146097 else yoe_start (yoe + 1)) /\
  0 <= yoe_start yoe <= 145731.
Proof.
  intros Hy.
  pose (f yoe := (yoe_scaled (yoe_start yoe) / 365 =? yoe) &&
    (yoe_scaled (yoe_start yoe + yoe_len yoe - 1) / 365 =? yoe) &&
    (yoe_start yoe + yoe_len yoe =? (if yoe =? 399 then 146097 else yoe_start (yoe + 1))) &&
    (0 <=? yoe_start yoe) && (yoe_start yoe <=? 145731)).
  assert (f yoe = true) as Hf by (revert yoe Hy; apply all_upto; vm_compute; reflexivity).
  unfold f in Hf. lia.
Qed.

(** The months of a shifted year: where they start and how long they are,
    for a year with or without a leap day. *)
Lemma doy_check doy : 0 <= doy < 366 ->
  let mp := Z.quot (5 * doy + 2) 153 in
  let d := doy - Z.quot (153 * mp + 2) 5 + 1 in
  0 <= mp <= 11 /\ 1 <= d /\
  (forall y, doy < 365 + b2z (leap y) -> mp = 11 -> d <= 28 + b2z (leap y)) /\
  (mp < 11 -> forall y, d <= month_days y (month_of mp)).
Proof.
  intros Hy mp d.
  pose (f doy := let mp := Z.quot (5 * doy + 2) 153 in
    let d := doy - Z.quot (153 * mp + 2) 5 + 1 in
    (0 <=? mp) && (mp <=? 11) && (1 <=? d) &&
    ((365 <=? doy) || negb (mp =? 11) || (d <=? 28)) && (negb (mp =? 11) || (d <=? 29)) &&
    ((mp =? 11) || ((d <=? month_days 0 (month_of mp)) && negb (month_of mp =? 2)))).
  assert (f doy = true) as Hf.
  { clear mp d. revert doy Hy; apply all_upto; vm_compute; reflexivity. }
  unfold f in Hf. cbv zeta in Hf. fold mp in Hf. fold d in Hf.
  split; [lia|]. split; [lia|]. split.
  - intros y. unfold b2z. destruct (leap y); lia.
  - intros Hmp y. replace (month_days y (month_of mp)) with (month_days 0 (month_of mp)); [lia|].
    unfold month_days. destruct (Z.eqb_spec (month_of mp) 2); [lia|reflexivity].
Qed.

Lemma mp_check mp d y : 0 <= mp < 12 -> 1 <= d <= month_days y (month_of mp) ->
  let doy := Z.quot (153 * mp + 2) 5 + d - 1 in
  Z.quot (5 * doy + 2) 153 = mp /\ 0 <= doy < 365 + b2z (leap y).
Proof.
  intros Hm Hd. revert Hd. unfold month_days, b2z. generalize (leap y). intros l Hd.
  pose (f mp := all_from (fun d => let doy := Z.quot (153 * mp + 2) 5 + d - 1 in
     (Z.quot (5 * doy + 2) 153 =? mp) && (0 <=? doy) && (doy <? 365 + if l then 1 else 0))
     (Z.to_nat (if month_of mp =? 2 then 28 + (if l then 1 else 0)
  else if (month_of mp =? 4) || (month_of mp =? 6) || (month_of mp =? 9) || (month_of mp =? 11)
       then 30 else 31)) 1).
  assert (f mp = true) as Hf.
  { clear d Hd. revert mp Hm. apply all_upto. destruct l; vm_compute; reflexivity. }
  unfold f in Hf. apply all_from_spec with (y := d) in Hf; [|lia]. lia.
Qed.

Lemma leap_era e y : leap (y + e * 400) = leap y.
Proof.
  unfold leap.
  replace ((y + e * 400) mod 4) with (y mod 4) by (Z.div_mod_to_equations; lia).
  replace ((y + e * 400) mod 100) with (y mod 100) by (Z.div_mod_to_equations; lia).
  by rewrite Z.mod_add by lia.
Qed.

Lemma yoe_of doe yoe : 0 <= yoe < 400 ->
  yoe_start yoe <= doe < yoe_start yoe + yoe_len yoe ->
  Z.quot (yoe_scaled doe) 365 = yoe.
Proof.
  intros Hy Hdoe. destruct (yoe_check yoe Hy) as (H1 & H2 & _ & H3).
  pose proof (yoe_scaled_mono (yoe_start yoe) doe ltac:(lia)) as Hlo.
  pose proof (yoe_scaled_mono doe (yoe_start yoe + yoe_len yoe - 1) ltac:(lia)) as Hhi.
  pose proof (yoe_scaled_mono 0 doe ltac:(lia)) as H0. change (yoe_scaled 0) with 0 in H0.
  rewrite Z.quot_div_nonneg by lia.
  apply (Z.div_le_mono _ _ 365) in Hlo, Hhi; lia.
Qed.

Lemma yoe_exists doe : 0 <= doe < 146097 ->
  exists yoe, 0 <= yoe < 400 /\ yoe_start yoe <= doe < yoe_start yoe + yoe_len yoe.
Proof.
  intros Hdoe.
  assert (forall n, (n < 400)%nat -> doe < yoe_start (Z.of_nat n) + yoe_len (Z.of_nat n) ->
    exists yoe, 0 <= yoe < 400 /\ yoe_start yoe <= doe < yoe_start yoe + yoe_len yoe) as Hn.
  { induction n as [|n IH]; intros Hn Hlt.
    - exists 0. split; [lia|]. split; [|exact Hlt]. change (yoe_start 0) with 0. lia.
    - destruct (Z.leb_spec (yoe_start (Z.of_nat (S n))) doe) as [Hle|Hle].
      + exists (Z.of_nat (S n)). lia.
      + apply IH; [lia|]. destruct (yoe_check (Z.of_nat n) ltac:(lia)) as (_ & _ & -> & _).
        replace (Z.of_nat n =? 399) with false by lia.
        by replace (Z.of_nat n + 1) with (Z.of_nat (S n)) by lia. }
  apply (Hn (Z.to_nat 399)); [lia|]. change (doe < 146097). lia.
Qed.

Lemma mp_days_len yoe mp : 0 <= mp <= 11 ->
  mp_days yoe mp = if mp =? 11 then yoe_len yoe - 337
                   else month_days (yoe + b2z (10 <=? mp)) (month_of mp).
Proof.
  intros Hmp. unfold mp_days, yoe_len.
  destruct (Z.eqb_spec mp 11) as [-> |Hne]; [change (month_of 11) with 2; cbn; lia|].
  unfold month_of. destruct (Z.ltb_spec mp 10).
  - replace (mp + 3 <=? 2) with false by lia. by replace (10 <=? mp) with false by lia.
  - assert (mp = 10) as -> by lia. reflexivity.
Qed.

Lemma doe_inverse doe : 0 <= doe < 146097 ->
  let '(yoe, mp, d) := civil_of_doe doe in
  doe_of_civil yoe mp d = doe /\ 0 <= yoe < 400 /\ 0 <= mp <= 11 /\
  1 <= d <= mp_days yoe mp.
Proof.
  intros Hdoe. destruct (yoe_exists doe Hdoe) as (yoe & Hy & Hin).
  unfold civil_of_doe. fold (yoe_scaled doe). rewrite (yoe_of doe yoe Hy Hin).
  replace (365 * yoe + Z.quot yoe 4 - Z.quot yoe 100) with (yoe_start yoe)
    by (unfold yoe_start; lia).
  assert (0 <= doe - yoe_start yoe < yoe_len yoe) as Hdoy by lia.
  assert (yoe_len yoe <= 366) by (unfold yoe_len, b2z; destruct (leap _); lia).
  destruct (doy_check (doe - yoe_start yoe) ltac:(lia)) as (Hmp & Hd & Hfeb & Hoth).
  set (mp := Z.quot (5 * (doe - yoe_start yoe) + 2) 153) in *.
  set (d := doe - yoe_start yoe - Z.quot (153 * mp + 2) 5 + 1) in *.
  split; [unfold doe_of_civil; fold (yoe_start yoe); lia|].
  split; [lia|]. split; [lia|]. split; [lia|]. rewrite mp_days_len by lia.
  destruct (Z.eqb_spec mp 11) as [He|He]; [|apply Hoth; lia].
  pose proof (Hfeb (yoe + 1)) as Hf. unfold yoe_len in *. lia.
Qed.

Lemma civil_inverse yoe mp d :
  0 <= yoe < 400 -> 0 <= mp <= 11 -> 1 <= d <= mp_days yoe mp ->
  civil_of_doe (doe_of_civil yoe mp d) = (yoe, mp, d) /\
  0 <= doe_of_civil yoe mp d < 146097.
Proof.
  intros Hy Hm Hd. unfold doe_of_civil. fold (yoe_start yoe).
  assert (1 <= d <= month_days (yoe + 1) (month_of mp)) as Hd'.
  { revert Hd. rewrite mp_days_len by lia. unfold month_days, yoe_len.
    destruct (Z.eqb_spec mp 11) as [-> |Hne]; [change (month_of 11 =? 2) with true; lia|].
    replace (month_of mp =? 2) with false by (unfold month_of; destruct (mp <? 10) eqn:?; lia).
    lia. }
  destruct (mp_check mp d (yoe + 1) ltac:(lia) Hd') as [Hq Hdoy].
  set (doy := Z.quot (153 * mp + 2) 5 + d - 1) in *.
  destruct (yoe_check yoe Hy) as (_ & _ & Hend & H0).
  assert (Z.quot (yoe_scaled (yoe_start yoe + doy)) 365 = yoe) as Hyoe
    by (apply yoe_of; unfold yoe_len; lia).
  split.
  - unfold civil_of_doe. fold (yoe_scaled (yoe_start yoe + doy)). rewrite Hyoe.
    replace (365 * yoe + Z.quot yoe 4 - Z.quot yoe 100) with (yoe_start yoe)
      by (unfold yoe_start; lia).
    replace (yoe_start yoe + doy - yoe_start yoe) with doy by lia. rewrite Hq.
    f_equal. unfold doy. lia.
  - assert (yoe_len yoe <= 366) by (unfold yoe_len, b2z; destruct (leap _); lia).
    unfold yoe_len in *. lia.
Qed.

Lemma div_qr q b r : 0 <= r < b -> (q * b + r) / b = q.
Proof. intros. rewrite Z.div_add_l, Z.div_small by lia. lia. Qed.

Lemma mod_qr q b r : 0 <= r < b -> (q * b + r) mod b = r.
Proof. intros. rewrite Z.add_comm, Z.mod_add by lia. by apply Z.mod_small. Qed.

(** [rtc_from_epoch] with floor division. *)
Lemma rtc_from_epoch_floor secs :
  let days := secs / 86400 + 719468 in
  let rem := secs mod 86400 in
  rtc_from_epoch secs =
    let '(yoe, mp, d) := civil_of_doe (days mod 146097) in
    RtcTime (w16 (yoe + days / 146097 * 400 + b2z (month_of mp <=? 2)))
      (w8 (month_of mp)) (w8 d)
      (w8 (Z.quot rem 3600)) (w8 (Z.rem (Z.quot rem 60) 60)) (w8 (Z.rem rem 60)).
Proof.
  intros days rem. unfold rtc_from_epoch.
  assert ((if Z.rem secs 86400 <? 0 then (Z.rem secs 86400 + 86400, Z.quot secs 86400 - 1)
           else (Z.rem secs 86400, Z.quot secs 86400)) = (rem, days - 719468)) as ->.
  { unfold rem, days. pose proof (Z.quot_rem' secs 86400).
    pose proof (Z.rem_bound_abs secs 86400 ltac:(lia)).
    pose proof (Z.rem_sign_mul secs 86400 ltac:(lia)).
    destruct (Z.ltb_spec (Z.rem secs 86400) 0) as [Hr|Hr];
      f_equal; Z.div_mod_to_equations; nia. }
  cbv beta iota zeta. replace (days - 719468 + 719468) with days by lia.
  rewrite (floor_quot days 146097) by lia.
  replace (days - days / 146097 * 146097) with (days mod 146097)
    by (rewrite Z.mod_eq by lia; lia).
  reflexivity.
Qed.

Lemma month_days_era y e m : month_days (y + e * 400) m = month_days y m.
Proof. unfold month_days. by rewrite leap_era. Qed.

Lemma month_days_range y m : 28 <= month_days y m <= 31.
Proof.
  unfold month_days, b2z. destruct (m =? 2), (leap y); [lia|lia| |];
    destruct (_ || _); lia.
Qed.

Lemma rtc_epoch_from_to t :
  civil t -> 0 <= rt_year t < 2 ^ 16 -> rtc_from_epoch (rtc_to_epoch t) = t.
Proof.
  destruct t as [y m d h mi s]. intros (Hm & Hd & Hh & Hmi & Hs) Hy; cbn in *.
  pose (mp := m + (if 2 <? m then -3 else 9)).
  pose (y' := y - b2z (m <=? 2)). pose (era := y' / 400). pose (yoe := y' - era * 400).
  assert (0 <= mp <= 11 /\ month_of mp = m) as [Hmp Hmo].
  { unfold mp, month_of. destruct (Z.ltb_spec 2 m);
      [replace (m + -3 <? 10) with true by lia|replace (m + 9 <? 10) with false by lia]; lia. }
  assert (0 <= yoe < 400) as Hyoe.
  { unfold yoe, era. pose proof (Z.mod_pos_bound y' 400). rewrite Z.mod_eq in * by lia. lia. }
  assert (1 <= d <= mp_days yoe mp) as Hd'.
  { unfold mp_days. rewrite Hmo. rewrite <- (month_days_era _ era).
    replace (yoe + b2z (m <=? 2) + era * 400) with y by (unfold yoe, y'; lia). exact Hd. }
  destruct (civil_inverse yoe mp d Hyoe Hmp Hd') as [Hinv Hdoe].
  assert (rtc_to_epoch (RtcTime y m d h mi s) =
    (era * 146097 + doe_of_civil yoe mp d - 719468) * 86400 + (h * 3600 + mi * 60 + s)) as He.
  { rewrite rtc_to_epoch_march; cbn. fold y'. fold mp.
    rewrite <- (era_march y'). fold era. fold yoe. unfold doe_of_civil. lia. }
  assert (0 <= h * 3600 + mi * 60 + s < 86400) as Hsod by lia.
  rewrite rtc_from_epoch_floor, He.
  rewrite div_qr, mod_qr by assumption.
  replace (era * 146097 + doe_of_civil yoe mp d - 719468 + 719468)
    with (era * 146097 + doe_of_civil yoe mp d) by lia.
  rewrite div_qr, mod_qr, Hinv, Hmo by assumption.
  pose proof (month_days_range y m).
  rewrite !Z.quot_div_nonneg by (try lia; apply Z.div_pos; lia).
  rewrite !Z.rem_mod_nonneg by (try lia; apply Z.div_pos; lia).
  f_equal.
  - rewrite w16_small; unfold yoe, y' in *; lia.
  - apply w8_small; lia.
  - apply w8_small; lia.
  - rewrite w8_small; Z.div_mod_to_equations; lia.
  - rewrite w8_small; Z.div_mod_to_equations; lia.
  - rewrite w8_small; Z.div_mod_to_equations; lia.
Qed.

(** The seconds of the days 0000-03-01 to 65200-02-29, whose year fits its
    sixteen bits. *)
Definition epoch_range (secs : Z) : Prop := -62162035200 <= secs < 1995351235200.

Lemma rtc_epoch_to_from secs : epoch_range secs ->
  rtc_to_epoch (rtc_from_epoch secs) = secs /\ civil (rtc_from_epoch secs).
Proof.
  intros Hr. rewrite rtc_from_epoch_floor.
  pose (days := secs / 86400 + 719468). fold days.
  assert (0 <= days / 146097 <= 162) as Hera.
  { assert (0 <= days < 23813811) by (unfold days, epoch_range in *; Z.div_mod_to_equations; lia).
    Z.div_mod_to_equations; lia. }
  pose proof (Z.mod_pos_bound days 146097 ltac:(lia)) as Hdoe.
  pose proof (doe_inverse _ Hdoe) as Hinv.
  destruct (civil_of_doe (days mod 146097)) as [[yoe mp] d].
  destruct Hinv as (Hdc & Hyoe & Hmp & Hd).
  assert (1 <= month_of mp <= 12) as Hmo
    by (unfold month_of; destruct (Z.ltb_spec mp 10); lia).
  pose (y := yoe + days / 146097 * 400 + b2z (month_of mp <=? 2)).
  assert (0 <= y < 2 ^ 16) by (unfold y, b2z; destruct (_ <=? 2); lia).
  assert (mp_days yoe mp = month_days y (month_of mp)) as Hmd.
  { unfold mp_days, y. rewrite <- (month_days_era _ (days / 146097)). f_equal. lia. }
  pose proof (month_days_range y (month_of mp)).
  pose proof (Z.mod_pos_bound secs 86400 ltac:(lia)) as Hsod.
  pose proof (Z.div_mod secs 86400 ltac:(lia)) as Hdm.
  pose (r := secs mod 86400). fold r in Hsod, Hdm.
  rewrite !Z.quot_div_nonneg by (try lia; apply Z.div_pos; lia).
  rewrite !Z.rem_mod_nonneg by (try lia; apply Z.div_pos; lia).
  fold y. fold r. rewrite w16_small, (w8_small (month_of mp)), (w8_small d) by lia.
  rewrite !w8_small by (Z.div_mod_to_equations; lia).
  split.
  - rewrite rtc_to_epoch_march; cbn [rt_year rt_month rt_day rt_hour rt_min rt_sec].
    assert (month_of mp + (if 2 <? month_of mp then -3 else 9) = mp) as ->.
    { unfold month_of. destruct (Z.ltb_spec mp 10);
        [replace (2 <? mp + 3) with true by lia|replace (2 <? mp + -9) with false by lia]; lia. }
    replace (y - b2z (month_of mp <=? 2)) with (yoe + days / 146097 * 400) by (unfold y; lia).
    rewrite <- era_march. rewrite Z.div_add, (Z.div_small yoe) by lia.
    replace (yoe + days / 146097 * 400 - (0 + days / 146097) * 400) with yoe by lia.
    pose proof (Z.div_mod days 146097 ltac:(lia)). unfold doe_of_civil in Hdc.
    assert (r / 3600 * 3600 + (r / 60) mod 60 * 60 + r mod 60 = r) as Hs
      by (clear -Hsod; Z.div_mod_to_equations; lia).
    unfold days in *. lia.
  - unfold civil; cbn [rt_year rt_month rt_day rt_hour rt_min rt_sec]. rewrite <- Hmd.
    clear -Hsod Hmo Hd. repeat split; try lia; Z.div_mod_to_equations; lia.
Qed.

(** * The properties *)

(** [C22] A clock read never tears: whatever byte of the chip an update
    interrupts, and whatever the registers hold meanwhile, [rtc_read] ends
    and returns the time before the update or the time after it, in each of
    the chip's four modes, with or without a century register. *)
Theorem rtc_read_correct (d : chip) (sb : Z) (c : century_reg) (ta tb : rtc_time)
    (k1 k2 fuel n : nat) :
  0 <= sb < 2 ^ 8 -> ticking d sb c ta tb k1 k2 ->
  chip_time c ta -> chip_time c tb -> (k2 < fuel)%nat ->
  exists t, rtc_read fuel d n = Some (Some t) /\ (t = ta \/ t = tb).
Proof. intros Hsb Ht Ha Hb Hf. exact (rtc_read_settles d sb c ta tb k1 k2 fuel Ht Ha Hb Hf n Hsb). Qed.

(** A chip in twelve-hour BCD mode that goes from 23:59:59 on the last day of
    1999 to midnight; the update takes accesses 3 to 9. *)
Definition millennium_before : rtc_time := RtcTime 1999 12 31 23 59 59.
Definition millennium_after : rtc_time := RtcTime 2000 1 1 0 0 0.

Definition regs_of (status_a status_b : Z) (raw : rtc_time * Z) (reg : Z) : Z :=
  if reg =? CMOS_SEC then rt_sec raw.1
  else if reg =? CMOS_MIN then rt_min raw.1
  else if reg =? CMOS_HOUR then rt_hour raw.1
  else if reg =? CMOS_DAY then rt_day raw.1
  else if reg =? CMOS_MONTH then rt_month raw.1
  else if reg =? CMOS_YEAR then rt_year raw.1
  else if reg =? CMOS_CENTURY then raw.2
  else if reg =? CMOS_STATUS_B then status_b else status_a.

Definition millennium : chip := fun n =>
  if decide (n < 3)%nat then regs_of 0x26 0 (encode 0 HasCentury millennium_before)
  else if decide (n < 10)%nat
  then regs_of 0xA6 0 (RtcTime 0xEE 0xEE 0xEE 0xEE 0xEE 0xEE, 0xEE)
  else regs_of 0x26 0 (encode 0 HasCentury millennium_after).

Lemma millennium_ticks :
  ticking millennium 0 HasCentury millennium_before millennium_after 3 10.
Proof.
  unfold ticking. split; [lia|].
  split; [|split; [|split]]; intros n; unfold millennium.
  - repeat case_decide; reflexivity.
  - intros Hn. rewrite decide_True by assumption. repeat split.
  - intros Hn. rewrite decide_False, decide_True by lia. discriminate.
  - intros Hn. rewrite decide_False, decide_False by lia. repeat split.
Qed.

Lemma rtc_read_correct_witness :
  exists t, rtc_read 20 millennium 0 = Some (Some t) /\
    (t = millennium_before \/ t = millennium_after).
Proof.
  apply (rtc_read_correct millennium 0 HasCentury _ _ 3 10).
  - lia.
  - exact millennium_ticks.
  - cbv; intuition discriminate.
  - cbv; intuition discriminate.
  - lia.
Defined.

(** [C27] The closed formula for epoch seconds counts the calendar: for any
    date from 1970 on, [rtc_to_epoch] is the sum of the lengths of the years
    since 1970 and of the months since January, and the time of day. *)
Theorem rtc_to_epoch_calendar (t : rtc_time) :
  1970 <= rt_year t -> 1 <= rt_month t <= 12 ->
  rtc_to_epoch t =
    calendar_days (rt_year t) (rt_month t) (rt_day t) * 86400 +
    rt_hour t * 3600 + rt_min t * 60 + rt_sec t.
Proof. exact (rtc_to_epoch_counts t). Qed.

Lemma rtc_to_epoch_calendar_witness :
  rtc_to_epoch (RtcTime 2026 11 15 12 0 0) =
    calendar_days 2026 11 15 * 86400 + 12 * 3600 + 0 * 60 + 0.
Proof. apply (rtc_to_epoch_calendar (RtcTime 2026 11 15 12 0 0)); cbn; lia. Defined.

(** [C28] The two conversions are inverse: every civil time of a sixteen-bit
    year survives the trip through epoch seconds, and every second from
    0000-03-01 to 65200-02-29, before the epoch too, names a civil time that
    converts back to it. *)
Theorem rtc_epoch_roundtrip :
  (forall t, civil t -> 0 <= rt_year t < 2 ^ 16 -> rtc_from_epoch (rtc_to_epoch t) = t) /\
  (forall secs, epoch_range secs ->
     civil (rtc_from_epoch secs) /\ rtc_to_epoch (rtc_from_epoch secs) = secs).
Proof.
  split; [exact rtc_epoch_from_to|]. intros secs H.
  destruct (rtc_epoch_to_from secs H). auto.
Qed.

Lemma rtc_epoch_roundtrip_witness :
  rtc_from_epoch (rtc_to_epoch (RtcTime 2024 2 29 23 59 59)) = RtcTime 2024 2 29 23 59 59 /\
  rtc_to_epoch (rtc_from_epoch (-1)) = -1.
Proof.
  split.
  - apply (proj1 rtc_epoch_roundtrip); cbv; intuition discriminate.
  - apply (proj2 rtc_epoch_roundtrip). cbv; intuition discriminate.
Defined.
