(* ===== verification/Random.v ===== *)
(** The random number generator of kern/random.c: BLAKE2s, ChaCha20, and the
    generator that hashes what is gathered and expands a key from it.

    The streaming hash is proved equal to RFC 7693's one-shot definition, and
    the generator is proved to refine an abstract one that keeps the gathered
    bytes themselves and hashes them whole at a reseed.  The cycle counter,
    the clocks and the processor's own generator are inputs of the
    operations that read them. *)

From stdpp Require Import base list numbers option strings.
From Stdlib Require Import ZArith Lia ZifyBool.
From S2P Require Import Prelude.

(** * Words and bytes *)

Definition RANDOM_RESEED_MS : Z := 1000.
Definition RANDOM_JITTER : nat := Z.to_nat 4096.
Definition RANDOM_RDRAND_WORDS : nat := 32.
Definition MAXCPU : nat := 8.

Definition ror32 (v n : Z) : Z := Z.lor (Z.shiftr v n) (w32 (Z.shiftl v (32 - n))).
Definition rol32 (v n : Z) : Z := Z.lor (w32 (Z.shiftl v n)) (Z.shiftr v (32 - n)).

(** [le32 p i]: the word at byte [i] of [p]. *)
Definition le32 (p : list Z) (i : nat) : Z :=
  Z.lor (Z.lor (Z.lor (p !!! i) (Z.shiftl (p !!! (i + 1)%nat) 8))
           (Z.shiftl (p !!! (i + 2)%nat) 16))
    (Z.shiftl (p !!! (i + 3)%nat) 24).

Definition put_le32 (v : Z) : list Z :=
  [w8 v; w8 (Z.shiftr v 8); w8 (Z.shiftr v 16); w8 (Z.shiftr v 24)].

(** The bytes of a 64-bit variable on this little-endian machine. *)
Definition bytes_le64 (w : Z) : list Z :=
  map (fun i => w8 (Z.shiftr w (8 * Z.of_nat i))) (seq 0 8).

(** * BLAKE2s *)

Record blake2s := Blake2s {
  b_h : list Z;
  b_t0 : Z;
  b_t1 : Z;
  b_buf : list Z;
  b_len : nat;
  b_outlen : nat
}.

Definition blake2s_iv : list Z :=
  [0x6A09E667; 0xBB67AE85; 0x3C6EF372; 0xA54FF53A;
   0x510E527F; 0x9B05688C; 0x1F83D9AB; 0x5BE0CD19].

Definition blake2s_sigma : list (list nat) :=
  [[ 0;  1;  2;  3;  4;  5;  6;  7;  8;  9; 10; 11; 12; 13; 14; 15];
   [14; 10;  4;  8;  9; 15; 13;  6;  1; 12;  0;  2; 11;  7;  5;  3];
   [11;  8; 12;  0;  5;  2; 15; 13; 10; 14;  3;  6;  7;  1;  9;  4];
   [ 7;  9;  3;  1; 13; 12; 11; 14;  2;  6;  5; 10;  4;  0; 15;  8];
   [ 9;  0;  5;  7;  2;  4; 10; 15; 14;  1; 11; 12;  6;  8;  3; 13];
   [ 2; 12;  6; 10;  0; 11;  8;  3;  4; 13;  7;  5; 15; 14;  1;  9];
   [12;  5;  1; 15; 14; 13;  4; 10;  0;  7;  6;  3;  9;  2;  8; 11];
   [13; 11;  7; 14; 12;  1;  3;  9;  5;  0; 15;  4;  8;  6;  2; 10];
   [ 6; 15; 14;  9; 11;  3;  0;  8; 12;  2; 13;  7;  1;  4; 10;  5];
   [10;  2;  8;  4;  7;  6;  1;  5; 15; 11;  9; 14;  3; 12; 13;  0]]%nat.

(** The macro [B2S_G], on the work vector. *)
Definition B2S_G (a b c d : nat) (x y : Z) (v : list Z) : list Z :=
  let v := <[a := w32 (v !!! a + v !!! b + x)]> v in
  let v := <[d := ror32 (Z.lxor (v !!! d) (v !!! a)) 16]> v in
  let v := <[c := w32 (v !!! c + v !!! d)]> v in
  let v := <[b := ror32 (Z.lxor (v !!! b) (v !!! c)) 12]> v in
  let v := <[a := w32 (v !!! a + v !!! b + y)]> v in
  let v := <[d := ror32 (Z.lxor (v !!! d) (v !!! a)) 8]> v in
  let v := <[c := w32 (v !!! c + v !!! d)]> v in
  <[b := ror32 (Z.lxor (v !!! b) (v !!! c)) 7]> v.

(** One of the ten rounds, with its row [g] of the message schedule. *)
Definition blake2s_round (m : list Z) (v : list Z) (g : list nat) : list Z :=
  let mg i := m !!! (g !!! i) in
  let v := B2S_G 0 4 8 12 (mg 0%nat) (mg 1%nat) v in
  let v := B2S_G 1 5 9 13 (mg 2%nat) (mg 3%nat) v in
  let v := B2S_G 2 6 10 14 (mg 4%nat) (mg 5%nat) v in
  let v := B2S_G 3 7 11 15 (mg 6%nat) (mg 7%nat) v in
  let v := B2S_G 0 5 10 15 (mg 8%nat) (mg 9%nat) v in
  let v := B2S_G 1 6 11 12 (mg 10%nat) (mg 11%nat) v in
  let v := B2S_G 2 7 8 13 (mg 12%nat) (mg 13%nat) v in
  B2S_G 3 4 9 14 (mg 14%nat) (mg 15%nat) v.

(** The new chaining value that [blake2s_compress] leaves in [b_h]. *)
Definition compress_h (h : list Z) (t0 t1 : Z) (block : list Z) (last : bool) : list Z :=
  let m := map (fun i => le32 block (4 * i)) (seq 0 16) in
  let v := h ++ blake2s_iv in
  let v := <[12%nat := Z.lxor (v !!! 12%nat) t0]> v in
  let v := <[13%nat := Z.lxor (v !!! 13%nat) t1]> v in
  let v := if last then <[14%nat := Z.lxor (v !!! 14%nat) 0xFFFFFFFF]> v else v in
  let v := fold_left (blake2s_round m) blake2s_sigma v in
  map (fun i => Z.lxor (h !!! i) (Z.lxor (v !!! i) (v !!! (i + 8)%nat))) (seq 0 8).

Definition blake2s_compress (s : blake2s) (block : list Z) (last : bool) : blake2s :=
  Blake2s (compress_h (b_h s) (b_t0 s) (b_t1 s) block last)
    (b_t0 s) (b_t1 s) (b_buf s) (b_len s) (b_outlen s).

Definition blake2s_count (s : blake2s) (n : Z) : blake2s :=
  let t0 := w32 (b_t0 s + n) in
  let t1 := if t0 <? n then w32 (b_t1 s + 1) else b_t1 s in
  Blake2s (b_h s) t0 t1 (b_buf s) (b_len s) (b_outlen s).

(** Bytes [p] stored into [buf] from index [at]. *)
Definition splice (buf : list Z) (at_ : nat) (p : list Z) : list Z :=
  take at_ buf ++ p ++ drop (at_ + length p) buf.

Definition zeros (n : nat) : list Z := replicate n 0.

(** [blake2s_init] with the key's bytes; an unkeyed hash has none. *)
Definition blake2s_init (outlen : nat) (key : list Z) : blake2s :=
  let keylen := length key in
  let p := Z.lxor (Z.lxor 0x01010000 (w32 (Z.shiftl (Z.of_nat keylen) 8))) (Z.of_nat outlen) in
  let h := <[0%nat := Z.lxor (blake2s_iv !!! 0%nat) p]> blake2s_iv in
  if (keylen =? 0)%nat then Blake2s h 0 0 (zeros 64) 0 outlen
  else Blake2s h 0 0 (splice (zeros 64) 0 key) 64 outlen.

(** The loop of [blake2s_update]; each turn takes at least a byte, so as many
    turns as bytes are enough. *)
Fixpoint update_loop (fuel : nat) (s : blake2s) (p : list Z) : blake2s :=
  match fuel, p with
  | S fuel, _ :: _ =>
      let s := if (b_len s =? 64)%nat then
          let s := blake2s_count s 64 in
          let s := blake2s_compress s (b_buf s) false in
          Blake2s (b_h s) (b_t0 s) (b_t1 s) (b_buf s) 0 (b_outlen s)
        else s in
      let n := (64 - b_len s)%nat in
      let n := if (length p <? n)%nat then length p else n in
      let s := Blake2s (b_h s) (b_t0 s) (b_t1 s)
                 (splice (b_buf s) (b_len s) (take n p)) (b_len s + n) (b_outlen s) in
      update_loop fuel s (drop n p)
  | _, _ => s
  end.

Definition blake2s_update (s : blake2s) (p : list Z) : blake2s :=
  update_loop (length p) s p.

(** What [wipe] leaves of the structure. *)
Definition blake2s_wiped : blake2s := Blake2s (zeros 8) 0 0 (zeros 64) 0 0.

(** [blake2s_final]: the digest, and the wiped state. *)
Definition blake2s_final (s : blake2s) : list Z * blake2s :=
  let s := blake2s_count s (Z.of_nat (b_len s)) in
  let buf := splice (b_buf s) (b_len s) (zeros (64 - b_len s)) in
  let s := blake2s_compress s buf true in
  let h := concat (map (fun i => put_le32 (b_h s !!! i)) (seq 0 8)) in
  (take (b_outlen s) h, blake2s_wiped).

(** * ChaCha20 *)

Definition CHACHA_QR (a b c d : nat) (x : list Z) : list Z :=
  let x := <[a := w32 (x !!! a + x !!! b)]> x in
  let x := <[d := rol32 (Z.lxor (x !!! d) (x !!! a)) 16]> x in
  let x := <[c := w32 (x !!! c + x !!! d)]> x in
  let x := <[b := rol32 (Z.lxor (x !!! b) (x !!! c)) 12]> x in
  let x := <[a := w32 (x !!! a + x !!! b)]> x in
  let x := <[d := rol32 (Z.lxor (x !!! d) (x !!! a)) 8]> x in
  let x := <[c := w32 (x !!! c + x !!! d)]> x in
  <[b := rol32 (Z.lxor (x !!! b) (x !!! c)) 7]> x.

Definition chacha_double_round (x : list Z) : list Z :=
  let x := CHACHA_QR 0 4 8 12 x in
  let x := CHACHA_QR 1 5 9 13 x in
  let x := CHACHA_QR 2 6 10 14 x in
  let x := CHACHA_QR 3 7 11 15 x in
  let x := CHACHA_QR 0 5 10 15 x in
  let x := CHACHA_QR 1 6 11 12 x in
  let x := CHACHA_QR 2 7 8 13 x in
  CHACHA_QR 3 4 9 14 x.

Definition chacha20_block (key inp : list Z) : list Z :=
  let s := [0x61707865; 0x3320646e; 0x79622d32; 0x6b206574] ++ key ++ inp in
  let x := Nat.iter 10 chacha_double_round s in
  map (fun i => w32 (x !!! i + s !!! i)) (seq 0 16).

(** The published vectors checked at boot. *)
Definition kat_abc : list Z :=
  [0x50; 0x8c; 0x5e; 0x8c; 0x32; 0x7c; 0x14; 0xe2;
   0xe1; 0xa7; 0x2b; 0xa3; 0x4e; 0xeb; 0x45; 0x2f;
   0x37; 0x45; 0x8b; 0x20; 0x9e; 0xd6; 0x3a; 0x29;
   0x4d; 0x99; 0x9b; 0x4c; 0x86; 0x67; 0x59; 0x82].

Definition kat_keyed : list Z :=
  [0x48; 0xa8; 0x99; 0x7d; 0xa4; 0x07; 0x87; 0x6b;
   0x3d; 0x79; 0xc0; 0xd9; 0x23; 0x25; 0xad; 0x3b;
   0x89; 0xcb; 0xb7; 0x54; 0xd8; 0x6a; 0xb7; 0x1a;
   0xee; 0x04; 0x7a; 0xd3; 0x45; 0xfd; 0x2c; 0x49].

Definition kat_block : list Z :=
  [0xe4e7f110; 0x15593bd1; 0x1fdd0f50; 0xc47120a3;
   0xc7f4d1c7; 0x0368c033; 0x9aaa2204; 0x4e6cd4c3;
   0x466482d2; 0x09aa9f07; 0x05d7c214; 0xa2028bd9;
   0xd19c12b5; 0xb94e16de; 0xe883d0cb; 0x4e3c50a2].

Definition kat_in : list Z := [1; 0x09000000; 0x4a000000; 0].

Definition all_eq (n : nat) (a b : list Z) : bool :=
  forallb (fun i => a !!! i =? b !!! i) (seq 0 n).

Definition random_kat : bool :=
  let h := (blake2s_final (blake2s_update (blake2s_init 32 []) [0x61; 0x62; 0x63])).1 in
  let key := map Z.of_nat (seq 0 32) in
  let h' := (blake2s_final (blake2s_init 32 key)).1 in
  let k := map (fun i => le32 key (4 * i)) (seq 0 8) in
  all_eq 32 h kat_abc && all_eq 32 h' kat_keyed &&
  all_eq 16 (chacha20_block k kat_in) kat_block.

(** * The generator *)

Record random := Random {
  random_pool : blake2s;
  random_key : list Z;
  random_last_ms : Z;
  random_ready : bool;
  random_irq : list Z;
  random_irq_n : list Z
}.

(** The variables as the kernel image has them. *)
Definition random_bss : random :=
  Random blake2s_wiped (zeros 8) 0 false (zeros MAXCPU) (zeros MAXCPU).

(** [random_intr] on CPU [id], with the cycle counter's value. *)
Definition random_intr (id : nat) (tsc vector rip : Z) (r : random) : random :=
  if (MAXCPU <=? id)%nat then r
  else
    let v := random_irq r !!! id in
    let v := Z.lxor (Z.lxor (Z.lxor (Z.lor (w64 (Z.shiftl v 19)) (Z.shiftr v 45)) tsc)
                       (w64 (Z.shiftl vector 56))) rip in
    Random (random_pool r) (random_key r) (random_last_ms r) (random_ready r)
      (<[id := w64 (v * 0x9E3779B97F4A7C15)]> (random_irq r))
      (<[id := w64 (random_irq_n r !!! id + 1)]> (random_irq_n r)).

Definition derive (seed : list Z) (label : Z) : list Z :=
  (blake2s_final (blake2s_update (blake2s_init 32 seed) (bytes_le64 label))).1.

(** The eight words of a 32-byte key. *)
Definition key_words (key : list Z) : list Z :=
  map (fun i => le32 key (4 * i)) (seq 0 8).

(** [reseed_locked], reading the cycle counter and the uptime. *)
Definition reseed_locked (tsc now : Z) (r : random) : random :=
  let pool := fold_left (fun s w => blake2s_update s (bytes_le64 w))
                (random_irq r) (random_pool r) in
  let pool := blake2s_update pool (bytes_le64 tsc) in
  let seed := (blake2s_final pool).1 in
  let next := derive seed 0 in
  let key := derive seed 1 in
  Random (blake2s_init 32 next) (key_words key) now (random_ready r)
    (random_irq r) (random_irq_n r).

(** Byte [i] of a block of words. *)
Definition block_byte (blk : list Z) (i : nat) : Z :=
  w8 (Z.shiftr (blk !!! (i / 4)%nat) (8 * Z.of_nat (i mod 4))).

(** The loop of [random_bytes] that expands the request's key [k]. *)
Fixpoint expand (fuel : nat) (k : list Z) (ctr : Z) (n : nat) : list Z :=
  match fuel with
  | O => []
  | S fuel =>
      if (n =? 0)%nat then []
      else
        let blk := chacha20_block k [w32 ctr; w32 (Z.shiftr ctr 32); 0; 0] in
        let m := if (n <? 64)%nat then n else 64%nat in
        map (block_byte blk) (seq 0 m) ++ expand fuel k (w64 (ctr + 1)) (n - m)
  end.

(** [random_bytes]: the uptime is read for the check, and again, with the
    cycle counter, by a reseed. *)
Definition random_bytes (now tsc now' : Z) (n : nat) (r : random) : res (list Z * random) :=
  KASSERT (random_ready r) "random_bytes before random_init";;
  let r := if RANDOM_RESEED_MS <=? w64 (now - random_last_ms r)
           then reseed_locked tsc now' r else r in
  let blk := chacha20_block (random_key r) [0; 0; 0; 0] in
  let r := Random (random_pool r) (take 8 blk) (random_last_ms r) (random_ready r)
             (random_irq r) (random_irq_n r) in
  Done (expand n (drop 8 blk) 0 n, r).

Definition random_add (buf : list Z) (r : random) : random :=
  Random (blake2s_update (random_pool r) buf) (random_key r) (random_last_ms r)
    (random_ready r) (random_irq r) (random_irq_n r).

(** * Boot *)

(** What [random_init] reads of the machine: CPUID leaf 1's ECX, the RDRAND
    attempts, the successive values of the cycle counter, the wall clock, and
    the uptimes read by the reseed and the two trial requests. *)
Record machine := Machine {
  m_ecx : Z;
  m_rdrand : nat -> option Z;
  m_tsc : nat -> Z;
  m_wall : Z;
  m_now : nat -> Z
}.

(** RDRAND's words into the boot hash, and how many it gave. *)
Definition gather_rdrand (m : machine) (boot : blake2s) : blake2s * Z :=
  if Z.testbit (m_ecx m) 30 then
    fold_left (fun '(s, hw) i =>
        match m_rdrand m i with
        | Some w => (blake2s_update s (bytes_le64 w), hw + 1)
        | None => (s, hw)
        end) (seq 0 RANDOM_RDRAND_WORDS) (boot, 0)
  else (boot, 0).

(** The inner walk of the jitter loop. *)
Definition jitter_walk (acc t0 : Z) (scratch : list Z) : list Z :=
  fold_left (fun sc j =>
      let k := Z.to_nat (Z.land (w64 (acc + Z.of_nat j * 61)) 255) in
      <[k := w8 (sc !!! k + w8 t0)]> sc)
    (seq 0 (16 + Z.to_nat (Z.land acc 15))) scratch.

(** One turn of the jitter loop: turn [i] reads the counter twice. *)
Definition jitter_step (m : machine) (st : blake2s * Z * list Z) (i : nat) :
    blake2s * Z * list Z :=
  let '(boot, acc, scratch) := st in
  let t0 := m_tsc m (1 + 2 * i)%nat in
  let scratch := jitter_walk acc t0 scratch in
  let acc := Z.lxor (Z.lor (w64 (Z.shiftl acc 7)) (Z.shiftr acc 57))
               (w64 (m_tsc m (2 + 2 * i)%nat - t0)) in
  let boot := if Z.land (Z.of_nat i) 63 =? 63
              then blake2s_update boot (bytes_le64 acc) else boot in
  (boot, acc, scratch).

(** The digest of everything gathered at boot. *)
Definition gather_boot (m : machine) : list Z :=
  let boot := blake2s_init 32 [] in
  let '(boot, _) := gather_rdrand m boot in
  let boot := blake2s_update boot (bytes_le64 (m_tsc m 0%nat)) in
  let boot := blake2s_update boot (bytes_le64 (m_wall m)) in
  let scratch := map Z.of_nat (seq 0 (Z.to_nat 256)) in
  let '(boot, _, scratch) := fold_left (jitter_step m) (seq 0 RANDOM_JITTER)
                               (boot, 0, scratch) in
  (blake2s_final (blake2s_update boot scratch)).1.

(** [random_init]: whether it reports PASS, and the seeded generator. *)
Definition random_init (m : machine) (r : random) : res (bool * random) :=
  let kat := random_kat in
  let a := gather_boot m in
  let tsc i := m_tsc m (2 * RANDOM_JITTER + 1 + i)%nat in
  let pool := blake2s_update (blake2s_init 32 []) a in
  let r := Random pool (random_key r) (random_last_ms r) (random_ready r)
             (random_irq r) (random_irq_n r) in
  let r := reseed_locked (tsc 0%nat) (m_now m 0%nat) r in
  let r := Random (random_pool r) (random_key r) (random_last_ms r) true
             (random_irq r) (random_irq_n r) in
  '(a, r) ← random_bytes (m_now m 1%nat) (tsc 1%nat) (m_now m 2%nat) 32 r;
  '(b, r) ← random_bytes (m_now m 3%nat) (tsc 2%nat) (m_now m 4%nat) 32 r;
  let differ := existsb (fun i => negb (a !!! i =? b !!! i)) (seq 0 32) in
  Done (kat && differ, r).

Lemma compress_h_length h t0 t1 block last : length (compress_h h t0 t1 block last) = 8%nat.
Proof. unfold compress_h. by rewrite length_map, length_seq. Qed.

Lemma chacha_length k i : length (chacha20_block k i) = 16%nat.
Proof. unfold chacha20_block. by rewrite length_map, length_seq. Qed.

#[global] Opaque compress_h chacha20_block.

(** * RFC 7693, one shot

    The hash of a whole message: its blocks are compressed in order with the
    number of bytes so far, the last one, zero-padded, with the last flag. *)

Definition rfc_F (h : list Z) (t : Z) (block : list Z) (last : bool) : list Z :=
  compress_h h (w32 t) (w32 (Z.shiftr t 32)) block last.

Definition pad (D : list Z) : list Z := D ++ zeros (64 - length D).

Fixpoint rfc_blocks (fuel : nat) (h : list Z) (t : Z) (D : list Z) : list Z :=
  match fuel with
  | O => rfc_F h (w64 (t + Z.of_nat (length D))) (pad D) true
  | S fuel =>
      if (length D <=? 64)%nat then rfc_F h (w64 (t + Z.of_nat (length D))) (pad D) true
      else rfc_blocks fuel (rfc_F h (w64 (t + 64)) (take 64 D) false) (w64 (t + 64)) (drop 64 D)
  end.

(** [nn] key bytes make one zero-padded block before the message. *)
Definition rfc_data (key msg : list Z) : list Z :=
  if (length key =? 0)%nat then msg else pad key ++ msg.

Definition rfc_h0 (nn kk : nat) : list Z :=
  <[0%nat := Z.lxor (blake2s_iv !!! 0%nat)
       (Z.lxor (Z.lxor 0x01010000 (w32 (Z.shiftl (Z.of_nat kk) 8))) (Z.of_nat nn))]> blake2s_iv.

Definition words_bytes (ws : list Z) : list Z := concat (map put_le32 ws).

Definition rfc7693 (outlen : nat) (key msg : list Z) : list Z :=
  let D := rfc_data key msg in
  take outlen (words_bytes (rfc_blocks (length D) (rfc_h0 outlen (length key)) 0 D)).

(** * The streaming hash computes it *)

Definition stream_ok (s : blake2s) : Prop :=
  length (b_buf s) = 64%nat /\ (b_len s <= 64)%nat /\
  0 <= b_t0 s < 2 ^ 32 /\ 0 <= b_t1 s < 2 ^ 32.

(** Bytes hashed so far, bytes waiting, and the chaining value the message
    [E] still to come leads to. *)
Definition tval (s : blake2s) : Z := b_t0 s + 2 ^ 32 * b_t1 s.
Definition pending (s : blake2s) : list Z := take (b_len s) (b_buf s).
Definition digest (s : blake2s) (E : list Z) : list Z :=
  let D := pending s ++ E in rfc_blocks (length D) (b_h s) (tval s) D.

Lemma rfc_blocks_fuel f1 f2 : forall h t D,
  (length D <= f1 + 64)%nat -> (length D <= f2 + 64)%nat ->
  rfc_blocks f1 h t D = rfc_blocks f2 h t D.
Proof.
  revert f2. induction f1 as [|f1 IH]; intros f2 h t D H1 H2; destruct f2 as [|f2];
    cbn [rfc_blocks]; try reflexivity.
  - by rewrite (proj2 (Nat.leb_le _ _)) by lia.
  - by rewrite (proj2 (Nat.leb_le _ _)) by lia.
  - destruct (Nat.leb_spec (length D) 64); [reflexivity|].
    apply IH; rewrite length_drop; lia.
Qed.

Lemma count_tval s n : stream_ok s -> 0 <= n < 2 ^ 32 ->
  stream_ok (blake2s_count s n) /\ tval (blake2s_count s n) = w64 (tval s + n).
Proof.
  intros (Hb & Hl & H0 & H1) Hn. unfold stream_ok, tval, blake2s_count; cbn.
  destruct (Z.ltb_spec (w32 (b_t0 s + n)) n) as [Hlt|Hge]; unfold w32, w64 in *;
    split; [|Z.div_mod_to_equations; lia| |Z.div_mod_to_equations; lia];
    (split; [assumption|]; split; [assumption|]; split; Z.div_mod_to_equations; lia).
Qed.

Lemma tval_words s : stream_ok s ->
  b_t0 s = w32 (tval s) /\ b_t1 s = w32 (Z.shiftr (tval s) 32).
Proof.
  intros (_ & _ & H0 & H1). unfold tval, w32.
  rewrite Z.shiftr_div_pow2 by lia. Z.div_mod_to_equations; lia.
Qed.

Lemma compress_rfc s block last : stream_ok s ->
  b_h (blake2s_compress s block last) = rfc_F (b_h s) (tval s) block last.
Proof.
  intros H. unfold blake2s_compress, rfc_F; cbn [b_h].
  destruct (tval_words s H) as [<- <-]. reflexivity.
Qed.

Lemma splice_length buf k p : (k + length p <= length buf)%nat ->
  length (splice buf k p) = length buf.
Proof. intros. unfold splice. rewrite !length_app, length_take, length_drop. lia. Qed.

Lemma splice_take buf k p : (k + length p <= length buf)%nat ->
  take (k + length p) (splice buf k p) = take k buf ++ p.
Proof.
  intros. unfold splice. rewrite (assoc_L (++)).
  rewrite take_app_le by (rewrite length_app, length_take; lia).
  rewrite take_ge; [reflexivity|]. rewrite length_app, length_take. lia.
Qed.

(** The block that is full when more data comes is hashed before it. *)
Definition flush (s : blake2s) : blake2s :=
  if (b_len s =? 64)%nat then
    let s := blake2s_count s 64 in
    let s := blake2s_compress s (b_buf s) false in
    Blake2s (b_h s) (b_t0 s) (b_t1 s) (b_buf s) 0 (b_outlen s)
  else s.

Lemma flush_ok s E : stream_ok s -> E <> [] ->
  stream_ok (flush s) /\ (b_len (flush s) < 64)%nat /\
  b_outlen (flush s) = b_outlen s /\ digest (flush s) E = digest s E.
Proof.
  intros Hok HE. unfold flush. destruct (Nat.eqb_spec (b_len s) 64) as [H64|Hne].
  2:{ destruct Hok as (Hb & Hl & Ht). repeat split; auto; try lia. }
  destruct (count_tval s 64 Hok ltac:(lia)) as [Hok' Ht].
  pose proof Hok as (Hb & Hl & _). pose proof Hok' as (_ & _ & H0 & H1).
  split; [|split; [cbn; lia|split; [reflexivity|]]].
  { unfold stream_ok; cbn in *. auto with lia. }
  assert (0 < length E)%nat as HE' by (destruct E; [done|cbn; lia]).
  assert (pending s = b_buf s) as Hp.
  { unfold pending. rewrite H64, <- Hb. apply take_ge. lia. }
  unfold digest. rewrite Hp.
  replace (length (b_buf s ++ E)) with (S (63 + length E))
    by (rewrite length_app; lia).
  cbn [rfc_blocks]. rewrite (proj2 (Nat.leb_gt _ _)) by (rewrite length_app; lia).
  rewrite take_app_length', drop_app_length' by lia.
  rewrite <- Ht, compress_rfc by assumption.
  apply rfc_blocks_fuel; [rewrite length_app|]; cbn [app pending b_len take]; lia.
Qed.

Lemma absorb_ok s E p n : stream_ok s -> (b_len s + n <= 64)%nat -> (n <= length p)%nat ->
  let s' := Blake2s (b_h s) (b_t0 s) (b_t1 s)
              (splice (b_buf s) (b_len s) (take n p)) (b_len s + n) (b_outlen s) in
  stream_ok s' /\ digest s' (drop n p ++ E) = digest s (p ++ E).
Proof.
  intros (Hb & Hl & H0 & H1) Hn Hp. cbn.
  assert (length (take n p) = n) as Hlen by (rewrite length_take; lia).
  split.
  - unfold stream_ok; cbn. rewrite splice_length by lia. auto with lia.
  - unfold digest, pending, tval; cbn.
    replace (b_len s + n)%nat with (b_len s + length (take n p))%nat by lia.
    rewrite splice_take by lia.
    rewrite <- (assoc_L (++)), (assoc_L (++) (take n p)), take_drop. reflexivity.
Qed.

Lemma update_loop_ok E fuel : forall s p,
  stream_ok s -> (length p <= fuel)%nat ->
  let s' := update_loop fuel s p in
  stream_ok s' /\ b_outlen s' = b_outlen s /\ digest s' E = digest s (p ++ E).
Proof.
  induction fuel as [|fuel IH]; intros s p Hok Hf; [destruct p; [|cbn in Hf; lia]; auto|].
  destruct p as [|x p]; [auto|]. cbn [update_loop]. fold (flush s).
  destruct (flush_ok s ((x :: p) ++ E) Hok ltac:(done)) as (Hok1 & Hlt & Ho & <-).
  set (n := if (length (x :: p) <? 64 - b_len (flush s))%nat then length (x :: p)
            else (64 - b_len (flush s))%nat).
  assert (0 < n <= length (x :: p) /\ b_len (flush s) + n <= 64)%nat as [Hn Hn64].
  { unfold n. destruct (Nat.ltb_spec (length (x :: p)) (64 - b_len (flush s))); cbn in *; lia. }
  destruct (absorb_ok (flush s) E (x :: p) n Hok1 ltac:(lia) ltac:(lia)) as [Hok2 Hd].
  destruct (IH _ (drop n (x :: p)) Hok2) as (Hok3 & Ho3 & Hd3).
  { rewrite length_drop. lia. }
  split; [exact Hok3|]. split; [by rewrite Ho3|]. by rewrite Hd3, Hd.
Qed.

Lemma update_ok s p E : stream_ok s ->
  stream_ok (blake2s_update s p) /\ b_outlen (blake2s_update s p) = b_outlen s /\
  digest (blake2s_update s p) E = digest s (p ++ E).
Proof. intros. by apply update_loop_ok. Qed.

Lemma seq_nth (l : list Z) n : length l = n -> map (fun i => l !!! i) (seq 0 n) = l.
Proof.
  intros <-. apply list_eq. intros i.
  change (((fun i => l !!! i) <$> seq 0 (length l)) !! i = l !! i).
  rewrite list_lookup_fmap.
  destruct (decide (i < length l)%nat) as [Hi|Hi].
  - rewrite lookup_seq_lt by assumption. cbn.
    symmetry. by apply list_lookup_lookup_total_lt.
  - rewrite lookup_seq_ge, lookup_ge_None_2 by lia. reflexivity.
Qed.

Lemma final_ok s : stream_ok s ->
  (blake2s_final s).1 = take (b_outlen s) (words_bytes (digest s [])).
Proof.
  intros Hok. pose proof Hok as (Hb & Hl & _).
  assert (0 <= Z.of_nat (b_len s) < 2 ^ 32) as Hn by lia.
  destruct (count_tval s _ Hok Hn) as [Hok' Ht].
  unfold blake2s_final. cbn [fst].
  rewrite compress_rfc, Ht by assumption. cbn [blake2s_count b_len b_outlen b_buf b_h].
  assert (pending s ++ [] = pending s) as Hp by apply app_nil_r.
  assert (length (pending s) = b_len s) as Hlp by (unfold pending; rewrite length_take; lia).
  assert (digest s [] = rfc_F (b_h s) (w64 (tval s + Z.of_nat (b_len s)))
     (splice (b_buf s) (b_len s) (zeros (64 - b_len s))) true) as ->.
  { unfold digest. rewrite Hp, (rfc_blocks_fuel _ 0) by lia.
    cbn [rfc_blocks]. rewrite Hlp. unfold pad, splice, zeros.
    rewrite Hlp, length_replicate. fold (pending s).
    rewrite (drop_ge (b_buf s)), app_nil_r by lia. reflexivity. }
  generalize (compress_h_length (b_h s) (w32 (w64 (tval s + Z.of_nat (b_len s))))
    (w32 (Z.shiftr (w64 (tval s + Z.of_nat (b_len s))) 32))
    (splice (b_buf s) (b_len s) (zeros (64 - b_len s))) true).
  fold (rfc_F (b_h s) (w64 (tval s + Z.of_nat (b_len s)))
     (splice (b_buf s) (b_len s) (zeros (64 - b_len s))) true).
  generalize (rfc_F (b_h s) (w64 (tval s + Z.of_nat (b_len s)))
     (splice (b_buf s) (b_len s) (zeros (64 - b_len s))) true).
  intros l Hl8. unfold words_bytes. 
  rewrite <- (map_map (fun i => l !!! i) put_le32), (seq_nth l 8 Hl8). reflexivity.
Qed.

Lemma init_ok outlen key E : (length key <= 64)%nat ->
  stream_ok (blake2s_init outlen key) /\ b_outlen (blake2s_init outlen key) = outlen /\
  digest (blake2s_init outlen key) E =
    rfc_blocks (length (rfc_data key E)) (rfc_h0 outlen (length key)) 0 (rfc_data key E).
Proof.
  intros Hk. unfold blake2s_init, rfc_data, digest, pending, tval, stream_ok.
  fold (rfc_h0 outlen (length key)).
  destruct (Nat.eqb_spec (length key) 0) as [H0|Hne]; cbn [b_buf b_len b_t0 b_t1 b_h b_outlen].
  - change (length (zeros 64)) with 64%nat. repeat split; lia.
  - rewrite splice_length by (change (length (zeros 64)) with 64%nat; lia).
    change (length (zeros 64)) with 64%nat. split; [repeat split; lia|]. split; [reflexivity|].
    assert (take 64 (splice (zeros 64) 0 key) = pad key) as ->; [|reflexivity].
    unfold splice, pad, zeros. rewrite drop_replicate, take_0, app_nil_l, Nat.add_0_l.
    apply take_ge. rewrite length_app, length_replicate. lia.
Qed.

(** A hash of chunks, as the kernel's callers compute it. *)
Definition hash_chunks (outlen : nat) (key : list Z) (chunks : list (list Z)) : list Z :=
  (blake2s_final (fold_left blake2s_update chunks (blake2s_init outlen key))).1.

Lemma updates_ok chunks : forall s E, stream_ok s ->
  let s' := fold_left blake2s_update chunks s in
  stream_ok s' /\ b_outlen s' = b_outlen s /\ digest s' E = digest s (concat chunks ++ E).
Proof.
  induction chunks as [|c chunks IH]; intros s E Hok; [auto|]. cbn [fold_left].
  destruct (update_ok s c (concat chunks ++ E) Hok) as (H1 & Ho & Hd).
  destruct (IH (blake2s_update s c) E H1) as (H2 & Ho2 & Hd2).
  split; [exact H2|]. split; [by rewrite Ho2|].
  rewrite Hd2, Hd. cbn [concat]. by rewrite <- (assoc_L (++)).
Qed.

Lemma hash_chunks_rfc outlen key chunks : (length key <= 64)%nat ->
  hash_chunks outlen key chunks = rfc7693 outlen key (concat chunks).
Proof.
  intros Hk. unfold hash_chunks, rfc7693.
  destruct (init_ok outlen key (concat chunks ++ []) Hk) as (H1 & Ho & Hd).
  destruct (updates_ok chunks _ [] H1) as (H2 & Ho2 & Hd2).
  rewrite final_ok, Ho2, Ho, Hd2, Hd, app_nil_r by assumption. reflexivity.
Qed.

(** * An abstract generator

    It keeps the bytes gathered since the last reseed, and the pool's key,
    and hashes them whole; it answers a request with a prefix of the
    request's ChaCha20 key stream. *)

Record gen := Gen {
  g_base : list Z;
  g_data : list Z;
  g_key : list Z;
  g_last : Z;
  g_irq : list Z;
  g_irq_n : list Z
}.

Definition irq_bytes (irq : list Z) : list Z := concat (map bytes_le64 irq).

Definition gen_reseed (tsc now : Z) (g : gen) : gen :=
  let seed := rfc7693 32 (g_base g) (g_data g ++ irq_bytes (g_irq g) ++ bytes_le64 tsc) in
  Gen (rfc7693 32 seed (bytes_le64 0)) [] (key_words (rfc7693 32 seed (bytes_le64 1)))
    now (g_irq g) (g_irq_n g).

(** Block [i] of the key stream, and its first [n] bytes. *)
Definition ctr_words (i : nat) : list Z :=
  [w32 (w64 (Z.of_nat i)); w32 (Z.shiftr (w64 (Z.of_nat i)) 32); 0; 0].

Definition key_stream (k : list Z) (n : nat) : list Z :=
  take n (concat (map (fun i => words_bytes (chacha20_block k (ctr_words i)))
                    (seq 0 ((n + 63) / 64)))).

Definition gen_bytes (now tsc now' : Z) (n : nat) (g : gen) : list Z * gen :=
  let g := if RANDOM_RESEED_MS <=? w64 (now - g_last g) then gen_reseed tsc now' g else g in
  let blk := chacha20_block (g_key g) [0; 0; 0; 0] in
  (key_stream (drop 8 blk) n,
   Gen (g_base g) (g_data g) (take 8 blk) (g_last g) (g_irq g) (g_irq_n g)).

Definition gen_add (buf : list Z) (g : gen) : gen :=
  Gen (g_base g) (g_data g ++ buf) (g_key g) (g_last g) (g_irq g) (g_irq_n g).

Definition gen_intr (id : nat) (tsc vector rip : Z) (g : gen) : gen :=
  let r := random_intr id tsc vector rip
             (Random blake2s_wiped [] 0 false (g_irq g) (g_irq_n g)) in
  Gen (g_base g) (g_data g) (g_key g) (g_last g) (random_irq r) (random_irq_n r).

(** The bytes [random_init] feeds its hash, in order. *)
Definition boot_rdrand (m : machine) : list Z :=
  if Z.testbit (m_ecx m) 30 then
    concat (map (fun i => match m_rdrand m i with Some w => bytes_le64 w | None => [] end)
              (seq 0 RANDOM_RDRAND_WORDS))
  else [].

(** The accumulator and the scratch bytes evolve without the hash. *)
Definition jitter_pure (m : machine) (st : list Z * Z * list Z) (i : nat) :
    list Z * Z * list Z :=
  let '(D, acc, scratch) := st in
  let t0 := m_tsc m (1 + 2 * i)%nat in
  let scratch := jitter_walk acc t0 scratch in
  let acc := Z.lxor (Z.lor (w64 (Z.shiftl acc 7)) (Z.shiftr acc 57))
               (w64 (m_tsc m (2 + 2 * i)%nat - t0)) in
  (if Z.land (Z.of_nat i) 63 =? 63 then D ++ bytes_le64 acc else D, acc, scratch).

Definition boot_data (m : machine) : list Z :=
  let D := boot_rdrand m ++ bytes_le64 (m_tsc m 0%nat) ++ bytes_le64 (m_wall m) in
  let '(D, _, scratch) := fold_left (jitter_pure m) (seq 0 RANDOM_JITTER)
      (D, 0, map Z.of_nat (seq 0 (Z.to_nat 256))) in
  D ++ scratch.

Definition gen_boot (m : machine) (r : random) : gen :=
  gen_reseed (m_tsc m (2 * RANDOM_JITTER + 1)%nat) (m_now m 0%nat)
    (Gen [] (rfc7693 32 [] (boot_data m)) (zeros 8) 0 (random_irq r) (random_irq_n r)).

(** ** Operations and sessions *)

Inductive rop :=
| OpIntr (id : nat) (tsc vector rip : Z)
| OpAdd (buf : list Z)
| OpBytes (now tsc now' : Z) (n : nat).

Definition random_do (op : rop) (r : random) : res (list Z * random) :=
  match op with
  | OpIntr id tsc vector rip => Done ([], random_intr id tsc vector rip r)
  | OpAdd buf => Done ([], random_add buf r)
  | OpBytes now tsc now' n => random_bytes now tsc now' n r
  end.

Definition gen_do (op : rop) (g : gen) : list Z * gen :=
  match op with
  | OpIntr id tsc vector rip => ([], gen_intr id tsc vector rip g)
  | OpAdd buf => ([], gen_add buf g)
  | OpBytes now tsc now' n => gen_bytes now tsc now' n g
  end.

Fixpoint random_run (ops : list rop) (r : random) : res (list (list Z)) :=
  match ops with
  | [] => Done []
  | op :: ops =>
      '(out, r) ← random_do op r;
      outs ← random_run ops r;
      Done (out :: outs)
  end.

Fixpoint gen_run (ops : list rop) (g : gen) : list (list Z) :=
  match ops with
  | [] => []
  | op :: ops => let '(out, g) := gen_do op g in out :: gen_run ops g
  end.

(** Everything a booted kernel's requests return. *)
Definition random_session (m : machine) (r : random) (ops : list rop) : res (list (list Z)) :=
  '(_, r) ← random_init m r;
  random_run ops r.

(** The two trial requests of [random_init] come first. *)
Definition gen_session (m : machine) (r : random) (ops : list rop) : list (list Z) :=
  let tsc i := m_tsc m (2 * RANDOM_JITTER + 1 + i)%nat in
  drop 2 (gen_run (OpBytes (m_now m 1%nat) (tsc 1%nat) (m_now m 2%nat) 32 ::
                   OpBytes (m_now m 3%nat) (tsc 2%nat) (m_now m 4%nat) 32 :: ops)
            (gen_boot m r)).

(** The streaming pool stands for its key and the bytes gathered. *)
Definition pool_sim (s : blake2s) (base data : list Z) : Prop :=
  stream_ok s /\ b_outlen s = 32%nat /\
  forall E, digest s E =
    rfc_blocks (length (rfc_data base (data ++ E))) (rfc_h0 32 (length base)) 0
      (rfc_data base (data ++ E)).

(** The relation between the two generators. *)
Definition sim (r : random) (g : gen) : Prop :=
  pool_sim (random_pool r) (g_base g) (g_data g) /\
  random_key r = g_key g /\ random_last_ms r = g_last g /\
  random_irq r = g_irq g /\ random_irq_n r = g_irq_n g.

(** ** The key stream *)

Lemma block_bytes blk : length blk = 16%nat ->
  map (block_byte blk) (seq 0 64) = words_bytes blk.
Proof.
  intros H. do 16 (destruct blk as [|? blk]; [discriminate|]).
  destruct blk; [|discriminate].
  unfold block_byte, words_bytes, put_le32. cbn -[w8 Z.shiftr]. rewrite !Z.shiftr_0_r.
  reflexivity.
Qed.

Lemma block_prefix blk n : length blk = 16%nat -> (n <= 64)%nat ->
  map (block_byte blk) (seq 0 n) = take n (words_bytes blk).
Proof.
  intros Hb Hn. rewrite <- block_bytes by assumption.
  rewrite firstn_map, take_seq. by rewrite Nat.min_l by lia.
Qed.

Lemma words_bytes_length ws : length (words_bytes ws) = (4 * length ws)%nat.
Proof. unfold words_bytes. induction ws as [|w ws IH]; cbn in *; lia. Qed.

Lemma w64_succ n : w64 (w64 (Z.of_nat n) + 1) = w64 (Z.of_nat (S n)).
Proof. unfold w64. rewrite Zplus_mod_idemp_l. f_equal. lia. Qed.

Lemma expand_stream fuel k : forall i n, (n <= fuel)%nat ->
  expand fuel k (w64 (Z.of_nat i)) n =
  take n (concat (map (fun i => words_bytes (chacha20_block k (ctr_words i)))
                    (seq i ((n + 63) / 64)))).
Proof.
  induction fuel as [|fuel IH]; intros i n Hn.
  { assert (n = 0%nat) as -> by lia. reflexivity. }
  cbn [expand]. destruct (Nat.eqb_spec n 0) as [-> |Hn0]; [reflexivity|].
  fold (ctr_words i). rewrite w64_succ, IH by (destruct (_ <? _)%nat eqn:?; lia).
  pose proof (words_bytes_length (chacha20_block k (ctr_words i))) as Hl.
  rewrite chacha_length in Hl.
  destruct (Nat.ltb_spec n 64) as [Hlt|Hge].
  - rewrite Nat.sub_diag. change ((0 + 63) / 64)%nat with 0%nat.
    replace ((n + 63) / 64)%nat with 1%nat
      by (apply (Nat.div_unique _ _ _ (n - 1)); lia).
    cbn [seq map concat]. rewrite take_0, !app_nil_r.
    apply block_prefix; [apply chacha_length|lia].
  - replace ((n + 63) / 64)%nat with (S ((n - 64 + 63) / 64)).
    2:{ replace (n + 63)%nat with (n - 64 + 63 + 1 * 64)%nat by lia.
        rewrite Nat.div_add by lia. lia. }
    rewrite block_prefix by (try apply chacha_length; lia). cbn [seq map concat].
    rewrite take_ge, (take_app_ge (words_bytes _)) by lia.
    rewrite Hl. reflexivity.
Qed.

(** ** The simulation *)

Lemma pool_init base : (length base <= 64)%nat -> pool_sim (blake2s_init 32 base) base [].
Proof.
  intros Hb. pose proof (fun E => init_ok 32 base E Hb) as Hi.
  split; [apply (Hi [])|]. split; [apply (Hi [])|]. intros E. apply (Hi E).
Qed.

Lemma pool_update s base data p :
  pool_sim s base data -> pool_sim (blake2s_update s p) base (data ++ p).
Proof.
  intros (Hok & Ho & Hd). pose proof (fun E => update_ok s p E Hok) as Hu.
  destruct (Hu []) as (Hok' & Ho' & _).
  split; [exact Hok'|]. split; [by rewrite Ho'|].
  intros E. destruct (Hu E) as (_ & _ & ->). by rewrite Hd, (assoc_L (++)).
Qed.

Lemma pool_final s base data :
  pool_sim s base data -> (blake2s_final s).1 = rfc7693 32 base data.
Proof.
  intros (Hok & Ho & Hd). rewrite final_ok, Ho, Hd, app_nil_r by assumption.
  reflexivity.
Qed.

#[global] Opaque blake2s_init blake2s_update blake2s_final rfc7693 bytes_le64.

Lemma derive_rfc seed label : (length seed <= 64)%nat ->
  derive seed label = rfc7693 32 seed (bytes_le64 label).
Proof. intros H. apply pool_final, (pool_update _ _ []), pool_init, H. Qed.

Lemma rfc7693_length key msg : (length (rfc7693 32 key msg) <= 32)%nat.
Proof. Transparent rfc7693. unfold rfc7693. rewrite length_take. lia. Qed.
#[global] Opaque rfc7693.

Lemma fold_left_cons {A B} (f : A -> B -> A) b l a :
  fold_left f (b :: l) a = fold_left f l (f a b).
Proof. reflexivity. Qed.

Lemma irq_bytes_cons w irq : irq_bytes (w :: irq) = bytes_le64 w ++ irq_bytes irq.
Proof. reflexivity. Qed.

(** The pool after the interrupt words. *)
Lemma pool_irqs irq base : forall s data, pool_sim s base data ->
  pool_sim (fold_left (fun s w => blake2s_update s (bytes_le64 w)) irq s) base
    (data ++ irq_bytes irq).
Proof.
  induction irq as [|w irq IH]; intros s data Hs.
  - rewrite app_nil_r. exact Hs.
  - rewrite fold_left_cons, irq_bytes_cons, (assoc_L (++)).
    apply IH, pool_update, Hs.
Qed.

Lemma sim_reseed tsc now r g : sim r g ->
  sim (reseed_locked tsc now r) (gen_reseed tsc now g).
Proof.
  intros (Hp & _ & _ & Hirq & Hn). unfold reseed_locked, gen_reseed. rewrite <- Hirq, <- Hn.
  apply (pool_irqs (random_irq r)), (pool_update _ _ _ (bytes_le64 tsc)), pool_final in Hp.
  rewrite <- (assoc_L (++)) in Hp. rewrite Hp.
  pose proof (rfc7693_length (g_base g) (g_data g ++ irq_bytes (random_irq r) ++ bytes_le64 tsc)).
  rewrite !derive_rfc by lia. unfold sim.
  cbn [random_pool random_key random_last_ms random_irq random_irq_n
    g_base g_data g_key g_last g_irq g_irq_n].
  split; [|auto]. apply pool_init. pose proof (rfc7693_length (rfc7693 32 (g_base g)
    (g_data g ++ irq_bytes (random_irq r) ++ bytes_le64 tsc)) (bytes_le64 0)). lia.
Qed.

Lemma sim_intr id tsc vector rip r g : sim r g ->
  sim (random_intr id tsc vector rip r) (gen_intr id tsc vector rip g).
Proof.
  intros (Hp & Hk & Hl & Hi & Hn). unfold random_intr, gen_intr, random_intr.
  cbn [random_irq random_irq_n].
  destruct (MAXCPU <=? id)%nat; unfold sim;
    cbn [random_pool random_key random_last_ms random_irq random_irq_n
      g_base g_data g_key g_last g_irq g_irq_n]; rewrite ?Hi, ?Hn; auto.
Qed.

Lemma sim_add buf r g : sim r g -> sim (random_add buf r) (gen_add buf g).
Proof. intros [Hp Hrest]. split; [apply pool_update, Hp|exact Hrest]. Qed.

Lemma reseed_ready tsc now r : random_ready (reseed_locked tsc now r) = random_ready r.
Proof. reflexivity. Qed.

Lemma sim_bytes now tsc now' n r g : sim r g -> random_ready r = true ->
  exists r', random_bytes now tsc now' n r = Done ((gen_bytes now tsc now' n g).1, r') /\
    sim r' (gen_bytes now tsc now' n g).2 /\ random_ready r' = true.
Proof.
  intros Hs Hr. unfold random_bytes, gen_bytes. rewrite (KASSERT_true _ _ _ Hr).
  pose proof Hs as (_ & _ & <- & _).
  set (c := RANDOM_RESEED_MS <=? w64 (now - random_last_ms r)).
  set (r1 := if c then reseed_locked tsc now' r else r).
  set (g1 := if c then gen_reseed tsc now' g else g).
  assert (sim r1 g1 /\ random_ready r1 = true) as [(Hp & Hk & Hl & Hi & Hn) Hr1].
  { unfold r1, g1. destruct c; [|auto]. split; [apply sim_reseed, Hs|exact Hr]. }
  rewrite <- Hk. eexists. split.
  - rewrite (expand_stream n _ 0 n) by lia. reflexivity.
  - split; [|exact Hr1]. split; [exact Hp|]. auto.
Qed.

Lemma sim_do op r g : sim r g -> random_ready r = true ->
  exists r', random_do op r = Done ((gen_do op g).1, r') /\
    sim r' (gen_do op g).2 /\ random_ready r' = true.
Proof.
  intros Hs Hr. destruct op as [id tsc vector rip|buf|now tsc now' n];
    cbn [random_do gen_do fst snd].
  - eexists. split; [reflexivity|]. split; [apply sim_intr, Hs|].
    unfold random_intr. by destruct (_ <=? _)%nat.
  - eexists. split; [reflexivity|]. split; [apply sim_add, Hs|exact Hr].
  - by apply sim_bytes.
Qed.

Lemma sim_run ops : forall r g, sim r g -> random_ready r = true ->
  random_run ops r = Done (gen_run ops g).
Proof.
  induction ops as [|op ops IH]; intros r g Hs Hr; [reflexivity|].
  destruct (sim_do op r g Hs Hr) as (r' & Hdo & Hs' & Hr').
  cbn [random_run gen_run]. rewrite Hdo, bind_Done, (IH _ _ Hs' Hr'), bind_Done.
  by destruct (gen_do op g).
Qed.

(** ** Boot *)

Lemma pool_rdrand_words m l : forall s hw D, pool_sim s [] D ->
  pool_sim (fold_left (fun '(s, hw) i =>
      match m_rdrand m i with
      | Some w => (blake2s_update s (bytes_le64 w), hw + 1)
      | None => (s, hw)
      end) l (s, hw)).1 []
    (D ++ concat (map (fun i => match m_rdrand m i with
                                | Some w => bytes_le64 w | None => [] end) l)).
Proof.
  induction l as [|i l IH]; intros s hw D Hs; [by rewrite app_nil_r|].
  rewrite fold_left_cons. cbn [map concat].
  destruct (m_rdrand m i) as [w|]; [|apply IH, Hs].
  rewrite (assoc_L (++)). apply IH, pool_update, Hs.
Qed.

Lemma pool_rdrand m s D : pool_sim s [] D ->
  pool_sim (gather_rdrand m s).1 [] (D ++ boot_rdrand m).
Proof.
  intros Hs. unfold gather_rdrand, boot_rdrand. destruct (Z.testbit _ _).
  - by apply pool_rdrand_words.
  - by rewrite app_nil_r.
Qed.

Definition jitter_sim (a : blake2s * Z * list Z) (b : list Z * Z * list Z) : Prop :=
  pool_sim a.1.1 [] b.1.1 /\ a.1.2 = b.1.2 /\ a.2 = b.2.

Lemma jitter_step_sim m a b i :
  jitter_sim a b -> jitter_sim (jitter_step m a i) (jitter_pure m b i).
Proof.
  destruct a as [[s acc] sc], b as [[D acc'] sc']. intros (Hp & Ha & Hs).
  cbn [fst snd] in Hp, Ha, Hs. subst acc' sc'.
  unfold jitter_step, jitter_pure, jitter_sim. cbn [fst snd].
  split; [|auto]. destruct (_ =? 63); [apply pool_update, Hp|exact Hp].
Qed.

Lemma jitter_fold_sim m l : forall a b, jitter_sim a b ->
  jitter_sim (fold_left (jitter_step m) l a) (fold_left (jitter_pure m) l b).
Proof.
  induction l as [|i l IH]; intros a b H; [exact H|].
  rewrite !fold_left_cons. apply IH, jitter_step_sim, H.
Qed.

Lemma gather_boot_rfc m : gather_boot m = rfc7693 32 [] (boot_data m).
Proof.
  unfold gather_boot, boot_data.
  pose proof (pool_rdrand m _ [] (pool_init [] ltac:(cbn; lia))) as Hp.
  destruct (gather_rdrand m (blake2s_init 32 [])) as [s hw]. cbn [fst] in Hp.
  rewrite app_nil_l in Hp.
  apply (pool_update _ _ _ (bytes_le64 (m_tsc m 0%nat))),
    (pool_update _ _ _ (bytes_le64 (m_wall m))) in Hp.
  rewrite <- (assoc_L (++)) in Hp.
  pose proof (jitter_fold_sim m (seq 0 RANDOM_JITTER)
    (blake2s_update (blake2s_update s (bytes_le64 (m_tsc m 0%nat))) (bytes_le64 (m_wall m)),
     0, map Z.of_nat (seq 0 (Z.to_nat 256)))
    (boot_rdrand m ++ bytes_le64 (m_tsc m 0%nat) ++ bytes_le64 (m_wall m), 0,
     map Z.of_nat (seq 0 (Z.to_nat 256))) (conj Hp (conj eq_refl eq_refl))) as Hj.
  destruct (fold_left (jitter_step m) _ _) as [[s' acc] sc].
  destruct (fold_left (jitter_pure m) _ _) as [[D acc'] sc'].
  destruct Hj as (Hp' & _ & Hsc). cbn [fst snd] in Hp', Hsc. subst sc'.
  apply pool_final, pool_update, Hp'.
Qed.

Lemma sim_boot m r :
  sim (reseed_locked (m_tsc m (2 * RANDOM_JITTER + 1)%nat) (m_now m 0%nat)
         (Random (blake2s_update (blake2s_init 32 []) (gather_boot m)) (random_key r)
            (random_last_ms r) (random_ready r) (random_irq r) (random_irq_n r)))
      (gen_boot m r).
Proof.
  rewrite gather_boot_rfc.
  apply (sim_reseed _ _ _ (Gen [] (rfc7693 32 [] (boot_data m)) (random_key r)
    (random_last_ms r) (random_irq r) (random_irq_n r))).
  split; [|auto]. cbn [random_pool g_base g_data].
  apply (pool_update _ _ []), pool_init. cbn; lia.
Qed.

Lemma random_init_sim m r :
  let tsc i := m_tsc m (2 * RANDOM_JITTER + 1 + i)%nat in
  let g1 := (gen_bytes (m_now m 1%nat) (tsc 1%nat) (m_now m 2%nat) 32 (gen_boot m r)).2 in
  let g2 := (gen_bytes (m_now m 3%nat) (tsc 2%nat) (m_now m 4%nat) 32 g1).2 in
  exists pass r', random_init m r = Done (pass, r') /\ sim r' g2 /\ random_ready r' = true.
Proof.
  cbv zeta. unfold random_init. cbv zeta. rewrite Nat.add_0_r.
  pose proof (sim_boot m r) as (Hp & Hk & Hl & Hi & Hn).
  set (r0 := reseed_locked _ _ _) in *.
  assert (sim (Random (random_pool r0) (random_key r0) (random_last_ms r0) true
                 (random_irq r0) (random_irq_n r0)) (gen_boot m r)) as Hs
    by (split; [exact Hp|auto]).
  destruct (sim_bytes (m_now m 1%nat) (m_tsc m (2 * RANDOM_JITTER + 1 + 1)%nat)
    (m_now m 2%nat) 32 _ _ Hs eq_refl) as (r1 & -> & Hs1 & Hr1).
  rewrite bind_Done. cbv beta iota.
  destruct (sim_bytes (m_now m 3%nat) (m_tsc m (2 * RANDOM_JITTER + 1 + 2)%nat)
    (m_now m 4%nat) 32 _ _ Hs1 Hr1) as (r2 & -> & Hs2 & Hr2).
  rewrite bind_Done. eauto.
Qed.

Lemma random_session_gen m r ops : random_session m r ops = Done (gen_session m r ops).
Proof.
  destruct (random_init_sim m r) as (pass & r' & Hi & Hs & Hr).
  unfold random_session, gen_session. rewrite Hi, bind_Done, (sim_run ops _ _ Hs Hr).
  cbn [gen_run gen_do].
  destruct (gen_bytes _ _ _ 32 (gen_boot m r)) as [a g1]. cbn [snd].
  destruct (gen_bytes _ _ _ 32 g1) as [b g2]. reflexivity.
Qed.

(** * Types: every word and byte in range *)

Definition u32 (x : Z) : Prop := 0 <= x < 2 ^ 32.
Definition byte (x : Z) : Prop := 0 <= x < 2 ^ 8.

Lemma bits_range n x : 0 <= n -> 0 <= x -> (forall i, n <= i -> Z.testbit x i = false) ->
  0 <= x < 2 ^ n.
Proof.
  intros Hn Hx Hb. split; [assumption|].
  destruct (decide (x = 0)) as [-> |Hne]; [lia|].
  apply Z.log2_lt_pow2; [lia|]. destruct (Z.lt_ge_cases (Z.log2 x) n) as [|Hge]; [assumption|].
  pose proof (Z.bit_log2 x ltac:(lia)) as H1. rewrite Hb in H1 by assumption. discriminate.
Qed.

Lemma high_bit n x i : 0 <= x < 2 ^ n -> n <= i -> Z.testbit x i = false.
Proof.
  intros Hx Hi. destruct (decide (x = 0)) as [-> |]; [apply Z.bits_0|].
  apply Z.bits_above_log2; [lia|].
  enough (Z.log2 x < n) by lia. apply Z.log2_lt_pow2; lia.
Qed.

Lemma lxor_range n a b : 0 <= n -> 0 <= a < 2 ^ n -> 0 <= b < 2 ^ n -> 0 <= Z.lxor a b < 2 ^ n.
Proof.
  intros Hn Ha Hb. apply bits_range; [assumption|apply Z.lxor_nonneg; lia|].
  intros i Hi. by rewrite Z.lxor_spec, (high_bit n a), (high_bit n b).
Qed.

Lemma lor_range n a b : 0 <= n -> 0 <= a < 2 ^ n -> 0 <= b < 2 ^ n -> 0 <= Z.lor a b < 2 ^ n.
Proof.
  intros Hn Ha Hb. apply bits_range; [assumption|apply Z.lor_nonneg; lia|].
  intros i Hi. by rewrite Z.lor_spec, (high_bit n a), (high_bit n b).
Qed.

Lemma shiftr_range n a k : 0 <= k -> 0 <= a < 2 ^ n -> 0 <= Z.shiftr a k < 2 ^ n.
Proof.
  intros Hk Ha. rewrite Z.shiftr_div_pow2 by assumption.
  split; [apply Z.div_pos; lia|].
  apply Z.le_lt_trans with a; [|lia]. apply Z.div_le_upper_bound; nia.
Qed.

Lemma w32_range x : u32 (w32 x).
Proof. apply Z.mod_pos_bound. lia. Qed.

Lemma lxor_u32 a b : u32 a -> u32 b -> u32 (Z.lxor a b).
Proof. apply lxor_range. lia. Qed.

Lemma ror32_u32 v n : 0 <= n -> u32 v -> u32 (ror32 v n).
Proof.
  intros Hn Hv. apply lor_range; [lia|by apply shiftr_range|apply w32_range].
Qed.

Lemma rol32_u32 v n : n <= 32 -> u32 v -> u32 (rol32 v n).
Proof.
  intros Hn Hv. apply lor_range; [lia|apply w32_range|apply shiftr_range; [lia|exact Hv]].
Qed.

Lemma total_u32 v i : Forall u32 v -> u32 (v !!! i).
Proof.
  intros H. rewrite list_lookup_total_alt.
  destruct (v !! i) as [x|] eqn:E; [|unfold u32; cbn; lia].
  exact (Forall_lookup_1 _ _ _ _ H E).
Qed.

Ltac words := repeat first
  [ assumption | apply Forall_insert | apply w32_range | apply lxor_u32
  | apply ror32_u32; [lia|] | apply rol32_u32; [lia|] | apply total_u32 ].

(** Walk through a chain of updates of a work vector, one binding at a time. *)
Ltac word_steps :=
  repeat lazymatch goal with
  | |- Forall u32 (let v := ?e in _) =>
      let H := fresh in assert (H : Forall u32 e) by words;
      revert H; generalize e; cbv beta iota; intros ? ?
  end; words.

Lemma B2S_G_u32 a b c d x y v : Forall u32 v -> Forall u32 (B2S_G a b c d x y v).
Proof. intros Hv. unfold B2S_G. word_steps. Qed.

Lemma CHACHA_QR_u32 a b c d x : Forall u32 x -> Forall u32 (CHACHA_QR a b c d x).
Proof. intros Hx. unfold CHACHA_QR. word_steps. Qed.

Lemma round_u32 m v g : Forall u32 v -> Forall u32 (blake2s_round m v g).
Proof. intros Hv. unfold blake2s_round. cbv zeta. by repeat apply B2S_G_u32. Qed.

Lemma rounds_u32 m l : forall v, Forall u32 v -> Forall u32 (fold_left (blake2s_round m) l v).
Proof.
  induction l as [|g l IH]; intros v Hv; [exact Hv|].
  rewrite fold_left_cons. apply IH, round_u32, Hv.
Qed.

Lemma iv_u32 : Forall u32 blake2s_iv.
Proof. unfold blake2s_iv, u32. repeat constructor; lia. Qed.

Lemma map_Forall {A B} (P : B -> Prop) (f : A -> B) l : (forall x, P (f x)) -> Forall P (map f l).
Proof. intros H. induction l; constructor; auto. Qed.

Transparent compress_h chacha20_block.

Lemma compress_u32 h t0 t1 block last : Forall u32 h -> u32 t0 -> u32 t1 ->
  Forall u32 (compress_h h t0 t1 block last).
Proof.
  intros Hh H0 H1. unfold compress_h.
  assert (Forall u32 (h ++ blake2s_iv)) as Hv by (apply Forall_app; split; [|apply iv_u32]; auto).
  revert Hv. generalize (h ++ blake2s_iv). intros v Hv. cbv zeta.
  assert (Forall u32 (<[13%nat := Z.lxor (<[12%nat := Z.lxor (v !!! 12%nat) t0]> v !!! 13%nat) t1]>
    (<[12%nat := Z.lxor (v !!! 12%nat) t0]> v))) as Hv2 by words.
  revert Hv2. generalize (<[13%nat := Z.lxor (<[12%nat := Z.lxor (v !!! 12%nat) t0]> v !!! 13%nat) t1]>
    (<[12%nat := Z.lxor (v !!! 12%nat) t0]> v)). intros w Hw.
  apply map_Forall. intros i.
  apply lxor_u32; [by apply total_u32|].
  assert (Forall u32 (if last then <[14%nat := Z.lxor (w !!! 14%nat) 4294967295]> w else w)) as Hx.
  { destruct last; [|exact Hw]. words. unfold u32. lia. }
  apply lxor_u32; apply total_u32, rounds_u32, Hx.
Qed.

Lemma chacha_u32 k i : Forall u32 (chacha20_block k i).
Proof. unfold chacha20_block. apply map_Forall. intros. apply w32_range. Qed.

#[global] Opaque compress_h chacha20_block.
Transparent blake2s_init blake2s_update blake2s_final bytes_le64.

(** A hash state whose fields have the types the structure gives them. *)
Definition blake2s_wf (s : blake2s) : Prop :=
  stream_ok s /\ length (b_h s) = 8%nat /\ Forall u32 (b_h s) /\ Forall byte (b_buf s).

Lemma splice_byte buf k p : Forall byte buf -> Forall byte p -> Forall byte (splice buf k p).
Proof.
  intros Hb Hp. unfold splice. rewrite !Forall_app.
  split; [by apply Forall_take|]. split; [exact Hp|by apply Forall_drop].
Qed.

Lemma zeros_byte n : Forall byte (zeros n).
Proof. apply Forall_replicate. unfold byte. lia. Qed.

Lemma compress_wf s block last :
  blake2s_wf s -> blake2s_wf (blake2s_compress s block last).
Proof.
  intros (Hok & Hl & Hh & Hb). pose proof Hok as (_ & _ & H0 & H1).
  split; [exact Hok|]. unfold blake2s_compress; cbn [b_h b_buf].
  split; [apply compress_h_length|]. split; [by apply compress_u32|exact Hb].
Qed.

Lemma count_wf s n : 0 <= n < 2 ^ 32 -> blake2s_wf s -> blake2s_wf (blake2s_count s n).
Proof.
  intros Hn (Hok & Hrest). split; [by apply count_tval|exact Hrest].
Qed.

Lemma flush_wf s : blake2s_wf s -> blake2s_wf (flush s) /\ (b_len (flush s) < 64)%nat.
Proof.
  intros Hs. unfold flush. destruct (Nat.eqb_spec (b_len s) 64) as [H64|Hne].
  - split; [|cbn; lia].
    pose proof (compress_wf _ (b_buf (blake2s_count s 64)) false
      (count_wf s 64 ltac:(lia) Hs)) as ((Hbl & _ & Ht) & Hrest).
    split; [|exact Hrest]. split; [exact Hbl|]. split; [cbn; lia|exact Ht].
  - split; [exact Hs|]. destruct Hs as ((_ & Hl & _) & _). lia.
Qed.

Lemma update_loop_wf fuel : forall s p, blake2s_wf s -> Forall byte p ->
  blake2s_wf (update_loop fuel s p).
Proof.
  induction fuel as [|fuel IH]; intros s p Hs Hp; [exact Hs|].
  destruct p as [|x p]; [exact Hs|]. cbn [update_loop]. fold (flush s).
  destruct (flush_wf s Hs) as [((Hb & Hl & Ht) & H8 & Hh & Hbuf) Hlt].
  set (n := if (length (x :: p) <? 64 - b_len (flush s))%nat then length (x :: p)
            else (64 - b_len (flush s))%nat).
  assert (n <= 64 - b_len (flush s))%nat as Hn.
  { unfold n. destruct (Nat.ltb_spec (length (x :: p)) (64 - b_len (flush s))); lia. }
  apply IH; [|by apply Forall_drop].
  split; [split; [|split; [cbn; lia|exact Ht]]|split; [exact H8|split; [exact Hh|]]].
  - cbn [b_buf]. rewrite splice_length; [exact Hb|]. rewrite length_take. lia.
  - cbn [b_buf]. apply splice_byte; [exact Hbuf|by apply Forall_take].
Qed.

Lemma update_wf s p : blake2s_wf s -> Forall byte p -> blake2s_wf (blake2s_update s p).
Proof. apply update_loop_wf. Qed.

Lemma init_wf outlen key : (length key <= 32)%nat -> (outlen <= 32)%nat -> Forall byte key ->
  blake2s_wf (blake2s_init outlen key).
Proof.
  intros Hk Ho Hb. split; [by apply (init_ok outlen key []); lia|].
  assert (Forall u32 (rfc_h0 outlen (length key))) as Hh.
  { unfold rfc_h0. apply Forall_insert; [apply iv_u32|]. words.
    - apply iv_u32.
    - unfold u32. lia.
    - unfold u32. lia. }
  unfold blake2s_init. fold (rfc_h0 outlen (length key)).
  destruct (_ =? 0)%nat; cbn [b_h b_buf].
  - split; [reflexivity|]. split; [exact Hh|apply zeros_byte].
  - split; [reflexivity|]. split; [exact Hh|]. apply splice_byte; [apply zeros_byte|exact Hb].
Qed.

Lemma put_le32_byte v : Forall byte (put_le32 v).
Proof. unfold put_le32. repeat constructor; apply w8_range. Qed.

Lemma words_bytes_byte ws : Forall byte (words_bytes ws).
Proof.
  unfold words_bytes. induction ws as [|w ws IH]; cbn [map concat]; [constructor|].
  apply Forall_app. split; [apply put_le32_byte|exact IH].
Qed.

Lemma bytes_le64_byte w : Forall byte (bytes_le64 w).
Proof. apply map_Forall. intros. apply w8_range. Qed.

Lemma rfc_blocks_length f : forall h t D, length (rfc_blocks f h t D) = 8%nat.
Proof.
  induction f as [|f IH]; intros h t D; cbn [rfc_blocks]; [apply compress_h_length|].
  destruct (_ <=? _)%nat; [apply compress_h_length|apply IH].
Qed.

Lemma final_wf s : blake2s_wf s -> (b_outlen s <= 32)%nat ->
  length (blake2s_final s).1 = b_outlen s /\ Forall byte (blake2s_final s).1.
Proof.
  intros (Hok & _) Ho. rewrite final_ok by assumption. split.
  - rewrite length_take, words_bytes_length. unfold digest. rewrite rfc_blocks_length. lia.
  - apply Forall_take, words_bytes_byte.
Qed.

Lemma update_outlen s p : blake2s_wf s -> b_outlen (blake2s_update s p) = b_outlen s.
Proof. intros (Hok & _). apply (update_ok s p [] Hok). Qed.

Lemma init_outlen n key : b_outlen (blake2s_init n key) = n.
Proof. unfold blake2s_init. by destruct (_ =? 0)%nat. Qed.

#[global] Opaque blake2s_init blake2s_update blake2s_final bytes_le64.

Lemma derive_wf seed label : length seed = 32%nat -> Forall byte seed ->
  length (derive seed label) = 32%nat /\ Forall byte (derive seed label).
Proof.
  intros Hl Hb. unfold derive.
  pose proof (init_wf 32 seed ltac:(lia) ltac:(lia) Hb) as Hi.
  pose proof (update_wf _ _ Hi (bytes_le64_byte label)) as Hu.
  assert (b_outlen (blake2s_update (blake2s_init 32 seed) (bytes_le64 label)) = 32%nat) as Ho
    by (rewrite update_outlen, init_outlen; auto).
  destruct (final_wf _ Hu ltac:(lia)) as [Hfl Hfb]. rewrite Ho in Hfl. auto.
Qed.

Lemma le32_u32 p i : Forall byte p -> u32 (le32 p i).
Proof.
  intros Hp. assert (forall j k, 0 <= k <= 24 -> u32 (Z.shiftl (p !!! j) k)) as H.
  { intros j k Hk. assert (byte (p !!! j)) as [? ?].
    { rewrite list_lookup_total_alt. destruct (p !! j) as [x|] eqn:E; [|unfold byte; cbn; lia].
      exact (Forall_lookup_1 _ _ _ _ Hp E). }
    rewrite Z.shiftl_mul_pow2 by lia. unfold u32.
    pose proof (Z.pow_le_mono_r 2 k 24 ltac:(lia) ltac:(lia)).
    pose proof (Z.pow_pos_nonneg 2 k). change (2 ^ 32) with (2 ^ 8 * 2 ^ 24). nia. }
  unfold le32. specialize (H i 0 ltac:(lia)) as H0. rewrite Z.shiftl_0_r in H0.
  repeat apply lor_range; try lia; auto; apply H; lia.
Qed.

(** The generator's variables have their types. *)
Definition random_wf (r : random) : Prop :=
  blake2s_wf (random_pool r) /\ b_outlen (random_pool r) = 32%nat /\
  length (random_key r) = 8%nat /\ Forall u32 (random_key r) /\
  u64 (random_last_ms r) /\
  length (random_irq r) = MAXCPU /\ Forall u64 (random_irq r) /\
  length (random_irq_n r) = MAXCPU /\ Forall u64 (random_irq_n r).

(** The inputs of an operation have theirs. *)
Definition rop_wf (op : rop) : Prop :=
  match op with
  | OpIntr _ tsc vector rip => u64 tsc /\ u64 vector /\ u64 rip
  | OpAdd buf => Forall byte buf
  | OpBytes now tsc now' _ => u64 now /\ u64 tsc /\ u64 now'
  end.

Lemma irqs_wf irq : forall s, blake2s_wf s -> b_outlen s = 32%nat ->
  let s' := fold_left (fun s w => blake2s_update s (bytes_le64 w)) irq s in
  blake2s_wf s' /\ b_outlen s' = 32%nat.
Proof.
  induction irq as [|w irq IH]; intros s Hs Ho; [auto|].
  rewrite fold_left_cons. apply IH; [apply update_wf, bytes_le64_byte; exact Hs|].
  by rewrite update_outlen.
Qed.

Lemma key_words_wf key : Forall byte key ->
  length (key_words key) = 8%nat /\ Forall u32 (key_words key).
Proof. intros H. split; [reflexivity|]. apply map_Forall. intros. by apply le32_u32. Qed.

Lemma reseed_wf tsc now r : u64 now -> random_wf r -> random_wf (reseed_locked tsc now r).
Proof.
  intros Hnow (Hp & Ho & _ & _ & _ & Hirq). unfold reseed_locked.
  destruct (irqs_wf (random_irq r) _ Hp Ho) as [Hp1 Ho1].
  set (p1 := fold_left _ _ _) in *.
  pose proof (update_wf _ _ Hp1 (bytes_le64_byte tsc)) as Hp2.
  pose proof (update_outlen _ (bytes_le64 tsc) Hp1) as Ho2. rewrite Ho1 in Ho2.
  destruct (final_wf _ Hp2 ltac:(lia)) as [Hfl Hfb]. rewrite Ho2 in Hfl.
  destruct (derive_wf _ 0 Hfl Hfb) as [Hnl Hnb].
  destruct (derive_wf _ 1 Hfl Hfb) as [_ Hkb].
  destruct (key_words_wf _ Hkb) as [Hkl Hk32].
  unfold random_wf; cbn [random_pool random_key random_last_ms random_irq random_irq_n].
  split; [apply init_wf; [lia|lia|exact Hnb]|]. split; [apply init_outlen|].
  split; [exact Hkl|]. split; [exact Hk32|]. split; [exact Hnow|exact Hirq].
Qed.

Lemma intr_wf id tsc vector rip r : random_wf r -> random_wf (random_intr id tsc vector rip r).
Proof.
  intros (Hp & Ho & Hk & Hk32 & Hl & Hi & Hi64 & Hn & Hn64). unfold random_intr.
  destruct (_ <=? _)%nat; unfold random_wf;
    cbn [random_pool random_key random_last_ms random_irq random_irq_n].
  - auto 10.
  - rewrite !length_insert. repeat (split; [assumption|]).
    split; [|split; [exact Hn|]]; (apply Forall_insert; [assumption|apply w64_range]).
Qed.

Lemma expand_wf fuel k : forall ctr n, (n <= fuel)%nat ->
  length (expand fuel k ctr n) = n /\ Forall byte (expand fuel k ctr n).
Proof.
  induction fuel as [|fuel IH]; intros ctr n Hn; cbn [expand].
  { split; [cbn; lia|constructor]. }
  destruct (Nat.eqb_spec n 0) as [-> |H0]; [split; [reflexivity|constructor]|].
  set (m := if (n <? 64)%nat then n else 64%nat).
  assert (0 < m <= n)%nat by (unfold m; destruct (Nat.ltb_spec n 64); lia).
  destruct (IH (w64 (ctr + 1)) (n - m)%nat ltac:(lia)) as [Hl Hb].
  rewrite length_app, length_map, length_seq, Hl. split; [lia|].
  apply Forall_app. split; [|exact Hb]. apply map_Forall. intros. apply w8_range.
Qed.

Lemma bytes_wf now tsc now' n r out r' :
  u64 now' -> random_wf r -> random_bytes now tsc now' n r = Done (out, r') ->
  random_wf r' /\ length out = n /\ Forall byte out.
Proof.
  intros Hnow Hr. unfold random_bytes. intros H. apply KASSERT_inv in H as [_ H].
  set (r1 := if _ <=? _ then _ else r) in H.
  assert (random_wf r1) as (Hp & Ho & _ & _ & Hl & Hi)
    by (unfold r1; destruct (_ <=? _); [by apply reseed_wf|exact Hr]).
  injection H as <- <-. split; [|apply expand_wf; lia].
  unfold random_wf; cbn [random_pool random_key random_last_ms random_irq random_irq_n].
  repeat (split; [assumption|]).
  split; [rewrite length_take, chacha_length; lia|].
  split; [apply Forall_take, chacha_u32|]. split; [exact Hl|exact Hi].
Qed.

Lemma random_do_wf op r out r' : rop_wf op -> random_wf r -> random_do op r = Done (out, r') ->
  random_wf r' /\ Forall byte out /\
  length out = match op with OpBytes _ _ _ n => n | _ => O end.
Proof.
  intros Hop Hr H. destruct op as [id tsc vector rip|buf|now tsc now' n]; cbn [random_do] in H.
  - injection H as <- <-. split; [by apply intr_wf|]. split; [constructor|reflexivity].
  - injection H as <- <-. destruct Hr as (Hp & Ho & Hrest).
    split; [|split; [constructor|reflexivity]].
    split; [apply update_wf; [exact Hp|exact Hop]|].
    split; [by cbn [random_add random_pool]; rewrite update_outlen|exact Hrest].
  - destruct Hop as (_ & _ & Hnow). destruct (bytes_wf _ _ _ _ _ _ _ Hnow Hr H) as (H1 & H2 & H3).
    auto.
Qed.

(** * The properties *)

(** [C24] The streaming hash is RFC 7693's: however a message is cut into
    updates, empty ones included, [blake2s_init], the [blake2s_update]s and
    [blake2s_final] give the one-shot keyed hash of the whole message. *)
Theorem blake2s_streams_rfc (outlen : nat) (key : list Z) (chunks : list (list Z)) :
  (length key <= 32)%nat ->
  hash_chunks outlen key chunks = rfc7693 outlen key (concat chunks).
Proof. intros H. apply hash_chunks_rfc. lia. Qed.

Lemma blake2s_streams_rfc_witness :
  hash_chunks 32 [] [[0x61]; []; [0x62; 0x63]] = rfc7693 32 [] [0x61; 0x62; 0x63] /\
  rfc7693 32 [] [0x61; 0x62; 0x63] = kat_abc.
Proof.
  split; [|vm_compute; reflexivity].
  apply (blake2s_streams_rfc 32 [] [[0x61]; []; [0x62; 0x63]]). cbn. lia.
Defined.

(** The primitives answer the vectors their RFCs publish: the boot
    self-test of BLAKE2s, plain and keyed, and of the ChaCha20 block passes. *)
Theorem random_kat_passes : random_kat = true.
Proof. vm_compute. reflexivity. Qed.

(** [C15] The generator refines its abstract contract: booted on any machine,
    [random_init] and every later sequence of interrupts, additions and
    requests return without panicking exactly what the abstract generator
    gives, which hashes all bytes gathered since the last reseed under a key
    derived from the previous seed, and answers each request with a prefix
    of a key stream of its own. *)
Theorem random_refines (m : machine) (r : random) (ops : list rop) :
  random_session m r ops = Done (gen_session m r ops).
Proof. exact (random_session_gen m r ops). Qed.


Definition seeded : random :=
  Random (blake2s_init 32 (zeros 32)) (zeros 8) 0 true (zeros MAXCPU) (zeros MAXCPU).

Lemma seeded_wf : random_wf seeded.
Proof.
  unfold random_wf, seeded; cbn [random_pool random_key random_last_ms random_irq random_irq_n].
  split; [apply init_wf; [cbn; lia|lia|apply zeros_byte]|]. split; [apply init_outlen|].
  unfold zeros, u32, u64.
  repeat split; try reflexivity; try lia; apply Forall_replicate; lia.
Qed.

