(* ===== verification/Witness.v ===== *)
(** The lock-order checker of kern/witness.c: the table of lock classes, the
    matrix of observed orders, each thread's stack of held locks, and the two
    hooks that spin_lock and spin_unlock call.

    A run of the kernel is a sequence of acquisitions and releases by
    threads; each hook runs with interrupts off and is one step.  The checker
    is compared with a specification that keeps every order ever observed. *)

From stdpp Require Import base list gmap numbers option strings.
From Stdlib Require Import ZArith Lia ZifyBool.
From S2P Require Import Prelude.

Definition WITNESS_MAX_CLASSES : nat := 48.
Definition THREAD_HELD_LOCKS_MAX : nat := 8.

(** A class is a name pointer; a lock without a name is in the class of the
    checker's own literal. *)
Inductive cname := Anon | Named (p : Z).

#[global] Instance cname_eq_dec : EqDecision cname.
Proof. solve_decision. Defined.
#[global] Instance cname_countable : Countable cname.
Proof.
  refine (inj_countable' (fun n => match n with Anon => None | Named p => Some p end)
    (fun o => match o with None => Anon | Some p => Named p end) _).
  by intros [].
Defined.

Definition lock_name (sl_name : option Z) : cname :=
  match sl_name with None => Anon | Some p => Named p end.

(** One entry of a thread's stack of held locks. *)
Record held := Held { wh_name : cname; wh_ra : Z }.

Record witness := Witness {
  witness_classes : list cname;
  witness_edges : gset (nat * nat);
  th_held : gmap nat (list held)
}.

Definition witness_boot : witness := Witness [] ∅ ∅.

Definition held_of (w : witness) (t : nat) : list held := default [] (th_held w !! t).

Definition set_held (w : witness) (t : nat) (l : list held) : witness :=
  Witness (witness_classes w) (witness_edges w) (<[t := l]> (th_held w)).

(** [class_find]: the index of the name in the published classes, from [i]. *)
Fixpoint class_find (name : cname) (l : list cname) (i : nat) : option nat :=
  match l with
  | [] => None
  | c :: l => if decide (c = name) then Some i else class_find name l (S i)
  end.

(** [class_of]: registers the name on first sight; [None] when full. *)
Definition class_of (name : cname) (w : witness) : option nat * witness :=
  match class_find name (witness_classes w) 0 with
  | Some id => (Some id, w)
  | None =>
      let n := length (witness_classes w) in
      if (n <? WITNESS_MAX_CLASSES)%nat
      then (Some n, Witness (witness_classes w ++ [name]) (witness_edges w) (th_held w))
      else (None, w)
  end.

(** The loop of [witness_acquired] over the held locks. *)
Fixpoint check_held (new_class : nat) (l : list held) (w : witness) : res witness :=
  match l with
  | [] => Done w
  | h :: l =>
      let '(held_class, w) := class_of (wh_name h) w in
      match held_class with
      | None => check_held new_class l w
      | Some c =>
          if decide (c = new_class) then check_held new_class l w
          else if decide ((new_class, c) ∈ witness_edges w)
          then Panic "witness: lock-order cycle"
          else check_held new_class l
                 (Witness (witness_classes w) ({[(c, new_class)]} ∪ witness_edges w) (th_held w))
      end
  end.

(** [witness_acquired] on thread [me], none before the scheduler runs. *)
Definition witness_acquired (me : option nat) (sl_name : option Z) (ra : Z) (w : witness) :
    res witness :=
  match me with
  | None => Done w
  | Some t =>
      let new_name := lock_name sl_name in
      let '(new_class, w) := class_of new_name w in
      match new_class with
      | None => Done w
      | Some n =>
          w ← check_held n (held_of w t) w;
          if (length (held_of w t) <? THREAD_HELD_LOCKS_MAX)%nat
          then Done (set_held w t (held_of w t ++ [Held new_name ra]))
          else Done w
      end
  end.

(** The scan of [witness_released] from the top of the stack: the entries
    above the one found move down.  [i] counts the entries still to look at. *)
Fixpoint remove_from_top (name : cname) (i : nat) (l : list held) : list held :=
  match i with
  | O => l
  | S i =>
      match l !! i with
      | Some h => if decide (wh_name h = name) then take i l ++ drop (S i) l
                  else remove_from_top name i l
      | None => remove_from_top name i l
      end
  end.

Definition witness_released (me : option nat) (sl_name : option Z) (w : witness) : witness :=
  match me with
  | None => w
  | Some t =>
      let name := lock_name sl_name in
      let l := held_of w t in
      let n := length l in
      if (n =? 0)%nat then w
      else
        match l !! (n - 1)%nat with
        | Some h =>
            if decide (wh_name h = name) then set_held w t (take (n - 1) l)
            else set_held w t (remove_from_top name n l)
        | None => w
        end
  end.

(** * Runs *)

Inductive wev :=
| Acquire (me : option nat) (sl_name : option Z) (ra : Z)
| Release (me : option nat) (sl_name : option Z).

Definition witness_do (e : wev) (w : witness) : res witness :=
  match e with
  | Acquire me sl ra => witness_acquired me sl ra w
  | Release me sl => Done (witness_released me sl w)
  end.

Fixpoint witness_run (es : list wev) (w : witness) : res witness :=
  match es with
  | [] => Done w
  | e :: es => w ← witness_do e w; witness_run es w
  end.

(** * The specification: every order ever observed *)

Record spec := Spec {
  s_held : gmap nat (list cname);
  s_orders : gset (cname * cname)
}.

Definition spec_boot : spec := Spec ∅ ∅.

Definition s_held_of (s : spec) (t : nat) : list cname := default [] (s_held s !! t).

(** A release drops the most recent acquisition of the class. *)
Fixpoint drop_last (n : cname) (l : list cname) : list cname :=
  match l with
  | [] => []
  | c :: l => if decide (n ∈ l) then c :: drop_last n l
              else if decide (c = n) then l else c :: l
  end.

Definition new_orders (l : list cname) (n : cname) : gset (cname * cname) :=
  list_to_set (map (fun h => (h, n)) (filter (fun h => h <> n) l)).

Definition spec_do (e : wev) (s : spec) : spec :=
  match e with
  | Acquire (Some t) sl _ =>
      let n := lock_name sl in
      Spec (<[t := s_held_of s t ++ [n]]> (s_held s)) (new_orders (s_held_of s t) n ∪ s_orders s)
  | Release (Some t) sl =>
      Spec (<[t := drop_last (lock_name sl) (s_held_of s t)]> (s_held s)) (s_orders s)
  | _ => s
  end.

Definition spec_run (es : list wev) (s : spec) : spec := fold_left (fun s e => spec_do e s) es s.

(** Two classes taken in both orders. *)
Definition inverted (s : spec) : Prop :=
  exists a b, (a, b) ∈ s_orders s /\ (b, a) ∈ s_orders s.

(** The runs within the checker's tables: at most 48 classes, and no thread
    ever holds more than eight locks. *)
Definition ev_names (e : wev) : list cname :=
  match e with
  | Acquire (Some _) sl _ => [lock_name sl]
  | _ => []
  end.

Definition depth_ok (s : spec) : Prop :=
  forall t, (length (s_held_of s t) <= THREAD_HELD_LOCKS_MAX)%nat.

Definition fits (es : list wev) : Prop :=
  (size (list_to_set (concat (map ev_names es)) : gset cname) <= WITNESS_MAX_CLASSES)%nat /\
  forall k, depth_ok (spec_run (take k es) spec_boot).

(** * Releases *)

Lemma drop_last_snoc n l c :
  drop_last n (l ++ [c]) = if decide (c = n) then l else drop_last n l ++ [c].
Proof.
  induction l as [|a l IH]; cbn [app drop_last].
  - rewrite decide_False by (apply not_elem_of_nil). by destruct (decide (c = n)).
  - rewrite IH. destruct (decide (c = n)) as [-> |Hc].
    + rewrite decide_True by (apply elem_of_app; right; by apply list_elem_of_singleton). done.
    + destruct (decide (n ∈ l)) as [Hin|Hin].
      * rewrite decide_True by (apply elem_of_app; by left). done.
      * rewrite decide_False by (rewrite elem_of_app, list_elem_of_singleton; intros [?| ->]; done).
        by destruct (decide (a = n)).
Qed.

Lemma remove_from_top_spec name l i : (i <= length l)%nat ->
  wh_name <$> remove_from_top name i l =
  drop_last name (wh_name <$> take i l) ++ (wh_name <$> drop i l).
Proof.
  induction i as [|i IH]; intros Hi; cbn [remove_from_top].
  - by rewrite take_0, drop_0.
  - destruct (lookup_lt_is_Some_2 l i ltac:(lia)) as [h Hh]. rewrite Hh.
    rewrite (take_S_r _ _ _ Hh), fmap_app. cbn [fmap list_fmap]. rewrite drop_last_snoc.
    destruct (decide (wh_name h = name)); [by rewrite fmap_app|].
    rewrite IH by lia. rewrite (drop_S _ _ _ Hh), <- (assoc_L (++)). done.
Qed.

Lemma held_of_set w t l t' :
  held_of (set_held w t l) t' = if decide (t = t') then l else held_of w t'.
Proof.
  unfold held_of, set_held; cbn [th_held]. destruct (decide (t = t')) as [-> |Hne].
  - by rewrite lookup_insert_eq.
  - by rewrite lookup_insert_ne.
Qed.

Lemma released_names w t sl t' :
  wh_name <$> held_of (witness_released (Some t) sl w) t' =
  if decide (t = t') then drop_last (lock_name sl) (wh_name <$> held_of w t)
  else wh_name <$> held_of w t'.
Proof.
  unfold witness_released. set (l := held_of w t).
  destruct (Nat.eqb_spec (length l) 0) as [H0|Hne].
  { apply length_zero_iff_nil in H0. destruct (decide (t = t')) as [<- |]; [|done].
    fold l. by rewrite H0. }
  destruct (lookup_lt_is_Some_2 l (length l - 1) ltac:(lia)) as [h Hh]. rewrite Hh.
  assert (l = take (length l - 1) l ++ [h]) as Hl.
  { rewrite <- (take_S_r _ _ _ Hh). symmetry. apply take_ge. lia. }
  destruct (decide (wh_name h = lock_name sl)) as [He|He]; rewrite held_of_set;
    (destruct (decide (t = t')) as [_|]; [|done]).
  - assert (wh_name <$> l = (wh_name <$> take (length l - 1) l) ++ [wh_name h]) as ->
      by (rewrite Hl at 1; by rewrite fmap_app).
    by rewrite drop_last_snoc, decide_True.
  - rewrite remove_from_top_spec by lia.
    rewrite take_ge, drop_ge by lia. by rewrite app_nil_r.
Qed.

Lemma released_rest w me sl :
  witness_classes (witness_released me sl w) = witness_classes w /\
  witness_edges (witness_released me sl w) = witness_edges w.
Proof.
  destruct me as [t|]; [|done]. unfold witness_released.
  destruct (_ =? 0)%nat; [done|]. destruct (_ !! _) as [h|]; [|done].
  by destruct (decide _).
Qed.

(** * Classes *)

Lemma class_find_Some name l : forall i c,
  class_find name l i = Some c -> (i <= c)%nat /\ l !! (c - i)%nat = Some name.
Proof.
  induction l as [|a l IH]; intros i c; cbn [class_find]; [discriminate|].
  destruct (decide (a = name)) as [-> |].
  - intros [= <-]. split; [lia|]. by rewrite Nat.sub_diag.
  - intros H. destruct (IH _ _ H) as [Hle Hl]. split; [lia|].
    replace (c - i)%nat with (S (c - S i)) by lia. exact Hl.
Qed.

Lemma class_find_None name l : forall i, class_find name l i = None -> name ∉ l.
Proof.
  induction l as [|a l IH]; intros i; cbn [class_find]; [intros _; apply not_elem_of_nil|].
  destruct (decide (a = name)) as [-> |]; [discriminate|].
  intros H. apply IH in H. rewrite elem_of_cons. intros [-> |?]; done.
Qed.

(** A name already registered keeps its index and the table. *)
Lemma class_of_known name w :
  name ∈ witness_classes w ->
  exists c, class_of name w = (Some c, w) /\ witness_classes w !! c = Some name.
Proof.
  intros Hin. unfold class_of. destruct (class_find name _ 0) as [c|] eqn:E.
  - apply class_find_Some in E as [_ Hc]. rewrite Nat.sub_0_r in Hc. eauto.
  - by apply class_find_None in E.
Qed.

Lemma class_of_room name w :
  (length (witness_classes w) < WITNESS_MAX_CLASSES \/ name ∈ witness_classes w)%nat ->
  NoDup (witness_classes w) ->
  exists c w', class_of name w = (Some c, w') /\ witness_classes w' !! c = Some name /\
    (exists ext, witness_classes w' = witness_classes w ++ ext /\ ext ⊆ [name]) /\
    NoDup (witness_classes w') /\ witness_edges w' = witness_edges w /\ th_held w' = th_held w.
Proof.
  intros Hroom Hnd. destruct (decide (name ∈ witness_classes w)) as [Hin|Hin].
  - destruct (class_of_known name w Hin) as (c & Hc & Hl). exists c, w.
    split; [exact Hc|]. split; [exact Hl|]. split; [|auto].
    exists []. rewrite app_nil_r. split; [done|]. apply list_subseteq_nil.
  - unfold class_of. destruct (class_find name _ 0) as [c|] eqn:E.
    { apply class_find_Some in E as [_ Hc]. by apply list_elem_of_lookup_2 in Hc. }
    rewrite (proj2 (Nat.ltb_lt _ _)) by (destruct Hroom; [assumption|done]).
    eexists _, _. split; [reflexivity|]. cbn [witness_classes witness_edges th_held].
    split; [by rewrite lookup_app_r, Nat.sub_diag by lia|].
    split; [by exists [name]|]. split; [|auto].
    apply NoDup_app. split; [exact Hnd|]. split; [|apply NoDup_singleton].
    intros x Hx Hx'. apply list_elem_of_singleton in Hx' as ->. done.
Qed.

(** * The invariant

    Class indices stand for names: an edge between two classes is an order
    between their names, and the stacks hold the names the specification
    has.  [N] bounds the names of the run. *)

Definition edge_names (w : witness) (i j : nat) (a b : cname) : Prop :=
  witness_classes w !! i = Some a /\ witness_classes w !! j = Some b.

Record winv (N : gset cname) (w : witness) (s : spec) : Prop := {
  wi_nodup : NoDup (witness_classes w);
  wi_names : forall a, a ∈ witness_classes w -> a ∈ N;
  wi_held : forall t, wh_name <$> held_of w t = s_held_of s t;
  wi_known : forall t a, a ∈ s_held_of s t -> a ∈ witness_classes w;
  wi_edges : forall i j a b, edge_names w i j a b ->
    (i, j) ∈ witness_edges w <-> (a, b) ∈ s_orders s;
  wi_orders : forall a b, (a, b) ∈ s_orders s ->
    a <> b /\ a ∈ witness_classes w /\ b ∈ witness_classes w;
  wi_range : forall i j, (i, j) ∈ witness_edges w ->
    (i < length (witness_classes w) /\ j < length (witness_classes w))%nat
}.

Lemma winv_boot N : winv N witness_boot spec_boot.
Proof.
  split; cbn.
  - apply NoDup_nil_2.
  - intros a Ha. by apply elem_of_nil in Ha.
  - intros t. reflexivity.
  - intros t a Ha. by apply elem_of_nil in Ha.
  - intros i j a b [Hi _]. apply list_elem_of_lookup_2 in Hi. by apply elem_of_nil in Hi.
  - intros a b H. by apply elem_of_empty in H.
  - intros i j H. by apply elem_of_empty in H.
Qed.

Lemma class_unique (w : witness) i j a : NoDup (witness_classes w) ->
  witness_classes w !! i = Some a -> witness_classes w !! j = Some a -> i = j.
Proof. intros Hnd. exact (NoDup_lookup _ i j a Hnd). Qed.

Lemma elem_new_orders l n a b : (a, b) ∈ new_orders l n <-> a ∈ l /\ b = n /\ a <> n.
Proof.
  unfold new_orders. rewrite elem_of_list_to_set, list_elem_of_fmap. split.
  - intros (h & [= -> ->] & Hh). apply list_elem_of_filter in Hh as [Hn Hl]. auto.
  - intros (Hl & -> & Hn). exists a. split; [done|]. by apply list_elem_of_filter.
Qed.

(** The loop over the held locks, when all of them are registered: it panics
    exactly on a held class that some thread has taken after the new one,
    and otherwise records the new orders. *)
Lemma check_held_spec n name l : forall w,
  NoDup (witness_classes w) -> witness_classes w !! n = Some name ->
  (forall h, h ∈ l -> wh_name h ∈ witness_classes w) ->
  ((exists why, check_held n l w = Panic why) /\
     exists h c, h ∈ l /\ witness_classes w !! c = Some (wh_name h) /\ wh_name h <> name /\
       (n, c) ∈ witness_edges w) \/
  (exists E, check_held n l w = Done (Witness (witness_classes w) E (th_held w)) /\
     (forall h c, h ∈ l -> witness_classes w !! c = Some (wh_name h) -> wh_name h <> name ->
        (n, c) ∉ witness_edges w) /\
     forall i j, (i, j) ∈ E <-> (i, j) ∈ witness_edges w \/
       (j = n /\ exists h, h ∈ l /\ witness_classes w !! i = Some (wh_name h) /\
          wh_name h <> name)).
Proof.
  induction l as [|h l IH]; intros w Hnd Hn Hk; cbn [check_held].
  { right. exists (witness_edges w). split; [by destruct w|]. split.
    - intros h c Hh. by apply elem_of_nil in Hh.
    - intros i j. split; [auto|]. intros [H|(_ & h & Hh & _)]; [done|].
      by apply elem_of_nil in Hh. }
  destruct (class_of_known (wh_name h) w (Hk h ltac:(apply elem_of_cons; auto)))
    as (c & -> & Hc).
  assert (forall h', h' ∈ l -> wh_name h' ∈ witness_classes w) as Hk'
    by (intros; apply Hk, elem_of_cons; auto).
  destruct (decide (c = n)) as [-> |Hcn].
  - assert (wh_name h = name) as Hhn by congruence.
    destruct (IH w Hnd Hn Hk') as [(Hp & h' & c' & Hh' & Hrest)|(E & HE & Hno & Hin)].
    + left. split; [exact Hp|]. exists h', c'. rewrite elem_of_cons. auto.
    + right. exists E. split; [exact HE|]. split.
      * intros h' c'. rewrite elem_of_cons. intros [-> |Hh']; [done|]. by apply Hno.
      * intros i j. rewrite Hin. setoid_rewrite elem_of_cons. split.
        -- intros [H|(-> & h' & Hh' & Hr)]; [auto|]. right. eauto 6.
        -- intros [H|(-> & h' & [-> |Hh'] & Hi & Hr)]; [auto|done|]. right. eauto 6.
  - assert (wh_name h <> name) as Hhn
      by (intros He; apply Hcn; apply (class_unique w c n name Hnd); congruence).
    destruct (decide ((n, c) ∈ witness_edges w)) as [Hrev|Hrev].
    { left. split; [eauto|]. exists h, c. rewrite elem_of_cons. auto. }
    set (w1 := Witness _ _ _).
    destruct (IH w1 Hnd Hn Hk') as [(Hp & h' & c' & Hh' & Hc' & Hne & He)|(E & HE & Hno & Hin)].
    + left. split; [exact Hp|]. exists h', c'. rewrite elem_of_cons.
      split; [auto|]. split; [exact Hc'|]. split; [exact Hne|].
      cbn in He. apply elem_of_union in He as [He|He]; [|exact He].
      apply elem_of_singleton in He. congruence.
    + right. exists E. split; [exact HE|]. cbn in Hno, Hin. split.
      * intros h' c'. rewrite elem_of_cons. intros [-> |Hh'] Hc' Hne.
        -- by rewrite (class_unique w c' c _ Hnd Hc' Hc).
        -- intros He. apply (Hno h' c' Hh' Hc' Hne), elem_of_union. auto.
      * intros i j. rewrite Hin, elem_of_union, elem_of_singleton.
        setoid_rewrite elem_of_cons. split.
        -- intros [[[= -> ->]|H]|(-> & h' & Hh' & Hr)]; [|auto|]; right; eauto 6.
        -- intros [H|(-> & h' & [-> |Hh'] & Hi & Hne)]; [auto| |right; eauto 6].
           left. left. by rewrite (class_unique w i c _ Hnd Hi Hc).
Qed.

Lemma fits_room (N : gset cname) (l : list cname) a : (size N <= WITNESS_MAX_CLASSES)%nat ->
  NoDup l -> (forall x, x ∈ l -> x ∈ N) -> a ∈ N ->
  (length l < WITNESS_MAX_CLASSES \/ a ∈ l)%nat.
Proof.
  intros HN Hnd Hl Ha. destruct (decide (a ∈ l)) as [|Hin]; [auto|left].
  assert (NoDup (a :: l)) as Hnd' by (by apply NoDup_cons).
  assert (size (list_to_set (a :: l) : gset cname) <= size N)%nat as Hs.
  { apply subseteq_size. intros x. rewrite elem_of_list_to_set, elem_of_cons.
    intros [-> |Hx]; auto. }
  rewrite size_list_to_set in Hs by assumption. cbn in Hs. lia.
Qed.

Lemma s_held_of_insert s t l E t' :
  s_held_of (Spec (<[t := l]> (s_held s)) E) t' = if decide (t = t') then l else s_held_of s t'.
Proof.
  unfold s_held_of; cbn [s_held]. destruct (decide (t = t')) as [-> |Hne].
  - by rewrite lookup_insert_eq.
  - by rewrite lookup_insert_ne.
Qed.

(** The classes after [class_of]: the old ones keep their index. *)
Lemma winv_class (N : gset cname) w s name : (size N <= WITNESS_MAX_CLASSES)%nat -> name ∈ N ->
  winv N w s ->
  exists c w', class_of name w = (Some c, w') /\ witness_classes w' !! c = Some name /\
    winv N w' s.
Proof.
  intros HN Hn [Hnd Hnames Hheld Hknown Hedges Horders Hrange].
  destruct (class_of_room name w (fits_room N _ _ HN Hnd Hnames Hn) Hnd)
    as (c & w' & Hc & Hl & (ext & Hext & Hsub) & Hnd' & HE & Hh).
  exists c, w'. split; [exact Hc|]. split; [exact Hl|].
  assert (forall a, a ∈ witness_classes w -> a ∈ witness_classes w') as Hgrow.
  { intros a Ha. rewrite Hext. apply elem_of_app. auto. }
  split; [exact Hnd'| | | | | |].
  - intros a. rewrite Hext, elem_of_app. intros [Ha|Ha]; [auto|].
    apply Hsub, list_elem_of_singleton in Ha as ->. exact Hn.
  - intros t. unfold held_of. rewrite Hh. apply Hheld.
  - intros t a Ha. eauto.
  - intros i j a b [Hi Hj]. rewrite HE. split.
    + intros He. destruct (Hrange i j He) as [Hi' Hj'].
      rewrite Hext, lookup_app_l in Hi, Hj by lia.
      by apply (Hedges i j a b).
    + intros Ho. destruct (Horders a b Ho) as (_ & Ha & Hb).
      apply list_elem_of_lookup in Ha as [i' Ha], Hb as [j' Hb].
      assert (i' = i) as <- by (apply (class_unique w' _ _ a Hnd'); [|exact Hi];
        rewrite Hext; by apply lookup_app_l_Some).
      assert (j' = j) as <- by (apply (class_unique w' _ _ b Hnd'); [|exact Hj];
        rewrite Hext; by apply lookup_app_l_Some).
      by apply (Hedges i' j' a b).
  - intros a b Ho. destruct (Horders a b Ho) as (? & ? & ?). auto.
  - intros i j. rewrite HE, Hext, length_app. intros He. apply Hrange in He. lia.
Qed.

Lemma orders_grow e s p : p ∈ s_orders s -> p ∈ s_orders (spec_do e s).
Proof.
  intros Hp. destruct e as [[t|] sl ra|[t|] sl]; cbn [spec_do s_orders]; [|done..].
  apply elem_of_union. auto.
Qed.

Lemma inverted_run es : forall s, inverted s -> inverted (spec_run es s).
Proof.
  induction es as [|e es IH]; intros s Hs; [exact Hs|].
  apply (IH (spec_do e s)). destruct Hs as (a & b & Hab & Hba).
  exists a, b. by split; apply orders_grow.
Qed.

(** Recording the new orders and pushing the lock. *)
Lemma winv_record N w s t n name ra E :
  winv N w s -> witness_classes w !! n = Some name ->
  (forall i j, (i, j) ∈ E <-> (i, j) ∈ witness_edges w \/
     (j = n /\ exists h, h ∈ held_of w t /\ witness_classes w !! i = Some (wh_name h) /\
        wh_name h <> name)) ->
  winv N (set_held (Witness (witness_classes w) E (th_held w)) t
            (held_of w t ++ [Held name ra]))
    (Spec (<[t := s_held_of s t ++ [name]]> (s_held s))
       (new_orders (s_held_of s t) name ∪ s_orders s)).
Proof.
  intros [Hnd Hnames Hheld Hknown Hedges Horders Hrange] Hn HE.
  assert (name ∈ witness_classes w) as Hname by (by apply list_elem_of_lookup_2 in Hn).
  split; cbn [witness_classes witness_edges set_held s_orders].
  - exact Hnd.
  - exact Hnames.
  - intros t'. rewrite s_held_of_insert. rewrite held_of_set.
    destruct (decide (t = t')) as [<- |]; [|apply Hheld]. by rewrite fmap_app, Hheld.
  - intros t' a. rewrite s_held_of_insert. destruct (decide (t = t')) as [<- |]; [|apply Hknown].
    rewrite elem_of_app, list_elem_of_singleton. intros [Ha| ->]; [eauto|exact Hname].
  - intros i j a b Hij. pose proof Hij as [Hi Hj]. cbn in Hi, Hj.
    rewrite HE, elem_of_union, elem_new_orders, (Hedges i j a b) by (split; assumption).
    rewrite <- Hheld. split.
    + intros [H|(-> & h & Hh & Hi' & Hne)]; [auto|]. left.
      assert (a = wh_name h) as -> by congruence. assert (b = name) as -> by congruence.
      split; [|auto]. apply list_elem_of_fmap. eauto.
    + intros [(Ha & -> & Hne)|H]; [|auto]. right.
      split; [exact (class_unique w j n name Hnd Hj Hn)|].
      apply list_elem_of_fmap in Ha as (h & -> & Hh). eauto.
  - intros a b. rewrite elem_of_union, elem_new_orders.
    intros [(Ha & -> & Hne)|H]; [|by apply Horders]. eauto.
  - intros i j. rewrite HE. intros [H|(-> & h & _ & Hi & _)]; [by apply Hrange|].
    split; eapply lookup_lt_Some; eassumption.
Qed.

(** A new inversion is a held class that has been taken after the new one. *)
Lemma inverted_acquire (s : spec) t sl ra :
  ~ inverted s -> (forall a b, (a, b) ∈ s_orders s -> a <> b) ->
  inverted (spec_do (Acquire (Some t) sl ra) s) <->
  exists a, a ∈ s_held_of s t /\ a <> lock_name sl /\ (lock_name sl, a) ∈ s_orders s.
Proof.
  intros Hno Hne. unfold inverted; cbn [spec_do s_orders].
  setoid_rewrite elem_of_union. setoid_rewrite elem_new_orders. split.
  - intros (a & b & [(Ha & -> & Han)|Hab] & [(Hb & -> & Hbn)|Hba]); [done|eauto|eauto|].
    exfalso. apply Hno. by exists a, b.
  - intros (a & Ha & Han & Ho). exists a, (lock_name sl). auto.
Qed.

Lemma acquire_step N w s t sl ra :
  (size N <= WITNESS_MAX_CLASSES)%nat -> lock_name sl ∈ N -> winv N w s -> ~ inverted s ->
  depth_ok (spec_do (Acquire (Some t) sl ra) s) ->
  let s' := spec_do (Acquire (Some t) sl ra) s in
  ((exists why, witness_do (Acquire (Some t) sl ra) w = Panic why) /\ inverted s') \/
  (exists w', witness_do (Acquire (Some t) sl ra) w = Done w' /\ winv N w' s' /\ ~ inverted s').
Proof.
  intros HN Hn Hw Hno Hdepth s'. unfold s'.
  pose proof (inverted_acquire s t sl ra Hno
    (fun a b H => proj1 (wi_orders _ _ _ Hw a b H))) as Hinv.
  destruct (winv_class N w s _ HN Hn Hw) as (n & w1 & Hc & Hl & Hw1).
  cbn [witness_do]. unfold witness_acquired. rewrite Hc.
  pose proof (wi_held _ _ _ Hw1 t) as Hheld.
  destruct (check_held_spec n (lock_name sl) (held_of w1 t) w1 (wi_nodup _ _ _ Hw1) Hl)
    as [((why & Hp) & h & c & Hh & Hcl & Hne & He)|(E & HE & Hnone & Hin)].
  - intros h Hh. apply (wi_known _ _ _ Hw1 t). rewrite <- Hheld.
    apply list_elem_of_fmap. eauto.
  - left. rewrite Hp. split; [by exists why|]. apply Hinv. exists (wh_name h).
    split; [rewrite <- Hheld; apply list_elem_of_fmap; eauto|]. split; [exact Hne|].
    apply (wi_edges _ _ _ Hw1 n c); [by split|exact He].
  - right. rewrite HE, bind_Done.
    change (held_of (Witness (witness_classes w1) E (th_held w1)) t) with (held_of w1 t).
    assert (length (held_of w1 t) < THREAD_HELD_LOCKS_MAX)%nat as Hlt.
    { specialize (Hdepth t). cbn [spec_do] in Hdepth. rewrite s_held_of_insert in Hdepth.
      rewrite decide_True, <- Hheld, length_app, length_fmap in Hdepth by done.
      cbn in Hdepth. lia. }
    rewrite (proj2 (Nat.ltb_lt _ _) Hlt). eexists. split; [reflexivity|].
    split; [by apply (winv_record N w1 s t n)|].
    intros Hi. apply Hinv in Hi as (a & Ha & Han & Ho). rewrite <- Hheld in Ha.
    apply list_elem_of_fmap in Ha as (h & -> & Hh).
    destruct (wi_orders _ _ _ Hw1 _ _ Ho) as (_ & _ & Hk).
    apply list_elem_of_lookup in Hk as [c Hk].
    apply (Hnone h c Hh Hk Han), (wi_edges _ _ _ Hw1 n c (lock_name sl) (wh_name h));
      [by split|exact Ho].
Qed.

Lemma release_step N w s t sl : winv N w s ->
  winv N (witness_released (Some t) sl w) (spec_do (Release (Some t) sl) s).
Proof.
  intros [Hnd Hnames Hheld Hknown Hedges Horders Hrange].
  destruct (released_rest w (Some t) sl) as [Hc He].
  assert (forall n l x, x ∈ drop_last n l -> x ∈ l) as Hsub.
  { intros n l. induction l as [|c l IH]; intros x; cbn [drop_last]; [done|].
    destruct (decide (n ∈ l)); [rewrite !elem_of_cons; intros [?|?]; auto|].
    destruct (decide (c = n)); [rewrite elem_of_cons|]; auto. }
  split; cbn [spec_do s_orders]; rewrite ?Hc, ?He; try assumption.
  - intros t'. rewrite released_names, s_held_of_insert.
    destruct (decide (t = t')) as [<- |]; [by rewrite Hheld|apply Hheld].
  - intros t' a. rewrite s_held_of_insert. destruct (decide (t = t')) as [<- |]; [|apply Hknown].
    intros Ha. apply (Hknown t). by apply Hsub in Ha.
  - intros i j a b [Hi Hj]. rewrite Hc in Hi, Hj. by apply Hedges.
Qed.

Lemma witness_run_spec N es : forall w s,
  (size N <= WITNESS_MAX_CLASSES)%nat ->
  (forall e n, e ∈ es -> n ∈ ev_names e -> n ∈ N) ->
  (forall k, depth_ok (spec_run (take k es) s)) ->
  winv N w s -> ~ inverted s ->
  ((exists why, witness_run es w = Panic why) /\ inverted (spec_run es s)) \/
  (exists w', witness_run es w = Done w' /\ winv N w' (spec_run es s) /\
     ~ inverted (spec_run es s)).
Proof.
  induction es as [|e es IH]; intros w s HN Hnames Hd Hw Hno; [right; eauto|].
  assert (forall e' n, e' ∈ es -> n ∈ ev_names e' -> n ∈ N) as Hn'
    by (intros e' n He'; apply Hnames, elem_of_cons; auto).
  assert (forall k, depth_ok (spec_run (take k es) (spec_do e s))) as Hd'
    by (intros k; exact (Hd (S k))).
  change (spec_run (e :: es) s) with (spec_run es (spec_do e s)). cbn [witness_run].
  destruct e as [[t|] sl ra|[t|] sl].
  - assert (lock_name sl ∈ N) as Hin.
    { apply (Hnames (Acquire (Some t) sl ra)); [apply elem_of_cons; auto|].
      by apply list_elem_of_singleton. }
    destruct (acquire_step N w s t sl ra HN Hin Hw Hno (Hd' 0%nat))
      as [[[why ->] Hinv]|(w' & -> & Hw' & Hno')].
    + left. split; [by exists why|]. by apply inverted_run.
    + rewrite bind_Done. by apply IH.
  - cbn [witness_do witness_acquired]. rewrite bind_Done. by apply IH.
  - cbn [witness_do]. rewrite bind_Done.
    apply IH; [done..| |done]. by apply release_step.
  - cbn [witness_do]. rewrite bind_Done. by apply IH.
Qed.

(** * The properties *)


(** Three locks, and runs over them. *)
Definition lock_a : option Z := Some 1.
Definition lock_b : option Z := Some 2.
Definition lock_c : option Z := Some 3.

(** Thread [t] takes [x], then [y], and drops both. *)
Definition nested (t : nat) (x y : option Z) : list wev :=
  [Acquire (Some t) x 0; Acquire (Some t) y 0; Release (Some t) y; Release (Some t) x].

(** A bound on the stacks that can be evaluated. *)
Definition depth_okb (s : spec) : bool :=
  forallb (fun p => (length p.2 <=? THREAD_HELD_LOCKS_MAX)%nat) (map_to_list (s_held s)).

Lemma depth_okb_ok s : depth_okb s = true -> depth_ok s.
Proof.
  unfold depth_okb. rewrite forallb_forall. intros H t. unfold s_held_of.
  destruct (s_held s !! t) as [l|] eqn:E; cbn; [|lia].
  apply Nat.leb_le, (H (t, l)), list_elem_of_In, elem_of_map_to_list, E.
Qed.

Lemma depth_prefixes es :
  forallb (fun k => depth_okb (spec_run (take k es) spec_boot)) (seq 0 (S (length es))) = true ->
  forall k, depth_ok (spec_run (take k es) spec_boot).
Proof.
  rewrite forallb_forall. intros H k. apply depth_okb_ok.
  destruct (decide (k <= length es)%nat) as [Hk|Hk].
  - apply H, in_seq. lia.
  - rewrite take_ge by lia. rewrite <- (take_ge es (length es)) by lia.
    apply H, in_seq. lia.
Qed.


