(* ===== verification/Mutex.v ===== *)
(** The sleeping lock of kern/mutex.c, with the part of the scheduler it
    stands on: the park and the kill checks of kern/sched.c, the wake and its
    note for a thread that is not asleep yet, and the exit and the reaper
    that must not leave a dead thread on a waiter list.

    One mutex, any number of threads.  The guard spinlock makes each section
    under it one step, and a park hands the guard over under the scheduler's
    lock, so from the push on the waiter list to the commitment to sleep is
    one step as well.  The wake that follows an unlock is a step of its own,
    after the guard is dropped. *)

From stdpp Require Import base list numbers option strings.
From Stdlib Require Import ZArith Lia ZifyBool.
From S2P Require Import Prelude.

(** * Threads *)

(** READY and RUNNING are not told apart: any thread that is not asleep may
    run at any time.  A reaped thread's memory is gone. *)
Inductive tstate := READY | BLOCKED | ZOMBIE | FREED.

(** Where a thread is in the mutex's code: outside it, asleep in (or just
    woken from) the park of [mutex_lock], back from the park, or past the
    guard in [mutex_unlock] with a wake to deliver. *)
Inductive pc := Out | Parked | Resuming | Waking (w : nat).

#[global] Instance tstate_eq_dec : EqDecision tstate.
Proof. solve_decision. Defined.
#[global] Instance pc_eq_dec : EqDecision pc.
Proof. solve_decision. Defined.

(** [th_noted]: [th_wait_qlock] names the mutex's guard.  [th_killed]: the
    task's [t_killed].  [th_kernel]: the task is the kernel's. *)
Record thread := Thread {
  th_state : tstate;
  th_wake_pending : bool;
  th_mutex_depth : Z;
  th_wait_link : option nat;
  th_noted : bool;
  th_killed : bool;
  th_kernel : bool;
  th_wake_hold : Z;
  th_pc : pc
}.

Record mutex := Mutex {
  mtx_owner : option nat;
  mtx_waiters_head : option nat;
  mtx_waiters_tail : option nat
}.

(** The mutex, the threads [0 .. m_n - 1], and the two counters. *)
Record msys := Msys {
  m_mtx : mutex;
  m_th : nat -> thread;
  m_n : nat;
  mutex_n_acquire : Z;
  mutex_n_slept : Z
}.

(** ** Field updates *)

Definition upd (f : nat -> thread) (t : nat) (x : thread) : nat -> thread :=
  fun u => if decide (u = t) then x else f u.

Definition set_th (s : msys) (t : nat) (x : thread) : msys :=
  Msys (m_mtx s) (upd (m_th s) t x) (m_n s) (mutex_n_acquire s) (mutex_n_slept s).
Definition set_mtx (s : msys) (m : mutex) : msys :=
  Msys m (m_th s) (m_n s) (mutex_n_acquire s) (mutex_n_slept s).
Definition set_owner (s : msys) (o : option nat) : msys :=
  set_mtx s (Mutex o (mtx_waiters_head (m_mtx s)) (mtx_waiters_tail (m_mtx s))).
Definition set_head (s : msys) (h : option nat) : msys :=
  set_mtx s (Mutex (mtx_owner (m_mtx s)) h (mtx_waiters_tail (m_mtx s))).
Definition set_tail (s : msys) (h : option nat) : msys :=
  set_mtx s (Mutex (mtx_owner (m_mtx s)) (mtx_waiters_head (m_mtx s)) h).

Definition with_state (x : thread) (v : tstate) : thread :=
  Thread v (th_wake_pending x) (th_mutex_depth x) (th_wait_link x) (th_noted x)
    (th_killed x) (th_kernel x) (th_wake_hold x) (th_pc x).
Definition with_pending (x : thread) (v : bool) : thread :=
  Thread (th_state x) v (th_mutex_depth x) (th_wait_link x) (th_noted x)
    (th_killed x) (th_kernel x) (th_wake_hold x) (th_pc x).
Definition with_depth (x : thread) (v : Z) : thread :=
  Thread (th_state x) (th_wake_pending x) v (th_wait_link x) (th_noted x)
    (th_killed x) (th_kernel x) (th_wake_hold x) (th_pc x).
Definition with_link (x : thread) (v : option nat) : thread :=
  Thread (th_state x) (th_wake_pending x) (th_mutex_depth x) v (th_noted x)
    (th_killed x) (th_kernel x) (th_wake_hold x) (th_pc x).
Definition with_noted (x : thread) (v : bool) : thread :=
  Thread (th_state x) (th_wake_pending x) (th_mutex_depth x) (th_wait_link x) v
    (th_killed x) (th_kernel x) (th_wake_hold x) (th_pc x).
Definition with_killed (x : thread) (v : bool) : thread :=
  Thread (th_state x) (th_wake_pending x) (th_mutex_depth x) (th_wait_link x) (th_noted x)
    v (th_kernel x) (th_wake_hold x) (th_pc x).
Definition with_hold (x : thread) (v : Z) : thread :=
  Thread (th_state x) (th_wake_pending x) (th_mutex_depth x) (th_wait_link x) (th_noted x)
    (th_killed x) (th_kernel x) v (th_pc x).
Definition with_pc (x : thread) (v : pc) : thread :=
  Thread (th_state x) (th_wake_pending x) (th_mutex_depth x) (th_wait_link x) (th_noted x)
    (th_killed x) (th_kernel x) (th_wake_hold x) v.

Definition modify (s : msys) (t : nat) (f : thread -> thread) : msys :=
  set_th s t (f (m_th s t)).

(** * The waiter list, by its pointers *)

Definition waiter_push (s : msys) (t : nat) : msys :=
  let s := modify s t (fun x => with_link x None) in
  let s := match mtx_waiters_tail (m_mtx s) with
           | Some u => modify s u (fun x => with_link x (Some t))
           | None => set_head s (Some t)
           end in
  set_tail s (Some t).

Definition waiter_pop (s : msys) : option nat * msys :=
  match mtx_waiters_head (m_mtx s) with
  | None => (None, s)
  | Some t =>
      let s := set_head s (th_wait_link (m_th s t)) in
      let s := match mtx_waiters_head (m_mtx s) with
               | None => set_tail s None
               | Some _ => s
               end in
      (Some t, modify s t (fun x => with_link x None))
  end.

(** The walk of [waiter_unbind]: [prev] is the thread whose link [pp] points
    into, none at the head.  [fuel] bounds the length of the list. *)
Fixpoint unbind_walk (fuel : nat) (s : msys) (t : nat) (prev cur : option nat) : msys :=
  match fuel, cur with
  | S fuel, Some c =>
      if decide (c = t) then
        let next := th_wait_link (m_th s t) in
        let s := match prev with
                 | None => set_head s next
                 | Some p => modify s p (fun x => with_link x next)
                 end in
        let s := if decide (mtx_waiters_tail (m_mtx s) = Some t) then set_tail s prev else s in
        modify s t (fun x => with_link x None)
      else unbind_walk fuel s t (Some c) (th_wait_link (m_th s c))
  | _, _ => s
  end.

Definition waiter_unbind (s : msys) (t : nat) : msys :=
  unbind_walk (m_n s) s t None (mtx_waiters_head (m_mtx s)).

(** ** The note of the list a thread is on *)

Definition thread_wait_note (s : msys) (t : nat) : res msys :=
  KASSERT (negb (th_noted (m_th s t))) "thread_wait_note: still noted on another list" ;;
  Done (modify s t (fun x => with_noted x true)).

Definition thread_wait_forget (s : msys) (t : nat) : msys :=
  modify s t (fun x => with_noted x false).

Definition thread_wait_unbind_locked (s : msys) (t : nat) : res msys :=
  KASSERT (th_noted (m_th s t)) "thread_wait_unbind_locked: nothing noted" ;;
  Done (thread_wait_forget (waiter_unbind s t) t).

(** * Sleeping, waking, dying *)

(** [thread_exit], from the check of the held mutexes on: off the list found
    through the note, then a zombie.  The task has no file to close. *)
Definition thread_exit (s : msys) (t : nat) : res msys :=
  KASSERT (th_mutex_depth (m_th s t) =? 0) "thread_exit: dying with a mutex still held" ;;
  s ← (if th_noted (m_th s t) then thread_wait_unbind_locked s t else Done s);
  Done (modify s t (fun x => with_pc (with_state x ZOMBIE) Out)).

(** A kill may retire the thread here. *)
Definition kill_due (x : thread) : bool :=
  negb (th_kernel x) && (th_mutex_depth x =? 0) && th_killed x.

(** The park of [block_release] up to the switch, with the guard held on
    entry and dropped on the way; the thread is linked and noted. *)
Definition block_release_park (s : msys) (t : nat) : res msys :=
  if kill_due (m_th s t) then
    s ← (if th_noted (m_th s t) then thread_wait_unbind_locked s t else Done s);
    thread_exit s t
  else if th_wake_pending (m_th s t) then
    Done (modify s t (fun x => with_pc (with_pending x false) Resuming))
  else Done (modify s t (fun x => with_pc (with_state x BLOCKED) Parked)).

(** The end of [block_release], on a thread that has been woken. *)
Definition block_release_resume (s : msys) (t : nat) : res msys :=
  if kill_due (m_th s t) then thread_exit s t
  else Done (modify s t (fun x => with_pc x Resuming)).

(** [thread_wake]; the body must still be there. *)
Definition thread_wake (s : msys) (t : nat) : res msys :=
  match th_state (m_th s t) with
  | BLOCKED => Done (modify s t (fun x => with_state (with_pending x false) READY))
  | READY => Done (modify s t (fun x => with_pending x true))
  | ZOMBIE => Done s
  | FREED => Panic "thread_wake: freed thread"
  end.

Definition thread_hold (s : msys) (t : nat) : msys :=
  modify s t (fun x => with_hold x (th_wake_hold x + 1)).

Definition thread_unhold (s : msys) (t : nat) : res msys :=
  KASSERT (negb (th_wake_hold (m_th s t) =? 0)) "thread_unhold: releasing a hold never taken" ;;
  Done (modify s t (fun x => with_hold x (th_wake_hold x - 1))).

(** [sched_reap_zombies] on one zombie. *)
Definition reap (s : msys) (t : nat) : res msys :=
  if negb (th_wake_hold (m_th s t) =? 0) then Done s
  else
    KASSERT (negb (th_noted (m_th s t))) "reap: thread still noted on an object's waiter list" ;;
    Done (modify s t (fun x => with_state x FREED)).

(** * The mutex *)

(** The body of [mutex_lock]'s loop up to the park: [o] owns the mutex. *)
Definition lock_link (s : msys) (t o : nat) : res msys :=
  KASSERT (negb (bool_decide (o = t))) "recursive mutex_lock" ;;
  let s := Msys (m_mtx s) (m_th s) (m_n s) (mutex_n_acquire s) (w64 (mutex_n_slept s + 1)) in
  thread_wait_note (waiter_push s t) t.

(** One turn of the loop of [mutex_lock], under the guard. *)
Definition lock_turn (s : msys) (t : nat) : res msys :=
  match mtx_owner (m_mtx s) with
  | Some o => s ← lock_link s t o; block_release_park s t
  | None =>
      let s := set_owner s (Some t) in
      let s := modify s t (fun x => with_pc (with_depth x (th_mutex_depth x + 1)) Out) in
      Done (Msys (m_mtx s) (m_th s) (m_n s) (w64 (mutex_n_acquire s + 1)) (mutex_n_slept s))
  end.

(** After a park: off the list, then the loop again. *)
Definition lock_resume (s : msys) (t : nat) : res msys :=
  let s := thread_wait_forget (waiter_unbind s t) t in
  lock_turn (modify s t (fun x => with_pc x Out)) t.

Definition mutex_trylock (s : msys) (t : nat) : bool * msys :=
  match mtx_owner (m_mtx s) with
  | Some _ => (false, s)
  | None => (true, modify (set_owner s (Some t)) t
                     (fun x => with_depth x (th_mutex_depth x + 1)))
  end.

(** [mutex_unlock] up to the drop of the guard; the wake follows. *)
Definition unlock_guarded (s : msys) (t : nat) : res msys :=
  KASSERT (bool_decide (mtx_owner (m_mtx s) = Some t))
    "mutex_unlock by a thread that does not hold it" ;;
  KASSERT (0 <? th_mutex_depth (m_th s t))
    "mutex_unlock: the held-mutex count is already zero" ;;
  let s := set_owner s None in
  let s := modify s t (fun x => with_depth x (th_mutex_depth x - 1)) in
  let '(w, s) := waiter_pop s in
  match w with
  | Some w => Done (modify (thread_hold s w) t (fun x => with_pc x (Waking w)))
  | None => Done s
  end.

(** The rest of [mutex_unlock], outside the guard. *)
Definition unlock_wake (s : msys) (t w : nat) : res msys :=
  s ← thread_wake s w;
  s ← thread_unhold s w;
  Done (modify s t (fun x => with_pc x Out)).

Definition mutex_held (s : msys) (t : nat) : bool :=
  bool_decide (mtx_owner (m_mtx s) = Some t).

(** [thread_exit] of a Darwin task's last thread that still has a file open:
    [darwin_files_teardown] closes it, and [fs_close] takes the file layer's
    mutex.  [fuel] bounds the depth of the calls. *)
Fixpoint close_and_exit (fuel : nat) (s : msys) (t : nat) : option (res msys) :=
  match fuel with
  | O => None
  | S fuel =>
      if negb (th_mutex_depth (m_th s t) =? 0)
      then Some (Panic "thread_exit: dying with a mutex still held")
      else
        match mtx_owner (m_mtx s) with
        | None =>
            Some (s ← lock_turn s t; s ← unlock_guarded s t; thread_exit s t)
        | Some o =>
            match lock_link s t o with
            | Panic why => Some (Panic why)
            | Done s =>
                if kill_due (m_th s t) then
                  match thread_wait_unbind_locked s t with
                  | Panic why => Some (Panic why)
                  | Done s => close_and_exit fuel s t
                  end
                else Some (block_release_park s t)
            end
        end
  end.

(** * Runs

    An event names the thread that takes a step, or that something happens
    to.  One that is not possible leaves the state as it is. *)

Inductive mev :=
| Lock (t : nat)
| TryLock (t : nat)
| Unlock (t : nat)
| Deliver (t : nat)
| RunAgain (t : nat)
| Retry (t : nat)
| Spurious (t : nat)
| Kill (t : nat)
| Reap (t : nat).

Definition runs (x : thread) : bool := bool_decide (th_state x = READY).

Definition mstep (e : mev) (s : msys) : res msys :=
  match e with
  | Lock t =>
      if bool_decide (t < m_n s)%nat && runs (m_th s t) && bool_decide (th_pc (m_th s t) = Out)
      then lock_turn s t else Done s
  | TryLock t =>
      if bool_decide (t < m_n s)%nat && runs (m_th s t) && bool_decide (th_pc (m_th s t) = Out)
      then Done (mutex_trylock s t).2 else Done s
  | Unlock t =>
      if bool_decide (t < m_n s)%nat && runs (m_th s t) && bool_decide (th_pc (m_th s t) = Out)
      then unlock_guarded s t else Done s
  | Deliver t =>
      match th_pc (m_th s t) with
      | Waking w => if bool_decide (t < m_n s)%nat && runs (m_th s t) then unlock_wake s t w else Done s
      | _ => Done s
      end
  | RunAgain t =>
      if bool_decide (t < m_n s)%nat && runs (m_th s t) && bool_decide (th_pc (m_th s t) = Parked)
      then block_release_resume s t else Done s
  | Retry t =>
      if bool_decide (t < m_n s)%nat && runs (m_th s t) && bool_decide (th_pc (m_th s t) = Resuming)
      then lock_resume s t else Done s
  | Spurious t =>
      if bool_decide (t < m_n s)%nat && negb (bool_decide (th_state (m_th s t) = FREED))
      then thread_wake s t else Done s
  | Kill t => Done (modify s t (fun x => with_killed x true))
  | Reap t =>
      if bool_decide (t < m_n s)%nat && bool_decide (th_state (m_th s t) = ZOMBIE)
      then reap s t else Done s
  end.

(** A thread does not lock a mutex it owns, and unlocks only one it owns. *)
Definition polite (e : mev) (s : msys) : Prop :=
  match e with
  | Lock t => mtx_owner (m_mtx s) <> Some t
  | Unlock t => mtx_owner (m_mtx s) = Some t
  | _ => True
  end.

Definition fresh_thread (kernel : bool) : thread :=
  Thread READY false 0 None false false kernel 0 Out.

(** [mutex_init], and [n] threads, each of the kernel's task or not. *)
Definition mutex_init : mutex := Mutex None None None.
Definition mboot (n : nat) (kernel : nat -> bool) : msys :=
  Msys mutex_init (fun t => fresh_thread (kernel t)) n 0 0.

Inductive mreach (n : nat) (kernel : nat -> bool) : msys -> Prop :=
| mreach_boot : mreach n kernel (mboot n kernel)
| mreach_step s e s' :
    mreach n kernel s -> polite e s -> mstep e s = Done s' -> mreach n kernel s'.

(** * The list the pointers make *)

Record chain (s : msys) (L : list nat) : Prop := {
  ch_nodup : NoDup L;
  ch_head : mtx_waiters_head (m_mtx s) = head L;
  ch_tail : mtx_waiters_tail (m_mtx s) = last L;
  ch_link : forall i t, L !! i = Some t -> th_wait_link (m_th s t) = L !! (S i);
  ch_out : forall t, t ∉ L -> th_wait_link (m_th s t) = None
}.

(** Everything but the list: the links and the two list pointers. *)
Definition same_rest (s s' : msys) : Prop :=
  mtx_owner (m_mtx s') = mtx_owner (m_mtx s) /\ m_n s' = m_n s /\
  mutex_n_acquire s' = mutex_n_acquire s /\ mutex_n_slept s' = mutex_n_slept s /\
  forall u, with_link (m_th s' u) None = with_link (m_th s u) None.

#[global] Instance same_rest_refl : Reflexive same_rest.
Proof. intros s. by repeat split. Qed.
#[global] Instance same_rest_trans : Transitive same_rest.
Proof.
  intros s1 s2 s3 (H1 & H2 & H3 & H4 & H5) (G1 & G2 & G3 & G4 & G5).
  repeat split; try congruence.
Qed.

Lemma m_th_modify s t f u :
  m_th (modify s t f) u = if decide (u = t) then f (m_th s t) else m_th s u.
Proof. reflexivity. Qed.

Lemma same_rest_link s t v : same_rest s (modify s t (fun x => with_link x v)).
Proof.
  repeat split. intros u. rewrite m_th_modify. case_decide; subst; [|done].
  by destruct (m_th s t).
Qed.

Lemma chain_ext s s' L :
  mtx_waiters_head (m_mtx s') = mtx_waiters_head (m_mtx s) ->
  mtx_waiters_tail (m_mtx s') = mtx_waiters_tail (m_mtx s) ->
  (forall u, th_wait_link (m_th s' u) = th_wait_link (m_th s u)) ->
  chain s L -> chain s' L.
Proof.
  intros Hh Ht Hl [Hn Hhd Htl Hlk Ho]. split; [done|congruence|congruence| |].
  - intros i t Hi. rewrite Hl. by apply Hlk.
  - intros t Hin. rewrite Hl. by apply Ho.
Qed.

Lemma link_modify s t v u :
  th_wait_link (m_th (modify s t (fun x => with_link x v)) u) =
  if decide (u = t) then v else th_wait_link (m_th s u).
Proof. rewrite m_th_modify. by case_decide. Qed.

(** The push behind the last waiter [u]. *)
Lemma push_behind s L t u : chain s L -> t ∉ L -> last L = Some u ->
  chain (set_tail (modify s u (fun x => with_link x (Some t))) (Some t)) (L ++ [t]).
Proof.
  intros [Hn Hhd Htl Hlk Ho] Hin Hlast.
  assert (exists k, L !! k = Some u /\ S k = length L) as (k & Hk & HkL).
  { rewrite last_lookup in Hlast. apply lookup_lt_Some in Hlast as Hlt.
    exists (pred (length L)). split; [done|lia]. }
  assert (NoDup (L ++ [t])) as Hnd.
  { apply NoDup_app. split; [done|]. split; [|apply NoDup_singleton].
    intros x Hx Hx'. apply list_elem_of_singleton in Hx' as ->. done. }
  split; [done| | | |].
  - cbn. rewrite Hhd. destruct L; [discriminate|done].
  - cbn. by rewrite last_snoc.
  - intros i x Hi. cbn [set_tail set_mtx m_th]. rewrite link_modify.
    destruct (decide (x = u)) as [-> |Hxu].
    { assert (i = k) as -> by (eapply (NoDup_lookup (L ++ [t])); eauto;
        by apply lookup_app_l_Some).
      rewrite lookup_app_r by lia. by replace (S k - length L)%nat with 0%nat by lia. }
    destruct (decide (i < length L)%nat) as [Hil|Hil].
    + rewrite lookup_app_l in Hi by done. rewrite (Hlk i x Hi).
      destruct (decide (S i < length L)%nat); [by rewrite lookup_app_l|].
      assert (i = k) as -> by lia. congruence.
    + assert (i = length L) as ->
        by (apply lookup_lt_Some in Hi; rewrite length_app in Hi; cbn in Hi; lia).
      rewrite lookup_app_r, Nat.sub_diag in Hi by lia. injection Hi as <-.
      rewrite Ho by done. symmetry. apply lookup_ge_None_2.
      rewrite length_app. cbn. lia.
  - intros x Hx. rewrite elem_of_app, list_elem_of_singleton in Hx.
    cbn [set_tail set_mtx m_th]. rewrite link_modify.
    case_decide as Hxu; [|by apply Ho; intros ?; apply Hx; left].
    subst. exfalso. apply Hx. left. by apply list_elem_of_lookup_2 in Hk.
Qed.

Lemma push_chain s L t : chain s L -> t ∉ L ->
  chain (waiter_push s t) (L ++ [t]) /\ same_rest s (waiter_push s t).
Proof.
  intros Hc Hin. pose proof (ch_out _ _ Hc) as Ho. unfold waiter_push.
  set (s1 := modify s t (fun x => with_link x None)).
  assert (forall u, th_wait_link (m_th s1 u) = th_wait_link (m_th s u)) as Hs1.
  { intros u. unfold s1. rewrite link_modify. case_decide; subst; [|done]. by rewrite Ho. }
  assert (chain s1 L) as Hc1 by (by apply (chain_ext s)).
  rewrite (ch_tail _ _ Hc1). destruct (last L) as [u|] eqn:Hlast.
  - split; [by apply push_behind|].
    etransitivity; [apply (same_rest_link s t None)|]. fold s1.
    etransitivity; [apply (same_rest_link s1 u (Some t))|]. by repeat split.
  - apply last_None in Hlast as ->. split.
    + split; [apply NoDup_singleton|done|done| |].
      * intros [|i] x; [|done]. intros [= <-]. cbn [set_tail set_head set_mtx m_th].
        rewrite Hs1. by apply Ho.
      * intros x Hx. cbn [set_tail set_head set_mtx m_th]. rewrite Hs1. apply Ho, not_elem_of_nil.
    + etransitivity; [apply (same_rest_link s t None)|]. by repeat split.
Qed.

Lemma pop_chain s t L : chain s (t :: L) ->
  exists s', waiter_pop s = (Some t, s') /\ chain s' L /\ same_rest s s'.
Proof.
  intros [Hn Hhd Htl Hlk Ho]. unfold waiter_pop. rewrite Hhd. cbn [head].
  apply NoDup_cons in Hn as [Htin Hn].
  assert (th_wait_link (m_th s t) = head L) as Hnext
    by (rewrite (Hlk 0%nat t eq_refl); by destruct L).
  rewrite Hnext. eexists. split; [reflexivity|]. cbn [set_head set_mtx m_mtx mtx_waiters_head].
  assert (forall s1, m_th s1 = m_th s -> forall u,
    th_wait_link (m_th (modify s1 t (fun x => with_link x None)) u) =
    if decide (u = t) then None else th_wait_link (m_th s u)) as Hl.
  { intros s1 Hs1 u. rewrite link_modify. by rewrite Hs1. }
  split; [|destruct (head L); (split; [done|]); (split; [done|]); (split; [done|]);
    (split; [done|]); intros u; rewrite m_th_modify; case_decide; subst; cbn; try done;
    by destruct (m_th s t)].
  split; [done|by destruct L| | |].
  - destruct L as [|x L]; [done|]. cbn. by rewrite Htl.
  - intros i x Hi. rewrite Hl by (by destruct (head L)).
    rewrite decide_False by (intros ->; apply Htin; by apply list_elem_of_lookup_2 in Hi).
    by apply (Hlk (S i)).
  - intros x Hx. rewrite Hl by (by destruct (head L)). case_decide; [done|].
    apply Ho. rewrite elem_of_cons. tauto.
Qed.

(** Cutting [t] out between what is before it and what is after. *)
Definition cut (s : msys) (t : nat) (prev next : option nat) : msys :=
  let s := match prev with
           | None => set_head s next
           | Some p => modify s p (fun x => with_link x next)
           end in
  let s := if decide (mtx_waiters_tail (m_mtx s) = Some t) then set_tail s prev else s in
  modify s t (fun x => with_link x None).

Lemma cut_link s t prev next u : prev <> Some t ->
  th_wait_link (m_th (cut s t prev next) u) =
  if decide (u = t) then None
  else if decide (Some u = prev) then next else th_wait_link (m_th s u).
Proof.
  intros Hp. unfold cut. rewrite link_modify. case_decide as Hu; [done|].
  destruct prev as [p|].
  - assert (forall s1, th_wait_link (m_th (if decide (mtx_waiters_tail (m_mtx s1) = Some t)
      then set_tail s1 (Some p) else s1) u) = th_wait_link (m_th s1 u)) as ->
      by (intros s1; by case_decide).
    rewrite link_modify. repeat case_decide; congruence.
  - repeat case_decide; try done.
Qed.

Lemma cut_rest s t prev next : same_rest s (cut s t prev next).
Proof.
  unfold cut. etransitivity; [|apply same_rest_link].
  destruct prev as [p|].
  - etransitivity; [apply (same_rest_link s p next)|]. case_decide; by repeat split.
  - case_decide; by repeat split.
Qed.

Lemma last_in {A} (l : list A) x : last l = Some x -> x ∈ l.
Proof. rewrite last_lookup. by apply list_elem_of_lookup_2. Qed.

Lemma nodup_cut (A B : list nat) t : NoDup (A ++ t :: B) ->
  (t ∉ A) /\ (t ∉ B) /\ NoDup A /\ NoDup (A ++ B) /\ (forall x, x ∈ A -> x ∉ B).
Proof.
  rewrite NoDup_app, NoDup_cons. intros (HA & Hdisj & HtB & HB).
  assert (forall x, x ∈ A -> x ∉ B) as Hd
    by (intros x Hx HxB; apply (Hdisj x Hx), elem_of_cons; auto).
  split; [intros Hin; apply (Hdisj t Hin), elem_of_cons; auto|].
  split; [done|]. split; [done|]. split; [by apply NoDup_app|done].
Qed.

Lemma cut_head s t A B : chain s (A ++ t :: B) ->
  mtx_waiters_head (m_mtx (cut s t (last A) (head B))) = head (A ++ B).
Proof.
  intros Hc. pose proof (ch_head _ _ Hc) as Hhd. unfold cut. destruct A as [|a A].
  - cbn [last app]. case_decide; cbn; by destruct B.
  - destruct (last (a :: A)) as [p|] eqn:E; [|by apply last_None in E].
    case_decide; cbn; by rewrite Hhd.
Qed.

Lemma cut_tail s t A B : chain s (A ++ t :: B) ->
  mtx_waiters_tail (m_mtx (cut s t (last A) (head B))) = last (A ++ B).
Proof.
  intros Hc. pose proof (ch_tail _ _ Hc) as Htl.
  destruct (nodup_cut A B t (ch_nodup _ _ Hc)) as (_ & HtB & _).
  unfold cut. rewrite last_app in Htl. destruct B as [|b B].
  - rewrite app_nil_r. cbn in Htl. destruct (last A) as [p|] eqn:E; cbn;
      rewrite decide_True by (cbn; by rewrite Htl); done.
  - change (last (t :: b :: B)) with (last (b :: B)) in Htl. rewrite last_app.
    destruct (last (b :: B)) as [y|] eqn:Hy; [|by apply last_None in Hy].
    assert (y <> t) as Hyt by (intros ->; by apply last_in in Hy).
    destruct (last A) as [p|]; cbn; rewrite decide_False by (cbn; congruence); done.
Qed.

Lemma cut_links s t A B i x : chain s (A ++ t :: B) -> (A ++ B) !! i = Some x ->
  th_wait_link (m_th (cut s t (last A) (head B)) x) = (A ++ B) !! S i.
Proof.
  intros Hc Hi. pose proof (ch_link _ _ Hc) as Hlk.
  destruct (nodup_cut A B t (ch_nodup _ _ Hc)) as (HtA & HtB & HA & HAB & Hdisj).
  rewrite cut_link by (intros Hl; by apply last_in in Hl).
  rewrite decide_False by (intros ->; apply list_elem_of_lookup_2 in Hi;
    apply elem_of_app in Hi as [?|?]; done).
  destruct (decide (i < length A)%nat) as [HiA|HiA].
  - rewrite lookup_app_l in Hi by done.
    pose proof (Hlk i x ltac:(by rewrite lookup_app_l)) as Hx.
    destruct (decide (S i < length A)%nat) as [HSi|HSi].
    + rewrite decide_False; [by rewrite Hx, !lookup_app_l by lia|].
      rewrite last_lookup. intros Hl. symmetry in Hl.
      pose proof (NoDup_lookup A _ _ _ HA Hi Hl). lia.
    + rewrite decide_True by (rewrite last_lookup; by replace (pred (length A)) with i by lia).
      rewrite lookup_app_r by lia. replace (S i - length A)%nat with 0%nat by lia. by destruct B.
  - rewrite lookup_app_r in Hi by lia.
    rewrite decide_False.
    2:{ intros Hl. symmetry in Hl. apply list_elem_of_lookup_2 in Hi. apply last_in in Hl.
        by apply (Hdisj x). }
    rewrite (Hlk (S i) x).
    2:{ rewrite lookup_app_r by lia. by replace (S i - length A)%nat with (S (i - length A)) by lia. }
    rewrite !lookup_app_r by lia.
    by replace (S (S i) - length A)%nat with (S (S i - length A)) by lia.
Qed.

Lemma cut_chain s t A B : chain s (A ++ t :: B) ->
  chain (cut s t (last A) (head B)) (A ++ B).
Proof.
  intros Hc. destruct (nodup_cut A B t (ch_nodup _ _ Hc)) as (HtA & HtB & HA & HAB & Hdisj).
  split; [done|by apply cut_head|by apply cut_tail|intros; by apply cut_links|].
  intros x Hx. rewrite cut_link by (intros Hl; by apply last_in in Hl).
  case_decide; [done|]. rewrite elem_of_app in Hx. rewrite decide_False.
  - apply (ch_out _ _ Hc). rewrite elem_of_app, elem_of_cons. tauto.
  - intros Hl. symmetry in Hl. apply last_in in Hl. tauto.
Qed.

Lemma filter_id t (C : list nat) : t ∉ C -> filter (fun x => x <> t) C = C.
Proof.
  induction C as [|c C IH]; intros Hin; [done|]. rewrite filter_cons.
  rewrite elem_of_cons in Hin. rewrite decide_True by (intros ->; tauto).
  rewrite IH; [done|tauto].
Qed.

Lemma unbind_walk_chain t fuel : forall s A C,
  chain s (A ++ C) -> t ∉ A -> (length C <= fuel)%nat ->
  let s' := unbind_walk fuel s t (last A) (head C) in
  chain s' (A ++ filter (fun x => x <> t) C) /\ same_rest s s'.
Proof.
  induction fuel as [|fuel IH]; intros s A C Hc HA Hf.
  { destruct C; [|cbn in Hf; lia]. cbn. by rewrite app_nil_r in *. }
  destruct C as [|c C]; [cbn; by rewrite app_nil_r in *|].
  cbn [unbind_walk head]. rewrite filter_cons.
  destruct (decide (c = t)) as [-> |Hct].
  - rewrite (decide_False (P := t <> t)) by (intros Hne; by apply Hne).
    assert (th_wait_link (m_th s t) = head C) as ->.
    { rewrite (ch_link _ _ Hc (length A) t) by (by rewrite lookup_app_r, Nat.sub_diag by lia).
      rewrite lookup_app_r by lia. replace (S (length A) - length A)%nat with 1%nat by lia.
      by destruct C. }
    fold (cut s t (last A) (head C)). pose proof (ch_nodup _ _ Hc) as Hn.
    rewrite NoDup_app, NoDup_cons in Hn. destruct Hn as (_ & _ & HtC & _).
    rewrite (filter_id t C HtC). split; [by apply cut_chain|apply cut_rest].
  - rewrite (decide_True (P := c <> t)) by done.
    assert (th_wait_link (m_th s c) = head C) as ->.
    { rewrite (ch_link _ _ Hc (length A) c) by (by rewrite lookup_app_r, Nat.sub_diag by lia).
      rewrite lookup_app_r by lia. replace (S (length A) - length A)%nat with 1%nat by lia.
      by destruct C. }
    cbn in Hf. destruct (IH s (A ++ [c]) C) as [H1 H2].
    { by rewrite <- (assoc_L (++)). }
    { rewrite elem_of_app, list_elem_of_singleton. intros [?|Ht]; [done|by apply Hct]. }
    { lia. }
    rewrite last_snoc in H1, H2. rewrite <- (assoc_L (++)) in H1. by split.
Qed.

Lemma unbind_chain s L t : chain s L -> (length L <= m_n s)%nat ->
  chain (waiter_unbind s t) (filter (fun x => x <> t) L) /\ same_rest s (waiter_unbind s t).
Proof.
  intros Hc Hl. unfold waiter_unbind. rewrite (ch_head _ _ Hc).
  apply (unbind_walk_chain t (m_n s) s [] L Hc); [apply not_elem_of_nil|done].
Qed.

(** * The invariant *)

Definition in_lock (p : pc) : Prop := p = Parked \/ p = Resuming.
Definition alive (s : msys) (t : nat) : Prop :=
  th_state (m_th s t) = READY \/ th_state (m_th s t) = BLOCKED.

(** How many threads have a wake for [w] to deliver. *)
Definition waking (s : msys) (w : nat) : Z :=
  count_upto (fun u => bool_decide (th_pc (m_th s (Z.to_nat u)) = Waking w)) (m_n s).

(** A thread inside [mutex_lock] that is not asleep, or is about to be
    woken. *)
Definition awake (s : msys) (t : nat) : Prop :=
  th_pc (m_th s t) = Resuming \/
  (th_pc (m_th s t) = Parked /\ th_state (m_th s t) = READY) \/
  (th_pc (m_th s t) = Parked /\ exists u, th_pc (m_th s u) = Waking t).

Record tinv (s : msys) (L : list nat) : Prop := {
  ti_mem : forall t, t ∈ L -> in_lock (th_pc (m_th s t));
  ti_range : forall t, th_pc (m_th s t) <> Out -> (t < m_n s)%nat;
  ti_noted : forall t, th_noted (m_th s t) = true <-> in_lock (th_pc (m_th s t));
  ti_block : forall t, th_state (m_th s t) = BLOCKED -> th_pc (m_th s t) = Parked;
  ti_dead : forall t, ~ alive s t ->
    th_pc (m_th s t) = Out /\ mtx_owner (m_mtx s) <> Some t;
  ti_depth : forall t, th_mutex_depth (m_th s t) =
    if decide (mtx_owner (m_mtx s) = Some t) then 1 else 0;
  ti_owner : forall t, mtx_owner (m_mtx s) = Some t ->
    th_pc (m_th s t) = Out /\ (t < m_n s)%nat;
  ti_hold : forall w, th_wake_hold (m_th s w) = waking s w;
  ti_waking : forall u w, th_pc (m_th s u) = Waking w -> (w < m_n s)%nat;
  ti_freed : forall t, th_state (m_th s t) = FREED -> th_wake_hold (m_th s t) = 0
}.

(** No wake is lost: while no thread has died, a free mutex with waiters has
    one on its way. *)
Definition wake_inv (s : msys) (L : list nat) : Prop :=
  (forall t, alive s t) -> mtx_owner (m_mtx s) = None -> L <> [] -> exists t, awake s t.

Definition minv (s : msys) : Prop := exists L, chain s L /\ tinv s L /\ wake_inv s L.

Lemma rest_field {A} (g : thread -> A) s s' u :
  (forall x v, g (with_link x v) = g x) -> same_rest s s' -> g (m_th s' u) = g (m_th s u).
Proof.
  intros Hg (_ & _ & _ & _ & Hu). rewrite <- (Hg (m_th s' u) None), Hu. apply Hg.
Qed.

Lemma rest_pc s s' u : same_rest s s' -> th_pc (m_th s' u) = th_pc (m_th s u).
Proof. by apply (rest_field th_pc). Qed.
Lemma rest_state s s' u : same_rest s s' -> th_state (m_th s' u) = th_state (m_th s u).
Proof. by apply (rest_field th_state). Qed.
Lemma rest_noted s s' u : same_rest s s' -> th_noted (m_th s' u) = th_noted (m_th s u).
Proof. by apply (rest_field th_noted). Qed.
Lemma rest_depth s s' u : same_rest s s' -> th_mutex_depth (m_th s' u) = th_mutex_depth (m_th s u).
Proof. by apply (rest_field th_mutex_depth). Qed.
Lemma rest_hold s s' u : same_rest s s' -> th_wake_hold (m_th s' u) = th_wake_hold (m_th s u).
Proof. by apply (rest_field th_wake_hold). Qed.
Lemma rest_pending s s' u : same_rest s s' -> th_wake_pending (m_th s' u) = th_wake_pending (m_th s u).
Proof. by apply (rest_field th_wake_pending). Qed.
Lemma rest_kill s s' u : same_rest s s' -> kill_due (m_th s' u) = kill_due (m_th s u).
Proof. by apply (rest_field kill_due). Qed.
Lemma rest_owner s s' : same_rest s s' -> mtx_owner (m_mtx s') = mtx_owner (m_mtx s).
Proof. by intros (H & _). Qed.
Lemma rest_n s s' : same_rest s s' -> m_n s' = m_n s.
Proof. by intros (_ & H & _). Qed.
Lemma rest_alive s s' u : same_rest s s' -> alive s' u <-> alive s u.
Proof. intros H. unfold alive. by rewrite !(rest_state s s'). Qed.
Lemma rest_waking s s' w : same_rest s s' -> waking s' w = waking s w.
Proof.
  intros H. unfold waking. rewrite (rest_n s s' H). apply count_upto_ext.
  intros u _. by rewrite (rest_pc s s').
Qed.

(** The list does not enter the rest of the invariant but by its members. *)
Lemma tinv_rest s s' L L' : same_rest s s' -> (forall t, t ∈ L' -> t ∈ L) ->
  tinv s L -> tinv s' L'.
Proof.
  intros H HL [H1 H2 H3 H4 H5 H6 H7 H8 H9 H10].
  pose proof (rest_pc s s') as Hpc. pose proof (rest_state s s') as Hst.
  split; intros; rewrite ?Hpc, ?Hst, ?(rest_noted s s'), ?(rest_depth s s'), ?(rest_hold s s'),
    ?(rest_owner s s'), ?(rest_n s s'), ?(rest_waking s s') in * by done; eauto.
  apply H5. by rewrite <- (rest_alive s s').
Qed.

Lemma chain_modify s L t f : (forall x, th_wait_link (f x) = th_wait_link x) ->
  chain s L -> chain (modify s t f) L.
Proof.
  intros Hf. apply chain_ext; [done|done|]. intros u. rewrite m_th_modify.
  case_decide; [subst; apply Hf|done].
Qed.

(** The wakes in flight when only [t]'s position changes. *)
Lemma waking_modify s t f w : (t < m_n s)%nat ->
  waking (modify s t f) w =
  waking s w + Z.b2z (bool_decide (th_pc (f (m_th s t)) = Waking w)) -
  Z.b2z (bool_decide (th_pc (m_th s t) = Waking w)).
Proof.
  intros Ht. unfold waking. change (m_n (modify s t f)) with (m_n s).
  rewrite (count_upto_upd (fun u => bool_decide (th_pc (m_th s (Z.to_nat u)) = Waking w))
    (fun u => bool_decide (th_pc (m_th (modify s t f) (Z.to_nat u)) = Waking w))
    (m_n s) (Z.of_nat t)).
  - rewrite m_th_modify, Nat2Z.id, decide_True by done. done.
  - lia.
  - intros i Hi Hne. rewrite m_th_modify, decide_False by lia. done.
Qed.

Lemma waking_same s s' w : m_n s' = m_n s ->
  (forall u, th_pc (m_th s' u) = th_pc (m_th s u)) -> waking s' w = waking s w.
Proof.
  intros Hn Hpc. unfold waking. rewrite Hn. apply count_upto_ext. intros. by rewrite Hpc.
Qed.

Lemma waking_pos s u w : (u < m_n s)%nat -> th_pc (m_th s u) = Waking w -> 0 < waking s w.
Proof.
  intros Hu Hw. apply (count_upto_pos _ _ (Z.of_nat u)); [lia|].
  rewrite Nat2Z.id. by apply bool_decide_eq_true_2.
Qed.

Lemma nodup_length (L : list nat) n : NoDup L -> (forall x, x ∈ L -> (x < n)%nat) ->
  (length L <= n)%nat.
Proof.
  intros Hn HL. rewrite <- (length_seq n 0).
  apply submseteq_length, NoDup_submseteq; [done|].
  intros t Hin. apply elem_of_seq. apply HL in Hin. lia.
Qed.

Lemma tinv_length s L : chain s L -> tinv s L -> (length L <= m_n s)%nat.
Proof.
  intros Hc Ht. apply nodup_length; [apply Hc|]. intros t Hin.
  apply (ti_range _ _ Ht). destruct (ti_mem _ _ Ht t Hin) as [-> | ->]; discriminate.
Qed.

(** What may change of one thread, the owner and the wakes in flight apart. *)
Record goes (s : msys) (t : nat) (L' : list nat) (x' : thread) : Prop := {
  go_depth : th_mutex_depth x' = th_mutex_depth (m_th s t);
  go_hold : th_wake_hold x' = th_wake_hold (m_th s t);
  go_mem : t ∈ L' -> in_lock (th_pc x');
  go_range : th_pc x' <> Out -> (t < m_n s)%nat;
  go_noted : th_noted x' = true <-> in_lock (th_pc x');
  go_block : th_state x' = BLOCKED -> th_pc x' = Parked;
  go_dead : th_state x' <> READY -> th_state x' <> BLOCKED ->
    th_pc x' = Out /\ mtx_owner (m_mtx s) <> Some t;
  go_owner : mtx_owner (m_mtx s) = Some t -> th_pc x' = Out;
  go_waking : forall w, th_pc x' = Waking w <-> th_pc (m_th s t) = Waking w;
  go_freed : th_state x' = FREED -> th_wake_hold x' = 0
}.

(** Two states that differ, links apart, in thread [t] only. *)
Definition others (t : nat) (s s' : msys) : Prop :=
  mtx_owner (m_mtx s') = mtx_owner (m_mtx s) /\ m_n s' = m_n s /\
  forall u, u <> t -> with_link (m_th s' u) None = with_link (m_th s u) None.

#[global] Instance others_refl t : Reflexive (others t).
Proof. by repeat split. Qed.
#[global] Instance others_trans t : Transitive (others t).
Proof.
  intros s1 s2 s3 (H1 & H2 & H3) (G1 & G2 & G3).
  split; [congruence|]. split; [congruence|]. intros u Hu. by rewrite G3, H3.
Qed.

Lemma others_rest t s s' : same_rest s s' -> others t s s'.
Proof. intros (H1 & H2 & _ & _ & H5). repeat split; auto. Qed.

Lemma others_modify t s f : others t s (modify s t f).
Proof. repeat split. intros u Hu. by rewrite m_th_modify, decide_False. Qed.

Lemma others_field {A} (g : thread -> A) t s s' u :
  (forall x v, g (with_link x v) = g x) -> others t s s' -> u <> t ->
  g (m_th s' u) = g (m_th s u).
Proof.
  intros Hg (_ & _ & Hu) Hne. rewrite <- (Hg (m_th s' u) None), Hu by done. apply Hg.
Qed.

Lemma others_waking t s s' w : others t s s' ->
  (th_pc (m_th s' t) = Waking w <-> th_pc (m_th s t) = Waking w) ->
  waking s' w = waking s w.
Proof.
  intros Ho Ht. unfold waking. rewrite (proj1 (proj2 Ho)). apply count_upto_ext.
  intros u _. apply bool_decide_ext. destruct (decide (Z.to_nat u = t)) as [-> |Hne]; [done|].
  by rewrite (others_field th_pc t s s').
Qed.

Lemma tinv_change s s' L L' t : tinv s L -> others t s s' ->
  (forall u, u <> t -> u ∈ L' -> u ∈ L) -> goes s t L' (m_th s' t) -> tinv s' L'.
Proof.
  intros [H1 H2 H3 H4 H5 H6 H7 H8 H9 H10] Ho HL [G1 G2 G3 G4 G5 G6 G7 G8 G9 G10].
  pose proof Ho as (Hown & Hn & _).
  pose proof (fun u => others_field th_pc t s s' u ltac:(done) Ho) as Hpc.
  pose proof (fun u => others_field th_state t s s' u ltac:(done) Ho) as Hst.
  assert (forall u w, th_pc (m_th s' u) = Waking w <-> th_pc (m_th s u) = Waking w) as Hpw.
  { intros u w. destruct (decide (u = t)) as [-> |Hu]; [apply G9|by rewrite Hpc]. }
  split; rewrite ?Hown, ?Hn; try (intros u; destruct (decide (u = t)) as [-> |Hu]); auto.
  - rewrite Hpc by done. auto.
  - rewrite Hpc by done. auto.
  - rewrite Hpc, (others_field th_noted t s s') by done. auto.
  - rewrite Hpc, Hst by done. auto.
  - intros Ha. apply G7; intros E; apply Ha; unfold alive; auto.
  - intros Ha. rewrite Hpc by done. apply H5. unfold alive in *. by rewrite Hst in Ha.
  - by rewrite G1.
  - rewrite (others_field th_mutex_depth t s s') by done. auto.
  - intros Hu. split; [auto|by apply H7].
  - rewrite Hpc by done. auto.
  - rewrite G2, H8. symmetry. by apply (others_waking t), Hpw.
  - rewrite (others_field th_wake_hold t s s'), H8 by done. symmetry. by apply (others_waking t), Hpw.
  - intros w. rewrite Hpw. apply H9.
  - intros w. rewrite Hpw. apply H9.
  - rewrite Hst, (others_field th_wake_hold t s s') by done. auto.
Qed.

(** The fields of [t] itself across an operation on the list. *)
Ltac rest_fields H := rewrite ?(rest_pc _ _ _ H), ?(rest_state _ _ _ H), ?(rest_noted _ _ _ H),
  ?(rest_depth _ _ _ H), ?(rest_hold _ _ _ H), ?(rest_pending _ _ _ H), ?(rest_owner _ _ H),
  ?(rest_n _ _ H).

Lemma not_in_filter t (L : list nat) : t ∉ filter (fun x => x <> t) L.
Proof. intros Hin. apply list_elem_of_filter in Hin as [Hne _]. by apply Hne. Qed.

Lemma in_filter t (L : list nat) u : u ∈ filter (fun x => x <> t) L -> u ∈ L.
Proof. intros Hu. by apply list_elem_of_filter in Hu as [_ Hu]. Qed.

(** A thread that dies is off the list and owns nothing. *)
Lemma exit_step s L t : chain s L -> tinv s L ->
  mtx_owner (m_mtx s) <> Some t -> (in_lock (th_pc (m_th s t)) \/ th_pc (m_th s t) = Out) ->
  exists s' L', thread_exit s t = Done s' /\ chain s' L' /\ tinv s' L' /\ ~ alive s' t.
Proof.
  intros Hc Ht Ho Hpc. unfold thread_exit.
  pose proof (ti_depth _ _ Ht t) as Hd. rewrite decide_False in Hd by done.
  rewrite KASSERT_true by lia.
  pose (L' := filter (fun x => x <> t) L).
  assert (exists s1, (if th_noted (m_th s t) then thread_wait_unbind_locked s t else Done s)
    = Done s1 /\ chain s1 L' /\ others t s s1 /\
    with_link (with_noted (m_th s t) false) None = with_link (m_th s1 t) None)
    as (s1 & -> & Hc1 & Ho1 & Hs1).
  { destruct (th_noted (m_th s t)) eqn:Hn.
    - unfold thread_wait_unbind_locked. rewrite Hn, KASSERT_true by done.
      destruct (unbind_chain s L t Hc (tinv_length s L Hc Ht)) as [Hc1 Hr].
      eexists. split; [reflexivity|]. split; [by apply chain_modify|].
      split; [etransitivity; [by apply others_rest|apply others_modify]|].
      unfold thread_wait_forget. rewrite m_th_modify, decide_True by done.
      destruct Hr as (_ & _ & _ & _ & R5). specialize (R5 t).
      destruct (m_th s t), (m_th (waiter_unbind s t) t). unfold with_link in R5. cbn in R5.
      unfold with_link, with_noted. cbn. congruence.
    - exists s. split; [done|]. split; [|split; [done|]].
      + unfold L'. rewrite filter_id; [done|]. intros Hin.
        apply (ti_mem _ _ Ht), (ti_noted _ _ Ht) in Hin. congruence.
      + destruct (m_th s t). cbn in Hn. by rewrite Hn. }
  rewrite bind_Done. eexists _, _. split; [reflexivity|].
  split; [by apply chain_modify|]. split.
  - apply (tinv_change s _ L _ t Ht); [etransitivity; [exact Ho1|apply others_modify]| |].
    + intros u _. apply in_filter.
    + rewrite m_th_modify, decide_True by done.
      assert (th_wake_hold (m_th s1 t) = th_wake_hold (m_th s t) /\
              th_mutex_depth (m_th s1 t) = th_mutex_depth (m_th s t) /\
              th_noted (m_th s1 t) = false) as (E1 & E2 & E3).
      { destruct (m_th s t), (m_th s1 t). unfold with_link, with_noted in Hs1. cbn in *.
        repeat split; congruence. }
      split; cbn; rewrite ?E1, ?E2, ?E3; try done.
      * intros Hin. by apply not_in_filter in Hin.
      * split; [done|]. intros [?|?]; discriminate.
      * intros w. split; [discriminate|]. destruct Hpc as [[-> | ->]| ->]; discriminate.
  - unfold alive. rewrite m_th_modify, decide_True by done. cbn. intros [?|?]; discriminate.
Qed.

Lemma wake_inv_owned s L o : mtx_owner (m_mtx s) = Some o -> wake_inv s L.
Proof. intros H _ Hn. congruence. Qed.

(** Taking the free mutex. *)
Lemma own_step s L t f acq : chain s L -> tinv s L -> mtx_owner (m_mtx s) = None ->
  (t < m_n s)%nat -> th_state (m_th s t) = READY -> th_pc (m_th s t) = Out ->
  f (m_th s t) = with_depth (m_th s t) (th_mutex_depth (m_th s t) + 1) ->
  let s1 := modify (set_owner s (Some t)) t f in
  let s' := Msys (m_mtx s1) (m_th s1) (m_n s1) acq (mutex_n_slept s1) in
  chain s' L /\ tinv s' L /\ wake_inv s' L.
Proof.
  intros Hc [H1 H2 H3 H4 H5 H6 H7 H8 H9 H10] Ho Hlt Hst Hpc Hf s1 s'.
  assert (forall u, m_th s' u = if decide (u = t)
    then with_depth (m_th s t) (th_mutex_depth (m_th s t) + 1) else m_th s u) as Hth.
  { intros u. unfold s', s1. cbn [m_th]. rewrite m_th_modify. cbn [set_owner set_mtx m_th].
    by rewrite Hf. }
  assert (forall u, th_pc (m_th s' u) = th_pc (m_th s u) /\
    th_state (m_th s' u) = th_state (m_th s u) /\ th_noted (m_th s' u) = th_noted (m_th s u) /\
    th_wake_hold (m_th s' u) = th_wake_hold (m_th s u) /\
    th_wait_link (m_th s' u) = th_wait_link (m_th s u)) as Hsame.
  { intros u. rewrite Hth. case_decide; by subst. }
  split; [|split; [|by apply (wake_inv_owned _ _ t)]].
  - apply (chain_ext s); [done|done| |done]. intros u. apply Hsame.
  - split; intros u; destruct (Hsame u) as (E1 & E2 & E3 & E4 & _);
      rewrite ?E1, ?E2, ?E3, ?E4; try apply H1; try apply H2; try apply H3; try apply H4;
      try apply H9; try apply H10.
    + unfold alive. rewrite E2. intros Ha. split; [by apply H5|]. cbn. intros [= ->]. tauto.
    + rewrite Hth. cbn [m_mtx mtx_owner s' s1]. rewrite (H6 t), Ho.
      destruct (decide (u = t)) as [-> |Hu]; cbn.
      * rewrite decide_False, decide_True by done. done.
      * rewrite decide_False by congruence. rewrite (H6 u), Ho. done.
    + cbn. intros [= <-]. by rewrite Hpc.
    + rewrite H8. symmetry. apply waking_same; [done|]. intros v. apply Hsame.
Qed.

(** The park of a thread just linked and noted, from a state [s] that is in
    order but for them. *)
Lemma park_step s s2 L o t : tinv s L -> mtx_owner (m_mtx s) = Some o -> o <> t ->
  (t < m_n s)%nat -> th_state (m_th s t) = READY -> th_pc (m_th s t) = Out ->
  chain s2 (L ++ [t]) -> others t s s2 ->
  with_link (m_th s2 t) None = with_link (with_noted (m_th s t) true) None ->
  exists s' L', block_release_park s2 t = Done s' /\ others t s s' /\ chain s' L' /\ tinv s' L'.
Proof.
  intros Ht Ho Hot Hlt Hst Hpc Hc2 Ho2 Hs2.
  assert (th_state (m_th s2 t) = READY /\ th_pc (m_th s2 t) = Out /\
    th_noted (m_th s2 t) = true /\ th_mutex_depth (m_th s2 t) = th_mutex_depth (m_th s t) /\
    th_wake_hold (m_th s2 t) = th_wake_hold (m_th s t)) as (E1 & E2 & E3 & E4 & E5).
  { destruct (m_th s t), (m_th s2 t). unfold with_link, with_noted in Hs2. cbn in *.
    repeat split; congruence. }
  pose proof (ti_depth _ _ Ht t) as Hd. rewrite decide_False in Hd by congruence.
  unfold block_release_park. rewrite E3.
  destruct (kill_due (m_th s2 t)).
  { assert (length (L ++ [t]) <= m_n s2)%nat as Hlen.
    { rewrite (proj1 (proj2 Ho2)). apply nodup_length; [apply Hc2|].
      intros x. rewrite elem_of_app, list_elem_of_singleton. intros [Hx| ->]; [|done].
      apply (ti_range _ _ Ht). destruct (ti_mem _ _ Ht x Hx) as [-> | ->]; discriminate. }
    unfold thread_wait_unbind_locked. rewrite E3, KASSERT_true, bind_Done by done.
    destruct (unbind_chain s2 _ t Hc2 Hlen) as [Hc3 Hr3].
    set (s3 := thread_wait_forget (waiter_unbind s2 t) t).
    assert (m_th s3 t = with_noted (m_th (waiter_unbind s2 t) t) false) as Hs3
      by (unfold s3, thread_wait_forget; by rewrite m_th_modify, decide_True).
    assert (others t s s3) as Ho3.
    { transitivity s2; [done|]. transitivity (waiter_unbind s2 t);
        [by apply others_rest|apply others_modify]. }
    unfold thread_exit. rewrite Hs3. cbn [th_noted with_noted th_mutex_depth].
    rewrite (rest_depth _ _ t Hr3), E4, Hd, KASSERT_true, bind_Done by done.
    eexists _, _. split; [reflexivity|].
    split; [transitivity s3; [done|apply others_modify]|].
    split; [by apply chain_modify, chain_modify|].
    apply (tinv_change s _ L _ t Ht); [transitivity s3; [done|apply others_modify]| |].
    - intros u Hu Hin. apply in_filter, elem_of_app in Hin as [Hin|Hin]; [done|].
      by apply list_elem_of_singleton in Hin.
    - rewrite m_th_modify, decide_True, Hs3 by done.
      split; cbn; rewrite ?(rest_depth _ _ t Hr3), ?(rest_hold _ _ t Hr3); try done.
      + intros Hin. by apply not_in_filter in Hin.
      + split; [done|]. intros [?|?]; discriminate.
      + intros _ _. split; [done|congruence].
      + intros w. rewrite Hpc. done. }
  destruct (th_wake_pending (m_th s2 t)); (eexists _, _; split; [reflexivity|];
    split; [transitivity s2; [done|apply others_modify]|];
    split; [by apply chain_modify|];
    apply (tinv_change s _ L _ t Ht); [transitivity s2; [done|apply others_modify]| |];
    [intros u Hu; rewrite elem_of_app, list_elem_of_singleton; intros [?|?]; done|];
    rewrite m_th_modify, decide_True by done;
    split; cbn; rewrite ?E1, ?E3; try done; try congruence;
    try (split; [|done]; intros _; unfold in_lock; auto); try (intros _; unfold in_lock; auto);
    try (intros w; rewrite Hpc; split; discriminate)).
Qed.

(** One turn of the loop: the mutex is taken, or the thread is linked and
    parked, or sent round again, or dies. *)
Lemma lock_turn_step s L t : chain s L -> tinv s L -> (t < m_n s)%nat ->
  th_state (m_th s t) = READY -> th_pc (m_th s t) = Out -> mtx_owner (m_mtx s) <> Some t ->
  exists s', lock_turn s t = Done s' /\ minv s'.
Proof.
  intros Hc Ht Hlt Hst Hpc Hno. unfold lock_turn.
  destruct (mtx_owner (m_mtx s)) as [o|] eqn:Ho.
  2:{ eexists. split; [reflexivity|]. exists L. apply own_step; try done.
      cbn [set_owner set_mtx m_th]. rewrite <- Hpc at 1. by destruct (m_th s t). }
  unfold lock_link. rewrite KASSERT_true by (rewrite bool_decide_eq_false_2 by congruence; done).
  set (s0 := Msys (m_mtx s) _ _ _ _).
  assert (t ∉ L) as Hin by (intros Hin; destruct (ti_mem _ _ Ht t Hin) as [E|E]; congruence).
  assert (th_noted (m_th s t) = false) as Hnot.
  { destruct (th_noted (m_th s t)) eqn:E; [|done].
    apply (ti_noted _ _ Ht) in E as [E|E]; congruence. }
  destruct (push_chain s0 L t) as [Hc1 Hr1]; [by apply (chain_ext s)|done|].
  set (s1 := waiter_push s0 t) in *.
  unfold thread_wait_note. rewrite (rest_noted _ _ t Hr1).
  rewrite KASSERT_true by (cbn; by rewrite Hnot). rewrite bind_Done.
  set (s2 := modify s1 t (fun x => with_noted x true)).
  assert (chain s2 (L ++ [t])) as Hc2 by (by apply chain_modify).
  assert (others t s s2) as Ho2.
  { transitivity s0; [by repeat split|]. transitivity s1; [by apply others_rest|].
    apply others_modify. }
  assert (m_th s2 t = with_noted (m_th s1 t) true) as Hs2
    by (unfold s2; by rewrite m_th_modify, decide_True).
  assert (with_link (m_th s1 t) None = with_link (m_th s t) None) as Hs1 by apply Hr1.
  destruct (park_step s s2 L o t) as (s' & L' & Hp & Hoth & Hc' & Ht'); try done.
  { congruence. }
  { rewrite Hs2. revert Hs1. destruct (m_th s1 t), (m_th s t).
    unfold with_link, with_noted; cbn. congruence. }
  exists s'. split; [exact Hp|]. exists L'. split; [done|]. split; [done|].
  apply (wake_inv_owned _ _ o). by rewrite (proj1 Hoth).
Qed.

(** Leaving the park, and trying again. *)
Lemma resume_step s L t : chain s L -> tinv s L -> (t < m_n s)%nat ->
  th_state (m_th s t) = READY -> th_pc (m_th s t) = Resuming ->
  exists s', lock_resume s t = Done s' /\ minv s'.
Proof.
  intros Hc Ht Hlt Hst Hpc. unfold lock_resume.
  destruct (unbind_chain s L t Hc (tinv_length s L Hc Ht)) as [Hc1 Hr1].
  set (s1 := thread_wait_forget (waiter_unbind s t) t).
  set (s2 := modify s1 t (fun x => with_pc x Out)).
  assert (m_th s2 t = with_pc (with_noted (m_th (waiter_unbind s t) t) false) Out) as Hs2.
  { unfold s2, s1, thread_wait_forget. by rewrite m_th_modify, m_th_modify, !decide_True. }
  assert (mtx_owner (m_mtx s) <> Some t) as Hno
    by (intros E; apply (ti_owner _ _ Ht) in E as [E _]; congruence).
  assert (others t s s2) as Ho.
  { transitivity (waiter_unbind s t); [by apply others_rest|].
    transitivity s1; apply others_modify. }
  apply (lock_turn_step s2 (filter (fun x => x <> t) L)).
  - by apply chain_modify, chain_modify.
  - apply (tinv_change s _ L _ t Ht Ho); [intros u _; apply in_filter|].
    rewrite Hs2. split; cbn; rest_fields Hr1; try done.
    + intros Hin. by apply not_in_filter in Hin.
    + split; [done|]. intros [?|?]; discriminate.
    + by rewrite Hst.
    + intros w. rewrite Hpc. split; discriminate.
    + by rewrite Hst.
  - by rewrite (proj1 (proj2 Ho)).
  - rewrite Hs2. cbn. by rest_fields Hr1.
  - by rewrite Hs2.
  - by rewrite (proj1 Ho).
Qed.

Lemma awake_others s s' t v : others t s s' -> awake s v ->
  (v = t -> awake s' t) ->
  (forall u w, th_pc (m_th s u) = Waking w -> th_pc (m_th s' u) = Waking w) -> awake s' v.
Proof.
  intros Ho Hv Ht Hw. destruct (decide (v = t)) as [-> |Hne]; [auto|].
  unfold awake in *. rewrite (others_field th_pc t s s' v), (others_field th_state t s s' v) by done.
  destruct Hv as [?|[?|[? [u Hu]]]]; [auto|auto|]. right. right. split; [done|]. eauto.
Qed.

(** A wake, whoever sends it. *)
Lemma wake_step s L t : chain s L -> tinv s L -> th_state (m_th s t) <> FREED ->
  exists s', thread_wake s t = Done s' /\ chain s' L /\ tinv s' L /\ others t s s' /\
    (forall u, th_pc (m_th s' u) = th_pc (m_th s u)) /\
    th_wake_hold (m_th s' t) = th_wake_hold (m_th s t) /\
    (th_state (m_th s' t) = READY \/ s' = s /\ ~ alive s t) /\
    (alive s' t -> alive s t).
Proof.
  intros Hc Ht Hf. unfold thread_wake.
  pose proof (ti_block _ _ Ht t) as Hb. pose proof (ti_dead _ _ Ht t) as Hdead.
  pose proof (ti_owner _ _ Ht t) as Hown. pose proof (ti_noted _ _ Ht t) as Hnote.
  pose proof (ti_mem _ _ Ht t) as Hmem. pose proof (ti_range _ _ Ht t) as Hrange.
  assert (forall f, (forall x, th_wait_link (f x) = th_wait_link x /\ th_pc (f x) = th_pc x /\
     th_mutex_depth (f x) = th_mutex_depth x /\ th_wake_hold (f x) = th_wake_hold x /\
     th_noted (f x) = th_noted x) -> th_state (f (m_th s t)) = READY -> alive s t ->
     chain (modify s t f) L /\ tinv (modify s t f) L /\ others t s (modify s t f) /\
     (forall u, th_pc (m_th (modify s t f) u) = th_pc (m_th s u)) /\
     th_wake_hold (m_th (modify s t f) t) = th_wake_hold (m_th s t) /\
     (th_state (m_th (modify s t f) t) = READY \/ modify s t f = s /\ ~ alive s t) /\
     (alive (modify s t f) t -> alive s t)) as Hmod.
  { intros f Hfx F6 Ha. destruct (Hfx (m_th s t)) as (F1 & F2 & F3 & F4 & F5).
    assert (m_th (modify s t f) t = f (m_th s t)) as E by (by rewrite m_th_modify, decide_True).
    split; [apply chain_modify; [intros x; apply Hfx|done]|].
    split; [|split; [apply others_modify|split; [|split; [by rewrite E|split; [|auto]]]]].
    - apply (tinv_change s _ L L t Ht (others_modify t s f)); [auto|]. rewrite E.
      split; rewrite ?F2, ?F3, ?F4, ?F5, ?F6; auto; try congruence; try done.
      intros E'. apply Hown in E' as [? _]. done.
    - intros u. rewrite m_th_modify. case_decide; [by subst|done].
    - left. by rewrite E. }
  destruct (th_state (m_th s t)) eqn:Hst; [| | |done].
  - eexists. split; [reflexivity|]. apply Hmod; [intros x; by repeat split|done|by left].
  - eexists. split; [reflexivity|]. apply Hmod; [intros x; by repeat split|done|by right].
  - exists s. split; [done|]. repeat (split; [done|]). split; [|done]. right.
    split; [done|]. intros [?|?]; congruence.
Qed.

(** What a wake does to the wakes on their way. *)
Lemma wake_awake s s' t v : others t s s' ->
  (forall u, th_pc (m_th s' u) = th_pc (m_th s u)) ->
  th_state (m_th s' t) = READY -> awake s v -> awake s' v.
Proof.
  intros Ho Hpc Hst Hv. apply (awake_others s s' t); [done|done| |intros u w; by rewrite Hpc].
  intros ->. unfold awake in *. rewrite Hpc.
  destruct Hv as [?|[[? _]|[? _]]]; auto.
Qed.

Lemma spurious_step s t : minv s -> th_state (m_th s t) <> FREED ->
  exists s', thread_wake s t = Done s' /\ minv s'.
Proof.
  intros (L & Hc & Ht & Hw) Hf.
  destruct (wake_step s L t Hc Ht Hf) as (s' & Hd & Hc' & Ht' & Ho & Hpc & _ & Hst & Ha).
  exists s'. split; [done|]. exists L. split; [done|]. split; [done|].
  intros Hall Hown HL. destruct Hst as [Hst|[-> Hn]].
  - destruct Hw as [v Hv]; [|by rewrite <- (proj1 Ho)|done|].
    + intros u. destruct (decide (u = t)) as [-> |Hu]; [by apply Ha|].
      specialize (Hall u). unfold alive in *. by rewrite (others_field th_state t s s') in Hall.
    + exists v. by apply (wake_awake s s' t).
  - exfalso. apply Hn. apply Hall.
Qed.

(** The end of an unlock: the hold on [w] is dropped and [t] is done. *)
Definition unhold_done (s : msys) (t w : nat) : msys :=
  modify (modify s w (fun x => with_hold x (th_wake_hold x - 1))) t (fun x => with_pc x Out).

Lemma unhold_fields s t w u :
  let x := m_th s u in let x' := m_th (unhold_done s t w) u in
  th_pc x' = (if decide (u = t) then Out else th_pc x) /\
  th_wake_hold x' = th_wake_hold x - (if decide (u = w) then 1 else 0) /\
  th_state x' = th_state x /\ th_noted x' = th_noted x /\
  th_mutex_depth x' = th_mutex_depth x /\ th_wait_link x' = th_wait_link x.
Proof.
  unfold unhold_done. cbn zeta. rewrite !m_th_modify.
  destruct (decide (u = t)) as [-> |Hu]; destruct (decide (t = w)) as [Hw|Hw];
    subst; rewrite ?decide_True by done; cbn; repeat case_decide; subst; cbn; repeat split;
    try congruence; lia.
Qed.

Lemma unhold_waking s t w v : (t < m_n s)%nat -> th_pc (m_th s t) = Waking w ->
  waking (unhold_done s t w) v = waking s v - (if decide (v = w) then 1 else 0).
Proof.
  intros Ht Hpc. unfold unhold_done. rewrite waking_modify by done.
  rewrite (waking_same s (modify s w _)); [|done|].
  - rewrite m_th_modify. cbn [th_pc with_pc].
    assert (th_pc (if decide (t = w) then with_hold (m_th s w) (th_wake_hold (m_th s w) - 1)
      else m_th s t) = Waking w) as -> by (case_decide; [subst|]; done).
    rewrite (bool_decide_eq_false_2 (Out = Waking v)) by done.
    case_decide; [subst; rewrite bool_decide_eq_true_2 by done|
                  rewrite bool_decide_eq_false_2 by congruence]; cbn; lia.
  - intros u. rewrite m_th_modify. case_decide; by subst.
Qed.

Lemma unhold_tinv s L t w : chain s L -> tinv s L -> (t < m_n s)%nat ->
  th_pc (m_th s t) = Waking w -> chain (unhold_done s t w) L /\ tinv (unhold_done s t w) L.
Proof.
  intros Hc [H1 H2 H3 H4 H5 H6 H7 H8 H9 H10] Hlt Hpc.
  pose proof (unhold_fields s t w) as Hf.
  split; [apply (chain_ext s); try done; intros u; apply Hf|].
  split; intros u; destruct (Hf u) as (F1 & F2 & F3 & F4 & F5 & F6); cbn zeta in *;
    rewrite ?F1, ?F2, ?F3, ?F4, ?F5.
  - intros Hin. pose proof (H1 u Hin) as Hl. destruct (decide (u = t)) as [-> |]; [|done].
    destruct Hl; congruence.
  - destruct (decide (u = t)) as [-> |]; [done|apply H2].
  - destruct (decide (u = t)) as [-> |]; [|apply H3]. rewrite H3, Hpc. unfold in_lock.
    split; intros [?|?]; discriminate.
  - intros E. apply H4 in E. destruct (decide (u = t)) as [-> |]; [congruence|done].
  - unfold alive. rewrite F3. intros Ha. apply H5 in Ha as [E Ho].
    split; [by destruct (decide (u = t))|done].
  - apply H6.
  - intros Ho. apply H7 in Ho as [E Hn]. split; [by destruct (decide (u = t))|done].
  - by rewrite H8, (unhold_waking s t w u Hlt Hpc).
  - intros v. destruct (decide (u = t)); [discriminate|apply H9].
  - intros E. rewrite (H10 u E).
    destruct (decide (u = w)) as [-> |]; [|lia]. pose proof (waking_pos s t w Hlt Hpc).
    rewrite <- H8, (H10 w E) in *. lia.
Qed.

(** The wake an unlock owes, and the end of its hold. *)
Lemma deliver_step s t w : minv s -> (t < m_n s)%nat -> th_state (m_th s t) = READY ->
  th_pc (m_th s t) = Waking w -> exists s', unlock_wake s t w = Done s' /\ minv s'.
Proof.
  intros (L & Hc & Ht & Hw) Hlt Hst Hpc. unfold unlock_wake.
  assert (0 < th_wake_hold (m_th s w)) as Hh
    by (rewrite (ti_hold _ _ Ht); by apply (waking_pos s t)).
  assert (th_state (m_th s w) <> FREED) as Hf
    by (intros E; apply (ti_freed _ _ Ht) in E; lia).
  destruct (wake_step s L w Hc Ht Hf) as (s1 & -> & Hc1 & Ht1 & Ho1 & Hpc1 & Hh1 & Hst1 & Ha1).
  rewrite bind_Done. unfold thread_unhold. rewrite Hh1.
  rewrite KASSERT_true by lia. rewrite bind_Done. fold (unhold_done s1 t w).
  eexists. split; [reflexivity|]. exists L. pose proof Ho1 as (Hown & Hn & _).
  destruct (unhold_tinv s1 L t w) as [Hc2 Ht2]; try done; [by rewrite Hn|by rewrite Hpc1|].
  split; [done|]. split; [done|]. intros Hall Hfree HL.
  pose proof (unhold_fields s1 t w) as Hfl.
  assert (forall u, alive s1 u) as Hall1
    by (intros u; specialize (Hall u); unfold alive in *; by rewrite (proj1 (proj2 (proj2 (Hfl u)))) in Hall).
  assert (forall u, alive s u) as Hall0.
  { intros u. destruct (decide (u = w)) as [-> |Hu]; [by apply Ha1|].
    specialize (Hall1 u). unfold alive in *. by rewrite (others_field th_state w s s1) in Hall1. }
  destruct Hst1 as [Hst1|[_ Hn1]]; [|by destruct Hn1].
  destruct (Hw Hall0) as [v Hv]; [by rewrite <- Hown|done|].
  assert (awake s1 v) as Hv1 by (by apply (wake_awake s s1 w)).
  destruct (decide (v = t)) as [-> |Hvt].
  { exfalso. unfold awake in Hv. rewrite Hpc in Hv. destruct Hv as [?|[[? _]|[? _]]]; discriminate. }
  exists v. destruct (Hfl v) as (F1 & _ & F3 & _). cbn zeta in *.
  unfold awake. rewrite F1, F3, decide_False by done.
  destruct Hv1 as [?|[?|[Hp [u Hu]]]]; [auto|auto|].
  destruct (decide (u = t)) as [-> |Hut].
  - rewrite Hpc1, Hpc in Hu. injection Hu as <-. auto.
  - right. right. split; [done|]. exists u. destruct (Hfl u) as (G1 & _). cbn zeta in G1.
    by rewrite G1, decide_False.
Qed.

(** Giving the mutex up. *)
Definition disowned (s : msys) (t : nat) : msys :=
  modify (set_owner s None) t (fun x => with_depth x (th_mutex_depth x - 1)).

Lemma disown_tinv s L t : chain s L -> tinv s L -> mtx_owner (m_mtx s) = Some t ->
  chain (disowned s t) L /\ tinv (disowned s t) L.
Proof.
  intros Hc [H1 H2 H3 H4 H5 H6 H7 H8 H9 H10] Ho.
  assert (forall u, let x := m_th s u in let x' := m_th (disowned s t) u in
    th_pc x' = th_pc x /\ th_state x' = th_state x /\ th_noted x' = th_noted x /\
    th_wake_hold x' = th_wake_hold x /\ th_wait_link x' = th_wait_link x /\
    th_mutex_depth x' = th_mutex_depth x - (if decide (u = t) then 1 else 0)) as Hf.
  { intros u. unfold disowned. cbn zeta. rewrite m_th_modify. cbn [set_owner set_mtx m_th].
    destruct (decide (u = t)) as [-> |]; cbn; repeat split; lia. }
  split; [apply (chain_ext s); try done; intros u; apply Hf|].
  split; intros u; destruct (Hf u) as (F1 & F2 & F3 & F4 & F5 & F6); cbn zeta in *;
    rewrite ?F1, ?F2, ?F3, ?F4, ?F6; try apply H1; try apply H2; try apply H3; try apply H4;
    try apply H9; try apply H10.
  - unfold alive. rewrite F2. intros Ha. split; [by apply H5|done].
  - rewrite H6, Ho. cbn. destruct (decide (u = t)) as [-> |Hu].
    + by rewrite decide_True, decide_False.
    + rewrite decide_False by congruence. by rewrite decide_False.
  - done.
  - rewrite H8. symmetry. apply waking_same; [done|]. intros v. apply Hf.
Qed.

(** The thread popped is held, and the wake is owed. *)
Definition owing (s : msys) (t w : nat) : msys :=
  modify (thread_hold s w) t (fun x => with_pc x (Waking w)).

Lemma owing_tinv s L t w : chain s L -> tinv s L -> (t < m_n s)%nat -> (w < m_n s)%nat ->
  t <> w -> alive s t -> alive s w -> th_pc (m_th s t) = Out -> mtx_owner (m_mtx s) = None ->
  chain (owing s t w) L /\ tinv (owing s t w) L.
Proof.
  intros Hc [H1 H2 H3 H4 H5 H6 H7 H8 H9 H10] Hlt Hlw Htw Hat Haw Hpc Ho.
  assert (forall u, let x := m_th s u in let x' := m_th (owing s t w) u in
    th_pc x' = (if decide (u = t) then Waking w else th_pc x) /\ th_state x' = th_state x /\
    th_noted x' = th_noted x /\ th_mutex_depth x' = th_mutex_depth x /\
    th_wait_link x' = th_wait_link x /\
    th_wake_hold x' = th_wake_hold x + (if decide (u = w) then 1 else 0)) as Hf.
  { intros u. unfold owing, thread_hold. cbn zeta. rewrite !m_th_modify.
    destruct (decide (u = t)) as [-> |Hu].
    - destruct (decide (t = w)) as [E|]; [done|]. cbn. repeat split; lia.
    - destruct (decide (u = w)) as [-> |]; cbn; repeat split; lia. }
  assert (forall v, waking (owing s t w) v = waking s v + (if decide (v = w) then 1 else 0)) as Hw.
  { intros v. unfold owing. rewrite waking_modify by done.
    rewrite (waking_same s (thread_hold s w)); [|done|].
    - unfold thread_hold. rewrite m_th_modify, decide_False by done. cbn [th_pc with_pc].
      rewrite Hpc, (bool_decide_eq_false_2 (Out = Waking v)) by done.
      destruct (decide (v = w)) as [-> |]; [rewrite bool_decide_eq_true_2 by done|
        rewrite bool_decide_eq_false_2 by congruence]; cbn; lia.
    - intros u. unfold thread_hold. rewrite m_th_modify. case_decide; by subst. }
  split; [apply (chain_ext s); try done; intros u; apply Hf|].
  split; intros u; destruct (Hf u) as (F1 & F2 & F3 & F4 & F5 & F6); cbn zeta in *;
    rewrite ?F1, ?F2, ?F3, ?F4, ?F6.
  - intros Hin. pose proof (H1 u Hin) as Hl. destruct (decide (u = t)) as [-> |]; [|done].
    destruct Hl; congruence.
  - destruct (decide (u = t)) as [-> |]; [done|apply H2].
  - destruct (decide (u = t)) as [-> |]; [|apply H3]. rewrite H3, Hpc. unfold in_lock.
    split; intros [?|?]; discriminate.
  - intros E. pose proof (H4 u E). destruct (decide (u = t)) as [-> |]; [congruence|done].
  - unfold alive. rewrite F2. intros Ha. destruct (decide (u = t)) as [-> |]; [done|by apply H5].
  - apply H6.
  - cbn. congruence.
  - by rewrite H8, Hw.
  - intros v. destruct (decide (u = t)); [intros [= <-]; done|apply H9].
  - intros E. rewrite (H10 u E). destruct (decide (u = w)) as [-> |]; [|lia].
    destruct Haw; congruence.
Qed.

Lemma unlock_step s t : minv s -> mtx_owner (m_mtx s) = Some t ->
  exists s', unlock_guarded s t = Done s' /\ minv s'.
Proof.
  intros (L & Hc & Ht & Hw) Ho. unfold unlock_guarded.
  rewrite KASSERT_true by (by apply bool_decide_eq_true_2).
  pose proof (ti_depth _ _ Ht t) as Hd. rewrite decide_True in Hd by done.
  rewrite KASSERT_true by lia. fold (disowned s t).
  destruct (disown_tinv s L t Hc Ht Ho) as [Hc1 Ht1].
  destruct L as [|w L].
  - unfold waiter_pop. rewrite (ch_head _ _ Hc1). cbn. eexists. split; [reflexivity|].
    exists []. split; [done|]. split; [done|]. by intros _ _ ?.
  - destruct (pop_chain _ w L Hc1) as (s2 & -> & Hc2 & Hr2).
    assert (tinv s2 L) as Ht2
      by (apply (tinv_rest _ _ _ _ Hr2 ltac:(intros u Hu; apply elem_of_cons; by right) Ht1)).
    pose proof (ti_mem _ _ Ht1 w ltac:(apply elem_of_cons; by left)) as Hwin.
    rewrite <- (rest_pc _ _ w Hr2) in Hwin.
    assert (th_pc (m_th s2 t) = Out /\ (t < m_n s2)%nat) as [Hpt Hlt].
    { rewrite (rest_pc _ _ t Hr2), (rest_n _ _ Hr2).
      destruct (ti_owner _ _ Ht t Ho) as [Hp Hn].
      split; [|done]. unfold disowned. by rewrite m_th_modify, decide_True. }
    assert (forall u, th_pc (m_th s2 u) <> Out -> alive s2 u) as Hal.
    { intros u Hu. unfold alive. destruct (th_state (m_th s2 u)) eqn:E; auto;
        destruct Hu; apply (ti_dead _ _ Ht2); intros [?|?]; congruence. }
    assert (alive s2 t) as Hat.
    { rewrite (rest_alive _ _ t Hr2). unfold alive, disowned. rewrite m_th_modify, decide_True by done.
      destruct (th_state (m_th s t)) eqn:E; cbn; rewrite E; auto;
        destruct (ti_dead _ _ Ht t); try done; intros [?|?]; congruence. }
    assert (w <> t) as Hwt by (intros ->; destruct Hwin; congruence).
    assert (th_pc (m_th s2 w) <> Out) as Hwo by (destruct Hwin as [-> | ->]; discriminate).
    fold (owing s2 t w).
    destruct (owing_tinv s2 L t w) as [Hc3 Ht3]; auto.
    { by apply (ti_range _ _ Ht2). }
    { by rewrite (rest_owner _ _ Hr2). }
    eexists. split; [reflexivity|]. exists L. split; [done|]. split; [done|].
    intros _ _ _. exists w. unfold awake, owing, thread_hold. rewrite !m_th_modify.
    rewrite (decide_False (P := w = t)), (decide_True (P := w = w)) by done. cbn.
    destruct Hwin as [Hp|Hp]; rewrite Hp; [right; right|by left].
    split; [done|]. exists t. unfold upd. by rewrite decide_True.
Qed.

(** A woken thread runs again, and may find it has been killed. *)
Lemma run_again_step s t : minv s -> (t < m_n s)%nat -> th_state (m_th s t) = READY ->
  th_pc (m_th s t) = Parked -> exists s', block_release_resume s t = Done s' /\ minv s'.
Proof.
  intros (L & Hc & Ht & Hw) Hlt Hst Hpc. unfold block_release_resume.
  assert (mtx_owner (m_mtx s) <> Some t) as Hno
    by (intros E; apply (ti_owner _ _ Ht) in E as [E _]; congruence).
  destruct (kill_due (m_th s t)).
  - destruct (exit_step s L t Hc Ht Hno) as (s' & L' & Hd & Hc' & Ht' & Ha).
    { left. by left. }
    exists s'. split; [done|]. exists L'. split; [done|]. split; [done|].
    intros Hall. by destruct (Ha (Hall t)).
  - eexists. split; [reflexivity|]. exists L. split; [by apply chain_modify|]. split.
    + apply (tinv_change s _ L L t Ht (others_modify t s _)); [auto|].
      rewrite m_th_modify, decide_True by done.
      split; cbn; try done; try congruence.
      * by right.
      * split; [by right|]. intros _. apply (ti_noted _ _ Ht). by left.
      * intros w. rewrite Hpc. split; discriminate.
    + intros _ _ _. exists t. left. by rewrite m_th_modify, decide_True.
Qed.

Lemma kill_step s t : minv s -> minv (modify s t (fun x => with_killed x true)).
Proof.
  intros (L & Hc & Ht & Hw). set (s' := modify _ _ _).
  assert (forall u, let x := m_th s u in let x' := m_th s' u in
    th_pc x' = th_pc x /\ th_state x' = th_state x /\ th_noted x' = th_noted x /\
    th_wake_hold x' = th_wake_hold x /\ th_mutex_depth x' = th_mutex_depth x) as Hf.
  { intros u. unfold s'. cbn zeta. rewrite m_th_modify. case_decide; by subst. }
  exists L. split; [by apply chain_modify|]. split.
  - destruct Ht as [H1 H2 H3 H4 H5 H6 H7 H8 H9 H10].
    split; intros u; destruct (Hf u) as (F1 & F2 & F3 & F4 & F5); cbn zeta in *;
      rewrite ?F1, ?F2, ?F3, ?F4, ?F5; auto.
    + unfold alive. rewrite F2. apply H5.
    + rewrite H8. symmetry. apply waking_same; [done|]. intros v. apply Hf.
    + intros w. apply H9.
  - intros Hall Hown HL. destruct Hw as [v Hv]; [|done|done|].
    + intros u. specialize (Hall u). unfold alive in *.
      by rewrite (proj1 (proj2 (Hf u))) in Hall.
    + exists v. unfold awake in *. destruct (Hf v) as (F1 & F2 & _). cbn zeta in *.
      rewrite F1, F2. destruct Hv as [?|[?|[? [u Hu]]]]; [auto|auto|].
      right. right. split; [done|]. exists u. by rewrite (proj1 (Hf u)).
Qed.

Lemma reap_step s t : minv s -> th_state (m_th s t) = ZOMBIE ->
  exists s', reap s t = Done s' /\ minv s'.
Proof.
  intros (L & Hc & Ht & Hw) Hst. unfold reap.
  assert (~ alive s t) as Ha by (intros [?|?]; congruence).
  destruct (ti_dead _ _ Ht t Ha) as [Hpc Hno].
  assert (th_noted (m_th s t) = false) as Hn.
  { destruct (th_noted (m_th s t)) eqn:E; [|done].
    apply (ti_noted _ _ Ht) in E as [E|E]; congruence. }
  destruct (Z.eqb_spec (th_wake_hold (m_th s t)) 0) as [Hh|Hh]; cbn [negb].
  2:{ eexists. split; [reflexivity|]. by exists L. }
  rewrite Hn, KASSERT_true by done. eexists. split; [reflexivity|].
  exists L. split; [by apply chain_modify|].
  assert (th_state (m_th (modify s t (fun x => with_state x FREED)) t) = FREED) as Hf
    by (by rewrite m_th_modify, decide_True).
  split.
  - apply (tinv_change s _ L L t Ht (others_modify t s _)); [auto|].
    rewrite m_th_modify, decide_True by done.
    split; cbn; rewrite ?Hpc; try done; [|rewrite Hn].
    + intros Hin. apply (ti_mem _ _ Ht) in Hin. by rewrite Hpc in Hin.
    + split; [done|]. intros [?|?]; discriminate.
  - intros Hall. destruct (Hall t); congruence.
Qed.

Lemma trylock_step s t : minv s -> (t < m_n s)%nat -> th_state (m_th s t) = READY ->
  th_pc (m_th s t) = Out -> minv (mutex_trylock s t).2.
Proof.
  intros (L & Hc & Ht & Hw) Hlt Hst Hpc. unfold mutex_trylock.
  destruct (mtx_owner (m_mtx s)) as [o|] eqn:Ho; [by exists L|].
  exists L. by apply (own_step s L t (fun x => with_depth x (th_mutex_depth x + 1))
    (mutex_n_acquire s)).
Qed.

Lemma minv_boot n kernel : minv (mboot n kernel).
Proof.
  exists []. split; [|split].
  - split; cbn; try done. apply NoDup_nil_2.
  - split; cbn; try done.
    + intros t Hin. by apply elem_of_nil in Hin.
    + intros t. split; [done|]. intros [?|?]; discriminate.
    + intros w. unfold waking. cbn. rewrite bool_decide_eq_false_2 by done.
      symmetry. apply (count_upto_const false).
  - by intros _ _ ?.
Qed.

Lemma mstep_minv s e : minv s -> polite e s -> exists s', mstep e s = Done s' /\ minv s'.
Proof.
  intros Hm Hp. pose proof Hm as (L & Hc & Ht & Hw).
  assert (exists s', Done s = Done s' /\ minv s') as Hid by eauto.
  assert (forall t, runs (m_th s t) = true -> th_state (m_th s t) = READY) as Hruns
    by (intros t; apply bool_decide_eq_true_1).
  destruct e as [t|t|t|t|t|t|t|t|t]; cbn [mstep polite] in *.
  1,2,3,5,6: destruct (bool_decide (t < m_n s)%nat) eqn:E1; [|done];
    destruct (runs (m_th s t)) eqn:E2; [|done]; apply Hruns in E2;
    destruct (bool_decide (th_pc (m_th s t) = _)) eqn:E3; [|done];
    apply bool_decide_eq_true_1 in E1, E3; cbn [andb].
  - by apply (lock_turn_step s L).
  - eexists. split; [reflexivity|]. by apply trylock_step.
  - by apply unlock_step.
  - by apply run_again_step.
  - by apply (resume_step s L).
  - destruct (th_pc (m_th s t)) as [| | |w] eqn:E3; try done.
    destruct (bool_decide (t < m_n s)%nat) eqn:E1; [|done].
    destruct (runs (m_th s t)) eqn:E2; [|done]. apply Hruns in E2.
    apply bool_decide_eq_true_1 in E1. by apply deliver_step.
  - destruct (bool_decide (t < m_n s)%nat); [|done].
    destruct (bool_decide (th_state (m_th s t) = FREED)) eqn:E; [done|].
    apply bool_decide_eq_false_1 in E. by apply spurious_step.
  - eexists. split; [reflexivity|]. by apply kill_step.
  - destruct (bool_decide (t < m_n s)%nat); [|done].
    destruct (bool_decide (th_state (m_th s t) = ZOMBIE)) eqn:E; [|done].
    apply bool_decide_eq_true_1 in E. by apply reap_step.
Qed.

Lemma mreach_minv n kernel s : mreach n kernel s -> minv s.
Proof.
  induction 1 as [|s e s' Hr IH Hp Hd]; [apply minv_boot|].
  destruct (mstep_minv s e IH Hp) as (s1 & Hd1 & Hm). congruence.
Qed.

(** * Runs that can be evaluated *)

Definition politeb (e : mev) (s : msys) : bool :=
  match e with
  | Lock t => negb (bool_decide (mtx_owner (m_mtx s) = Some t))
  | Unlock t => bool_decide (mtx_owner (m_mtx s) = Some t)
  | _ => true
  end.

Lemma politeb_polite e s : politeb e s = true -> polite e s.
Proof.
  destruct e; cbn; try done; [rewrite negb_true_iff|].
  - apply bool_decide_eq_false_1.
  - apply bool_decide_eq_true_1.
Qed.

Fixpoint mrun (es : list mev) (s : msys) : option msys :=
  match es with
  | [] => Some s
  | e :: es =>
      if politeb e s then match mstep e s with Done s => mrun es s | Panic _ => None end
      else None
  end.

Lemma mrun_reach n kernel es : forall s s', mreach n kernel s -> mrun es s = Some s' ->
  mreach n kernel s'.
Proof.
  induction es as [|e es IH]; cbn [mrun]; intros s s' Hr; [by intros [= <-]|].
  destruct (politeb e s) eqn:Hp; [|done]. destruct (mstep e s) as [s1|] eqn:Hd; [|done].
  apply IH. apply (mreach_step n kernel s e); [done|by apply politeb_polite|done].
Qed.

(** * The properties *)

(** [C14] The sleeping lock is safe, and loses no wake while nobody dies.  In
    every state any number of threads can reach by locking, trying, unlocking
    what they own, being woken spuriously, killed and reaped, every further
    step returns: no assertion fires and no wake touches freed memory; the
    owner is alive and holds exactly one mutex, so no kill carries it off;
    the waiter list is well linked and holds live threads inside
    [mutex_lock] only; and as long as all threads live, a free mutex with
    waiters has one of them awake or about to be woken. *)
Theorem mutex_safe (n : nat) (kernel : nat -> bool) (s : msys) :
  mreach n kernel s ->
  (forall e, polite e s -> exists s', mstep e s = Done s') /\
  (forall t, mtx_owner (m_mtx s) = Some t -> alive s t /\ th_mutex_depth (m_th s t) = 1) /\
  (exists L, chain s L /\ forall t, t ∈ L -> alive s t /\ in_lock (th_pc (m_th s t))) /\
  ((forall t, alive s t) -> mtx_owner (m_mtx s) = None -> mtx_waiters_head (m_mtx s) <> None ->
     exists t, awake s t).
Proof.
  intros Hr. pose proof (mreach_minv n kernel s Hr) as Hm. pose proof Hm as (L & Hc & Ht & Hw).
  assert (forall t, th_pc (m_th s t) <> Out \/ mtx_owner (m_mtx s) = Some t -> alive s t) as Hal.
  { intros t Hor. unfold alive. destruct (th_state (m_th s t)) eqn:E; auto;
      destruct (ti_dead _ _ Ht t) as [Hpc Hno]; try (intros [?|?]; congruence); by destruct Hor. }
  split; [|split; [|split]].
  - intros e He. destruct (mstep_minv s e Hm He) as (s' & Hd & _). eauto.
  - intros t Ho. split; [auto|]. rewrite (ti_depth _ _ Ht), decide_True by done. done.
  - exists L. split; [done|]. intros t Hin. pose proof (ti_mem _ _ Ht t Hin) as Hl.
    split; [|done]. apply Hal. left. destruct Hl as [-> | ->]; discriminate.
  - intros Hall Ho Hh. apply (Hw Hall Ho). intros ->. by rewrite (ch_head _ _ Hc) in Hh.
Qed.

(** Three user threads. *)
Definition mdemo : msys := mboot 3 (fun _ => false).

(** Two wait for the first, which has just unlocked. *)
Definition mdemo_free : msys :=
  default mdemo (mrun [Lock 0; Lock 1; Lock 2; Unlock 0] mdemo).

Lemma mdemo_free_reach : mreach 3 (fun _ => false) mdemo_free.
Proof.
  apply (mrun_reach _ _ [Lock 0; Lock 1; Lock 2; Unlock 0] mdemo); [apply mreach_boot|].
  vm_compute. reflexivity.
Qed.

Lemma mutex_safe_witness : mtx_owner (m_mtx mdemo_free) = None /\ exists t, awake mdemo_free t.
Proof.
  split; [vm_compute; reflexivity|].
  apply (mutex_safe 3 (fun _ => false) mdemo_free mdemo_free_reach).
  - intros [|[|[|t]]]; [left|right|right|left]; vm_compute; reflexivity.
  - vm_compute. reflexivity.
  - vm_compute. discriminate.
Defined.

(** [C34] A kill loses a wake: the unlock wakes the first of two waiters, a
    kill retires it before it takes the mutex, and nobody passes the wake
    on.  The mutex is free, the second waiter sleeps on its list, and no
    thread is in or on its way into the lock. *)
Theorem mutex_kill_loses_wake :
  exists s, mreach 3 (fun _ => false) s /\
    mtx_owner (m_mtx s) = None /\ mtx_waiters_head (m_mtx s) = Some 2%nat /\
    th_state (m_th s 2) = BLOCKED /\ th_state (m_th s 0) = READY /\ th_pc (m_th s 0) = Out /\
    forall t, ~ awake s t.
Proof.
  exists (default mdemo (mrun [Lock 0; Lock 1; Lock 2; Unlock 0; Deliver 0; Kill 1; RunAgain 1]
    mdemo)).
  split; [|repeat (split; [vm_compute; reflexivity|])].
  - apply (mrun_reach _ _ [Lock 0; Lock 1; Lock 2; Unlock 0; Deliver 0; Kill 1; RunAgain 1] mdemo);
      [apply mreach_boot|]. vm_compute. reflexivity.
  - intros t [H|[[H H']|[H [u Hu]]]].
    + destruct t as [|[|[|t]]]; vm_compute in H; discriminate.
    + destruct t as [|[|[|t]]]; vm_compute in H, H'; discriminate.
    + destruct u as [|[|[|u]]]; vm_compute in Hu; discriminate.
Qed.

(** Linking a thread and taking it off again changes nothing but the way the
    empty links are written. *)
Lemma push_unbind s L t : chain s L -> tinv s L -> (t < m_n s)%nat -> th_pc (m_th s t) = Out ->
  exists s1 s2, thread_wait_note (waiter_push s t) t = Done s1 /\
    kill_due (m_th s1 t) = kill_due (m_th s t) /\
    thread_wait_unbind_locked s1 t = Done s2 /\ chain s2 L /\ same_rest s s2.
Proof.
  intros Hc Ht Hlt Hpc.
  assert (t ∉ L) as Hin by (intros Hin; destruct (ti_mem _ _ Ht t Hin) as [E|E]; congruence).
  assert (th_noted (m_th s t) = false) as Hnot.
  { destruct (th_noted (m_th s t)) eqn:E; [|done].
    apply (ti_noted _ _ Ht) in E as [E|E]; congruence. }
  destruct (push_chain s L t Hc Hin) as [Hc1 Hr1].
  unfold thread_wait_note. rewrite (rest_noted _ _ t Hr1), Hnot, KASSERT_true by done.
  set (s1 := modify (waiter_push s t) t (fun x => with_noted x true)).
  assert (m_th s1 t = with_noted (m_th (waiter_push s t) t) true) as Hs1
    by (unfold s1; by rewrite m_th_modify, decide_True).
  assert (length (L ++ [t]) <= m_n s1)%nat as Hlen.
  { change (m_n s1) with (m_n (waiter_push s t)). rewrite (rest_n _ _ Hr1).
    apply nodup_length; [apply Hc1|].
    intros x. rewrite elem_of_app, list_elem_of_singleton. intros [Hx| ->]; [|done].
    apply (ti_range _ _ Ht). destruct (ti_mem _ _ Ht x Hx) as [-> | ->]; discriminate. }
  destruct (unbind_chain s1 (L ++ [t]) t) as [Hc2 Hr2]; [by apply chain_modify|done|].
  exists s1, (thread_wait_forget (waiter_unbind s1 t) t).
  split; [done|]. split; [rewrite Hs1; exact (rest_kill _ _ t Hr1)|].
  split; [unfold thread_wait_unbind_locked; by rewrite Hs1, KASSERT_true|].
  split.
  - rewrite filter_app, (filter_id t L Hin), filter_cons_False, filter_nil, app_nil_r in Hc2
      by (intros Hne; by apply Hne). by apply chain_modify.
  - destruct Hr1 as (A1 & A2 & A3 & A4 & A5), Hr2 as (B1 & B2 & B3 & B4 & B5).
    split; [cbn in *; congruence|]. split; [cbn in *; congruence|].
    split; [cbn in *; congruence|]. split; [cbn in *; congruence|].
    intros u. unfold thread_wait_forget. rewrite m_th_modify.
    specialize (A5 u). specialize (B5 u). revert B5. unfold s1. rewrite m_th_modify.
    destruct (decide (u = t)) as [-> |Hu]; [|congruence]. fold s1.
    revert A5 Hnot. destruct (m_th s t), (m_th (waiter_push s t) t), (m_th (waiter_unbind s1 t) t).
    unfold with_link, with_noted; cbn. congruence.
Qed.

Lemma goes_same s L t : tinv s L -> goes s t L (m_th s t).
Proof.
  intros [H1 H2 H3 H4 H5 H6 H7 H8 H9 H10]. split; auto; try done.
  - intros ? ?. apply H5. intros [?|?]; done.
  - intros Ho. by apply H7.
Qed.

Lemma close_recurses fuel : forall s L t o,
  chain s L -> tinv s L -> (t < m_n s)%nat -> th_pc (m_th s t) = Out ->
  mtx_owner (m_mtx s) = Some o -> o <> t -> kill_due (m_th s t) = true ->
  close_and_exit fuel s t = None.
Proof.
  induction fuel as [|fuel IH]; intros s L t o Hc Ht Hlt Hpc Ho Hot Hk; [done|].
  cbn [close_and_exit]. pose proof (ti_depth _ _ Ht t) as Hd.
  rewrite decide_False in Hd by congruence. rewrite Hd, Ho. cbn [negb Z.eqb].
  unfold lock_link. rewrite KASSERT_true by (rewrite bool_decide_eq_false_2 by congruence; done).
  set (s0 := Msys (m_mtx s) _ _ _ _).
  assert (tinv s0 L) as Ht0
    by (apply (tinv_change s _ L L t Ht); [by repeat split|auto|]; exact (goes_same s L t Ht)).
  destruct (push_unbind s0 L t) as (s1 & s2 & -> & Hk1 & -> & Hc2 & Hr2); try done;
    [by apply (chain_ext s)|].
  rewrite Hk1. change (m_th s0 t) with (m_th s t). rewrite Hk. apply (IH s2 L t o); try done.
  - by apply (tinv_rest s0 s2 L L Hr2).
  - by rewrite (rest_n _ _ Hr2).
  - by rewrite (rest_pc _ _ t Hr2).
  - by rewrite (rest_owner _ _ Hr2).
  - by rewrite (rest_kill _ _ t Hr2).
Qed.

(** [C36] A killed thread that must close a file under a mutex another thread
    owns never gets there: the park inside its exit finds the kill again and
    exits again, whatever depth of calls is allowed, instead of waiting. *)
Theorem killed_close_recurses (n : nat) (kernel : nat -> bool) (s : msys) (t o fuel : nat) :
  mreach n kernel s -> (t < m_n s)%nat -> th_pc (m_th s t) = Out ->
  mtx_owner (m_mtx s) = Some o -> o <> t ->
  th_killed (m_th s t) = true -> th_kernel (m_th s t) = false ->
  close_and_exit fuel s t = None.
Proof.
  intros Hr Hlt Hpc Ho Hot Hk Hker.
  destruct (mreach_minv n kernel s Hr) as (L & Hc & Ht & _).
  apply (close_recurses fuel s L t o); try done.
  unfold kill_due. pose proof (ti_depth _ _ Ht t) as Hd. rewrite decide_False in Hd by congruence.
  by rewrite Hd, Hk, Hker.
Qed.

(** Thread 0 owns the file layer's mutex when thread 1 is killed. *)
Definition mdemo_kill : msys := default mdemo (mrun [Lock 0; Kill 1] mdemo).

Lemma mdemo_kill_reach : mreach 3 (fun _ => false) mdemo_kill.
Proof.
  apply (mrun_reach _ _ [Lock 0; Kill 1] mdemo); [apply mreach_boot|]. vm_compute. reflexivity.
Qed.

Lemma killed_close_recurses_witness : close_and_exit 1000 mdemo_kill 1 = None.
Proof.
  apply (killed_close_recurses 3 (fun _ => false) mdemo_kill 1 0);
    [exact mdemo_kill_reach|vm_compute; lia|vm_compute; reflexivity..| | |];
    try (vm_compute; reflexivity). lia.
Defined.
