(* ===== verification/Ports.v ===== *)
(** Mach ports: [mach/port_object.c], [mach/port_space.c], the queues and
    notifications of [mach/port_msg.c], over the structures of
    [mach/port_internal.h].

    A pointer to a port, a set or a space is its number ([p_id], [ps_id]); an
    object that has been freed is gone from its map, and reaching for it is a
    panic.  The lists the code links through the objects (messages by
    [m_next], waiters by [th_wait_link], members by [p_set_link], watches by
    [nn_next]) are lists.  A call runs without interruption up to its return
    or to the place where it parks its thread. *)

From stdpp Require Import base list gmap strings numbers option.
From Stdlib Require Import ZArith Lia ZifyBool.
From S2P Require Import Prelude VmMap.

(** * Constants of [mach/port.h] and [mach/port_internal.h] *)

Definition MACH_PORT_NULL : Z := 0.
Definition MACH_PORT_DEAD : Z := 0xFFFFFFFF.
Definition MACH_PORT_RIGHT_RECEIVE : Z := 1.
Definition MACH_PORT_RIGHT_SEND : Z := 2.
Definition MACH_PORT_RIGHT_SEND_ONCE : Z := 4.
Definition MACH_PORT_RIGHT_PORT_SET : Z := 8.
Definition MACH_PORT_TYPE_DEAD_NAME : Z := 16.

Definition MACH_MSG_OK : Z := 0.
Definition MACH_E_INVAL : Z := 1.
Definition MACH_E_NAME : Z := 2.
Definition MACH_E_RIGHT : Z := 3.
Definition MACH_E_DEAD : Z := 4.
Definition MACH_E_NOSPACE : Z := 5.
Definition MACH_E_NOMSG : Z := 6.
Definition MACH_E_TOOSMALL : Z := 7.
Definition MACH_E_NOMEM : Z := 8.
Definition MACH_E_TIMEOUT : Z := 9.
Definition MACH_E_INTR : Z := 10.

Definition MACH_NOTIFY_PORT_DESTROYED : Z := 69.
Definition MACH_NOTIFY_NO_SENDERS : Z := 70.
Definition MACH_NOTIFY_SEND_ONCE : Z := 71.
Definition MACH_NOTIFY_DEAD_NAME : Z := 72.

Definition MACH_MSG_PORT_DESCRIPTOR : Z := 0.
Definition MACH_MSG_OOL_DESCRIPTOR : Z := 1.
Definition MACH_MSG_TYPE_MOVE_RECEIVE : Z := 16.
Definition MACH_MSG_TYPE_MOVE_SEND : Z := 17.
Definition MACH_MSG_TYPE_MOVE_SEND_ONCE : Z := 18.
Definition MACH_MSG_TYPE_COPY_SEND : Z := 19.
Definition MACH_MSG_TYPE_MAKE_SEND : Z := 20.
Definition MACH_MSG_TYPE_MAKE_SEND_ONCE : Z := 21.
Definition MACH_MSGH_BITS_COMPLEX : Z := 0x80000000.

Definition PORT_SPECIAL_NONE : Z := 0.
Definition PORT_SPECIAL_TASK_SELF : Z := 1.
Definition MACH_PORT_TASK_SELF : Z := 1.
Definition MACH_PORT_BOOTSTRAP : Z := 2.

Definition DEFAULT_QMAX : Z := 1024.
Definition KERNEL_QMAX : Z := 4 * DEFAULT_QMAX.
Definition INITIAL_SPACE_CAP : nat := 16.

(** * Data *)

Record pending_desc := mkPd {
  pd_type : Z;
  pd_disposition : Z;
  pd_port : option Z;
  pd_ool_size : Z;
  pd_ool_pages : option (list Z); (* pd_ool_npages is its length *)
}.

(** What [kcalloc] leaves. *)
Definition pd_zero : pending_desc := mkPd 0 0 None 0 None.

(** [m_size] and [m_ndescs] are the lengths. *)
Record port_msg := mkMsg { m_descs : list pending_desc; m_buf : list Z }.

Record stash := mkStash { p_stash_buf : Z; p_stash_thread : Z; p_stash_size : Z; p_stash_rv : Z }.
Definition no_stash : stash := mkStash 0 0 0 MACH_E_NOMSG.

Record port := mkPort {
  p_refs : Z; (* all refs *)
  p_send_count : Z;
  p_send_once_count : Z;
  p_has_receive : bool;
  p_dead : bool;
  p_qlen : Z;
  p_qresv : Z;
  p_qmax : Z;
  p_queue : list port_msg; (* p_qhead, linked by m_next *)
  p_waiters : list Z; (* threads in a receive *)
  p_send_waiters : list Z; (* threads waiting for room *)
  p_set : option Z;
  p_special : Z;
  p_special_arg : Z;
  p_stash : stash;
  p_notify_no_senders : option (Z * Z); (* target and tag *)
  p_notify_dead_name : list (Z * Z); (* nn_port and nn_tag *)
  p_notify_port_destroyed : option (Z * Z);
}.

Definition with_counts (p : port) (r : Z) (n : Z) (o : Z) : port :=
  mkPort r n o (p_has_receive p) (p_dead p) (p_qlen p) (p_qresv p) (p_qmax p) (p_queue p) (p_waiters p)
    (p_send_waiters p) (p_set p) (p_special p) (p_special_arg p) (p_stash p) (p_notify_no_senders p)
    (p_notify_dead_name p) (p_notify_port_destroyed p).
Definition with_receive (p : port) (h : bool) (d : bool) : port :=
  mkPort (p_refs p) (p_send_count p) (p_send_once_count p) h d (p_qlen p) (p_qresv p) (p_qmax p) (p_queue p)
    (p_waiters p) (p_send_waiters p) (p_set p) (p_special p) (p_special_arg p) (p_stash p)
    (p_notify_no_senders p) (p_notify_dead_name p) (p_notify_port_destroyed p).
Definition with_queue (p : port) (q : list port_msg) (n : Z) : port :=
  mkPort (p_refs p) (p_send_count p) (p_send_once_count p) (p_has_receive p) (p_dead p) n (p_qresv p)
    (p_qmax p) q (p_waiters p) (p_send_waiters p) (p_set p) (p_special p) (p_special_arg p) (p_stash p)
    (p_notify_no_senders p) (p_notify_dead_name p) (p_notify_port_destroyed p).
Definition with_qresv (p : port) (n : Z) : port :=
  mkPort (p_refs p) (p_send_count p) (p_send_once_count p) (p_has_receive p) (p_dead p) (p_qlen p) n
    (p_qmax p) (p_queue p) (p_waiters p) (p_send_waiters p) (p_set p) (p_special p) (p_special_arg p)
    (p_stash p) (p_notify_no_senders p) (p_notify_dead_name p) (p_notify_port_destroyed p).
Definition with_waiters (p : port) (l : list Z) : port :=
  mkPort (p_refs p) (p_send_count p) (p_send_once_count p) (p_has_receive p) (p_dead p) (p_qlen p)
    (p_qresv p) (p_qmax p) (p_queue p) l (p_send_waiters p) (p_set p) (p_special p) (p_special_arg p)
    (p_stash p) (p_notify_no_senders p) (p_notify_dead_name p) (p_notify_port_destroyed p).
Definition with_send_waiters (p : port) (l : list Z) : port :=
  mkPort (p_refs p) (p_send_count p) (p_send_once_count p) (p_has_receive p) (p_dead p) (p_qlen p)
    (p_qresv p) (p_qmax p) (p_queue p) (p_waiters p) l (p_set p) (p_special p) (p_special_arg p) (p_stash p)
    (p_notify_no_senders p) (p_notify_dead_name p) (p_notify_port_destroyed p).
Definition with_set (p : port) (o : option Z) : port :=
  mkPort (p_refs p) (p_send_count p) (p_send_once_count p) (p_has_receive p) (p_dead p) (p_qlen p)
    (p_qresv p) (p_qmax p) (p_queue p) (p_waiters p) (p_send_waiters p) o (p_special p) (p_special_arg p)
    (p_stash p) (p_notify_no_senders p) (p_notify_dead_name p) (p_notify_port_destroyed p).
Definition with_special (p : port) (k : Z) (a : Z) : port :=
  mkPort (p_refs p) (p_send_count p) (p_send_once_count p) (p_has_receive p) (p_dead p) (p_qlen p)
    (p_qresv p) (p_qmax p) (p_queue p) (p_waiters p) (p_send_waiters p) (p_set p) k a (p_stash p)
    (p_notify_no_senders p) (p_notify_dead_name p) (p_notify_port_destroyed p).
Definition with_stash (p : port) (h : stash) : port :=
  mkPort (p_refs p) (p_send_count p) (p_send_once_count p) (p_has_receive p) (p_dead p) (p_qlen p)
    (p_qresv p) (p_qmax p) (p_queue p) (p_waiters p) (p_send_waiters p) (p_set p) (p_special p)
    (p_special_arg p) h (p_notify_no_senders p) (p_notify_dead_name p) (p_notify_port_destroyed p).
Definition with_no_senders (p : port) (o : option (Z * Z)) : port :=
  mkPort (p_refs p) (p_send_count p) (p_send_once_count p) (p_has_receive p) (p_dead p) (p_qlen p)
    (p_qresv p) (p_qmax p) (p_queue p) (p_waiters p) (p_send_waiters p) (p_set p) (p_special p)
    (p_special_arg p) (p_stash p) o (p_notify_dead_name p) (p_notify_port_destroyed p).
Definition with_dead_name (p : port) (l : list (Z * Z)) : port :=
  mkPort (p_refs p) (p_send_count p) (p_send_once_count p) (p_has_receive p) (p_dead p) (p_qlen p)
    (p_qresv p) (p_qmax p) (p_queue p) (p_waiters p) (p_send_waiters p) (p_set p) (p_special p)
    (p_special_arg p) (p_stash p) (p_notify_no_senders p) l (p_notify_port_destroyed p).
Definition with_destroyed (p : port) (o : option (Z * Z)) : port :=
  mkPort (p_refs p) (p_send_count p) (p_send_once_count p) (p_has_receive p) (p_dead p) (p_qlen p)
    (p_qresv p) (p_qmax p) (p_queue p) (p_waiters p) (p_send_waiters p) (p_set p) (p_special p)
    (p_special_arg p) (p_stash p) (p_notify_no_senders p) (p_notify_dead_name p) o.

Record port_set := mkPset {
  ps_refs : Z;
  ps_dead : bool;
  ps_member_count : Z;
  ps_members : list Z; (* ps_members_head, linked by p_set_link *)
  ps_waiters : list Z;
}.

Record port_entry := mkPe { pe_port : option Z; pe_set : option Z; pe_rights : Z; pe_dead : bool }.
Definition pe_empty : port_entry := mkPe None None 0 false.

Record port_space := mkPspace { ps_table : list port_entry; ps_inuse : Z; ps_hint : Z }.
Definition ps_capacity (sp : port_space) : Z := Z.of_nat (length (ps_table sp)).

Definition PORT_SNAPSHOT_KIND_PORT : Z := 1.
Definition PORT_SNAPSHOT_KIND_SET : Z := 2.
Definition PORT_SNAPSHOT_FLAG_DEAD : Z := 1.

Record mach_port_snapshot_entry := mkMpse {
  mpse_name : Z;
  mpse_kind : Z;
  mpse_rights : Z;
  mpse_special : Z;
  mpse_flags : Z;
  mpse_object_id : Z;
  mpse_qlen : Z;
  mpse_qmax : Z;
  mpse_refs : Z;
  mpse_send_count : Z;
  mpse_send_once_count : Z;
  mpse_member_count : Z;
}.

(** What messages need of the address spaces ([vm/vm.c]).  A task is its
    number; a payload is the list of its frames, as many as asked for or the
    capture failed. *)
Class PayloadOps (V : Type) := {
  pl_window : V -> Z -> option (Z * Z);                (* [t_map]'s bounds, if the task has one *)
  pl_capture_kernel : V -> Z -> Z -> Z -> res (list Z * V);
  pl_capture_user : V -> Z -> Z -> Z -> Z -> res (list Z * V);
  pl_release : V -> list Z -> res V;                   (* [vm_pages_release] *)
  pl_install : V -> Z -> list Z -> res (option Z * V); (* [vm_pages_install] *)
  pl_unmap : V -> Z -> Z -> Z -> res (bool * V);       (* [vm_map_release] *)
  pl_rollback : V -> Z -> Z -> Z -> Z -> res V;        (* [recv_rollback_ool] *)
}.

Section ports.
Context {V : Type} `{PL : !PayloadOps V}.

(** The ports of the whole kernel.  [w_woken] records the threads passed to
    [thread_wake], in order; [w_depth] is how many nested calls of
    [port_deref] a kernel stack has room for. *)
Record world := mkWorld {
  w_ports : gmap Z port;
  w_sets : gmap Z port_set;
  w_spaces : gmap Z port_space;
  w_next_port_id : Z;
  w_next_space_id : Z;
  w_heap : kheap;
  w_woken : list Z;
  w_vm : V;
  w_depth : nat;
}.
Definition upd_ports (s : world) (m : gmap Z port) : world :=
  mkWorld m (w_sets s) (w_spaces s) (w_next_port_id s) (w_next_space_id s) (w_heap s) (w_woken s) (w_vm s) (w_depth s).
Definition upd_sets (s : world) (m : gmap Z port_set) : world :=
  mkWorld (w_ports s) m (w_spaces s) (w_next_port_id s) (w_next_space_id s) (w_heap s) (w_woken s) (w_vm s) (w_depth s).
Definition upd_spaces (s : world) (m : gmap Z port_space) : world :=
  mkWorld (w_ports s) (w_sets s) m (w_next_port_id s) (w_next_space_id s) (w_heap s) (w_woken s) (w_vm s) (w_depth s).
Definition upd_port_id (s : world) (n : Z) : world :=
  mkWorld (w_ports s) (w_sets s) (w_spaces s) n (w_next_space_id s) (w_heap s) (w_woken s) (w_vm s) (w_depth s).
Definition upd_space_id (s : world) (n : Z) : world :=
  mkWorld (w_ports s) (w_sets s) (w_spaces s) (w_next_port_id s) n (w_heap s) (w_woken s) (w_vm s) (w_depth s).
Definition upd_heap (s : world) (h : kheap) : world :=
  mkWorld (w_ports s) (w_sets s) (w_spaces s) (w_next_port_id s) (w_next_space_id s) h (w_woken s) (w_vm s) (w_depth s).
Definition upd_woken (s : world) (l : list Z) : world :=
  mkWorld (w_ports s) (w_sets s) (w_spaces s) (w_next_port_id s) (w_next_space_id s) (w_heap s) l (w_vm s) (w_depth s).
Definition upd_vm (s : world) (v : V) : world :=
  mkWorld (w_ports s) (w_sets s) (w_spaces s) (w_next_port_id s) (w_next_space_id s) (w_heap s) (w_woken s) v (w_depth s).

Definition get_port (s : world) (p : Z) : res port :=
  match w_ports s !! p with Some po => Done po | None => Panic "use of a freed port" end.
Definition put_port (s : world) (p : Z) (po : port) : world := upd_ports s (<[p := po]> (w_ports s)).
Definition kfree_port (s : world) (p : Z) : world := upd_ports s (delete p (w_ports s)).

Definition get_set (s : world) (q : Z) : res port_set :=
  match w_sets s !! q with Some st => Done st | None => Panic "use of a freed port set" end.
Definition put_set (s : world) (q : Z) (st : port_set) : world := upd_sets s (<[q := st]> (w_sets s)).

Definition get_space (s : world) (i : Z) : res port_space :=
  match w_spaces s !! i with Some sp => Done sp | None => Panic "use of a freed port space" end.
Definition put_space (s : world) (i : Z) (sp : port_space) : world := upd_spaces s (<[i := sp]> (w_spaces s)).

Definition w_kmalloc (s : world) : bool * world :=
  let '(ok, h) := kmalloc_ok (w_heap s) in (ok, upd_heap s h).

(** [thread_wake] of every thread of a chain, from its head. *)
Definition wake_all (s : world) (l : list Z) : world := upd_woken s (w_woken s ++ l).
Definition wake_opt (s : world) (o : option Z) : world := wake_all s (option_list o).

(** * Queues *)

(** [msg_enqueue]: the code, the thread to wake, and the state; a waiter of
    the set goes before one of the port. *)
Definition pop_waiter (s : world) (p : Z) (set : option Z) : res (option Z * world) :=
  r ← match set with
      | Some q => st ← get_set s q;
          Done match ps_waiters st with
               | w :: l => (Some w, put_set s q (mkPset (ps_refs st) (ps_dead st) (ps_member_count st) (ps_members st) l))
               | [] => (None, s)
               end
      | None => Done (None, s)
      end;
  let '(w, s) := r in
  match w with
  | Some _ => Done (w, s)
  | None =>
      po ← get_port s p;
      Done match p_waiters po with
           | w :: l => (Some w, put_port s p (with_waiters po l))
           | [] => (None, s)
           end
  end.

Definition msg_enqueue (s : world) (p : Z) (m : port_msg) (reserved : bool) : res (Z * option Z * world) :=
  po ← get_port s p;
  _ ← KASSERT (negb reserved || (0 <? p_qresv po)) "msg_enqueue: no slot was reserved";
  let po := if reserved then with_qresv po (p_qresv po - 1) else po in
  if p_dead po then Done (MACH_E_DEAD, None, put_port s p po)
  else if negb reserved && (KERNEL_QMAX <=? p_qlen po + p_qresv po) then Done (MACH_E_NOSPACE, None, put_port s p po)
  else
    let s := put_port s p (with_queue po (p_queue po ++ [m]) (p_qlen po + 1)) in
    r ← pop_waiter s p (p_set po);
    let '(w, s) := r in Done (MACH_MSG_OK, w, s).

(** [port_extract_send_waiter_locked] *)
Definition extract_send_waiter (po : port) : option Z * port :=
  match p_send_waiters po with
  | w :: l => (Some w, with_send_waiters po l)
  | [] => (None, po)
  end.

Definition msg_dequeue (s : world) (p : Z) : res (option (port_msg * option Z) * world) :=
  po ← get_port s p;
  match p_queue po with
  | [] => Done (None, s)
  | m :: q =>
      let '(w, po) := extract_send_waiter (with_queue po q (p_qlen po - 1)) in
      Done (Some (m, w), put_port s p po)
  end.

(** [port_unbind_waiter_locked], [port_set_unbind_waiter_locked] and
    [port_unbind_send_waiter_locked]: the first link to the thread goes. *)
Fixpoint unbind_waiter (l : list Z) (th : Z) : list Z :=
  match l with
  | [] => []
  | w :: l => if w =? th then l else w :: unbind_waiter l th
  end.

(** * Notifications *)

(** [struct mach_notify_header] with its [MACH_MSGH_BITS(COPY_SEND, 0)]. *)
Definition notify_buf (id tag : Z) : list Z :=
  le_bytes 4 MACH_MSG_TYPE_COPY_SEND ++ le_bytes 4 32 ++ le_bytes 4 MACH_PORT_NULL ++ le_bytes 4 MACH_PORT_NULL ++
  le_bytes 4 0 ++ le_bytes 4 id ++ le_bytes 4 tag ++ le_bytes 4 0.

Definition port_notify_enqueue (s : world) (notify_port id tag : Z) : res (Z * world) :=
  let '(ok, s) := w_kmalloc s in
  if negb ok then Done (MACH_E_NOMEM, s)
  else
    r ← msg_enqueue s notify_port (mkMsg [] (notify_buf id tag)) false;
    let '(rv, w, s) := r in Done (rv, wake_opt s w).

(** [struct mach_port_destroyed_notification] *)
Definition destroyed_buf (tag : Z) : list Z :=
  le_bytes 4 (MACH_MSGH_BITS_COMPLEX + MACH_MSG_TYPE_COPY_SEND) ++ le_bytes 4 44 ++ le_bytes 4 MACH_PORT_NULL ++
  le_bytes 4 MACH_PORT_NULL ++ le_bytes 4 0 ++ le_bytes 4 MACH_NOTIFY_PORT_DESTROYED ++
  le_bytes 4 1 ++ [MACH_MSG_PORT_DESCRIPTOR; MACH_MSG_TYPE_MOVE_RECEIVE; 0; 0] ++ le_bytes 4 MACH_PORT_NULL ++
  le_bytes 4 tag ++ le_bytes 4 0.

Definition port_destroyed_post (s : world) (notify_port p tag : Z) : res (Z * world) :=
  let '(ok, s) := w_kmalloc s in
  if negb ok then Done (MACH_E_NOMEM, s)
  else
    let '(ok, s) := w_kmalloc s in
    if negb ok then Done (MACH_E_NOMEM, s)
    else
      let d := mkPd MACH_MSG_PORT_DESCRIPTOR MACH_PORT_RIGHT_RECEIVE (Some p) 0 None in
      r ← msg_enqueue s notify_port (mkMsg [d] (destroyed_buf tag)) false;
      let '(rv, w, s) := r in Done (rv, wake_opt s w).

(** * References *)

Definition port_create (s : world) : option Z * world :=
  let '(ok, s) := w_kmalloc s in
  if negb ok then (None, s)
  else
    let id := w_next_port_id s in
    let po := mkPort 0 0 0 false false 0 0 DEFAULT_QMAX [] [] [] None PORT_SPECIAL_NONE 0 no_stash None [] None in
    (Some id, put_port (upd_port_id s (id + 1)) id po).

Definition port_ref (s : world) (p rights : Z) : res world :=
  po ← get_port s p;
  let po := if has rights MACH_PORT_RIGHT_SEND
            then with_counts po (w32 (p_refs po + 1)) (w32 (p_send_count po + 1)) (p_send_once_count po) else po in
  let po := if has rights MACH_PORT_RIGHT_SEND_ONCE
            then with_counts po (w32 (p_refs po + 1)) (p_send_count po) (w32 (p_send_once_count po + 1)) else po in
  if has rights MACH_PORT_RIGHT_RECEIVE then
    _ ← KASSERT (negb (p_has_receive po)) "port_ref: duplicate RECEIVE right";
    Done (put_port s p (with_receive (with_counts po (w32 (p_refs po + 1)) (p_send_count po) (p_send_once_count po))
                          true (p_dead po)))
  else Done (put_port s p po).

Definition port_hold (s : world) (p : Z) : res world :=
  po ← get_port s p;
  Done (put_port s p (with_counts po (w32 (p_refs po + 1)) (p_send_count po) (p_send_once_count po))).

(** The walk of [port_leave_set] and [port_set_remove]: every member up to
    [p] has its [p_set_link] read. *)
Fixpoint unlink_member (s : world) (p : Z) (l : list Z) : res (bool * list Z) :=
  match l with
  | [] => Done (false, [])
  | cur :: l =>
      _ ← get_port s cur;
      if cur =? p then Done (true, l)
      else r ← unlink_member s p l; let '(found, l) := r in Done (found, cur :: l)
  end.

Definition set_unlink (s : world) (p q : Z) : res (bool * world) :=
  st ← get_set s q;
  r ← unlink_member s p (ps_members st);
  let '(found, l) := r in
  Done (found : bool, if found then put_set s q (mkPset (ps_refs st) (ps_dead st) (ps_member_count st - 1) l (ps_waiters st))
               else s).

Definition port_leave_set (s : world) (p q : Z) : res world :=
  r ← set_unlink s p q;
  let '(_, s) := r in
  _ ← get_port s p;                                       (* p->p_set_link = NULL *)
  Done s.

(** What a dropped right leaves to be done once [p_lock] is released. *)
Record fallout := mkFallout {
  f_drain : list port_msg;
  f_wake : list Z;
  f_send_wake : list Z;
  f_no_senders : option (Z * Z);
  f_fire : bool;
  f_dead_name : list (Z * Z);
  f_member_of : option Z;
}.

Definition drop_send (po : port) : res port :=
  _ ← KASSERT (0 <? p_send_count po) "port_deref: SEND underflow";
  _ ← KASSERT (0 <? p_refs po) "port_deref: refs underflow";
  Done (with_counts po (p_refs po - 1) (p_send_count po - 1) (p_send_once_count po)).

Definition drop_send_once (po : port) : res port :=
  _ ← KASSERT (0 <? p_send_once_count po) "port_deref: SEND_ONCE underflow";
  _ ← KASSERT (0 <? p_refs po) "port_deref: refs underflow";
  Done (with_counts po (p_refs po - 1) (p_send_count po) (p_send_once_count po - 1)).

Definition drop_receive (po : port) : res (port * fallout) :=
  _ ← KASSERT (p_has_receive po) "port_deref: RECEIVE not held";
  _ ← KASSERT (0 <? p_refs po) "port_deref: refs underflow";
  let f := mkFallout (p_queue po) (p_waiters po) (p_send_waiters po) (p_notify_no_senders po) false
             (p_notify_dead_name po) (p_set po) in
  let po := with_counts (with_receive po false true) (p_refs po - 1) (p_send_count po) (p_send_once_count po) in
  let po := with_send_waiters (with_waiters (with_queue po [] 0) []) [] in
  Done (with_dead_name (with_no_senders (with_set po None) None) [], f).

(** The last sender left while RECEIVE is held. *)
Definition senders_gone (po : port) (rights : Z) (f : fallout) : port * fallout :=
  if has rights (Z.lor MACH_PORT_RIGHT_SEND MACH_PORT_RIGHT_SEND_ONCE) && (p_send_count po =? 0) &&
     (p_send_once_count po =? 0) && p_has_receive po && negb (p_dead po)
  then
    match p_notify_no_senders po with
    | Some n => (with_no_senders po None,
                 mkFallout (f_drain f) (f_wake f) (f_send_wake f) (Some n) true (f_dead_name f) (f_member_of f))
    | None =>
        if (p_qlen po =? 0) && negb (bool_decide (p_waiters po = []))
        then (with_waiters (with_receive po (p_has_receive po) true) [],
              mkFallout (f_drain f) (p_waiters po) (f_send_wake f) (f_no_senders f) (f_fire f) (f_dead_name f)
                (f_member_of f))
        else (po, f)
    end
  else (po, f).

(** [port_deref] under [p_lock]. *)
Definition deref_locked (po : port) (rights : Z) : res (port * fallout) :=
  po ← (if has rights MACH_PORT_RIGHT_SEND then drop_send po else Done po);
  po ← (if has rights MACH_PORT_RIGHT_SEND_ONCE then drop_send_once po else Done po);
  r ← (if has rights MACH_PORT_RIGHT_RECEIVE then drop_receive po
       else Done (po, mkFallout [] [] [] None false [] None));
  let '(po, f) := r in Done (senders_gone po rights f).

Section recursion.
(** [port_deref], one call deeper. *)
Variable deref : world -> Z -> Z -> res world.

Definition pd_ool_drop (s : world) (pd : pending_desc) : res world :=
  match pd_ool_pages pd with
  | None => Done s
  | Some pas => v ← pl_release (w_vm s) pas; Done (upd_vm s v)
  end.

Fixpoint free_pending_descs (s : world) (descs : list pending_desc) : res world :=
  match descs with
  | [] => Done s
  | pd :: descs =>
      s ← match pd_port pd with
          | Some p => if pd_type pd =? MACH_MSG_PORT_DESCRIPTOR then deref s p (pd_disposition pd)
                      else if pd_type pd =? MACH_MSG_OOL_DESCRIPTOR then pd_ool_drop s pd else Done s
          | None => if pd_type pd =? MACH_MSG_OOL_DESCRIPTOR then pd_ool_drop s pd else Done s
          end;
      free_pending_descs s descs
  end.

Fixpoint drain (s : world) (l : list port_msg) : res world :=
  match l with
  | [] => Done s
  | m :: l => s ← free_pending_descs s (m_descs m); drain s l
  end.

(** The last loop of [port_free]: watches that never fired. *)
Fixpoint release_watches (s : world) (p : Z) (l : list (Z * Z)) : res world :=
  match l with
  | [] => Done s
  | (n, _) :: l =>
      s ← deref s n MACH_PORT_RIGHT_SEND;
      po ← get_port s p;
      release_watches (put_port s p (with_dead_name po l)) p l
  end.

Definition port_free (s : world) (p : Z) : res world :=
  po ← get_port s p;
  _ ← KASSERT (p_refs po =? 0) "port_free: refs != 0";
  _ ← KASSERT (p_send_count po =? 0) "port_free: send_count != 0";
  _ ← KASSERT (p_send_once_count po =? 0) "port_free: send_once_count != 0";
  _ ← KASSERT (negb (p_has_receive po)) "port_free: receive right still held";
  _ ← KASSERT (bool_decide (p_waiters po = [])) "port_free: recv waiters still parked";
  _ ← KASSERT (bool_decide (p_send_waiters po = [])) "port_free: send waiters still parked";
  _ ← KASSERT (p_qresv po =? 0) "port_free: a sender still holds a slot";
  _ ← KASSERT (bool_decide (p_notify_port_destroyed po = None)) "port_free: PORT_DESTROYED still armed";
  s ← drain s (p_queue po);
  po ← get_port s p;
  s ← release_watches s p (p_notify_dead_name po);
  Done (kfree_port s p).

Definition port_destroyed_divert (s : world) (p : Z) : res (bool * world) :=
  po ← get_port s p;
  let po1 := with_destroyed po None in
  match p_notify_port_destroyed po with
  | None => Done (false, put_port s p po1)
  | Some (notify, tag) =>
      if p_dead po then s ← deref (put_port s p po1) notify MACH_PORT_RIGHT_SEND; Done (false, s)
      else
        let s := put_port s p (with_waiters (with_set po1 None) []) in
        s ← match p_set po with Some q => port_leave_set s p q | None => Done s end;
        let s := wake_all s (p_waiters po) in
        r ← port_destroyed_post s notify p tag;
        let '(rv, s) := r in
        s ← deref s notify MACH_PORT_RIGHT_SEND;
        Done (rv =? MACH_MSG_OK, s)
  end.

(** The DEAD_NAME watches, each fired and released. *)
Fixpoint fire_dead_names (s : world) (l : list (Z * Z)) : res world :=
  match l with
  | [] => Done s
  | (n, tag) :: l =>
      r ← port_notify_enqueue s n MACH_NOTIFY_DEAD_NAME tag;
      s ← deref (snd r) n MACH_PORT_RIGHT_SEND;
      fire_dead_names s l
  end.

(** [port_deref] after [p_lock]: what the dropped right set off. *)
Definition cascade (s : world) (f : fallout) : res world :=
  s ← match f_no_senders f with
      | Some (n, tag) =>
          s ← (if f_fire f then r ← port_notify_enqueue s n MACH_NOTIFY_NO_SENDERS tag; Done (snd r) else Done s);
          deref s n MACH_PORT_RIGHT_SEND
      | None => Done s
      end;
  s ← fire_dead_names s (f_dead_name f);
  drain s (f_drain f).

Definition deref_unlocked (s : world) (p : Z) (f : fallout) (last : bool) : res world :=
  s ← cascade s f;
  let s := wake_all (wake_all s (f_wake f)) (f_send_wake f) in
  s ← match f_member_of f with Some q => port_leave_set s p q | None => Done s end;
  if last then port_free s p else Done s.

Definition deref_call (s : world) (p rights : Z) : res world :=
  r ← (if has rights MACH_PORT_RIGHT_RECEIVE then port_destroyed_divert s p else Done (false, s));
  let '(diverted, s) := (r : bool * world) in
  let rights := if diverted then Z.ldiff rights MACH_PORT_RIGHT_RECEIVE else rights in
  if diverted && (rights =? 0) then Done s
  else
    po ← get_port s p;
    r ← deref_locked po rights;
    let '(po, f) := r in
    deref_unlocked (put_port s p po) p f (p_refs po =? 0).

End recursion.

Fixpoint port_deref_n (depth : nat) (s : world) (p rights : Z) : res world :=
  match depth with
  | O => Panic "kernel stack exhausted"
  | S depth => deref_call (port_deref_n depth) s p rights
  end.

Definition port_deref (s : world) (p rights : Z) : res world := port_deref_n (w_depth s) s p rights.

Definition port_release (s : world) (p : Z) : res world :=
  po ← get_port s p;
  _ ← KASSERT (0 <? p_refs po) "port_release: refs underflow";
  let s := put_port s p (with_counts po (p_refs po - 1) (p_send_count po) (p_send_once_count po)) in
  if p_refs po - 1 =? 0 then port_free (port_deref_n (w_depth s)) s p else Done s.

(** [dest_ref] and [dest_unref]: a hold when no right names the destination. *)
Definition dest_ref (s : world) (p kind : Z) : res world :=
  if kind =? 0 then port_hold s p else port_ref s p kind.
Definition dest_unref (s : world) (p kind : Z) : res world :=
  if kind =? 0 then port_release s p else port_deref s p kind.

(** * Port sets *)

Definition port_set_create (s : world) : option Z * world :=
  let '(ok, s) := w_kmalloc s in
  if negb ok then (None, s)
  else
    let id := w_next_port_id s in
    (Some id, put_set (upd_port_id s (id + 1)) id (mkPset 0 false 0 [] [])).

Definition port_set_free (s : world) (q : Z) : res world :=
  st ← get_set s q;
  _ ← KASSERT (ps_refs st =? 0) "port_set_free: refs != 0";
  _ ← KASSERT (ps_member_count st =? 0) "port_set_free: members still attached";
  Done (upd_sets s (delete q (w_sets s))).

Definition port_set_ref (s : world) (q : Z) : res world :=
  st ← get_set s q;
  Done (put_set s q (mkPset (w32 (ps_refs st + 1)) (ps_dead st) (ps_member_count st) (ps_members st) (ps_waiters st))).

Fixpoint detach_members (s : world) (l : list Z) : res world :=
  match l with
  | [] => Done s
  | p :: l => po ← get_port s p; detach_members (put_port s p (with_set po None)) l
  end.

Definition port_set_deref (s : world) (q : Z) : res world :=
  st ← get_set s q;
  _ ← KASSERT (0 <? ps_refs st) "port_set_deref: underflow";
  if ps_refs st - 1 =? 0 then
    let s := put_set s q (mkPset 0 true 0 [] []) in
    s ← detach_members s (ps_members st);
    port_set_free (wake_all s (ps_waiters st)) q
  else
    Done (put_set s q (mkPset (ps_refs st - 1) (ps_dead st) (ps_member_count st) (ps_members st) (ps_waiters st))).

(** * Name tables *)

Definition port_space_new (s : world) : option Z * world :=
  let '(ok, s) := w_kmalloc s in
  if negb ok then (None, s)
  else
    let '(ok, s) := w_kmalloc s in
    if negb ok then (None, s)
    else
      let id := w_next_space_id s in
      (Some id, put_space (upd_space_id s (id + 1)) id (mkPspace (replicate INITIAL_SPACE_CAP pe_empty) 0 1)).

Definition get_entry (sp : port_space) (n : Z) : port_entry := default pe_empty (ps_table sp !! Z.to_nat n).
Definition set_entry (sp : port_space) (n : Z) (e : port_entry) : port_space :=
  mkPspace (<[Z.to_nat n := e]> (ps_table sp)) (ps_inuse sp) (ps_hint sp).

(** [space_grow_locked]: the new table starts with the old one. *)
Definition space_grow_locked (sp : port_space) (new_capacity : Z) (h : kheap) : option port_space * kheap :=
  let '(ok, h) := kmalloc_ok h in
  if negb ok then (None, h)
  else
    let old := take (Z.to_nat new_capacity) (ps_table sp) in
    (Some (mkPspace (old ++ replicate (Z.to_nat new_capacity - length old) pe_empty) (ps_inuse sp) (ps_hint sp)), h).

Definition slot_free (e : port_entry) : bool :=
  bool_decide (pe_port e = None) && bool_decide (pe_set e = None) && negb (pe_dead e).

(** The first free slot of [n] from [i] on. *)
Fixpoint find_slot (n : nat) (sp : port_space) (i : Z) : option Z :=
  match n with
  | O => None
  | S n => if slot_free (get_entry sp i) then Some i else find_slot n sp (i + 1)
  end.

(** The two scans: from the hint up, then from 1 to the hint. *)
Definition scan_slots (sp : port_space) : option Z :=
  let start := if ps_hint sp =? 0 then 1 else ps_hint sp in
  match find_slot (Z.to_nat (ps_capacity sp - start)) sp start with
  | Some i => Some i
  | None => find_slot (Z.to_nat (Z.min start (ps_capacity sp) - 1)) sp 1
  end.

Definition take_slot (sp : port_space) (n : Z) : port_space :=
  mkPspace (ps_table sp) (ps_inuse sp + 1) (if w32 (n + 1) <? ps_capacity sp then w32 (n + 1) else 1).

Definition space_alloc_slot_locked (sp : port_space) (h : kheap) : Z * Z * port_space * kheap :=
  match scan_slots sp with
  | Some i => (MACH_MSG_OK, w32 i, take_slot sp (w32 i), h)
  | None =>
      match space_grow_locked sp (ps_capacity sp * 2) h with
      | (None, h) => (MACH_E_NOMEM, 0, sp, h)
      | (Some sp, h) =>
          match scan_slots sp with
          | Some i => (MACH_MSG_OK, w32 i, take_slot sp (w32 i), h)
          | None => (MACH_E_NOSPACE, 0, sp, h)
          end
      end
  end.

(** The slot is found and filled under [ps_lock]. *)
Definition install_entry (s : world) (i : Z) (port set : option Z) (rights : Z) : res (Z * Z * world) :=
  sp ← get_space s i;
  let '(rv, n, sp, h) := space_alloc_slot_locked sp (w_heap s) in
  let s := upd_heap s h in
  if negb (rv =? MACH_MSG_OK) then Done (rv, 0, put_space s i sp)
  else
    let sp := set_entry sp n (mkPe port set rights (pe_dead (get_entry sp n))) in
    Done (MACH_MSG_OK, n, put_space s i sp).

Definition space_install (s : world) (i p rights : Z) : res (Z * Z * world) :=
  if rights =? 0 then Done (MACH_E_INVAL, 0, s)
  else
    r ← install_entry s i (Some p) None rights;
    let '(rv, n, s) := r in
    if negb (rv =? MACH_MSG_OK) then Done (rv, 0, s)
    else s ← port_ref s p rights; Done (MACH_MSG_OK, n, s).

Definition space_install_set (s : world) (i q : Z) : res (Z * Z * world) :=
  r ← install_entry s i None (Some q) MACH_PORT_RIGHT_PORT_SET;
  let '(rv, n, s) := r in
  if negb (rv =? MACH_MSG_OK) then Done (rv, 0, s)
  else s ← port_set_ref s q; Done (MACH_MSG_OK, n, s).

Definition space_install_no_ref (s : world) (i p rights : Z) : res (Z * Z * world) :=
  if rights =? 0 then Done (MACH_E_INVAL, 0, s) else install_entry s i (Some p) None rights.

Definition reserved_name (name : Z) : bool := (name =? MACH_PORT_NULL) || (name =? MACH_PORT_DEAD).

(** [space_lookup]: the port and the rights under the name. *)
Definition space_lookup (s : world) (i name need_right : Z) : res (option (Z * Z)) :=
  if reserved_name name then Done None
  else
    sp ← get_space s i;
    if ps_capacity sp <=? name then Done None
    else
      let e := get_entry sp name in
      match pe_port e with
      | None => Done None
      | Some p => Done (if Z.land (pe_rights e) need_right =? need_right then Some (p, pe_rights e) else None)
      end.

Definition space_lookup_set (s : world) (i name : Z) : res (option Z) :=
  if reserved_name name then Done None
  else
    sp ← get_space s i;
    Done (if ps_capacity sp <=? name then None else pe_set (get_entry sp name)).

Definition space_name_is_dead (s : world) (i name : Z) : res bool :=
  if reserved_name name then Done false
  else sp ← get_space s i; Done ((name <? ps_capacity sp) && pe_dead (get_entry sp name)).

Definition mach_port_type (s : world) (i name : Z) : res (Z * world) :=
  if reserved_name name then Done (0, s)
  else
    sp ← get_space s i;
    if ps_capacity sp <=? name then Done (0, s)
    else
      let e := get_entry sp name in
      if pe_dead e then Done (MACH_PORT_TYPE_DEAD_NAME, s)
      else
        match pe_port e, pe_set e with
        | None, None => Done (0, s)
        | _, Some _ => Done (pe_rights e, s)
        | Some p, None =>
            if has (pe_rights e) MACH_PORT_RIGHT_RECEIVE then Done (pe_rights e, s)
            else
              po ← get_port s p;
              if negb (p_dead po) then Done (pe_rights e, s)
              else
                s ← port_deref (put_space s i (set_entry sp name (mkPe None None 0 true))) p (pe_rights e);
                Done (MACH_PORT_TYPE_DEAD_NAME, s)
        end.

(** A slot given back: [ps_inuse--] and the hint lowered to it. *)
Definition free_slot (sp : port_space) (n : Z) : port_space :=
  mkPspace (ps_table sp) (ps_inuse sp - 1) (if n <? ps_hint sp then n else ps_hint sp).

(** A send-once right destroyed unused tells its target. *)
Definition notify_send_once (s : world) (p rights : Z) : res world :=
  if has rights MACH_PORT_RIGHT_SEND_ONCE
  then r ← port_notify_enqueue s p MACH_NOTIFY_SEND_ONCE 0; Done (snd r)
  else Done s.

(** What a table entry held, released: [space_drop] and [port_space_destroy]. *)
Definition release_entry (s : world) (e : port_entry) : res world :=
  s ← match pe_port e with
      | Some p => s ← notify_send_once s p (pe_rights e); port_deref s p (pe_rights e)
      | None => Done s
      end;
  match pe_set e with Some q => port_set_deref s q | None => Done s end.

Definition space_drop (s : world) (i name : Z) : res (Z * world) :=
  if reserved_name name then Done (MACH_E_INVAL, s)
  else
    sp ← get_space s i;
    if ps_capacity sp <=? name then Done (MACH_E_NAME, s)
    else
      let e := get_entry sp name in
      if pe_dead e then
        let sp := set_entry sp name (mkPe (pe_port e) (pe_set e) (pe_rights e) false) in
        Done (MACH_MSG_OK, put_space s i (free_slot sp name))
      else if bool_decide (pe_port e = None) && bool_decide (pe_set e = None) then Done (MACH_E_NAME, s)
      else
        let sp := set_entry sp name (mkPe None None 0 (pe_dead e)) in
        s ← release_entry (put_space s i (free_slot sp name)) e;
        Done (MACH_MSG_OK, s).

(** The table side of [space_drop_one_right] and [space_unbind_no_deref]: the
    port the right was taken from. *)
Definition take_right (s : world) (i name right : Z) : res (Z * option Z * world) :=
  if reserved_name name then Done (MACH_E_INVAL, None, s)
  else
    sp ← get_space s i;
    if ps_capacity sp <=? name then Done (MACH_E_NAME, None, s)
    else
      let e := get_entry sp name in
      match pe_port e with
      | None => Done (MACH_E_NAME, None, s)
      | Some p =>
          if negb (has (pe_rights e) right) then Done (MACH_E_NAME, None, s)
          else
            let r := Z.ldiff (pe_rights e) right in
            let sp := if r =? 0 then free_slot (set_entry sp name (mkPe None (pe_set e) 0 (pe_dead e))) name
                      else set_entry sp name (mkPe (Some p) (pe_set e) r (pe_dead e)) in
            Done (MACH_MSG_OK, Some p, put_space s i sp)
      end.

Definition space_drop_one_right (s : world) (i name right : Z) : res (Z * world) :=
  r ← take_right s i name right;
  match r with
  | (rv, Some p, s) => s ← port_deref s p right; Done (rv, s)
  | (rv, None, s) => Done (rv, s)
  end.

Definition space_unbind_no_deref (s : world) (i name right : Z) : res (Z * world) :=
  r ← take_right s i name right;
  let '(rv, _, s) := r in Done (rv, s).

(** The loop of [port_space_destroy] over [n] slots from [j] on. *)
Fixpoint destroy_slots (n : nat) (s : world) (i j : Z) : res world :=
  match n with
  | O => Done s
  | S n =>
      sp ← get_space s i;
      let e := get_entry sp j in
      if bool_decide (pe_port e = None) && bool_decide (pe_set e = None) then destroy_slots n s i (j + 1)
      else
        let s := put_space s i (set_entry sp j (mkPe None None 0 (pe_dead e))) in
        s ← release_entry s e;
        destroy_slots n s i (j + 1)
  end.

Definition port_space_destroy (s : world) (i : Z) : res world :=
  sp ← get_space s i;
  s ← destroy_slots (length (ps_table sp) - 1) s i 1;
  Done (upd_spaces s (delete i (w_spaces s))).

(** * The calls on name tables *)

Definition port_allocate (s : world) (i rights : Z) : res (Z * world) :=
  if (rights =? 0) || negb (Z.land rights (Z.lnot 7) =? 0) then Done (MACH_PORT_NULL, s)
  else
    match port_create s with
    | (None, s) => Done (MACH_PORT_NULL, s)
    | (Some p, s) =>
        r ← space_install s i p rights;
        let '(rv, n, s) := r in
        if negb (rv =? MACH_MSG_OK) then s ← port_free (port_deref_n (w_depth s)) s p; Done (MACH_PORT_NULL, s)
        else Done (n, s)
    end.

Definition port_deallocate (s : world) (i name : Z) : res (Z * world) := space_drop s i name.

Definition port_mod_refs (s : world) (i name right : Z) : res (Z * world) := space_drop_one_right s i name right.

Definition port_set_allocate (s : world) (i : Z) : res (Z * world) :=
  match port_set_create s with
  | (None, s) => Done (MACH_PORT_NULL, s)
  | (Some q, s) =>
      r ← space_install_set s i q;
      let '(rv, n, s) := r in
      if negb (rv =? MACH_MSG_OK) then s ← port_set_free s q; Done (MACH_PORT_NULL, s)
      else Done (n, s)
  end.

(** The set and the port two names stand for, or the code to return. *)
Definition set_and_port (s : world) (i set_name port_name : Z) : res (Z + Z * Z) :=
  q ← space_lookup_set s i set_name;
  match q with
  | None => Done (inl MACH_E_NAME)
  | Some q =>
      p ← space_lookup s i port_name MACH_PORT_RIGHT_RECEIVE;
      Done match p with None => inl MACH_E_RIGHT | Some (p, _) => inr (q, p) end
  end.

Definition port_set_insert (s : world) (i set_name port_name : Z) : res (Z * world) :=
  r ← set_and_port s i set_name port_name;
  match r with
  | inl rv => Done (rv, s)
  | inr (q, p) =>
      po ← get_port s p;
      match p_set po with
      | Some _ => Done (MACH_E_INVAL, s)
      | None =>
          let s := put_port s p (with_set po (Some q)) in
          st ← get_set s q;
          Done (MACH_MSG_OK, put_set s q (mkPset (ps_refs st) (ps_dead st) (ps_member_count st + 1)
                                            (p :: ps_members st) (ps_waiters st)))
      end
  end.

Definition port_set_remove (s : world) (i set_name port_name : Z) : res (Z * world) :=
  r ← set_and_port s i set_name port_name;
  match r with
  | inl rv => Done (rv, s)
  | inr (q, p) =>
      r ← set_unlink s p q;
      let '(found, s) := (r : bool * world) in
      if negb found then Done (MACH_E_INVAL, s)
      else po ← get_port s p; Done (MACH_MSG_OK, put_port s p (with_set po None))
  end.

(** The name of the set a port is in: the first entry of the table that
    holds it. *)
Fixpoint set_name (n : nat) (sp : port_space) (q i : Z) : Z :=
  match n with
  | O => MACH_PORT_NULL
  | S n => if bool_decide (pe_set (get_entry sp i) = Some q) then i else set_name n sp q (i + 1)
  end.

Definition port_set_extract (s : world) (i port_name : Z) : res Z :=
  r ← space_lookup s i port_name MACH_PORT_RIGHT_RECEIVE;
  match r with
  | None => Done MACH_PORT_NULL
  | Some (p, _) =>
      po ← get_port s p;
      match p_set po with
      | None => Done MACH_PORT_NULL
      | Some q => sp ← get_space s i; Done (set_name (length (ps_table sp) - 1) sp q 1)
      end
  end.

Definition port_space_inject_send (s : world) (src src_name dst : Z) : res (Z * Z * world) :=
  r ← space_lookup s src src_name MACH_PORT_RIGHT_SEND;
  match r with
  | None => Done (MACH_E_RIGHT, 0, s)
  | Some (p, _) => space_install s dst p MACH_PORT_RIGHT_SEND
  end.

(** The tag of the first watch for [notify]. *)
Fixpoint retag (l : list (Z * Z)) (notify tag : Z) : list (Z * Z) :=
  match l with
  | [] => []
  | (n, t) :: l => if n =? notify then (n, tag) :: l else (n, t) :: retag l notify tag
  end.

(** [port_dead_name_link]: the code and [was_dup]. *)
Definition port_dead_name_link (s : world) (watched notify tag : Z) : res (Z * bool * world) :=
  po ← get_port s watched;
  if p_dead po || negb (p_has_receive po) then Done (MACH_E_DEAD, false, s)
  else if bool_decide (notify ∈ (p_notify_dead_name po).*1)
  then Done (MACH_MSG_OK, true, put_port s watched (with_dead_name po (retag (p_notify_dead_name po) notify tag)))
  else Done (MACH_MSG_OK, false, put_port s watched (with_dead_name po ((notify, tag) :: p_notify_dead_name po))).

Definition port_arm_dead_name_object (s : world) (watched notify tag : Z) : res (Z * world) :=
  let '(ok, s) := w_kmalloc s in
  if negb ok then Done (MACH_E_NOMEM, s)
  else
    s ← port_ref s notify MACH_PORT_RIGHT_SEND;
    r ← port_dead_name_link s watched notify tag;
    let '(rv, dup, s) := r in
    if negb (rv =? MACH_MSG_OK) || dup then s ← port_deref s notify MACH_PORT_RIGHT_SEND; Done (rv, s)
    else Done (rv, s).

(** The single slots: NO_SENDERS and PORT_DESTROYED. *)
Definition set_registration (po : port) (notify_type notify tag : Z) : option (Z * Z) * port :=
  if notify_type =? MACH_NOTIFY_NO_SENDERS
  then (p_notify_no_senders po, with_no_senders po (Some (notify, tag)))
  else (p_notify_port_destroyed po, with_destroyed po (Some (notify, tag))).

Definition port_request_notification (s : world) (i name notify_type notify_name tag : Z) : res (Z * world) :=
  let required := if (notify_type =? MACH_NOTIFY_NO_SENDERS) || (notify_type =? MACH_NOTIFY_PORT_DESTROYED)
                  then Some MACH_PORT_RIGHT_RECEIVE
                  else if notify_type =? MACH_NOTIFY_DEAD_NAME then Some MACH_PORT_RIGHT_SEND else None in
  match required with
  | None => Done (MACH_E_INVAL, s)
  | Some required =>
      r ← space_lookup s i name required;
      match r with
      | None => Done (MACH_E_RIGHT, s)
      | Some (source, _) =>
          r ← space_lookup s i notify_name MACH_PORT_RIGHT_SEND;
          match r with
          | None => Done (MACH_E_RIGHT, s)
          | Some (notify, _) =>
              if source =? notify then Done (MACH_E_INVAL, s)
              else if notify_type =? MACH_NOTIFY_DEAD_NAME then port_arm_dead_name_object s source notify tag
              else
                s ← port_ref s notify MACH_PORT_RIGHT_SEND;
                po ← get_port s source;
                let '(prev, po) := set_registration po notify_type notify tag in
                let s := put_port s source po in
                match prev with
                | Some (n, _) => s ← port_deref s n MACH_PORT_RIGHT_SEND; Done (MACH_MSG_OK, s)
                | None => Done (MACH_MSG_OK, s)
                end
          end
      end
  end.

(** * Ports of the kernel itself *)

Definition port_create_kernel_owned (s : world) (kind arg : Z) : res (option Z * world) :=
  match port_create s with
  | (None, s) => Done (None, s)
  | (Some p, s) =>
      po ← get_port s p;
      s ← port_ref (put_port s p (with_special po kind arg)) p MACH_PORT_RIGHT_RECEIVE;
      Done (Some p, s)
  end.

(** [port_install_task_self] on task [t_id] with the space [i] and no self
    port yet: the code and the port. *)
Definition port_install_task_self (s : world) (t_id i : Z) : res (Z * option Z * world) :=
  match port_create s with
  | (None, s) => Done (MACH_E_NOMEM, None, s)
  | (Some p, s) =>
      po ← get_port s p;
      _ ← KASSERT (negb (t_id =? 0)) "port_install_task_self: task id 0";
      s ← port_ref (put_port s p (with_special po PORT_SPECIAL_TASK_SELF t_id)) p MACH_PORT_RIGHT_RECEIVE;
      r ← space_install s i p MACH_PORT_RIGHT_SEND;
      let '(rv, n, s) := r in
      if negb (rv =? MACH_MSG_OK) then s ← port_deref s p MACH_PORT_RIGHT_RECEIVE; Done (rv, None, s)
      else
        _ ← KASSERT (n =? MACH_PORT_TASK_SELF) "port_install_task_self: was the port_space pre-populated?";
        Done (MACH_MSG_OK, Some p, s)
  end.

Definition port_release_task_self (s : world) (t_self_port : option Z) : res world :=
  match t_self_port with
  | None => Done s
  | Some p => port_deref s p MACH_PORT_RIGHT_RECEIVE
  end.

Definition port_install_send_in_kernel (s : world) (kernel_space p : Z) : res (Z * Z * world) :=
  space_install s kernel_space p MACH_PORT_RIGHT_SEND.

Definition port_install_bootstrap (s : world) (bootstrap : option Z) (i : Z) : res (Z * world) :=
  match bootstrap with
  | None => Done (MACH_E_DEAD, s)
  | Some p =>
      r ← space_install s i p MACH_PORT_RIGHT_SEND;
      let '(rv, n, s) := r in
      if negb (rv =? MACH_MSG_OK) then Done (rv, s)
      else
        _ ← KASSERT (n =? MACH_PORT_BOOTSTRAP) "port_install_bootstrap: was MACH_PORT_TASK_SELF installed first?";
        Done (MACH_MSG_OK, s)
  end.

(** * Start-up and introspection *)

(** [port_subsystem_init]: the empty system with the kernel's own space. *)
Definition port_subsystem_init (h : kheap) (v : V) (depth : nat) : res (Z * world) :=
  match port_space_new (mkWorld ∅ ∅ ∅ 1 1 h [] v depth) with
  | (Some kernel_space, s) => Done (kernel_space, s)
  | (None, _) => Panic "port_subsystem_init: kernel_space allocation failed"
  end.

Definition port_space_inuse (s : world) (i : Z) : res Z := sp ← get_space s i; Done (ps_inuse sp).

Definition port_queue_len (s : world) (i name : Z) : res Z :=
  x ← space_lookup s i name 0;
  match x with
  | None => Done 0
  | Some (p, _) => po ← get_port s p; Done (p_qlen po)
  end.

(** A set's or a port's entry of a snapshot. *)
Definition snapshot_entry (s : world) (name : Z) (e : port_entry) : res (option mach_port_snapshot_entry) :=
  match pe_port e, pe_set e with
  | None, None => Done None
  | _, Some q =>
      st ← get_set s q;
      Done (Some (mkMpse (w32 name) PORT_SNAPSHOT_KIND_SET (pe_rights e) PORT_SPECIAL_NONE (if ps_dead st then PORT_SNAPSHOT_FLAG_DEAD else 0)
                    q 0 0 (ps_refs st) 0 0 (w32 (ps_member_count st))))
  | Some p, None =>
      po ← get_port s p;
      Done (Some (mkMpse (w32 name) PORT_SNAPSHOT_KIND_PORT (pe_rights e) (p_special po) (if p_dead po then PORT_SNAPSHOT_FLAG_DEAD else 0)
                    p (w32 (p_qlen po)) (w32 (p_qmax po)) (p_refs po) (p_send_count po) (p_send_once_count po) 0))
  end.

(** The loop of [port_space_snapshot]: slots [name] on, [room] entries left. *)
Fixpoint snapshot_slots (l : list port_entry) (s : world) (name : Z) (room : nat) : res (list mach_port_snapshot_entry) :=
  match l, room with
  | [], _ | _, O => Done []
  | e :: l, S room' =>
      x ← snapshot_entry s name e;
      match x with
      | None => snapshot_slots l s (name + 1) room
      | Some y => r ← snapshot_slots l s (name + 1) room'; Done (y :: r)
      end
  end.

Definition port_space_snapshot (s : world) (i : Z) (max_entries : nat) : res (list mach_port_snapshot_entry) :=
  sp ← get_space s i; snapshot_slots (drop 1 (ps_table sp)) s 1 max_entries.

End ports.
