(* ===== verification/PortMsg.v ===== *)
(** Messages: [mach/port_msg.c].  A message is its bytes; a read or a write
    past them is a panic.  A sender's bytes are fetched twice, the header and
    then the whole, and may differ.  A call that parks its thread returns what
    it needs to go on; waking it up is another call. *)

From stdpp Require Import base list gmap strings numbers option.
From Stdlib Require Import ZArith Lia ZifyBool.
From S2P Require Import Prelude VmMap Ports.

(** * Bytes *)

Definition le_val (l : list Z) : Z := fold_right (fun x v => x + 256 * v) 0 l.

Definition ld (n : nat) (b : list Z) (off : Z) : res Z :=
  if (0 <=? off) && (off + Z.of_nat n <=? Z.of_nat (length b))
  then Done (le_val (take n (drop (Z.to_nat off) b)))
  else Panic "read past the end of a message".

Definition st (n : nat) (b : list Z) (off v : Z) : res (list Z) :=
  if (0 <=? off) && (off + Z.of_nat n <=? Z.of_nat (length b))
  then Done (take (Z.to_nat off) b ++ le_bytes n v ++ drop (Z.to_nat off + n) b)
  else Panic "write past the end of a message".

(** [n] bytes of a task's memory. *)
Definition fetch (u : nat -> Z) (n : nat) : list Z := (fun i => w8 (u i)) <$> seq 0 n.

(** * The wire format of [mach/port.h] *)

Definition MSG_HDR : Z := 24.
Definition MSG_BODY : Z := 4.
Definition PORT_DESC : Z := 8.
Definition OOL_DESC : Z := 16.
Definition MAX_MSG_BYTES : Z := 4096.
Definition MACH_MSG_OOL_MAX_BYTES : Z := 2 ^ 20.
Definition MACH_MSG_VIRTUAL_COPY : Z := 0.
Definition MACH_MSG_PHYSICAL_COPY : Z := 1.
Definition MACH_EXC_FAULT : Z := 100.
Definition PORT_SPECIAL_BOOTSTRAP : Z := 2.
Definition PORT_SPECIAL_SERVICE : Z := 3.

Definition msgh_bits (b : list Z) : res Z := ld 4 b 0.
Definition msgh_size (b : list Z) : res Z := ld 4 b 4.
Definition msgh_remote (b : list Z) : res Z := ld 4 b 8.
Definition msgh_local (b : list Z) : res Z := ld 4 b 12.
Definition msgh_voucher (b : list Z) : res Z := ld 4 b 16.
Definition msgh_descriptor_count (b : list Z) : res Z := ld 4 b MSG_HDR.

Definition MACH_MSGH_BITS_REMOTE (bits : Z) : Z := Z.land bits 0xFF.
Definition MACH_MSGH_BITS_LOCAL (bits : Z) : Z := Z.land (Z.shiftr bits 8) 0xFF.
Definition MACH_MSGH_BITS (remote loc : Z) : Z := Z.lor (Z.land remote 0xFF) (Z.shiftl (Z.land loc 0xFF) 8).
Definition MACH_MSGH_BITS_USED_MASK : Z := Z.lor MACH_MSGH_BITS_COMPLEX 0xFFFF.

Definition msg_validate (h : list Z) : res Z :=
  size ← msgh_size h;
  bits ← msgh_bits h;
  voucher ← msgh_voucher h;
  Done (if size <? MSG_HDR then MACH_E_INVAL
        else if MAX_MSG_BYTES <? size then MACH_E_INVAL
        else if negb (Z.land bits (Z.lnot MACH_MSGH_BITS_USED_MASK) =? 0) then MACH_E_INVAL
        else if negb (voucher =? 0) then MACH_E_INVAL
        else MACH_MSG_OK).

(** [desc_step]: the stride and the tag of the descriptor at [off]; a stride
    of 0 is a bad descriptor. *)
Definition desc_step (b : list Z) (off cap : Z) : res (Z * Z) :=
  if cap <=? off then Done (0, 0)
  else
    t ← ld 1 b off;
    let stride := if t =? MACH_MSG_PORT_DESCRIPTOR then PORT_DESC
                  else if t =? MACH_MSG_OOL_DESCRIPTOR then OOL_DESC else 0 in
    Done (if (stride =? 0) || (cap <? off + stride) then (0, 0) else (stride, t)).

(** The walk that checks [n] descriptors before any is processed. *)
Fixpoint desc_walk (n : nat) (b : list Z) (off cap : Z) : res bool :=
  match n with
  | O => Done true
  | S n =>
      r ← desc_step b off cap;
      if r.1 =? 0 then Done false else desc_walk n b (off + r.1) cap
  end.

Definition page_round (size : Z) : Z := Z.ldiff (size + 0xFFF) 0xFFF.

(** * Who calls *)

(** [c_user]: a task other than [kernel_task]. *)
Record caller := mkCaller { c_thread : Z; c_task : Z; c_user : bool; c_trusted : bool; c_kernel_send : bool }.

Section messages.
Context {V : Type} `{PL : !PayloadOps V}.
Abbreviation world := (world (V := V)).

(** A kernel object's dispatcher: the world, the caller, [p_special] and
    [p_special_arg], the request, and the sender's space. *)
Variable dispatch : world -> caller -> Z -> Z -> list Z -> Z -> res (Z * world).

(** * Slots *)

Definition wake_next (s : world) (p : Z) (po : port) : world :=
  let '(w, po) := extract_send_waiter po in wake_opt (put_port s p po) w.

(** One trip of [msg_reserve]'s loop for thread [th], [expired] when the
    deadline has passed (or the send may not wait). *)
Inductive slot := Reserved | Refused (rv : Z) | Parked.

Definition reserve_leave (s : world) (p rv : Z) : res (slot * world) :=
  po ← get_port s p;
  Done (Refused rv, if p_qlen po + p_qresv po <? p_qmax po then wake_next s p po else s).

Definition msg_reserve (s : world) (p th : Z) (always expired : bool) : res (slot * world) :=
  po ← get_port s p;
  if p_dead po then reserve_leave s p MACH_E_DEAD
  else if p_qlen po + p_qresv po <? (if always then KERNEL_QMAX else p_qmax po)
  then Done (Reserved, put_port s p (with_qresv po (p_qresv po + 1)))
  else if always then reserve_leave s p MACH_E_NOSPACE
  else if expired then reserve_leave s p MACH_E_TIMEOUT
  else
    _ ← KASSERT (negb (bool_decide (th ∈ p_send_waiters po))) "send: already on this port's send-waiter list";
    Done (Parked, put_port s p (with_send_waiters po (p_send_waiters po ++ [th]))).

(** After the park: off the list, then out ([live] is false for a killed
    task) or round again. *)
Definition msg_reserve_resume (s : world) (p th : Z) (live expired : bool) : res (slot * world) :=
  po ← get_port s p;
  let s := put_port s p (with_send_waiters po (unbind_waiter (p_send_waiters po) th)) in
  if live then msg_reserve s p th false expired else reserve_leave s p MACH_E_INTR.

Definition msg_unreserve (s : world) (p : Z) : res world :=
  po ← get_port s p;
  _ ← KASSERT (0 <? p_qresv po) "msg_unreserve: no slot was reserved";
  Done (wake_next s p (with_qresv po (p_qresv po - 1))).

(** * Descriptors *)

Definition carries (p r : Z) : pending_desc := mkPd MACH_MSG_PORT_DESCRIPTOR r (Some p) 0 None.

(** [send_xlate_desc]: the code and the descriptor. *)
Definition send_xlate_desc (s : world) (from name disposition : Z) : res (Z * pending_desc * world) :=
  let refuse rv (s : world) : res (Z * pending_desc * world) := Done (rv, pd_zero, s) in
  (* COPY and MAKE: a new reference *)
  let grant need r :=
    x ← space_lookup s from name need;
    match x with
    | None => refuse MACH_E_RIGHT s
    | Some (p, _) => s ← port_ref s p r; Done (MACH_MSG_OK, carries p r, s)
    end in
  (* MOVE: the reference of the message first, then the name's is dropped *)
  let move r :=
    x ← space_lookup s from name r;
    match x with
    | None => refuse MACH_E_RIGHT s
    | Some (p, _) =>
        s ← port_ref s p r;
        y ← space_drop_one_right s from name r;
        let '(rv, s) := (y : Z * world) in
        if negb (rv =? MACH_MSG_OK) then s ← port_deref s p r; refuse MACH_E_NAME s
        else Done (MACH_MSG_OK, carries p r, s)
    end in
  if disposition =? MACH_MSG_TYPE_MOVE_RECEIVE then
    x ← space_lookup s from name MACH_PORT_RIGHT_RECEIVE;
    match x with
    | None => refuse MACH_E_RIGHT s
    | Some (p, _) =>
        po ← get_port s p;
        if negb (bool_decide (p_set po = None) && bool_decide (p_waiters po = [])) then refuse MACH_E_INVAL s
        else
          y ← space_unbind_no_deref s from name MACH_PORT_RIGHT_RECEIVE;
          let '(rv, s) := (y : Z * world) in
          if negb (rv =? MACH_MSG_OK) then refuse MACH_E_NAME s
          else Done (MACH_MSG_OK, carries p MACH_PORT_RIGHT_RECEIVE, s)
    end
  else if disposition =? MACH_MSG_TYPE_MAKE_SEND then grant MACH_PORT_RIGHT_RECEIVE MACH_PORT_RIGHT_SEND
  else if disposition =? MACH_MSG_TYPE_COPY_SEND then grant MACH_PORT_RIGHT_SEND MACH_PORT_RIGHT_SEND
  else if disposition =? MACH_MSG_TYPE_MOVE_SEND then move MACH_PORT_RIGHT_SEND
  else if disposition =? MACH_MSG_TYPE_MAKE_SEND_ONCE then grant MACH_PORT_RIGHT_RECEIVE MACH_PORT_RIGHT_SEND_ONCE
  else if disposition =? MACH_MSG_TYPE_MOVE_SEND_ONCE then move MACH_PORT_RIGHT_SEND_ONCE
  else refuse MACH_E_INVAL s.

(** Whether the caller's payloads are kernel memory. *)
Definition from_kernel (v : V) (c : caller) : bool :=
  negb (c_user c) || bool_decide (pl_window v (c_task c) = None) || c_trusted c.

Definition ool_empty : pending_desc := mkPd MACH_MSG_OOL_DESCRIPTOR 0 None 0 None.

(** [send_capture_ool] of a descriptor with these fields. *)
Definition send_capture_ool (s : world) (c : caller) (copy deallocate size addr : Z) : res (Z * pending_desc * world) :=
  let refuse rv (s : world) : res (Z * pending_desc * world) := Done (rv, ool_empty, s) in
  if size =? 0 then refuse MACH_MSG_OK s
  else if MACH_MSG_OOL_MAX_BYTES <? size then refuse MACH_E_INVAL s
  else if negb (copy =? MACH_MSG_PHYSICAL_COPY) && negb (copy =? MACH_MSG_VIRTUAL_COPY) then refuse MACH_E_INVAL s
  else
    let fk := from_kernel (w_vm s) c in
    let stop := w64 (addr + size) in
    let out := match pl_window (w_vm s) (c_task c) with
               | Some (lo, hi) => (stop <? addr) || (addr <? lo) || (hi <? stop)
               | None => false
               end in
    if negb fk && out then refuse MACH_E_INVAL s
    else
      let npages := Z.shiftr (page_round size) 12 in
      let '(ok, s) := w_kmalloc s in
      if negb ok then refuse MACH_E_NOMEM s
      else
        r ← (if fk then pl_capture_kernel (w_vm s) addr size npages
             else pl_capture_user (w_vm s) (c_task c) addr size npages);
        let '(pas, v) := (r : list Z * V) in
        let s := upd_vm s v in
        if negb (Z.of_nat (length pas) =? npages) then refuse MACH_E_NOMEM s
        else
          let pd := mkPd MACH_MSG_OOL_DESCRIPTOR 0 None size (Some pas) in
          if negb (deallocate =? 0) && negb fk
          then r ← pl_unmap (w_vm s) (c_task c) addr (page_round size); Done (MACH_MSG_OK, pd, upd_vm s (r.2 : V))
          else Done (MACH_MSG_OK, pd, s).

(** The loop of [apply_ool_deallocate] over [n] descriptors from [off]. *)
Fixpoint ool_deallocate_loop (n : nat) (s : world) (task : Z) (b : list Z) (off size : Z) : res world :=
  match n with
  | O => Done s
  | S n =>
      if size <=? off then Done s
      else
        t ← ld 1 b off;
        if t =? MACH_MSG_PORT_DESCRIPTOR then ool_deallocate_loop n s task b (off + PORT_DESC) size
        else if t =? MACH_MSG_OOL_DESCRIPTOR then
          if size <? off + OOL_DESC then Done s
          else
            deallocate ← ld 1 b (off + 2);
            len ← ld 4 b (off + 4);
            addr ← ld 8 b (off + 8);
            s ← (if negb (deallocate =? 0) && (0 <? len)
                 then r ← pl_unmap (w_vm s) task addr (page_round len); Done (upd_vm s (r.2 : V)) else Done s);
            ool_deallocate_loop n s task b (off + OOL_DESC) size
        else Done s
  end.

Definition apply_ool_deallocate (s : world) (c : caller) (b : list Z) : res world :=
  if from_kernel (w_vm s) c then Done s
  else
    bits ← msgh_bits b;
    size ← msgh_size b;
    if negb (has bits MACH_MSGH_BITS_COMPLEX) then Done s
    else if size <? MSG_HDR + MSG_BODY then Done s
    else n ← msgh_descriptor_count b; ool_deallocate_loop (Z.to_nat n) s (c_task c) b (MSG_HDR + MSG_BODY) size.

(** * Sending *)

(** [remote_right] and [need_right] for a remote disposition. *)
Definition remote_rights (disp : Z) : option (Z * Z) :=
  if (disp =? MACH_MSG_TYPE_COPY_SEND) || (disp =? MACH_MSG_TYPE_MOVE_SEND) then Some (MACH_PORT_RIGHT_SEND, MACH_PORT_RIGHT_SEND)
  else if disp =? MACH_MSG_TYPE_MOVE_SEND_ONCE then Some (MACH_PORT_RIGHT_SEND_ONCE, MACH_PORT_RIGHT_SEND_ONCE)
  else if disp =? MACH_MSG_TYPE_MAKE_SEND then Some (MACH_PORT_RIGHT_SEND, MACH_PORT_RIGHT_RECEIVE)
  else if disp =? MACH_MSG_TYPE_MAKE_SEND_ONCE then Some (MACH_PORT_RIGHT_SEND_ONCE, MACH_PORT_RIGHT_RECEIVE)
  else None.

Definition is_move (disp : Z) : bool := (disp =? MACH_MSG_TYPE_MOVE_SEND) || (disp =? MACH_MSG_TYPE_MOVE_SEND_ONCE).

(** What a send keeps in its locals while it waits for a slot. *)
Record send_job := mkJob {
  sj_from : Z;
  sj_dest : Z;
  sj_kind : Z;         (* dest_kind *)
  sj_buf : list Z;     (* m->m_buf *)
  sj_remote_disp : Z;
  sj_remote_right : Z;
  sj_local_disp : Z;
  sj_complex : bool;
  sj_has_local : bool;
}.

(** How a send ends, with what it copied to an armed stash (where, what), or
    that it sleeps. *)
Inductive sent := Sent (rv : Z) (copied : option (Z * list Z)) | Asleep (j : send_job).

Definition drop_moved (s : world) (from remote disp right : Z) : res world :=
  if is_move disp then r ← space_drop_one_right s from remote right; Done (r.2 : world) else Done s.

(** The explicit descriptors, [n] of them from [off] on: the code, the
    message's bytes and the descriptors made so far. *)
Fixpoint send_descs (n : nat) (s : world) (c : caller) (from : Z) (b : list Z) (off : Z) (done : list pending_desc)
    : res (Z * list Z * list pending_desc * world) :=
  match n with
  | O => Done (MACH_MSG_OK, b, done, s)
  | S n' =>
      t ← ld 1 b off;
      if t =? MACH_MSG_PORT_DESCRIPTOR then
        name ← ld 4 b (off + 4);
        disposition ← ld 1 b (off + 1);
        r ← send_xlate_desc s from name disposition;
        let '(rv, pd, s) := (r : Z * pending_desc * world) in
        if negb (rv =? MACH_MSG_OK) then Done (rv, b, done ++ pd :: replicate n' pd_zero, s)
        else b ← st 4 b (off + 4) MACH_PORT_NULL; send_descs n' s c from b (off + PORT_DESC) (done ++ [pd])
      else if t =? MACH_MSG_OOL_DESCRIPTOR then
        copy ← ld 1 b (off + 1);
        deallocate ← ld 1 b (off + 2);
        size ← ld 4 b (off + 4);
        addr ← ld 8 b (off + 8);
        r ← send_capture_ool s c copy deallocate size addr;
        let '(rv, pd, s) := (r : Z * pending_desc * world) in
        if negb (rv =? MACH_MSG_OK) then Done (rv, b, done ++ pd :: replicate n' pd_zero, s)
        else b ← st 8 b (off + 8) 0; send_descs n' s c from b (off + OOL_DESC) (done ++ [pd])
      else Done (MACH_E_INVAL, b, done ++ replicate (S n') pd_zero, s)
  end.

(** The label [fail], with a slot still held or not. *)
Definition send_fail (s : world) (j : send_job) (descs : list pending_desc) (reserved : bool) (rv : Z) : res (Z * world) :=
  s ← free_pending_descs port_deref s descs;
  s ← (if reserved then msg_unreserve s (sj_dest j) else Done s);
  s ← dest_unref s (sj_dest j) (sj_kind j);
  Done (rv, s).

(** The count of explicit descriptors, or the code to fail with. *)
Definition send_count (s : world) (j : send_job) (b : list Z) : res (Z + Z * world) :=
  if negb (sj_complex j) then Done (inr (0, s))
  else
    size ← msgh_size b;
    if size <? MSG_HDR + MSG_BODY then Done (inl MACH_E_INVAL)
    else
      n ← msgh_descriptor_count b;
      if n =? 0 then Done (inr (0, s))
      else
        ok ← desc_walk (Z.to_nat n) b (MSG_HDR + MSG_BODY) size;
        if negb ok then Done (inl MACH_E_INVAL)
        else
          let '(got, s) := w_kmalloc s in
          Done (if negb got then inl MACH_E_NOMEM else inr (n, s)).

(** The reply right: the code, the descriptor, the message's bytes. *)
Definition send_local (s : world) (j : send_job) (b : list Z) : res (Z * list pending_desc * list Z * world) :=
  if negb (sj_has_local j) then Done (MACH_MSG_OK, [], b, s)
  else
    name ← msgh_local b;
    r ← send_xlate_desc s (sj_from j) name (sj_local_disp j);
    let '(rv, pd, s) := (r : Z * pending_desc * world) in
    if negb (rv =? MACH_MSG_OK) then Done (rv, [], b, s)
    else
      let '(got, s) := w_kmalloc s in
      if negb got then
        s ← match pd_port pd with Some p => port_deref s p (pd_disposition pd) | None => Done s end;
        Done (MACH_E_NOMEM, [], b, s)
      else b ← st 4 b 12 MACH_PORT_NULL; Done (MACH_MSG_OK, [pd], b, s).

(** [mach_msg_send_timed] from the reserved slot on. *)
Definition send_finish (s : world) (c : caller) (j : send_job) : res (Z * world) :=
  remote ← msgh_remote (sj_buf j);
  s ← drop_moved s (sj_from j) remote (sj_remote_disp j) (sj_remote_right j);
  b ← (if sj_has_local j then Done (sj_buf j)
       else bits ← msgh_bits (sj_buf j); b ← st 4 (sj_buf j) 0 (Z.ldiff bits (MACH_MSGH_BITS 0 0xFF)); st 4 b 12 MACH_PORT_NULL);
  n ← send_count s j b;
  match n with
  | inl rv => send_fail s j [] true rv
  | inr (n, s) =>
      r ← send_local s j b;
      let '(rv, loc, b, s) := (r : Z * list pending_desc * list Z * world) in
      if negb (rv =? MACH_MSG_OK) then send_fail s j (replicate (Z.to_nat n) pd_zero) true rv
      else
        r ← send_descs (Z.to_nat n) s c (sj_from j) b (MSG_HDR + MSG_BODY) [];
        let '(rv, b, descs, s) := (r : Z * list Z * list pending_desc * world) in
        if negb (rv =? MACH_MSG_OK) then send_fail s j (descs ++ loc) true rv
        else
          r ← msg_enqueue s (sj_dest j) (mkMsg (descs ++ loc) b) true;
          let '(rv, w, s) := (r : Z * option Z * world) in
          if negb (rv =? MACH_MSG_OK) then send_fail s j (descs ++ loc) false rv
          else s ← dest_unref (wake_opt s w) (sj_dest j) (sj_kind j); Done (MACH_MSG_OK, s)
  end.

(** What follows the attempt to get a slot. *)
Definition send_slot (s : world) (c : caller) (j : send_job) (r : slot) : res (sent * world) :=
  match r with
  | Reserved => x ← send_finish s c j; Done (Sent x.1 None, x.2 : world)
  | Refused rv => s ← dest_unref s (sj_dest j) (sj_kind j); Done (Sent rv None, s)
  | Parked => Done (Asleep j, s)
  end.

(** The fast path: a bare message for the stash this thread armed. *)
Definition send_stash (s : world) (c : caller) (from p : Z) (b : list Z) (disp right : Z) : res (option (Z * list Z) * world) :=
  size ← msgh_size b;
  po ← get_port s p;
  let h := p_stash po in
  if negb (p_stash_buf h =? 0) && (p_stash_thread h =? c_thread c) && (p_stash_rv h =? MACH_E_NOMSG) &&
     negb (p_dead po) && (size <=? p_stash_size h)
  then
    _ ← (if size <=? Z.of_nat (length b) then Done tt else Panic "read past the end of a message");
    copy ← st 4 (take (Z.to_nat size) b) 12 MACH_PORT_NULL;
    let s := put_port s p (with_stash po (mkStash (p_stash_buf h) (p_stash_thread h) (p_stash_size h) MACH_MSG_OK)) in
    remote ← msgh_remote b;
    s ← drop_moved s from remote disp right;
    Done (Some (p_stash_buf h, copy), s)
  else Done (None, s).

(** The destination is a kernel object: its dispatcher runs here. *)
Definition send_special (s : world) (c : caller) (from p : Z) (b : list Z) (disp right : Z) : res (Z * world) :=
  remote ← msgh_remote b;
  s ← drop_moved s from remote disp right;
  po ← get_port s p;
  r ← (if (p_special po =? PORT_SPECIAL_TASK_SELF) || (p_special po =? PORT_SPECIAL_BOOTSTRAP) || (p_special po =? PORT_SPECIAL_SERVICE)
       then dispatch s (mkCaller (c_thread c) (c_task c) (c_user c) (c_trusted c) true) (p_special po) (p_special_arg po) b from
       else Done (MACH_E_INVAL, s));
  s ← apply_ool_deallocate (r.2 : world) c b;
  Done (r.1, s).

(** [mach_msg_send_timed].  [u1] and [u2] are the message at the two fetches;
    [stale] is what the freed buffer holds where [msgh_remote] was. *)
Definition mach_msg_send_timed (s : world) (c : caller) (from : Z) (umsg : option ((nat -> Z) * (nat -> Z))) (expired : bool) (stale : Z)
    : res (sent * world) :=
  let ret rv (s : world) : res (sent * world) := Done (Sent rv None, s) in
  match umsg with
  | None => ret MACH_E_INVAL s
  | Some (u1, u2) =>
      let hdr := fetch u1 (Z.to_nat MSG_HDR) in
      rv ← msg_validate hdr;
      if negb (rv =? MACH_MSG_OK) then ret rv s
      else
        size ← msgh_size hdr;
        bits ← msgh_bits hdr;
        local_name ← msgh_local hdr;
        let disp := MACH_MSGH_BITS_REMOTE bits in
        let complex := has bits MACH_MSGH_BITS_COMPLEX in
        let has_local := negb (local_name =? MACH_PORT_NULL) && negb (MACH_MSGH_BITS_LOCAL bits =? 0) in
        match remote_rights disp with
        | None => ret MACH_E_INVAL s
        | Some (remote_right, need) =>
            let '(got, s) := w_kmalloc s in
            if negb got then ret MACH_E_NOMEM s
            else
              let b := fetch u2 (Z.to_nat size) in
              remote ← msgh_remote b;
              x ← space_lookup s from remote need;
              match x with
              | None =>
                  dead ← space_name_is_dead s from stale;
                  ret (if dead : bool then MACH_E_DEAD else MACH_E_RIGHT) s
              | Some (p, _) =>
                  y ← (if negb complex && negb has_local then send_stash s c from p b disp remote_right else Done (None, s));
                  match y with
                  | (Some copied, s) => Done (Sent MACH_MSG_OK (Some copied), s : world)
                  | (None, s) =>
                      po ← get_port s p;
                      if negb (p_special po =? PORT_SPECIAL_NONE) then
                        r ← send_special s c from p b disp remote_right; Done (Sent r.1 None, r.2 : world)
                      else
                        let kind := if need =? MACH_PORT_RIGHT_RECEIVE then 0 else remote_right in
                        let j := mkJob from p kind b disp remote_right (MACH_MSGH_BITS_LOCAL bits) complex has_local in
                        s ← dest_ref s p kind;
                        r ← msg_reserve s p (c_thread c) ((remote_right =? MACH_PORT_RIGHT_SEND_ONCE) || c_kernel_send c) expired;
                        let '(o, s) := (r : slot * world) in send_slot s c j o
                  end
              end
        end
  end.

(** A sender woken in [msg_reserve]. *)
Definition send_resume (s : world) (c : caller) (j : send_job) (live expired : bool) : res (sent * world) :=
  r ← msg_reserve_resume s (sj_dest j) (c_thread c) live expired;
  let '(o, s) := (r : slot * world) in send_slot s c j o.

Definition mach_msg_send (s : world) (c : caller) (from : Z) (umsg : option ((nat -> Z) * (nat -> Z))) (stale : Z) : res (sent * world) :=
  mach_msg_send_timed s c from umsg false stale.

Definition mach_msg_send_trusted (s : world) (c : caller) (from : Z) (umsg : option ((nat -> Z) * (nat -> Z))) (stale : Z) : res (sent * world) :=
  mach_msg_send s (mkCaller (c_thread c) (c_task c) (c_user c) true (c_kernel_send c)) from umsg stale.

(** * Exceptions *)

Record exc_regs := mkExc { eh_trapno : Z; eh_err : Z; eh_rip : Z; eh_rsp : Z; eh_rflags : Z; eh_cr2 : Z; eh_task_id : Z }.

(** [struct mach_exception_header] *)
Definition exception_buf (local_disp : Z) (e : exc_regs) : list Z :=
  le_bytes 4 (MACH_MSGH_BITS MACH_MSG_TYPE_COPY_SEND local_disp) ++ le_bytes 4 72 ++ le_bytes 4 MACH_PORT_NULL ++ le_bytes 4 MACH_PORT_NULL ++
  le_bytes 4 0 ++ le_bytes 4 MACH_EXC_FAULT ++ le_bytes 4 (eh_trapno e) ++ le_bytes 4 (eh_err e) ++ le_bytes 8 (eh_rip e) ++
  le_bytes 8 (eh_rsp e) ++ le_bytes 8 (eh_rflags e) ++ le_bytes 8 (eh_cr2 e) ++ le_bytes 8 (eh_task_id e).

Definition port_exception_post (s : world) (port : option Z) (e : exc_regs) (reply_port : option Z) : res (Z * world) :=
  match port with
  | None => Done (MACH_E_INVAL, s)
  | Some p =>
      let '(ok, s) := w_kmalloc s in
      if negb ok then Done (MACH_E_NOMEM, s)
      else
        match reply_port with
        | None =>
            r ← msg_enqueue s p (mkMsg [] (exception_buf 0 e)) false;
            let '(rv, w, s) := (r : Z * option Z * world) in Done (rv, wake_opt s w)
        | Some q =>
            let '(ok, s) := w_kmalloc s in
            if negb ok then Done (MACH_E_NOMEM, s)
            else
              s ← port_ref s q MACH_PORT_RIGHT_SEND;
              let descs := [carries q MACH_PORT_RIGHT_SEND] in
              r ← msg_enqueue s p (mkMsg descs (exception_buf MACH_MSG_TYPE_MAKE_SEND e)) false;
              let '(rv, w, s) := (r : Z * option Z * world) in
              if negb (rv =? MACH_MSG_OK) then s ← free_pending_descs port_deref s descs; Done (rv, s)
              else Done (rv, wake_opt s w)
        end
  end.

(** * Receiving *)

(** The name a right travels under: moved in, or a reference of its own and
    the message's given up. *)
Definition install_right (s : world) (to p kind : Z) : res (Z * Z * world) :=
  if kind =? MACH_PORT_RIGHT_RECEIVE then space_install_no_ref s to p kind else space_install s to p kind.

Definition installed_ref (s : world) (p kind : Z) : res world :=
  if kind =? MACH_PORT_RIGHT_RECEIVE then Done s else port_deref s p kind.

(** [recv_install_ool] of a descriptor at [off] of the message: the code, the
    message's bytes, the descriptor. *)
Definition recv_install_ool (s : world) (c : caller) (pd : pending_desc) (b : list Z) (off : Z)
    : res (Z * list Z * pending_desc * world) :=
  b ← st 1 b off MACH_MSG_OOL_DESCRIPTOR;
  b ← st 1 b (off + 1) MACH_MSG_PHYSICAL_COPY;
  b ← st 1 b (off + 2) 0;
  b ← st 1 b (off + 3) 0;
  b ← st 4 b (off + 4) (pd_ool_size pd);
  b ← st 8 b (off + 8) 0;
  if pd_ool_size pd =? 0 then Done (MACH_MSG_OK, b, pd, s)
  else
    match pl_window (w_vm s) (c_task c), pd_ool_pages pd with
    | Some _, Some pas =>
        r ← pl_install (w_vm s) (c_task c) pas;
        let '(o, v) := (r : option Z * V) in
        let s := upd_vm s v in
        match o with
        | None => Done (MACH_E_NOMEM, b, pd, s)
        | Some va => b ← st 8 b (off + 8) va; Done (MACH_MSG_OK, b, mkPd (pd_type pd) (pd_disposition pd) (pd_port pd) 0 None, s)
        end
    | _, _ => Done (MACH_E_INVAL, b, pd, s)
    end.

(** The first loop of [recv_rollback_installed]: descriptors that were
    delivered. *)
Fixpoint rollback_delivered (s : world) (c : caller) (to : Z) (b : list Z) (off : Z) (done : list pending_desc) : res world :=
  match done with
  | [] => Done s
  | pd :: done =>
      if pd_type pd =? MACH_MSG_PORT_DESCRIPTOR then
        name ← ld 4 b (off + 4);
        s ← (if negb (name =? MACH_PORT_NULL) then r ← space_drop_one_right s to name (pd_disposition pd); Done (r.2 : world) else Done s);
        rollback_delivered s c to b (off + PORT_DESC) done
      else if pd_type pd =? MACH_MSG_OOL_DESCRIPTOR then
        addr ← ld 8 b (off + 8);
        size ← ld 4 b (off + 4);
        s ← (if negb (addr =? 0)
             then let aligned := page_round size in
                  v ← pl_rollback (w_vm s) (c_task c) addr (Z.shiftr aligned 12) aligned; Done (upd_vm s v)
             else Done s);
        rollback_delivered s c to b (off + OOL_DESC) done
      else rollback_delivered s c to b off done
  end.

(** [recv_rollback_installed]: [done] were delivered, [rest] were not.  The
    second loop is that of [free_pending_descs]. *)
Definition recv_rollback_installed (s : world) (c : caller) (to : Z) (b : list Z) (done rest : list pending_desc) : res world :=
  s ← rollback_delivered s c to b (MSG_HDR + MSG_BODY) done;
  free_pending_descs port_deref s rest.

(** The descriptors of [deliver_msg], [n] of them from [off] on: the code, the
    message's bytes, and the descriptors done and left. *)
Fixpoint deliver_descs (n : nat) (s : world) (c : caller) (to : Z) (b : list Z) (off : Z) (done rest : list pending_desc)
    : res (Z * list Z * list pending_desc * list pending_desc * world) :=
  match n with
  | O => Done (MACH_MSG_OK, b, done, rest, s)
  | S n =>
      match rest with
      | [] => Panic "descriptor past the end of m_descs"
      | pd :: rest' =>
          if pd_type pd =? MACH_MSG_PORT_DESCRIPTOR then
            match pd_port pd with
            | None => Panic "delivery of no port"
            | Some p =>
                r ← install_right s to p (pd_disposition pd);
                let '(rv, name, s) := (r : Z * Z * world) in
                if negb (rv =? MACH_MSG_OK) then s ← recv_rollback_installed s c to b done rest; Done (rv, b, done, rest, s)
                else
                  s ← installed_ref s p (pd_disposition pd);
                  b ← st 4 b (off + 4) name;
                  deliver_descs n s c to b (off + PORT_DESC) (done ++ [mkPd (pd_type pd) (pd_disposition pd) None (pd_ool_size pd) (pd_ool_pages pd)]) rest'
            end
          else if pd_type pd =? MACH_MSG_OOL_DESCRIPTOR then
            r ← recv_install_ool s c pd b off;
            let '(rv, b, pd', s) := (r : Z * list Z * pending_desc * world) in
            if negb (rv =? MACH_MSG_OK) then s ← recv_rollback_installed s c to b done (pd' :: rest'); Done (rv, b, done, rest, s)
            else deliver_descs n s c to b (off + OOL_DESC) (done ++ [pd']) rest'
          else s ← recv_rollback_installed s c to b done rest; Done (MACH_E_INVAL, b, done, rest, s)
      end
  end.

(** [deliver_msg] of [m], taken off the queue of [p]: the code and the bytes
    copied out. *)
Definition deliver_msg (s : world) (c : caller) (to p : Z) (m : port_msg) (buf_size : Z) : res (Z * option (list Z) * world) :=
  if buf_size <? Z.of_nat (length (m_buf m)) then
    po ← get_port s p;
    Done (MACH_E_TOOSMALL, None, put_port s p (with_queue po (m :: p_queue po) (p_qlen po + 1)))
  else
    bits ← msgh_bits (m_buf m);
    n ← (if has bits MACH_MSGH_BITS_COMPLEX then msgh_descriptor_count (m_buf m) else Done 0);
    r ← deliver_descs (Z.to_nat n) s c to (m_buf m) (MSG_HDR + MSG_BODY) [] (m_descs m);
    let '(rv, b, done, rest, s) := (r : Z * list Z * list pending_desc * list pending_desc * world) in
    if negb (rv =? MACH_MSG_OK) then Done (rv, None, s)
    else if MACH_MSGH_BITS_LOCAL bits =? 0 then Done (MACH_MSG_OK, Some b, s)
    else
      match (done ++ rest) !! (length (done ++ rest) - 1)%nat with
      | None => Panic "descriptor past the end of m_descs"
      | Some pd =>
          match pd_port pd with
          | None => Panic "delivery of no port"
          | Some q =>
              r ← install_right s to q (pd_disposition pd);
              let '(rv, name, s) := (r : Z * Z * world) in
              if negb (rv =? MACH_MSG_OK) then
                s ← recv_rollback_installed s c to b done rest;
                s ← port_deref s q (pd_disposition pd);
                Done (rv, None, s)
              else
                s ← installed_ref s q (pd_disposition pd);
                b ← st 4 b 12 name;
                Done (MACH_MSG_OK, Some b, s)
          end
      end.

Definition bad_buffer (buf buf_size : Z) : bool := (buf =? 0) || (buf_size <? MSG_HDR).

(** A message taken off the queue and delivered, its slot's waiter woken. *)
Definition recv_take (s : world) (c : caller) (to p buf_size : Z) : res (option (Z * option (list Z)) * world) :=
  r ← msg_dequeue s p;
  match r with
  | (None, s) => Done (None, s)
  | (Some (m, w), s) =>
      x ← deliver_msg s c to p m buf_size;
      let '(rv, out, s) := (x : Z * option (list Z) * world) in Done (Some (rv, out), wake_opt s w)
  end.

Definition mach_msg_recv (s : world) (c : caller) (to recv_name buf buf_size : Z) : res (Z * option (list Z) * world) :=
  if bad_buffer buf buf_size then Done (MACH_E_INVAL, None, s)
  else
    x ← space_lookup s to recv_name MACH_PORT_RIGHT_RECEIVE;
    match x with
    | None => Done (MACH_E_RIGHT, None, s)
    | Some (p, _) =>
        r ← recv_take s c to p buf_size;
        match r with
        | (None, s) => Done (MACH_E_NOMSG, None, s)
        | (Some (rv, out), s) => Done (rv, out, s : world)
        end
    end.

(** How a receive ends, with the bytes copied out, or what it sleeps on. *)
Inductive received := Received (rv : Z) (out : option (list Z)) | AsleepPort (p : Z) | AsleepSet (q : Z).

(** One trip of the loop on a port; [poll] is [MACH_TIMEOUT_NONE]. *)
Definition recv_port (s : world) (c : caller) (to p buf_size : Z) (poll : bool) : res (received * world) :=
  po ← get_port s p;
  if p_dead po then Done (Received MACH_E_DEAD None, s)
  else
    r ← recv_take s c to p buf_size;
    match r with
    | (Some (rv, out), s) => Done (Received rv out, s : world)
    | (None, s) =>
        if poll then Done (Received MACH_E_NOMSG None, s)
        else
          _ ← KASSERT (negb (bool_decide (c_thread c ∈ p_waiters po))) "recv: already on this port's waiter list";
          Done (AsleepPort p, put_port s p (with_waiters po (p_waiters po ++ [c_thread c])))
    end.

(** Woken on a port: the name is looked up again, the thread leaves the
    waiters, and goes round again unless the right moved or time is up. *)
Definition recv_port_resume (s : world) (c : caller) (to recv_name p buf_size : Z) (timed_out : bool) : res (received * world) :=
  x ← space_lookup s to recv_name MACH_PORT_RIGHT_RECEIVE;
  let moved := negb (bool_decide (fst <$> x = Some p)) in
  po ← get_port s p;
  let s := put_port s p (with_waiters po (unbind_waiter (p_waiters po) (c_thread c))) in
  if moved && negb (p_dead po) then Done (Received MACH_E_RIGHT None, s)
  else if timed_out then
    r ← recv_take s c to p buf_size;
    match r with
    | (Some (rv, out), s) => Done (Received rv out, s : world)
    | (None, s) => Done (Received MACH_E_TIMEOUT None, s)
    end
  else recv_port s c to p buf_size false.

(** The members of a set up to the first with a message. *)
Fixpoint recv_members (s : world) (c : caller) (to : Z) (l : list Z) (buf_size : Z) : res (option (Z * option (list Z)) * world) :=
  match l with
  | [] => Done (None, s)
  | p :: l =>
      po ← get_port s p;
      match p_queue po with
      | [] => recv_members s c to l buf_size
      | _ => recv_take s c to p buf_size
      end
  end.

Definition recv_set (s : world) (c : caller) (to q buf_size : Z) (poll : bool) : res (received * world) :=
  st ← get_set s q;
  if ps_dead st then Done (Received MACH_E_DEAD None, s)
  else
    r ← recv_members s c to (ps_members st) buf_size;
    match r with
    | (Some (rv, out), s) => Done (Received rv out, s : world)
    | (None, s) =>
        if poll then Done (Received MACH_E_NOMSG None, s)
        else
          _ ← KASSERT (negb (bool_decide (c_thread c ∈ ps_waiters st))) "recv: already on this port set's waiter list";
          Done (AsleepSet q, put_set s q (mkPset (ps_refs st) (ps_dead st) (ps_member_count st) (ps_members st) (ps_waiters st ++ [c_thread c])))
    end.

Definition recv_set_resume (s : world) (c : caller) (to q buf_size : Z) (timed_out : bool) : res (received * world) :=
  st ← get_set s q;
  let s := put_set s q (mkPset (ps_refs st) (ps_dead st) (ps_member_count st) (ps_members st) (unbind_waiter (ps_waiters st) (c_thread c))) in
  if timed_out then Done (Received MACH_E_TIMEOUT None, s) else recv_set s c to q buf_size false.

Definition mach_msg_recv_timed (s : world) (c : caller) (to recv_name buf buf_size : Z) (poll : bool) : res (received * world) :=
  if bad_buffer buf buf_size then Done (Received MACH_E_INVAL None, s)
  else
    x ← space_lookup_set s to recv_name;
    match x with
    | Some q => recv_set s c to q buf_size poll
    | None =>
        y ← space_lookup s to recv_name MACH_PORT_RIGHT_RECEIVE;
        match y with
        | None => Done (Received MACH_E_RIGHT None, s)
        | Some (p, _) => recv_port s c to p buf_size poll
        end
    end.

Definition mach_msg_recv_block (s : world) (c : caller) (to recv_name buf buf_size : Z) : res (received * world) :=
  mach_msg_recv_timed s c to recv_name buf buf_size false.

(** * Remote procedure calls *)

(** Four bytes of a task's memory replaced. *)
Definition poke32 (u : nat -> Z) (off : nat) (v : Z) : nat -> Z :=
  fun i => if (off <=? i)%nat && (i <? off + 4)%nat then default 0 (le_bytes 4 v !! (i - off)%nat) else u i.

(** The reply port, made and armed, and the request as it is sent. *)
Definition rpc_begin (s : world) (c : caller) (space : Z) (req : nat -> Z) (reply_buf reply_size : Z)
    : res ((Z + Z * Z * (nat -> Z)) * world) :=
  x ← port_allocate s space (Z.lor MACH_PORT_RIGHT_RECEIVE MACH_PORT_RIGHT_SEND);
  let '(name, s) := (x : Z * world) in
  if name =? MACH_PORT_NULL then Done (inl MACH_E_NOMEM, s)
  else
    y ← space_lookup s space name MACH_PORT_RIGHT_RECEIVE;
    match y with
    | None => r ← port_deallocate s space name; Done (inl MACH_E_INVAL, r.2 : world)
    | Some (p, _) =>
        po ← get_port s p;
        let s := put_port s p (with_stash po (mkStash reply_buf (c_thread c) reply_size MACH_E_NOMSG)) in
        bits ← ld 4 (fetch req 4) 0;
        let bits' := Z.lor (MACH_MSGH_BITS (MACH_MSGH_BITS_REMOTE bits) MACH_MSG_TYPE_MAKE_SEND) (Z.land bits MACH_MSGH_BITS_COMPLEX) in
        Done (inr (name, p, poke32 (poke32 req 0 bits') 12 name), s)
    end.

(** After the send: the stash is disarmed; [inl] is the code of a call that
    is over, [inr] says to receive. *)
Definition rpc_sent (s : world) (space name p rv : Z) : res ((Z + unit) * world) :=
  po ← get_port s p;
  let stash_rv := p_stash_rv (p_stash po) in
  let s := put_port s p (with_stash po no_stash) in
  if negb (rv =? MACH_MSG_OK) || (stash_rv =? MACH_MSG_OK)
  then r ← port_deallocate s space name; Done (inl rv, r.2 : world)
  else Done (inr tt, s).

(** A call that runs to its end without parking. *)
Definition mach_msg_rpc (s : world) (c : caller) (space : Z) (req : nat -> Z) (reply_buf reply_size stale : Z) (poll : bool)
    : res (option (Z * option (list Z)) * world) :=
  if (reply_buf =? 0) || (reply_size <? MSG_HDR) then Done (Some (MACH_E_INVAL, None), s)
  else
    x ← rpc_begin s c space req reply_buf reply_size;
    match x with
    | (inl rv, s) => Done (Some (rv, None), s : world)
    | (inr (name, p, u), s) =>
        y ← mach_msg_send s c space (Some (u, u)) stale;
        match y with
        | (Asleep _, s) => Done (None, s : world)
        | (Sent rv copied, s) =>
            z ← rpc_sent s space name p rv;
            match z with
            | (inl rv, s) => Done (Some (rv, snd <$> copied), s : world)
            | (inr _, s) =>
                r ← mach_msg_recv_timed s c space name reply_buf reply_size poll;
                match r with
                | (Received rv out, s) => d ← port_deallocate s space name; Done (Some (rv, out), d.2 : world)
                | (_, s) => Done (None, s : world)
                end
            end
        end
    end.

End messages.
