(* ===== verification/PortBytes.v ===== *)
(** Reading and writing the fields of a message. *)

From stdpp Require Import base list strings numbers option.
From Stdlib Require Import ZArith Lia ZifyBool.
From S2P Require Import Prelude VmMap Ports PortMsg.

Definition bytes (b : list Z) : Prop := Forall (fun x => 0 <= x < 256) b.

Lemma le_val_bound l : bytes l -> 0 <= le_val l < 256 ^ Z.of_nat (length l).
Proof.
  induction 1 as [|x l Hx Hl IH]; [done|]. cbn [le_val fold_right length] in *. rewrite Nat2Z.inj_succ, Z.pow_succ_r by lia. fold (le_val l). lia.
Qed.

Lemma le_val_bytes n v : le_val (le_bytes n v) = v mod 256 ^ Z.of_nat n.
Proof.
  revert v. induction n as [|n IH]; intros v; [by rewrite Z.mod_1_r|]. cbn [le_bytes le_val fold_right]. fold (le_val (le_bytes n (v / 256))).
  rewrite IH, Nat2Z.inj_succ, Z.pow_succ_r, Z.rem_mul_r by lia. lia.
Qed.

Lemma le_bytes_bytes n v : bytes (le_bytes n v).
Proof. revert v. induction n as [|n IH]; intros v; cbn [le_bytes]; constructor; [apply Z.mod_pos_bound; lia|apply IH]. Qed.

Lemma fetch_bytes u n : bytes (fetch u n).
Proof. unfold bytes, fetch. apply Forall_fmap, Forall_true. intros i. exact (w8_range (u i)). Qed.
Lemma fetch_length u n : length (fetch u n) = n.
Proof. unfold fetch. by rewrite length_fmap, length_seq. Qed.

(** * Loads *)

Definition fits (n : nat) (b : list Z) (off : Z) : Prop := 0 <= off /\ off + Z.of_nat n <= Z.of_nat (length b).

Lemma ld_eq n b off : fits n b off -> ld n b off = Done (le_val (take n (drop (Z.to_nat off) b))).
Proof. intros [H1 H2]. unfold ld. by replace ((0 <=? off) && (off + Z.of_nat n <=? Z.of_nat (length b))) with true by lia. Qed.

Lemma ld_ok n b off : fits n b off -> bytes b -> exists v, ld n b off = Done v /\ 0 <= v < 256 ^ Z.of_nat n.
Proof.
  intros F Hb. rewrite ld_eq by done. eexists. split; [done|]. destruct F as [F1 F2].
  assert (length (take n (drop (Z.to_nat off) b)) = n) as Hl by (rewrite length_take, length_drop; lia).
  rewrite <- Hl at 3. apply le_val_bound. by apply Forall_take, Forall_drop.
Qed.

Lemma ld_done n b off v : ld n b off = Done v -> fits n b off.
Proof. unfold ld, fits. destruct ((0 <=? off) && (off + Z.of_nat n <=? Z.of_nat (length b))) eqn:E; [lia|done]. Qed.

Lemma ld_byte b off t : ld 1 b off = Done t -> exists x, b !! Z.to_nat off = Some x /\ t = x.
Proof.
  intros H. pose proof (ld_done _ _ _ _ H) as [F1 F2]. rewrite ld_eq in H by done. injection H as <-.
  destruct (b !! Z.to_nat off) as [x|] eqn:E; [|apply lookup_ge_None in E; lia]. exists x. split; [done|].
  rewrite (drop_S _ _ _ E). rewrite firstn_cons, take_0. unfold le_val. cbn [fold_right]. lia.
Qed.

(** * Stores *)

Lemma st_eq n b off v : fits n b off -> st n b off v = Done (take (Z.to_nat off) b ++ le_bytes n v ++ drop (Z.to_nat off + n) b).
Proof. intros [H1 H2]. unfold st. by replace ((0 <=? off) && (off + Z.of_nat n <=? Z.of_nat (length b))) with true by lia. Qed.

Lemma st_ok n b off v : fits n b off -> bytes b -> exists b', st n b off v = Done b' /\ length b' = length b /\ bytes b'.
Proof.
  intros F Hb. rewrite st_eq by done. destruct F as [F1 F2]. eexists. split; [done|]. split.
  - rewrite !length_app, length_take, length_drop, le_bytes_length. lia.
  - apply Forall_app. split; [by apply Forall_take|]. apply Forall_app. split; [apply le_bytes_bytes|by apply Forall_drop].
Qed.

Lemma st_done n b off v b' : st n b off v = Done b' -> fits n b off /\ length b' = length b.
Proof.
  intros H. assert (fits n b off) as F by (unfold st, fits in *; destruct ((0 <=? off) && (off + Z.of_nat n <=? Z.of_nat (length b))) eqn:E; [lia|done]).
  split; [done|]. rewrite st_eq in H by done. injection H as <-. destruct F. rewrite !length_app, length_take, length_drop, le_bytes_length. lia.
Qed.

Lemma st_lookup n b off v b' i :
  st n b off v = Done b' -> (i < Z.to_nat off \/ Z.to_nat off + n <= i)%nat -> b' !! i = b !! i.
Proof.
  intros H Hi. destruct (st_done _ _ _ _ _ H) as [[F1 F2] _]. rewrite st_eq in H by done. injection H as <-.
  assert (length (take (Z.to_nat off) b) = Z.to_nat off) as Ht by (rewrite length_take; lia). destruct Hi as [Hi|Hi].
  - rewrite lookup_app_l by lia. by apply lookup_take_lt.
  - rewrite lookup_app_r by lia. rewrite lookup_app_r by (rewrite le_bytes_length; lia). rewrite lookup_drop, le_bytes_length, Ht. f_equal. lia.
Qed.

(** A field elsewhere is as it was. *)
Lemma ld_st_other n b off v b' m off' :
  st n b off v = Done b' -> (off' + Z.of_nat m <= off \/ off + Z.of_nat n <= off') -> 0 <= off' -> ld m b' off' = ld m b off'.
Proof.
  intros H Hd H0. destruct (st_done _ _ _ _ _ H) as [[F1 F2] Hl]. unfold ld. rewrite Hl.
  destruct ((0 <=? off') && (off' + Z.of_nat m <=? Z.of_nat (length b))); [|done]. do 2 f_equal. apply list_eq. intros i.
  destruct (decide (i < m)%nat); [|rewrite !lookup_take_ge by lia; done]. rewrite !lookup_take_lt, !lookup_drop by lia.
  apply (st_lookup _ _ _ _ _ _ H). lia.
Qed.

Lemma ld_st_same n b off v b' : st n b off v = Done b' -> ld n b' off = Done (v mod 256 ^ Z.of_nat n).
Proof.
  intros H. destruct (st_done _ _ _ _ _ H) as [[F1 F2] Hl]. rewrite ld_eq by (split; lia). rewrite st_eq in H by done. injection H as <-.
  rewrite drop_app_length' by (rewrite length_take; lia). rewrite take_app_length' by (by rewrite le_bytes_length). by rewrite le_val_bytes.
Qed.
