(* ===== verification/PortInv.v ===== *)
(** The accounting of port rights.  Every right to a port is held in exactly
    one place: a name table, a queued message, a registration, or a local
    variable of a call in progress.  The counters of the port are the numbers
    of those places, and every assertion of [mach/port_object.c] follows. *)

From stdpp Require Import base list gmap gmultiset strings numbers option.
From Stdlib Require Import ZArith Lia ZifyBool.
From S2P Require Import Prelude Owners VmMap Ports PortMsg.

(** Compute the fields of a port that was just changed. *)
Ltac fields :=
  cbn [with_counts with_receive with_queue with_qresv with_waiters with_send_waiters with_set with_special with_stash
       with_no_senders with_dead_name with_destroyed p_refs p_send_count p_send_once_count p_has_receive p_dead p_qlen
       p_qresv p_qmax p_queue p_waiters p_send_waiters p_set p_special p_special_arg p_stash p_notify_no_senders
       p_notify_dead_name p_notify_port_destroyed f_drain f_wake f_send_wake f_no_senders f_fire f_dead_name f_member_of].

(** * Rights as resources *)

(** [RHold] is a reference that is no right, [RSet] a name of a port set.
    [RWait] and [RSlot] are no references at all: a thread that may be among
    the port's waiting senders, and a slot of the queue that is promised. *)
Inductive right := RRecv | RSend | ROnce | RHold | RSet | RWait (th : Z) | RSlot.

#[export] Instance right_eq_dec : EqDecision right.
Proof. solve_decision. Defined.
#[export] Instance right_countable : Countable right.
Proof.
  refine (inj_countable' (fun r => match r with
            | RRecv => inl 0 | RSend => inl 1 | ROnce => inl 2 | RHold => inl 3 | RSet => inl 4 | RSlot => inl 5 | RWait th => inr th end)%nat
            (fun n => match n with
            | inl 0 => RRecv | inl 1 => RSend | inl 2 => ROnce | inl 3 => RHold | inl 4 => RSet | inl _ => RSlot | inr th => RWait th end)%nat _).
  by intros [].
Defined.

(** A reference to a port. *)
Definition real (k : right) : Prop := match k with RRecv | RSend | ROnce | RHold => True | _ => False end.

Lemma real_pair (k : right) (p q : Z) : real k -> (p, k) <> (q, RSet).
Proof. by intros H [= _ ->]. Qed.

(** A bag of rights: the object and what is held of it. *)
Abbreviation rights := (gmultiset (Z * right)).

Definition when (b : bool) (x : Z * right) : rights := if b then {[+ x +]} else ∅.

(** The rights a mask stands for. *)
Definition rights_of (p r : Z) : rights :=
  when (has r MACH_PORT_RIGHT_RECEIVE) (p, RRecv) ⊎
  (when (has r MACH_PORT_RIGHT_SEND) (p, RSend) ⊎ when (has r MACH_PORT_RIGHT_SEND_ONCE) (p, ROnce)).

(** A mask of one to three of RECEIVE, SEND and SEND_ONCE. *)
Definition mask_ok (r : Z) : Prop := 0 < r < 8.

Definition desc_rights (d : pending_desc) : rights :=
  match pd_port d with
  | Some p => if pd_type d =? MACH_MSG_PORT_DESCRIPTOR then rights_of p (pd_disposition d) else ∅
  | None => ∅
  end.

(** What a message in flight keeps of the address spaces: frames; and what a
    delivery in progress has mapped already: task, address, pages. *)
Inductive good := Frame (pa : Z) | Range (task va n : Z).

#[export] Instance good_eq_dec : EqDecision good.
Proof. solve_decision. Defined.
#[export] Instance good_countable : Countable good.
Proof.
  refine (inj_countable' (fun g => match g with Frame pa => inl pa | Range t va n => inr (t, va, n) end)
            (fun g => match g with inl pa => Frame pa | inr (t, va, n) => Range t va n end) _).
  by intros [].
Defined.
Abbreviation goods := (gmultiset good).

Definition payload (pas : list Z) : goods := list_to_set_disj (Frame <$> pas).
Definition desc_frames (d : pending_desc) : goods :=
  if pd_type d =? MACH_MSG_OOL_DESCRIPTOR then from_option payload ∅ (pd_ool_pages d) else ∅.
Definition desc_ok (d : pending_desc) : Prop :=
  pd_type d = MACH_MSG_PORT_DESCRIPTOR -> pd_port d <> None -> mask_ok (pd_disposition d).

Definition msg_rights (m : port_msg) : rights := gather desc_rights (m_descs m).
Definition msg_frames (m : port_msg) : goods := gather desc_frames (m_descs m).

(** * Messages as they wait *)

Definition one_right (r : Z) : Prop := r = MACH_PORT_RIGHT_RECEIVE \/ r = MACH_PORT_RIGHT_SEND \/ r = MACH_PORT_RIGHT_SEND_ONCE.

(** A descriptor with something to deliver. *)
Inductive carried : pending_desc -> Prop :=
| carried_port p r : one_right r -> carried (carries p r)
| carried_nothing : carried ool_empty
| carried_ool size pas : 0 < size <= MACH_MSG_OOL_MAX_BYTES -> Z.of_nat (length pas) = Z.shiftr (page_round size) 12 ->
    carried (mkPd MACH_MSG_OOL_DESCRIPTOR 0 None size (Some pas)).

Definition desc_size (d : pending_desc) : Z := if pd_type d =? MACH_MSG_PORT_DESCRIPTOR then PORT_DESC else OOL_DESC.
Definition descs_size (l : list pending_desc) : Z := foldr (fun d n => desc_size d + n) 0 l.

(** The bytes and the descriptors agree: as many as the body says, each with
    its place in it, and a last one for the reply right. *)
Record msg_wf (m : port_msg) (bits : Z) (explicit loc : list pending_desc) : Prop := {
  mw_len : MSG_HDR <= Z.of_nat (length (m_buf m)) <= MAX_MSG_BYTES;
  mw_bits : msgh_bits (m_buf m) = Done bits;
  mw_descs : m_descs m = explicit ++ loc;
  mw_count : if has bits MACH_MSGH_BITS_COMPLEX
             then msgh_descriptor_count (m_buf m) = Done (Z.of_nat (length explicit)) /\
                  MSG_HDR + MSG_BODY + descs_size explicit <= Z.of_nat (length (m_buf m))
             else explicit = [];
  mw_carried : Forall carried explicit;
  mw_local : if MACH_MSGH_BITS_LOCAL bits =? 0 then loc = [] else exists p r, loc = [carries p r] /\ one_right r;
}.

Definition msg_ok (m : port_msg) : Prop := exists bits explicit loc, msg_wf m bits explicit loc.

Lemma one_right_mask r : one_right r -> mask_ok r.
Proof. by intros [->|[->| ->]]. Qed.
Lemma carried_ok d : carried d -> desc_ok d.
Proof. intros [p r H| |size pas H1 H2]; [intros _ _; by apply one_right_mask|done|done]. Qed.

Lemma msg_ok_descs m : msg_ok m -> Forall desc_ok (m_descs m).
Proof.
  intros (bits & ex & lo & [H1 H2 -> H4 H5 H6]). apply Forall_app. split; [by eapply Forall_impl; [apply carried_ok|exact H5]|].
  destruct (_ =? 0); [by subst|]. destruct H6 as (p & r & -> & Hr). constructor; [by apply carried_ok, carried_port|constructor].
Qed.

Definition reg_rights (o : option (Z * Z)) : rights := match o with Some (n, _) => {[+ (n, RSend) +]} | None => ∅ end.
Definition watch_rights (l : list (Z * Z)) : rights := gather (fun n => {[+ (n.1, RSend) +]}) l.

(** What a port keeps alive: its messages and its registrations. *)
Definition queue_rights (q : list port_msg) : rights := gather msg_rights q.
Definition port_rights (po : port) : rights :=
  queue_rights (p_queue po) ⊎
  (reg_rights (p_notify_no_senders po) ⊎
   (watch_rights (p_notify_dead_name po) ⊎ reg_rights (p_notify_port_destroyed po))).
Definition port_frames (po : port) : goods := gather msg_frames (p_queue po).

Definition entry_rights (e : port_entry) : rights :=
  from_option (fun p => rights_of p (pe_rights e)) ∅ (pe_port e) ⊎ from_option (fun q => {[+ (q, RSet) +]}) ∅ (pe_set e).

(** * Name tables *)

Record entry_ok (e : port_entry) : Prop := {
  eo_port p : pe_port e = Some p -> pe_set e = None /\ pe_dead e = false /\ mask_ok (pe_rights e);
  eo_set q : pe_set e = Some q -> pe_port e = None /\ pe_dead e = false;
  eo_none : pe_port e = None -> pe_set e = None -> pe_rights e = 0;
}.

Definition occupied (l : list port_entry) : Z := Z.of_nat (length (filter (fun e => slot_free e = false) l)).

(** Slot 0 is never used; [ps_inuse] covers the names, and counts them
    ([counted_space]) but for a table that is being torn down. *)
Record space_ok (sp : port_space) : Prop := {
  sk_cap : 2 <= ps_capacity sp;
  sk_null : slot_free (get_entry sp 0) = true;
  sk_entries : Forall entry_ok (ps_table sp);
  sk_hint : 1 <= ps_hint sp < ps_capacity sp;
  sk_inuse : occupied (ps_table sp) <= ps_inuse sp;
}.
Definition counted_space (sp : port_space) : Prop := ps_inuse sp = occupied (ps_table sp).

(** * The invariant *)

(** No delivery has mapped anything. *)
Definition unmapped (Y : goods) : Prop := forall t va n, Range t va n ∉ Y.

(** What the messages rely on in the address spaces: what is in flight is
    accounted for there.  A capture may fault on the sender's memory. *)
Class PayloadSpec (V : Type) `{PL : !PayloadOps V} := {
  pl_inv : V -> goods -> Prop;
  pl_release_ok v pas Y : pl_inv v (payload pas ⊎ Y) -> exists v', pl_release v pas = Done v' /\ pl_inv v' Y;
  pl_capture_kernel_ok v addr size n pas v' Y :
    pl_inv v Y -> pl_capture_kernel v addr size n = Done (pas, v') -> pl_inv v' ((if Z.of_nat (length pas) =? n then payload pas else ∅) ⊎ Y);
  pl_capture_user_ok v t addr size n pas v' Y :
    pl_inv v Y -> unmapped Y -> pl_capture_user v t addr size n = Done (pas, v') ->
    pl_inv v' ((if Z.of_nat (length pas) =? n then payload pas else ∅) ⊎ Y);
  pl_unmap_ok v t addr len Y : pl_inv v Y -> unmapped Y -> exists b v', pl_unmap v t addr len = Done (b, v') /\ pl_inv v' Y;
  pl_install_ok v t pas Y : pl_window v t <> None -> pl_inv v (payload pas ⊎ Y) ->
    exists o v', pl_install v t pas = Done (o, v') /\
      match o with
      | Some va => 0 < va < 2 ^ 64 /\ pl_inv v' ({[+ Range t va (Z.of_nat (length pas)) +]} ⊎ Y)
      | None => pl_inv v' (payload pas ⊎ Y)
      end;
  pl_rollback_ok v t va n Y :
    pl_inv v ({[+ Range t va n +]} ⊎ Y) -> exists v', pl_rollback v t va n (n * 4096) = Done v' /\ pl_inv v' Y;
  pl_keep_ok v t va n Y : pl_inv v ({[+ Range t va n +]} ⊎ Y) -> pl_inv v Y;
}.

Section inv.
Context {V : Type} `{PS : PayloadSpec V}.
Abbreviation world := (world (V := V)).
Implicit Types (s : world) (p q : Z) (k : right) (B X : rights) (Y : goods) (E : gset Z) (L : list (Z * Z)).

(** [E] are ports without owners: just made, or about to be freed. *)
Definition stored {K} `{Countable K} (f : port -> gmultiset K) E (m : gmap Z port) : gmultiset K :=
  gather_map (fun p po => if decide (p ∈ E) then ∅ else f po) m.
Definition in_transit E s : rights := stored port_rights E (w_ports s).
Definition tables s : rights := gather_map (fun _ sp => gather entry_rights (ps_table sp)) (w_spaces s).

(** Every right there is: [B] and [X] are held outside the structures. *)
Definition owners B E s X : rights := (in_transit E s ⊎ tables s) ⊎ (B ⊎ X).

Definition num (p : Z) (k : right) (O : rights) : Z := Z.of_nat (multiplicity (p, k) O).

Record tally (O : rights) (p : Z) (po : port) : Prop := {
  t_send : p_send_count po = num p RSend O;
  t_once : p_send_once_count po = num p ROnce O;
  t_recv : Z.b2z (p_has_receive po) = num p RRecv O;
  t_refs : p_refs po = num p RSend O + num p ROnce O + num p RRecv O + num p RHold O;
}.

Record port_ok (po : port) : Prop := {
  po_msgs : Forall msg_ok (p_queue po);
  po_qlen : p_qlen po = Z.of_nat (length (p_queue po));
  po_qresv : 0 <= p_qresv po;
  po_full : p_qlen po + p_qresv po <= KERNEL_QMAX;
  po_qmax : p_qmax po = DEFAULT_QMAX;
  po_dead : p_dead po = true -> p_queue po = [];
  po_norecv : p_has_receive po = false ->
    p_waiters po = [] /\ p_set po = None /\ p_notify_no_senders po = None /\ p_notify_dead_name po = [] /\
    p_notify_port_destroyed po = None;
  po_watches : NoDup (p_notify_dead_name po).*1;
}.

(** The rights to [p] that a caller holds for the length of its call: they
    back the reserved slots and the senders asleep on [p]. *)
Definition pins (p : Z) B : Z := num p RSend B + num p ROnce B + num p RRecv B + num p RHold B.
Record backed B (p qresv : Z) (waiters : list Z) : Prop := {
  bk_count : qresv + Z.of_nat (length waiters) <= pins p B;
  bk_slots : qresv <= num p RSlot B;
  bk_nodup : NoDup waiters;
  bk_waiting th : th ∈ waiters -> (p, RWait th) ∈ B;
}.
Definition pinned B (p : Z) (po : port) : Prop := backed B p (p_qresv po) (p_send_waiters po).

Record set_ok (m : gmap Z port) L (q : Z) (st : port_set) : Prop := {
  so_nodup : NoDup (ps_members st);
  so_count : ps_member_count st = Z.of_nat (length (ps_members st));
  so_members p : p ∈ ps_members st -> exists po, m !! p = Some po /\ (p_set po = Some q \/ (p, q) ∈ L);
}.

(** [L] are ports on their way out of a set, [Y] frames in local variables. *)
Record inv B E L s X Y : Prop := {
  i_tally p po : w_ports s !! p = Some po -> tally (owners B E s X) p po;
  i_live p k : (p, k) ∈ owners B E s X -> real k -> is_Some (w_ports s !! p);
  i_port p po : w_ports s !! p = Some po -> port_ok po;
  i_held p po : w_ports s !! p = Some po -> p ∉ E -> 0 < p_refs po;
  i_born p : p ∈ E -> exists po, w_ports s !! p = Some po /\ p_refs po = 0;
  i_pinned p po : w_ports s !! p = Some po -> pinned B p po;
  i_member p po q : w_ports s !! p = Some po -> p_set po = Some q ->
    (p, RRecv) ∈ tables s ⊎ B /\ exists st, w_sets s !! q = Some st /\ p ∈ ps_members st;
  i_set q st : w_sets s !! q = Some st -> set_ok (w_ports s) L q st;
  i_setrefs q st : w_sets s !! q = Some st -> ps_refs st = num q RSet (owners B E s X);
  i_setlive q : (q, RSet) ∈ owners B E s X -> is_Some (w_sets s !! q);
  i_leave p q : (p, q) ∈ L ->
    (p ∈ E \/ exists k, real k /\ (p, k) ∈ tables s ⊎ B) /\
    (exists po, w_ports s !! p = Some po /\ p_set po = None) /\
    (exists st, w_sets s !! q = Some st /\ p ∈ ps_members st);
  i_fresh p : is_Some (w_ports s !! p) \/ is_Some (w_sets s !! p) -> p < w_next_port_id s;
  i_fresh_space i : is_Some (w_spaces s !! i) -> i < w_next_space_id s;
  i_space i sp : w_spaces s !! i = Some sp -> space_ok sp;
  i_vm : pl_inv (w_vm s) (stored port_frames E (w_ports s) ⊎ Y);
}.

(** * Counting *)

Lemma num_union p k (M N : rights) : num p k (M ⊎ N) = num p k M + num p k N.
Proof. unfold num. rewrite multiplicity_disj_union. lia. Qed.
Lemma num_empty p k : num p k ∅ = 0.
Proof. unfold num. by rewrite multiplicity_empty. Qed.
Lemma num_nonneg p k (M : rights) : 0 <= num p k M.
Proof. unfold num. lia. Qed.
Lemma num_one p k q j : num p k {[+ (q, j) +]} = if decide ((p, k) = (q, j)) then 1 else 0.
Proof. unfold num. rewrite multiplicity_singleton. by destruct (decide ((p, k) = (q, j))). Qed.
Lemma num_when b p k q j : num p k (when b (q, j)) = if decide ((p, k) = (q, j)) then Z.b2z b else 0.
Proof. destruct b; cbn [when]; [apply num_one|]. rewrite num_empty. by destruct (decide _). Qed.
Lemma num_pos p k (M : rights) : (p, k) ∈ M <-> 0 < num p k M.
Proof. rewrite elem_of_multiplicity. unfold num. lia. Qed.
Lemma num_ext (M N : rights) : (forall p k, num p k M = num p k N) -> M = N.
Proof. intros H. apply gmultiset_eq. intros [p k]. specialize (H p k). unfold num in H. lia. Qed.
Lemma num_subset p k (M N : rights) : M ⊆ N -> num p k M <= num p k N.
Proof. intros H. specialize (H (p, k)). unfold num. lia. Qed.

Lemma pinned_more B B' p po : pinned B p po -> (forall k, num p k B <= num p k B') -> pinned B' p po.
Proof.
  intros [P1 P2 P3 P4] H. split; [|pose proof (H RSlot); lia|done|].
  - unfold pins in *. pose proof (H RSend). pose proof (H ROnce). pose proof (H RRecv). pose proof (H RHold). lia.
  - intros th Ht. apply num_pos. pose proof (H (RWait th)). apply P4, num_pos in Ht. lia.
Qed.

Lemma backed_less B p n l n' l' : backed B p n l -> n' <= n -> l' `sublist_of` l -> backed B p n' l'.
Proof.
  intros [P1 P2 P3 P4] H Hs. pose proof (sublist_length _ _ Hs). split; [lia|lia|by eapply sublist_NoDup|].
  intros th Ht. apply P4. by eapply elem_of_sublist.
Qed.

Lemma pinned_less B p po po' :
  pinned B p po -> p_qresv po' <= p_qresv po -> p_send_waiters po' `sublist_of` p_send_waiters po -> pinned B p po'.
Proof. apply backed_less. Qed.

Lemma backed_none B p : backed B p 0 [].
Proof.
  split; [|apply num_nonneg|constructor|by intros th H%not_elem_of_nil]. unfold pins. cbn.
  pose proof (num_nonneg p RSend B). pose proof (num_nonneg p ROnce B). pose proof (num_nonneg p RRecv B). pose proof (num_nonneg p RHold B). lia.
Qed.

Lemma num_rights_of q k p r :
  num q k (rights_of p r) =
  if decide (q = p) then
    match k with
    | RRecv => Z.b2z (has r MACH_PORT_RIGHT_RECEIVE)
    | RSend => Z.b2z (has r MACH_PORT_RIGHT_SEND)
    | ROnce => Z.b2z (has r MACH_PORT_RIGHT_SEND_ONCE)
    | _ => 0
    end
  else 0.
Proof.
  unfold rights_of. rewrite !num_union, !num_when.
  destruct (decide (q = p)) as [->|N]; [|rewrite !decide_False by congruence; lia].
  destruct k; repeat case_decide; try congruence; lia.
Qed.

Lemma size_rights_of p r :
  Z.of_nat (size (rights_of p r)) =
  Z.b2z (has r MACH_PORT_RIGHT_RECEIVE) + Z.b2z (has r MACH_PORT_RIGHT_SEND) + Z.b2z (has r MACH_PORT_RIGHT_SEND_ONCE).
Proof.
  unfold rights_of. rewrite !gmultiset_size_disj_union.
  assert (forall b x, Z.of_nat (size (when b x)) = Z.b2z b) as S.
  { intros [] x; cbn [when]; [by rewrite gmultiset_size_singleton|by rewrite gmultiset_size_empty]. }
  rewrite !Nat2Z.inj_add, !S. lia.
Qed.

Lemma tally_ext O O' p po : (forall k, real k -> num p k O = num p k O') -> tally O p po -> tally O' p po.
Proof. intros H [T1 T2 T3 T4]. split; rewrite <- !H by done; assumption. Qed.

Lemma stored_split {K} `{Countable K} (f : port -> gmultiset K) E m p po :
  m !! p = Some po -> p ∉ E -> stored f E m = f po ⊎ stored f E (delete p m).
Proof. intros Hp He. unfold stored. rewrite (gather_map_delete _ _ _ _ Hp). by rewrite decide_False. Qed.

Lemma stored_insert {K} `{Countable K} (f : port -> gmultiset K) E m p po :
  p ∉ E -> stored f E (<[p := po]> m) = f po ⊎ stored f E (delete p m).
Proof. intros He. unfold stored. rewrite gather_map_insert. by rewrite decide_False. Qed.

Lemma stored_shut {K} `{Countable K} (f : port -> gmultiset K) E m p :
  stored f ({[p]} ∪ E) (delete p m) = stored f E (delete p m).
Proof.
  apply gather_map_ext. intros q po Hq. assert (q <> p) as Hn by (intros ->; by rewrite lookup_delete_eq in Hq).
  destruct (decide (q ∈ E)); [rewrite decide_True by set_solver|rewrite decide_False by set_solver]; done.
Qed.

(** A port that is shut stores nothing. *)
Lemma stored_last {K} `{Countable K} (f : port -> gmultiset K) E m p po :
  stored f ({[p]} ∪ E) (<[p := po]> m) = stored f E (delete p m).
Proof.
  unfold stored at 1. rewrite gather_map_insert, decide_True by set_solver.
  rewrite gmultiset_disj_union_left_id. apply stored_shut.
Qed.

(** * Changing one port *)

(** What the port still stores: nothing when its last reference went. *)
Definition kept (po : port) : rights := if p_refs po =? 0 then ∅ else port_rights po.
Definition kept_frames (po : port) : goods := if p_refs po =? 0 then ∅ else port_frames po.
Definition shut E p (po : port) : gset Z := if p_refs po =? 0 then {[p]} ∪ E else E.

Lemma num_owners p k B E s X :
  num p k (owners B E s X) = num p k (in_transit E s) + num p k (tables s) + (num p k B + num p k X).
Proof. unfold owners. rewrite !num_union. lia. Qed.

Lemma in_transit_put E s p po po' q k :
  w_ports s !! p = Some po -> p ∉ E ->
  num q k (in_transit (shut E p po') (put_port s p po')) - num q k (kept po') =
  num q k (in_transit E s) - num q k (port_rights po).
Proof.
  intros Hp He. unfold in_transit, put_port, shut, kept. cbn [upd_ports w_ports].
  rewrite (stored_split port_rights E _ p po Hp He).
  destruct (p_refs po' =? 0); [rewrite stored_last|rewrite stored_insert by done];
    rewrite ?num_union, ?num_empty; lia.
Qed.

Lemma stored_frames_put E (m : gmap Z port) p po po' :
  m !! p = Some po -> p ∉ E ->
  stored port_frames (shut E p po') (<[p := po']> m) ⊎ port_frames po =
  stored port_frames E m ⊎ kept_frames po'.
Proof.
  intros Hp He. unfold shut, kept_frames. rewrite (stored_split port_frames E _ p po Hp He).
  destruct (p_refs po' =? 0); [rewrite stored_last|rewrite stored_insert by done]; mult_at x.
Qed.

(** How a change of one port moves rights: others' counts stay, its own
    counters follow. *)
Record settled (p : Z) (po po' : port) (old new : rights) : Prop := {
  se_others q k : q <> p \/ k = RSet -> num q k new = num q k old;
  se_send : p_send_count po' - p_send_count po = num p RSend new - num p RSend old;
  se_once : p_send_once_count po' - p_send_once_count po = num p ROnce new - num p ROnce old;
  se_recv : Z.b2z (p_has_receive po') - Z.b2z (p_has_receive po) = num p RRecv new - num p RRecv old;
  se_refs : p_refs po' - p_refs po =
    (num p RSend new - num p RSend old) + (num p ROnce new - num p ROnce old) +
    (num p RRecv new - num p RRecv old) + (num p RHold new - num p RHold old);
}.

(** What it does to the membership of the port in a set: a port that joins
    is listed by the set already. *)
Inductive moved s B B' E' L (p : Z) (po po' : port) : list (Z * Z) -> Prop :=
| stays : p_set po' = p_set po -> (p_set po <> None -> 0 < num p RRecv (tables s ⊎ B')) ->
    (p ∈ L.*1 -> forall k, num p k B <= num p k B') -> moved s B B' E' L p po po' L
| leaves q : p_set po = Some q -> p_set po' = None ->
    (p ∈ E' \/ exists k, real k /\ (p, k) ∈ tables s ⊎ B') -> moved s B B' E' L p po po' ((p, q) :: L)
| joins q L' : L = (p, q) :: L' -> p ∉ L'.*1 -> p_set po' = Some q -> 0 < num p RRecv (tables s ⊎ B') -> moved s B B' E' L p po po' L'.

Section put_port.
Context (B : rights) (E : gset Z) (L : list (Z * Z)) (s : world) (X : rights) (Y : goods).
Context (B' : rights) (L' : list (Z * Z)) (X' : rights) (p : Z) (po po' : port).
Context (I : inv B E L s X Y) (Hp : w_ports s !! p = Some po) (He : p ∉ E).
Context (Bs : forall q k, q <> p -> num q k B <= num q k B') (Mv : moved s B B' (shut E p po') L p po po' L').

Lemma put_other q : q <> p -> w_ports (put_port s p po') !! q = w_ports s !! q.
Proof. intros Hq. by apply lookup_insert_ne. Qed.
Lemma put_self : w_ports (put_port s p po') !! p = Some po'.
Proof. apply lookup_insert_eq. Qed.
Lemma shut_other q : q <> p -> q ∈ shut E p po' <-> q ∈ E.
Proof. clear - E. intros Hq. unfold shut. case_match; set_solver. Qed.

Lemma put_owners q k :
  num q k (owners B' (shut E p po') (put_port s p po') X') - num q k (owners B E s X) =
  num q k (kept po' ⊎ (B' ⊎ X')) - num q k (port_rights po ⊎ (B ⊎ X)).
Proof.
  rewrite !num_owners, !num_union. change (tables (put_port s p po')) with (tables s).
  pose proof (in_transit_put E s p po po' q k Hp He). lia.
Qed.

Lemma put_outside q k : q <> p -> (q, k) ∈ tables s ⊎ B -> (q, k) ∈ tables s ⊎ B'.
Proof. intros Hq M%num_pos. apply num_pos. rewrite num_union in *. pose proof (Bs q k Hq). lia. Qed.

Lemma put_member q qo st :
  w_ports (put_port s p po') !! q = Some qo -> p_set qo = Some st ->
  (q, RRecv) ∈ tables s ⊎ B' /\ exists x, w_sets s !! st = Some x /\ q ∈ ps_members x.
Proof.
  intros Hq Hs. destruct (decide (q = p)) as [->|Hn].
  - rewrite put_self in Hq. injection Hq as <-. destruct Mv as [Es Hin _|q0 E0 E1 _|q0 L0 -> _ E0 H0].
    + rewrite Es in Hs. destruct (i_member _ _ _ _ _ _ I p po st Hp Hs) as [_ D]. split; [|exact D]. apply num_pos, Hin. congruence.
    + congruence.
    + assert (q0 = st) as -> by congruence. split; [by apply num_pos|]. exact (proj2 (proj2 (i_leave _ _ _ _ _ _ I p st ltac:(by left)))).
  - rewrite put_other in Hq by done. destruct (i_member _ _ _ _ _ _ I q qo st Hq Hs) as [M D]. split; [by apply put_outside|exact D].
Qed.

Lemma put_set_ok q st : w_sets s !! q = Some st -> set_ok (w_ports (put_port s p po')) L' q st.
Proof.
  intros Hq. destruct (i_set _ _ _ _ _ _ I q st Hq) as [N C M]. split; [exact N|exact C|].
  intros m Hm. destruct (M m Hm) as (mo & Em & D). destruct (decide (m = p)) as [->|Hn].
  - exists po'. split; [exact put_self|]. rewrite Hp in Em. injection Em as <-. destruct Mv as [Es _ _|q0 E0 E1 _|q0 L0 -> Nl E0 _].
    + by rewrite Es.
    + right. destruct D as [D|D]; [|by right]. assert (q = q0) as -> by congruence. by left.
    + left. destruct (i_leave _ _ _ _ _ _ I p q0 ltac:(by left)) as (_ & (po0 & H0 & S0) & _).
      destruct D as [D|[[= ->]|D]%elem_of_cons]; [congruence|done|]. destruct Nl. apply list_elem_of_fmap. by exists (p, q).
  - exists mo. rewrite put_other by done. split; [exact Em|]. destruct D as [D|D]; [by left|]. right.
    destruct Mv as [| |q0 L0 -> _ _ _]; [exact D|by right|]. apply elem_of_cons in D as [[=]|D]; done.
Qed.

Lemma put_leave m q :
  (m, q) ∈ L' ->
  (m ∈ shut E p po' \/ exists k, real k /\ (m, k) ∈ tables s ⊎ B') /\
  (exists mo, w_ports (put_port s p po') !! m = Some mo /\ p_set mo = None) /\
  (exists st, w_sets s !! q = Some st /\ m ∈ ps_members st).
Proof.
  intros Hm. destruct (decide (m = p)) as [->|Hn].
  - destruct Mv as [Es _ Hb|q0 E0 E1 Ha|q0 L0 -> Nl _ _].
    + destruct (i_leave _ _ _ _ _ _ I p q Hm) as (A & (po0 & E0 & S0) & D). rewrite Hp in E0. injection E0 as <-.
      split; [|split; [exists po'; split; [exact put_self|congruence]|exact D]]. destruct A as [A|(k & Hk & A)]; [done|].
      right. exists k. split; [done|]. apply num_pos in A. apply num_pos. rewrite num_union in *.
      assert (p ∈ L.*1) as Hl by (apply list_elem_of_fmap; by exists (p, q)). specialize (Hb Hl k). lia.
    + apply elem_of_cons in Hm as [[= ->]|Hm].
      * split; [exact Ha|split; [exists po'; split; [exact put_self|done]|exact (proj2 (i_member _ _ _ _ _ _ I p po q0 Hp E0))]].
      * destruct (i_leave _ _ _ _ _ _ I p q Hm) as (_ & (po0 & E2 & S0) & _). congruence.
    + destruct Nl. apply list_elem_of_fmap. by exists (p, q).
  - assert ((m, q) ∈ L) as Hl.
    { destruct Mv as [| |q0 L0 -> _ _ _]; [exact Hm|apply elem_of_cons in Hm as [[=]|]; done|by right]. }
    destruct (i_leave _ _ _ _ _ _ I m q Hl) as (A & D). rewrite put_other by done. split; [|exact D].
    destruct A as [A|(k & Hk & A)]; [left; by apply shut_other|]. right. exists k. split; [done|by apply put_outside].
Qed.

End put_port.

Lemma put_inv B E L s X Y B' L' X' Y' p po po' :
  inv B E L s X Y -> w_ports s !! p = Some po -> p ∉ E -> 0 <= p_refs po' ->
  settled p po po' (port_rights po ⊎ (B ⊎ X)) (kept po' ⊎ (B' ⊎ X')) ->
  port_ok po' -> kept_frames po' ⊎ Y' = port_frames po ⊎ Y ->
  (forall q k, q <> p -> num q k B <= num q k B') -> pinned B' p po' ->
  moved s B B' (shut E p po') L p po po' L' ->
  inv B' (shut E p po') L' (put_port s p po') X' Y'.
Proof.
  intros I Hp He Hr [So Ss Sn Sc Sr] Ok Fr Bs Pin Mv. pose proof (put_owners B E s X B' X' p po po' Hp He) as Ow.
  set (s' := put_port s p po') in *. set (E' := shut E p po') in *.
  assert (forall q k, q <> p \/ k = RSet -> num q k (owners B' E' s' X') = num q k (owners B E s X)) as Oth.
  { intros q k Hq. specialize (Ow q k). rewrite (So q k Hq) in Ow. lia. }
  pose proof (fun q => put_other s p po' q) as Lo. pose proof (put_self s p po') as Lp. fold s' in Lo, Lp.
  split.
  - intros q qo Hq. destruct (decide (q = p)) as [->|Hn].
    + rewrite Lp in Hq. injection Hq as <-. destruct (i_tally _ _ _ _ _ _ I p po Hp) as [T1 T2 T3 T4].
      pose proof (Ow p RSend). pose proof (Ow p ROnce). pose proof (Ow p RRecv). pose proof (Ow p RHold). split; lia.
    + rewrite Lo in Hq by done. eapply tally_ext, (i_tally _ _ _ _ _ _ I q qo Hq). intros k _. symmetry. apply Oth. by left.
  - intros q k Hq Hk. destruct (decide (q = p)) as [->|Hn]; [by eexists|]. rewrite Lo by done.
    apply (i_live _ _ _ _ _ _ I q k); [|done]. apply num_pos. rewrite <- Oth by (by left). by apply num_pos.
  - intros q qo Hq. destruct (decide (q = p)) as [->|Hn]; [rewrite Lp in Hq; by injection Hq as <-|].
    rewrite Lo in Hq by done. exact (i_port _ _ _ _ _ _ I q qo Hq).
  - intros q qo Hq Hne. destruct (decide (q = p)) as [->|Hn].
    + rewrite Lp in Hq. injection Hq as <-. unfold E', shut in Hne. destruct (p_refs po' =? 0) eqn:Ez; [set_solver|lia].
    + rewrite Lo in Hq by done. apply (i_held _ _ _ _ _ _ I q qo Hq). intros Hq'. apply Hne. by apply (shut_other E p po').
  - intros q Hq. destruct (decide (q = p)) as [->|Hn].
    + exists po'. split; [exact Lp|]. unfold E', shut in Hq. destruct (p_refs po' =? 0) eqn:Ez; [lia|set_solver].
    + rewrite Lo by done. apply (i_born _ _ _ _ _ _ I q). by apply (shut_other E p po').
  - intros q qo Hq. destruct (decide (q = p)) as [->|Hn]; [rewrite Lp in Hq; by injection Hq as <-|].
    rewrite Lo in Hq by done. pose proof (i_pinned _ _ _ _ _ _ I q qo Hq) as Pq.
    apply (pinned_more B B' q qo Pq). intros k. by apply Bs.
  - exact (put_member B E L s X Y B' L' p po po' I Hp Bs Mv).
  - exact (put_set_ok B E L s X Y B' L' p po po' I Hp Mv).
  - intros q st Hq. rewrite (i_setrefs _ _ _ _ _ _ I q st Hq). symmetry. apply Oth. by right.
  - intros q Hq. apply (i_setlive _ _ _ _ _ _ I q). apply num_pos. rewrite <- Oth by (by right). by apply num_pos.
  - intros m q Hm. exact (put_leave B E L s X Y B' L' p po po' I Hp He Bs Mv m q Hm).
  - intros q Hq. apply (i_fresh _ _ _ _ _ _ I q). destruct Hq as [Hq|Hq]; [left|by right].
    destruct (decide (q = p)) as [->|Hn]; [by eexists|]. by rewrite Lo in Hq.
  - exact (i_fresh_space _ _ _ _ _ _ I).
  - exact (i_space _ _ _ _ _ _ I).
  - pose proof (stored_frames_put E (w_ports s) p po po' Hp He) as Sf.
    assert (stored port_frames E' (w_ports s') ⊎ Y' = stored port_frames E (w_ports s) ⊎ Y) as ->; [|apply I].
    apply gmultiset_eq. intros x. pose proof (f_equal (multiplicity x) Sf) as S1. pose proof (f_equal (multiplicity x) Fr) as F1.
    change (w_ports s') with (<[p := po']> (w_ports s)). rewrite !multiplicity_disj_union in *. fold E' in S1. lia.
Qed.

(** A change that moves rights between the port and the caller only. *)
Lemma put_plain B E L s X Y X' Y' p po po' :
  inv B E L s X Y -> w_ports s !! p = Some po -> p ∉ E ->
  p_refs po' = p_refs po -> p_send_count po' = p_send_count po -> p_send_once_count po' = p_send_once_count po ->
  p_has_receive po' = p_has_receive po -> p_set po' = p_set po -> port_ok po' -> pinned B p po' ->
  port_rights po' ⊎ X' = port_rights po ⊎ X -> port_frames po' ⊎ Y' = port_frames po ⊎ Y ->
  inv B E L (put_port s p po') X' Y'.
Proof.
  intros I Hp He R1 R2 R3 R4 R5 Ok Pin Er Ef. pose proof (i_held _ _ _ _ _ _ I p po Hp He) as Hr.
  assert ((p_refs po' =? 0) = false) as Ez by lia.
  assert (shut E p po' = E) as Es by (unfold shut; by rewrite Ez). rewrite <- Es at 1.
  assert (forall q k, num q k (kept po' ⊎ (B ⊎ X')) = num q k (port_rights po ⊎ (B ⊎ X))) as En.
  { intros q k. unfold kept. rewrite Ez. pose proof (f_equal (num q k) Er) as Q. rewrite !num_union in *. lia. }
  apply (put_inv B E L s X Y B L X' Y' p po po' I Hp He); [lia| |exact Ok| |lia|exact Pin|].
  - split; intros; rewrite ?En; lia.
  - unfold kept_frames. by rewrite Ez.
  - apply stays; [exact R5| |lia]. intros Hn. destruct (p_set po) as [q|] eqn:Eq; [|done].
    apply num_pos. exact (proj1 (i_member _ _ _ _ _ _ I p po q Hp Eq)).
Qed.

(** The invariant does not look at the heap, the wakes and the stack. *)
Lemma same_inv B E L s s' X Y :
  w_ports s' = w_ports s -> w_sets s' = w_sets s -> w_spaces s' = w_spaces s -> w_next_port_id s' = w_next_port_id s ->
  w_next_space_id s' = w_next_space_id s -> w_vm s' = w_vm s -> inv B E L s X Y -> inv B E L s' X Y.
Proof.
  destruct s as [a b c d e f g h i], s' as [a' b' c' d' e' f' g' h' i']. cbn. intros -> -> -> -> -> -> I. split; apply I.
Qed.

(** Any change of the sets that keeps members and counts in order. *)
Record sets_fit B E L s X (m : gmap Z port_set) : Prop := {
  sf_member p po q : w_ports s !! p = Some po -> p_set po = Some q -> exists st, m !! q = Some st /\ p ∈ ps_members st;
  sf_set q st : m !! q = Some st -> set_ok (w_ports s) L q st /\ ps_refs st = num q RSet (owners B E s X);
  sf_live q : 0 < num q RSet (owners B E s X) -> is_Some (m !! q);
  sf_leave p q : (p, q) ∈ L -> exists st, m !! q = Some st /\ p ∈ ps_members st;
  sf_fresh q : is_Some (m !! q) -> q < w_next_port_id s;
}.

Lemma sets_inv B E L L' s X X' Y m :
  inv B E L s X Y -> (forall p k, real k -> num p k X' = num p k X) ->
  (forall p q, (p, q) ∈ L' -> (p, q) ∈ L \/ (exists po, w_ports s !! p = Some po /\ p_set po = None) /\ (p, RRecv) ∈ tables s ⊎ B) ->
  sets_fit B E L' s X' m -> inv B E L' (upd_sets s m) X' Y.
Proof.
  intros I Hx Hl [F1 F2 F3 F4 F5]. change (owners B E s X') with (owners B E (upd_sets s m) X') in *.
  assert (forall p k, real k -> num p k (owners B E (upd_sets s m) X') = num p k (owners B E s X)) as Ow.
  { intros p k Hk. rewrite !num_owners, (Hx p k Hk). reflexivity. }
  split; try apply I.
  - intros p po Hp. eapply tally_ext, (i_tally _ _ _ _ _ _ I p po Hp). intros k Hk. symmetry. by apply Ow.
  - intros p k Hp Hk. apply (i_live _ _ _ _ _ _ I p k); [|done]. apply num_pos. rewrite <- Ow by done. by apply num_pos.
  - intros p po q Hp Hs. split; [exact (proj1 (i_member _ _ _ _ _ _ I p po q Hp Hs))|exact (F1 p po q Hp Hs)].
  - intros q st Hq. exact (proj1 (F2 q st Hq)).
  - intros q st Hq. exact (proj2 (F2 q st Hq)).
  - intros q Hq. apply F3. by apply num_pos.
  - intros p q Hp. split_and!; [..|exact (F4 p q Hp)]; (destruct (Hl p q Hp) as [H|[D M]]; [by apply (i_leave _ _ _ _ _ _ I p q H)|]); [|done].
    right. by exists RRecv.
  - intros p [Hp|Hp]; [apply (i_fresh _ _ _ _ _ _ I); by left|exact (F5 p Hp)].
Qed.

Lemma sets_fit_inv B E L s X Y : inv B E L s X Y -> sets_fit B E L s X (w_sets s).
Proof.
  intros I. split.
  - intros p po q Hp Hs. exact (proj2 (i_member _ _ _ _ _ _ I p po q Hp Hs)).
  - intros q st Hq. split; [exact (i_set _ _ _ _ _ _ I q st Hq)|exact (i_setrefs _ _ _ _ _ _ I q st Hq)].
  - intros q Hq. apply (i_setlive _ _ _ _ _ _ I). by apply num_pos.
  - intros p q Hp. exact (proj2 (proj2 (i_leave _ _ _ _ _ _ I p q Hp))).
  - intros q Hq. apply (i_fresh _ _ _ _ _ _ I). by right.
Qed.

(** One set changed: its members still listed, or leaving. *)
Lemma put_set_fit B E L L' s X X' (m : gmap Z port_set) q st st' :
  sets_fit B E L s X m -> m !! q = Some st -> (forall p, p <> q -> num p RSet X' = num p RSet X) ->
  (forall p q', (p, q') ∈ L' -> (p, q') ∈ L) -> (forall p q', (p, q') ∈ L -> q' <> q -> (p, q') ∈ L') ->
  set_ok (w_ports s) L' q st' -> ps_refs st' = num q RSet (owners B E s X') ->
  (forall p, p ∈ ps_members st ->
     p ∈ ps_members st' \/ (((p, q) ∉ L') /\ forall po, w_ports s !! p = Some po -> p_set po <> Some q)) ->
  sets_fit B E L' s X' (<[q := st']> m).
Proof.
  intros [F1 F2 F3 F4 F5] Hq Hx Hl Hl' Ok Er Hm.
  assert (forall p, p <> q -> num p RSet (owners B E s X') = num p RSet (owners B E s X)) as Ow by (intros p Hp; rewrite !num_owners, Hx by done; done).
  assert (forall p q', (exists x, m !! q' = Some x /\ p ∈ ps_members x) ->
            (q' = q -> (p, q) ∈ L' \/ exists po, w_ports s !! p = Some po /\ p_set po = Some q) ->
            exists x, (<[q := st']> m) !! q' = Some x /\ p ∈ ps_members x) as Keep.
  { intros p q' (x & Hx1 & Hin) Hwhy. destruct (decide (q' = q)) as [->|Hn].
    - rewrite lookup_insert_eq. exists st'. split; [done|]. assert (x = st) as -> by congruence.
      destruct (Hm p Hin) as [|[N1 N2]]; [done|]. destruct (Hwhy eq_refl) as [|(po & Hp & Hs)]; [done|]. by destruct (N2 po Hp).
    - rewrite lookup_insert_ne by done. by exists x. }
  split.
  - intros p po q' Hp Hs. apply Keep; [by eapply F1|]. intros ->. right. by exists po.
  - intros q' x H. destruct (decide (q' = q)) as [->|Hn].
    + rewrite lookup_insert_eq in H. injection H as <-. by split.
    + rewrite lookup_insert_ne in H by done. destruct (F2 q' x H) as [[A1 A2 A3] A4]. rewrite Ow by done. split; [|done].
      split; [done|done|]. intros p Hp. destruct (A3 p Hp) as (po & Hpo & [D|D]); exists po; (split; [done|]); [by left|right; by apply Hl'].
  - intros q' H. destruct (decide (q' = q)) as [->|Hn]; [rewrite lookup_insert_eq; by eexists|].
    rewrite lookup_insert_ne by done. apply F3. by rewrite <- Ow.
  - intros p q' Hp. apply Keep; [by apply F4, Hl|]. intros ->. by left.
  - intros q' H. destruct (decide (q' = q)) as [->|Hn]; [apply F5; by eexists|]. rewrite lookup_insert_ne in H by done. by apply F5.
Qed.

Lemma put_set_inv B E L s X Y q st st' :
  inv B E L s X Y -> w_sets s !! q = Some st -> ps_members st' = ps_members st ->
  ps_member_count st' = ps_member_count st -> ps_refs st' = ps_refs st -> inv B E L (put_set s q st') X Y.
Proof.
  intros I Hq Em Ec Er. apply (sets_inv B E L L s X X Y _ I); [done|by left|].
  apply (put_set_fit B E L L s X X _ q st st' (sets_fit_inv _ _ _ _ _ _ I) Hq); try done.
  - destruct (i_set _ _ _ _ _ _ I q st Hq) as [N C M]. split; rewrite ?Em, ?Ec; done.
  - rewrite Er. exact (i_setrefs _ _ _ _ _ _ I q st Hq).
  - intros p Hp. left. by rewrite Em.
Qed.

(** * What a call leaves alone *)

(** How much the structures hold: nested calls have that much work at most. *)
Definition load E s : nat := size (in_transit E s).

(** A port is never given more to do by releasing others. *)
Record lesser (po po' : port) : Prop := {
  le_refs : p_refs po' <= p_refs po;
  le_set : p_set po' = p_set po \/ p_set po' = None;
  le_destroyed : p_notify_port_destroyed po = None -> p_notify_port_destroyed po' = None;
  le_qresv : p_qresv po' = p_qresv po;
  le_send_waiters : p_send_waiters po' `sublist_of` p_send_waiters po;
}.

Lemma lesser_refl po : lesser po po.
Proof. by split; auto. Qed.
Lemma lesser_trans po1 po2 po3 : lesser po1 po2 -> lesser po2 po3 -> lesser po1 po3.
Proof. intros [A1 A2 A3 A4 A5] [B1 B2 B3 B4 B5]. split; [lia| |auto|lia|by etrans]. destruct B2 as [->| ->]; auto. Qed.

Lemma pinned_lesser B p po po' : pinned B p po -> lesser po po' -> pinned B p po'.
Proof. intros P [_ _ _ L1 L2]. apply (pinned_less B p po po' P); [lia|done]. Qed.

Record quiet E s s' : Prop := {
  qt_spaces : w_spaces s' = w_spaces s;
  qt_depth : w_depth s' = w_depth s;
  qt_next : w_next_port_id s' = w_next_port_id s;
  qt_next_space : w_next_space_id s' = w_next_space_id s;
  qt_shut p : p ∈ E -> w_ports s' !! p = w_ports s !! p;
  qt_port p po' : w_ports s' !! p = Some po' -> exists po, w_ports s !! p = Some po /\ lesser po po';
}.

Lemma quiet_same E s s' :
  w_ports s' = w_ports s -> w_spaces s' = w_spaces s -> w_depth s' = w_depth s -> w_next_port_id s' = w_next_port_id s ->
  w_next_space_id s' = w_next_space_id s -> quiet E s s'.
Proof. intros H1 H2 H3 H4 H5. split; try done; rewrite H1; [done|]. intros p po Hp. exists po. split; [done|apply lesser_refl]. Qed.

Lemma quiet_refl E s : quiet E s s.
Proof. by apply quiet_same. Qed.

Lemma quiet_steps E s1 s2 s3 : quiet E s1 s2 -> quiet E s2 s3 -> quiet E s1 s3.
Proof.
  intros [A1 A2 A3 A4 A5 A6] [B1 B2 B3 B4 B5 B6]. split; try congruence; [intros p Hp; by rewrite B5, A5|].
  intros p po3 H3. destruct (B6 p po3 H3) as (po2 & H2 & Le2). destruct (A6 p po2 H2) as (po1 & H1 & Le1).
  exists po1. split; [done|by eapply lesser_trans].
Qed.

Lemma quiet_less E E' s s' : E ⊆ E' -> quiet E' s s' -> quiet E s s'.
Proof. intros Hs [A1 A2 A3 A4 A5 A6]. split; try assumption. intros p Hp. apply A5. set_solver. Qed.

Lemma quiet_put E s p po po' : p ∉ E -> w_ports s !! p = Some po -> lesser po po' -> quiet E s (put_port s p po').
Proof.
  intros Hp Ho Le. split; try reflexivity; [intros q Hq; cbn; apply lookup_insert_ne; congruence|].
  intros q qo Hq. cbn in Hq. destruct (decide (q = p)) as [->|Hn].
  - rewrite lookup_insert_eq in Hq. injection Hq as <-. by exists po.
  - rewrite lookup_insert_ne in Hq by done. exists qo. split; [done|apply lesser_refl].
Qed.

Lemma load_put E s p po po' :
  w_ports s !! p = Some po -> p ∉ E -> 
  (load E (put_port s p po') + size (port_rights po) = load E s + size (port_rights po'))%nat.
Proof.
  intros Hp He. unfold load, in_transit, put_port. cbn [upd_ports w_ports].
  rewrite (stored_split port_rights E _ p po Hp He), stored_insert by done. rewrite !gmultiset_size_disj_union. lia.
Qed.

(** * Queues *)

Lemma get_port_eq s p po : w_ports s !! p = Some po -> get_port s p = Done po.
Proof. unfold get_port. by intros ->. Qed.
Lemma get_set_eq s q st : w_sets s !! q = Some st -> get_set s q = Done st.
Proof. unfold get_set. by intros ->. Qed.

Lemma put_port_id s p po : w_ports s !! p = Some po -> put_port s p po = s.
Proof. intros Hp. unfold put_port, upd_ports. rewrite insert_id by done. by destruct s. Qed.

(** Steps that leave rights and frames where they are. *)
Record idle B E L s s' X Y : Prop := {
  id_inv : inv B E L s' X Y;
  id_quiet : quiet E s s';
  id_load : load E s' = load E s;
}.

Lemma same_idle B E L s s' X Y :
  w_ports s' = w_ports s -> w_sets s' = w_sets s -> w_spaces s' = w_spaces s -> w_next_port_id s' = w_next_port_id s ->
  w_next_space_id s' = w_next_space_id s -> w_vm s' = w_vm s -> w_depth s' = w_depth s -> inv B E L s X Y ->
  idle B E L s s' X Y.
Proof.
  intros H1 H2 H3 H4 H5 H6 H7 I. split; [by apply (same_inv _ _ _ s)| |].
  - by apply quiet_same.
  - unfold load, in_transit. by rewrite H1.
Qed.

Lemma idle_trans B E L s1 s2 s3 X Y : idle B E L s1 s2 X Y -> (inv B E L s2 X Y -> idle B E L s2 s3 X Y) -> idle B E L s1 s3 X Y.
Proof. intros [I1 Q1 L1] H. destruct (H I1) as [I2 Q2 L2]. split; [done|by eapply quiet_steps|congruence]. Qed.

Lemma wake_idle B E L s X Y l : inv B E L s X Y -> idle B E L s (wake_all s l) X Y.
Proof. by apply same_idle. Qed.
Lemma heap_idle B E L s X Y h : inv B E L s X Y -> idle B E L s (upd_heap s h) X Y.
Proof. by apply same_idle. Qed.

Lemma put_set_idle B E L s X Y q st st' :
  inv B E L s X Y -> w_sets s !! q = Some st -> ps_members st' = ps_members st ->
  ps_member_count st' = ps_member_count st -> ps_refs st' = ps_refs st -> idle B E L s (put_set s q st') X Y.
Proof. intros I Hq E1 E2 E3. split; [by eapply put_set_inv|by apply quiet_same|done]. Qed.

(** A port changed in fields that own nothing. *)
Record trivial_change (po po' : port) : Prop := {
  tc_refs : p_refs po' = p_refs po;
  tc_send : p_send_count po' = p_send_count po;
  tc_once : p_send_once_count po' = p_send_once_count po;
  tc_recv : p_has_receive po' = p_has_receive po;
  tc_set : p_set po' = p_set po;
  tc_rights : port_rights po' = port_rights po;
  tc_frames : port_frames po' = port_frames po;
}.

Lemma put_trivial B E L s X Y p po po' :
  inv B E L s X Y -> w_ports s !! p = Some po -> p ∉ E -> trivial_change po po' -> port_ok po' -> pinned B p po' ->
  inv B E L (put_port s p po') X Y /\ load E (put_port s p po') = load E s.
Proof.
  intros I Hp He [T1 T2 T3 T4 T5 T6 T7] Ok Pin. split.
  - eapply (put_plain B E L s X Y); try eassumption; by rewrite ?T6, ?T7.
  - pose proof (load_put E s p po po' Hp He) as Q. rewrite T6 in Q. lia.
Qed.

Lemma with_waiters_ok po l : port_ok po -> (p_has_receive po = false -> l = []) -> port_ok (with_waiters po l).
Proof. intros [A1 A2 A3 A4 A5 A6 A7 A8] Hl. split; cbn; try assumption. intros Hr. destruct (A7 Hr) as (_ & D). split; [by apply Hl|exact D]. Qed.

Lemma pop_waiter_ok B E L s X Y p po :
  inv B E L s X Y -> w_ports s !! p = Some po -> p ∉ E ->
  exists w s' po', pop_waiter s p (p_set po) = Done (w, s') /\ idle B E L s s' X Y /\
    w_ports s' !! p = Some po' /\ p_qresv po' = p_qresv po /\ p_send_waiters po' = p_send_waiters po.
Proof.
  intros I Hp He. unfold pop_waiter.
  assert (forall s1, idle B E L s s1 X Y -> w_ports s1 = w_ports s -> exists w s' po',
            (po ← get_port s1 p; Done match p_waiters po with
                                      | w :: l => (Some w, put_port s1 p (with_waiters po l))
                                      | [] => (None, s1)
                                      end) = Done (w, s') /\ idle B E L s s' X Y /\
            w_ports s' !! p = Some po' /\ p_qresv po' = p_qresv po /\ p_send_waiters po' = p_send_waiters po) as Own.
  { intros s1 D1 Ep. rewrite (get_port_eq s1 p po) by congruence. rewrite bind_Done.
    destruct (p_waiters po) as [|w l] eqn:Ew; [exists None, s1, po; rewrite Ep; by split_and!|].
    exists (Some w), (put_port s1 p (with_waiters po l)), (with_waiters po l).
    split_and!; [done| |apply lookup_insert_eq|done|done].
    eapply idle_trans; [exact D1|]. intros I1. rewrite <- Ep in Hp. 
    destruct (put_trivial B E L s1 X Y p po (with_waiters po l) I1 Hp He) as [I2 L2]; [by split| | |split; [done| |done]].
    - apply with_waiters_ok; [exact (i_port _ _ _ _ _ _ I1 p po Hp)|]. intros Hr.
      destruct (po_norecv _ (i_port _ _ _ _ _ _ I1 p po Hp) Hr) as [Q _]. congruence.
    - exact (i_pinned _ _ _ _ _ _ I1 p po Hp).
    - apply (quiet_put E s1 p po _ He Hp). split; fields; auto; (lia || reflexivity). }
  destruct (p_set po) as [q|] eqn:Eq.
  - destruct (i_member _ _ _ _ _ _ I p po q Hp Eq) as [_ (st & Hq & _)]. rewrite (get_set_eq s q st Hq), !bind_Done.
    destruct (ps_waiters st) as [|w l] eqn:Ew; [apply Own; [by apply same_idle|done]|].
    eexists _, _, po. split; [reflexivity|]. split; [by eapply put_set_idle|done].
  - rewrite bind_Done. apply Own; [by apply same_idle|done].
Qed.

Definition with_enqueued (po : port) (m : port_msg) : port := with_queue po (p_queue po ++ [m]) (p_qlen po + 1).
Definition slot_used (po : port) (reserved : bool) : port := if reserved then with_qresv po (p_qresv po - 1) else po.

Lemma enqueued_ok po m : port_ok po -> msg_ok m -> p_dead po = false -> p_qlen po + p_qresv po < KERNEL_QMAX -> port_ok (with_enqueued po m).
Proof.
  intros [A1 A2 A3 A4 A5 A6 A7 A8] Hm Hd Hq. split; cbn; try assumption; [|rewrite length_app; cbn; lia|lia|congruence].
  apply Forall_app. split; [exact A1|by constructor].
Qed.

Lemma enqueued_rights po m : port_rights (with_enqueued po m) = msg_rights m ⊎ port_rights po.
Proof. unfold port_rights, queue_rights. cbn. rewrite gather_app, gather_one. mult_at x. Qed.
Lemma enqueued_frames po m : port_frames (with_enqueued po m) = msg_frames m ⊎ port_frames po.
Proof. unfold port_frames. cbn. rewrite gather_app, gather_one. mult_at x. Qed.

(** What [msg_enqueue] did with the message. *)
Inductive enqueued B E L s m X Y s' : Z -> option Z -> Prop :=
| queued w : inv B E L s' X Y -> load E s' = (load E s + size (msg_rights m))%nat -> enqueued B E L s m X Y s' MACH_MSG_OK w
| refused rv : rv <> MACH_MSG_OK -> inv B E L s' (msg_rights m ⊎ X) (msg_frames m ⊎ Y) -> load E s' = load E s ->
    enqueued B E L s m X Y s' rv None.

Lemma msg_enqueue_ok B E L s X Y p po m (reserved : bool) :
  inv B E L s (msg_rights m ⊎ X) (msg_frames m ⊎ Y) -> w_ports s !! p = Some po -> p ∉ E -> msg_ok m ->
  (reserved = true -> 0 < p_qresv po) ->
  exists rv w s' po', msg_enqueue s p m reserved = Done (rv, w, s') /\ quiet E (put_port s p (slot_used po reserved)) s' /\ enqueued B E L s m X Y s' rv w /\
    w_ports s' !! p = Some po' /\ p_qresv po' = p_qresv po - Z.b2z reserved /\ p_send_waiters po' = p_send_waiters po.
Proof.
  intros I Hp He Hm Hr. unfold msg_enqueue. rewrite (get_port_eq s p po Hp), bind_Done.
  rewrite KASSERT_true by (destruct reserved; [specialize (Hr eq_refl)|]; lia). fold (slot_used po reserved).
  set (po1 := slot_used po reserved). pose proof (i_port _ _ _ _ _ _ I p po Hp) as Ok.
  assert (trivial_change po po1) as Tc by (unfold po1, slot_used in *; destruct reserved; by split).
  assert (p_qresv po1 = p_qresv po - Z.b2z reserved) as Q1 by (unfold po1, slot_used; destruct reserved; cbn; lia).
  assert (p_send_waiters po1 = p_send_waiters po) as W1 by (unfold po1, slot_used; by destruct reserved).
  assert (port_ok po1) as Ok1.
  { unfold po1, slot_used. destruct reserved; [|exact Ok]. specialize (Hr eq_refl). destruct Ok. split; cbn; try assumption; lia. }
  assert (pinned B p po1) as Pin1.
  { apply (pinned_less B p po po1 (i_pinned _ _ _ _ _ _ I p po Hp)); [rewrite Q1; destruct reserved; cbn; lia|by rewrite W1]. }
  destruct (put_trivial B E L s _ _ p po po1 I Hp He Tc Ok1 Pin1) as [I1 L1].
  destruct (p_dead po1) eqn:Ed.
  { exists MACH_E_DEAD, None, (put_port s p po1), po1. split_and!; [done|apply quiet_refl| |apply lookup_insert_eq|done|done].
    by apply refused. }
  destruct (negb reserved && (KERNEL_QMAX <=? p_qlen po1 + p_qresv po1)) eqn:Ef.
  { exists MACH_E_NOSPACE, None, (put_port s p po1), po1. split_and!; [done|apply quiet_refl| |apply lookup_insert_eq|done|done].
    by apply refused. }
  fold (with_enqueued po1 m). set (po2 := with_enqueued po1 m). set (s2 := put_port s p po2).
  assert (p_qlen po1 + p_qresv po1 < KERNEL_QMAX) as Room.
  { destruct reserved; [|lia]. pose proof (po_full _ Ok) as Hf. unfold po1, slot_used in *. cbn in *. lia. }
  assert (inv B E L s2 X Y) as I2.
  { destruct Tc as [T1 T2 T3 T4 T5 T6 T7].
    apply (put_plain B E L s _ _ X Y p po po2 I Hp He T1 T2 T3 T4 T5); [by apply enqueued_ok|exact Pin1| |].
    - unfold po2. rewrite enqueued_rights, T6. mult_at x.
    - unfold po2. rewrite enqueued_frames, T7. mult_at x. }
  assert (load E s2 = (load E s + size (msg_rights m))%nat) as L2.
  { pose proof (load_put E s p po po2 Hp He) as Q. unfold po2 in Q. rewrite enqueued_rights, gmultiset_size_disj_union, (tc_rights _ _ Tc) in Q.
    fold po2 s2 in Q. lia. }
  destruct (pop_waiter_ok B E L s2 X Y p po2 I2 (lookup_insert_eq _ _ _) He) as (w & s3 & po3 & Ew & [I3 Qt3 L3] & H3 & R3 & W3).
  change (p_set po1) with (p_set po2). rewrite Ew, bind_Done. exists MACH_MSG_OK, w, s3, po3.
  split_and!; [done| |apply queued; [exact I3|congruence]|exact H3|rewrite R3; exact Q1|rewrite W3; exact W1].
  eapply quiet_steps, Qt3. assert (s2 = put_port (put_port s p po1) p po2) as -> by (unfold s2, put_port, upd_ports; cbn; by rewrite insert_insert_eq).
  apply (quiet_put E _ p po1 po2 He (lookup_insert_eq _ _ _)). split; unfold po2, with_enqueued; fields; auto; (lia || reflexivity).
Qed.

Lemma notify_msg_ok id tag : msg_ok (mkMsg [] (notify_buf id tag)).
Proof. exists MACH_MSG_TYPE_COPY_SEND, [], []. by split. Qed.
Lemma destroyed_msg_ok p tag : msg_ok (mkMsg [carries p MACH_PORT_RIGHT_RECEIVE] (destroyed_buf tag)).
Proof.
  exists (MACH_MSGH_BITS_COMPLEX + MACH_MSG_TYPE_COPY_SEND), [carries p MACH_PORT_RIGHT_RECEIVE], []. split; try done.
  repeat constructor.
Qed.
Lemma exception_msg_ok e : msg_ok (mkMsg [] (exception_buf 0 e)).
Proof. exists MACH_MSG_TYPE_COPY_SEND, [], []. by split. Qed.
Lemma exception_reply_ok e q : msg_ok (mkMsg [carries q MACH_PORT_RIGHT_SEND] (exception_buf MACH_MSG_TYPE_MAKE_SEND e)).
Proof.
  exists (MACH_MSGH_BITS MACH_MSG_TYPE_COPY_SEND MACH_MSG_TYPE_MAKE_SEND), [], [carries q MACH_PORT_RIGHT_SEND]. split; try done.
  exists q, MACH_PORT_RIGHT_SEND. split; [done|by right; left].
Qed.

(** Notifications carry nothing; the notice of a destroyed port carries the
    receive right. *)
Lemma port_notify_enqueue_ok B E L s X Y n po id tag :
  inv B E L s X Y -> w_ports s !! n = Some po -> n ∉ E ->
  exists rv s', port_notify_enqueue s n id tag = Done (rv, s') /\ idle B E L s s' X Y.
Proof.
  intros I Hn He. unfold port_notify_enqueue, w_kmalloc. destruct (kmalloc_ok (w_heap s)) as [ok h].
  pose proof (heap_idle B E L s X Y h I) as D. destruct ok; cbn [negb]; [|by eexists _, _].
  set (m := mkMsg [] (notify_buf id tag)). destruct D as [I1 Q1 L1].
  assert (msg_rights m ⊎ X = X) as Ex by apply gmultiset_disj_union_left_id.
  assert (msg_frames m ⊎ Y = Y) as Ey by apply gmultiset_disj_union_left_id.
  destruct (msg_enqueue_ok B E L (upd_heap s h) X Y n po m false) as (rv & w & s' & po' & Eq & Qt & D & _);
    [by rewrite Ex, Ey|exact Hn|exact He|apply notify_msg_ok|done|].
  rewrite Eq, bind_Done. eexists _, _. split; [reflexivity|]. cbn [slot_used] in Qt. rewrite put_port_id in Qt by done.
  assert (inv B E L s' X Y /\ load E s' = load E s) as [I2 L2].
  { destruct D as [w I2 L2|rv' _ I2 L2]; [split; [done|]|rewrite Ex, Ey in I2; by split].
    rewrite L2. change (msg_rights m) with (∅ : rights). rewrite gmultiset_size_empty. change (load E (upd_heap s h)) with (load E s). lia. }
  apply (idle_trans _ _ _ _ s'); [split; [exact I2|by eapply quiet_steps|exact L2]|]. intros I3. by apply wake_idle.
Qed.

End inv.
