(* ===== verification/PortDeref.v ===== *)
(** [port_deref]: dropping a right never fails an assertion and never reaches
    for freed memory, however far the drop spreads through queued messages
    and registrations, when the stack holds the nested calls. *)

From stdpp Require Import base list gmap gmultiset strings numbers option.
From Stdlib Require Import ZArith Lia ZifyBool.
From S2P Require Import Prelude Owners VmMap Ports PortMsg PortInv.

Section deref.
Context {V : Type} `{PS : PayloadSpec V}.
Abbreviation world := (world (V := V)).
Implicit Types (s : world) (p q : Z) (k : right) (B X : rights) (Y : goods) (E : gset Z) (L : list (Z * Z)).

(** * Who can be reached *)

Lemma owned_live B E L s X Y p k :
  inv B E L s X Y -> 0 < num p k (owners B E s X) -> real k -> exists po, w_ports s !! p = Some po /\ p ∉ E.
Proof.
  intros I Hn Hk. destruct (i_live _ _ _ _ _ _ I p k) as [po Hp]; [by apply num_pos|done|]. exists po. split; [done|].
  intros He. destruct (i_born _ _ _ _ _ _ I p He) as (po' & Hp' & Hz). rewrite Hp in Hp'. injection Hp' as <-.
  destruct (i_tally _ _ _ _ _ _ I p po Hp) as [_ _ _ T]. pose proof (num_nonneg p RSend (owners B E s X)).
  pose proof (num_nonneg p ROnce (owners B E s X)). pose proof (num_nonneg p RRecv (owners B E s X)).
  pose proof (num_nonneg p RHold (owners B E s X)). destruct k; try done; lia.
Qed.

Lemma local_live B E L s X Y p k : inv B E L s X Y -> 0 < num p k X -> real k -> exists po, w_ports s !! p = Some po /\ p ∉ E.
Proof.
  intros I Hn. apply (owned_live B E L s X Y p k I). rewrite num_owners.
  pose proof (num_nonneg p k (in_transit E s)). pose proof (num_nonneg p k (tables s)). pose proof (num_nonneg p k B). lia.
Qed.

Lemma outside_live B E L s X Y p k :
  inv B E L s X Y -> (p, k) ∈ tables s ⊎ B -> real k -> exists po, w_ports s !! p = Some po /\ p ∉ E.
Proof.
  intros I Hn%num_pos. apply (owned_live B E L s X Y p k I). rewrite num_owners. rewrite num_union in Hn.
  pose proof (num_nonneg p k (in_transit E s)). pose proof (num_nonneg p k X). lia.
Qed.

(** A right that is held locally is not held elsewhere too: a member of a set
    has its receive right in a table. *)
Lemma dropped_receive_no_set B E L s X Y p r po :
  inv B E L s (rights_of p r ⊎ X) Y -> has r MACH_PORT_RIGHT_RECEIVE = true -> w_ports s !! p = Some po -> p_set po = None.
Proof.
  intros I Hr Hp. destruct (p_set po) as [q|] eqn:Eq; [|done].
  destruct (i_member _ _ _ _ _ _ I p po q Hp Eq) as [M%num_pos _]. destruct (i_tally _ _ _ _ _ _ I p po Hp) as [_ _ T _].
  rewrite num_owners, num_union, num_rights_of, decide_True, Hr in T by done. rewrite num_union in M.
  pose proof (num_nonneg p RRecv (in_transit E s)). pose proof (num_nonneg p RRecv X). destruct (p_has_receive po); cbn in T; lia.
Qed.

(** * Leaving a set *)

Lemma unbind_elem l p m : NoDup l -> m ∈ unbind_waiter l p <-> m ∈ l /\ m <> p.
Proof.
  induction l as [|x l IH]; intros N; cbn [unbind_waiter]; [set_solver|]. inversion N; subst.
  destruct (x =? p) eqn:Ex.
  - apply Z.eqb_eq in Ex as ->. split; [intros Hm; split; [by right|congruence]|]. intros [[->|Hm]%elem_of_cons Hn]; done.
  - rewrite !elem_of_cons, IH by done. split; [intros [->|[]]; split; auto; (lia || reflexivity)|tauto].
Qed.

Lemma unbind_nodup l p : NoDup l -> NoDup (unbind_waiter l p).
Proof.
  induction l as [|x l IH]; intros N; cbn [unbind_waiter]; [done|]. inversion N; subst. destruct (x =? p); [done|].
  constructor; [|auto]. rewrite unbind_elem by done. tauto.
Qed.

Lemma unbind_length l p : p ∈ l -> Z.of_nat (length (unbind_waiter l p)) = Z.of_nat (length l) - 1.
Proof.
  induction l as [|x l IH]; intros Hp; [by apply not_elem_of_nil in Hp|]. cbn [unbind_waiter]. destruct (x =? p) eqn:Ex.
  - cbn. lia.
  - apply elem_of_cons in Hp as [->|Hp]; [lia|]. specialize (IH Hp). cbn [length]. lia.
Qed.

Lemma unlink_member_ok s p l :
  (forall m, m ∈ l -> is_Some (w_ports s !! m)) -> unlink_member s p l = Done (bool_decide (p ∈ l), unbind_waiter l p).
Proof.
  induction l as [|x l IH]; intros Hl; cbn [unlink_member unbind_waiter]; [done|].
  destruct (Hl x) as [xo Hx]; [by left|]. rewrite (get_port_eq _ _ _ Hx), bind_Done. destruct (x =? p) eqn:Ex.
  - apply Z.eqb_eq in Ex as ->. by rewrite bool_decide_eq_true_2 by (by left).
  - rewrite IH by (intros m Hm; apply Hl; by right). rewrite bind_Done.
    replace (bool_decide (p ∈ x :: l)) with (bool_decide (p ∈ l)); [done|].
    apply bool_decide_ext. rewrite elem_of_cons. split; [tauto|intros [->|]; [lia|done]].
Qed.

Lemma set_unlink_ok B E L s X Y p q :
  inv B E ((p, q) :: L) s X Y -> p ∉ L.*1 ->
  exists s', set_unlink s p q = Done (true, s') /\ w_ports s' = w_ports s /\ idle B E L s s' X Y.
Proof.
  intros I Hl. destruct (i_leave _ _ _ _ _ _ I p q) as (_ & (po & Hp & Hn) & st & Hq & Hm); [by left|].
  unfold set_unlink. rewrite (get_set_eq _ _ _ Hq), bind_Done. destruct (i_set _ _ _ _ _ _ I q st Hq) as [Nd Ct Mb].
  rewrite unlink_member_ok by (intros m Hm'; destruct (Mb m Hm') as (? & ? & _); by eexists).
  rewrite bind_Done, bool_decide_eq_true_2 by done. eexists. split; [reflexivity|]. split; [done|].
  split; [|by apply quiet_same|done]. apply (sets_inv B E ((p, q) :: L) L s X X Y _ I); [done|intros x y Hx; left; by right|].
  apply (put_set_fit B E ((p, q) :: L) L s X X _ q st _ (sets_fit_inv _ _ _ _ _ _ I) Hq); [done|intros x y Hx; by right| | | |].
  - intros m q' [[= -> ->]|Hin]%elem_of_cons Hne; done.
  - split; cbn; [by apply unbind_nodup|rewrite unbind_length, Ct by done; lia|].
    intros m [Hin Hmp]%unbind_elem; [|done]. destruct (Mb m Hin) as (mo & Hmo & D). exists mo. split; [done|].
    destruct D as [D|[D|D]%elem_of_cons]; [by left|simplify_eq|by right].
  - exact (i_setrefs _ _ _ _ _ _ I q st Hq).
  - intros m Hin. cbn. rewrite unbind_elem by done. destruct (decide (m = p)) as [->|]; [right|by left].
    split; [|intros mo Hmo; congruence]. intros H. apply Hl, list_elem_of_fmap. by exists (p, q).
Qed.

Lemma port_leave_set_ok B E L s X Y p q :
  inv B E ((p, q) :: L) s X Y -> p ∉ L.*1 -> exists s', port_leave_set s p q = Done s' /\ idle B E L s s' X Y.
Proof.
  intros I Hl. destruct (set_unlink_ok B E L s X Y p q I Hl) as (s' & E' & Ep & D).
  destruct (i_leave _ _ _ _ _ _ I p q) as (_ & (po & Hp & _) & _); [by left|].
  unfold port_leave_set. rewrite E', bind_Done, (get_port_eq s' p po), bind_Done by congruence. by exists s'.
Qed.

(** * Freeing a port *)

(** A port without owners: nothing is armed, nobody waits. *)
Record idle_port B E s X p (po : port) : Prop := {
  ip_counts : p_send_count po = 0 /\ p_send_once_count po = 0 /\ p_has_receive po = false;
  ip_waiters : p_waiters po = [] /\ p_send_waiters po = [] /\ p_qresv po = 0;
  ip_regs : p_notify_no_senders po = None /\ p_notify_dead_name po = [] /\ p_notify_port_destroyed po = None;
  ip_set : p_set po = None;
  ip_unowned k : real k -> num p k (owners B E s X) = 0;
}.

Lemma shut_port B E L s X Y p po :
  inv B E L s X Y -> w_ports s !! p = Some po -> p_refs po = 0 -> idle_port B E s X p po.
Proof.
  intros I Hp Hr. destruct (i_tally _ _ _ _ _ _ I p po Hp) as [T1 T2 T3 T4]. set (O := owners B E s X) in *.
  pose proof (num_nonneg p RSend O). pose proof (num_nonneg p ROnce O). pose proof (num_nonneg p RRecv O). pose proof (num_nonneg p RHold O).
  assert (forall k, real k -> num p k O = 0) as Un by (intros []; done || lia).
  assert (p_has_receive po = false) as Rc by (destruct (p_has_receive po); cbn in T3; [lia|done]).
  destruct (i_port _ _ _ _ _ _ I p po Hp) as [_ _ Rs _ _ _ Nr _]. destruct (Nr Rc) as (W & S & N1 & N2 & N3).
  assert (pins p B = 0) as Pz.
  { unfold pins. assert (forall k, real k -> num p k B = 0) as Bz; [|rewrite !Bz by done; lia].
    intros k Hk. specialize (Un k Hk). unfold O in Un. rewrite num_owners in Un. pose proof (num_nonneg p k (in_transit E s)).
    pose proof (num_nonneg p k (tables s)). pose proof (num_nonneg p k B). pose proof (num_nonneg p k X). lia. }
  pose proof (i_pinned _ _ _ _ _ _ I p po Hp) as [Pin _ _ _].
  split; [split_and!; [lia|lia|done]|split_and!; [done|destruct (p_send_waiters po); [done|cbn in Pin; lia]|lia]|done|done|exact Un].
Qed.

Lemma stored_delete {K} `{Countable K} (f : port -> gmultiset K) E m p po :
  m !! p = Some po -> stored f E (delete p m) = stored f ({[p]} ∪ E) m.
Proof.
  intros Hp. unfold stored at 2. rewrite (gather_map_delete _ _ _ _ Hp), decide_True by set_solver.
  rewrite gmultiset_disj_union_left_id. symmetry. apply stored_shut.
Qed.

Lemma kfree_inv B E L s X Y p :
  inv B ({[p]} ∪ E) L s X Y -> p ∉ E -> p ∉ L.*1 ->
  inv B E L (kfree_port s p) X Y /\ quiet E s (kfree_port s p) /\ load E (kfree_port s p) = load ({[p]} ∪ E) s.
Proof.
  intros I He Hl. destruct (i_born _ _ _ _ _ _ I p) as (po & Hp & Hr); [set_solver|].
  destruct (shut_port _ _ _ _ _ _ p po I Hp Hr) as [_ _ _ Hs Un].
  assert (owners B E (kfree_port s p) X = owners B ({[p]} ∪ E) s X) as Ow.
  { unfold owners, in_transit. cbn. by rewrite (stored_delete _ _ _ _ _ Hp). }
  assert (forall q, q <> p -> w_ports (kfree_port s p) !! q = w_ports s !! q) as Lo by (intros q Hq; by apply lookup_delete_ne).
  assert (forall q qo, w_ports (kfree_port s p) !! q = Some qo -> q <> p /\ w_ports s !! q = Some qo) as Back.
  { intros q qo H. cbn in H. by apply lookup_delete_Some in H as [? ?]. }
  split_and!; [| |unfold load, in_transit; cbn; by rewrite (stored_delete _ _ _ _ _ Hp)].
  2: { split; try done; [intros q Hq; apply Lo; congruence|]. intros q qo [_ Hq]%Back. exists qo. split; [done|apply lesser_refl]. }
  split; rewrite ?Ow; try apply I.
  - intros q qo [_ Hq]%Back. exact (i_tally _ _ _ _ _ _ I q qo Hq).
  - intros q k Hq Hk. destruct (decide (q = p)) as [->|Hn]; [apply num_pos in Hq; rewrite Un in Hq by done; lia|].
    rewrite Lo by done. exact (i_live _ _ _ _ _ _ I q k Hq Hk).
  - intros q qo [_ Hq]%Back. exact (i_port _ _ _ _ _ _ I q qo Hq).
  - intros q qo [Hn Hq]%Back Hne. apply (i_held _ _ _ _ _ _ I q qo Hq). set_solver.
  - intros q Hq. rewrite Lo by congruence. apply (i_born _ _ _ _ _ _ I q). set_solver.
  - intros q qo [_ Hq]%Back. exact (i_pinned _ _ _ _ _ _ I q qo Hq).
  - intros q qo st [_ Hq]%Back. exact (i_member _ _ _ _ _ _ I q qo st Hq).
  - intros q st Hq. destruct (i_set _ _ _ _ _ _ I q st Hq) as [N C M]. split; [done|done|]. intros m Hm.
    destruct (M m Hm) as (mo & Hmo & D). exists mo. split; [|exact D]. rewrite Lo; [done|]. intros ->.
    rewrite Hp in Hmo. injection Hmo as <-. destruct D as [D|D]; [congruence|]. apply Hl, list_elem_of_fmap. by exists (p, q).
  - intros m q Hm. destruct (i_leave _ _ _ _ _ _ I m q Hm) as (A & D & M).
    assert (m <> p) as Hn by (intros ->; apply Hl, list_elem_of_fmap; by exists (p, q)). rewrite Lo by done.
    split_and!; [destruct A as [A|A]; [left; set_solver|by right]|exact D|exact M].
  - intros m [H|H]; apply (i_fresh _ _ _ _ _ _ I); [left|by right]. destruct H as [mo [_ Hm]%Back]. by eexists.
  - pose proof (i_vm _ _ _ _ _ _ I) as Hv. cbn. by rewrite (stored_delete _ _ _ _ _ Hp).
Qed.

Lemma kept_queue po : p_notify_no_senders po = None /\ p_notify_dead_name po = [] /\ p_notify_port_destroyed po = None ->
  port_rights po = queue_rights (p_queue po).
Proof.
  intros (N1 & N2 & N3). unfold port_rights. rewrite N1, N2, N3. cbn [reg_rights].
  change (watch_rights []) with (∅ : rights). by rewrite !gmultiset_disj_union_right_id.
Qed.

(** * Under [p_lock] *)

Definition fallout_rights (f : fallout) : rights :=
  queue_rights (f_drain f) ⊎ (reg_rights (f_no_senders f) ⊎ watch_rights (f_dead_name f)).

Record locked_spec (po : port) (r : Z) (po' : port) (f : fallout) : Prop := {
  ls_send : p_send_count po' = p_send_count po - Z.b2z (has r MACH_PORT_RIGHT_SEND);
  ls_once : p_send_once_count po' = p_send_once_count po - Z.b2z (has r MACH_PORT_RIGHT_SEND_ONCE);
  ls_recv : Z.b2z (p_has_receive po') = Z.b2z (p_has_receive po) - Z.b2z (has r MACH_PORT_RIGHT_RECEIVE);
  ls_refs : p_refs po' = p_refs po - (Z.b2z (has r MACH_PORT_RIGHT_SEND) + Z.b2z (has r MACH_PORT_RIGHT_SEND_ONCE) +
                                      Z.b2z (has r MACH_PORT_RIGHT_RECEIVE));
  ls_rights : port_rights po = fallout_rights f ⊎ port_rights po';
  ls_frames : port_frames po = gather msg_frames (f_drain f) ⊎ port_frames po';
  ls_ok : port_ok po';
  ls_msgs : Forall msg_ok (f_drain f);
  ls_set : p_set po' = (if has r MACH_PORT_RIGHT_RECEIVE then None else p_set po) /\
           f_member_of f = (if has r MACH_PORT_RIGHT_RECEIVE then p_set po else None);
  ls_lesser : lesser po po';
}.

(** The counters can pay for the rights dropped. *)
Record payable (po : port) (r : Z) : Prop := {
  pb_send : Z.b2z (has r MACH_PORT_RIGHT_SEND) <= p_send_count po;
  pb_once : Z.b2z (has r MACH_PORT_RIGHT_SEND_ONCE) <= p_send_once_count po;
  pb_recv : Z.b2z (has r MACH_PORT_RIGHT_RECEIVE) <= Z.b2z (p_has_receive po);
  pb_refs : p_send_count po + p_send_once_count po + Z.b2z (p_has_receive po) <= p_refs po;
}.

Lemma drop_counts_ok po r :
  payable po r ->
  (po ← (if has r MACH_PORT_RIGHT_SEND then drop_send po else Done po);
   (if has r MACH_PORT_RIGHT_SEND_ONCE then drop_send_once po else Done po)) =
  Done (with_counts po (p_refs po - (Z.b2z (has r MACH_PORT_RIGHT_SEND) + Z.b2z (has r MACH_PORT_RIGHT_SEND_ONCE)))
          (p_send_count po - Z.b2z (has r MACH_PORT_RIGHT_SEND))
          (p_send_once_count po - Z.b2z (has r MACH_PORT_RIGHT_SEND_ONCE))).
Proof.
  intros [P1 P2 P3 P4]. destruct po. unfold drop_send, drop_send_once, with_counts. cbn in *.
  destruct (has r MACH_PORT_RIGHT_SEND); cbn [Z.b2z] in *; rewrite ?KASSERT_true by lia; rewrite bind_Done;
    destruct (has r MACH_PORT_RIGHT_SEND_ONCE); cbn [Z.b2z] in *; cbn; rewrite ?KASSERT_true by lia; f_equal; f_equal; lia.
Qed.

Lemma port_ok_counts po a b c : port_ok po -> port_ok (with_counts po a b c).
Proof. intros []. by split. Qed.

Lemma senders_gone_ok po r f :
  port_ok po -> f = mkFallout [] [] [] None false [] None ->
  forall po' f', senders_gone po r f = (po', f') ->
  p_refs po' = p_refs po /\ p_send_count po' = p_send_count po /\ p_send_once_count po' = p_send_once_count po /\
  p_has_receive po' = p_has_receive po /\ port_rights po = fallout_rights f' ⊎ port_rights po' /\
  port_frames po' = port_frames po /\ port_ok po' /\ p_qresv po' = p_qresv po /\ p_send_waiters po' = p_send_waiters po /\
  p_set po' = p_set po /\ f_drain f' = [] /\ f_member_of f' = None /\ p_notify_port_destroyed po' = p_notify_port_destroyed po.
Proof.
  intros Ok -> po' f'. unfold senders_gone.
  assert (fallout_rights (mkFallout [] [] [] None false [] None) ⊎ port_rights po = port_rights po) as Ez.
  { unfold fallout_rights. cbn. change (queue_rights []) with (∅ : rights). change (watch_rights []) with (∅ : rights).
    by rewrite !gmultiset_disj_union_left_id. }
  destruct (_ && negb (p_dead po)) eqn:Ec; [|intros [= <- <-]; by rewrite Ez].
  apply andb_true_iff in Ec as [Ec Ed]. apply andb_true_iff in Ec as [_ Er]. apply negb_true_iff in Ed.
  pose proof Ok as [A1 A2 A3 A4 A5 A6 A7 A8]. destruct (p_notify_no_senders po) as [[t tag]|] eqn:En.
  - intros [= <- <-]. split_and!; try done.
    + unfold fallout_rights, port_rights. fields. rewrite En. cbn [reg_rights]. change (queue_rights []) with (∅ : rights).
      change (watch_rights []) with (∅ : rights). mult_at x.
    + split; cbn; try assumption. intros H. by rewrite H in Er.
  - destruct ((p_qlen po =? 0) && negb (bool_decide (p_waiters po = []))) eqn:Ew; intros [= <- <-].
    + split_and!; try done. split; fields; try assumption.
      * intros _. destruct (p_queue po); [done|cbn in A2; lia].
      * intros H. by rewrite H in Er.
    + split_and!; try done.
Qed.

Lemma deref_locked_ok po r :
  payable po r -> port_ok po -> (has r MACH_PORT_RIGHT_RECEIVE = true -> p_notify_port_destroyed po = None) ->
  exists po' f, deref_locked po r = Done (po', f) /\ locked_spec po r po' f.
Proof.
  intros Pay Ok Hd. unfold deref_locked. pose proof (drop_counts_ok po r Pay) as E1. unfold mbind, res_bind in E1 |- *.
  destruct (if has r MACH_PORT_RIGHT_SEND then drop_send po else Done po) as [po0|]; [|done]. rewrite E1. clear E1.
  set (po1 := with_counts po _ _ _). assert (port_ok po1) as Ok1 by by apply port_ok_counts. destruct Pay as [P1 P2 P3 P4].
  destruct (has r MACH_PORT_RIGHT_RECEIVE) eqn:Er; cbn [Z.b2z] in *.
  - specialize (Hd eq_refl). unfold drop_receive. assert (p_has_receive po = true) as Hr by (destruct (p_has_receive po); [done|cbn in *; lia]).
    rewrite KASSERT_true by done. rewrite KASSERT_true by (rewrite Hr in P4; cbn in *; lia). cbv zeta.
    set (po2 := with_dead_name _ _). unfold senders_gone.
    replace (_ && p_has_receive po2 && negb (p_dead po2)) with false by (cbn; by rewrite andb_false_r).
    eexists _, _. split; [reflexivity|]. destruct Ok1 as [A1 A2 A3 A4 A5 A6 A7 A8].
    split; cbn; rewrite ?Er, ?Hr; cbn; try lia; try done.
    + unfold fallout_rights, port_rights, po2, po1. fields. rewrite Hd. cbn [reg_rights]. change (queue_rights []) with (∅ : rights).
      change (watch_rights []) with (∅ : rights). mult_at x.
    + unfold port_frames, po2, po1. fields. change (gather msg_frames []) with (∅ : goods). mult_at x.
    + split; cbn; rewrite ?Hd; try done; [|constructor]. change (p_qresv po1) with (p_qresv po) in *. change (p_qlen po1) with (p_qlen po) in *.
      change (p_queue po1) with (p_queue po) in A2. lia.
    + split; cbn; auto; try apply sublist_nil_l; destruct (has r MACH_PORT_RIGHT_SEND), (has r MACH_PORT_RIGHT_SEND_ONCE); cbn; lia.
  - destruct (senders_gone po1 r _) as [po' f] eqn:Eg.
    destruct (senders_gone_ok po1 r _ Ok1 eq_refl po' f Eg) as (R1 & R2 & R3 & R4 & R5 & R6 & R7 & R8 & R9 & R10 & R11 & R12 & R13).
    exists po', f. split; [done|]. split; rewrite ?Er; cbn [Z.b2z]; rewrite ?R1, ?R2, ?R3, ?R4, ?R8, ?R9, ?R10, ?R11, ?R12; cbn; try lia; try done.
    + rewrite R6. by rewrite gmultiset_disj_union_left_id.
    + split; rewrite ?R1, ?R8, ?R9, ?R10, ?R13; cbn; auto; try reflexivity; destruct (has r MACH_PORT_RIGHT_SEND), (has r MACH_PORT_RIGHT_SEND_ONCE); cbn; lia.
Qed.

(** The rights [r] to [p] leave the hands of the caller, who keeps [B] and
    [X].  Before, they are in [Xo], or in [Bo] when they were just taken out
    of a name table and [p] may still be in a set. *)
Record dropping B X p (r : Z) (Bo Xo : rights) L : Prop := {
  dr_sum q k : num q k Bo + num q k Xo = num q k (rights_of p r) + (num q k B + num q k X);
  dr_others q k : q <> p -> num q k Bo = num q k B;
  dr_own k : num p k B <= num p k Bo;
  dr_most k : num p k Bo <= num p k B + num p k (rights_of p r);
  dr_leave k : p ∈ L.*1 -> num p k Bo <= num p k B;
}.

Lemma dropping_local B X p r L : dropping B X p r B (rights_of p r ⊎ X) L.
Proof. split; intros; rewrite ?num_union; try lia. pose proof (num_nonneg p k (rights_of p r)). lia. Qed.

Lemma dropping_base B X p r : dropping B X p r (rights_of p r ⊎ B) X [].
Proof.
  split; intros; rewrite ?num_union; try lia.
  - rewrite num_rights_of, decide_False by done. lia.
  - pose proof (num_nonneg p k (rights_of p r)). lia.
  - by apply not_elem_of_nil in H.
Qed.

Lemma mask_some r : mask_ok r ->
  (has r MACH_PORT_RIGHT_RECEIVE || has r MACH_PORT_RIGHT_SEND || has r MACH_PORT_RIGHT_SEND_ONCE) = true.
Proof.
  intros Hr. unfold mask_ok in Hr. assert (r = 1 \/ r = 2 \/ r = 3 \/ r = 4 \/ r = 5 \/ r = 6 \/ r = 7) as D by lia.
  destruct D as [->|[->|[->|[->|[->|[->| ->]]]]]]; done.
Qed.

Lemma size_mask p r : mask_ok r -> (1 <= size (rights_of p r))%nat.
Proof.
  intros Hr%mask_some. pose proof (size_rights_of p r). destruct (has r MACH_PORT_RIGHT_RECEIVE), (has r MACH_PORT_RIGHT_SEND),
    (has r MACH_PORT_RIGHT_SEND_ONCE); cbn in *; try done; lia.
Qed.

(** The port of a right that is being dropped. *)
Lemma dropped_port B X p r Bo Xo E L s Y :
  inv Bo E L s Xo Y -> dropping B X p r Bo Xo L -> mask_ok r ->
  exists po, w_ports s !! p = Some po /\ (p ∉ E) /\ payable po r.
Proof.
  intros I D Hr.
  assert (forall k, num p k (rights_of p r) <= num p k (owners Bo E s Xo)) as Le.
  { intros k. rewrite num_owners. pose proof (dr_sum _ _ _ _ _ _ _ D p k). pose proof (num_nonneg p k (in_transit E s)).
    pose proof (num_nonneg p k (tables s)). pose proof (num_nonneg p k B). pose proof (num_nonneg p k X). lia. }
  assert (exists po, w_ports s !! p = Some po /\ p ∉ E) as (po & Hp & He).
  { pose proof (mask_some r Hr) as M. pose proof (Le RRecv) as L1. pose proof (Le RSend) as L2. pose proof (Le ROnce) as L3.
    rewrite num_rights_of, decide_True in L1, L2, L3 by done.
    destruct (has r MACH_PORT_RIGHT_RECEIVE); [apply (owned_live _ _ _ _ _ _ p RRecv I); [cbn in *; lia|done]|].
    destruct (has r MACH_PORT_RIGHT_SEND); [apply (owned_live _ _ _ _ _ _ p RSend I); [cbn in *; lia|done]|].
    destruct (has r MACH_PORT_RIGHT_SEND_ONCE); [apply (owned_live _ _ _ _ _ _ p ROnce I); [cbn in *; lia|done]|done]. }
  exists po. split_and!; [done|done|]. destruct (i_tally _ _ _ _ _ _ I p po Hp) as [T1 T2 T3 T4].
  pose proof (Le RRecv) as L1. pose proof (Le RSend) as L2. pose proof (Le ROnce) as L3.
  rewrite num_rights_of, decide_True in L1, L2, L3 by done. pose proof (num_nonneg p RHold (owners Bo E s Xo)). split; lia.
Qed.

Lemma load_shut E s p po po' :
  w_ports s !! p = Some po -> p ∉ E ->
  (load (shut E p po') (put_port s p po') + size (port_rights po) = load E s + size (kept po'))%nat.
Proof.
  intros Hp He. unfold load, in_transit, put_port, shut, kept. cbn [upd_ports w_ports].
  rewrite (stored_split port_rights E _ p po Hp He).
  destruct (p_refs po' =? 0); [rewrite stored_last|rewrite stored_insert by done];
    rewrite !gmultiset_size_disj_union, ?gmultiset_size_empty; lia.
Qed.

(** What a port that was shut leaves to be released. *)
Definition leftover (po : port) : rights := if p_refs po =? 0 then port_rights po else ∅.
Definition leftover_frames (po : port) : goods := if p_refs po =? 0 then port_frames po else ∅.
Definition leaving (p : Z) (f : fallout) L : list (Z * Z) := match f_member_of f with Some q => (p, q) :: L | None => L end.

Lemma kept_leftover po : kept po ⊎ leftover po = port_rights po.
Proof. unfold kept, leftover. destruct (p_refs po =? 0); mult_at x. Qed.
Lemma kept_leftover_frames po : kept_frames po ⊎ leftover_frames po = port_frames po.
Proof. unfold kept_frames, leftover_frames. destruct (p_refs po =? 0); mult_at x. Qed.

(** A member of a set may lose its receive right only with its last
    reference, or while somebody outside the messages keeps it. *)
Definition anchored B s p (r : Z) (po : port) : Prop :=
  has r MACH_PORT_RIGHT_RECEIVE = true -> p_set po <> None ->
  p_refs po = Z.of_nat (size (rights_of p r)) \/ exists k, real k /\ (p, k) ∈ tables s ⊎ B.

Lemma locked_inv B X Bo Xo E L s Y p r po po' f :
  inv Bo E L s Xo Y -> dropping B X p r Bo Xo L -> w_ports s !! p = Some po -> p ∉ E -> mask_ok r -> pinned B p po ->
  anchored B s p r po -> locked_spec po r po' f -> payable po r ->
  inv B (shut E p po') (leaving p f L) (put_port s p po') (fallout_rights f ⊎ (leftover po' ⊎ X))
    (gather msg_frames (f_drain f) ⊎ (leftover_frames po' ⊎ Y)).
Proof.
  intros I D Hp He Hm Pin An [S1 S2 S3 S4 S5 S6 S7 S9 [S10 S11] S12] Pay.
  assert (forall q k, num q k (kept po' ⊎ (B ⊎ (fallout_rights f ⊎ (leftover po' ⊎ X)))) =
            num q k (port_rights po ⊎ (Bo ⊎ Xo)) - num q k (rights_of p r)) as Nw.
  { intros q k. pose proof (f_equal (num q k) S5) as Q. pose proof (f_equal (num q k) (kept_leftover po')) as Q'.
    pose proof (dr_sum _ _ _ _ _ _ _ D q k). rewrite !num_union in *. lia. }
  assert (0 <= p_refs po') as Rn by (destruct Pay; lia).
  apply (put_inv Bo E L s Xo Y B _ _ _ p po po' I Hp He); [lia| |exact S7| | | |].
  - split; [intros q k Hq|..]; rewrite ?Nw, ?num_rights_of.
    + destruct Hq as [Hq| ->]; [rewrite decide_False by done; lia|]. case_decide; lia.
    + rewrite !decide_True by done. lia.
    + rewrite !decide_True by done. lia.
    + rewrite !decide_True by done. lia.
    + rewrite !decide_True by done. lia.
  - pose proof (kept_leftover_frames po') as Q. rewrite S6, <- Q. mult_at x.
  - intros q k Hq. rewrite (dr_others _ _ _ _ _ _ _ D q k Hq). lia.
  - by eapply pinned_lesser.
  - unfold leaving. rewrite S11. destruct (has r MACH_PORT_RIGHT_RECEIVE) eqn:Er; rewrite ?Er in S10.
    + destruct (p_set po) as [q|] eqn:Eq.
      * apply leaves; [done|done|]. destruct (An Er) as [Al|Al]; [congruence| |by right]. left.
        unfold shut. pose proof (size_rights_of p r). rewrite Er in *. cbn [Z.b2z] in *.
        replace (p_refs po' =? 0) with true by lia. set_solver.
      * apply stays; [congruence|congruence|]. intros Hl k. by apply (dr_leave _ _ _ _ _ _ _ D).
    + apply stays; [done| |intros Hl k; by apply (dr_leave _ _ _ _ _ _ _ D)]. intros Hn.
      destruct (p_set po) as [q|] eqn:Eq; [|done]. destruct (i_member _ _ _ _ _ _ I p po q Hp Eq) as [M%num_pos _].
      rewrite num_union in *. pose proof (dr_most _ _ _ _ _ _ _ D RRecv) as Q. rewrite num_rights_of, decide_True, Er in Q by done.
      cbn in Q. lia.
Qed.

(** A port that is on its way out of a set keeps a reference. *)
Lemma leaving_stays B X Bo Xo E L s Y p r po po' f :
  inv Bo E L s Xo Y -> dropping B X p r Bo Xo L -> w_ports s !! p = Some po -> p ∉ E -> locked_spec po r po' f ->
  p ∈ L.*1 -> 0 < p_refs po' /\ f_member_of f = None.
Proof.
  intros I D Hp He [S1 S2 S3 S4 S5 S6 S7 S9 [S10 S11] S12] ([p0 q] & Ep & Hl)%list_elem_of_fmap. cbn in Ep. subst p0.
  destruct (i_leave _ _ _ _ _ _ I p q Hl) as (A & (po0 & E0 & S0) & _). rewrite Hp in E0. injection E0 as <-.
  split; [|rewrite S11; destruct (has r MACH_PORT_RIGHT_RECEIVE); congruence]. destruct A as [A|(k & Hk & A%num_pos)]; [done|].
  assert (p ∈ L.*1) as Hl1 by (apply list_elem_of_fmap; by exists (p, q)).
  destruct (i_tally _ _ _ _ _ _ I p po Hp) as [_ _ _ T]. rewrite !num_owners in T. rewrite num_union in A.
  pose proof (fun j => dr_sum _ _ _ _ _ _ _ D p j) as Sm. pose proof (fun j => num_nonneg p j (in_transit E s)) as N1.
  pose proof (fun j => num_nonneg p j (tables s)) as N2. pose proof (fun j => num_nonneg p j B) as N3.
  pose proof (fun j => num_nonneg p j X) as N4. pose proof (dr_leave _ _ _ _ _ _ _ D k Hl1) as Lv.
  pose proof (Sm RSend) as M1. pose proof (Sm ROnce) as M2. pose proof (Sm RRecv) as M3. pose proof (Sm RHold) as M4.
  rewrite num_rights_of, decide_True in M1, M2, M3, M4 by done. rewrite S4, T.
  pose proof (N1 RSend). pose proof (N1 ROnce). pose proof (N1 RRecv). pose proof (N1 RHold).
  pose proof (N2 RSend). pose proof (N2 ROnce). pose proof (N2 RRecv). pose proof (N2 RHold).
  pose proof (N3 RSend). pose proof (N3 ROnce). pose proof (N3 RRecv). pose proof (N3 RHold).
  pose proof (N4 RSend). pose proof (N4 ROnce). pose proof (N4 RRecv). pose proof (N4 RHold).
  destruct k; try done; lia.
Qed.

(** * The receive right sent on instead of dropped *)

(** Rights held in the base are as good as local once the port is in no set. *)
Lemma rebase B X Bo Xo E L s Y p r po :
  inv Bo E L s Xo Y -> dropping B X p r Bo Xo L -> w_ports s !! p = Some po -> p_set po = None -> pinned B p po ->
  inv B E L s (rights_of p r ⊎ X) Y.
Proof.
  intros I D Hp Hs Pin. assert (owners B E s (rights_of p r ⊎ X) = owners Bo E s Xo) as Ow.
  { apply num_ext. intros q k. rewrite !num_owners, num_union. pose proof (dr_sum _ _ _ _ _ _ _ D q k). lia. }
  split; rewrite ?Ow; try apply I.
  - intros q qo Hq. destruct (decide (q = p)) as [->|Hn]; [rewrite Hp in Hq; by injection Hq as <-|].
    pose proof (i_pinned _ _ _ _ _ _ I q qo Hq) as P. apply (pinned_more Bo B q qo P). intros k. rewrite (dr_others _ _ _ _ _ _ _ D q) by done. lia.
  - intros q qo st Hq Es. destruct (decide (q = p)) as [->|Hn]; [congruence|].
    destruct (i_member _ _ _ _ _ _ I q qo st Hq Es) as [M%num_pos Q]. split; [|exact Q]. apply num_pos.
    rewrite num_union in *. by rewrite (dr_others _ _ _ _ _ _ _ D q) in M by done.
  - intros m q Hm. destruct (i_leave _ _ _ _ _ _ I m q Hm) as (A & Q). split; [|exact Q].
    destruct A as [A|(k & Hk & A%num_pos)]; [by left|right]. exists k. split; [done|]. apply num_pos. rewrite num_union in *.
    destruct (decide (m = p)) as [->|Hn]; [|by rewrite (dr_others _ _ _ _ _ _ _ D m) in A by done].
    assert (p ∈ L.*1) as Hl by (apply list_elem_of_fmap; by exists (p, q)). pose proof (dr_leave _ _ _ _ _ _ _ D k Hl). lia.
Qed.

(** The mask without RECEIVE. *)
Lemma without_receive p r : mask_ok r -> has r MACH_PORT_RIGHT_RECEIVE = true ->
  let r1 := Z.ldiff r MACH_PORT_RIGHT_RECEIVE in
  rights_of p r = {[+ (p, RRecv) +]} ⊎ rights_of p r1 /\ has r1 MACH_PORT_RIGHT_RECEIVE = false /\
  (r1 = 0 -> rights_of p r1 = ∅) /\ (r1 <> 0 -> mask_ok r1).
Proof.
  intros Hr Hh. unfold mask_ok in Hr. assert (r = 1 \/ r = 2 \/ r = 3 \/ r = 4 \/ r = 5 \/ r = 6 \/ r = 7) as D by lia.
  destruct D as [->|[->|[->|[->|[->|[->| ->]]]]]]; try (vm_compute in Hh; discriminate Hh); cbv zeta; unfold mask_ok;
    (split; [apply num_ext; intros a k; rewrite num_union, !num_rights_of, num_one; destruct k; repeat case_decide; simplify_eq; done|]);
    (split; [done|]); (split; [|vm_compute; intros; by split || lia]); intros H0; try (vm_compute in H0; discriminate H0);
    apply num_ext; intros a k; rewrite num_rights_of, num_empty; destruct k; case_decide; done.
Qed.

Lemma size_single n k : size ({[+ (n, k) +]} : rights) = 1%nat.
Proof. apply gmultiset_size_singleton. Qed.

Lemma rights_of_receive p : rights_of p MACH_PORT_RIGHT_RECEIVE = {[+ (p, RRecv) +]}.
Proof. apply num_ext. intros q k. rewrite num_rights_of, num_one. destruct k; repeat case_decide; simplify_eq; done. Qed.

Lemma port_destroyed_post_ok B E L s X Y t po p tag :
  inv B E L s ({[+ (p, RRecv) +]} ⊎ X) Y -> w_ports s !! t = Some po -> t ∉ E ->
  exists rv s', port_destroyed_post s t p tag = Done (rv, s') /\ quiet E s s' /\
    ((rv = MACH_MSG_OK /\ inv B E L s' X Y /\ load E s' = (load E s + 1)%nat) \/
     (rv <> MACH_MSG_OK /\ inv B E L s' ({[+ (p, RRecv) +]} ⊎ X) Y /\ load E s' = load E s)).
Proof.
  intros I Ht He. unfold port_destroyed_post, w_kmalloc. destruct (kmalloc_ok (w_heap s)) as [ok h].
  pose proof (heap_idle B E L s _ Y h I) as D. destruct ok; cbn [negb].
  2: { eexists _, _. split; [reflexivity|]. split; [apply D|]. right. split; [done|]. split; apply D. }
  destruct (kmalloc_ok (w_heap (upd_heap s h))) as [ok h2].
  assert (idle B E L s (upd_heap (upd_heap s h) h2) ({[+ (p, RRecv) +]} ⊎ X) Y) as D2.
  { eapply idle_trans; [exact D|]. intros I'. by apply heap_idle. }
  destruct ok; cbn [negb].
  2: { eexists _, _. split; [reflexivity|]. split; [apply D2|]. right. split; [done|]. split; apply D2. }
  set (m := mkMsg _ _). destruct D2 as [I1 Q1 L1].
  assert (msg_rights m = {[+ (p, RRecv) +]}) as Em.
  { unfold msg_rights. cbn [m m_descs]. rewrite gather_one. apply rights_of_receive. }
  assert (msg_frames m = ∅) as Ef by (unfold msg_frames; cbn [m m_descs]; by rewrite gather_one).
  destruct (msg_enqueue_ok B E L _ X Y t po m false ltac:(rewrite Em, Ef, gmultiset_disj_union_left_id; exact I1) Ht He) as
    (rv & w & s' & po' & Eq & Qt & Dn & _); [exact (destroyed_msg_ok p tag)|done|]. cbn [slot_used] in Qt. rewrite put_port_id in Qt by done.
  rewrite Eq, bind_Done. eexists _, _. split; [reflexivity|].
  assert (quiet E s (wake_opt s' w)) as Qw by (eapply quiet_steps; [by eapply quiet_steps|by apply quiet_same]).
  split; [exact Qw|]. destruct Dn as [w I2 L2|rv' Hrv I2 L2].
  - left. rewrite Em, size_single in L2. split; [done|]. split; [apply (wake_idle B E L s' X Y _ I2)|]. change (load E (wake_opt s' w)) with (load E s').
    rewrite L2. lia.
  - right. rewrite Em, Ef, gmultiset_disj_union_left_id in I2. split; [done|]. split; [apply (wake_idle B E L s' _ Y _ I2)|].
    change (load E (wake_opt s' None)) with (load E s'). lia.
Qed.

(** What [port_destroyed_divert] made of a receive right about to be dropped. *)
Inductive diverted B X p (r : Z) E L Y s' : bool -> Prop :=
| sent_on : inv B E L s' (rights_of p (Z.ldiff r MACH_PORT_RIGHT_RECEIVE) ⊎ X) Y -> diverted B X p r E L Y s' true
| to_die Bo Xo po : inv Bo E L s' Xo Y -> dropping B X p r Bo Xo L -> w_ports s' !! p = Some po ->
    p_notify_port_destroyed po = None -> pinned B p po -> anchored B s' p r po -> diverted B X p r E L Y s' false.

(** Releasing others leaves the conditions of the drop as they were. *)
Lemma anchored_later B E s s' p r po po' : quiet E s s' -> lesser po po' -> payable po' r -> anchored B s p r po -> anchored B s' p r po'.
Proof.
  intros Q Le Pay An Er Hs. destruct (le_set _ _ Le) as [Es|Es]; [|congruence].
  assert (tables s' = tables s) as -> by (unfold tables; by rewrite (qt_spaces _ _ _ Q)).
  destruct (An Er) as [Al|Al]; [congruence| |by right]. left. pose proof (le_refs _ _ Le). pose proof (size_rights_of p r).
  destruct Pay. lia.
Qed.

Lemma to_die_later B X p r Bo Xo E L s s' Y po :
  inv Bo E L s' Xo Y -> dropping B X p r Bo Xo L -> mask_ok r -> w_ports s !! p = Some po -> quiet E s s' ->
  p_notify_port_destroyed po = None -> pinned B p po -> anchored B s p r po -> diverted B X p r E L Y s' false.
Proof.
  intros I D Hr Hp Q Hd Pin An. destruct (dropped_port _ _ _ _ _ _ _ _ _ _ I D Hr) as (po' & Hp' & He & Pay).
  destruct (qt_port _ _ _ Q p po' Hp') as (po0 & H0 & Le). rewrite Hp in H0. injection H0 as <-.
  apply (to_die B X p r E L Y s' Bo Xo po' I D Hp'); [by apply (le_destroyed _ _ Le)|by eapply pinned_lesser|].
  by eapply anchored_later.
Qed.

(** The state of the port once its registration is taken. *)
Lemma disarm_inv Bo Xo E L s Y p po t tag :
  inv Bo E L s Xo Y -> w_ports s !! p = Some po -> p ∉ E -> p_notify_port_destroyed po = Some (t, tag) ->
  inv Bo E L (put_port s p (with_destroyed po None)) ({[+ (t, RSend) +]} ⊎ Xo) Y /\
  (load E (put_port s p (with_destroyed po None)) + 1 = load E s)%nat.
Proof.
  intros I Hp He Hd. assert (port_rights po = {[+ (t, RSend) +]} ⊎ port_rights (with_destroyed po None)) as Er.
  { unfold port_rights. fields. rewrite Hd. cbn [reg_rights]. mult_at x. }
  split.
  - apply (put_plain Bo E L s Xo Y _ Y p po); try done.
    + destruct (i_port _ _ _ _ _ _ I p po Hp) as [A1 A2 A3 A4 A5 A6 A7 A8]. split; fields; try assumption. intros H. by destruct (A7 H) as (? & ? & ? & ? & ?).
    + exact (i_pinned _ _ _ _ _ _ I p po Hp).
    + rewrite Er. mult_at x.
  - pose proof (load_put E s p po (with_destroyed po None) Hp He) as Q. rewrite Er, gmultiset_size_disj_union, size_single in Q. lia.
Qed.

(** ... and once it is out of its set, with its receivers woken. *)
Lemma depose_inv Bo Xo E L s Y p po t tag :
  inv Bo E L s Xo Y -> w_ports s !! p = Some po -> p ∉ E -> p_notify_port_destroyed po = Some (t, tag) ->
  (p_set po <> None -> p ∉ L.*1) ->
  let po1 := with_waiters (with_set (with_destroyed po None) None) [] in
  exists s2, match p_set po with Some q => port_leave_set (put_port s p po1) p q | None => Done (put_port s p po1) end = Done s2 /\
    inv Bo E L s2 ({[+ (t, RSend) +]} ⊎ Xo) Y /\ (load E s2 + 1 = load E s)%nat /\ quiet E s s2 /\ w_ports s2 !! p = Some po1.
Proof.
  intros I Hp He Hd Hl po1. pose proof (i_held _ _ _ _ _ _ I p po Hp He) as Hr.
  assert (port_rights po = {[+ (t, RSend) +]} ⊎ port_rights po1) as Er.
  { unfold port_rights, po1. fields. rewrite Hd. cbn [reg_rights]. mult_at x. }
  assert ((p_refs po1 =? 0) = false) as Ez by (unfold po1; fields; lia).
  assert (shut E p po1 = E) as Es by (unfold shut; by rewrite Ez).
  set (L1 := match p_set po with Some q => (p, q) :: L | None => L end).
  assert (inv Bo E L1 (put_port s p po1) ({[+ (t, RSend) +]} ⊎ Xo) Y) as I1.
  { rewrite <- Es at 1. apply (put_inv Bo E L s Xo Y Bo L1 _ Y p po po1 I Hp He); [unfold po1; fields; lia| | | |lia| |].
    - assert (forall q k, num q k (kept po1 ⊎ (Bo ⊎ ({[+ (t, RSend) +]} ⊎ Xo))) = num q k (port_rights po ⊎ (Bo ⊎ Xo))) as En.
      { intros q k. unfold kept. rewrite Ez, Er, !num_union. lia. }
      split; intros; rewrite ?En; unfold po1; fields; lia.
    - destruct (i_port _ _ _ _ _ _ I p po Hp) as [A1 A2 A3 A4 A5 A6 A7 A8]. unfold po1. split; fields; try assumption.
      intros H. by destruct (A7 H) as (? & ? & ? & ? & ?).
    - unfold kept_frames. rewrite Ez. done.
    - exact (i_pinned _ _ _ _ _ _ I p po Hp).
    - unfold L1. destruct (p_set po) as [q|] eqn:Eq; [|apply stays; [by rewrite Eq|congruence|lia]].
      apply leaves; [done|done|]. right. exists RRecv. split; [done|]. exact (proj1 (i_member _ _ _ _ _ _ I p po q Hp Eq)). }
  assert ((load E (put_port s p po1) + 1 = load E s)%nat) as Ld.
  { pose proof (load_put E s p po po1 Hp He) as Q. rewrite Er, gmultiset_size_disj_union, size_single in Q. lia. }
  assert (quiet E s (put_port s p po1)) as Q1.
  { apply (quiet_put E s p po po1 He Hp). unfold po1. split; fields; auto; (lia || reflexivity). }
  unfold L1 in I1. destruct (p_set po) as [q|] eqn:Eq.
  - destruct (set_unlink_ok Bo E L _ _ Y p q I1) as (s2 & E2 & Ep & [I2 Q2 L2]); [by apply Hl|].
    assert (w_ports s2 !! p = Some po1) as H2 by (rewrite Ep; apply lookup_insert_eq).
    exists s2. unfold port_leave_set. rewrite E2, bind_Done, (get_port_eq s2 p po1 H2), bind_Done.
    split_and!; [done|done|lia|by eapply quiet_steps|done].
  - exists (put_port s p po1). split_and!; [done|done|done|done|apply lookup_insert_eq].
Qed.

(** * Calls that release what they are given *)

(** The call returns, and the structures hold at most [b] afterwards. *)
Definition releases B E L s (c : res world) X Y (b : nat) : Prop :=
  exists s', c = Done s' /\ inv B E L s' X Y /\ quiet E s s' /\ (load E s' <= b)%nat.

Lemma releases_bind B E L s c f X Y X' Y' b b' :
  releases B E L s c X Y b ->
  (forall s', inv B E L s' X Y -> quiet E s s' -> (load E s' <= b)%nat -> releases B E L s' (f s') X' Y' b') ->
  releases B E L s (c ≫= f) X' Y' b'.
Proof.
  intros (s1 & -> & I1 & Q1 & L1) H. destruct (H s1 I1 Q1 L1) as (s2 & E2 & I2 & Q2 & L2). exists s2. split_and!; try done.
  by eapply quiet_steps.
Qed.

Lemma releases_done B E L s X Y b : inv B E L s X Y -> (load E s <= b)%nat -> releases B E L s (Done s) X Y b.
Proof. intros I Hb. exists s. split_and!; [done|done|apply quiet_refl|done]. Qed.

Lemma releases_idle B E L s s' X Y X' Y' c b :
  idle B E L s s' X Y -> releases B E L s' c X' Y' b -> releases B E L s c X' Y' b.
Proof. intros [I Q Lo] (s2 & E2 & I2 & Q2 & L2). exists s2. split_and!; try done. by eapply quiet_steps. Qed.

Lemma releases_eq B E L s c X Y X' Y' b : X = X' -> Y = Y' -> releases B E L s c X Y b -> releases B E L s c X' Y' b.
Proof. by intros -> ->. Qed.

(** The nested calls a drop of [r] may need. *)
Definition cost E s (r : Z) p : nat :=
  (2 * (load E s + size (rights_of p r)) + (if has r MACH_PORT_RIGHT_RECEIVE then 1 else 0))%nat.

Definition serves (deref : world -> Z -> Z -> res world) (n : nat) : Prop :=
  forall B E L s p r X Y, inv B E L s (rights_of p r ⊎ X) Y -> mask_ok r -> (cost E s r p < n)%nat ->
    releases B E L s (deref s p r) X Y (load E s).

Lemma rights_of_send n : rights_of n MACH_PORT_RIGHT_SEND = {[+ (n, RSend) +]}.
Proof. apply num_ext. intros q k. rewrite num_rights_of, num_one. destruct k; repeat case_decide; simplify_eq; done. Qed.

Section nested.
Variable deref : world -> Z -> Z -> res world.
Variable n : nat.
Hypothesis Serves : serves deref n.

Lemma drop_send_ref B E L s X Y p :
  inv B E L s ({[+ (p, RSend) +]} ⊎ X) Y -> (2 * (load E s + 1) < n)%nat ->
  releases B E L s (deref s p MACH_PORT_RIGHT_SEND) X Y (load E s).
Proof.
  intros I Hc. destruct (Serves B E L s p MACH_PORT_RIGHT_SEND X Y) as (s' & E' & I' & Q & Lo).
  - by rewrite rights_of_send.
  - done.
  - unfold cost. rewrite rights_of_send, size_single. change (has MACH_PORT_RIGHT_SEND MACH_PORT_RIGHT_RECEIVE) with false. cbv iota. lia.
  - by exists s'.
Qed.

Lemma vm_change B E L s X Y F v :
  inv B E L s X (F ⊎ Y) -> pl_inv v (stored port_frames E (w_ports s) ⊎ Y) -> idle B E L s (upd_vm s v) X Y.
Proof. intros I Hv. split; [|by apply quiet_same|done]. split; try apply I. exact Hv. Qed.

Lemma pd_ool_drop_ok B E L s X Y d :
  inv B E L s X (from_option payload ∅ (pd_ool_pages d) ⊎ Y) -> releases B E L s (pd_ool_drop s d) X Y (load E s).
Proof.
  intros I. unfold pd_ool_drop. destruct (pd_ool_pages d) as [pas|]; cbn [from_option] in I.
  - destruct (pl_release_ok (w_vm s) pas (stored port_frames E (w_ports s) ⊎ Y)) as (v & Ev & Iv).
    { pose proof (i_vm _ _ _ _ _ _ I) as Hv. assert (payload pas ⊎ (stored port_frames E (w_ports s) ⊎ Y) =
        stored port_frames E (w_ports s) ⊎ (payload pas ⊎ Y)) as -> by mult_at x. exact Hv. }
    rewrite Ev, bind_Done. pose proof (vm_change _ _ _ _ _ _ _ v I Iv) as D. eapply releases_idle; [exact D|].
    apply releases_done; [apply D|]. rewrite (id_load _ _ _ _ _ _ _ D). lia.
  - apply releases_done; [|done]. by rewrite gmultiset_disj_union_left_id in I.
Qed.

(** One descriptor. *)
Lemma free_desc_ok B E L s X Y d :
  inv B E L s (desc_rights d ⊎ X) (desc_frames d ⊎ Y) -> desc_ok d -> (2 * (load E s + size (desc_rights d)) + 1 < n)%nat ->
  releases B E L s
    match pd_port d with
    | Some p => if pd_type d =? MACH_MSG_PORT_DESCRIPTOR then deref s p (pd_disposition d)
                else if pd_type d =? MACH_MSG_OOL_DESCRIPTOR then pd_ool_drop s d else Done s
    | None => if pd_type d =? MACH_MSG_OOL_DESCRIPTOR then pd_ool_drop s d else Done s
    end X Y (load E s + size (desc_rights d)).
Proof.
  intros I Ok Hc. unfold desc_rights, desc_frames, desc_ok in *.
  assert (forall X0, inv B E L s (∅ ⊎ X0) ((if pd_type d =? MACH_MSG_OOL_DESCRIPTOR then from_option payload ∅ (pd_ool_pages d) else ∅) ⊎ Y) ->
            releases B E L s (if pd_type d =? MACH_MSG_OOL_DESCRIPTOR then pd_ool_drop s d else Done s) X0 Y
              (load E s + size (∅ : rights))) as Ool.
  { intros X0 I0. rewrite gmultiset_disj_union_left_id in I0. rewrite gmultiset_size_empty, Nat.add_0_r.
    destruct (pd_type d =? MACH_MSG_OOL_DESCRIPTOR); [by apply pd_ool_drop_ok|].
    apply releases_done; [|done]. by rewrite gmultiset_disj_union_left_id in I0. }
  destruct (pd_port d) as [p|]; [|by apply Ool]. destruct (pd_type d =? MACH_MSG_PORT_DESCRIPTOR) eqn:Et; [|by apply Ool].
  apply Z.eqb_eq in Et. rewrite Et in I. change (MACH_MSG_PORT_DESCRIPTOR =? MACH_MSG_OOL_DESCRIPTOR) with false in I.
  cbv iota in I. rewrite gmultiset_disj_union_left_id in I.
  destruct (Serves B E L s p (pd_disposition d) X Y I) as (s' & E' & I' & Q & Lo); [by apply Ok| |].
  - unfold cost. destruct (has _ _); lia.
  - exists s'. split_and!; try done. lia.
Qed.

Lemma free_pending_descs_ok B E L s X Y l :
  inv B E L s (gather desc_rights l ⊎ X) (gather desc_frames l ⊎ Y) -> Forall desc_ok l ->
  (2 * (load E s + size (gather desc_rights l)) + 1 < n)%nat ->
  releases B E L s (free_pending_descs deref s l) X Y (load E s + size (gather desc_rights l)).
Proof.
  revert s. induction l as [|d l IH]; intros s I Ok Hc; cbn [free_pending_descs].
  - apply releases_done; [|lia]. by rewrite !gmultiset_disj_union_left_id in I.
  - inversion Ok; subst. rewrite !gather_cons, <- !gmultiset_disj_union_assoc in I.
    rewrite gather_cons, gmultiset_size_disj_union in Hc |- *.
    eapply releases_bind; [apply free_desc_ok; [exact I|done|lia]|]. intros s' I' Q Lo.
    destruct (IH s' I') as (s2 & E2 & I2 & Q2 & L2); [done|lia|]. exists s2. split_and!; try done. lia.
Qed.

Lemma drain_ok B E L s X Y l :
  inv B E L s (queue_rights l ⊎ X) (gather msg_frames l ⊎ Y) -> Forall msg_ok l ->
  (2 * (load E s + size (queue_rights l)) + 1 < n)%nat ->
  releases B E L s (drain deref s l) X Y (load E s + size (queue_rights l)).
Proof.
  unfold queue_rights. revert s. induction l as [|m l IH]; intros s I Ok Hc; cbn [drain].
  - apply releases_done; [|lia]. by rewrite !gmultiset_disj_union_left_id in I.
  - inversion Ok; subst. rewrite !gather_cons, <- !gmultiset_disj_union_assoc in I.
    rewrite gather_cons, gmultiset_size_disj_union in Hc |- *.
    eapply releases_bind; [apply free_pending_descs_ok; [exact I|by apply msg_ok_descs|unfold msg_rights in Hc; lia]|].
    fold (msg_rights m). intros s' I' Q Lo. destruct (IH s' I') as (s2 & E2 & I2 & Q2 & L2); [done|lia|].
    exists s2. split_and!; try done. lia.
Qed.

(** Notify, then drop the reference of the registration. *)
Lemma fire_ok B E L s X Y p id tag :
  inv B E L s ({[+ (p, RSend) +]} ⊎ X) Y -> (2 * (load E s + 1) < n)%nat ->
  exists rv s1, port_notify_enqueue s p id tag = Done (rv, s1) /\
    releases B E L s (deref s1 p MACH_PORT_RIGHT_SEND) X Y (load E s).
Proof.
  intros I Hc. destruct (local_live _ _ _ _ _ _ p RSend I) as (po & Hp & He); [|done|].
  { rewrite num_union, num_one, decide_True by done. pose proof (num_nonneg p RSend X). lia. }
  destruct (port_notify_enqueue_ok B E L s _ Y p po id tag I Hp He) as (rv & s1 & E1 & D). exists rv, s1. split; [done|].
  eapply releases_idle; [exact D|]. rewrite <- (id_load _ _ _ _ _ _ _ D). apply drop_send_ref; [apply D|].
  by rewrite (id_load _ _ _ _ _ _ _ D).
Qed.

Lemma fire_dead_names_ok B E L s X Y l :
  inv B E L s (watch_rights l ⊎ X) Y -> (2 * (load E s + size (watch_rights l)) < n)%nat ->
  releases B E L s (fire_dead_names deref s l) X Y (load E s + size (watch_rights l)).
Proof.
  unfold watch_rights. revert s. induction l as [|[m tag] l IH]; intros s I Hc; cbn [fire_dead_names].
  - apply releases_done; [|lia]. by rewrite gmultiset_disj_union_left_id in I.
  - rewrite gather_cons, <- gmultiset_disj_union_assoc in I. rewrite gather_cons, gmultiset_size_disj_union in Hc |- *.
    cbn [fst] in *. rewrite size_single in *.
    destruct (fire_ok B E L s _ Y m MACH_NOTIFY_DEAD_NAME tag I) as (rv & s1 & E1 & D); [lia|]. rewrite E1, bind_Done. cbn [snd].
    eapply releases_bind; [exact D|]. intros s' I' Q Lo. destruct (IH s' I') as (s2 & E2 & I2 & Q2 & L2); [lia|].
    exists s2. split_and!; try done. lia.
Qed.

(** [port_free] of a port that was shut: what it stored is released. *)
Lemma port_free_ok B E L s X Y p po :
  inv B ({[p]} ∪ E) L s (port_rights po ⊎ X) (port_frames po ⊎ Y) -> w_ports s !! p = Some po -> p_refs po = 0 ->
  p ∉ E -> p ∉ L.*1 -> (2 * (load ({[p]} ∪ E) s + size (port_rights po)) + 1 < n)%nat ->
  releases B E L s (port_free deref s p) X Y (load ({[p]} ∪ E) s + size (port_rights po)).
Proof.
  intros I Hp Hr He Hl Hc. destruct (shut_port _ _ _ _ _ _ p po I Hp Hr) as [(C1 & C2 & C3) (W1 & W2 & W3) Rg _ _].
  rewrite (kept_queue po Rg) in I, Hc |- *. destruct Rg as (N1 & N2 & N3).
  unfold port_free. rewrite (get_port_eq _ _ _ Hp), bind_Done, Hr, C1, C2, C3, W1, W2, W3, N3.
  rewrite !KASSERT_true by done.
  destruct (drain_ok B ({[p]} ∪ E) L s X Y (p_queue po)) as (s1 & E1 & I1 & Q1 & L1);
    [exact I|exact (po_msgs _ (i_port _ _ _ _ _ _ I p po Hp))|exact Hc|]. rewrite E1, bind_Done.
  assert (w_ports s1 !! p = Some po) as Hp1 by (rewrite (qt_shut _ _ _ Q1 p); [done|set_solver]).
  rewrite (get_port_eq _ _ _ Hp1), bind_Done, N2. cbn [release_watches]. rewrite bind_Done.
  destruct (kfree_inv B E L s1 X Y p I1 He Hl) as (I2 & Q2 & L2). exists (kfree_port s1 p).
  split_and!; [done|exact I2| |lia]. eapply quiet_steps; [|exact Q2]. eapply quiet_less, Q1. set_solver.
Qed.

(** The NO_SENDERS registration, fired or not, is released. *)
Lemma no_senders_ok B E L s X Y o (fire : bool) :
  inv B E L s (reg_rights o ⊎ X) Y -> (2 * (load E s + size (reg_rights o)) < n)%nat ->
  releases B E L s
    match o with
    | Some (t, tag) =>
        s ← (if fire then r ← port_notify_enqueue s t MACH_NOTIFY_NO_SENDERS tag; Done (snd r) else Done s);
        deref s t MACH_PORT_RIGHT_SEND
    | None => Done s
    end X Y (load E s + size (reg_rights o)).
Proof.
  intros I Hc. destruct o as [[t tag]|]; cbn [reg_rights] in *.
  - rewrite size_single in *. destruct fire.
    + destruct (fire_ok B E L s X Y t MACH_NOTIFY_NO_SENDERS tag I) as (rv & s1 & E1 & s2 & E2 & D); [lia|].
      rewrite E1, !bind_Done. cbn [snd]. exists s2. destruct D as (I2 & Q2 & L2). split_and!; try done. lia.
    + rewrite bind_Done. destruct (drop_send_ref B E L s X Y t I) as (s2 & E2 & I2 & Q2 & L2); [lia|].
      exists s2. split_and!; try done. lia.
  - rewrite gmultiset_size_empty, Nat.add_0_r. apply releases_done; [|done]. by rewrite gmultiset_disj_union_left_id in I.
Qed.

Lemma cascade_ok B E L s X Y f :
  inv B E L s (fallout_rights f ⊎ X) (gather msg_frames (f_drain f) ⊎ Y) -> Forall msg_ok (f_drain f) ->
  (2 * (load E s + size (fallout_rights f)) + 1 < n)%nat ->
  releases B E L s (cascade deref s f) X Y (load E s + size (fallout_rights f)).
Proof.
  intros I Ok Hc. unfold cascade, fallout_rights in *. rewrite !gmultiset_size_disj_union in *.
  eapply releases_bind; [apply no_senders_ok|].
  { assert (forall Q R W : rights, (Q ⊎ (R ⊎ W)) ⊎ X = R ⊎ (W ⊎ (Q ⊎ X))) as Q by (intros; mult_at x). rewrite Q in I. exact I. }
  { lia. }
  intros s1 I1 Q1 L1. eapply releases_bind; [apply fire_dead_names_ok; [exact I1|lia]|].
  intros s2 I2 Q2 L2. destruct (drain_ok B E L s2 X Y (f_drain f) I2 Ok) as (s3 & E3 & I3 & Q3 & L3); [lia|].
  exists s3. split_and!; try done. lia.
Qed.

(** The wakes, and the port off the list of its set. *)
Lemma depart_ok B E L s X Y p f :
  inv B E (leaving p f L) s X Y -> (f_member_of f <> None -> p ∉ L.*1) ->
  exists s', match f_member_of f with
             | Some q => port_leave_set (wake_all (wake_all s (f_wake f)) (f_send_wake f)) p q
             | None => Done (wake_all (wake_all s (f_wake f)) (f_send_wake f))
             end = Done s' /\ idle B E L s s' X Y.
Proof.
  intros I Hl. set (s1 := wake_all _ _).
  assert (forall L0, inv B E L0 s X Y -> idle B E L0 s s1 X Y) as Wk.
  { intros L0 I0. eapply idle_trans; [by apply wake_idle|]. intros I0'. by apply wake_idle. }
  unfold leaving in I. destruct (f_member_of f) as [q|]; [|exists s1; split; [done|by apply Wk]].
  destruct (Wk _ I) as [I1 Qw Lw]. destruct (port_leave_set_ok B E L s1 X Y p q I1) as (s2 & E2 & [I2 Q2 L2]); [by apply Hl|].
  exists s2. split; [done|]. split; [done|by eapply quiet_steps|lia].
Qed.

Lemma deref_unlocked_ok B E L s X Y p po' f :
  inv B (shut E p po') (leaving p f L) s (fallout_rights f ⊎ (leftover po' ⊎ X))
    (gather msg_frames (f_drain f) ⊎ (leftover_frames po' ⊎ Y)) ->
  w_ports s !! p = Some po' -> p ∉ E -> (p_refs po' = 0 \/ f_member_of f <> None -> p ∉ L.*1) -> Forall msg_ok (f_drain f) ->
  (2 * (load (shut E p po') s + (size (fallout_rights f) + size (leftover po'))) + 1 < n)%nat ->
  releases B E L s (deref_unlocked deref s p f (p_refs po' =? 0)) X Y
    (load (shut E p po') s + (size (fallout_rights f) + size (leftover po'))).
Proof.
  intros I Hp He Hl Ok Hc. set (E' := shut E p po') in *.
  assert (E ⊆ E') as Es by (unfold E', shut; case_match; set_solver). unfold deref_unlocked.
  destruct (cascade_ok B E' (leaving p f L) s _ _ f I Ok) as (s1 & E1 & I1 & Q1 & L1); [lia|]. rewrite E1, bind_Done.
  destruct (depart_ok B E' L s1 _ _ p f I1) as (s2 & E2 & D2); [intros Hn; apply Hl; by right|]. cbv zeta. rewrite E2, bind_Done.
  destruct D2 as [I2 Q2 L2]. pose proof (quiet_steps _ _ _ _ Q1 Q2) as Q3.
  unfold leftover, leftover_frames in *. destruct (p_refs po' =? 0) eqn:Ez.
  - assert (E' = {[p]} ∪ E) as Ee by (unfold E', shut; by rewrite Ez). rewrite Ee in *.
    assert (w_ports s2 !! p = Some po') as Hp2 by (rewrite (qt_shut _ _ _ Q3 p); [done|set_solver]).
    destruct (port_free_ok B E L s2 X Y p po' I2 Hp2) as (s4 & E4 & I4 & Q4 & L4); [lia|done|apply Hl; left; lia|lia|].
    exists s4. split_and!; [done|done|eapply quiet_steps; [exact (quiet_less _ _ _ _ Es Q3)|exact Q4]|lia].
  - assert (E' = E) as Ee by (unfold E', shut; by rewrite Ez). rewrite Ee in *. rewrite !gmultiset_disj_union_left_id in I2.
    exists s2. split_and!; [done|done|done|lia].
Qed.

Lemma divert_ok B X p r Bo Xo E L s Y po :
  inv Bo E L s Xo Y -> dropping B X p r Bo Xo L -> w_ports s !! p = Some po -> p ∉ E -> mask_ok r ->
  has r MACH_PORT_RIGHT_RECEIVE = true -> pinned B p po -> anchored B s p r po -> (2 * (load E s + 1) < n)%nat ->
  exists b s', port_destroyed_divert deref s p = Done (b, s') /\ diverted B X p r E L Y s' b /\ quiet E s s' /\
    (load E s' <= load E s)%nat.
Proof.
  intros I D Hp He Hm Hr Pin An Hc. unfold port_destroyed_divert. rewrite (get_port_eq _ _ _ Hp), bind_Done. cbv zeta.
  destruct (p_notify_port_destroyed po) as [[t tag]|] eqn:Ed.
  2: { assert (with_destroyed po None = po) as -> by (destruct po; cbn in *; by subst).
       rewrite put_port_id by done.
       exists false, s. split; [done|]. split; [by apply (to_die B X p r E L Y s Bo Xo po)|]. split; [apply quiet_refl|done]. }
  destruct (p_dead po) eqn:Edd.
  - destruct (disarm_inv Bo Xo E L s Y p po t tag I Hp He Ed) as [I1 L1].
    destruct (drop_send_ref Bo E L _ Xo Y t I1) as (s2 & E2 & I2 & Q2 & L2); [lia|]. rewrite E2, bind_Done. exists false, s2.
    assert (lesser po (with_destroyed po None)) as Le by (split; fields; auto; (lia || reflexivity)).
    pose proof (quiet_put E s p po (with_destroyed po None) He Hp Le) as Q1.
    split; [done|]. split; [|split; [by eapply quiet_steps|lia]].
    apply (to_die_later B X p r Bo Xo E L (put_port s p (with_destroyed po None)) s2 Y (with_destroyed po None) I2 D Hm); try done;
      first [apply lookup_insert_eq|exact An].
  - destruct (depose_inv Bo Xo E L s Y p po t tag I Hp He Ed) as (s2 & E2 & I2 & L2 & Q2 & H2).
    { intros Hs Hl. apply list_elem_of_fmap in Hl as ([p0 q] & Ep & Hl). cbn in Ep. subst p0.
      destruct (i_leave _ _ _ _ _ _ I p q Hl) as (_ & (po0 & H0 & S0) & _). congruence. }
    rewrite E2, bind_Done. destruct (wake_idle Bo E L s2 _ Y (p_waiters po) I2) as [I3 Q3 L3]. set (s3 := wake_all s2 (p_waiters po)) in *.
    assert (dropping B ({[+ (t, RSend) +]} ⊎ X) p r Bo ({[+ (t, RSend) +]} ⊎ Xo) L) as D3.
    { destruct D as [D1 D2 D4 D5 D6]. split; try assumption. intros q k. rewrite !num_union. specialize (D1 q k). lia. }
    pose proof (rebase _ _ _ _ _ _ s3 _ p r _ I3 D3 H2 eq_refl Pin) as I4. destruct (without_receive p r Hm Hr) as (Er & _ & _ & _).
    rewrite Er, <- gmultiset_disj_union_assoc in I4.
    destruct (local_live _ _ _ _ _ _ t RSend I4) as (to & Ht & Het); [|done|].
    { rewrite !num_union, (num_one t RSend t RSend), decide_True by done. pose proof (num_nonneg t RSend X).
      pose proof (num_nonneg t RSend {[+ (p, RRecv) +]}). pose proof (num_nonneg t RSend (rights_of p (Z.ldiff r MACH_PORT_RIGHT_RECEIVE))). lia. }
    destruct (port_destroyed_post_ok B E L s3 _ Y t to p tag I4 Ht Het) as (rv & s5 & E5 & Q5 & Post). rewrite E5, bind_Done.
    assert (forall Z1 : rights, Z1 ⊎ ({[+ (t, RSend) +]} ⊎ X) = {[+ (t, RSend) +]} ⊎ (Z1 ⊎ X)) as Sw by (intros; mult_at x).
    destruct Post as [(-> & I5 & L5)|(Hrv & I5 & L5)].
    + rewrite Sw in I5. destruct (drop_send_ref B E L s5 _ Y t I5) as (s6 & E6 & I6 & Q6 & L6); [lia|]. rewrite E6, bind_Done.
      exists true, s6. split; [done|]. split; [by apply sent_on|].
      split; [eapply quiet_steps, Q6; eapply quiet_steps, Q5; by eapply quiet_steps|lia].
    + rewrite gmultiset_disj_union_assoc, <- Er, Sw in I5. destruct (drop_send_ref B E L s5 _ Y t I5) as (s6 & E6 & I6 & Q6 & L6); [lia|].
      rewrite E6, bind_Done. exists false, s6. rewrite (proj2 (Z.eqb_neq _ _) Hrv). split; [done|].
      split; [|split; [eapply quiet_steps, Q6; eapply quiet_steps, Q5; by eapply quiet_steps|lia]].
      apply (to_die_later B X p r B _ E L s3 s6 Y _ I6 (dropping_local B X p r L) Hm H2); [by eapply quiet_steps|done|exact Pin|].
      intros _ Hn. by destruct Hn.
Qed.

(** The part under the lock and what follows. *)
Definition deref_finish s p (r : Z) : res world :=
  po ← get_port s p;
  x ← deref_locked po r;
  let '(po, f) := x in deref_unlocked deref (put_port s p po) p f (p_refs po =? 0).

Lemma deref_finish_ok B X p r Bo Xo E L s Y po :
  inv Bo E L s Xo Y -> dropping B X p r Bo Xo L -> w_ports s !! p = Some po -> mask_ok r -> pinned B p po ->
  anchored B s p r po -> (has r MACH_PORT_RIGHT_RECEIVE = true -> p_notify_port_destroyed po = None) -> (2 * load E s + 1 < n)%nat ->
  exists s', deref_finish s p r = Done s' /\ inv B E L s' X Y /\ quiet E s s' /\ (load E s' <= load E s)%nat /\
    forall po', w_ports s' !! p = Some po' -> p_refs po' + Z.of_nat (size (rights_of p r)) <= p_refs po.
Proof.
  intros I D Hp Hm Pin An Hd Hc. destruct (dropped_port _ _ _ _ _ _ _ _ _ _ I D Hm) as (po2 & H2 & He & Pay).
  rewrite Hp in H2. injection H2 as <-. unfold deref_finish. rewrite (get_port_eq _ _ _ Hp), bind_Done.
  destruct (deref_locked_ok po r Pay (i_port _ _ _ _ _ _ I p po Hp) Hd) as (po' & f & Ef & Sp). rewrite Ef, bind_Done.
  pose proof (locked_inv B X Bo Xo E L s Y p r po po' f I D Hp He Hm Pin An Sp Pay) as I3.
  pose proof (load_shut E s p po po' Hp He) as Ld.
  assert (size (port_rights po) = size (fallout_rights f) + (size (kept po') + size (leftover po')))%nat as Sr.
  { rewrite (ls_rights _ _ _ _ Sp), <- (kept_leftover po'), !gmultiset_size_disj_union. lia. }
  destruct (deref_unlocked_ok B E L (put_port s p po') X Y p po' f I3 (lookup_insert_eq _ _ _) He) as (s3 & E3 & I4 & Q3 & L3).
  - intros Hn Hl. destruct (leaving_stays B X Bo Xo E L s Y p r po po' f I D Hp He Sp Hl) as [Q1 Q2]. destruct Hn; [lia|congruence].
  - exact (ls_msgs _ _ _ _ Sp).
  - lia.
  - exists s3. split_and!; [done|done| |lia|].
    + eapply quiet_steps, Q3. apply (quiet_put E s p po po' He Hp). exact (ls_lesser _ _ _ _ Sp).
    + intros po3 H3. destruct (qt_port _ _ _ Q3 p po3 H3) as (po4 & H4 & Le). cbn in H4. rewrite lookup_insert_eq in H4. injection H4 as <-.
      pose proof (le_refs _ _ Le). pose proof (ls_refs _ _ _ _ Sp). pose proof (size_rights_of p r). lia.
Qed.

(** One activation, given that the nested ones work. *)
Lemma deref_call_ok B X p r Bo Xo E L s Y po :
  inv Bo E L s Xo Y -> dropping B X p r Bo Xo L -> w_ports s !! p = Some po -> mask_ok r -> pinned B p po ->
  anchored B s p r po -> (cost E s r p <= n)%nat ->
  releases B E L s (deref_call deref s p r) X Y (load E s).
Proof.
  intros I D Hp Hm Pin An Hc. destruct (dropped_port _ _ _ _ _ _ _ _ _ _ I D Hm) as (po0 & H0 & He & _).
  rewrite Hp in H0. injection H0 as <-. pose proof (size_mask p r Hm) as Sz. unfold cost in Hc.
  unfold deref_call. destruct (has r MACH_PORT_RIGHT_RECEIVE) eqn:Er.
  - destruct (divert_ok B X p r Bo Xo E L s Y po I D Hp He Hm Er Pin An) as (b & s1 & E1 & Dv & Q1 & L1); [lia|]. rewrite E1, bind_Done.
    destruct Dv as [I1|Bo1 Xo1 po1 I1 D1 H1 Hd1 Pin1 An1].
    + destruct (without_receive p r Hm Er) as (_ & Hf & Hz & Hmk). set (r1 := Z.ldiff r MACH_PORT_RIGHT_RECEIVE) in *. cbn [andb].
      destruct (r1 =? 0) eqn:Ez.
      * rewrite Hz, gmultiset_disj_union_left_id in I1 by lia. exists s1. split_and!; [done|done|done|lia].
      * specialize (Hmk ltac:(lia)). destruct (dropped_port _ _ _ _ _ _ _ _ _ _ I1 (dropping_local B X p r1 L) Hmk) as (po1 & H1 & _ & _).
        destruct (deref_finish_ok B X p r1 B _ E L s1 Y po1 I1 (dropping_local B X p r1 L) H1 Hmk) as (s2 & E2 & I2 & Q2 & L2 & _);
          [exact (i_pinned _ _ _ _ _ _ I1 p po1 H1)|intros H; congruence|congruence|lia|].
        exists s2. split_and!; [done|done|by eapply quiet_steps|lia].
    + destruct (deref_finish_ok B X p r Bo1 Xo1 E L s1 Y po1 I1 D1 H1 Hm Pin1 An1) as (s2 & E2 & I2 & Q2 & L2 & _); [done|lia|].
      exists s2. split_and!; [done|done|by eapply quiet_steps|lia].
  - rewrite bind_Done. cbn [andb]. destruct (deref_finish_ok B X p r Bo Xo E L s Y po I D Hp Hm Pin An) as (s2 & E2 & I2 & Q2 & L2 & _); [congruence|lia|].
    exists s2. split_and!; [done|done|done|lia].
Qed.

(** Without a receive right among them, the references are all given up. *)
Lemma deref_call_refs B X p r Bo Xo E L s Y po s' po' :
  inv Bo E L s Xo Y -> dropping B X p r Bo Xo L -> w_ports s !! p = Some po -> mask_ok r -> pinned B p po -> (cost E s r p <= n)%nat ->
  has r MACH_PORT_RIGHT_RECEIVE = false -> deref_call deref s p r = Done s' -> w_ports s' !! p = Some po' ->
  p_refs po' + Z.of_nat (size (rights_of p r)) <= p_refs po.
Proof.
  intros I D Hp Hm Pin Hc Hr. pose proof (size_mask p r Hm) as Sz. unfold cost in Hc. unfold deref_call. rewrite Hr, bind_Done. cbn [andb]. fold (deref_finish s p r).
  destruct (deref_finish_ok B X p r Bo Xo E L s Y po I D Hp Hm Pin) as (s2 & -> & _ & _ & _ & R); [intros H; congruence|congruence|lia|].
  intros [= <-]. apply R.
Qed.

End nested.

(** * [port_deref] *)

Lemma port_deref_n_serves n : serves (port_deref_n n) n.
Proof.
  induction n as [|n IH]; intros B E L s p r X Y I Hm Hc; [lia|]. cbn [port_deref_n].
  pose proof (dropping_local B X p r L) as D. destruct (dropped_port _ _ _ _ _ _ _ _ _ _ I D Hm) as (po & Hp & _ & _).
  apply (deref_call_ok _ n IH B X p r B _ E L s Y po I D Hp Hm); [exact (i_pinned _ _ _ _ _ _ I p po Hp)| |lia].
  intros Hr Hs. by pose proof (dropped_receive_no_set _ _ _ _ _ _ p r po I Hr Hp).
Qed.

(** A right that was held locally. *)
Lemma port_deref_local B E L s X Y p r :
  inv B E L s (rights_of p r ⊎ X) Y -> mask_ok r -> (cost E s r p < w_depth s)%nat ->
  releases B E L s (port_deref s p r) X Y (load E s).
Proof. apply port_deref_n_serves. Qed.

(** A right just taken out of a name table. *)
Lemma port_deref_taken B E s X Y p r po :
  inv (rights_of p r ⊎ B) E [] s X Y -> mask_ok r -> w_ports s !! p = Some po -> pinned B p po -> anchored B s p r po ->
  (cost E s r p < w_depth s)%nat -> releases B E [] s (port_deref s p r) X Y (load E s).
Proof.
  intros I Hm Hp Pin An Hc. unfold port_deref. destruct (w_depth s) as [|n]; [lia|]. cbn [port_deref_n].
  apply (deref_call_ok _ n (port_deref_n_serves n) B X p r _ X E [] s Y po I (dropping_base B X p r) Hp Hm Pin An). lia.
Qed.

Lemma port_deref_taken_refs B E s X Y p r po s' po' :
  inv (rights_of p r ⊎ B) E [] s X Y -> mask_ok r -> w_ports s !! p = Some po -> pinned B p po -> (cost E s r p < w_depth s)%nat ->
  has r MACH_PORT_RIGHT_RECEIVE = false -> port_deref s p r = Done s' -> w_ports s' !! p = Some po' ->
  p_refs po' + Z.of_nat (size (rights_of p r)) <= p_refs po.
Proof.
  intros I Hm Hp Pin Hc. unfold port_deref. destruct (w_depth s) as [|n]; [lia|]. cbn [port_deref_n].
  apply (deref_call_refs _ n (port_deref_n_serves n) B X p r _ X E [] s Y po s' po' I (dropping_base B X p r) Hp Hm Pin). lia.
Qed.

(** A hold given back. *)
Lemma port_release_ok B E s X Y p :
  inv B E [] s ({[+ (p, RHold) +]} ⊎ X) Y -> (2 * load E s + 1 < w_depth s)%nat ->
  releases B E [] s (port_release s p) X Y (load E s).
Proof.
  intros I Hc. destruct (local_live _ _ _ _ _ _ p RHold I) as (po & Hp & He); [|done|].
  { rewrite num_union, num_one, decide_True by done. pose proof (num_nonneg p RHold X). lia. }
  pose proof (i_held _ _ _ _ _ _ I p po Hp He) as Hr. unfold port_release. rewrite (get_port_eq _ _ _ Hp), bind_Done, KASSERT_true by lia. cbv zeta.
  set (po' := with_counts po (p_refs po - 1) (p_send_count po) (p_send_once_count po)). set (s1 := put_port s p po').
  assert (inv B (shut E p po') [] s1 (leftover po' ⊎ X) (leftover_frames po' ⊎ Y)) as I1.
  { apply (put_inv B E [] s _ Y B [] _ _ p po po' I Hp He).
    - unfold po'. fields. lia.
    - assert (forall q k, num q k (kept po' ⊎ (B ⊎ (leftover po' ⊎ X))) =
                num q k (port_rights po ⊎ (B ⊎ ({[+ (p, RHold) +]} ⊎ X))) - (if decide ((q, k) = (p, RHold)) then 1 else 0)) as Nw.
      { intros q k. pose proof (f_equal (num q k) (kept_leftover po')) as Q. change (port_rights po') with (port_rights po) in Q.
        rewrite !num_union in *. rewrite num_one. lia. }
      split; [intros q k Hq|..]; rewrite ?Nw; unfold po'; fields; repeat case_decide; simplify_eq; try lia. destruct Hq; done.
    - apply port_ok_counts. exact (i_port _ _ _ _ _ _ I p po Hp).
    - pose proof (kept_leftover_frames po') as Q. change (port_frames po') with (port_frames po) in Q. rewrite <- Q. mult_at x.
    - done.
    - exact (i_pinned _ _ _ _ _ _ I p po Hp).
    - apply stays; [done| |by intros H%not_elem_of_nil]. intros Hs. destruct (p_set po) as [q|] eqn:Eq; [|done].
      apply num_pos. exact (proj1 (i_member _ _ _ _ _ _ I p po q Hp Eq)). }
  pose proof (load_shut E s p po po' Hp He) as Ld. pose proof (f_equal size (kept_leftover po')) as Sz.
  rewrite gmultiset_size_disj_union in Sz. change (port_rights po') with (port_rights po) in Sz. fold s1 in Ld.
  assert (quiet E s s1) as Q1 by (apply (quiet_put E s p po po' He Hp); split; unfold po'; fields; auto; (lia || reflexivity)).
  unfold leftover, leftover_frames, shut in *. change (p_refs po') with (p_refs po - 1) in *. destruct (p_refs po - 1 =? 0) eqn:Ez.
  - destruct (port_free_ok _ _ (port_deref_n_serves (w_depth s)) B E [] s1 X Y p po' I1 (lookup_insert_eq _ _ _)) as (s2 & E2 & I2 & Q2 & L2);
      [unfold po'; fields; lia|done|apply not_elem_of_nil|lia|].
    exists s2. split_and!; [exact E2|done|by eapply quiet_steps|lia].
  - rewrite !gmultiset_disj_union_left_id in I1. exists s1. split_and!; [done|done|done|lia].
Qed.

End deref.
