(* ===== verification/PortSpace.v ===== *)
(** The name tables of [mach/port_space.c]: finding, filling and freeing
    slots, and the calls on them against the accounting of [PortInv]. *)

From stdpp Require Import base list gmap gmultiset strings numbers option.
From Stdlib Require Import ZArith Lia ZifyBool.
From S2P Require Import Prelude Owners VmMap Ports PortMsg PortInv PortDeref.

(** * Slots *)

Lemma entry_set_eq sp n e : 0 <= n < ps_capacity sp -> get_entry (set_entry sp n e) n = e.
Proof. intros H. unfold get_entry, set_entry, ps_capacity in *. cbn. by rewrite list_lookup_insert_eq by lia. Qed.

Lemma entry_set_ne sp n m e : 0 <= n -> 0 <= m -> n <> m -> get_entry (set_entry sp n e) m = get_entry sp m.
Proof. intros. unfold get_entry, set_entry. cbn. by rewrite list_lookup_insert_ne by lia. Qed.

Lemma get_entry_lookup sp n : 0 <= n < ps_capacity sp -> ps_table sp !! Z.to_nat n = Some (get_entry sp n).
Proof.
  intros H. unfold get_entry, ps_capacity in *. destruct (ps_table sp !! Z.to_nat n) eqn:E; [done|].
  apply lookup_ge_None in E. lia.
Qed.

Lemma get_entry_out sp n : ps_capacity sp <= n -> get_entry sp n = pe_empty.
Proof. intros H. unfold get_entry, ps_capacity in *. by rewrite lookup_ge_None_2 by lia. Qed.

Lemma find_slot_some n sp i j :
  find_slot n sp i = Some j ->
  i <= j < i + Z.of_nat n /\ slot_free (get_entry sp j) = true /\ forall m, i <= m < j -> slot_free (get_entry sp m) = false.
Proof.
  revert i. induction n as [|n IH]; intros i; cbn [find_slot]; [done|]. destruct (slot_free (get_entry sp i)) eqn:Ef.
  - intros [= <-]. split_and!; [lia|lia|done|]. intros m. lia.
  - intros (H1 & H2 & H3)%IH. split_and!; [lia|lia|done|]. intros m Hm. destruct (decide (m = i)) as [->|]; [done|]. apply H3. lia.
Qed.

Lemma find_slot_none n sp i : find_slot n sp i = None -> forall m, i <= m < i + Z.of_nat n -> slot_free (get_entry sp m) = false.
Proof.
  revert i. induction n as [|n IH]; intros i; cbn [find_slot]; [lia|]. destruct (slot_free (get_entry sp i)) eqn:Ef; [done|].
  intros H m Hm. destruct (decide (m = i)) as [->|]; [done|]. apply (IH _ H). lia.
Qed.

(** The slot a scan finds: the first free one from the hint on, around the
    end of the table. *)
Definition first_free (sp : port_space) (j : Z) : Prop :=
  1 <= j < ps_capacity sp /\ slot_free (get_entry sp j) = true /\
  forall m, 1 <= m < ps_capacity sp -> slot_free (get_entry sp m) = true ->
    (m - ps_hint sp) mod ps_capacity sp >= (j - ps_hint sp) mod ps_capacity sp.

Lemma scan_slots_none sp : 1 <= ps_hint sp < ps_capacity sp -> scan_slots sp = None ->
  forall m, 1 <= m < ps_capacity sp -> slot_free (get_entry sp m) = false.
Proof.
  intros Hh. unfold scan_slots. replace (ps_hint sp =? 0) with false by lia.
  destruct (find_slot _ sp (ps_hint sp)) eqn:E1; [done|]. intros E2 m Hm. destruct (decide (m < ps_hint sp)).
  - apply (find_slot_none _ _ _ E2). lia.
  - apply (find_slot_none _ _ _ E1). lia.
Qed.

Lemma scan_slots_some sp j : 1 <= ps_hint sp < ps_capacity sp -> scan_slots sp = Some j -> first_free sp j.
Proof.
  intros Hh. unfold scan_slots. replace (ps_hint sp =? 0) with false by lia. unfold first_free.
  set (c := ps_capacity sp) in *. set (h := ps_hint sp) in *.
  assert (forall a, h <= a < c -> (a - h) mod c = a - h) as Up by (intros; apply Z.mod_small; lia).
  assert (forall a, 1 <= a < h -> (a - h) mod c = a - h + c) as Down.
  { intros a Ha. rewrite <- (Z.mod_add (a - h) 1 c), Z.mod_small by lia. lia. }
  destruct (find_slot (Z.to_nat (c - h)) sp h) as [j'|] eqn:E1.
  - intros [= <-]. destruct (find_slot_some _ _ _ _ E1) as (B & F & N). split_and!; [lia|lia|done|]. intros m Hm Fm.
    rewrite (Up j') by lia. destruct (decide (m < h)); [rewrite Down by lia; lia|rewrite Up by lia].
    destruct (decide (m < j')); [|lia]. rewrite N in Fm by lia. done.
  - intros E2. destruct (find_slot_some _ _ _ _ E2) as (B & F & N). split_and!; [lia|lia|done|]. intros m Hm Fm.
    rewrite (Down j) by lia. destruct (decide (m < h)).
    + rewrite Down by lia. destruct (decide (m < j)); [|lia]. rewrite N in Fm by lia. done.
    + rewrite (find_slot_none _ _ _ E1 m) in Fm by lia. done.
Qed.

Lemma space_grow_table sp h sp' h' :
  space_grow_locked sp (ps_capacity sp * 2) h = (Some sp', h') ->
  ps_table sp' = ps_table sp ++ replicate (length (ps_table sp)) pe_empty /\ ps_inuse sp' = ps_inuse sp /\ ps_hint sp' = ps_hint sp.
Proof.
  unfold space_grow_locked, ps_capacity. destruct (kmalloc_ok h) as [ok h1]. destruct ok; cbn [negb]; [|done]. intros [= <- <-]. cbn.
  rewrite take_ge by lia. split_and!; [|done|done]. f_equal. f_equal. lia.
Qed.

Lemma get_entry_grown sp sp' m :
  ps_table sp' = ps_table sp ++ replicate (length (ps_table sp)) pe_empty -> 0 <= m -> get_entry sp' m = get_entry sp m.
Proof.
  intros E Hm. unfold get_entry. rewrite E. destruct (decide (Z.to_nat m < length (ps_table sp))%nat).
  - by rewrite lookup_app_l.
  - rewrite lookup_app_r, (lookup_ge_None_2 (ps_table sp)) by lia. destruct (replicate _ _ !! _) eqn:Er; [|done].
    apply lookup_replicate in Er as [-> _]. done.
Qed.

Lemma occupied_app l1 l2 : occupied (l1 ++ l2) = occupied l1 + occupied l2.
Proof. unfold occupied. rewrite list.filter_app, length_app. lia. Qed.

Lemma occupied_empty n : occupied (replicate n pe_empty) = 0.
Proof. unfold occupied. induction n as [|n IH]; cbn [replicate]; [done|]. rewrite filter_cons_False by done. exact IH. Qed.

Lemma occupied_cons e l : occupied (e :: l) = Z.b2z (negb (slot_free e)) + occupied l.
Proof.
  unfold occupied. destruct (slot_free e) eqn:E; [rewrite filter_cons_False by congruence|rewrite filter_cons_True by done]; cbn; lia.
Qed.

Lemma occupied_insert l i a b :
  l !! i = Some a -> occupied (<[i := b]> l) = occupied l - Z.b2z (negb (slot_free a)) + Z.b2z (negb (slot_free b)).
Proof.
  intros E. pose proof (lookup_lt_Some _ _ _ E) as L. rewrite <- (take_drop_middle l i a E) at 2.
  rewrite insert_take_drop by exact L. rewrite !occupied_app, !occupied_cons. lia.
Qed.

(** A table whose names are all as they were. *)
Lemma grown_ok sp sp' :
  space_ok sp -> ps_table sp' = ps_table sp ++ replicate (length (ps_table sp)) pe_empty -> ps_inuse sp' = ps_inuse sp ->
  ps_hint sp' = ps_hint sp -> space_ok sp'.
Proof.
  intros [A1 A2 A3 A4 A5] Et Ei Eh. assert (ps_capacity sp' = 2 * ps_capacity sp) as Ec.
  { unfold ps_capacity. rewrite Et, length_app, length_replicate. lia. }
  split; [lia|by rewrite (get_entry_grown sp) by done| |lia|].
  - rewrite Et. apply Forall_app. split; [exact A3|]. apply Forall_replicate. by split.
  - rewrite Ei, Et, occupied_app, occupied_empty. lia.
Qed.

Lemma grown_counted sp sp' :
  counted_space sp -> ps_table sp' = ps_table sp ++ replicate (length (ps_table sp)) pe_empty -> ps_inuse sp' = ps_inuse sp -> counted_space sp'.
Proof. intros C Et Ei. unfold counted_space in *. rewrite Ei, Et, occupied_app, occupied_empty. lia. Qed.

Lemma occupied_all l : Forall (fun e => slot_free e = false) l -> occupied l = Z.of_nat (length l).
Proof. induction 1 as [|e l He Hl IH]; [done|]. rewrite occupied_cons, He, IH. cbn. lia. Qed.

(** Without a free slot all but slot 0 are taken. *)
Lemma full_occupied sp :
  space_ok sp -> (forall m, 1 <= m < ps_capacity sp -> slot_free (get_entry sp m) = false) -> occupied (ps_table sp) = ps_capacity sp - 1.
Proof.
  intros Ok Full. pose proof (sk_null _ Ok) as Null. pose proof (sk_cap _ Ok) as Cp. unfold ps_capacity, get_entry in *.
  destruct (ps_table sp) as [|e l] eqn:Et; [done|]. change (slot_free e = true) in Null. rewrite occupied_cons, Null. cbn [negb Z.b2z].
  rewrite occupied_all; [cbn; lia|]. apply Forall_lookup. intros j x Hj. specialize (Full (Z.of_nat (S j))).
  rewrite Nat2Z.id in Full. change ((e :: l) !! S j) with (l !! j) in Full. rewrite Hj in Full. apply Full. apply lookup_lt_Some in Hj. cbn. lia.
Qed.

(** What [space_alloc_slot_locked] answers. *)
Inductive slot_answer (sp : port_space) : Z -> Z -> port_space -> Prop :=
| slot_found n sp1 sp' : (sp1 = sp \/ (forall m, 1 <= m < ps_capacity sp -> slot_free (get_entry sp m) = false) /\
                                      ps_capacity sp1 = 2 * ps_capacity sp) ->
    (forall m, 0 <= m -> get_entry sp1 m = get_entry sp m) -> space_ok sp1 -> (counted_space sp -> counted_space sp1) ->
    first_free sp1 n -> sp' = take_slot sp1 n -> gather entry_rights (ps_table sp1) = gather entry_rights (ps_table sp) ->
    occupied (ps_table sp1) = occupied (ps_table sp) -> slot_answer sp MACH_MSG_OK n sp'
| slot_nomem : (forall m, 1 <= m < ps_capacity sp -> slot_free (get_entry sp m) = false) -> slot_answer sp MACH_E_NOMEM 0 sp.

Lemma gather_empty n : gather entry_rights (replicate n pe_empty) = ∅.
Proof.
  apply gather_none. intros e He. apply elem_of_replicate in He as [-> _]. apply gmultiset_disj_union_left_id.
Qed.

Lemma space_alloc_slot_ok sp h rv n sp' h' :
  space_ok sp -> ps_capacity sp < 2 ^ 31 -> space_alloc_slot_locked sp h = (rv, n, sp', h') -> slot_answer sp rv n sp'.
Proof.
  intros Ok Hc. unfold space_alloc_slot_locked. destruct (scan_slots sp) as [j|] eqn:E1.
  - pose proof (scan_slots_some sp j (sk_hint _ Ok) E1) as F. pose proof F as (B & _).
    rewrite w32_small by lia. intros [= <- <- <- <-]. by apply (slot_found sp j sp); [left|..].
  - pose proof (scan_slots_none sp (sk_hint _ Ok) E1) as Full. destruct (space_grow_locked sp (ps_capacity sp * 2) h) as [[sp1|] h1] eqn:Eg.
    + destruct (space_grow_table _ _ _ _ Eg) as (Et & Ei & Eh). pose proof (grown_ok sp sp1 Ok Et Ei Eh) as Ok1.
      assert (ps_capacity sp1 = 2 * ps_capacity sp) as Ec by (unfold ps_capacity; rewrite Et, length_app, length_replicate; lia).
      pose proof (sk_cap _ Ok) as Cp. destruct (scan_slots sp1) as [j|] eqn:E2.
      * pose proof (scan_slots_some sp1 j (sk_hint _ Ok1) E2) as F. pose proof F as (B & _).
        rewrite w32_small by lia. intros [= <- <- <- <-]. apply (slot_found sp j sp1); [by right|intros m Hm; by apply get_entry_grown|done|intros C; by apply (grown_counted sp)|done|done| |].
        { rewrite Et, gather_app, gather_empty. apply gmultiset_disj_union_right_id. }
        rewrite Et, occupied_app, occupied_empty. lia.
      * exfalso. pose proof (scan_slots_none sp1 (sk_hint _ Ok1) E2 (ps_capacity sp) ltac:(lia)) as Q.
        rewrite (get_entry_grown sp sp1 _ Et), get_entry_out in Q by lia. done.
    + intros [= <- <- <- <-]. by apply slot_nomem.
Qed.

Section space.
Context {V : Type} `{PS : PayloadSpec V}.
Abbreviation world := (world (V := V)).
Implicit Types (s : world) (p q : Z) (k : right) (B X : rights) (Y : goods) (E : gset Z) (L : list (Z * Z)).

(** * Rights in tables *)

Definition table_rights (sp : port_space) : rights := gather entry_rights (ps_table sp).

Lemma tables_put s i sp sp' : w_spaces s !! i = Some sp -> tables (put_space s i sp') ⊎ table_rights sp = tables s ⊎ table_rights sp'.
Proof.
  intros Hi. unfold tables, put_space. cbn [upd_spaces w_spaces]. rewrite gather_map_insert, (gather_map_delete _ (w_spaces s) i sp Hi).
  fold (table_rights sp) (table_rights sp'). mult_at x.
Qed.

(** Rights moved between a table and the call: those outside the messages
    stay outside. *)
Lemma put_space_inv B E L s X Y B' X' i sp sp' :
  inv B E L s X Y -> w_spaces s !! i = Some sp -> space_ok sp' ->
  table_rights sp' ⊎ (B' ⊎ X') = table_rights sp ⊎ (B ⊎ X) -> B ⊆ B' ->
  (forall q k, real k -> q ∈ L.*1 \/ (exists qo, w_ports s !! q = Some qo /\ p_set qo <> None) ->
     num q k (table_rights sp ⊎ B) <= num q k (table_rights sp' ⊎ B')) ->
  inv B' E L (put_space s i sp') X' Y.
Proof.
  intros I Hi Ok Er Hb Ht. set (s' := put_space s i sp'). pose proof (tables_put s i sp sp' Hi) as Tb. fold s' in Tb.
  assert (owners B' E s' X' = owners B E s X) as Ow.
  { apply num_ext. intros q k. rewrite !num_owners. change (in_transit E s') with (in_transit E s).
    pose proof (f_equal (num q k) Er) as E1. pose proof (f_equal (num q k) Tb) as E2. rewrite !num_union in *. lia. }
  assert (forall q k, real k -> q ∈ L.*1 \/ (exists qo, w_ports s !! q = Some qo /\ p_set qo <> None) ->
            (q, k) ∈ tables s ⊎ B -> (q, k) ∈ tables s' ⊎ B') as Hold.
  { intros q k Hk Hw H. apply num_pos in H. apply num_pos. pose proof (f_equal (num q k) Tb) as E2. pose proof (Ht q k Hk Hw) as E3.
    rewrite !num_union in *. lia. }
  split; rewrite ?Ow; try apply I.
  - intros p po Hp. pose proof (i_pinned _ _ _ _ _ _ I p po Hp) as P. apply (pinned_more B B' p po P). intros k. by apply num_subset.
  - intros p po q Hp Hq. destruct (i_member _ _ _ _ _ _ I p po q Hp Hq) as [M D]. split; [|exact D].
    apply Hold; [done|right; exists po; split; [done|congruence]|done].
  - intros p q Hl. destruct (i_leave _ _ _ _ _ _ I p q Hl) as ([A|(k & Hk & A)] & D); (split; [|exact D]); [by left|].
    right. exists k. split; [done|]. apply Hold; [done|left; apply list_elem_of_fmap; by exists (p, q)|done].
  - intros j [sj Hj]. apply (i_fresh_space _ _ _ _ _ _ I). cbn in Hj. destruct (decide (j = i)) as [->|]; [by eexists|].
    rewrite lookup_insert_ne in Hj by done. by eexists.
  - intros j sj Hj. cbn in Hj. destruct (decide (j = i)) as [->|].
    + rewrite lookup_insert_eq in Hj. by injection Hj as <-.
    + rewrite lookup_insert_ne in Hj by done. exact (i_space _ _ _ _ _ _ I j sj Hj).
Qed.

Lemma get_space_eq s i sp : w_spaces s !! i = Some sp -> get_space s i = Done sp.
Proof. unfold get_space. by intros ->. Qed.

(** One entry replaced. *)
Lemma set_entry_rights sp n e :
  0 <= n < ps_capacity sp -> table_rights (set_entry sp n e) ⊎ entry_rights (get_entry sp n) = table_rights sp ⊎ entry_rights e.
Proof.
  intros Hn. unfold table_rights, set_entry. cbn. rewrite (gather_insert _ _ _ _ _ (get_entry_lookup sp n Hn)). done.
Qed.

Lemma set_entry_ok sp n e :
  space_ok sp -> 1 <= n < ps_capacity sp -> entry_ok e -> slot_free e = slot_free (get_entry sp n) ->
  space_ok (set_entry sp n e) /\ (counted_space sp -> counted_space (set_entry sp n e)).
Proof.
  intros [A1 A2 A3 A4 A5] Hn He Ef. assert (ps_capacity (set_entry sp n e) = ps_capacity sp) as Ec.
  { unfold ps_capacity, set_entry. cbn. by rewrite length_insert. }
  pose proof (occupied_insert _ _ _ e (get_entry_lookup sp n ltac:(lia))) as Oc. rewrite Ef in Oc.
  split; [split; [lia|by rewrite entry_set_ne by lia|by apply Forall_insert|cbn; lia|cbn; lia]|unfold counted_space; cbn; lia].
Qed.

(** A slot taken and filled, and one emptied and given back. *)
Lemma fill_slot_ok sp n e :
  space_ok sp -> first_free sp n -> ps_capacity sp < 2 ^ 32 -> entry_ok e -> slot_free e = false ->
  space_ok (set_entry (take_slot sp n) n e) /\ (counted_space sp -> counted_space (set_entry (take_slot sp n) n e)).
Proof.
  intros [A1 A2 A3 A4 A5] (Hn & Fn & _) Hc He Ef.
  assert (ps_capacity (set_entry (take_slot sp n) n e) = ps_capacity sp) as Ec by (unfold ps_capacity; cbn; by rewrite length_insert).
  pose proof (occupied_insert _ _ _ e (get_entry_lookup sp n ltac:(lia))) as Oc. rewrite Fn, Ef in Oc. cbn in Oc.
  split; [split; [lia|rewrite entry_set_ne by lia; exact A2|by apply Forall_insert| |cbn; lia]|unfold counted_space; cbn; lia].
  rewrite Ec. cbn. case_match; [rewrite w32_small in *; lia|lia].
Qed.

Lemma empty_slot_ok sp n e :
  space_ok sp -> 1 <= n < ps_capacity sp -> entry_ok e -> slot_free (get_entry sp n) = false -> slot_free e = true ->
  space_ok (free_slot (set_entry sp n e) n) /\ (counted_space sp -> counted_space (free_slot (set_entry sp n e) n)).
Proof.
  intros [A1 A2 A3 A4 A5] Hn He Fn Ef.
  assert (ps_capacity (free_slot (set_entry sp n e) n) = ps_capacity sp) as Ec by (unfold ps_capacity; cbn; by rewrite length_insert).
  pose proof (occupied_insert _ _ _ e (get_entry_lookup sp n ltac:(lia))) as Oc. rewrite Fn, Ef in Oc. cbn in Oc.
  split; [split; [lia| |by apply Forall_insert|rewrite Ec; cbn; case_match; lia|cbn; lia]|unfold counted_space; cbn; lia].
  change (slot_free (get_entry (set_entry sp n e) 0) = true). by rewrite entry_set_ne by lia.
Qed.

Lemma free_entry_rights e : slot_free e = true -> entry_rights e = ∅ /\ pe_dead e = false.
Proof.
  unfold slot_free, entry_rights. intros ([H1 H2]%andb_prop & H3)%andb_prop. apply bool_decide_eq_true in H1, H2.
  rewrite H1, H2. split; [apply gmultiset_disj_union_left_id|by destruct (pe_dead e)].
Qed.

(** * References *)

(** The port after [port_ref]. *)
Definition reffed (po : port) (r : Z) : port :=
  with_receive (with_counts po
      (p_refs po + Z.b2z (has r MACH_PORT_RIGHT_RECEIVE) + Z.b2z (has r MACH_PORT_RIGHT_SEND) + Z.b2z (has r MACH_PORT_RIGHT_SEND_ONCE))
      (p_send_count po + Z.b2z (has r MACH_PORT_RIGHT_SEND)) (p_send_once_count po + Z.b2z (has r MACH_PORT_RIGHT_SEND_ONCE)))
    (has r MACH_PORT_RIGHT_RECEIVE || p_has_receive po) (p_dead po).

(** Room for a reference more in the counters. *)
Definition countable_port (po : port) : Prop :=
  0 <= p_send_count po <= p_refs po /\ 0 <= p_send_once_count po <= p_refs po /\ p_refs po < 2 ^ 32 - 3.

Lemma port_ref_eq s p r po :
  w_ports s !! p = Some po -> countable_port po -> (has r MACH_PORT_RIGHT_RECEIVE = true -> p_has_receive po = false) ->
  port_ref s p r = Done (put_port s p (reffed po r)).
Proof.
  intros Hp (C1 & C2 & C3) Hr. unfold port_ref, reffed. rewrite (get_port_eq _ _ _ Hp), bind_Done.
  destruct po as [a b c d e f g h i j k l m n o q t u]. cbn in *.
  destruct (has r MACH_PORT_RIGHT_SEND), (has r MACH_PORT_RIGHT_SEND_ONCE), (has r MACH_PORT_RIGHT_RECEIVE);
    cbn; rewrite ?w32_small by lia; rewrite ?(Hr eq_refl); cbn; rewrite ?w32_small by lia;
    rewrite ?Z.add_0_r; first [reflexivity|repeat f_equal; lia].
Qed.

Lemma counted B E L s X Y p po : inv B E L s X Y -> w_ports s !! p = Some po -> p_refs po < 2 ^ 32 - 3 -> countable_port po.
Proof.
  intros I Hp Hr. destruct (i_tally _ _ _ _ _ _ I p po Hp) as [T1 T2 T3 T4].
  pose proof (num_nonneg p RSend (owners B E s X)). pose proof (num_nonneg p ROnce (owners B E s X)).
  pose proof (num_nonneg p RRecv (owners B E s X)). pose proof (num_nonneg p RHold (owners B E s X)). split_and!; lia.
Qed.

Lemma reffed_ok po r : port_ok po -> port_ok (reffed po r).
Proof.
  intros [A1 A2 A3 A4 A5 A6 A7 A8]. split; cbn; try assumption. intros H. apply A7. by destruct (has r MACH_PORT_RIGHT_RECEIVE).
Qed.

Lemma ref_inv B E L s X Y p po r :
  inv B E L s X Y -> w_ports s !! p = Some po -> p ∉ E -> (has r MACH_PORT_RIGHT_RECEIVE = true -> p_has_receive po = false) ->
  inv B E L (put_port s p (reffed po r)) (rights_of p r ⊎ X) Y.
Proof.
  intros I Hp He Hr. pose proof (i_held _ _ _ _ _ _ I p po Hp He) as Hh. set (po' := reffed po r).
  assert ((p_refs po' =? 0) = false) as Ez by (unfold po', reffed; fields; lia).
  assert (shut E p po' = E) as Es by (unfold shut; by rewrite Ez). rewrite <- Es at 1.
  apply (put_inv B E L s X Y B L _ _ p po po' I Hp He); [unfold po', reffed; fields; lia| | | |done|exact (i_pinned _ _ _ _ _ _ I p po Hp)|].
  - unfold kept. rewrite Ez. change (port_rights po') with (port_rights po).
    assert (forall q k, num q k (port_rights po ⊎ (B ⊎ (rights_of p r ⊎ X))) - num q k (port_rights po ⊎ (B ⊎ X)) = num q k (rights_of p r)) as N
      by (intros; rewrite !num_union; lia).
    split; [intros q k Hq|..]; rewrite ?N.
    + specialize (N q k). rewrite num_rights_of in N. destruct (decide (q = p)) as [->|]; [|lia]. destruct Hq as [Hq|Hq]; [done|subst k; lia].
    + rewrite num_rights_of, decide_True by done. unfold po', reffed. fields. lia.
    + rewrite num_rights_of, decide_True by done. unfold po', reffed. fields. lia.
    + rewrite num_rights_of, decide_True by done. unfold po', reffed. fields.
      destruct (has r MACH_PORT_RIGHT_RECEIVE); [rewrite Hr by done; done|]. cbn. lia.
    + rewrite !num_rights_of, !decide_True by done. unfold po', reffed. fields. lia.
  - apply reffed_ok. exact (i_port _ _ _ _ _ _ I p po Hp).
  - unfold kept_frames. by rewrite Ez.
  - apply stays; [done| |done]. intros Hn. destruct (p_set po) as [q|] eqn:Eq; [|done]. apply num_pos.
    exact (proj1 (i_member _ _ _ _ _ _ I p po q Hp Eq)).
Qed.

(** * New ports *)

Definition newborn : port := mkPort 0 0 0 false false 0 0 DEFAULT_QMAX [] [] [] None PORT_SPECIAL_NONE 0 no_stash None [] None.

(** A number never used: nothing names it. *)
Record unused B E s X p : Prop := {
  un_port : w_ports s !! p = None;
  un_set : w_sets s !! p = None;
  un_num k : real k \/ k = RSet -> num p k (owners B E s X) = 0;
  un_shut : p ∉ E;
  un_next : p < w_next_port_id s;
}.

Lemma next_unused B E L s X Y p : inv B E L s X Y -> p = w_next_port_id s -> unused B E (upd_port_id s (p + 1)) X p.
Proof.
  intros I ->. assert (w_ports s !! w_next_port_id s = None) as Np.
  { destruct (w_ports s !! w_next_port_id s) eqn:Q; [|done]. pose proof (i_fresh _ _ _ _ _ _ I (w_next_port_id s) ltac:(left; by eexists)). lia. }
  assert (w_sets s !! w_next_port_id s = None) as Ns.
  { destruct (w_sets s !! w_next_port_id s) eqn:Q; [|done]. pose proof (i_fresh _ _ _ _ _ _ I (w_next_port_id s) ltac:(right; by eexists)). lia. }
  split; [exact Np|exact Ns| | |cbn; lia].
  - intros k Hk. change (owners B E (upd_port_id s _) X) with (owners B E s X). pose proof (num_nonneg (w_next_port_id s) k (owners B E s X)).
    destruct (decide (0 < num (w_next_port_id s) k (owners B E s X))) as [H1|]; [|lia]. apply num_pos in H1. exfalso.
    destruct Hk as [Hk| ->].
    + destruct (i_live _ _ _ _ _ _ I _ k H1 Hk). congruence.
    + destruct (i_setlive _ _ _ _ _ _ I _ H1). congruence.
  - intros He. destruct (i_born _ _ _ _ _ _ I _ He) as (po & Q & _). congruence.
Qed.

Lemma port_id_inv B E L s X Y n : inv B E L s X Y -> w_next_port_id s <= n -> inv B E L (upd_port_id s n) X Y.
Proof. intros I Hn. split; try apply I. intros p Hp. pose proof (i_fresh _ _ _ _ _ _ I p Hp). cbn. lia. Qed.

(** The port is stored under its number with the rights that were counted. *)
Lemma birth_stored {K} `{Countable K} (f : port -> gmultiset K) E (m : gmap Z port) p po :
  m !! p = None -> f po = ∅ -> p ∉ E -> stored f (shut E p po) (<[p := po]> m) = stored f E m.
Proof.
  intros Hp Hf He. unfold shut. rewrite <- (delete_id m p Hp) at 2. destruct (p_refs po =? 0); [apply stored_last|].
  rewrite stored_insert, Hf by done. apply gmultiset_disj_union_left_id.
Qed.

Lemma birth_inv B E L s X Y p po r :
  inv B E L s X Y -> unused B E s X p -> port_rights po = ∅ -> port_frames po = ∅ -> port_ok po -> p_set po = None ->
  p_qresv po = 0 -> p_send_waiters po = [] -> tally (rights_of p r) p po ->
  inv B (shut E p po) L (put_port s p po) (rights_of p r ⊎ X) Y.
Proof.
  intros I [Up Us Un Ue Ux] Er Ef Ok Es Eq Ew Ta. set (s' := put_port s p po). set (E' := shut E p po).
  assert (forall q k, num q k (owners B E' s' (rights_of p r ⊎ X)) = num q k (owners B E s X) + num q k (rights_of p r)) as Ow.
  { intros q k. rewrite !num_owners, num_union. unfold in_transit, s', E', put_port. cbn [upd_ports w_ports].
    rewrite birth_stored by done. change (tables (upd_ports s _)) with (tables s). lia. }
  assert (forall q k, q <> p \/ k = RSet -> num q k (owners B E' s' (rights_of p r ⊎ X)) = num q k (owners B E s X)) as Oth.
  { intros q k Hq. rewrite Ow, num_rights_of. destruct (decide (q = p)) as [->|]; [|lia]. destruct Hq as [|Hk]; [done|subst k; lia]. }
  assert (forall q, q <> p -> w_ports s' !! q = w_ports s !! q) as Lo by (intros; by apply lookup_insert_ne).
  assert (w_ports s' !! p = Some po) as Lp by apply lookup_insert_eq.
  assert (forall q, q <> p -> (q ∈ E' <-> q ∈ E)) as Ee by (intros; unfold E', shut; case_match; set_solver).
  split; try apply I.
  - intros q qo Hq. destruct (decide (q = p)) as [->|Hn].
    + rewrite Lp in Hq. injection Hq as <-. eapply tally_ext, Ta. intros k Hk. rewrite Ow, Un by (by left). lia.
    + rewrite Lo in Hq by done. eapply tally_ext, (i_tally _ _ _ _ _ _ I q qo Hq). intros k _. symmetry. apply Oth. by left.
  - intros q k Hq Hk. destruct (decide (q = p)) as [->|Hn]; [by eexists|]. rewrite Lo by done.
    apply (i_live _ _ _ _ _ _ I q k); [|done]. apply num_pos. rewrite <- Oth by (by left). by apply num_pos.
  - intros q qo Hq. destruct (decide (q = p)) as [->|Hn]; [rewrite Lp in Hq; by injection Hq as <-|].
    rewrite Lo in Hq by done. exact (i_port _ _ _ _ _ _ I q qo Hq).
  - intros q qo Hq Hne. destruct (decide (q = p)) as [->|Hn].
    + rewrite Lp in Hq. injection Hq as <-. destruct Ta as [T1 T2 T3 T4]. unfold E', shut in Hne.
      pose proof (num_nonneg p RSend (rights_of p r)). pose proof (num_nonneg p ROnce (rights_of p r)). pose proof (num_nonneg p RRecv (rights_of p r)).
      pose proof (num_nonneg p RHold (rights_of p r)). destruct (p_refs po =? 0) eqn:Ez; [set_solver|lia].
    + rewrite Lo in Hq by done. apply (i_held _ _ _ _ _ _ I q qo Hq). intros He. by apply Hne, Ee.
  - intros q Hq. destruct (decide (q = p)) as [->|Hn].
    + exists po. split; [exact Lp|]. unfold E', shut in Hq. destruct (p_refs po =? 0) eqn:Ez; [lia|done].
    + rewrite Lo by done. apply (i_born _ _ _ _ _ _ I q). by apply Ee.
  - intros q qo Hq. destruct (decide (q = p)) as [->|Hn].
    + rewrite Lp in Hq. injection Hq as <-. unfold pinned. rewrite Eq, Ew. apply backed_none.
    + rewrite Lo in Hq by done. exact (i_pinned _ _ _ _ _ _ I q qo Hq).
  - intros q qo st Hq Hs. destruct (decide (q = p)) as [->|Hn]; [rewrite Lp in Hq; congruence|].
    rewrite Lo in Hq by done. exact (i_member _ _ _ _ _ _ I q qo st Hq Hs).
  - intros q st Hq. destruct (i_set _ _ _ _ _ _ I q st Hq) as [N C M]. split; [exact N|exact C|].
    intros m Hm. destruct (M m Hm) as (mo & Em & D). exists mo. rewrite Lo by congruence. by split.
  - intros q st Hq. rewrite (i_setrefs _ _ _ _ _ _ I q st Hq). symmetry. apply Oth. by right.
  - intros q Hq. apply (i_setlive _ _ _ _ _ _ I q). apply num_pos. rewrite <- Oth by (by right). by apply num_pos.
  - intros m q Hm. destruct (i_leave _ _ _ _ _ _ I m q Hm) as (A & (mo & Em & D1) & D). split; [|split; [|exact D]].
    + destruct A as [A|A]; [left|by right]. apply Ee; [congruence|done].
    + exists mo. rewrite Lo by congruence. by split.
  - intros q [Hq|Hq]; [|apply (i_fresh _ _ _ _ _ _ I); by right]. destruct (decide (q = p)) as [->|Hn]; [exact Ux|].
    rewrite Lo in Hq by done. apply (i_fresh _ _ _ _ _ _ I). by left.
  - unfold s', E', put_port. cbn [upd_ports w_ports w_vm]. rewrite birth_stored by done. apply I.
Qed.

(** * Names *)

(** Name [n] of space [i] stands for [e]; no other name of any space has
    changed. *)
Definition renamed s s' (i n : Z) (e : port_entry) : Prop :=
  exists sp sp', w_spaces s !! i = Some sp /\ w_spaces s' = <[i := sp']> (w_spaces s) /\
    forall m, 0 <= m -> get_entry sp' m = if m =? n then e else get_entry sp m.

Definition entry_at s (i n : Z) : port_entry := match w_spaces s !! i with Some sp => get_entry sp n | None => pe_empty end.

Lemma renamed_at s s' i n e : renamed s s' i n e -> 0 <= n -> entry_at s' i n = e.
Proof. intros (sp & sp' & _ & E & H) Hn. unfold entry_at. rewrite E, lookup_insert_eq, H, Z.eqb_refl by done. done. Qed.

Lemma renamed_ne s s' i n e j m : renamed s s' i n e -> 0 <= m -> (j, m) <> (i, n) -> entry_at s' j m = entry_at s j m.
Proof.
  intros (sp & sp' & H1 & E & H) Hm Hn. unfold entry_at. rewrite E. destruct (decide (j = i)) as [->|].
  - rewrite lookup_insert_eq, H1, H by done. destruct (m =? n) eqn:Q; [|done]. destruct Hn. f_equal. lia.
  - by rewrite lookup_insert_ne.
Qed.

Lemma renamed_set s i sp n e : w_spaces s !! i = Some sp -> 0 <= n < ps_capacity sp -> renamed s (put_space s i (set_entry sp n e)) i n e.
Proof.
  intros Hi Hn. exists sp, (set_entry sp n e). split_and!; [done|done|]. intros m Hm. destruct (m =? n) eqn:Q.
  - assert (m = n) as -> by lia. by apply entry_set_eq.
  - apply entry_set_ne; lia.
Qed.

(** Where a new name goes: the first free slot after the last one given
    out, in the table as it was if it had any. *)
Record placed (sp sp1 : port_space) (n : Z) : Prop := {
  pc_counted : counted_space sp -> counted_space sp1;
  pc_first m : 1 <= m < ps_capacity sp -> slot_free (get_entry sp m) = true -> first_free sp n;
  pc_hint : ps_hint sp1 = if n + 1 <? ps_capacity sp1 then n + 1 else 1;
  pc_cap : ps_capacity sp <= ps_capacity sp1;
  pc_occupied : occupied (ps_table sp1) = occupied (ps_table sp) + 1;
  pc_grow : ps_capacity sp1 <= Z.max (ps_capacity sp) (2 * occupied (ps_table sp1));
}.

(** What [install_entry] does: a free name is given the entry, or there was
    no memory for a larger table. *)
Inductive installs s (i : Z) (port set : option Z) (r : Z) : Z -> Z -> world -> Prop :=
| installed h n sp1 : 1 <= n -> slot_free (entry_at s i n) = true ->
    renamed s (put_space (upd_heap s h) i sp1) i n (mkPe port set r false) ->
    (forall sp, w_spaces s !! i = Some sp -> table_rights sp1 = table_rights sp ⊎ entry_rights (mkPe port set r false)) ->
    space_ok sp1 -> 
    (forall sp, w_spaces s !! i = Some sp -> placed sp sp1 n) ->
    installs s i port set r MACH_MSG_OK n (put_space (upd_heap s h) i sp1)
| no_room h : installs s i port set r MACH_E_NOMEM 0 (upd_heap s h).

Lemma put_space_id s i sp : w_spaces s !! i = Some sp -> put_space s i sp = s.
Proof. intros Hi. unfold put_space, upd_spaces. rewrite insert_id by done. by destruct s. Qed.

Lemma install_entry_ok s i sp port set r :
  w_spaces s !! i = Some sp -> space_ok sp -> ps_capacity sp < 2 ^ 31 -> entry_ok (mkPe port set r false) ->
  slot_free (mkPe port set r false) = false ->
  exists rv n s', install_entry s i port set r = Done (rv, n, s') /\ installs s i port set r rv n s'.
Proof.
  intros Hi Ok Hc He Hf. unfold install_entry. rewrite (get_space_eq _ _ _ Hi), bind_Done.
  destruct (space_alloc_slot_locked sp (w_heap s)) as [[[rv n] sp'] h] eqn:Ea.
  destruct (space_alloc_slot_ok _ _ _ _ _ _ Ok Hc Ea) as [n sp1 sp' Hg Hs Ok1 C1 F -> Eg Eo|]; cbn [negb Z.eqb].
  - pose proof F as (Bn & Fn & _). assert (ps_capacity sp1 < 2 ^ 32) as Hc1 by (destruct Hg as [->|[_ Ec]]; lia).
    pose proof (free_entry_rights _ Fn) as [Rn Dn]. change (get_entry (take_slot sp1 n) n) with (get_entry sp1 n). rewrite Dn.
    eexists _, _, _. split; [reflexivity|]. apply installed.
    + lia.
    + unfold entry_at. rewrite Hi, <- Hs by lia. done.
    + exists sp, (set_entry (take_slot sp1 n) n (mkPe port set r false)). split_and!; [done|done|]. intros m Hm. destruct (m =? n) eqn:Q.
      * assert (m = n) as -> by lia. apply entry_set_eq. change (ps_capacity (take_slot sp1 n)) with (ps_capacity sp1). lia.
      * rewrite entry_set_ne by lia. by apply Hs.
    + intros sp0 H0. assert (sp0 = sp) as -> by congruence. pose proof (set_entry_rights (take_slot sp1 n) n (mkPe port set r false)) as Q.
      change (get_entry (take_slot sp1 n) n) with (get_entry sp1 n) in Q. rewrite Rn, gmultiset_disj_union_right_id in Q.
      rewrite Q by (change (ps_capacity (take_slot sp1 n)) with (ps_capacity sp1); lia). unfold table_rights. by rewrite <- Eg.
    + by apply fill_slot_ok.
    + intros sp0 H0. assert (sp0 = sp) as -> by congruence. set (sp2 := set_entry _ _ _).
      assert (ps_capacity sp2 = ps_capacity sp1) as Ec by (unfold ps_capacity; cbn; by rewrite length_insert).
      assert (occupied (ps_table sp2) = occupied (ps_table sp) + 1) as Oc.
      { unfold sp2. cbn [ps_table set_entry take_slot]. rewrite (occupied_insert _ _ (get_entry sp1 n)), Fn, Hf by (apply get_entry_lookup; lia). cbn. lia. }
      split.
      * intros C. apply fill_slot_ok; auto.
      * intros m Bm Fm. destruct Hg as [->|[Full _]]; [done|]. rewrite Full in Fm by done. done.
      * rewrite Ec. cbn. by rewrite w32_small by lia.
      * rewrite Ec. pose proof (sk_cap _ Ok). destruct Hg as [->|[_ Hd]]; lia.
      * exact Oc.
      * rewrite Ec, Oc. destruct Hg as [->|[Full Hd]]; [lia|]. rewrite (full_occupied sp Ok Full). lia.
  - rewrite put_space_id by done. eexists _, _, _. split; [reflexivity|]. apply no_room.
Qed.

Lemma entry_rights_port p r d : entry_rights (mkPe (Some p) None r d) = rights_of p r.
Proof. apply gmultiset_disj_union_right_id. Qed.
Lemma entry_rights_none r d : entry_rights (mkPe None None r d) = ∅.
Proof. apply gmultiset_disj_union_left_id. Qed.
Lemma entry_rights_set q r d : entry_rights (mkPe None (Some q) r d) = {[+ (q, RSet) +]}.
Proof. apply gmultiset_disj_union_left_id. Qed.

(** A right held locally goes into the table. *)
Lemma installed_inv B E L s X Y i port set r h sp sp1 :
  w_spaces s !! i = Some sp -> inv B E L s (entry_rights (mkPe port set r false) ⊎ X) Y -> space_ok sp1 ->
  table_rights sp1 = table_rights sp ⊎ entry_rights (mkPe port set r false) -> inv B E L (put_space (upd_heap s h) i sp1) X Y.
Proof.
  intros Hi I Ok Er. eapply (put_space_inv B E L (upd_heap s h)); [by apply (same_inv _ _ _ s)|exact Hi|exact Ok| |done|].
  - rewrite Er. mult_at x.
  - intros q k _ _. rewrite Er, !num_union. pose proof (num_nonneg q k (entry_rights (mkPe port set r false))). lia.
Qed.

Lemma port_entry_ok p r : mask_ok r -> entry_ok (mkPe (Some p) None r false).
Proof. intros Hm. split; cbn; [by intros ? [= <-]|done|done]. Qed.
Lemma empty_entry_ok d : entry_ok (mkPe None None 0 d).
Proof. by split. Qed.

Inductive granted B E L s X Y i p (po : port) r : Z -> Z -> world -> Prop :=
| granted_name h n sp1 (s' := put_space (upd_heap (put_port s p (reffed po r)) h) i sp1) :
    1 <= n -> slot_free (entry_at s i n) = true -> renamed s s' i n (mkPe (Some p) None r false) -> inv B E L s' X Y ->
    (forall sp, w_spaces s !! i = Some sp -> placed sp sp1 n) ->
    granted B E L s X Y i p po r MACH_MSG_OK n s'
| granted_none h : granted B E L s X Y i p po r MACH_E_NOMEM 0 (upd_heap s h).

Lemma mask_nonzero r : mask_ok r -> (r =? 0) = false.
Proof. unfold mask_ok. lia. Qed.

Lemma space_install_ok B E L s X Y i sp p po r :
  w_spaces s !! i = Some sp -> space_ok sp -> ps_capacity sp < 2 ^ 31 -> mask_ok r -> w_ports s !! p = Some po ->
  countable_port po -> (has r MACH_PORT_RIGHT_RECEIVE = true -> p_has_receive po = false) ->
  inv B E L (put_port s p (reffed po r)) (rights_of p r ⊎ X) Y ->
  exists rv n s', space_install s i p r = Done (rv, n, s') /\ granted B E L s X Y i p po r rv n s'.
Proof.
  intros Hi Ok Hc Hm Hp Cp Hr I. unfold space_install. rewrite mask_nonzero by done.
  destruct (install_entry_ok s i sp (Some p) None r Hi Ok Hc) as (rv & n & s' & Ei & D); [by apply port_entry_ok|done|].
  rewrite Ei, bind_Done. destruct D as [h n sp1 Hn Hf Rn Er Ok1 C1|h]; cbn [Z.eqb negb].
  - rewrite (port_ref_eq _ p r po) by done. rewrite bind_Done. eexists _, _, _. split; [reflexivity|].
    apply (granted_name B E L s X Y i p po r h n sp1); [done|done|exact Rn| |exact C1].
    apply (installed_inv B E L (put_port s p (reffed po r)) X Y i (Some p) None r h sp sp1 Hi); [|done|by apply Er].
    by rewrite entry_rights_port.
  - eexists _, _, _. split; [reflexivity|]. apply granted_none.
Qed.

(** A right moved out of a message: no new reference. *)
Lemma space_install_no_ref_ok B E L s X Y i sp p r :
  w_spaces s !! i = Some sp -> ps_capacity sp < 2 ^ 31 -> mask_ok r -> inv B E L s (rights_of p r ⊎ X) Y ->
  exists rv n s', space_install_no_ref s i p r = Done (rv, n, s') /\
    (rv = MACH_MSG_OK /\ 1 <= n /\ slot_free (entry_at s i n) = true /\ renamed s s' i n (mkPe (Some p) None r false) /\ inv B E L s' X Y /\
     (exists sp1 h, s' = put_space (upd_heap s h) i sp1 /\ placed sp sp1 n) \/
     rv = MACH_E_NOMEM /\ exists h, s' = upd_heap s h).
Proof.
  intros Hi Hc Hm I. unfold space_install_no_ref. rewrite mask_nonzero by done.
  destruct (install_entry_ok s i sp (Some p) None r Hi (i_space _ _ _ _ _ _ I i sp Hi) Hc) as (rv & n & s' & Ei & D); [by apply port_entry_ok|done|].
  exists rv, n, s'. split; [exact Ei|]. destruct D as [h n sp1 Hn Hf Rn Er Ok1 C1|h]; [left|right; by eauto].
  split_and!; [done|done|done|done| |eexists _, _; split; [done|by apply C1]].
  apply (installed_inv B E L s X Y i (Some p) None r h sp sp1 Hi); [|done|by apply Er]. by rewrite entry_rights_port.
Qed.

End space.
