(* ===== verification/PortSets.v ===== *)
(** Port sets against the accounting: references, members, and the end of a
    set ([mach/port_object.c], [mach/port_space.c]). *)

From stdpp Require Import base list gmap gmultiset strings numbers option.
From Stdlib Require Import ZArith Lia ZifyBool.
From S2P Require Import Prelude Owners VmMap Ports PortMsg PortInv PortDeref PortSpace.

Section sets.
Context {V : Type} `{PS : PayloadSpec V}.
Abbreviation world := (world (V := V)).
Implicit Types (s : world) (p q : Z) (k : right) (B X : rights) (Y : goods) (E : gset Z) (L : list (Z * Z)).

(** * References *)

(** A name of a set made ([d = 1]) or given up ([d = -1]). *)
Lemma set_refs_inv B E L s X X' Y q st d :
  inv B E L s X Y -> w_sets s !! q = Some st -> (forall p k, num p k X' = num p k X + if decide ((p, k) = (q, RSet)) then d else 0) ->
  inv B E L (put_set s q (mkPset (ps_refs st + d) (ps_dead st) (ps_member_count st) (ps_members st) (ps_waiters st))) X' Y.
Proof.
  intros I Hq Hx. apply (sets_inv B E L L s X X' Y _ I); [|by left|].
  - intros p k Hk. rewrite Hx, decide_False by (by apply real_pair). lia.
  - apply (put_set_fit B E L L s X X' _ q st _ (sets_fit_inv _ _ _ _ _ _ I) Hq); try done.
    + intros p Hp. rewrite Hx, decide_False by congruence. lia.
    + destruct (i_set _ _ _ _ _ _ I q st Hq) as [N C M]. by split.
    + cbn. rewrite (i_setrefs _ _ _ _ _ _ I q st Hq), !num_owners, Hx, decide_True by done. lia.
    + intros p Hp. by left.
Qed.

Lemma port_set_ref_ok B E L s X Y q st :
  inv B E L s X Y -> w_sets s !! q = Some st -> ps_refs st < 2 ^ 32 - 1 ->
  exists st', port_set_ref s q = Done (put_set s q st') /\ inv B E L (put_set s q st') ({[+ (q, RSet) +]} ⊎ X) Y.
Proof.
  intros I Hq Hr. unfold port_set_ref. rewrite (get_set_eq _ _ _ Hq), bind_Done.
  pose proof (i_setrefs _ _ _ _ _ _ I q st Hq) as R. pose proof (num_nonneg q RSet (owners B E s X)). rewrite w32_small by lia.
  eexists. split; [reflexivity|]. apply (set_refs_inv B E L s X _ Y q st 1 I Hq). intros p k. rewrite num_union, num_one. lia.
Qed.

(** * New sets *)

Lemma new_set_inv B E L s X Y q : inv B E L s X Y -> unused B E s X q -> inv B E L (put_set s q (mkPset 0 false 0 [] [])) X Y.
Proof.
  intros I [Up Us Un Ue Ux]. apply (sets_inv B E L L s X X Y _ I); [done|by left|].
  destruct (sets_fit_inv _ _ _ _ _ _ I) as [F1 F2 F3 F4 F5].
  assert (forall q', is_Some (w_sets s !! q') -> q' <> q) as Ne by (intros q' [x H] ->; congruence).
  split.
  - intros p po q' Hp Hs. destruct (F1 p po q' Hp Hs) as (st & Hst & D). exists st. rewrite lookup_insert_ne; [done|]. symmetry. apply Ne. by eexists.
  - intros q' st H. destruct (decide (q' = q)) as [->|Hn].
    + rewrite lookup_insert_eq in H. injection H as <-. split; [|rewrite Un; [done|by right]]. split; [constructor|done|]. intros p Hp. by apply not_elem_of_nil in Hp.
    + rewrite lookup_insert_ne in H by done. by apply F2.
  - intros q' H. destruct (decide (q' = q)) as [->|Hn]; [rewrite lookup_insert_eq; by eexists|]. rewrite lookup_insert_ne by done. by apply F3.
  - intros p q' Hp. destruct (F4 p q' Hp) as (st & Hst & D). exists st. rewrite lookup_insert_ne; [done|]. symmetry. apply Ne. by eexists.
  - intros q' H. destruct (decide (q' = q)) as [->|Hn]; [done|]. rewrite lookup_insert_ne in H by done. by apply F5.
Qed.

(** * The end of a set *)

(** A set without owners whose members have all left. *)
Lemma free_set_inv B E L s X Y q :
  inv B E L s ({[+ (q, RSet) +]} ⊎ X) Y -> num q RSet (owners B E s X) = 0 -> (forall x, x ∈ L -> x.2 = q) ->
  (forall p po, w_ports s !! p = Some po -> p_set po <> Some q) -> inv B E [] (upd_sets s (delete q (w_sets s))) X Y.
Proof.
  intros I Hn Hl Hp. apply (sets_inv B E L [] s _ X Y _ I).
  - intros p k Hk. rewrite num_union, num_one, decide_False by (by apply real_pair). lia.
  - intros p q' Hx. by apply not_elem_of_nil in Hx.
  - destruct (sets_fit_inv _ _ _ _ _ _ I) as [F1 F2 F3 F4 F5].
    assert (forall p, p <> q -> num p RSet (owners B E s ({[+ (q, RSet) +]} ⊎ X)) = num p RSet (owners B E s X)) as Ow.
    { intros p H. rewrite !num_owners, num_union, num_one, decide_False by congruence. lia. }
    split.
    + intros p po q' Hpo Hs. destruct (F1 p po q' Hpo Hs) as (st & Hst & D). exists st. rewrite lookup_delete_ne; [done|]. intros ->. by apply (Hp p po).
    + intros q' st [Hne H]%lookup_delete_Some. destruct (F2 q' st H) as [[A1 A2 A3] A4]. rewrite Ow in A4 by done. split; [|done]. split; [done|done|].
      intros p Hin. destruct (A3 p Hin) as (po & Hpo & [D|D]); exists po; (split; [done|]); [by left|]. pose proof (Hl _ D) as Q. by destruct Hne.
    + intros q' H. destruct (decide (q' = q)) as [->|Hne]; [lia|]. rewrite lookup_delete_ne by done. apply F3. by rewrite Ow.
    + intros p q' Hx. by apply not_elem_of_nil in Hx.
    + intros q' [x [_ H]%lookup_delete_Some]. apply F5. by eexists.
Qed.

Lemma with_set_none_ok po : port_ok po -> port_ok (with_set po None).
Proof. intros [A1 A2 A3 A4 A5 A6 A7 A8]. split; cbn; try assumption. intros H. destruct (A7 H) as (D1 & _ & D2). by split. Qed.

(** A member taken out, still listed by the set. *)
Lemma detach_inv B E L s X Y p po q :
  inv B E L s X Y -> w_ports s !! p = Some po -> p_set po = Some q -> inv B E ((p, q) :: L) (put_port s p (with_set po None)) X Y.
Proof.
  intros I Hp Hs. destruct (i_member _ _ _ _ _ _ I p po q Hp Hs) as [M _].
  destruct (outside_live _ _ _ _ _ _ p RRecv I M) as (po0 & H0 & He); [done|].
  pose proof (i_held _ _ _ _ _ _ I p po Hp He) as Hr. assert ((p_refs (with_set po None) =? 0) = false) as Ez by (cbn; lia).
  assert (shut E p (with_set po None) = E) as Es by (unfold shut; by rewrite Ez). rewrite <- Es at 1.
  apply (put_inv B E L s X Y B _ X Y p po _ I Hp He); [cbn; lia| |apply with_set_none_ok; exact (i_port _ _ _ _ _ _ I p po Hp)| |done|exact (i_pinned _ _ _ _ _ _ I p po Hp)|].
  - unfold kept. rewrite Ez. change (port_rights (with_set po None)) with (port_rights po). split; intros; fields; lia.
  - unfold kept_frames. by rewrite Ez.
  - rewrite Es. apply (leaves _ _ _ _ _ _ _ _ q); [done|done|]. right. by exists RRecv.
Qed.

(** The sets of a state do not matter to the walk. *)
Lemma detach_members_sets s l m s' : detach_members s l = Done s' -> detach_members (upd_sets s m) l = Done (upd_sets s' m).
Proof.
  revert s. induction l as [|p l IH]; intros s; cbn [detach_members]; [by intros [= ->]|].
  unfold get_port. change (w_ports (upd_sets s m)) with (w_ports s). destruct (w_ports s !! p) as [po|]; [|done]. rewrite !bind_Done.
  intros H. exact (IH _ H).
Qed.

Lemma detach_members_ok B E L s X Y q l :
  inv B E L s X Y -> NoDup l -> (forall p, p ∈ l -> exists po, w_ports s !! p = Some po /\ p_set po = Some q) ->
  exists s' L', detach_members s l = Done s' /\ inv B E L' s' X Y /\ quiet E s s' /\ load E s' = load E s /\ w_sets s' = w_sets s /\
    (forall x, x ∈ L' -> x ∈ L \/ x.2 = q) /\ forall p po, p ∈ l -> w_ports s' !! p = Some po -> p_set po = None.
Proof.
  revert L s. induction l as [|p l IH]; intros L s I Nd Hl; cbn [detach_members].
  { exists s, L. split_and!; [done|done|apply quiet_refl|done|done|auto|]. intros p po Hp. by apply not_elem_of_nil in Hp. }
  inversion Nd as [|? ? Np Nl]; subst. destruct (Hl p) as (po & Hp & Hs); [by left|]. rewrite (get_port_eq _ _ _ Hp), bind_Done.
  pose proof (detach_inv B E L s X Y p po q I Hp Hs) as I1. set (s1 := put_port s p (with_set po None)) in *.
  destruct (outside_live _ _ _ _ _ _ p RRecv I (proj1 (i_member _ _ _ _ _ _ I p po q Hp Hs))) as (_ & _ & He); [done|].
  destruct (IH _ s1 I1 Nl) as (s' & L' & E' & I' & Q' & Ld & Es & Hl' & Hn').
  { intros m Hm. destruct (Hl m) as (mo & Hmo & Hms); [by right|]. exists mo. split; [|done]. cbn. rewrite lookup_insert_ne; [done|congruence]. }
  assert (quiet E s s1) as Q1 by (apply (quiet_put E s p po _ He Hp); split; fields; auto; (lia || reflexivity)).
  exists s', L'. split_and!; [exact E'|exact I'|by eapply quiet_steps| |by rewrite Es| |].
  - rewrite Ld. pose proof (load_put E s p po (with_set po None) Hp He) as Q. change (port_rights (with_set po None)) with (port_rights po) in Q. fold s1 in Q. lia.
  - intros x Hx. destruct (Hl' x Hx) as [[->|]%elem_of_cons|]; auto.
  - intros m mo [->|Hm]%elem_of_cons Hmo; [|by eapply Hn'].
    destruct (qt_port _ _ _ Q' p mo Hmo) as (po1 & H1 & Le). cbn in H1. rewrite lookup_insert_eq in H1. injection H1 as <-.
    destruct (le_set _ _ Le) as [->| ->]; done.
Qed.

Lemma port_set_deref_ok B E s X Y q :
  inv B E [] s ({[+ (q, RSet) +]} ⊎ X) Y ->
  exists s', port_set_deref s q = Done s' /\ inv B E [] s' X Y /\ quiet E s s' /\ load E s' = load E s.
Proof.
  intros I. assert (0 < num q RSet (owners B E s ({[+ (q, RSet) +]} ⊎ X))) as Hn.
  { rewrite num_owners, num_union, num_one, decide_True by done. pose proof (num_nonneg q RSet X). pose proof (num_nonneg q RSet B).
    pose proof (num_nonneg q RSet (tables s)). pose proof (num_nonneg q RSet (in_transit E s)). lia. }
  destruct (i_setlive _ _ _ _ _ _ I q) as [st Hq]; [by apply num_pos|]. pose proof (i_setrefs _ _ _ _ _ _ I q st Hq) as R.
  unfold port_set_deref. rewrite (get_set_eq _ _ _ Hq), bind_Done, KASSERT_true by lia. destruct (ps_refs st - 1 =? 0) eqn:Ez.
  - destruct (i_set _ _ _ _ _ _ I q st Hq) as [Nd Ct Mb].
    destruct (detach_members_ok B E [] s _ Y q (ps_members st) I Nd) as (s1 & L1 & E1 & I1 & Q1 & Ld & Es & Hl & Hnone).
    { intros p Hp. destruct (Mb p Hp) as (po & Hpo & [D|D]); [by exists po|by apply not_elem_of_nil in D]. }
    unfold put_set at 1. rewrite (detach_members_sets s _ _ s1 E1), bind_Done. unfold port_set_free, get_set. cbn [wake_all upd_woken upd_sets w_sets].
    rewrite lookup_insert_eq, bind_Done, KASSERT_true, KASSERT_true by done. rewrite delete_insert_eq.
    eexists. split; [reflexivity|]. split; [|split; [by split; apply Q1|done]].
    apply (same_inv _ _ _ (upd_sets s1 (delete q (w_sets s1)))); try done; [cbn; by rewrite Es|].
    apply (free_set_inv B E L1 s1 X Y q I1).
    + pose proof (i_setrefs _ _ _ _ _ _ I1 q st ltac:(by rewrite Es)) as R1. rewrite num_owners, num_union, num_one, decide_True in R1 by done.
      rewrite num_owners. lia.
    + intros x Hx. destruct (Hl x Hx) as [H|H]; [by apply not_elem_of_nil in H|done].
    + intros p po Hp Hs. destruct (i_member _ _ _ _ _ _ I1 p po q Hp Hs) as [_ (x & Hx & Hin)]. rewrite Es, Hq in Hx. injection Hx as <-.
      rewrite (Hnone p po Hin Hp) in Hs. done.
  - eexists. split; [reflexivity|]. split; [|split; [by apply quiet_same|done]].
    replace (ps_refs st - 1) with (ps_refs st + -1) by lia. apply (set_refs_inv B E [] s _ X Y q st (-1) I Hq).
    intros p k. rewrite num_union, num_one. destruct (decide _); lia.
Qed.

(** * Members *)

Definition with_member (st : port_set) p : port_set :=
  mkPset (ps_refs st) (ps_dead st) (ps_member_count st + 1) (p :: ps_members st) (ps_waiters st).

Lemma list_member_inv B E s X Y p po q st :
  inv B E [] s X Y -> w_ports s !! p = Some po -> p_set po = None -> (p, RRecv) ∈ tables s ⊎ B -> w_sets s !! q = Some st ->
  inv B E [(p, q)] (put_set s q (with_member st p)) X Y.
Proof.
  intros I Hp Hs Hr Hq. destruct (sets_fit_inv _ _ _ _ _ _ I) as [F1 F2 F3 F4 F5].
  assert (forall q' x m, w_sets s !! q' = Some x -> m ∈ ps_members x -> exists y, w_sets (put_set s q (with_member st p)) !! q' = Some y /\ m ∈ ps_members y) as Keep.
  { intros q' x m Hx Hin. cbn. destruct (decide (q' = q)) as [->|Hn].
    - rewrite lookup_insert_eq. eexists. split; [done|]. right. congruence.
    - rewrite lookup_insert_ne by done. by exists x. }
  apply (sets_inv B E [] [(p, q)] s X X Y _ I); [done| |].
  - intros m q' [[= -> ->]|H]%elem_of_cons; [|by apply not_elem_of_nil in H]. right. split; [by exists po|done].
  - split.
    + intros m mo q' Hm Hms. destruct (F1 m mo q' Hm Hms) as (x & Hx & Hin). by apply (Keep q' x m).
    + intros q' x H. destruct (decide (q' = q)) as [->|Hn].
      * rewrite lookup_insert_eq in H. injection H as <-. destruct (F2 q st Hq) as [[A1 A2 A3] A4]. split; [|exact A4]. split.
        -- cbn. constructor; [|done]. intros Hin. destruct (A3 p Hin) as (po0 & H0 & [D|D]); [congruence|by apply not_elem_of_nil in D].
        -- cbn. lia.
        -- cbn. intros m [->|Hin]%elem_of_cons; [exists po; split; [done|right; by left]|].
           destruct (A3 m Hin) as (mo & Hmo & [D|D]); [|by apply not_elem_of_nil in D]. exists mo. split; [done|by left].
      * rewrite lookup_insert_ne in H by done. destruct (F2 q' x H) as [[A1 A2 A3] A4]. split; [|exact A4]. split; [done|done|].
        intros m Hin. destruct (A3 m Hin) as (mo & Hmo & [D|D]); [|by apply not_elem_of_nil in D]. exists mo. split; [done|by left].
    + intros q' H. destruct (decide (q' = q)) as [->|Hn]; [rewrite lookup_insert_eq; by eexists|]. rewrite lookup_insert_ne by done. by apply F3.
    + intros m q' [[= -> ->]|H]%elem_of_cons; [|by apply not_elem_of_nil in H]. rewrite lookup_insert_eq. eexists. split; [done|by left].
    + intros q' H. destruct (decide (q' = q)) as [->|Hn]; [apply F5; by eexists|]. rewrite lookup_insert_ne in H by done. by apply F5.
Qed.

Lemma insert_member_inv B E s X Y p po q st :
  inv B E [] s X Y -> w_ports s !! p = Some po -> p_set po = None -> (p, RRecv) ∈ tables s ⊎ B -> w_sets s !! q = Some st ->
  inv B E [] (put_set (put_port s p (with_set po (Some q))) q (with_member st p)) X Y.
Proof.
  intros I Hp Hs Hr Hq. pose proof (list_member_inv B E s X Y p po q st I Hp Hs Hr Hq) as I1.
  destruct (outside_live _ _ _ _ _ _ p RRecv I Hr) as (po0 & H0 & He); [done|]. pose proof (i_held _ _ _ _ _ _ I p po Hp He) as Hrf.
  assert ((p_refs (with_set po (Some q)) =? 0) = false) as Ez by (cbn; lia).
  assert (shut E p (with_set po (Some q)) = E) as Es by (unfold shut; by rewrite Ez).
  change (put_set (put_port s p (with_set po (Some q))) q (with_member st p)) with (put_port (put_set s q (with_member st p)) p (with_set po (Some q))).
  rewrite <- Es at 1.
  apply (put_inv B E [(p, q)] _ X Y B [] X Y p po _ I1 Hp He); [cbn; lia| | | |done|exact (i_pinned _ _ _ _ _ _ I p po Hp)|].
  - unfold kept. rewrite Ez. change (port_rights (with_set po (Some q))) with (port_rights po). split; intros; fields; lia.
  - pose proof (i_tally _ _ _ _ _ _ I p po Hp) as T. destruct (i_port _ _ _ _ _ _ I p po Hp) as [A1 A2 A3 A4 A5 A6 A7 A8]. split; cbn; try assumption.
    intros Hf. exfalso. pose proof (t_recv _ _ _ T) as Tr. rewrite Hf, num_owners in Tr. apply num_pos in Hr. rewrite num_union in Hr.
    pose proof (num_nonneg p RRecv (in_transit E s)). pose proof (num_nonneg p RRecv X). cbn in Tr. lia.
  - unfold kept_frames. by rewrite Ez.
  - apply (joins _ _ _ _ _ _ _ _ q []); [done|apply not_elem_of_nil|done|]. by apply num_pos.
Qed.

(** [set_unlink] of a member that still says it is in the set, and of a port
    that is not. *)
Lemma set_unlink_eq B E s X Y p q st :
  inv B E [] s X Y -> w_sets s !! q = Some st ->
  set_unlink s p q = Done (bool_decide (p ∈ ps_members st),
    if bool_decide (p ∈ ps_members st)
    then put_set s q (mkPset (ps_refs st) (ps_dead st) (ps_member_count st - 1) (unbind_waiter (ps_members st) p) (ps_waiters st)) else s).
Proof.
  intros I Hq. destruct (i_set _ _ _ _ _ _ I q st Hq) as [Nd Ct Mb]. unfold set_unlink. rewrite (get_set_eq _ _ _ Hq), bind_Done.
  rewrite unlink_member_ok by (intros m Hm; destruct (Mb m Hm) as (? & ? & _); by eexists). by rewrite bind_Done.
Qed.

Lemma remove_member_inv B E s X Y p po q st :
  inv B E [] s X Y -> w_ports s !! p = Some po -> w_sets s !! q = Some st -> p ∈ ps_members st ->
  inv B E [] (put_port (put_set s q (mkPset (ps_refs st) (ps_dead st) (ps_member_count st - 1) (unbind_waiter (ps_members st) p) (ps_waiters st)))
                p (with_set po None)) X Y /\ p_set po = Some q.
Proof.
  intros I Hp Hq Hin. destruct (i_set _ _ _ _ _ _ I q st Hq) as [Nd Ct Mb]. destruct (Mb p Hin) as (po0 & H0 & [D|D]); [|by apply not_elem_of_nil in D].
  assert (po0 = po) as -> by congruence. split; [|done]. pose proof (detach_inv B E [] s X Y p po q I Hp D) as I1. set (s1 := put_port s p (with_set po None)) in *.
  destruct (set_unlink_ok B E [] s1 X Y p q I1) as (s2 & E2 & _ & [I2 _ _]); [apply not_elem_of_nil|].
  unfold set_unlink in E2. rewrite (get_set_eq s1 q st) in E2 by done. rewrite bind_Done in E2.
  rewrite unlink_member_ok, bind_Done, bool_decide_eq_true_2 in E2; [|done|].
  - injection E2 as <-. exact I2.
  - intros m Hm. destruct (Mb m Hm) as (mo & Hmo & _). cbn. destruct (decide (m = p)) as [->|]; [rewrite lookup_insert_eq|rewrite lookup_insert_ne by done]; by eexists.
Qed.

End sets.
