(* ===== verification/PortCalls.v ===== *)
(** The calls of [mach/port_space.c] on a whole system: none reaches a freed
    object or trips an assertion, each keeps the accounting, and each does to
    the names what it says. *)

From stdpp Require Import base list gmap gmultiset strings numbers option.
From Stdlib Require Import ZArith Lia ZifyBool.
From S2P Require Import Prelude Owners VmMap Ports PortMsg PortInv PortDeref PortSpace PortSets.

Section calls.
Context {V : Type} `{PS : PayloadSpec V}.
Abbreviation world := (world (V := V)).
Implicit Types (s : world) (p q : Z) (k : right) (B X : rights) (Y : goods) (E : gset Z) (L : list (Z * Z)).

(** No call in progress; [B] are the rights held outside tables and messages:
    by the kernel, and by threads asleep in a call. *)
Record sys B s : Prop := {
  sy_inv : inv B ∅ [] s ∅ ∅;
  sy_counted i sp : w_spaces s !! i = Some sp -> counted_space sp;
}.

(** Stack for a cascade through everything that is in messages. *)
Definition deep s : Prop := (2 * (load ∅ s + 3) + 1 < w_depth s)%nat.

(** Counters and tables short of their limits. *)
Record roomy s : Prop := {
  rm_refs p po : w_ports s !! p = Some po -> p_refs po < 2 ^ 32 - 3;
  rm_setrefs q st : w_sets s !! q = Some st -> ps_refs st < 2 ^ 32 - 1;
  rm_cap i sp : w_spaces s !! i = Some sp -> ps_capacity sp < 2 ^ 31;
  rm_depth : deep s;
}.

(** * Looking names up *)

Definition lookup_entry (e : port_entry) (need : Z) : option (Z * Z) :=
  match pe_port e with Some p => if Z.land (pe_rights e) need =? need then Some (p, pe_rights e) else None | None => None end.

Lemma reserved_free sp name : space_ok sp -> ps_capacity sp < 2 ^ 31 -> reserved_name name = true -> slot_free (get_entry sp name) = true.
Proof.
  intros Ok Hc. unfold reserved_name, MACH_PORT_NULL, MACH_PORT_DEAD. intros [H|H]%orb_true_iff.
  - assert (name = 0) as -> by lia. exact (sk_null _ Ok).
  - rewrite get_entry_out by lia. done.
Qed.

Lemma free_entry e : slot_free e = true -> pe_port e = None /\ pe_set e = None /\ pe_dead e = false.
Proof.
  unfold slot_free. intros ([H1 H2]%andb_prop & H3)%andb_prop. apply bool_decide_eq_true in H1, H2.
  by destruct (pe_dead e).
Qed.

Lemma space_lookup_eq s i sp name need :
  w_spaces s !! i = Some sp -> space_ok sp -> ps_capacity sp < 2 ^ 31 -> space_lookup s i name need = Done (lookup_entry (entry_at s i name) need).
Proof.
  intros Hi Ok Hc. unfold space_lookup, entry_at, lookup_entry. rewrite Hi. destruct (reserved_name name) eqn:Er.
  - destruct (free_entry _ (reserved_free sp name Ok Hc Er)) as (-> & _). done.
  - rewrite (get_space_eq _ _ _ Hi), bind_Done. destruct (ps_capacity sp <=? name) eqn:Ec.
    + rewrite get_entry_out by lia. done.
    + by destruct (pe_port (get_entry sp name)).
Qed.

Lemma space_lookup_set_eq s i sp name :
  w_spaces s !! i = Some sp -> space_ok sp -> ps_capacity sp < 2 ^ 31 -> space_lookup_set s i name = Done (pe_set (entry_at s i name)).
Proof.
  intros Hi Ok Hc. unfold space_lookup_set, entry_at. rewrite Hi. destruct (reserved_name name) eqn:Er.
  - destruct (free_entry _ (reserved_free sp name Ok Hc Er)) as (_ & -> & _). done.
  - rewrite (get_space_eq _ _ _ Hi), bind_Done. destruct (ps_capacity sp <=? name) eqn:Ec; [|done].
    rewrite get_entry_out by lia. done.
Qed.

Lemma space_name_is_dead_eq s i sp name :
  w_spaces s !! i = Some sp -> space_ok sp -> ps_capacity sp < 2 ^ 31 -> space_name_is_dead s i name = Done (pe_dead (entry_at s i name)).
Proof.
  intros Hi Ok Hc. unfold space_name_is_dead, entry_at. rewrite Hi. destruct (reserved_name name) eqn:Er.
  - destruct (free_entry _ (reserved_free sp name Ok Hc Er)) as (_ & _ & ->). done.
  - rewrite (get_space_eq _ _ _ Hi), bind_Done. destruct (name <? ps_capacity sp) eqn:Ec; [done|].
    rewrite get_entry_out by lia. done.
Qed.

Lemma used_name s i sp n : w_spaces s !! i = Some sp -> space_ok sp -> 0 <= n -> slot_free (entry_at s i n) = false -> 1 <= n < ps_capacity sp.
Proof.
  intros Hi Ok Hn. unfold entry_at. rewrite Hi. intros Hf. split.
  - destruct (decide (n = 0)) as [->|]; [|lia]. rewrite (sk_null _ Ok) in Hf. done.
  - destruct (decide (n < ps_capacity sp)); [done|]. rewrite get_entry_out in Hf by lia. done.
Qed.

Lemma entry_at_ok s i sp n : w_spaces s !! i = Some sp -> space_ok sp -> entry_ok (entry_at s i n).
Proof.
  intros Hi Ok. unfold entry_at. rewrite Hi. unfold get_entry. destruct (ps_table sp !! Z.to_nat n) eqn:E; [|by split].
  exact (Forall_lookup_1 _ _ _ _ (sk_entries _ Ok) E).
Qed.

(** What an entry names is held by the tables. *)
Lemma entry_in_tables s i n : entry_rights (entry_at s i n) ⊆ tables s.
Proof.
  assert (entry_rights pe_empty ⊆ tables s) as Em by (rewrite (proj1 (free_entry_rights pe_empty eq_refl)); apply gmultiset_empty_subseteq).
  unfold entry_at. destruct (w_spaces s !! i) as [sp|] eqn:Hi; [|exact Em].
  unfold get_entry. destruct (ps_table sp !! Z.to_nat n) as [e|] eqn:He; [|exact Em]. cbn.
  unfold tables. rewrite (gather_map_delete _ (w_spaces s) i sp Hi). pose proof (gather_elem entry_rights _ _ (list_elem_of_lookup_2 _ _ _ He)).
  intros x. rewrite multiplicity_disj_union. pose proof (H x). lia.
Qed.

(** * Rights taken out of a table *)

(** A right kept by the kernel. *)
Lemma keep_inv B E L s R X Y : inv B E L s (R ⊎ X) Y -> inv (R ⊎ B) E L s X Y.
Proof.
  intros I. assert (owners (R ⊎ B) E s X = owners B E s (R ⊎ X)) as Ow by (unfold owners; mult_at x).
  assert (forall x, x ∈ tables s ⊎ B -> x ∈ tables s ⊎ (R ⊎ B)) as Up.
  { intros x Hx. rewrite !gmultiset_elem_of_disj_union in *. tauto. }
  split; rewrite ?Ow; try apply I.
  - intros p po Hp. pose proof (i_pinned _ _ _ _ _ _ I p po Hp) as P. apply (pinned_more B _ p po P).
    intros k. rewrite num_union. pose proof (num_nonneg p k R). lia.
  - intros p po q Hp Hq. destruct (i_member _ _ _ _ _ _ I p po q Hp Hq) as [M D]. split; [by apply Up|exact D].
  - intros p q Hl. destruct (i_leave _ _ _ _ _ _ I p q Hl) as ([A|(k & Hk & A)] & D); (split; [|exact D]); [by left|right; exists k; split; [done|by apply Up]].
Qed.

(** Whether a name may lose these rights to its port: a member of a set
    loses its receive right with its last reference, or something outside
    the messages still names it. *)
Definition losable B s p (r : Z) : Prop :=
  forall po, w_ports s !! p = Some po -> has r MACH_PORT_RIGHT_RECEIVE = true -> p_set po <> None ->
    p_refs po = Z.of_nat (size (rights_of p r)) \/ exists k, real k /\ num p k (rights_of p r) < num p k (tables s ⊎ B).

Lemma size_rights_le p r : (size (rights_of p r) <= 3)%nat.
Proof.
  pose proof (size_rights_of p r). destruct (has r MACH_PORT_RIGHT_RECEIVE), (has r MACH_PORT_RIGHT_SEND), (has r MACH_PORT_RIGHT_SEND_ONCE);
    cbn in *; lia.
Qed.

Lemma taken_inv B s i sp sp' p r X Y :
  inv B ∅ [] s X Y -> w_spaces s !! i = Some sp -> space_ok sp' -> table_rights sp = table_rights sp' ⊎ rights_of p r ->
  inv (rights_of p r ⊎ B) ∅ [] (put_space s i sp') X Y.
Proof.
  intros I Hi Ok Er. apply (put_space_inv B ∅ [] s X Y _ X i sp sp' I Hi Ok); rewrite ?Er.
  - mult_at x.
  - intros x. rewrite multiplicity_disj_union. lia.
  - intros q k _ _. rewrite !num_union. lia.
Qed.

(** The state with the rights taken, as [port_deref] wants it. *)
Record taken B s1 p (r : Z) X Y : Prop := {
  tk_inv : inv (rights_of p r ⊎ B) ∅ [] s1 X Y;
  tk_port po : w_ports s1 !! p = Some po -> pinned B p po /\ anchored B s1 p r po;
  tk_depth : (cost ∅ s1 r p < w_depth s1)%nat;
}.

Lemma take_ok B s i sp sp' p r X Y :
  inv B ∅ [] s X Y -> w_spaces s !! i = Some sp -> space_ok sp' -> table_rights sp = table_rights sp' ⊎ rights_of p r ->
  deep s -> losable B s p r -> taken B (put_space s i sp') p r X Y.
Proof.
  intros I Hi Ok Er Rm Ls. split.
  - by apply (taken_inv B s i sp).
  - intros po Hp. split; [exact (i_pinned _ _ _ _ _ _ I p po Hp)|]. intros Hr Hs.
    destruct (Ls po Hp Hr Hs) as [|(k & Hk & Hn)]; [by left|right]. exists k. split; [done|]. apply num_pos.
    pose proof (f_equal (num p k) (tables_put s i sp sp' Hi)) as T. pose proof (f_equal (num p k) Er) as R. rewrite !num_union in *. lia.
  - unfold cost. pose proof (size_rights_le p r). unfold deep in Rm. change (load ∅ (put_space s i sp')) with (load ∅ s).
    change (w_depth (put_space s i sp')) with (w_depth s). destruct (has r MACH_PORT_RIGHT_RECEIVE); lia.
Qed.

Lemma taken_live B s p r X Y : taken B s p r X Y -> mask_ok r -> exists po, w_ports s !! p = Some po /\ payable po r.
Proof.
  intros [I _ _] Hm. destruct (dropped_port _ _ _ _ _ _ _ _ _ _ I (dropping_base B X p r) Hm) as (po & Hp & _ & Pay). by exists po.
Qed.

Lemma taken_later B s s' p r X Y : taken B s p r X Y -> mask_ok r -> idle (rights_of p r ⊎ B) ∅ [] s s' X Y -> taken B s' p r X Y.
Proof.
  intros T Hm [I Q L]. destruct T as [I0 P0 D0]. split; [exact I| |].
  - intros po' Hp'. destruct (qt_port _ _ _ Q p po' Hp') as (po & Hp & Le). destruct (P0 po Hp) as [Pin An].
    destruct (dropped_port _ _ _ _ _ _ _ _ _ _ I (dropping_base B X p r) Hm) as (po1 & H1 & _ & Pay). assert (po1 = po') as -> by congruence.
    split; [by eapply pinned_lesser|by eapply anchored_later].
  - unfold cost in *. rewrite L, (qt_depth _ _ _ Q). exact D0.
Qed.

(** No message carries a right to the port. *)
Definition grounded s p : Prop := forall k, real k -> num p k (in_transit ∅ s) = 0.

Lemma refs_pins B s X Y p po :
  inv B ∅ [] s X Y -> w_ports s !! p = Some po -> p_refs po = pins p (in_transit ∅ s) + pins p (tables s) + pins p B + pins p X.
Proof.
  intros I Hp. destruct (i_tally _ _ _ _ _ _ I p po Hp) as [_ _ _ T]. rewrite T, !num_owners. unfold pins. lia.
Qed.

Lemma pins_union p M N : pins p (M ⊎ N) = pins p M + pins p N.
Proof. unfold pins. rewrite !num_union. lia. Qed.
Lemma pins_rights_of q p r : pins q (rights_of p r) = if decide (q = p) then Z.of_nat (size (rights_of p r)) else 0.
Proof. unfold pins. rewrite !num_rights_of, size_rights_of. destruct (decide (q = p)); lia. Qed.

Lemma grounded_pins s p : grounded s p <-> pins p (in_transit ∅ s) <= 0.
Proof.
  unfold grounded, pins. pose proof (num_nonneg p RSend (in_transit ∅ s)). pose proof (num_nonneg p ROnce (in_transit ∅ s)).
  pose proof (num_nonneg p RRecv (in_transit ∅ s)). pose proof (num_nonneg p RHold (in_transit ∅ s)). split.
  - intros G. pose proof (G RSend ltac:(done)). pose proof (G ROnce ltac:(done)). pose proof (G RRecv ltac:(done)). pose proof (G RHold ltac:(done)). lia.
  - intros G [] Hk; try done; lia.
Qed.

(** Such a port may lose its receive right. *)
Lemma grounded_losable B s p r : inv B ∅ [] s ∅ ∅ -> grounded s p -> rights_of p r ⊆ tables s -> losable B s p r.
Proof.
  intros I G Hs po Hp _ _. apply grounded_pins in G. pose proof (refs_pins B s ∅ ∅ p po I Hp) as R. change (pins p ∅) with 0 in R.
  assert (forall k, num p k (rights_of p r) <= num p k (tables s ⊎ B)) as Le.
  { intros k. rewrite num_union. pose proof (num_subset p k _ _ Hs). pose proof (num_nonneg p k B). lia. }
  pose proof (pins_rights_of p p r) as Pr. rewrite decide_True in Pr by done. pose proof (pins_union p (tables s) B) as Pu.
  assert (0 <= pins p (in_transit ∅ s)) as P0.
  { unfold pins. pose proof (num_nonneg p RSend (in_transit ∅ s)). pose proof (num_nonneg p ROnce (in_transit ∅ s)).
    pose proof (num_nonneg p RRecv (in_transit ∅ s)). pose proof (num_nonneg p RHold (in_transit ∅ s)). lia. }
  destruct (decide (pins p (rights_of p r) = pins p (tables s ⊎ B))) as [Eq|Ne]; [left; lia|right]. unfold pins in Ne.
  pose proof (Le RSend). pose proof (Le ROnce). pose proof (Le RRecv). pose proof (Le RHold).
  destruct (decide (num p RSend (rights_of p r) < num p RSend (tables s ⊎ B))); [by exists RSend|].
  destruct (decide (num p ROnce (rights_of p r) < num p ROnce (tables s ⊎ B))); [by exists ROnce|].
  destruct (decide (num p RRecv (rights_of p r) < num p RRecv (tables s ⊎ B))); [by exists RRecv|].
  destruct (decide (num p RHold (rights_of p r) < num p RHold (tables s ⊎ B))); [by exists RHold|]. lia.
Qed.

(** Releasing rights puts none to a received port into messages. *)
Lemma quiet_grounded B B' s s' X Y p :
  inv B' ∅ [] s X Y -> inv B ∅ [] s' X Y -> quiet ∅ s s' -> grounded s p -> (p, RRecv) ∈ tables s ->
  (forall po po', w_ports s !! p = Some po -> w_ports s' !! p = Some po' -> lesser po po' -> p_refs po' + pins p B' <= p_refs po + pins p B) -> grounded s' p.
Proof.
  intros I I' Q G Ht Hr. assert (tables s' = tables s) as Et by (unfold tables; by rewrite (qt_spaces _ _ _ Q)).
  destruct (outside_live B ∅ [] s' X Y p RRecv I') as (po' & Hp' & _); [|done|].
  { rewrite Et. apply gmultiset_elem_of_disj_union. by left. }
  destruct (qt_port _ _ _ Q p po' Hp') as (po & Hp & Le). specialize (Hr po po' Hp Hp' Le).
  pose proof (refs_pins _ s X Y p po I Hp). pose proof (refs_pins _ s' X Y p po' I' Hp'). rewrite Et in *. apply grounded_pins in G. apply grounded_pins. lia.
Qed.

(** [port_deref] of rights taken from a table. *)
Definition settles B s (c : res world) X Y : Prop :=
  exists s', c = Done s' /\ inv B ∅ [] s' X Y /\ quiet ∅ s s' /\ (load ∅ s' <= load ∅ s)%nat /\
    forall p, grounded s p -> (p, RRecv) ∈ tables s -> grounded s' p.

Lemma deref_taken_ok B s p r X Y : taken B s p r X Y -> mask_ok r -> settles B s (port_deref s p r) X Y.
Proof.
  intros T Hm. destruct (taken_live B s p r X Y T Hm) as (po & Hp & _). destruct T as [I P D]. destruct (P po Hp) as [Pin An].
  destruct (port_deref_taken B ∅ s X Y p r po I Hm Hp Pin An D) as (s' & E' & I' & Q' & L'). exists s'. split_and!; [done|done|done|done|].
  intros q G Ht. apply (quiet_grounded B _ s s' X Y q I I' Q' G Ht). intros qo qo' Hq Hq' Le. rewrite pins_union, pins_rights_of.
  pose proof (le_refs _ _ Le). destruct (decide (q = p)) as [->|]; [|lia]. assert (qo = po) as -> by congruence.
  destruct (has r MACH_PORT_RIGHT_RECEIVE) eqn:Er.
  - exfalso. pose proof (t_recv _ _ _ (i_tally _ _ _ _ _ _ I p po Hp)) as T. rewrite num_owners, num_union, num_rights_of, decide_True, Er in T by done.
    apply num_pos in Ht. pose proof (num_nonneg p RRecv (in_transit ∅ s)). pose proof (num_nonneg p RRecv B). pose proof (num_nonneg p RRecv X).
    destruct (p_has_receive po); cbn in T; lia.
  - pose proof (port_deref_taken_refs B ∅ s X Y p r po s' qo' I Hm Hp Pin D Er E' Hq'). lia.
Qed.

Lemma notify_send_once_ok B E L s X Y p po r :
  inv B E L s X Y -> w_ports s !! p = Some po -> p ∉ E -> exists s', notify_send_once s p r = Done s' /\ idle B E L s s' X Y.
Proof.
  intros I Hp He. unfold notify_send_once. destruct (has r MACH_PORT_RIGHT_SEND_ONCE).
  - destruct (port_notify_enqueue_ok B E L s X Y p po MACH_NOTIFY_SEND_ONCE 0 I Hp He) as (rv & s' & -> & D). rewrite bind_Done. by exists s'.
  - exists s. split; [done|by apply same_idle].
Qed.

Lemma release_port_ok B s p r X Y :
  taken B s p r X Y -> mask_ok r -> settles B s (s ← notify_send_once s p r; port_deref s p r) X Y.
Proof.
  intros T Hm. destruct (taken_live B s p r X Y T Hm) as (po & Hp & _).
  destruct (notify_send_once_ok _ _ _ _ _ _ p po r (tk_inv _ _ _ _ _ _ T) Hp) as (s1 & E1 & D1); [set_solver|]. rewrite E1, bind_Done.
  destruct (deref_taken_ok B s1 p r X Y (taken_later B s s1 p r X Y T Hm D1) Hm) as (s2 & E2 & I2 & Q2 & L2 & G2). destruct D1 as [I1 Q1 L1].
  exists s2. split_and!; [done|done|by eapply quiet_steps|lia|]. intros q G Ht. apply G2; [|unfold tables; by rewrite (qt_spaces _ _ _ Q1)].
  apply (quiet_grounded _ _ s s1 X Y q (tk_inv _ _ _ _ _ _ T) I1 Q1 G Ht). intros qo qo' _ _ Le. pose proof (le_refs _ _ Le). lia.
Qed.

(** * [space_drop] *)

(** A name given back. *)
Definition dropped (sp : port_space) n : port_space := free_slot (set_entry sp n pe_empty) n.

Lemma dropped_rights sp n : 0 <= n < ps_capacity sp -> table_rights sp = table_rights (dropped sp n) ⊎ entry_rights (get_entry sp n).
Proof.
  intros Hn. change (table_rights (dropped sp n)) with (table_rights (set_entry sp n pe_empty)).
  rewrite (set_entry_rights sp n _ Hn). unfold pe_empty. rewrite entry_rights_none. symmetry. apply gmultiset_disj_union_right_id.
Qed.

Lemma renamed_any s s' i sp n sp' e :
  w_spaces s !! i = Some sp -> w_spaces s' = <[i := sp']> (w_spaces s) -> ps_table sp' = ps_table (set_entry sp n e) ->
  0 <= n < ps_capacity sp -> renamed s s' i n e.
Proof.
  intros Hi Es Et Hn. exists sp, sp'. split_and!; [done|done|]. intros m Hm.
  assert (get_entry sp' m = get_entry (set_entry sp n e) m) as -> by (unfold get_entry; by rewrite Et). destruct (m =? n) eqn:Em.
  - assert (m = n) as -> by lia. by apply entry_set_eq.
  - apply entry_set_ne; lia.
Qed.

Lemma release_entry_ok B s i sp sp' n e :
  inv B ∅ [] s ∅ ∅ -> deep s -> w_spaces s !! i = Some sp -> space_ok sp' -> entry_at s i n = e -> slot_free e = false -> pe_dead e = false ->
  table_rights sp = table_rights sp' ⊎ entry_rights e -> (forall p, pe_port e = Some p -> losable B s p (pe_rights e)) ->
  settles B (put_space s i sp') (release_entry (put_space s i sp') e) ∅ ∅.
Proof.
  intros I Rm Hi Ok He Hf Hd Er Ls. pose proof (entry_at_ok s i sp n Hi (i_space _ _ _ _ _ _ I i sp Hi)) as Eo. rewrite He in Eo.
  unfold release_entry. destruct e as [[p|] [q|] r d]; cbn in Hf, Hd; cbn [pe_port pe_set pe_rights] in *.
  - destruct (eo_port _ Eo p eq_refl) as [H _]. discriminate H.
  - destruct (eo_port _ Eo p eq_refl) as (_ & _ & Hm). cbn in Hm. rewrite entry_rights_port in Er.
    pose proof (take_ok B s i sp sp' p r ∅ ∅ I Hi Ok Er Rm (Ls p eq_refl)) as T.
    destruct (release_port_ok B _ p r ∅ ∅ T Hm) as (s2 & E2 & D2). rewrite E2, bind_Done. by exists s2.
  - rewrite bind_Done. rewrite entry_rights_set in Er.
    assert (inv B ∅ [] (put_space s i sp') ({[+ (q, RSet) +]} ⊎ ∅) ∅) as I1.
    { apply (put_space_inv B ∅ [] s ∅ ∅ B _ i sp sp' I Hi Ok); rewrite ?Er; [mult_at x|done|].
      intros m k Hk _. rewrite !num_union, num_one, decide_False by (by apply real_pair). lia. }
    destruct (port_set_deref_ok B ∅ _ ∅ ∅ q I1) as (s2 & E2 & I2 & Q2 & L2). exists s2. split_and!; [done|done|done|lia|].
    intros p G Ht. assert (inv ({[+ (q, RSet) +]} ⊎ B) ∅ [] (put_space s i sp') ∅ ∅) as I3 by (by apply keep_inv).
    apply (quiet_grounded B _ _ s2 ∅ ∅ p I3 I2 Q2 G Ht). intros po po' _ _ Le. pose proof (le_refs _ _ Le). rewrite pins_union. unfold pins at 1.
    rewrite !num_one, !decide_False by congruence. lia.
  - subst d. discriminate Hf.
Qed.

Lemma sys_put B s s' i sp sp' :
  sys B s -> w_spaces s !! i = Some sp -> inv B ∅ [] s' ∅ ∅ -> w_spaces s' = <[i := sp']> (w_spaces s) ->
  (counted_space sp -> counted_space sp') -> sys B s'.
Proof.
  intros [I C] Hi I' Es Hc. split; [exact I'|]. intros j sj. rewrite Es. destruct (decide (j = i)) as [->|Hn].
  - rewrite lookup_insert_eq. intros [= <-]. apply Hc. by apply (C i).
  - rewrite lookup_insert_ne by done. apply C.
Qed.

Lemma sys_same B s s' : sys B s -> inv B ∅ [] s' ∅ ∅ -> w_spaces s' = w_spaces s -> sys B s'.
Proof. intros [I C] I' Es. split; [exact I'|]. intros j sj. rewrite Es. apply C. Qed.

(** The name goes, and what it named is released. *)
Lemma space_drop_ok B s i sp name :
  sys B s -> roomy s -> w_spaces s !! i = Some sp -> 0 <= name ->
  (forall p, pe_port (entry_at s i name) = Some p -> losable B s p (pe_rights (entry_at s i name))) ->
  exists rv s', space_drop s i name = Done (rv, s') /\ sys B s' /\
    if slot_free (entry_at s i name) then rv <> MACH_MSG_OK /\ s' = s else rv = MACH_MSG_OK /\ renamed s s' i name pe_empty.
Proof.
  intros Sy Rm Hi Hn Ls. pose proof (i_space _ _ _ _ _ _ (sy_inv _ _ Sy) i sp Hi) as Ok. pose proof (rm_cap _ Rm i sp Hi) as Hc.
  pose proof (entry_at_ok s i sp name Hi Ok) as Eo. unfold space_drop. destruct (slot_free (entry_at s i name)) eqn:Ef.
  - destruct (free_entry _ Ef) as (F1 & F2 & F3). destruct (reserved_name name); [by exists MACH_E_INVAL, s|]. exists MACH_E_NAME, s. split; [|done].
    rewrite (get_space_eq _ _ _ Hi), bind_Done. unfold entry_at in F1, F2, F3. rewrite Hi in F1, F2, F3. rewrite F1, F2, F3. by destruct (_ <=? _).
  - pose proof (used_name s i sp name Hi Ok Hn Ef) as Bn. assert (entry_at s i name = get_entry sp name) as Ee by (unfold entry_at; by rewrite Hi).
    rewrite Ee in *. destruct (reserved_name name) eqn:Er; [rewrite (reserved_free sp name Ok Hc Er) in Ef; done|].
    rewrite (get_space_eq _ _ _ Hi), bind_Done. replace (ps_capacity sp <=? name) with false by lia. cbv zeta.
    destruct (empty_slot_ok sp name pe_empty Ok Bn (empty_entry_ok false) Ef eq_refl) as [Ok' Ct']. fold (dropped sp name) in Ok', Ct'.
    pose proof (dropped_rights sp name ltac:(lia)) as Tr.
    assert (forall s', w_spaces s' = w_spaces (put_space s i (dropped sp name)) -> renamed s s' i name pe_empty) as Rn.
    { intros s' Es. apply (renamed_any s s' i sp name (dropped sp name)); [done|done|done|lia]. }
    destruct (pe_dead (get_entry sp name)) eqn:Ed.
    + assert (pe_port (get_entry sp name) = None) as Np.
      { destruct (pe_port (get_entry sp name)) as [p|] eqn:Q; [|done]. destruct (eo_port _ Eo p Q) as (_ & D & _). congruence. }
      assert (pe_set (get_entry sp name) = None) as Ns.
      { destruct (pe_set (get_entry sp name)) as [q|] eqn:Q; [|done]. destruct (eo_set _ Eo q Q) as (_ & D). congruence. }
      rewrite Np, Ns, (eo_none _ Eo Np Ns). fold pe_empty. fold (dropped sp name). eexists _, _. split; [reflexivity|]. split; [|split; [done|by apply Rn]].
      eapply (sys_put B s _ i sp); [exact Sy|exact Hi| |reflexivity|exact Ct'].
      assert (entry_rights (get_entry sp name) = ∅) as En.
      { unfold entry_rights. rewrite Np, Ns. apply gmultiset_disj_union_left_id. }
      rewrite En, gmultiset_disj_union_right_id in Tr.
      apply (put_space_inv B ∅ [] s ∅ ∅ B ∅ i sp _ (sy_inv _ _ Sy) Hi Ok'); rewrite <- ?Tr; done.
    + destruct (bool_decide (pe_port (get_entry sp name) = None) && bool_decide (pe_set (get_entry sp name) = None)) eqn:Eb.
      { unfold slot_free in Ef. rewrite Eb, Ed in Ef. discriminate Ef. }
      destruct (release_entry_ok B s i sp _ name (get_entry sp name) (sy_inv _ _ Sy) (rm_depth _ Rm) Hi Ok' Ee Ef Ed Tr Ls) as (s2 & E2 & I2 & Q2 & _).
      fold pe_empty. fold (dropped sp name). rewrite E2, bind_Done. eexists _, _. split; [reflexivity|].
      split; [|split; [done|apply Rn; exact (qt_spaces _ _ _ Q2)]].
      eapply (sys_put B s _ i sp); [exact Sy|exact Hi|exact I2|exact (qt_spaces _ _ _ Q2)|exact Ct'].
Qed.

(** * One right of a name *)

Lemma mask_split e r : mask_ok e -> 0 < r -> Z.land r e = r ->
  mask_ok r /\ has e r = true /\ 0 <= Z.ldiff e r < 8 /\ forall p, rights_of p e = rights_of p (Z.ldiff e r) ⊎ rights_of p r.
Proof.
  intros He Hr Hs. unfold mask_ok in *. assert (e = 1 \/ e = 2 \/ e = 3 \/ e = 4 \/ e = 5 \/ e = 6 \/ e = 7) as De by lia.
  assert (r < 8) as Hle.
  { assert (Z.land e 7 = e) as E7 by (destruct De as [->|[->|[->|[->|[->|[->| ->]]]]]]; reflexivity).
    rewrite <- Hs, <- E7, Z.land_assoc. change 7 with (Z.ones 3). rewrite Z.land_ones by lia. apply Z.mod_pos_bound. lia. }
  assert (r = 1 \/ r = 2 \/ r = 3 \/ r = 4 \/ r = 5 \/ r = 6 \/ r = 7) as Dr by lia.
  split; [lia|]. assert (has e r = true /\ 0 <= Z.ldiff e r < 8 /\ forall b, b = 1 \/ b = 2 \/ b = 4 -> Z.b2z (has e b) = Z.b2z (has (Z.ldiff e r) b) + Z.b2z (has r b)) as (H1 & H2 & H3).
  { destruct De as [->|[->|[->|[->|[->|[->| ->]]]]]], Dr as [->|[->|[->|[->|[->|[->| ->]]]]]]; try discriminate Hs;
      (split; [reflexivity|split; [split; [discriminate|reflexivity]|]]); intros b [->|[->| ->]]; reflexivity. }
  split; [done|]. split; [done|]. intros p. apply num_ext. intros q k. rewrite num_union, !num_rights_of.
  destruct (decide (q = p)); [|done]. destruct k; try done; apply H3; auto.
Qed.

(** What is left of an entry that lost a right. *)
Definition without (p e r : Z) : port_entry := if Z.ldiff e r =? 0 then pe_empty else mkPe (Some p) None (Z.ldiff e r) false.
Definition without_right (sp : port_space) (name p e r : Z) : port_space :=
  if Z.ldiff e r =? 0 then dropped sp name else set_entry sp name (without p e r).

Lemma take_right_ok s i sp name p e r :
  w_spaces s !! i = Some sp -> space_ok sp -> ps_capacity sp < 2 ^ 31 -> 0 <= name -> entry_at s i name = mkPe (Some p) None e false ->
  0 < r -> Z.land r e = r ->
  take_right s i name r = Done (MACH_MSG_OK, Some p, put_space s i (without_right sp name p e r)) /\
  space_ok (without_right sp name p e r) /\ (counted_space sp -> counted_space (without_right sp name p e r)) /\
  table_rights sp = table_rights (without_right sp name p e r) ⊎ rights_of p r /\
  renamed s (put_space s i (without_right sp name p e r)) i name (without p e r).
Proof.
  intros Hi Ok Hc Hn He Hr Hs. pose proof (entry_at_ok s i sp name Hi Ok) as Eo. rewrite He in Eo. destruct (eo_port _ Eo p eq_refl) as (_ & _ & Hm). cbn in Hm.
  assert (slot_free (entry_at s i name) = false) as Ef by by rewrite He. pose proof (used_name s i sp name Hi Ok Hn Ef) as Bn.
  assert (get_entry sp name = mkPe (Some p) None e false) as Ge by (unfold entry_at in He; by rewrite Hi in He).
  destruct (mask_split e r Hm Hr Hs) as (Mr & Hhas & Bd & Sp). unfold take_right.
  destruct (reserved_name name) eqn:Er; [pose proof (reserved_free sp name Ok Hc Er) as Fr; by rewrite Ge in Fr|].
  rewrite (get_space_eq _ _ _ Hi), bind_Done. replace (ps_capacity sp <=? name) with false by lia. cbv zeta. rewrite Ge. cbn [pe_port pe_rights pe_set pe_dead].
  rewrite Hhas. cbn [negb]. unfold without_right, without. pose proof (set_entry_rights sp name) as Se. rewrite Ge, entry_rights_port, (Sp p) in Se.
  destruct (Z.ldiff e r =? 0) eqn:Ez.
  - split; [done|]. rewrite <- Ge in *. unfold entry_at in Ef. rewrite Hi in Ef. destruct (empty_slot_ok sp name pe_empty Ok Bn (empty_entry_ok false) Ef eq_refl) as [Ok' Ct'].
    split; [exact Ok'|]. split; [exact Ct'|]. split; [|apply (renamed_any s _ i sp name (dropped sp name)); [done|done|done|lia]].
    rewrite (dropped_rights sp name) at 1 by lia. rewrite Ge, entry_rights_port, (Sp p). assert (Z.ldiff e r = 0) as -> by lia.
    change (rights_of p 0) with (∅ ⊎ (∅ ⊎ ∅) : rights). mult_at x.
  - split; [done|]. assert (mask_ok (Z.ldiff e r)) as Md by (unfold mask_ok; lia). 
    destruct (set_entry_ok sp name (mkPe (Some p) None (Z.ldiff e r) false) Ok Bn (port_entry_ok _ _ Md)) as [Ok' Ct']; [by rewrite Ge|].
    split; [exact Ok'|]. split; [exact Ct'|]. split; [|apply renamed_set; [done|lia]].
    specialize (Se (mkPe (Some p) None (Z.ldiff e r) false) ltac:(lia)). rewrite entry_rights_port in Se.
    apply num_ext. intros q k. pose proof (f_equal (num q k) Se) as N. rewrite !num_union in *. lia.
Qed.

Lemma drop_one_right_ok B s X Y i sp name p e r :
  inv B ∅ [] s X Y -> deep s -> w_spaces s !! i = Some sp -> ps_capacity sp < 2 ^ 31 -> 0 <= name -> entry_at s i name = mkPe (Some p) None e false ->
  0 < r -> Z.land r e = r -> losable B s p r ->
  exists s', space_drop_one_right s i name r = Done (MACH_MSG_OK, s') /\ inv B ∅ [] s' X Y /\ renamed s s' i name (without p e r) /\
    quiet ∅ (put_space s i (without_right sp name p e r)) s' /\ (load ∅ s' <= load ∅ s)%nat.
Proof.
  intros I Dp Hi Hc Hn He Hr Hs Ls. pose proof (i_space _ _ _ _ _ _ I i sp Hi) as Ok.
  destruct (take_right_ok s i sp name p e r Hi Ok Hc Hn He Hr Hs) as (Et & Ok' & _ & Tr & sp0 & sp1 & H0 & H1 & H2).
  unfold space_drop_one_right. rewrite Et, bind_Done. pose proof (entry_at_ok s i sp name Hi Ok) as Eo. rewrite He in Eo.
  destruct (eo_port _ Eo p eq_refl) as (_ & _ & Hm). destruct (mask_split e r Hm Hr Hs) as (Mr & _).
  pose proof (take_ok B s i sp _ p r X Y I Hi Ok' Tr Dp Ls) as T.
  destruct (deref_taken_ok B _ p r X Y T Mr) as (s2 & E2 & I2 & Q2 & L2 & _). rewrite E2, bind_Done. exists s2. split_and!; [done|done| |done|exact L2].
  exists sp0, sp1. split_and!; [done| |done]. rewrite (qt_spaces _ _ _ Q2). exact H1.
Qed.

Lemma space_drop_one_right_ok B s i sp name p e r :
  sys B s -> roomy s -> w_spaces s !! i = Some sp -> 0 <= name -> entry_at s i name = mkPe (Some p) None e false ->
  0 < r -> Z.land r e = r -> losable B s p r ->
  exists s', space_drop_one_right s i name r = Done (MACH_MSG_OK, s') /\ sys B s' /\ renamed s s' i name (without p e r).
Proof.
  intros Sy Rm Hi Hn He Hr Hs Ls. pose proof (sy_inv _ _ Sy) as I. pose proof (rm_cap _ Rm i sp Hi) as Hc.
  destruct (drop_one_right_ok B s ∅ ∅ i sp name p e r I (rm_depth _ Rm) Hi Hc Hn He Hr Hs Ls) as (s' & E' & I' & Rn & Q & _).
  exists s'. split_and!; [done| |done]. eapply (sys_put B s _ i sp); [exact Sy|exact Hi|exact I'|exact (qt_spaces _ _ _ Q)|].
  by apply (take_right_ok s i sp name p e r Hi (i_space _ _ _ _ _ _ I i sp Hi) Hc Hn He Hr Hs).
Qed.

(** A right that is not there: the name is refused. *)
Lemma take_right_refused s i sp name r :
  w_spaces s !! i = Some sp -> space_ok sp -> ps_capacity sp < 2 ^ 31 ->
  (pe_port (entry_at s i name) = None \/ has (pe_rights (entry_at s i name)) r = false) ->
  exists rv, rv <> MACH_MSG_OK /\ take_right s i name r = Done (rv, None, s).
Proof.
  intros Hi Ok Hc H. unfold take_right. destruct (reserved_name name); [by exists MACH_E_INVAL|]. exists MACH_E_NAME. split; [done|].
  rewrite (get_space_eq _ _ _ Hi), bind_Done. destruct (_ <=? _); [done|]. cbv zeta. unfold entry_at in H. rewrite Hi in H.
  destruct H as [H|H]; rewrite H; [done|]. by destruct (pe_port _).
Qed.

(** * Making ports *)

Definition born (special arg : Z) : port := with_special newborn special arg.

Lemma born_ok special arg : port_ok (born special arg).
Proof. split; cbn; try done; constructor. Qed.
Lemma born_empty special arg r : port_rights (reffed (born special arg) r) = ∅ /\ port_frames (reffed (born special arg) r) = ∅.
Proof. split; [|done]. change (∅ ⊎ (∅ ⊎ (∅ ⊎ ∅)) = (∅ : rights)). mult_at x. Qed.
Lemma born_tally special arg p r : tally (rights_of p r) p (reffed (born special arg) r).
Proof.
  split; rewrite !num_rights_of, !decide_True by done; cbn; [done|done|by destruct (has r MACH_PORT_RIGHT_RECEIVE)|lia].
Qed.
Lemma born_countable special arg : countable_port (born special arg).
Proof. by split_and!. Qed.

Lemma rights_of_none p : rights_of p 0 = ∅.
Proof. change (rights_of p 0) with (∅ ⊎ (∅ ⊎ ∅) : rights). mult_at x. Qed.

(** What [port_create] returns: the number is new. *)
Inductive created s : option Z -> world -> Prop :=
| created_none h : created s None (upd_heap s h)
| created_port h s0 p : s0 = upd_port_id (upd_heap s h) (p + 1) -> p = w_next_port_id s -> created s (Some p) (put_port s0 p newborn).

Lemma port_create_ok s : exists o s', port_create s = (o, s') /\ created s o s'.
Proof.
  unfold port_create, w_kmalloc. destruct (kmalloc_ok (w_heap s)) as [[] h]; cbn [negb]; (eexists _, _; split; [reflexivity|]).
  - by eapply created_port.
  - apply created_none.
Qed.

Lemma start_inv B E L s X Y h p :
  inv B E L s X Y -> p = w_next_port_id s -> let s0 := upd_port_id (upd_heap s h) (p + 1) in inv B E L s0 X Y /\ unused B E s0 X p.
Proof.
  intros I -> s0. assert (inv B E L (upd_heap s h) X Y) as I1 by by apply (same_inv _ _ _ s). split.
  - apply port_id_inv; [done|]. cbn. lia.
  - by apply (next_unused B E L (upd_heap s h) X Y).
Qed.

Lemma born_inv B E L s X Y p special arg :
  inv B E L s X Y -> unused B E s X p -> inv B ({[p]} ∪ E) L (put_port s p (born special arg)) X Y.
Proof.
  intros I U. pose proof (birth_inv B E L s X Y p (born special arg) 0 I U) as Q. rewrite rights_of_none, gmultiset_disj_union_left_id in Q.
  destruct (born_empty special arg 0) as [R F]. apply Q; [exact R|exact F|apply born_ok|done|done|done|exact (born_tally special arg p 0)].
Qed.

Lemma born_reffed_inv B E L s X Y p special arg r :
  inv B E L s X Y -> unused B E s X p -> mask_ok r ->
  inv B E L (put_port (put_port s p (born special arg)) p (reffed (born special arg) r)) (rights_of p r ⊎ X) Y.
Proof.
  intros I U Hm. destruct (born_empty special arg r) as [R F].
  assert (shut E p (reffed (born special arg) r) = E) as Es.
  { unfold shut. destruct (p_refs (reffed (born special arg) r) =? 0) eqn:Ez; [|done]. exfalso. pose proof (mask_some r Hm) as Ms. unfold reffed in Ez. cbn in Ez.
    destruct (has r MACH_PORT_RIGHT_RECEIVE), (has r MACH_PORT_RIGHT_SEND), (has r MACH_PORT_RIGHT_SEND_ONCE); cbn in *; lia. }
  assert (put_port (put_port s p (born special arg)) p (reffed (born special arg) r) = put_port s p (reffed (born special arg) r)) as ->.
  { unfold put_port, upd_ports. cbn. by rewrite insert_insert_eq. }
  rewrite <- Es at 1. apply (birth_inv B E L s X Y p _ r I U R F); [apply reffed_ok, born_ok|done|done|done|apply born_tally].
Qed.

(** A port nobody got a name for is freed. *)
Lemma free_born_ok B E L s X Y p special arg h :
  inv B E L s X Y -> unused B E s X p -> p ∉ L.*1 -> (2 * load E s + 1 < w_depth s)%nat ->
  exists s', port_free (port_deref_n (w_depth s)) (upd_heap (put_port s p (born special arg)) h) p = Done s' /\ inv B E L s' X Y /\
    w_spaces s' = w_spaces s /\ w_depth s' = w_depth s /\ (load E s' <= load E s)%nat.
Proof.
  intros I U Hl Hd. pose proof (born_inv B E L s X Y p special arg I U) as I1.
  assert (inv B ({[p]} ∪ E) L (upd_heap (put_port s p (born special arg)) h) X Y) as I2 by by apply (same_inv _ _ _ (put_port s p (born special arg))).
  assert (port_rights (born special arg) = ∅) as R by exact (proj1 (born_empty special arg 0)).
  assert (port_frames (born special arg) = ∅) as F by done.
  assert (size (port_rights (born special arg)) = 0%nat) as Sz by (rewrite R; apply gmultiset_size_empty).
  assert (load ({[p]} ∪ E) (upd_heap (put_port s p (born special arg)) h) = load E s) as Ld.
  { unfold load, in_transit. cbn [upd_heap put_port upd_ports w_ports].
    assert ({[p]} ∪ E = shut E p (born special arg)) as -> by done. rewrite birth_stored; [done|apply U|exact R|apply U]. }
  destruct (port_free_ok _ _ (port_deref_n_serves (w_depth s)) B E L (upd_heap (put_port s p (born special arg)) h) X Y p (born special arg)) as (s' & E' & I' & Q' & L').
  - rewrite R, F, !gmultiset_disj_union_left_id. exact I2.
  - apply lookup_insert_eq.
  - done.
  - apply U.
  - done.
  - rewrite Ld, Sz. lia.
  - exists s'. rewrite Ld, Sz in L'. split_and!; [exact E'|exact I'|exact (qt_spaces _ _ _ Q')|exact (qt_depth _ _ _ Q')|lia].
Qed.

Lemma allocate_mask r : 0 <= r -> ((r =? 0) || negb (Z.land r (Z.lnot 7) =? 0)) = false <-> mask_ok r.
Proof.
  intros Hr. unfold mask_ok. change (Z.land r (Z.lnot 7)) with (Z.ldiff r (Z.ones 3)).
  rewrite Z.ldiff_ones_r, Z.shiftl_mul_pow2, Z.shiftr_div_pow2 by lia. change (2 ^ 3) with 8.
  pose proof (Z.mod_pos_bound r 8 ltac:(lia)). pose proof (Z.div_mod r 8 ltac:(lia)). split; [lia|]. intros H1. rewrite Z.div_small by lia. lia.
Qed.

(** The name is new and stands for a new port with exactly these rights. *)
Lemma port_allocate_ok B s i sp r :
  sys B s -> roomy s -> w_spaces s !! i = Some sp -> mask_ok r ->
  exists n s', port_allocate s i r = Done (n, s') /\ sys B s' /\
    (n = MACH_PORT_NULL /\ w_spaces s' = w_spaces s \/
     1 <= n /\ slot_free (entry_at s i n) = true /\ renamed s s' i n (mkPe (Some (w_next_port_id s)) None r false) /\
     w_ports s' = <[w_next_port_id s := reffed newborn r]> (w_ports s) /\ w_sets s' = w_sets s /\ w_depth s' = w_depth s /\
     exists sp', w_spaces s' = <[i := sp']> (w_spaces s) /\ placed sp sp' n).
Proof.
  intros Sy Rm Hi Hm. pose proof (sy_inv _ _ Sy) as I. pose proof (i_space _ _ _ _ _ _ I i sp Hi) as Ok. pose proof (rm_cap _ Rm i sp Hi) as Hc.
  unfold port_allocate. rewrite (proj2 (allocate_mask r ltac:(unfold mask_ok in Hm; lia)) Hm).
  destruct (port_create_ok s) as (o & s1 & -> & D). destruct D as [h|h s0 p E0 Ep].
  { eexists _, _. split; [reflexivity|]. split; [|by left]. apply (sys_same B s); [done| |done]. by apply (same_inv _ _ _ s). }
  destruct (start_inv B ∅ [] s ∅ ∅ h p I Ep) as [I0 U]. rewrite <- E0 in I0, U.
  pose proof (born_reffed_inv B ∅ [] s0 ∅ ∅ p PORT_SPECIAL_NONE 0 r I0 U Hm) as I1. change (born PORT_SPECIAL_NONE 0) with newborn in I1.
  destruct (space_install_ok B ∅ [] (put_port s0 p newborn) ∅ ∅ i sp p newborn r) as (rv & n & s' & Es & G);
    [by rewrite E0|done|done|done|apply lookup_insert_eq|exact (born_countable PORT_SPECIAL_NONE 0)|done|exact I1|]. rewrite Es, bind_Done.
  destruct G as [h' n sp1 s' Hn Hf Rn I' Ct|h']; cbn [Z.eqb negb].
  - eexists _, _. split; [reflexivity|]. split; [|right; split_and!; [done| | | |subst s'; by rewrite E0|subst s'; by rewrite E0|exists sp1; split; [subst s'; by rewrite E0|apply Ct; by rewrite E0]]].
    + apply (sys_put B s s' i sp sp1); [exact Sy|exact Hi|exact I'|subst s'; by rewrite E0|]. apply Ct. by rewrite E0.
    + by rewrite E0 in Hf.
    + rewrite E0 in Rn. by rewrite <- Ep.
    + subst s'. rewrite E0, <- Ep. cbn. by rewrite insert_insert_eq.
  - destruct (free_born_ok B ∅ [] s0 ∅ ∅ p PORT_SPECIAL_NONE 0 h' I0 U) as (s2 & E2 & I2 & W2 & _).
    { apply not_elem_of_nil. }
    { rewrite E0. pose proof (rm_depth _ Rm) as Dp. unfold deep in Dp. change (load ∅ (upd_port_id (upd_heap s h) (p + 1))) with (load ∅ s). cbn. lia. }
    change (w_depth (upd_heap (put_port s0 p newborn) h')) with (w_depth s0). change (born PORT_SPECIAL_NONE 0) with newborn in E2. rewrite E2, bind_Done.
    eexists _, _. split; [reflexivity|]. rewrite E0 in W2. split; [|by left]. by apply (sys_same B s).
Qed.

(** * What a name leads to *)

Lemma lookup_entry_some e need p r : lookup_entry e need = Some (p, r) -> pe_port e = Some p /\ pe_rights e = r /\ Z.land r need = need.
Proof. unfold lookup_entry. destruct (pe_port e); [|done]. destruct (_ =? _) eqn:El; [|done]. intros [= -> <-]. split_and!; [done|done|lia]. Qed.

Lemma found_entry B s X Y i sp name p r need :
  inv B ∅ [] s X Y -> w_spaces s !! i = Some sp -> lookup_entry (entry_at s i name) need = Some (p, r) ->
  entry_at s i name = mkPe (Some p) None r false /\ mask_ok r /\ Z.land r need = need.
Proof.
  intros I Hi (H1 & H2 & H3)%lookup_entry_some. pose proof (entry_at_ok s i sp name Hi (i_space _ _ _ _ _ _ I i sp Hi)) as Eo.
  destruct (eo_port _ Eo p H1) as (D1 & D2 & D3). destruct (entry_at s i name) as [a b c d]. cbn in *. by subst.
Qed.

Lemma has_land r bit : 0 < bit -> Z.land r bit = bit -> has r bit = true.
Proof. intros Hb H. unfold has. rewrite H. lia. Qed.

Lemma found_right B s X Y i sp name p r need k :
  inv B ∅ [] s X Y -> w_spaces s !! i = Some sp -> lookup_entry (entry_at s i name) need = Some (p, r) ->
  (need, k) ∈ [(MACH_PORT_RIGHT_RECEIVE, RRecv); (MACH_PORT_RIGHT_SEND, RSend); (MACH_PORT_RIGHT_SEND_ONCE, ROnce)] ->
  (p, k) ∈ tables s /\ exists po, w_ports s !! p = Some po /\ (k = RRecv -> p_has_receive po = true).
Proof.
  intros I Hi Hl Hk. destruct (found_entry B s X Y i sp name p r need I Hi Hl) as (He & Hm & Hr).
  assert ((p, k) ∈ tables s) as Ht.
  { apply num_pos. pose proof (num_subset p k _ _ (entry_in_tables s i name)) as Q. rewrite He, entry_rights_port, num_rights_of, decide_True in Q by done.
    repeat (apply elem_of_cons in Hk as [[= -> ->]|Hk]; [rewrite (has_land r) in Q by done; cbn in Q; lia|]). by apply not_elem_of_nil in Hk. }
  split; [done|]. assert (real k) as Ks.
  { repeat (apply elem_of_cons in Hk as [[= -> ->]|Hk]; [done|]). by apply not_elem_of_nil in Hk. }
  destruct (outside_live B ∅ [] s X Y p k I) as (po & Hp & _); [apply gmultiset_elem_of_disj_union; by left|done|]. exists po. split; [done|].
  intros ->. pose proof (t_recv _ _ _ (i_tally _ _ _ _ _ _ I p po Hp)) as T. rewrite num_owners in T. apply num_pos in Ht.
  pose proof (num_nonneg p RRecv (in_transit ∅ s)). pose proof (num_nonneg p RRecv B). pose proof (num_nonneg p RRecv X).
  destruct (p_has_receive po); [done|cbn in T; lia].
Qed.

Lemma found_set B s i sp name q :
  inv B ∅ [] s ∅ ∅ -> w_spaces s !! i = Some sp -> pe_set (entry_at s i name) = Some q -> exists st, w_sets s !! q = Some st.
Proof.
  intros I Hi Hq. apply (i_setlive _ _ _ _ _ _ I q). apply num_pos. pose proof (num_subset q RSet _ _ (entry_in_tables s i name)) as Q.
  pose proof (entry_at_ok s i sp name Hi (i_space _ _ _ _ _ _ I i sp Hi)) as Eo. destruct (eo_set _ Eo q Hq) as [Np Nd].
  unfold entry_rights in Q. rewrite Np, Hq in Q. cbn [from_option] in Q. rewrite num_union, num_empty, num_one, decide_True in Q by done. rewrite num_owners.
  pose proof (num_nonneg q RSet (in_transit ∅ s)). pose proof (num_nonneg q RSet B). pose proof (num_nonneg q RSet ∅). lia.
Qed.

(** * Sets *)

Lemma space_install_set_ok B s s1 i sp q st :
  w_spaces s !! i = Some sp -> space_ok sp -> ps_capacity sp < 2 ^ 31 -> w_sets s !! q = Some st -> ps_refs st < 2 ^ 32 - 1 ->
  inv B ∅ [] s ∅ ∅ -> w_spaces s1 = w_spaces s -> sys B s1 ->
  exists rv n s', space_install_set s i q = Done (rv, n, s') /\
    (rv = MACH_MSG_OK /\ sys B s' /\ 1 <= n /\ slot_free (entry_at s i n) = true /\ renamed s s' i n (mkPe None (Some q) MACH_PORT_RIGHT_PORT_SET false) /\
       w_ports s' = w_ports s \/
     rv = MACH_E_NOMEM /\ exists h, s' = upd_heap s h).
Proof.
  intros Hi Ok Hc Hq Hr I E1 Sy. unfold space_install_set.
  destruct (install_entry_ok s i sp None (Some q) MACH_PORT_RIGHT_PORT_SET Hi Ok Hc) as (rv & n & s' & Ei & D); [by split; cbn; [|intros ? [= <-]|]|done|].
  rewrite Ei, bind_Done. destruct D as [h n sp1 Hn Hf Rn Er Ok1 C1|h]; cbn [Z.eqb negb]; [|eexists _, _, _; split; [reflexivity|right; by eauto]].
  destruct (port_set_ref_ok B ∅ [] s ∅ ∅ q st I Hq Hr) as (st' & E2 & I2).
  assert (port_set_ref (put_space (upd_heap s h) i sp1) q = Done (put_set (put_space (upd_heap s h) i sp1) q st')) as ->.
  { unfold port_set_ref, get_set in *. cbn [put_space upd_spaces upd_heap w_sets] in *. rewrite Hq in *. rewrite !bind_Done in *. injection E2 as E2.
    assert (st' = mkPset (w32 (ps_refs st + 1)) (ps_dead st) (ps_member_count st) (ps_members st) (ps_waiters st)) as ->; [|done].
    apply (f_equal (fun m => m !! q)) in E2. cbn in E2. rewrite !lookup_insert_eq in E2. by injection E2. }
  rewrite bind_Done. eexists _, _, _. split; [reflexivity|]. left. split_and!; [done| |done|done|exact Rn|done].
  apply (sys_put B s1 _ i sp sp1); [done|by rewrite E1| |by rewrite E1|by apply C1].
  assert (w_spaces (put_set s q st') !! i = Some sp) as Hi' by exact Hi.
  apply (installed_inv B ∅ [] (put_set s q st') ∅ ∅ i None (Some q) MACH_PORT_RIGHT_PORT_SET h sp sp1 Hi'); [by rewrite entry_rights_set|done|by apply Er].
Qed.

Lemma port_set_allocate_ok B s i sp :
  sys B s -> roomy s -> w_spaces s !! i = Some sp ->
  exists n s', port_set_allocate s i = Done (n, s') /\ sys B s' /\ w_ports s' = w_ports s /\
    (n = MACH_PORT_NULL /\ w_spaces s' = w_spaces s \/
     1 <= n /\ slot_free (entry_at s i n) = true /\ renamed s s' i n (mkPe None (Some (w_next_port_id s)) MACH_PORT_RIGHT_PORT_SET false)).
Proof.
  intros Sy Rm Hi. pose proof (sy_inv _ _ Sy) as I. pose proof (i_space _ _ _ _ _ _ I i sp Hi) as Ok. pose proof (rm_cap _ Rm i sp Hi) as Hc.
  unfold port_set_allocate, port_set_create, w_kmalloc. destruct (kmalloc_ok (w_heap s)) as [[] h]; cbn [negb].
  2: { eexists _, _. split; [reflexivity|]. split; [|by split; [|left]]. apply (sys_same B s); [done| |done]. by apply (same_inv _ _ _ s). }
  change (w_next_port_id (upd_heap s h)) with (w_next_port_id s). set (q := w_next_port_id s).
  destruct (start_inv B ∅ [] s ∅ ∅ h q I eq_refl) as [I0 U]. set (s0 := upd_port_id (upd_heap s h) (q + 1)) in *.
  pose proof (new_set_inv B ∅ [] s0 ∅ ∅ q I0 U) as I1. set (s1 := put_set s0 q (mkPset 0 false 0 [] [])) in *.
  assert (w_sets s1 !! q = Some (mkPset 0 false 0 [] [])) as Hq by apply lookup_insert_eq.
  destruct (space_install_set_ok B s1 s i sp q _ Hi Ok Hc Hq ltac:(cbn; lia) I1 eq_refl Sy) as (rv & n & s' & Es & [(-> & Sy' & Hn & Hf & Rn & Ep)|(-> & h' & ->)]);
    rewrite Es, bind_Done; cbn [Z.eqb negb].
  - eexists _, _. split; [reflexivity|]. split; [exact Sy'|]. split; [exact Ep|]. right. split_and!; [done|exact Hf|exact Rn].
  - unfold port_set_free. rewrite (get_set_eq (upd_heap s1 h') q _ Hq), bind_Done, KASSERT_true, KASSERT_true by done.
    eexists _, _. split; [reflexivity|]. split; [|by split; [|left]]. apply (sys_same B s); [done| |done].
    apply (same_inv _ _ _ s0); try done. cbn. apply delete_insert_id. apply U.
Qed.

Lemma set_and_port_ok B s i sp set_name port_name :
  inv B ∅ [] s ∅ ∅ -> w_spaces s !! i = Some sp -> ps_capacity sp < 2 ^ 31 ->
  set_and_port s i set_name port_name = Done (inl MACH_E_NAME) \/ set_and_port s i set_name port_name = Done (inl MACH_E_RIGHT) \/
  exists q st p po, set_and_port s i set_name port_name = Done (inr (q, p)) /\ w_sets s !! q = Some st /\ w_ports s !! p = Some po /\ (p, RRecv) ∈ tables s /\
    pe_set (entry_at s i set_name) = Some q /\ pe_port (entry_at s i port_name) = Some p.
Proof.
  intros I Hi Hc. pose proof (i_space _ _ _ _ _ _ I i sp Hi) as Ok. unfold set_and_port. rewrite (space_lookup_set_eq s i sp) by done. rewrite bind_Done.
  destruct (pe_set (entry_at s i set_name)) as [q|] eqn:Eq; [|by left]. rewrite (space_lookup_eq s i sp) by done. rewrite bind_Done.
  destruct (lookup_entry (entry_at s i port_name) MACH_PORT_RIGHT_RECEIVE) as [[p r]|] eqn:El; [|by right; left]. right. right.
  destruct (found_set B s i sp set_name q I Hi Eq) as [st Hst].
  destruct (found_right B s ∅ ∅ i sp port_name p r _ RRecv I Hi El) as (Ht & po & Hp & _); [by left|].
  destruct (lookup_entry_some _ _ _ _ El) as (Ep & _). by exists q, st, p, po.
Qed.

Lemma elem_union_l {A} `{Countable A} (x : A) (M N : gmultiset A) : x ∈ M -> x ∈ M ⊎ N.
Proof. intros Hx. apply gmultiset_elem_of_disj_union. by left. Qed.

(** A port joins a set it can be received from, once. *)
Lemma port_set_insert_ok B s i sp set_name port_name :
  sys B s -> roomy s -> w_spaces s !! i = Some sp ->
  exists rv s', port_set_insert s i set_name port_name = Done (rv, s') /\ sys B s' /\ w_spaces s' = w_spaces s /\
    (rv <> MACH_MSG_OK /\ s' = s \/
     rv = MACH_MSG_OK /\ exists q p st po, pe_set (entry_at s i set_name) = Some q /\ pe_port (entry_at s i port_name) = Some p /\
       w_ports s !! p = Some po /\ p_set po = None /\ w_ports s' = <[p := with_set po (Some q)]> (w_ports s) /\
       w_sets s !! q = Some st /\ w_sets s' = <[q := with_member st p]> (w_sets s)).
Proof.
  intros Sy Rm Hi. pose proof (sy_inv _ _ Sy) as I. unfold port_set_insert.
  destruct (set_and_port_ok B s i sp set_name port_name I Hi (rm_cap _ Rm i sp Hi)) as [->|[->|(q & st & p & po & -> & Hq & Hp & Ht & Eq & Ep)]];
    rewrite bind_Done; [eexists _, _; split; [reflexivity|]; split_and!; [done|done|by left]..|].
  rewrite (get_port_eq _ _ _ Hp), bind_Done. destruct (p_set po) as [q0|] eqn:Es.
  - eexists _, _. split; [reflexivity|]. split_and!; [done|done|by left].
  - rewrite (get_set_eq _ q st) by done. rewrite bind_Done. eexists _, _. split; [reflexivity|].
    split_and!; [|done|right; split; [done|by exists q, p, st, po]].
    apply (sys_same B s); [done| |done]. fold (with_member st p). by apply insert_member_inv; [| | |apply elem_union_l|].
Qed.

Lemma port_set_remove_ok B s i sp set_name port_name :
  sys B s -> roomy s -> w_spaces s !! i = Some sp ->
  exists rv s', port_set_remove s i set_name port_name = Done (rv, s') /\ sys B s' /\ w_spaces s' = w_spaces s /\
    (rv <> MACH_MSG_OK /\ s' = s \/
     rv = MACH_MSG_OK /\ exists q p po, pe_set (entry_at s i set_name) = Some q /\ pe_port (entry_at s i port_name) = Some p /\
       w_ports s !! p = Some po /\ p_set po = Some q /\ w_ports s' = <[p := with_set po None]> (w_ports s)).
Proof.
  intros Sy Rm Hi. pose proof (sy_inv _ _ Sy) as I. unfold port_set_remove.
  destruct (set_and_port_ok B s i sp set_name port_name I Hi (rm_cap _ Rm i sp Hi)) as [->|[->|(q & st & p & po & -> & Hq & Hp & Ht & Eq & Ep)]];
    rewrite bind_Done; [eexists _, _; split; [reflexivity|]; split_and!; [done|done|by left]..|].
  rewrite (set_unlink_eq B ∅ s ∅ ∅ p q st I Hq), bind_Done. case_bool_decide as Hin; cbn [negb].
  - rewrite (get_port_eq _ p po) by done. rewrite bind_Done. eexists _, _. split; [reflexivity|].
    destruct (remove_member_inv B ∅ s ∅ ∅ p po q st I Hp Hq Hin) as [I' Es].
    split_and!; [|done|right; split; [done|by exists q, p, po]]. by apply (sys_same B s).
  - eexists _, _. split; [reflexivity|]. split_and!; [done|done|by left].
Qed.

(** [port_set_extract] changes nothing and names the set the port is in. *)
Lemma set_name_ok n sp q i :
  1 <= i -> let m := set_name n sp q i in
  m = MACH_PORT_NULL /\ (forall j, i <= j < i + Z.of_nat n -> pe_set (get_entry sp j) <> Some q) \/ i <= m < i + Z.of_nat n /\ pe_set (get_entry sp m) = Some q.
Proof.
  revert i. induction n as [|n IH]; intros i Hi; cbn [set_name]; [left; split; [done|]; lia|]. case_bool_decide as Hq; [right; split; [lia|done]|].
  destruct (IH (i + 1) ltac:(lia)) as [[H1 H2]|[H1 H2]]; [left|right; split; [lia|done]]. split; [done|]. intros j Hj.
  destruct (decide (j = i)) as [->|]; [done|]. apply H2. lia.
Qed.

Lemma port_set_extract_ok B s i sp port_name :
  sys B s -> roomy s -> w_spaces s !! i = Some sp ->
  exists n, port_set_extract s i port_name = Done n /\
    (n = MACH_PORT_NULL \/ exists p po q, pe_port (entry_at s i port_name) = Some p /\ w_ports s !! p = Some po /\ p_set po = Some q /\ pe_set (entry_at s i n) = Some q).
Proof.
  intros Sy Rm Hi. pose proof (sy_inv _ _ Sy) as I. unfold port_set_extract.
  rewrite (space_lookup_eq s i sp _ _ Hi (i_space _ _ _ _ _ _ I i sp Hi) (rm_cap _ Rm i sp Hi)), bind_Done.
  destruct (lookup_entry (entry_at s i port_name) MACH_PORT_RIGHT_RECEIVE) as [[p r]|] eqn:El; [|eexists; split; [reflexivity|by left]].
  destruct (found_right B s ∅ ∅ i sp port_name p r _ RRecv I Hi El) as (Ht & po & Hp & _); [by left|]. rewrite (get_port_eq _ _ _ Hp), bind_Done.
  destruct (p_set po) as [q|] eqn:Eq; [|eexists; split; [reflexivity|by left]]. rewrite (get_space_eq _ _ _ Hi), bind_Done. eexists. split; [reflexivity|].
  destruct (set_name_ok (length (ps_table sp) - 1) sp q 1 ltac:(lia)) as [[H1 H2]|[H1 H2]]; [by left|right]. exists p, po, q.
  destruct (lookup_entry_some _ _ _ _ El) as (Ep & _). split_and!; [done|done|done|]. unfold entry_at. by rewrite Hi.
Qed.

End calls.
