(* ===== verification/PortNotify.v ===== *)
(** Dead names, registrations for notifications, the ports the kernel makes
    for a task, and the life of a whole name table. *)

From stdpp Require Import base list gmap gmultiset strings numbers option.
From Stdlib Require Import ZArith Lia ZifyBool.
From S2P Require Import Prelude Owners VmMap Ports PortMsg PortInv PortDeref PortSpace PortSets PortCalls.

Section notify.
Context {V : Type} `{PS : PayloadSpec V}.
Abbreviation world := (world (V := V)).
Implicit Types (s : world) (p q : Z) (k : right) (B X : rights) (Y : goods) (E : gset Z) (L : list (Z * Z)).

(** * Dead names *)

(** The right to a dead port becomes a dead name, without a reference. *)
Lemma mach_port_type_ok B s i sp name :
  sys B s -> roomy s -> w_spaces s !! i = Some sp -> 0 <= name ->
  exists t s', mach_port_type s i name = Done (t, s') /\ sys B s' /\
    (s' = s /\ (slot_free (entry_at s i name) = true -> t = 0) \/
     t = MACH_PORT_TYPE_DEAD_NAME /\ renamed s s' i name (mkPe None None 0 true) /\
       exists p po, pe_port (entry_at s i name) = Some p /\ w_ports s !! p = Some po /\ p_dead po = true).
Proof.
  intros Sy Rm Hi Hn. pose proof (sy_inv _ _ Sy) as I. pose proof (i_space _ _ _ _ _ _ I i sp Hi) as Ok. pose proof (rm_cap _ Rm i sp Hi) as Hc.
  assert (entry_at s i name = get_entry sp name) as Ee by (unfold entry_at; by rewrite Hi).
  assert (forall t, (slot_free (entry_at s i name) = true -> t = 0) -> exists t' s', Done (t, s) = Done (t', s') /\ sys B s' /\
    (s' = s /\ (slot_free (entry_at s i name) = true -> t' = 0) \/
     t' = MACH_PORT_TYPE_DEAD_NAME /\ renamed s s' i name (mkPe None None 0 true) /\
       exists p po, pe_port (entry_at s i name) = Some p /\ w_ports s !! p = Some po /\ p_dead po = true)) as Same.
  { intros t Ht. exists t, s. split; [done|]. split; [done|]. left. by split. }
  unfold mach_port_type. destruct (reserved_name name) eqn:Er; [by apply Same|]. rewrite (get_space_eq _ _ _ Hi), bind_Done.
  destruct (ps_capacity sp <=? name) eqn:Ec; [by apply Same|]. cbv zeta. pose proof (entry_at_ok s i sp name Hi Ok) as Eo. rewrite Ee in *.
  destruct (pe_dead (get_entry sp name)) eqn:Ed; [apply Same; intros (_ & _ & ?)%free_entry; congruence|].
  destruct (pe_port (get_entry sp name)) as [p|] eqn:Ep.
  2: { destruct (pe_set (get_entry sp name)) eqn:Es; apply Same; [intros (_ & ? & _)%free_entry; congruence|done]. }
  destruct (eo_port _ Eo p Ep) as (Es & _ & Hm). rewrite Es.
  destruct (has (pe_rights (get_entry sp name)) MACH_PORT_RIGHT_RECEIVE) eqn:Hr; [apply Same; intros (? & _)%free_entry; congruence|].
  set (r := pe_rights (get_entry sp name)) in *.
  assert (get_entry sp name = mkPe (Some p) None r false) as Ge by (unfold r; destruct (get_entry sp name); cbn in *; by subst).
  assert (slot_free (get_entry sp name) = false) as Ef by by rewrite Ge.
  destruct (set_entry_ok sp name (mkPe None None 0 true) Ok) as [Ok' Ct]; [|apply empty_entry_ok|by rewrite Ge|].
  { rewrite <- Ee in Ef. by apply (used_name s i sp name). }
  assert (table_rights sp = table_rights (set_entry sp name (mkPe None None 0 true)) ⊎ rights_of p r) as Tr.
  { pose proof (set_entry_rights sp name (mkPe None None 0 true) ltac:(lia)) as Q. rewrite Ge, entry_rights_port, entry_rights_none, gmultiset_disj_union_right_id in Q. done. }
  assert (losable B s p r) as Ls by (intros po _ H; congruence).
  pose proof (take_ok B s i sp _ p r ∅ ∅ I Hi Ok' Tr (rm_depth _ Rm) Ls) as T. destruct (taken_live B _ p r ∅ ∅ T Hm) as (po & Hp & _). change (w_ports s !! p = Some po) in Hp.
  rewrite (get_port_eq _ _ _ Hp), bind_Done. destruct (p_dead po) eqn:Epd; cbn [negb]; [|apply Same; intros (? & _)%free_entry; congruence].
  destruct (deref_taken_ok B _ p r ∅ ∅ T Hm) as (s2 & E2 & I2 & Q2 & _). rewrite E2, bind_Done. eexists _, _. split; [reflexivity|]. split.
  - eapply (sys_put B s _ i sp); [exact Sy|exact Hi|exact I2|exact (qt_spaces _ _ _ Q2)|exact Ct].
  - right. split; [done|]. split; [|by exists p, po]. apply (renamed_any s s2 i sp name (set_entry sp name (mkPe None None 0 true))); [done|exact (qt_spaces _ _ _ Q2)|done|lia].
Qed.

(** * Registrations *)

(** The source of a registration may have no receive right only for a watch
    that is refused. *)
Lemma port_ref_send_ok B s p po :
  inv B ∅ [] s ∅ ∅ -> roomy s -> w_ports s !! p = Some po ->
  port_ref s p MACH_PORT_RIGHT_SEND = Done (put_port s p (reffed po MACH_PORT_RIGHT_SEND)) /\
  inv B ∅ [] (put_port s p (reffed po MACH_PORT_RIGHT_SEND)) {[+ (p, RSend) +]} ∅ /\
  load ∅ (put_port s p (reffed po MACH_PORT_RIGHT_SEND)) = load ∅ s.
Proof.
  intros I Rm Hp. split; [|split].
  - apply port_ref_eq; [done|exact (counted _ _ _ _ _ _ p po I Hp (rm_refs _ Rm p po Hp))|done].
  - pose proof (ref_inv B ∅ [] s ∅ ∅ p po MACH_PORT_RIGHT_SEND I Hp ltac:(set_solver)) as Q. rewrite rights_of_send, gmultiset_disj_union_right_id in Q. by apply Q.
  - pose proof (load_put ∅ s p po (reffed po MACH_PORT_RIGHT_SEND) Hp ltac:(set_solver)) as Q.
    change (port_rights (reffed po MACH_PORT_RIGHT_SEND)) with (port_rights po) in Q. lia.
Qed.

Lemma drop_local_send B s X p d :
  inv B ∅ [] s ({[+ (p, RSend) +]} ⊎ X) ∅ -> (2 * (load ∅ s + 1) < d)%nat -> w_depth s = d ->
  exists s', port_deref s p MACH_PORT_RIGHT_SEND = Done s' /\ inv B ∅ [] s' X ∅ /\ w_spaces s' = w_spaces s /\ w_depth s' = d.
Proof.
  intros I Hd Ed. destruct (port_deref_local B ∅ [] s X ∅ p MACH_PORT_RIGHT_SEND) as (s' & E' & I' & Q' & _); [by rewrite rights_of_send|done| |].
  - unfold cost. rewrite rights_of_send, size_single. change (has MACH_PORT_RIGHT_SEND MACH_PORT_RIGHT_RECEIVE) with false. cbv iota. lia.
  - exists s'. split_and!; [done|done|exact (qt_spaces _ _ _ Q')|]. by rewrite (qt_depth _ _ _ Q').
Qed.

(** A registration replaced: the old target is handed back. *)
Lemma set_registration_ok B s X p po t n tag prev po' :
  inv B ∅ [] s ({[+ (n, RSend) +]} ⊎ X) ∅ -> w_ports s !! p = Some po -> p_has_receive po = true -> set_registration po t n tag = (prev, po') ->
  inv B ∅ [] (put_port s p po') (reg_rights prev ⊎ X) ∅ /\
  (load ∅ (put_port s p po') + size (reg_rights prev) = load ∅ s + 1)%nat.
Proof.
  intros I Hp Hr Er. assert (port_rights po' ⊎ reg_rights prev = port_rights po ⊎ {[+ (n, RSend) +]}) as Eq.
  { unfold set_registration in Er. unfold port_rights. destruct (t =? MACH_NOTIFY_NO_SENDERS); injection Er as <- <-; fields; cbn [reg_rights]; mult_at x. }
  assert (p_refs po' = p_refs po /\ p_send_count po' = p_send_count po /\ p_send_once_count po' = p_send_once_count po /\
          p_has_receive po' = p_has_receive po /\ p_set po' = p_set po /\ port_ok po' /\ pinned B p po' /\ port_frames po' = port_frames po) as (F1 & F2 & F3 & F4 & F5 & F6 & F7 & F8).
  { pose proof (i_port _ _ _ _ _ _ I p po Hp) as [A1 A2 A3 A4 A5 A6 A7 A8]. pose proof (i_pinned _ _ _ _ _ _ I p po Hp) as Pin.
    unfold set_registration in Er. destruct (t =? MACH_NOTIFY_NO_SENDERS); injection Er as <- <-; split_and!; try done; (split; cbn; try assumption; congruence). }
  split.
  - apply (put_plain B ∅ [] s _ ∅ _ ∅ p po po' I Hp); [set_solver|done|done|done|done|done|done|done| |by rewrite F8].
    apply num_ext. intros q k. pose proof (f_equal (num q k) Eq) as Q. rewrite !num_union in *. lia.
  - pose proof (load_put ∅ s p po po' Hp ltac:(set_solver)) as Q. pose proof (f_equal size Eq) as Sz. rewrite !gmultiset_size_disj_union, size_single in Sz. lia.
Qed.

Lemma retag_names l n tag : (retag l n tag).*1 = l.*1.
Proof. induction l as [|[m t] l IH]; cbn [retag]; [done|]. destruct (m =? n); [done|]. cbn. by rewrite IH. Qed.

Lemma watch_rights_names l l' : l.*1 = l'.*1 -> watch_rights l = watch_rights l'.
Proof.
  revert l'. induction l as [|[n t] l IH]; intros [|[n' t'] l']; cbn [fmap list_fmap fst]; try done. intros [= -> H]. unfold watch_rights.
  rewrite !gather_cons. cbn [fst]. f_equal. exact (IH l' H).
Qed.

(** A watch on a live port keeps its target, once per target. *)
Lemma port_dead_name_link_ok B s X p po n tag :
  inv B ∅ [] s ({[+ (n, RSend) +]} ⊎ X) ∅ -> w_ports s !! p = Some po ->
  exists rv dup s', port_dead_name_link s p n tag = Done (rv, dup, s') /\ w_spaces s' = w_spaces s /\ w_depth s' = w_depth s /\
    (rv = MACH_MSG_OK /\ dup = false /\ inv B ∅ [] s' X ∅ \/
     (rv <> MACH_MSG_OK \/ dup = true) /\ inv B ∅ [] s' ({[+ (n, RSend) +]} ⊎ X) ∅ /\ load ∅ s' = load ∅ s).
Proof.
  intros I Hp. unfold port_dead_name_link. rewrite (get_port_eq _ _ _ Hp), bind_Done.
  destruct (p_dead po || negb (p_has_receive po)) eqn:Ed; [eexists _, _, _; split; [reflexivity|]; split_and!; [done|done|right; split_and!; [by left|done|done]]|].
  pose proof (i_port _ _ _ _ _ _ I p po Hp) as [A1 A2 A3 A4 A5 A6 A7 A8]. pose proof (i_pinned _ _ _ _ _ _ I p po Hp) as Pin.
  assert (p_has_receive po = true) as Hr by (destruct (p_has_receive po); [done|by rewrite orb_true_r in Ed]).
  case_bool_decide as Hd; (eexists _, _, _; split; [reflexivity|]; split_and!; [done|done|]).
  - right. split; [by right|]. set (po' := with_dead_name po _).
    assert (port_rights po' = port_rights po) as Er.
    { unfold port_rights, po'. fields. by rewrite (watch_rights_names _ (p_notify_dead_name po) (retag_names _ n tag)). }
    split.
    + apply (put_plain B ∅ [] s _ ∅ _ ∅ p po po' I Hp); [set_solver|done|done|done|done|done| |done|by rewrite Er|done].
      split; unfold po'; cbn; try assumption; [congruence|by rewrite retag_names].
    + pose proof (load_put ∅ s p po po' Hp ltac:(set_solver)) as Q. rewrite Er in Q. lia.
  - left. split; [done|]. split; [done|]. set (po' := with_dead_name po _).
    apply (put_plain B ∅ [] s _ ∅ _ ∅ p po po' I Hp); [set_solver|done|done|done|done|done| |done| |done].
    + split; unfold po'; cbn; try assumption; [congruence|by constructor].
    + unfold port_rights, po', watch_rights. fields. rewrite gather_cons. cbn [fst]. mult_at x.
Qed.

Lemma port_arm_dead_name_object_ok B s p po n no tag :
  sys B s -> roomy s -> w_ports s !! p = Some po -> w_ports s !! n = Some no ->
  exists rv s', port_arm_dead_name_object s p n tag = Done (rv, s') /\ sys B s' /\ w_spaces s' = w_spaces s.
Proof.
  intros Sy Rm Hp Hn. unfold port_arm_dead_name_object, w_kmalloc. destruct (kmalloc_ok (w_heap s)) as [[] h]; cbn [negb].
  2: { eexists _, _. split; [reflexivity|]. split; [|done]. apply (sys_same B s); [done| |done]. apply (same_inv _ _ _ s); try done. apply Sy. }
  assert (inv B ∅ [] (upd_heap s h) ∅ ∅) as I0 by (apply (same_inv _ _ _ s); try done; apply Sy).
  assert (roomy (upd_heap s h)) as Rm0 by (destruct Rm; by split).
  destruct (port_ref_send_ok B (upd_heap s h) n no I0 Rm0 Hn) as (-> & I1 & L1). rewrite bind_Done.
  set (s1 := put_port (upd_heap s h) n (reffed no MACH_PORT_RIGHT_SEND)) in *.
  assert (exists po1, w_ports s1 !! p = Some po1) as [po1 Hp1].
  { cbn. destruct (decide (p = n)) as [->|]; [rewrite lookup_insert_eq|rewrite lookup_insert_ne by done]; by eexists. }
  rewrite <- (gmultiset_disj_union_right_id {[+ (n, RSend) +]}) in I1.
  destruct (port_dead_name_link_ok B s1 ∅ p po1 n tag I1 Hp1) as (rv & dup & s2 & -> & W2 & D2 & Post). rewrite bind_Done.
  destruct Post as [(-> & -> & I2)|(Hc & I2 & L2)].
  - eexists _, _. split; [reflexivity|]. split; [|by rewrite W2]. apply (sys_same B s); [done|done|by rewrite W2].
  - assert (negb (rv =? MACH_MSG_OK) || dup = true) as -> by (destruct Hc as [Hc| ->]; [|by rewrite orb_true_r]; by rewrite (proj2 (Z.eqb_neq _ _) Hc)).
    destruct (drop_local_send B s2 ∅ n (w_depth s) I2) as (s3 & -> & I3 & W3 & _).
    + rewrite L2, L1. change (load ∅ (upd_heap s h)) with (load ∅ s). pose proof (rm_depth _ Rm) as Dp; unfold deep in Dp; lia.
    + by rewrite D2.
    + rewrite bind_Done. eexists _, _. split; [reflexivity|]. assert (w_spaces s3 = w_spaces s) as W by by rewrite W3, W2. split; [|exact W]. by apply (sys_same B s).
Qed.

Lemma port_request_notification_ok B s i sp name t notify_name tag :
  sys B s -> roomy s -> w_spaces s !! i = Some sp ->
  exists rv s', port_request_notification s i name t notify_name tag = Done (rv, s') /\ sys B s' /\ w_spaces s' = w_spaces s.
Proof.
  intros Sy Rm Hi. pose proof (sy_inv _ _ Sy) as I. pose proof (i_space _ _ _ _ _ _ I i sp Hi) as Ok. pose proof (rm_cap _ Rm i sp Hi) as Hc.
  assert (forall rv : Z, exists rv' s', Done (rv, s) = Done (rv', s') /\ sys B s' /\ w_spaces s' = w_spaces s) as Same by (intros rv; by exists rv, s).
  unfold port_request_notification. destruct ((t =? MACH_NOTIFY_NO_SENDERS) || (t =? MACH_NOTIFY_PORT_DESTROYED)) eqn:Et.
  - cbv zeta iota. rewrite (space_lookup_eq s i sp name) by done. rewrite bind_Done. destruct (lookup_entry (entry_at s i name) _) as [[p r]|] eqn:E1; [|apply Same].
    rewrite (space_lookup_eq s i sp notify_name) by done. rewrite bind_Done. destruct (lookup_entry (entry_at s i notify_name) _) as [[n rn]|] eqn:E2; [|apply Same].
    destruct (p =? n) eqn:Ep; [apply Same|]. assert ((t =? MACH_NOTIFY_DEAD_NAME) = false) as -> by (unfold MACH_NOTIFY_NO_SENDERS, MACH_NOTIFY_PORT_DESTROYED, MACH_NOTIFY_DEAD_NAME in *; lia).
    destruct (found_right B s ∅ ∅ i sp name p r _ RRecv I Hi E1) as (_ & po & Hp & Hr); [by left|].
    destruct (found_right B s ∅ ∅ i sp notify_name n rn _ RSend I Hi E2) as (_ & no & Hn & _); [by right; left|].
    destruct (port_ref_send_ok B s n no I Rm Hn) as (-> & I1 & L1). rewrite bind_Done. set (s1 := put_port s n (reffed no MACH_PORT_RIGHT_SEND)) in *.
    assert (w_ports s1 !! p = Some po) as Hp1 by (cbn; rewrite lookup_insert_ne; [done|lia]). rewrite (get_port_eq _ _ _ Hp1), bind_Done.
    destruct (set_registration po t n tag) as [prev po'] eqn:Er. rewrite <- (gmultiset_disj_union_right_id {[+ (n, RSend) +]}) in I1.
    destruct (set_registration_ok B s1 ∅ p po t n tag prev po' I1 Hp1 (Hr eq_refl) Er) as [I2 L2]. destruct prev as [[m mt]|]; cbn [reg_rights] in *.
    + rewrite size_single in L2. destruct (drop_local_send B (put_port s1 p po') ∅ m (w_depth s) I2) as (s3 & -> & I3 & W3 & _); [pose proof (rm_depth _ Rm) as Dp; unfold deep in Dp; lia|done|].
      rewrite bind_Done. eexists _, _. split; [reflexivity|]. split; [by apply (sys_same B s)|exact W3].
    + rewrite gmultiset_disj_union_left_id in I2. eexists _, _. split; [reflexivity|]. split; [by apply (sys_same B s)|done].
  - destruct (t =? MACH_NOTIFY_DEAD_NAME) eqn:Ed; [|apply Same]. cbv zeta iota.
    rewrite (space_lookup_eq s i sp name) by done. rewrite bind_Done. destruct (lookup_entry (entry_at s i name) _) as [[p r]|] eqn:E1; [|apply Same].
    rewrite (space_lookup_eq s i sp notify_name) by done. rewrite bind_Done. destruct (lookup_entry (entry_at s i notify_name) _) as [[n rn]|] eqn:E2; [|apply Same].
    destruct (p =? n) eqn:Ep; [apply Same|].
    destruct (found_right B s ∅ ∅ i sp name p r _ RSend I Hi E1) as (_ & po & Hp & Hr); [by right; left|].
    destruct (found_right B s ∅ ∅ i sp notify_name n rn _ RSend I Hi E2) as (_ & no & Hn & _); [by right; left|].
    by apply (port_arm_dead_name_object_ok B s p po n no).
Qed.

(** * Rights the kernel hands out *)

(** A send right to a live port put into a table. *)
Lemma install_send_ok B s i sp p po :
  sys B s -> roomy s -> w_spaces s !! i = Some sp -> w_ports s !! p = Some po ->
  exists rv n s', space_install s i p MACH_PORT_RIGHT_SEND = Done (rv, n, s') /\ sys B s' /\
    (rv = MACH_MSG_OK /\ 1 <= n /\ slot_free (entry_at s i n) = true /\ renamed s s' i n (mkPe (Some p) None MACH_PORT_RIGHT_SEND false) /\
       (exists sp', w_spaces s' = <[i := sp']> (w_spaces s) /\ placed sp sp' n) \/
     rv = MACH_E_NOMEM /\ exists h, s' = upd_heap s h).
Proof.
  intros Sy Rm Hi Hp. pose proof (sy_inv _ _ Sy) as I.
  destruct (space_install_ok B ∅ [] s ∅ ∅ i sp p po MACH_PORT_RIGHT_SEND) as (rv & n & s' & Es & G); try done;
    [exact (i_space _ _ _ _ _ _ I i sp Hi)|exact (rm_cap _ Rm i sp Hi)|exact (counted _ _ _ _ _ _ p po I Hp (rm_refs _ Rm p po Hp))|by apply ref_inv|].
  exists rv, n, s'. split; [exact Es|]. destruct G as [h n sp1 s' Hn Hf Rn I' Ct|h].
  - split; [apply (sys_put B s s' i sp sp1); [done|done|done|done|by apply Ct]|left]. split_and!; [done|done|done|done|]. exists sp1. split; [done|by apply Ct].
  - split; [|right; by eauto]. apply (sys_same B s); [done| |done]. by apply (same_inv _ _ _ s).
Qed.

Lemma port_space_inject_send_ok B s src sp dst dp name :
  sys B s -> roomy s -> w_spaces s !! src = Some sp -> w_spaces s !! dst = Some dp ->
  exists rv n s', port_space_inject_send s src name dst = Done (rv, n, s') /\ sys B s' /\
    (rv = MACH_MSG_OK /\ (exists p, pe_port (entry_at s src name) = Some p /\ renamed s s' dst n (mkPe (Some p) None MACH_PORT_RIGHT_SEND false)) \/
     rv <> MACH_MSG_OK /\ w_spaces s' = w_spaces s).
Proof.
  intros Sy Rm Hi Hd. pose proof (sy_inv _ _ Sy) as I. unfold port_space_inject_send.
  rewrite (space_lookup_eq s src sp name _ Hi (i_space _ _ _ _ _ _ I src sp Hi) (rm_cap _ Rm src sp Hi)), bind_Done.
  destruct (lookup_entry (entry_at s src name) MACH_PORT_RIGHT_SEND) as [[p r]|] eqn:El; [|eexists _, _, _; split; [reflexivity|]; split; [done|by right]].
  destruct (found_right B s ∅ ∅ src sp name p r _ RSend I Hi El) as (_ & po & Hp & _); [by right; left|].
  destruct (install_send_ok B s dst dp p po Sy Rm Hd Hp) as (rv & n & s' & -> & Sy' & [(-> & Hn & Hf & Rn & _)|(-> & h & ->)]); (eexists _, _, _; split; [reflexivity|]; split; [done|]).
  - left. split; [done|]. exists p. split; [|done]. by destruct (lookup_entry_some _ _ _ _ El).
  - by right.
Qed.

(** The first name a table gives out. *)
Definition next_name s (i n : Z) : Prop :=
  exists sp, w_spaces s !! i = Some sp /\ ps_hint sp = n /\ 1 <= n < ps_capacity sp /\ slot_free (get_entry sp n) = true.

Lemma first_free_next sp n m : first_free sp m -> ps_hint sp = n -> 1 <= n < ps_capacity sp -> slot_free (get_entry sp n) = true -> m = n.
Proof.
  intros (Bm & Fm & Fst) Hh Bn Fn. specialize (Fst n Bn Fn). rewrite Hh, Z.sub_diag, Z.mod_0_l in Fst by lia.
  pose proof (Z.mod_pos_bound (m - n) (ps_capacity sp) ltac:(lia)). assert ((m - n) mod ps_capacity sp = 0) as Z0 by lia.
  apply Z.mod_divide in Z0 as [c Hc]; [|lia]. destruct (decide (c = 0)) as [->|]; [lia|]. nia.
Qed.

Lemma port_install_bootstrap_ok B s i sp p po :
  sys B s -> roomy s -> w_spaces s !! i = Some sp -> w_ports s !! p = Some po -> next_name s i MACH_PORT_BOOTSTRAP ->
  exists rv s', port_install_bootstrap s (Some p) i = Done (rv, s') /\ sys B s' /\
    (rv = MACH_MSG_OK /\ renamed s s' i MACH_PORT_BOOTSTRAP (mkPe (Some p) None MACH_PORT_RIGHT_SEND false) \/ rv = MACH_E_NOMEM /\ w_spaces s' = w_spaces s).
Proof.
  intros Sy Rm Hi Hp (sp0 & H0 & Hh & Bn & Fn). assert (sp0 = sp) as -> by congruence. unfold port_install_bootstrap.
  destruct (install_send_ok B s i sp p po Sy Rm Hi Hp) as (rv & n & s' & -> & Sy' & [(-> & Hn & Hf & Rn & sp' & _ & Pl)|(-> & h & ->)]); rewrite bind_Done; cbn [Z.eqb negb].
  - assert (n = MACH_PORT_BOOTSTRAP) as -> by exact (first_free_next sp _ n (pc_first _ _ _ Pl _ Bn Fn) Hh Bn Fn).
    rewrite KASSERT_true by done. eexists _, _. split; [reflexivity|]. split; [done|by left].
  - eexists _, _. split; [reflexivity|]. split; [done|by right].
Qed.

(** * Ports of the kernel *)

(** A state that is no fuller is as roomy. *)
Lemma roomy_put s s' p po :
  roomy s -> w_ports s' = <[p := po]> (w_ports s) -> p_refs po < 2 ^ 32 - 3 -> w_sets s' = w_sets s -> w_spaces s' = w_spaces s -> w_depth s' = w_depth s ->
  load ∅ s' = load ∅ s -> roomy s'.
Proof.
  intros [R1 R2 R3 R4] Ep Hr Es Ew Ed El. unfold deep in R4. split; unfold deep; rewrite ?Es, ?Ew, ?Ed, ?El; try assumption. intros q qo. rewrite Ep. destruct (decide (q = p)) as [->|].
  - rewrite lookup_insert_eq. by intros [= <-].
  - rewrite lookup_insert_ne by done. apply R1.
Qed.

(** A port whose receive right is the kernel's. *)
Inductive owned_port B s kind arg : option Z -> world -> Prop :=
| owned_none s' : sys B s' -> w_spaces s' = w_spaces s -> owned_port B s kind arg None s'
| owned_made h (p := w_next_port_id s)
    (s' := put_port (put_port (upd_port_id (upd_heap s h) (p + 1)) p (born kind arg)) p (reffed (born kind arg) MACH_PORT_RIGHT_RECEIVE)) :
    sys ({[+ (p, RRecv) +]} ⊎ B) s' -> roomy s' -> inv B ∅ [] s' {[+ (p, RRecv) +]} ∅ -> owned_port B s kind arg (Some p) s'.

Lemma port_create_kernel_owned_ok B s kind arg :
  sys B s -> roomy s -> exists o s', port_create_kernel_owned s kind arg = Done (o, s') /\ owned_port B s kind arg o s'.
Proof.
  intros Sy Rm. pose proof (sy_inv _ _ Sy) as I. unfold port_create_kernel_owned.
  destruct (port_create_ok s) as (o & s1 & -> & D). destruct D as [h|h s0 p E0 Ep].
  { eexists _, _. split; [reflexivity|]. apply owned_none; [|done]. apply (sys_same B s); [done| |done]. by apply (same_inv _ _ _ s). }
  rewrite (get_port_eq _ p newborn) by apply lookup_insert_eq. rewrite bind_Done. fold (born kind arg).
  assert (put_port (put_port s0 p newborn) p (born kind arg) = put_port s0 p (born kind arg)) as ->.
  { unfold put_port, upd_ports. cbn. by rewrite insert_insert_eq. }
  rewrite (port_ref_eq _ p _ (born kind arg)); [|apply lookup_insert_eq|apply born_countable|done]. rewrite bind_Done.
  eexists _, _. split; [reflexivity|]. destruct (start_inv B ∅ [] s ∅ ∅ h p I Ep) as [I0 U]. rewrite <- E0 in I0, U.
  pose proof (born_reffed_inv B ∅ [] s0 ∅ ∅ p kind arg MACH_PORT_RIGHT_RECEIVE I0 U ltac:(done)) as I1. rewrite rights_of_receive in I1.
  subst s0 p. apply owned_made.
  - apply keep_inv in I1. split; [exact I1|]. intros i sp. apply Sy.
  - apply (roomy_put s _ (w_next_port_id s) (reffed (born kind arg) MACH_PORT_RIGHT_RECEIVE)); try done.
    + cbn. by rewrite insert_insert_eq.
    + unfold load, in_transit. cbn [put_port upd_ports w_ports upd_port_id upd_heap]. rewrite insert_insert_eq.
      pose proof (birth_stored port_rights ∅ (w_ports s) (w_next_port_id s) (reffed (born kind arg) MACH_PORT_RIGHT_RECEIVE) (un_port _ _ _ _ _ U) (proj1 (born_empty _ _ _)) ltac:(set_solver)) as Q.
      change (shut ∅ (w_next_port_id s) (reffed (born kind arg) MACH_PORT_RIGHT_RECEIVE)) with (∅ : gset Z) in Q. by rewrite Q.
  - by rewrite gmultiset_disj_union_right_id in I1.
Qed.

(** [port_install_task_self] is a kernel-owned port and a name for it. *)
Lemma port_install_task_self_eq s t_id i :
  t_id <> 0 ->
  port_install_task_self s t_id i =
  (r ← port_create_kernel_owned s PORT_SPECIAL_TASK_SELF t_id;
   match r with
   | (None, s) => Done (MACH_E_NOMEM, None, s)
   | (Some p, s) =>
       r ← space_install s i p MACH_PORT_RIGHT_SEND;
       let '(rv, n, s) := (r : Z * Z * world) in
       if negb (rv =? MACH_MSG_OK) then s ← port_deref s p MACH_PORT_RIGHT_RECEIVE; Done (rv, None, s)
       else _ ← KASSERT (n =? MACH_PORT_TASK_SELF) "port_install_task_self: was the port_space pre-populated?"; Done (MACH_MSG_OK, Some p, s)
   end).
Proof.
  intros Ht. unfold port_install_task_self, port_create_kernel_owned. destruct (port_create s) as [[p|] s0]; [|done].
  destruct (get_port s0 p) as [po|msg]; [|done]. rewrite !bind_Done. rewrite KASSERT_true by (destruct (t_id =? 0) eqn:Ez; [lia|done]).
  by destruct (port_ref _ p MACH_PORT_RIGHT_RECEIVE).
Qed.

(** A task's own port: its receive right is the kernel's, its send right the
    first name of the task. *)
Lemma port_install_task_self_ok B s t_id i sp :
  sys B s -> roomy s -> w_spaces s !! i = Some sp -> t_id <> 0 -> next_name s i MACH_PORT_TASK_SELF ->
  exists rv o s', port_install_task_self s t_id i = Done (rv, o, s') /\
    (rv = MACH_E_NOMEM /\ o = None /\ sys B s' /\ w_spaces s' = w_spaces s \/
     rv = MACH_MSG_OK /\ o = Some (w_next_port_id s) /\ sys ({[+ (w_next_port_id s, RRecv) +]} ⊎ B) s' /\
       renamed s s' i MACH_PORT_TASK_SELF (mkPe o None MACH_PORT_RIGHT_SEND false) /\
       (ps_capacity sp > 2 -> slot_free (get_entry sp MACH_PORT_BOOTSTRAP) = true -> next_name s' i MACH_PORT_BOOTSTRAP)).
Proof.
  intros Sy Rm Hi Ht (sp0 & H0 & Hh & Bn & Fn). assert (sp0 = sp) as -> by congruence. rewrite port_install_task_self_eq by done.
  destruct (port_create_kernel_owned_ok B s PORT_SPECIAL_TASK_SELF t_id Sy Rm) as (o & s1 & -> & D). rewrite bind_Done.
  destruct D as [s1 Sy1 W1|h p s1 Sy1 Rm1 I1]; [eexists _, _, _; split; [reflexivity|]; by left|].
  assert (w_ports s1 !! p = Some (reffed (born PORT_SPECIAL_TASK_SELF t_id) MACH_PORT_RIGHT_RECEIVE)) as Hp by apply lookup_insert_eq.
  destruct (install_send_ok _ s1 i sp p _ Sy1 Rm1 Hi Hp) as (rv & n & s3 & -> & Sy3 & Post). rewrite bind_Done.
  destruct Post as [(-> & Hn & Hf & Rn & sp' & Es & Pl)|(-> & h' & ->)]; cbn [Z.eqb negb].
  - assert (n = MACH_PORT_TASK_SELF) as -> by exact (first_free_next sp _ n (pc_first _ _ _ Pl _ Bn Fn) Hh Bn Fn). rewrite KASSERT_true by done.
    eexists _, _, _. split; [reflexivity|]. right. split_and!; [done|done|exact Sy3|exact Rn|]. intros Hc Hb.
    destruct Rn as (sp2 & sp3 & G2 & G3 & G4). assert (sp2 = sp) as -> by (cbn in G2; congruence).
    assert (sp3 = sp') as -> by (rewrite Es in G3; apply (f_equal (fun m => m !! i)) in G3; rewrite !lookup_insert_eq in G3; congruence).
    exists sp'. pose proof (pc_cap _ _ _ Pl). split_and!; [by rewrite Es, lookup_insert_eq| |done|unfold MACH_PORT_BOOTSTRAP; lia|].
    + rewrite (pc_hint _ _ _ Pl). unfold MACH_PORT_TASK_SELF, MACH_PORT_BOOTSTRAP. by replace (1 + 1 <? ps_capacity sp') with true by lia.
    + by rewrite G4.
  - destruct (port_deref_local B ∅ [] (upd_heap s1 h') ∅ ∅ p MACH_PORT_RIGHT_RECEIVE) as (s4 & E4 & I4 & Q4 & _).
    + rewrite rights_of_receive, gmultiset_disj_union_right_id. by apply (same_inv _ _ _ s1).
    + done.
    + unfold cost. pose proof (rm_depth _ Rm1) as Dp. unfold deep in Dp. rewrite rights_of_receive, size_single. change (load ∅ (upd_heap s1 h')) with (load ∅ s1).
      change (w_depth (upd_heap s1 h')) with (w_depth s1). case_match; lia.
    + rewrite E4, bind_Done. eexists _, _, _. split; [reflexivity|]. left. split_and!; [done|done| |exact (qt_spaces _ _ _ Q4)].
      apply (sys_same B s); [done|done|exact (qt_spaces _ _ _ Q4)].
Qed.

(** The task's port dies with the kernel's right to it. *)
Lemma port_release_task_self_ok B s p po :
  sys (rights_of p MACH_PORT_RIGHT_RECEIVE ⊎ B) s -> roomy s -> w_ports s !! p = Some po -> pinned B p po -> p_set po = None ->
  exists s', port_release_task_self s (Some p) = Done s' /\ sys B s' /\ w_spaces s' = w_spaces s.
Proof.
  intros [I C] Rm Hp Pin Hs. destruct (port_deref_taken B ∅ s ∅ ∅ p MACH_PORT_RIGHT_RECEIVE po I) as (s' & E' & I' & Q' & _); try done.
  - intros _ H. congruence.
  - unfold cost. pose proof (rm_depth _ Rm) as Dp. unfold deep in Dp. rewrite rights_of_receive, size_single. case_match; lia.
  - exists s'. split; [exact E'|]. split; [|exact (qt_spaces _ _ _ Q')]. split; [done|]. intros i sp. rewrite (qt_spaces _ _ _ Q'). apply C.
Qed.

(** * Tables, from first to last *)

Lemma spaces_inv B E L s X Y m :
  inv B E L s X Y -> gather_map (fun _ sp => table_rights sp) m = tables s -> (forall i sp, m !! i = Some sp -> space_ok sp /\ i < w_next_space_id s) ->
  inv B E L (upd_spaces s m) X Y.
Proof.
  intros I Et Ok. change (tables (upd_spaces s m) = tables s) in Et.
  assert (owners B E (upd_spaces s m) X = owners B E s X) as Ow by (unfold owners; by rewrite Et).
  split; rewrite ?Ow, ?Et; try apply I.
  - intros i [sp H]. by apply (Ok i sp).
  - intros i sp H. by apply (Ok i sp).
Qed.

Definition new_space : port_space := mkPspace (replicate INITIAL_SPACE_CAP pe_empty) 0 1.

Lemma new_space_ok : space_ok new_space /\ counted_space new_space /\ table_rights new_space = ∅.
Proof.
  split; [|split; [done|exact (gather_empty INITIAL_SPACE_CAP)]]. split; [done|done| |done|done]. apply Forall_replicate. apply empty_entry_ok.
Qed.

(** A new table is empty and gives out the names of the task's own port and
    of the bootstrap port first. *)
Lemma port_space_new_ok B s :
  sys B s -> exists o s', port_space_new s = (o, s') /\ sys B s' /\
    (o = None /\ w_spaces s' = w_spaces s \/
     exists i, o = Some i /\ w_spaces s !! i = None /\ w_spaces s' = <[i := new_space]> (w_spaces s) /\ next_name s' i MACH_PORT_TASK_SELF).
Proof.
  intros Sy. pose proof (sy_inv _ _ Sy) as I. unfold port_space_new, w_kmalloc. destruct (kmalloc_ok (w_heap s)) as [[] h] eqn:E1; cbn [negb].
  2: { eexists _, _. split; [reflexivity|]. split; [|by left]. apply (sys_same B s); [done| |done]. by apply (same_inv _ _ _ s). }
  cbn [upd_heap w_heap]. destruct (kmalloc_ok h) as [[] h2]; cbn [negb].
  2: { eexists _, _. split; [reflexivity|]. split; [|by left]. apply (sys_same B s); [done| |done]. by apply (same_inv _ _ _ s). }
  eexists _, _. split; [reflexivity|]. cbn [upd_heap w_next_space_id]. set (i := w_next_space_id s). destruct new_space_ok as (Ok & Ct & Er).
  assert (w_spaces s !! i = None) as Hn.
  { destruct (w_spaces s !! i) eqn:Q; [|done]. pose proof (i_fresh_space _ _ _ _ _ _ I i ltac:(by eexists)). unfold i in *. lia. }
  fold new_space. split; [|right; exists i; split_and!; [done|done|done|exists new_space; split_and!; [apply lookup_insert_eq|done|done|done|done]]].
  split.
  - set (s1 := upd_space_id (upd_heap (upd_heap s h) h2) (i + 1)). assert (inv B ∅ [] s1 ∅ ∅) as I1.
    { split; try apply I. intros j Hj. pose proof (i_fresh_space _ _ _ _ _ _ I j Hj). cbn. unfold i. lia. }
    apply (spaces_inv B ∅ [] s1 ∅ ∅ (<[i := new_space]> (w_spaces s)) I1).
    + rewrite gather_map_insert, Er, delete_id by done. apply gmultiset_disj_union_left_id.
    + intros j sp. destruct (decide (j = i)) as [->|Hj]; [rewrite lookup_insert_eq; intros [= <-]; split; [done|cbn; lia]|].
      rewrite lookup_insert_ne by done. intros H. split; [exact (i_space _ _ _ _ _ _ I j sp H)|].
      pose proof (i_fresh_space _ _ _ _ _ _ I j ltac:(by eexists)). cbn. unfold i. lia.
  - intros j sp. cbn. destruct (decide (j = i)) as [->|Hj]; [rewrite lookup_insert_eq; by intros [= <-]|]. rewrite lookup_insert_ne by done. apply Sy.
Qed.

Lemma clear_entry_ok sp n : space_ok sp -> 1 <= n < ps_capacity sp -> slot_free (get_entry sp n) = false -> space_ok (set_entry sp n pe_empty).
Proof.
  intros Ok Hn Ef. destruct (empty_slot_ok sp n pe_empty Ok Hn (empty_entry_ok false) Ef eq_refl) as [[A1 A2 A3 A4 A5] _]. destruct Ok as [B1 B2 B3 B4 B5].
  pose proof (occupied_insert _ _ _ pe_empty (get_entry_lookup sp n ltac:(lia))) as Oc. rewrite Ef in Oc. cbn in Oc. split; try assumption; cbn in *.
  - unfold ps_capacity in *. cbn. rewrite length_insert. lia.
  - lia.
Qed.

(** The ports received through this table may die with it. *)
Definition forsaken s (sp : port_space) : Prop :=
  forall p po, (p, RRecv) ∈ table_rights sp -> w_ports s !! p = Some po -> p_set po <> None -> grounded s p.

Lemma entry_losable B s i sp n p :
  inv B ∅ [] s ∅ ∅ -> w_spaces s !! i = Some sp -> forsaken s sp -> 0 <= n < ps_capacity sp -> pe_port (entry_at s i n) = Some p ->
  losable B s p (pe_rights (entry_at s i n)).
Proof.
  intros I Hi Fs Hn Hp po Hpo Hr Hs. pose proof (entry_at_ok s i sp n Hi (i_space _ _ _ _ _ _ I i sp Hi)) as Eo. destruct (eo_port _ Eo p Hp) as (Es & _ & Hm).
  assert (entry_rights (entry_at s i n) = rights_of p (pe_rights (entry_at s i n))) as Er.
  { unfold entry_rights. rewrite Hp, Es. apply gmultiset_disj_union_right_id. }
  apply (grounded_losable B s p _ I); try done.
  - apply (Fs p po); [|done|done]. apply num_pos. assert (entry_at s i n = get_entry sp n) as Ee by (unfold entry_at; by rewrite Hi).
    pose proof (num_subset p RRecv _ _ (gather_elem entry_rights _ _ (list_elem_of_lookup_2 _ _ _ (get_entry_lookup sp n Hn)))) as Q.
    rewrite <- Ee, Er, num_rights_of, decide_True, Hr in Q by done. cbn in Q. unfold table_rights. lia.
  - rewrite <- Er. apply entry_in_tables.
Qed.

Lemma destroy_slots_ok B n s i j sp :
  inv B ∅ [] s ∅ ∅ -> deep s -> w_spaces s !! i = Some sp -> 1 <= j -> j + Z.of_nat n = ps_capacity sp -> forsaken s sp ->
  (forall m, 0 <= m < j -> entry_rights (get_entry sp m) = ∅) ->
  exists s' sp', destroy_slots n s i j = Done s' /\ inv B ∅ [] s' ∅ ∅ /\ w_spaces s' = <[i := sp']> (w_spaces s) /\ table_rights sp' = ∅.
Proof.
  revert s j sp. induction n as [|n IH]; intros s j sp I Dp Hi Hj Hc Fs Em; cbn [destroy_slots].
  { exists s, sp. split_and!; [done|done|by rewrite insert_id|]. apply gather_none. intros e [k Hk]%list_elem_of_lookup. pose proof (lookup_lt_Some _ _ _ Hk).
    specialize (Em (Z.of_nat k)). unfold get_entry in Em. rewrite Nat2Z.id, Hk in Em. apply Em. unfold ps_capacity in Hc. lia. }
  rewrite (get_space_eq _ _ _ Hi), bind_Done. cbv zeta. pose proof (i_space _ _ _ _ _ _ I i sp Hi) as Ok.
  assert (entry_at s i j = get_entry sp j) as Ee by (unfold entry_at; by rewrite Hi). pose proof (entry_at_ok s i sp j Hi Ok) as Eo. rewrite Ee in Eo.
  destruct (bool_decide (pe_port (get_entry sp j) = None) && bool_decide (pe_set (get_entry sp j) = None)) eqn:Eb.
  - apply andb_prop in Eb as [E1 E2]. apply bool_decide_eq_true in E1, E2. apply (IH s (j + 1) sp I Dp Hi); [lia|lia|done|]. intros m Hm.
    destruct (decide (m = j)) as [->|]; [|apply Em; lia]. unfold entry_rights. rewrite E1, E2. apply gmultiset_disj_union_left_id.
  - assert (slot_free (get_entry sp j) = false) as Ef by (unfold slot_free; by rewrite Eb).
    assert (pe_dead (get_entry sp j) = false) as Ed.
    { destruct (pe_port (get_entry sp j)) as [p|] eqn:Ep; [by destruct (eo_port _ Eo p Ep) as (_ & ? & _)|].
      destruct (pe_set (get_entry sp j)) as [q|] eqn:Eq; [by destruct (eo_set _ Eo q Eq)|done]. }
    rewrite Ed. fold pe_empty. pose proof (clear_entry_ok sp j Ok ltac:(lia) Ef) as Ok1. set (sp1 := set_entry sp j pe_empty) in *.
    assert (table_rights sp = table_rights sp1 ⊎ entry_rights (get_entry sp j)) as Tr by exact (dropped_rights sp j ltac:(lia)).
    destruct (release_entry_ok B s i sp sp1 j (get_entry sp j) I Dp Hi Ok1 Ee Ef Ed Tr) as (s2 & E2 & I2 & Q2 & L2 & G2).
    { intros p Hp. rewrite <- Ee in *. apply (entry_losable B s i sp j p I Hi Fs); [lia|done]. }
    rewrite E2, bind_Done. assert (w_spaces s2 = <[i := sp1]> (w_spaces s)) as W2 by exact (qt_spaces _ _ _ Q2).
    destruct (IH s2 (j + 1) sp1 I2) as (s' & sp' & E' & I' & W' & T').
    + unfold deep in *. rewrite (qt_depth _ _ _ Q2). change (w_depth (put_space s i sp1)) with (w_depth s). change (load ∅ (put_space s i sp1)) with (load ∅ s) in L2. lia.
    + by rewrite W2, lookup_insert_eq.
    + lia.
    + unfold ps_capacity in *. unfold sp1. cbn. rewrite length_insert. lia.
    + intros p po Hp Hpo Hs. apply G2.
      * destruct (qt_port _ _ _ Q2 p po Hpo) as (po0 & H0 & Le). apply (Fs p po0); [|done|destruct (le_set _ _ Le); congruence].
        rewrite Tr. apply gmultiset_elem_of_disj_union. by left.
      * apply num_pos in Hp. apply num_pos. pose proof (f_equal (num p RRecv) (tables_put s i sp sp1 Hi)) as Q. rewrite !num_union in Q.
        pose proof (f_equal (num p RRecv) Tr) as Q'. rewrite num_union in Q'. unfold tables in *. rewrite (gather_map_delete _ (w_spaces s) i sp Hi) in Q.
        fold (table_rights sp) in Q. rewrite num_union in Q. match type of Q with context [gather_map ?f (delete i ?m)] => pose proof (num_nonneg p RRecv (gather_map f (delete i m))) end. lia.
    + intros m Hm. destruct (decide (m = j)) as [->|]; [unfold sp1; rewrite entry_set_eq by lia; apply entry_rights_none|].
      unfold sp1. rewrite entry_set_ne by lia. apply Em. lia.
    + exists s', sp'. split_and!; [done|done| |done]. rewrite W', W2. apply insert_insert_eq.
Qed.

(** A table given up with everything in it. *)
Lemma port_space_destroy_ok B s i sp :
  sys B s -> roomy s -> w_spaces s !! i = Some sp -> forsaken s sp ->
  exists s', port_space_destroy s i = Done s' /\ sys B s' /\ w_spaces s' = delete i (w_spaces s).
Proof.
  intros Sy Rm Hi Fs. pose proof (sy_inv _ _ Sy) as I. pose proof (i_space _ _ _ _ _ _ I i sp Hi) as Ok. pose proof (sk_cap _ Ok) as Hc.
  unfold port_space_destroy. rewrite (get_space_eq _ _ _ Hi), bind_Done.
  destruct (destroy_slots_ok B (length (ps_table sp) - 1) s i 1 sp I (rm_depth _ Rm) Hi) as (s1 & sp1 & E1 & I1 & W1 & T1); [done|unfold ps_capacity in *; lia|done| |].
  { intros m Hm. assert (m = 0) as -> by lia. by apply free_entry_rights, sk_null. }
  rewrite E1, bind_Done. eexists. split; [reflexivity|]. assert (delete i (w_spaces s1) = delete i (w_spaces s)) as Wd by (rewrite W1; apply delete_insert_eq).
  split; [|exact Wd]. split.
  - apply (spaces_inv B ∅ [] s1 ∅ ∅ _ I1).
    + unfold tables. rewrite (gather_map_delete _ (w_spaces s1) i sp1) by (by rewrite W1, lookup_insert_eq). fold (table_rights sp1). rewrite T1. symmetry. apply gmultiset_disj_union_left_id.
    + intros j sj [_ H]%lookup_delete_Some. split; [exact (i_space _ _ _ _ _ _ I1 j sj H)|]. apply (i_fresh_space _ _ _ _ _ _ I1). by eexists.
  - intros j sj H. cbn in H. rewrite Wd in H. apply lookup_delete_Some in H as [_ H]. by apply (sy_counted _ _ Sy j).
Qed.

End notify.
