(* ===== verification/PortXlate.v ===== *)
(** The descriptors of a message being sent: rights taken out of the sender's
    table, payloads taken out of its memory ([send_xlate_desc],
    [send_capture_ool] and the loop over them). *)

From stdpp Require Import base list gmap gmultiset strings numbers option.
From Stdlib Require Import ZArith Lia ZifyBool.
From S2P Require Import Prelude Owners VmMap Ports PortMsg PortBytes PortInv PortDeref PortSpace PortSets PortCalls.

Section xlate.
Context {V : Type} `{PS : PayloadSpec V}.
Abbreviation world := (world (V := V)).
Implicit Types (s : world) (p q : Z) (k : right) (B X : rights) (Y : goods) (E : gset Z) (L : list (Z * Z)).

(** * What a step of a send may change *)

(** [n] references more at most, the table of space [i], and nothing that
    holds a slot. *)
Record steps (i : Z) (n : nat) s s' : Prop := {
  st_port p po' : w_ports s' !! p = Some po' -> exists po, w_ports s !! p = Some po /\ p_refs po' <= p_refs po + Z.of_nat n /\
    p_qresv po' = p_qresv po /\ p_send_waiters po' `sublist_of` p_send_waiters po;
  st_load : (load ∅ s' <= load ∅ s)%nat;
  st_depth : w_depth s' = w_depth s;
  st_table : exists sp sp', w_spaces s !! i = Some sp /\ w_spaces s' = <[i := sp']> (w_spaces s) /\ ps_capacity sp' = ps_capacity sp /\
    (counted_space sp -> counted_space sp');
}.

Lemma steps_refl i s sp : w_spaces s !! i = Some sp -> steps i 0 s s.
Proof.
  intros Hi. split; [intros p po Hp; exists po; split_and!; [done|lia|done|done]|done|done|]. exists sp, sp. split_and!; [done|by rewrite insert_id|done|done].
Qed.

Lemma steps_trans i n m s1 s2 s3 : steps i n s1 s2 -> steps i m s2 s3 -> steps i (n + m) s1 s3.
Proof.
  intros [A1 A2 A3 (sp1 & sp2 & A4 & A5 & A6 & A7)] [B1 B2 B3 (sp3 & sp4 & B4 & B5 & B6 & B7)]. split; [|lia|congruence|].
  - intros p po3 H3. destruct (B1 p po3 H3) as (po2 & H2 & R2 & Q2 & W2). destruct (A1 p po2 H2) as (po1 & H1 & R1 & Q1 & W1).
    exists po1. split_and!; [done|lia|congruence|by etrans].
  - rewrite A5, lookup_insert_eq in B4. injection B4 as <-. exists sp1, sp4. split_and!; [done|by rewrite B5, A5, insert_insert_eq|congruence|auto].
Qed.

Lemma steps_more i n m s s' : (n <= m)%nat -> steps i n s s' -> steps i m s s'.
Proof.
  intros Hn [A1 A2 A3 A4]. split; try done. intros p po' H. destruct (A1 p po' H) as (po & H1 & R & Q). exists po. split; [done|]. split; [lia|done].
Qed.

Lemma steps_quiet i s s' sp : w_spaces s !! i = Some sp -> quiet ∅ s s' -> (load ∅ s' <= load ∅ s)%nat -> steps i 0 s s'.
Proof.
  intros Hi Q Ld. split; [|done|exact (qt_depth _ _ _ Q)|].
  - intros p po' H. destruct (qt_port _ _ _ Q p po' H) as (po & H1 & [L1 L2 L3 L4 L5]). exists po. split_and!; [done|lia|done|done].
  - exists sp, sp. split_and!; [done|by rewrite (qt_spaces _ _ _ Q), insert_id|done|done].
Qed.

Lemma steps_space i n s s' sp : steps i n s s' -> w_spaces s !! i = Some sp -> exists sp', w_spaces s' !! i = Some sp' /\ ps_capacity sp' = ps_capacity sp.
Proof. intros [_ _ _ (a & b & H1 & H2 & H3 & _)] Hi. exists b. rewrite H2, lookup_insert_eq. split; [done|congruence]. Qed.

(** Room for [n] references more. *)
Record room (n : nat) s : Prop := {
  ro_refs p po : w_ports s !! p = Some po -> p_refs po + Z.of_nat n < 2 ^ 32 - 3;
  ro_cap i sp : w_spaces s !! i = Some sp -> ps_capacity sp < 2 ^ 31;
  ro_depth : (2 * (load ∅ s + n + 3) + 1 < w_depth s)%nat;
}.

Lemma room_deep n s : room n s -> deep s.
Proof. intros [_ _ D]. unfold deep. lia. Qed.

Lemma room_steps i n m s s' : room (n + m) s -> steps i n s s' -> room m s'.
Proof.
  intros [R1 R2 R3] [S1 S2 S3 (sp & sp' & S4 & S5 & S6 & _)]. split.
  - intros p po' H. destruct (S1 p po' H) as (po & H1 & H2 & _). pose proof (R1 p po H1). lia.
  - intros j sj. rewrite S5. destruct (decide (j = i)) as [->|Hj].
    + rewrite lookup_insert_eq. intros [= <-]. rewrite S6. by apply (R2 i).
    + rewrite lookup_insert_ne by done. apply R2.
  - rewrite S3. lia.
Qed.

(** * References for a message *)

Lemma ref_ok B s X Y i sp p po r n :
  inv B ∅ [] s X Y -> room (S n) s -> w_spaces s !! i = Some sp -> w_ports s !! p = Some po ->
  r = MACH_PORT_RIGHT_SEND \/ r = MACH_PORT_RIGHT_SEND_ONCE ->
  exists s', port_ref s p r = Done s' /\ inv B ∅ [] s' (rights_of p r ⊎ X) Y /\ steps i 1 s s' /\ w_spaces s' = w_spaces s.
Proof.
  intros I Rm Hi Hp Hr. assert (has r MACH_PORT_RIGHT_RECEIVE = false) as Nr by (by destruct Hr as [->| ->]).
  assert (Z.b2z (has r MACH_PORT_RIGHT_SEND) + Z.b2z (has r MACH_PORT_RIGHT_SEND_ONCE) = 1) as Eb by (by destruct Hr as [->| ->]).
  pose proof (ro_refs _ _ Rm p po Hp) as Rf. exists (put_port s p (reffed po r)). split_and!.
  - apply port_ref_eq; [done|apply (counted _ _ _ _ _ _ p po I Hp); lia|congruence].
  - apply ref_inv; [done|done|set_solver|congruence].
  - split; [| |done|].
    + intros q qo Hq. cbn in Hq. destruct (decide (q = p)) as [->|Hn].
      * rewrite lookup_insert_eq in Hq. injection Hq as <-. exists po. split_and!; [done| |done|done]. unfold reffed. fields. rewrite Nr. lia.
      * rewrite lookup_insert_ne in Hq by done. exists qo. split_and!; [done|lia|done|done].
    + pose proof (load_put ∅ s p po (reffed po r) Hp ltac:(set_solver)) as Q. change (port_rights (reffed po r)) with (port_rights po) in Q. lia.
    + exists sp, sp. split_and!; [done|cbn; by rewrite insert_id|done|done].
  - done.
Qed.

(** * Rights of a name *)

Lemma steps_without i s sp name p e r :
  w_spaces s !! i = Some sp -> (counted_space sp -> counted_space (without_right sp name p e r)) ->
  steps i 0 s (put_space s i (without_right sp name p e r)).
Proof.
  intros Hi Ct. split; [|done|done|].
  - intros q qo Hq. exists qo. split_and!; [done|lia|done|done].
  - exists sp. eexists. split_and!; [done|done| |done]. unfold without_right. case_match; unfold ps_capacity, dropped; cbn; by rewrite length_insert.
Qed.

(** The receive right leaves the table with the message. *)
Lemma unbind_receive_ok B s X Y i sp name p e po :
  inv B ∅ [] s X Y -> w_spaces s !! i = Some sp -> ps_capacity sp < 2 ^ 31 -> 0 <= name -> entry_at s i name = mkPe (Some p) None e false ->
  Z.land MACH_PORT_RIGHT_RECEIVE e = MACH_PORT_RIGHT_RECEIVE -> w_ports s !! p = Some po -> p_set po = None ->
  exists s', space_unbind_no_deref s i name MACH_PORT_RIGHT_RECEIVE = Done (MACH_MSG_OK, s') /\
    inv B ∅ [] s' (rights_of p MACH_PORT_RIGHT_RECEIVE ⊎ X) Y /\ steps i 0 s s' /\ renamed s s' i name (without p e MACH_PORT_RIGHT_RECEIVE).
Proof.
  intros I Hi Hc Hn He Hr Hp Hs. pose proof (i_space _ _ _ _ _ _ I i sp Hi) as Ok.
  destruct (take_right_ok s i sp name p e MACH_PORT_RIGHT_RECEIVE Hi Ok Hc Hn He ltac:(done) Hr) as (Et & Ok' & Ct & Tr & Rn).
  unfold space_unbind_no_deref. rewrite Et, bind_Done. eexists. split; [reflexivity|]. split_and!; [|by apply steps_without|exact Rn].
  apply (put_space_inv B ∅ [] s X Y B _ i sp _ I Hi Ok'); [rewrite Tr; mult_at x|done|]. intros q k Hk Hw. rewrite Tr, !num_union, num_rights_of.
  destruct (decide (q = p)) as [->|]; [|lia]. exfalso. destruct Hw as [H|(qo & Hq & Hqs)]; [by apply not_elem_of_nil in H|]. congruence.
Qed.

(** A name gives up a right to send. *)
Lemma drop_send_ok B s X Y i sp name p e r :
  inv B ∅ [] s X Y -> deep s -> w_spaces s !! i = Some sp -> ps_capacity sp < 2 ^ 31 -> 0 <= name -> entry_at s i name = mkPe (Some p) None e false ->
  r = MACH_PORT_RIGHT_SEND \/ r = MACH_PORT_RIGHT_SEND_ONCE -> Z.land r e = r ->
  exists s', space_drop_one_right s i name r = Done (MACH_MSG_OK, s') /\ inv B ∅ [] s' X Y /\ renamed s s' i name (without p e r) /\ steps i 0 s s'.
Proof.
  intros I Dp Hi Hc Hn He Hr Hs. assert (0 < r /\ has r MACH_PORT_RIGHT_RECEIVE = false) as [R0 Nr] by (by destruct Hr as [->| ->]).
  destruct (drop_one_right_ok B s X Y i sp name p e r I Dp Hi Hc Hn He R0 Hs) as (s' & E' & I' & Rn & Q & Ld).
  { intros po _ Hh. congruence. }
  exists s'. split_and!; [done|done|done|]. change 0%nat with (0 + 0)%nat. eapply steps_trans.
  - apply (steps_without i s sp name p e r Hi). by apply (take_right_ok s i sp name p e r Hi (i_space _ _ _ _ _ _ I i sp Hi) Hc Hn He R0 Hs).
  - eapply steps_quiet; [cbn; by rewrite lookup_insert_eq|exact Q|exact Ld].
Qed.

(** * [send_xlate_desc] *)

(** The right a descriptor's disposition carries. *)
Definition disposed (d : Z) : Z :=
  if d =? MACH_MSG_TYPE_MOVE_RECEIVE then MACH_PORT_RIGHT_RECEIVE
  else if (d =? MACH_MSG_TYPE_MAKE_SEND_ONCE) || (d =? MACH_MSG_TYPE_MOVE_SEND_ONCE) then MACH_PORT_RIGHT_SEND_ONCE else MACH_PORT_RIGHT_SEND.

(** The name's right is in the message now, or nothing happened. *)
Inductive xlated B s X Y i name (r : Z) : Z -> pending_desc -> world -> Prop :=
| xlated_ok p s' : one_right r -> pe_port (entry_at s i name) = Some p -> inv B ∅ [] s' (rights_of p r ⊎ X) Y ->
    xlated B s X Y i name r MACH_MSG_OK (carries p r) s'
| xlated_refused rv : rv <> MACH_MSG_OK -> xlated B s X Y i name r rv pd_zero s.

Lemma xlate_grant_ok B s X Y i sp name need r n :
  inv B ∅ [] s X Y -> room (S n) s -> w_spaces s !! i = Some sp -> one_right need -> r = MACH_PORT_RIGHT_SEND \/ r = MACH_PORT_RIGHT_SEND_ONCE ->
  exists rv pd s', (x ← space_lookup s i name need;
    match x with
    | None => Done (MACH_E_RIGHT, pd_zero, s)
    | Some (p, _) => s ← port_ref s p r; Done (MACH_MSG_OK, carries p r, s)
    end) = Done (rv, pd, s') /\ xlated B s X Y i name r rv pd s' /\ steps i 1 s s'.
Proof.
  intros I Rm Hi Hd Hr. rewrite (space_lookup_eq s i sp name need Hi (i_space _ _ _ _ _ _ I i sp Hi) (ro_cap _ _ Rm i sp Hi)), bind_Done.
  destruct (lookup_entry (entry_at s i name) need) as [[p e]|] eqn:El.
  - destruct (found_right B s X Y i sp name p e need (if need =? MACH_PORT_RIGHT_RECEIVE then RRecv else if need =? MACH_PORT_RIGHT_SEND then RSend else ROnce) I Hi El)
      as (_ & po & Hp & _); [destruct Hd as [->|[->| ->]]; set_solver|].
    destruct (ref_ok B s X Y i sp p po r n I Rm Hi Hp Hr) as (s' & Er & I' & St & _). rewrite Er, bind_Done.
    eexists _, _, _. split; [reflexivity|]. split; [|exact St]. apply xlated_ok; [by right| |done].
    by apply lookup_entry_some in El as (? & _).
  - eexists _, _, _. split; [reflexivity|]. split; [by apply xlated_refused|]. apply (steps_more i 0); [lia|by eapply steps_refl].
Qed.

Lemma xlate_move_ok B s X Y i sp name r n :
  inv B ∅ [] s X Y -> room (S n) s -> w_spaces s !! i = Some sp -> 0 <= name -> r = MACH_PORT_RIGHT_SEND \/ r = MACH_PORT_RIGHT_SEND_ONCE ->
  exists rv pd s', (x ← space_lookup s i name r;
    match x with
    | None => Done (MACH_E_RIGHT, pd_zero, s)
    | Some (p, _) =>
        s ← port_ref s p r;
        y ← space_drop_one_right s i name r;
        let '(rv, s) := (y : Z * world) in
        if negb (rv =? MACH_MSG_OK) then s ← port_deref s p r; Done (MACH_E_NAME, pd_zero, s)
        else Done (MACH_MSG_OK, carries p r, s)
    end) = Done (rv, pd, s') /\ xlated B s X Y i name r rv pd s' /\ steps i 1 s s'.
Proof.
  intros I Rm Hi Hn Hr. assert (one_right r) as Or by (by right).
  rewrite (space_lookup_eq s i sp name r Hi (i_space _ _ _ _ _ _ I i sp Hi) (ro_cap _ _ Rm i sp Hi)), bind_Done.
  destruct (lookup_entry (entry_at s i name) r) as [[p e]|] eqn:El.
  - destruct (found_right B s X Y i sp name p e r (if r =? MACH_PORT_RIGHT_SEND then RSend else ROnce) I Hi El) as (_ & po & Hp & _);
      [destruct Hr as [->| ->]; set_solver|].
    destruct (found_entry B s X Y i sp name p e r I Hi El) as (He & Hm & Hl).
    destruct (ref_ok B s X Y i sp p po r n I Rm Hi Hp Hr) as (s1 & Er & I1 & S1 & Es). rewrite Er, bind_Done.
    destruct (drop_send_ok B s1 (rights_of p r ⊎ X) Y i sp name p e r I1) as (s2 & E2 & I2 & _ & S2); [|by rewrite Es|by apply (ro_cap _ _ Rm i)|done| |done|by rewrite Z.land_comm|].
    + eapply (room_deep n), (room_steps i 1); [exact Rm|exact S1].
    + unfold entry_at in *. by rewrite Es.
    + rewrite E2, bind_Done. eexists _, _, _. split; [reflexivity|]. split; [|exact (steps_trans _ 1 0 _ _ _ S1 S2)].
      apply xlated_ok; [done| |done]. by apply lookup_entry_some in El as (? & _).
  - eexists _, _, _. split; [reflexivity|]. split; [by apply xlated_refused|]. apply (steps_more i 0); [lia|by eapply steps_refl].
Qed.

Lemma xlate_receive_ok B s X Y i sp name :
  inv B ∅ [] s X Y -> w_spaces s !! i = Some sp -> ps_capacity sp < 2 ^ 31 -> 0 <= name ->
  exists rv pd s', send_xlate_desc s i name MACH_MSG_TYPE_MOVE_RECEIVE = Done (rv, pd, s') /\
    xlated B s X Y i name MACH_PORT_RIGHT_RECEIVE rv pd s' /\ steps i 0 s s'.
Proof.
  intros I Hi Hc Hn. unfold send_xlate_desc. cbv beta zeta. rewrite Z.eqb_refl.
  rewrite (space_lookup_eq s i sp name _ Hi (i_space _ _ _ _ _ _ I i sp Hi) Hc), bind_Done.
  assert (forall rv, rv <> MACH_MSG_OK -> exists rv' pd s', (Done (rv, pd_zero, s) : res (Z * pending_desc * world)) = Done (rv', pd, s') /\
    xlated B s X Y i name MACH_PORT_RIGHT_RECEIVE rv' pd s' /\ steps i 0 s s') as Ref.
  { intros rv Hv. eexists _, _, _. split; [reflexivity|]. split; [by apply xlated_refused|by eapply steps_refl]. }
  destruct (lookup_entry _ _) as [[p e]|] eqn:El; [|by apply Ref].
  destruct (found_right B s X Y i sp name p e _ RRecv I Hi El) as (_ & po & Hp & _); [set_solver|].
  rewrite (get_port_eq _ _ _ Hp), bind_Done. destruct (bool_decide_reflect (p_set po = None)) as [Hs|]; [|by apply Ref].
  destruct (bool_decide_reflect (p_waiters po = [])); [|by apply Ref]. cbn [andb negb].
  destruct (found_entry B s X Y i sp name p e _ I Hi El) as (He & Hm & Hl).
  destruct (unbind_receive_ok B s X Y i sp name p e po I Hi Hc Hn He) as (s1 & E1 & I1 & S1 & _); [by rewrite Z.land_comm|done|done|].
  rewrite E1, bind_Done. eexists _, _, _. split; [reflexivity|]. split; [|done]. apply xlated_ok; [by left| |done]. by apply lookup_entry_some in El as (? & _).
Qed.

Lemma send_xlate_desc_ok B s X Y i sp name d n :
  inv B ∅ [] s X Y -> room (S n) s -> w_spaces s !! i = Some sp -> 0 <= name ->
  exists rv pd s', send_xlate_desc s i name d = Done (rv, pd, s') /\ xlated B s X Y i name (disposed d) rv pd s' /\ steps i 1 s s'.
Proof.
  intros I Rm Hi Hn. destruct (decide (d = MACH_MSG_TYPE_MOVE_RECEIVE)) as [->|Nd].
  { destruct (xlate_receive_ok B s X Y i sp name I Hi (ro_cap _ _ Rm i sp Hi) Hn) as (rv & pd & s' & E & Xl & St).
    exists rv, pd, s'. split_and!; [done|done|]. apply (steps_more i 0); [lia|done]. }
  unfold send_xlate_desc, disposed. cbv beta zeta. rewrite (proj2 (Z.eqb_neq _ _) Nd).
  destruct (d =? MACH_MSG_TYPE_MAKE_SEND) eqn:E1; [assert (d = MACH_MSG_TYPE_MAKE_SEND) as -> by lia|].
  { apply (xlate_grant_ok B s X Y i sp name _ _ n I Rm Hi); [by left|by left]. }
  destruct (d =? MACH_MSG_TYPE_COPY_SEND) eqn:E2; [assert (d = MACH_MSG_TYPE_COPY_SEND) as -> by lia|].
  { apply (xlate_grant_ok B s X Y i sp name _ _ n I Rm Hi); [by right; left|by left]. }
  destruct (d =? MACH_MSG_TYPE_MOVE_SEND) eqn:E3; [assert (d = MACH_MSG_TYPE_MOVE_SEND) as -> by lia|].
  { apply (xlate_move_ok B s X Y i sp name _ n I Rm Hi Hn). by left. }
  destruct (d =? MACH_MSG_TYPE_MAKE_SEND_ONCE) eqn:E4; [cbn [orb]|cbn [orb]].
  { apply (xlate_grant_ok B s X Y i sp name _ _ n I Rm Hi); [by left|by right]. }
  destruct (d =? MACH_MSG_TYPE_MOVE_SEND_ONCE) eqn:E5.
  { apply (xlate_move_ok B s X Y i sp name _ n I Rm Hi Hn). by right. }
  eexists _, _, _. split; [reflexivity|]. split; [by apply xlated_refused|]. apply (steps_more i 0); [lia|by eapply steps_refl].
Qed.

(** * Payloads *)

Lemma steps_same i s s' sp :
  w_spaces s !! i = Some sp -> w_ports s' = w_ports s -> w_spaces s' = w_spaces s -> w_depth s' = w_depth s -> steps i 0 s s'.
Proof.
  intros Hi H1 H2 H3. split; [|unfold load, in_transit; rewrite H1; done|done|].
  - intros p po. rewrite H1. intros Hp. exists po. split_and!; [done|lia|done|done].
  - exists sp, sp. split_and!; [done|by rewrite H2, insert_id|done|done].
Qed.

Lemma payload_frames pas : unmapped (payload pas).
Proof.
  intros t va n H. apply elem_of_list_to_set_disj in H. apply list_elem_of_fmap in H as (pa & H & _). discriminate H.
Qed.

Lemma gather_unmapped {A} (f : A -> goods) l : (forall x, unmapped (f x)) -> unmapped (gather f l).
Proof.
  intros H t va n. induction l as [|x l IH]; [set_solver|]. rewrite gather_cons.
  intros [D|D]%gmultiset_elem_of_disj_union; [by eapply H|by apply IH].
Qed.

Lemma none_unmapped : unmapped ∅.
Proof. intros t va n. set_solver. Qed.

Lemma desc_unmapped d : unmapped (desc_frames d).
Proof. unfold desc_frames. destruct (_ =? _); [|apply none_unmapped]. destruct (pd_ool_pages d); [apply payload_frames|apply none_unmapped]. Qed.

Lemma stored_unmapped E m : unmapped (stored port_frames E m).
Proof.
  unfold stored, gather_map. apply gather_unmapped. intros [p po]. cbn [fst snd]. destruct (decide _); [apply none_unmapped|].
  apply gather_unmapped. intros msg. apply gather_unmapped, desc_unmapped.
Qed.

Lemma unmapped_union Y1 Y2 : unmapped Y1 -> unmapped Y2 -> unmapped (Y1 ⊎ Y2).
Proof. intros H1 H2 t va n [D|D]%gmultiset_elem_of_disj_union; [by eapply H1|by eapply H2]. Qed.

(** The address spaces change, and what is in flight with them. *)
Lemma vm_inv B E L s X Y Y' v :
  inv B E L s X Y -> pl_inv v (stored port_frames E (w_ports s) ⊎ Y') -> inv B E L (upd_vm s v) X Y'.
Proof. intros I Hv. split; try apply I. exact Hv. Qed.

(** A call that may fault ([F]) or ends with [Q]. *)
Definition safe (F : Prop) {A} (c : res A) (Q : A -> Prop) : Prop := match c with Done x => Q x | Panic _ => F end.

Lemma safe_bind (F : Prop) {A A'} (c : res A) (f : A -> res A') (P : A -> Prop) (Q : A' -> Prop) :
  safe F c P -> (forall x, P x -> safe F (f x) Q) -> safe F (c ≫= f) Q.
Proof. destruct c as [x|]; [|done]. intros H Hf. rewrite bind_Done. by apply Hf. Qed.

Lemma safe_weaken (F F' : Prop) {A} (c : res A) (P Q : A -> Prop) : safe F c P -> (F -> F') -> (forall x, P x -> Q x) -> safe F' c Q.
Proof. destruct c; cbn; auto. Qed.

(** What a capture leaves: the frames in the message, or nothing. *)
Inductive captured B s X Y i : Z -> pending_desc -> world -> Prop :=
| captured_ok pd s' : carried pd -> desc_size pd = OOL_DESC -> desc_rights pd = ∅ -> inv B ∅ [] s' X (desc_frames pd ⊎ Y) -> steps i 0 s s' ->
    captured B s X Y i MACH_MSG_OK pd s'
| captured_refused rv s' : rv <> MACH_MSG_OK -> inv B ∅ [] s' X Y -> steps i 0 s s' -> captured B s X Y i rv ool_empty s'.

Lemma capture_user_or_kernel v (fk : bool) t addr size n pas v' Y :
  pl_inv v Y -> unmapped Y -> (if fk then pl_capture_kernel v addr size n else pl_capture_user v t addr size n) = Done (pas, v') ->
  pl_inv v' ((if Z.of_nat (length pas) =? n then payload pas else ∅) ⊎ Y).
Proof. intros I U E. destruct fk; [by eapply pl_capture_kernel_ok|by eapply pl_capture_user_ok]. Qed.

Lemma send_capture_ool_safe B s X Y i sp c copy dealloc size addr :
  inv B ∅ [] s X Y -> unmapped Y -> w_spaces s !! i = Some sp -> 0 <= size ->
  safe True (send_capture_ool s c copy dealloc size addr) (fun r => captured B s X Y i r.1.1 r.1.2 r.2).
Proof.
  intros I U Hi H0. unfold send_capture_ool. cbv beta zeta.
  assert (steps i 0 s s) as Sr by (by eapply steps_refl).
  destruct (size =? 0) eqn:Ez.
  { apply captured_ok; [apply carried_nothing|done|done| |done]. change (desc_frames ool_empty) with (∅ : goods). by rewrite gmultiset_disj_union_left_id. }
  destruct (_ <? size) eqn:Em; [by apply captured_refused|]. destruct (_ && _); [by apply captured_refused|].
  destruct (_ && _); [by apply captured_refused|]. set (n := Z.shiftr (page_round size) 12).
  destruct (w_kmalloc s) as [ok s1] eqn:Ek. unfold w_kmalloc in Ek. destruct (kmalloc_ok (w_heap s)) as [ok' h]. injection Ek as -> <-.
  assert (inv B ∅ [] (upd_heap s h) X Y) as I1 by (by apply (same_inv _ _ _ s)).
  assert (forall v, steps i 0 s (upd_vm (upd_heap s h) v)) as Sv by (intros v; by eapply steps_same).
  destruct ok; cbn [negb]; [|apply captured_refused; [done|done|by eapply steps_same]].
  change (w_vm (upd_heap s h)) with (w_vm s). destruct (if from_kernel (w_vm s) c then _ else _) as [[pas v]|] eqn:Ec; [|done]. rewrite bind_Done.
  assert (unmapped (stored port_frames ∅ (w_ports s) ⊎ Y)) as Us by (apply unmapped_union; [apply stored_unmapped|done]).
  pose proof (capture_user_or_kernel _ _ _ _ _ _ _ _ _ (i_vm _ _ _ _ _ _ I) Us Ec) as Iv.
  destruct (Z.of_nat (length pas) =? n) eqn:El; cbn [negb].
  2:{ apply captured_refused; [done| |apply Sv]. eapply vm_inv; [exact I1|]. by rewrite gmultiset_disj_union_left_id in Iv. }
  set (pd := mkPd MACH_MSG_OOL_DESCRIPTOR 0 None size (Some pas)).
  assert (carried pd) as Cd by (apply carried_ool; lia).
  assert (payload pas ⊎ (stored port_frames ∅ (w_ports s) ⊎ Y) = stored port_frames ∅ (w_ports s) ⊎ (desc_frames pd ⊎ Y)) as Ey by (change (desc_frames pd) with (payload pas); mult_at x).
  rewrite Ey in Iv. assert (unmapped (stored port_frames ∅ (w_ports s) ⊎ (desc_frames pd ⊎ Y))) as Us'.
  { apply unmapped_union; [apply stored_unmapped|]. apply unmapped_union; [apply desc_unmapped|done]. }
  change (w_vm (upd_vm (upd_heap s h) v)) with v. destruct (_ && _).
  - destruct (pl_unmap_ok v (c_task c) addr (page_round size) _ Iv Us') as (b & v' & Eu & Iu). rewrite Eu, bind_Done.
    apply captured_ok; [done|done|done| |by eapply steps_same]. eapply vm_inv; [eapply vm_inv; [exact I1|exact Iv]|exact Iu].
  - apply captured_ok; [done|done|done| |apply Sv]. eapply vm_inv; [exact I1|exact Iv].
Qed.

End xlate.
