(* ===== verification/PortSlot.v ===== *)
(** The destination of a send: the reference that keeps it alive and the slot
    of its queue that is promised ([dest_ref], [msg_reserve] and their
    converses).  Neither outlives the send. *)

From stdpp Require Import base list gmap gmultiset strings numbers option.
From Stdlib Require Import ZArith Lia ZifyBool.
From S2P Require Import Prelude Owners VmMap Ports PortMsg PortBytes PortInv PortDeref PortSpace PortSets PortCalls PortXlate.

Section slots.
Context {V : Type} `{PS : PayloadSpec V}.
Abbreviation world := (world (V := V)).
Implicit Types (s : world) (p q : Z) (k : right) (B X : rights) (Y : goods) (E : gset Z) (L : list (Z * Z)).

(** * Rights between the base and the caller *)

(** Tokens that are no references may be dropped once nothing needs them. *)
Lemma loosen_inv B s T X Y :
  inv (T ⊎ B) ∅ [] s X Y -> (forall p k, real k \/ k = RSet -> num p k T = 0) -> (forall p po, w_ports s !! p = Some po -> pinned B p po) ->
  inv B ∅ [] s X Y.
Proof.
  intros I Ht Hp. assert (forall p k, real k \/ k = RSet -> num p k (owners (T ⊎ B) ∅ s X) = num p k (owners B ∅ s X)) as Ow.
  { intros p k Hk. rewrite !num_owners, num_union, Ht by done. lia. }
  split; try apply I; try done.
  - intros p po H. eapply tally_ext, (i_tally _ _ _ _ _ _ I p po H). intros k Hk. apply Ow. by left.
  - intros p k H Hk. apply (i_live _ _ _ _ _ _ I p k); [|done]. apply num_pos. rewrite Ow by (by left). by apply num_pos.
  - intros p po q H Hs. destruct (i_member _ _ _ _ _ _ I p po q H Hs) as [M%num_pos D]. split; [|exact D]. apply num_pos.
    rewrite !num_union, Ht in M by (by left). rewrite num_union. lia.
  - intros q st Hq. rewrite (i_setrefs _ _ _ _ _ _ I q st Hq). apply Ow. by right.
  - intros q Hq. apply (i_setlive _ _ _ _ _ _ I q). apply num_pos. rewrite Ow by (by right). by apply num_pos.
  - intros p q H. by apply not_elem_of_nil in H.
Qed.

(** A right held for the length of a call is a local once nothing rests on it. *)
Lemma unkeep_inv B s R X Y :
  inv (R ⊎ B) ∅ [] s X Y -> (forall p, num p RRecv R = 0) -> (forall p po, w_ports s !! p = Some po -> pinned B p po) -> inv B ∅ [] s (R ⊎ X) Y.
Proof.
  intros I Hr Hp. assert (owners B ∅ s (R ⊎ X) = owners (R ⊎ B) ∅ s X) as Ow by (unfold owners; mult_at x).
  split; rewrite ?Ow; try apply I; try done.
  - intros p po q H Hs. destruct (i_member _ _ _ _ _ _ I p po q H Hs) as [M%num_pos D]. split; [|exact D]. apply num_pos.
    rewrite !num_union, Hr in M. rewrite num_union. lia.
  - intros p q H. by apply not_elem_of_nil in H.
Qed.

(** * The reference *)

Definition pin (p kind : Z) : rights := if kind =? 0 then {[+ (p, RHold) +]} else rights_of p kind.
Definition kind_ok (kind : Z) : Prop := kind = 0 \/ kind = MACH_PORT_RIGHT_SEND \/ kind = MACH_PORT_RIGHT_SEND_ONCE.

Lemma num_pin q k p kind : kind_ok kind -> q <> p \/ k = RRecv \/ ~ real k -> num q k (pin p kind) = 0.
Proof.
  intros Hk H. unfold pin. destruct (kind =? 0) eqn:Ez.
  - rewrite num_one. case_decide as D; [|done]. injection D as -> ->. destruct H as [H|[H|H]]; [done|done|by destruct H].
  - rewrite num_rights_of. destruct (decide (q = p)) as [->|]; [|done]. destruct H as [H|H]; [done|].
    destruct k; try reflexivity; (destruct H as [H|H]; [try discriminate H|by destruct H]). by destruct Hk as [->|[->| ->]].
Qed.

Lemma pins_pin p kind : kind_ok kind -> pins p (pin p kind) = 1.
Proof.
  intros Hk. unfold pin. destruct (kind =? 0) eqn:Ez.
  - unfold pins. rewrite !num_one. repeat case_decide; simplify_eq; done.
  - rewrite pins_rights_of, decide_True by done. rewrite size_rights_of. by destruct Hk as [->|[->| ->]].
Qed.

Lemma hold_inv B s X Y p po :
  inv B ∅ [] s X Y -> w_ports s !! p = Some po ->
  inv B ∅ [] (put_port s p (with_counts po (p_refs po + 1) (p_send_count po) (p_send_once_count po))) ({[+ (p, RHold) +]} ⊎ X) Y.
Proof.
  intros I Hp. set (po' := with_counts _ _ _ _). assert (p ∉ (∅ : gset Z)) as He by set_solver. pose proof (i_held _ _ _ _ _ _ I p po Hp He) as Hh.
  assert ((p_refs po' =? 0) = false) as Ez by (unfold po'; fields; lia).
  assert (shut ∅ p po' = ∅) as Es by (unfold shut; by rewrite Ez). rewrite <- Es at 1.
  apply (put_inv B ∅ [] s X Y B [] _ _ p po po' I Hp He); [unfold po'; fields; lia| | | |done|exact (i_pinned _ _ _ _ _ _ I p po Hp)|].
  - unfold kept. rewrite Ez. change (port_rights po') with (port_rights po).
    assert (forall q k, num q k (port_rights po ⊎ (B ⊎ ({[+ (p, RHold) +]} ⊎ X))) =
      num q k (port_rights po ⊎ (B ⊎ X)) + (if decide ((q, k) = (p, RHold)) then 1 else 0)) as N by (intros; rewrite !num_union, num_one; lia).
    split; [intros q k Hq|..]; rewrite ?N; unfold po'; fields; repeat case_decide; simplify_eq; try lia. destruct Hq; done.
  - apply port_ok_counts. exact (i_port _ _ _ _ _ _ I p po Hp).
  - unfold kept_frames. by rewrite Ez.
  - apply stays; [done| |by intros H%not_elem_of_nil]. intros Hn. destruct (p_set po) as [q|] eqn:Eq; [|done]. apply num_pos.
    exact (proj1 (i_member _ _ _ _ _ _ I p po q Hp Eq)).
Qed.

(** A port changed in its counters only. *)
Lemma steps_counts i s sp p po a b c n :
  w_spaces s !! i = Some sp -> w_ports s !! p = Some po -> a <= p_refs po + Z.of_nat n -> steps i n s (put_port s p (with_counts po a b c)).
Proof.
  intros Hi Hp Ha. split.
  - intros q qo Hq. cbn in Hq. destruct (decide (q = p)) as [->|Hn].
    + rewrite lookup_insert_eq in Hq. injection Hq as <-. exists po. by split_and!.
    + rewrite lookup_insert_ne in Hq by done. exists qo. split_and!; [done|lia|done|done].
  - pose proof (load_put ∅ s p po (with_counts po a b c) Hp ltac:(set_solver)) as Q. change (port_rights (with_counts po a b c)) with (port_rights po) in Q. lia.
  - done.
  - exists sp, sp. split_and!; [done|cbn; by rewrite insert_id|done|done].
Qed.

Lemma dest_ref_ok B s X Y i sp p po kind n :
  inv B ∅ [] s X Y -> room (S n) s -> w_spaces s !! i = Some sp -> w_ports s !! p = Some po -> kind_ok kind ->
  exists s', dest_ref s p kind = Done s' /\ inv (pin p kind ⊎ B) ∅ [] s' X Y /\ steps i 1 s s' /\ w_spaces s' = w_spaces s.
Proof.
  intros I Rm Hi Hp Hk. unfold dest_ref, pin. destruct (kind =? 0) eqn:Ez.
  - unfold port_hold. rewrite (get_port_eq _ _ _ Hp), bind_Done. pose proof (ro_refs _ _ Rm p po Hp). pose proof (i_held _ _ _ _ _ _ I p po Hp ltac:(set_solver)).
    rewrite w32_small by lia. eexists. split; [reflexivity|]. split; [by apply keep_inv, hold_inv|]. split; [by eapply steps_counts|done].
  - destruct (ref_ok B s X Y i sp p po kind n I Rm Hi Hp) as (s' & E' & I' & St & Es); [destruct Hk as [->|[]]; [done|by left|by right]|].
    exists s'. split_and!; [done|by apply keep_inv|done|done].
Qed.

Lemma pin_kept B s X Y p kind : inv (pin p kind ⊎ B) ∅ [] s X Y -> kind_ok kind -> exists po, w_ports s !! p = Some po.
Proof.
  intros I Hk. assert (exists k, real k /\ 0 < num p k (pin p kind)) as (k & Rk & Nk).
  { unfold pin. destruct (kind =? 0) eqn:Ez; [exists RHold; split; [done|rewrite num_one, decide_True by done; done]|].
    destruct Hk as [->|[->| ->]]; [done|exists RSend|exists ROnce]; (split; [done|]); rewrite num_rights_of, decide_True by done; done. }
  destruct (outside_live _ _ _ _ _ _ p k I) as (po & Hp & _); [|done|by exists po]. apply num_pos. rewrite !num_union.
  pose proof (num_nonneg p k (tables s)). pose proof (num_nonneg p k B). lia.
Qed.

(** The reference given back. *)
Lemma dest_unref_ok B s X Y p kind :
  inv (pin p kind ⊎ B) ∅ [] s X Y -> kind_ok kind -> deep s -> (forall po, w_ports s !! p = Some po -> pinned B p po) ->
  exists s', dest_unref s p kind = Done s' /\ inv B ∅ [] s' X Y /\ quiet ∅ s s' /\ (load ∅ s' <= load ∅ s)%nat.
Proof.
  intros I Hk Dp Pin. assert (inv B ∅ [] s (pin p kind ⊎ X) Y) as I1.
  { apply unkeep_inv; [done|intros q; apply num_pin; auto|]. intros q qo Hq. destruct (decide (q = p)) as [->|Hn]; [by apply Pin|].
    apply (pinned_more _ _ _ _ (i_pinned _ _ _ _ _ _ I q qo Hq)). intros k. rewrite num_union, num_pin by auto. lia. }
  unfold dest_unref, pin, deep in *. destruct (kind =? 0) eqn:Ez.
  - destruct (port_release_ok B ∅ s X Y p I1) as (s' & H); [lia|by exists s'].
  - assert (one_right kind) as Or by (destruct Hk as [->|[->| ->]]; [done|right; by left|right; by right]).
    destruct (port_deref_local B ∅ [] s X Y p kind I1) as (s' & H); [by apply one_right_mask| |by exists s'].
    unfold cost. pose proof (size_rights_le p kind). destruct (has kind MACH_PORT_RIGHT_RECEIVE); lia.
Qed.

(** * The slot *)

(** What is no reference and no name of a set. *)
Definition tokens (T : rights) : Prop := forall p k, real k \/ k = RSet -> num p k T = 0.

Lemma token_slot b p : tokens (when b (p, RSlot)).
Proof. intros q k H. rewrite num_when. case_decide as D; [|done]. injection D as -> ->. by destruct H. Qed.
Lemma token_wait p th : tokens {[+ (p, RWait th) +]}.
Proof. intros q k H. rewrite num_one. case_decide as D; [|done]. injection D as -> ->. by destruct H. Qed.

Lemma tighten_inv B s T X Y : inv B ∅ [] s X Y -> tokens T -> inv (T ⊎ B) ∅ [] s X Y.
Proof.
  intros I Ht. assert (forall p k, real k \/ k = RSet -> num p k (owners (T ⊎ B) ∅ s X) = num p k (owners B ∅ s X)) as Ow.
  { intros p k Hk. rewrite !num_owners, num_union, Ht by done. lia. }
  split; try apply I.
  - intros p po H. eapply tally_ext, (i_tally _ _ _ _ _ _ I p po H). intros k Hk. symmetry. apply Ow. by left.
  - intros p k H Hk. apply (i_live _ _ _ _ _ _ I p k); [|done]. apply num_pos. rewrite <- Ow by (by left). by apply num_pos.
  - intros p po H. apply (pinned_more B _ p po (i_pinned _ _ _ _ _ _ I p po H)). intros k. rewrite num_union. pose proof (num_nonneg p k T). lia.
  - intros p po q H Hs. destruct (i_member _ _ _ _ _ _ I p po q H Hs) as [M%num_pos D]. split; [|exact D]. apply num_pos.
    rewrite !num_union in *. rewrite Ht by (by left). lia.
  - intros q st Hq. rewrite (i_setrefs _ _ _ _ _ _ I q st Hq). symmetry. apply Ow. by right.
  - intros q Hq. apply (i_setlive _ _ _ _ _ _ I q). apply num_pos. rewrite <- Ow by (by right). by apply num_pos.
  - intros p q H. by apply not_elem_of_nil in H.
Qed.

(** Nothing changed but slots and waiting senders. *)
Record alike s s' : Prop := {
  al_ports p po' : w_ports s' !! p = Some po' -> exists po, w_ports s !! p = Some po /\ p_refs po' = p_refs po;
  al_load : load ∅ s' = load ∅ s;
  al_depth : w_depth s' = w_depth s;
  al_spaces : w_spaces s' = w_spaces s;
}.

Lemma alike_refl s : alike s s.
Proof. split; [|done|done|done]. intros p po H. by exists po. Qed.
Lemma alike_trans s1 s2 s3 : alike s1 s2 -> alike s2 s3 -> alike s1 s3.
Proof.
  intros [A1 A2 A3 A4] [B1 B2 B3 B4]. split; [|congruence|congruence|congruence]. intros p po3 H3. destruct (B1 p po3 H3) as (po2 & H2 & R2).
  destruct (A1 p po2 H2) as (po1 & H1 & R1). exists po1. split; [done|congruence].
Qed.
Lemma alike_wake s o : alike s (wake_opt s o).
Proof. split; [|done|done|done]. intros p po H. by exists po. Qed.
Lemma room_alike n s s' : room n s -> alike s s' -> room n s'.
Proof.
  intros [R1 R2 R3] [A1 A2 A3 A4]. split; [|rewrite A4; exact R2|rewrite A2, A3; exact R3]. intros p po' H. destruct (A1 p po' H) as (po & Hp & ->). by apply R1 with p.
Qed.

Definition with_slots (po : port) (qresv : Z) (l : list Z) : port := with_send_waiters (with_qresv po qresv) l.

Lemma slots_put B s X Y p po qresv l :
  inv B ∅ [] s X Y -> w_ports s !! p = Some po -> 0 <= qresv -> p_qlen po + qresv <= KERNEL_QMAX -> backed B p qresv l ->
  inv B ∅ [] (put_port s p (with_slots po qresv l)) X Y /\ alike s (put_port s p (with_slots po qresv l)).
Proof.
  intros I Hp H0 Hq Bk. assert (p ∉ (∅ : gset Z)) as He by set_solver. pose proof (i_port _ _ _ _ _ _ I p po Hp) as [A1 A2 A3 A4 A5 A6 A7 A8].
  destruct (put_trivial B ∅ [] s X Y p po (with_slots po qresv l) I Hp He) as [I' Ld]; [by split|by split|exact Bk|].
  split; [exact I'|]. split; [|exact Ld|done|done]. intros q qo H. cbn in H. destruct (decide (q = p)) as [->|Hn].
  - rewrite lookup_insert_eq in H. injection H as <-. by exists po.
  - rewrite lookup_insert_ne in H by done. by exists qo.
Qed.

(** A send in progress: [B] is what the others hold, and covers their slots
    and waits on the destination without this send's share. *)
Record sending B s p kind (slot : bool) X Y : Prop := {
  sg_inv : inv (when slot (p, RSlot) ⊎ (pin p kind ⊎ B)) ∅ [] s X Y;
  sg_rest po : w_ports s !! p = Some po -> backed B p (p_qresv po - Z.b2z slot) (p_send_waiters po) /\ Z.b2z slot <= p_qresv po;
}.

Lemma sending_steps B s s' p kind slot X Y X' Y' i n :
  sending B s p kind slot X Y -> steps i n s s' -> inv (when slot (p, RSlot) ⊎ (pin p kind ⊎ B)) ∅ [] s' X' Y' -> sending B s' p kind slot X' Y'.
Proof.
  intros [I R] St I'. split; [exact I'|]. intros po' H'. destruct (st_port _ _ _ _ St p po' H') as (po & Hp & _ & Q & W).
  destruct (R po Hp) as [Bk Pos]. rewrite Q. split; [|done]. eapply backed_less; [exact Bk|lia|exact W].
Qed.

Lemma sending_live B s p kind slot X Y : sending B s p kind slot X Y -> kind_ok kind -> exists po, w_ports s !! p = Some po.
Proof.
  intros [I _] Hk. assert (when slot (p, RSlot) ⊎ (pin p kind ⊎ B) = pin p kind ⊎ (when slot (p, RSlot) ⊎ B)) as Eb by mult_at x.
  rewrite Eb in I. by eapply pin_kept.
Qed.

(** The base of the others backs every port again. *)
Lemma sending_pinned B s p kind X Y q qo :
  sending B s p kind false X Y -> kind_ok kind -> w_ports s !! q = Some qo -> pinned B q qo.
Proof.
  intros [I R] Hk Hq. destruct (decide (q = p)) as [->|Hn].
  - destruct (R qo Hq) as [Bk _]. unfold pinned. by rewrite Z.sub_0_r in Bk.
  - apply (pinned_more _ _ _ _ (i_pinned _ _ _ _ _ _ I q qo Hq)). intros k. cbn [when]. rewrite !num_union, num_empty, num_pin by auto. lia.
Qed.

Lemma pins_tokens p T : tokens T -> pins p T = 0.
Proof. intros H. unfold pins. rewrite !H by (left; done). done. Qed.

(** One slot more, or one waiting thread more, is covered by the pin. *)
Lemma backed_slot B p kind n l :
  backed B p n l -> kind_ok kind -> backed (when true (p, RSlot) ⊎ (pin p kind ⊎ B)) p (n + 1) l.
Proof.
  intros [P1 P2 P3 P4] Hk. split; [| |done|].
  - rewrite !pins_union, pins_pin, (pins_tokens _ _ (token_slot true p)) by done. lia.
  - rewrite !num_union, num_when, decide_True, num_pin by (done || auto). cbn. lia.
  - intros th Ht. rewrite !gmultiset_elem_of_disj_union. auto.
Qed.

Lemma backed_wait B p kind n l th :
  backed B p n l -> kind_ok kind -> th ∉ l -> backed ({[+ (p, RWait th) +]} ⊎ (pin p kind ⊎ B)) p n (l ++ [th]).
Proof.
  intros [P1 P2 P3 P4] Hk Ht. split.
  - rewrite !pins_union, pins_pin, (pins_tokens _ _ (token_wait p th)), length_app by done. cbn. lia.
  - rewrite !num_union, num_one, decide_False, num_pin by (done || auto). lia.
  - apply list.NoDup_app. split_and!; [done|intros x H1 H2%list_elem_of_singleton; congruence|apply NoDup_singleton].
  - intros t [H|H%list_elem_of_singleton]%elem_of_app; rewrite !gmultiset_elem_of_disj_union; [auto|left; subst; by apply gmultiset_elem_of_singleton].
Qed.

Lemma backed_keep B p kind n l b : backed B p n l -> backed (when b (p, RSlot) ⊎ (pin p kind ⊎ B)) p n l.
Proof.
  intros [P1 P2 P3 P4]. split; [| |done|].
  - rewrite !pins_union, (pins_tokens _ _ (token_slot b p)). assert (0 <= pins p (pin p kind)) as H; [|lia].
    unfold pins. pose proof (num_nonneg p RSend (pin p kind)). pose proof (num_nonneg p ROnce (pin p kind)). pose proof (num_nonneg p RRecv (pin p kind)).
    pose proof (num_nonneg p RHold (pin p kind)). lia.
  - rewrite !num_union. pose proof (num_nonneg p RSlot (when b (p, RSlot))). pose proof (num_nonneg p RSlot (pin p kind)). lia.
  - intros th Ht. rewrite !gmultiset_elem_of_disj_union. auto.
Qed.

(** What [msg_reserve] leaves for a send by [th]. *)
Inductive slotted B s p kind th X Y : slot -> world -> Prop :=
| slotted_reserved s' : sending B s' p kind true X Y -> alike s s' -> slotted B s p kind th X Y Reserved s'
| slotted_refused rv s' : rv <> MACH_MSG_OK -> sending B s' p kind false X Y -> alike s s' -> slotted B s p kind th X Y (Refused rv) s'
| slotted_parked s' : inv ({[+ (p, RWait th) +]} ⊎ (pin p kind ⊎ B)) ∅ [] s' X Y -> alike s s' -> slotted B s p kind th X Y Parked s'.

Lemma with_slots_id po : with_slots po (p_qresv po) (p_send_waiters po) = po.
Proof. by destruct po. Qed.

(** Slots and waiters of the destination replaced. *)
Lemma sending_put B s p kind b po b' n l X Y :
  sending B s p kind b X Y -> kind_ok kind -> w_ports s !! p = Some po -> backed B p (n - Z.b2z b') l -> Z.b2z b' <= n ->
  p_qlen po + n <= KERNEL_QMAX ->
  sending B (put_port s p (with_slots po n l)) p kind b' X Y /\ alike s (put_port s p (with_slots po n l)).
Proof.
  intros [I R] Hk Hp Bk Hn Hq. assert (forall c, backed B p (n - Z.b2z c) l -> inv (when c (p, RSlot) ⊎ (pin p kind ⊎ B)) ∅ [] s X Y ->
    let s' := put_port s p (with_slots po n l) in inv (when c (p, RSlot) ⊎ (pin p kind ⊎ B)) ∅ [] s' X Y /\ alike s s') as Put.
  { intros c Bc Ic. apply slots_put; [done|done|destruct b'; cbn in Hn; lia|done|].
    destruct c; cbn [Z.b2z] in Bc; [|rewrite Z.sub_0_r in Bc; by apply backed_keep]. replace n with (n - 1 + 1) by lia. by apply backed_slot. }
  assert (inv (when b' (p, RSlot) ⊎ (pin p kind ⊎ B)) ∅ [] (put_port s p (with_slots po n l)) X Y /\ alike s (put_port s p (with_slots po n l))) as [I2 Al].
  { destruct b, b'; [by apply Put| | |by apply Put].
    - cbn [Z.b2z] in Bk. destruct (Put true) as [I1 Al]; [eapply backed_less; [exact Bk|cbn; lia|done]|exact I|]. split; [|exact Al].
      cbn [when]. rewrite gmultiset_disj_union_left_id. apply (loosen_inv _ _ _ _ _ I1); [apply token_slot|]. intros q qo H. destruct (decide (q = p)) as [->|Hn'].
      + cbn in H. rewrite lookup_insert_eq in H. injection H as <-. rewrite Z.sub_0_r in Bk. pose proof (backed_keep B p kind n l false Bk) as Q.
        cbn [when] in Q. by rewrite gmultiset_disj_union_left_id in Q.
      + apply (pinned_more _ _ _ _ (i_pinned _ _ _ _ _ _ I1 q qo H)). intros k. rewrite num_union, num_when, decide_False by congruence. lia.
    - cbn [when] in I. rewrite gmultiset_disj_union_left_id in I. apply Put; [done|]. by apply tighten_inv, token_slot. }
  split; [|exact Al]. split; [exact I2|]. intros qo. cbn. rewrite lookup_insert_eq. intros [= <-]. by split.
Qed.

Lemma wake_next_ok B s p kind b po b' n X Y :
  sending B s p kind b X Y -> kind_ok kind -> w_ports s !! p = Some po -> backed B p (n - Z.b2z b') (p_send_waiters po) -> Z.b2z b' <= n ->
  p_qlen po + n <= KERNEL_QMAX ->
  sending B (wake_next s p (with_qresv po n)) p kind b' X Y /\ alike s (wake_next s p (with_qresv po n)).
Proof.
  intros Sg Hk Hp Bk Hn Hq. unfold wake_next, extract_send_waiter. change (p_send_waiters (with_qresv po n)) with (p_send_waiters po).
  assert (forall o l, l `sublist_of` p_send_waiters po -> sending B (wake_opt (put_port s p (with_slots po n l)) o) p kind b' X Y /\
    alike s (wake_opt (put_port s p (with_slots po n l)) o)) as W.
  { intros o l Hl. destruct (sending_put B s p kind b po b' n l X Y Sg Hk Hp) as [[I1 R1] Al]; [by eapply backed_less|done|done|].
    split; [|eapply alike_trans, alike_wake; exact Al]. split; [by apply wake_idle|exact R1]. }
  destruct (p_send_waiters po) as [|w l] eqn:Ew; [|apply W; by apply sublist_cons].
  specialize (W None [] ltac:(done)). assert (with_slots po n [] = with_qresv po n) as <-; [by destruct po; cbn in *; subst|exact W].
Qed.

Lemma with_qresv_id po : with_qresv po (p_qresv po) = po.
Proof. by destruct po. Qed.

Lemma reserve_leave_ok B s p kind th rv X Y :
  sending B s p kind false X Y -> kind_ok kind -> rv <> MACH_MSG_OK ->
  exists s', reserve_leave s p rv = Done (Refused rv, s') /\ slotted B s p kind th X Y (Refused rv) s'.
Proof.
  intros Sg Hk Hv. destruct (sending_live _ _ _ _ _ _ _ Sg Hk) as (po & Hp). unfold reserve_leave. rewrite (get_port_eq _ _ _ Hp), bind_Done.
  destruct (p_qlen po + p_qresv po <? p_qmax po); [|exists s; split; [done|apply slotted_refused; [done|done|apply alike_refl]]].
  pose proof (i_port _ _ _ _ _ _ (sg_inv _ _ _ _ _ _ _ Sg) p po Hp) as Ok. destruct (sg_rest _ _ _ _ _ _ _ Sg po Hp) as [Bk Q0].
  destruct (wake_next_ok B s p kind false po false (p_qresv po) X Y Sg Hk Hp Bk Q0 (po_full _ Ok)) as [Sg' Al]. rewrite with_qresv_id in Sg', Al.
  eexists. split; [reflexivity|]. by apply slotted_refused.
Qed.

(** One trip of the loop: a slot, a refusal, or the thread in the list. *)
Lemma msg_reserve_ok B s p kind th always expired X Y :
  sending B s p kind false X Y -> kind_ok kind -> (forall po, w_ports s !! p = Some po -> th ∉ p_send_waiters po) ->
  exists o s', msg_reserve s p th always expired = Done (o, s') /\ slotted B s p kind th X Y o s'.
Proof.
  intros Sg Hk Hth. destruct (sending_live _ _ _ _ _ _ _ Sg Hk) as (po & Hp). unfold msg_reserve. rewrite (get_port_eq _ _ _ Hp), bind_Done.
  assert (forall rv, rv <> MACH_MSG_OK -> exists o s', reserve_leave s p rv = Done (o, s') /\ slotted B s p kind th X Y o s') as Leave.
  { intros rv Hv. destruct (reserve_leave_ok B s p kind th rv X Y Sg Hk Hv) as (s' & E' & D). by exists (Refused rv), s'. }
  pose proof (i_port _ _ _ _ _ _ (sg_inv _ _ _ _ _ _ _ Sg) p po Hp) as Ok. destruct (sg_rest _ _ _ _ _ _ _ Sg po Hp) as [Bk Q0]. cbn [Z.b2z] in *.
  destruct (p_dead po); [by apply Leave|]. destruct (_ <? _) eqn:El.
  - assert (p_qlen po + (p_qresv po + 1) <= KERNEL_QMAX) as Room.
    { pose proof (po_qmax _ Ok) as Qm. destruct always; [lia|]. rewrite Qm in El. unfold KERNEL_QMAX, DEFAULT_QMAX in *. lia. }
    destruct (sending_put B s p kind false po true (p_qresv po + 1) (p_send_waiters po) X Y Sg Hk Hp) as [Sg' Al]; [|cbn; lia|done|].
    { cbn [Z.b2z]. replace (p_qresv po + 1 - 1) with (p_qresv po - 0) by lia. exact Bk. }
    eexists _, _. split; [reflexivity|]. assert (with_slots po (p_qresv po + 1) (p_send_waiters po) = with_qresv po (p_qresv po + 1)) as Eq by (by destruct po).
    rewrite Eq in Sg', Al. by apply slotted_reserved.
  - destruct always; [by apply Leave|]. destruct expired; [by apply Leave|]. specialize (Hth po Hp).
    rewrite KASSERT_true by (by rewrite bool_decide_eq_false_2). eexists _, _. split; [reflexivity|].
    rewrite Z.sub_0_r in Bk. pose proof (backed_wait B p kind _ _ th Bk Hk Hth) as Bw.
    destruct (slots_put ({[+ (p, RWait th) +]} ⊎ (pin p kind ⊎ B)) s X Y p po (p_qresv po) (p_send_waiters po ++ [th])) as [I' Al];
      [|exact Hp|lia|exact (po_full _ Ok)|exact Bw|].
    { pose proof (sg_inv _ _ _ _ _ _ _ Sg) as I. cbn [when] in I. rewrite gmultiset_disj_union_left_id in I. by apply tighten_inv, token_wait. }
    assert (with_slots po (p_qresv po) (p_send_waiters po ++ [th]) = with_send_waiters po (p_send_waiters po ++ [th])) as Eq by (by destruct po).
    rewrite Eq in I', Al. by apply slotted_parked.
Qed.

Lemma unbind_sublist l th : unbind_waiter l th `sublist_of` l.
Proof. induction l as [|w l IH]; cbn; [done|]. destruct (w =? th); [by apply sublist_cons|by apply sublist_skip]. Qed.
Lemma unbind_gone l th : NoDup l -> th ∉ unbind_waiter l th.
Proof.
  induction 1 as [|w l Hw Hl IH]; cbn; [by intros H%not_elem_of_nil|]. destruct (w =? th) eqn:E; [by assert (w = th) as <- by lia|].
  intros [->|H]%elem_of_cons; [lia|done].
Qed.

(** A sender wakes: off the list first. *)
Lemma msg_reserve_resume_ok B s p kind th live expired X Y :
  inv ({[+ (p, RWait th) +]} ⊎ (pin p kind ⊎ B)) ∅ [] s X Y -> kind_ok kind ->
  (forall po, w_ports s !! p = Some po -> backed B p (p_qresv po) (unbind_waiter (p_send_waiters po) th)) ->
  exists o s', msg_reserve_resume s p th live expired = Done (o, s') /\ slotted B s p kind th X Y o s'.
Proof.
  intros I Hk Bk. assert ({[+ (p, RWait th) +]} ⊎ (pin p kind ⊎ B) = pin p kind ⊎ ({[+ (p, RWait th) +]} ⊎ B)) as Eb by mult_at x.
  destruct (pin_kept ({[+ (p, RWait th) +]} ⊎ B) s X Y p kind) as (po & Hp); [by rewrite <- Eb|done|]. specialize (Bk po Hp).
  unfold msg_reserve_resume. rewrite (get_port_eq _ _ _ Hp), bind_Done. cbv zeta.
  pose proof (i_port _ _ _ _ _ _ I p po Hp) as Ok. pose proof (i_pinned _ _ _ _ _ _ I p po Hp) as Pin. set (l := unbind_waiter (p_send_waiters po) th) in *.
  assert (with_send_waiters po l = with_slots po (p_qresv po) l) as -> by (by destruct po). set (s1 := put_port s p (with_slots po (p_qresv po) l)).
  destruct (slots_put _ s X Y p po (p_qresv po) l I Hp (po_qresv _ Ok) (po_full _ Ok)) as [I1 Al]; [eapply backed_less; [exact Pin|lia|apply unbind_sublist]|].
  assert (sending B s1 p kind false X Y) as Sg.
  { split; cbn [when Z.b2z].
    - rewrite gmultiset_disj_union_left_id. apply (loosen_inv _ _ _ _ _ I1); [apply token_wait|]. intros q qo H. destruct (decide (q = p)) as [->|Hn].
      + cbn in H. rewrite lookup_insert_eq in H. injection H as <-. pose proof (backed_keep B p kind _ _ false Bk) as Q. cbn [when] in Q. by rewrite gmultiset_disj_union_left_id in Q.
      + apply (pinned_more _ _ _ _ (i_pinned _ _ _ _ _ _ I1 q qo H)). intros k. rewrite num_union, num_one, decide_False by congruence. lia.
    - intros qo. cbn. rewrite lookup_insert_eq. intros [= <-]. rewrite Z.sub_0_r. split; [exact Bk|exact (po_qresv _ Ok)]. }
  assert (forall o s', slotted B s1 p kind th X Y o s' -> slotted B s p kind th X Y o s') as Later.
  { intros o s' []; [apply slotted_reserved|apply slotted_refused|apply slotted_parked]; try done; by eapply alike_trans. }
  destruct live.
  - destruct (msg_reserve_ok B s1 p kind th false expired X Y Sg Hk) as (o & s' & E' & D).
    + intros qo. cbn. rewrite lookup_insert_eq. intros [= <-]. apply unbind_gone. exact (bk_nodup _ _ _ _ Pin).
    + exists o, s'. split; [exact E'|by apply Later].
  - destruct (reserve_leave_ok B s1 p kind th MACH_E_INTR X Y Sg Hk ltac:(done)) as (s' & E' & D). eexists _, s'. split; [exact E'|by apply Later].
Qed.

Lemma msg_unreserve_ok B s p kind X Y :
  sending B s p kind true X Y -> kind_ok kind -> exists s', msg_unreserve s p = Done s' /\ sending B s' p kind false X Y /\ alike s s'.
Proof.
  intros Sg Hk. destruct (sending_live _ _ _ _ _ _ _ Sg Hk) as (po & Hp). unfold msg_unreserve. rewrite (get_port_eq _ _ _ Hp), bind_Done.
  destruct (sg_rest _ _ _ _ _ _ _ Sg po Hp) as [Bk Q0]. cbn [Z.b2z] in *. rewrite KASSERT_true by lia. eexists. split; [reflexivity|].
  pose proof (po_full _ (i_port _ _ _ _ _ _ (sg_inv _ _ _ _ _ _ _ Sg) p po Hp)). apply (wake_next_ok B s p kind true po false); [done|done|done| |cbn; lia|lia].
  cbn [Z.b2z]. by rewrite Z.sub_0_r.
Qed.

End slots.
