(* ===== verification/PortSend.v ===== *)
(** Sending: [mach_msg_send_timed] from a validated header to a queued
    message.  Whatever the message and wherever it fails, no assertion trips,
    no freed object is reached, every byte read is one of the message, and
    every right is still counted. *)

From stdpp Require Import base list gmap gmultiset strings numbers option.
From Stdlib Require Import ZArith Lia ZifyBool.
From S2P Require Import Prelude Owners VmMap Ports PortMsg PortBytes PortInv PortDeref PortSpace PortSets PortCalls PortXlate PortSlot.

(** * The walk over the descriptors *)

Definition agree_from (b b' : list Z) (off : Z) : Prop :=
  length b' = length b /\ forall j : nat, off <= Z.of_nat j -> b' !! j = b !! j.

Lemma agree_refl b off : agree_from b b off.
Proof. done. Qed.
Lemma agree_less b b' off off' : agree_from b b' off -> off <= off' -> agree_from b b' off'.
Proof. intros [H1 H2] Ho. split; [done|]. intros j Hj. apply H2. lia. Qed.

Lemma ld_agree n b b' off off' : agree_from b b' off -> off <= off' -> ld n b' off' = ld n b off'.
Proof.
  intros [Hl Ha] Ho. unfold ld. rewrite Hl. destruct ((0 <=? off') && _) eqn:E; [|done]. do 2 f_equal. apply list_eq. intros j.
  destruct (decide (j < n)%nat); [|by rewrite !lookup_take_ge by lia]. rewrite !lookup_take_lt, !lookup_drop by lia. apply Ha. lia.
Qed.

Lemma st_agree n b off v b' : st n b off v = Done b' -> agree_from b b' (off + Z.of_nat n).
Proof.
  intros H. destruct (st_done _ _ _ _ _ H) as [[F1 F2] Hl]. split; [done|]. intros j Hj. apply (st_lookup _ _ _ _ _ _ H). lia.
Qed.

Lemma desc_walk_agree n b b' off cap : agree_from b b' off -> desc_walk n b' off cap = desc_walk n b off cap.
Proof.
  revert off. induction n as [|n IH]; intros off Ha; [done|]. cbn [desc_walk]. unfold desc_step. destruct (cap <=? off); [done|].
  rewrite (ld_agree 1 b b' off off Ha) by lia. destruct (ld 1 b off) as [t|]; [|done]. rewrite !bind_Done. cbv zeta.
  destruct (_ || _) eqn:E; [done|]. cbn [fst]. destruct (_ =? 0) eqn:Ez; [done|]. apply IH. eapply agree_less; [exact Ha|].
  unfold PORT_DESC, OOL_DESC in *. repeat case_match; lia.
Qed.

(** A descriptor of the walk: its tag, and room for it. *)
Lemma desc_walk_step n b off cap :
  desc_walk (S n) b off cap = Done true ->
  exists t, ld 1 b off = Done t /\ off < cap /\
    (t = MACH_MSG_PORT_DESCRIPTOR /\ off + PORT_DESC <= cap /\ desc_walk n b (off + PORT_DESC) cap = Done true \/
     t = MACH_MSG_OOL_DESCRIPTOR /\ off + OOL_DESC <= cap /\ desc_walk n b (off + OOL_DESC) cap = Done true).
Proof.
  cbn [desc_walk]. unfold desc_step. destruct (cap <=? off) eqn:Ec; [done|]. destruct (ld 1 b off) as [t|]; [|done]. rewrite !bind_Done. cbv zeta.
  intros H. exists t. split; [done|]. split; [lia|]. destruct (t =? MACH_MSG_PORT_DESCRIPTOR) eqn:Et.
  - left. change (PORT_DESC =? 0) with false in H. cbn [orb] in H. destruct (cap <? off + PORT_DESC) eqn:El; [done|]. split_and!; [lia|lia|exact H].
  - destruct (t =? MACH_MSG_OOL_DESCRIPTOR) eqn:Eo; [|done]. right. change (OOL_DESC =? 0) with false in H. cbn [orb] in H.
    destruct (cap <? off + OOL_DESC) eqn:El; [done|]. split_and!; [lia|lia|exact H].
Qed.

(** Whether one of [n] descriptors is out of line. *)
Fixpoint has_ool (n : nat) (b : list Z) (off : Z) : bool :=
  match n with
  | O => false
  | S n => match ld 1 b off with
           | Done t => if t =? MACH_MSG_PORT_DESCRIPTOR then has_ool n b (off + PORT_DESC) else t =? MACH_MSG_OOL_DESCRIPTOR
           | Panic _ => false
           end
  end.

Lemma has_ool_agree n b b' off : agree_from b b' off -> has_ool n b' off = has_ool n b off.
Proof.
  revert off. induction n as [|n IH]; intros off Ha; [done|]. cbn [has_ool]. rewrite (ld_agree 1 b b' off off Ha) by lia.
  destruct (ld 1 b off); [|done]. destruct (_ =? _); [|done]. apply IH. eapply agree_less; [exact Ha|unfold PORT_DESC; lia].
Qed.

Section send.
Context {V : Type} `{PS : PayloadSpec V}.
Abbreviation world := (world (V := V)).
Implicit Types (s : world) (p q : Z) (k : right) (B X : rights) (Y : goods) (E : gset Z) (L : list (Z * Z)).

(** * The descriptors *)

(** Descriptors [l] made from the bytes between [off] and [cap] of [b]. *)
Record made B i s X Y (n : nat) (b : list Z) (off cap : Z) (rv : Z) (b' : list Z) (l : list pending_desc) (s' : world) : Prop := {
  md_inv : inv B ∅ [] s' (gather desc_rights l ⊎ X) (gather desc_frames l ⊎ Y);
  md_steps : steps i n s s';
  md_len : length b' = length b;
  md_bytes : bytes b';
  md_before (j : nat) : Z.of_nat j < off -> b' !! j = b !! j;
  md_ok : Forall desc_ok l;
  md_size : (size (gather desc_rights l) <= n)%nat;
  md_done : rv = MACH_MSG_OK -> length l = n /\ Forall carried l /\ off + descs_size l <= cap;
}.

Lemma zeros_free n : gather desc_rights (replicate n pd_zero) = ∅ /\ gather desc_frames (replicate n pd_zero) = ∅ /\ Forall desc_ok (replicate n pd_zero).
Proof.
  split_and!; [apply gather_none|apply gather_none|apply Forall_replicate; done]; intros d Hd; apply elem_of_replicate in Hd as [-> _]; done.
Qed.

Lemma carries_rights p r : desc_rights (carries p r) = rights_of p r.
Proof. done. Qed.
Lemma carries_frames p r : desc_frames (carries p r) = ∅.
Proof. done. Qed.
Lemma size_one_right p r : one_right r -> size (rights_of p r) = 1%nat.
Proof. intros H. pose proof (size_rights_of p r) as S. apply Nat2Z.inj. rewrite S. by destruct H as [->|[->| ->]]. Qed.

(** The loop stops: what is left is zero. *)
Lemma made_stop B i s X Y n b off cap rv sp :
  inv B ∅ [] s X Y -> w_spaces s !! i = Some sp -> bytes b -> rv <> MACH_MSG_OK ->
  made B i s X Y n b off cap rv b (replicate n pd_zero) s.
Proof.
  intros I Hi Hb Hv. destruct (zeros_free n) as (Z1 & Z2 & Z3). split; rewrite ?Z1, ?Z2, ?gmultiset_disj_union_left_id; try done.
  - apply (steps_more i 0); [lia|by eapply steps_refl].
  - rewrite gmultiset_size_empty. lia.
Qed.

(** One descriptor more in front. *)
Lemma made_cons B i s1 s X Y n b off cap rv b1 b' l pd s' off1 :
  made B i s1 (desc_rights pd ⊎ X) (desc_frames pd ⊎ Y) n b1 off1 cap rv b' l s' -> steps i 1 s s1 -> carried pd ->
  off1 = off + desc_size pd -> length b1 = length b -> (forall j : nat, Z.of_nat j < off -> b1 !! j = b !! j) ->
  (size (desc_rights pd) <= 1)%nat -> made B i s X Y (S n) b off cap rv b' (pd :: l) s'.
Proof.
  intros [M1 M2 M3 M4 M5 M6 M7 M8] St Cd -> Hl Hb Hz. assert (0 <= desc_size pd) as Ds by (unfold desc_size, PORT_DESC, OOL_DESC; case_match; lia).
  split; rewrite ?gather_cons.
  - assert (forall (a b c : rights), (a ⊎ b) ⊎ c = b ⊎ (a ⊎ c)) as A1 by (intros; mult_at x).
    assert (forall (a b c : goods), (a ⊎ b) ⊎ c = b ⊎ (a ⊎ c)) as A2 by (intros; mult_at x). by rewrite A1, A2.
  - exact (steps_trans i 1 n _ _ _ St M2).
  - congruence.
  - done.
  - intros j Hj. rewrite M5 by lia. by apply Hb.
  - constructor; [by apply carried_ok|done].
  - rewrite gmultiset_size_disj_union. lia.
  - intros Hv. destruct (M8 Hv) as (N1 & N2 & N3). split_and!; [cbn; congruence|by constructor|]. cbn [descs_size foldr]. fold (descs_size l). lia.
Qed.

(** A descriptor that is refused, and nothing after it. *)
Lemma made_refused B i s s1 X Y n b off cap rv pd :
  inv B ∅ [] s1 X Y -> steps i 0 s s1 -> bytes b -> rv <> MACH_MSG_OK -> desc_rights pd = ∅ -> desc_frames pd = ∅ -> desc_ok pd ->
  made B i s X Y (S n) b off cap rv b (pd :: replicate n pd_zero) s1.
Proof.
  intros I St Hb Hv R1 R2 Ok. destruct (zeros_free n) as (Z1 & Z2 & Z3).
  split; rewrite ?gather_cons, ?R1, ?R2, ?Z1, ?Z2, ?gmultiset_disj_union_left_id; try done; try lia.
  - apply (steps_more i 0); [lia|done].
  - by constructor.
  - rewrite gmultiset_size_empty. lia.
Qed.

Definition descs_spec B i c cap m n : Prop :=
  forall s sp X Y b off l0,
  inv B ∅ [] s X Y -> unmapped Y -> room (n + m) s -> w_spaces s !! i = Some sp ->
  desc_walk n b off cap = Done true -> cap <= Z.of_nat (length b) -> bytes b -> 0 <= off <= cap ->
  safe (has_ool n b off = true) (send_descs n s c i b off l0)
    (fun r => exists l, r.1.2 = l0 ++ l /\ made B i s X Y n b off cap r.1.1.1 r.1.1.2 l r.2).

(** After a descriptor: the field is cleared, and the loop goes on. *)
Lemma send_descs_next B i c cap m n s s1 sp X Y b off l0 pd w (at_ : Z) (F : Prop) :
  descs_spec B i c cap m n ->
  inv B ∅ [] s1 (desc_rights pd ⊎ X) (desc_frames pd ⊎ Y) -> unmapped Y -> room (n + m) s1 -> w_spaces s !! i = Some sp -> steps i 1 s s1 ->
  desc_walk n b (off + desc_size pd) cap = Done true -> off + desc_size pd <= cap -> cap <= Z.of_nat (length b) -> bytes b -> 0 <= off ->
  carried pd -> (size (desc_rights pd) <= 1)%nat -> 0 <= at_ -> at_ + Z.of_nat w = desc_size pd -> (has_ool n b (off + desc_size pd) = true -> F) ->
  safe F (b ← st w b (off + at_) 0; send_descs n s1 c i b (off + desc_size pd) (l0 ++ [pd]))
    (fun r => exists l, r.1.2 = l0 ++ l /\ made B i s X Y (S n) b off cap r.1.1.1 r.1.1.2 l r.2).
Proof.
  intros IH I U Rm Hi St Hw Hc Hb By Ho Cd Sz Hk Hkw HF. destruct (st_ok w b (off + at_) 0) as (b1 & E1 & L1 & B1); [split; lia|done|].
  rewrite E1, bind_Done. pose proof (st_agree _ _ _ _ _ E1) as Ag. replace (off + at_ + Z.of_nat w) with (off + desc_size pd) in Ag by lia.
  destruct (steps_space i _ s s1 sp St Hi) as (sp1 & Hi1 & _).
  eapply safe_weaken; [apply (IH s1 sp1 _ _ b1 (off + desc_size pd) (l0 ++ [pd]) I); try done| |].
  - apply unmapped_union; [apply desc_unmapped|done].
  - by rewrite (desc_walk_agree n b b1 _ cap Ag).
  - lia.
  - lia.
  - rewrite (has_ool_agree n b b1 _ Ag). exact HF.
  - intros [[[rv b'] descs] s'] (l & El & M). cbn [fst snd] in *. exists (pd :: l). split; [rewrite El, <- app_assoc; done|].
    eapply made_cons; [exact M|exact St|exact Cd|done|done| |exact Sz]. intros j Hj. apply (st_lookup _ _ _ _ _ _ E1). lia.
Qed.

Lemma send_descs_safe B i c cap m n : descs_spec B i c cap m n.
Proof.
  induction n as [|n IH]; intros s sp X Y b off l0 I U Rm Hi Hw Hc By Ho.
  { cbn. exists []. split; [by rewrite app_nil_r|]. split; try done; cbn; rewrite ?gmultiset_disj_union_left_id; [done|by eapply steps_refl|]. intros _. split_and!; [done|constructor|lia]. }
  destruct (desc_walk_step n b off cap Hw) as (t & Et & Hlt & D). cbn [send_descs has_ool]. rewrite Et, bind_Done.
  destruct D as [(-> & Hs & Hn)|(-> & Hs & Hn)].
  - rewrite Z.eqb_refl. unfold PORT_DESC in Hs. destruct (ld_ok 4 b (off + 4)) as (name & -> & Bn); [split; lia|done|]. rewrite bind_Done.
    destruct (ld_ok 1 b (off + 1)) as (d & -> & _); [split; lia|done|]. rewrite bind_Done.
    destruct (send_xlate_desc_ok B s X Y i sp name d (n + m) I Rm Hi (proj1 Bn)) as (rv & pd & s1 & -> & Xl & St). rewrite bind_Done.
    destruct Xl as [p s1 Or Hp I1|rv Hv].
    + change (negb (MACH_MSG_OK =? MACH_MSG_OK)) with false. cbv iota.
      apply (send_descs_next B i c cap m n s s1 sp X Y b off l0 (carries p (disposed d)) 4 4 _ IH); try done; try lia.
      * by rewrite carries_frames, gmultiset_disj_union_left_id.
      * exact (room_steps i 1 _ s s1 Rm St).
      * by apply carried_port.
      * by rewrite carries_rights, size_one_right.
    + rewrite (proj2 (Z.eqb_neq _ _) Hv). cbn [negb]. exists (pd_zero :: replicate n pd_zero). split; [done|].
      apply made_refused; try done. by eapply steps_refl.
  - change (MACH_MSG_OOL_DESCRIPTOR =? MACH_MSG_PORT_DESCRIPTOR) with false. rewrite Z.eqb_refl. cbv iota. unfold OOL_DESC in Hs.
    destruct (ld_ok 1 b (off + 1)) as (copy & -> & _); [split; lia|done|]. rewrite bind_Done.
    destruct (ld_ok 1 b (off + 2)) as (de & -> & _); [split; lia|done|]. rewrite bind_Done.
    destruct (ld_ok 4 b (off + 4)) as (size & -> & Bs); [split; lia|done|]. rewrite bind_Done.
    destruct (ld_ok 8 b (off + 8)) as (addr & -> & _); [split; lia|done|]. rewrite bind_Done.
    eapply safe_bind; [eapply safe_weaken; [apply (send_capture_ool_safe B s X Y i sp c copy de size addr I U Hi (proj1 Bs))|done|intros x Hx; exact Hx]|].
    intros [[rv pd] s1] Cp. cbn [fst snd] in Cp. destruct Cp as [pd s1 Cd Ds Dr I1 St|rv s1 Hv I1 St].
    + change (negb (MACH_MSG_OK =? MACH_MSG_OK)) with false. cbv iota. rewrite <- Ds.
      apply (send_descs_next B i c cap m n s s1 sp X Y b off l0 pd 8 8 _ IH); rewrite ?Ds; try done; try lia.
      * by rewrite Dr, gmultiset_disj_union_left_id.
      * apply (room_steps i 1 _ s s1 Rm). by apply (steps_more i 0); [lia|].
      * by apply (steps_more i 0); [lia|].
      * rewrite Dr, gmultiset_size_empty. lia.
    + rewrite (proj2 (Z.eqb_neq _ _) Hv). cbn [negb]. exists (ool_empty :: replicate n pd_zero). split; [done|]. by apply made_refused.
Qed.

Lemma desc_walk_bound n b off cap : desc_walk n b off cap = Done true -> (n = 0)%nat \/ off + 8 * Z.of_nat n <= cap.
Proof.
  revert off. induction n as [|n IH]; intros off Hw; [by left|right].
  destruct (desc_walk_step n b off cap Hw) as (t & _ & _ & [(_ & Hs & Hn)|(_ & Hs & Hn)]); unfold PORT_DESC, OOL_DESC in *; destruct (IH _ Hn); lia.
Qed.

(** * Failing *)

Lemma free_descs_ok B s X Y l :
  inv B ∅ [] s (gather desc_rights l ⊎ X) (gather desc_frames l ⊎ Y) -> Forall desc_ok l ->
  (2 * (load ∅ s + size (gather desc_rights l)) + 1 < w_depth s)%nat ->
  releases B ∅ [] s (free_pending_descs port_deref s l) X Y (load ∅ s + size (gather desc_rights l)).
Proof.
  revert s. induction l as [|d l IH]; intros s I Ok Hc; cbn [free_pending_descs].
  - apply releases_done; [|lia]. by rewrite !gmultiset_disj_union_left_id in I.
  - inversion Ok; subst. rewrite !gather_cons, <- !gmultiset_disj_union_assoc in I. rewrite gather_cons, gmultiset_size_disj_union in Hc |- *.
    eapply releases_bind; [apply (free_desc_ok _ _ (port_deref_n_serves (w_depth s))); [exact I|done|lia]|]. intros s' I' Q Lo.
    destruct (IH s' I') as (s2 & E2 & I2 & Q2 & L2); [done|rewrite (qt_depth _ _ _ Q); lia|]. exists s2. split_and!; try done. lia.
Qed.

Definition all_counted s : Prop := forall i sp, w_spaces s !! i = Some sp -> counted_space sp.

Lemma counted_steps i n s s' : all_counted s -> steps i n s s' -> all_counted s'.
Proof.
  intros C [_ _ _ (sp & sp' & Hi & Es & _ & Hc)] j sj. rewrite Es. destruct (decide (j = i)) as [->|Hn].
  - rewrite lookup_insert_eq. intros [= <-]. apply Hc. by apply (C i).
  - rewrite lookup_insert_ne by done. apply C.
Qed.
Lemma counted_same s s' : all_counted s -> w_spaces s' = w_spaces s -> all_counted s'.
Proof. intros C Es j sj. rewrite Es. apply C. Qed.

Lemma dest_unref_over B s p kind :
  sending B s p kind false ∅ ∅ -> kind_ok kind -> deep s -> all_counted s -> exists s', dest_unref s p kind = Done s' /\ sys B s'.
Proof.
  intros Sg Hk Dp C. pose proof (sg_inv _ _ _ _ _ _ _ Sg) as I. cbn [when] in I. rewrite gmultiset_disj_union_left_id in I.
  destruct (dest_unref_ok B s ∅ ∅ p kind I Hk Dp) as (s' & E' & I' & Q & _); [intros po Hp; by eapply sending_pinned|].
  exists s'. split; [done|]. split; [exact I'|]. eapply counted_same; [exact C|exact (qt_spaces _ _ _ Q)].
Qed.

Lemma send_fail_ok B s j descs (reserved : bool) rv n :
  sending B s (sj_dest j) (sj_kind j) reserved (gather desc_rights descs) (gather desc_frames descs) -> kind_ok (sj_kind j) ->
  Forall desc_ok descs -> (size (gather desc_rights descs) <= n)%nat -> room n s -> all_counted s -> 
  exists s', send_fail s j descs reserved rv = Done (rv, s') /\ sys B s'.
Proof.
  intros Sg Hk Ok Sz Rm C. set (B' := when reserved (sj_dest j, RSlot) ⊎ (pin (sj_dest j) (sj_kind j) ⊎ B)). pose proof (ro_depth _ _ Rm) as Dp.
  destruct (free_descs_ok B' s ∅ ∅ descs) as (s1 & E1 & I1 & Q1 & L1); [rewrite !gmultiset_disj_union_right_id; apply Sg|done|lia|].
  unfold send_fail. rewrite E1, bind_Done. assert (sending B s1 (sj_dest j) (sj_kind j) reserved ∅ ∅) as Sg1.
  { split; [exact I1|]. intros po' H'. destruct (qt_port _ _ _ Q1 _ po' H') as (po & Hp & [_ _ _ Lq Lw]).
    destruct (sg_rest _ _ _ _ _ _ _ Sg po Hp) as [Bk Q0]. rewrite Lq. split; [by eapply backed_less; [exact Bk|lia|]|done]. }
  assert (all_counted s1) as C1 by (eapply counted_same; [exact C|exact (qt_spaces _ _ _ Q1)]).
  assert (deep s1) as D1 by (unfold deep; rewrite (qt_depth _ _ _ Q1); lia).
  assert (exists s2, (if reserved then msg_unreserve s1 (sj_dest j) else Done s1) = Done s2 /\ sending B s2 (sj_dest j) (sj_kind j) false ∅ ∅ /\ alike s1 s2) as (s2 & -> & Sg2 & Al).
  { destruct reserved; [by apply msg_unreserve_ok|]. exists s1. split_and!; [done|done|apply alike_refl]. }
  rewrite bind_Done. destruct (dest_unref_over B s2 (sj_dest j) (sj_kind j) Sg2 Hk) as (s3 & E3 & Sy).
  - unfold deep in *. by rewrite (al_load _ _ Al), (al_depth _ _ Al).
  - eapply counted_same; [exact C1|exact (al_spaces _ _ Al)].
  - rewrite E3, bind_Done. by exists s3.
Qed.

(** * The sender's own right to the destination *)

Lemma drop_any_ok B s X Y i sp name r :
  inv B ∅ [] s X Y -> deep s -> w_spaces s !! i = Some sp -> ps_capacity sp < 2 ^ 31 -> 0 <= name -> r = MACH_PORT_RIGHT_SEND \/ r = MACH_PORT_RIGHT_SEND_ONCE ->
  exists rv s', space_drop_one_right s i name r = Done (rv, s') /\ inv B ∅ [] s' X Y /\ steps i 0 s s'.
Proof.
  intros I Dp Hi Hc Hn Hr. pose proof (i_space _ _ _ _ _ _ I i sp Hi) as Ok. pose proof (entry_at_ok s i sp name Hi Ok) as Eo.
  assert (pe_port (entry_at s i name) = None \/ has (pe_rights (entry_at s i name)) r = false \/ exists p e, entry_at s i name = mkPe (Some p) None e false /\ Z.land r e = r) as D.
  { destruct (pe_port (entry_at s i name)) as [p|] eqn:Ep; [right|by left]. destruct (has _ r) eqn:Eh; [right|by left].
    destruct (eo_port _ Eo p Ep) as (D1 & D2 & Hm). exists p, (pe_rights (entry_at s i name)). split; [destruct (entry_at s i name); cbn in *; by subst|].
    unfold mask_ok in Hm. assert (forall e, 0 < e < 8 -> has e r = true -> Z.land r e = r) as F; [|by apply F].
    intros e He. assert (e = 1 \/ e = 2 \/ e = 3 \/ e = 4 \/ e = 5 \/ e = 6 \/ e = 7) as De by lia.
    destruct Hr as [->| ->], De as [->|[->|[->|[->|[->|[->| ->]]]]]]; done. }
  destruct D as [D|[D|(p & e & He & Hl)]].
  - destruct (take_right_refused s i sp name r Hi Ok Hc) as (rv & _ & Et); [by left|]. unfold space_drop_one_right. rewrite Et, bind_Done.
    exists rv, s. split_and!; [done|done|by eapply steps_refl].
  - destruct (take_right_refused s i sp name r Hi Ok Hc) as (rv & _ & Et); [by right|]. unfold space_drop_one_right. rewrite Et, bind_Done.
    exists rv, s. split_and!; [done|done|by eapply steps_refl].
  - destruct (drop_send_ok B s X Y i sp name p e r I Dp Hi Hc Hn He Hr Hl) as (s' & E' & I' & _ & St). by exists MACH_MSG_OK, s'.
Qed.

Lemma drop_moved_ok B s X Y i sp name disp r :
  inv B ∅ [] s X Y -> deep s -> w_spaces s !! i = Some sp -> ps_capacity sp < 2 ^ 31 -> 0 <= name -> r = MACH_PORT_RIGHT_SEND \/ r = MACH_PORT_RIGHT_SEND_ONCE ->
  exists s', drop_moved s i name disp r = Done s' /\ inv B ∅ [] s' X Y /\ steps i 0 s s'.
Proof.
  intros I Dp Hi Hc Hn Hr. unfold drop_moved. destruct (is_move disp).
  - destruct (drop_any_ok B s X Y i sp name r I Dp Hi Hc Hn Hr) as (rv & s' & E' & D). rewrite E', bind_Done. by exists s'.
  - exists s. split_and!; [done|done|by eapply steps_refl].
Qed.

(** * The message as it is built *)

(** The bytes of a message in the hands of send [j]: as long as they say. *)
Record framed (j : send_job) (b : list Z) (bits : Z) : Prop := {
  fr_bytes : bytes b;
  fr_len : MSG_HDR <= Z.of_nat (length b) <= MAX_MSG_BYTES;
  fr_size : msgh_size b = Done (Z.of_nat (length b));
  fr_bits : msgh_bits b = Done bits;
  fr_complex : sj_complex j = has bits MACH_MSGH_BITS_COMPLEX;
  fr_local : sj_has_local j = negb (MACH_MSGH_BITS_LOCAL bits =? 0);
}.

(** Fields of the header and the descriptor area survive a change elsewhere. *)
Lemma framed_st j b bits n off v b' :
  framed j b bits -> st n b off v = Done b' -> 8 <= off -> framed j b' bits.
Proof.
  intros [F1 F2 F3 F4 F5 F6] E Ho. destruct (st_done _ _ _ _ _ E) as [Ft Hl]. split; rewrite ?Hl; try done.
  - destruct (st_ok n b off v Ft F1) as (b1 & E1 & _ & B1). rewrite E in E1. by injection E1 as <-.
  - unfold msgh_size in *. rewrite (ld_st_other _ _ _ _ _ 4 4 E) by lia. exact F3.
  - unfold msgh_bits in *. rewrite (ld_st_other _ _ _ _ _ 4 0 E) by lia. exact F4.
Qed.

Lemma ld_before n b b' off m :
  length b' = length b -> (forall i : nat, Z.of_nat i < m -> b' !! i = b !! i) -> off + Z.of_nat n <= m -> ld n b' off = ld n b off.
Proof.
  intros Hl Ha H1. unfold ld. rewrite Hl. destruct ((0 <=? off) && _) eqn:E; [|done]. do 2 f_equal. apply list_eq. intros i.
  destruct (decide (i < n)%nat); [|by rewrite !lookup_take_ge by lia]. rewrite !lookup_take_lt, !lookup_drop by lia. apply Ha. lia.
Qed.

Lemma framed_after j b bits b' :
  framed j b bits -> length b' = length b -> bytes b' -> (forall i : nat, Z.of_nat i < MSG_HDR -> b' !! i = b !! i) -> framed j b' bits.
Proof.
  intros [F1 F2 F3 F4 F5 F6] Hl By Ha. split; rewrite ?Hl; try done; [unfold msgh_size in *|unfold msgh_bits in *];
    rewrite (ld_before _ _ _ _ MSG_HDR Hl Ha) by done; done.
Qed.

Lemma cleared_local bits : MACH_MSGH_BITS_LOCAL (Z.ldiff bits (MACH_MSGH_BITS 0 0xFF)) = 0.
Proof.
  change (MACH_MSGH_BITS 0 0xFF) with 0xFF00. unfold MACH_MSGH_BITS_LOCAL. apply Z.bits_inj'. intros n Hn.
  rewrite Z.land_spec, Z.shiftr_spec, Z.ldiff_spec, Z.bits_0 by lia. change 0xFF00 with (Z.shiftl 0xFF 8). rewrite Z.shiftl_spec by lia.
  replace (n + 8 - 8) with n by lia. destruct (Z.testbit 0xFF n); by rewrite ?andb_false_r.
Qed.

Lemma cleared_complex bits : has (Z.ldiff bits (MACH_MSGH_BITS 0 0xFF)) MACH_MSGH_BITS_COMPLEX = has bits MACH_MSGH_BITS_COMPLEX.
Proof.
  change (MACH_MSGH_BITS 0 0xFF) with 0xFF00. unfold has, MACH_MSGH_BITS_COMPLEX. do 2 f_equal. apply Z.bits_inj'. intros n Hn.
  rewrite !Z.land_spec, Z.ldiff_spec. destruct (decide (n = 31)) as [->|Hne]; [by rewrite andb_true_r|].
  change 0x80000000 with (2 ^ 31). rewrite Z.pow2_bits_false by done. by rewrite !andb_false_r.
Qed.

Lemma cleared_range bits : 0 <= bits < 2 ^ 32 -> 0 <= Z.ldiff bits (MACH_MSGH_BITS 0 0xFF) < 2 ^ 32.
Proof.
  intros Hb. change (MACH_MSGH_BITS 0 0xFF) with 0xFF00. assert (0 <= Z.ldiff bits 0xFF00) as H0 by (apply Z.ldiff_nonneg; lia). split; [done|].
  assert (Z.ldiff bits 0xFF00 <= bits) as H1; [|lia]. pose proof (Z.lor_ldiff_and bits 0xFF00) as Q1. rewrite <- Q1 at 2.
  assert (Z.land (Z.ldiff bits 0xFF00) (Z.land bits 0xFF00) = 0) as Dj.
  { apply Z.bits_inj'. intros n Hn. rewrite !Z.land_spec, Z.ldiff_spec, Z.bits_0. destruct (Z.testbit bits n), (Z.testbit 0xFF00 n); done. }
  rewrite <- Z.add_nocarry_lor by done. assert (0 <= Z.land bits 0xFF00) by (apply Z.land_nonneg; lia). lia.
Qed.

(** A send past its slot: what its locals say of the message. *)
Record job_ok (j : send_job) (bits : Z) : Prop := {
  jo_bytes : bytes (sj_buf j);
  jo_len : MSG_HDR <= Z.of_nat (length (sj_buf j)) <= MAX_MSG_BYTES;
  jo_size : msgh_size (sj_buf j) = Done (Z.of_nat (length (sj_buf j)));
  jo_bits : msgh_bits (sj_buf j) = Done bits;
  jo_complex : sj_complex j = has bits MACH_MSGH_BITS_COMPLEX;
  jo_local : sj_has_local j = true -> MACH_MSGH_BITS_LOCAL bits <> 0;
  jo_kind : kind_ok (sj_kind j);
  jo_right : sj_remote_right j = MACH_PORT_RIGHT_SEND \/ sj_remote_right j = MACH_PORT_RIGHT_SEND_ONCE;
}.

Lemma send_head_ok j bits :
  job_ok j bits ->
  exists b bits', (if sj_has_local j then Done (sj_buf j)
     else bits ← msgh_bits (sj_buf j); b ← st 4 (sj_buf j) 0 (Z.ldiff bits (MACH_MSGH_BITS 0 0xFF)); st 4 b 12 MACH_PORT_NULL) = Done b /\ framed j b bits' /\
    agree_from (sj_buf j) b MSG_HDR.
Proof.
  intros [J1 J2 J3 J4 J5 J6 J7 J8]. unfold MSG_HDR in *. destruct (sj_has_local j) eqn:El.
  - exists (sj_buf j), bits. split; [done|]. split; [|done]. split; try done. rewrite El. specialize (J6 eq_refl). lia.
  - rewrite J4, bind_Done. set (bits' := Z.ldiff bits (MACH_MSGH_BITS 0 0xFF)).
    destruct (st_ok 4 (sj_buf j) 0 bits') as (b1 & E1 & L1 & B1); [split; lia|done|]. rewrite E1, bind_Done.
    assert (framed j b1 bits') as F1.
    { assert (0 <= bits < 2 ^ 32) as Rb.
      { unfold msgh_bits in J4. destruct (ld_ok 4 (sj_buf j) 0) as (v & Ev & Rv); [split; lia|done|]. rewrite Ev in J4. injection J4 as <-. exact Rv. }
      split; rewrite ?L1; try done.
      - unfold msgh_size in *. rewrite (ld_st_other _ _ _ _ _ 4 4 E1) by lia. exact J3.
      - unfold msgh_bits. rewrite (ld_st_same _ _ _ _ _ E1). f_equal. apply Z.mod_small. by apply cleared_range.
      - rewrite J5. symmetry. apply cleared_complex.
      - rewrite El. unfold bits'. by rewrite cleared_local. }
    destruct (st_ok 4 b1 12 MACH_PORT_NULL) as (b2 & E2 & L2 & B2); [split; lia|done|]. exists b2, bits'. split; [done|]. split; [by eapply framed_st|].
    split; [congruence|]. intros i Hi. rewrite (st_lookup _ _ _ _ _ _ E2), (st_lookup _ _ _ _ _ _ E1) by lia. done.
Qed.

(** [send_count]: how many descriptors, all inside the message. *)
Inductive counts (s : world) (b : list Z) (j : send_job) : Z + Z * world -> Prop :=
| counts_bad rv : rv <> MACH_MSG_OK -> counts s b j (inl rv)
| counts_plain : sj_complex j = false -> counts s b j (inr (0, s))
| counts_complex n h : sj_complex j = true -> 0 <= n -> msgh_descriptor_count b = Done n -> MSG_HDR + MSG_BODY <= Z.of_nat (length b) ->
    desc_walk (Z.to_nat n) b (MSG_HDR + MSG_BODY) (Z.of_nat (length b)) = Done true -> counts s b j (inr (n, upd_heap s h)).

Lemma desc_walk_total n b off cap : cap <= Z.of_nat (length b) -> 0 <= off -> exists ok, desc_walk n b off cap = Done ok.
Proof.
  intros Hc. revert off. induction n as [|n IH]; intros off H0; [by exists true|]. cbn [desc_walk]. unfold desc_step.
  destruct (cap <=? off) eqn:Ec; [by exists false|]. rewrite ld_eq by (split; lia). rewrite !bind_Done. cbv zeta.
  destruct (_ || _); [by exists false|]. cbn [fst]. destruct (_ =? 0); [by exists false|]. apply IH. unfold PORT_DESC, OOL_DESC. repeat case_match; lia.
Qed.

Lemma upd_heap_id s : upd_heap s (w_heap s) = s.
Proof. by destruct s. Qed.

Lemma send_count_ok s j b bits : framed j b bits -> exists r, send_count s j b = Done r /\ counts s b j r.
Proof.
  intros [F1 F2 F3 F4 F5 F6]. unfold send_count. destruct (sj_complex j) eqn:Ec; cbn [negb]; [|eexists; split; [done|by apply counts_plain]].
  rewrite F3, bind_Done. destruct (_ <? _) eqn:Es; [eexists; split; [done|by apply counts_bad]|]. unfold msgh_descriptor_count, MSG_HDR, MSG_BODY in *.
  destruct (ld_ok 4 b 24) as (n & En & Rn); [split; lia|done|]. rewrite En, bind_Done. destruct (n =? 0) eqn:Ez.
  - assert (n = 0) as -> by lia. eexists. split; [done|]. rewrite <- (upd_heap_id s) at 2. apply counts_complex; try done; unfold MSG_HDR, MSG_BODY; lia.
  - destruct (desc_walk_total (Z.to_nat n) b (24 + 4) (Z.of_nat (length b))) as (ok & Eo); [lia|lia|]. rewrite Eo, bind_Done.
    destruct ok; cbn [negb]; [|eexists; split; [done|by apply counts_bad]]. unfold w_kmalloc. destruct (kmalloc_ok (w_heap s)) as [got h].
    destruct got; cbn [negb]; eexists; (split; [done|]); [|by apply counts_bad]. apply counts_complex; try done; unfold MSG_HDR, MSG_BODY; lia.
Qed.

(** * The reply right *)

Inductive local_made B s X Y i j bits b : Z -> list pending_desc -> list Z -> world -> Prop :=
| local_failed rv s' : rv <> MACH_MSG_OK -> inv B ∅ [] s' X Y -> steps i 1 s s' -> local_made B s X Y i j bits b rv [] b s'
| local_done loc b' s' : (if sj_has_local j then exists p r, loc = [carries p r] /\ one_right r else loc = []) ->
    inv B ∅ [] s' (gather desc_rights loc ⊎ X) Y -> steps i 1 s s' -> framed j b' bits -> agree_from b b' MSG_HDR ->
    local_made B s X Y i j bits b MACH_MSG_OK loc b' s'.

Lemma send_local_ok B s X Y j sp bits b n :
  inv B ∅ [] s X Y -> room (S n) s -> w_spaces s !! sj_from j = Some sp -> framed j b bits ->
  exists rv loc b' s', send_local s j b = Done (rv, loc, b', s') /\ local_made B s X Y (sj_from j) j bits b rv loc b' s'.
Proof.
  intros I Rm Hi Fr. unfold send_local. destruct (sj_has_local j) eqn:El; cbn [negb].
  2:{ eexists _, _, _, _. split; [reflexivity|]. apply local_done; [by rewrite El|by rewrite gmultiset_disj_union_left_id| |done|apply agree_refl].
      apply (steps_more _ 0); [lia|by eapply steps_refl]. }
  pose proof (fr_len _ _ _ Fr) as Ln. unfold MSG_HDR in *. unfold msgh_local. destruct (ld_ok 4 b 12) as (name & En & Rn); [split; lia|apply Fr|]. rewrite En, bind_Done.
  destruct (send_xlate_desc_ok B s X Y (sj_from j) sp name (sj_local_disp j) n I Rm Hi (proj1 Rn)) as (rv & pd & s1 & E1 & Xl & St). rewrite E1, bind_Done.
  destruct Xl as [p s1 Or Hp I1|rv Hv].
  - change (negb (MACH_MSG_OK =? MACH_MSG_OK)) with false. cbv iota. unfold w_kmalloc. destruct (kmalloc_ok (w_heap s1)) as [got h].
    assert (inv B ∅ [] (upd_heap s1 h) (rights_of p (disposed (sj_local_disp j)) ⊎ X) Y) as I2 by (by apply (same_inv _ _ _ s1)).
    destruct (steps_space _ _ _ _ _ St Hi) as (sp1 & Hi1 & _). pose proof (room_steps _ 1 n s s1 Rm St) as Rm1.
    assert (steps (sj_from j) 1 s (upd_heap s1 h)) as St2 by (eapply (steps_trans _ 1 0); [exact St|by eapply steps_same]).
    destruct got; cbn [negb].
    + destruct (st_ok 4 b 12 MACH_PORT_NULL) as (b' & Eb & Lb & Bb); [split; lia|apply Fr|]. rewrite Eb, bind_Done. eexists _, _, _, _. split; [reflexivity|].
      apply local_done; [rewrite El; by eexists _, _| |done|by eapply framed_st|].
      * by rewrite gather_one, carries_rights.
      * eapply agree_less; [eapply st_agree; exact Eb|unfold MSG_HDR; lia].
    + cbn [carries pd_port pd_disposition]. destruct (port_deref_local B ∅ [] (upd_heap s1 h) X Y p _ I2) as (s3 & E3 & I3 & Q3 & L3).
      * by apply one_right_mask.
      * unfold cost. rewrite size_one_right by done. pose proof (ro_depth _ _ Rm1). change (load ∅ (upd_heap s1 h)) with (load ∅ s1). change (w_depth (upd_heap s1 h)) with (w_depth s1). case_match; lia.
      * rewrite E3, bind_Done. eexists _, _, _, _. split; [reflexivity|]. apply local_failed; [done|done|].
        eapply (steps_trans _ 1 0); [exact St2|]. eapply steps_quiet; [exact Hi1|exact Q3|exact L3].
  - rewrite (proj2 (Z.eqb_neq _ _) Hv). cbn [negb]. eexists _, _, _, _. split; [reflexivity|]. apply local_failed; [done|done|exact St].
Qed.

(** * Into the queue *)

Lemma slot_spent B s p kind X Y :
  inv (when true (p, RSlot) ⊎ (pin p kind ⊎ B)) ∅ [] s X Y -> (forall po, w_ports s !! p = Some po -> backed B p (p_qresv po) (p_send_waiters po)) ->
  sending B s p kind false X Y.
Proof.
  intros I Bk. split; cbn [Z.b2z].
  - cbn [when]. rewrite gmultiset_disj_union_left_id. apply (loosen_inv _ _ _ _ _ I); [apply token_slot|]. intros q qo H. destruct (decide (q = p)) as [->|Hn].
    + pose proof (backed_keep B p kind _ _ false (Bk qo H)) as Q. cbn [when] in Q. by rewrite gmultiset_disj_union_left_id in Q.
    + apply (pinned_more _ _ _ _ (i_pinned _ _ _ _ _ _ I q qo H)). intros k. rewrite num_union, num_when, decide_False by congruence. lia.
  - intros po Hp. rewrite Z.sub_0_r. split; [by apply Bk|]. exact (po_qresv _ (i_port _ _ _ _ _ _ I p po Hp)).
Qed.

Lemma enqueue_over B s j l b n :
  sending B s (sj_dest j) (sj_kind j) true (gather desc_rights l) (gather desc_frames l) -> kind_ok (sj_kind j) -> msg_ok (mkMsg l b) ->
  (size (gather desc_rights l) <= n)%nat -> room n s -> all_counted s ->
  exists rv s', (r ← msg_enqueue s (sj_dest j) (mkMsg l b) true;
    let '(rv, w, s) := (r : Z * option Z * world) in
    if negb (rv =? MACH_MSG_OK) then send_fail s j l false rv
    else s ← dest_unref (wake_opt s w) (sj_dest j) (sj_kind j); Done (MACH_MSG_OK, s)) = Done (rv, s') /\ sys B s'.
Proof.
  intros Sg Hk Mo Sz Rm C. destruct (sending_live _ _ _ _ _ _ _ Sg Hk) as (po & Hp). destruct (sg_rest _ _ _ _ _ _ _ Sg po Hp) as [Bk Q0]. cbn [Z.b2z] in *.
  set (m := mkMsg l b) in *. destruct (msg_enqueue_ok (when true (sj_dest j, RSlot) ⊎ (pin (sj_dest j) (sj_kind j) ⊎ B)) ∅ [] s ∅ ∅ (sj_dest j) po m true) as (rv & w & s1 & po1 & E1 & Qt & D & H1 & R1 & W1);
    [rewrite !gmultiset_disj_union_right_id; apply Sg|exact Hp|set_solver|exact Mo|lia|].
  rewrite E1, bind_Done. cbn [Z.b2z] in R1.
  assert (all_counted s1) as C1 by (eapply counted_same; [exact C|exact (qt_spaces _ _ _ Qt)]).
  assert (w_depth s1 = w_depth s) as Dp by exact (qt_depth _ _ _ Qt). pose proof (ro_depth _ _ Rm) as Dr.
  assert (forall qo, w_ports s1 !! sj_dest j = Some qo -> backed B (sj_dest j) (p_qresv qo) (p_send_waiters qo)) as Bk1.
  { intros qo Hq. assert (qo = po1) as -> by congruence. rewrite R1, W1. exact Bk. }
  destruct D as [w I1 L1|rv Hv I1 L1].
  - change (negb (MACH_MSG_OK =? MACH_MSG_OK)) with false. cbv iota. change (msg_rights m) with (gather desc_rights l) in L1.
    destruct (dest_unref_over B (wake_opt s1 w) (sj_dest j) (sj_kind j)) as (s2 & E2 & Sy).
    + apply slot_spent; [by apply wake_idle|exact Bk1].
    + done.
    + unfold deep. change (load ∅ (wake_opt s1 w)) with (load ∅ s1). change (w_depth (wake_opt s1 w)) with (w_depth s1). lia.
    + exact C1.
    + rewrite E2, bind_Done. by eexists _, s2.
  - rewrite (proj2 (Z.eqb_neq _ _) Hv). cbn [negb]. rewrite !gmultiset_disj_union_right_id in I1.
    destruct (send_fail_ok B s1 j l false rv n) as (s2 & E2 & Sy); [by apply slot_spent|done|by apply msg_ok_descs in Mo|done| |done|by eexists _, s2].
    split; [|intros i sp; rewrite (qt_spaces _ _ _ Qt); apply (ro_cap _ _ Rm)|lia]. intros q qo Hq. destruct (qt_port _ _ _ Qt q qo Hq) as (q1 & Hq1 & Le).
    pose proof (le_refs _ _ Le). cbn in Hq1. destruct (decide (q = sj_dest j)) as [->|Hn].
    + rewrite lookup_insert_eq in Hq1. injection Hq1 as <-. pose proof (ro_refs _ _ Rm _ po Hp). cbn in *. lia.
    + rewrite lookup_insert_ne in Hq1 by done. pose proof (ro_refs _ _ Rm q q1 Hq1). lia.
Qed.

(** The descriptors made are those the bytes announce. *)
Lemma built_ok j b bits explicit loc :
  framed j b bits -> Forall carried explicit -> (if sj_has_local j then exists p r, loc = [carries p r] /\ one_right r else loc = []) ->
  (if sj_complex j then msgh_descriptor_count b = Done (Z.of_nat (length explicit)) /\ MSG_HDR + MSG_BODY + descs_size explicit <= Z.of_nat (length b)
   else explicit = []) ->
  msg_ok (mkMsg (explicit ++ loc) b).
Proof.
  intros [F1 F2 F3 F4 F5 F6] Hc Hl Hn. exists bits, explicit, loc. split; cbn [m_buf m_descs]; try done; [by rewrite <- F5|].
  rewrite F6 in Hl. by destruct (_ =? 0).
Qed.

(** * A send from its slot on *)

(** Whether the message may carry memory out of line. *)
Definition job_ool (j : send_job) : Prop := exists n, has_ool n (sj_buf j) (MSG_HDR + MSG_BODY) = true.

Abbreviation slot_base B j := (when true (sj_dest j, RSlot) ⊎ (pin (sj_dest j) (sj_kind j) ⊎ B)).

Lemma fail_empty B s j (m : nat) rv n :
  sending B s (sj_dest j) (sj_kind j) true ∅ ∅ -> kind_ok (sj_kind j) -> room n s -> all_counted s ->
  exists s', send_fail s j (replicate m pd_zero) true rv = Done (rv, s') /\ sys B s'.
Proof.
  intros Sg Hk Rm C. destruct (zeros_free m) as (Z1 & Z2 & Z3). apply (send_fail_ok B s j _ true rv n); rewrite ?Z1, ?Z2; try done. rewrite gmultiset_size_empty. lia.
Qed.

(** The descriptors of the body are as many as it says, and in it. *)
Definition announced (j : send_job) (b : list Z) (n : nat) : Prop :=
  if sj_complex j then msgh_descriptor_count b = Done (Z.of_nat n) /\ MSG_HDR + MSG_BODY <= Z.of_nat (length b) /\
    desc_walk n b (MSG_HDR + MSG_BODY) (Z.of_nat (length b)) = Done true
  else n = 0%nat.

(** After the loop over them: a whole message, or what to give back. *)
Record built B i s X loc (rv : Z) (b' : list Z) (l : list pending_desc) (s' : world) : Prop := {
  bu_inv : inv B ∅ [] s' (gather desc_rights l ⊎ X) (gather desc_frames l);
  bu_steps : steps i 508 s s';
  bu_ok : Forall desc_ok l;
  bu_size : (size (gather desc_rights l) <= 508)%nat;
  bu_done : rv = MACH_MSG_OK -> msg_ok (mkMsg (l ++ loc) b');
}.

Lemma send_descs_built B s X c j bits b loc sp (n : nat) :
  inv B ∅ [] s X ∅ -> room 600 s -> w_spaces s !! sj_from j = Some sp -> framed j b bits -> agree_from (sj_buf j) b MSG_HDR ->
  (if sj_has_local j then exists p r, loc = [carries p r] /\ one_right r else loc = []) -> announced j b n ->
  safe (job_ool j) (send_descs n s c (sj_from j) b (MSG_HDR + MSG_BODY) [])
    (fun r => built B (sj_from j) s X loc r.1.1.1 r.1.1.2 r.1.2 r.2).
Proof.
  intros I Rm Hi Fr Ag Hl An. unfold announced in An. destruct (sj_complex j) eqn:Ec.
  - destruct An as (Hn & Hb & Hw). assert (n <= 508)%nat as Nb.
    { destruct (desc_walk_bound _ _ _ _ Hw) as [->|H]; [lia|]. pose proof (fr_len _ _ _ Fr). unfold MSG_HDR, MSG_BODY, MAX_MSG_BYTES in *. lia. }
    eapply safe_weaken; [apply (send_descs_safe B (sj_from j) c (Z.of_nat (length b)) (600 - n) n s sp X ∅ b (MSG_HDR + MSG_BODY) [] I)| |].
    + apply none_unmapped.
    + by replace (n + (600 - n))%nat with 600%nat by lia.
    + done.
    + done.
    + lia.
    + apply Fr.
    + unfold MSG_HDR, MSG_BODY in *. lia.
    + intros H. exists n. rewrite <- H. symmetry. apply has_ool_agree. eapply agree_less; [exact Ag|unfold MSG_BODY; lia].
    + intros [[[rv b'] descs] s'] (l & El & [M1 M2 M3 M4 M5 M6 M7 M8]). cbn [fst snd app] in *. subst descs. split; try done.
      * by rewrite gmultiset_disj_union_right_id in M1.
      * by eapply steps_more; [|exact M2].
      * lia.
      * intros Hv. destruct (M8 Hv) as (D1 & D2 & D3). apply (built_ok j b' bits).
        -- apply (framed_after j b bits b' Fr M3 M4). intros i H. apply M5. unfold MSG_BODY. lia.
        -- done.
        -- done.
        -- rewrite Ec, M3, D1. split; [|lia]. rewrite <- Hn. unfold msgh_descriptor_count. apply (ld_before _ _ _ _ (MSG_HDR + MSG_BODY)); [done|done|done].
  - subst n. cbn [send_descs]. split; cbn [fst snd].
    + by rewrite gmultiset_disj_union_left_id.
    + eapply (steps_more _ 0); [lia|by eapply steps_refl].
    + constructor.
    + change (gather desc_rights []) with (∅ : rights). rewrite gmultiset_size_empty. lia.
    + intros _. apply (built_ok j b bits [] loc Fr); [constructor|done|by rewrite Ec].
Qed.

Lemma local_frames j loc : (if sj_has_local j then exists p r, loc = [carries p r] /\ one_right r else loc = []) ->
  gather desc_frames loc = ∅ /\ Forall desc_ok loc /\ (size (gather desc_rights loc) <= 1)%nat.
Proof.
  destruct (sj_has_local j).
  - intros (p & r & -> & Hr). rewrite !gather_one, carries_rights, size_one_right by done. split_and!; [done|constructor; [by apply carried_ok, carried_port|constructor]|done].
  - intros ->. split_and!; [done|constructor|]. change (gather desc_rights []) with (∅ : rights). rewrite gmultiset_size_empty. lia.
Qed.

(** The explicit descriptors, and the message into the queue. *)
Lemma send_build_safe B s c j bits b loc sp (n : nat) :
  sending B s (sj_dest j) (sj_kind j) true (gather desc_rights loc) ∅ -> kind_ok (sj_kind j) -> room 1200 s -> all_counted s -> w_spaces s !! sj_from j = Some sp ->
  framed j b bits -> agree_from (sj_buf j) b MSG_HDR -> (if sj_has_local j then exists p r, loc = [carries p r] /\ one_right r else loc = []) -> announced j b n ->
  safe (job_ool j) (r ← send_descs n s c (sj_from j) b (MSG_HDR + MSG_BODY) [];
    let '(rv, b, descs, s) := (r : Z * list Z * list pending_desc * world) in
    if negb (rv =? MACH_MSG_OK) then send_fail s j (descs ++ loc) true rv
    else
      r ← msg_enqueue s (sj_dest j) (mkMsg (descs ++ loc) b) true;
      let '(rv, w, s) := (r : Z * option Z * world) in
      if negb (rv =? MACH_MSG_OK) then send_fail s j (descs ++ loc) false rv
      else s ← dest_unref (wake_opt s w) (sj_dest j) (sj_kind j); Done (MACH_MSG_OK, s)) (fun r => sys B r.2).
Proof.
  intros Sg Hk Rm C Hi Fr Ag Hl An. assert (room 600 s) as Rm6 by (destruct Rm as [R1 R2 R3]; split; [|done|lia]; intros p po Hp; specialize (R1 p po Hp); lia).
  eapply safe_bind; [apply (send_descs_built _ s _ c j bits b loc sp n (sg_inv _ _ _ _ _ _ _ Sg) Rm6 Hi Fr Ag Hl An)|].
  intros [[[rv b'] l] s'] [U1 U2 U3 U4 U5]. cbn [fst snd] in *. destruct (local_frames j loc Hl) as (L1 & L2 & L3).
  assert (gather desc_frames (l ++ loc) = gather desc_frames l) as Ef by (rewrite gather_app, L1; apply gmultiset_disj_union_right_id).
  assert (sending B s' (sj_dest j) (sj_kind j) true (gather desc_rights (l ++ loc)) (gather desc_frames (l ++ loc))) as Sg'.
  { eapply sending_steps; [exact Sg|exact U2|]. by rewrite gather_app, Ef. }
  assert (room 600 s') as Rm' by (apply (room_steps (sj_from j) 508 600 s s'); [|exact U2]; destruct Rm as [R1 R2 R3]; split; [|done|lia]; intros p po Hp; specialize (R1 p po Hp); lia).
  assert (all_counted s') as C' by (by eapply counted_steps). assert (size (gather desc_rights (l ++ loc)) <= 600)%nat as Sz by (rewrite gather_app, gmultiset_size_disj_union; lia).
  destruct (rv =? MACH_MSG_OK) eqn:Ev; cbn [negb].
  - destruct (enqueue_over B s' j (l ++ loc) b' 600) as (rv' & s2 & E2 & Sy); try done; [apply U5; lia|]. unfold safe. by rewrite E2.
  - destruct (send_fail_ok B s' j (l ++ loc) true rv 600) as (s2 & E2 & Sy); try done; [by apply Forall_app|]. by rewrite E2.
Qed.

Lemma announced_agree j b b' n : announced j b n -> agree_from b b' MSG_HDR -> announced j b' n.
Proof.
  unfold announced. destruct (sj_complex j); [|done]. intros (H1 & H2 & H3) Ag. pose proof Ag as [Hl _]. rewrite Hl. split_and!; [|done|].
  - rewrite <- H1. unfold msgh_descriptor_count. eapply ld_agree; [exact Ag|lia].
  - rewrite <- H3. apply desc_walk_agree. eapply agree_less; [exact Ag|unfold MSG_BODY; lia].
Qed.

Lemma agree_trans b1 b2 b3 off : agree_from b1 b2 off -> agree_from b2 b3 off -> agree_from b1 b3 off.
Proof. intros [L1 A1] [L2 A2]. split; [congruence|]. intros j Hj. rewrite A2, A1 by done. done. Qed.

Lemma room_less n m s : room n s -> (m <= n)%nat -> room m s.
Proof. intros [R1 R2 R3] Hm. split; [|done|lia]. intros p po Hp. specialize (R1 p po Hp). lia. Qed.

(** The reply right, then the rest. *)
Lemma send_tail_safe B s c j bits b sp (n : Z) :
  sending B s (sj_dest j) (sj_kind j) true ∅ ∅ -> kind_ok (sj_kind j) -> room 1201 s -> all_counted s -> w_spaces s !! sj_from j = Some sp ->
  framed j b bits -> agree_from (sj_buf j) b MSG_HDR -> announced j b (Z.to_nat n) ->
  safe (job_ool j) (r ← send_local s j b;
      let '(rv, loc, b, s) := (r : Z * list pending_desc * list Z * world) in
      if negb (rv =? MACH_MSG_OK) then send_fail s j (replicate (Z.to_nat n) pd_zero) true rv
      else
        r ← send_descs (Z.to_nat n) s c (sj_from j) b (MSG_HDR + MSG_BODY) [];
        let '(rv, b, descs, s) := (r : Z * list Z * list pending_desc * world) in
        if negb (rv =? MACH_MSG_OK) then send_fail s j (descs ++ loc) true rv
        else
          r ← msg_enqueue s (sj_dest j) (mkMsg (descs ++ loc) b) true;
          let '(rv, w, s) := (r : Z * option Z * world) in
          if negb (rv =? MACH_MSG_OK) then send_fail s j (descs ++ loc) false rv
          else s ← dest_unref (wake_opt s w) (sj_dest j) (sj_kind j); Done (MACH_MSG_OK, s)) (fun r => sys B r.2).
Proof.
  intros Sg Hk Rm C Hi Fr Ag An.
  destruct (send_local_ok _ s ∅ ∅ j sp bits b 1200 (sg_inv _ _ _ _ _ _ _ Sg) Rm Hi Fr) as (rv & loc & b1 & s1 & E1 & Lm). rewrite E1, bind_Done.
  destruct Lm as [rv s1 Hv I1 St|loc b1 s1 Hl I1 St Fr1 Ag1].
  - rewrite (proj2 (Z.eqb_neq _ _) Hv). cbn [negb].
    destruct (fail_empty B s1 j (Z.to_nat n) rv 1200) as (s2 & E2 & Sy); [by eapply sending_steps|done|exact (room_steps _ 1 1200 _ _ Rm St)|by eapply counted_steps|].
    by rewrite E2.
  - change (negb (MACH_MSG_OK =? MACH_MSG_OK)) with false. cbv iota. rewrite gmultiset_disj_union_right_id in I1.
    destruct (steps_space _ _ _ _ _ St Hi) as (sp1 & Hi1 & _).
    apply (send_build_safe B s1 c j bits b1 loc sp1); try done.
    + by eapply sending_steps.
    + exact (room_steps _ 1 1200 _ _ Rm St).
    + by eapply counted_steps.
    + by eapply agree_trans.
    + by eapply announced_agree.
Qed.

Lemma send_finish_safe B s c j bits sp :
  sending B s (sj_dest j) (sj_kind j) true ∅ ∅ -> job_ok j bits -> room 1201 s -> all_counted s -> w_spaces s !! sj_from j = Some sp ->
  safe (job_ool j) (send_finish s c j) (fun r => sys B r.2).
Proof.
  intros Sg Jo Rm C Hi. pose proof (jo_len _ _ Jo) as Ln. unfold send_finish, msgh_remote, MSG_HDR in *.
  destruct (ld_ok 4 (sj_buf j) 8) as (remote & Er & Rr); [split; lia|apply Jo|]. rewrite Er, bind_Done.
  destruct (drop_moved_ok _ s ∅ ∅ (sj_from j) sp remote (sj_remote_disp j) (sj_remote_right j) (sg_inv _ _ _ _ _ _ _ Sg) (room_deep _ _ Rm) Hi
    (ro_cap _ _ Rm _ sp Hi) (proj1 Rr) (jo_right _ _ Jo)) as (s1 & E1 & I1 & St). rewrite E1, bind_Done.
  destruct (steps_space _ _ _ _ _ St Hi) as (sp1 & Hi1 & _). pose proof (room_steps _ 0 1201 _ _ Rm St) as Rm1.
  assert (sending B s1 (sj_dest j) (sj_kind j) true ∅ ∅) as Sg1 by (by eapply sending_steps).
  assert (all_counted s1) as C1 by (by eapply counted_steps).
  destruct (send_head_ok j bits Jo) as (b & bits' & Eb & Fr & Ag). rewrite Eb, bind_Done.
  destruct (send_count_ok s1 j b bits' Fr) as (r & Ec & Ct). rewrite Ec, bind_Done. destruct Ct as [rv Hv|Hx|n h Hx H0 Hn Hb Hw].
  - destruct (fail_empty B s1 j 0 rv 1201) as (s2 & E2 & Sy); try done; [apply Jo|]. cbn [replicate] in E2. by rewrite E2.
  - apply (send_tail_safe B s1 c j bits' b sp1); try done; [apply Jo|]. unfold announced. by rewrite Hx.
  - assert (steps (sj_from j) 0 s1 (upd_heap s1 h)) as Sh by (by eapply steps_same).
    apply (send_tail_safe B (upd_heap s1 h) c j bits' b sp1); try done.
    + eapply sending_steps; [exact Sg1|exact Sh|]. apply (same_inv _ _ _ s1); try done.
    + apply Jo.
    + exact (room_steps _ 0 1201 _ _ Rm1 Sh).
    + unfold announced. rewrite Hx, Z2Nat.id by lia. done.
Qed.

Lemma send_slot_safe B s c j bits sp th o s' :
  slotted B s (sj_dest j) (sj_kind j) th ∅ ∅ o s' -> job_ok j bits -> room 1201 s -> all_counted s -> w_spaces s !! sj_from j = Some sp ->
  safe (job_ool j) (send_slot s' c j o)
    (fun r => match r.1 with
              | Sent _ _ => sys B r.2
              | Asleep j' => j' = j /\ sys ({[+ (sj_dest j, RWait th) +]} ⊎ (pin (sj_dest j) (sj_kind j) ⊎ B)) r.2
              end).
Proof.
  intros Sl Jo Rm C Hi. destruct Sl as [s' Sg Al|rv s' Hv Sg Al|s' I Al]; cbn [send_slot].
  - eapply safe_bind; [eapply (send_finish_safe B s' c j bits sp Sg Jo)|].
    + by eapply room_alike.
    + eapply counted_same; [exact C|exact (al_spaces _ _ Al)].
    + by rewrite (al_spaces _ _ Al).
    + intros x Hx. exact Hx.
  - destruct (dest_unref_over B s' (sj_dest j) (sj_kind j) Sg (jo_kind _ _ Jo)) as (s2 & E2 & Sy).
    + eapply room_deep, room_alike; [exact Rm|exact Al].
    + eapply counted_same; [exact C|exact (al_spaces _ _ Al)].
    + by rewrite E2, bind_Done.
  - split; [done|]. split; [exact I|]. eapply counted_same; [exact C|exact (al_spaces _ _ Al)].
Qed.

End send.
