(* ===== verification/PortSendMsg.v ===== *)
(** [mach_msg_send_timed] as a whole: the two fetches, the fast path, kernel
    objects, and a sender that wakes.  The theorem is for a message that does
    not change between the two fetches. *)

From stdpp Require Import base list gmap gmultiset strings numbers option.
From Stdlib Require Import ZArith Lia ZifyBool.
From S2P Require Import Prelude Owners VmMap Ports PortMsg PortBytes PortInv PortDeref PortSpace PortSets PortCalls PortXlate PortSlot PortSend.

(** * The header *)

Lemma fetch_lookup u n i : (i < n)%nat -> fetch u n !! i = Some (w8 (u i)).
Proof. intros Hi. unfold fetch. rewrite list_lookup_fmap, lookup_seq_lt by done. done. Qed.

(** The header at the first fetch is the head of the message at the second. *)
Lemma ld_fetch u1 u2 n off m :
  (forall i, (i < 24)%nat -> u1 i = u2 i) -> 0 <= off -> off + Z.of_nat n <= MSG_HDR -> (24 <= m)%nat -> ld n (fetch u1 24) off = ld n (fetch u2 m) off.
Proof.
  intros Hu H0 H1 Hm. unfold MSG_HDR in *. rewrite !ld_eq by (split; rewrite ?fetch_length; lia). f_equal. f_equal. apply list_eq. intros i.
  destruct (decide (i < n)%nat); [|by rewrite !lookup_take_ge by lia]. rewrite !lookup_take_lt, !lookup_drop by lia.
  rewrite !fetch_lookup by lia. by rewrite Hu by lia.
Qed.

(** What a header that passes says. *)
Record valid_header (h : list Z) (size bits : Z) : Prop := {
  vh_size : msgh_size h = Done size;
  vh_bits : msgh_bits h = Done bits;
  vh_range : MSG_HDR <= size <= MAX_MSG_BYTES;
}.

Lemma msg_validate_ok u : exists rv, msg_validate (fetch u 24) = Done rv /\ (rv = MACH_MSG_OK -> exists size bits, valid_header (fetch u 24) size bits).
Proof.
  unfold msg_validate, msgh_size, msgh_bits, msgh_voucher. pose proof (fetch_bytes u 24) as By. pose proof (fetch_length u 24) as Ln.
  destruct (ld_ok 4 (fetch u 24) 4) as (size & Es & Rs); [split; lia|done|].
  destruct (ld_ok 4 (fetch u 24) 0) as (bits & Eb & Rb); [split; lia|done|].
  destruct (ld_ok 4 (fetch u 24) 16) as (v & Ev & Rv); [split; lia|done|]. rewrite Es, Eb, Ev, !bind_Done. eexists. split; [reflexivity|].
  destruct (size <? MSG_HDR) eqn:E1; [done|]. destruct (MAX_MSG_BYTES <? size) eqn:E2; [done|]. intros _. exists size, bits.
  split; [done|done|lia].
Qed.

Lemma remote_rights_ok disp r need : remote_rights disp = Some (r, need) ->
  (r = MACH_PORT_RIGHT_SEND \/ r = MACH_PORT_RIGHT_SEND_ONCE) /\ (need = r \/ need = MACH_PORT_RIGHT_RECEIVE) /\
  kind_ok (if need =? MACH_PORT_RIGHT_RECEIVE then 0 else r).
Proof.
  unfold remote_rights. repeat case_match; intros [= <- <-]; (split_and!; [auto|auto|]); first [left; done|right; left; done|right; right; done].
Qed.

Section send.
Context {V : Type} `{PS : PayloadSpec V}.
Abbreviation world := (world (V := V)).
Implicit Types (s : world) (p q : Z) (k : right) (B X : rights) (Y : goods).

(** * The fast path *)

Lemma send_stash_ok B s c i sp p po b disp r bits j :
  sys B s -> room 1300 s -> w_spaces s !! i = Some sp -> w_ports s !! p = Some po -> framed j b bits -> r = MACH_PORT_RIGHT_SEND \/ r = MACH_PORT_RIGHT_SEND_ONCE ->
  exists o s', send_stash s c i p b disp r = Done (o, s') /\ sys B s' /\ (o = None -> s' = s).
Proof.
  intros Sy Rm Hi Hp Fr Hr. unfold send_stash. rewrite (fr_size _ _ _ Fr), bind_Done, (get_port_eq _ _ _ Hp), bind_Done. cbv zeta.
  pose proof (fr_len _ _ _ Fr) as Ln. unfold MSG_HDR in Ln.
  destruct (_ && _) eqn:Es; [|by exists None, s]. rewrite (proj2 (Z.leb_le _ _) (Z.le_refl _)), bind_Done.
  assert (take (Z.to_nat (Z.of_nat (length b))) b = b) as -> by (rewrite Nat2Z.id; apply firstn_all).
  destruct (st_ok 4 b 12 MACH_PORT_NULL) as (copy & Ec & _); [split; lia|apply Fr|]. rewrite Ec, bind_Done.
  unfold msgh_remote. destruct (ld_ok 4 b 8) as (remote & Er & Rr); [split; lia|apply Fr|]. rewrite Er, bind_Done.
  set (po' := with_stash po _). pose proof (sy_inv _ _ Sy) as I. pose proof (i_port _ _ _ _ _ _ I p po Hp) as [A1 A2 A3 A4 A5 A6 A7 A8].
  destruct (put_trivial B ∅ [] s ∅ ∅ p po po' I Hp ltac:(set_solver)) as [I1 L1]; [by split|by split|exact (i_pinned _ _ _ _ _ _ I p po Hp)|].
  set (s1 := put_port s p po') in *. assert (room 1300 s1) as Rm1.
  { destruct Rm as [R1 R2 R3]. split; [|exact R2|rewrite L1; exact R3]. intros q qo Hq. cbn in Hq. destruct (decide (q = p)) as [->|Hn].
    - rewrite lookup_insert_eq in Hq. injection Hq as <-. exact (R1 p po Hp).
    - rewrite lookup_insert_ne in Hq by done. exact (R1 q qo Hq). }
  destruct (drop_moved_ok B s1 ∅ ∅ i sp remote disp r I1 (room_deep _ _ Rm1) Hi (ro_cap _ _ Rm1 _ sp Hi) (proj1 Rr) Hr) as (s2 & E2 & I2 & St).
  rewrite E2, bind_Done. eexists _, s2. split; [reflexivity|]. split; [|done]. split; [exact I2|exact (counted_steps i 0 s1 s2 (sy_counted _ _ Sy) St)].
Qed.

(** * Kernel objects *)

Lemma pl_unmap_sys B s t addr len : sys B s -> exists b v, pl_unmap (w_vm s) t addr len = Done (b, v) /\ sys B (upd_vm s v).
Proof.
  intros Sy. pose proof (sy_inv _ _ Sy) as I. destruct (pl_unmap_ok (w_vm s) t addr len _ (i_vm _ _ _ _ _ _ I)) as (b & v & E & Iv).
  { apply unmapped_union; [apply stored_unmapped|apply none_unmapped]. }
  exists b, v. split; [done|]. split; [by eapply vm_inv|exact (sy_counted _ _ Sy)].
Qed.

Lemma ool_deallocate_loop_ok B t b size n : size <= Z.of_nat (length b) -> bytes b -> forall s off, 0 <= off -> sys B s ->
  exists s', ool_deallocate_loop n s t b off size = Done s' /\ sys B s'.
Proof.
  intros Hs By. induction n as [|n IH]; intros s off H0 Sy; [by exists s|]. cbn [ool_deallocate_loop]. destruct (size <=? off) eqn:El; [by exists s|].
  destruct (ld_ok 1 b off) as (tag & -> & _); [split; lia|done|]. rewrite bind_Done. destruct (tag =? _); [apply IH; [unfold PORT_DESC; lia|done]|].
  destruct (tag =? _); [|by exists s]. destruct (size <? off + OOL_DESC) eqn:Eo; [by exists s|]. unfold OOL_DESC in Eo.
  destruct (ld_ok 1 b (off + 2)) as (de & -> & _); [split; lia|done|]. rewrite bind_Done.
  destruct (ld_ok 4 b (off + 4)) as (len & -> & _); [split; lia|done|]. rewrite bind_Done.
  destruct (ld_ok 8 b (off + 8)) as (addr & -> & _); [split; lia|done|]. rewrite bind_Done.
  destruct (_ && _).
  - destruct (pl_unmap_sys B s t addr (page_round len) Sy) as (r & v & -> & Sy'). rewrite !bind_Done. apply IH; [unfold OOL_DESC; lia|exact Sy'].
  - rewrite bind_Done. apply IH; [unfold OOL_DESC; lia|exact Sy].
Qed.

Lemma apply_ool_deallocate_ok B s c b bits j : sys B s -> framed j b bits -> exists s', apply_ool_deallocate s c b = Done s' /\ sys B s'.
Proof.
  intros Sy Fr. unfold apply_ool_deallocate. destruct (from_kernel _ _); [by exists s|]. rewrite (fr_bits _ _ _ Fr), bind_Done, (fr_size _ _ _ Fr), bind_Done.
  destruct (negb _); [by exists s|]. destruct (_ <? _) eqn:El; [by exists s|]. unfold msgh_descriptor_count, MSG_HDR, MSG_BODY in *.
  destruct (ld_ok 4 b 24) as (n & -> & _); [split; lia|apply Fr|]. rewrite bind_Done. apply ool_deallocate_loop_ok; [lia|apply Fr|lia|exact Sy].
Qed.

(** The dispatchers of kernel objects keep the system; [G] says that one may
    fault. *)
Variable dispatch : world -> caller -> Z -> Z -> list Z -> Z -> res (Z * world).
Variable G : Prop.
Definition dispatch_safe B : Prop :=
  forall s c kind arg b from, sys B s -> room 1300 s -> safe G (dispatch s c kind arg b from) (fun r => sys B r.2).

(** The kernel holds on to its objects. *)
Definition special_kept B s : Prop := forall p po, w_ports s !! p = Some po -> p_special po <> PORT_SPECIAL_NONE -> exists k, real k /\ (p, k) ∈ B.

Lemma send_special_safe B s c i sp p k b disp r bits j :
  dispatch_safe B -> sys B s -> room 1300 s -> w_spaces s !! i = Some sp -> real k -> (p, k) ∈ B -> framed j b bits ->
  r = MACH_PORT_RIGHT_SEND \/ r = MACH_PORT_RIGHT_SEND_ONCE -> safe G (send_special dispatch s c i p b disp r) (fun x => sys B x.2).
Proof.
  intros Ds Sy Rm Hi Rk Hk Fr Hr. pose proof (fr_len _ _ _ Fr) as Ln. unfold send_special, msgh_remote, MSG_HDR in *.
  destruct (ld_ok 4 b 8) as (remote & Er & Rr); [split; lia|apply Fr|]. rewrite Er, bind_Done.
  destruct (drop_moved_ok B s ∅ ∅ i sp remote disp r (sy_inv _ _ Sy) (room_deep _ _ Rm) Hi (ro_cap _ _ Rm _ sp Hi) (proj1 Rr) Hr) as (s1 & E1 & I1 & St).
  rewrite E1, bind_Done. assert (sys B s1) as Sy1 by (split; [exact I1|exact (counted_steps i 0 s s1 (sy_counted _ _ Sy) St)]).
  destruct (outside_live B ∅ [] s1 ∅ ∅ p k I1) as (po & Hp & _); [apply gmultiset_elem_of_disj_union; by right|done|].
  rewrite (get_port_eq _ _ _ Hp), bind_Done. apply (safe_bind G _ _ (fun x : Z * world => sys B x.2)).
  - destruct (_ || _); [|exact Sy1]. apply Ds; [exact Sy1|]. exact (room_steps i 0 1300 s s1 Rm St).
  - intros [rv s2] Sy2. cbn [fst snd] in *. destruct (apply_ool_deallocate_ok B s2 c b bits j Sy2 Fr) as (s3 & E3 & Sy3). by rewrite E3, bind_Done.
Qed.

(** * The whole call *)

(** What is left of a send: nothing, or a sleeping thread whose pin and whose
    place among the waiters are held for it. *)
Definition job_rights (th : Z) (j : send_job) : rights := {[+ (sj_dest j, RWait th) +]} ⊎ pin (sj_dest j) (sj_kind j).

Definition sent_ok B from (th : Z) (r : sent * world) : Prop :=
  match r.1 with
  | Sent _ _ => sys B r.2
  | Asleep j => (exists bits, job_ok j bits) /\ sj_from j = from /\ sys (job_rights th j ⊎ B) r.2
  end.

(** A message that says it carries memory out of line. *)
Definition msg_ool (u : nat -> Z) : Prop := exists m n, has_ool n (fetch u m) (MSG_HDR + MSG_BODY) = true.

Lemma sent_slot B s c j bits sp o s' :
  slotted B s (sj_dest j) (sj_kind j) (c_thread c) ∅ ∅ o s' -> job_ok j bits -> room 1201 s -> all_counted s -> w_spaces s !! sj_from j = Some sp ->
  safe (job_ool j) (send_slot s' c j o) (sent_ok B (sj_from j) (c_thread c)).
Proof.
  intros Sl Jo Rm C Hi. eapply safe_weaken; [apply (send_slot_safe B s c j bits sp (c_thread c) o s' Sl Jo Rm C Hi)|done|].
  intros [[rv o'|j'] s2]; unfold sent_ok; cbn [fst snd]; [done|]. intros [-> Sy]. split; [by exists bits|]. split; [done|].
  unfold job_rights. by rewrite <- gmultiset_disj_union_assoc.
Qed.

Lemma found_dest B s i sp name need r disp p rr :
  inv B ∅ [] s ∅ ∅ -> w_spaces s !! i = Some sp -> remote_rights disp = Some (r, need) -> lookup_entry (entry_at s i name) need = Some (p, rr) ->
  exists po, w_ports s !! p = Some po.
Proof.
  intros I Hi Err El. destruct (remote_rights_ok _ _ _ Err) as (Hr & Hneed & _).
  assert (exists k, (need, k) ∈ [(MACH_PORT_RIGHT_RECEIVE, RRecv); (MACH_PORT_RIGHT_SEND, RSend); (MACH_PORT_RIGHT_SEND_ONCE, ROnce)]) as [k Hk].
  { destruct Hneed as [->| ->]; [destruct Hr as [->| ->]|]; [exists RSend|exists ROnce|exists RRecv]; set_solver. }
  destruct (found_right B s ∅ ∅ i sp name p rr need k I Hi El Hk) as (_ & po & Hp & _). by exists po.
Qed.

(** [s] is ready for a send by [c]. *)
Record send_ready B s c from : Prop := {
  sr_sys : sys B s;
  sr_room : room 1300 s;
  sr_space : is_Some (w_spaces s !! from);
  sr_special : special_kept B s;
  sr_thread p po : w_ports s !! p = Some po -> c_thread c ∉ p_send_waiters po;
}.

Lemma framed_message u1 u2 size bits local complex has_local from p kind disp right' :
  (forall i, (i < 24)%nat -> u1 i = u2 i) -> valid_header (fetch u1 24) size bits -> msgh_local (fetch u1 24) = Done local ->
  complex = has bits MACH_MSGH_BITS_COMPLEX -> has_local = negb (local =? MACH_PORT_NULL) && negb (MACH_MSGH_BITS_LOCAL bits =? 0) ->
  kind_ok kind -> right' = MACH_PORT_RIGHT_SEND \/ right' = MACH_PORT_RIGHT_SEND_ONCE ->
  job_ok (mkJob from p kind (fetch u2 (Z.to_nat size)) disp right' (MACH_MSGH_BITS_LOCAL bits) complex has_local) bits.
Proof.
  intros Hu [V1 V2 V3] El Ec Eh Hk Hr. unfold MSG_HDR, MAX_MSG_BYTES in V3. split; cbn; rewrite ?fetch_length, ?Z2Nat.id by lia; try done.
  - apply fetch_bytes.
  - unfold msgh_size in *. by rewrite <- (ld_fetch u1 u2) by (done || lia).
  - unfold msgh_bits in *. by rewrite <- (ld_fetch u1 u2) by (done || lia).
  - rewrite Eh. intros [_ H]%andb_prop. lia.
Qed.

Lemma job_framed j bits : job_ok j bits -> exists j', framed j' (sj_buf j) bits.
Proof.
  intros [J1 J2 J3 J4 J5 J6 J7 J8].
  exists (mkJob 0 0 0 [] 0 0 0 (has bits MACH_MSGH_BITS_COMPLEX) (negb (MACH_MSGH_BITS_LOCAL bits =? 0))). by split.
Qed.

(** Past the name: a reference on the destination and a place in its queue. *)
Lemma send_dest_safe B s c j bits po always expired :
  send_ready B s c (sj_from j) -> w_ports s !! sj_dest j = Some po -> job_ok j bits ->
  safe (job_ool j)
    (s ← dest_ref s (sj_dest j) (sj_kind j); r ← msg_reserve s (sj_dest j) (c_thread c) always expired;
     let '(o, s) := (r : slot * world) in send_slot s c j o) (sent_ok B (sj_from j) (c_thread c)).
Proof.
  intros [Sy Rm [sp Hi] _ Th] Hp Jo. pose proof (sy_inv _ _ Sy) as I. pose proof (jo_kind _ _ Jo) as Hk.
  destruct (dest_ref_ok B s ∅ ∅ (sj_from j) sp (sj_dest j) po (sj_kind j) 1299 I Rm Hi Hp Hk) as (s1 & E1 & I1 & St & Es). rewrite E1, bind_Done.
  assert (room 1201 s1) as Rm1. { pose proof (room_steps (sj_from j) 1 1299 s s1) as Q. eapply room_less; [apply Q; [exact Rm|exact St]|lia]. }
  assert (sending B s1 (sj_dest j) (sj_kind j) false ∅ ∅) as Sg.
  { split; cbn [when Z.b2z]; [by rewrite gmultiset_disj_union_left_id|]. intros po' Hp'. destruct (st_port _ _ _ _ St _ _ Hp') as (po0 & H0 & _ & Q & W).
    rewrite Z.sub_0_r, Q. split; [|exact (po_qresv _ (i_port _ _ _ _ _ _ I _ _ H0))].
    eapply backed_less; [exact (i_pinned _ _ _ _ _ _ I _ _ H0)|lia|exact W]. }
  destruct (msg_reserve_ok B s1 (sj_dest j) (sj_kind j) (c_thread c) always expired ∅ ∅ Sg Hk) as (o & s2 & E2 & Sl).
  { intros po' Hp' Hin. destruct (st_port _ _ _ _ St _ _ Hp') as (po0 & H0 & _ & _ & W). apply (Th _ _ H0). by apply (elem_of_sublist _ _ _ Hin W). }
  rewrite E2, bind_Done. apply (sent_slot B s1 c j bits sp o s2 Sl Jo Rm1); [exact (counted_steps _ _ s s1 (sy_counted _ _ Sy) St)|by rewrite Es].
Qed.

Theorem mach_msg_send_timed_safe B s c from u1 u2 expired stale :
  dispatch_safe B -> send_ready B s c from -> (forall i, (i < 24)%nat -> u1 i = u2 i) ->
  safe (G \/ msg_ool u2) (mach_msg_send_timed dispatch s c from (Some (u1, u2)) expired stale) (sent_ok B from (c_thread c)).
Proof.
  intros Ds Rd Hu. pose proof Rd as [Sy Rm [sp Hi] Sk Th]. unfold mach_msg_send_timed. change (Z.to_nat MSG_HDR) with 24%nat. cbv zeta.
  destruct (msg_validate_ok u1) as (rv & Ev & Vh). rewrite Ev, bind_Done. destruct (rv =? MACH_MSG_OK) eqn:Er; cbn [negb]; [|exact Sy].
  destruct (Vh ltac:(lia)) as (size & bits & [V1 V2 V3]). assert (valid_header (fetch u1 24) size bits) as Vd by (by split). rewrite V1, bind_Done, V2, bind_Done.
  pose proof (fetch_bytes u1 24) as By1. pose proof (fetch_length u1 24) as Ln1.
  unfold msgh_local at 1. destruct (ld_ok 4 (fetch u1 24) 12) as (local & El & _); [split; lia|done|]. rewrite El, bind_Done.
  destruct (remote_rights (MACH_MSGH_BITS_REMOTE bits)) as [[r need]|] eqn:Err; [|exact Sy].
  destruct (remote_rights_ok _ _ _ Err) as (Hr & Hneed & Hkind).
  unfold w_kmalloc. destruct (kmalloc_ok (w_heap s)) as [got h]. set (s0 := upd_heap s h).
  assert (send_ready B s0 c from) as Rd0.
  { split; [|destruct Rm; by split|done|done|done]. split; [apply (same_inv _ _ _ s); try done; apply Sy|exact (sy_counted _ _ Sy)]. }
  pose proof Rd0 as [Sy0 Rm0 _ Sk0 _]. destruct got; cbn [negb]; [|exact Sy0].
  set (has_local := negb (local =? _) && _). set (kind := if need =? _ then 0 else r) in *. set (b := fetch u2 (Z.to_nat size)).
  set (complex := has bits MACH_MSGH_BITS_COMPLEX).
  assert (forall p, job_ok (mkJob from p kind b (MACH_MSGH_BITS_REMOTE bits) r (MACH_MSGH_BITS_LOCAL bits) complex has_local) bits) as Jo by (intros p; by eapply framed_message).
  destruct (job_framed _ _ (Jo 0)) as [j' Fr]. cbn [sj_buf] in Fr. pose proof (fr_len _ _ _ Fr) as Ln. unfold MSG_HDR in Ln.
  unfold msgh_remote at 1. destruct (ld_ok 4 b 8) as (remote & Ere & _); [split; lia|apply Fr|]. rewrite Ere, bind_Done.
  pose proof (i_space _ _ _ _ _ _ (sy_inv _ _ Sy0) from sp Hi) as So. pose proof (ro_cap _ _ Rm0 _ sp Hi) as Hc.
  rewrite (space_lookup_eq s0 from sp remote need Hi So Hc), bind_Done. destruct (lookup_entry _ _) as [[p rr]|] eqn:Ele.
  2:{ rewrite (space_name_is_dead_eq s0 from sp stale Hi So Hc), bind_Done. exact Sy0. }
  assert (exists po, w_ports s0 !! p = Some po) as [po Hp] by (exact (found_dest B s0 from sp remote need r _ p rr (sy_inv _ _ Sy0) Hi Err Ele)).
  assert (exists y, (if negb complex && negb has_local then send_stash s0 c from p b (MACH_MSGH_BITS_REMOTE bits) r else Done (None, s0)) = Done y /\ sys B y.2 /\ (y.1 = None -> y.2 = s0))
    as ([[copied|] s1] & -> & Sy1 & Same).
  { destruct (negb complex && negb has_local); [|exists (None, s0); split; [reflexivity|split; [exact Sy0|reflexivity]]]. destruct (send_stash_ok B s0 c from sp p po b (MACH_MSGH_BITS_REMOTE bits) r bits j' Sy0 Rm0 Hi Hp Fr Hr) as (o & s1 & E1 & Q). by exists (o, s1). }
  { exact Sy1. }
  cbn [fst snd] in Same. rewrite bind_Done, (Same eq_refl), (get_port_eq _ _ _ Hp), bind_Done. destruct (p_special po =? _) eqn:Esp; cbn [negb].
  - eapply safe_weaken; [exact (send_dest_safe B s0 c (mkJob from p kind b _ r _ complex has_local) bits po _ expired Rd0 Hp (Jo p))| |done].
    intros [n Hn]. right. by exists (Z.to_nat size), n.
  - destruct (Sk0 p po Hp ltac:(lia)) as (k & Rk & Hkb).
    eapply (safe_bind _ _ _ (fun x : Z * world => sys B x.2)); [|by intros x Hx].
    eapply safe_weaken; [apply (send_special_safe B s0 c from sp p k b _ r bits j'); done|by left|done].
Qed.

(** A sender that was asleep: what it held comes back. *)
Theorem send_resume_safe B s c j bits live expired :
  sys (job_rights (c_thread c) j ⊎ B) s -> room 1201 s -> is_Some (w_spaces s !! sj_from j) -> job_ok j bits ->
  (forall po, w_ports s !! sj_dest j = Some po -> backed B (sj_dest j) (p_qresv po) (unbind_waiter (p_send_waiters po) (c_thread c))) ->
  safe (job_ool j) (send_resume s c j live expired) (sent_ok B (sj_from j) (c_thread c)).
Proof.
  intros [I C] Rm [sp Hi] Jo Bk. unfold job_rights in I. rewrite <- gmultiset_disj_union_assoc in I.
  destruct (msg_reserve_resume_ok B s (sj_dest j) (sj_kind j) (c_thread c) live expired ∅ ∅ I (jo_kind _ _ Jo) Bk) as (o & s' & E & Sl).
  unfold send_resume. rewrite E, bind_Done. exact (sent_slot B s c j bits sp o s' Sl Jo Rm C Hi).
Qed.

End send.
