(* ===== verification/PortRecv.v ===== *)
(** Receiving: every right of a message becomes a name in the receiver's
    table, every payload a mapping, or the receiver's table and memory are put
    back as they were.  The one way for it to fault is a reply right that
    finds no name ([reply_lost]): the code releases it twice. *)

From stdpp Require Import base list gmap gmultiset strings numbers option.
From Stdlib Require Import ZArith Lia ZifyBool.
From S2P Require Import Prelude Owners VmMap Ports PortMsg PortBytes PortInv PortDeref PortSpace PortSets PortCalls PortXlate PortSlot PortSend.

(** * Tables that grow *)

(** Room for names: a table doubles only when it is full. *)
Definition slack (N : Z) (sp : port_space) : Prop := occupied (ps_table sp) <= N /\ ps_capacity sp <= Z.max (2 ^ 30) (2 * N).

Lemma slack_more N M sp : slack N sp -> N <= M -> slack M sp.
Proof. intros [A B] H. split; lia. Qed.

Lemma slack_cap N sp : slack N sp -> N < 2 ^ 30 -> ps_capacity sp < 2 ^ 31.
Proof. intros [_ B] H. lia. Qed.

Section recv.
Context {V : Type} `{PS : PayloadSpec V}.
Abbreviation world := (world (V := V)).
Implicit Types (s : world) (p q : Z) (k : right) (B X : rights) (Y : goods).

Lemma slack_placed N sp sp1 n : placed sp sp1 n -> slack N sp -> slack (N + 1) sp1.
Proof. intros P [S1 S2]. pose proof (pc_occupied _ _ _ P). pose proof (pc_grow _ _ _ P). split; lia. Qed.

(** What a delivery into space [i] may do, with [n] names more. *)
Record intake (i : Z) (n : nat) s s' : Prop := {
  ik_port p po' : w_ports s' !! p = Some po' ->
    exists po, w_ports s !! p = Some po /\ p_refs po' <= p_refs po + Z.of_nat n /\ (p_set po' = p_set po \/ p_set po' = None);
  ik_load : (load ∅ s' <= load ∅ s)%nat;
  ik_depth : w_depth s' = w_depth s;
  ik_table : exists sp sp', w_spaces s !! i = Some sp /\ w_spaces s' = <[i := sp']> (w_spaces s) /\
    (counted_space sp -> counted_space sp') /\ (forall N, slack N sp -> slack (N + Z.of_nat n) sp');
}.

Lemma intake_trans i n m s1 s2 s3 : intake i n s1 s2 -> intake i m s2 s3 -> intake i (n + m) s1 s3.
Proof.
  intros [A1 A2 A3 (sp1 & sp2 & A4 & A5 & A6 & A7)] [B1 B2 B3 (sp3 & sp4 & B4 & B5 & B6 & B7)]. split; [|lia|congruence|].
  - intros p po3 H3. destruct (B1 p po3 H3) as (po2 & H2 & R2 & Q2). destruct (A1 p po2 H2) as (po1 & H1 & R1 & Q1).
    exists po1. split_and!; [done|lia|]. destruct Q2 as [->| ->]; auto.
  - rewrite A5, lookup_insert_eq in B4. injection B4 as <-. exists sp1, sp4. split_and!; [done|by rewrite B5, A5, insert_insert_eq|auto|].
    intros N H. specialize (B7 _ (A7 N H)). eapply slack_more; [exact B7|lia].
Qed.

Lemma intake_more i n m s s' : (n <= m)%nat -> intake i n s s' -> intake i m s s'.
Proof.
  intros Hn [A1 A2 A3 (sp1 & sp2 & A4 & A5 & A6 & A7)]. split; try done.
  { intros p po' H. destruct (A1 p po' H) as (po & H1 & R & Q). exists po. split_and!; [done|lia|done]. }
  exists sp1, sp2. split_and!; try done. intros N H. eapply slack_more; [by apply A7|lia].
Qed.

Lemma intake_same i s s' sp :
  w_spaces s !! i = Some sp -> w_ports s' = w_ports s -> w_spaces s' = w_spaces s -> w_depth s' = w_depth s -> intake i 0 s s'.
Proof.
  intros Hi Ep Es Ed. split; [| |done|].
  - intros p po'. rewrite Ep. intros H. exists po'. split_and!; [done|lia|by left].
  - unfold load, in_transit. by rewrite Ep.
  - exists sp, sp. split_and!; [done|by rewrite Es, insert_id|done|]. intros N H. eapply slack_more; [exact H|lia].
Qed.

Lemma intake_quiet i s s' sp : w_spaces s !! i = Some sp -> quiet ∅ s s' -> (load ∅ s' <= load ∅ s)%nat -> intake i 0 s s'.
Proof.
  intros Hi Q Ld. split; [|done|exact (qt_depth _ _ _ Q)|].
  - intros p po' H. destruct (qt_port _ _ _ Q p po' H) as (po & H1 & [L1 L2 L3 L4 L5]). exists po. split_and!; [done|lia|done].
  - exists sp, sp. split_and!; [done|by rewrite (qt_spaces _ _ _ Q), insert_id|done|]. intros N H. eapply slack_more; [exact H|lia].
Qed.

(** Space [i] can take what is left of a message with [d] rights. *)
Record accepts (i : Z) (N : Z) (d : nat) s : Prop := {
  ac_refs p po : w_ports s !! p = Some po -> p_refs po + Z.of_nat d < 2 ^ 32 - 4;
  ac_space : exists sp, w_spaces s !! i = Some sp /\ slack N sp;
  ac_depth : (2 * (load ∅ s + d + 3) + 1 < w_depth s)%nat;
}.

Lemma accepts_intake i N d s n s' d' : accepts i N d s -> intake i n s s' -> (n + d' <= d)%nat -> accepts i (N + Z.of_nat n) d' s'.
Proof.
  intros [A1 (sp & A2 & A3) A4] [B1 B2 B3 (sp1 & sp2 & B4 & B5 & B6 & B7)] Hd. split.
  - intros p po' H. destruct (B1 p po' H) as (po & H1 & R & _). specialize (A1 p po H1). lia.
  - exists sp2. rewrite B5, lookup_insert_eq. split; [done|]. apply B7. congruence.
  - rewrite B3. lia.
Qed.

Lemma accepts_deep i N d s : accepts i N d s -> deep s.
Proof. intros [_ _ D]. unfold deep. lia. Qed.

(** * One right *)

(** A port whose receive right is in a message is in no set. *)
Lemma carried_alone B s X Y p po : inv B ∅ [] s X Y -> 0 < num p RRecv X -> w_ports s !! p = Some po -> p_set po = None.
Proof.
  intros I Hx Hp. destruct (p_set po) as [q|] eqn:Es; [|done]. exfalso. destruct (i_member _ _ _ _ _ _ I p po q Hp Es) as [M _].
  pose proof (t_recv _ _ _ (i_tally _ _ _ _ _ _ I p po Hp)) as T. apply num_pos in M. rewrite num_owners in T. rewrite num_union in M.
  pose proof (num_nonneg p RRecv (in_transit ∅ s)). destruct (p_has_receive po); cbn in T; lia.
Qed.

Lemma intake_placed i s s1 sp sp1 n :
  w_spaces s !! i = Some sp -> placed sp sp1 n -> w_ports s1 = w_ports s -> w_depth s1 = w_depth s ->
  w_spaces s1 = <[i := sp1]> (w_spaces s) -> intake i 1 s s1.
Proof.
  intros Hi P Ep Ed Es. split; [| |done|].
  - intros q qo. rewrite Ep. intros H. exists qo. split_and!; [done|lia|by left].
  - unfold load, in_transit. by rewrite Ep.
  - exists sp, sp1. split_and!; [done|done|exact (pc_counted _ _ _ P)|]. intros N. by apply (slack_placed N sp sp1 n).
Qed.

(** The name is there and the message's reference is gone, or there was no
    memory for a larger table. *)
Inductive taken_in B s X Y i p r : Z -> Z -> world -> Prop :=
| taken_name n s1 s2 : 1 <= n -> slot_free (entry_at s i n) = true -> installed_ref s1 p r = Done s2 -> inv B ∅ [] s2 X Y ->
    renamed s s2 i n (mkPe (Some p) None r false) -> intake i 1 s s2 ->
    (r = MACH_PORT_RIGHT_RECEIVE -> forall po, w_ports s2 !! p = Some po -> p_set po = None) ->
    taken_in B s X Y i p r MACH_MSG_OK n s1
| taken_none n s1 : inv B ∅ [] s1 (rights_of p r ⊎ X) Y -> w_spaces s1 = w_spaces s -> intake i 0 s s1 -> taken_in B s X Y i p r MACH_E_NOMEM n s1.

Lemma take_receive_ok B s X Y i N d p (r := MACH_PORT_RIGHT_RECEIVE) :
  inv B ∅ [] s (rights_of p r ⊎ X) Y -> accepts i N d s -> N < 2 ^ 30 ->
  exists rv n s1, install_right s i p r = Done (rv, n, s1) /\ taken_in B s X Y i p r rv n s1.
Proof.
  intros I Ac HN. destruct (ac_space _ _ _ _ Ac) as (sp & Hi & Sl). unfold install_right. rewrite Z.eqb_refl.
  destruct (space_install_no_ref_ok B ∅ [] s X Y i sp p r Hi (slack_cap N sp Sl HN) ltac:(done) I)
    as (rv & n & s1 & E1 & [(-> & Hn & Hf & Rn & I1 & sp1 & h & -> & Pl)|(-> & h & ->)]).
  - eexists _, _, _. split; [exact E1|]. eapply taken_name; [done|done|reflexivity|exact I1|exact Rn|by eapply intake_placed|].
    intros _ po Hp. apply (carried_alone B s (rights_of p r ⊎ X) Y p po I); [|exact Hp]. rewrite num_union, num_rights_of, decide_True by done.
    pose proof (num_nonneg p RRecv X). change (Z.b2z (has r MACH_PORT_RIGHT_RECEIVE)) with 1. lia.
  - eexists _, _, _. split; [exact E1|]. apply taken_none; [by apply (same_inv _ _ _ s)|done|by eapply intake_same].
Qed.

Lemma intake_reffed i s sp sp1 n p po r h :
  w_spaces s !! i = Some sp -> placed sp sp1 n -> w_ports s !! p = Some po -> r = MACH_PORT_RIGHT_SEND \/ r = MACH_PORT_RIGHT_SEND_ONCE ->
  intake i 1 s (put_space (upd_heap (put_port s p (reffed po r)) h) i sp1).
Proof.
  intros Hi Pl Hp Hr. set (s1 := put_port s p (reffed po r)). split; [| |done|].
  - intros q qo Hq. cbn in Hq. destruct (decide (q = p)) as [->|Hn].
    + rewrite lookup_insert_eq in Hq. injection Hq as <-. exists po. split_and!; [done| |by left]. unfold reffed. fields.
      assert (Z.b2z (has r MACH_PORT_RIGHT_RECEIVE) + Z.b2z (has r MACH_PORT_RIGHT_SEND) + Z.b2z (has r MACH_PORT_RIGHT_SEND_ONCE) = 1) as Eb by (by destruct Hr as [->| ->]). lia.
    + rewrite lookup_insert_ne in Hq by done. exists qo. split_and!; [done|lia|by left].
  - pose proof (load_put ∅ s p po (reffed po r) Hp ltac:(set_solver)) as Q. change (port_rights (reffed po r)) with (port_rights po) in Q.
    fold s1 in Q. change (load ∅ (put_space (upd_heap s1 h) i sp1)) with (load ∅ s1). lia.
  - exists sp, sp1. split_and!; [done|done|exact (pc_counted _ _ _ Pl)|]. intros N. by apply (slack_placed N sp sp1 n).
Qed.

Lemma take_send_ok B s X Y i N d p r :
  inv B ∅ [] s (rights_of p r ⊎ X) Y -> accepts i N d s -> N < 2 ^ 30 -> r = MACH_PORT_RIGHT_SEND \/ r = MACH_PORT_RIGHT_SEND_ONCE ->
  exists rv n s1, install_right s i p r = Done (rv, n, s1) /\ taken_in B s X Y i p r rv n s1.
Proof.
  intros I Ac HN Hr. destruct (ac_space _ _ _ _ Ac) as (sp & Hi & Sl). unfold install_right, installed_ref.
  assert ((r =? MACH_PORT_RIGHT_RECEIVE) = false /\ has r MACH_PORT_RIGHT_RECEIVE = false /\ mask_ok r) as (Hne & Nr & Mr) by (by destruct Hr as [->| ->]).
  destruct (local_live B ∅ [] s (rights_of p r ⊎ X) Y p (if r =? MACH_PORT_RIGHT_SEND then RSend else ROnce) I) as (po & Hp & _).
  { rewrite num_union, num_rights_of, decide_True by done. pose proof (num_nonneg p (if r =? MACH_PORT_RIGHT_SEND then RSend else ROnce) X).
    destruct Hr as [->| ->]; cbn -[has num] in *; [change (Z.b2z (has MACH_PORT_RIGHT_SEND MACH_PORT_RIGHT_SEND)) with 1|change (Z.b2z (has MACH_PORT_RIGHT_SEND_ONCE MACH_PORT_RIGHT_SEND_ONCE)) with 1]; lia. }
  { by destruct Hr as [->| ->]. }
  pose proof (ac_refs _ _ _ _ Ac p po Hp) as Rf. rewrite Hne.
  destruct (space_install_ok B ∅ [] s (rights_of p r ⊎ X) Y i sp p po r Hi (i_space _ _ _ _ _ _ I i sp Hi) (slack_cap N sp Sl HN) Mr Hp) as (rv & n & s1 & E1 & G).
  { apply (counted _ _ _ _ _ _ p po I Hp). lia. }
  { congruence. }
  { apply ref_inv; [done|done|set_solver|congruence]. }
  exists rv, n, s1. split; [exact E1|]. destruct G as [h n sp1 s' Hn Hf Rn I1 Pl|h].
  - assert (load ∅ s' = load ∅ s) as El.
    { pose proof (load_put ∅ s p po (reffed po r) Hp ltac:(set_solver)) as Q. change (port_rights (reffed po r)) with (port_rights po) in Q.
      unfold s'. change (load ∅ (put_space (upd_heap (put_port s p (reffed po r)) h) i sp1)) with (load ∅ (put_port s p (reffed po r))). lia. }
    assert (w_depth s' = w_depth s) as Ed by done. pose proof (ac_depth _ _ _ _ Ac) as Dp.
    destruct (port_deref_local B ∅ [] s' X Y p r I1 Mr) as (s2 & E2 & I2 & Q2 & L2).
    { unfold cost. rewrite Nr, El, Ed. pose proof (size_rights_le p r). lia. }
    assert (intake i 1 s s') as Ik by exact (intake_reffed i s sp sp1 n p po r h Hi (Pl sp Hi) Hp Hr).
    eapply taken_name; [done|done|unfold installed_ref; rewrite Hne; exact E2|exact I2| | |intros ->; discriminate Hne].
    + destruct Rn as (sp0 & sp2 & R1 & R2 & R3). exists sp0, sp2. rewrite (qt_spaces _ _ _ Q2). by split_and!.
    + change 1%nat with (1 + 0)%nat. eapply intake_trans; [exact Ik|]. eapply intake_quiet; [cbn; by rewrite lookup_insert_eq|exact Q2|exact L2].
  - apply taken_none; [by apply (same_inv _ _ _ s)|done|by eapply intake_same].
Qed.

(** * What has been delivered *)

Definition stripped (d : pending_desc) : pending_desc := mkPd (pd_type d) (pd_disposition d) None 0 None.

(** From [off] on the bytes tell what became of the descriptors: a port's name
    in space [i], or where a payload is mapped in task [t]. *)
Inductive laid s (i t : Z) (b : list Z) : Z -> list pending_desc -> list Z -> goods -> Prop :=
| laid_nil off : laid s i t b off [] [] ∅
| laid_port off p r l name names Y :
    one_right r -> ld 4 b (off + 4) = Done name -> 1 <= name -> entry_at s i name = mkPe (Some p) None r false ->
    (r = MACH_PORT_RIGHT_RECEIVE -> forall po, w_ports s !! p = Some po -> p_set po = None) ->
    laid s i t b (off + PORT_DESC) l names Y -> laid s i t b off (carries p r :: l) (name :: names) Y
| laid_nothing off l names Y :
    ld 8 b (off + 8) = Done 0 -> ld 4 b (off + 4) = Done 0 -> laid s i t b (off + OOL_DESC) l names Y -> laid s i t b off (ool_empty :: l) names Y
| laid_ool off size pas va l names Y :
    0 < size <= MACH_MSG_OOL_MAX_BYTES -> Z.of_nat (length pas) = Z.shiftr (page_round size) 12 -> ld 8 b (off + 8) = Done va -> 0 < va ->
    ld 4 b (off + 4) = Done size -> laid s i t b (off + OOL_DESC) l names Y ->
    laid s i t b off (mkPd MACH_MSG_OOL_DESCRIPTOR 0 None size (Some pas) :: l) names ({[+ Range t va (Z.of_nat (length pas)) +]} ⊎ Y).

Lemma laid_app s i t b off l1 n1 Y1 l2 n2 Y2 :
  laid s i t b off l1 n1 Y1 -> laid s i t b (off + descs_size l1) l2 n2 Y2 -> laid s i t b off (l1 ++ l2) (n1 ++ n2) (Y1 ⊎ Y2).
Proof.
  induction 1 as [off|off p r l name names Y H1 H2 H3 H4 H5 H6 IH|off l names Y H1 H2 H3 IH|off size pas va l names Y H1 H2 H3 H4 H5 H6 IH]; cbn [app descs_size foldr]; intros D.
  - rewrite gmultiset_disj_union_left_id. by rewrite Z.add_0_r in D.
  - apply (laid_port s i t b off p r (l ++ l2)); try done. apply IH. change (foldr _ 0 l) with (descs_size l) in D.
    replace (off + PORT_DESC + descs_size l) with (off + (PORT_DESC + descs_size l)) by lia. exact D.
  - apply laid_nothing; try done. apply IH. change (foldr _ 0 l) with (descs_size l) in D.
    replace (off + OOL_DESC + descs_size l) with (off + (OOL_DESC + descs_size l)) by lia. exact D.
  - rewrite <- gmultiset_disj_union_assoc. apply (laid_ool s i t b off size pas va); try done. apply IH. change (foldr _ 0 l) with (descs_size l) in D.
    replace (off + OOL_DESC + descs_size l) with (off + (OOL_DESC + descs_size l)) by lia. exact D.
Qed.

(** Later deliveries leave it alone. *)
Lemma laid_later s s' i t b off l names Y n :
  laid s i t b off l names Y -> intake i n s s' -> (forall m, m ∈ names -> entry_at s' i m = entry_at s i m) -> laid s' i t b off l names Y.
Proof.
  intros D Ik. induction D as [off|off p r l name names Y H1 H2 H3 H4 H5 H6 IH|off l names Y H1 H2 H3 IH|off size pas va l names Y H1 H2 H3 H4 H5 H6 IH]; intros Same.
  - apply laid_nil.
  - apply (laid_port s' i t b off p r l name); try done.
    + rewrite Same by (by left). exact H4.
    + intros Hr po' Hp'. destruct (ik_port _ _ _ _ Ik p po' Hp') as (po & Hp & _ & [->| ->]); [by apply (H5 Hr)|done].
    + apply IH. intros m Hm. apply Same. by right.
  - apply laid_nothing; try done. by apply IH.
  - apply (laid_ool s' i t b off size pas va); try done. by apply IH.
Qed.

Lemma descs_size_pos l : 0 <= descs_size l.
Proof. induction l as [|d l IH]; cbn; [done|]. unfold desc_size. change (foldr _ 0 l) with (descs_size l). unfold PORT_DESC, OOL_DESC. case_match; lia. Qed.

(** So does what is written elsewhere. *)
Lemma laid_fields s i t b b' off l names Y :
  laid s i t b off l names Y -> (forall n f, off <= f -> f + Z.of_nat n <= off + descs_size l -> ld n b' f = ld n b f) -> laid s i t b' off l names Y.
Proof.
  intros D. induction D as [off|off p r l name names Y H1 H2 H3 H4 H5 H6 IH|off l names Y H1 H2 H3 IH|off size pas va l names Y H1 H2 H3 H4 H5 H6 IH]; intros F;
    cbn in F; try change (foldr _ 0 l) with (descs_size l) in F; try pose proof (descs_size_pos l); unfold PORT_DESC, OOL_DESC in *.
  - apply laid_nil.
  - change (desc_size (carries p r)) with 8 in F. apply (laid_port s i t b' off p r l name); try done; [rewrite F by lia; done|].
    apply IH. intros n f Hf Hn. apply F; lia.
  - change (desc_size ool_empty) with 16 in F. apply laid_nothing; [rewrite F by lia; done|rewrite F by lia; done|]. apply IH. intros n f Hf Hn. apply F; lia.
  - change (desc_size _) with 16 in F. apply (laid_ool s i t b' off size pas va); try done; [rewrite F by lia; done|rewrite F by lia; done|].
    apply IH. intros n f Hf Hn. apply F; lia.
Qed.

Lemma laid_bytes s i t b b' off l names Y m :
  laid s i t b off l names Y -> length b' = length b -> (forall j : nat, Z.of_nat j < m -> b' !! j = b !! j) -> off + descs_size l <= m ->
  laid s i t b' off l names Y.
Proof. intros D Hl Ha Hm. apply (laid_fields s i t b); [done|]. intros n f _ Hf. apply (ld_before n b b' f m); [done|done|lia]. Qed.

(** * Taking it back *)

Lemma page_round_pages size : Z.shiftr (page_round size) 12 * 4096 = page_round size.
Proof.
  unfold page_round. change 0xFFF with (Z.ones 12). rewrite Z.ldiff_ones_r, Z.shiftr_shiftl_l by lia. change (12 - 12) with 0.
  rewrite Z.shiftl_0_r, Z.shiftl_mul_pow2 by lia. reflexivity.
Qed.

Lemma without_whole p r : without p r r = pe_empty.
Proof. unfold without. by rewrite Z.ldiff_diag. Qed.

Lemma slack_dropped N sp name : slack N sp -> 0 <= name < ps_capacity sp -> slack N (dropped sp name).
Proof.
  intros [S1 S2] Hn. unfold dropped, free_slot, set_entry, slack, ps_capacity in *. cbn [ps_table]. rewrite length_insert.
  rewrite (occupied_insert _ _ (get_entry sp name)) by (by apply get_entry_lookup). destruct (slot_free (get_entry sp name)); cbn; lia.
Qed.

(** A name just given is taken back. *)
Lemma give_up_ok B s X Y i N d name p r :
  inv B ∅ [] s X Y -> accepts i N d s -> N < 2 ^ 30 -> one_right r -> 1 <= name -> entry_at s i name = mkPe (Some p) None r false ->
  (r = MACH_PORT_RIGHT_RECEIVE -> forall po, w_ports s !! p = Some po -> p_set po = None) ->
  exists s', space_drop_one_right s i name r = Done (MACH_MSG_OK, s') /\ inv B ∅ [] s' X Y /\ renamed s s' i name pe_empty /\ intake i 0 s s'.
Proof.
  intros I Ac HN Hr Hn He Hs. destruct (ac_space _ _ _ _ Ac) as (sp & Hi & Sl). pose proof (slack_cap N sp Sl HN) as Hc.
  assert (0 < r) as R0 by (by destruct Hr as [->|[->| ->]]). pose proof (i_space _ _ _ _ _ _ I i sp Hi) as Ok.
  destruct (drop_one_right_ok B s X Y i sp name p r r I (accepts_deep _ _ _ _ Ac) Hi Hc ltac:(lia) He R0 (Z.land_diag r)) as (s' & E' & I' & Rn & Q & Ld).
  { intros po Hp Hh Hset. exfalso. apply Hset. apply Hs; [|done]. by destruct Hr as [->|[->| ->]]. }
  rewrite without_whole in Rn. exists s'. split_and!; [done|done|done|].
  destruct (take_right_ok s i sp name p r r Hi Ok Hc ltac:(lia) He R0 (Z.land_diag r)) as (_ & _ & Ct & _).
  pose proof (used_name s i sp name Hi Ok ltac:(lia)) as Bn. rewrite He in Bn. specialize (Bn eq_refl).
  split; [|exact Ld|exact (qt_depth _ _ _ Q)|].
  - intros q qo' H. destruct (qt_port _ _ _ Q q qo' H) as (qo & H1 & [L1 L2 L3 L4 L5]). exists qo. split_and!; [done|lia|done].
  - eexists sp, _. split_and!; [done|exact (qt_spaces _ _ _ Q)|exact Ct|]. intros M H. rewrite Z.add_0_r. unfold without_right. rewrite Z.ldiff_diag. cbn [Z.eqb].
    apply slack_dropped; [done|lia].
Qed.

Lemma renamed_other s s' i n e m : renamed s s' i n e -> 0 <= m -> entry_at s' i m = if m =? n then e else entry_at s i m.
Proof. intros (sp & sp' & H1 & H2 & H3) Hm. unfold entry_at. rewrite H1, H2, lookup_insert_eq. by apply H3. Qed.

Lemma laid_names s i t b off l names Y m : laid s i t b off l names Y -> m ∈ names -> 1 <= m.
Proof. induction 1; try done; [by intros H%not_elem_of_nil|]. intros [->|Hm]%elem_of_cons; auto. Qed.

Lemma unmap_back_ok B s X Y t va size (pas : list Z) :
  inv B ∅ [] s X ({[+ Range t va (Z.of_nat (length pas)) +]} ⊎ Y) -> Z.of_nat (length pas) = Z.shiftr (page_round size) 12 ->
  exists v, pl_rollback (w_vm s) t va (Z.shiftr (page_round size) 12) (page_round size) = Done v /\ inv B ∅ [] (upd_vm s v) X Y.
Proof.
  intros I Hl. pose proof (i_vm _ _ _ _ _ _ I) as Iv. set (F := stored _ _ _) in Iv. rewrite (gmultiset_disj_union_assoc F), (gmultiset_disj_union_comm F), <- gmultiset_disj_union_assoc in Iv.
  destruct (pl_rollback_ok (w_vm s) t va _ (F ⊎ Y) Iv) as (v & Ev & Iv'). rewrite Hl, page_round_pages in Ev. exists v. split; [exact Ev|]. by eapply vm_inv.
Qed.

(** The names are free again, the mappings gone. *)
Lemma rollback_delivered_ok B X Y i c b N d : N < 2 ^ 30 -> forall l s off names Yl,
  inv B ∅ [] s X (Yl ⊎ Y) -> accepts i N d s -> laid s i (c_task c) b off l names Yl -> NoDup names ->
  exists s', rollback_delivered s c i b off (stripped <$> l) = Done s' /\ inv B ∅ [] s' X Y /\ intake i 0 s s' /\
    forall m, 0 <= m -> entry_at s' i m = if decide (m ∈ names) then pe_empty else entry_at s i m.
Proof.
  intros HN l. induction l as [|d0 l IH]; intros s off names Yl I Ac D Nd.
  - inversion D; subst. exists s. rewrite gmultiset_disj_union_left_id in I. split_and!; [done|done| |].
    + destruct (ac_space _ _ _ _ Ac) as (sp & Hi & _). by eapply intake_same.
    + intros m _. by rewrite decide_False by apply not_elem_of_nil.
  - inversion D as [|? p r ? name names' ? H1 H2 H3 H4 H5 H6|? ? ? ? H1 H2 H3|? size pas va ? ? Y' H1 H2 H3 H4 H5 H6]; subst; cbn [fmap list_fmap rollback_delivered stripped carries ool_empty pd_type pd_disposition].
    + rewrite Z.eqb_refl, H2, bind_Done. replace (name =? MACH_PORT_NULL) with false by (unfold MACH_PORT_NULL; lia). cbn [negb]. apply list.NoDup_cons in Nd as [Nn Nd].
      destruct (give_up_ok B s X (Yl ⊎ Y) i N d name p r I Ac HN H1 H3 H4 H5) as (s1 & E1 & I1 & Rn & Ik). rewrite E1, !bind_Done. cbn [snd].
      destruct (IH s1 (off + PORT_DESC) names' Yl I1) as (s2 & E2 & I2 & Ik2 & En2).
      * rewrite <- (Z.add_0_r N). apply (accepts_intake i N d s 0 s1 d Ac Ik). lia.
      * eapply laid_later; [exact H6|exact Ik|]. intros m Hm. rewrite (renamed_other s s1 i name pe_empty m Rn).
        { replace (m =? name) with false; [done|]. destruct (m =? name) eqn:Em; [|done]. assert (m = name) as -> by lia. done. }
        pose proof (laid_names _ _ _ _ _ _ _ _ m H6 Hm). lia.
      * done.
      * exists s2. split_and!; [done|done|exact (intake_trans _ 0 0 _ _ _ Ik Ik2)|]. intros m Hm. rewrite En2 by done. rewrite (renamed_other s s1 i name pe_empty m Rn Hm).
        destruct (m =? name) eqn:Em.
        -- assert (m = name) as -> by lia. rewrite (decide_True (P := name ∈ name :: names')) by (by left). by destruct (decide _).
        -- destruct (decide (m ∈ names')); [by rewrite decide_True by (by right)|]. rewrite decide_False; [done|]. intros [->|?]%elem_of_cons; [lia|done].
    + change (MACH_MSG_OOL_DESCRIPTOR =? MACH_MSG_PORT_DESCRIPTOR) with false. cbv iota. rewrite Z.eqb_refl, H1, bind_Done, H2, !bind_Done. exact (IH s (off + OOL_DESC) names Yl I Ac H3 Nd).
    + change (MACH_MSG_OOL_DESCRIPTOR =? MACH_MSG_PORT_DESCRIPTOR) with false. cbv iota zeta. rewrite Z.eqb_refl, H3, bind_Done, H5, bind_Done.
      replace (va =? 0) with false by lia. cbn [negb]. destruct (unmap_back_ok B s X (Y' ⊎ Y) (c_task c) va size pas) as (v & Ev & I1); [by rewrite gmultiset_disj_union_assoc|done|].
      rewrite Ev, !bind_Done. destruct (ac_space _ _ _ _ Ac) as (sp & Hi & _). assert (intake i 0 s (upd_vm s v)) as Ik by (by eapply intake_same).
      destruct (IH (upd_vm s v) (off + OOL_DESC) names Y' I1) as (s2 & E2 & I2 & Ik2 & En2); [|by eapply laid_later|done|].
      * rewrite <- (Z.add_0_r N). apply (accepts_intake i N d s 0 _ d Ac Ik). lia.
      * exists s2. split_and!; [done|done|exact (intake_trans _ 0 0 _ _ _ Ik Ik2)|exact En2].
Qed.

(** Only table [i] changed. *)
Definition tabled (i : Z) s s' : Prop :=
  exists sp sp', w_spaces s !! i = Some sp /\ w_spaces s' = <[i := sp']> (w_spaces s) /\ (counted_space sp -> counted_space sp').

Lemma tabled_intake i n s s' : intake i n s s' -> tabled i s s'.
Proof. intros [_ _ _ (sp & sp' & H1 & H2 & H3 & _)]. by exists sp, sp'. Qed.

Lemma tabled_trans i s1 s2 s3 : tabled i s1 s2 -> tabled i s2 s3 -> tabled i s1 s3.
Proof.
  intros (sp1 & sp2 & A4 & A5 & A6) (sp3 & sp4 & B4 & B5 & B6). rewrite A5, lookup_insert_eq in B4. injection B4 as <-.
  exists sp1, sp4. split_and!; [done|by rewrite B5, A5, insert_insert_eq|auto].
Qed.

Lemma tabled_counted i s s' : tabled i s s' -> all_counted s -> all_counted s'.
Proof.
  intros (sp & sp' & Hi & Es & Ct) C j sj. rewrite Es. destruct (decide (j = i)) as [->|Hn].
  - rewrite lookup_insert_eq. intros [= <-]. apply Ct. by apply (C i).
  - rewrite lookup_insert_ne by done. apply C.
Qed.

(** A delivery that failed half way. *)
Lemma recv_rollback_ok B s X Y i c b N d l rest names Yl :
  inv B ∅ [] s (gather desc_rights rest ⊎ X) (Yl ⊎ (gather desc_frames rest ⊎ Y)) -> accepts i N d s -> N < 2 ^ 30 -> (size (gather desc_rights rest) <= d)%nat ->
  laid s i (c_task c) b (MSG_HDR + MSG_BODY) l names Yl -> NoDup names -> Forall desc_ok rest ->
  exists s', recv_rollback_installed s c i b (stripped <$> l) rest = Done s' /\ inv B ∅ [] s' X Y /\ tabled i s s' /\
    forall m, 0 <= m -> entry_at s' i m = if decide (m ∈ names) then pe_empty else entry_at s i m.
Proof.
  intros I Ac HN Hd D Nd Ok. unfold recv_rollback_installed.
  destruct (rollback_delivered_ok B _ _ i c b N d HN l s _ names Yl I Ac D Nd) as (s1 & E1 & I1 & Ik & En). rewrite E1, bind_Done.
  destruct (free_descs_ok B s1 X Y rest I1 Ok) as (s2 & E2 & I2 & Q2 & _).
  { pose proof (ac_depth _ _ _ _ (accepts_intake i N d s 0 s1 d Ac Ik ltac:(lia))). lia. }
  exists s2. split_and!; [done|done| |].
  - destruct Ik as [_ _ _ (sp & sp' & H1 & H2 & H3 & _)]. exists sp, sp'. rewrite (qt_spaces _ _ _ Q2). by split_and!.
  - intros m Hm. rewrite <- En by done. unfold entry_at. by rewrite (qt_spaces _ _ _ Q2).
Qed.

(** * One payload *)

Lemma st_fits n b off v : fits n b off -> exists b', st n b off v = Done b' /\ length b' = length b /\ forall j : nat, Z.of_nat j < off -> b' !! j = b !! j.
Proof.
  intros F. pose proof (st_eq n b off v F) as E. eexists. split; [exact E|]. split; [by apply (st_done _ _ _ _ _ E)|].
  intros j Hj. apply (st_lookup _ _ _ _ _ _ E). lia.
Qed.

Inductive ool_taken B s X Y i t pd b off : Z -> list Z -> pending_desc -> world -> Prop :=
| ool_mapped b' Yd s' : length b' = length b -> (forall j : nat, Z.of_nat j < off -> b' !! j = b !! j) -> laid s' i t b' off [pd] [] Yd ->
    inv B ∅ [] s' X (Yd ⊎ Y) -> (exists v, s' = upd_vm s v) -> ool_taken B s X Y i t pd b off MACH_MSG_OK b' (stripped pd) s'
| ool_failed rv b' s' : rv <> MACH_MSG_OK -> length b' = length b -> (forall j : nat, Z.of_nat j < off -> b' !! j = b !! j) ->
    inv B ∅ [] s' X (desc_frames pd ⊎ Y) -> (exists v, s' = upd_vm s v) -> ool_taken B s X Y i t pd b off rv b' pd s'.

Lemma upd_vm_id s : upd_vm s (w_vm s) = s.
Proof. by destruct s. Qed.

(** The fields that are written before the payload is mapped. *)
Lemma ool_header b off size : fits 16 b off -> 0 <= size < 2 ^ 32 ->
  exists b', (forall A (f : list Z -> res A), (b ← st 1 b off MACH_MSG_OOL_DESCRIPTOR; b ← st 1 b (off + 1) MACH_MSG_PHYSICAL_COPY; b ← st 1 b (off + 2) 0; b ← st 1 b (off + 3) 0;
              b ← st 4 b (off + 4) size; b ← st 8 b (off + 8) 0; f b) = f b') /\
    length b' = length b /\ (forall j : nat, Z.of_nat j < off -> b' !! j = b !! j) /\ ld 4 b' (off + 4) = Done size /\ ld 8 b' (off + 8) = Done 0.
Proof.
  intros [F1 F2] Hs.
  destruct (st_fits 1 b off MACH_MSG_OOL_DESCRIPTOR) as (b1 & E1 & L1 & S1); [split; lia|].
  destruct (st_fits 1 b1 (off + 1) MACH_MSG_PHYSICAL_COPY) as (b2 & E2 & L2 & S2); [split; lia|].
  destruct (st_fits 1 b2 (off + 2) 0) as (b3 & E3 & L3 & S3); [split; lia|].
  destruct (st_fits 1 b3 (off + 3) 0) as (b4 & E4 & L4 & S4); [split; lia|].
  destruct (st_fits 4 b4 (off + 4) size) as (b5 & E5 & L5 & S5); [split; lia|].
  destruct (st_fits 8 b5 (off + 8) 0) as (b6 & E6 & L6 & S6); [split; lia|]. exists b6. split.
  - intros A f. by rewrite E1, bind_Done, E2, bind_Done, E3, bind_Done, E4, bind_Done, E5, bind_Done, E6, bind_Done.
  - split; [lia|]. split; [intros j Hj; rewrite S6, S5, S4, S3, S2, S1 by lia; done|].
    split; [|by rewrite (ld_st_same _ _ _ _ _ E6)]. rewrite (ld_st_other _ _ _ _ _ 4 _ E6) by lia. rewrite (ld_st_same _ _ _ _ _ E5).
    f_equal. apply Z.mod_small. change (256 ^ Z.of_nat 4) with (2 ^ 32). lia.
Qed.

Lemma recv_install_ool_ok B s X Y i c pd b off :
  inv B ∅ [] s X (desc_frames pd ⊎ Y) -> carried pd -> pd_type pd = MACH_MSG_OOL_DESCRIPTOR -> fits 16 b off ->
  exists rv b' pd' s', recv_install_ool s c pd b off = Done (rv, b', pd', s') /\ ool_taken B s X Y i (c_task c) pd b off rv b' pd' s'.
Proof.
  intros I Cr Ht F. assert (0 <= pd_ool_size pd < 2 ^ 32) as Hs.
  { destruct Cr as [p r H| |size pas H1 H2]; cbn; [lia|lia|]. unfold MACH_MSG_OOL_MAX_BYTES in H1. lia. }
  unfold recv_install_ool. destruct (ool_header b off (pd_ool_size pd)) as (b1 & E1 & L1 & S1 & Z1 & A1); [done|done|]. rewrite E1. clear E1. pose proof F as [F1 F2].
  destruct Cr as [p r H| |size pas H1 H2]; [done| |]; cbn [pd_ool_size pd_ool_pages ool_empty pd_type pd_disposition pd_port] in *.
  - rewrite Z.eqb_refl. eexists _, _, _, _. split; [reflexivity|]. change ool_empty with (stripped ool_empty) at 2.
    apply (ool_mapped _ _ _ _ _ _ _ _ _ b1 ∅); [done|done|apply laid_nothing; [done|done|apply laid_nil]|exact I|exists (w_vm s); by rewrite upd_vm_id].
  - replace (size =? 0) with false by lia. pose proof (i_vm _ _ _ _ _ _ I) as Iv. change (desc_frames _) with (payload pas) in Iv. set (G := stored _ _ _) in Iv.
    destruct (pl_window (w_vm s) (c_task c)) as [w|] eqn:Ew.
    2:{ eexists _, _, _, _. split; [reflexivity|]. apply ool_failed; [done|done|done|exact I|exists (w_vm s); by rewrite upd_vm_id]. }
    rewrite (gmultiset_disj_union_assoc G), (gmultiset_disj_union_comm G), <- gmultiset_disj_union_assoc in Iv.
    destruct (pl_install_ok (w_vm s) (c_task c) pas (G ⊎ Y) ltac:(by rewrite Ew) Iv) as ([va|] & v & Ei & Hv); rewrite Ei, bind_Done; cbv zeta.
    + destruct Hv as [Hva Iv']. destruct (st_fits 8 b1 (off + 8) va) as (b2 & E2 & L2 & S2); [split; lia|]. rewrite E2, bind_Done. eexists _, _, _, _. split; [reflexivity|].
      refine (ool_mapped B s X Y i (c_task c) (mkPd MACH_MSG_OOL_DESCRIPTOR 0 None size (Some pas)) b off b2 ({[+ Range (c_task c) va (Z.of_nat (length pas)) +]} ⊎ ∅) _ _ _ _ _ _); [lia|intros j Hj; rewrite S2, S1 by lia; done| | |by exists v].
      * eapply laid_ool; [done|done| |lia| |apply laid_nil].
        { rewrite (ld_st_same _ _ _ _ _ E2). f_equal. apply Z.mod_small. change (256 ^ Z.of_nat 8) with (2 ^ 64). lia. }
        { rewrite (ld_st_other _ _ _ _ _ 4 _ E2) by lia. exact Z1. }
      * eapply vm_inv; [exact I|]. fold G. rewrite gmultiset_disj_union_right_id.
        by rewrite (gmultiset_disj_union_assoc G), (gmultiset_disj_union_comm G), <- gmultiset_disj_union_assoc.
    + eexists _, _, _, _. split; [reflexivity|]. apply ool_failed; [done|done|done| |by exists v]. eapply vm_inv; [exact I|]. fold G. change (desc_frames _) with (payload pas).
      by rewrite (gmultiset_disj_union_assoc G), (gmultiset_disj_union_comm G), <- gmultiset_disj_union_assoc.
Qed.

(** * The descriptors *)

Inductive delivery B X Y i t s (l0 : list pending_desc) (names : list Z) (l loc : list pending_desc) (b : list Z)
    : Z -> list Z -> list pending_desc -> list pending_desc -> world -> Prop :=
| delivered b' names' Y' s' :
    length b' = length b -> (forall j : nat, Z.of_nat j < MSG_HDR + MSG_BODY -> b' !! j = b !! j) ->
    laid s' i t b' (MSG_HDR + MSG_BODY) (l0 ++ l) names' Y' -> NoDup names' ->
    inv B ∅ [] s' (gather desc_rights loc ⊎ X) (Y' ⊎ (gather desc_frames loc ⊎ Y)) -> intake i (length l) s s' ->
    (forall m, m ∈ names -> m ∈ names') -> (forall m, m ∈ names' -> m ∈ names \/ entry_at s i m = pe_empty) -> (forall m, 0 <= m -> m ∉ names' -> entry_at s' i m = entry_at s i m) ->
    delivery B X Y i t s l0 names l loc b MACH_MSG_OK b' (stripped <$> (l0 ++ l)) loc s'
| undone rv b' l1 l2 s' :
    rv <> MACH_MSG_OK -> inv B ∅ [] s' X Y -> tabled i s s' ->
    (forall m, 0 <= m -> entry_at s' i m = if decide (m ∈ names) then pe_empty else entry_at s i m) ->
    delivery B X Y i t s l0 names l loc b rv b' l1 l2 s'.

Lemma free_is_empty s i sp m : w_spaces s !! i = Some sp -> space_ok sp -> slot_free (entry_at s i m) = true -> entry_at s i m = pe_empty.
Proof.
  intros Hi Ok Hf. pose proof (entry_at_ok s i sp m Hi Ok) as Eo. destruct (free_entry _ Hf) as (F1 & F2 & F3). pose proof (eo_none _ Eo F1 F2) as F4.
  destruct (entry_at s i m); cbn in *. by subst.
Qed.

(** What the loop has at descriptor [length l0]. *)
Record midway B X Y i t s (l0 : list pending_desc) (names : list Z) (l loc : list pending_desc) (b : list Z) (Y0 : goods) (N : Z) (d : nat) : Prop := {
  mi_inv : inv B ∅ [] s (gather desc_rights (l ++ loc) ⊎ X) (Y0 ⊎ (gather desc_frames (l ++ loc) ⊎ Y));
  mi_accepts : accepts i N d s;
  mi_size : (size (gather desc_rights (l ++ loc)) <= d)%nat;
  mi_names : N + Z.of_nat (length l) < 2 ^ 30;
  mi_laid : laid s i t b (MSG_HDR + MSG_BODY) l0 names Y0;
  mi_nodup : NoDup names;
  mi_fits : l <> [] -> MSG_HDR + MSG_BODY + descs_size (l0 ++ l) <= Z.of_nat (length b);
  mi_carried : Forall carried l;
  mi_loc : Forall desc_ok loc;
}.

Lemma descs_size_app l1 l2 : descs_size (l1 ++ l2) = descs_size l1 + descs_size l2.
Proof. induction l1 as [|d l1 IH]; cbn; [done|]. change (foldr _ 0 (l1 ++ l2)) with (descs_size (l1 ++ l2)). change (foldr _ 0 l1) with (descs_size l1). lia. Qed.

Lemma midway_undone B X Y i t s l0 names l loc b Y0 N d :
  midway B X Y i t s l0 names l loc b Y0 N d -> Forall desc_ok (l ++ loc).
Proof. intros M. apply Forall_app. split; [|exact (mi_loc _ _ _ _ _ _ _ _ _ _ _ _ _ _ M)]. eapply Forall_impl; [apply carried_ok|exact (mi_carried _ _ _ _ _ _ _ _ _ _ _ _ _ _ M)]. Qed.

Lemma gather_carries p r l : gather desc_rights (carries p r :: l) = rights_of p r ⊎ gather desc_rights l.
Proof. by rewrite gather_cons. Qed.

Lemma laid_used s i t b off l names Y m : laid s i t b off l names Y -> m ∈ names -> slot_free (entry_at s i m) = false.
Proof. induction 1 as [|? ? ? ? ? ? ? ? ? ? He| |]; try done; [by intros H%not_elem_of_nil|]. intros [->|Hm]%elem_of_cons; [by rewrite He|auto]. Qed.

Lemma frames_carries p r l : gather desc_frames (carries p r :: l) = gather desc_frames l.
Proof. rewrite gather_cons. apply gmultiset_disj_union_left_id. Qed.

Lemma name_small i N d s n p r : accepts i N d s -> N < 2 ^ 30 -> (forall sp, w_spaces s !! i = Some sp -> space_ok sp) -> 1 <= n ->
  entry_at s i n = mkPe (Some p) None r false -> 0 <= n < 2 ^ 32.
Proof.
  intros Ac HN Ok Hn He. destruct (ac_space _ _ _ _ Ac) as (sp & Hi & Sl). pose proof (slack_cap N sp Sl HN).
  pose proof (used_name s i sp n Hi (Ok sp Hi) ltac:(lia)) as Bn. rewrite He in Bn. specialize (Bn eq_refl). lia.
Qed.

(** A port descriptor that got its name. *)
Lemma midway_port B X Y i t s s2 l0 names p r l loc b b' Y0 N d n (off := MSG_HDR + MSG_BODY + descs_size l0) :
  midway B X Y i t s l0 names (carries p r :: l) loc b Y0 N d -> one_right r -> 1 <= n -> slot_free (entry_at s i n) = true ->
  inv B ∅ [] s2 (gather desc_rights (l ++ loc) ⊎ X) (Y0 ⊎ (gather desc_frames (l ++ loc) ⊎ Y)) ->
  renamed s s2 i n (mkPe (Some p) None r false) -> intake i 1 s s2 ->
  (r = MACH_PORT_RIGHT_RECEIVE -> forall po, w_ports s2 !! p = Some po -> p_set po = None) -> st 4 b (off + 4) n = Done b' ->
  midway B X Y i t s2 (l0 ++ [carries p r]) (names ++ [n]) l loc b' Y0 (N + 1) (d - 1).
Proof.
  intros [I Ac Sz HN D Nd Ft Cr Lc] Hr Hn Hf I2 Rn Ik Al Eb. cbn [app length] in *. rewrite gather_carries, gmultiset_size_disj_union, (size_one_right p r Hr) in Sz.
  pose proof (accepts_intake i N d s 1 s2 (d - 1) Ac Ik ltac:(lia)) as Ac2. destruct (st_done _ _ _ _ _ Eb) as [_ Lb].
  assert (n ∉ names) as Nn. { intros Hin. pose proof (laid_used _ _ _ _ _ _ _ _ n D Hin). congruence. }
  assert (entry_at s2 i n = mkPe (Some p) None r false) as En by (rewrite (renamed_other s s2 i n _ n Rn) by lia; by rewrite Z.eqb_refl).
  split; try done.
  - lia.
  - lia.
  - rewrite <- (gmultiset_disj_union_right_id Y0). apply laid_app.
    + apply (laid_bytes s2 i t b b' _ l0 names Y0 off); [|done| |unfold off; lia].
      * eapply laid_later; [exact D|exact Ik|]. intros m Hm. pose proof (laid_names _ _ _ _ _ _ _ _ m D Hm). apply (renamed_ne s s2 i n _ i m Rn); [lia|congruence].
      * intros j Hj. apply (st_lookup _ _ _ _ _ _ Eb). lia.
    + eapply (laid_port s2 i t b' _ p r); [done| |done|exact En|exact Al|apply laid_nil]. fold off. rewrite (ld_st_same _ _ _ _ _ Eb). f_equal. apply Z.mod_small.
      apply (name_small i (N + 1) (d - 1) s2 n p r); [exact Ac2|lia|exact (i_space _ _ _ _ _ _ I2 i)|done|done].
  - apply list.NoDup_app. split_and!; [done| |apply NoDup_singleton]. intros m Hm ->%list_elem_of_singleton. done.
  - intros _. rewrite Lb, <- app_assoc. by apply Ft.
  - by inversion Cr.
Qed.

(** A port descriptor. *)
Lemma deliver_port_ok B X Y i c s l0 names p r l loc b Y0 N d :
  midway B X Y i (c_task c) s l0 names (carries p r :: l) loc b Y0 N d -> one_right r ->
  exists rv n s1, install_right s i p r = Done (rv, n, s1) /\
    ((rv = MACH_MSG_OK /\ exists s2 b', installed_ref s1 p r = Done s2 /\ st 4 b (MSG_HDR + MSG_BODY + descs_size l0 + 4) n = Done b' /\
        length b' = length b /\ (forall j : nat, Z.of_nat j < MSG_HDR + MSG_BODY -> b' !! j = b !! j) /\
        midway B X Y i (c_task c) s2 (l0 ++ [carries p r]) (names ++ [n]) l loc b' Y0 (N + 1) (d - 1) /\ intake i 1 s s2 /\
        entry_at s i n = pe_empty /\ (forall m, 0 <= m -> m <> n -> entry_at s2 i m = entry_at s i m)) \/
     (rv <> MACH_MSG_OK /\ exists s2, recv_rollback_installed s1 c i b (stripped <$> l0) (carries p r :: l ++ loc) = Done s2 /\ inv B ∅ [] s2 X Y /\ tabled i s s2 /\
        (forall m, 0 <= m -> entry_at s2 i m = if decide (m ∈ names) then pe_empty else entry_at s i m))).
Proof.
  intros M Hr. pose proof M as [I Ac Sz Hn D Nd Ft Cr Lc]. cbn [app] in I, Sz. rewrite gather_carries, <- gmultiset_disj_union_assoc, frames_carries in I.
  assert (N < 2 ^ 30) as HN by lia. destruct (ac_space _ _ _ _ Ac) as (sp & Hi & Sl). pose proof (i_space _ _ _ _ _ _ I i sp Hi) as Ok.
  assert (exists rv n s1, install_right s i p r = Done (rv, n, s1) /\ taken_in B s (gather desc_rights (l ++ loc) ⊎ X) (Y0 ⊎ (gather desc_frames (l ++ loc) ⊎ Y)) i p r rv n s1) as (rv & n & s1 & E1 & T).
  { destruct Hr as [->|Hr]; [by apply (take_receive_ok B s _ _ i N d)|by apply (take_send_ok B s _ _ i N d)]. }
  exists rv, n, s1. split; [exact E1|]. destruct T as [n s1 s2 Hn1 Hf E2 I2 Rn Ik Al|n s1 I1 Es Ik].
  - left. split; [done|]. specialize (Ft ltac:(done)). rewrite descs_size_app in Ft. cbn [descs_size foldr] in Ft. change (foldr _ 0 l) with (descs_size l) in Ft.
    change (desc_size (carries p r)) with 8 in Ft. pose proof (descs_size_pos l). pose proof (descs_size_pos l0). unfold MSG_HDR, MSG_BODY in Ft.
    destruct (st_fits 4 b (MSG_HDR + MSG_BODY + descs_size l0 + 4) n) as (b' & Eb & Lb & Sb); [unfold MSG_HDR, MSG_BODY; split; lia|].
    exists s2, b'. split_and!; [exact E2|exact Eb|exact Lb|intros j Hj; apply Sb; lia|by apply (midway_port B X Y i _ s s2 l0 names p r l loc b b')|exact Ik|by apply (free_is_empty s i sp)|].
    intros m Hm Hne. apply (renamed_ne s s2 i n _ i m Rn Hm). congruence.
  - right. split; [done|]. assert (forall m, entry_at s1 i m = entry_at s i m) as Ee by (intros m; unfold entry_at; by rewrite Es).
    destruct (recv_rollback_ok B s1 X Y i c b N d l0 (carries p r :: l ++ loc) names Y0) as (s2 & E2 & I2 & Tb & En); [|..].
    + by rewrite gather_carries, frames_carries, <- gmultiset_disj_union_assoc.
    + rewrite <- (Z.add_0_r N). apply (accepts_intake i N d s 0 s1 d Ac Ik). lia.
    + done.
    + exact Sz.
    + eapply laid_later; [exact D|exact Ik|done].
    + done.
    + exact (midway_undone _ _ _ _ _ _ _ _ _ _ _ _ _ _ M).
    + exists s2. split_and!; [done|done|eapply tabled_trans; [by eapply tabled_intake|exact Tb]|]. intros m Hm. rewrite En by done. by rewrite Ee.
Qed.

Lemma intake_vm i N d s v : accepts i N d s -> intake i 0 s (upd_vm s v).
Proof. intros Ac. destruct (ac_space _ _ _ _ Ac) as (sp & Hi & _). by eapply intake_same. Qed.

(** A descriptor of memory. *)
Lemma deliver_ool_ok B X Y i c s l0 names pd l loc b Y0 N d :
  midway B X Y i (c_task c) s l0 names (pd :: l) loc b Y0 N d -> pd_type pd = MACH_MSG_OOL_DESCRIPTOR ->
  exists rv b' pd' s1, recv_install_ool s c pd b (MSG_HDR + MSG_BODY + descs_size l0) = Done (rv, b', pd', s1) /\
    ((rv = MACH_MSG_OK /\ pd' = stripped pd /\ length b' = length b /\ (forall j : nat, Z.of_nat j < MSG_HDR + MSG_BODY -> b' !! j = b !! j) /\
        (exists Yd, midway B X Y i (c_task c) s1 (l0 ++ [pd]) names l loc b' (Y0 ⊎ Yd) N d) /\ intake i 0 s s1 /\
        (forall m, entry_at s1 i m = entry_at s i m)) \/
     (rv <> MACH_MSG_OK /\ exists s2, recv_rollback_installed s1 c i b' (stripped <$> l0) (pd' :: l ++ loc) = Done s2 /\ inv B ∅ [] s2 X Y /\ tabled i s s2 /\
        (forall m, 0 <= m -> entry_at s2 i m = if decide (m ∈ names) then pe_empty else entry_at s i m))).
Proof.
  intros M Ht. pose proof M as [I Ac Sz Hn D Nd Ft Cr Lc]. cbn [app length] in *. inversion Cr as [|? ? C1 C2]; subst.
  assert (desc_rights pd = ∅) as Er by (destruct C1; done). rewrite gather_cons, Er, gmultiset_disj_union_left_id in I, Sz.
  set (G := gather desc_frames (l ++ loc)) in *. assert (Y0 ⊎ (gather desc_frames (pd :: l ++ loc) ⊎ Y) = desc_frames pd ⊎ (Y0 ⊎ (G ⊎ Y))) as Ey by (rewrite gather_cons; fold G; mult_at x).
  rewrite Ey in I. specialize (Ft ltac:(done)). rewrite descs_size_app in Ft. cbn [descs_size foldr] in Ft. change (foldr _ 0 l) with (descs_size l) in Ft.
  assert (desc_size pd = 16) as Ds by (unfold desc_size; by rewrite Ht). pose proof (descs_size_pos l). pose proof (descs_size_pos l0). set (off := MSG_HDR + MSG_BODY + descs_size l0) in *.
  assert (MSG_HDR + MSG_BODY <= off) as Ho by (unfold off; lia).
  destruct (recv_install_ool_ok B s _ _ i c pd b off I C1 Ht) as (rv & b' & pd' & s1 & E1 & T); [unfold MSG_HDR, MSG_BODY in Ho; split; lia|].
  exists rv, b', pd', s1. split; [exact E1|]. destruct T as [b' Yd s1 Lb Sb Ld I1 (v & ->)|rv b' s1 Hrv Lb Sb I1 (v & ->)]; pose proof (intake_vm i N d s v Ac) as Ik.
  - left. split_and!; [done|done|done|intros j Hj; apply Sb; lia| |exact Ik|done]. exists Yd. split; try done.
    + fold G. assert ((Y0 ⊎ Yd) ⊎ (G ⊎ Y) = Yd ⊎ (Y0 ⊎ (G ⊎ Y))) as -> by mult_at x. exact I1.
    + rewrite <- (Z.add_0_r N). apply (accepts_intake i N d s 0 _ d Ac Ik). lia.
    + lia.
    + rewrite <- (app_nil_r names). apply laid_app; [|exact Ld]. apply (laid_bytes _ i _ b b' _ l0 names Y0 off); [|done|exact Sb|unfold off; lia].
      eapply laid_later; [exact D|exact Ik|done].
    + intros _. rewrite Lb, <- app_assoc, descs_size_app. cbn. change (foldr _ 0 l) with (descs_size l). lia.
  - right. split; [done|]. destruct (recv_rollback_ok B (upd_vm s v) X Y i c b' N d l0 (pd :: l ++ loc) names Y0) as (s2 & E2 & I2 & Tb & En).
    + rewrite Ey, gather_cons, Er, gmultiset_disj_union_left_id. exact I1.
    + rewrite <- (Z.add_0_r N). apply (accepts_intake i N d s 0 _ d Ac Ik). lia.
    + lia.
    + by rewrite gather_cons, Er, gmultiset_disj_union_left_id.
    + apply (laid_bytes _ i _ b b' _ l0 names Y0 off); [|done|exact Sb|unfold off; lia]. eapply laid_later; [exact D|exact Ik|done].
    + done.
    + exact (midway_undone _ _ _ _ _ _ _ _ _ _ _ _ _ _ M).
    + exists s2. split_and!; [done|done|eapply tabled_trans; [by eapply tabled_intake|exact Tb]|]. intros m Hm. by rewrite En.
Qed.

Lemma stripped_snoc l0 d : (stripped <$> l0) ++ [stripped d] = stripped <$> (l0 ++ [d]).
Proof. by rewrite fmap_app. Qed.

Lemma off_snoc l0 d : MSG_HDR + MSG_BODY + descs_size l0 + desc_size d = MSG_HDR + MSG_BODY + descs_size (l0 ++ [d]).
Proof. rewrite descs_size_app. cbn. lia. Qed.

(** One descriptor, then the rest. *)
Lemma delivery_step B X Y i t s s2 l0 names ns pd l loc b b' rv b2 l1 l2 s' :
  delivery B X Y i t s2 (l0 ++ [pd]) (names ++ ns) l loc b' rv b2 l1 l2 s' ->
  length b' = length b -> (forall j : nat, Z.of_nat j < MSG_HDR + MSG_BODY -> b' !! j = b !! j) -> intake i 1 s s2 ->
  (forall m, m ∈ ns -> entry_at s i m = pe_empty) -> (forall m, 0 <= m -> m ∉ ns -> entry_at s2 i m = entry_at s i m) ->
  delivery B X Y i t s l0 names (pd :: l) loc b rv b2 l1 l2 s'.
Proof.
  intros Dl Lb Sb Ik Fr En. destruct Dl as [b2 names' Y' s' L2 S2 Ld Nd I2 Ik2 Sub New Old|rv b2 l1 l2 s' Hrv I2 Tb En2].
  - rewrite <- app_assoc in *. cbn [app] in *. eapply delivered; [lia|intros j Hj; rewrite S2, Sb by done; done|exact Ld|done|exact I2|exact (intake_trans _ 1 _ _ _ _ Ik Ik2)| | |].
    + intros m Hm. apply Sub, elem_of_app. by left.
    + intros m Hm. destruct (decide (m ∈ ns)) as [Hs|Hs]; [right; by apply Fr|]. pose proof (laid_names _ _ _ _ _ _ _ _ m Ld Hm).
      destruct (New m Hm) as [[?|?]%elem_of_app|He]; [by left|done|]. right. rewrite <- En by (done || lia). exact He.
    + intros m H0 Hm. rewrite Old by done. apply En; [done|]. intros Hs. apply Hm, Sub, elem_of_app. by right.
  - apply undone; [done|done|eapply tabled_trans; [by eapply tabled_intake|exact Tb]|]. intros m H0. rewrite En2 by done.
    destruct (decide (m ∈ names)); [by rewrite decide_True by (apply elem_of_app; by left)|]. destruct (decide (m ∈ ns)) as [Hs|Hs].
    + rewrite decide_True by (apply elem_of_app; by right). symmetry. by apply Fr.
    + rewrite decide_False by (rewrite elem_of_app; tauto). by apply En.
Qed.

Lemma deliver_descs_ok B X Y i c loc : forall l s l0 names b Y0 N d,
  midway B X Y i (c_task c) s l0 names l loc b Y0 N d ->
  exists rv b' l1 l2 s', deliver_descs (length l) s c i b (MSG_HDR + MSG_BODY + descs_size l0) (stripped <$> l0) (l ++ loc) = Done (rv, b', l1, l2, s') /\
    delivery B X Y i (c_task c) s l0 names l loc b rv b' l1 l2 s'.
Proof.
  induction l as [|pd l IH]; intros s l0 names b Y0 N d M.
  - destruct M as [I Ac Sz Hn D Nd Ft Cr Lc]. cbn in I. eexists _, _, _, _, _. split; [reflexivity|]. rewrite <- (app_nil_r l0) at 2.
    destruct (ac_space _ _ _ _ Ac) as (sp & Hi & _). eapply delivered; rewrite ?app_nil_r; try done; [by eapply intake_same|]. intros m Hm. by left.
  - assert (carried pd) as C1 by (by inversion M as [_ _ _ _ _ _ _ Cr _]; inversion Cr). cbn [length app deliver_descs].
    assert (pd_type pd = MACH_MSG_PORT_DESCRIPTOR \/ pd_type pd = MACH_MSG_OOL_DESCRIPTOR) as [Ht|Ht] by (destruct C1; auto).
    + destruct C1 as [p r Hr| |]; try done. cbn [carries pd_type pd_port pd_disposition pd_ool_size pd_ool_pages]. rewrite Z.eqb_refl.
      destruct (deliver_port_ok B X Y i c s l0 names p r l loc b Y0 N d M Hr) as (rv & n & s1 & E1 & [(-> & s2 & b' & E2 & Eb & Lb & Sb & M2 & Ik & Fn & En)|(Hrv & s2 & E2 & I2 & Tb & En)]); rewrite E1, bind_Done.
      * cbn [Z.eqb MACH_MSG_OK negb]. rewrite E2, bind_Done, Eb, bind_Done. fold (carries p r). change (mkPd _ _ _ _ _) with (stripped (carries p r)). rewrite stripped_snoc.
        change PORT_DESC with (desc_size (carries p r)). rewrite off_snoc. destruct (IH _ _ _ _ _ _ _ M2) as (rv & b2 & l1 & l2 & s' & E' & Dl). rewrite E'. eexists _, _, _, _, _. split; [reflexivity|].
        apply (delivery_step B X Y i (c_task c) s s2 l0 names [n] (carries p r) l loc b b' rv b2 l1 l2 s' Dl Lb Sb); [by apply (intake_more _ 1)|by intros m ->%list_elem_of_singleton|].
        intros m Hm Hn. apply En; [done|]. intros ->. apply Hn. by left.
      * replace (rv =? MACH_MSG_OK) with false by lia. cbn [negb]. fold (carries p r). rewrite E2, bind_Done. eexists _, _, _, _, _. split; [reflexivity|]. by apply undone.
    + assert ((pd_type pd =? MACH_MSG_PORT_DESCRIPTOR) = false) as -> by (by rewrite Ht). rewrite Ht, Z.eqb_refl.
      destruct (deliver_ool_ok B X Y i c s l0 names pd l loc b Y0 N d M Ht) as (rv & b' & pd' & s1 & E1 & [(-> & -> & Lb & Sb & (Yd & M2) & Ik & En)|(Hrv & s2 & E2 & I2 & Tb & En)]); rewrite E1, bind_Done.
      * cbn [Z.eqb MACH_MSG_OK negb]. rewrite stripped_snoc. assert (OOL_DESC = desc_size pd) as -> by (unfold desc_size; by rewrite Ht). rewrite off_snoc.
        destruct (IH _ _ _ _ _ _ _ M2) as (rv & b2 & l1 & l2 & s' & E' & Dl). rewrite E'. eexists _, _, _, _, _. split; [reflexivity|].
        rewrite <- (app_nil_r names) in Dl. apply (delivery_step B X Y i (c_task c) s s1 l0 names [] pd l loc b b' rv b2 l1 l2 s' Dl Lb Sb); [apply (intake_more _ 0); [lia|done]|by intros m Hm%not_elem_of_nil|by intros m _ _].
      * replace (rv =? MACH_MSG_OK) with false by lia. cbn [negb]. rewrite E2, bind_Done. eexists _, _, _, _, _. split; [reflexivity|]. by apply undone.
Qed.

(** * One message *)

(** The descriptors were delivered and then there was no name for the reply
    right: it is released with the descriptors that are left, and once more. *)
Definition reply_lost s c i (m : port_msg) : Prop :=
  exists n b l1 l2 s1 q r rv name s2,
    deliver_descs n s c i (m_buf m) (MSG_HDR + MSG_BODY) [] (m_descs m) = Done (MACH_MSG_OK, b, l1, l2, s1) /\
    l2 = [carries q r] /\ install_right s1 i q r = Done (rv, name, s2) /\ rv <> MACH_MSG_OK.

(** The receiver has what the message carried: its bytes [b] name it. *)
Record handed s s' (i t : Z) (m : port_msg) (b : list Z) (names : list Z) : Prop := {
  hd_length : length b = length (m_buf m);
  hd_descs : exists bits explicit loc shown Y, msg_wf m bits explicit loc /\ laid s' i t b (MSG_HDR + MSG_BODY) explicit shown Y /\
    match loc with
    | [] => names = shown
    | d :: _ => exists q r name, d = carries q r /\ ld 4 b 12 = Done name /\ entry_at s' i name = mkPe (Some q) None r false /\ names = shown ++ [name]
    end;
  hd_nodup : NoDup names;
  hd_new n : n ∈ names -> entry_at s i n = pe_empty;
  hd_old n : 0 <= n -> n ∉ names -> entry_at s' i n = entry_at s i n;
}.

Definition receipt B s i t (m : port_msg) (r : Z * option (list Z) * world) : Prop :=
  let '(rv, out, s') := r in
  sys B s' /\ tabled i s s' /\
  match out with
  | Some b => rv = MACH_MSG_OK /\ exists names, handed s s' i t m b names
  | None => rv <> MACH_MSG_OK /\ forall n, 0 <= n -> entry_at s' i n = entry_at s i n
  end.

Lemma laid_kept B s X Y i t b off l names Yl : laid s i t b off l names Yl -> inv B ∅ [] s X (Yl ⊎ Y) -> inv B ∅ [] s X Y.
Proof.
  induction 1 as [| |? ? ? ? ? ? ? IH|off size pas va l names Y' H1 H2 H3 H4 H5 H6 IH]; try done; [by rewrite gmultiset_disj_union_left_id|].
  intros I. apply IH. rewrite <- (upd_vm_id s). eapply vm_inv; [exact I|]. pose proof (i_vm _ _ _ _ _ _ I) as Iv. set (G := stored _ _ _) in *.
  eapply pl_keep_ok. assert ({[+ Range t va (Z.of_nat (length pas)) +]} ⊎ (G ⊎ (Y' ⊎ Y)) = G ⊎ (({[+ Range t va (Z.of_nat (length pas)) +]} ⊎ Y') ⊎ Y)) as -> by mult_at x. exact Iv.
Qed.

(** A message put back at the head of its queue. *)
Lemma requeue_ok B s X Y p po m :
  inv B ∅ [] s (msg_rights m ⊎ X) (msg_frames m ⊎ Y) -> w_ports s !! p = Some po -> msg_ok m -> p_dead po = false -> p_qlen po + p_qresv po < KERNEL_QMAX ->
  inv B ∅ [] (put_port s p (with_queue po (m :: p_queue po) (p_qlen po + 1))) X Y.
Proof.
  intros I Hp Hm Hd Hq. pose proof (i_port _ _ _ _ _ _ I p po Hp) as [A1 A2 A3 A4 A5 A6 A7 A8].
  apply (put_plain B ∅ [] s _ _ X Y p po _ I Hp ltac:(set_solver)); try done.
  - split; cbn; try assumption; [by constructor|lia|lia|congruence].
  - exact (i_pinned _ _ _ _ _ _ I p po Hp).
  - unfold port_rights, queue_rights. cbn. rewrite gather_cons. mult_at x.
  - unfold port_frames. cbn. rewrite gather_cons. mult_at x.
Qed.

Lemma descs_size_least l : 8 * Z.of_nat (length l) <= descs_size l.
Proof.
  induction l as [|d l IH]; [done|]. cbn [length descs_size foldr]. change (foldr _ 0 l) with (descs_size l). unfold desc_size, PORT_DESC, OOL_DESC. case_match; lia.
Qed.

Lemma msg_wf_counts m bits explicit loc : msg_wf m bits explicit loc ->
  (length explicit <= 508)%nat /\ (length loc <= 1)%nat /\ (size (msg_rights m) <= 509)%nat.
Proof.
  intros [W1 W2 W3 W4 W5 W6].
  assert (length explicit <= 508)%nat as H1.
  { destruct (has bits _); [|subst; cbn; lia]. destruct W4 as [_ W4]. pose proof (descs_size_least explicit). unfold MSG_HDR, MSG_BODY, MAX_MSG_BYTES in *. lia. }
  assert (length loc <= 1)%nat as H2 by (destruct (_ =? 0); [subst; cbn; lia|]; destruct W6 as (p & r & -> & _); cbn; lia).
  assert (forall l, Forall carried l -> (size (gather desc_rights l) <= length l)%nat) as Sz.
  { induction 1 as [|d l Hc Hl IH]; [change (0 <= 0)%nat; lia|]. rewrite gather_cons, gmultiset_size_disj_union. 
    change (length (d :: l)) with (1 + length l)%nat. apply Nat.add_le_mono; [|exact IH]. destruct Hc as [p r Hr| |]; [|change (0 <= 1)%nat; lia|change (0 <= 1)%nat; lia]. change (desc_rights (carries p r)) with (rights_of p r). rewrite (size_one_right p r Hr). lia. }
  split_and!; [done|done|]. unfold msg_rights. rewrite W3, gather_app, gmultiset_size_disj_union. pose proof (Sz _ W5).
  assert (size (gather desc_rights loc) <= 1)%nat; [|lia]. destruct (_ =? 0); [subst; change (0 <= 1)%nat; lia|]. destruct W6 as (p & r & -> & Hr).
  apply (Sz [carries p r]). constructor; [by apply carried_port|constructor].
Qed.

(** A message in the hands of its receiver, who can take it. *)
Record in_hand B s i (m : port_msg) (N : Z) : Prop := {
  ih_inv : inv B ∅ [] s (msg_rights m ⊎ ∅) (msg_frames m ⊎ ∅);
  ih_counted : all_counted s;
  ih_msg : msg_ok m;
  ih_accepts : accepts i N 1100 s;
  ih_names : N + 600 < 2 ^ 30;
}.

(** The last step: the reply right. *)
Lemma deliver_reply_ok B s s1 c i m bits explicit q r b names Y' N :
  in_hand B s i m N -> msg_wf m bits explicit [carries q r] -> one_right r -> length b = length (m_buf m) ->
  laid s1 i (c_task c) b (MSG_HDR + MSG_BODY) explicit names Y' -> NoDup names -> inv B ∅ [] s1 (rights_of q r ⊎ ∅) (Y' ⊎ ∅) ->
  intake i (length explicit) s s1 -> (forall n, n ∈ names -> entry_at s i n = pe_empty) -> (forall n, 0 <= n -> n ∉ names -> entry_at s1 i n = entry_at s i n) ->
  exists rv n s2, install_right s1 i q r = Done (rv, n, s2) /\
    (rv = MACH_MSG_OK -> exists s3 b', installed_ref s2 q r = Done s3 /\ st 4 b 12 n = Done b' /\ receipt B s i (c_task c) m (MACH_MSG_OK, Some b', s3)).
Proof.
  intros [I C Mo Ac HN] W Hr Lb D Nd I1 Ik New Old. destruct (msg_wf_counts m bits explicit _ W) as (C1 & _ & _). pose proof (mw_len _ _ _ _ W) as Wl.
  pose proof (accepts_intake i N 1100 s (length explicit) s1 500 Ac Ik ltac:(lia)) as Ac1. assert (N + Z.of_nat (length explicit) < 2 ^ 30) as HN1 by lia.
  assert (exists rv n s2, install_right s1 i q r = Done (rv, n, s2) /\ taken_in B s1 ∅ (Y' ⊎ ∅) i q r rv n s2) as (rv & n & s2 & E2 & T).
  { destruct Hr as [->|Hr]; [by apply (take_receive_ok B s1 _ _ i (N + Z.of_nat (length explicit)) 500)|by apply (take_send_ok B s1 _ _ i (N + Z.of_nat (length explicit)) 500)]. }
  exists rv, n, s2. split; [exact E2|]. intros ->. inversion T as [n' s2' s3 Hn Hf E3 I3 Rn Ik3 Al|]; subst.
  unfold MSG_HDR in Wl. destruct (st_fits 4 b 12 n) as (b' & Eb & Lb' & _); [split; lia|]. exists s3, b'. split; [exact E3|]. split; [exact Eb|].
  destruct (ac_space _ _ _ _ Ac1) as (sp1 & Hi1 & _). pose proof (free_is_empty s1 i sp1 n Hi1 (i_space _ _ _ _ _ _ I1 i sp1 Hi1) Hf) as Fn.
  assert (n ∉ names) as Nn. { intros Hin. pose proof (laid_used _ _ _ _ _ _ _ _ n D Hin). congruence. }
  assert (laid s3 i (c_task c) b' (MSG_HDR + MSG_BODY) explicit names Y') as D3.
  { apply (laid_fields s3 i (c_task c) b).
    - eapply laid_later; [exact D|exact Ik3|]. intros m' Hm. pose proof (laid_names _ _ _ _ _ _ _ _ m' D Hm). apply (renamed_ne s1 s3 i n _ i m' Rn); [lia|congruence].
    - intros k f Hk _. unfold MSG_HDR, MSG_BODY in Hk. apply (ld_st_other _ _ _ _ _ k f Eb); lia. }
  assert (tabled i s s3) as Tb by (eapply tabled_trans; eapply tabled_intake; eassumption).
  split_and!; [|exact Tb|done|].
  - split; [|exact (tabled_counted i s s3 Tb C)]. by eapply laid_kept.
  - exists (names ++ [n]). assert (entry_at s3 i n = mkPe (Some q) None r false) as En by (rewrite (renamed_other s1 s3 i n _ n Rn) by lia; by rewrite Z.eqb_refl).
    split; [lia| | | |].
    + exists bits, explicit, [carries q r], names, Y'. split; [exact W|]. split; [exact D3|]. exists q, r, n. split; [done|]. split; [|by split].
      rewrite (ld_st_same _ _ _ _ _ Eb). f_equal. apply Z.mod_small.
      apply (name_small i (N + Z.of_nat (length explicit) + 1) 499 s3 n q r); [exact (accepts_intake i _ 500 s1 1 s3 499 Ac1 Ik3 ltac:(lia))|lia|exact (i_space _ _ _ _ _ _ I3 i)|done|done].
    + apply list.NoDup_app. split_and!; [done| |apply NoDup_singleton]. intros m' Hm ->%list_elem_of_singleton. done.
    + intros m' [Hm| ->%list_elem_of_singleton]%elem_of_app; [by apply New|]. rewrite <- Old by (done || lia). exact Fn.
    + intros m' H0 Hm. rewrite not_elem_of_app in Hm. destruct Hm as [H1 H2]. rewrite (renamed_ne s1 s3 i n _ i m' Rn H0); [by apply Old|]. intros [= ->]. apply H2. by left.
Qed.

Lemma in_hand_midway B s i t m bits explicit loc N :
  in_hand B s i m N -> msg_wf m bits explicit loc -> midway B ∅ ∅ i t s [] [] explicit loc (m_buf m) ∅ N 1100.
Proof.
  intros [I C Mo Ac HN] W. destruct (msg_wf_counts m bits explicit loc W) as (C1 & C2 & C3). unfold msg_rights, msg_frames in *.
  pose proof (msg_ok_descs m Mo) as Ok. rewrite (mw_descs _ _ _ _ W) in *. split; try done.
  - by rewrite gmultiset_disj_union_left_id.
  - lia.
  - lia.
  - apply laid_nil.
  - constructor.
  - pose proof (mw_count _ _ _ _ W) as Q. pose proof (mw_len _ _ _ _ W). cbn [app]. destruct (has bits _); [by destruct Q|by subst].
  - exact (mw_carried _ _ _ _ W).
  - by apply Forall_app in Ok as [_ ?].
Qed.

(** The message is delivered whole, or the receiver has nothing of it. *)
Theorem deliver_msg_safe B s c i p po m buf_size N :
  in_hand B s i m N -> w_ports s !! p = Some po -> p_dead po = false -> p_qlen po + p_qresv po < KERNEL_QMAX -> ~ reply_lost s c i m ->
  exists r, deliver_msg s c i p m buf_size = Done r /\ receipt B s i (c_task c) m r.
Proof.
  intros Ih Hp Hd Hq Nl. pose proof Ih as [I C Mo Ac HN]. destruct (ac_space _ _ _ _ Ac) as (sp & Hi & _). unfold deliver_msg. destruct (_ <? _).
  { rewrite (get_port_eq _ _ _ Hp), bind_Done. eexists. split; [reflexivity|]. split_and!; [|by exists sp, sp; rewrite insert_id|done|done].
    split; [by apply requeue_ok|exact C]. }
  pose proof Mo as (bits & explicit & loc & W). rewrite (mw_bits _ _ _ _ W), bind_Done.
  assert (exists n, (if has bits MACH_MSGH_BITS_COMPLEX then msgh_descriptor_count (m_buf m) else Done 0) = Done n /\ Z.to_nat n = length explicit) as (n & -> & Hn).
  { pose proof (mw_count _ _ _ _ W) as Q. destruct (has bits _); [destruct Q as [-> _]; eexists; split; [done|lia]|]. subst. by exists 0. }
  rewrite bind_Done, Hn, (mw_descs _ _ _ _ W).
  destruct (deliver_descs_ok B ∅ ∅ i c loc explicit s [] [] (m_buf m) ∅ N 1100 (in_hand_midway B s i _ m bits explicit loc N Ih W)) as (rv & b & l1 & l2 & s1 & E1 & D).
  cbn [descs_size foldr fmap list_fmap] in E1. rewrite Z.add_0_r in E1. rewrite E1, bind_Done.
  destruct D as [b names Y' s1 Lb Sb Ld Nd I1 Ik Sub New Old|rv b l1 l2 s1 Hrv I1 Tb En].
  2:{ replace (rv =? MACH_MSG_OK) with false by lia. cbn [negb]. eexists. split; [reflexivity|]. split_and!; [|done|done|].
      - split; [exact I1|exact (tabled_counted i s s1 Tb C)].
      - intros j Hj. by rewrite En, decide_False by (done || apply not_elem_of_nil). }
  cbn [Z.eqb MACH_MSG_OK negb app] in *. assert (forall j, j ∈ names -> entry_at s i j = pe_empty) as New'.
  { intros j Hj. by destruct (New j Hj) as [?%not_elem_of_nil|]. }
  pose proof (mw_local _ _ _ _ W) as Wl. destruct (MACH_MSGH_BITS_LOCAL bits =? 0).
  - subst loc. pose proof (tabled_intake _ _ _ _ Ik) as Tb. eexists. split; [reflexivity|]. split_and!; [|exact Tb|done|].
    + split; [|exact (tabled_counted i s s1 Tb C)]. by eapply laid_kept.
    + exists names. split; try done. by exists bits, explicit, [], names, Y'.
  - destruct Wl as (q & r & -> & Hr). rewrite (list_lookup_middle _ [] (carries q r)) by (rewrite length_app, length_fmap; cbn; lia).
    cbn [carries pd_port pd_disposition]. rewrite gather_carries, frames_carries, <- gmultiset_disj_union_assoc in I1.
    destruct (deliver_reply_ok B s s1 c i m bits explicit q r b names Y' N Ih W Hr Lb Ld Nd I1 Ik New' Old) as (rv & k' & s2 & E2 & Fin). rewrite E2, bind_Done.
    destruct (decide (rv = MACH_MSG_OK)) as [->|Hrv].
    + destruct (Fin eq_refl) as (s3 & b' & E3 & Eb & Rc). cbn [Z.eqb MACH_MSG_OK negb]. rewrite E3, bind_Done, Eb, bind_Done. by eexists.
    + exfalso. apply Nl. eexists _, _, _, _, _, q, r, rv, k', s2. split_and!; [by rewrite (mw_descs _ _ _ _ W)|done|done|done].
Qed.

(** * The calls *)

Record recv_ready B s i (N : Z) : Prop := {
  rr_sys : sys B s;
  rr_accepts : accepts i N 1100 s;
  rr_names : N + 600 < 2 ^ 30;
}.

(** The receiver would lose the reply right of the message at the head. *)
Definition take_lost s c i p : Prop := exists m w s1, msg_dequeue s p = Done (Some (m, w), s1) /\ reply_lost s1 c i m.

Lemma dequeue_ok B s i p po m ql N :
  recv_ready B s i N -> w_ports s !! p = Some po -> p_queue po = m :: ql ->
  exists w s1 po1, msg_dequeue s p = Done (Some (m, w), s1) /\ in_hand B s1 i m N /\ w_spaces s1 = w_spaces s /\
    w_ports s1 !! p = Some po1 /\ p_dead po1 = false /\ p_qlen po1 + p_qresv po1 < KERNEL_QMAX.
Proof.
  intros [Sy Ac HN] Hp Eq. pose proof (sy_inv _ _ Sy) as I. pose proof (i_port _ _ _ _ _ _ I p po Hp) as Ok. pose proof Ok as [A1 A2 A3 A4 A5 A6 A7 A8].
  unfold msg_dequeue. rewrite (get_port_eq _ _ _ Hp), bind_Done, Eq. set (po0 := with_queue po ql (p_qlen po - 1)).
  destruct (extract_send_waiter po0) as [w po1] eqn:Ew. exists w, (put_port s p po1), po1. split; [done|].
  assert (exists l, po1 = with_send_waiters po0 l /\ l `sublist_of` p_send_waiters po) as (l & -> & Hl).
  { unfold extract_send_waiter in Ew. change (p_send_waiters po0) with (p_send_waiters po) in Ew. destruct (p_send_waiters po) as [|x l] eqn:El; injection Ew as <- <-.
    - exists []. split; [|done]. unfold po0, with_send_waiters, with_queue. by rewrite <- El.
    - exists l. split; [done|]. apply sublist_cons. done. }
  rewrite Eq in A1, A2. inversion A1 as [|? ? Mo Mq]; subst. cbn [length] in A2.
  assert (p_dead po = false) as Hd. { destruct (p_dead po) eqn:Q; [|done]. specialize (A6 eq_refl). congruence. }
  split_and!; [|done|apply lookup_insert_eq|exact Hd|cbn -[KERNEL_QMAX]; lia]. split; [| |exact Mo| |exact HN].
  - apply (put_plain B ∅ [] s _ _ _ _ p po _ I Hp ltac:(set_solver)); try done.
    + split; cbn; try done; lia.
    + apply (pinned_less B p po _ (i_pinned _ _ _ _ _ _ I p po Hp)); [cbn; lia|exact Hl].
    + unfold port_rights, queue_rights. cbn. rewrite Eq, gather_cons. mult_at x.
    + unfold port_frames. cbn. rewrite Eq, gather_cons. mult_at x.
  - exact (sy_counted _ _ Sy).
  - destruct Ac as [R1 R2 R3]. split; [|exact R2|].
    + intros p' po'. cbn. destruct (decide (p' = p)) as [->|Hn]; [rewrite lookup_insert_eq; intros [= <-]; specialize (R1 p po Hp); cbn; lia|].
      rewrite lookup_insert_ne by done. intros H. specialize (R1 p' po' H). lia.
    + pose proof (load_put ∅ s p po (with_send_waiters po0 l) Hp (not_elem_of_empty p)) as Q.
      assert (size (port_rights (with_send_waiters po0 l)) <= size (port_rights po))%nat as Sz.
      { unfold port_rights, queue_rights. cbn. rewrite Eq, gather_cons, !gmultiset_size_disj_union. lia. }
      cbn [w_depth put_port upd_ports]. lia.
Qed.

Lemma receipt_wake B s i t m rv out s1 w : receipt B s i t m (rv, out, s1) -> receipt B s i t m (rv, out, wake_opt s1 w).
Proof.
  intros (Sy & Tb & R). split_and!; [|exact Tb|].
  - apply (sys_same B s1); [done|by apply (same_inv _ _ _ s1), Sy|done].
  - destruct out as [b|]; [|exact R]. destruct R as [-> (names & [H1 (bits & ex & loc & sh & Y & W & D & Hl) H3 H4 H5])]. split; [done|]. exists names.
    split; try done. exists bits, ex, loc, sh, Y. split; [done|]. split; [|exact Hl]. destruct Tb as (sp & sp' & _ & Es & _).
    eapply (laid_later s1); [exact D| |done]. eapply intake_same; try done. rewrite Es. apply lookup_insert_eq.
Qed.

Lemma receipt_from B s s1 i t m r : w_spaces s1 = w_spaces s -> receipt B s1 i t m r -> receipt B s i t m r.
Proof.
  destruct r as [[rv out] s']. intros Es (Sy & Tb & R). assert (forall n, entry_at s1 i n = entry_at s i n) as Ee by (intros n; unfold entry_at; by rewrite Es).
  split_and!; [done|unfold tabled in *; by rewrite Es in Tb|]. destruct out as [b|].
  - destruct R as [-> (names & [H1 H2 H3 H4 H5])]. split; [done|]. exists names. split; try done; intros n; [rewrite <- Ee; apply H4|rewrite <- Ee; apply H5].
  - destruct R as [Hrv En]. split; [done|]. intros n Hn. rewrite <- Ee. by apply En.
Qed.

(** What taking a message from port [p] did. *)
Inductive taking B s i t p : option (Z * option (list Z)) -> world -> Prop :=
| took_none po : w_ports s !! p = Some po -> p_queue po = [] -> taking B s i t p None s
| took po m ql rv out s' : w_ports s !! p = Some po -> p_queue po = m :: ql -> receipt B s i t m (rv, out, s') -> taking B s i t p (Some (rv, out)) s'.

Lemma taking_sys B s i t p o s' : sys B s -> taking B s i t p o s' -> sys B s'.
Proof. intros Sy [|po m ql rv out s1 Hp Hq (Sy' & _)]; done. Qed.

Lemma recv_take_ok B s c i p po buf_size N :
  recv_ready B s i N -> w_ports s !! p = Some po -> ~ take_lost s c i p ->
  exists o s', recv_take s c i p buf_size = Done (o, s') /\ taking B s i (c_task c) p o s'.
Proof.
  intros Rd Hp Nl. unfold recv_take. destruct (p_queue po) as [|m ql] eqn:Eq.
  - unfold msg_dequeue. rewrite (get_port_eq _ _ _ Hp), bind_Done, Eq, bind_Done. exists None, s. split; [done|by apply (took_none B s i _ p po)].
  - destruct (dequeue_ok B s i p po m ql N Rd Hp Eq) as (w & s1 & po1 & E1 & Ih & Es & Hp1 & Hd1 & Hq1). rewrite E1, bind_Done.
    destruct (deliver_msg_safe B s1 c i p po1 m buf_size N Ih Hp1 Hd1 Hq1) as ([[rv out] s2] & E2 & Rc).
    { intros Lost. apply Nl. by exists m, w, s1. }
    rewrite E2, bind_Done. eexists _, _. split; [reflexivity|]. eapply (took B s i (c_task c) p po m ql); [done|done|]. apply receipt_wake. by apply (receipt_from B s s1).
Qed.


(** How a receive ends. *)
Definition received_ok B s c i (r : received) s' : Prop :=
  sys B s' /\
  match r with
  | Received rv (Some b) => rv = MACH_MSG_OK /\ exists p po m ql names, w_ports s !! p = Some po /\ p_queue po = m :: ql /\ handed s s' i (c_task c) m b names
  | Received rv None => rv <> MACH_MSG_OK /\ forall n, 0 <= n -> entry_at s' i n = entry_at s i n
  | AsleepPort p => exists po, w_ports s' !! p = Some po /\ p_queue po = [] /\ c_thread c ∈ p_waiters po
  | AsleepSet q => exists st, w_sets s' !! q = Some st /\ c_thread c ∈ ps_waiters st
  end.

Lemma received_taking B s c i p rv out s' : taking B s i (c_task c) p (Some (rv, out)) s' -> received_ok B s c i (Received rv out) s'.
Proof.
  intros T. inversion T as [|po m ql rv' out' s1 Hp Hq (Sy & _ & R)]; subst. split; [done|]. destruct out as [b|]; [|exact R].
  destruct R as [-> (names & H)]. split; [done|]. by exists p, po, m, ql, names.
Qed.

Lemma refused_ok B s c i rv : sys B s -> rv <> MACH_MSG_OK -> received_ok B s c i (Received rv None) s.
Proof. done. Qed.

Lemma recv_port_ok B s c i p po buf_size poll N :
  recv_ready B s i N -> w_ports s !! p = Some po -> p_has_receive po = true -> ~ take_lost s c i p -> c_thread c ∉ p_waiters po ->
  exists r s', recv_port s c i p buf_size poll = Done (r, s') /\ received_ok B s c i r s'.
Proof.
  intros Rd Hp Hr Nl Hw. pose proof (rr_sys _ _ _ _ Rd) as Sy. pose proof (sy_inv _ _ Sy) as I. unfold recv_port. rewrite (get_port_eq _ _ _ Hp), bind_Done.
  destruct (p_dead po); [eexists _, _; split; [reflexivity|by apply refused_ok]|].
  destruct (recv_take_ok B s c i p po buf_size N Rd Hp Nl) as ([[rv out]|] & s1 & E1 & T); rewrite E1, bind_Done; [by eexists _, _; split; [reflexivity|eapply received_taking]|].
  inversion T as [po' Hp' Hq|]; subst. assert (po' = po) as -> by congruence. destruct poll; [eexists _, _; split; [reflexivity|by apply refused_ok]|].
  rewrite KASSERT_true by (by rewrite bool_decide_false). eexists _, _. split; [reflexivity|]. set (po1 := with_waiters po _).
  destruct (put_trivial B ∅ [] s1 ∅ ∅ p po po1 I Hp (not_elem_of_empty p)) as [I1 _]; [by split| |exact (i_pinned _ _ _ _ _ _ I p po Hp)|].
  - apply with_waiters_ok; [exact (i_port _ _ _ _ _ _ I p po Hp)|]. congruence.
  - split; [by apply (sys_same B s1)|]. exists po1. split_and!; [apply lookup_insert_eq|exact Hq|]. cbn. apply elem_of_app. right. by left.
Qed.

(** The members of a set in turn. *)
Lemma recv_members_ok B s c i buf_size N l :
  recv_ready B s i N -> (forall p, p ∈ l -> is_Some (w_ports s !! p)) -> (forall p, ~ take_lost s c i p) ->
  exists o s', recv_members s c i l buf_size = Done (o, s') /\ (o = None /\ s' = s \/ exists p, taking B s i (c_task c) p o s' /\ o <> None).
Proof.
  intros Rd Hl Nl. induction l as [|p l IH]; [exists None, s; split; [done|by left]|]. cbn [recv_members]. destruct (Hl p ltac:(by left)) as [po Hp].
  rewrite (get_port_eq _ _ _ Hp), bind_Done. destruct (p_queue po) as [|m ql] eqn:Eq; [apply IH; intros p' Hp'; apply Hl; by right|].
  destruct (recv_take_ok B s c i p po buf_size N Rd Hp (Nl p)) as (o & s1 & E1 & T). exists o, s1. split; [exact E1|]. right. exists p. split; [done|].
  inversion T as [po' Hp' Hq|]; [|done]. congruence.
Qed.

Lemma recv_set_ok B s c i q st buf_size poll N :
  recv_ready B s i N -> w_sets s !! q = Some st -> (forall p, ~ take_lost s c i p) -> c_thread c ∉ ps_waiters st ->
  exists r s', recv_set s c i q buf_size poll = Done (r, s') /\ received_ok B s c i r s'.
Proof.
  intros Rd Hq Nl Hw. pose proof (rr_sys _ _ _ _ Rd) as Sy. pose proof (sy_inv _ _ Sy) as I. unfold recv_set. rewrite (get_set_eq _ _ _ Hq), bind_Done.
  destruct (ps_dead st); [eexists _, _; split; [reflexivity|by apply refused_ok]|].
  destruct (recv_members_ok B s c i buf_size N (ps_members st) Rd) as (o & s1 & E1 & D); [|done|].
  { intros p Hp. destruct (so_members _ _ _ _ (i_set _ _ _ _ _ _ I q st Hq) p Hp) as (po & H & _). by exists po. }
  rewrite E1, bind_Done. destruct D as [[-> ->]|(p & T & Ho)].
  - destruct poll; [eexists _, _; split; [reflexivity|by apply refused_ok]|]. rewrite KASSERT_true by (by rewrite bool_decide_false).
    eexists _, _. split; [reflexivity|]. split.
    + apply (sys_same B s); [done| |done]. by eapply id_inv, put_set_idle.
    + eexists. split; [apply lookup_insert_eq|]. cbn. apply elem_of_app. right. by left.
  - destruct o as [[rv out]|]; [|done]. eexists _, _. split; [reflexivity|]. by eapply received_taking.
Qed.

(** [mach_msg_recv_timed], to its end or to sleep. *)
Theorem mach_msg_recv_timed_safe B s c i name buf buf_size poll N :
  recv_ready B s i N -> (forall p, ~ take_lost s c i p) -> (forall p po, w_ports s !! p = Some po -> c_thread c ∉ p_waiters po) ->
  (forall q st, w_sets s !! q = Some st -> c_thread c ∉ ps_waiters st) ->
  exists r s', mach_msg_recv_timed s c i name buf buf_size poll = Done (r, s') /\ received_ok B s c i r s'.
Proof.
  intros Rd Nl Hw Hs. unfold mach_msg_recv_timed. pose proof (rr_sys _ _ _ _ Rd) as Sy. destruct (bad_buffer _ _); [eexists _, _; split; [reflexivity|by apply refused_ok]|].
  pose proof (sy_inv _ _ Sy) as I. destruct (ac_space _ _ _ _ (rr_accepts _ _ _ _ Rd)) as (sp & Hi & Sl). pose proof (i_space _ _ _ _ _ _ I i sp Hi) as Ok.
  pose proof (slack_cap N sp Sl ltac:(pose proof (rr_names _ _ _ _ Rd); lia)) as Hc.
  rewrite (space_lookup_set_eq s i sp name Hi Ok Hc), bind_Done. destruct (pe_set (entry_at s i name)) as [q|] eqn:Eq.
  - destruct (found_set B s i sp name q I Hi Eq) as (st & Hq). by apply (recv_set_ok B s c i q st buf_size poll N Rd Hq Nl), (Hs q).
  - rewrite (space_lookup_eq s i sp name _ Hi Ok Hc), bind_Done. destruct (lookup_entry _ _) as [[p e]|] eqn:El; [|eexists _, _; split; [reflexivity|by apply refused_ok]].
    destruct (found_right B s ∅ ∅ i sp name p e _ RRecv I Hi El ltac:(set_solver)) as (_ & po & Hp & Hr).
    by apply (recv_port_ok B s c i p po buf_size poll N Rd Hp (Hr eq_refl) (Nl p)), (Hw p).
Qed.

(** * Waking up *)

Definition unlisted s p (po : port) (th : Z) : world := put_port s p (with_waiters po (unbind_waiter (p_waiters po) th)).

Lemma unlisted_ready B s i N p po th : recv_ready B s i N -> w_ports s !! p = Some po -> recv_ready B (unlisted s p po th) i N.
Proof.
  intros [Sy [R1 R2 R3] HN] Hp. pose proof (sy_inv _ _ Sy) as I. unfold unlisted. set (po1 := with_waiters po _).
  destruct (put_trivial B ∅ [] s ∅ ∅ p po po1 I Hp (not_elem_of_empty p)) as [I1 L1]; [by split| |exact (i_pinned _ _ _ _ _ _ I p po Hp)|].
  - apply with_waiters_ok; [exact (i_port _ _ _ _ _ _ I p po Hp)|]. intros Hr. by destruct (po_norecv _ (i_port _ _ _ _ _ _ I p po Hp) Hr) as [-> _].
  - split; [by apply (sys_same B s)| |done]. split; [|exact R2|by rewrite L1]. intros p' po'. cbn. destruct (decide (p' = p)) as [->|Hn].
    + rewrite lookup_insert_eq. intros [= <-]. exact (R1 p po Hp).
    + rewrite lookup_insert_ne by done. apply R1.
Qed.

Lemma received_from B s s1 c i r s' :
  w_spaces s1 = w_spaces s -> (forall p po1, w_ports s1 !! p = Some po1 -> exists po, w_ports s !! p = Some po /\ p_queue po = p_queue po1) ->
  received_ok B s1 c i r s' -> received_ok B s c i r s'.
Proof.
  intros Es Ep [Sy R]. split; [done|]. assert (forall n, entry_at s1 i n = entry_at s i n) as Ee by (intros n; unfold entry_at; by rewrite Es).
  destruct r as [rv [b|]| |]; [|destruct R as [Hrv En]; split; [done|]; intros n Hn; rewrite <- Ee; by apply En|done|done].
  destruct R as (-> & p & po1 & m & ql & names & Hp1 & Hq1 & [H1 H2 H3 H4 H5]). split; [done|]. destruct (Ep p po1 Hp1) as (po & Hp & Hq).
  exists p, po, m, ql, names. split_and!; [done|congruence|]. split; try done; intros n; [rewrite <- Ee; apply H4|rewrite <- Ee; apply H5].
Qed.

(** A receiver that slept on a port still there: off its list, then the right
    has moved, time is up, or round again. *)
Theorem recv_port_resume_safe B s c i name p po buf_size timed_out N :
  recv_ready B s i N -> w_ports s !! p = Some po -> NoDup (p_waiters po) -> ~ take_lost (unlisted s p po (c_thread c)) c i p ->
  exists r s', recv_port_resume s c i name p buf_size timed_out = Done (r, s') /\ received_ok B s c i r s'.
Proof.
  intros Rd Hp Nd Nl. pose proof (unlisted_ready B s i N p po (c_thread c) Rd Hp) as Rd1. pose proof (sy_inv _ _ (rr_sys _ _ _ _ Rd)) as I.
  destruct (ac_space _ _ _ _ (rr_accepts _ _ _ _ Rd)) as (sp & Hi & Sl). pose proof (slack_cap N sp Sl ltac:(pose proof (rr_names _ _ _ _ Rd); lia)) as Hc.
  unfold recv_port_resume. rewrite (space_lookup_eq s i sp name _ Hi (i_space _ _ _ _ _ _ I i sp Hi) Hc), bind_Done, (get_port_eq _ _ _ Hp), bind_Done.
  cbv zeta. fold (unlisted s p po (c_thread c)). set (s1 := unlisted s p po (c_thread c)) in *. set (po1 := with_waiters po (unbind_waiter (p_waiters po) (c_thread c))).
  assert (w_ports s1 !! p = Some po1) as Hp1 by apply lookup_insert_eq. assert (c_thread c ∉ p_waiters po1) as Hw by (by apply unbind_gone).
  assert (forall r s', received_ok B s1 c i r s' -> received_ok B s c i r s') as Back.
  { intros r s'. apply received_from; [done|]. intros q qo. cbn. destruct (decide (q = p)) as [->|Hn]; [rewrite lookup_insert_eq; intros [= <-]; by exists po|].
    rewrite lookup_insert_ne by done. by exists qo. }
  destruct (negb _ && negb (p_dead po)) eqn:Em.
  { eexists _, _. split; [reflexivity|]. apply Back. by apply refused_ok; [apply Rd1|]. }
  destruct timed_out.
  - destruct (recv_take_ok B s1 c i p po1 buf_size N Rd1 Hp1 Nl) as ([[rv out]|] & s2 & E2 & T); rewrite E2, bind_Done; eexists _, _; (split; [reflexivity|]); apply Back; [by eapply received_taking|].
    inversion T; subst. by apply refused_ok; [apply Rd1|].
  - destruct (p_dead po) eqn:Ed.
    { unfold recv_port. rewrite (get_port_eq _ _ _ Hp1), bind_Done. replace (p_dead po1) with true by done. eexists _, _. split; [reflexivity|]. apply Back. by apply refused_ok; [apply Rd1|]. }
    destruct (lookup_entry (entry_at s i name) MACH_PORT_RIGHT_RECEIVE) as [[p' e]|] eqn:El; [|done].
    destruct (decide (p' = p)) as [->|Hn]; [|cbn in Em; rewrite bool_decide_false in Em by congruence; done].
    destruct (found_right B s ∅ ∅ i sp name p e _ RRecv I Hi El ltac:(set_solver)) as (_ & po' & Hp' & Hr). assert (po' = po) as -> by congruence.
    destruct (recv_port_ok B s1 c i p po1 buf_size false N Rd1 Hp1 (Hr eq_refl) Nl Hw) as (r & s' & E' & R). exists r, s'. split; [exact E'|by apply Back].
Qed.

Definition unlisted_set s q (st : port_set) (th : Z) : world :=
  put_set s q (mkPset (ps_refs st) (ps_dead st) (ps_member_count st) (ps_members st) (unbind_waiter (ps_waiters st) th)).

(** The same for a set. *)
Theorem recv_set_resume_safe B s c i q st buf_size timed_out N :
  recv_ready B s i N -> w_sets s !! q = Some st -> NoDup (ps_waiters st) -> (forall p, ~ take_lost (unlisted_set s q st (c_thread c)) c i p) ->
  exists r s', recv_set_resume s c i q buf_size timed_out = Done (r, s') /\ received_ok B s c i r s'.
Proof.
  intros [Sy [R1 R2 R3] HN] Hq Nd Nl. unfold recv_set_resume. rewrite (get_set_eq _ _ _ Hq), bind_Done. cbv zeta. fold (unlisted_set s q st (c_thread c)).
  set (s1 := unlisted_set s q st (c_thread c)) in *. assert (sys B s1) as Sy1.
  { apply (sys_same B s); [done| |done]. by eapply id_inv, put_set_idle; [apply (sy_inv _ _ Sy)|..]. }
  assert (recv_ready B s1 i N) as Rd1 by (split; [done|split; [exact R1|exact R2|exact R3]|done]).
  assert (forall r s', received_ok B s1 c i r s' -> received_ok B s c i r s') as Back by (intros r s'; apply received_from; [done|]; intros p po Hp; by exists po).
  destruct timed_out; [eexists _, _; split; [reflexivity|]; apply Back; by apply refused_ok|].
  destruct (recv_set_ok B s1 c i q _ buf_size false N Rd1 (lookup_insert_eq _ _ _) Nl) as (r & s' & E' & R); [by apply unbind_gone|].
  exists r, s'. split; [exact E'|by apply Back].
Qed.

(** * Exceptions *)

(** A fault becomes a message on the task's exception port. *)
Theorem port_exception_post_safe B s p po e reply :
  sys B s -> room 1 s -> w_ports s !! p = Some po -> (forall q, reply = Some q -> is_Some (w_ports s !! q)) ->
  exists rv s', port_exception_post s (Some p) e reply = Done (rv, s') /\ sys B s'.
Proof.
  intros Sy Rm Hp Hq. unfold port_exception_post, w_kmalloc. destruct (kmalloc_ok (w_heap s)) as [ok h]. set (s0 := upd_heap s h).
  assert (sys B s0) as Sy0 by (by apply (sys_same B s); [|apply (same_inv _ _ _ s), Sy|]). destruct ok; cbn [negb]; [|by exists MACH_E_NOMEM, s0]. destruct reply as [q|].
  2:{ destruct (msg_enqueue_ok B ∅ [] s0 ∅ ∅ p po (mkMsg [] (exception_buf 0 e)) false) as (rv & w & s1 & po1 & E1 & Q1 & D1 & _);
        [exact (sy_inv _ _ Sy0)|done|apply not_elem_of_empty|apply exception_msg_ok|done|]. rewrite E1, bind_Done. exists rv, (wake_opt s1 w). split; [done|].
      apply (sys_same B s0); [done| |exact (qt_spaces _ _ _ Q1)]. by destruct D1; apply (same_inv _ _ _ s1). }
  destruct (kmalloc_ok (w_heap s0)) as [ok2 h2]. set (s1 := upd_heap s0 h2).
  assert (sys B s1) as Sy1 by (by apply (sys_same B s0); [|apply (same_inv _ _ _ s0), Sy0|]). destruct ok2; cbn [negb]; [|by exists MACH_E_NOMEM, s1].
  destruct (Hq q eq_refl) as [qo Hqo]. pose proof (sy_inv _ _ Sy1) as I1.
  rewrite (port_ref_eq s1 q MACH_PORT_RIGHT_SEND qo) by (done || (apply (counted _ _ _ _ _ _ q qo I1 Hqo); pose proof (ro_refs _ _ Rm q qo Hqo); lia)). rewrite bind_Done.
  pose proof (ref_inv B ∅ [] s1 ∅ ∅ q qo MACH_PORT_RIGHT_SEND I1 Hqo (not_elem_of_empty q) ltac:(done)) as I2. set (s2 := put_port s1 q _) in *.
  assert (exists po2, w_ports s2 !! p = Some po2) as [po2 Hp2].
  { cbn. destruct (decide (p = q)) as [->|Hn]; [rewrite lookup_insert_eq; by eexists|rewrite lookup_insert_ne by done; by exists po]. }
  destruct (msg_enqueue_ok B ∅ [] s2 ∅ ∅ p po2 (mkMsg [carries q MACH_PORT_RIGHT_SEND] (exception_buf MACH_MSG_TYPE_MAKE_SEND e)) false) as (rv & w & s3 & po3 & E3 & Q3 & D3 & _);
    [|done|apply not_elem_of_empty|apply exception_reply_ok|done|].
  { unfold msg_rights, msg_frames. cbn [m_descs]. rewrite gather_carries, frames_carries. rewrite <- gmultiset_disj_union_assoc. exact I2. }
  rewrite E3, bind_Done. assert (w_spaces s3 = w_spaces s1) as Es by (by rewrite (qt_spaces _ _ _ Q3)).
  destruct D3 as [w I3 L3|rv Hrv I3 L3].
  - cbn [Z.eqb MACH_MSG_OK negb]. exists MACH_MSG_OK, (wake_opt s3 w). split; [done|]. apply (sys_same B s1); [done|by apply (same_inv _ _ _ s3)|done].
  - replace (rv =? MACH_MSG_OK) with false by lia. cbn [negb].
    destruct (free_descs_ok B s3 ∅ ∅ [carries q MACH_PORT_RIGHT_SEND] I3) as (s4 & E4 & I4 & Q4 & _).
    + constructor; [by apply carried_ok, carried_port; right; left|constructor].
    + assert (w_depth s3 = w_depth s) as -> by exact (qt_depth _ _ _ Q3). pose proof (ro_depth _ _ Rm) as Rd.
      pose proof (load_put ∅ s1 q qo (reffed qo MACH_PORT_RIGHT_SEND) Hqo (not_elem_of_empty q)) as Lp. fold s2 in Lp. change (load ∅ s1) with (load ∅ s) in Lp.
      change (port_rights (reffed qo MACH_PORT_RIGHT_SEND)) with (port_rights qo) in Lp. rewrite gather_carries, gmultiset_size_disj_union, (size_one_right q) by (by right; left).
      change (size (gather desc_rights [])) with 0%nat. lia.
    + rewrite E4, bind_Done. exists rv, s4. split; [done|]. apply (sys_same B s1); [done|done|]. by rewrite (qt_spaces _ _ _ Q4).
Qed.

End recv.
