(* ===== verification/PortSystem.v ===== *)
(** The Mach layer as a state machine: system calls of any tasks, in any
    order, with senders that sleep and wake between them.  Every reachable
    state has its rights in order, and a call faults only over memory that a
    message says it carries. *)

From stdpp Require Import base list gmap gmultiset strings numbers option.
From Stdlib Require Import ZArith Lia ZifyBool.
From S2P Require Import Prelude Owners VmMap Ports PortMsg PortBytes PortInv PortDeref PortSpace PortSets PortCalls PortNotify PortXlate PortSlot PortSend PortSendMsg PortRecv.

(** * Calls *)

Inductive call :=
| CAllocate (i rights : Z)
| CDeallocate (i name : Z)
| CModRefs (i name right : Z)
| CType (i name : Z)
| CSetAllocate (i : Z)
| CSetInsert (i set_name port_name : Z)
| CSetRemove (i set_name port_name : Z)
| CRequest (i name notify_type notify_name tag : Z)
| CInject (src name dst : Z)
| CSend (c : caller) (from : Z) (u1 u2 : nat -> Z) (expired : bool) (stale : Z)
| CResume (c : caller) (live expired : bool)
| CRecv (c : caller) (to name buf buf_size : Z) (poll : bool)
| CException (port : Z) (e : exc_regs) (reply : option Z)
| CNewSpace
| CDestroySpace (i : Z).

Section system.
Context {V : Type} `{PS : PayloadSpec V}.
Abbreviation world := (world (V := V)).
Implicit Types (s : world) (p q : Z) (k : right) (B X : rights) (Y : goods).
Variable dispatch : world -> caller -> Z -> Z -> list Z -> Z -> res (Z * world).

(** The kernel, and its threads asleep in [mach_msg_send]. *)
Definition state : Type := world * gmap Z send_job.

Definition keep {A} (jobs : gmap Z send_job) (m : res (A * world)) : res state := r ← m; Done (r.2 : world, jobs).

(** A send that ends, or whose thread sleeps. *)
Definition settle (th : Z) (jobs : gmap Z send_job) (r : sent * world) : state :=
  match r.1 with Sent _ _ => (r.2, delete th jobs) | Asleep j => (r.2, <[th := j]> jobs) end.

Definition run (x : call) (st : state) : res state :=
  let '(s, jobs) := st in
  match x with
  | CAllocate i r => keep jobs (port_allocate s i r)
  | CDeallocate i name => keep jobs (port_deallocate s i name)
  | CModRefs i name r => keep jobs (port_mod_refs s i name r)
  | CType i name => keep jobs (mach_port_type s i name)
  | CSetAllocate i => keep jobs (port_set_allocate s i)
  | CSetInsert i sn pn => keep jobs (port_set_insert s i sn pn)
  | CSetRemove i sn pn => keep jobs (port_set_remove s i sn pn)
  | CRequest i name t nn tag => keep jobs (port_request_notification s i name t nn tag)
  | CInject src name dst => keep jobs (port_space_inject_send s src name dst)
  | CSend c from u1 u2 expired stale =>
      r ← mach_msg_send_timed dispatch s c from (Some (u1, u2)) expired stale; Done (settle (c_thread c) jobs r)
  | CResume c live expired =>
      match jobs !! c_thread c with
      | None => Done st
      | Some j => r ← send_resume s c j live expired; Done (settle (c_thread c) jobs r)
      end
  | CRecv c to name buf buf_size poll => keep jobs (mach_msg_recv_timed s c to name buf buf_size poll)
  | CException p e reply => keep jobs (port_exception_post s (Some p) e reply)
  | CNewSpace => Done ((port_space_new s).2, jobs)
  | CDestroySpace i => s ← port_space_destroy s i; Done (s : world, jobs)
  end.

(** * The invariant *)

(** What the kernel holds, and what the sleepers hold. *)
Definition base B0 (jobs : gmap Z send_job) : rights := gather_map job_rights jobs ⊎ B0.

Record system B0 (st : state) : Prop := {
  ss_sys : sys (base B0 st.2) st.1;
  ss_jobs th j : st.2 !! th = Some j -> exists bits, job_ok j bits;
}.

(** The kernel's own rights are rights. *)
Definition plain B0 : Prop := forall p k, (p, k) ∈ B0 -> real k \/ k = RSet.

(** Counters, tables and the stack far from their limits. *)
Record ample s : Prop := {
  am_refs p po : w_ports s !! p = Some po -> p_refs po + 1400 < 2 ^ 32 - 3;
  am_setrefs q st : w_sets s !! q = Some st -> ps_refs st < 2 ^ 32 - 1;
  am_cap i sp : w_spaces s !! i = Some sp -> ps_capacity sp <= 2 ^ 29;
  am_depth : (2 * (load ∅ s + 1303) + 1 < w_depth s)%nat;
}.

(** The port a name gives a right to. *)
Definition names_port s i name (e : Z) p : Prop := entry_at s i name = mkPe (Some p) None e false.

Definition space_lives s i : Prop := is_Some (w_spaces s !! i).

(** What the caller has to see to. *)
Definition proper B0 (x : call) (st : state) : Prop :=
  let '(s, jobs) := st in
  match x with
  | CAllocate i r => space_lives s i /\ mask_ok r
  | CDeallocate i name => space_lives s i /\ 0 <= name /\ forall p e, names_port s i name e p -> losable (base B0 jobs) s p e
  | CModRefs i name r => space_lives s i /\ 0 <= name /\ exists p e, names_port s i name e p /\ 0 < r /\ Z.land r e = r /\ losable (base B0 jobs) s p r
  | CType i name => space_lives s i /\ 0 <= name
  | CSetAllocate i | CSetInsert i _ _ | CSetRemove i _ _ | CRequest i _ _ _ _ => space_lives s i
  | CInject src _ dst => space_lives s src /\ space_lives s dst
  | CSend c from u1 u2 _ _ =>
      space_lives s from /\ jobs !! c_thread c = None /\ special_kept (base B0 jobs) s /\ (forall i, (i < 24)%nat -> u1 i = u2 i)
  | CResume c _ _ => forall j, jobs !! c_thread c = Some j -> space_lives s (sj_from j)
  | CRecv c to _ _ _ _ =>
      space_lives s to /\ (forall p, ~ take_lost s c to p) /\ (forall p po, w_ports s !! p = Some po -> c_thread c ∉ p_waiters po) /\
      (forall q st, w_sets s !! q = Some st -> c_thread c ∉ ps_waiters st)
  | CException p _ reply => is_Some (w_ports s !! p) /\ forall q, reply = Some q -> is_Some (w_ports s !! q)
  | CNewSpace => True
  | CDestroySpace i => exists sp, w_spaces s !! i = Some sp /\ forsaken s sp
  end.

(** The message says that it carries memory. *)
Definition with_memory (x : call) (st : state) : Prop :=
  match x with
  | CSend _ _ _ u2 _ _ => msg_ool u2
  | CResume c _ _ => exists j, st.2 !! c_thread c = Some j /\ job_ool j
  | _ => False
  end.

Lemma occupied_cap sp : occupied (ps_table sp) <= ps_capacity sp.
Proof. unfold occupied, ps_capacity. pose proof (length_filter (fun e => slot_free e = false) (ps_table sp)). lia. Qed.

Lemma ample_roomy s : ample s -> roomy s.
Proof.
  intros [A1 A2 A3 A4]. split; [intros p po Hp; specialize (A1 p po Hp); lia|exact A2|intros i sp Hi; specialize (A3 i sp Hi); lia|unfold deep; lia].
Qed.
Lemma ample_room s : ample s -> room 1300 s.
Proof. intros [A1 A2 A3 A4]. split; [intros p po Hp; specialize (A1 p po Hp); lia|intros i sp Hi; specialize (A3 i sp Hi); lia|lia]. Qed.
Lemma ample_accepts s i : ample s -> space_lives s i -> accepts i (2 ^ 29) 1100 s.
Proof.
  intros [A1 A2 A3 A4] [sp Hi]. split; [intros p po Hp; specialize (A1 p po Hp); lia| |lia]. exists sp. split; [done|].
  specialize (A3 i sp Hi). pose proof (occupied_cap sp). split; lia.
Qed.

(** * Sleepers *)

Lemma in_jobs (jobs : gmap Z send_job) x : x ∈ gather_map job_rights jobs -> exists th j, jobs !! th = Some j /\ x ∈ job_rights th j.
Proof.
  induction jobs as [|th j m Hm IH] using map_ind; [rewrite gather_map_empty; by intros H%gmultiset_not_elem_of_empty|].
  rewrite gather_map_insert, delete_id by done. intros [H|H]%gmultiset_elem_of_disj_union; [exists th, j; by rewrite lookup_insert_eq|].
  destruct (IH H) as (th' & j' & H1 & H2). exists th', j'. rewrite lookup_insert_ne by congruence. done.
Qed.

Lemma job_tokens th j p k : kind_ok (sj_kind j) -> (p, k) ∈ job_rights th j -> ~ real k -> p = sj_dest j /\ k = RWait th.
Proof.
  intros Hk [H|H]%gmultiset_elem_of_disj_union Nr; [apply gmultiset_elem_of_singleton in H; by injection H as -> ->|].
  apply num_pos in H. rewrite num_pin in H by auto. lia.
Qed.

Lemma base_wait B0 jobs p th : plain B0 -> (forall t j, jobs !! t = Some j -> kind_ok (sj_kind j)) -> (p, RWait th) ∈ base B0 jobs ->
  exists j, jobs !! th = Some j /\ sj_dest j = p.
Proof.
  intros Pl Ks [H|H]%gmultiset_elem_of_disj_union; [|by destruct (Pl _ _ H)]. destruct (in_jobs _ _ H) as (t & j & Hj & Hx).
  destruct (job_tokens t j p (RWait th) (Ks t j Hj) Hx) as [-> [= ->]]; [by intros []|]. by exists j.
Qed.

Lemma base_slots B0 jobs p : plain B0 -> (forall t j, jobs !! t = Some j -> kind_ok (sj_kind j)) -> num p RSlot (base B0 jobs) = 0.
Proof.
  intros Pl Ks. destruct (decide ((p, RSlot) ∈ base B0 jobs)) as [H|H]; [|rewrite num_pos in H; pose proof (num_nonneg p RSlot (base B0 jobs)); lia].
  exfalso. apply gmultiset_elem_of_disj_union in H as [H|H]; [|by destruct (Pl _ _ H)]. destruct (in_jobs _ _ H) as (t & j & Hj & Hx).
  by destruct (job_tokens t j p RSlot (Ks t j Hj) Hx ltac:(by intros [])) as [_ ?].
Qed.

Lemma pins_nonneg p (M : rights) : 0 <= pins p M.
Proof. unfold pins. pose proof (num_nonneg p RSend M). pose proof (num_nonneg p ROnce M). pose proof (num_nonneg p RRecv M). pose proof (num_nonneg p RHold M). lia. Qed.

(** Each sleeper pins what it waits for. *)
Lemma sleepers_pin p l : forall jobs : gmap Z send_job, NoDup l -> (forall th, th ∈ l -> exists j, jobs !! th = Some j /\ sj_dest j = p /\ kind_ok (sj_kind j)) ->
  Z.of_nat (length l) <= pins p (gather_map job_rights jobs).
Proof.
  induction l as [|th l IH]; intros jobs Nd H; [apply pins_nonneg|]. apply list.NoDup_cons in Nd as [Nn Nd]. destruct (H th ltac:(by left)) as (j & Hj & <- & Hk).
  rewrite (gather_map_delete job_rights jobs th j Hj), pins_union. unfold job_rights at 1. rewrite pins_union, pins_pin by done.
  pose proof (pins_nonneg (sj_dest j) {[+ (sj_dest j, RWait th) +]}). specialize (IH (delete th jobs) Nd). cbn [length].
  assert (Z.of_nat (length l) <= pins (sj_dest j) (gather_map job_rights (delete th jobs))); [|lia]. apply IH.
  intros t Ht. destruct (H t ltac:(by right)) as (j' & Hj' & Hd' & Hk'). exists j'. rewrite lookup_delete_ne by (intros ->; done). done.
Qed.

Lemma unbind_keeps l th x : x ∈ unbind_waiter l th -> x ∈ l.
Proof. intros H. eapply elem_of_sublist; [exact H|apply unbind_sublist]. Qed.

(** Without the sleeper that wakes, the others are backed. *)
Lemma others_backed B0 jobs s th p po :
  plain B0 -> (forall t j, jobs !! t = Some j -> kind_ok (sj_kind j)) -> inv (base B0 jobs) ∅ [] s ∅ ∅ -> w_ports s !! p = Some po ->
  backed (base B0 (delete th jobs)) p (p_qresv po) (unbind_waiter (p_send_waiters po) th).
Proof.
  intros Pl Ks I Hp. destruct (i_pinned _ _ _ _ _ _ I p po Hp) as [_ K2 K3 K4]. rewrite base_slots in K2 by done.
  pose proof (po_qresv _ (i_port _ _ _ _ _ _ I p po Hp)) as Q0. assert (p_qresv po = 0) as -> by lia.
  assert (NoDup (unbind_waiter (p_send_waiters po) th)) as Nd by (eapply sublist_NoDup; [done|apply unbind_sublist]).
  assert (forall t, t ∈ unbind_waiter (p_send_waiters po) th -> exists j, delete th jobs !! t = Some j /\ sj_dest j = p /\ kind_ok (sj_kind j)) as Js.
  { intros t Ht. destruct (base_wait B0 jobs p t Pl Ks (K4 t (unbind_keeps _ _ _ Ht))) as (j & Hj & Hd). exists j.
    rewrite lookup_delete_ne by (intros <-; by apply (unbind_gone _ _ K3) in Ht). split_and!; [done|done|by apply (Ks t)]. }
  split; [| |done|].
  - unfold base. rewrite pins_union. pose proof (sleepers_pin p _ _ Nd Js). pose proof (pins_nonneg p B0). lia.
  - apply num_nonneg.
  - intros t Ht. destruct (Js t Ht) as (j & Hj & <- & _). apply gmultiset_elem_of_disj_union. left.
    eapply gmultiset_elem_of_subseteq; [|apply (gather_map_elem job_rights _ t j Hj)]. apply gmultiset_elem_of_disj_union. left. by apply gmultiset_elem_of_singleton.
Qed.

(** * Every call keeps the system *)

Lemma keep_ok {A} B0 s jobs (m : res (A * world)) :
  system B0 (s, jobs) -> (exists a s', m = Done (a, s') /\ sys (base B0 jobs) s') -> safe False (keep jobs m) (system B0).
Proof. intros [_ J] (a & s' & -> & Sy). by split. Qed.

Lemma base_asleep B0 jobs th j : base B0 (<[th := j]> jobs) = job_rights th j ⊎ base B0 (delete th jobs).
Proof. unfold base. rewrite gather_map_insert. by rewrite <- gmultiset_disj_union_assoc. Qed.

Lemma settle_ok B0 jobs from th r :
  (forall t j, jobs !! t = Some j -> exists bits, job_ok j bits) -> sent_ok (base B0 (delete th jobs)) from th r -> system B0 (settle th jobs r).
Proof.
  intros J. unfold sent_ok, settle. destruct r as [[rv o|j] s']; cbn [fst snd].
  - intros Sy. split; [exact Sy|]. intros t j. cbn. intros H. apply (J t). apply lookup_delete_Some in H. by destruct H.
  - intros (Jo & _ & Sy). split; cbn [fst snd]; [by rewrite base_asleep|]. intros t j'. destruct (decide (t = th)) as [->|Hn].
    + rewrite lookup_insert_eq. by intros [= <-].
    + rewrite lookup_insert_ne by done. apply J.
Qed.

Lemma kinds_ok B0 st : system B0 st -> forall t j, st.2 !! t = Some j -> kind_ok (sj_kind j).
Proof. intros [_ J] t j Hj. destruct (J t j Hj) as [bits Jo]. exact (jo_kind _ _ Jo). Qed.

Lemma run_send_safe B0 s jobs c from u1 u2 expired stale :
  plain B0 -> (forall B, dispatch_safe dispatch False B) -> system B0 (s, jobs) -> ample s -> proper B0 (CSend c from u1 u2 expired stale) (s, jobs) ->
  safe (msg_ool u2) (run (CSend c from u1 u2 expired stale) (s, jobs)) (system B0).
Proof.
  intros Pl Ds Sm Am (Li & Nj & Sk & Hu). pose proof (kinds_ok B0 _ Sm) as Ks. destruct Sm as [Sy J]. cbn [fst snd run] in *.
  eapply safe_bind; [eapply safe_weaken; [apply (mach_msg_send_timed_safe dispatch False (base B0 jobs) s c from u1 u2 expired stale (Ds _))|by intros [[]|?]|exact (fun _ H => H)]|].
  - split; [done|by apply ample_room|done|done|]. intros p po Hp Hin. pose proof (bk_waiting _ _ _ _ (i_pinned _ _ _ _ _ _ (sy_inv _ _ Sy) p po Hp) _ Hin) as W.
    destruct (base_wait B0 jobs p _ Pl Ks W) as (j & Hj & _). congruence.
  - done.
  - intros r Hr. apply (settle_ok B0 jobs from); [exact J|]. by rewrite delete_id.
Qed.

Lemma run_resume_safe B0 s jobs c live expired :
  plain B0 -> system B0 (s, jobs) -> ample s -> proper B0 (CResume c live expired) (s, jobs) ->
  safe (exists j, jobs !! c_thread c = Some j /\ job_ool j) (run (CResume c live expired) (s, jobs)) (system B0).
Proof.
  intros Pl Sm Am Li. pose proof (kinds_ok B0 _ Sm) as Ks. pose proof Sm as [Sy J]. cbn [fst snd run proper] in *. destruct (jobs !! c_thread c) as [j|] eqn:Ej; [|exact Sm].
  destruct (J _ j Ej) as [bits Jo]. assert (base B0 jobs = job_rights (c_thread c) j ⊎ base B0 (delete (c_thread c) jobs)) as Eb.
  { rewrite <- base_asleep. by rewrite insert_id. }
  eapply safe_bind; [eapply safe_weaken; [apply (send_resume_safe (base B0 (delete (c_thread c) jobs)) s c j bits live expired)| |exact (fun _ H => H)]|].
  - by rewrite <- Eb.
  - eapply room_less; [by apply ample_room|lia].
  - by apply Li.
  - exact Jo.
  - intros po Hp. apply others_backed with (s := s); [done|done|exact (sy_inv _ _ Sy)|done].
  - intros H. by exists j.
  - intros r Hr. by apply (settle_ok B0 jobs (sj_from j)).
Qed.

(** One call of a system in order: it ends and the system is in order again,
    unless a message says that it carries memory and the copy of it faults. *)
Theorem run_safe B0 x st :
  plain B0 -> (forall B, dispatch_safe dispatch False B) -> system B0 st -> ample st.1 -> proper B0 x st -> safe (with_memory x st) (run x st) (system B0).
Proof.
  intros Pl Ds Sm Am Pr. destruct st as [s jobs]. pose proof (ss_sys _ _ Sm) as Sy. cbn [fst snd] in *. pose proof (ample_roomy s Am) as Rm.
  destruct x; try exact (run_send_safe B0 s jobs c from u1 u2 expired stale Pl Ds Sm Am Pr); try exact (run_resume_safe B0 s jobs c live expired Pl Sm Am Pr);
    cbn [run proper with_memory] in *; try (apply keep_ok with (s := s); [done|]).
  - destruct Pr as [[sp Hi] Hm]. destruct (port_allocate_ok _ s i sp rights Sy Rm Hi Hm) as (n & s' & E & Sy' & _). by exists n, s'.
  - destruct Pr as ([sp Hi] & Hn & Ls). destruct (space_drop_ok _ s i sp name Sy Rm Hi Hn) as (rv & s' & E & Sy' & _); [|by exists rv, s'].
    intros p Hp. apply Ls. unfold names_port. destruct (eo_port _ (entry_at_ok s i sp name Hi (i_space _ _ _ _ _ _ (sy_inv _ _ Sy) i sp Hi)) p Hp) as (D1 & D2 & _).
    destruct (entry_at s i name); cbn in *. by subst.
  - destruct Pr as ([sp Hi] & Hn & p & e & He & Hr & Hl & Ls). destruct (space_drop_one_right_ok _ s i sp name p e right Sy Rm Hi Hn He Hr Hl Ls) as (s' & E & Sy' & _). by eexists _, s'.
  - destruct Pr as ([sp Hi] & Hn). destruct (mach_port_type_ok _ s i sp name Sy Rm Hi Hn) as (t & s' & E & Sy' & _). by exists t, s'.
  - destruct Pr as [sp Hi]. destruct (port_set_allocate_ok _ s i sp Sy Rm Hi) as (n & s' & E & Sy' & _). by exists n, s'.
  - destruct Pr as [sp Hi]. destruct (port_set_insert_ok _ s i sp set_name port_name Sy Rm Hi) as (n & s' & E & Sy' & _). by exists n, s'.
  - destruct Pr as [sp Hi]. destruct (port_set_remove_ok _ s i sp set_name port_name Sy Rm Hi) as (n & s' & E & Sy' & _). by exists n, s'.
  - destruct Pr as [sp Hi]. destruct (port_request_notification_ok _ s i sp name notify_type notify_name tag Sy Rm Hi) as (n & s' & E & Sy' & _). by exists n, s'.
  - destruct Pr as [[sp Hi] [dp Hd]]. destruct (port_space_inject_send_ok _ s src sp dst dp name Sy Rm Hi Hd) as (rv & n & s' & E & Sy' & _). by exists (rv, n), s'.
  - destruct Pr as (Li & Nl & Hw & Hs). destruct (mach_msg_recv_timed_safe (base B0 jobs) s c to name buf buf_size poll (2 ^ 29)) as (r & s' & E & Sy' & _); [|done|done|done|by exists r, s'].
    split; [done|by apply ample_accepts|lia].
  - destruct Pr as [[po Hp] Hq]. destruct (port_exception_post_safe (base B0 jobs) s port po e reply Sy) as (rv & s' & E & Sy'); [|done|done|by exists rv, s'].
    eapply room_less; [by apply ample_room|lia].
  - destruct (port_space_new_ok _ s Sy) as (o & s' & E & Sy' & _). rewrite E. split; [exact Sy'|exact (ss_jobs _ _ Sm)].
  - destruct Pr as (sp & Hi & Fs). destruct (port_space_destroy_ok _ s i sp Sy Rm Hi Fs) as (s' & E & Sy' & _). rewrite E, bind_Done. split; [exact Sy'|exact (ss_jobs _ _ Sm)].
Qed.

(** * Runs *)

Inductive reaches B0 (st0 : state) : state -> Prop :=
| reaches_start : reaches B0 st0 st0
| reaches_call x st st' : reaches B0 st0 st -> ample st.1 -> proper B0 x st -> run x st = Done st' -> reaches B0 st0 st'.


(** * The beginning *)

Lemma empty_inv h v depth : pl_inv v (∅ : goods) -> inv ∅ ∅ [] (mkWorld ∅ ∅ ∅ 1 1 h [] v depth : world) ∅ ∅.
Proof.
  intros Iv. assert (owners ∅ ∅ (mkWorld ∅ ∅ ∅ 1 1 h [] v depth : world) ∅ = ∅) as Ow.
  { unfold owners, in_transit, stored, tables. cbn [w_ports w_spaces]. rewrite !gather_map_empty. mult_at x. }
  split; rewrite ?Ow; cbn [w_ports w_sets w_spaces w_next_port_id w_next_space_id w_vm]; try (intros *; rewrite lookup_empty; intros; done).
  all: try (intros * H; by first [apply gmultiset_not_elem_of_empty in H|apply not_elem_of_empty in H|apply not_elem_of_nil in H]).
  - intros p. rewrite !lookup_empty. by intros [[? ?]|[? ?]].
  - unfold stored. rewrite gather_map_empty. by rewrite gmultiset_disj_union_left_id.
Qed.

Lemma init_system h v depth i s :
  pl_inv v (∅ : goods) -> port_subsystem_init h v depth = Done (i, s) -> system ∅ (s, ∅).
Proof.
  intros Iv E. unfold port_subsystem_init in E. set (s0 := mkWorld _ _ _ _ _ _ _ _ _) in E.
  assert (sys ∅ s0) as Sy0 by (split; [by apply empty_inv|intros j sp; cbn; by rewrite lookup_empty]).
  destruct (port_space_new_ok ∅ s0 Sy0) as (o & s' & En & Sy' & _). rewrite En in E. destruct o as [j|]; [|done]. injection E as -> ->.
  split; cbn [fst snd].
  - assert (base ∅ ∅ = (∅ : rights)) as -> by (unfold base; rewrite gather_map_empty; mult_at x). done.
  - intros th j'. by rewrite lookup_empty.
Qed.

End system.
