(* ===== verification/PortRound.v ===== *)
(** A message there and back: what [mach_msg_send_timed] puts on a queue is
    what [mach_msg_recv] hands out. *)

From stdpp Require Import base list gmap gmultiset strings numbers option.
From Stdlib Require Import ZArith Lia ZifyBool.
From S2P Require Import Prelude Owners VmMap Ports PortMsg PortBytes PortInv PortDeref PortSpace PortCalls PortXlate PortSend PortSendMsg PortRecv.

(** A message without rights, for a name to be copied. *)
Record simple_msg (u : nat -> Z) (n remote : Z) : Prop := {
  sm_valid : msg_validate (fetch u 24) = Done MACH_MSG_OK;
  sm_size : msgh_size (fetch u 24) = Done n;
  sm_bits : msgh_bits (fetch u 24) = Done MACH_MSG_TYPE_COPY_SEND;
  sm_remote : msgh_remote (fetch u 24) = Done remote;
}.

(** The message [b] as it is handed out: the fields [msgh_bits] and
    [msgh_local] are the kernel's. *)
Record arrived (b b' : list Z) : Prop := {
  ar_length : length b' = length b;
  ar_bits : msgh_bits b' = Done MACH_MSG_TYPE_COPY_SEND;
  ar_local : msgh_local b' = Done MACH_PORT_NULL;
  ar_bytes j : (4 <= j < 12)%nat \/ (16 <= j)%nat -> b' !! j = b !! j;
}.

Section round.
Context {V : Type} `{PS : PayloadSpec V}.
Abbreviation world := (world (V := V)).
Implicit Types (s : world) (p q : Z) (k : right) (B X : rights) (Y : goods).
Variable dispatch : world -> caller -> Z -> Z -> list Z -> Z -> res (Z * world).

(** A port nobody waits for, with a free place in its queue. *)
Record open_port (po : port) : Prop := {
  op_alive : p_dead po = false;
  op_plain : p_special po = PORT_SPECIAL_NONE;
  op_stash : p_stash_buf (p_stash po) = 0;
  op_room : p_qlen po + p_qresv po < p_qmax po;
  op_resv : 0 <= p_qresv po;
  op_qmax : p_qmax po = DEFAULT_QMAX;
  op_waiters : p_waiters po = [];
  op_set : p_set po = None;
  op_senders : 0 < p_send_count po < 2 ^ 32 - 1;
  op_refs : 0 < p_refs po < 2 ^ 32 - 1;
}.

Lemma unref_send_eq s p po :
  w_ports s !! p = Some po -> 1 < p_send_count po -> 1 < p_refs po -> (0 < w_depth s)%nat ->
  port_deref s p MACH_PORT_RIGHT_SEND = Done (put_port s p (with_counts po (p_refs po - 1) (p_send_count po - 1) (p_send_once_count po))).
Proof.
  intros Hp Hs Hr Hd. unfold port_deref. destruct (w_depth s) as [|d]; [lia|]. cbn [port_deref_n]. unfold deref_call.
  change (has MACH_PORT_RIGHT_SEND MACH_PORT_RIGHT_RECEIVE) with false. cbv iota. rewrite bind_Done. cbn [andb]. rewrite (get_port_eq _ _ _ Hp), bind_Done.
  unfold deref_locked. change (has MACH_PORT_RIGHT_SEND MACH_PORT_RIGHT_SEND) with true. change (has MACH_PORT_RIGHT_SEND MACH_PORT_RIGHT_SEND_ONCE) with false.
  change (has MACH_PORT_RIGHT_SEND MACH_PORT_RIGHT_RECEIVE) with false. cbv iota. unfold drop_send. rewrite KASSERT_true by lia. rewrite KASSERT_true by lia. rewrite !bind_Done.
  set (po1 := with_counts po _ _ _). assert (senders_gone po1 MACH_PORT_RIGHT_SEND (mkFallout [] [] [] None false [] None) = (po1, mkFallout [] [] [] None false [] None)) as ->.
  { unfold senders_gone. replace (p_send_count po1 =? 0) with false by (cbn; lia). by rewrite andb_false_r. }
  unfold deref_unlocked, cascade. cbn [f_no_senders f_dead_name f_drain f_wake f_send_wake f_member_of fire_dead_names drain]. rewrite !bind_Done.
  replace (p_refs po1 =? 0) with false by (cbn; lia). f_equal. unfold wake_all, upd_woken, put_port, upd_ports. cbn. by rewrite !app_nil_r.
Qed.

(** The bytes between the two ends. *)
Lemma sealed_ok u n remote :
  simple_msg u n remote -> exists b1 b2, st 4 (fetch u (Z.to_nat n)) 0 MACH_MSG_TYPE_COPY_SEND = Done b1 /\ st 4 b1 12 MACH_PORT_NULL = Done b2 /\
    arrived (fetch u (Z.to_nat n)) b2 /\ MSG_HDR <= n <= MAX_MSG_BYTES.
Proof.
  intros [M1 M2 M3 M4]. destruct (msg_validate_ok u) as (rv & Ev & Vh). assert (rv = MACH_MSG_OK) as -> by congruence.
  destruct (Vh eq_refl) as (size & bits & [V1 V2 V3]). assert (size = n) as -> by congruence. set (b := fetch u (Z.to_nat n)).
  assert (length b = Z.to_nat n) as Lb by apply fetch_length. pose proof V3 as V4. unfold MSG_HDR, MAX_MSG_BYTES in V4.
  assert (exists b1, st 4 b 0 MACH_MSG_TYPE_COPY_SEND = Done b1) as [b1 E1] by (rewrite st_eq by (split; lia); by eexists).
  destruct (st_done _ _ _ _ _ E1) as [_ L1]. assert (exists b2, st 4 b1 12 MACH_PORT_NULL = Done b2) as [b2 E2] by (rewrite st_eq by (split; lia); by eexists).
  destruct (st_done _ _ _ _ _ E2) as [_ L2]. exists b1, b2. split_and!; [done|done| |lia|lia]. split; [lia| | |].
  - unfold msgh_bits. rewrite (ld_st_other _ _ _ _ _ 4 0 E2) by lia. by rewrite (ld_st_same _ _ _ _ _ E1).
  - unfold msgh_local. by rewrite (ld_st_same _ _ _ _ _ E2).
  - intros j Hj. rewrite (st_lookup _ _ _ _ _ j E2) by lia. rewrite (st_lookup _ _ _ _ _ j E1) by lia. done.
Qed.

Lemma put_put s p po1 po2 : put_port (put_port s p po1) p po2 = put_port s p po2.
Proof. unfold put_port, upd_ports. cbn. by rewrite insert_insert_eq. Qed.

Lemma put_back s p po : w_ports s !! p = Some po -> put_port s p po = s.
Proof. intros Hp. unfold put_port, upd_ports. rewrite insert_id by done. by destruct s. Qed.

Lemma settled_port po l n :
  with_counts (with_queue (with_qresv (with_qresv (with_counts po (p_refs po + 1) (p_send_count po + 1) (p_send_once_count po)) (p_qresv po + 1)) (p_qresv po + 1 - 1)) l n)
    (p_refs po + 1 - 1) (p_send_count po + 1 - 1) (p_send_once_count po) = with_queue po l n.
Proof. rewrite !Z.add_simpl_r. by destruct po. Qed.

Lemma reserve_and_queue s c j po b1 b2 expired always (po1 := with_counts po (p_refs po + 1) (p_send_count po + 1) (p_send_once_count po)) :
  w_ports s !! sj_dest j = Some po -> open_port po -> (0 < w_depth s)%nat ->
  sj_kind j = MACH_PORT_RIGHT_SEND -> sj_remote_disp j = MACH_MSG_TYPE_COPY_SEND -> sj_complex j = false -> sj_has_local j = false ->
  (exists remote, msgh_remote (sj_buf j) = Done remote) -> msgh_bits (sj_buf j) = Done MACH_MSG_TYPE_COPY_SEND ->
  st 4 (sj_buf j) 0 MACH_MSG_TYPE_COPY_SEND = Done b1 -> st 4 b1 12 MACH_PORT_NULL = Done b2 ->
  (r ← msg_reserve (put_port s (sj_dest j) po1) (sj_dest j) (c_thread c) always expired; let '(o, s) := (r : slot * world) in send_slot s c j o) =
    Done (Sent MACH_MSG_OK None, put_port s (sj_dest j) (with_enqueued po (mkMsg [] b2))).
Proof.
  intros Hp [O1 O2 O3 O4 O5 O6 O7 O8 O9 O10] Hd Jk Jd Jc Jl [remote Jr] Jb E1 E2. set (p := sj_dest j) in *. unfold msg_reserve.
  rewrite (get_port_eq _ p po1) by apply lookup_insert_eq. rewrite bind_Done. change (p_dead po1) with (p_dead po). rewrite O1.
  assert ((p_qlen po1 + p_qresv po1 <? (if always then KERNEL_QMAX else p_qmax po1)) = true) as ->.
  { change (p_qlen po1) with (p_qlen po). change (p_qresv po1) with (p_qresv po). change (p_qmax po1) with (p_qmax po). rewrite O6 in *.
    unfold KERNEL_QMAX, DEFAULT_QMAX in *. destruct always; lia. }
  rewrite bind_Done, put_put. set (po2 := with_qresv po1 (p_qresv po1 + 1)). unfold send_slot, send_finish. rewrite Jr, bind_Done. unfold drop_moved. rewrite Jd.
  change (is_move MACH_MSG_TYPE_COPY_SEND) with false. cbv iota. rewrite bind_Done, Jl, Jb, bind_Done.
  change (Z.ldiff MACH_MSG_TYPE_COPY_SEND (MACH_MSGH_BITS 0 0xFF)) with MACH_MSG_TYPE_COPY_SEND. rewrite E1, bind_Done, E2, bind_Done.
  unfold send_count. rewrite Jc. cbn [negb]. rewrite bind_Done. unfold send_local. rewrite Jl. cbn [negb]. rewrite bind_Done. cbn [Z.eqb MACH_MSG_OK negb].
  change (Z.to_nat 0) with O. cbn [send_descs]. rewrite bind_Done. cbn [app Z.eqb negb]. fold p. unfold msg_enqueue. rewrite (get_port_eq _ p po2) by apply lookup_insert_eq. rewrite bind_Done.
  rewrite KASSERT_true by (cbn; lia). change (p_dead (with_qresv po2 (p_qresv po2 - 1))) with (p_dead po). rewrite O1. cbn [negb andb]. rewrite put_put.
  set (po3 := with_queue _ _ _). change (p_set _) with (p_set po). rewrite O8. unfold pop_waiter. rewrite bind_Done.
  rewrite (get_port_eq _ p po3) by apply lookup_insert_eq. rewrite bind_Done. change (p_waiters po3) with (p_waiters po). rewrite O7, !bind_Done. cbn [Z.eqb negb].
  unfold dest_unref. rewrite Jk. change (MACH_PORT_RIGHT_SEND =? 0) with false. cbv iota. unfold wake_opt at 1. cbn [option_list].
  rewrite (unref_send_eq _ p po3); [|apply lookup_insert_eq|cbn; lia|cbn; lia|exact Hd]. rewrite !bind_Done, !Z.eqb_refl. cbn [negb]. rewrite bind_Done. cbn [fst snd]. f_equal. f_equal.
  unfold wake_all, upd_woken, put_port, upd_ports. cbn [w_ports w_sets w_spaces w_next_port_id w_next_space_id w_heap w_woken w_vm w_depth]. rewrite app_nil_r, insert_insert_eq. f_equal. f_equal.
  exact (settled_port po _ _).
Qed.

(** The message goes to the tail of the queue; nothing else of the port is
    changed. *)
Lemma send_queues s c from sp u n remote p r po h expired stale :
  simple_msg u n remote -> w_spaces s !! from = Some sp -> space_ok sp -> ps_capacity sp < 2 ^ 31 ->
  lookup_entry (entry_at s from remote) MACH_PORT_RIGHT_SEND = Some (p, r) -> w_ports s !! p = Some po -> open_port po -> w_heap s = true :: h -> (0 < w_depth s)%nat ->
  exists b, arrived (fetch u (Z.to_nat n)) b /\
    mach_msg_send_timed dispatch s c from (Some (u, u)) expired stale =
      Done (Sent MACH_MSG_OK None, put_port (upd_heap s h) p (with_enqueued po (mkMsg [] b))).
Proof.
  intros Sm Hi Ok Hc El Hp Op Hh Hd. destruct (sealed_ok u n remote Sm) as (b1 & b2 & E1 & E2 & Ar & Hn). exists b2. split; [done|].
  destruct Sm as [M1 M2 M3 M4]. destruct Op as [O1 O2 O3 O4 O5 O6 O7 O8 O9 O10]. unfold mach_msg_send_timed. change (Z.to_nat MSG_HDR) with 24%nat. cbv zeta.
  pose proof (ltac:(by split) : open_port po) as Op. rewrite M1, bind_Done. cbn [Z.eqb MACH_MSG_OK negb]. rewrite M2, bind_Done, M3, bind_Done.
  unfold msgh_local at 1. destruct (ld_ok 4 (fetch u 24) 12) as (local & Ell & _); [split; [lia|rewrite fetch_length; lia]|apply fetch_bytes|]. rewrite Ell, bind_Done.
  change (MACH_MSGH_BITS_REMOTE MACH_MSG_TYPE_COPY_SEND) with MACH_MSG_TYPE_COPY_SEND. change (MACH_MSGH_BITS_LOCAL MACH_MSG_TYPE_COPY_SEND) with 0.
  change (has MACH_MSG_TYPE_COPY_SEND MACH_MSGH_BITS_COMPLEX) with false. change (remote_rights MACH_MSG_TYPE_COPY_SEND) with (Some (MACH_PORT_RIGHT_SEND, MACH_PORT_RIGHT_SEND)).
  rewrite andb_false_r. unfold w_kmalloc. rewrite Hh. cbn [kmalloc_ok negb]. set (s0 := upd_heap s h). set (b := fetch u (Z.to_nat n)) in *.
  assert (msgh_remote b = Done remote) as Mr.
  { unfold msgh_remote, b in *. rewrite <- (ld_fetch u u) by (done || (unfold MSG_HDR in *; lia)). done. }
  rewrite Mr, bind_Done, (space_lookup_eq s0 from sp remote _ Hi Ok Hc), bind_Done. change (entry_at s0 from remote) with (entry_at s from remote). rewrite El.
  assert (send_stash s0 c from p b MACH_MSG_TYPE_COPY_SEND MACH_PORT_RIGHT_SEND = Done (None, s0)) as Es.
  { unfold send_stash, msgh_size, b in *. rewrite <- (ld_fetch u u) by (done || (unfold MSG_HDR in *; lia)). rewrite M2, bind_Done, (get_port_eq s0 _ _ Hp), bind_Done. cbv zeta.
    rewrite O3. done. }
  cbn [andb negb]. rewrite Es, bind_Done, (get_port_eq s0 _ _ Hp), bind_Done, O2. cbn [Z.eqb PORT_SPECIAL_NONE negb].
  change (MACH_PORT_RIGHT_SEND =? MACH_PORT_RIGHT_RECEIVE) with false. cbv iota. unfold dest_ref. change (MACH_PORT_RIGHT_SEND =? 0) with false. cbv iota.
  set (po1 := with_counts po (p_refs po + 1) (p_send_count po + 1) (p_send_once_count po)).
  assert (port_ref s0 p MACH_PORT_RIGHT_SEND = Done (put_port s0 p po1)) as Er.
  { unfold port_ref. rewrite (get_port_eq s0 _ _ Hp), bind_Done. change (has MACH_PORT_RIGHT_SEND MACH_PORT_RIGHT_SEND) with true. change (has MACH_PORT_RIGHT_SEND MACH_PORT_RIGHT_SEND_ONCE) with false.
    change (has MACH_PORT_RIGHT_SEND MACH_PORT_RIGHT_RECEIVE) with false. cbv iota. by rewrite !w32_small by lia. }
  rewrite Er, bind_Done. assert (msgh_bits b = Done MACH_MSG_TYPE_COPY_SEND) as Mb.
  { unfold msgh_bits, b in *. rewrite <- (ld_fetch u u) by (done || (unfold MSG_HDR in *; lia)). done. }
  by apply (reserve_and_queue s0 c (mkJob from p MACH_PORT_RIGHT_SEND b MACH_MSG_TYPE_COPY_SEND MACH_PORT_RIGHT_SEND 0 false false) po b1 b2 expired); [..|exists remote| | |].
Qed.

(** [C4] A message without rights, sent to a live port with an empty queue and
    then received through the port's receive right, arrives: both calls
    succeed, the receiver's buffer has the sender's bytes (but for the two
    header fields that belong to the kernel), and the port is as it was. *)
Theorem send_then_receive s cs cr from to sp tp u n remote name p r r' po h buf buf_size expired stale :
  simple_msg u n remote -> w_spaces s !! from = Some sp -> space_ok sp -> ps_capacity sp < 2 ^ 31 ->
  w_spaces s !! to = Some tp -> space_ok tp -> ps_capacity tp < 2 ^ 31 ->
  lookup_entry (entry_at s from remote) MACH_PORT_RIGHT_SEND = Some (p, r) -> lookup_entry (entry_at s to name) MACH_PORT_RIGHT_RECEIVE = Some (p, r') ->
  w_ports s !! p = Some po -> open_port po -> p_queue po = [] -> p_send_waiters po = [] -> w_heap s = true :: h -> (0 < w_depth s)%nat ->
  buf <> 0 -> n <= buf_size ->
  exists b s1, arrived (fetch u (Z.to_nat n)) b /\
    mach_msg_send_timed dispatch s cs from (Some (u, u)) expired stale = Done (Sent MACH_MSG_OK None, s1) /\
    mach_msg_recv s1 cr to name buf buf_size = Done (MACH_MSG_OK, Some b, upd_heap s h).
Proof.
  intros Sm Hi Ok Hc Ht Okt Hct El Elt Hp Op Eq Ew Hh Hd Hb Hn.
  destruct (send_queues s cs from sp u n remote p r po h expired stale Sm Hi Ok Hc El Hp Op Hh Hd) as (b & Ar & E). destruct (sealed_ok u n remote Sm) as (_ & _ & _ & _ & _ & Bn).
  exists b. eexists. split; [exact Ar|]. split; [exact E|]. set (s0 := upd_heap s h). set (po1 := with_enqueued po (mkMsg [] b)). set (s1 := put_port s0 p po1).
  pose proof (ar_length _ _ Ar) as Lb. rewrite fetch_length in Lb. unfold mach_msg_recv, bad_buffer.
  replace ((buf =? 0) || (buf_size <? MSG_HDR)) with false by lia. rewrite (space_lookup_eq s1 to tp name _ Ht Okt Hct), bind_Done.
  change (entry_at s1 to name) with (entry_at s to name). rewrite Elt. unfold recv_take, msg_dequeue. rewrite (get_port_eq s1 p po1) by apply lookup_insert_eq. rewrite bind_Done.
  change (p_queue po1) with (p_queue po ++ [mkMsg [] b]). rewrite Eq. cbn [app]. unfold extract_send_waiter. change (p_send_waiters (with_queue po1 [] (p_qlen po1 - 1))) with (p_send_waiters po).
  rewrite Ew, bind_Done. unfold deliver_msg. cbn [m_buf m_descs]. unfold MSG_HDR in Bn. replace (buf_size <? Z.of_nat (length b)) with false by lia. rewrite (ar_bits _ _ Ar), bind_Done.
  change (has MACH_MSG_TYPE_COPY_SEND MACH_MSGH_BITS_COMPLEX) with false. cbv iota. rewrite bind_Done. change (Z.to_nat 0) with O. cbn [deliver_descs]. rewrite bind_Done, Z.eqb_refl. cbn [negb].
  change (MACH_MSGH_BITS_LOCAL MACH_MSG_TYPE_COPY_SEND =? 0) with true. cbv iota. rewrite !bind_Done. f_equal. f_equal.
  unfold wake_opt, wake_all, s1, s0, upd_woken, put_port, upd_ports. cbn [option_list w_ports w_sets w_spaces w_next_port_id w_next_space_id w_heap w_woken w_vm w_depth].
  rewrite app_nil_r, insert_insert_eq. assert (with_queue po1 [] (p_qlen po1 - 1) = po) as ->.
  { unfold po1, with_enqueued, with_queue. cbn. rewrite Z.add_simpl_r, <- Eq. by destruct po. }
  by rewrite insert_id.
Qed.

(** * A port that comes and goes *)

Definition dead_newborn : port := with_receive newborn false true.

Lemma fresh_free (deref : world -> Z -> Z -> res world) s p : w_ports s !! p = Some dead_newborn -> port_free deref s p = Done (kfree_port s p).
Proof.
  intros Hp. unfold port_free. rewrite (get_port_eq _ _ _ Hp), bind_Done. unfold dead_newborn at 1 2 3 4 5 6 7 8 9.
  cbn [newborn with_receive p_refs p_send_count p_send_once_count p_has_receive p_waiters p_send_waiters p_qresv p_notify_port_destroyed p_queue].
  rewrite !KASSERT_true by done. cbn [drain]. rewrite bind_Done, (get_port_eq _ _ _ Hp), bind_Done. done.
Qed.

Lemma fresh_freed s p r : r = MACH_PORT_RIGHT_RECEIVE \/ r = MACH_PORT_RIGHT_RECEIVE + MACH_PORT_RIGHT_SEND ->
  w_ports s !! p = Some (reffed newborn r) -> (0 < w_depth s)%nat ->
  exists s', port_deref s p r = Done s' /\ w_ports s' = delete p (w_ports s) /\ w_spaces s' = w_spaces s /\ w_sets s' = w_sets s.
Proof.
  intros Hr Hp Hd. unfold port_deref. destruct (w_depth s) as [|d]; [lia|]. cbn [port_deref_n]. unfold deref_call.
  assert (has r MACH_PORT_RIGHT_RECEIVE = true) as -> by (by destruct Hr as [->| ->]). unfold port_destroyed_divert. rewrite (get_port_eq _ _ _ Hp), bind_Done.
  change (p_notify_port_destroyed (reffed newborn r)) with (@None (Z * Z)). cbv iota. rewrite bind_Done. cbn [andb].
  set (po := with_destroyed (reffed newborn r) None). rewrite (get_port_eq _ p po) by apply lookup_insert_eq. rewrite bind_Done.
  assert (deref_locked po r = Done (dead_newborn, mkFallout [] [] [] None false [] None)) as -> by (destruct Hr as [->| ->]; reflexivity).
  rewrite bind_Done. unfold deref_unlocked, cascade. cbn [f_no_senders f_dead_name f_drain f_wake f_send_wake f_member_of fire_dead_names drain]. rewrite !bind_Done.
  change (p_refs dead_newborn =? 0) with true. cbv iota. rewrite fresh_free by apply lookup_insert_eq. eexists. split; [reflexivity|]. split; [|done].
  cbn. by rewrite !delete_insert_eq.
Qed.

Lemma fresh_load s s1 p r : w_ports s !! p = None -> w_ports s1 = <[p := reffed newborn r]> (w_ports s) -> load ∅ s1 = load ∅ s.
Proof.
  intros Hn Ep. unfold load, in_transit, stored. rewrite Ep, gather_map_insert, delete_id by done. rewrite decide_False by apply not_elem_of_empty.
  change (port_rights (reffed newborn r)) with (∅ ⊎ (∅ ⊎ (∅ ⊎ ∅)) : rights). f_equal. mult_at x.
Qed.

Lemma occupied_below sp : space_ok sp -> occupied (ps_table sp) < ps_capacity sp.
Proof.
  intros Ok. pose proof (sk_null _ Ok) as Null. pose proof (sk_cap _ Ok) as Cp. unfold ps_capacity, get_entry in *. destruct (ps_table sp) as [|e l]; [cbn in Cp; lia|].
  change (slot_free e = true) in Null. rewrite occupied_cons, Null. cbn [negb Z.b2z length]. unfold occupied.
  pose proof (length_filter (fun e => slot_free e = false) l). lia.
Qed.

Lemma drop_fresh s i sp n p r : r = MACH_PORT_RIGHT_RECEIVE \/ r = MACH_PORT_RIGHT_RECEIVE + MACH_PORT_RIGHT_SEND ->
  w_spaces s !! i = Some sp -> space_ok sp -> ps_capacity sp < 2 ^ 31 -> 1 <= n -> entry_at s i n = mkPe (Some p) None r false ->
  w_ports s !! p = Some (reffed newborn r) -> (0 < w_depth s)%nat ->
  exists s', space_drop s i n = Done (MACH_MSG_OK, s') /\ w_ports s' = delete p (w_ports s) /\ w_sets s' = w_sets s.
Proof.
  intros Hr Hi Ok Hc Hn En Hp Hd. assert (get_entry sp n = mkPe (Some p) None r false) as Ge by (unfold entry_at in En; by rewrite Hi in En).
  unfold space_drop. destruct (reserved_name n) eqn:Er; [pose proof (reserved_free sp n Ok Hc Er) as Q; by rewrite Ge in Q|].
  assert (1 <= n < ps_capacity sp) as Bn by (apply (used_name s i sp n Hi Ok); [lia|by rewrite En]).
  rewrite (get_space_eq _ _ _ Hi), bind_Done. replace (ps_capacity sp <=? n) with false by lia. cbv zeta. rewrite Ge. cbn [pe_dead pe_port pe_set pe_rights].
  rewrite bool_decide_false by done. cbn [andb]. unfold release_entry, notify_send_once. cbn [pe_dead pe_port pe_set pe_rights].
  assert (has r MACH_PORT_RIGHT_SEND_ONCE = false) as -> by (by destruct Hr as [->| ->]). rewrite bind_Done.
  set (s1 := put_space s i _). destruct (fresh_freed s1 p r Hr Hp Hd) as (s2 & E2 & P2 & _ & T2). rewrite E2, !bind_Done. by exists s2.
Qed.

(** [C5] A port made with [port_allocate] and given up with [port_deallocate]
    leaves nothing behind: the port is gone, every other port and set is as it
    was, and so is every name of every table. *)
Theorem allocate_then_deallocate B s i sp r :
  sys B s -> roomy s -> w_spaces s !! i = Some sp -> ps_capacity sp < 2 ^ 30 -> r = MACH_PORT_RIGHT_RECEIVE \/ r = MACH_PORT_RIGHT_RECEIVE + MACH_PORT_RIGHT_SEND ->
  exists n s1, port_allocate s i r = Done (n, s1) /\
    (n = MACH_PORT_NULL /\ w_spaces s1 = w_spaces s \/
     n <> MACH_PORT_NULL /\ exists s2, port_deallocate s1 i n = Done (MACH_MSG_OK, s2) /\ sys B s2 /\ w_ports s2 = w_ports s /\ w_sets s2 = w_sets s /\
       forall j m, 0 <= m -> entry_at s2 j m = entry_at s j m).
Proof.
  intros Sy Rm Hi Hc Hr. assert (mask_ok r) as Mr by (by destruct Hr as [->| ->]). pose proof (sy_inv _ _ Sy) as I. set (p := w_next_port_id s).
  destruct (port_allocate_ok B s i sp r Sy Rm Hi Mr) as (n & s1 & E1 & Sy1 & [[-> Es]|(Hn & Hf & Rn & Ep & Et & Ed & sp1 & Es & Pl)]); [by exists MACH_PORT_NULL, s1; split; [|left]|].
  exists n, s1. split; [exact E1|]. right. split; [unfold MACH_PORT_NULL; lia|]. fold p in Ep, Rn.
  assert (w_ports s !! p = None) as Np. { destruct (w_ports s !! p) eqn:Q; [|done]. pose proof (i_fresh _ _ _ _ _ _ I p ltac:(left; by eexists)). unfold p in *. lia. }
  assert (entry_at s1 i n = mkPe (Some p) None r false) as En by (by apply (renamed_at s s1 i n _ Rn); lia).
  pose proof (i_space _ _ _ _ _ _ I i sp Hi) as Ok. assert (ps_capacity sp1 <= 2 ^ 31 - 1) as Hc1.
  { pose proof (pc_grow _ _ _ Pl) as G. rewrite (pc_occupied _ _ _ Pl) in G. pose proof (occupied_below sp Ok). lia. }
  assert (w_spaces s1 !! i = Some sp1) as Hi1 by (by rewrite Es, lookup_insert_eq).
  assert (roomy s1) as Rm1.
  { destruct Rm as [R1 R2 R3 R4]. split.
    - intros q qo. rewrite Ep. destruct (decide (q = p)) as [->|Hq]; [rewrite lookup_insert_eq; intros [= <-]|rewrite lookup_insert_ne by done; apply R1].
      destruct Hr as [->| ->]; reflexivity.
    - by rewrite Et.
    - intros j sj. rewrite Es. destruct (decide (j = i)) as [->|Hj]; [rewrite lookup_insert_eq; intros [= <-]; lia|rewrite lookup_insert_ne by done; apply R3].
    - unfold deep in *. rewrite (fresh_load s s1 p r Np Ep), Ed. exact R4. }
  destruct (space_drop_ok B s1 i sp1 n Sy1 Rm1) as (rv & s2 & E2 & Sy2 & D); [exact Hi1|lia| |].
  { intros q Hq. rewrite En in Hq. injection Hq as <-. intros po Hp _ Hset. rewrite Ep, lookup_insert_eq in Hp. by injection Hp as <-. }
  rewrite En in D. destruct D as [-> Rn2]. exists s2. split; [exact E2|]. split; [exact Sy2|].
  destruct (drop_fresh s1 i sp1 n p r Hr Hi1 (i_space _ _ _ _ _ _ (sy_inv _ _ Sy1) i sp1 Hi1) ltac:(lia) Hn En) as (s2' & E2' & P2 & T2).
  { rewrite Ep. apply lookup_insert_eq. }
  { rewrite Ed. pose proof (rm_depth _ Rm) as D. unfold deep in D. lia. }
  assert (s2' = s2) as -> by congruence. rewrite P2, Ep, delete_insert_eq, delete_id by done. split; [done|]. split; [congruence|]. intros j m Hm.
  destruct (decide ((j, m) = (i, n))) as [[= -> ->]|Hne]; [|by rewrite (renamed_ne s1 s2 i n _ j m Rn2 Hm Hne), (renamed_ne s s1 i n _ j m Rn Hm Hne)].
  rewrite (renamed_at s1 s2 i n _ Rn2 Hm). symmetry. by apply (free_is_empty s i sp n Hi Ok).
Qed.

End round.
