(* ===== verification/PortDemo.v ===== *)
(** Concrete runs of the Mach layer, without memory in its messages. *)

From stdpp Require Import base list gmap gmultiset strings numbers option.
From Stdlib Require Import ZArith Lia ZifyBool.
From S2P Require Import Prelude Owners VmMap Ports PortMsg PortBytes PortInv PortDeref PortSpace PortSets PortCalls PortNotify PortXlate PortSlot PortSend PortSendMsg PortRecv PortSystem PortRound.

(** Tasks without user memory: nothing can be captured or mapped. *)
#[export] Instance no_payload : PayloadOps unit := {|
  pl_window _ _ := None;
  pl_capture_kernel v _ _ _ := Done ([], v);
  pl_capture_user v _ _ _ _ := Done ([], v);
  pl_release v _ := Done v;
  pl_install v _ _ := Done (None, v);
  pl_unmap v _ _ _ := Done (false, v);
  pl_rollback v _ _ _ _ := Done v;
|}.

Lemma nothing_mapped t va n (Y : goods) : {[+ Range t va n +]} ⊎ Y = ∅ -> False.
Proof. intros E. apply (f_equal (multiplicity (Range t va n))) in E. rewrite multiplicity_disj_union, multiplicity_singleton, multiplicity_empty in E. rewrite decide_True in E by done. discriminate E. Qed.

#[export] Instance no_payload_spec : PayloadSpec unit.
Proof.
  refine {| pl_inv := fun _ Y => Y = ∅ |}; cbn.
  - intros [] pas Y E. exists tt. split; [done|]. multiset_solver.
  - intros [] addr size n pas v' Y -> [= <- <-]. by destruct (_ =? n).
  - intros [] t addr size n pas v' Y -> _ [= <- <-]. by destruct (_ =? n).
  - intros [] t addr len Y -> _. by exists false, tt.
  - intros v t pas Y H. by destruct H.
  - intros [] t va n Y E. exists tt. split; [done|]. by destruct (nothing_mapped t va n Y).
  - intros v t va n Y E. by destruct (nothing_mapped t va n Y).
Defined.

Abbreviation world := (Ports.world (V := unit)).

(** No kernel object answers. *)
Definition no_dispatch (s : world) (c : caller) (kind arg : Z) (b : list Z) (from : Z) : res (Z * world) := Done (MACH_E_INVAL, s).

Lemma no_dispatch_safe B : dispatch_safe no_dispatch False B.
Proof. by intros s c kind arg b from Sy _. Qed.

(** Start-up, and two tasks' spaces. *)
Definition boot : world := match port_subsystem_init (replicate 200 true) tt (Z.to_nat 5000) with Done (_, s) => s | Panic _ => mkWorld ∅ ∅ ∅ 1 1 [] [] tt 0 end.
Definition after {A} (m : res (A * world)) : world := match m with Done (_, s) => s | Panic _ => boot end.
Definition answer {A B} (d : A) (m : res (A * B)) : A := match m with Done (a, _) => a | Panic _ => d end.

Definition task_a : Z := 2.
Definition task_b : Z := 3.
Definition two_tasks : world := (port_space_new (port_space_new boot).2).2.

(** Task A makes a port and keeps it; task B gets a right to send. *)
Definition a_port : Z := 1.
Definition with_port : world := after (port_allocate two_tasks task_a (MACH_PORT_RIGHT_RECEIVE + MACH_PORT_RIGHT_SEND)).
Definition linked : world := after (port_space_inject_send with_port task_a a_port task_b).

Lemma linked_names : entry_at linked task_a a_port = mkPe (Some 1) None 3 false /\ entry_at linked task_b 1 = mkPe (Some 1) None 2 false.
Proof. split; vm_compute; reflexivity. Qed.

(** A message of 32 bytes from B, to its name 1, without anything in it. *)
Definition hello : nat -> Z := fun i =>
  default 0 ((le_bytes 4 MACH_MSG_TYPE_COPY_SEND ++ le_bytes 4 32 ++ le_bytes 4 1 ++ le_bytes 4 0 ++ le_bytes 4 0 ++ le_bytes 4 77 ++ [1; 2; 3; 4; 5; 6; 7; 8]) !! i).
Definition thread_a : caller := mkCaller 10 1 true false false.
Definition thread_b : caller := mkCaller 20 2 true false false.

Definition sent_hello : res (sent * world) := mach_msg_send_timed no_dispatch linked thread_b task_b (Some (hello, hello)) false 0.
Definition got_hello : res (received * world) := mach_msg_recv_timed (after sent_hello) thread_a task_a a_port 4096 4096 true.

Lemma hello_arrives : exists s, got_hello = Done (Received MACH_MSG_OK (Some (fetch hello 32)), s).
Proof. eexists. vm_compute. reflexivity. Qed.

(** * Those states are in order *)

Definition ample_b (s : world) : bool :=
  forallb (fun x : Z * port => p_refs x.2 + 1400 <? 2 ^ 32 - 3) (map_to_list (w_ports s)) &&
  forallb (fun x : Z * port_set => ps_refs x.2 <? 2 ^ 32 - 1) (map_to_list (w_sets s)) &&
  forallb (fun x : Z * port_space => ps_capacity x.2 <=? 2 ^ 29) (map_to_list (w_spaces s)) &&
  (2 * (Z.of_nat (load ∅ s) + 1303) + 1 <? Z.of_nat (w_depth s)).

Lemma all_entries {A} (f : Z * A -> bool) (m : gmap Z A) : forallb f (map_to_list m) = true -> forall i a, m !! i = Some a -> f (i, a) = true.
Proof. intros H i a E. rewrite forallb_forall in H. apply H, list_elem_of_In. by apply elem_of_map_to_list. Qed.

Lemma ample_check s : ample_b s = true -> ample s.
Proof.
  intros (((H1 & H2)%andb_prop & H3)%andb_prop & H4)%andb_prop. split; [| | |lia].
  - intros p po E. pose proof (all_entries _ _ H1 p po E) as Q. cbn in Q. lia.
  - intros q st E. pose proof (all_entries _ _ H2 q st E) as Q. cbn in Q. lia.
  - intros i sp E. pose proof (all_entries _ _ H3 i sp E) as Q. cbn in Q. lia.
Qed.

Lemma plain_none : plain ∅.
Proof. intros p k H. by apply gmultiset_not_elem_of_empty in H. Qed.

Lemma run_one x st st' :
  system ∅ st -> ample_b st.1 = true -> proper ∅ x st -> run no_dispatch x st = Done st' -> system ∅ st'.
Proof.
  intros Sm Am Pr E. pose proof (run_safe no_dispatch ∅ x st plain_none no_dispatch_safe Sm (ample_check _ Am) Pr) as Q. by rewrite E in Q.
Qed.

Lemma boot_system : system ∅ (boot, ∅).
Proof. by apply (init_system (replicate 200 true) tt (Z.to_nat 5000) 1). Qed.

Lemma lives (s : world) i sp : w_spaces s !! i = Some sp -> space_lives s i.
Proof. by exists sp. Qed.

Lemma linked_system : system ∅ (linked, ∅).
Proof.
  apply (run_one (CInject task_a a_port task_b) (with_port, ∅)); [|vm_compute; reflexivity|split; eapply lives; vm_compute; reflexivity|vm_compute; reflexivity].
  apply (run_one (CAllocate task_a 3) (two_tasks, ∅)); [|vm_compute; reflexivity|split; [eapply lives; vm_compute; reflexivity|done]|vm_compute; reflexivity].
  apply (run_one CNewSpace ((port_space_new boot).2, ∅)); [|vm_compute; reflexivity|done|vm_compute; reflexivity].
  apply (run_one CNewSpace (boot, ∅)); [exact boot_system|vm_compute; reflexivity|done|vm_compute; reflexivity].
Qed.

Lemma no_special (s : world) : forallb (fun x : Z * port => p_special x.2 =? PORT_SPECIAL_NONE) (map_to_list (w_ports s)) = true -> special_kept ∅ s.
Proof. intros H p po Hp Hs. pose proof (all_entries _ _ H p po Hp) as Q. cbn in Q. lia. Qed.

Definition after_hello : world := after sent_hello.

Lemma hello_proper : proper ∅ (CSend thread_b task_b hello hello false 0) (linked, ∅).
Proof. split; [eapply lives; vm_compute; reflexivity|]. split; [done|]. split; [|done]. assert (base ∅ ∅ = ∅) as -> by reflexivity. apply no_special. vm_compute. reflexivity. Qed.

Lemma hello_run : run no_dispatch (CSend thread_b task_b hello hello false 0) (linked, ∅) = Done (after_hello, ∅).
Proof. vm_compute. reflexivity. Qed.

Lemma after_hello_system : system ∅ (after_hello, ∅).
Proof. eapply run_one; [exact linked_system|vm_compute; reflexivity|exact hello_proper|exact hello_run]. Qed.

(** Messages without descriptors lose no reply right. *)
Definition bare (s : world) : bool := forallb (fun x : Z * port => forallb (fun m => bool_decide (m_descs m = [])) (p_queue x.2)) (map_to_list (w_ports s)).

Lemma bare_loses_nothing s c i p : bare s = true -> ~ take_lost s c i p.
Proof.
  intros Hb (m & w & s1 & E & n & b & l1 & l2 & s2 & q & r & rv & name & s3 & D & El & _). unfold msg_dequeue, get_port in E.
  destruct (w_ports s !! p) as [po|] eqn:Hp; [|done]. rewrite bind_Done in E. pose proof (all_entries _ _ Hb p po Hp) as Q. cbn in Q.
  destruct (p_queue po) as [|m0 ql]; [done|]. destruct (extract_send_waiter _) as [w0 po0]. injection E as -> -> <-. cbn in Q.
  apply andb_prop in Q as [Q _]. apply bool_decide_eq_true in Q. rewrite Q in D. destruct n; [|done]. cbn in D. injection D as <- <- <- <-. done.
Qed.

Definition idle_threads (s : world) (th : Z) : bool :=
  forallb (fun x : Z * port => negb (bool_decide (th ∈ p_waiters x.2))) (map_to_list (w_ports s)) &&
  forallb (fun x : Z * port_set => negb (bool_decide (th ∈ ps_waiters x.2))) (map_to_list (w_sets s)).

Lemma idle_check s th : idle_threads s th = true ->
  (forall p po, w_ports s !! p = Some po -> th ∉ p_waiters po) /\ (forall q st, w_sets s !! q = Some st -> th ∉ ps_waiters st).
Proof.
  intros (H1 & H2)%andb_prop. split; [intros p po E; pose proof (all_entries _ _ H1 p po E) as Q|intros q st E; pose proof (all_entries _ _ H2 q st E) as Q];
    cbn in Q; by apply negb_true_iff, bool_decide_eq_false in Q.
Qed.

Lemma recv_proper : proper ∅ (CRecv thread_a task_a a_port 4096 4096 true) (after_hello, ∅).
Proof.
  split; [eapply lives; vm_compute; reflexivity|]. split; [intros p; apply bare_loses_nothing; vm_compute; reflexivity|].
  apply (idle_check after_hello 10). vm_compute. reflexivity.
Qed.

Lemma after_hello_ample : ample after_hello.
Proof. apply ample_check. vm_compute. reflexivity. Qed.


Lemma sys_base s : system ∅ (s, ∅) -> sys ∅ s.
Proof. intros [Sy _]. cbn [fst snd] in Sy. assert (base ∅ ∅ = ∅) as <- by reflexivity. exact Sy. Qed.


Definition the_port : port := match w_ports linked !! 1 with Some po => po | None => newborn end.
Definition space_of (i : Z) : port_space := match w_spaces linked !! i with Some sp => sp | None => new_space end.

Lemma the_port_open : open_port the_port.
Proof. split; first [vm_compute; reflexivity|apply Z.leb_le; vm_compute; reflexivity|apply Z.ltb_lt; vm_compute; reflexivity|split; apply Z.ltb_lt; vm_compute; reflexivity]. Qed.

Lemma hello_simple : simple_msg hello 32 1.
Proof. split; vm_compute; reflexivity. Qed.

Lemma task_space i : i = task_a \/ i = task_b -> w_spaces linked !! i = Some (space_of i) /\ space_ok (space_of i) /\ ps_capacity (space_of i) < 2 ^ 31.
Proof.
  intros Hi. assert (w_spaces linked !! i = Some (space_of i)) as E by (destruct Hi as [->| ->]; vm_compute; reflexivity).
  split; [exact E|]. split; [exact (i_space _ _ _ _ _ _ (sy_inv _ _ (sys_base _ linked_system)) i _ E)|].
  apply Z.ltb_lt. destruct Hi as [->| ->]; vm_compute; reflexivity.
Qed.

Lemma send_then_receive_witness :
  exists b s1 s2, arrived (fetch hello 32) b /\
    mach_msg_send_timed no_dispatch linked thread_b task_b (Some (hello, hello)) false 0 = Done (Sent MACH_MSG_OK None, s1) /\
    mach_msg_recv s1 thread_a task_a a_port 4096 4096 = Done (MACH_MSG_OK, Some b, s2).
Proof.
  destruct (task_space task_a ltac:(by left)) as (A1 & A2 & A3). destruct (task_space task_b ltac:(by right)) as (B1 & B2 & B3).
  assert (lookup_entry (entry_at linked task_b 1) MACH_PORT_RIGHT_SEND = Some (1, 2)) as L1 by (vm_compute; reflexivity).
  assert (lookup_entry (entry_at linked task_a a_port) MACH_PORT_RIGHT_RECEIVE = Some (1, 3)) as L2 by (vm_compute; reflexivity).
  assert (w_ports linked !! 1 = Some the_port) as P1 by (vm_compute; reflexivity).
  assert (p_queue the_port = []) as P2 by (vm_compute; reflexivity). assert (p_send_waiters the_port = []) as P3 by (vm_compute; reflexivity).
  assert (w_heap linked = true :: drop 1 (w_heap linked)) as H1 by (vm_compute; reflexivity).
  assert (0 < w_depth linked)%nat as H2 by (apply Nat.ltb_lt; vm_compute; reflexivity).
  destruct (send_then_receive no_dispatch linked thread_b thread_a task_b task_a (space_of task_b) (space_of task_a) hello 32 1 a_port 1 2 3 the_port
    (drop 1 (w_heap linked)) 4096 4096 false 0 hello_simple B1 B2 B3 A1 A2 A3 L1 L2 P1 the_port_open P2 P3 H1 H2 ltac:(lia) ltac:(lia)) as (b & s1 & A & E1 & E2).
  exists b, s1, (upd_heap linked (drop 1 (w_heap linked))). exact (conj A (conj E1 E2)).
Defined.

Lemma allocate_then_deallocate_witness :
  exists n s1 s2, port_allocate linked task_a 3 = Done (n, s1) /\ n = 2 /\ port_deallocate s1 task_a n = Done (MACH_MSG_OK, s2) /\ w_ports s2 = w_ports linked.
Proof.
  destruct (task_space task_a ltac:(by left)) as (A1 & _ & _). assert (ps_capacity (space_of task_a) < 2 ^ 30) as A2 by (apply Z.ltb_lt; vm_compute; reflexivity).
  assert (roomy linked) as Rm by (apply ample_roomy, ample_check; vm_compute; reflexivity).
  destruct (allocate_then_deallocate ∅ linked task_a (space_of task_a) 3 (sys_base _ linked_system) Rm A1 A2 ltac:(by right)) as (n & s1 & E & D).
  assert (n = answer (-1) (port_allocate linked task_a 3)) as Hn by (rewrite E; reflexivity). assert (answer (-1) (port_allocate linked task_a 3) = 2) as H2 by (vm_compute; reflexivity).
  rewrite H2 in Hn. subst n. destruct D as [[D _]|(_ & s2 & E2 & _ & P2 & _)]; [discriminate D|]. exists 2, s1, s2. exact (conj E (conj eq_refl (conj E2 P2))).
Defined.
