(* ===== verification/PortFlaws.v ===== *)
(** Where the Mach layer goes wrong: one short run each. *)

From stdpp Require Import base list gmap gmultiset strings numbers option.
From Stdlib Require Import ZArith Lia ZifyBool.
From S2P Require Import Prelude VmMap Ports PortMsg PortInv PortSpace PortDemo.

(** The bytes of a message, as a task's memory. *)
Definition message (bits size remote loc : Z) (body : list Z) : nat -> Z := fun i =>
  default 0 ((le_bytes 4 bits ++ le_bytes 4 size ++ le_bytes 4 remote ++ le_bytes 4 loc ++ le_bytes 4 0 ++ le_bytes 4 1 ++ body) !! i).

Definition port_desc (name disp : Z) : list Z := [MACH_MSG_PORT_DESCRIPTOR; disp; 0; 0] ++ le_bytes 4 name.

Definition send (s : world) (c : caller) (from : Z) (u1 u2 : nat -> Z) (stale : Z) : res (sent * world) :=
  mach_msg_send_timed no_dispatch s c from (Some (u1, u2)) true stale.

(** ** Rights that were not the caller's *)

(** Task B has only a right to send; giving up "receive and send" through it
    takes the receive right from task A. *)
Theorem mod_refs_steals_receive :
  entry_at linked task_b 1 = mkPe (Some 1) None MACH_PORT_RIGHT_SEND false /\
  (p_has_receive <$> w_ports linked !! 1) = Some true /\
  exists s, port_mod_refs linked task_b 1 (MACH_PORT_RIGHT_RECEIVE + MACH_PORT_RIGHT_SEND) = Done (MACH_MSG_OK, s) /\
    (p_has_receive <$> w_ports s !! 1) = Some false /\ entry_at s task_a a_port = mkPe (Some 1) None 3 false.
Proof. split; [vm_compute; reflexivity|]. split; [vm_compute; reflexivity|]. eexists. split; [vm_compute; reflexivity|]. split; vm_compute; reflexivity. Qed.

(** ** A port that dies while it leaves its set *)

Definition set_up : world := after (port_set_insert (after (port_set_allocate with_port task_a)) task_a 2 a_port).

(** The port's right to send travels in a message to the port itself. *)
Definition to_itself : nat -> Z :=
  message (MACH_MSGH_BITS_COMPLEX + MACH_MSG_TYPE_COPY_SEND) 36 a_port 0 (le_bytes 4 1 ++ port_desc a_port MACH_MSG_TYPE_MOVE_SEND).
Definition self_sent : world := after (send set_up thread_a task_a to_itself to_itself 0).

Theorem deref_uses_freed_port :
  (p_refs <$> w_ports self_sent !! 1) = Some 2 /\ port_deallocate self_sent task_a a_port = Panic "use of a freed port".
Proof. split; vm_compute; reflexivity. Qed.

(** ** A reply right released twice *)

(** Task B makes a reply port and sends a right to it with its message. *)
Definition with_reply : world := after (port_allocate linked task_b MACH_PORT_RIGHT_RECEIVE).
Definition request : nat -> Z := message (MACH_MSGH_BITS MACH_MSG_TYPE_COPY_SEND MACH_MSG_TYPE_MAKE_SEND) 24 1 2 [].
Definition requested : world := after (send with_reply thread_b task_b request request 0).

(** Task A's table is full and there is no memory for a larger one. *)
Fixpoint fill (n : nat) (s : world) : world :=
  match n with O => s | S n => fill n (after (port_allocate s task_a MACH_PORT_RIGHT_RECEIVE)) end.
Definition starved : world := upd_heap (fill 14 requested) [].

Theorem reply_right_released_twice :
  (p_send_count <$> w_ports requested !! 2) = Some 1 /\
  mach_msg_recv starved thread_a task_a a_port 4096 4096 = Panic "port_deref: SEND underflow".
Proof. split; vm_compute; reflexivity. Qed.

(** ** An answer read from freed memory *)

(** The name is dead; the code says so only if the freed buffer still holds
    the name. *)
Definition receiver_gone : world := after (port_mod_refs linked task_a a_port MACH_PORT_RIGHT_RECEIVE).
Definition noticed : world := after (mach_port_type receiver_gone task_b 1).

Theorem send_to_dead_name_reads_freed :
  pe_dead (entry_at noticed task_b 1) = true /\
  answer (Sent 0 None) (send noticed thread_b task_b hello hello 1) = Sent MACH_E_DEAD None /\
  answer (Sent 0 None) (send noticed thread_b task_b hello hello 9) = Sent MACH_E_RIGHT None.
Proof. split; [|split]; vm_compute; reflexivity. Qed.

(** ** A header that changes between the two fetches *)

Definition small : nat -> Z := message (MACH_MSGH_BITS_COMPLEX + MACH_MSG_TYPE_COPY_SEND) 28 1 0 (le_bytes 4 0).
Definition grown : nat -> Z := message (MACH_MSGH_BITS_COMPLEX + MACH_MSG_TYPE_COPY_SEND) 4096 1 0 (le_bytes 4 5).

Theorem double_fetch_reads_past_end : send linked thread_b task_b small grown 0 = Panic "read past the end of a message".
Proof. vm_compute. reflexivity. Qed.

(** ** A receiver that wakes on a freed port *)

Definition lone : world := after (port_allocate two_tasks task_a MACH_PORT_RIGHT_RECEIVE).
Definition waiting : world := after (mach_msg_recv_timed lone thread_a task_a a_port 4096 4096 false).
Definition closed : world := after (port_deallocate waiting task_a a_port).

Theorem receiver_wakes_on_freed_port :
  answer (Received 0 None) (mach_msg_recv_timed lone thread_a task_a a_port 4096 4096 false) = AsleepPort 1 /\
  w_woken closed = [c_thread thread_a] /\
  recv_port_resume closed thread_a task_a a_port 1 4096 false = Panic "use of a freed port".
Proof. split; [|split]; vm_compute; reflexivity. Qed.

(** ** A remote procedure call whose reply port goes away *)

Definition rpc_began : res ((Z + Z * Z * (nat -> Z)) * world) := rpc_begin linked thread_b task_b hello 4096 4096.

Definition rpc_reply : Z * Z := match rpc_began with Done (inr (name, p, _), _) => (name, p) | _ => (0, 0) end.

Theorem rpc_uses_freed_reply_port :
  rpc_reply = (2, 2) /\ answer MACH_E_INVAL (port_deallocate (after rpc_began) task_b 2) = MACH_MSG_OK /\
  rpc_sent (after (port_deallocate (after rpc_began) task_b 2)) task_b 2 2 MACH_MSG_OK = Panic "use of a freed port".
Proof. split; [|split]; vm_compute; reflexivity. Qed.

(** ** A kernel object freed by the message to it *)

Definition self_port : Z := answer 0 (r ← port_install_task_self two_tasks 7 task_a; let '(_, o, s) := r in Done (default 0 o, s : world)).
Definition selfed : world := after (port_install_task_self two_tasks 7 task_a).
Definition released : world := match port_release_task_self selfed (Some self_port) with Done s => s | Panic _ => boot end.
Definition farewell : nat -> Z := message MACH_MSG_TYPE_MOVE_SEND 24 MACH_PORT_TASK_SELF 0 [].

Theorem special_send_uses_freed_port :
  (p_refs <$> w_ports released !! self_port) = Some 1 /\ send released thread_a task_a farewell farewell 0 = Panic "use of a freed port".
Proof. split; vm_compute; reflexivity. Qed.
