(* ===== verification/Bio.v ===== *)
(** The block cache of src/fs/bio.c.  A miss claims a buffer, drops the lock
    for the read from the device and finishes under the lock again, so a
    lookup is two functions here, [page_get_begin] and [page_get_end]; this
    file proves what one caller at a time sees, [BioShared] what many do. *)

From stdpp Require Import base list gmap strings numbers option.
From Stdlib Require Import ZArith Lia ZifyBool.
From S2P Require Import Prelude.

Definition BIO_PAGE_BYTES : Z := 4096.
Definition BIO_SECTOR_BYTES : Z := 512.
Definition BIO_SECTORS_PER_PAGE : Z := BIO_PAGE_BYTES / BIO_SECTOR_BYTES.
Definition BIO_NBUFS : nat := 64.

Record bio_buf := mkBuf {
  bb_page : Z;
  bb_stamp : Z;
  bb_data : list Z;
  bb_drive : Z;
  bb_valid : bool;
  bb_busy : bool;
  bb_stale : bool;
}.

Record bio := mkBio {
  bio_bufs : list bio_buf;
  bio_clock : Z;
  bio_ready : bool;
  bio_n_req : Z;
  bio_n_hit : Z;
  bio_n_miss : Z;
  bio_n_evict : Z;
  bio_n_write : Z;
  bio_n_patch : Z;
  bio_n_sync : Z;
}.

Definition with_bufs (b : bio) (l : list bio_buf) : bio :=
  mkBio l (bio_clock b) (bio_ready b) (bio_n_req b) (bio_n_hit b) (bio_n_miss b) (bio_n_evict b) (bio_n_write b) (bio_n_patch b) (bio_n_sync b).
Definition with_data (x : bio_buf) (d : list Z) : bio_buf :=
  mkBuf (bb_page x) (bb_stamp x) d (bb_drive x) (bb_valid x) (bb_busy x) (bb_stale x).
Definition set_buf (b : bio) (i : nat) (x : bio_buf) : bio := with_bufs b (<[i := x]> (bio_bufs b)).
Definition tick (b : bio) : bio :=
  mkBio (bio_bufs b) (w64 (bio_clock b + 1)) (bio_ready b) (bio_n_req b) (bio_n_hit b) (bio_n_miss b) (bio_n_evict b) (bio_n_write b) (bio_n_patch b) (bio_n_sync b).
Definition count_req (b : bio) : bio :=
  mkBio (bio_bufs b) (bio_clock b) (bio_ready b) (w64 (bio_n_req b + 1)) (bio_n_hit b) (bio_n_miss b) (bio_n_evict b) (bio_n_write b) (bio_n_patch b) (bio_n_sync b).
Definition count_hit (b : bio) : bio :=
  mkBio (bio_bufs b) (bio_clock b) (bio_ready b) (bio_n_req b) (w64 (bio_n_hit b + 1)) (bio_n_miss b) (bio_n_evict b) (bio_n_write b) (bio_n_patch b) (bio_n_sync b).
Definition count_miss (b : bio) : bio :=
  mkBio (bio_bufs b) (bio_clock b) (bio_ready b) (bio_n_req b) (bio_n_hit b) (w64 (bio_n_miss b + 1)) (bio_n_evict b) (bio_n_write b) (bio_n_patch b) (bio_n_sync b).
Definition count_evict (b : bio) : bio :=
  mkBio (bio_bufs b) (bio_clock b) (bio_ready b) (bio_n_req b) (bio_n_hit b) (bio_n_miss b) (w64 (bio_n_evict b + 1)) (bio_n_write b) (bio_n_patch b) (bio_n_sync b).
Definition count_write (b : bio) : bio :=
  mkBio (bio_bufs b) (bio_clock b) (bio_ready b) (bio_n_req b) (bio_n_hit b) (bio_n_miss b) (bio_n_evict b) (w64 (bio_n_write b + 1)) (bio_n_patch b) (bio_n_sync b).
Definition count_patch (b : bio) : bio :=
  mkBio (bio_bufs b) (bio_clock b) (bio_ready b) (bio_n_req b) (bio_n_hit b) (bio_n_miss b) (bio_n_evict b) (bio_n_write b) (w64 (bio_n_patch b + 1)) (bio_n_sync b).
Definition count_sync (b : bio) : bio :=
  mkBio (bio_bufs b) (bio_clock b) (bio_ready b) (bio_n_req b) (bio_n_hit b) (bio_n_miss b) (bio_n_evict b) (bio_n_write b) (bio_n_patch b) (w64 (bio_n_sync b + 1)).

(** Statics start zeroed; [arena] is what kmalloc gave, if it gave any. *)
Definition bio_zero : bio := mkBio (replicate BIO_NBUFS (mkBuf 0 0 [] 0 false false false)) 0 false 0 0 0 0 0 0 0.

Definition slice (off n : Z) (d : list Z) : list Z := take (Z.to_nat n) (drop (Z.to_nat off) d).

Definition bio_init (arena : option (list Z)) (b : bio) : bio :=
  match arena with
  | None => b
  | Some a =>
      mkBio (imap (fun i x => mkBuf (2 ^ 64 - 1) (bb_stamp x) (slice (Z.of_nat i * BIO_PAGE_BYTES) BIO_PAGE_BYTES a) (2 ^ 32 - 1) false (bb_busy x) (bb_stale x)) (bio_bufs b))
        (bio_clock b) true (bio_n_req b) (bio_n_hit b) (bio_n_miss b) (bio_n_evict b) (bio_n_write b) (bio_n_patch b) (bio_n_sync b)
  end.

Definition bb_names (drive page : Z) (x : bio_buf) : bool := (bb_page x =? page) && (bb_drive x =? drive).

(** The first loop of [page_get]. *)
Inductive found := FoundBusy | FoundValid (i : nat) (x : bio_buf) | FoundNone.

Fixpoint page_find (l : list bio_buf) (i : nat) (drive page : Z) : found :=
  match l with
  | [] => FoundNone
  | x :: l =>
      if negb (bb_names drive page x) then page_find l (S i) drive page
      else if bb_busy x then FoundBusy
      else if bb_valid x then FoundValid i x
      else page_find l (S i) drive page
  end.

(** The second: a free buffer, or the least recently used one. *)
Fixpoint pick_victim (l : list bio_buf) (i : nat) (victim : option (nat * bio_buf)) : option (nat * bio_buf) :=
  match l with
  | [] => victim
  | x :: l =>
      if bb_busy x then pick_victim l (S i) victim
      else if negb (bb_valid x) then Some (i, x)
      else
        let better := match victim with None => true | Some (_, v) => bb_stamp x <? bb_stamp v end in
        pick_victim l (S i) (if better then Some (i, x) else victim)
  end.

(** How a lookup leaves the lock: with the page, to wait, or to fetch. *)
Inductive got := GotPage (i : nat) | GotWait | GotFetch (i : nat).

Definition page_get_begin (b : bio) (drive page : Z) : got * bio :=
  match page_find (bio_bufs b) 0 drive page with
  | FoundBusy => (GotWait, b)
  | FoundValid i x =>
      let b := tick b in
      (GotPage i, count_hit (set_buf b i (mkBuf (bb_page x) (bio_clock b) (bb_data x) (bb_drive x) (bb_valid x) (bb_busy x) (bb_stale x))))
  | FoundNone =>
      match pick_victim (bio_bufs b) 0 None with
      | None => (GotWait, b)
      | Some (i, x) =>
          let b := if bb_valid x then count_evict b else b in
          (GotFetch i, set_buf b i (mkBuf page (bb_stamp x) (bb_data x) drive false true false))
      end
  end.

(** The rest of [page_get], after the device answered [rv] into the buffer:
    the page, or nothing with [retry] or without. *)
Definition page_get_end (b : bio) (i : nat) (rv : Z) : option nat * bool * bio :=
  match bio_bufs b !! i with
  | None => (None, false, b)
  | Some x =>
      if negb (rv =? 0) then
        (None, false, set_buf b i (mkBuf (2 ^ 64 - 1) (bb_stamp x) (bb_data x) (bb_drive x) (bb_valid x) false (bb_stale x)))
      else if bb_stale x then
        (None, true, set_buf b i (mkBuf (2 ^ 64 - 1) (bb_stamp x) (bb_data x) (bb_drive x) (bb_valid x) false false))
      else
        let b := tick b in
        (Some i, false, count_miss (set_buf b i (mkBuf (bb_page x) (bio_clock b) (bb_data x) (bb_drive x) true false (bb_stale x))))
  end.

(** [mem_copy] of [src] to offset [off] of [d]. *)
Definition mem_copy (d : list Z) (off : Z) (src : list Z) : list Z :=
  take (Z.to_nat off) d ++ src ++ drop (Z.to_nat off + length src) d.

(** What the device puts in a claimed buffer. *)
Definition fill_buf (b : bio) (i : nat) (off : Z) (src : list Z) : bio :=
  match bio_bufs b !! i with
  | None => b
  | Some x => set_buf b i (with_data x (mem_copy (bb_data x) off src))
  end.

(** The part of a run of sectors that lies in one page. *)
Definition run_page (lba done : Z) : Z := w64 (lba + done) / BIO_SECTORS_PER_PAGE.
Definition run_within (lba done : Z) : Z := w64 (lba + done) mod BIO_SECTORS_PER_PAGE.
Definition run_len (lba nsec done : Z) : Z :=
  let run := BIO_SECTORS_PER_PAGE - run_within lba done in
  if nsec - done <? run then nsec - done else run.

Definition copy_run (b : bio) (i : nat) (lba nsec done : Z) : list Z :=
  match bio_bufs b !! i with
  | None => []
  | Some x => slice (run_within lba done * BIO_SECTOR_BYTES) (run_len lba nsec done * BIO_SECTOR_BYTES) (bb_data x)
  end.

(** The inner loop of [bio_write] over the buffers. *)
Fixpoint patch_bufs (l : list bio_buf) (drive page off : Z) (src : list Z) : list bio_buf * bool :=
  match l with
  | [] => ([], false)
  | x :: l =>
      if negb (bb_names drive page x) then let '(l, p) := patch_bufs l drive page off src in (x :: l, p)
      else if bb_busy x then (mkBuf (bb_page x) (bb_stamp x) (bb_data x) (bb_drive x) (bb_valid x) (bb_busy x) true :: l, false)
      else if negb (bb_valid x) then let '(l, p) := patch_bufs l drive page off src in (x :: l, p)
      else (with_data x (mem_copy (bb_data x) off src) :: l, true)
  end.

Definition patch_page (b : bio) (drive page off : Z) (src : list Z) : bio :=
  let '(l, patched) := patch_bufs (bio_bufs b) drive page off src in
  let b := with_bufs b l in if patched then count_patch b else b.

(** The outer loop, [n] rounds at most. *)
Fixpoint patch_loop (n : nat) (b : bio) (drive lba nsec done : Z) (src : list Z) : bio :=
  match n with
  | O => b
  | S n =>
      if done <? nsec then
        let run := run_len lba nsec done in
        let b := patch_page b drive (run_page lba done) (run_within lba done * BIO_SECTOR_BYTES) (slice (done * BIO_SECTOR_BYTES) (run * BIO_SECTOR_BYTES) src) in
        patch_loop n b drive lba nsec (done + run) src
      else b
  end.

(** The locked part of [bio_write], after the device took the sectors. *)
Definition bio_patch (b : bio) (drive lba nsec : Z) (src : list Z) : bio :=
  if negb (bio_ready b) then b else patch_loop (Z.to_nat nsec) (count_write b) drive lba nsec 0 src.

Definition bio_invalidate_drive (b : bio) (drive : Z) : bio :=
  if negb (bio_ready b) then b
  else with_bufs b ((fun x => if bb_drive x =? drive then mkBuf (bb_page x) (bb_stamp x) (bb_data x) (bb_drive x) false (bb_busy x) (bb_stale x) else x) <$> bio_bufs b).

(** * The device

    What the cache uses of src/dev/ata_drv.c: the value of [ata_kread] is its
    return code with what the buffer then holds. *)

Class DiskOps (D : Type) := {
  ata_kread : D -> Z -> Z -> Z -> Z * list Z * D;
  ata_kwrite : D -> Z -> Z -> Z -> list Z -> Z * D;
  ata_ksync : D -> Z -> Z * D;
}.

Section calls.
Context {D : Type} `{DiskOps D}.
Implicit Types (b : bio) (dk : D).

(** [page_get] of a lone caller: [None] where it would wait for another. *)
Definition page_get b dk (drive page : Z) : option (option nat * bool * bio * D) :=
  match page_get_begin b drive page with
  | (GotPage i, b) => Some (Some i, false, b, dk)
  | (GotWait, _) => None
  | (GotFetch i, b) =>
      let '(rv, data, dk) := ata_kread dk drive (w64 (page * BIO_SECTORS_PER_PAGE)) BIO_SECTORS_PER_PAGE in
      let '(o, retry, b) := page_get_end (fill_buf b i 0 data) i rv in
      Some (o, retry, b, dk)
  end.

Fixpoint read_loop (n : nat) b dk (drive lba nsec done : Z) (out : list Z) : option (Z * list Z * bio * D) :=
  match n with
  | O => None
  | S n =>
      if done <? nsec then
        match page_get b dk drive (run_page lba done) with
        | None => None
        | Some (_, true, b, dk) => read_loop n b dk drive lba nsec done out
        | Some (None, false, b, dk) => Some (1, out, b, dk)
        | Some (Some i, false, b, dk) => read_loop n b dk drive lba nsec (done + run_len lba nsec done) (out ++ copy_run b i lba nsec done)
        end
      else Some (0, out, b, dk)
  end.

Definition bio_read (n : nat) b dk (drive lba nsec : Z) : option (Z * list Z * bio * D) :=
  if negb (bio_ready b) then let '(rv, out, dk) := ata_kread dk drive lba nsec in Some (rv, out, b, dk)
  else if nsec =? 0 then Some (0, [], b, dk)
  else read_loop n (count_req b) dk drive lba nsec 0 [].

Definition bio_write b dk (drive lba nsec : Z) (src : list Z) : Z * bio * D :=
  if nsec =? 0 then (0, b, dk)
  else
    let '(rv, dk) := ata_kwrite dk drive lba nsec src in
    if negb (rv =? 0) then (rv, b, dk) else (0, bio_patch b drive lba nsec src, dk).

Definition bio_sync b dk (drive : Z) : Z * bio * D :=
  let '(rv, dk) := ata_ksync dk drive in (rv, count_sync b, dk).

End calls.

(** * Lists of bytes *)

Lemma slice_length off n d : 0 <= off -> 0 <= n -> off + n <= Z.of_nat (length d) -> Z.of_nat (length (slice off n d)) = n.
Proof. intros Ho Hn Hd. unfold slice. rewrite length_take, length_drop. lia. Qed.

Lemma slice_lookup off n d k : 0 <= off -> 0 <= k < n -> slice off n d !! Z.to_nat k = d !! Z.to_nat (off + k).
Proof. intros Ho Hk. unfold slice. rewrite lookup_take_lt by lia. rewrite lookup_drop. f_equal. lia. Qed.

Lemma mem_copy_length d off src : 0 <= off -> off + Z.of_nat (length src) <= Z.of_nat (length d) -> length (mem_copy d off src) = length d.
Proof. intros Ho Hl. unfold mem_copy. rewrite !length_app, length_take, length_drop. lia. Qed.

Lemma mem_copy_lookup d off src k : 0 <= off -> off + Z.of_nat (length src) <= Z.of_nat (length d) -> 0 <= k ->
  mem_copy d off src !! Z.to_nat k = if (off <=? k) && (k <? off + Z.of_nat (length src)) then src !! Z.to_nat (k - off) else d !! Z.to_nat k.
Proof.
  intros Ho Hl Hk. unfold mem_copy. destruct (decide (k < off)) as [Lt|Ge].
  - replace (_ && _) with false by lia. rewrite lookup_app_l by (rewrite length_take; lia). by rewrite lookup_take_lt by lia.
  - rewrite lookup_app_r by (rewrite length_take; lia). rewrite length_take, Nat.min_l by lia. destruct (decide (k < off + Z.of_nat (length src))) as [In|Out].
    + replace (_ && _) with true by lia. rewrite lookup_app_l by lia. f_equal. lia.
    + replace (_ && _) with false by lia. rewrite lookup_app_r by lia. rewrite lookup_drop. f_equal. lia.
Qed.

(** The bytes of a function over a range. *)
Definition span (f : Z -> Z) (a n : Z) : list Z := f <$> seqZ a n.

Lemma span_length f a n : 0 <= n -> Z.of_nat (length (span f a n)) = n.
Proof. intros Hn. unfold span. rewrite length_fmap, length_seqZ. lia. Qed.

Lemma span_lookup f a n k : 0 <= k < n -> span f a n !! Z.to_nat k = Some (f (a + k)).
Proof. intros Hk. unfold span. rewrite list_lookup_fmap. rewrite (lookup_seqZ_lt a n) by lia. cbn. do 2 f_equal. lia. Qed.

Lemma span_ext f g a n : (forall k, a <= k < a + n -> f k = g k) -> span f a n = span g a n.
Proof. intros H. unfold span. apply list_fmap_ext. intros i x Hx. apply lookup_seqZ in Hx. apply H. lia. Qed.

Lemma span_app f a n m : 0 <= n -> 0 <= m -> span f a (n + m) = span f a n ++ span f (a + n) m.
Proof. intros Hn Hm. unfold span. by rewrite seqZ_app, fmap_app by lia. Qed.

(** A list is a span when it has the length and the bytes. *)
Lemma span_eq f a n l : 0 <= n -> Z.of_nat (length l) = n -> (forall k, 0 <= k < n -> l !! Z.to_nat k = Some (f (a + k))) -> l = span f a n.
Proof.
  intros Hn Hl Hk. apply list_eq_same_length with (length l); [pose proof (span_length f a n Hn); lia|done|].
  intros i x y Hi Hx Hy. pose proof (Hk (Z.of_nat i) ltac:(lia)) as H1. pose proof (span_lookup f a n (Z.of_nat i) ltac:(lia)) as H2. rewrite Nat2Z.id in *. congruence.
Qed.

Lemma span_slice f a n off m : 0 <= off -> 0 <= m -> off + m <= n -> slice off m (span f a n) = span f (a + off) m.
Proof.
  intros Ho Hm Hn. apply span_eq; [done|rewrite slice_length; rewrite ?span_length; lia|].
  intros k Hk. rewrite slice_lookup, span_lookup by lia. do 2 f_equal. lia.
Qed.

(** * The table of buffers *)

Definition live (x : bio_buf) : bool := bb_valid x || bb_busy x.

Record bufs_ok (l : list bio_buf) : Prop := {
  ck_length : length l = BIO_NBUFS;
  ck_data i x : l !! i = Some x -> Z.of_nat (length (bb_data x)) = BIO_PAGE_BYTES;
  ck_apart i j x y : l !! i = Some x -> l !! j = Some y -> live x = true -> live y = true ->
    bb_page x = bb_page y -> bb_drive x = bb_drive y -> i = j;
  ck_excl i x : l !! i = Some x -> bb_valid x = true -> bb_busy x = false;
}.

Lemma bb_names_true drive page x : bb_names drive page x = true <-> bb_page x = page /\ bb_drive x = drive.
Proof. unfold bb_names. lia. Qed.

Lemma page_find_spec l n drive page :
  match page_find l n drive page with
  | FoundBusy => exists i x, l !! i = Some x /\ bb_names drive page x = true /\ bb_busy x = true
  | FoundValid j x => exists i, j = (n + i)%nat /\ l !! i = Some x /\ bb_names drive page x = true /\ bb_busy x = false /\ bb_valid x = true
  | FoundNone => forall i x, l !! i = Some x -> bb_names drive page x = true -> live x = false
  end.
Proof.
  revert n. induction l as [|y l IH]; intros n; cbn [page_find]; [done|]. specialize (IH (S n)).
  assert (forall (Hy : bb_names drive page y = true -> live y = false),
    match page_find l (S n) drive page with
    | FoundBusy => exists i x, (y :: l) !! i = Some x /\ bb_names drive page x = true /\ bb_busy x = true
    | FoundValid j x => exists i, j = (n + i)%nat /\ (y :: l) !! i = Some x /\ bb_names drive page x = true /\ bb_busy x = false /\ bb_valid x = true
    | FoundNone => forall i x, (y :: l) !! i = Some x -> bb_names drive page x = true -> live x = false
    end) as Later.
  { intros Hy. destruct (page_find _ _ _ _) as [|j x|].
    - destruct IH as (i & x & ?). by exists (S i), x.
    - destruct IH as (i & -> & ?). exists (S i). split; [lia|done].
    - intros [|i] x Hx; [by injection Hx as <-|by apply (IH i)]. }
  destruct (bb_names drive page y) eqn:Ny; cbn [negb]; [|by apply Later].
  destruct (bb_busy y) eqn:By; [by exists 0%nat, y|]. destruct (bb_valid y) eqn:Vy; [exists 0%nat; by rewrite Nat.add_0_r|].
  apply Later. intros _. unfold live. by rewrite Vy, By.
Qed.

(** The victim is free, or nothing is free and it is the oldest. *)
Definition oldest (l : list bio_buf) (x : bio_buf) : Prop :=
  forall i y, l !! i = Some y -> bb_busy y = false -> bb_valid y = true /\ bb_stamp x <= bb_stamp y.

Lemma pick_victim_spec l n v :
  (forall i x, v = Some (i, x) -> bb_busy x = false /\ bb_valid x = true) ->
  match pick_victim l n v with
  | Some (j, x) => bb_busy x = false /\
      ((exists i, j = (n + i)%nat /\ l !! i = Some x) /\ (bb_valid x = false \/ oldest l x /\ (forall i y, v = Some (i, y) -> bb_stamp x <= bb_stamp y)) \/
       v = Some (j, x) /\ oldest l x)
  | None => v = None /\ forall i x, l !! i = Some x -> bb_busy x = true
  end.
Proof.
  revert n v. induction l as [|y l IH]; intros n v Hv; cbn [pick_victim].
  { destruct v as [[j x]|]; [|done]. destruct (Hv j x eq_refl) as [-> _]. split; [done|]. by right. }
  destruct (bb_busy y) eqn:By.
  - specialize (IH (S n) v Hv). destruct (pick_victim l (S n) v) as [[j x]|].
    + destruct IH as [Bx [[(i & -> & Hi) Ho]|[Ev Ho]]]; (split; [done|]); [left|right].
      * split; [exists (S i); split; [lia|done]|]. destruct Ho as [Ho|[Ho Hs]]; [by left|]. right. split; [|done].
        intros [|k] z Hz Bz; [injection Hz as <-; congruence|by apply (Ho k)].
      * split; [done|]. intros [|k] z Hz Bz; [injection Hz as <-; congruence|by apply (Ho k)].
    + destruct IH as [-> IH]. split; [done|]. intros [|i] x Hx; [injection Hx as <-; done|by apply (IH i)].
  - destruct (bb_valid y) eqn:Vy; cbn [negb]; [|split; [done|]; left; split; [exists 0%nat; split; [lia|done]|by left]].
    set (better := match v with None => true | Some (_, u) => bb_stamp y <? bb_stamp u end).
    specialize (IH (S n) (if better then Some (n, y) else v)).
    assert (forall i x, (if better then Some (n, y) else v) = Some (i, x) -> bb_busy x = false /\ bb_valid x = true) as Hv'.
    { intros i x. destruct better; [intros [= <- <-]; done|apply Hv]. }
    specialize (IH Hv'). destruct (pick_victim l (S n) _) as [[j x]|].
    + destruct IH as [Bx IH]. split; [done|]. destruct IH as [[(i & -> & Hi) Ho]|[Ev Ho]].
      * left. split; [exists (S i); split; [lia|done]|]. destruct Ho as [Ho|[Ho Hs]]; [by left|right]. unfold better in Hs. split.
        -- intros [|k] z Hz Bz; [injection Hz as <-|by apply (Ho k)]. split; [done|]. destruct v as [[iu u]|]; [|by apply (Hs n)].
           destruct (bb_stamp y <? bb_stamp u) eqn:C; [by apply (Hs n)|]. specialize (Hs iu u eq_refl). lia.
        -- intros iu u ->. destruct (bb_stamp y <? bb_stamp u) eqn:C; [|by apply (Hs iu)]. specialize (Hs n y eq_refl). lia.
      * unfold better in Ev. destruct v as [[iu u]|].
        -- destruct (bb_stamp y <? bb_stamp u) eqn:C; injection Ev as <- <-; [left|right].
           ++ split; [exists 0%nat; split; [lia|done]|]. right. split; [|intros ? ? [= <- <-]; lia]. intros [|k] z Hz Bz; [injection Hz as <-; split; [done|lia]|by apply (Ho k)].
           ++ split; [done|]. intros [|k] z Hz Bz; [injection Hz as <-; split; [done|lia]|by apply (Ho k)].
        -- injection Ev as <- <-. left. split; [exists 0%nat; split; [lia|done]|]. right. split; [|done]. intros [|k] z Hz Bz; [injection Hz as <-; split; [done|lia]|by apply (Ho k)].
    + destruct IH as [E _]. unfold better in E. destruct v as [[iu u]|]; [destruct (_ <? _); discriminate|discriminate].
Qed.

(** One buffer changes. *)
Lemma bufs_ok_set l i x x' :
  bufs_ok l -> l !! i = Some x -> Z.of_nat (length (bb_data x')) = BIO_PAGE_BYTES -> (bb_valid x' = true -> bb_busy x' = false) ->
  (live x' = true -> forall j y, j <> i -> l !! j = Some y -> live y = true -> bb_page y = bb_page x' -> bb_drive y = bb_drive x' -> False) ->
  bufs_ok (<[i := x']> l).
Proof.
  intros [L Da Ap Ex] Hi Hl He Ha. pose proof (lookup_lt_Some _ _ _ Hi) as Li.
  assert (forall j y, <[i := x']> l !! j = Some y -> j = i /\ y = x' \/ j <> i /\ l !! j = Some y) as C.
  { intros j y Hy. destruct (decide (j = i)) as [->|Ne]; [rewrite list_lookup_insert_eq in Hy by done; injection Hy as <-; by left|]. rewrite list_lookup_insert_ne in Hy by done. by right. }
  split.
  - by rewrite length_insert.
  - intros j y Hy. destruct (C j y Hy) as [[-> ->]|[_ H]]; [done|by apply (Da j)].
  - intros j k y z Hy Hz Ly Lz Ep Ed. destruct (C j y Hy) as [[-> ->]|[Nj Hj]], (C k z Hz) as [[-> ->]|[Nk Hk]]; [done| | |by apply (Ap j k y z)].
    + destruct (Ha Ly k z Nk Hk Lz); by symmetry.
    + by destruct (Ha Lz j y Nj Hj Ly).
  - intros j y Hy. destruct (C j y Hy) as [[-> ->]|[_ H]]; [done|by apply (Ex j)].
Qed.

(** The same when the name and the state stay. *)
Lemma bufs_ok_same l i x x' :
  bufs_ok l -> l !! i = Some x -> length (bb_data x') = length (bb_data x) -> bb_page x' = bb_page x -> bb_drive x' = bb_drive x ->
  (bb_valid x' = true -> bb_busy x' = false) -> (live x' = true -> live x = true) -> bufs_ok (<[i := x']> l).
Proof.
  intros Ok Hi Hl Hp Hd He Hv. apply (bufs_ok_set l i x x' Ok Hi); [rewrite Hl; by apply (ck_data _ Ok i)|done|].
  intros Lx j y Nj Hj Ly Ep Ed. apply Nj. apply (ck_apart _ Ok j i y x Hj Hi Ly (Hv Lx)); congruence.
Qed.

Lemma begin_spec b drive page :
  match page_get_begin b drive page with
  | (GotWait, b') => b' = b /\ exists i x, bio_bufs b !! i = Some x /\ bb_busy x = true
  | (GotPage i, b') => exists x stamp, bio_bufs b !! i = Some x /\ bb_names drive page x = true /\ bb_valid x = true /\ bb_busy x = false /\
      bio_ready b' = bio_ready b /\ bio_bufs b' = <[i := mkBuf (bb_page x) stamp (bb_data x) (bb_drive x) (bb_valid x) (bb_busy x) (bb_stale x)]> (bio_bufs b)
  | (GotFetch i, b') => exists x, bio_bufs b !! i = Some x /\ bb_busy x = false /\ (bb_valid x = true -> oldest (bio_bufs b) x) /\
      (forall j y, bio_bufs b !! j = Some y -> bb_names drive page y = true -> live y = false) /\
      bio_ready b' = bio_ready b /\ bio_bufs b' = <[i := mkBuf page (bb_stamp x) (bb_data x) drive false true false]> (bio_bufs b)
  end \/ bio_bufs b = [].
Proof.
  destruct (bio_bufs b) as [|x0 l0] eqn:El; [by right|]. left. rewrite <- El. unfold page_get_begin.
  pose proof (page_find_spec (bio_bufs b) 0 drive page) as F. destruct (page_find _ _ _ _) as [|j x|].
  - destruct F as (i & x & Hi & _ & B). by split; [|exists i, x].
  - destruct F as (i & -> & Hi & Nm & B & V). by eexists x, _.
  - pose proof (pick_victim_spec (bio_bufs b) 0 None ltac:(discriminate)) as P. destruct (pick_victim _ _ _) as [[j x]|].
    + destruct P as [B [[(i & -> & Hi) Ho]|[E _]]]; [|discriminate]. exists x. split_and!; [done|done| |done|by destruct (bb_valid x)|by destruct (bb_valid x)].
      intros V. destruct Ho as [Ho|[Ho _]]; [congruence|done].
    + destruct P as [_ P]. split; [done|]. exists 0%nat, x0. rewrite El. split; [done|]. apply (P 0%nat). by rewrite El.
Qed.

Lemma end_spec b i x rv :
  bio_bufs b !! i = Some x ->
  exists o retry b' stamp, page_get_end b i rv = (o, retry, b') /\ bio_ready b' = bio_ready b /\
    if negb (rv =? 0) then o = None /\ retry = false /\ bio_bufs b' = <[i := mkBuf (2 ^ 64 - 1) (bb_stamp x) (bb_data x) (bb_drive x) (bb_valid x) false (bb_stale x)]> (bio_bufs b)
    else if bb_stale x then o = None /\ retry = true /\ bio_bufs b' = <[i := mkBuf (2 ^ 64 - 1) (bb_stamp x) (bb_data x) (bb_drive x) (bb_valid x) false false]> (bio_bufs b)
    else o = Some i /\ retry = false /\ bio_bufs b' = <[i := mkBuf (bb_page x) stamp (bb_data x) (bb_drive x) true false (bb_stale x)]> (bio_bufs b).
Proof. intros Hi. unfold page_get_end. rewrite Hi. destruct (negb _); [by eexists _, _, _, 0|]. destruct (bb_stale x); [by eexists _, _, _, 0|by eexists _, _, _, _]. Qed.

Lemma fill_spec b i x off src :
  bio_bufs b !! i = Some x -> bio_bufs (fill_buf b i off src) = <[i := with_data x (mem_copy (bb_data x) off src)]> (bio_bufs b) /\ bio_ready (fill_buf b i off src) = bio_ready b.
Proof. intros Hi. unfold fill_buf. by rewrite Hi. Qed.

Lemma run_facts lba nsec done : 0 <= lba -> 0 <= done < nsec -> lba + nsec < 2 ^ 64 ->
  w64 (lba + done) = lba + done /\ 0 < run_len lba nsec done <= nsec - done /\ run_within lba done + run_len lba nsec done <= 8 /\
  0 <= run_within lba done /\ 8 * run_page lba done + run_within lba done = lba + done /\ 0 <= run_page lba done.
Proof.
  intros Hl Hd Hw. unfold run_len, run_page, run_within. change BIO_SECTORS_PER_PAGE with 8. rewrite w64_small by lia.
  pose proof (Z.div_mod (lba + done) 8 ltac:(lia)). pose proof (Z.mod_pos_bound (lba + done) 8 ltac:(lia)). pose proof (Z.div_pos (lba + done) 8 ltac:(lia) ltac:(lia)).
  destruct (_ <? _) eqn:C; lia.
Qed.

(** ** What a write does to the table

    Bytes [lo, hi) of a drive became those of [f]: a page that is held takes
    them, a page on its way is marked. *)
Record patched (drive lo hi : Z) (f : Z -> Z) (x x' : bio_buf) : Prop := {
  pt_page : bb_page x' = bb_page x;
  pt_drive : bb_drive x' = bb_drive x;
  pt_valid : bb_valid x' = bb_valid x;
  pt_busy : bb_busy x' = bb_busy x;
  pt_stale : bb_stale x' = true <->
    bb_stale x = true \/ bb_busy x = true /\ bb_drive x = drive /\ lo < (bb_page x + 1) * BIO_PAGE_BYTES /\ bb_page x * BIO_PAGE_BYTES < hi;
  pt_length : length (bb_data x') = length (bb_data x);
  pt_data k : 0 <= k < BIO_PAGE_BYTES ->
    bb_data x' !! Z.to_nat k =
      if bb_valid x && (bb_drive x =? drive) && (lo <=? bb_page x * BIO_PAGE_BYTES + k) && (bb_page x * BIO_PAGE_BYTES + k <? hi)
      then Some (f (bb_page x * BIO_PAGE_BYTES + k)) else bb_data x !! Z.to_nat k;
}.

(** Two ranges side by side. *)
Lemma patched_app drive lo mid hi f x y z : lo < mid < hi -> patched drive lo mid f x y -> patched drive mid hi f y z -> patched drive lo hi f x z.
Proof.
  intros Hm [P1 P2 P3 P4 P5 P6 P7] [Q1 Q2 Q3 Q4 Q5 Q6 Q7]. split; try congruence.
  - rewrite Q5, P5, P4, P2, P1. unfold BIO_PAGE_BYTES. split; [intros [[?|(B & E & ? & ?)]|(B & E & ? & ?)]|intros [?|(B & E & ? & ?)]]; [by left| | |by left; left|]; clear - Hm B E H H0.
    1,2: right; split_and!; [done|done|lia|lia].
    destruct (Z.le_gt_cases mid (bb_page x * 4096)); [right|left; right]; split_and!; [done|done|lia|lia|done|done|lia|lia].
  - intros k Hk. rewrite (Q7 k Hk), (P7 k Hk), P1, P2, P3. unfold BIO_PAGE_BYTES. destruct (bb_valid x); [|done]. destruct (bb_drive x =? drive); [|done]. cbn [andb].
    set (a := bb_page x * 4096 + k). clearbody a. clear - Hm. destruct (Z.lt_ge_cases a mid).
    + replace ((mid <=? a) && (a <? hi)) with false by lia. by replace ((lo <=? a) && (a <? mid)) with ((lo <=? a) && (a <? hi)) by lia.
    + replace ((lo <=? a) && (a <? mid)) with false by lia. by replace ((mid <=? a) && (a <? hi)) with ((lo <=? a) && (a <? hi)) by lia.
Qed.

(** The bytes of a buffer by their address on the drive. *)
Definition from_addr (base : Z) (src : list Z) (a : Z) : Z := default 0 (src !! Z.to_nat (a - base)).

Lemma patched_other drive lo hi f x : (bb_names drive (lo / BIO_PAGE_BYTES) x = true -> live x = false) ->
  lo < hi -> hi <= (lo / BIO_PAGE_BYTES + 1) * BIO_PAGE_BYTES -> patched drive lo hi f x x.
Proof.
  intros Nm Hlo Hhi. unfold BIO_PAGE_BYTES in *. pose proof (Z.div_mod lo 4096 ltac:(lia)). pose proof (Z.mod_pos_bound lo 4096 ltac:(lia)). unfold live in Nm.
  assert (forall a, lo <= a < hi -> bb_drive x = drive -> bb_page x * 4096 <= a < (bb_page x + 1) * 4096 -> bb_valid x = false /\ bb_busy x = false) as No.
  { intros a Ha Hd Hp. assert (bb_names drive (lo / 4096) x = true) as Tr by (apply bb_names_true; split; [lia|done]). specialize (Nm Tr). by destruct (bb_valid x), (bb_busy x). }
  split; try done.
  - split; [by left|]. intros [?|(B & Hd & H1 & H2)]; [done|]. unfold BIO_PAGE_BYTES in *. destruct (No (Z.max lo (bb_page x * 4096))) as [_ ?]; [lia|done|lia|congruence].
  - intros k Hk. unfold BIO_PAGE_BYTES in *. destruct (bb_valid x && _ && _ && _) eqn:C; [|done]. destruct (No (bb_page x * 4096 + k)) as [H1 _]; [lia|lia|lia|]. rewrite H1 in C. discriminate.
Qed.

Lemma patched_busy drive lo hi f x : bb_busy x = true -> bb_valid x = false -> bb_page x = lo / BIO_PAGE_BYTES -> bb_drive x = drive -> lo < hi ->
  patched drive lo hi f x (mkBuf (bb_page x) (bb_stamp x) (bb_data x) (bb_drive x) (bb_valid x) (bb_busy x) true).
Proof.
  intros B V Hp Hd Hlo. unfold BIO_PAGE_BYTES in *. pose proof (Z.div_mod lo 4096 ltac:(lia)). pose proof (Z.mod_pos_bound lo 4096 ltac:(lia)).
  split; cbn; try done; [|by rewrite V]. split; [|done]. intros _. right. unfold BIO_PAGE_BYTES. split_and!; [done|done|lia|lia].
Qed.

Lemma patched_valid drive lo src x :
  bb_busy x = false -> bb_valid x = true -> bb_page x = lo / BIO_PAGE_BYTES -> bb_drive x = drive -> Z.of_nat (length (bb_data x)) = BIO_PAGE_BYTES ->
  0 <= lo -> lo mod BIO_PAGE_BYTES + Z.of_nat (length src) <= BIO_PAGE_BYTES ->
  patched drive lo (lo + Z.of_nat (length src)) (from_addr lo src) x (with_data x (mem_copy (bb_data x) (lo mod BIO_PAGE_BYTES) src)).
Proof.
  intros B V Hp Hd Hl Hlo Hm. unfold BIO_PAGE_BYTES in *. pose proof (Z.div_mod lo 4096 ltac:(lia)). pose proof (Z.mod_pos_bound lo 4096 ltac:(lia)). split; cbn; try done.
  - split; [by left|]. intros [?|[? _]]; [done|congruence].
  - apply mem_copy_length; lia.
  - intros k Hk. unfold BIO_PAGE_BYTES in *. rewrite mem_copy_lookup, V, Hd, Z.eqb_refl, Hp by lia. cbn [andb]. set (page := lo / 4096) in *. set (off := lo mod 4096) in *.
    replace ((lo <=? page * 4096 + k) && _) with ((off <=? k) && (k <? off + Z.of_nat (length src))) by lia.
    destruct (_ && _) eqn:C; [|done]. unfold from_addr. replace (page * 4096 + k - lo) with (k - off) by lia.
    destruct (src !! Z.to_nat (k - off)) eqn:E; [done|]. apply lookup_ge_None in E. lia.
Qed.

Lemma patch_bufs_spec l drive lo src :
  bufs_ok l -> 0 <= lo -> 0 < Z.of_nat (length src) -> lo mod BIO_PAGE_BYTES + Z.of_nat (length src) <= BIO_PAGE_BYTES ->
  Forall2 (patched drive lo (lo + Z.of_nat (length src)) (from_addr lo src)) l (patch_bufs l drive (lo / BIO_PAGE_BYTES) (lo mod BIO_PAGE_BYTES) src).1.
Proof.
  intros Ok Hlo Hs Hm. set (R := patched drive lo (lo + Z.of_nat (length src)) (from_addr lo src)). set (page := lo / BIO_PAGE_BYTES).
  assert (forall x, (bb_names drive page x = true -> live x = false) -> R x x) as Oth.
  { intros x Hx. apply patched_other; [done|lia|]. clear - Hlo Hm. unfold BIO_PAGE_BYTES in *. pose proof (Z.div_mod lo 4096 ltac:(lia)). lia. }
  assert (forall i j x y, l !! i = Some x -> l !! j = Some y -> bb_names drive page x = true -> bb_names drive page y = true -> live x = true -> live y = true -> i = j) as Ap.
  { intros i j x y Hx Hy Nx Ny Lx Ly. apply bb_names_true in Nx, Ny. by apply (ck_apart _ Ok i j x y); try done; destruct Nx, Ny; congruence. }
  pose proof (ck_data _ Ok) as Len. pose proof (ck_excl _ Ok) as Ex.
  clear Ok. induction l as [|x l IH]; cbn [patch_bufs]; [constructor|].
  assert (Forall2 R l (patch_bufs l drive page (lo mod BIO_PAGE_BYTES) src).1) as IH'.
  { apply IH; [|intros i y Hy; by apply (Len (S i))|intros i y Hy; by apply (Ex (S i))]. intros i j y z Hy Hz Ny Nz Ly Lz. by injection (Ap (S i) (S j) y z Hy Hz Ny Nz Ly Lz). }
  destruct (patch_bufs l drive page _ src) as [l' p']; cbn [fst] in *. destruct (bb_names drive page x) eqn:Nx; cbn [negb]; [|constructor; [apply Oth; congruence|done]].
  assert (live x = true -> Forall2 R l l) as Rest.
  { intros Lx. apply Forall2_same_length_lookup_2; [done|]. intros i y z Hy Hz. rewrite Hy in Hz. injection Hz as <-. apply Oth. intros Ny. destruct (live y) eqn:Ly; [|done].
    specialize (Ap 0%nat (S i) x y eq_refl Hy Nx Ny Lx Ly). discriminate. }
  apply bb_names_true in Nx as [Np Nd]. specialize (Len 0%nat x eq_refl). specialize (Ex 0%nat x eq_refl). unfold live in *. destruct (bb_busy x) eqn:Bx; [|destruct (bb_valid x) eqn:Vx; cbn [negb]].
  - assert (bb_valid x = false) as Vx by (destruct (bb_valid x); [by discriminate Ex|done]).
    pose proof (patched_busy drive lo (lo + Z.of_nat (length src)) (from_addr lo src) x Bx Vx Np Nd ltac:(lia)) as P. rewrite Bx in P. constructor; [exact P|apply Rest; by rewrite orb_true_r].
  - constructor; [by apply patched_valid|by apply Rest].
  - constructor; [apply Oth; intros _; by rewrite Vx, Bx|done].
Qed.

Lemma patched_ext drive lo hi f g x x' : (forall a, lo <= a < hi -> f a = g a) -> patched drive lo hi f x x' -> patched drive lo hi g x x'.
Proof.
  intros E [P1 P2 P3 P4 P5 P6 P7]. split; try done. intros k Hk. rewrite (P7 k Hk). destruct (_ && _ && _ && _) eqn:C; [|done]. f_equal. apply E.
  clear - C. lia.
Qed.

Lemma patched_live drive lo hi f x x' : patched drive lo hi f x x' -> live x' = live x.
Proof. intros P. unfold live. by rewrite (pt_valid _ _ _ _ _ _ P), (pt_busy _ _ _ _ _ _ P). Qed.

Lemma patched_ok drive lo hi f l l' : bufs_ok l -> Forall2 (patched drive lo hi f) l l' -> bufs_ok l'.
Proof.
  intros [L Da Ap Ex] F. split.
  - apply list.Forall2_length in F; congruence.
  - intros i x' Hx'. destruct (Forall2_lookup_r _ _ _ _ _ F Hx') as (x & Hx & P). rewrite (pt_length _ _ _ _ _ _ P). by apply (Da i).
  - intros i j x' y' Hx' Hy' Lx Ly Ep Ed. destruct (Forall2_lookup_r _ _ _ _ _ F Hx') as (x & Hx & P), (Forall2_lookup_r _ _ _ _ _ F Hy') as (y & Hy & Q).
    rewrite (patched_live _ _ _ _ _ _ P) in Lx. rewrite (patched_live _ _ _ _ _ _ Q) in Ly. destruct P, Q. apply (Ap i j x y Hx Hy Lx Ly); congruence.
  - intros i x' Hx' V. destruct (Forall2_lookup_r _ _ _ _ _ F Hx') as (x & Hx & P). destruct P. rewrite pt_busy0. apply (Ex i x Hx). congruence.
Qed.

Lemma Forall2_patched_app drive lo mid hi f l l' l'' :
  lo < mid < hi -> Forall2 (patched drive lo mid f) l l' -> Forall2 (patched drive mid hi f) l' l'' -> Forall2 (patched drive lo hi f) l l''.
Proof. intros Hm F G. revert l'' G. induction F as [|x y l l' P F IH]; intros l'' G; inversion G; subst; constructor; [by eapply patched_app|by apply IH]. Qed.

Lemma patch_page_spec b drive lba nsec done src :
  bufs_ok (bio_bufs b) -> 0 <= lba -> 0 <= done < nsec -> lba + nsec < 2 ^ 64 -> Z.of_nat (length src) = nsec * BIO_SECTOR_BYTES ->
  let run := run_len lba nsec done in
  let b' := patch_page b drive (run_page lba done) (run_within lba done * BIO_SECTOR_BYTES) (slice (done * BIO_SECTOR_BYTES) (run * BIO_SECTOR_BYTES) src) in
  Forall2 (patched drive ((lba + done) * BIO_SECTOR_BYTES) ((lba + done + run) * BIO_SECTOR_BYTES) (from_addr (lba * BIO_SECTOR_BYTES) src)) (bio_bufs b) (bio_bufs b').
Proof.
  intros Ok Hl Hd Hw Hs run b'. destruct (run_facts lba nsec done Hl Hd Hw) as (_ & R1 & R2 & R3 & R4 & R5). fold run in R1, R2. unfold BIO_SECTOR_BYTES in *.
  set (part := slice (done * 512) (run * 512) src). assert (Z.of_nat (length part) = run * 512) as Lp by (apply slice_length; lia).
  assert (bio_bufs b' = (patch_bufs (bio_bufs b) drive (run_page lba done) (run_within lba done * 512) part).1) as ->.
  { unfold b', patch_page. fold part. by destruct (patch_bufs _ _ _ _ _) as [l []]. }
  assert (run_page lba done = (lba + done) * 512 / BIO_PAGE_BYTES /\ run_within lba done * 512 = (lba + done) * 512 mod BIO_PAGE_BYTES) as [-> ->].
  { split; [apply (Z.div_unique_pos _ _ _ (run_within lba done * 512))|apply (Z.mod_unique_pos _ _ (run_page lba done))]; unfold BIO_PAGE_BYTES; lia. }
  pose proof (patch_bufs_spec (bio_bufs b) drive ((lba + done) * 512) part Ok ltac:(lia) ltac:(lia)) as F. rewrite Lp in F.
  replace ((lba + done + run) * 512) with ((lba + done) * 512 + run * 512) by lia. eapply List.Forall2_impl; [|apply F]; swap 1 2.
  - assert ((lba + done) * 512 mod BIO_PAGE_BYTES = run_within lba done * 512) as ->; [|unfold BIO_PAGE_BYTES; lia].
    symmetry. apply (Z.mod_unique_pos _ _ (run_page lba done)); unfold BIO_PAGE_BYTES; lia.
  - intros x y. apply patched_ext. intros a Ha. unfold from_addr. f_equal. unfold part. replace (a - (lba + done) * 512) with (a - (lba + done) * 512) by lia. rewrite slice_lookup by lia. f_equal. lia.
Qed.

Lemma patch_loop_spec n b drive lba nsec done src :
  bufs_ok (bio_bufs b) -> 0 <= lba -> 0 <= done < nsec -> lba + nsec < 2 ^ 64 -> Z.of_nat (length src) = nsec * BIO_SECTOR_BYTES -> nsec - done <= Z.of_nat n ->
  Forall2 (patched drive ((lba + done) * BIO_SECTOR_BYTES) ((lba + nsec) * BIO_SECTOR_BYTES) (from_addr (lba * BIO_SECTOR_BYTES) src)) (bio_bufs b) (bio_bufs (patch_loop n b drive lba nsec done src)).
Proof.
  intros Ok Hl Hd Hw Hs. revert b done Ok Hd. induction n as [|n IH]; intros b done Ok Hd Hn; [lia|]. cbn [patch_loop]. replace (done <? nsec) with true by lia.
  destruct (run_facts lba nsec done Hl Hd Hw) as (_ & R1 & _). pose proof (patch_page_spec b drive lba nsec done src Ok Hl Hd Hw Hs) as P. cbv zeta in P.
  set (b1 := patch_page _ _ _ _ _) in *. destruct (decide (done + run_len lba nsec done = nsec)) as [E|Ne].
  - rewrite E. replace (lba + done + run_len lba nsec done) with (lba + nsec) in P by lia. destruct n; cbn [patch_loop]; [done|]. by replace (nsec <? nsec) with false by lia.
  - eapply Forall2_patched_app; [|exact P|]; [unfold BIO_SECTOR_BYTES; lia|]. rewrite <- Z.add_assoc. apply IH; [by eapply patched_ok|lia|lia].
Qed.

(** What the locked part of a write does. *)
Lemma bio_patch_spec b drive lba nsec src :
  bufs_ok (bio_bufs b) -> bio_ready b = true -> 0 <= lba -> 0 < nsec -> lba + nsec < 2 ^ 64 -> Z.of_nat (length src) = nsec * BIO_SECTOR_BYTES ->
  Forall2 (patched drive (lba * BIO_SECTOR_BYTES) ((lba + nsec) * BIO_SECTOR_BYTES) (from_addr (lba * BIO_SECTOR_BYTES) src)) (bio_bufs b) (bio_bufs (bio_patch b drive lba nsec src)).
Proof.
  intros Ok Rd Hl Hn Hw Hs. unfold bio_patch. rewrite Rd. cbn [negb]. pose proof (patch_loop_spec (Z.to_nat nsec) (count_write b) drive lba nsec 0 src Ok Hl ltac:(lia) Hw Hs ltac:(lia)) as P.
  by rewrite Z.add_0_r in P.
Qed.

Lemma patch_loop_ready n b drive lba nsec d src : bio_ready (patch_loop n b drive lba nsec d src) = bio_ready b.
Proof.
  revert b d. induction n as [|n IH]; intros b d; cbn [patch_loop]; [done|]. destruct (d <? nsec); [|done]. rewrite IH. unfold patch_page. by destruct (patch_bufs _ _ _ _ _) as [l []].
Qed.

(** * One caller *)

Class DiskSpec (D : Type) `{DiskOps D} := {
  disk_byte : D -> Z -> Z -> Z;
  disk_good : D -> Z -> Z -> Prop;
  disk_byte_range dk drive a : 0 <= disk_byte dk drive a < 256;
  kread_spec dk drive lba n rv data dk' : 0 <= lba -> 0 < n -> lba + n < 2 ^ 64 -> ata_kread dk drive lba n = (rv, data, dk') ->
    Z.of_nat (length data) = n * BIO_SECTOR_BYTES /\ disk_byte dk' = disk_byte dk /\ disk_good dk' = disk_good dk /\
    (rv = 0 -> data = span (disk_byte dk drive) (lba * BIO_SECTOR_BYTES) (n * BIO_SECTOR_BYTES)) /\ ((forall s, lba <= s < lba + n -> disk_good dk drive s) -> rv = 0);
  kwrite_spec dk drive lba n src rv dk' : 0 <= lba -> 0 < n -> lba + n < 2 ^ 64 -> Z.of_nat (length src) = n * BIO_SECTOR_BYTES -> Forall (fun x => 0 <= x < 256) src -> ata_kwrite dk drive lba n src = (rv, dk') ->
    (forall d a, d <> drive \/ a < lba * BIO_SECTOR_BYTES \/ (lba + n) * BIO_SECTOR_BYTES <= a -> disk_byte dk' d a = disk_byte dk d a) /\
    (rv = 0 -> span (disk_byte dk' drive) (lba * BIO_SECTOR_BYTES) (n * BIO_SECTOR_BYTES) = src);
}.

Section lone.
Context {D : Type} `{DiskSpec D}.
Implicit Types (b : bio) (dk : D).

(** No fetch is under way, and every page held is the disk's. *)
Record settled b dk : Prop := {
  st_ok : bufs_ok (bio_bufs b);
  st_idle i x : bio_bufs b !! i = Some x -> bb_busy x = false;
  st_same i x : bio_bufs b !! i = Some x -> bb_valid x = true ->
    0 <= bb_page x /\ bb_data x = span (disk_byte dk (bb_drive x)) (bb_page x * BIO_PAGE_BYTES) BIO_PAGE_BYTES;
}.

Lemma settled_set b dk b' i x x' :
  settled b dk -> bio_bufs b !! i = Some x -> bio_bufs b' = <[i := x']> (bio_bufs b) -> bufs_ok (bio_bufs b') -> bb_busy x' = false ->
  (bb_valid x' = true -> 0 <= bb_page x' /\ bb_data x' = span (disk_byte dk (bb_drive x')) (bb_page x' * BIO_PAGE_BYTES) BIO_PAGE_BYTES) -> settled b' dk.
Proof.
  intros [Ok Id Sa] Hi Eb Ok' B V. pose proof (lookup_lt_Some _ _ _ Hi) as Li. split; [done| |]; intros j y; rewrite Eb; destruct (decide (j = i)) as [->|Ne].
  - rewrite list_lookup_insert_eq by done. by intros [= <-].
  - rewrite list_lookup_insert_ne by done. apply Id.
  - rewrite list_lookup_insert_eq by done. by intros [= <-].
  - rewrite list_lookup_insert_ne by done. apply Sa.
Qed.

(** All sectors of a page can be read. *)
Definition page_good dk (drive page : Z) : Prop :=
  forall s, page * BIO_SECTORS_PER_PAGE <= s < (page + 1) * BIO_SECTORS_PER_PAGE -> disk_good dk drive s.

Lemma page_get_ok b dk drive page :
  settled b dk -> 0 <= page -> (page + 1) * BIO_SECTORS_PER_PAGE < 2 ^ 64 ->
  exists o b' dk', page_get b dk drive page = Some (o, false, b', dk') /\ settled b' dk' /\ disk_byte dk' = disk_byte dk /\ disk_good dk' = disk_good dk /\ bio_ready b' = bio_ready b /\
    match o with
    | Some i => exists x, bio_bufs b' !! i = Some x /\ bb_data x = span (disk_byte dk drive) (page * BIO_PAGE_BYTES) BIO_PAGE_BYTES
    | None => ~ page_good dk drive page
    end.
Proof.
  intros St Hp Hw. change BIO_SECTORS_PER_PAGE with 8 in *. unfold page_get. destruct (begin_spec b drive page) as [G|E]; [|pose proof (ck_length _ (st_ok _ _ St)) as L; rewrite E in L; discriminate].
  destruct (page_get_begin b drive page) as [[i| |i] b1].
  - destruct G as (x & stamp & Hi & Nm & V & B & Rd & Eb). pose proof (lookup_lt_Some _ _ _ Hi) as Li. apply bb_names_true in Nm as [<- <-].
    destruct (st_same _ _ St i x Hi V) as [_ Sx]. exists (Some i), b1, dk. split; [done|]. split_and!; [|done|done|done|].
    + apply (settled_set b dk b1 i x _ St Hi Eb); [rewrite Eb; apply (bufs_ok_same _ i x _ (st_ok _ _ St) Hi); done|done|done].
    + eexists. split; [rewrite Eb; by apply list_lookup_insert_eq|done].
  - destruct G as [_ (i & x & Hi & B)]. rewrite (st_idle _ _ St i x Hi) in B. discriminate.
  - destruct G as (x & Hi & B & _ & Free & Rd & Eb). pose proof (lookup_lt_Some _ _ _ Hi) as Li.
    change BIO_SECTORS_PER_PAGE with 8. destruct (ata_kread dk drive (w64 (page * 8)) 8) as [[rv data] dk1] eqn:Er.
    rewrite w64_small in Er by lia. destruct (kread_spec dk drive (page * 8) 8 rv data dk1 ltac:(lia) ltac:(lia) ltac:(lia) Er) as (Ld & Ec & Eg & Good & All).
    pose proof (ck_data _ (st_ok _ _ St) i x Hi) as Lx. unfold BIO_SECTOR_BYTES, BIO_PAGE_BYTES in *.
    set (x1 := mkBuf page (bb_stamp x) (bb_data x) drive false true false) in *.
    assert (bio_bufs b1 !! i = Some x1) as H1 by (rewrite Eb; by apply list_lookup_insert_eq). destruct (fill_spec b1 i x1 0 data H1) as [Ef Rf].
    assert (mem_copy (bb_data x1) 0 data = data) as Ed. { unfold mem_copy. cbn [Z.to_nat take app Nat.add]. rewrite drop_ge by (unfold x1; cbn [bb_data]; lia). by rewrite app_nil_r. }
    rewrite Ed, Eb, list_insert_insert_eq in Ef. assert (bio_bufs (fill_buf b1 i 0 data) !! i = Some (with_data x1 data)) as H2 by (rewrite Ef; by apply list_lookup_insert_eq).
    destruct (end_spec _ i _ rv H2) as (o & retry & b' & stamp & -> & Rd' & E). rewrite Ef, !list_insert_insert_eq in E.
    assert (settled b dk1) as St1. { destruct St as [S1 S2 S3]. split; [done|done|]. by rewrite Ec. }
    unfold x1 in E; cbn [with_data bb_page bb_data bb_drive bb_valid bb_stale bb_stamp] in E. destruct (rv =? 0) eqn:Erv; cbn [negb] in E.
    + specialize (Good ltac:(lia)). destruct E as (-> & -> & E). eexists _, b', dk1. split; [reflexivity|]. replace (page * 4096) with (page * 8 * 512) by lia. split_and!; [|done|done|congruence|].
      * apply (settled_set b dk1 b' i x _ St1 Hi E); [|done|].
        -- rewrite E. apply (bufs_ok_set _ i x _ (st_ok _ _ St1) Hi); [exact Ld|done|]. cbn. intros _ j y _ Hj Ly Ep Ey. rewrite (Free j y Hj) in Ly; [done|]. by apply bb_names_true.
        -- cbn. intros _. split; [done|]. rewrite Ec, Good. unfold BIO_PAGE_BYTES. f_equal; lia.
      * eexists. split; [rewrite E; by apply list_lookup_insert_eq|]. cbn. by rewrite Good.
    + destruct E as (-> & -> & E). eexists _, b', dk1. split; [reflexivity|]. split_and!; [|done|done|congruence|intros Pg; rewrite All in Erv; [done|]; intros s Hs; apply Pg; change BIO_SECTORS_PER_PAGE with 8; lia].
      apply (settled_set b dk1 b' i x _ St1 Hi E); [|done|done]. rewrite E. by apply (bufs_ok_set _ i x _ (st_ok _ _ St1) Hi); [exact Ld|done|].
Qed.

(** ** Reading a run of sectors *)

Lemma copy_run_eq b i x f lba nsec done :
  bio_bufs b !! i = Some x -> bb_data x = span f (run_page lba done * BIO_PAGE_BYTES) BIO_PAGE_BYTES ->
  0 <= lba -> 0 <= done < nsec -> lba + nsec < 2 ^ 64 ->
  copy_run b i lba nsec done = span f ((lba + done) * BIO_SECTOR_BYTES) (run_len lba nsec done * BIO_SECTOR_BYTES).
Proof.
  intros Hi Hx Hl Hd Hw. destruct (run_facts lba nsec done Hl Hd Hw) as (_ & R1 & R2 & R3 & R4 & R5).
  unfold copy_run, BIO_PAGE_BYTES, BIO_SECTOR_BYTES in *. rewrite Hi, Hx, span_slice by lia. f_equal; lia.
Qed.

Lemma read_loop_ok n b dk drive lba nsec done out :
  settled b dk -> 0 <= lba -> lba + nsec + 8 < 2 ^ 64 -> 0 <= done <= nsec -> nsec - done < Z.of_nat n ->
  exists rv out' b' dk', read_loop n b dk drive lba nsec done out = Some (rv, out', b', dk') /\ settled b' dk' /\ disk_byte dk' = disk_byte dk /\ disk_good dk' = disk_good dk /\ bio_ready b' = bio_ready b /\
    (rv = 0 -> out' = out ++ span (disk_byte dk drive) ((lba + done) * BIO_SECTOR_BYTES) ((nsec - done) * BIO_SECTOR_BYTES)) /\
    ((forall s, lba <= s < lba + nsec -> page_good dk drive (s / BIO_SECTORS_PER_PAGE)) -> rv = 0).
Proof.
  intros St Hl Hw. revert b dk done out St. induction n as [|n IH]; intros b dk done out St Hd Hn; [lia|]. cbn [read_loop]. destruct (done <? nsec) eqn:C.
  - destruct (run_facts lba nsec done Hl ltac:(lia) ltac:(lia)) as (_ & R1 & R2 & R3 & R4 & R5).
    destruct (page_get_ok b dk drive (run_page lba done) St R5) as (o & b1 & dk1 & -> & St1 & Ec & Eg & Rd & Ho); [change BIO_SECTORS_PER_PAGE with 8; lia|].
    destruct o as [i|]; [|eexists 1, out, b1, dk1; split_and!; try done; intros Pg; destruct Ho; replace (run_page lba done) with ((lba + done) / BIO_SECTORS_PER_PAGE); [apply Pg; lia|]; unfold run_page; by rewrite w64_small by lia].
    destruct Ho as (x & Hi & Hx).
    destruct (IH b1 dk1 (done + run_len lba nsec done) (out ++ copy_run b1 i lba nsec done) St1 ltac:(lia) ltac:(lia)) as (rv & out' & b2 & dk2 & -> & St2 & Ec2 & Eg2 & Rd2 & Hr & Hg).
    eexists rv, out', b2, dk2. split_and!; [done|done|congruence|congruence|congruence| |intros Pg; apply Hg; unfold page_good in *; by rewrite Eg]. intros Hrv. rewrite (Hr Hrv), Ec, <- app_assoc.
    rewrite (copy_run_eq b1 i x _ lba nsec done Hi Hx) by lia. f_equal. unfold BIO_SECTOR_BYTES. rewrite (Z.add_assoc lba), (Z.mul_add_distr_r (lba + done)), <- span_app by lia. f_equal; lia.
  - eexists 0, out, b, dk. split_and!; [done|done|done|done|done| |done]. intros _. replace (nsec - done) with 0 by lia. by rewrite app_nil_r.
Qed.

(** A read through the cache is a read of the device. *)
Lemma bio_read_ok n b dk drive lba nsec :
  settled b dk -> 0 <= lba -> 0 <= nsec -> lba + nsec + 8 < 2 ^ 64 -> nsec < Z.of_nat n -> bio_ready b = true ->
  exists rv out b' dk', bio_read n b dk drive lba nsec = Some (rv, out, b', dk') /\ settled b' dk' /\ disk_byte dk' = disk_byte dk /\ disk_good dk' = disk_good dk /\ bio_ready b' = true /\
    (rv = 0 -> out = span (disk_byte dk drive) (lba * BIO_SECTOR_BYTES) (nsec * BIO_SECTOR_BYTES)) /\
    ((forall s, lba <= s < lba + nsec -> page_good dk drive (s / BIO_SECTORS_PER_PAGE)) -> rv = 0).
Proof.
  intros St Hl Hs Hw Hn Rd. unfold bio_read. rewrite Rd. cbn [negb]. destruct (nsec =? 0) eqn:C.
  - eexists 0, [], b, dk. split_and!; [done|done|done|done|done| |done]. intros _. by replace nsec with 0 by lia.
  - assert (settled (count_req b) dk) as St' by (destruct St; by split).
    destruct (read_loop_ok n (count_req b) dk drive lba nsec 0 [] St' Hl Hw ltac:(lia) ltac:(lia)) as (rv & out & b' & dk' & E & St1 & Ec & Eg & Rd1 & Hr & Hg).
    eexists rv, out, b', dk'. split_and!; [done|done|done|done|by rewrite Rd1| |done]. intros Hrv. rewrite (Hr Hrv). cbn [app]. f_equal; lia.
Qed.

(** ** Writing *)

Lemma bio_write_ok b dk drive lba nsec src rv b' dk' :
  settled b dk -> bio_ready b = true -> 0 <= lba -> 0 < nsec -> lba + nsec < 2 ^ 64 -> Z.of_nat (length src) = nsec * BIO_SECTOR_BYTES -> Forall (fun x => 0 <= x < 256) src ->
  bio_write b dk drive lba nsec src = (rv, b', dk') ->
  bio_ready b' = true /\
  (forall d a, d <> drive \/ a < lba * BIO_SECTOR_BYTES \/ (lba + nsec) * BIO_SECTOR_BYTES <= a -> disk_byte dk' d a = disk_byte dk d a) /\
  (rv <> 0 -> b' = b) /\ (rv = 0 -> settled b' dk' /\ span (disk_byte dk' drive) (lba * BIO_SECTOR_BYTES) (nsec * BIO_SECTOR_BYTES) = src).
Proof.
  intros St Rd Hl Hn Hw Hs Hb. unfold bio_write. replace (nsec =? 0) with false by lia. destruct (ata_kwrite dk drive lba nsec src) as [rv0 dk0] eqn:Ew.
  destruct (kwrite_spec dk drive lba nsec src rv0 dk0 Hl Hn Hw Hs Hb Ew) as [Out In]. destruct (rv0 =? 0) eqn:C; cbn [negb]; intros [= <- <- <-]; [|by split_and!; [|..|lia]].
  specialize (In ltac:(lia)). pose proof (bio_patch_spec b drive lba nsec src (st_ok _ _ St) Rd Hl Hn Hw Hs) as P. pose proof (patched_ok _ _ _ _ _ _ (st_ok _ _ St) P) as Ok'.
  split_and!; [|done|done|intros _; split; [split|]]; [|done| | |done].
  - unfold bio_patch. rewrite Rd. cbn [negb]. by rewrite patch_loop_ready.
  - intros i x' Hx'. destruct (Forall2_lookup_r _ _ _ _ _ P Hx') as (x & Hx & [? ? ? -> ? ? ?]). by apply (st_idle _ _ St i).
  - intros i x' Hx' V. destruct (Forall2_lookup_r _ _ _ _ _ P Hx') as (x & Hx & [Ep Ed Ev _ _ El Eb]). rewrite Ev in V. destruct (st_same _ _ St i x Hx V) as [Hp Sx].
    rewrite Ep, Ed. split; [done|]. apply span_eq; [done|exact (ck_data _ Ok' i x' Hx')|]. intros k Hk. rewrite (Eb k Hk), V. cbn [andb].
    destruct (_ && _ && _) eqn:C2.
    + f_equal. unfold from_addr. rewrite <- In. rewrite span_lookup by (unfold BIO_SECTOR_BYTES in *; lia). cbn. replace (bb_drive x) with drive by lia. f_equal. lia.
    + rewrite Sx, span_lookup by done. f_equal. symmetry. apply Out. lia.
Qed.

End lone.

(** ** Booting *)

Lemma boot_bufs arena : Z.of_nat (length arena) = Z.of_nat BIO_NBUFS * BIO_PAGE_BYTES ->
  bufs_ok (bio_bufs (bio_init (Some arena) bio_zero)) /\ forall i x, bio_bufs (bio_init (Some arena) bio_zero) !! i = Some x -> bb_valid x = false /\ bb_busy x = false.
Proof.
  intros La.
  assert (forall i x, bio_bufs (bio_init (Some arena) bio_zero) !! i = Some x -> bb_valid x = false /\ bb_busy x = false /\ Z.of_nat (length (bb_data x)) = BIO_PAGE_BYTES) as All.
  { intros i x. cbn [bio_init bio_bufs bio_zero]. rewrite list_lookup_imap. intros Hx. apply fmap_Some in Hx as (y & Hy & ->). apply lookup_replicate in Hy as [-> Hi].
    cbn [bb_valid bb_busy bb_data]. split_and!; [done|done|]. apply slice_length; unfold BIO_NBUFS, BIO_PAGE_BYTES in *; lia. }
  split; [split|intros i x Hx; by destruct (All i x Hx) as (? & ? & _)].
  - cbn [bio_init bio_bufs bio_zero]. by rewrite length_imap, length_replicate.
  - intros i x Hx. by apply (All i).
  - intros i j x y Hx _ L _ _ _. destruct (All i x Hx) as (V & B & _). unfold live in L. by rewrite V, B in L.
  - intros i x Hx. by destruct (All i x Hx) as (_ & -> & _).
Qed.

Lemma bio_init_settled {D} `{DiskSpec D} arena (dk : D) :
  Z.of_nat (length arena) = Z.of_nat BIO_NBUFS * BIO_PAGE_BYTES -> settled (bio_init (Some arena) bio_zero) dk /\ bio_ready (bio_init (Some arena) bio_zero) = true.
Proof.
  intros La. destruct (boot_bufs arena La) as [Ok All]. split; [|done]. split; [done|intros i x Hx; by apply (All i)|]. intros i x Hx V. by destruct (All i x Hx) as [Nv _]; rewrite Nv in V.
Qed.

(** * What the cache promises to the file systems *)

Class BlockOps (B : Type) := { bread : B -> Z -> Z -> Z -> Z * list Z * B }.

Class BlockSpec (B : Type) `{BlockOps B} := {
  block_inv : B -> Prop;
  block_byte : B -> Z -> Z -> Z;
  block_good : B -> Z -> Z -> Prop;
  block_byte_range b drive a : 0 <= block_byte b drive a < 256;
  bread_spec b drive lba n rv out b' : block_inv b -> 0 <= lba -> 0 < n -> lba + n + 8 < 2 ^ 64 -> bread b drive lba n = (rv, out, b') ->
    block_inv b' /\ block_byte b' = block_byte b /\ block_good b' = block_good b /\
    (rv = 0 -> out = span (block_byte b drive) (lba * BIO_SECTOR_BYTES) (n * BIO_SECTOR_BYTES)) /\
    ((forall s, lba <= s < lba + n -> block_good b drive s) -> rv = 0);
}.

(** A read that would wait for another caller is no read of a lone one. *)
#[export] Instance bio_block_ops {D} `{DiskOps D} : BlockOps (bio * D) := {
  bread '(b, dk) drive lba n :=
    match bio_read (S (Z.to_nat n)) b dk drive lba n with
    | Some (rv, out, b, dk) => (rv, out, (b, dk))
    | None => (1, [], (b, dk))
    end
}.

#[export] Program Instance bio_block_spec {D} `{DiskSpec D} : BlockSpec (bio * D) := {
  block_inv '(b, dk) := settled b dk /\ bio_ready b = true;
  block_byte '(b, dk) := disk_byte dk;
  block_good '(b, dk) drive s := page_good dk drive (s / BIO_SECTORS_PER_PAGE);
}.
Next Obligation. intros D ? ? [b dk] drive a. apply disk_byte_range. Qed.
Next Obligation.
  intros D ? ? [b dk] drive lba n rv out [b' dk'] [St Rd] Hl Hn Hw. cbn [bread bio_block_ops].
  destruct (bio_read_ok (S (Z.to_nat n)) b dk drive lba n St Hl ltac:(lia) Hw ltac:(lia) Rd) as (rv1 & out1 & b1 & dk1 & -> & St1 & Ec & Eg & Rd1 & Hr & Hg).
  intros [= -> -> -> ->]. unfold page_good in *. split_and!; [done|done|done|by rewrite Eg|done|done].
Qed.
