(* ===== verification/BioShared.v ===== *)
(** The block cache under many threads.  Lookups drop the lock for the device,
    the device moves one sector at a time, writes reach the device before the
    cache, and all of it interleaves.  The theorem: nobody can tell the cache
    from a disk without one, in which every byte of a write takes effect at one
    instant between its call and its return. *)

From stdpp Require Import base list gmap strings numbers option relations.
From Stdlib Require Import ZArith Lia ZifyBool.
From S2P Require Import Prelude Bio.

(** * Threads in the block layer *)

(** [Reader]: at the head of the loop of [bio_read].  [Fetcher]: in [ata_kread]
    for buffer [i], with [k] sectors of the page in it.  [Writer]: in
    [ata_kwrite], with [k] sectors on the disk. *)
Inductive thr :=
| Reader (drive lba nsec at_ : Z) (out : list Z)
| Fetcher (drive lba nsec at_ : Z) (out : list Z) (i : nat) (k : Z)
| Writer (drive lba nsec : Z) (src : list Z) (k : Z).

Record shared := mkShared { sh_bio : bio; sh_disk : Z -> Z -> Z; sh_thr : gmap Z thr }.

Inductive label :=
| Tau
| Call (t : Z) (x : thr)
| Ret (t rv : Z) (out : list Z).

(** Sectors [lba, lba + n) of a drive take the bytes of [src]. *)
Definition put_sectors (f : Z -> Z -> Z) (drive lba n : Z) (src : list Z) : Z -> Z -> Z := fun d a =>
  if (d =? drive) && (lba * BIO_SECTOR_BYTES <=? a) && (a <? (lba + n) * BIO_SECTOR_BYTES) then from_addr (lba * BIO_SECTOR_BYTES) src a else f d a.

(** A request the file systems make: in the range of 64 bits. *)
Definition request (lba nsec : Z) : Prop := 0 <= lba /\ 0 < nsec /\ lba + nsec + 8 < 2 ^ 64.

(** Writes to the same sectors are not in flight together: the file layer
    holds the volume's lock. *)
Definition no_overlap (m : gmap Z thr) (drive lba nsec : Z) : Prop :=
  forall t d l n src k, m !! t = Some (Writer d l n src k) -> d <> drive \/ l + n <= lba \/ lba + nsec <= l.

Definition sector (f : Z -> Z -> Z) (drive s : Z) : list Z := span (f drive) (s * BIO_SECTOR_BYTES) BIO_SECTOR_BYTES.

Inductive step : shared -> label -> shared -> Prop :=
| s_read b f m t drive lba nsec : m !! t = None -> request lba nsec ->
    step (mkShared b f m) (Call t (Reader drive lba nsec 0 [])) (mkShared (count_req b) f (<[t := Reader drive lba nsec 0 []]> m))
| s_hit b f m t drive lba nsec at_ out i b' : m !! t = Some (Reader drive lba nsec at_ out) -> at_ < nsec ->
    page_get_begin b drive (run_page lba at_) = (GotPage i, b') ->
    step (mkShared b f m) Tau (mkShared b' f (<[t := Reader drive lba nsec (at_ + run_len lba nsec at_) (out ++ copy_run b' i lba nsec at_)]> m))
| s_wait b f m t drive lba nsec at_ out b' : m !! t = Some (Reader drive lba nsec at_ out) -> at_ < nsec ->
    page_get_begin b drive (run_page lba at_) = (GotWait, b') ->
    step (mkShared b f m) Tau (mkShared b' f m)
| s_claim b f m t drive lba nsec at_ out i b' : m !! t = Some (Reader drive lba nsec at_ out) -> at_ < nsec ->
    page_get_begin b drive (run_page lba at_) = (GotFetch i, b') ->
    step (mkShared b f m) Tau (mkShared b' f (<[t := Fetcher drive lba nsec at_ out i 0]> m))
| s_sector b f m t drive lba nsec at_ out i k : m !! t = Some (Fetcher drive lba nsec at_ out i k) -> k < 8 ->
    step (mkShared b f m) Tau
      (mkShared (fill_buf b i (k * BIO_SECTOR_BYTES) (sector f drive (run_page lba at_ * BIO_SECTORS_PER_PAGE + k))) f (<[t := Fetcher drive lba nsec at_ out i (k + 1)]> m))
| s_fetched b f m t drive lba nsec at_ out i j b' : m !! t = Some (Fetcher drive lba nsec at_ out i 8) ->
    page_get_end b i 0 = (Some j, false, b') ->
    step (mkShared b f m) Tau (mkShared b' f (<[t := Reader drive lba nsec (at_ + run_len lba nsec at_) (out ++ copy_run b' j lba nsec at_)]> m))
| s_stale b f m t drive lba nsec at_ out i b' : m !! t = Some (Fetcher drive lba nsec at_ out i 8) ->
    page_get_end b i 0 = (None, true, b') ->
    step (mkShared b f m) Tau (mkShared b' f (<[t := Reader drive lba nsec at_ out]> m))
| s_read_error b f m t drive lba nsec at_ out i k rv o r b' : m !! t = Some (Fetcher drive lba nsec at_ out i k) -> rv <> 0 ->
    page_get_end b i rv = (o, r, b') ->
    step (mkShared b f m) (Ret t 1 out) (mkShared b' f (delete t m))
| s_read_done b f m t drive lba nsec out : m !! t = Some (Reader drive lba nsec nsec out) ->
    step (mkShared b f m) (Ret t 0 out) (mkShared b f (delete t m))
| s_write b f m t drive lba nsec src : m !! t = None -> request lba nsec -> Z.of_nat (length src) = nsec * BIO_SECTOR_BYTES -> no_overlap m drive lba nsec ->
    step (mkShared b f m) (Call t (Writer drive lba nsec src 0)) (mkShared b f (<[t := Writer drive lba nsec src 0]> m))
| s_store b f m t drive lba nsec src k : m !! t = Some (Writer drive lba nsec src k) -> k < nsec ->
    step (mkShared b f m) Tau
      (mkShared b (put_sectors f drive (lba + k) 1 (slice (k * BIO_SECTOR_BYTES) BIO_SECTOR_BYTES src)) (<[t := Writer drive lba nsec src (k + 1)]> m))
| s_written b f m t drive lba nsec src : m !! t = Some (Writer drive lba nsec src nsec) ->
    step (mkShared b f m) (Ret t 0 []) (mkShared (bio_patch b drive lba nsec src) f (delete t m))
| s_write_error b f m t drive lba nsec src k rv : m !! t = Some (Writer drive lba nsec src k) -> rv <> 0 ->
    step (mkShared b f m) (Ret t rv []) (mkShared b f (delete t m))
| s_invalidate b f m drive :
    step (mkShared b f m) Tau (mkShared (bio_invalidate_drive b drive) f m).

(** * A disk without a cache

    [a_store] is what reads see.  A write first puts its sectors in [a_ahead];
    from there every byte moves to the store at some instant, and the write
    returns when all of its own have. *)

Record adisk := mkAdisk { a_store : Z -> Z -> Z; a_ahead : Z -> Z -> option Z; a_thr : gmap Z thr }.

Definition push_sectors (g : Z -> Z -> option Z) (drive lba n : Z) (src : list Z) : Z -> Z -> option Z := fun d a =>
  if (d =? drive) && (lba * BIO_SECTOR_BYTES <=? a) && (a <? (lba + n) * BIO_SECTOR_BYTES) then Some (from_addr (lba * BIO_SECTOR_BYTES) src a) else g d a.

Inductive astep : adisk -> label -> adisk -> Prop :=
| a_read st ah m t drive lba nsec : m !! t = None ->
    astep (mkAdisk st ah m) (Call t (Reader drive lba nsec 0 [])) (mkAdisk st ah (<[t := Reader drive lba nsec 0 []]> m))
| a_look st ah m t drive lba nsec at_ out run : m !! t = Some (Reader drive lba nsec at_ out) -> 0 < run <= nsec - at_ ->
    astep (mkAdisk st ah m) Tau
      (mkAdisk st ah (<[t := Reader drive lba nsec (at_ + run) (out ++ span (st drive) ((lba + at_) * BIO_SECTOR_BYTES) (run * BIO_SECTOR_BYTES))]> m))
| a_read_done st ah m t drive lba nsec out : m !! t = Some (Reader drive lba nsec nsec out) ->
    astep (mkAdisk st ah m) (Ret t 0 out) (mkAdisk st ah (delete t m))
| a_read_error st ah m t drive lba nsec at_ out : m !! t = Some (Reader drive lba nsec at_ out) ->
    astep (mkAdisk st ah m) (Ret t 1 out) (mkAdisk st ah (delete t m))
| a_write st ah m t drive lba nsec src : m !! t = None ->
    astep (mkAdisk st ah m) (Call t (Writer drive lba nsec src 0)) (mkAdisk st ah (<[t := Writer drive lba nsec src 0]> m))
| a_push st ah m t drive lba nsec src k : m !! t = Some (Writer drive lba nsec src k) -> k < nsec ->
    astep (mkAdisk st ah m) Tau
      (mkAdisk st (push_sectors ah drive (lba + k) 1 (slice (k * BIO_SECTOR_BYTES) BIO_SECTOR_BYTES src)) (<[t := Writer drive lba nsec src (k + 1)]> m))
| a_commit st ah m st' ah' :
    (forall d a, st' d a = st d a /\ ah' d a = ah d a \/ ah d a = Some (st' d a) /\ ah' d a = None) ->
    astep (mkAdisk st ah m) Tau (mkAdisk st' ah' m)
| a_written st ah m t drive lba nsec src : m !! t = Some (Writer drive lba nsec src nsec) ->
    (forall a, lba * BIO_SECTOR_BYTES <= a < (lba + nsec) * BIO_SECTOR_BYTES -> ah drive a = None) ->
    astep (mkAdisk st ah m) (Ret t 0 []) (mkAdisk st ah (delete t m))
| a_write_error st ah m t drive lba nsec src k rv : m !! t = Some (Writer drive lba nsec src k) -> rv <> 0 ->
    astep (mkAdisk st ah m) (Ret t rv []) (mkAdisk st ah (delete t m)).

(** Runs, with the calls and returns they show. *)
Inductive runs {S} (R : S -> label -> S -> Prop) : S -> list label -> S -> Prop :=
| runs_nil s : runs R s [] s
| runs_tau s s1 s2 tr : R s Tau s1 -> runs R s1 tr s2 -> runs R s tr s2
| runs_show s s1 s2 l tr : l <> Tau -> R s l s1 -> runs R s1 tr s2 -> runs R s (l :: tr) s2.

Definition shown (l : label) : list label := match l with Tau => [] | _ => [l] end.

Lemma runs_app {S} (R : S -> label -> S -> Prop) s1 s2 s3 tr1 tr2 : runs R s1 tr1 s2 -> runs R s2 tr2 s3 -> runs R s1 (tr1 ++ tr2) s3.
Proof. induction 1; intros; cbn; [done|eapply runs_tau; eauto|eapply runs_show; eauto]. Qed.

Lemma runs_one {S} (R : S -> label -> S -> Prop) s l s' : R s l s' -> runs R s (shown l) s'.
Proof. intros H. destruct l; [eapply runs_tau; [done|constructor]|eapply runs_show; [done|done|constructor]..]. Qed.

(** * The simulation *)

(** Bytes that some buffer holds, or has already fetched and will hold. *)
Definition held (d a : Z) (x : bio_buf) : Prop := bb_valid x = true /\ bb_names d (a / BIO_PAGE_BYTES) x = true.
Definition coming (l : list bio_buf) (d a : Z) (x : thr) : Prop :=
  match x with
  | Fetcher _ _ _ _ _ i k =>
      match l !! i with
      | Some y => bb_stale y = false /\ bb_names d (a / BIO_PAGE_BYTES) y = true /\ a mod BIO_PAGE_BYTES < k * BIO_SECTOR_BYTES
      | None => False
      end
  | _ => False
  end.
Definition covered (s : shared) (d a : Z) : Prop :=
  Exists (held d a) (bio_bufs (sh_bio s)) \/ map_Exists (fun _ => coming (bio_bufs (sh_bio s)) d a) (sh_thr s).

#[local] Instance held_dec d a x : Decision (held d a x).
Proof. unfold held. apply _. Defined.
#[local] Instance coming_dec l d a x : Decision (coming l d a x).
Proof. unfold coming. destruct x; [apply _| |apply _]. destruct (l !! i); apply _. Defined.
#[local] Instance covered_dec s d a : Decision (covered s d a).
Proof. unfold covered. apply _. Defined.

Definition as_reader (x : thr) : thr :=
  match x with Fetcher drive lba nsec at_ out _ _ => Reader drive lba nsec at_ out | x => x end.

(** A request in progress is in range. *)
Definition thr_ok (x : thr) : Prop :=
  match x with
  | Reader _ lba nsec at_ _ => request lba nsec /\ 0 <= at_ <= nsec
  | Fetcher _ lba nsec at_ _ _ k => request lba nsec /\ 0 <= at_ < nsec /\ 0 <= k <= 8
  | Writer _ lba nsec src k => request lba nsec /\ 0 <= k <= nsec /\ Z.of_nat (length src) = nsec * BIO_SECTOR_BYTES
  end.

(** What thread [x] relies on. *)
Definition thr_holds (l : list bio_buf) (f st : Z -> Z -> Z) (x : thr) : Prop :=
  match x with
  | Reader _ _ _ _ _ => True
  | Fetcher drive lba _ at_ _ i k =>
      exists y, l !! i = Some y /\ bb_busy y = true /\ bb_names drive (run_page lba at_) y = true /\
        (bb_stale y = false -> forall j, 0 <= j < k * BIO_SECTOR_BYTES -> bb_data y !! Z.to_nat j = Some (st drive (bb_page y * BIO_PAGE_BYTES + j)))
  | Writer drive lba _ src k =>
      forall a, lba * BIO_SECTOR_BYTES <= a < (lba + k) * BIO_SECTOR_BYTES -> f drive a = from_addr (lba * BIO_SECTOR_BYTES) src a
  end.

Definition fetches (x : thr) : option nat := match x with Fetcher _ _ _ _ _ i _ => Some i | _ => None end.

Record sim0 (s : shared) (a : adisk) : Prop := {
  si_ok : bufs_ok (bio_bufs (sh_bio s));
  si_ready : bio_ready (sh_bio s) = true;
  si_disk d x : sh_disk s d x = default (a_store a d x) (a_ahead a d x);
  si_copy i x k : bio_bufs (sh_bio s) !! i = Some x -> bb_valid x = true -> 0 <= k < BIO_PAGE_BYTES ->
    bb_data x !! Z.to_nat k = Some (a_store a (bb_drive x) (bb_page x * BIO_PAGE_BYTES + k));
  si_thr : a_thr a = as_reader <$> sh_thr s;
  si_wf t x : sh_thr s !! t = Some x -> thr_ok x /\ thr_holds (bio_bufs (sh_bio s)) (sh_disk s) (a_store a) x;
  si_fetch t t' x x' i : sh_thr s !! t = Some x -> sh_thr s !! t' = Some x' -> fetches x = Some i -> fetches x' = Some i -> t = t';
  si_apart t t' d lba nsec src k d' lba' nsec' src' k' :
    sh_thr s !! t = Some (Writer d lba nsec src k) -> sh_thr s !! t' = Some (Writer d' lba' nsec' src' k') -> t <> t' -> d <> d' \/ lba + nsec <= lba' \/ lba' + nsec' <= lba;
}.

(** Bytes that no buffer stands for are in the store. *)
Record sim (s : shared) (a : adisk) : Prop := {
  si_base :> sim0 s a;
  si_bare d x : ~ covered s d x -> a_ahead a d x = None;
}.

(** Let every byte outside the cache take effect. *)
Definition let_go (s : shared) (a : adisk) : adisk :=
  mkAdisk (fun d x => if decide (covered s d x) then a_store a d x else default (a_store a d x) (a_ahead a d x))
          (fun d x => if decide (covered s d x) then a_ahead a d x else None) (a_thr a).

Lemma let_go_step s a : astep a Tau (let_go s a).
Proof.
  destruct a as [st ah m]. apply a_commit. intros d x. cbn. destruct (decide (covered s d x)); [by left|]. destruct (ah d x); [by right|by left].
Qed.

Lemma held_covered s i x k : bio_bufs (sh_bio s) !! i = Some x -> bb_valid x = true -> 0 <= k < BIO_PAGE_BYTES -> covered s (bb_drive x) (bb_page x * BIO_PAGE_BYTES + k).
Proof.
  intros Hi V Hk. left. apply Exists_exists. exists x. split; [by apply list_elem_of_lookup_2 in Hi|]. split; [done|]. apply bb_names_true. split; [|done].
  unfold BIO_PAGE_BYTES in *. apply (Z.div_unique_pos _ _ _ k); lia.
Qed.

Lemma coming_covered s t d lba nsec at_ out i k y j :
  sh_thr s !! t = Some (Fetcher d lba nsec at_ out i k) -> bio_bufs (sh_bio s) !! i = Some y -> bb_stale y = false -> bb_drive y = d -> 0 <= j < k * BIO_SECTOR_BYTES -> k <= 8 ->
  covered s d (bb_page y * BIO_PAGE_BYTES + j).
Proof.
  intros Ht Hy St Hd Hj Hk. right. exists t, (Fetcher d lba nsec at_ out i k). split; [done|]. cbn [coming]. rewrite Hy. unfold BIO_PAGE_BYTES, BIO_SECTOR_BYTES in *. split_and!; [done| |].
  - apply bb_names_true. split; [|done]. apply (Z.div_unique_pos _ _ _ j); lia.
  - replace ((bb_page y * 4096 + j) mod 4096) with j; [lia|]. apply (Z.mod_unique_pos _ _ (bb_page y)); lia.
Qed.

Lemma let_go_sim s a : sim0 s a -> sim s (let_go s a).
Proof.
  intros [Ok Rd Dk Cp Th Wf Fe Ap]. split; [split; try done|].
  - intros d x. rewrite Dk. cbn. by destruct (decide (covered s d x)).
  - intros i x k Hi V Hk. cbn. rewrite decide_True by (by apply (held_covered s i)). by apply (Cp i).
  - intros t x Ht. destruct (Wf t x Ht) as [W H]. split; [done|]. destruct x as [|d lba nsec at_ out i k|]; cbn [thr_holds] in *; [done| |done].
    destruct H as (y & Hy & B & Nm & Da). exists y. split_and!; [done..|]. intros St j Hj. rewrite (Da St j Hj). cbn. apply bb_names_true in Nm as [_ Nd].
    rewrite decide_True; [done|]. eapply coming_covered; try done. destruct W as (_ & _ & W3). lia.
  - intros d x C. cbn. by rewrite decide_False.
Qed.

(** ** Changing one thing at a time *)

Lemma sim0_delete b f m a t : sim0 (mkShared b f m) a -> sim0 (mkShared b f (delete t m)) (mkAdisk (a_store a) (a_ahead a) (delete t (a_thr a))).
Proof.
  intros [Ok Rd Dk Cp Th Wf Fe Ap]. cbn [sh_bio sh_disk sh_thr] in *. split; cbn [sh_bio sh_disk sh_thr a_store a_ahead a_thr]; try done.
  - by rewrite Th, fmap_delete.
  - intros t1 x H. apply lookup_delete_Some in H as [_ H]. by apply (Wf t1).
  - intros t1 t2 x x' i H1 H2. apply lookup_delete_Some in H1 as [_ H1], H2 as [_ H2]. by apply Fe.
  - intros t1 t2 d lba nsec src k d' lba' nsec' src' k' H1 H2. apply lookup_delete_Some in H1 as [_ H1], H2 as [_ H2]. by apply (Ap t1 t2 d lba nsec src k d' lba' nsec' src' k').
Qed.

Definition writes_apart (m : gmap Z thr) (t : Z) (x : thr) : Prop :=
  match x with
  | Writer d lba nsec _ _ => forall t' d' lba' nsec' src' k', t' <> t -> m !! t' = Some (Writer d' lba' nsec' src' k') -> d' <> d \/ lba' + nsec' <= lba \/ lba + nsec <= lba'
  | _ => True
  end.

Lemma sim0_insert b f m a t x :
  sim0 (mkShared b f m) a -> thr_ok x -> thr_holds (bio_bufs b) f (a_store a) x ->
  (forall t' x' i, t' <> t -> m !! t' = Some x' -> fetches x = Some i -> fetches x' <> Some i) -> writes_apart m t x ->
  sim0 (mkShared b f (<[t := x]> m)) (mkAdisk (a_store a) (a_ahead a) (<[t := as_reader x]> (a_thr a))).
Proof.
  intros [Ok Rd Dk Cp Th Wf Fe Ap] Xo Xh Xf Xw. cbn [sh_bio sh_disk sh_thr] in *. split; cbn [sh_bio sh_disk sh_thr a_store a_ahead a_thr]; try done.
  - by rewrite Th, fmap_insert.
  - intros t1 y H. apply lookup_insert_Some in H as [[<- <-]|[_ H]]; [done|by apply (Wf t1)].
  - intros t1 t2 y y' i H1 H2. apply lookup_insert_Some in H1 as [[<- <-]|[N1 H1]], H2 as [[<- <-]|[N2 H2]]; intros F1 F2; [done| | |by apply (Fe t1 t2 y y' i)].
    + by destruct (Xf t2 y' i).
    + by destruct (Xf t1 y i).
  - intros t1 t2 d lba nsec src k d' lba' nsec' src' k' H1 H2 Ne.
    apply lookup_insert_Some in H1 as [[<- E1]|[N1 H1]], H2 as [[<- E2]|[N2 H2]]; subst; [done| | |by apply (Ap t1 t2 d lba nsec src k d' lba' nsec' src' k')].
    + destruct (Xw t2 d' lba' nsec' src' k' ltac:(done) H2) as [?|[?|?]]; [left; congruence|right; by right|right; by left].
    + exact (Xw t1 d lba nsec src k ltac:(done) H1).
Qed.

(** A reader in place of a fetcher looks the same. *)
Lemma a_thr_same m a t x : a_thr a = as_reader <$> m -> m !! t = Some x -> <[t := as_reader x]> (a_thr a) = a_thr a.
Proof. intros -> H. apply insert_id. by rewrite lookup_fmap, H. Qed.

Lemma sim0_bufs b b' f m a :
  sim0 (mkShared b f m) a -> bufs_ok (bio_bufs b') -> bio_ready b' = true ->
  (forall i x k, bio_bufs b' !! i = Some x -> bb_valid x = true -> 0 <= k < BIO_PAGE_BYTES -> bb_data x !! Z.to_nat k = Some (a_store a (bb_drive x) (bb_page x * BIO_PAGE_BYTES + k))) ->
  (forall t x, m !! t = Some x -> thr_holds (bio_bufs b') f (a_store a) x) -> sim0 (mkShared b' f m) a.
Proof.
  intros [Ok Rd Dk Cp Th Wf Fe Ap] Ok' Rd' Cp' Wf'. cbn [sh_bio sh_disk sh_thr] in *. split; cbn [sh_bio sh_disk sh_thr]; try done.
  intros t x H. split; [by apply (Wf t)|by apply (Wf' t)].
Qed.

Lemma thr_holds_set l i y f st x : fetches x <> Some i -> thr_holds l f st x -> thr_holds (<[i := y]> l) f st x.
Proof.
  intros Nf. destruct x as [|d lba nsec at_ out j k|]; cbn [thr_holds]; [done| |done]. intros (z & Hz & H). exists z. split; [|done]. rewrite list_lookup_insert_ne; [done|]. cbn in Nf. congruence.
Qed.

Lemma sim0_set_buf b b' f m a i y y' :
  sim0 (mkShared b f m) a -> bio_bufs b !! i = Some y -> bio_bufs b' = <[i := y']> (bio_bufs b) -> bufs_ok (bio_bufs b') -> bio_ready b' = bio_ready b ->
  (forall t x, m !! t = Some x -> fetches x <> Some i) ->
  (bb_valid y' = true -> forall k, 0 <= k < BIO_PAGE_BYTES -> bb_data y' !! Z.to_nat k = Some (a_store a (bb_drive y') (bb_page y' * BIO_PAGE_BYTES + k))) ->
  sim0 (mkShared b' f m) a.
Proof.
  intros S Hi Eb Ok' Rd Nf Cy. pose proof (lookup_lt_Some _ _ _ Hi) as Li. apply (sim0_bufs b b' f m a S Ok'); [rewrite Rd; apply (si_ready _ _ S)| |].
  - intros j x k Hj V Hk. rewrite Eb in Hj. destruct (decide (j = i)) as [->|Ne].
    + rewrite list_lookup_insert_eq in Hj by done. injection Hj as <-. by apply Cy.
    + rewrite list_lookup_insert_ne in Hj by done. by apply (si_copy _ _ S j).
  - intros t x H. rewrite Eb. apply thr_holds_set; [by apply (Nf t)|]. by apply (si_wf _ _ S t).
Qed.

Lemma not_fetched b f m a i y : sim0 (mkShared b f m) a -> bio_bufs b !! i = Some y -> bb_busy y = false -> forall t x, m !! t = Some x -> fetches x <> Some i.
Proof.
  intros S Hi B t x Ht F. destruct (si_wf _ _ S t x Ht) as [_ H]. destruct x as [|d lba nsec at_ out j k|]; try discriminate. injection F as ->.
  destruct H as (z & Hz & Bz & _). cbn in Hz. congruence.
Qed.

Lemma sim0_reader b f m a t drive lba nsec at_ out :
  sim0 (mkShared b f m) a -> request lba nsec -> 0 <= at_ <= nsec ->
  sim0 (mkShared b f (<[t := Reader drive lba nsec at_ out]> m)) (mkAdisk (a_store a) (a_ahead a) (<[t := Reader drive lba nsec at_ out]> (a_thr a))).
Proof. intros S Rq Hat. exact (sim0_insert b f m a t (Reader drive lba nsec at_ out) S (conj Rq Hat) I ltac:(done) I). Qed.

(** The owner of a fetch stops fetching. *)
Lemma unfetched b f m a t x i r :
  sim0 (mkShared b f m) a -> m !! t = Some x -> fetches x = Some i -> fetches r = None -> forall t' x', (<[t := r]> m) !! t' = Some x' -> fetches x' <> Some i.
Proof.
  intros S Ht Fx Fr t' x' H F. apply lookup_insert_Some in H as [[_ <-]|[Ne H]]; [congruence|]. apply Ne. by apply (si_fetch _ _ S t t' x x' i).
Qed.

(** ** The steps *)

Definition answers (a : adisk) (l : label) (s' : shared) : Prop := exists a1, runs astep a (shown l) a1 /\ sim0 s' a1.

Lemma answers_tau a s' : sim0 s' a -> answers a Tau s'.
Proof. intros S. exists a. split; [constructor|done]. Qed.

Lemma answers_one a l a1 s' : astep a l a1 -> sim0 s' a1 -> answers a l s'.
Proof. intros A S. exists a1. split; [by apply runs_one|done]. Qed.

Lemma data_span b f m a i y : sim0 (mkShared b f m) a -> bio_bufs b !! i = Some y -> (forall k, 0 <= k < BIO_PAGE_BYTES -> bb_data y !! Z.to_nat k = Some (a_store a (bb_drive y) (bb_page y * BIO_PAGE_BYTES + k))) ->
  bb_data y = span (a_store a (bb_drive y)) (bb_page y * BIO_PAGE_BYTES) BIO_PAGE_BYTES.
Proof. intros S Hi Hk. apply span_eq; [done|by apply (ck_data _ (si_ok _ _ S) i)|done]. Qed.

(** A reader takes what the store has, and the cache gets [b']. *)
Lemma look_answers b' f m a t x drive lba nsec at_ out i y :
  a_thr a = as_reader <$> m -> m !! t = Some x -> as_reader x = Reader drive lba nsec at_ out -> request lba nsec -> 0 <= at_ < nsec ->
  bio_bufs b' !! i = Some y -> bb_names drive (run_page lba at_) y = true -> bb_data y = span (a_store a (bb_drive y)) (bb_page y * BIO_PAGE_BYTES) BIO_PAGE_BYTES ->
  let r := Reader drive lba nsec (at_ + run_len lba nsec at_) (out ++ copy_run b' i lba nsec at_) in
  sim0 (mkShared b' f (<[t := r]> m)) (mkAdisk (a_store a) (a_ahead a) (<[t := r]> (a_thr a))) -> answers a Tau (mkShared b' f (<[t := r]> m)).
Proof.
  intros Th Ht Ex (Rq1 & Rq2 & Rq3) Hat Hy Nm Dy r S. apply bb_names_true in Nm as [Np Nd]. rewrite Np, Nd in Dy. eapply answers_one; [|exact S]. destruct a as [st ah am]; cbn [a_store a_ahead a_thr] in *.
  destruct (run_facts lba nsec at_ Rq1 Hat ltac:(lia)) as (_ & R1 & _). unfold r. rewrite (copy_run_eq b' i y _ lba nsec at_ Hy Dy Rq1 Hat ltac:(lia)).
  apply a_look; [|lia]. by rewrite Th, lookup_fmap, Ht, <- Ex.
Qed.

Lemma sim_hit b f m a t drive lba nsec at_ out i b' :
  sim0 (mkShared b f m) a -> m !! t = Some (Reader drive lba nsec at_ out) -> at_ < nsec -> page_get_begin b drive (run_page lba at_) = (GotPage i, b') ->
  answers a Tau (mkShared b' f (<[t := Reader drive lba nsec (at_ + run_len lba nsec at_) (out ++ copy_run b' i lba nsec at_)]> m)).
Proof.
  intros S Ht Hat E. destruct (si_wf _ _ S t _ Ht) as [(Rq & Hr) _]. pose proof (ck_length _ (si_ok _ _ S)) as Ln. cbn [sh_bio] in Ln.
  destruct (begin_spec b drive (run_page lba at_)) as [G|E0]; [|by rewrite E0 in Ln]. rewrite E in G. destruct G as (y & stamp & Hi & Nm & V & B & Rd & Eb).
  pose proof (lookup_lt_Some _ _ _ Hi) as Li. assert (bio_bufs b' !! i = Some (mkBuf (bb_page y) stamp (bb_data y) (bb_drive y) (bb_valid y) (bb_busy y) (bb_stale y))) as Hi' by (rewrite Eb; by apply list_lookup_insert_eq).
  eapply look_answers; [apply (si_thr _ _ S)|exact Ht|done|done|lia|exact Hi'|done| |].
  - cbn [bb_data bb_drive bb_page]. apply (data_span b f m a i y S Hi). intros k Hk. by apply (si_copy _ _ S i).
  - destruct Rq as (Rq1 & Rq2 & Rq3). destruct (run_facts lba nsec at_ Rq1 ltac:(lia) ltac:(lia)) as (_ & R1 & _).
    assert (sim0 (mkShared b' f m) a) as S1.
    { apply (sim0_set_buf b b' f m a i y _ S Hi Eb); [rewrite Eb; by apply (bufs_ok_same _ i y _ (si_ok _ _ S) Hi)|done|by apply (not_fetched b f m a i y S Hi)|].
      intros _ k Hk. by apply (si_copy _ _ S i y k Hi V). }
    apply sim0_reader; [done|done|lia].
Qed.

Lemma sim_claim b f m a t drive lba nsec at_ out i b' :
  sim0 (mkShared b f m) a -> m !! t = Some (Reader drive lba nsec at_ out) -> at_ < nsec -> page_get_begin b drive (run_page lba at_) = (GotFetch i, b') ->
  answers a Tau (mkShared b' f (<[t := Fetcher drive lba nsec at_ out i 0]> m)).
Proof.
  intros S Ht Hat E. destruct (si_wf _ _ S t _ Ht) as [(Rq & Hr) _]. pose proof (ck_length _ (si_ok _ _ S)) as Ln. cbn [sh_bio] in Ln.
  destruct (begin_spec b drive (run_page lba at_)) as [G|E0]; [|by rewrite E0 in Ln]. rewrite E in G. destruct G as (y & Hi & B & _ & Free & Rd & Eb).
  pose proof (lookup_lt_Some _ _ _ Hi) as Li. pose proof (not_fetched b f m a i y S Hi B) as Nf. apply answers_tau.
  assert (sim0 (mkShared b' f m) a) as S1.
  { apply (sim0_set_buf b b' f m a i y _ S Hi Eb); [|done|done|done]. rewrite Eb. apply (bufs_ok_set _ i y _ (si_ok _ _ S) Hi); [exact (ck_data _ (si_ok _ _ S) i y Hi)|done|].
    cbn. intros _ j z _ Hj Lz Ep Ed. rewrite (Free j z Hj) in Lz; [done|]. by apply bb_names_true. }
  pose proof (sim0_insert b' f m a t (Fetcher drive lba nsec at_ out i 0) S1) as I. cbn [as_reader] in I.
  pose proof (a_thr_same m a t _ (si_thr _ _ S) Ht) as Ea. cbn [as_reader] in Ea. rewrite Ea in I. destruct a as [st ah am]; cbn [a_store a_ahead a_thr] in *. apply I; [split; [done|lia]| | |done].
  - exists (mkBuf (run_page lba at_) (bb_stamp y) (bb_data y) drive false true false). split; [rewrite Eb; by apply list_lookup_insert_eq|]. split; [done|]. split; [by apply bb_names_true|]. intros _ j Hj. unfold BIO_SECTOR_BYTES in *. lia.
  - intros t' x' j _ Hx' [= <-]. by apply (Nf t').
Qed.

(** The next sector of a page on its way is in no buffer. *)
Lemma next_bare b f m a t drive lba nsec at_ out i k y j :
  sim (mkShared b f m) a -> m !! t = Some (Fetcher drive lba nsec at_ out i k) -> bio_bufs b !! i = Some y -> bb_names drive (run_page lba at_) y = true -> bb_busy y = true ->
  k * BIO_SECTOR_BYTES <= j < BIO_PAGE_BYTES -> 0 <= k -> f drive (bb_page y * BIO_PAGE_BYTES + j) = a_store a drive (bb_page y * BIO_PAGE_BYTES + j).
Proof.
  intros [S Bare] Ht Hi Nm B Hj Hk. pose proof (si_disk _ _ S drive (bb_page y * BIO_PAGE_BYTES + j)) as Dk. cbn [sh_disk] in Dk. rewrite Dk, Bare; [done|].
  apply bb_names_true in Nm as [Np Nd]. unfold BIO_PAGE_BYTES, BIO_SECTOR_BYTES in *.
  assert ((bb_page y * 4096 + j) / 4096 = bb_page y) as Dv by (symmetry; apply (Z.div_unique_pos _ _ _ j); lia).
  assert ((bb_page y * 4096 + j) mod 4096 = j) as Md by (symmetry; apply (Z.mod_unique_pos _ _ (bb_page y)); lia).
  assert (forall i' z, bio_bufs b !! i' = Some z -> live z = true -> bb_names drive (bb_page y) z = true -> i' = i) as One.
  { intros i' z Hz Lz Nz. apply bb_names_true in Nz as [Zp Zd]. apply (ck_apart _ (si_ok _ _ S) i' i z y Hz Hi Lz); [unfold live; by rewrite B, orb_true_r|done|congruence]. }
  unfold covered, held, coming. cbn [sh_bio sh_thr]. unfold BIO_PAGE_BYTES, BIO_SECTOR_BYTES. rewrite Dv, Md. intros [C|(t' & x & Hx & C)].
  - apply Exists_exists in C as (z & Hz & V & Nz). apply list_elem_of_lookup in Hz as (i' & Hz). assert (i' = i) as -> by (apply (One i' z Hz); [unfold live; by rewrite V|done]).
    rewrite Hi in Hz. injection Hz as <-. pose proof (ck_excl _ (si_ok _ _ S) i y Hi V). congruence.
  - destruct x as [|d' l' n' at' out' i' k'|]; [done| |done]. destruct (bio_bufs b !! i') as [z|] eqn:Hz; [|done]. destruct C as (_ & Nz & C).
    destruct (si_wf _ _ S t' _ Hx) as [_ (z' & Hz' & Bz & _)]. cbn [sh_bio] in Hz'. assert (z' = z) as -> by congruence.
    assert (i' = i) as -> by (apply (One i' z Hz); [unfold live; by rewrite Bz, orb_true_r|done]).
    assert (t = t') as <- by (apply (si_fetch _ _ S t t' _ _ i Ht Hx); done). cbn [sh_thr] in Hx. rewrite Ht in Hx. injection Hx. lia.
Qed.

Lemma sim_sector b f m a t drive lba nsec at_ out i k :
  sim (mkShared b f m) a -> m !! t = Some (Fetcher drive lba nsec at_ out i k) -> k < 8 ->
  answers a Tau (mkShared (fill_buf b i (k * BIO_SECTOR_BYTES) (sector f drive (run_page lba at_ * BIO_SECTORS_PER_PAGE + k))) f (<[t := Fetcher drive lba nsec at_ out i (k + 1)]> m)).
Proof.
  intros Sm Ht Hk. pose proof (si_base _ _ Sm) as S. destruct (si_wf _ _ S t _ Ht) as [(Rq & Hat & Hk0) (y & Hi & B & Nm & Da)]. cbn [sh_bio] in Hi. pose proof (lookup_lt_Some _ _ _ Hi) as Li.
  set (src := sector f drive (run_page lba at_ * BIO_SECTORS_PER_PAGE + k)). assert (Z.of_nat (length src) = 512) as Ls by (by apply span_length).
  destruct (fill_spec b i y (k * BIO_SECTOR_BYTES) src Hi) as [Ef Rf]. set (b' := fill_buf b i (k * BIO_SECTOR_BYTES) src) in *. pose proof (ck_data _ (si_ok _ _ S) i y Hi) as Ly.
  set (y' := with_data y (mem_copy (bb_data y) (k * BIO_SECTOR_BYTES) src)) in *. assert (bb_valid y = false) as V by (destruct (bb_valid y) eqn:V; [rewrite (ck_excl _ (si_ok _ _ S) i y Hi V) in B; done|done]).
  pose proof (sim0_reader b f m a t drive lba nsec at_ out S Rq ltac:(lia)) as S0. pose proof (unfetched b f m a t _ i (Reader drive lba nsec at_ out) S Ht eq_refl eq_refl) as Nf.
  pose proof (a_thr_same m a t _ (si_thr _ _ S) Ht) as Ea. cbn [as_reader] in Ea. rewrite Ea in S0.
  assert (sim0 (mkShared b' f (<[t := Reader drive lba nsec at_ out]> m)) (mkAdisk (a_store a) (a_ahead a) (a_thr a))) as S1.
  { apply (sim0_set_buf b b' f _ _ i y y' S0 Hi Ef); [|done|done|unfold y'; cbn; congruence]. rewrite Ef. apply (bufs_ok_same _ i y _ (si_ok _ _ S) Hi); [|done|done|unfold y'; cbn; congruence|done].
    apply mem_copy_length; unfold BIO_SECTOR_BYTES, BIO_PAGE_BYTES in *; lia. }
  pose proof (sim0_insert b' f _ _ t (Fetcher drive lba nsec at_ out i (k + 1)) S1) as In. cbn [as_reader a_store a_ahead a_thr] in In. rewrite Ea, insert_insert_eq in In.
  apply answers_tau. destruct a as [st ah am]; cbn [a_store a_ahead a_thr] in *. apply In; [split; [done|lia]| |intros t' x' j _ Hx' [= <-]; by apply (Nf t')|done].
  exists y'. split; [rewrite Ef; by apply list_lookup_insert_eq|]. split; [done|]. split; [done|]. intros Sy j Hj. unfold y'; cbn [with_data bb_data bb_page]. unfold BIO_SECTOR_BYTES, BIO_PAGE_BYTES in *.
  rewrite mem_copy_lookup by lia. destruct (_ && _) eqn:C; [|apply (Da Sy); lia]. unfold src, sector. rewrite span_lookup by (unfold BIO_SECTOR_BYTES; lia).
  pose proof (next_bare b f m (mkAdisk st ah am) t drive lba nsec at_ out i k y j Sm Ht Hi Nm B) as Nb. apply bb_names_true in Nm as [Np Nd]. unfold BIO_SECTOR_BYTES, BIO_PAGE_BYTES in *. change BIO_SECTORS_PER_PAGE with 8.
  cbn [a_store] in Nb. rewrite <- Nb by lia. do 2 f_equal. lia.
Qed.

(** The end of a fetch: the buffer leaves the hands of thread [t]. *)
Lemma fetch_over b f m a t drive lba nsec at_ out i k rv :
  sim0 (mkShared b f m) a -> m !! t = Some (Fetcher drive lba nsec at_ out i k) ->
  exists o retry b' y y', page_get_end b i rv = (o, retry, b') /\ bio_bufs b !! i = Some y /\ bio_bufs b' = <[i := y']> (bio_bufs b) /\ bio_ready b' = bio_ready b /\
    bufs_ok (bio_bufs b') /\ bb_data y' = bb_data y /\ bb_busy y' = false /\ bb_valid y = false /\
    if negb (rv =? 0) || bb_stale y then o = None /\ bb_valid y' = false /\ retry = (rv =? 0)
    else o = Some i /\ retry = false /\ bb_page y' = bb_page y /\ bb_drive y' = bb_drive y.
Proof.
  intros S Ht. destruct (si_wf _ _ S t _ Ht) as [_ (y & Hi & B & Nm & _)]. cbn [sh_bio] in Hi. pose proof (si_ok _ _ S) as Ok.
  assert (bb_valid y = false) as V by (destruct (bb_valid y) eqn:V; [rewrite (ck_excl _ Ok i y Hi V) in B; done|done]).
  destruct (end_spec b i y rv Hi) as (o & retry & b' & stamp & E & Rd & H). exists o, retry, b', y.
  assert (forall y', bb_valid y' = false -> bb_busy y' = false -> bb_data y' = bb_data y -> bufs_ok (<[i := y']> (bio_bufs b))) as Drop.
  { intros y' V' B' D'. apply (bufs_ok_set _ i y _ Ok Hi); [rewrite D'; by apply (ck_data _ Ok i)|done|]. unfold live. by rewrite V', B'. }
  destruct (rv =? 0) eqn:Er; cbn [negb orb] in *; [|eexists; destruct H as (-> & -> & Eb); rewrite Eb; split_and!; try done; by apply Drop].
  destruct (bb_stale y); destruct H as (-> & -> & Eb); eexists; rewrite Eb; split_and!; try done; [by apply Drop|].
  apply (bufs_ok_same _ i y _ Ok Hi); try done. intros _. unfold live. by rewrite B, orb_true_r.
Qed.

Lemma sim_fetched b f m a t drive lba nsec at_ out i j b' :
  sim0 (mkShared b f m) a -> m !! t = Some (Fetcher drive lba nsec at_ out i 8) -> page_get_end b i 0 = (Some j, false, b') ->
  answers a Tau (mkShared b' f (<[t := Reader drive lba nsec (at_ + run_len lba nsec at_) (out ++ copy_run b' j lba nsec at_)]> m)).
Proof.
  intros S Ht E. destruct (fetch_over b f m a t drive lba nsec at_ out i 8 0 S Ht) as (o & re & b1 & y & y' & E1 & Hi & Eb & Rd & Ok' & Ed & B' & V & C).
  rewrite E in E1. injection E1 as <- <- <-. cbn [negb Z.eqb orb] in C. destruct (bb_stale y) eqn:Sy; [by destruct C|]. destruct C as ([= ->] & _ & Ep & Edr).
  destruct (si_wf _ _ S t _ Ht) as [(Rq & Hat & _) (y0 & Hi0 & _ & Nm & Da)]. cbn [sh_bio] in Hi0. assert (y0 = y) as -> by congruence. specialize (Da Sy).
  assert (bb_drive y = drive) as Dr by (by apply bb_names_true in Nm as [_ ?]). pose proof (lookup_lt_Some _ _ _ Hi) as Li. rewrite <- Dr in Da.
  assert (bb_data y = span (a_store a (bb_drive y)) (bb_page y * BIO_PAGE_BYTES) BIO_PAGE_BYTES) as Dy by (apply (data_span b f m a i y S Hi); exact Da).
  eapply look_answers; [apply (si_thr _ _ S)|exact Ht|done|done|lia|rewrite Eb; by apply list_lookup_insert_eq| | |].
  - apply bb_names_true. rewrite Ep, Edr. by apply bb_names_true.
  - by rewrite Ed, Ep, Edr.
  - destruct Rq as (Rq1 & Rq2 & Rq3). destruct (run_facts lba nsec at_ Rq1 ltac:(lia) ltac:(lia)) as (_ & R1 & _). set (r := Reader _ _ _ _ _).
    pose proof (sim0_reader b f m a t drive lba nsec (at_ + run_len lba nsec at_) (out ++ copy_run b' i lba nsec at_) S (conj Rq1 (conj Rq2 Rq3)) ltac:(lia)) as S1. fold r in S1.
    apply (sim0_set_buf b b' f _ _ i y y' S1 Hi Eb Ok' Rd); [by apply (unfetched b f m a t _ i r S Ht)|]. intros _ k Hk. cbn [a_store]. rewrite Ed, Ep, Edr. by apply Da.
Qed.

Lemma sim_stale b f m a t drive lba nsec at_ out i b' :
  sim0 (mkShared b f m) a -> m !! t = Some (Fetcher drive lba nsec at_ out i 8) -> page_get_end b i 0 = (None, true, b') ->
  answers a Tau (mkShared b' f (<[t := Reader drive lba nsec at_ out]> m)).
Proof.
  intros S Ht E. destruct (fetch_over b f m a t drive lba nsec at_ out i 8 0 S Ht) as (o & re & b1 & y & y' & E1 & Hi & Eb & Rd & Ok' & Ed & B' & V & C).
  rewrite E in E1. injection E1 as <- <- <-. destruct (_ || _); [|by destruct C]. destruct C as (_ & V' & _). destruct (si_wf _ _ S t _ Ht) as [(Rq & Hat & _) _].
  pose proof (sim0_reader b f m a t drive lba nsec at_ out S Rq ltac:(lia)) as S1. pose proof (a_thr_same m a t _ (si_thr _ _ S) Ht) as Ea. cbn [as_reader] in Ea. rewrite Ea in S1.
  apply answers_tau. destruct a as [st ah am]; cbn [a_store a_ahead a_thr] in *. apply (sim0_set_buf b b' f _ _ i y y' S1 Hi Eb Ok' Rd); [by apply (unfetched b f m (mkAdisk st ah am) t _ i _ S Ht)|congruence].
Qed.

Lemma sim_read_error b f m a t drive lba nsec at_ out i k rv o r b' :
  sim0 (mkShared b f m) a -> m !! t = Some (Fetcher drive lba nsec at_ out i k) -> rv <> 0 -> page_get_end b i rv = (o, r, b') ->
  answers a (Ret t 1 out) (mkShared b' f (delete t m)).
Proof.
  intros S Ht Hrv E. destruct (fetch_over b f m a t drive lba nsec at_ out i k rv S Ht) as (o1 & re & b1 & y & y' & E1 & Hi & Eb & Rd & Ok' & Ed & B' & V & C).
  rewrite E in E1. injection E1 as <- <- <-. replace (rv =? 0) with false in C by lia. destruct C as (_ & V' & _). pose proof (sim0_delete b f m a t S) as S1.
  eapply answers_one; [|apply (sim0_set_buf b b' f _ _ i y y' S1 Hi Eb Ok' Rd); [|congruence]].
  - pose proof (si_thr _ _ S) as Th. cbn [sh_thr] in Th. destruct a as [st ah am]. cbn [a_thr a_store a_ahead] in *. eapply (a_read_error st ah am t drive lba nsec at_). by rewrite Th, lookup_fmap, Ht.
  - intros t' x' H F. apply lookup_delete_Some in H as [Ne H]. apply Ne. by apply (si_fetch _ _ S t t' _ x' i Ht H).
Qed.

Definition touches (drive lba n d a : Z) : bool := (d =? drive) && (lba * BIO_SECTOR_BYTES <=? a) && (a <? (lba + n) * BIO_SECTOR_BYTES).

Lemma put_sectors_eq f drive lba n src d a : put_sectors f drive lba n src d a = if touches drive lba n d a then from_addr (lba * BIO_SECTOR_BYTES) src a else f d a.
Proof. reflexivity. Qed.

(** A stored sector is the write's own. *)
Lemma sector_of_src lba k nsec src a : 0 <= k < nsec -> Z.of_nat (length src) = nsec * BIO_SECTOR_BYTES -> (lba + k) * BIO_SECTOR_BYTES <= a < (lba + k + 1) * BIO_SECTOR_BYTES ->
  from_addr ((lba + k) * BIO_SECTOR_BYTES) (slice (k * BIO_SECTOR_BYTES) BIO_SECTOR_BYTES src) a = from_addr (lba * BIO_SECTOR_BYTES) src a.
Proof. intros Hk Hs Ha. unfold from_addr, BIO_SECTOR_BYTES in *. rewrite slice_lookup by lia. do 2 f_equal. lia. Qed.

Lemma sim_store b f m a t drive lba nsec src k :
  sim0 (mkShared b f m) a -> m !! t = Some (Writer drive lba nsec src k) -> k < nsec ->
  answers a Tau (mkShared b (put_sectors f drive (lba + k) 1 (slice (k * BIO_SECTOR_BYTES) BIO_SECTOR_BYTES src)) (<[t := Writer drive lba nsec src (k + 1)]> m)).
Proof.
  intros S Ht Hk. destruct (si_wf _ _ S t _ Ht) as [(Rq & Hk0 & Ls) Hw]. pose proof (si_thr _ _ S) as Th. destruct S as [Ok Rd Dk Cp _ Wf Fe Ap]. cbn [sh_bio sh_disk sh_thr] in *.
  set (part := slice (k * BIO_SECTOR_BYTES) BIO_SECTOR_BYTES src). destruct a as [st ah am]; cbn [a_store a_ahead a_thr] in *.
  eapply answers_one; [eapply (a_push st ah am t drive lba nsec src k); [by rewrite Th, lookup_fmap, Ht|done]|].
  split; cbn [sh_bio sh_disk sh_thr a_store a_ahead a_thr]; try done.
  - intros d x. rewrite put_sectors_eq. unfold push_sectors. fold (touches drive (lba + k) 1 d x). fold part. by destruct (touches _ _ _ _ _).
  - by rewrite Th, fmap_insert.
  - intros t1 x H. apply lookup_insert_Some in H as [[<- <-]|[Ne H]].
    + split; [split; [done|lia]|]. cbn [thr_holds]. intros y Hy. rewrite put_sectors_eq. unfold touches. destruct (_ && _) eqn:C.
      * apply (sector_of_src lba k nsec src y); [lia|done|]. unfold BIO_SECTOR_BYTES in *. lia.
      * apply Hw. unfold BIO_SECTOR_BYTES in *. lia.
    + destruct (Wf t1 x H) as [W1 W2]. split; [done|]. destruct x as [|d l n at_ out i j|d l n src' j]; cbn [thr_holds] in *; [done|done|]. intros y Hy. rewrite put_sectors_eq.
      destruct (touches _ _ _ _ _) eqn:C; [|by apply W2]. exfalso. destruct W1 as (Rq1 & Hj & _). pose proof (Ap t1 t d l n src' j drive lba nsec src k H Ht ltac:(done)). unfold touches, BIO_SECTOR_BYTES in *. lia.
  - intros t1 t2 x x' i H1 H2 F1 F2. apply lookup_insert_Some in H1 as [[<- <-]|[N1 H1]]; [discriminate|]. apply lookup_insert_Some in H2 as [[<- <-]|[N2 H2]]; [discriminate|]. by apply (Fe t1 t2 x x' i).
  - intros t1 t2 d l n src1 k1 d' l' n' src2 k2 H1 H2 Ne. apply lookup_insert_Some in H1 as [[<- E1]|[N1 H1]], H2 as [[<- E2]|[N2 H2]]; [done| | |by apply (Ap t1 t2 d l n src1 k1 d' l' n' src2 k2)].
    + injection E1 as <- <- <- <- <-. by apply (Ap t t2 drive lba nsec src k d' l' n' src2 k2).
    + injection E2 as <- <- <- <- <-. by apply (Ap t1 t d l n src1 k1 drive lba nsec src k).
Qed.

(** What the threads rely on after a write has gone through the cache. *)
Lemma patched_holds l l' drive lba nsec src f st x :
  Forall2 (patched drive (lba * BIO_SECTOR_BYTES) ((lba + nsec) * BIO_SECTOR_BYTES) (from_addr (lba * BIO_SECTOR_BYTES) src)) l l' -> (forall i y, l !! i = Some y -> bb_valid y = true -> bb_busy y = false) ->
  thr_ok x -> thr_holds l f st x -> thr_holds l' f (put_sectors st drive lba nsec src) x.
Proof.
  intros P Ex W H. destruct x as [|d lb n at_ out i k|]; cbn [thr_holds] in *; [done| |done]. destruct H as (y & Hy & B & Nm & Da). destruct (Forall2_lookup_l _ _ _ _ _ P Hy) as (y' & Hy' & [Pp Pd Pv Pb Ps Pl Pk]).
  apply bb_names_true in Nm as [Np Nd]. exists y'. split_and!; [done|congruence|apply bb_names_true; split; congruence|]. intros Sy' j Hj.
  assert (bb_stale y = false) as Sy by (destruct (bb_stale y); [rewrite (proj2 Ps (or_introl eq_refl)) in Sy'; done|done]).
  assert (~ (d = drive /\ lba * BIO_SECTOR_BYTES < (bb_page y + 1) * BIO_PAGE_BYTES /\ bb_page y * BIO_PAGE_BYTES < (lba + nsec) * BIO_SECTOR_BYTES)) as Off.
  { intros (-> & O1 & O2). rewrite (proj2 Ps) in Sy'; [done|]. by right. }
  destruct W as (_ & _ & Hk). rewrite Pk by (unfold BIO_PAGE_BYTES, BIO_SECTOR_BYTES in *; lia).
  destruct (bb_valid y) eqn:V; [by rewrite (Ex i y Hy V) in B|]. cbn [andb]. rewrite (Da Sy j Hj), Pp, put_sectors_eq. destruct (touches _ _ _ _ _) eqn:C; [|done].
  exfalso. apply Off. unfold touches, BIO_PAGE_BYTES, BIO_SECTOR_BYTES in *. lia.
Qed.

Lemma sim_written b f m a t drive lba nsec src :
  sim0 (mkShared b f m) a -> m !! t = Some (Writer drive lba nsec src nsec) -> answers a (Ret t 0 []) (mkShared (bio_patch b drive lba nsec src) f (delete t m)).
Proof.
  intros S Ht. destruct (si_wf _ _ S t _ Ht) as [((Rq1 & Rq2 & Rq3) & _ & Ls) Hw]. pose proof (si_thr _ _ S) as Th. pose proof (sim0_delete b f m a t S) as [Ok Rd Dk Cp Th' Wf Fe Ap].
  destruct a as [st ah am]; cbn [sh_bio sh_disk sh_thr a_store a_ahead a_thr thr_holds] in *.
  pose proof (bio_patch_spec b drive lba nsec src Ok Rd Rq1 Rq2 ltac:(lia) Ls) as P. pose proof (patched_ok _ _ _ _ _ _ Ok P) as Ok'.
  set (ah' := fun d x => if touches drive lba nsec d x then None else ah d x). exists (mkAdisk (put_sectors st drive lba nsec src) ah' (delete t am)). split.
  - eapply runs_tau; [apply (a_commit st ah am (put_sectors st drive lba nsec src) ah')|].
    + intros d x. rewrite put_sectors_eq. unfold ah'. destruct (touches drive lba nsec d x) eqn:C; [|by left]. specialize (Dk d x). unfold touches in C.
      assert (d = drive) as -> by lia. rewrite Hw in Dk by (unfold BIO_SECTOR_BYTES in *; lia). destruct (ah drive x) as [v|]; cbn in Dk; [right; by rewrite Dk|left; by rewrite Dk].
    + apply (runs_one astep _ (Ret t 0 [])). eapply a_written; [by rewrite Th, lookup_fmap, Ht|]. intros x Hx. unfold ah', touches. by replace (_ && _) with true by (unfold BIO_SECTOR_BYTES in *; lia).
  - split; cbn [sh_bio sh_disk sh_thr a_store a_ahead a_thr]; try done.
    + unfold bio_patch. rewrite Rd. cbn [negb]. by rewrite patch_loop_ready.
    + intros d x. rewrite put_sectors_eq. unfold ah'. destruct (touches drive lba nsec d x) eqn:C; [|apply Dk]. cbn. unfold touches in C. assert (d = drive) as -> by lia. apply Hw. unfold BIO_SECTOR_BYTES in *. lia.
    + intros i x' k Hx' V Hk. destruct (Forall2_lookup_r _ _ _ _ _ P Hx') as (x & Hx & [Pp Pd Pv _ _ _ Pk]). rewrite Pv in V. rewrite (Pk k Hk), V, Pp, Pd, put_sectors_eq. cbn [andb]. unfold touches.
      destruct (_ && _ && _); [done|]. by apply (Cp i).
    + intros t1 x H. destruct (Wf t1 x H) as [W1 W2]. split; [done|]. apply (patched_holds _ _ drive lba nsec src f st x P); [apply (ck_excl _ Ok)|done|done].
Qed.

Lemma sim_invalidate b f m a drive : sim0 (mkShared b f m) a -> answers a Tau (mkShared (bio_invalidate_drive b drive) f m).
Proof.
  intros S. apply answers_tau. pose proof (si_ready _ _ S) as Rd. cbn [sh_bio] in Rd. unfold bio_invalidate_drive. rewrite Rd. cbn [negb].
  set (g := fun x : bio_buf => if bb_drive x =? drive then _ else x). destruct (si_ok _ _ S) as [Ln Da Ap Ex]. cbn [sh_bio] in *.
  assert (forall x, bb_page (g x) = bb_page x /\ bb_drive (g x) = bb_drive x /\ bb_data (g x) = bb_data x /\ bb_busy (g x) = bb_busy x /\ bb_stale (g x) = bb_stale x /\ (bb_valid (g x) = true -> bb_valid x = true)) as G.
  { intros x. unfold g. by destruct (_ =? _). }
  assert (forall x, live (g x) = true -> live x = true) as Lg.
  { intros x. destruct (G x) as (_ & _ & _ & Eb & _ & Ev). unfold live. rewrite Eb. destruct (bb_valid (g x)); [by rewrite Ev|]. cbn. intros ->. by rewrite orb_true_r. }
  apply (sim0_bufs b _ f m a S); cbn [with_bufs bio_bufs bio_ready]; [split|done| |].
  - by rewrite length_fmap.
  - intros i x' Hx'. apply list_lookup_fmap_Some in Hx' as (x & -> & Hx). destruct (G x) as (_ & _ & -> & _). by apply (Da i).
  - intros i j x' y' Hx' Hy' Lx Ly. apply list_lookup_fmap_Some in Hx' as (x & -> & Hx), Hy' as (y & -> & Hy). destruct (G x) as (-> & -> & _), (G y) as (-> & -> & _). apply (Ap i j x y Hx Hy); by apply Lg.
  - intros i x' Hx' V. apply list_lookup_fmap_Some in Hx' as (x & -> & Hx). destruct (G x) as (_ & _ & _ & -> & _ & Ev). by apply (Ex i), Ev.
  - intros i x' k Hx' V Hk. apply list_lookup_fmap_Some in Hx' as (x & -> & Hx). destruct (G x) as (-> & -> & -> & _ & _ & Ev). by apply (si_copy _ _ S i), Hk; [|apply Ev].
  - intros t x H. destruct (si_wf _ _ S t x H) as [_ W]. destruct x as [|d l n at_ out i k|]; cbn [thr_holds sh_bio sh_disk] in *; [done| |done]. destruct W as (y & Hy & B & Nm & Dy). exists (g y).
    destruct (G y) as (Ep & Ed & -> & -> & -> & _). split_and!; [by rewrite list_lookup_fmap, Hy|done| |by rewrite Ep]. apply bb_names_true in Nm. apply bb_names_true. by rewrite Ep, Ed.
Qed.

Lemma step_answers s a l s' : sim s a -> step s l s' -> answers a l s'.
Proof.
  intros Sm St. pose proof (si_base _ _ Sm) as S. destruct St as [b f m t drive lba nsec Ht Rq|b f m t drive lba nsec at_ out i b' Ht Hat E|b f m t drive lba nsec at_ out b' Ht Hat E|
    b f m t drive lba nsec at_ out i b' Ht Hat E|b f m t drive lba nsec at_ out i k Ht Hk|b f m t drive lba nsec at_ out i j b' Ht E|b f m t drive lba nsec at_ out i b' Ht E|
    b f m t drive lba nsec at_ out i k rv o r b' Ht Hrv E|b f m t drive lba nsec out Ht|b f m t drive lba nsec src Ht Rq Ls No|b f m t drive lba nsec src k Ht Hk|
    b f m t drive lba nsec src Ht|b f m t drive lba nsec src k rv Ht Hrv|b f m drive]; pose proof (si_thr _ _ S) as Th; cbn [sh_thr] in Th.
  - eapply answers_one; [|apply (sim0_reader (count_req b) f m a t drive lba nsec 0 []); [by apply (sim0_bufs b _ f m a S); [apply (si_ok _ _ S)|apply (si_ready _ _ S)|apply (si_copy _ _ S)|apply (si_wf _ _ S)]|done|destruct Rq as (_ & ? & _); lia]].
    destruct a as [st ah am]; cbn [a_store a_ahead a_thr] in *. apply a_read. by rewrite Th, lookup_fmap, Ht.
  - by apply (sim_hit b f m a t drive lba nsec at_ out i b').
  - apply answers_tau. destruct (begin_spec b drive (run_page lba at_)) as [G|E0]; [|by pose proof (ck_length _ (si_ok _ _ S)) as Ln; cbn [sh_bio] in Ln; rewrite E0 in Ln]. rewrite E in G. by destruct G as [-> _].
  - by apply (sim_claim b f m a t drive lba nsec at_ out i b').
  - by apply sim_sector.
  - by apply (sim_fetched b f m a t drive lba nsec at_ out i j b').
  - by apply (sim_stale b f m a t drive lba nsec at_ out i b').
  - by apply (sim_read_error b f m a t drive lba nsec at_ out i k rv o r b').
  - eapply answers_one; [|apply (sim0_delete b f m a t S)]. destruct a as [st ah am]; cbn [a_store a_ahead a_thr] in *. eapply a_read_done. by rewrite Th, lookup_fmap, Ht.
  - eapply answers_one; [|apply (sim0_insert b f m a t (Writer drive lba nsec src 0) S); [split_and!; [done|lia|destruct Rq as (_ & ? & _); lia|done]| |done|]].
    + destruct a as [st ah am]; cbn [a_store a_ahead a_thr] in *. apply a_write. by rewrite Th, lookup_fmap, Ht.
    + intros x Hx. unfold BIO_SECTOR_BYTES in *. lia.
    + intros t' d' l' n' src' k' _ Hw. exact (No t' d' l' n' src' k' Hw).
  - by apply sim_store.
  - by apply sim_written.
  - eapply answers_one; [|apply (sim0_delete b f m a t S)]. destruct a as [st ah am]; cbn [a_store a_ahead a_thr] in *. eapply a_write_error; [by rewrite Th, lookup_fmap, Ht|done].
  - by apply sim_invalidate.
Qed.

Lemma step_sim s a l s' : sim s a -> step s l s' -> exists a', runs astep a (shown l) a' /\ sim s' a'.
Proof.
  intros Sm St. destruct (step_answers s a l s' Sm St) as (a1 & R & S1). exists (let_go s' a1). split; [|by apply let_go_sim].
  rewrite <- (app_nil_r (shown l)). eapply runs_app; [exact R|]. exact (runs_one astep _ Tau _ (let_go_step s' a1)).
Qed.

(** * The theorem *)

Definition boot (arena : list Z) (f : Z -> Z -> Z) : shared := mkShared (bio_init (Some arena) bio_zero) f ∅.
Definition bare_disk (f : Z -> Z -> Z) : adisk := mkAdisk f (fun _ _ => None) ∅.

Lemma boot_sim arena f : Z.of_nat (length arena) = Z.of_nat BIO_NBUFS * BIO_PAGE_BYTES -> sim (boot arena f) (bare_disk f).
Proof.
  intros La. destruct (boot_bufs arena La) as [Ok Nv]. split; [split|]; try done.
  intros i x k Hx V. by destruct (Nv i x Hx) as [Nx _]; rewrite Nx in V.
Qed.

(** [C6] Nobody can tell the cache is there.  From boot, let any number of
    threads read, write and invalidate, with the lock dropped for the device,
    the device moving one sector at a time and failing as it likes, and writes
    to the same sectors not in flight together.  Every sequence of calls and
    returns, with the bytes the reads returned, is one of a disk without a
    cache on which each byte of a write takes effect at one instant after the
    call, at the latest when it returns without error; and the medium holds
    what has taken effect or is about to. *)
Theorem bio_refines_disk arena f tr s :
  Z.of_nat (length arena) = Z.of_nat BIO_NBUFS * BIO_PAGE_BYTES -> runs step (boot arena f) tr s ->
  exists a, runs astep (bare_disk f) tr a /\ forall d x, sh_disk s d x = default (a_store a d x) (a_ahead a d x).
Proof.
  intros La R. pose proof (boot_sim arena f La) as S. revert S. generalize (bare_disk f). induction R as [s|s s1 s2 tr H R IH|s s1 s2 l tr Nt H R IH]; intros a S.
  - exists a. split; [constructor|apply (si_disk _ _ S)].
  - destruct (step_sim s a Tau s1 S H) as (a1 & R1 & S1). destruct (IH a1 S1) as (a2 & R2 & Dk). exists a2. split; [|done]. exact (runs_app astep a a1 a2 [] tr R1 R2).
  - destruct (step_sim s a l s1 S H) as (a1 & R1 & S1). destruct (IH a1 S1) as (a2 & R2 & Dk). exists a2. split; [|done]. pose proof (runs_app astep a a1 a2 (shown l) tr R1 R2) as R3. by destruct l.
Qed.

(** A sector of sevens is written to an empty disk. *)
Definition sevens : list Z := replicate 512 7.
Definition one_write : list label := [Call 1 (Writer 0 3 1 sevens 0); Ret 1 0 []].

Lemma bio_refines_disk_witness :
  exists s, runs step (boot (replicate (64 * 4096) 0) (fun _ _ => 0)) one_write s /\ exists a, runs astep (bare_disk (fun _ _ => 0)) one_write a /\ forall d x, sh_disk s d x = default (a_store a d x) (a_ahead a d x).
Proof.
  assert (exists s, runs step (boot (replicate (64 * 4096) 0) (fun _ _ => 0)) one_write s) as [s R].
  { eexists. eapply runs_show; [done|eapply s_write; [apply lookup_empty|unfold request; lia|done|]|].
    - intros t d l n src k H. by rewrite lookup_empty in H.
    - eapply runs_tau; [eapply s_store; [apply lookup_insert_eq|lia]|]. eapply runs_show; [done|eapply s_written; apply lookup_insert_eq|]. constructor. }
  exists s. split; [exact R|]. apply (bio_refines_disk (replicate (64 * 4096) 0) (fun _ _ => 0) one_write s); [|exact R]. rewrite length_replicate. unfold BIO_NBUFS, BIO_PAGE_BYTES. lia.
Defined.

(** * A writer that bypasses the cache

    It writes to the device and then calls [bio_invalidate_drive].  A page that
    was on its way before the write and arrives after the call is kept, with
    the bytes from before the write. *)
Lemma invalidate_misses_fetch b drive i y :
  bio_ready b = true -> bio_bufs b !! i = Some y -> bb_busy y = true -> bb_stale y = false -> bb_drive y = drive ->
  exists b' y', page_get_end (bio_invalidate_drive b drive) i 0 = (Some i, false, b') /\ bio_bufs b' !! i = Some y' /\ bb_valid y' = true /\ bb_page y' = bb_page y /\ bb_data y' = bb_data y.
Proof.
  intros Rd Hi B St Dr. pose proof (lookup_lt_Some _ _ _ Hi) as Li. unfold bio_invalidate_drive. rewrite Rd. cbn [negb].
  set (y1 := mkBuf (bb_page y) (bb_stamp y) (bb_data y) (bb_drive y) false (bb_busy y) (bb_stale y)). set (b1 := with_bufs b _).
  assert (bio_bufs b1 !! i = Some y1) as H1. { cbn [b1 with_bufs bio_bufs]. rewrite list_lookup_fmap, Hi. cbn. by rewrite <- Dr, Z.eqb_refl. }
  destruct (end_spec b1 i y1 0 H1) as (o & re & b' & stamp & E & _ & H). cbn [negb Z.eqb y1 bb_stale] in H. rewrite St in H. destruct H as (-> & -> & Eb).
  eexists b', _. split; [exact E|]. split; [rewrite Eb; apply list_lookup_insert_eq; by apply lookup_lt_Some in H1|done].
Qed.
