(* ===== verification/Fat.v ===== *)
(** The read-only FAT12/16 file system of src/fs/fat/fat.c, over the block
    cache.  Paths and names are lists of character codes without the final
    NUL; a function that reads the disk returns the cache it leaves.  The walk
    of a directory follows a chain of clusters that the disk may close into a
    ring, so it has fuel; [None] is a walk that has not ended. *)

From stdpp Require Import base list gmap strings numbers option.
From Stdlib Require Import ZArith Lia ZifyBool.
From S2P Require Import Prelude Bio.

Definition FAT_SECTOR_BYTES : Z := 512.
Definition FAT_DIRENT_BYTES : Z := 32.
Definition FAT_ATTR_READ_ONLY : Z := 0x01.
Definition FAT_ATTR_VOLUME_ID : Z := 0x08.
Definition FAT_ATTR_DIRECTORY : Z := 0x10.
Definition FAT_ATTR_LONG_NAME : Z := 0x0F.
Definition FAT_CASE_NAME : Z := 0x08.
Definition FAT_CASE_EXT : Z := 0x10.
Definition FAT_DIRENT_END : Z := 0x00.
Definition FAT_DIRENT_FREE : Z := 0xE5.
Definition FAT16_EOC_MIN : Z := 0xFFF8.
Definition FAT12_BAD : Z := 0xFF7.
Definition FAT12_MAX_CLUSTERS : Z := 4085.
Definition FS_FAT_MAX_FILE : Z := 1024 * 1024.
Definition FS_FAT_NAME_MAX : Z := 64.
Definition FS_FAT_E_OK : Z := 0.
Definition FS_FAT_E_NOMOUNT : Z := -1.
Definition FS_FAT_E_NOTFOUND : Z := -2.
Definition FS_FAT_E_IO : Z := -3.
Definition FS_FAT_E_NOMEM : Z := -4.
Definition FS_FAT_E_TOOBIG : Z := -5.
Definition FS_FAT_E_INVAL : Z := -6.
Definition FS_FAT_MODE_DIR : Z := 16877.
Definition FS_FAT_MODE_FILE : Z := 33188.
Definition FS_FAT_MODE_DIR_RO : Z := 16749.
Definition FS_FAT_MODE_FILE_RO : Z := 33060.

Record fat_vol := mkVol {
  fv_mounted : bool;
  fv_fat12 : bool;
  fv_sec_per_clus : Z;
  fv_root_entries : Z;
  fv_fat_start : Z;
  fv_root_start : Z;
  fv_root_sectors : Z;
  fv_data_start : Z;
  fv_total_sectors : Z;
}.

Record fat_dir := mkDir { fd_is_root : bool; fd_clus : Z }.

Record fat_ent := mkEnt {
  fe_clus : Z;
  fe_size : Z;
  fe_wtime : Z;
  fe_wdate : Z;
  fe_adate : Z;
  fe_ctime : Z;
  fe_cdate : Z;
  fe_attr : Z;
  fe_is_dir : bool;
}.

Record fs_fat_dirent := mkDirent { fde_ino : Z; fde_size : Z; fde_is_dir : Z; fde_name : list Z }.

Record fs_fat_statbuf := mkStat {
  fs_mtime_ns : Z;
  fs_atime_ns : Z;
  fs_btime_ns : Z;
  fs_alloced : Z;
  fs_size : Z;
  fs_ino : Z;
  fs_mode : Z;
  fs_is_dir : Z;
}.

(** * Fields *)

Definition at_ (p : list Z) (off : Z) : Z := default 0 (p !! Z.to_nat off).
Definition rd16 (p : list Z) (off : Z) : Z := Z.lor (at_ p off) (Z.shiftl (at_ p (off + 1)) 8).
Definition rd32 (p : list Z) (off : Z) : Z :=
  Z.lor (Z.lor (Z.lor (at_ p off) (Z.shiftl (at_ p (off + 1)) 8)) (Z.shiftl (at_ p (off + 2)) 16)) (Z.shiftl (at_ p (off + 3)) 24).

Definition bit (x m : Z) : bool := negb (Z.land x m =? 0).

(** * Names *)

Definition SLASH : Z := 47.
Definition DOT : Z := 46.
Definition SPACE : Z := 32.

(** Everything after the last slash. *)
Fixpoint path_basename_from (base p : list Z) : list Z :=
  match p with
  | [] => base
  | c :: p => path_basename_from (if c =? SLASH then p else base) p
  end.
Definition path_basename (path : list Z) : list Z := path_basename_from path path.

Definition toupper (c : Z) : Z := if (97 <=? c) && (c <=? 122) then c - 32 else c.
Definition tolower (c : Z) : Z := if (65 <=? c) && (c <=? 90) then c + 32 else c.

(** The name up to its last dot, and what follows that dot. *)
Fixpoint last_dot (s : list Z) : option (list Z * list Z) :=
  match s with
  | [] => None
  | c :: s =>
      match last_dot s with
      | Some (a, b) => Some (c :: a, b)
      | None => if c =? DOT then Some ([], s) else None
      end
  end.

Definition pad (n : nat) (s : list Z) : list Z := let s := take n s in s ++ replicate (n - length s) SPACE.

Definition make_83 (basename : list Z) : list Z :=
  let '(name, ext) := match last_dot basename with Some (a, b) => (a, b) | None => (basename, []) end in
  pad 8 (toupper <$> name) ++ pad 3 (toupper <$> ext).

Fixpoint upto_space (s : list Z) : list Z :=
  match s with [] => [] | c :: s => if c =? SPACE then [] else c :: upto_space s end.

Definition de_to_name (de : list Z) : list Z :=
  let ntcase := at_ de 12 in
  let name := upto_space (slice 0 8 de) in
  let ext := upto_space (slice 8 3 de) in
  (if bit ntcase FAT_CASE_NAME then tolower <$> name else name) ++
  (if at_ de 8 =? SPACE then [] else DOT :: (if bit ntcase FAT_CASE_EXT then tolower <$> ext else ext)).

(** The pieces between slashes, the empty ones left out. *)
Fixpoint comps_from (cur : list Z) (p : list Z) : list (list Z) :=
  match p with
  | [] => match cur with [] => [] | _ => [rev cur] end
  | c :: p => if c =? SLASH then match cur with [] => comps_from [] p | _ => rev cur :: comps_from [] p end else comps_from (c :: cur) p
  end.
Definition comps (path : list Z) : list (list Z) := comps_from [] path.

Definition is_dot (c : list Z) : bool := match c with [x] => x =? DOT | _ => false end.

Definition path_is_root (path : list Z) : bool := forallb is_dot (comps path).

(** * Entries *)

Definition synth_ino (e : fat_ent) : Z := if negb (fe_clus e =? 0) then fe_clus e else w32 (0x10000000 + fe_size e).

Definition ent_fill (de : list Z) : fat_ent :=
  mkEnt (rd16 de 26) (rd32 de 28) (rd16 de 22) (rd16 de 24) (rd16 de 18) (rd16 de 14) (rd16 de 16) (at_ de 11) (bit (at_ de 11) FAT_ATTR_DIRECTORY).

Definition ent_mode (e : fat_ent) : Z :=
  let ro := bit (fe_attr e) FAT_ATTR_READ_ONLY in
  if fe_is_dir e then (if ro then FS_FAT_MODE_DIR_RO else FS_FAT_MODE_DIR) else (if ro then FS_FAT_MODE_FILE_RO else FS_FAT_MODE_FILE).

(** C's division rounds to zero; every other quantity here is unsigned. *)
Definition days_from_civil (y m d : Z) : Z :=
  let y := y - (if m <=? 2 then 1 else 0) in
  let era := Z.quot (if 0 <=? y then y else y - 399) 400 in
  let yoe := w32 (y - era * 400) in
  let doy := w32 ((153 * (if 2 <? m then m - 3 else m + 9) + 2) / 5 + d - 1) in
  let doe := w32 (yoe * 365 + yoe / 4 - yoe / 100 + doy) in
  era * 146097 + doe - 719468.

Definition fat_time_ns (date time : Z) : Z :=
  if date =? 0 then 0
  else
    let year := 1980 + Z.shiftr date 9 in
    let mon := Z.land (Z.shiftr date 5) 0x0F in
    let day := Z.land date 0x1F in
    let hour := Z.shiftr time 11 in
    let min := Z.land (Z.shiftr time 5) 0x3F in
    let sec := Z.land time 0x1F * 2 in
    if (mon <? 1) || (12 <? mon) || (day <? 1) || (31 <? day) || (23 <? hour) || (59 <? min) || (59 <? sec) then 0
    else w64 ((days_from_civil year mon day * 86400 + (hour * 3600 + min * 60 + sec)) * 1000000000).

(** * The disk *)

Section fat.
Context {B : Type} `{BlockOps B}.
Implicit Types (b : B) (v : fat_vol).

Definition read_sector b (lba : Z) : Z * list Z * B :=
  let '(rv, buf, b) := bread b 0 lba 1 in ((if rv =? 0 then FS_FAT_E_OK else FS_FAT_E_IO), buf, b).

Definition fat_next v b (clus : Z) : Z * B :=
  if negb (fv_fat12 v) then
    let fat_off := w32 (clus * 2) in
    let fat_sec := w32 (fv_fat_start v + fat_off / FAT_SECTOR_BYTES) in
    let '(rv, sec, b) := read_sector b fat_sec in
    if negb (rv =? FS_FAT_E_OK) then (FAT16_EOC_MIN, b) else (rd16 sec (fat_off mod FAT_SECTOR_BYTES), b)
  else
    let fat_off := w32 (clus + clus / 2) in
    let fat_sec := w32 (fv_fat_start v + fat_off / FAT_SECTOR_BYTES) in
    let in_ := fat_off mod FAT_SECTOR_BYTES in
    let widen x := let x := if negb (Z.land clus 1 =? 0) then Z.shiftr x 4 else Z.land x 0xFFF in if FAT12_BAD <=? x then Z.lor x 0xF000 else x in
    let '(rv, sec, b) := read_sector b fat_sec in
    if negb (rv =? FS_FAT_E_OK) then (FAT16_EOC_MIN, b)
    else if in_ + 1 <? FAT_SECTOR_BYTES then (widen (Z.lor (at_ sec in_) (Z.shiftl (at_ sec (in_ + 1)) 8)), b)
    else
      let '(rv2, sec2, b) := read_sector b (w32 (fat_sec + 1)) in
      if rv2 =? FS_FAT_E_OK then (widen (Z.lor (at_ sec in_) (Z.shiftl (at_ sec2 0) 8)), b) else (FAT16_EOC_MIN, b).

(** ** Directories

    A visitor sees a 32-byte entry and its own state; a nonzero answer stops
    the walk.  [inl] is the end of the walk, [inr] to go on. *)

Section walk.
Context {S : Type} (fn : list Z -> S -> Z * S).

(** The entries of one sector, [n] of them from [e] on. *)
Fixpoint walk_entries (n : nat) (sec : list Z) (e : Z) (st : S) : (Z * S) + S :=
  match n with
  | O => inr st
  | Datatypes.S n =>
      let de := slice e FAT_DIRENT_BYTES sec in
      if at_ de 0 =? FAT_DIRENT_END then inl (0, st)
      else if at_ de 0 =? FAT_DIRENT_FREE then walk_entries n sec (e + FAT_DIRENT_BYTES) st
      else if at_ de 11 =? FAT_ATTR_LONG_NAME then walk_entries n sec (e + FAT_DIRENT_BYTES) st
      else
        let '(rv, st) := fn de st in
        if negb (rv =? 0) then inl (rv, st) else walk_entries n sec (e + FAT_DIRENT_BYTES) st
  end.

(** [n] sectors from [lba] on. *)
Fixpoint walk_sectors (n : nat) b (lba : Z) (st : S) : ((Z * S) + S) * B :=
  match n with
  | O => (inr st, b)
  | Datatypes.S n =>
      let '(rv, sec, b) := read_sector b (w32 lba) in
      if negb (rv =? FS_FAT_E_OK) then (inl (FS_FAT_E_IO, st), b)
      else
        match walk_entries 16 sec 0 st with
        | inl r => (inl r, b)
        | inr st => walk_sectors n b (lba + 1) st
        end
  end.

Definition clus_lba v (clus : Z) : Z := w32 (fv_data_start v + w32 (w32 (clus - 2) * fv_sec_per_clus v)).

Fixpoint walk_chain (fuel : nat) v b (clus : Z) (st : S) : option (Z * S * B) :=
  match fuel with
  | O => None
  | Datatypes.S fuel =>
      match walk_sectors (Z.to_nat (fv_sec_per_clus v)) b (clus_lba v clus) st with
      | (inl (rv, st), b) => Some (rv, st, b)
      | (inr st, b) =>
          let '(clus, b) := fat_next v b clus in
          if (clus <? 2) || (FAT16_EOC_MIN <=? clus) then Some (0, st, b) else walk_chain fuel v b clus st
      end
  end.

Definition dir_walk (fuel : nat) v b (d : fat_dir) (st : S) : option (Z * S * B) :=
  if negb (fv_mounted v) then Some (FS_FAT_E_NOMOUNT, st, b)
  else if fd_is_root d then
    match walk_sectors (Z.to_nat (fv_root_sectors v)) b (fv_root_start v) st with
    | (inl (rv, st), b) => Some (rv, st, b)
    | (inr st, b) => Some (0, st, b)
    end
  else walk_chain fuel v b (fd_clus d) st.

End walk.

Definition find_cb (name83 : list Z) (de : list Z) (out : option fat_ent) : Z * option fat_ent :=
  if bit (at_ de 11) FAT_ATTR_VOLUME_ID then (0, out)
  else if bool_decide (slice 0 11 de = name83) then (1, Some (ent_fill de)) else (0, out).

(** An error, or the entry. *)
Definition dir_find (fuel : nat) v b (d : fat_dir) (name83 : list Z) : option ((Z + fat_ent) * B) :=
  '(rv, out, b) ← dir_walk (find_cb name83) fuel v b d None;
  Some (match out with Some e => if rv =? 1 then inr e else inl (if rv <? 0 then rv else FS_FAT_E_NOTFOUND)
                     | None => inl (if rv <? 0 then rv else FS_FAT_E_NOTFOUND) end, b).

Definition root_dir : fat_dir := mkDir true 0.

(** ** Paths *)

Fixpoint resolve_comps (fuel : nat) v b (cur : fat_dir) (cs : list (list Z)) : option ((Z + fat_dir) * B) :=
  match cs with
  | [] => Some (inr cur, b)
  | c :: cs =>
      let comp := take (Z.to_nat (FS_FAT_NAME_MAX - 1)) c in
      if is_dot comp then resolve_comps fuel v b cur cs
      else
        '(r, b) ← dir_find fuel v b cur (make_83 comp);
        match r with
        | inl rv => Some (inl rv, b)
        | inr e => if negb (fe_is_dir e) then Some (inl FS_FAT_E_NOTFOUND, b) else resolve_comps fuel v b (mkDir false (fe_clus e)) cs
        end
  end.

Definition resolve_dir (fuel : nat) v b (path : list Z) : option ((Z + fat_dir) * B) := resolve_comps fuel v b root_dir (comps path).

Definition root_ent : fat_ent := mkEnt 0 0 0 0 0 0 0 FAT_ATTR_DIRECTORY true.

(** Trailing slashes go, but for the first character. *)
Fixpoint strip_slashes (s : list Z) : list Z :=
  match s with
  | [] => []
  | [c] => [c]
  | c :: s =>
      match strip_slashes s with
      | [x] => if x =? SLASH then [c] else [c; x]
      | s => c :: s
      end
  end.

(** The text before and after the last slash, if there is one. *)
Fixpoint last_slash (s : list Z) : option (list Z * list Z) :=
  match s with
  | [] => None
  | c :: s =>
      match last_slash s with
      | Some (a, base) => Some (c :: a, base)
      | None => if c =? SLASH then Some ([], s) else None
      end
  end.

Definition find_fallback (fuel : nat) v b (path : list Z) : option ((Z + fat_ent) * B) :=
  dir_find fuel v b root_dir (make_83 (path_basename path)).

Definition find_in (fuel : nat) v b (dir : fat_dir) (base path : list Z) : option ((Z + fat_ent) * B) :=
  if bool_decide (base = []) then find_fallback fuel v b path
  else
    '(r, b) ← dir_find fuel v b dir (make_83 base);
    match r with inr e => Some (inr e, b) | inl _ => find_fallback fuel v b path end.

Definition resolve_entry (fuel : nat) v b (path : list Z) : option ((Z + fat_ent) * B) :=
  if path_is_root path then Some (inr root_ent, b)
  else if 255 <? Z.of_nat (length path) then find_fallback fuel v b path
  else
    match last_slash (strip_slashes path) with
    | None => find_in fuel v b root_dir (strip_slashes path) path
    | Some (parent, base) =>
        '(r, b) ← resolve_dir fuel v b parent;
        match r with inl _ => find_fallback fuel v b path | inr dir => find_in fuel v b dir base path end
    end.

(** ** Files

    [mem] says whether kmalloc has room. *)

Definition clus_bytes v : Z := fv_sec_per_clus v * FAT_SECTOR_BYTES.
Definition in_chain (clus : Z) : bool := (2 <=? clus) && (clus <? FAT16_EOC_MIN).

(** The loop of [fs_fat_slurp]; each round takes one cluster of the size. *)
Fixpoint slurp_loop (n : nat) v b (size clus off : Z) (buf : list Z) : Z * Z * list Z * B :=
  match n with
  | O => (0, off, buf, b)
  | S n =>
      if (off <? size) && in_chain clus then
        let '(rv, data, b) := bread b 0 (clus_lba v clus) (fv_sec_per_clus v) in
        if negb (rv =? 0) then (FS_FAT_E_IO, off, buf, b)
        else
          let '(clus, b) := fat_next v b clus in
          slurp_loop n v b size clus (off + clus_bytes v) (buf ++ data)
      else (0, off, buf, b)
  end.

Definition rounds v (size : Z) : nat := Z.to_nat ((size + clus_bytes v - 1) / clus_bytes v).

Definition fs_fat_slurp (fuel : nat) v b (mem : bool) (path : list Z) : option ((Z + list Z * Z) * B) :=
  if negb (fv_mounted v) then Some (inl FS_FAT_E_NOMOUNT, b)
  else
    '(r, b) ← resolve_entry fuel v b path;
    match r with
    | inl rv => Some (inl rv, b)
    | inr e =>
        if fe_is_dir e then Some (inl FS_FAT_E_NOTFOUND, b)
        else if FS_FAT_MAX_FILE <? fe_size e then Some (inl FS_FAT_E_TOOBIG, b)
        else if negb mem then Some (inl FS_FAT_E_NOMEM, b)
        else
          let '(rv, off, buf, b) := slurp_loop (rounds v (fe_size e)) v b (fe_size e) (fe_clus e) 0 [] in
          if negb (rv =? 0) then Some (inl rv, b)
          else if off <? fe_size e then Some (inl FS_FAT_E_IO, b)
          else Some (inr (buf, fe_size e), b)
    end.

Definition fs_fat_open (fuel : nat) v b (path : list Z) : option ((Z + Z * Z) * B) :=
  if negb (fv_mounted v) then Some (inl FS_FAT_E_NOMOUNT, b)
  else
    '(r, b) ← resolve_entry fuel v b path;
    match r with
    | inl rv => Some (inl rv, b)
    | inr e => if fe_is_dir e then Some (inl FS_FAT_E_NOTFOUND, b) else Some (inr (fe_clus e, fe_size e), b)
    end.

(** [skip] links of the chain; [None] where it ends too soon. *)
Fixpoint skip_chain (skip : nat) v b (clus : Z) : option Z * B :=
  match skip with
  | O => (Some clus, b)
  | S skip => if negb (in_chain clus) then (None, b) else let '(clus, b) := fat_next v b clus in skip_chain skip v b clus
  end.

Fixpoint pread_loop (n : nat) v b (len clus within : Z) (buf : list Z) : Z * list Z * B :=
  match n with
  | O => (0, buf, b)
  | S n =>
      let got := Z.of_nat (length buf) in
      if (got <? len) && in_chain clus then
        let '(rv, bounce, b) := bread b 0 (clus_lba v clus) (fv_sec_per_clus v) in
        if negb (rv =? 0) then (FS_FAT_E_IO, buf, b)
        else
          let n0 := clus_bytes v - within in
          let n1 := if len - got <? n0 then len - got else n0 in
          let '(clus, b) := fat_next v b clus in
          pread_loop n v b len clus 0 (buf ++ slice within n1 bounce)
      else (0, buf, b)
  end.

Definition fs_fat_pread v b (mem : bool) (id size off len : Z) : Z * list Z * B :=
  if negb (fv_mounted v) then (FS_FAT_E_NOMOUNT, [], b)
  else if len =? 0 then (FS_FAT_E_OK, [], b)
  else if size <=? off then (FS_FAT_E_OK, [], b)
  else
    let len := if size - off <? len then w32 (size - off) else len in
    let skip := w32 (off / clus_bytes v) in
    let within := w32 (off mod clus_bytes v) in
    match skip_chain (Z.to_nat skip) v b (w32 id) with
    | (None, b) => (FS_FAT_E_IO, [], b)
    | (Some clus, b) =>
        if negb mem then (FS_FAT_E_NOMEM, [], b)
        else
          let '(rv, buf, b) := pread_loop (rounds v (within + len)) v b len clus within [] in
          if negb (rv =? 0) then (rv, [], b)
          else if Z.of_nat (length buf) <? len then (FS_FAT_E_IO, [], b)
          else (FS_FAT_E_OK, buf, b)
    end.

(** ** Metadata *)

Definition ent_stat v (e : fat_ent) : fs_fat_statbuf :=
  mkStat (fat_time_ns (fe_wdate e) (fe_wtime e)) (fat_time_ns (fe_adate e) 0) (fat_time_ns (fe_cdate e) (fe_ctime e))
    (if fe_is_dir e then 0 else (fe_size e + clus_bytes v - 1) / clus_bytes v * clus_bytes v)
    (if fe_is_dir e then 0 else fe_size e) (synth_ino e) (ent_mode e) (if fe_is_dir e then 1 else 0).

Definition fs_fat_stat2 (fuel : nat) v b (path : list Z) : option ((Z + fs_fat_statbuf) * B) :=
  if negb (fv_mounted v) then Some (inl FS_FAT_E_NOMOUNT, b)
  else
    '(r, b) ← resolve_entry fuel v b path;
    match r with inl rv => Some (inl rv, b) | inr e => Some (inr (ent_stat v e), b) end.

(** The state of the visitor: entries seen, and the one wanted. *)
Definition readdir_cb (target : Z) (de : list Z) (st : Z * option fs_fat_dirent) : Z * (Z * option fs_fat_dirent) :=
  let '(seen, out) := st in
  if bit (at_ de 11) FAT_ATTR_VOLUME_ID then (0, st)
  else if negb (seen =? target) then (0, (w32 (seen + 1), out))
  else
    let e := ent_fill de in
    (1, (seen, Some (mkDirent (synth_ino e) (if fe_is_dir e then 0 else fe_size e) (if fe_is_dir e then 1 else 0) (de_to_name de)))).

(** An error, the entry, or the end of the directory. *)
Definition fs_fat_readdir (fuel : nat) v b (path : list Z) (index : Z) : option ((Z + option fs_fat_dirent) * B) :=
  if negb (fv_mounted v) then Some (inl FS_FAT_E_NOMOUNT, b)
  else
    '(r, b) ← resolve_dir fuel v b path;
    match r with
    | inl rv => Some (inl rv, b)
    | inr dir =>
        '(rv, st, b) ← dir_walk (readdir_cb index) fuel v b dir (0, None);
        Some (if rv <? 0 then inl rv else inr (st : Z * option fs_fat_dirent).2, b)
    end.

(** ** Mounting *)

Definition standard_flf : list Z := [115; 116; 97; 110; 100; 97; 114; 100; 46; 102; 108; 102].

Definition fs_fat_init v b : option (fat_vol * B) :=
  let unmounted := mkVol false (fv_fat12 v) (fv_sec_per_clus v) (fv_root_entries v) (fv_fat_start v) (fv_root_start v) (fv_root_sectors v) (fv_data_start v) (fv_total_sectors v) in
  let '(rv, bpb, b) := read_sector b 0 in
  if negb (rv =? FS_FAT_E_OK) then Some (unmounted, b)
  else
    let bytes_per_sec := rd16 bpb 11 in
    let spc := at_ bpb 13 in
    let reserved := rd16 bpb 14 in
    let num_fats := at_ bpb 16 in
    let root_entries := rd16 bpb 17 in
    let total := if rd16 bpb 19 =? 0 then rd32 bpb 32 else rd16 bpb 19 in
    let fat_size := rd16 bpb 22 in
    if negb (bytes_per_sec =? FAT_SECTOR_BYTES) || (spc =? 0) || (num_fats =? 0) || (fat_size =? 0) || (root_entries =? 0) then
      Some (mkVol false (fv_fat12 v) spc root_entries (fv_fat_start v) (fv_root_start v) (fv_root_sectors v) (fv_data_start v) (fv_total_sectors v), b)
    else
      let root_bytes := root_entries * FAT_DIRENT_BYTES in
      let root_start := reserved + num_fats * fat_size in
      let root_sectors := (root_bytes + (FAT_SECTOR_BYTES - 1)) / FAT_SECTOR_BYTES in
      let data_start := root_start + root_sectors in
      let data_clusters := if data_start <? total then (total - data_start) / spc else 0 in
      let v := mkVol true (data_clusters <? FAT12_MAX_CLUSTERS) spc root_entries reserved root_start root_sectors data_start total in
      '(_, b) ← dir_find 0 v b root_dir (make_83 standard_flf);
      Some (v, b).

Definition fs_fat_ready v : Z := if fv_mounted v then 1 else 0.

End fat.
