(* ===== verification/FatRead.v ===== *)
(** The FAT file system read back: the links of the table, the bytes of a
    file, the entries of a directory. *)

From stdpp Require Import base list gmap strings numbers option.
From Stdlib Require Import ZArith Lia ZifyBool.
From S2P Require Import Prelude Bio Fat.

(** * Words *)

Lemma lor_shift_add x y n : 0 <= n -> 0 <= x < 2 ^ n -> Z.lor x (Z.shiftl y n) = x + y * 2 ^ n.
Proof.
  intros Hn Hx. rewrite <- Z.shiftl_mul_pow2 by lia. assert (Z.land x (Z.shiftl y n) = 0) as L.
  { apply Z.bits_inj'. intros k Hk. rewrite Z.land_spec, Z.bits_0. destruct (Z.lt_ge_cases k n).
    - rewrite (Z.shiftl_spec_low y n k) by lia. apply andb_false_r.
    - destruct (decide (x = 0)) as [->|]; [by rewrite Z.bits_0|]. rewrite (Z.bits_above_log2 x k); [done|lia|]. apply Z.log2_lt_pow2; [lia|]. assert (2 ^ n <= 2 ^ k) by (apply Z.pow_le_mono_r; lia). lia. }
  by rewrite Z.add_nocarry_lxor, Z.lxor_lor by done.
Qed.

Lemma lor_bytes x y : 0 <= x < 256 -> Z.lor x (Z.shiftl y 8) = x + 256 * y.
Proof. intros Hx. rewrite lor_shift_add by lia. lia. Qed.

(** A 12-bit value of 0xFF7 or more, widened. *)
Lemma lor_widen x : 0 <= x < 4096 -> Z.lor x 0xF000 = x + 0xF000.
Proof. intros Hx. change 0xF000 with (Z.shiftl 15 12). rewrite lor_shift_add by lia. reflexivity. Qed.

Lemma at_span f a n k : 0 <= k < n -> at_ (span f a n) k = f (a + k).
Proof. intros Hk. unfold at_. by rewrite span_lookup. Qed.

Section read.
Context {B : Type} `{BlockSpec B}.
Implicit Types (b : B) (v : fat_vol) (f : Z -> Z).

(** What a read leaves alone. *)
Definition kept b b' : Prop := block_inv b' /\ block_byte b' = block_byte b /\ block_good b' = block_good b.

Lemma kept_refl b : block_inv b -> kept b b.
Proof. done. Qed.
Lemma kept_trans b1 b2 b3 : kept b1 b2 -> kept b2 b3 -> kept b1 b3.
Proof. intros (_ & E1 & G1) (I & E2 & G2). split_and!; [done|congruence|congruence]. Qed.

Definition disk b : Z -> Z := block_byte b 0.
Definition good b (s : Z) : Prop := block_good b 0 s.

Lemma kept_disk b b' : kept b b' -> disk b' = disk b /\ good b' = good b.
Proof. intros (_ & E & G). unfold disk, good. by rewrite E, G. Qed.

Lemma bread_ok b lba n : block_inv b -> 0 <= lba < 2 ^ 32 -> 0 < n < 2 ^ 32 ->
  exists rv out b', bread b 0 lba n = (rv, out, b') /\ kept b b' /\ (rv = 0 -> out = span (disk b) (lba * 512) (n * 512)) /\ ((forall s, lba <= s < lba + n -> good b s) -> rv = 0).
Proof.
  intros I Hl Hn. destruct (bread b 0 lba n) as [[rv out] b'] eqn:E. destruct (bread_spec b 0 lba n rv out b' I ltac:(lia) ltac:(lia) ltac:(lia) E) as (I' & Eb & Eg & Hr & Hg).
  exists rv, out, b'. by split_and!.
Qed.

Lemma read_sector_ok b lba : block_inv b -> 0 <= lba < 2 ^ 32 ->
  exists rv out b', read_sector b lba = (rv, out, b') /\ kept b b' /\ (rv = FS_FAT_E_OK /\ out = span (disk b) (lba * 512) 512 \/ rv = FS_FAT_E_IO /\ ~ good b lba).
Proof.
  intros I Hl. destruct (bread_ok b lba 1 I Hl ltac:(lia)) as (rv & out & b' & E & K & Hr & Hg). unfold read_sector. rewrite E. eexists _, out, b'. split; [reflexivity|]. split; [done|].
  destruct (rv =? 0) eqn:C; [left; split; [done|apply Hr; lia]|right; split; [done|]]. intros G. rewrite Hg in C; [done|]. intros s Hs. by replace s with lba by lia.
Qed.

(** * The table *)

(** The geometry of a mounted volume. *)
Record vol_ok v : Prop := {
  vo_mounted : fv_mounted v = true;
  vo_spc : 0 < fv_sec_per_clus v < 256;
  vo_fat : 0 <= fv_fat_start v < 2 ^ 16;
  vo_root : 0 <= fv_root_start v < 2 ^ 25;
  vo_sectors : 0 <= fv_root_sectors v < 2 ^ 13;
  vo_data : fv_data_start v = fv_root_start v + fv_root_sectors v;
}.

(** The value of cluster [c] in the table, as a chain sees it. *)
Definition fat_entry v f (c : Z) : Z :=
  if fv_fat12 v then
    let o := fv_fat_start v * 512 + c + c / 2 in
    let w := f o + 256 * f (o + 1) in
    let x := if Z.odd c then w / 16 else w mod 4096 in
    if FAT12_BAD <=? x then x + 0xF000 else x
  else f (fv_fat_start v * 512 + 2 * c) + 256 * f (fv_fat_start v * 512 + 2 * c + 1).

(** The sectors of the table that hold it. *)
Definition entry_good v b (c : Z) : Prop :=
  forall s, fv_fat_start v + (if fv_fat12 v then c + c / 2 else 2 * c) / 512 <= s <= fv_fat_start v + ((if fv_fat12 v then c + c / 2 else 2 * c) + 1) / 512 -> good b s.

Lemma odd_land c : negb (Z.land c 1 =? 0) = Z.odd c.
Proof. change 1 with (Z.ones 1). rewrite Z.land_ones by lia. change (2 ^ 1) with 2. rewrite Zmod_odd. by destruct (Z.odd c). Qed.

Lemma widen_eq c w : 0 <= w < 65536 ->
  (let x := if negb (Z.land c 1 =? 0) then Z.shiftr w 4 else Z.land w 0xFFF in if FAT12_BAD <=? x then Z.lor x 0xF000 else x) =
  let x := if Z.odd c then w / 16 else w mod 4096 in if FAT12_BAD <=? x then x + 0xF000 else x.
Proof.
  intros Hw. rewrite odd_land, Z.shiftr_div_pow2 by lia. change 0xFFF with (2 ^ 12 - 1). rewrite land_ones_mod by lia. change (2 ^ 4) with 16. change (2 ^ 12) with 4096. cbv zeta.
  assert (0 <= (if Z.odd c then w / 16 else w mod 4096) < 4096) as Hx. { destruct (Z.odd c); [split; [apply Z.div_pos; lia|apply Z.div_lt_upper_bound; lia]|apply Z.mod_pos_bound; lia]. }
  by rewrite lor_widen.
Qed.

Lemma fat_next_ok v b c : vol_ok v -> block_inv b -> 0 <= c < 65536 ->
  exists n b', fat_next v b c = (n, b') /\ kept b b' /\ (n = fat_entry v (disk b) c \/ n = FAT16_EOC_MIN /\ ~ entry_good v b c).
Proof.
  intros Vo I Hc. pose proof (vo_fat _ Vo) as Hf. assert (forall a, 0 <= disk b a < 256) as Rg by (intros a; apply block_byte_range).
  unfold fat_next, fat_entry, entry_good, FAT_SECTOR_BYTES. destruct (fv_fat12 v); cbn [negb].
  - set (off := c + c / 2). assert (0 <= off < 2 ^ 17) as Ho. { unfold off. pose proof (Z.div_pos c 2 ltac:(lia) ltac:(lia)). pose proof (Z.div_lt_upper_bound c 2 32768 ltac:(lia) ltac:(lia)). lia. }
    pose proof (Z.div_mod off 512 ltac:(lia)) as Dm. pose proof (Z.mod_pos_bound off 512 ltac:(lia)) as Mb. pose proof (Z.div_pos off 512 ltac:(lia) ltac:(lia)) as Dp.
    assert (off / 512 < 256) as Du by (apply Z.div_lt_upper_bound; lia). rewrite (w32_small off), (w32_small (_ + _)) by lia. set (sec := fv_fat_start v + off / 512).
    assert (forall x y, 0 <= x < 256 -> 0 <= y < 256 -> 0 <= x + 256 * y < 65536) as W by lia.
    destruct (read_sector_ok b sec I ltac:(lia)) as (rv & data & b1 & -> & K1 & R1). destruct R1 as [[-> ->]|[-> Bad]]; cbn [negb Z.eqb FS_FAT_E_OK FS_FAT_E_IO].
    + destruct (off mod 512 + 1 <? 512) eqn:C.
      * eexists _, b1. split; [reflexivity|]. split; [done|]. left. rewrite !at_span, lor_bytes, widen_eq by (try apply Rg; try apply W; try apply Rg; lia).
        replace (sec * 512 + off mod 512) with (fv_fat_start v * 512 + c + c / 2) by (unfold sec, off in *; lia). by replace (sec * 512 + (off mod 512 + 1)) with (fv_fat_start v * 512 + c + c / 2 + 1) by (unfold sec, off in *; lia).
      * rewrite w32_small by lia. destruct K1 as (I1 & E1 & G1). destruct (read_sector_ok b1 (sec + 1) I1 ltac:(lia)) as (rv & data & b2 & -> & K2 & R2). assert (kept b b2) as K by (by apply (kept_trans b b1 b2)).
        assert (disk b1 = disk b) as Ed by (unfold disk; by rewrite E1). destruct R2 as [[-> ->]|[-> Bad]]; cbn [Z.eqb FS_FAT_E_OK FS_FAT_E_IO].
        -- eexists _, b2. split; [reflexivity|]. split; [done|]. left. rewrite Ed, !at_span, lor_bytes, widen_eq by (try apply Rg; try apply W; try apply Rg; lia).
           replace (sec * 512 + off mod 512) with (fv_fat_start v * 512 + c + c / 2) by (unfold sec, off in *; lia). by replace ((sec + 1) * 512 + 0) with (fv_fat_start v * 512 + c + c / 2 + 1) by (unfold sec, off in *; lia).
        -- eexists _, b2. split; [reflexivity|]. split; [done|]. right. split; [done|]. intros G. apply Bad. unfold good in *. rewrite G1. apply G. fold off sec. assert ((off + 1) / 512 = off / 512 + 1) by (symmetry; apply (Z.div_unique_pos _ _ _ 0); lia). unfold sec. lia.
    + eexists _, b1. split; [reflexivity|]. split; [done|]. right. split; [done|]. intros G. apply Bad, G. fold off. unfold sec. pose proof (Z.div_le_mono off (off + 1) 512 ltac:(lia) ltac:(lia)). lia.
  - rewrite (w32_small (c * 2)) by lia. set (off := c * 2). pose proof (Z.div_mod off 512 ltac:(lia)) as Dm. pose proof (Z.mod_pos_bound off 512 ltac:(lia)) as Mb. pose proof (Z.div_pos off 512 ltac:(lia) ltac:(lia)) as Dp.
    assert (off / 512 < 256) as Du by (apply Z.div_lt_upper_bound; lia). rewrite w32_small by lia. set (sec := fv_fat_start v + off / 512).
    destruct (read_sector_ok b sec I ltac:(lia)) as (rv & data & b1 & -> & K1 & R1). destruct R1 as [[-> ->]|[-> Bad]]; cbn [negb Z.eqb FS_FAT_E_OK FS_FAT_E_IO]; (eexists _, b1; split; [reflexivity|]; split; [done|]).
    + left. assert (off mod 512 < 511). { assert (off mod 512 mod 2 = 0) as E2 by (rewrite Z.mod_mod_divide by (by exists 256); unfold off; apply Z.mod_mul; lia). pose proof (Z.div_mod (off mod 512) 2). lia. }
      unfold rd16. rewrite !at_span, lor_bytes by (try apply Rg; lia). do 2 f_equal; [|f_equal]; unfold sec, off in *; lia.
    + right. split; [done|]. intros G. apply Bad, G. replace (2 * c) with off by (unfold off; lia). unfold sec. pose proof (Z.div_le_mono off (off + 1) 512 ltac:(lia) ltac:(lia)). lia.
Qed.

(** * Chains *)

(** The clusters of a chain from [c] on, to its end. *)
Inductive linked v f : Z -> list Z -> Prop :=
| linked_last c : in_chain c = true -> in_chain (fat_entry v f c) = false -> linked v f c [c]
| linked_next c l : in_chain c = true -> linked v f (fat_entry v f c) l -> linked v f c (c :: l).

Lemma chain_head v f c l : linked v f c l -> in_chain c = true /\ exists l', l = c :: l'.
Proof. intros [? ?|? ? ? ?]; eauto. Qed.

Lemma linked_det v f c l l' : linked v f c l -> linked v f c l' -> l = l'.
Proof.
  intros L. revert l'. induction L as [c H1 H2|c l H1 L IH]; intros l' L'; inversion L'; subst; [done| | |f_equal; by apply IH].
  - match goal with X : linked _ _ (fat_entry _ _ _) _ |- _ => destruct (chain_head _ _ _ _ X) end. congruence.
  - destruct (chain_head _ _ _ _ L). congruence.
Qed.

(** A chain that ends visits no cluster twice. *)
Lemma linked_suffix v f c l x : linked v f c l -> x ∈ l -> exists l', linked v f x l' /\ (length l' <= length l)%nat.
Proof.
  induction 1 as [c H1 H2|c l H1 L IH]; intros Hx.
  - apply list_elem_of_singleton in Hx as ->. exists [c]. split; [by constructor|done].
  - apply elem_of_cons in Hx as [->|Hx]; [exists (c :: l); split; [by constructor|done]|]. destruct (IH Hx) as (l' & ? & ?). exists l'. split; [done|cbn; lia].
Qed.

Lemma linked_nodup v f c l : linked v f c l -> NoDup l.
Proof.
  induction 1 as [c H1 H2|c l H1 L IH]; [apply NoDup_singleton|]. constructor; [|done]. intros Hx. destruct (linked_suffix v f _ l c L Hx) as (l' & L' & Le).
  assert (l' = c :: l) as -> by (apply (linked_det v f c); [done|by constructor]). cbn in Le. lia.
Qed.

Lemma linked_all v f c l x : linked v f c l -> x ∈ l -> in_chain x = true.
Proof. intros L Hx. destruct (linked_suffix v f c l x L Hx) as (l' & L' & _). by destruct (chain_head _ _ _ _ L'). Qed.

(** So it is no longer than there are clusters. *)
Lemma linked_short v f c l : linked v f c l -> (length l <= Z.to_nat FAT16_EOC_MIN)%nat.
Proof.
  intros L. pose proof (linked_nodup _ _ _ _ L) as Nd. assert (l ⊆+ seqZ 0 FAT16_EOC_MIN) as Sub.
  { apply NoDup_submseteq; [done|]. intros x Hx. pose proof (linked_all v f c l x L Hx) as C. unfold in_chain, FAT16_EOC_MIN in *. apply elem_of_seqZ. lia. }
  apply submseteq_length in Sub. by rewrite length_seqZ in Sub.
Qed.

(** ** The bytes of a chain *)

Definition clus_data v f (c : Z) : list Z := span f ((fv_data_start v + (c - 2) * fv_sec_per_clus v) * 512) (clus_bytes v).
Definition chain_data v f (l : list Z) : list Z := concat (clus_data v f <$> l).

Definition clus_good v b (c : Z) : Prop :=
  forall s, fv_data_start v + (c - 2) * fv_sec_per_clus v <= s < fv_data_start v + (c - 1) * fv_sec_per_clus v -> good b s.

(** Every sector that a walk along the chain reads. *)
Definition chain_good v b (l : list Z) : Prop := forall c, c ∈ l -> clus_good v b c /\ entry_good v b c.

Lemma clus_bytes_pos v : vol_ok v -> 0 < clus_bytes v /\ clus_bytes v < 2 ^ 17.
Proof. intros Vo. pose proof (vo_spc _ Vo). unfold clus_bytes, FAT_SECTOR_BYTES. lia. Qed.

Lemma clus_data_length v f c : vol_ok v -> Z.of_nat (length (clus_data v f c)) = clus_bytes v.
Proof. intros Vo. apply span_length. destruct (clus_bytes_pos v Vo). lia. Qed.

Lemma chain_data_length v f l : vol_ok v -> Z.of_nat (length (chain_data v f l)) = Z.of_nat (length l) * clus_bytes v.
Proof. intros Vo. induction l as [|c l IH]; [done|]. change (chain_data v f (c :: l)) with (clus_data v f c ++ chain_data v f l). rewrite length_app, Nat2Z.inj_add, IH, clus_data_length by done. cbn [length]. lia. Qed.

Lemma clus_lba_eq v c : vol_ok v -> in_chain c = true -> clus_lba v c = fv_data_start v + (c - 2) * fv_sec_per_clus v /\ 0 <= clus_lba v c < 2 ^ 32.
Proof.
  intros Vo C. destruct Vo as [_ Hs _ Hr Hn Hd]. unfold in_chain, FAT16_EOC_MIN in C. assert (0 <= (c - 2) * fv_sec_per_clus v < 65536 * 256) as Hm by nia.
  unfold clus_lba. rewrite (w32_small (c - 2)) by lia. rewrite (w32_small (_ * _)) by lia. rewrite w32_small by lia. lia.
Qed.

(** One cluster of a chain, and its link. *)
Lemma clus_read_ok v b c : vol_ok v -> block_inv b -> in_chain c = true ->
  exists rv data b', bread b 0 (clus_lba v c) (fv_sec_per_clus v) = (rv, data, b') /\ kept b b' /\ (rv = 0 -> data = clus_data v (disk b) c) /\ (clus_good v b c -> rv = 0).
Proof.
  intros Vo I C. destruct (clus_lba_eq v c Vo C) as [El Hl]. pose proof (vo_spc _ Vo) as Hs. destruct (bread_ok b (clus_lba v c) (fv_sec_per_clus v) I Hl ltac:(lia)) as (rv & data & b' & E & K & Hr & Hg).
  exists rv, data, b'. split_and!; [done|done|intros R; rewrite (Hr R), El; done|]. intros G. apply Hg. intros s Hs'. apply G. lia.
Qed.

Lemma slice_app_l off n (d e : list Z) : 0 <= off -> 0 <= n -> off + n <= Z.of_nat (length d) -> slice off n (d ++ e) = slice off n d.
Proof. intros Ho Hn0 Hn. unfold slice. rewrite drop_app_le by lia. rewrite take_app_le; [done|]. rewrite length_drop. lia. Qed.

(** The loop of [fs_fat_pread] from cluster [c]. *)
Lemma pread_loop_ok n v b len c l within buf :
  vol_ok v -> block_inv b -> linked v (disk b) c l -> 0 <= within < clus_bytes v -> Z.of_nat (length buf) < len ->
  within + (len - Z.of_nat (length buf)) <= Z.of_nat (length l) * clus_bytes v -> within + (len - Z.of_nat (length buf)) <= Z.of_nat n * clus_bytes v ->
  exists rv out b', pread_loop n v b len c within buf = (rv, out, b') /\ kept b b' /\
    (rv = 0 -> len <= Z.of_nat (length out) -> out = buf ++ slice within (len - Z.of_nat (length buf)) (chain_data v (disk b) l)) /\
    (rv = 0 \/ rv = FS_FAT_E_IO) /\ (chain_good v b l -> rv = 0 /\ len <= Z.of_nat (length out)).
Proof.
  intros Vo. revert b c l within buf. induction n as [|n IH]; intros b c l within buf I L Hw Hb Hl Hn; [destruct (clus_bytes_pos v Vo); lia|].
  destruct (chain_head _ _ _ _ L) as [C (l' & ->)]. cbn [pread_loop]. rewrite C. replace (Z.of_nat (length buf) <? len) with true by lia. cbn [andb].
  destruct (clus_read_ok v b c Vo I C) as (rv & data & b1 & -> & K1 & Hr & Hg). destruct (rv =? 0) eqn:R; cbn [negb].
  - assert (rv = 0) as R0 by lia. rewrite (Hr R0). pose proof (clus_data_length v (disk b) c Vo) as Ld. set (rest := len - Z.of_nat (length buf)) in *.
    set (n1 := if rest <? clus_bytes v - within then rest else clus_bytes v - within). assert (0 < n1 /\ within + n1 <= clus_bytes v /\ n1 <= rest) as (N1 & N2 & N3) by (unfold n1; destruct (rest <? _) eqn:?; lia).
    destruct K1 as (I1 & E1 & G1). destruct (kept_disk b b1 (conj I1 (conj E1 G1))) as [Ed Eg]. assert (0 <= c < 65536) as Hc by (unfold in_chain, FAT16_EOC_MIN in C; lia).
    destruct (fat_next_ok v b1 c Vo I1 Hc) as (c' & b2 & -> & K2 & Hnx). assert (kept b b2) as K by (by apply (kept_trans b b1 b2)). destruct (kept_disk b b2 K) as [Ed2 Eg2].
    set (part := slice within n1 (clus_data v (disk b) c)). assert (Z.of_nat (length part) = n1) as Lp by (apply slice_length; lia).
    assert (Z.of_nat (length (buf ++ part)) = Z.of_nat (length buf) + n1) as Lb by (rewrite length_app; lia).
    destruct (decide (n1 = rest)) as [En|Nn].
    + assert (pread_loop n v b2 len c' 0 (buf ++ part) = (0, buf ++ part, b2)) as ->. { destruct n; cbn [pread_loop]; [done|]. replace (Z.of_nat (length (buf ++ part)) <? len) with false by lia. done. }
      eexists _, _, b2. split; [reflexivity|]. split_and!; [done| |by left|intros _; lia]. intros _ _. f_equal. unfold part. rewrite En. change (chain_data v (disk b) (c :: l')) with (clus_data v (disk b) c ++ chain_data v (disk b) l').
      rewrite slice_app_l by lia. done.
    + assert (within + n1 = clus_bytes v) as Full by (unfold n1 in *; destruct (rest <? _) eqn:?; lia). cbn [length] in Hl. destruct l' as [|c2 l2]; [cbn [length] in Hl; lia|].
      inversion L as [|? ? _ L2]; subst. destruct Hnx as [->|[-> Bad]].
      * rewrite Ed in *. assert (linked v (disk b2) (fat_entry v (disk b) c) (c2 :: l2)) as L3 by (by rewrite Ed2).
        destruct (IH b2 (fat_entry v (disk b) c) (c2 :: l2) 0 (buf ++ part)) as (rv2 & out & b3 & -> & K3 & H1 & H2 & H3); [by destruct K|done|destruct (clus_bytes_pos v Vo); lia|lia|lia|lia|].
        eexists rv2, out, b3. split; [reflexivity|]. split_and!; [by apply (kept_trans b b2 b3)| |done|].
        -- intros Rv Lo. rewrite (H1 Rv Lo), Ed2, Lb, <- app_assoc. f_equal. change (chain_data v (disk b) (c :: c2 :: l2)) with (clus_data v (disk b) c ++ chain_data v (disk b) (c2 :: l2)).
           unfold part, slice. rewrite drop_app_le, take_app by lia. rewrite length_drop. f_equal; [|cbn [Z.to_nat drop]; f_equal; lia]. by rewrite !take_ge by (rewrite length_drop; lia).
        -- intros Cg. apply H3. intros x Hx. unfold clus_good, entry_good. rewrite Eg2. apply Cg. by right.
      * assert (pread_loop n v b2 len FAT16_EOC_MIN 0 (buf ++ part) = (0, buf ++ part, b2)) as ->. { destruct n; cbn [pread_loop]; [done|]. by rewrite andb_false_r. }
        eexists _, _, b2. split; [reflexivity|]. split_and!; [done|lia|by left|]. intros Cg. destruct Bad. unfold entry_good. rewrite Eg. apply Cg. by left.
  - eexists FS_FAT_E_IO, buf, b1. split; [reflexivity|]. split_and!; [done|done|by right|]. intros Cg. rewrite Hg in R; [done|]. apply Cg. by left.
Qed.

(** The walk to the cluster of an offset. *)
Lemma skip_chain_ok n v b c l :
  vol_ok v -> block_inv b -> linked v (disk b) c l -> (n < length l)%nat ->
  exists o b', skip_chain n v b c = (o, b') /\ kept b b' /\
    ((exists c', o = Some c' /\ linked v (disk b) c' (drop n l)) \/ (o = None \/ o = Some FAT16_EOC_MIN) /\ ~ chain_good v b l).
Proof.
  intros Vo. revert b c l. induction n as [|n IH]; intros b c l I L Hn; cbn [skip_chain]; [eexists _, b; split; [reflexivity|]; split; [by apply kept_refl|]; left; by exists c|].
  destruct (chain_head _ _ _ _ L) as [C (l' & ->)]. rewrite C. cbn [negb]. assert (0 <= c < 65536) as Hc by (unfold in_chain, FAT16_EOC_MIN in C; lia).
  destruct (fat_next_ok v b c Vo I Hc) as (c' & b1 & -> & K1 & Hnx). cbn [length] in Hn. destruct l' as [|c2 l2]; [cbn [length] in Hn; lia|]. inversion L as [|? ? _ L2]; subst.
  destruct (kept_disk b b1 K1) as [Ed Eg]. destruct Hnx as [->|[-> Bad]].
  - destruct (IH b1 (fat_entry v (disk b) c) (c2 :: l2)) as (o & b2 & -> & K2 & Ho); [by destruct K1|by rewrite Ed|lia|]. eexists o, b2. split; [reflexivity|]. split; [by apply (kept_trans b b1 b2)|]. cbn [drop].
    destruct Ho as [(c'' & -> & Lc)|[Ho Bad]]; [left; rewrite Ed in Lc; by exists c''|right]. split; [done|]. intros Cg. apply Bad. intros x Hx. unfold clus_good, entry_good. rewrite Eg. apply Cg. by right.
  - assert (~ chain_good v b (c :: c2 :: l2)) as Nc. { intros Cg. apply Bad. apply Cg. by left. }
    destruct n as [|n]; cbn [skip_chain]; eexists _, b1; (split; [reflexivity|]); (split; [done|]); right; (split; [|done]); [by right|by left].
Qed.

(** The disk has the bytes [content] under cluster [id] and a size. *)
Definition file_at v f (id size : Z) (content : list Z) : Prop :=
  size = Z.of_nat (length content) /\ 0 <= size < 2 ^ 32 /\ (content = [] \/ exists l, linked v f id l /\ size <= Z.of_nat (length l) * clus_bytes v /\ content = take (Z.to_nat size) (chain_data v f l)).

Definition file_good v b (id : Z) : Prop := forall l, linked v (disk b) id l -> chain_good v b l.

Lemma slice_take off n m (d : list Z) : 0 <= off -> 0 <= n -> slice off n (take (Z.to_nat m) d) = slice off (Z.min n (m - off)) d.
Proof. intros Ho Hn. unfold slice. rewrite skipn_firstn_comm, take_take. f_equal. lia. Qed.

Lemma slice_nil off n (d : list Z) : Z.of_nat (length d) <= off -> slice off n d = [].
Proof. intros Hd. unfold slice. rewrite drop_ge by lia. apply take_nil. Qed.

Lemma slice_drop off k n (d : list Z) : 0 <= off -> 0 <= k -> slice off n (drop (Z.to_nat k) d) = slice (k + off) n d.
Proof. intros Ho Hk. unfold slice. rewrite drop_drop. f_equal. f_equal. lia. Qed.

Lemma chain_data_drop v f n l : vol_ok v -> chain_data v f (drop n l) = drop (Z.to_nat (Z.of_nat n * clus_bytes v)) (chain_data v f l).
Proof.
  intros Vo. destruct (clus_bytes_pos v Vo) as [Hc _]. revert l. induction n as [|n IH]; intros l; [done|]. destruct l as [|c l]; [change (chain_data v f []) with (@nil Z); by rewrite !drop_nil|].
  cbn [drop]. rewrite IH. change (chain_data v f (c :: l)) with (clus_data v f c ++ chain_data v f l). pose proof (clus_data_length v f c Vo). rewrite drop_app_ge by lia. f_equal. lia.
Qed.

Lemma in_drop (x : Z) n l : x ∈ drop n l -> x ∈ l.
Proof. intros Hx. eapply elem_of_sublist; [exact Hx|apply sublist_drop]. Qed.

(** [fs_fat_pread] of a file that the disk holds. *)
Lemma fs_fat_pread_ok v b mem id size off len content :
  vol_ok v -> block_inv b -> file_at v (disk b) id size content -> 0 <= off -> 0 <= len < 2 ^ 32 ->
  exists rv out b', fs_fat_pread v b mem id size off len = (rv, out, b') /\ kept b b' /\ (rv = FS_FAT_E_OK -> out = slice off len content) /\
    (rv = FS_FAT_E_OK \/ rv = FS_FAT_E_IO \/ rv = FS_FAT_E_NOMEM /\ mem = false) /\ (mem = true -> file_good v b id -> rv = FS_FAT_E_OK).
Proof.
  intros Vo I (Hs & Hsz & Hf) Ho Hl. unfold fs_fat_pread. rewrite (vo_mounted _ Vo). cbn [negb].
  destruct (len =? 0) eqn:C0. { eexists _, _, b. split; [reflexivity|]. split_and!; [by apply kept_refl|intros _; by replace len with 0 by lia|by left|done]. }
  destruct (size <=? off) eqn:C1. { eexists _, _, b. split; [reflexivity|]. split_and!; [by apply kept_refl|intros _; by rewrite slice_nil by lia|by left|done]. }
  destruct Hf as [->|(l & L & Hcap & ->)]; [cbn in Hs; lia|]. destruct (clus_bytes_pos v Vo) as [Hc0 Hc1]. set (cb := clus_bytes v) in *.
  set (n := if size - off <? len then w32 (size - off) else len). assert (n = Z.min len (size - off)) as En by (unfold n; destruct (_ <? _) eqn:?; [rewrite w32_small|]; lia). clearbody n. subst n.
  set (n := Z.min len (size - off)). pose proof (Z.div_mod off cb ltac:(lia)) as Dm. pose proof (Z.mod_pos_bound off cb ltac:(lia)) as Mb. pose proof (Z.div_pos off cb Ho Hc0) as Dp.
  assert (off / cb < Z.of_nat (length l)) as Du by (apply Z.div_lt_upper_bound; lia). pose proof (Z.div_le_upper_bound off cb off ltac:(lia) ltac:(nia)) as Dl.
  rewrite (w32_small (off / cb)), (w32_small (off mod cb)) by lia. destruct (chain_head _ _ _ _ L) as [Ci _]. rewrite (w32_small id) by (unfold in_chain, FAT16_EOC_MIN in Ci; lia).
  destruct (skip_chain_ok (Z.to_nat (off / cb)) v b id l Vo I L ltac:(lia)) as (o & b1 & -> & K1 & Hsk). destruct (kept_disk b b1 K1) as [Ed Eg].
  assert (forall b2, kept b b2 -> rounds v (off mod cb + n) <> O -> pread_loop (rounds v (off mod cb + n)) v b2 n FAT16_EOC_MIN (off mod cb) [] = (0, [], b2)) as Eoc. { intros b2 _ Hr. destruct (rounds _ _); [done|]. cbn [pread_loop]. by rewrite andb_false_r. }
  assert (off mod cb + n <= Z.of_nat (rounds v (off mod cb + n)) * cb) as Rn. { unfold rounds. fold cb. rewrite Z2Nat.id by (apply Z.div_pos; lia). pose proof (Z.div_mod (off mod cb + n + cb - 1) cb ltac:(lia)). pose proof (Z.mod_pos_bound (off mod cb + n + cb - 1) cb ltac:(lia)). lia. }
  destruct Hsk as [(c' & -> & Lc)|[Ho' Bad]].
  - destruct mem; cbn [negb]; [|eexists _, _, b1; split; [reflexivity|]; split_and!; [done|done|right; by right|done]].
    assert (Z.of_nat (length (drop (Z.to_nat (off / cb)) l)) = Z.of_nat (length l) - off / cb) as Ldr by (rewrite length_drop; lia).
    destruct (pread_loop_ok (rounds v (off mod cb + n)) v b1 n c' (drop (Z.to_nat (off / cb)) l) (off mod cb) [] Vo) as (rv & out & b2 & -> & K2 & H1 & H2 & H3); [by destruct K1|by rewrite Ed|lia|cbn; lia|cbn [length]; fold cb; nia|cbn [length]; fold cb; lia|].
    cbn [length] in H1, H3. rewrite Z.sub_0_r in H1. assert (kept b b2) as K by (by apply (kept_trans b b1 b2)). destruct (rv =? 0) eqn:Cr; cbn [negb].
    + assert (rv = 0) as -> by lia. destruct (Z.of_nat (length out) <? n) eqn:Cn.
      * eexists _, _, b2. split; [reflexivity|]. split_and!; [done|done|by right; left|]. intros _ Fg. destruct H3 as [_ H3]; [|lia]. intros x Hx. unfold clus_good, entry_good. rewrite Eg. apply (Fg l L). exact (in_drop x _ l Hx).
      * eexists _, _, b2. split; [reflexivity|]. split_and!; [done| |by left|done]. intros _. rewrite (H1 eq_refl ltac:(lia)), Ed. cbn [app]. rewrite slice_take, chain_data_drop, slice_drop by (done || lia). f_equal. fold cb. lia.
    + eexists _, _, b2. split; [reflexivity|]. destruct H2 as [H2|H2]; [lia|]. split_and!; [done|intros ->; discriminate|right; by left|]. intros _ Fg. destruct H3 as [H3 _]; [|lia]. intros x Hx. unfold clus_good, entry_good. rewrite Eg. apply (Fg l L). exact (in_drop x _ l Hx).
  - assert (mem = true -> file_good v b id -> False) as No by (intros _ Fg; by apply Bad, Fg). destruct Ho' as [->| ->].
    + eexists _, _, b1. split; [reflexivity|]. split_and!; [done|done|by right; left|]. intros M Fg. by destruct No.
    + destruct mem; cbn [negb]; [|eexists _, _, b1; split; [reflexivity|]; split_and!; [done|done|right; by right|done]].
      rewrite Eoc by (try done; intros R0; rewrite R0 in Rn; lia). cbn [negb Z.eqb length]. replace (Z.of_nat 0 <? n) with true by lia. eexists _, _, b1. split; [reflexivity|]. split_and!; [done|done|by right; left|]. intros M Fg. by destruct No.
Qed.

End read.
