(* ===== verification/FatDir.v ===== *)
(** Directories of the FAT file system, and the tree of files they make. *)

From stdpp Require Import base list gmap strings numbers option.
From Stdlib Require Import ZArith Lia ZifyBool.
From S2P Require Import Prelude Bio Fat FatRead.

(** * Entries in a row of bytes *)

Definition slots (d : list Z) : list (list Z) := (fun i => slice (32 * Z.of_nat i) 32 d) <$> seq 0 (length d / 32).

Lemma slots_app d e : (length d mod 32 = 0)%nat -> slots (d ++ e) = slots d ++ slots e.
Proof.
  intros Hd. pose proof (Nat.div_mod_eq (length d) 32) as Dm. assert (length (d ++ e) / 32 = length d / 32 + length e / 32)%nat as Ln.
  { rewrite length_app. replace (length d + length e)%nat with (length e + length d / 32 * 32)%nat by lia. rewrite Nat.div_add by lia. lia. }
  unfold slots. rewrite Ln, seq_app, fmap_app. f_equal.
  - apply list_fmap_ext. intros i x Hx. apply lookup_seq in Hx as [-> Hx]. apply slice_app_l; lia.
  - rewrite Nat.add_0_l, <- (Nat.add_0_r (length d / 32)), <- fmap_add_seq, <- list_fmap_compose. apply list_fmap_ext. intros i x Hx. apply lookup_seq in Hx as [-> Hx]. unfold compose, slice.
    rewrite drop_app_ge by lia. do 2 f_equal. lia.
Qed.

(** Does a walk of the directory go past this entry in silence? *)
Definition unused (de : list Z) : bool := (at_ de 0 =? FAT_DIRENT_FREE) || (at_ de 11 =? FAT_ATTR_LONG_NAME).

Fixpoint live_slots (ss : list (list Z)) : list (list Z) :=
  match ss with
  | [] => []
  | de :: ss => if at_ de 0 =? FAT_DIRENT_END then [] else if unused de then live_slots ss else de :: live_slots ss
  end.

(** What a walk shows its visitor; [inl] ends it. *)
Section visit.
Context {S : Type} (fn : list Z -> S -> Z * S).

Fixpoint visit (ss : list (list Z)) (st : S) : (Z * S) + S :=
  match ss with
  | [] => inr st
  | de :: ss =>
      if at_ de 0 =? FAT_DIRENT_END then inl (0, st)
      else if unused de then visit ss st
      else let '(rv, st) := fn de st in if negb (rv =? 0) then inl (rv, st) else visit ss st
  end.

Definition finish (r : (Z * S) + S) : Z * S := match r with inl r => r | inr st => (0, st) end.

Fixpoint shows (l : list (list Z)) (st : S) : Z * S :=
  match l with
  | [] => (0, st)
  | de :: l => let '(rv, st) := fn de st in if negb (rv =? 0) then (rv, st) else shows l st
  end.

Lemma visit_app a b st : visit (a ++ b) st = match visit a st with inl r => inl r | inr st => visit b st end.
Proof. revert st. induction a as [|de a IH]; intros st; cbn [app visit]; [done|]. destruct (_ =? _); [done|]. destruct (unused de); [apply IH|]. destruct (fn de st) as [rv st1]. destruct (negb _); [done|apply IH]. Qed.

Lemma visit_live ss st : finish (visit ss st) = shows (live_slots ss) st.
Proof. revert st. induction ss as [|de ss IH]; intros st; cbn [visit live_slots]; [done|]. destruct (_ =? _); [done|]. destruct (unused de); [apply IH|]. cbn [shows]. destruct (fn de st) as [rv st1]. destruct (negb _); [done|apply IH]. Qed.

Lemma walk_entries_visit n sec e st : walk_entries fn n sec e st = visit ((fun i => slice (e + 32 * Z.of_nat i) 32 sec) <$> seq 0 n) st.
Proof.
  revert e st. induction n as [|n IH]; intros e st; cbn [walk_entries seq fmap list_fmap visit]; [done|]. replace (e + 32 * Z.of_nat 0) with e by lia. change FAT_DIRENT_BYTES with 32.
  assert ((fun i => slice (e + 32 * Z.of_nat i) 32 sec) <$> seq 1 n = (fun i => slice (e + 32 + 32 * Z.of_nat i) 32 sec) <$> seq 0 n) as ->.
  { rewrite <- fmap_S_seq, <- list_fmap_compose. apply list_fmap_ext. intros i x _. unfold compose. f_equal. lia. }
  unfold unused. destruct (at_ _ 0 =? FAT_DIRENT_END); [done|]. destruct (at_ _ 0 =? FAT_DIRENT_FREE); cbn [orb]; [apply IH|]. destruct (at_ _ 11 =? FAT_ATTR_LONG_NAME); [apply IH|].
  destruct (fn _ st) as [rv st1]. destruct (negb _); [done|apply IH].
Qed.

Lemma walk_sector_visit sec st : length sec = 512%nat -> walk_entries fn 16 sec 0 st = visit (slots sec) st.
Proof. intros Hs. rewrite walk_entries_visit. unfold slots. rewrite Hs. reflexivity. Qed.

Context {B : Type} `{BlockSpec B}.
Implicit Types (b : B) (v : fat_vol).

Lemma span_sectors f lba n : 0 <= n -> slots (span f (lba * 512) ((n + 1) * 512)) = slots (span f (lba * 512) 512) ++ slots (span f ((lba + 1) * 512) (n * 512)).
Proof.
  intros Hn. replace ((n + 1) * 512) with (512 + n * 512) by lia. rewrite span_app by lia. replace (lba * 512 + 512) with ((lba + 1) * 512) by lia. apply slots_app.
  pose proof (span_length f (lba * 512) 512 ltac:(lia)). by replace (length (span f (lba * 512) 512)) with 512%nat by lia.
Qed.

Lemma walk_sectors_ok n b lba st :
  block_inv b -> 0 <= lba -> lba + Z.of_nat n < 2 ^ 32 ->
  exists r b', walk_sectors fn n b lba st = (r, b') /\ kept b b' /\ ((forall s, lba <= s < lba + Z.of_nat n -> good b s) -> r = visit (slots (span (disk b) (lba * 512) (Z.of_nat n * 512))) st).
Proof.
  intros I Hl Hn. revert b lba st I Hl Hn. induction n as [|n IH]; intros b lba st I Hl Hn; cbn [walk_sectors]; [by eexists _, b; split; [reflexivity|]|].
  rewrite w32_small by lia. destruct (read_sector_ok b lba I ltac:(lia)) as (rv & sec & b1 & -> & K1 & [[-> ->]|[-> Bad]]); cbn [negb Z.eqb FS_FAT_E_OK FS_FAT_E_IO].
  - pose proof (span_length (disk b) (lba * 512) 512 ltac:(lia)) as Ls. rewrite walk_sector_visit by lia. destruct (kept_disk b b1 K1) as [Ed Eg].
    assert (slots (span (disk b) (lba * 512) (Z.of_nat (Datatypes.S n) * 512)) = slots (span (disk b) (lba * 512) 512) ++ slots (span (disk b) ((lba + 1) * 512) (Z.of_nat n * 512))) as -> by (rewrite <- span_sectors by lia; do 2 f_equal; lia).
    rewrite visit_app. destruct (visit _ st) as [r|st1]; [by eexists _, b1; split; [reflexivity|]|].
    destruct (IH b1 (lba + 1) st1) as (r & b2 & -> & K2 & Hr); [by destruct K1|lia|lia|]. eexists r, b2. split; [reflexivity|]. split; [by apply (kept_trans b b1 b2)|]. intros G. rewrite Hr, Ed; [done|]. intros s Hs. rewrite Eg. apply G. lia.
  - eexists _, b1. split; [reflexivity|]. split; [done|]. intros G. destruct Bad. apply G. lia.
Qed.

Lemma chain_slots v f c l : vol_ok v -> slots (chain_data v f (c :: l)) = slots (clus_data v f c) ++ slots (chain_data v f l).
Proof.
  intros Vo. apply slots_app. pose proof (clus_data_length v f c Vo) as L. unfold clus_bytes, FAT_SECTOR_BYTES in L. pose proof (vo_spc _ Vo).
  replace (length (clus_data v f c)) with (Z.to_nat (fv_sec_per_clus v) * 16 * 32)%nat by lia. by apply Nat.Div0.mod_mul.
Qed.

Lemma walk_chain_ok fuel v b c l st :
  vol_ok v -> block_inv b -> linked v (disk b) c l -> (length l <= fuel)%nat ->
  exists rv st' b', walk_chain fn fuel v b c st = Some (rv, st', b') /\ kept b b' /\ (chain_good v b l -> (rv, st') = finish (visit (slots (chain_data v (disk b) l)) st)).
Proof.
  intros Vo. revert b c l st. induction fuel as [|fuel IH]; intros b c l st I L Hf; [destruct (chain_head _ _ _ _ L) as [_ (l' & ->)]; cbn in Hf; lia|].
  destruct (chain_head _ _ _ _ L) as [C (l' & ->)]. cbn [walk_chain]. destruct (clus_lba_eq v c Vo C) as [El Hl]. pose proof (vo_spc _ Vo) as Hs. assert (0 <= c < 65536) as Hc by (unfold in_chain, FAT16_EOC_MIN in C; lia).
  assert (clus_lba v c + fv_sec_per_clus v < 2 ^ 32) as Hw. { rewrite El. destruct Vo as [_ _ _ Hr Hn Hd]. nia. }
  destruct (walk_sectors_ok (Z.to_nat (fv_sec_per_clus v)) b (clus_lba v c) st I ltac:(lia) ltac:(lia)) as (r & b1 & -> & K1 & Hr). rewrite Z2Nat.id in Hr by lia. destruct (kept_disk b b1 K1) as [Ed Eg].
  assert (chain_good v b (c :: l') -> r = visit (slots (clus_data v (disk b) c)) st) as Hr'. { intros Cg. unfold clus_data, clus_bytes, FAT_SECTOR_BYTES. rewrite <- El. apply Hr. intros s Hs'. destruct (Cg c ltac:(by left)) as [G _]. apply G. lia. }
  rewrite chain_slots, visit_app by done. destruct r as [[rv st1]|st1]; [eexists _, _, b1; split; [reflexivity|]; split; [done|]; intros Cg; by rewrite <- (Hr' Cg)|].
  destruct (fat_next_ok v b1 c Vo ltac:(by destruct K1) Hc) as (c' & b2 & -> & K2 & Hnx). assert (kept b b2) as K by (by apply (kept_trans b b1 b2)). destruct (kept_disk b b2 K) as [Ed2 Eg2].
  assert ((c' <? 2) || (FAT16_EOC_MIN <=? c') = negb (in_chain c')) as -> by (unfold in_chain; lia). rewrite Ed in Hnx.
  assert (chain_good v b (c :: l') -> c' = fat_entry v (disk b) c) as Nx. { intros Cg. destruct Hnx as [?|[_ Bad]]; [done|]. destruct Bad. unfold entry_good. rewrite Eg. apply (Cg c). by left. }
  destruct (in_chain c') eqn:Ci; cbn [negb].
  - assert (c' = fat_entry v (disk b) c) as -> by (destruct Hnx as [?|[-> _]]; [done|discriminate]). inversion L as [? _ Last|? ? _ L2]; subst; [congruence|].
    destruct (IH b2 (fat_entry v (disk b) c) l' st1) as (rv & st2 & b3 & -> & K3 & H3); [by destruct K|by rewrite Ed2|cbn in Hf; lia|]. eexists rv, st2, b3. split; [reflexivity|]. split; [by apply (kept_trans b b2 b3)|].
    intros Cg. rewrite <- (Hr' Cg). rewrite H3, Ed2; [done|]. intros x Hx. unfold clus_good, entry_good. rewrite Eg2. apply Cg. by right.
  - eexists _, _, b2. split; [reflexivity|]. split; [done|]. intros Cg. rewrite <- (Hr' Cg). inversion L as [? _ Last|? ? _ L2]; subst; [done|]. destruct (chain_head _ _ _ _ L2) as [C2 _]. rewrite <- (Nx Cg) in C2. congruence.
Qed.

(** The slots of a directory on the disk. *)
Definition dir_slots v (f : Z -> Z) (d : fat_dir) (ss : list (list Z)) : Prop :=
  if fd_is_root d then ss = slots (span f (fv_root_start v * 512) (fv_root_sectors v * 512))
  else exists l, linked v f (fd_clus d) l /\ ss = slots (chain_data v f l).

Definition dir_good v b (d : fat_dir) : Prop :=
  if fd_is_root d then forall s, fv_root_start v <= s < fv_root_start v + fv_root_sectors v -> good b s else forall l, linked v (disk b) (fd_clus d) l -> chain_good v b l.

(** Fuel for the longest chain a table can hold. *)
Definition FAT_FUEL : nat := Z.to_nat FAT16_EOC_MIN.

Lemma dir_walk_ok fuel v b d ss st :
  vol_ok v -> block_inv b -> dir_slots v (disk b) d ss -> (FAT_FUEL <= fuel)%nat ->
  exists rv st' b', dir_walk fn fuel v b d st = Some (rv, st', b') /\ kept b b' /\ (dir_good v b d -> (rv, st') = shows (live_slots ss) st).
Proof.
  intros Vo I Hd Hf. unfold dir_walk, dir_slots, dir_good in *. rewrite (vo_mounted _ Vo). cbn [negb]. destruct (fd_is_root d).
  - destruct Vo as [_ _ _ Hr Hn _]. destruct (walk_sectors_ok (Z.to_nat (fv_root_sectors v)) b (fv_root_start v) st I ltac:(lia) ltac:(lia)) as (r & b1 & -> & K1 & Hr'). rewrite Z2Nat.id in Hr' by lia. subst ss.
    destruct r as [[rv st1]|st1]; (eexists _, _, b1; split; [reflexivity|]; split; [done|]); intros G; rewrite <- visit_live, <- (Hr' G); done.
  - destruct Hd as (l & L & ->). pose proof (linked_short _ _ _ _ L). destruct (walk_chain_ok fuel v b (fd_clus d) l st Vo I L) as (rv & st1 & b1 & E & K & Hv); [unfold FAT_FUEL in *; lia|].
    exists rv, st1, b1. split_and!; [done|done|]. intros G. rewrite <- visit_live. by apply Hv, G.
Qed.

End visit.

(** * Finding and listing *)

Definition no_label (de : list Z) : bool := negb (bit (at_ de 11) FAT_ATTR_VOLUME_ID).

(** The entries that [readdir] lists, in order. *)
Definition listed (ss : list (list Z)) : list (list Z) := List.filter no_label (live_slots ss).

Fixpoint first_named (name : list Z) (l : list (list Z)) : option (list Z) :=
  match l with [] => None | de :: l => if bool_decide (slice 0 11 de = name) then Some de else first_named name l end.

Definition dirent_of (de : list Z) : fs_fat_dirent :=
  let e := ent_fill de in mkDirent (synth_ino e) (if fe_is_dir e then 0 else fe_size e) (if fe_is_dir e then 1 else 0) (de_to_name de).

Lemma shows_find name l : shows (find_cb name) l None =
  match first_named name (List.filter no_label l) with Some de => (1, Some (ent_fill de)) | None => (0, None) end.
Proof.
  induction l as [|de l IH]; [done|]. cbn [shows]. unfold find_cb at 1. cbn [List.filter]. unfold no_label at 1. destruct (bit (at_ de 11) FAT_ATTR_VOLUME_ID); cbn [negb].
  - exact IH.
  - cbn [first_named]. case_bool_decide; [done|exact IH].
Qed.

Lemma shows_readdir i l seen : 0 <= seen -> seen <= i < 2 ^ 32 ->
  exists n, shows (readdir_cb i) l (seen, None) = match List.filter no_label l !! Z.to_nat (i - seen) with Some de => (1, (n, Some (dirent_of de))) | None => (0, (n, None)) end.
Proof.
  revert seen. induction l as [|de l IH]; intros seen Hs Hi; [by exists seen|]. cbn [shows]. unfold readdir_cb at 1. cbn [List.filter]. unfold no_label at 1. destruct (bit (at_ de 11) FAT_ATTR_VOLUME_ID); cbn [negb].
  - cbn [negb Z.eqb]. by apply IH.
  - destruct (seen =? i) eqn:C; cbn [negb Z.eqb].
    + exists seen. assert (i = seen) as -> by lia. by rewrite Z.sub_diag.
    + rewrite w32_small by lia. destruct (IH (seen + 1) ltac:(lia) ltac:(lia)) as [n ->]. exists n. replace (Z.to_nat (i - seen)) with (S (Z.to_nat (i - (seen + 1)))) by lia. done.
Qed.

Section find.
Context {B : Type} `{BlockSpec B}.
Implicit Types (b : B) (v : fat_vol).

Lemma dir_find_ok fuel v b d ss name :
  vol_ok v -> block_inv b -> dir_slots v (disk b) d ss -> (FAT_FUEL <= fuel)%nat ->
  exists r b', dir_find fuel v b d name = Some (r, b') /\ kept b b' /\
    (dir_good v b d -> r = match first_named name (listed ss) with Some de => inr (ent_fill de) | None => inl FS_FAT_E_NOTFOUND end).
Proof.
  intros Vo I Hd Hf. destruct (dir_walk_ok (find_cb name) fuel v b d ss None Vo I Hd Hf) as (rv & out & b' & E & K & Hr). unfold dir_find. rewrite E. cbn [mbind option_bind]. eexists _, b'. split; [reflexivity|]. split; [done|].
  intros G. specialize (Hr G). rewrite shows_find in Hr. fold (listed ss) in Hr. destruct (first_named name (listed ss)); injection Hr as -> ->; done.
Qed.

End find.

(** * Paths *)

(** ** Splitting *)

Lemma comps_from_app cur p q : (forall x, x ∈ p -> x <> SLASH) -> comps_from cur (p ++ q) = comps_from (rev p ++ cur) q.
Proof.
  revert cur. induction p as [|c p IH]; intros cur Hp; [done|]. cbn [app comps_from]. replace (c =? SLASH) with false by (pose proof (Hp c ltac:(by left)); lia).
  rewrite IH by (intros x Hx; apply Hp; by right). cbn [rev]. by rewrite <- app_assoc.
Qed.

(** A slash ends the piece before it. *)
Lemma comps_from_slash cur p q : comps_from cur (p ++ SLASH :: q) = comps_from cur p ++ comps q.
Proof.
  revert cur. induction p as [|c p IH]; intros cur; cbn [app comps_from]; [rewrite Z.eqb_refl; by destruct cur|].
  destruct (c =? SLASH); [destruct cur; [apply IH|by rewrite IH]|apply IH].
Qed.

Lemma comps_plain s : s <> [] -> (forall x, x ∈ s -> x <> SLASH) -> comps s = [s].
Proof.
  intros Hs Hx. unfold comps. rewrite <- (app_nil_r s) at 1. rewrite comps_from_app by done. cbn [comps_from]. rewrite app_nil_r. destruct (rev s) eqn:E; [|by rewrite <- E, rev_involutive].
  apply (f_equal (@rev Z)) in E. rewrite rev_involutive in E. by subst.
Qed.

Lemma last_slash_spec s : match last_slash s with Some (a, base) => s = a ++ SLASH :: base /\ (forall x, x ∈ base -> x <> SLASH) | None => forall x, x ∈ s -> x <> SLASH end.
Proof.
  induction s as [|c s IH]; cbn [last_slash]; [intros x Hx; by apply not_elem_of_nil in Hx|]. destruct (last_slash s) as [[a base]|].
  - destruct IH as [-> Hb]. by split.
  - destruct (c =? SLASH) eqn:C; [split; [cbn [app]; f_equal; lia|done]|]. intros x Hx. apply elem_of_cons in Hx as [->|Hx]; [lia|by apply IH].
Qed.

Lemma strip_slashes_spec s : exists k, s = strip_slashes s ++ replicate k SLASH.
Proof.
  induction s as [|c s [k IH]]; [by exists 0%nat|]. destruct s as [|c2 s]; [by exists 0%nat|]. change (strip_slashes (c :: c2 :: s)) with (match strip_slashes (c2 :: s) with [x] => if x =? SLASH then [c] else [c; x] | s => c :: s end).
  destruct (strip_slashes (c2 :: s)) as [|x [|y l]]; [exists k; cbn [app]; by rewrite IH at 1| |exists k; cbn [app]; by rewrite IH at 1].
  destruct (x =? SLASH) eqn:C; [exists (S k); cbn [app replicate]; rewrite IH at 1; cbn [app]; do 2 f_equal; lia|exists k; cbn [app]; by rewrite IH at 1].
Qed.

(** Nothing is left of slashes at the end but the first character. *)
Lemma strip_slashes_end s a : strip_slashes s = a ++ [SLASH] -> a = [].
Proof.
  revert a. induction s as [|c s IH]; intros a E; [by destruct a|]. destruct s as [|c2 s]; [cbn in E; destruct a as [|x [|]]; [done|discriminate|discriminate]|].
  change (strip_slashes (c :: c2 :: s)) with (match strip_slashes (c2 :: s) with [x] => if x =? SLASH then [c] else [c; x] | s => c :: s end) in E.
  destruct (strip_slashes (c2 :: s)) as [|x [|y l]].
  - destruct a as [|z [|]]; [done|discriminate|discriminate].
  - destruct (x =? SLASH) eqn:C; destruct a as [|z [|z2 [|]]]; try discriminate; [done|]. injection E as _ ->. by rewrite Z.eqb_refl in C.
  - destruct a as [|z a]; [done|]. injection E as -> E. by rewrite (IH a E) in E.
Qed.

Lemma comps_slashes l k : comps (l ++ replicate k SLASH) = comps l.
Proof.
  induction k as [|k IH]; [by rewrite app_nil_r|]. rewrite replicate_S_end, app_assoc. unfold comps in *. rewrite comps_from_slash, IH. apply app_nil_r.
Qed.

(** The last piece of a path, and the pieces of what [resolve_entry] takes for
    the parent. *)
Lemma split_path path : comps path <> [] ->
  match last_slash (strip_slashes path) with
  | Some (parent, base) => comps path = comps parent ++ [base] /\ base <> []
  | None => comps path = [strip_slashes path] /\ strip_slashes path <> []
  end.
Proof.
  intros Ne. assert (comps path = comps (strip_slashes path)) as E. { destruct (strip_slashes_spec path) as [k Hk]. rewrite Hk at 1. apply comps_slashes. }
  rewrite E in *. pose proof (last_slash_spec (strip_slashes path)) as L. destruct (last_slash (strip_slashes path)) as [[a base]|] eqn:El.
  - destruct L as [Es Hb]. assert (base <> []) as Nb.
    { intros ->. pose proof (strip_slashes_end path a Es). subst a. rewrite Es in Ne. by destruct Ne. }
    split; [|done]. rewrite Es. unfold comps. rewrite comps_from_slash. f_equal. by apply comps_plain.
  - assert (strip_slashes path <> []) as Nb by (intros E0; by rewrite E0 in Ne). split; [|done]. by apply comps_plain.
Qed.

(** ** The tree *)

#[warnings="-register-all"] Inductive node :=
| NFile (content : list Z)
| NDir (kids : list (list Z * node)).

(** The entries of a directory but its own and its parent's. *)
Definition members (ss : list (list Z)) : list (list Z) := List.filter (fun de => negb (at_ de 0 =? DOT)) (listed ss).

(** One past the last cluster of the volume. *)
Definition fat_top (v : fat_vol) : Z := 2 + (fv_total_sectors v - fv_data_start v) / fv_sec_per_clus v.
Definition confined (v : fat_vol) (f : Z -> Z) (c : Z) : Prop := forall l, linked v f c l -> forall x, x ∈ l -> x < fat_top v.

(** The disk holds a file or a directory under an entry. *)
#[warnings="-register-all"] Inductive holds (v : fat_vol) (f : Z -> Z) : fat_ent -> node -> Prop :=
| holds_file e content : fe_is_dir e = false -> file_at v f (fe_clus e) (fe_size e) content -> confined v f (fe_clus e) -> holds v f e (NFile content)
| holds_dir e ss kids : fe_is_dir e = true -> dir_slots v f (mkDir false (fe_clus e)) ss -> confined v f (fe_clus e) ->
    Forall2 (fun de kid => slice 0 11 de = fst kid) (members ss) kids -> Forall2 (fun de kid => holds v f (ent_fill de) (snd kid)) (members ss) kids -> holds v f e (NDir kids).

Definition dir_holds (v : fat_vol) (f : Z -> Z) (d : fat_dir) (kids : list (list Z * node)) : Prop :=
  exists ss, dir_slots v f d ss /\ (fd_is_root d = false -> confined v f (fd_clus d)) /\
    Forall2 (fun de kid => slice 0 11 de = fst kid) (members ss) kids /\ Forall2 (fun de kid => holds v f (ent_fill de) (snd kid)) (members ss) kids.

Fixpoint find_kid (name : list Z) (kids : list (list Z * node)) : option node :=
  match kids with [] => None | (n, x) :: kids => if bool_decide (n = name) then Some x else find_kid name kids end.

Fixpoint walk_tree (x : node) (cs : list (list Z)) : option node :=
  match cs with
  | [] => Some x
  | c :: cs => match x with NDir kids => y ← find_kid (make_83 c) kids; walk_tree y cs | NFile _ => None end
  end.

(** The volume lies on sectors that can be read, its table is as large as its
    clusters need. *)
Record vol_fits (v : fat_vol) : Prop := {
  vf_total : fv_data_start v <= fv_total_sectors v;
  vf_table : (if fv_fat12 v then fat_top v + (fat_top v + 1) / 2 else 2 * fat_top v) <= (fv_root_start v - fv_fat_start v) * 512;
}.

(** Pieces of a path that are no dots, fit in the buffer and have a short name
    that does not begin with a dot. *)
Definition plain (c : list Z) : Prop := is_dot c = false /\ (length c <= 63)%nat /\ at_ (make_83 c) 0 <> DOT.
Definition names (cs : list (list Z)) : list (list Z) := List.filter (fun c => negb (is_dot c)) cs.

Lemma at_slice (de : list Z) : at_ (slice 0 11 de) 0 = at_ de 0.
Proof. unfold at_. by rewrite slice_lookup by lia. Qed.

Lemma first_members name ss : at_ name 0 <> DOT -> first_named name (listed ss) = first_named name (members ss).
Proof.
  intros Hn. unfold members. induction (listed ss) as [|de l IH]; [done|]. cbn [first_named List.filter]. destruct (at_ de 0 =? DOT) eqn:C; cbn [negb].
  - rewrite bool_decide_false; [done|]. intros <-. rewrite at_slice in Hn. lia.
  - cbn [first_named]. by rewrite IH.
Qed.

Lemma first_kid v f name ms kids :
  Forall2 (fun de kid => slice 0 11 de = fst kid) ms kids -> Forall2 (fun de kid => holds v f (ent_fill de) (snd kid)) ms kids ->
  match first_named name ms, find_kid name kids with Some de, Some x => holds v f (ent_fill de) x | None, None => True | _, _ => False end.
Proof.
  intros F G. induction F as [|de [n x] ms kids E F IH]; [done|]. inversion G; subst. cbn [first_named find_kid fst snd] in *. rewrite E. case_bool_decide; [done|by apply IH].
Qed.

Section tree.
Context {B : Type} `{BlockSpec B}.
Implicit Types (b : B) (v : fat_vol).

Definition vol_good v b : Prop := forall s, 0 <= s < fv_total_sectors v -> good b s.

Lemma confined_good v b l : vol_ok v -> vol_fits v -> vol_good v b -> (forall x, x ∈ l -> x < fat_top v /\ in_chain x = true) -> chain_good v b l.
Proof.
  intros Vo [Ft Fb] G Hl c Hc. destruct (Hl c Hc) as [Top C]. destruct Vo as [_ Hs Hf Hr Hn Hd]. unfold in_chain, FAT16_EOC_MIN in C. unfold fat_top in *.
  set (spc := fv_sec_per_clus v) in *. set (q := (fv_total_sectors v - fv_data_start v) / spc) in *. pose proof (Z.mul_div_le (fv_total_sectors v - fv_data_start v) spc ltac:(lia)) as Md. fold q in Md. split.
  - intros s Hs'. fold spc in Hs'. apply G. assert (0 <= (c - 2) * spc) by nia. assert ((c - 1) * spc <= spc * q) by nia. lia.
  - intros s Hs'. apply G. set (o := if fv_fat12 v then c + c / 2 else 2 * c) in *.
    assert (0 <= o /\ o + 1 < (fv_root_start v - fv_fat_start v) * 512) as [O1 O2].
    { unfold o. destruct (fv_fat12 v); [|lia]. pose proof (Z.div_pos c 2 ltac:(lia) ltac:(lia)). pose proof (Z.div_le_mono (c + 1 * 2) (2 + q + 1) 2 ltac:(lia) ltac:(lia)). rewrite Z.div_add in * by lia. lia. }
    pose proof (Z.div_pos o 512 O1 ltac:(lia)). pose proof (Z.div_lt_upper_bound (o + 1) 512 (fv_root_start v - fv_fat_start v) ltac:(lia) ltac:(lia)). lia.
Qed.

Lemma dir_holds_good v b d kids : vol_ok v -> vol_fits v -> vol_good v b -> dir_holds v (disk b) d kids -> dir_good v b d.
Proof.
  intros Vo Vf G (ss & Hs & Cf & _). unfold dir_slots, dir_good in *. destruct (fd_is_root d).
  - intros s Hs'. apply G. destruct Vo, Vf. lia.
  - intros l L. apply confined_good; [done..|]. intros x Hx. split; [by apply (Cf eq_refl l L)|by apply (linked_all v (disk b) (fd_clus d) l)].
Qed.

(** Looking a plain name up. *)
Lemma dir_find_kid fuel v b d kids name :
  vol_ok v -> vol_fits v -> vol_good v b -> block_inv b -> (FAT_FUEL <= fuel)%nat -> dir_holds v (disk b) d kids -> at_ name 0 <> DOT ->
  exists b', kept b b' /\ match find_kid name kids with
    | Some x => exists e, dir_find fuel v b d name = Some (inr e, b') /\ holds v (disk b) e x
    | None => dir_find fuel v b d name = Some (inl FS_FAT_E_NOTFOUND, b')
    end.
Proof.
  intros Vo Vf G I Hf Dh Hn. pose proof (dir_holds_good v b d kids Vo Vf G Dh) as Dg. destruct Dh as (ss & Hs & _ & F1 & F2).
  destruct (dir_find_ok fuel v b d ss name Vo I Hs Hf) as (r & b' & -> & K & Hr). rewrite (Hr Dg), (first_members name ss Hn). exists b'. split; [done|].
  pose proof (first_kid v (disk b) name (members ss) kids F1 F2) as Fk. destruct (first_named name (members ss)), (find_kid name kids); try done. by eexists.
Qed.

Lemma kept_good v b b' : kept b b' -> vol_good v b -> vol_good v b'.
Proof. intros K G s Hs. destruct (kept_disk b b' K) as [_ ->]. by apply G. Qed.

Lemma resolve_comps_ok fuel v b d kids cs :
  vol_ok v -> vol_fits v -> vol_good v b -> block_inv b -> (FAT_FUEL <= fuel)%nat -> dir_holds v (disk b) d kids -> Forall (fun c => is_dot c = true \/ plain c) cs ->
  exists r b', resolve_comps fuel v b d cs = Some (r, b') /\ kept b b' /\
    match walk_tree (NDir kids) (names cs) with
    | Some (NDir kids') => exists d', r = inr d' /\ dir_holds v (disk b) d' kids'
    | _ => r = inl FS_FAT_E_NOTFOUND
    end.
Proof.
  intros Vo Vf G I Hf Dh Hc. revert b d kids G I Dh. induction Hc as [|c cs Hc _ IH]; intros b d kids G I Dh; [by eexists _, b; split; [reflexivity|]; split; [by apply kept_refl|]; exists d|].
  cbn [resolve_comps]. unfold names. cbn [List.filter]. fold (names cs). assert (take (Z.to_nat (FS_FAT_NAME_MAX - 1)) c = c) as ->.
  { apply take_ge. destruct Hc as [Hc|(_ & Hc & _)]; [|unfold FS_FAT_NAME_MAX; lia]. destruct c as [|x [|]]; [done|cbn; unfold FS_FAT_NAME_MAX; lia|discriminate]. }
  destruct (is_dot c) eqn:Ec; cbn [negb]; [by apply IH|]. destruct Hc as [?|(_ & _ & Hd)]; [done|].
  destruct (dir_find_kid fuel v b d kids (make_83 c) Vo Vf G I Hf Dh Hd) as (b1 & K1 & Fk). cbn [walk_tree]. destruct (kept_disk b b1 K1) as [Ed _].
  destruct (find_kid (make_83 c) kids) as [x|]; cbn [mbind option_bind].
  - destruct Fk as (e & -> & Hx). cbn [mbind option_bind]. destruct Hx as [e content Nd _ _|e ss kids' Nd Sl Cf F1 F2]; rewrite Nd; cbn [negb].
    + eexists _, b1. split; [reflexivity|]. split; [done|]. by destruct (names cs).
    + destruct (IH b1 (mkDir false (fe_clus e)) kids') as (r & b2 & -> & K2 & Hr); [by apply (kept_good v b b1)|by destruct K1|rewrite Ed; by exists ss|].
      eexists r, b2. split; [reflexivity|]. split; [by apply (kept_trans b b1 b2)|]. by rewrite Ed in Hr.
  - rewrite Fk. cbn [mbind option_bind]. by eexists _, b1.
Qed.

(** A path whose pieces are dots or plain names, the last a plain name. *)
Definition plain_path (path : list Z) : Prop :=
  (length path <= 255)%nat /\ at_ (make_83 (path_basename path)) 0 <> DOT /\
  exists pre base, comps path = pre ++ [base] /\ Forall (fun c => is_dot c = true \/ plain c) pre /\ plain base.

Lemma names_app a c : names (a ++ c) = names a ++ names c.
Proof. unfold names. apply List.filter_app. Qed.

Lemma walk_tree_app x cs c : walk_tree x (cs ++ [c]) = match walk_tree x cs with Some (NDir kids) => find_kid (make_83 c) kids | _ => None end.
Proof.
  revert x. induction cs as [|c' cs IH]; intros x; cbn [app walk_tree].
  - destruct x as [|kids]; [done|]. by destruct (find_kid _ _).
  - destruct x as [|kids]; [done|]. destruct (find_kid (make_83 c') kids) as [y|]; cbn [mbind option_bind]; [apply IH|done].
Qed.

(** What [resolve_entry] should find: the path, or else its last piece in the
    root. *)
Definition lookup_tree (kids : list (list Z * node)) (path : list Z) : option node :=
  match walk_tree (NDir kids) (names (comps path)) with Some x => Some x | None => find_kid (make_83 (path_basename path)) kids end.

Lemma find_in_ok fuel v b d kids0 kids base path :
  vol_ok v -> vol_fits v -> vol_good v b -> block_inv b -> (FAT_FUEL <= fuel)%nat -> dir_holds v (disk b) root_dir kids0 -> dir_holds v (disk b) d kids ->
  base <> [] -> at_ (make_83 base) 0 <> DOT -> at_ (make_83 (path_basename path)) 0 <> DOT ->
  exists b', kept b b' /\ match (match find_kid (make_83 base) kids with Some x => Some x | None => find_kid (make_83 (path_basename path)) kids0 end) with
    | Some x => exists e, find_in fuel v b d base path = Some (inr e, b') /\ holds v (disk b) e x
    | None => find_in fuel v b d base path = Some (inl FS_FAT_E_NOTFOUND, b')
    end.
Proof.
  intros Vo Vf G I Hf Rh Dh Nb Hb Hp. unfold find_in. rewrite bool_decide_false by done. destruct (dir_find_kid fuel v b d kids (make_83 base) Vo Vf G I Hf Dh Hb) as (b1 & K1 & Fk). destruct (find_kid (make_83 base) kids) as [x|].
  - destruct Fk as (e & -> & Hx). exists b1. split; [done|]. by exists e.
  - rewrite Fk. cbn [mbind option_bind]. destruct (kept_disk b b1 K1) as [Ed _]. destruct (dir_find_kid fuel v b1 root_dir kids0 (make_83 (path_basename path)) Vo Vf) as (b2 & K2 & Fr); [by apply (kept_good v b b1)|by destruct K1|done|by rewrite Ed|done|].
    exists b2. split; [by apply (kept_trans b b1 b2)|]. by rewrite Ed in Fr.
Qed.

Lemma resolve_entry_ok fuel v b kids path :
  vol_ok v -> vol_fits v -> vol_good v b -> block_inv b -> (FAT_FUEL <= fuel)%nat -> dir_holds v (disk b) root_dir kids -> plain_path path ->
  exists b', kept b b' /\ match lookup_tree kids path with
    | Some x => exists e, resolve_entry fuel v b path = Some (inr e, b') /\ holds v (disk b) e x
    | None => resolve_entry fuel v b path = Some (inl FS_FAT_E_NOTFOUND, b')
    end.
Proof.
  intros Vo Vf G I Hf Rh (Hl & Hp & pre & base & Ec & Hpre & Nd & Lb & Hb). unfold resolve_entry, lookup_tree. assert (names [base] = [base]) as Nb by (unfold names; cbn [List.filter]; by rewrite Nd).
  assert (path_is_root path = false) as ->. { unfold path_is_root. rewrite Ec, forallb_app. cbn [forallb]. rewrite Nd. apply andb_false_r. }
  replace (255 <? Z.of_nat (length path)) with false by lia. rewrite Ec, names_app, Nb, walk_tree_app.
  pose proof (split_path path) as Sp. rewrite Ec in Sp. specialize (Sp ltac:(by destruct pre)). destruct (last_slash (strip_slashes path)) as [[parent base']|].
  - destruct Sp as [Es Hne]. apply app_inj_tail in Es as [-> ->]. unfold resolve_dir.
    destruct (resolve_comps_ok fuel v b root_dir kids (comps parent) Vo Vf G I Hf Rh Hpre) as (r & b1 & -> & K1 & Hr). cbn [mbind option_bind]. destruct (kept_disk b b1 K1) as [Ed _].
    assert (forall r0 : Z, r = inl r0 -> exists b', kept b b' /\ match find_kid (make_83 (path_basename path)) kids with Some x => exists e, find_fallback fuel v b1 path = Some (inr e, b') /\ holds v (disk b) e x | None => find_fallback fuel v b1 path = Some (inl FS_FAT_E_NOTFOUND, b') end) as Fb.
    { intros r0 ->. destruct (dir_find_kid fuel v b1 root_dir kids (make_83 (path_basename path)) Vo Vf) as (b2 & K2 & Fr); [by apply (kept_good v b b1)|by destruct K1|done|by rewrite Ed|done|]. exists b2. split; [by apply (kept_trans b b1 b2)|]. by rewrite Ed in Fr. }
    destruct (walk_tree (NDir kids) (names (comps parent))) as [[content|kids']|]; [subst r; by apply (Fb FS_FAT_E_NOTFOUND)| |subst r; by apply (Fb FS_FAT_E_NOTFOUND)].
    destruct Hr as (d & -> & Hd). destruct (find_in_ok fuel v b1 d kids kids' base' path Vo Vf) as (b2 & K2 & Fi); [by apply (kept_good v b b1)|by destruct K1|done|by rewrite Ed|by rewrite Ed|done|done|done|].
    exists b2. split; [by apply (kept_trans b b1 b2)|]. by rewrite Ed in Fi.
  - destruct Sp as [Es Hne]. destruct pre as [|p0 pre]; [|destruct pre; discriminate]. injection Es as ->. cbn [names List.filter walk_tree]. by apply (find_in_ok fuel v b root_dir kids kids).
Qed.

(** [C7] A FAT volume is read back as the tree it holds.  On a mounted volume
    whose directories hold the tree [kids], opening a path finds the file the
    tree has there, or failing that the file of that short name in the root,
    and nothing else; every later read of the file, at any offset and of any
    length, returns exactly those bytes of its contents, and a read at the end
    none. *)
Theorem fat_reads_tree fuel v b kids path :
  vol_ok v -> vol_fits v -> vol_good v b -> block_inv b -> (FAT_FUEL <= fuel)%nat -> dir_holds v (disk b) root_dir kids -> plain_path path ->
  match lookup_tree kids path with
  | Some (NFile content) => exists id size b', fs_fat_open fuel v b path = Some (inr (id, size), b') /\ kept b b' /\ size = Z.of_nat (length content) /\
      forall b1 off len, kept b b1 -> 0 <= off -> 0 <= len < 2 ^ 32 -> exists b2, fs_fat_pread v b1 true id size off len = (FS_FAT_E_OK, slice off len content, b2) /\ kept b b2
  | _ => exists b', fs_fat_open fuel v b path = Some (inl FS_FAT_E_NOTFOUND, b') /\ kept b b'
  end.
Proof.
  intros Vo Vf G I Hf Rh Pp. destruct (resolve_entry_ok fuel v b kids path Vo Vf G I Hf Rh Pp) as (b' & K & Re). unfold fs_fat_open. rewrite (vo_mounted _ Vo). cbn [negb].
  destruct (lookup_tree kids path) as [x|]; [|exists b'; by rewrite Re]. destruct Re as (e & -> & Hx). cbn [mbind option_bind]. destruct Hx as [e content Nd Fa Cf|e ss kids' Nd Sl Cf F1 F2]; rewrite Nd; [|by exists b'].
  exists (fe_clus e), (fe_size e), b'. split; [done|]. split; [done|]. split; [apply Fa|]. intros b1 off len K1 Ho Hl. destruct (kept_disk b b1 K1) as [Ed _].
  destruct (fs_fat_pread_ok v b1 true (fe_clus e) (fe_size e) off len content Vo) as (rv & out & b2 & -> & K2 & H1 & _ & H3); [by destruct K1|by rewrite Ed|done|done|].
  assert (rv = FS_FAT_E_OK) as ->; [|exists b2; split; [by rewrite H1|by apply (kept_trans b b1 b2)]]. apply H3; [done|]. intros l L. apply confined_good; [done|done|by apply (kept_good v b b1)|]. rewrite Ed in L.
  intros y Hy. split; [by apply (Cf l L)|by apply (linked_all v (disk b) (fe_clus e) l)].
Qed.

(** Listing a directory of the tree: the [i]-th call gives its [i]-th entry
    in use that is neither a long name nor the volume label, and after the last
    the end; a path that is no directory of the tree is refused. *)
Theorem fat_lists_tree fuel v b kids path i :
  vol_ok v -> vol_fits v -> vol_good v b -> block_inv b -> (FAT_FUEL <= fuel)%nat -> dir_holds v (disk b) root_dir kids -> Forall (fun c => is_dot c = true \/ plain c) (comps path) -> 0 <= i < 2 ^ 32 ->
  match walk_tree (NDir kids) (names (comps path)) with
  | Some (NDir kids') => exists d ss b', dir_slots v (disk b) d ss /\ dir_holds v (disk b) d kids' /\ fs_fat_readdir fuel v b path i = Some (inr (dirent_of <$> listed ss !! Z.to_nat i), b') /\ kept b b'
  | _ => exists b', fs_fat_readdir fuel v b path i = Some (inl FS_FAT_E_NOTFOUND, b') /\ kept b b'
  end.
Proof.
  intros Vo Vf G I Hf Rh Hc Hi. unfold fs_fat_readdir, resolve_dir. rewrite (vo_mounted _ Vo). cbn [negb]. destruct (resolve_comps_ok fuel v b root_dir kids (comps path) Vo Vf G I Hf Rh Hc) as (r & b1 & -> & K1 & Hr). cbn [mbind option_bind].
  destruct (walk_tree (NDir kids) (names (comps path))) as [[content|kids']|]; [subst r; by exists b1| |subst r; by exists b1]. destruct Hr as (d & -> & Dh). destruct (kept_disk b b1 K1) as [Ed Eg].
  pose proof (dir_holds_good v b1 d kids' Vo Vf (kept_good v b b1 K1 G) ltac:(by rewrite Ed)) as Dg. pose proof Dh as (ss & Hs & _).
  destruct (dir_walk_ok (readdir_cb i) fuel v b1 d ss (0, None) Vo) as (rv & st & b2 & -> & K2 & Hr); [by destruct K1|by rewrite Ed|done|]. specialize (Hr Dg). destruct (shows_readdir i (live_slots ss) 0 ltac:(lia) ltac:(lia)) as [n En].
  rewrite En, Z.sub_0_r in Hr. fold (listed ss) in Hr. exists d, ss, b2. split; [done|]. split; [done|]. split; [|by apply (kept_trans b b1 b2)]. cbn [mbind option_bind]. destruct (listed ss !! Z.to_nat i); injection Hr as -> ->; done.
Qed.

End tree.
