(* ===== verification/FatMeta.v ===== *)
(** The rest of the FAT file system: mounting, names, times, whole files, and
    the ring of clusters that never ends. *)

From stdpp Require Import base list gmap strings numbers option.
From Stdlib Require Import ZArith Lia ZifyBool.
From S2P Require Import Prelude Bio Rtc Fat FatRead FatDir.

(** * Names *)

(** A character of a short name. *)
Definition short_char (c : Z) : Prop := c <> SPACE /\ c <> DOT /\ ~ (97 <= c <= 122).

Lemma toupper_short c : short_char c -> toupper c = c.
Proof. intros (_ & _ & H). unfold toupper. by replace (_ && _) with false by lia. Qed.
Lemma toupper_tolower c : short_char c -> toupper (tolower c) = c.
Proof. intros (_ & _ & H). unfold tolower. destruct ((65 <=? c) && (c <=? 90)) eqn:C; unfold toupper; [replace (_ && _) with true by lia; lia|by replace (_ && _) with false by lia]. Qed.
Lemma tolower_dot c : short_char c -> tolower c <> DOT.
Proof. intros (_ & H & _). unfold tolower, DOT in *. destruct (_ && _) eqn:C; lia. Qed.

(** A part of the name, in the case its flag asks for. *)
Definition cased (low : bool) (s : list Z) : list Z := if low then tolower <$> s else s.

Lemma toupper_cased low s : Forall short_char s -> toupper <$> cased low s = s.
Proof.
  intros F. unfold cased. induction F as [|c s Hc _ IH]; [by destruct low|]. destruct low; cbn [fmap list_fmap] in *; (f_equal; [|done]); [by apply toupper_tolower|by apply toupper_short].
Qed.

Lemma cased_no_dot low s : Forall short_char s -> Forall (fun c => c <> DOT) (cased low s).
Proof. intros F. unfold cased. destruct low; [apply Forall_fmap|]; eapply Forall_impl; try exact F; [intros c; apply tolower_dot|by intros c (_ & ? & _)]. Qed.

Lemma upto_space_pad n s : Forall short_char s -> (length s <= n)%nat -> upto_space (pad n s) = s.
Proof.
  intros F L. unfold pad. rewrite take_ge by done. induction F as [|c s Hc _ IH] in n, L |- *; cbn [app].
  - destruct (n - length [])%nat; [done|]. done.
  - cbn [length app upto_space]. destruct Hc as (Hc & _). replace (c =? SPACE) with false by lia. f_equal. cbn [length] in L. destruct n; [lia|]. apply IH. lia.
Qed.

Lemma last_dot_none s : Forall (fun c => c <> DOT) s -> last_dot s = None.
Proof. induction 1 as [|c s Hc _ IH]; [done|]. cbn [last_dot]. rewrite IH. by replace (c =? DOT) with false by lia. Qed.

Lemma last_dot_app s t : Forall (fun c => c <> DOT) t -> last_dot (s ++ DOT :: t) = Some (s, t).
Proof. intros F. induction s as [|c s IH]; cbn [app last_dot]; [by rewrite last_dot_none|by rewrite IH]. Qed.

Lemma pad_length n s : length (pad n s) = n.
Proof. unfold pad. rewrite length_app, length_replicate, length_take. lia. Qed.



(** * Times *)

(** The formula without its wraps, in the terms of the clock's. *)
Lemma days_from_civil_eq y m d : 0 <= y < 2 ^ 16 -> 1 <= m <= 12 -> 1 <= d <= 31 ->
  let y' := y - Rtc.b2z (m <=? 2) in
  exists era yoe, y' = era * 400 + yoe /\ 0 <= yoe < 400 /\ era = Z.quot (if 0 <=? y' then y' else y' - 399) 400 /\
    let doy := (153 * (m + (if 2 <? m then -3 else 9)) + 2) / 5 + d - 1 in
    0 <= doy < 400 /\ days_from_civil y m d = era * 146097 + (yoe * 365 + yoe / 4 - yoe / 100 + doy) - 719468.
Proof.
  intros Hy Hm Hd y'. unfold days_from_civil. assert ((if m <=? 2 then 1 else 0) = Rtc.b2z (m <=? 2)) as -> by (by destruct (m <=? 2)). fold y'.
  set (era := Z.quot _ 400). exists era, (y' - era * 400). assert (0 <= y' - era * 400 < 400) as Hyoe.
  { unfold era. destruct (0 <=? y') eqn:C.
    - rewrite Z.quot_div_nonneg by lia. pose proof (Z.div_mod y' 400 ltac:(lia)). pose proof (Z.mod_pos_bound y' 400 ltac:(lia)). lia.
    - assert (y' = -1) as E by (unfold y' in *; destruct (m <=? 2); cbn in *; lia). replace (y' - 399) with (-400) by lia. change (Z.quot (-400) 400) with (-1). lia. }
  split; [lia|]. split; [done|]. split; [done|]. set (mp := m + (if 2 <? m then -3 else 9)). assert (0 <= mp <= 11) as Hmp by (unfold mp; destruct (2 <? m) eqn:?; lia).
  assert ((if 2 <? m then m - 3 else m + 9) = mp) as -> by (unfold mp; destruct (2 <? m); lia).
  pose proof (Z.div_pos (153 * mp + 2) 5 ltac:(lia) ltac:(lia)). pose proof (Z.div_le_mono (153 * mp + 2) 1685 5 ltac:(lia) ltac:(lia)) as Hq. change (1685 / 5) with 337 in Hq. split; [lia|].
  rewrite (w32_small (y' - era * 400)) by lia. set (yoe := y' - era * 400) in *. rewrite (w32_small (_ / 5 + d - 1)) by lia.
  pose proof (Z.div_pos yoe 4 ltac:(lia) ltac:(lia)). pose proof (Z.div_lt_upper_bound yoe 4 100 ltac:(lia) ltac:(lia)). pose proof (Z.div_pos yoe 100 ltac:(lia) ltac:(lia)). pose proof (Z.div_lt_upper_bound yoe 100 4 ltac:(lia) ltac:(lia)).
  clearbody yoe mp. pose proof (Z.div_le_upper_bound yoe 100 yoe ltac:(lia) ltac:(lia)). rewrite w32_small by lia. reflexivity.
Qed.

Lemma days_from_civil_rtc y m d : 0 <= y < 2 ^ 16 -> 1 <= m <= 12 -> 1 <= d <= 31 -> days_from_civil y m d * 86400 = rtc_to_epoch (RtcTime y m d 0 0 0).
Proof.
  intros Hy Hm Hd. destruct (days_from_civil_eq y m d Hy Hm Hd) as (era & yoe & Ey & Hyoe & Ee & Hdoy & ->). unfold rtc_to_epoch. cbn [rt_year rt_month rt_day rt_hour rt_min rt_sec]. rewrite <- Ee.
  assert (y - Rtc.b2z (m <=? 2) - era * 400 = yoe) as -> by lia. assert (0 <= m + (if 2 <? m then -3 else 9) <= 11) by (destruct (2 <? m) eqn:?; lia). rewrite !Z.quot_div_nonneg by lia. lia.
Qed.

Lemma days_from_civil_range y m d : 1980 <= y <= 2107 -> 1 <= m <= 12 -> 1 <= d <= 31 -> 0 <= days_from_civil y m d < 60000.
Proof.
  intros Hy Hm Hd. destruct (days_from_civil_eq y m d ltac:(lia) Hm Hd) as (era & yoe & Ey & Hyoe & _ & Hdoy & ->).
  pose proof (Z.div_pos yoe 4 ltac:(lia) ltac:(lia)). pose proof (Z.div_lt_upper_bound yoe 4 100 ltac:(lia) ltac:(lia)). pose proof (Z.div_pos yoe 100 ltac:(lia) ltac:(lia)). pose proof (Z.div_lt_upper_bound yoe 100 4 ltac:(lia) ltac:(lia)). destruct (m <=? 2); cbn in Ey; lia.
Qed.

(** The words a FAT driver writes for a time. *)
Definition fat_date (t : rtc_time) : Z := (rt_year t - 1980) * 512 + rt_month t * 32 + rt_day t.
Definition fat_time (t : rtc_time) : Z := rt_hour t * 2048 + rt_min t * 32 + rt_sec t / 2.

Lemma fields_div a b n m : 0 <= b < 2 ^ n -> 0 <= n -> m = 2 ^ n -> Z.shiftr (a * m + b) n = a.
Proof. intros Hb Hn ->. rewrite Z.shiftr_div_pow2 by lia. rewrite Z.div_add_l by lia. rewrite Z.div_small by lia. lia. Qed.
Lemma fields_mod a b n m k : 0 <= b < m -> 0 <= n -> m = 2 ^ n -> k = m - 1 -> Z.land (a * m + b) k = b.
Proof. intros Hb Hn -> ->. rewrite land_ones_mod by lia. rewrite Z.add_comm, Z.mod_add by lia. by apply Z.mod_small. Qed.

(** A timestamp written as FAT's two words is reported as the nanoseconds
    since 1970 of that date, the odd second dropped: for every civil time from
    1980 to 2107 this is [rtc_to_epoch], which counts the calendar. *)
Theorem fat_time_ns_calendar t :
  civil t -> 1980 <= rt_year t <= 2107 -> fat_time_ns (fat_date t) (fat_time t) = (rtc_to_epoch t - rt_sec t mod 2) * 1000000000.
Proof.
  destruct t as [y m d h mi s]. unfold civil, fat_date, fat_time. cbn [rt_year rt_month rt_day rt_hour rt_min rt_sec]. intros (Hm & Hd & Hh & Hmi & Hs) Hy.
  assert (month_days y m <= 31) as Md by (unfold month_days; destruct (leap y); cbn [b2z]; clear; repeat (destruct (_ =? _); cbn [orb]); cbn; lia). pose proof (Z.div_mod s 2 ltac:(lia)) as Ds. pose proof (Z.mod_pos_bound s 2 ltac:(lia)) as Ms. assert (0 <= s / 2 < 30) as H2 by lia.
  unfold fat_time_ns. assert (0 < (y - 1980) * 512 + m * 32 + d) by lia. replace (_ =? 0) with false by lia.
  replace (Z.shiftr ((y - 1980) * 512 + m * 32 + d) 9) with (y - 1980) by (symmetry; rewrite <- Z.add_assoc; apply fields_div; [lia|lia|reflexivity]).
  replace (Z.shiftr ((y - 1980) * 512 + m * 32 + d) 5) with ((y - 1980) * 16 + m) by (symmetry; replace ((y - 1980) * 512 + m * 32 + d) with (((y - 1980) * 16 + m) * 32 + d) by lia; apply fields_div; [lia|lia|reflexivity]).
  rewrite (fields_mod (y - 1980) m 4 16) by (lia || reflexivity). replace (Z.land ((y - 1980) * 512 + m * 32 + d) 0x1F) with d by (symmetry; replace ((y - 1980) * 512 + m * 32 + d) with (((y - 1980) * 16 + m) * 32 + d) by lia; apply (fields_mod _ d 5); lia || reflexivity).
  replace (Z.shiftr (h * 2048 + mi * 32 + s / 2) 11) with h by (symmetry; rewrite <- Z.add_assoc; apply fields_div; [lia|lia|reflexivity]).
  replace (Z.shiftr (h * 2048 + mi * 32 + s / 2) 5) with (h * 64 + mi) by (symmetry; replace (h * 2048 + mi * 32 + s / 2) with ((h * 64 + mi) * 32 + s / 2) by lia; apply fields_div; [lia|lia|reflexivity]).
  rewrite (fields_mod h mi 6 64) by (lia || reflexivity). replace (Z.land (h * 2048 + mi * 32 + s / 2) 0x1F) with (s / 2) by (symmetry; replace (h * 2048 + mi * 32 + s / 2) with ((h * 64 + mi) * 32 + s / 2) by lia; apply (fields_mod _ (s / 2) 5); lia || reflexivity).
  replace (_ || _) with false by lia. replace (1980 + (y - 1980)) with y by lia. pose proof (days_from_civil_rtc y m d ltac:(lia) ltac:(lia) ltac:(lia)) as E. rewrite E.
  assert (rtc_to_epoch (RtcTime y m d h mi s) = rtc_to_epoch (RtcTime y m d 0 0 0) + (h * 3600 + mi * 60 + s)) as -> by (unfold rtc_to_epoch; cbn [rt_year rt_month rt_day rt_hour rt_min rt_sec]; lia).
  pose proof (days_from_civil_range y m d Hy Hm ltac:(lia)). rewrite w64_small by lia. lia.
Qed.

Lemma fat_time_ns_calendar_witness : fat_time_ns (fat_date (RtcTime 2026 11 15 12 30 7)) (fat_time (RtcTime 2026 11 15 12 30 7)) = 1794745806 * 1000000000.
Proof.
  pose proof (fat_time_ns_calendar (RtcTime 2026 11 15 12 30 7)) as H. rewrite H; [reflexivity| |cbn; lia]. unfold civil. cbn. lia.
Defined.

Section volume.
Context {B : Type} `{BlockSpec B}.
Implicit Types (b : B) (v : fat_vol) (f : Z -> Z).

(** * Whole files *)

Lemma slurp_loop_ok n v b size c l off buf :
  vol_ok v -> block_inv b -> linked v (disk b) c l -> off < size -> size - off <= Z.of_nat (length l) * clus_bytes v -> size - off <= Z.of_nat n * clus_bytes v ->
  exists rv off' out b', slurp_loop n v b size c off buf = (rv, off', out, b') /\ kept b b' /\
    (rv = 0 -> size <= off' -> exists more, out = buf ++ more /\ take (Z.to_nat (size - off)) more = take (Z.to_nat (size - off)) (chain_data v (disk b) l)) /\
    (rv = 0 \/ rv = FS_FAT_E_IO) /\ (chain_good v b l -> rv = 0 /\ size <= off').
Proof.
  intros Vo. destruct (clus_bytes_pos v Vo) as [Hcb _]. revert b c l off buf. induction n as [|n IH]; intros b c l off buf I L Ho Hl Hn; [lia|].
  destruct (chain_head _ _ _ _ L) as [C (l' & ->)]. cbn [slurp_loop]. rewrite C. replace (off <? size) with true by lia. cbn [andb].
  destruct (clus_read_ok v b c Vo I C) as (rv & data & b1 & -> & K1 & Hr & Hg). destruct (rv =? 0) eqn:R; cbn [negb].
  - rewrite (Hr ltac:(lia)). pose proof (clus_data_length v (disk b) c Vo) as Ld. destruct (kept_disk b b1 K1) as [Ed Eg]. assert (0 <= c < 65536) as Hc by (unfold in_chain, FAT16_EOC_MIN in C; lia).
    destruct (fat_next_ok v b1 c Vo ltac:(by destruct K1) Hc) as (c' & b2 & -> & K2 & Hnx). assert (kept b b2) as K by (by apply (kept_trans b b1 b2)). destruct (kept_disk b b2 K) as [Ed2 Eg2]. rewrite Ed in Hnx.
    change (chain_data v (disk b) (c :: l')) with (clus_data v (disk b) c ++ chain_data v (disk b) l'). destruct (decide (size <= off + clus_bytes v)) as [En|Nn].
    + assert (slurp_loop n v b2 size c' (off + clus_bytes v) (buf ++ clus_data v (disk b) c) = (0, off + clus_bytes v, buf ++ clus_data v (disk b) c, b2)) as ->.
      { destruct n; cbn [slurp_loop]; [done|]. by replace (off + clus_bytes v <? size) with false by lia. }
      eexists _, _, _, b2. split; [reflexivity|]. split_and!; [done| |by left|done]. intros _ _. eexists. split; [reflexivity|]. by rewrite take_app_le by lia.
    + cbn [length] in Hl. destruct l' as [|c2 l2]; [cbn [length] in Hl; lia|]. inversion L as [|? ? _ L2]; subst. destruct Hnx as [->|[-> Bad]].
      * destruct (IH b2 (fat_entry v (disk b) c) (c2 :: l2) (off + clus_bytes v) (buf ++ clus_data v (disk b) c)) as (rv2 & off' & out & b3 & -> & K3 & H1 & H2 & H3); [by destruct K|by rewrite Ed2|lia|lia|lia|].
        eexists rv2, off', out, b3. split; [reflexivity|]. split_and!; [by apply (kept_trans b b2 b3)| |done|].
        -- intros Rv Of. destruct (H1 Rv Of) as (more & -> & Em). exists (clus_data v (disk b) c ++ more). rewrite <- app_assoc. split; [done|]. rewrite Ed2 in Em. rewrite !take_app. f_equal.
           replace (Z.to_nat (size - off) - length (clus_data v (disk b) c))%nat with (Z.to_nat (size - (off + clus_bytes v))) by lia. done.
        -- intros Cg. apply H3. intros x Hx. unfold clus_good, entry_good. rewrite Eg2. apply Cg. by right.
      * assert (slurp_loop n v b2 size FAT16_EOC_MIN (off + clus_bytes v) (buf ++ clus_data v (disk b) c) = (0, off + clus_bytes v, buf ++ clus_data v (disk b) c, b2)) as ->. { destruct n; cbn [slurp_loop]; [done|]. by rewrite andb_false_r. }
        eexists _, _, _, b2. split; [reflexivity|]. split_and!; [done|lia|by left|]. intros Cg. destruct Bad. unfold entry_good. rewrite Eg. apply Cg. by left.
  - eexists FS_FAT_E_IO, off, buf, b1. split; [reflexivity|]. split_and!; [done|done|by right|]. intros Cg. rewrite Hg in R; [done|]. apply Cg. by left.
Qed.

(** [fs_fat_slurp] gives the contents of the file at the path, if it is not
    too big. *)
Lemma fs_fat_slurp_reads fuel v b kids path content :
  vol_ok v -> vol_fits v -> vol_good v b -> block_inv b -> (FAT_FUEL <= fuel)%nat -> dir_holds v (disk b) root_dir kids -> plain_path path -> lookup_tree kids path = Some (NFile content) ->
  if FS_FAT_MAX_FILE <? Z.of_nat (length content) then exists b', fs_fat_slurp fuel v b true path = Some (inl FS_FAT_E_TOOBIG, b')
  else exists buf b', fs_fat_slurp fuel v b true path = Some (inr (buf, Z.of_nat (length content)), b') /\ take (length content) buf = content /\ kept b b'.
Proof.
  intros Vo Vf G I Hf Rh Pp Lk. destruct (resolve_entry_ok fuel v b kids path Vo Vf G I Hf Rh Pp) as (b1 & K1 & Re). rewrite Lk in Re. destruct Re as (e & Ee & Hx). unfold fs_fat_slurp. rewrite (vo_mounted _ Vo), Ee. cbn [negb mbind option_bind].
  inversion Hx as [? ? Nd (Es & Hsz & Hc) Cf|]; subst. rewrite Nd. rewrite Es. destruct (FS_FAT_MAX_FILE <? _) eqn:Big; [by exists b1|]. destruct (kept_disk b b1 K1) as [Ed Eg].
  destruct Hc as [->|(l & L & Hcap & Ec)].
  - assert (rounds v (Z.of_nat (@length Z [])) = O) as ->. { unfold rounds. cbn [length]. destruct (clus_bytes_pos v Vo). rewrite Z.div_small by lia. done. }
    cbn [slurp_loop negb Z.eqb length]. exists [], b1. split_and!; [done|done|done].
  - destruct (clus_bytes_pos v Vo) as [Hcb _]. rewrite Es in Hcap, Ec. set (size := Z.of_nat (length content)) in *. destruct (decide (size = 0)) as [Z0|Nz].
    { rewrite Z0. assert (rounds v 0 = O) as ->. { unfold rounds. rewrite Z.div_small by lia. done. } cbn [slurp_loop negb Z.eqb Z.ltb]. exists [], b1. assert (content = []) as -> by (destruct content; [done|cbn in size; unfold size in Z0; lia]). by split_and!. }
    assert (size - 0 <= Z.of_nat (rounds v size) * clus_bytes v) as Rn. { unfold rounds. rewrite Z2Nat.id by (apply Z.div_pos; lia). pose proof (Z.div_mod (size + clus_bytes v - 1) (clus_bytes v) ltac:(lia)). pose proof (Z.mod_pos_bound (size + clus_bytes v - 1) (clus_bytes v) ltac:(lia)). lia. }
    destruct (slurp_loop_ok (rounds v size) v b1 size (fe_clus e) l 0 [] Vo) as (rv & off' & out & b2 & -> & K2 & H1 & _ & H3); [by destruct K1|by rewrite Ed|unfold size in *; lia|lia|done|].
    destruct H3 as [-> Of]; [apply confined_good; [done|done|by apply (kept_good v b b1)|]; intros y Hy; split; [by apply (Cf l L)|by apply (linked_all v (disk b) (fe_clus e) l)]|].
    cbn [negb Z.eqb]. replace (off' <? size) with false by lia. destruct (H1 eq_refl Of) as (more & -> & Em). cbn [app]. exists more, b2. split; [done|]. split; [|by apply (kept_trans b b1 b2)].
    rewrite Z.sub_0_r, Ed in Em. unfold size in Em, Ec. rewrite Nat2Z.id in Em, Ec. by rewrite Em, <- Ec.
Qed.

(** * Mounting *)

Definition word16 f (a : Z) : Z := f a + 256 * f (a + 1).
Definition word32 f (a : Z) : Z := word16 f a + 65536 * word16 f (a + 2).

Lemma rd16_span f a n k : 0 <= k -> k + 1 < n -> (forall x, 0 <= f x < 256) -> rd16 (span f a n) k = word16 f (a + k).
Proof. intros Hk Hn Hf. unfold rd16, word16. rewrite !at_span, lor_bytes by (apply Hf || lia). do 3 f_equal. lia. Qed.

Lemma rd32_span f a n k : 0 <= k -> k + 3 < n -> (forall x, 0 <= f x < 256) -> rd32 (span f a n) k = word32 f (a + k).
Proof.
  intros Hk Hn Hf. unfold rd32, word32, word16. rewrite !at_span by lia. replace (a + (k + 1)) with (a + k + 1) by lia. replace (a + (k + 2)) with (a + k + 2) by lia. replace (a + (k + 3)) with (a + k + 2 + 1) by lia.
  pose proof (Hf (a + k)). pose proof (Hf (a + k + 1)). pose proof (Hf (a + k + 2)). rewrite lor_bytes by lia. rewrite (lor_shift_add _ (f (a + k + 2)) 16) by lia. rewrite (lor_shift_add _ (f (a + k + 2 + 1)) 24) by lia. lia.
Qed.

Lemma root_walk_ends {S} (fn : list Z -> S -> Z * S) fuel v b st : vol_ok v -> block_inv b -> exists rv st' b', dir_walk fn fuel v b root_dir st = Some (rv, st', b') /\ kept b b'.
Proof.
  intros Vo I. unfold dir_walk. rewrite (vo_mounted _ Vo). cbn [negb root_dir fd_is_root]. destruct Vo as [_ _ _ Hr Hn _].
  destruct (walk_sectors_ok fn (Z.to_nat (fv_root_sectors v)) b (fv_root_start v) st I ltac:(lia) ltac:(lia)) as (r & b1 & -> & K & _). destruct r as [[rv st1]|st1]; by eexists _, _, b1.
Qed.

(** The boot sector of a volume this driver takes. *)
Definition bpb_ok f : Prop := word16 f 11 = 512 /\ f 13 <> 0 /\ f 16 <> 0 /\ word16 f 22 <> 0 /\ word16 f 17 <> 0.

(** [fs_fat_init] mounts exactly those, with the geometry the boot sector has
    and the width of the table that the number of clusters decides. *)
Lemma fs_fat_init_ok v0 b :
  block_inv b -> good b 0 ->
  exists v b', fs_fat_init v0 b = Some (v, b') /\ kept b b' /\
    let f := disk b in
    (fv_mounted v = true <-> bpb_ok f) /\
    (bpb_ok f -> vol_ok v /\ fv_sec_per_clus v = f 13 /\ fv_root_entries v = word16 f 17 /\ fv_fat_start v = word16 f 14 /\ fv_root_start v = word16 f 14 + f 16 * word16 f 22 /\
      fv_root_sectors v = (word16 f 17 * 32 + 511) / 512 /\ fv_total_sectors v = (if word16 f 19 =? 0 then word32 f 32 else word16 f 19) /\
      fv_fat12 v = (fat_top v - 2 <? FAT12_MAX_CLUSTERS)).
Proof.
  intros I G. assert (forall x, 0 <= disk b x < 256) as Rg by (intros x; apply block_byte_range). unfold fs_fat_init. destruct (read_sector_ok b 0 I ltac:(lia)) as (rv & bpb & b1 & -> & K1 & [[-> ->]|[_ Bad]]); [|done]. cbn [negb Z.eqb FS_FAT_E_OK].
  rewrite !rd16_span, rd32_span, !at_span by (lia || done). change (0 * 512) with 0. rewrite !Z.add_0_l. set (f := disk b) in *.
  assert (negb (word16 f 11 =? FAT_SECTOR_BYTES) || (f 13 =? 0) || (f 16 =? 0) || (word16 f 22 =? 0) || (word16 f 17 =? 0) = negb (bool_decide (bpb_ok f))) as ->.
  { unfold FAT_SECTOR_BYTES. case_bool_decide as Q; unfold bpb_ok in Q; lia. }
  case_bool_decide as Q; cbn [negb]; [|eexists _, b1; split; [reflexivity|]; split; [done|]; by split].
  set (total := if word16 f 19 =? 0 then word32 f 32 else word16 f 19). set (start := word16 f 14 + f 16 * word16 f 22). unfold FAT_DIRENT_BYTES, FAT_SECTOR_BYTES. change (512 - 1) with 511. set (rs := (word16 f 17 * 32 + 511) / 512).
  set (v := mkVol true _ (f 13) (word16 f 17) (word16 f 14) start rs (start + rs) total).
  pose proof (Rg 13). pose proof (Rg 16). destruct Q as (Q1 & Q2 & Q3 & Q4 & Q5).
  assert (forall a, 0 <= word16 f a < 65536) as Rw by (intros a; unfold word16; pose proof (Rg a); pose proof (Rg (a + 1)); lia).
  pose proof (Rw 14). pose proof (Rw 22). pose proof (Rw 17). assert (0 <= f 16 * word16 f 22 < 256 * 65536) as Hm by nia.
  assert (0 <= rs < 2 ^ 13) as Hrs by (unfold rs; split; [apply Z.div_pos; lia|apply Z.div_lt_upper_bound; lia]).
  assert (vol_ok v) as Vo by (split; cbn; [done|lia|lia|unfold start; lia|done|done]).
  destruct (root_walk_ends (find_cb (make_83 standard_flf)) 0 v b1 None Vo ltac:(by destruct K1)) as (rv & st & b2 & E & K2). unfold dir_find. rewrite E. cbn [mbind option_bind]. exists v, b2. split; [done|]. split; [by apply (kept_trans b b1 b2)|].
  split; [by split|]. intros _. split_and!; try done. unfold v, fat_top; cbn [fv_fat12 fv_total_sectors fv_data_start fv_sec_per_clus]. destruct (start + rs <? total) eqn:C; [by rewrite Z.add_simpl_l|].
  rewrite Z.add_simpl_l. assert ((total - (start + rs)) / f 13 <= 0) by (apply Z.div_le_upper_bound; lia). unfold FAT12_MAX_CLUSTERS. lia.
Qed.

(** * A ring of clusters *)

(** [C39] A directory whose cluster is its own successor in the table, as a
    damaged volume may have it, is walked for ever: a look-up of a name that is
    not in the cluster does not end, whatever the fuel. *)
Theorem fat_ring_hangs fuel v b c name :
  vol_ok v -> block_inv b -> in_chain c = true -> fat_entry v (disk b) c = c -> clus_good v b c -> entry_good v b c ->
  (forall de, de ∈ slots (clus_data v (disk b) c) -> at_ de 0 <> FAT_DIRENT_END) -> first_named name (listed (slots (clus_data v (disk b) c))) = None ->
  dir_find fuel v b (mkDir false c) name = None.
Proof.
  intros Vo I C Ring Gc Ge Full Nf. unfold dir_find, dir_walk. rewrite (vo_mounted _ Vo). cbn [negb fd_is_root fd_clus]. set (ss := slots (clus_data v (disk b) c)) in *.
  assert (visit (find_cb name) ss None = inr None) as Hv.
  { unfold listed in Nf. clearbody ss. induction ss as [|de ss IH]; [done|]. cbn [visit live_slots] in *. replace (at_ de 0 =? FAT_DIRENT_END) with false in * by (pose proof (Full de ltac:(by left)); lia).
    assert (forall de', de' ∈ ss -> at_ de' 0 <> FAT_DIRENT_END) as Full' by (intros de' ?; apply Full; by right). destruct (unused de); [by apply IH|]. cbn [List.filter] in Nf. unfold find_cb, no_label in *.
    destruct (bit (at_ de 11) FAT_ATTR_VOLUME_ID); cbn [negb] in *; [by apply IH|]. cbn [first_named] in Nf. case_bool_decide; [done|]. by apply IH. }
  assert (forall b1, kept b b1 -> walk_chain (find_cb name) fuel v b1 c None = None) as W; [|by rewrite (W b (kept_refl b I))].
  assert (0 <= c < 65536) as Hc by (unfold in_chain, FAT16_EOC_MIN in C; lia). destruct (clus_lba_eq v c Vo C) as [El Hl]. pose proof (vo_spc _ Vo) as Hs.
  assert (clus_lba v c + fv_sec_per_clus v < 2 ^ 32) as Hw. { rewrite El. destruct Vo as [_ _ _ Hr Hn Hd]. unfold in_chain, FAT16_EOC_MIN in C. nia. }
  induction fuel as [|fuel IH]; intros b1 K1; [done|]. cbn [walk_chain]. destruct (kept_disk b b1 K1) as [Ed Eg]. pose proof K1 as (I1 & _ & _).
  destruct (walk_sectors_ok (find_cb name) (Z.to_nat (fv_sec_per_clus v)) b1 (clus_lba v c) None I1 ltac:(lia) ltac:(lia)) as (r & b2 & -> & K2 & Hr). rewrite Z2Nat.id, Ed, Eg in Hr by lia.
  assert (r = inr None) as ->. { rewrite Hr; [rewrite El; exact Hv|]. intros s Hs'. apply Gc. lia. }
  destruct (fat_next_ok v b2 c Vo ltac:(by destruct K2) Hc) as (c' & b3 & -> & K3 & Hn). destruct (kept_disk b1 b2 K2) as [Ed2 Eg2]. assert (c' = c) as ->. { destruct Hn as [->|[_ Bad]]; [by rewrite Ed2, Ed|]. destruct Bad. unfold entry_good. by rewrite Eg2, Eg. }
  replace ((c <? 2) || (FAT16_EOC_MIN <=? c)) with false by (unfold in_chain in C; lia). apply IH. apply (kept_trans b b1 b3 K1). by apply (kept_trans b1 b2 b3).
Qed.

End volume.

(** Two dots look up the directory itself: the short name of ".." is that of
    ".", because the last dot counts as the one before an extension. *)
Lemma dot_dot_is_dot : make_83 [DOT; DOT] = DOT :: replicate 10 SPACE.
Proof. reflexivity. Qed.

(** The mark of a bad cluster is taken for a cluster. *)
Lemma bad_mark_in_chain : in_chain 0xFFF7 = true.
Proof. reflexivity. Qed.
