(* ===== verification/FatDemo.v ===== *)
(** A disk of sixteen sectors with a FAT12 volume on it, read through the
    block cache. *)

From stdpp Require Import base list gmap strings numbers option.
From Stdlib Require Import ZArith Lia ZifyBool.
From S2P Require Import Prelude Bio Fat FatRead FatDir FatMeta.

(** * A disk in memory *)

Record ram_disk := mkRam { rd_sectors : Z; rd_bytes : Z -> Z -> Z }.

Definition ram_kread (dk : ram_disk) (drive lba n : Z) : Z * list Z * ram_disk :=
  if lba + n <=? rd_sectors dk then (0, span (fun a => w8 (rd_bytes dk drive a)) (lba * 512) (n * 512), dk) else (6, replicate (Z.to_nat (n * 512)) 0, dk).
Definition ram_kwrite (dk : ram_disk) (drive lba n : Z) (src : list Z) : Z * ram_disk :=
  if lba + n <=? rd_sectors dk then
    (0, mkRam (rd_sectors dk) (fun d a => if (d =? drive) && (lba * 512 <=? a) && (a <? (lba + n) * 512) then from_addr (lba * 512) src a else rd_bytes dk d a))
  else (6, dk).

#[export] Instance ram_ops : DiskOps ram_disk := { ata_kread := ram_kread; ata_kwrite := ram_kwrite; ata_ksync dk _ := (0, dk) }.

#[export] Program Instance ram_spec : DiskSpec ram_disk := {
  disk_byte dk drive a := w8 (rd_bytes dk drive a);
  disk_good dk _ s := s < rd_sectors dk;
}.
Next Obligation. intros. apply w8_range. Qed.
Next Obligation.
  intros dk drive lba n rv data dk' Hl Hn Hw. cbn [ata_kread ram_ops]. unfold ram_kread. destruct (_ <=? _) eqn:C; intros [= <- <- <-].
  - split_and!; [rewrite span_length; unfold BIO_SECTOR_BYTES; lia|done|done|done|done].
  - split_and!; [rewrite length_replicate; unfold BIO_SECTOR_BYTES; lia|done|done|done|]. intros G. specialize (G (lba + n - 1) ltac:(lia)). lia.
Qed.
Next Obligation.
  intros dk drive lba n src rv dk' Hl Hn Hw Hs Hb. cbn [ata_kwrite ram_ops]. unfold ram_kwrite, BIO_SECTOR_BYTES in *. destruct (_ <=? _) eqn:C; intros [= <- <-]; cbn [rd_bytes]; [|done]. split.
  - intros d a Ha. by replace (_ && _ && _) with false by lia.
  - intros _. symmetry. apply span_eq; [lia|done|]. intros k Hk. replace (_ && _ && _) with true by lia. unfold from_addr. rewrite Z.add_simpl_l.
    destruct (src !! Z.to_nat k) as [x|] eqn:E; [|apply lookup_ge_None in E; lia]. cbn. rewrite w8_small; [done|]. exact (Forall_lookup_1 _ _ _ _ Hb E).
Qed.

(** * The image *)

Definition bpb : list Z := [0xEB; 0x3C; 0x90; 83; 84; 89; 76; 69; 57; 32; 32] ++ le_bytes 2 512 ++ [1] ++ le_bytes 2 1 ++ [1] ++ le_bytes 2 16 ++ le_bytes 2 16 ++ [0xF8] ++ le_bytes 2 1.
Definition table : list Z := [0xF8; 0xFF; 0xFF; 0x03; 0xF0; 0xFF; 0xFF; 0xFF; 0xFF].
Definition dirent (name : list Z) (attr clus size : Z) : list Z := name ++ [attr; 0] ++ replicate 13 0 ++ le_bytes 2 clus ++ le_bytes 4 size.

Definition hello_txt : list Z := [72; 69; 76; 76; 79; 32; 32; 32; 84; 88; 84].
Definition sub : list Z := [83; 85; 66; 32; 32; 32; 32; 32; 32; 32; 32].
Definition a_bin : list Z := [65; 32; 32; 32; 32; 32; 32; 32; 66; 73; 78].

Definition root_bytes : list Z := dirent hello_txt 0x20 2 600 ++ dirent sub 0x10 4 0.
Definition sub_bytes : list Z := dirent (DOT :: replicate 10 SPACE) 0x10 4 0 ++ dirent (DOT :: DOT :: replicate 9 SPACE) 0x10 0 0 ++ dirent a_bin 0x20 5 3.

Definition image (a : Z) : Z :=
  if a <? 512 then from_addr 0 bpb a
  else if a <? 1024 then from_addr 512 table a
  else if a <? 1536 then from_addr 1024 root_bytes a
  else if a <? 2560 then 65 + a mod 26
  else if a <? 3072 then from_addr 2560 sub_bytes a
  else if a <? 3584 then from_addr 3072 [7; 8; 9] a
  else 0.

Definition hello : list Z := span (fun a => 65 + a mod 26) 1536 600.
Definition tree : list (list Z * node) := [(hello_txt, NFile hello); (sub, NDir [(a_bin, NFile [7; 8; 9])])].

Definition demo_disk : ram_disk := mkRam 16 (fun d a => if d =? 0 then image a else 0).
Definition demo_state : bio * ram_disk := (bio_init (Some (replicate (64 * 4096) 0)) bio_zero, demo_disk).
Definition demo_vol : fat_vol := mkVol true true 1 16 1 2 1 3 16.

Lemma demo_inv : block_inv demo_state.
Proof. apply (bio_init_settled (replicate (64 * 4096) 0) demo_disk). rewrite length_replicate. unfold BIO_NBUFS, BIO_PAGE_BYTES. lia. Qed.

Lemma demo_vol_ok : vol_ok demo_vol.
Proof. split; cbn; lia || done. Qed.

Lemma demo_vol_fits : vol_fits demo_vol.
Proof. split; vm_compute; congruence. Qed.

Lemma demo_good : vol_good demo_vol demo_state.
Proof.
  intros s Hs. change (0 <= s < 16) in Hs. change (page_good demo_disk 0 (s / 8)). intros s' Hs'. change (s' < 16). change BIO_SECTORS_PER_PAGE with 8 in Hs'. pose proof (Z.div_le_mono s 15 8 ltac:(lia) ltac:(lia)) as D. change (15 / 8) with 1 in D. lia.
Qed.

Definition demo_bytes : Z -> Z := fun a => w8 (image a).
Lemma demo_disk_eq : disk demo_state = demo_bytes.
Proof. reflexivity. Qed.

Lemma links_2 : linked demo_vol demo_bytes 2 [2; 3].
Proof. apply linked_next; [reflexivity|]. apply (linked_last demo_vol demo_bytes 3); vm_compute; reflexivity. Qed.
Lemma links_4 : linked demo_vol demo_bytes 4 [4].
Proof. apply linked_last; vm_compute; reflexivity. Qed.
Lemma links_5 : linked demo_vol demo_bytes 5 [5].
Proof. apply linked_last; vm_compute; reflexivity. Qed.

Lemma confined_by c l : linked demo_vol demo_bytes c l -> (forall x, x ∈ l -> x < 15) -> confined demo_vol demo_bytes c.
Proof. intros L Hl l' L'. by rewrite <- (linked_det _ _ _ _ _ L L'). Qed.

Lemma demo_holds : dir_holds demo_vol (disk demo_state) root_dir tree.
Proof.
  rewrite demo_disk_eq. eexists. split; [reflexivity|]. split; [done|].
  assert (members (slots (span demo_bytes (2 * 512) (1 * 512))) = [dirent hello_txt 0x20 2 600; dirent sub 0x10 4 0]) as E by (vm_compute; reflexivity).
  cbn [demo_vol fv_root_start fv_root_sectors]. rewrite E. split; [repeat constructor|]. constructor; [|constructor; [|constructor]]; cbn [snd].
  - apply holds_file; [reflexivity| |].
    + split; [reflexivity|]. split; [vm_compute; split; congruence|]. right. exists [2; 3]. split; [exact links_2|]. split; vm_compute; [congruence|reflexivity].
    + apply (confined_by 2 [2; 3] links_2). intros x Hx. apply elem_of_cons in Hx as [->|Hx]; [lia|]. apply list_elem_of_singleton in Hx as ->. lia.
  - apply (holds_dir _ _ _ (slots (chain_data demo_vol demo_bytes [4]))); [reflexivity|exists [4]; split; [exact links_4|reflexivity]| | |].
    + apply (confined_by 4 [4] links_4). intros x Hx. apply list_elem_of_singleton in Hx as ->. lia.
    + assert (members (slots (chain_data demo_vol demo_bytes [4])) = [dirent a_bin 0x20 5 3]) as -> by (vm_compute; reflexivity). repeat constructor.
    + assert (members (slots (chain_data demo_vol demo_bytes [4])) = [dirent a_bin 0x20 5 3]) as -> by (vm_compute; reflexivity). constructor; [|constructor]. cbn [snd]. apply holds_file; [reflexivity| |].
      * split; [reflexivity|]. split; [vm_compute; split; congruence|]. right. exists [5]. split; [exact links_5|]. split; vm_compute; [congruence|reflexivity].
      * apply (confined_by 5 [5] links_5). intros x Hx. apply list_elem_of_singleton in Hx as ->. lia.
Qed.

(** "sub/a.bin" *)
Definition demo_path : list Z := [115; 117; 98; 47; 97; 46; 98; 105; 110].

Lemma demo_plain : plain_path demo_path.
Proof.
  split; [cbn; lia|]. split; [vm_compute; congruence|]. exists [[115; 117; 98]], [97; 46; 98; 105; 110]. split; [reflexivity|]. split.
  - constructor; [|constructor]. right. split; [reflexivity|]. split; [cbn; lia|vm_compute; congruence].
  - split; [reflexivity|]. split; [cbn; lia|vm_compute; congruence].
Qed.

Lemma fat_reads_tree_witness :
  exists id b' b2, fs_fat_open FAT_FUEL demo_vol demo_state demo_path = Some (inr (id, 3), b') /\ fs_fat_pread demo_vol b' true id 3 1 5 = (FS_FAT_E_OK, [8; 9], b2).
Proof.
  pose proof (fat_reads_tree FAT_FUEL demo_vol demo_state tree demo_path demo_vol_ok demo_vol_fits demo_good demo_inv (le_n _) demo_holds demo_plain) as H.
  assert (lookup_tree tree demo_path = Some (NFile [7; 8; 9])) as E by (vm_compute; reflexivity). rewrite E in H. destruct H as (id & size & b' & Eo & K & -> & Rd).
  destruct (Rd b' 1 5 K ltac:(lia) ltac:(lia)) as (b2 & Ep & _). exists id, b', b2. split; [exact Eo|exact Ep].
Defined.

(** * A damaged volume: the table says cluster 6 follows itself *)

Definition ring_image (a : Z) : Z := if a <? 512 then from_addr 0 bpb a else if a <? 1024 then from_addr 512 (table ++ [0x06; 0xF0; 0xFF]) a else 65.
Definition ring_state : bio * ram_disk := (bio_init (Some (replicate (64 * 4096) 0)) bio_zero, mkRam 16 (fun _ a => ring_image a)).

Lemma ring_inv : block_inv ring_state.
Proof. apply (bio_init_settled (replicate (64 * 4096) 0) (mkRam 16 (fun _ a => ring_image a))). rewrite length_replicate. unfold BIO_NBUFS, BIO_PAGE_BYTES. lia. Qed.

Lemma ring_good s : 0 <= s < 16 -> good ring_state s.
Proof.
  intros Hs s' Hs'. change (s' < 16). change BIO_SECTORS_PER_PAGE with 8 in Hs'. pose proof (Z.div_le_mono s 15 8 ltac:(lia) ltac:(lia)) as D. change (15 / 8) with 1 in D. lia.
Qed.

Lemma fat_ring_hangs_witness : fat_entry demo_vol (disk ring_state) 6 = 6 /\ forall fuel, dir_find fuel demo_vol ring_state (mkDir false 6) a_bin = None.
Proof.
  split; [change (disk ring_state) with (fun a => w8 (ring_image a)); vm_compute; reflexivity|]. intros fuel. apply (fat_ring_hangs fuel demo_vol ring_state 6 a_bin demo_vol_ok ring_inv eq_refl).
  - change (disk ring_state) with (fun a => w8 (ring_image a)). vm_compute. reflexivity.
  - intros s Hs. apply ring_good. change (7 <= s < 7 + 1) in Hs. lia.
  - intros s Hs. apply ring_good. change (1 + 9 / 512 <= s <= 1 + 10 / 512) in Hs. change (1 <= s <= 1) in Hs. lia.
  - change (disk ring_state) with (fun a => w8 (ring_image a)). assert (slots (clus_data demo_vol (fun a => w8 (ring_image a)) 6) = replicate 16 (replicate 32 65)) as -> by (vm_compute; reflexivity).
    intros de Hd. apply elem_of_replicate in Hd as [-> _]. discriminate.
  - change (disk ring_state) with (fun a => w8 (ring_image a)). vm_compute. reflexivity.
Defined.

(** * The last page of a disk

    A disk whose sectors are no multiple of a page's: the driver reads its last
    sector, the cache never does. *)

Lemma last_page_unreadable n dk drive :
  rd_sectors dk mod 8 <> 0 -> 0 < rd_sectors dk < 2 ^ 40 ->
  (exists data, ata_kread dk drive (rd_sectors dk - 1) 1 = (0, data, dk)) /\
  exists out b' dk', bio_read (S n) (bio_init (Some (replicate (64 * 4096) 0)) bio_zero) dk drive (rd_sectors dk - 1) 1 = Some (1, out, b', dk').
Proof.
  intros Hm Hr. set (c := rd_sectors dk) in *. split.
  { cbn [ata_kread ram_ops]. unfold ram_kread. fold c. replace (c - 1 + 1 <=? c) with true by lia. by eexists. }
  set (b := bio_init _ _). assert (bufs_ok (bio_bufs b) /\ forall i x, bio_bufs b !! i = Some x -> bb_valid x = false /\ bb_busy x = false) as [Ok Idle] by (apply boot_bufs; rewrite length_replicate; unfold BIO_NBUFS, BIO_PAGE_BYTES; lia).
  assert (bio_ready b = true) as Rd by done. clearbody b. unfold bio_read. rewrite Rd. cbn [negb]. change (1 =? 0) with false. cbn iota. cbn [read_loop]. change (0 <? 1) with true. cbn iota.
  change (bio_bufs b) with (bio_bufs (count_req b)) in *. set (b0 := count_req b) in *. clearbody b0. clear b Rd. unfold page_get. destruct (begin_spec b0 drive (run_page (c - 1) 0)) as [G|E]; [|by pose proof (ck_length _ Ok) as L; rewrite E in L].
  destruct (page_get_begin b0 drive (run_page (c - 1) 0)) as [[i| |i] b1].
  - destruct G as (x & _ & Hi & _ & V & _). destruct (Idle i x Hi). congruence.
  - destruct G as (_ & i & x & Hi & B). destruct (Idle i x Hi). congruence.
  - destruct G as (x & Hi & _ & _ & _ & _ & Eb). unfold run_page. change BIO_SECTORS_PER_PAGE with 8. rewrite Z.add_0_r, (w64_small (c - 1)) by lia. pose proof (Z.div_mod c 8 ltac:(lia)). pose proof (Z.mod_pos_bound c 8 ltac:(lia)).
    assert ((c - 1) / 8 = c / 8) as -> by (symmetry; apply (Z.div_unique _ 8 _ (c mod 8 - 1)); lia). rewrite w64_small by lia. cbn [ata_kread ram_ops]. unfold ram_kread. fold c. replace (c / 8 * 8 + 8 <=? c) with false by lia.

    set (b2 := fill_buf _ _ _ _). assert (exists y, bio_bufs b2 !! i = Some y) as [y Hy].
    { destruct (fill_spec b1 i _ 0 (replicate (Z.to_nat (8 * 512)) 0) ltac:(rewrite Eb; apply list_lookup_insert_eq; by eapply lookup_lt_Some)) as [E2 _]. unfold b2. rewrite E2. eexists. apply list_lookup_insert_eq. rewrite Eb, length_insert. by eapply lookup_lt_Some. }
    clearbody b2. destruct (end_spec b2 i y 6 Hy) as (o & retry & b3 & st & -> & _ & He). change (negb (6 =? 0)) with true in He. cbn iota in He. destruct He as (-> & -> & _). by eexists _, _, _.
Qed.
